(* ===== verification/_CoqProject ===== *)
-Q . S2P
Prelude.v
JsString.v
JsNumber.v
JsJson.v
JsMap.v
CryptoAad.v
Table.v
StatusMachine.v
EmergencyAccess.v
EmergencyAccessApi.v
AccessRequest.v
IpAccess.v
AuditChain.v
AuditOutbox.v
ScopeParser.v
RateLimit.v
AccountLockout.v
PasskeyPolicy.v
McpOAuth.v
ScimFilter.v
TagTree.v
WorkQueue.v
OutboxWorker.v
Dpop.v
ExtToken.v
ExtTokenSafety.v
DirectoryProviders.v
DirectorySync.v
DirectorySyncSpec.v
SessionCache.v
AccessRestriction.v
Proxy.v
ProxySafety.v
Vault.v
VaultRotation.v
VaultSafety.v
VaultSpec.v
VaultExamples.v
TenantAuth.v
DualControl.v
AdminControl.v
AdminControlSafety.v
AdminControlSpec.v
AdminControlExamples.v
ScimPatch.v
ScimProvisioning.v
ScimSafety.v
ScimConfinement.v
ScimExamples.v
Delegation.v
DelegationRoutes.v
McpServer.v
DelegationSafety.v
DelegationLifecycle.v
DelegationExamples.v
