(* ===== verification/Prelude.v ===== *)
(** * passwd-sso: a verification library

    passwd-sso is a self-hosted password manager with single sign-on: a
    TypeScript server over PostgreSQL (Prisma, row-level security), background
    workers, a browser extension and a command-line client.  The vault is
    encrypted on the client; the server decides who may obtain which ciphertext,
    key escrow or token, and keeps a tamper-evident audit log.  This library
    models the parts of the server that carry those decisions, operation by
    operation, and proves the properties that make them correct.

    ** Parts and files

    Language and library models (no claims of their own):
    - [Prelude]: outcomes of functions that return or throw, programs over a
      state with Hoare triples, tactics, the hint database [psso];
    - [JsString], [JsNumber], [JsJson], [JsMap]: the JavaScript strings (16-bit
      units, UTF-8 encoding), numbers (doubles and their shortest decimal form),
      JSON texts and insertion-ordered Maps the sources use;
    - [Table]: Prisma's [findUnique], [updateMany] and [deleteMany] on finite
      maps from primary key to row;
    - [StatusMachine]: the guarded-transition pattern (matrix, compare-and-swap
      on the status, scope required under the row-level-security bypass) as a
      class; [EmergencyAccess] and [AccessRequest] are its instances.

    Components:
    - [CryptoAad]: src/src/lib/crypto/crypto-aad.ts and the CLI port, the
      builders of the additional authenticated data of every ciphertext.  Shown:
      the registry is injective over all builders and arguments, the
      buffer-filling code is the documented layout on every input, the CLI port
      interoperates.
    - [EmergencyAccess], [EmergencyAccessApi]: src/src/lib/emergency-access/ and
      the handlers of src/src/app/api/emergency-access/.  A grant is a row of
      the table, a handler reads in one state and writes in a later one.  Shown:
      the invariant of all reachable states (timeline, key pair and escrow columns of
      each status), the waiting period, finality of
      REVOKED and REJECTED, confidentiality of the vault handler, exactness of
      the stale marking; and two interleavings the handlers do not exclude.
    - [AccessRequest]: src/src/lib/access-request/ and the handlers of
      src/src/app/api/tenant/access-requests/.  Shown: dual control and single
      issuance as an invariant, finality of decisions, what an approval issues.
    - [IpAccess]: src/src/lib/auth/policy/ip-access.ts.  Shown: CIDR matching is
      interval membership, the parsers read back every RFC 4291 spelling, the
      client address cannot be forged past the trusted proxies.
    - [AuditChain], [AuditOutbox]: src/src/lib/audit/ and the delivery part of
      src/src/workers/audit-outbox-worker.ts.  Shown: the verifier's verdict is
      its specification, accepted chains with one anchor record the same events
      unless their hashed strings collide, the writer's chains satisfy the
      verifier, each outbox row is logged at most once.
    - [ScopeParser]: src/src/lib/auth/policy/scope-parser.ts.  Shown: the parser
      decides the scope grammar and prints back, granting is a preorder.
    - [RateLimit]: src/src/lib/security/rate-limit.ts and rate-limit-audit.ts.
      Shown: the in-memory quota, soundness of fail-closed limiters, throttling
      of audit events, bounded memory.
    - [AccountLockout]: src/src/lib/auth/policy/account-lockout.ts.  Shown:
      progressive lockout, the fallback is never weaker than a policy, outcome of
      every branch, bounded and fresh threshold cache.
    - [PasskeyPolicy], [McpOAuth]: src/src/lib/auth/policy/passkey-enforcement.ts
      and src/src/lib/mcp/oauth-server.ts.  The gate of the first is called at
      the mint points of the second.  Shown, over every interleaving: codes are
      redeemed once, refresh rotation is linear and keeps the grant, reuse
      revokes the family, a successful refresh was admitted by every check,
      revocation is final; and one interleaving in which a rotation outlives the
      revocation of its family.
    - [ScimFilter]: src/src/lib/scim/filter-parser.ts and its use in the list
      handler of src/src/app/api/scim/v2/Users/.  Shown: printed filters read
      back, the query built from a filter selects exactly the members of the
      tenant that satisfy it, and when the answer is empty without a query.
    - [TagTree]: src/src/lib/format/tag-tree.ts and the handlers of
      src/src/app/api/tags/.  Shown: the validation of a move is exact, serial
      requests keep the tags a bounded forest, the built tree is complete and
      paths are those of the forest; and two ways to a cycle the handlers leave
      open.
    - [WorkQueue], [OutboxWorker]: the lease-based queues of
      src/src/workers/audit-outbox-worker.ts (claim, retry with back-off, reap,
      dead-letter, purge) and the worker over its three queues, webhook delivery
      and the depth alarm.  Shown: among workers that settle a row only under
      their own lease a claim is exclusive, the outbox drains under a fair schedule
      while no chain is paused, dead letters are recorded; and what happens to a row
      that is settled after its lease, and to the queue while a chain is paused.
    - [Dpop]: src/src/lib/auth/dpop/.  Shown: which proofs are accepted, that an
      accepted proof was signed for the request by a key with the bound thumbprint
      (another one only if the two keys collide), that it is not accepted twice within the cache's lifetime, and that client and server
      build the same target URI.
    - [ExtToken], [ExtTokenSafety]: src/src/lib/auth/tokens/extension-token.ts
      and mobile-token.ts and their routes, over the proofs of [Dpop].  Shown,
      over every interleaving: the invariant of the token families, soundness of
      validation, single use of bridge codes and rotations, the cap on active
      tokens, revocation of a replayed family.
    - [DirectoryProviders], [DirectorySync], [DirectorySyncSpec]:
      src/src/lib/directory-sync/.  The clients of the three providers are
      programs over a network, the engine is a program over the tables that other
      requests may change between its phases.  Shown: requests stay within the
      provider's origin and a bounded number, owners are never deactivated, the
      guard bounds deactivations, a failed run changes nobody, and, when nothing
      interferes, a dry run predicts and a successful run leaves the tenant
      reconciled with the provider's answer; the lock is released.
    - [SessionCache]: src/src/lib/auth/session/session-cache.ts,
      session-cache-helpers.ts, user-session-invalidation.ts and the session lookup of
      src/src/lib/proxy/auth-gate.ts.  Shown: no cache entry keeps a deleted
      session alive, the cache reads back what it stores, what an invalidation removes.
    - [AccessRestriction]: src/src/lib/auth/policy/access-restriction.ts and
      src/src/lib/services/tailscale-client.ts.  Shown: a decision is that of a
      policy and a tailnet of bounded age whatever the interleaving, the
      self-lockout preview is exact.
    - [Proxy], [ProxySafety]: src/proxy.ts, src/src/proxy.ts, src/src/lib/proxy/,
      src/src/lib/http/cors.ts and auth/session/csrf.ts, composed from
      [SessionCache], [AccessRestriction], [IpAccess], [Dpop]'s URLs and
      [PasskeyPolicy].  Shown, for the paths that the matcher of src/proxy.ts
      accepts: what reaches a handler or a page, by a session and a network policy of
      bounded age, which origins may send cookies, where credentialed CORS is
      allowed; and that other paths pass the proxy by.
    - [Vault], [VaultRotation]: the personal vault.  The first holds the tables
      and the routes that write one entry at a time (src/src/app/api/passwords,
      src/src/app/api/v1/passwords, src/src/lib/services,
      src/src/lib/vault/key-version-guard.ts), the second the key: setup,
      passphrase change, recovery, attachments, rotation
      (src/src/lib/vault/rotate-key-server.ts) and reset (vault-reset.ts).
      [VaultSafety] has the invariant and the exact effect of a rotation and a
      reset, [VaultSpec] the runs and the claims, [VaultExamples] a worked vault.
      Shown, whatever is committed between the reads of a request and its
      transaction: every row stays under the current key of its owner, a rotation
      re-encrypts everything or nothing and touches no other row, leaves no
      recovery or passkey wrapping and no armed grant of the old key, excludes every
      other rotation and loses no edit while history rows are new and kept, and an
      edit can be undone.
    - [TenantAuth]: roles and permissions of a tenant
      (src/src/lib/auth/access/tenant-auth.ts, tenant-role-hierarchy.ts,
      maintenance-auth.ts).
    - [DualControl], [AdminControl]: the destructive administrative actions.  The
      first is the abstract ceremony: one administrator initiates, another
      approves, then it is executed once within the window of the approval unless
      it is revoked.  The second holds the routes: the reset of a member's vault
      (src/src/app/api/tenant/members/[userId]/reset-vault,
      src/src/app/api/vault/admin-reset), the rotation of the master key
      (src/src/app/api/admin/rotate-master-key) and the operator tokens
      (src/src/lib/auth/tokens/operator-token.ts, admin-token.ts).
      [AdminControlSafety] says what each route does, [AdminControlSpec] that runs
      of the routes refine the ceremony, so that a vault is wiped, or share links
      are revoked, only after two different administrators with the authority for
      it decided it; [AdminControlExamples] has a worked tenant and two cases in
      which the routes do less than their comments say.  A request is one step of
      a run; what it read may be any earlier state.
    - [ScimPatch], [ScimProvisioning]: provisioning by an identity provider
      (src/src/lib/scim/, src/src/lib/services/scim-user-service.ts and
      scim-group-service.ts, src/src/lib/auth/tokens/scim-token.ts and the
      handlers of src/src/app/api/scim/v2/).  A request is one transaction in the
      context of the token's tenant.  [ScimSafety] has the effect of each service
      and that a full replacement of a user or a group is exact and read back,
      [ScimConfinement] a relation every request keeps between the tables before
      and after it (other tenants untouched, no owner made, protected owners kept)
      and the integrity along every run, [ScimExamples] a worked tenant and the
      cases in which the routes part from their documentation.
    - [Delegation], [DelegationRoutes], [McpServer]: the sessions in which a user
      lets the agent behind an MCP token read chosen entries
      (src/src/lib/auth/access/delegation.ts, src/src/app/api/vault/delegation), the
      check of the decrypt agent with the authentication by session or bearer
      token (src/src/lib/auth/session/auth-or-token.ts), the revocation of
      connections (src/src/app/api/user/mcp-tokens), and the JSON-RPC server with
      its tools (src/src/lib/mcp/server.ts, tools.ts, src/src/app/api/mcp/route.ts).
      A handler commits several times; each commit is an operation, Redis holds
      sealed metadata under a time-out.  [DelegationSafety] shows, over runs in
      which anybody may revoke sessions and write to Redis, who is authorised and
      what an agent is shown; [DelegationLifecycle] what a creation and a
      revocation do when nobody interferes; [DelegationExamples] has worked
      tables and the interleavings the handlers leave open.

    ** Conventions

    Handlers and transactions are functions on an explicit state.  Reads of a
    transaction are given as separate, earlier states, since Read Committed
    transactions take no lock on what they read; compare-and-swap updates act on
    the current state.  Step relations and traces collect the reachable states.
    Timestamps are integers of milliseconds, random values and generated
    identifiers are arguments, and inserts respect primary keys and unique
    indexes.  Node's hash functions are parameters.  Where the source locks the
    row or the user its transaction decides on ([Vault]: the users row is locked
    FOR SHARE or FOR UPDATE, or the user's advisory lock is taken), the
    transaction is one step; ciphertexts are opaque.  A SCIM request reads one
    earlier state in all its statements.  [JsString.js_to_lower] maps the ASCII
    letters only, so that tailnets and the addresses of [DirectorySync] are compared
    as ASCII; [ScimFilter] takes the mapping as a parameter.

    Fuel: [IpAccess.parseIpv6_fuel] recurses at most once (an embedded dotted
    quad is rewritten to two groups), fuel 2 is enough by [parseIpv6_unfold];
    [JsString.numeral_go] gets the number of binary digits as fuel, enough by
    [numeral_fuel]; the tokeniser and parser of [ScimFilter] get the length of
    their input, enough by [tokenise_total] and [parse_loop_total]; the walks of
    [TagTree] get more than the number of tags, enough by [walk_up_total] and
    [maxDepth_total]; the page loops of [DirectoryProviders] get the page limit
    of the source as fuel.  All other recursion is structural.

    ** Not modelled, and the plan

    E-mail, notification and HTTP plumbing, React components and the browser
    extension are input and output around the modelled code, so are the
    command-line client (but for its port of the associated data) and the timers
    of the workers.  The cryptographic primitives are WebCrypto and node:crypto,
    parameters here.  Of the server's own logic the routes around the OAuth server
    (authorization page, token, registration), session time-outs, team policies,
    API keys and the team vault are left; they follow the patterns of
    [McpOAuth], [ExtToken] and [Vault]. *)

From stdpp Require Export prelude list gmap sorting.
From Stdlib Require Export ZArith Lia.

#[export] Set Default Goal Selector "!".

(** ** Outcomes: a TypeScript function that returns or throws *)

Inductive outcome (E A : Type) : Type :=
| Ok (a : A)
| Throw (e : E).
Arguments Ok {E A} a.
Arguments Throw {E A} e.

#[export] Instance outcome_ret {E} : MRet (outcome E) := fun A a => Ok a.
#[export] Instance outcome_bind {E} : MBind (outcome E) :=
  fun A B f m => match m with Ok a => f a | Throw e => Throw e end.
#[export] Instance outcome_fmap {E} : FMap (outcome E) :=
  fun A B f m => match m with Ok a => Ok (f a) | Throw e => Throw e end.

#[export] Instance outcome_eq_dec {E A} `{EqDecision E, EqDecision A} :
  EqDecision (outcome E A).
Proof. solve_decision. Defined.

(** [catch m h]: [try { m } catch (e) { h e }]. *)
Definition catch {E A} (m : outcome E A) (h : E -> outcome E A) : outcome E A :=
  match m with Ok a => Ok a | Throw e => h e end.

Definition is_ok {E A} (m : outcome E A) : bool :=
  match m with Ok _ => true | Throw _ => false end.

Lemma bind_Ok_inv {E A B} (m : outcome E A) (f : A -> outcome E B) b :
  m ≫= f = Ok b <-> exists a, m = Ok a /\ f a = Ok b.
Proof. destruct m; simpl; naive_solver. Qed.

(** ** Programs over a state: [await] calls that may throw *)

Definition st (S E A : Type) : Type := S -> S * outcome E A.

Section State.
Context {S E : Type}.

Definition st_lift {A} (r : outcome E A) : st S E A := fun s => (s, r).
Definition st_ret {A} (a : A) : st S E A := fun s => (s, Ok a).
Definition st_throw {A} (e : E) : st S E A := fun s => (s, Throw e).
Definition st_bind {A B} (m : st S E A) (f : A -> st S E B) : st S E B :=
  fun s => match m s with (s', Ok a) => f a s' | (s', Throw e) => (s', Throw e) end.

(** [for (const x of l) await f(x)] *)
Fixpoint st_for {A} (f : A -> st S E unit) (l : list A) : st S E unit :=
  match l with
  | [] => st_ret tt
  | x :: l' => st_bind (f x) (fun _ => st_for f l')
  end.

Lemma st_bind_Ok_inv {A B} (m : st S E A) (f : A -> st S E B) s s' b :
  st_bind m f s = (s', Ok b) <-> exists s1 a, m s = (s1, Ok a) /\ f a s1 = (s', Ok b).
Proof. unfold st_bind. destruct (m s) as [s1 [a|e]]; naive_solver. Qed.

(** What every iteration keeps, a loop keeps, whether or not it throws. *)
Lemma st_for_invariant {A} (P : S -> Prop) (f : A -> st S E unit) l s :
  (forall x s, x ∈ l -> P s -> P (fst (f x s))) -> P s -> P (fst (st_for f l s)).
Proof.
  revert s. induction l as [|x l IH]; intros s Hf Hs; [done|]. simpl. unfold st_bind.
  assert (Hx : P (fst (f x s))) by (apply Hf; [set_solver|done]).
  destruct (f x s) as [s1 [a|e]]; simpl in *; [|done]. apply IH; [set_solver|done].
Qed.

(** Hoare triples: [Q] when the program returns, [X] when it throws. *)
Definition triple {A} (P : S -> Prop) (m : st S E A) (Q : A -> S -> Prop) (X : S -> Prop) : Prop :=
  forall s, P s -> match m s with (s', Ok a) => Q a s' | (s', Throw _) => X s' end.

Lemma triple_ret {A} (a : A) (Q : A -> S -> Prop) X : triple (Q a) (st_ret a) Q X.
Proof. intros s H. exact H. Qed.

Lemma triple_lift {A} (r : outcome E A) (P X : S -> Prop) :
  (forall s, P s -> X s) -> triple P (st_lift r) (fun a s => P s /\ r = Ok a) X.
Proof. intros HX s H. unfold st_lift. destruct r; auto. Qed.

Lemma triple_bind {A B} (m : st S E A) (f : A -> st S E B) P R Q X :
  triple P m R X -> (forall a, triple (R a) (f a) Q X) -> triple P (st_bind m f) Q X.
Proof.
  intros Hm Hf s Hs. unfold st_bind. specialize (Hm s Hs). destruct (m s) as [s' [a|e]]; [|exact Hm].
  by apply Hf.
Qed.

Lemma triple_for {A} (f : A -> st S E unit) l (P : S -> Prop) X :
  (forall x, x ∈ l -> triple P (f x) (fun _ => P) X) -> triple P (st_for f l) (fun _ => P) X.
Proof.
  induction l as [|x l IH]; intros Hf; simpl; [apply (triple_ret tt (fun _ => P))|].
  apply (triple_bind _ _ _ (fun _ => P)); [apply Hf; set_solver|]. intros _. apply IH. set_solver.
Qed.

Lemma triple_weaken {A} (m : st S E A) (P P' : S -> Prop) (Q Q' : A -> S -> Prop) (X X' : S -> Prop) :
  triple P m Q X -> (forall s, P' s -> P s) -> (forall a s, Q a s -> Q' a s) -> (forall s, X s -> X' s) ->
  triple P' m Q' X'.
Proof.
  intros Hm HP HQ HX s Hs. specialize (Hm s (HP s Hs)). destruct (m s) as [s' [a|e]]; auto.
Qed.
End State.

Declare Scope st_scope.
Delimit Scope st_scope with st.
Notation "'let!' x := m 'in' k" := (st_bind m (fun x => k))
  (at level 10, x binder, k at level 200) : st_scope.
Open Scope st_scope.

(** ** Automation *)

Create HintDb psso.

(** Case analysis on the innermost scrutinee of the goal or of a hypothesis,
    followed by the simplifications that a branch of the source licenses. *)
Ltac step_case :=
  match goal with
  | H : context [match ?x with _ => _ end] |- _ =>
      lazymatch x with
      | context [match _ with _ => _ end] => fail
      | _ => destruct x eqn:?; simplify_eq/=
      end
  | |- context [match ?x with _ => _ end] =>
      lazymatch x with
      | context [match _ with _ => _ end] => fail
      | _ => destruct x eqn:?; simplify_eq/=
      end
  end.

Ltac cases := repeat step_case.

(** Turn the boolean tests of the source into propositions. *)
Ltac bools :=
  repeat match goal with
  | H : _ && _ = true |- _ => apply andb_true_iff in H; destruct H
  | H : _ || _ = false |- _ => apply orb_false_iff in H; destruct H
  | H : _ || _ = true |- _ => apply orb_true_iff in H
  | H : _ && _ = false |- _ => apply andb_false_iff in H
  | H : negb _ = true |- _ => apply negb_true_iff in H
  | H : negb _ = false |- _ => apply negb_false_iff in H
  | H : bool_decide _ = true |- _ => apply bool_decide_eq_true in H
  | H : bool_decide _ = false |- _ => apply bool_decide_eq_false in H
  | H : (_ =? _)%Z = true |- _ => apply Z.eqb_eq in H
  | H : (_ =? _)%Z = false |- _ => apply Z.eqb_neq in H
  | H : (_ <? _)%Z = true |- _ => apply Z.ltb_lt in H
  | H : (_ <? _)%Z = false |- _ => apply Z.ltb_ge in H
  | H : (_ <=? _)%Z = true |- _ => apply Z.leb_le in H
  | H : (_ <=? _)%Z = false |- _ => apply Z.leb_gt in H
  | H : (_ >? _)%Z = true |- _ => apply Z.gtb_gt in H
  | H : (_ >? _)%Z = false |- _ => rewrite Z.gtb_ltb in H; apply Z.ltb_ge in H
  end.

Ltac finish := cases; bools; try done; try lia; eauto with psso.

(** Linear arithmetic with division and remainder by constants. *)
Ltac zdiv := Z.to_euclidean_division_equations; lia.
