(* ===== verification/JsString.v ===== *)
(** * JavaScript strings

    A JavaScript string is a sequence of 16-bit code units; [jsstr] is a list
    of integers, one per code unit.  This file models the string operations of
    the standard library that the sources call ([split], [join], [trim],
    [slice], [includes], [lastIndexOf], [toLowerCase], [String(n)],
    [n.toString(16)], [TextEncoder.encode]) and proves the laws the components
    rely on: [join] inverts [split], numerals read back, and UTF-8 encoding is
    injective on strings without lone surrogates. *)

From Stdlib Require Import Ascii.
From Stdlib Require Export (notations) String.
From S2P Require Import Prelude.
Local Open Scope Z_scope.

Abbreviation jsstr := (list Z).

(** A string literal of the source. *)
Fixpoint js (s : String.string) : jsstr :=
  match s with
  | String.EmptyString => []
  | String.String a s' => Z.of_nat (nat_of_ascii a) :: js s'
  end.
Arguments js s%_string_scope : simpl never.

Declare Scope js_scope.
Delimit Scope js_scope with js.
(** [a =s b] is [a === b] on strings. *)
Notation "a =s b" := (bool_decide (a = b)) (at level 70, no associativity) : js_scope.
Open Scope js_scope.

(** ** Searching *)

Fixpoint js_starts_with (p s : jsstr) : bool :=
  match p, s with
  | [], _ => true
  | c :: p', d :: s' => (c =? d) && js_starts_with p' s'
  | _ :: _, [] => false
  end.

Definition js_ends_with (p s : jsstr) : bool :=
  js_starts_with (rev p) (rev s).

Fixpoint js_includes (p s : jsstr) : bool :=
  js_starts_with p s ||
  match s with [] => false | _ :: s' => js_includes p s' end.

(** Index of the last occurrence of a one-unit string, [None] for -1. *)
Fixpoint js_last_index_of (c : Z) (s : jsstr) : option nat :=
  match s with
  | [] => None
  | d :: s' =>
      match js_last_index_of c s' with
      | Some i => Some (S i)
      | None => if d =? c then Some 0%nat else None
      end
  end.

Definition js_has (c : Z) (s : jsstr) : bool := existsb (Z.eqb c) s.

(** ** Splitting and joining *)

(** [s.split(sep)] for a non-empty separator: scan left to right, [skip]
    counts the units of a matched separator still to be passed over. *)
Fixpoint js_split_go (sep s cur : jsstr) (skip : nat) : list jsstr :=
  match s with
  | [] => [rev cur]
  | c :: s' =>
      match skip with
      | S k => js_split_go sep s' cur k
      | O => if js_starts_with sep s
             then rev cur :: js_split_go sep s' [] (length sep - 1)
             else js_split_go sep s' (c :: cur) 0
      end
  end.

Definition js_split (sep s : jsstr) : list jsstr := js_split_go sep s [] 0.

Fixpoint js_join (sep : jsstr) (parts : list jsstr) : jsstr :=
  match parts with
  | [] => []
  | [p] => p
  | p :: ps => p ++ sep ++ js_join sep ps
  end.

(** ** Case and white space *)

(** [toLowerCase], on the units A..Z; the other units are left alone. *)
Definition lower_unit (c : Z) : Z :=
  if (65 <=? c) && (c <=? 90) then c + 32 else c.
Definition js_to_lower (s : jsstr) : jsstr := map lower_unit s.

(** [toUpperCase].  Beyond a..z these are the units whose upper case is ASCII
    text; every other unit has an upper case with a unit outside ASCII and is left
    alone, so that comparing the result with ASCII text is exact. *)
Definition upper_unit (c : Z) : jsstr :=
  if (97 <=? c) && (c <=? 122) then [c - 32]
  else match c with
       | 223 => js "SS" | 305 => js "I" | 383 => js "S"
       | 64256 => js "FF" | 64257 => js "FI" | 64258 => js "FL" | 64259 => js "FFI"
       | 64260 => js "FFL" | 64261 | 64262 => js "ST"
       | _ => [c]
       end.
Definition js_to_upper (s : jsstr) : jsstr := concat (map upper_unit s).

(** White space and line terminators of ECMA-262, as [trim] strips them. *)
Definition js_is_space (c : Z) : bool :=
  ((9 <=? c) && (c <=? 13)) || (c =? 32) || (c =? 160) || (c =? 5760)
  || ((8192 <=? c) && (c <=? 8202)) || (c =? 8232) || (c =? 8233)
  || (c =? 8239) || (c =? 8287) || (c =? 12288) || (c =? 65279).

Fixpoint drop_spaces (s : jsstr) : jsstr :=
  match s with
  | c :: s' => if js_is_space c then drop_spaces s' else s
  | [] => []
  end.
Definition js_trim (s : jsstr) : jsstr := rev (drop_spaces (rev (drop_spaces s))).

(** [v != null], and the value of a string or null where JavaScript tests its
    truth: the empty string counts as absent. *)
Definition has {A} (v : option A) : bool := match v with Some _ => true | None => false end.
Definition nonempty (s : option jsstr) : option jsstr := match s with Some ((_ :: _) as x) => Some x | _ => None end.

Lemma nonempty_Some (o : option jsstr) u : nonempty o = Some u <-> o = Some u /\ u <> [].
Proof. destruct o as [[|c l]|]; cbn; naive_solver. Qed.

(** [auth.match(/^Scheme\s+(.+)$/i)?.[1].trim()] of a header value, which has no
    line break. *)
Definition bearer_of (scheme : jsstr) (auth : option jsstr) : option jsstr :=
  match auth with
  | Some a =>
      let n := length scheme in
      if (js_to_lower (take n a) =s js_to_lower scheme)
         && match drop n a with c :: _ :: _ => js_is_space c | _ => false end
      then Some (js_trim (drop n a)) else None
  | None => None
  end.

(** ** Character classes of the sources' regular expressions *)

Definition is_digit (c : Z) : bool := (48 <=? c) && (c <=? 57).
Definition is_hex_digit (c : Z) : bool :=
  is_digit c || ((97 <=? c) && (c <=? 102)) || ((65 <=? c) && (c <=? 70)).

(** ** Numerals *)

Definition digit_unit (d : Z) : Z := if d <? 10 then 48 + d else 87 + d.

Definition digit_val (c : Z) : Z :=
  if is_digit c then c - 48
  else if (97 <=? c) && (c <=? 122) then c - 87
  else c - 55.

Fixpoint numeral_go (b : Z) (fuel : nat) (n : Z) (acc : jsstr) : jsstr :=
  match fuel with
  | O => acc
  | S f =>
      let acc' := digit_unit (n mod b) :: acc in
      if n / b =? 0 then acc' else numeral_go b f (n / b) acc'
  end.

(** [n.toString(b)] for a non-negative integer; the fuel bounds the number of
    digits by the number of bits. *)
Definition numeral (b n : Z) : jsstr :=
  numeral_go b (Z.to_nat (Z.log2 n) + 1) n [].

(** [String(n)] for an integer below 10^21 in absolute value. *)
Definition js_of_Z (n : Z) : jsstr :=
  if n <? 0 then 45 :: numeral 10 (- n) else numeral 10 n.

Definition numeral_val (b : Z) (s : jsstr) : Z :=
  fold_left (fun a c => b * a + digit_val c) s 0.

(** ** UTF-8 *)

Definition is_high_surrogate (c : Z) : bool := (55296 <=? c) && (c <=? 56319).
Definition is_low_surrogate (c : Z) : bool := (56320 <=? c) && (c <=? 57343).

(** The scalar values a string denotes; a lone surrogate becomes U+FFFD. *)
Fixpoint js_scalars (s : jsstr) : list Z :=
  match s with
  | [] => []
  | c :: s' =>
      if is_high_surrogate c then
        match s' with
        | d :: s'' =>
            if is_low_surrogate d
            then (65536 + (c - 55296) * 1024 + (d - 56320)) :: js_scalars s''
            else 65533 :: js_scalars s'
        | [] => [65533]
        end
      else if is_low_surrogate c then 65533 :: js_scalars s'
      else c :: js_scalars s'
  end.

Definition utf8_scalar (p : Z) : list Z :=
  if p <? 128 then [p]
  else if p <? 2048 then [192 + p / 64; 128 + p mod 64]
  else if p <? 65536 then
    [224 + p / 4096; 128 + (p / 64) mod 64; 128 + p mod 64]
  else [240 + p / 262144; 128 + (p / 4096) mod 64;
        128 + (p / 64) mod 64; 128 + p mod 64].

(** [new TextEncoder().encode(s)] *)
Definition js_utf8 (s : jsstr) : list Z := concat (map utf8_scalar (js_scalars s)).

(** No lone surrogate, and every unit on 16 bits ([String.isWellFormed]). *)
Fixpoint js_well_formed (s : jsstr) : bool :=
  match s with
  | [] => true
  | c :: s' =>
      if is_high_surrogate c then
        match s' with
        | d :: s'' => is_low_surrogate d && js_well_formed s''
        | [] => false
        end
      else negb (is_low_surrogate c) && (0 <=? c) && (c <? 65536) && js_well_formed s'
  end.

(** ** Laws of searching and splitting *)

Lemma js_starts_with_spec p s :
  js_starts_with p s = true <-> exists r, s = p ++ r.
Proof.
  revert s. induction p as [|c p IH]; intros [|d s]; simpl.
  - naive_solver.
  - naive_solver.
  - naive_solver.
  - rewrite andb_true_iff, Z.eqb_eq, IH. naive_solver.
Qed.

Lemma js_starts_with_singleton c d s :
  js_starts_with [c] (d :: s) = (c =? d).
Proof. simpl. by rewrite andb_true_r. Qed.

Lemma js_has_spec c s : js_has c s = true <-> c ∈ s.
Proof.
  unfold js_has. rewrite existsb_exists. setoid_rewrite Z.eqb_eq.
  setoid_rewrite <- list_elem_of_In. naive_solver.
Qed.

Lemma js_has_false c s : js_has c s = false <-> c ∉ s.
Proof. rewrite <- not_true_iff_false, js_has_spec. done. Qed.

Lemma js_split_go_nonempty sep s cur k : js_split_go sep s cur k <> [].
Proof.
  revert cur k. induction s as [|c s IH]; intros cur [|k]; simpl; try done.
  case_match; done.
Qed.

Lemma js_join_cons sep p ps :
  ps <> [] -> js_join sep (p :: ps) = p ++ sep ++ js_join sep ps.
Proof. by destruct ps. Qed.

(** Skipping the units of a matched separator. *)
Lemma js_split_go_skip sep s cur r :
  js_split_go sep (r ++ s) cur (length r) = js_split_go sep s cur 0.
Proof. induction r as [|c r IH]; simpl; [done|]. apply IH. Qed.

Lemma js_split_go_join sep s cur n :
  sep <> [] -> (length s <= n)%nat ->
  js_join sep (js_split_go sep s cur 0) = rev cur ++ s.
Proof.
  intros Hsep. revert s cur. induction n as [|n IH]; intros s cur Hn.
  { destruct s; simpl in *; [by rewrite app_nil_r | lia]. }
  destruct s as [|c s]; [simpl; by rewrite app_nil_r|].
  cbn [js_split_go]. simpl in Hn.
  destruct (js_starts_with sep (c :: s)) eqn:Hp.
  - apply js_starts_with_spec in Hp as [r Hr].
    destruct sep as [|c' sep]; [done|]. simpl in Hr. injection Hr as -> ->.
    simpl length. rewrite Nat.sub_succ, Nat.sub_0_r.
    rewrite js_split_go_skip, js_join_cons by apply js_split_go_nonempty.
    rewrite IH; [done|]. rewrite length_app in Hn. lia.
  - rewrite IH by lia. simpl. by rewrite <- app_assoc.
Qed.

(** [s.split(sep).join(sep) === s]. *)
Lemma js_join_split sep s : sep <> [] -> js_join sep (js_split sep s) = s.
Proof. intros H. unfold js_split. by rewrite (js_split_go_join sep s [] (length s)). Qed.

Lemma js_split_go_pieces c s cur :
  c ∉ cur -> Forall (fun p => c ∉ p) (js_split_go [c] s cur 0).
Proof.
  revert cur. induction s as [|d s IH]; intros cur Hc; cbn [js_split_go].
  - constructor; [by rewrite list_elem_of_In, <- in_rev, <- list_elem_of_In|done].
  - rewrite js_starts_with_singleton. destruct (Z.eqb_spec c d) as [->|Hne].
    + constructor; [by rewrite list_elem_of_In, <- in_rev, <- list_elem_of_In|].
      apply IH. set_solver.
    + apply IH. set_solver.
Qed.

(** No piece of [s.split(c)] contains the separator. *)
Lemma js_split_pieces c s : Forall (fun p => c ∉ p) (js_split [c] s).
Proof. apply js_split_go_pieces. set_solver. Qed.

Lemma js_split_go_app c p s cur :
  c ∉ p ->
  js_split_go [c] (p ++ c :: s) cur 0 = (rev cur ++ p) :: js_split_go [c] s [] 0.
Proof.
  revert cur. induction p as [|d p IH]; intros cur Hc; cbn [app js_split_go].
  - rewrite js_starts_with_singleton, Z.eqb_refl. by rewrite app_nil_r.
  - rewrite js_starts_with_singleton. destruct (Z.eqb_spec c d); [set_solver|].
    rewrite IH by set_solver. simpl. by rewrite <- app_assoc.
Qed.

Lemma js_split_go_last c p cur :
  c ∉ p -> js_split_go [c] p cur 0 = [rev cur ++ p].
Proof.
  revert cur. induction p as [|d p IH]; intros cur Hc; cbn [js_split_go].
  - by rewrite app_nil_r.
  - rewrite js_starts_with_singleton. destruct (Z.eqb_spec c d); [set_solver|].
    rewrite IH by set_solver. simpl. by rewrite <- app_assoc.
Qed.

Lemma js_split_app c p s :
  c ∉ p -> js_split [c] (p ++ c :: s) = p :: js_split [c] s.
Proof. apply js_split_go_app. Qed.

Lemma js_split_none c p : c ∉ p -> js_split [c] p = [p].
Proof. apply js_split_go_last. Qed.

(** [parts.join(c).split(c)] is [parts] when no part contains [c]. *)
Lemma js_split_join c parts :
  parts <> [] -> Forall (fun p => c ∉ p) parts ->
  js_split [c] (js_join [c] parts) = parts.
Proof.
  intros Hne Hall. induction Hall as [|p ps Hp Hps IH]; [done|].
  destruct ps as [|q ps].
  - by apply js_split_none.
  - rewrite js_join_cons by done. cbn [app]. rewrite js_split_app by done.
    by rewrite IH.
Qed.

(** ** Laws of numerals *)

Lemma digit_val_unit d : 0 <= d < 16 -> digit_val (digit_unit d) = d.
Proof.
  intros Hd. unfold digit_unit, digit_val, is_digit.
  repeat (case_match; bools); try lia.
Qed.

Lemma numeral_go_val b fuel n acc :
  1 < b <= 16 -> 0 <= n < b ^ Z.of_nat fuel ->
  (0 < fuel)%nat ->
  exists ds, numeral_go b fuel n acc = ds ++ acc /\ numeral_val b ds = n /\
    ds <> [] /\ Forall (fun c => exists d, 0 <= d < b /\ c = digit_unit d) ds.
Proof.
  intros Hb. revert n acc. induction fuel as [|f IH]; intros n acc Hn Hf; [lia|].
  cbn [numeral_go]. destruct (Z.eqb_spec (n / b) 0) as [H0|H0].
  - exists [digit_unit (n mod b)]. rewrite Nat2Z.inj_succ, Z.pow_succ_r in Hn by lia.
    assert (n mod b = n) by (apply Z.mod_small; apply Z.div_small_iff in H0; lia).
    unfold numeral_val. simpl. rewrite digit_val_unit by (pose proof (Z.mod_pos_bound n b); lia).
    repeat split; [lia | done | repeat constructor].
    exists (n mod b). split; [apply Z.mod_pos_bound; lia | done].
  - assert (Hpos : 0 < n / b) by (pose proof (Z.div_pos n b); lia).
    rewrite Nat2Z.inj_succ, Z.pow_succ_r in Hn by lia.
    assert (Hlt : n / b < b ^ Z.of_nat f) by (apply Z.div_lt_upper_bound; lia).
    destruct f as [|f]; [simpl in Hlt; lia|].
    destruct (IH (n / b) (digit_unit (n mod b) :: acc)) as (ds & Heq & Hv & Hne & Hall);
      [lia | lia |].
    exists (ds ++ [digit_unit (n mod b)]). rewrite Heq, <- app_assoc. split; [done|].
    unfold numeral_val in *. rewrite fold_left_app, Hv. simpl.
    rewrite digit_val_unit by (pose proof (Z.mod_pos_bound n b); lia).
    split; [pose proof (Z.div_mod n b); lia|]. split; [by destruct ds|].
    apply Forall_app. split; [done|]. repeat constructor.
    exists (n mod b). split; [apply Z.mod_pos_bound; lia | done].
Qed.

Lemma numeral_fuel b n :
  1 < b -> 0 <= n -> n < b ^ Z.of_nat (Z.to_nat (Z.log2 n) + 1).
Proof.
  intros Hb Hn. rewrite Nat2Z.inj_add, Z2Nat.id by apply Z.log2_nonneg.
  destruct (Z.eq_dec n 0) as [->|]; [simpl; lia|].
  apply Z.lt_le_trans with (2 ^ (Z.log2 n + 1)).
  - apply Z.log2_spec. lia.
  - apply Z.pow_le_mono_l. lia.
Qed.

Lemma numeral_spec b n :
  1 < b <= 16 -> 0 <= n ->
  numeral_val b (numeral b n) = n /\ numeral b n <> [] /\
  Forall (fun c => exists d, 0 <= d < b /\ c = digit_unit d) (numeral b n).
Proof.
  intros Hb Hn. unfold numeral.
  destruct (numeral_go_val b (Z.to_nat (Z.log2 n) + 1) n []) as (ds & -> & Hv & Hne & Hall).
  - lia.
  - split; [done | apply numeral_fuel; lia].
  - lia.
  - by rewrite app_nil_r.
Qed.

Lemma digit_unit_decimal d : 0 <= d < 10 -> is_digit (digit_unit d) = true.
Proof. intros. unfold digit_unit, is_digit. case_match; bools; lia. Qed.

Lemma digit_unit_hex d : 0 <= d < 16 -> is_hex_digit (digit_unit d) = true.
Proof. intros. unfold digit_unit, is_hex_digit, is_digit. case_match; bools; lia. Qed.

Lemma numeral_decimal n : 0 <= n -> Forall (fun c => is_digit c = true) (numeral 10 n).
Proof.
  intros Hn. destruct (numeral_spec 10 n) as (_ & _ & Hall); [lia..|].
  eapply Forall_impl; [exact Hall|]. intros c (d & Hd & ->). by apply digit_unit_decimal.
Qed.

(** [String(n)] determines [n]. *)
Lemma js_of_Z_inj n m : js_of_Z n = js_of_Z m -> n = m.
Proof.
  unfold js_of_Z. assert (Hhd : forall k r, 0 <= k -> numeral 10 k <> 45 :: r).
  { intros k r Hk Heq. pose proof (numeral_decimal k Hk) as HF.
    rewrite Heq in HF. apply Forall_cons in HF as [HF _]. done. }
  destruct (n <? 0) eqn:En, (m <? 0) eqn:Em; bools; intros Heq.
  - injection Heq as Heq. destruct (numeral_spec 10 (-n)), (numeral_spec 10 (-m)); try lia.
    rewrite <- Heq in *. lia.
  - symmetry in Heq. by apply Hhd in Heq.
  - by apply Hhd in Heq.
  - destruct (numeral_spec 10 n), (numeral_spec 10 m); try lia.
    rewrite <- Heq in *. lia.
Qed.

(** ** UTF-8 is injective on well-formed strings *)

Definition scalar_range (p : Z) : Prop := 0 <= p < 1114112.

Lemma utf8_scalar_inj p q r t :
  scalar_range p -> scalar_range q ->
  utf8_scalar p ++ r = utf8_scalar q ++ t -> p = q /\ r = t.
Proof.
  unfold scalar_range, utf8_scalar. intros Hp Hq.
  repeat case_match; bools; cbn [app]; intros Heq; simplify_eq;
    first [exfalso; zdiv | split; [zdiv | done]].
Qed.

Lemma utf8_scalar_nonempty p : utf8_scalar p <> [].
Proof. unfold utf8_scalar. repeat case_match; done. Qed.

Lemma utf8_scalars_inj ps qs :
  Forall scalar_range ps -> Forall scalar_range qs ->
  concat (map utf8_scalar ps) = concat (map utf8_scalar qs) -> ps = qs.
Proof.
  intros Hp. revert qs. induction Hp as [|p ps Hp Hps IH]; intros [|q qs] Hq; simpl;
    intros Heq; [done | | |].
  - by destruct (app_nil (utf8_scalar q) (concat (map utf8_scalar qs))) as [[?%utf8_scalar_nonempty _] _].
  - by destruct (app_nil (utf8_scalar p) (concat (map utf8_scalar ps))) as [[?%utf8_scalar_nonempty _] _].
  - apply Forall_cons in Hq as [Hq Hqs].
    apply utf8_scalar_inj in Heq as [-> Heq]; [|done..]. f_equal. by apply IH.
Qed.

(** Induction along the surrogate-pair structure of a string. *)
Lemma js_pair_ind (P : jsstr -> Prop) :
  P [] -> (forall c s, P s -> (forall d s', s = d :: s' -> P s') -> P (c :: s)) ->
  forall s, P s.
Proof.
  intros H0 Hc s.
  assert (H : forall n s, (length s <= n)%nat -> P s).
  { induction n as [|n IH]; intros [|c s'] Hn; simpl in *; try done; try lia.
    apply Hc; [apply IH; lia|]. intros d s'' ->. apply IH. simpl in *. lia. }
  by apply (H (length s)).
Qed.

Lemma js_scalars_range s : js_well_formed s = true -> Forall scalar_range (js_scalars s).
Proof.
  induction s as [|c s IH IH2] using js_pair_ind; simpl; [constructor|].
  unfold is_high_surrogate, is_low_surrogate, scalar_range in *.
  destruct ((55296 <=? c) && (c <=? 56319)) eqn:Eh.
  - destruct s as [|d s]; [done|]. intros [Hd Hw]%andb_true_iff. rewrite Hd. bools.
    constructor; [lia|]. by apply (IH2 d s).
  - intros H. rewrite !andb_true_iff, negb_true_iff in H. destruct H as [[[-> ?] ?] ?].
    bools; (constructor; [lia | by apply IH]).
Qed.

Lemma js_scalars_inj s t :
  js_well_formed s = true -> js_well_formed t = true ->
  js_scalars s = js_scalars t -> s = t.
Proof.
  revert t. induction s as [|c s IH IH2] using js_pair_ind; intros t Hs Ht Heq.
  - destruct t as [|d t]; [done|]. simpl in *. cases.
  - destruct t as [|d t]; [simpl in *; cases|]. simpl in *.
    unfold is_high_surrogate, is_low_surrogate in *.
    destruct ((55296 <=? c) && (c <=? 56319)) eqn:Ec,
             ((55296 <=? d) && (d <=? 56319)) eqn:Ed.
    + destruct s as [|c' s]; [done|]. destruct t as [|d' t]; [done|].
      apply andb_true_iff in Hs as [Hs Hs'], Ht as [Ht Ht'].
      rewrite Hs, Ht in Heq. injection Heq as Hcd Heq. bools.
      assert (c = d) as -> by lia. assert (c' = d') as -> by lia.
      do 2 f_equal. by apply (IH2 d' s).
    + destruct s as [|c' s]; [done|]. apply andb_true_iff in Hs as [Hs Hs'].
      rewrite !andb_true_iff, negb_true_iff in Ht. destruct Ht as [[[Hl ?] ?] ?].
      rewrite Hs, Hl in Heq. injection Heq as Heq _. bools; lia.
    + destruct t as [|d' t]; [done|]. apply andb_true_iff in Ht as [Ht Ht'].
      rewrite !andb_true_iff, negb_true_iff in Hs. destruct Hs as [[[Hl ?] ?] ?].
      rewrite Ht, Hl in Heq. injection Heq as Heq _. bools; lia.
    + rewrite !andb_true_iff, negb_true_iff in Hs, Ht.
      destruct Hs as [[[Hl ?] ?] ?], Ht as [[[Hl' ?] ?] ?].
      rewrite Hl, Hl' in Heq. injection Heq as -> Heq. f_equal. by apply IH.
Qed.

(** Distinct well-formed strings have distinct UTF-8 encodings. *)
Lemma js_utf8_inj s t :
  js_well_formed s = true -> js_well_formed t = true ->
  js_utf8 s = js_utf8 t -> s = t.
Proof.
  intros Hs Ht Heq. apply js_scalars_inj; [done..|].
  apply utf8_scalars_inj; auto using js_scalars_range.
Qed.

(** On ASCII strings UTF-8 is the identity. *)
Lemma js_utf8_ascii s : Forall (fun c => 0 <= c < 128) s -> js_utf8 s = s.
Proof.
  induction 1 as [|c s Hc Hs IH]; [done|].
  unfold js_utf8 in *. simpl. unfold is_high_surrogate, is_low_surrogate.
  destruct ((55296 <=? c) && (c <=? 56319)) eqn:E1; [bools; lia|].
  destruct ((56320 <=? c) && (c <=? 57343)) eqn:E2; [bools; lia|].
  simpl. rewrite IH. unfold utf8_scalar. case_match; bools; [done | lia].
Qed.

#[export] Hint Resolve js_split_pieces js_of_Z_inj js_utf8_inj : psso.

(** Splitting distributes over a separator anywhere in the string. *)
Lemma js_split_go_app_any c p s cur :
  js_split_go [c] (p ++ c :: s) cur 0 = js_split_go [c] p cur 0 ++ js_split [c] s.
Proof.
  revert cur. induction p as [|d p IH]; intros cur; cbn [app js_split_go].
  - by rewrite js_starts_with_singleton, Z.eqb_refl.
  - rewrite !js_starts_with_singleton. destruct (c =? d); cbn [app]; by rewrite IH.
Qed.

Lemma js_split_app_any c p s : js_split [c] (p ++ c :: s) = js_split [c] p ++ js_split [c] s.
Proof. apply js_split_go_app_any. Qed.

(** Trimming a string without white space. *)
Lemma js_trim_id s : Forall (fun c => js_is_space c = false) s -> js_trim s = s.
Proof.
  assert (Hd : forall t, Forall (fun c => js_is_space c = false) t -> drop_spaces t = t).
  { intros t Ht. destruct Ht as [|c t Hc Ht]; [done|]. simpl. by rewrite Hc. }
  intros Hs. unfold js_trim. rewrite (Hd s) by done. rewrite Hd.
  - apply rev_involutive.
  - rewrite Forall_forall in *. intros c Hc. apply Hs.
    by rewrite list_elem_of_In, in_rev, <- list_elem_of_In.
Qed.
