(* ===== verification/JsNumber.v ===== *)
(** * Number(s) on strings

    ECMA-262's conversion of a string to a double, as the sources use it on
    query parameters and prefix lengths: the string is trimmed, an empty string
    is 0, hexadecimal, octal and binary literals and signed decimal literals
    with fraction and exponent are read exactly and then rounded to the nearest
    double, ties to even. *)

From S2P Require Import Prelude JsString.
Local Open Scope Z_scope.

(** [Dbl m e] is the double [m * 2 ^ e]. *)
Inductive jsnum := NaN | Inf (neg : bool) | Dbl (m e : Z).

(** The double nearest to [num / den], for [num >= 0] and [den > 0]. *)
Definition round_double (num den : Z) : jsnum :=
  if num =? 0 then Dbl 0 0
  else
    let k0 := Z.log2 num - Z.log2 den in
    let k := if den * 2 ^ Z.max 0 k0 <=? num * 2 ^ Z.max 0 (- k0) then k0 else k0 - 1 in
    let e := Z.max (k - 52) (-1074) in
    let n' := num * 2 ^ Z.max 0 (- e) in
    let d' := den * 2 ^ Z.max 0 e in
    let q := n' / d' in
    let r := n' mod d' in
    let m := if 2 * r <? d' then q
             else if d' <? 2 * r then q + 1
             else if Z.even q then q else q + 1 in
    if 2 ^ 1024 <=? m * 2 ^ Z.max 0 e then Inf false else Dbl m e.

Definition js_neg (x : jsnum) : jsnum :=
  match x with NaN => NaN | Inf b => Inf (negb b) | Dbl m e => Dbl (- m) e end.

Fixpoint span (p : Z -> bool) (s : jsstr) : jsstr * jsstr :=
  match s with
  | c :: s' => if p c then let '(a, b) := span p s' in (c :: a, b) else ([], s)
  | [] => ([], [])
  end.

(** [ExponentPart]: absent, or [e], an optional sign and digits to the end. *)
Definition exponent_part (s : jsstr) : option Z :=
  match s with
  | [] => Some 0
  | c :: r =>
      if (c =? 101) || (c =? 69) then
        let '(sgn, ds) := match r with
                          | 43 :: r' => (1, r')
                          | 45 :: r' => (-1, r')
                          | _ => (1, r)
                          end in
        if negb (length ds =? 0)%nat && forallb is_digit ds
        then Some (sgn * numeral_val 10 ds) else None
      else None
  end.

Definition unsigned_decimal (s : jsstr) : jsnum :=
  if s =s js "Infinity" then Inf false
  else
    let '(ip, r) := span is_digit s in
    let '(fp, r2) := match r with 46 :: r' => span is_digit r' | _ => ([], r) end in
    if (length ip + length fp =? 0)%nat then NaN
    else match exponent_part r2 with
         | None => NaN
         | Some e10 =>
             let m := numeral_val 10 (ip ++ fp) in
             let e := e10 - Z.of_nat (length fp) in
             round_double (m * 10 ^ Z.max 0 e) (10 ^ Z.max 0 (- e))
         end.

Definition radix_literal (b : Z) (p : Z -> bool) (s : jsstr) : jsnum :=
  if negb (length s =? 0)%nat && forallb p s then round_double (numeral_val b s) 1 else NaN.

(** [Number(s)] *)
Definition js_Number (s : jsstr) : jsnum :=
  match js_trim s with
  | [] => Dbl 0 0
  | 43 :: r => unsigned_decimal r
  | 45 :: r => js_neg (unsigned_decimal r)
  | 48 :: c :: r =>
      if (c =? 120) || (c =? 88) then radix_literal 16 is_hex_digit r
      else if (c =? 111) || (c =? 79) then radix_literal 8 (fun d => (48 <=? d) && (d <=? 55)) r
      else if (c =? 98) || (c =? 66) then radix_literal 2 (fun d => (48 <=? d) && (d <=? 49)) r
      else unsigned_decimal (48 :: c :: r)
  | t => unsigned_decimal t
  end.

(** [Number.isInteger(x)], with the integer. *)
Definition js_integer (x : jsnum) : option Z :=
  match x with
  | Dbl m e =>
      if 0 <=? e then Some (m * 2 ^ e)
      else if m mod 2 ^ (- e) =? 0 then Some (m / 2 ^ (- e)) else None
  | _ => None
  end.

(** Reading back a printed small integer. *)
Lemma js_Number_small n : 0 <= n <= 128 -> js_integer (js_Number (js_of_Z n)) = Some n.
Proof.
  intros Hn.
  assert (H : Forall (fun n => js_integer (js_Number (js_of_Z n)) = Some n) (seqZ 0 129)).
  { apply (bool_decide_unpack _). vm_compute. exact I. }
  rewrite Forall_forall in H. apply H, elem_of_seqZ. lia.
Qed.

Example js_Number_samples :
  (js_integer (js_Number (js "1e1")), js_integer (js_Number (js " 0x18 ")),
   js_integer (js_Number (js "31.99999999999999999")), js_integer (js_Number (js "24.5")),
   js_integer (js_Number (js "")), js_integer (js_Number (js "2 4")))
  = (Some 10, Some 24, Some 32, None, Some 0, None).
Proof. vm_compute. reflexivity. Qed.

(** ** String(x) on doubles *)

(** The double [m * 2 ^ e] as a fraction. *)
Definition dbl_num (m e : Z) : Z := m * 2 ^ Z.max 0 e.
Definition dbl_den (e : Z) : Z := 2 ^ Z.max 0 (- e).

(** Does [num / den] round to the double [m * 2 ^ e]? *)
Definition rounds_to (num den m e : Z) : bool :=
  match round_double num den with
  | Dbl m' e' => dbl_num m' e' * dbl_den e =? dbl_num m e * dbl_den e'
  | _ => false
  end.

(** The number of decimal digits before the point: [10 ^ (n-1) <= v < 10 ^ n]. *)
Definition decimal_point (num den : Z) : Z :=
  let n0 := (Z.log2 num - Z.log2 den) * 30103 / 100000 - 1 in
  default 0 (List.find (fun n => num * 10 ^ Z.max 0 (- n) <? den * 10 ^ Z.max 0 n)
               (seqZ n0 5)).

(** The shortest digits that read back as the double: [(s, k, n)] stands for the
    [k]-digit integer [s] scaled by [10 ^ (n - k)]. *)
Definition shortest_digits (m e : Z) : Z * Z * Z :=
  let num := dbl_num m e in
  let den := dbl_den e in
  let n := decimal_point num den in
  let try k :=
    let a := num * 10 ^ Z.max 0 (k - n) in
    let b := den * 10 ^ Z.max 0 (n - k) in
    let lo := a / b in
    let near := if 2 * (a mod b) <=? b then [lo; lo + 1] else [lo + 1; lo] in
    match List.find (fun s => rounds_to (s * 10 ^ Z.max 0 (n - k)) (10 ^ Z.max 0 (k - n)) m e)
            near with
    | Some s => Some (if s =? 10 ^ k then (1, 1, n + 1) else (s, k, n))
    | None => None
    end in
  match List.find (fun k => match try k with Some _ => true | None => false end) (seqZ 1 17) with
  | Some k => default (num / den, n, n) (try k)
  | None => (num / den, n, n)
  end.

Definition format_digits (s k n : Z) : jsstr :=
  let ds := numeral 10 s in
  let zeros z := replicate (Z.to_nat z) 48 in
  if (k <=? n) && (n <=? 21) then ds ++ zeros (n - k)
  else if (0 <? n) && (n <=? 21) then take (Z.to_nat n) ds ++ [46] ++ drop (Z.to_nat n) ds
  else if (-6 <? n) && (n <=? 0) then js "0." ++ zeros (- n) ++ ds
  else
    let ex := [101] ++ (if n - 1 <? 0 then [45] else [43]) ++ numeral 10 (Z.abs (n - 1)) in
    if k =? 1 then ds ++ ex else take 1 ds ++ [46] ++ drop 1 ds ++ ex.

(** [String(x)], which is also what [JSON.stringify(x)] prints for a finite
    double. *)
Definition js_num_to_string (x : jsnum) : jsstr :=
  match x with
  | NaN => js "NaN"
  | Inf false => js "Infinity"
  | Inf true => js "-Infinity"
  | Dbl m e =>
      if m =? 0 then js "0"
      else
        let '(s, k, n) := shortest_digits (Z.abs m) e in
        if m <? 0 then [45] ++ format_digits s k n else format_digits s k n
  end.

Example js_num_to_string_samples :
  map (fun s => js_num_to_string (js_Number (js s)))
    ["0.1"; "100"; "1e21"; "123456789012345680000"; "1e23"; "-0.000001"; "1.5e-7"; "5e-324"; "0.30000000000000004"]%string
  = map js ["0.1"; "100"; "1e+21"; "123456789012345680000"; "1e+23"; "-0.000001"; "1.5e-7"; "5e-324"; "0.30000000000000004"]%string.
Proof. vm_compute. reflexivity. Qed.

Lemma numeral_ascii n : 0 <= n -> Forall (fun c => 0 <= c < 128) (numeral 10 n).
Proof.
  intros Hn. eapply Forall_impl; [by apply numeral_decimal|].
  intros c Hc. unfold is_digit in Hc. bools. lia.
Qed.

(** [Number(n)] of a bigint: exact up to 2^53. *)
Definition num_of_bigint (n : Z) : Z :=
  default 0 (js_integer (if n <? 0 then js_neg (round_double (- n) 1) else round_double n 1)).

Lemma num_of_bigint_exact n : 0 <= n < 2 ^ 53 -> num_of_bigint n = n.
Proof.
  intros Hn. unfold num_of_bigint. rewrite (proj2 (Z.ltb_ge n 0)) by lia.
  unfold round_double. destruct (n =? 0) eqn:E; [by apply Z.eqb_eq in E as ->|]. bools.
  assert (Hk : 0 <= Z.log2 n <= 52).
  { split; [apply Z.log2_nonneg|]. assert (Z.log2 n < 53); [apply Z.log2_lt_pow2; lia|lia]. }
  change (Z.log2 1) with 0. rewrite Z.sub_0_r, (Z.max_r 0 (Z.log2 n)), (Z.max_l 0 (- Z.log2 n)) by lia.
  rewrite Z.mul_1_l, Z.pow_0_r, Z.mul_1_r.
  rewrite (proj2 (Z.leb_le (2 ^ Z.log2 n) n)) by (apply Z.log2_spec; lia).
  rewrite (Z.max_l (Z.log2 n - 52)) by lia. set (e := Z.log2 n - 52).
  rewrite (Z.max_l 0 e), (Z.max_r 0 (- e)) by lia. rewrite Z.pow_0_r, Z.mul_1_l, Z.div_1_r, Z.mod_1_r.
  change (2 * 0 <? 1) with true. cbv iota. rewrite Z.mul_1_r.
  assert (Hb : n * 2 ^ (- e) < 2 ^ 1024).
  { apply Z.lt_le_trans with (2 ^ 53 * 2 ^ 52); [|rewrite <- Z.pow_add_r by lia; apply Z.pow_le_mono_r; lia].
    assert (2 ^ (- e) <= 2 ^ 52) by (apply Z.pow_le_mono_r; lia).
    assert (0 < 2 ^ (- e)) by (apply Z.pow_pos_nonneg; lia). nia. }
  rewrite (proj2 (Z.leb_gt (2 ^ 1024) (n * 2 ^ (- e)))) by done. cbn [js_integer].
  assert (0 < 2 ^ (- e)) by (apply Z.pow_pos_nonneg; lia).
  destruct (0 <=? e) eqn:Ee; bools; simpl.
  - replace e with 0 by lia. simpl. lia.
  - rewrite Z.mod_mul, Z.div_mul by lia. done.
Qed.

Lemma shortest_digits_nonneg m e s k n :
  0 <= m -> shortest_digits m e = (s, k, n) -> 0 <= s.
Proof.
  intros Hm. unfold shortest_digits. set (num := dbl_num m e). set (den := dbl_den e).
  assert (Hnum : 0 <= num) by (unfold num, dbl_num; pose proof (Z.pow_nonneg 2 (Z.max 0 e)); nia).
  assert (Hden : 0 < den) by (apply Z.pow_pos_nonneg; lia).
  assert (Hq : 0 <= num / den) by (apply Z.div_pos; lia).
  destruct (List.find _ (seqZ 1 17)) as [k0|]; [|by intros [= <- _ _]].
  set (a := num * 10 ^ Z.max 0 (k0 - decimal_point num den)).
  set (b := den * 10 ^ Z.max 0 (decimal_point num den - k0)).
  assert (Ha : 0 <= a) by (unfold a; pose proof (Z.pow_nonneg 10 (Z.max 0 (k0 - decimal_point num den))); nia).
  assert (Hb : 0 < b).
  { apply Z.mul_pos_pos; [done|]. apply Z.pow_pos_nonneg; lia. }
  assert (Hlo : 0 <= a / b) by (apply Z.div_pos; lia).
  destruct (List.find _ _) as [s0|] eqn:E; simpl; [|by intros [= <- _ _]].
  apply find_some in E as [Hin _]. intros H.
  assert (0 <= s0) by (destruct (2 * (a mod b) <=? b); simpl in Hin; lia).
  destruct (s0 =? 10 ^ k0); by simplify_eq.
Qed.

Abbreviation ascii_units := (Forall (fun c => 0 <= c < 128)).

Lemma format_digits_ascii s k n : 0 <= s -> ascii_units (format_digits s k n).
Proof.
  intros Hs. pose proof (numeral_ascii s Hs) as Hd.
  assert (Hz : forall z, ascii_units (replicate (Z.to_nat z) 48)).
  { intros z. apply Forall_replicate. lia. }
  assert (He : ascii_units (numeral 10 (Z.abs (n - 1)))) by (apply numeral_ascii; lia).
  unfold format_digits.
  repeat case_match; repeat apply Forall_app_2; auto using Forall_take, Forall_drop;
    repeat constructor; lia.
Qed.

Lemma js_num_to_string_ascii x : ascii_units (js_num_to_string x).
Proof.
  destruct x as [|[]|m e]; simpl; [repeat constructor; lia..|].
  destruct (m =? 0); [repeat constructor; lia|].
  destruct (shortest_digits (Z.abs m) e) as [[s k] n] eqn:E.
  apply shortest_digits_nonneg in E; [|lia].
  destruct (m <? 0); [apply Forall_cons; split; [lia|]|]; by apply format_digits_ascii.
Qed.
