(* ===== verification/JsJson.v ===== *)
(** * JSON values and their printed strings

    [json] is what [JSON.parse] produces; [json_quote] is [JSON.stringify] on a
    string.  Quoting is a prefix code: a quoted string can be read back from the
    front of any text, and its result has no lone surrogate, so that its UTF-8
    encoding loses nothing. *)

From S2P Require Import Prelude JsString JsNumber.
Local Open Scope Z_scope.

#[local] Set Warnings "-register-all".

(** An object is its own enumerable properties in order, with distinct keys. *)
Inductive json :=
| JNull
| JBool (b : bool)
| JNum (x : jsnum)
| JStr (s : jsstr)
| JArr (l : list json)
| JObj (l : list (jsstr * json)).

Section json_ind.
Variable P : json -> Prop.
Hypothesis Hnull : P JNull.
Hypothesis Hbool : forall b, P (JBool b).
Hypothesis Hnum : forall x, P (JNum x).
Hypothesis Hstr : forall s, P (JStr s).
Hypothesis Harr : forall l, Forall P l -> P (JArr l).
Hypothesis Hobj : forall l, Forall (fun kv => P (snd kv)) l -> P (JObj l).

Fixpoint json_ind' (v : json) : P v :=
  match v with
  | JNull => Hnull
  | JBool b => Hbool b
  | JNum x => Hnum x
  | JStr s => Hstr s
  | JArr l => Harr l ((fix go l : Forall P l :=
      match l with [] => Forall_nil_2 _ | v :: l => Forall_cons_2 _ _ _ (json_ind' v) (go l) end) l)
  | JObj l => Hobj l ((fix go l : Forall (fun kv => P (snd kv)) l :=
      match l with
      | [] => Forall_nil_2 _
      | kv :: l => Forall_cons_2 _ kv l (json_ind' (snd kv)) (go l)
      end) l)
  end.
End json_ind.

(** ** Property access *)

(** [raw[key]] of an object, [JNull] when absent; an array has no such key. *)
Definition json_get (raw : json) (key : jsstr) : json :=
  match raw with
  | JObj l => match List.find (fun kv => fst kv =s key) l with Some kv => snd kv | None => JNull end
  | _ => JNull
  end.

(** [raw[key]] when it is a string. *)
Definition get_string (raw : json) (key : jsstr) : option jsstr :=
  match json_get raw key with JStr s => Some s | _ => None end.

(** [key in raw] *)
Definition json_has (raw : json) (key : jsstr) : bool :=
  match raw with JObj l => existsb (fun kv => fst kv =s key) l | _ => false end.

(** ** Quoting *)

Definition hex4 (c : Z) : jsstr :=
  [digit_unit (c / 4096); digit_unit (c / 256 mod 16); digit_unit (c / 16 mod 16); digit_unit (c mod 16)].

(** The escape of one unit that is not part of a surrogate pair. *)
Definition quote_unit (c : Z) : jsstr :=
  if c =? 8 then [92; 98] else if c =? 9 then [92; 116] else if c =? 10 then [92; 110]
  else if c =? 12 then [92; 102] else if c =? 13 then [92; 114]
  else if c =? 34 then [92; 34] else if c =? 92 then [92; 92]
  else if (c <? 32) || is_high_surrogate c || is_low_surrogate c then [92; 117] ++ hex4 c
  else [c].

Fixpoint quote_body (s : jsstr) : jsstr :=
  match s with
  | [] => []
  | c :: s' =>
      if is_high_surrogate c then
        match s' with
        | d :: s'' => if is_low_surrogate d then c :: d :: quote_body s''
                      else quote_unit c ++ quote_body s'
        | [] => quote_unit c
        end
      else quote_unit c ++ quote_body s'
  end.

(** [JSON.stringify(s)] for a string. *)
Definition json_quote (s : jsstr) : jsstr := 34 :: quote_body s ++ [34].

(** Units are 16-bit. *)
Abbreviation units_ok := (Forall (fun c => 0 <= c < 65536)).

(** Reading the body of a quoted string up to its closing quote. *)
Fixpoint read_quoted (t : jsstr) : option (jsstr * jsstr) :=
  match t with
  | [] => None
  | 34 :: r => Some ([], r)
  | 92 :: 117 :: a :: b :: c :: d :: r =>
      '(s, r') ← read_quoted r; Some (numeral_val 16 [a; b; c; d] :: s, r')
  | 92 :: x :: r =>
      '(s, r') ← read_quoted r;
      Some ((if x =? 98 then 8 else if x =? 116 then 9 else if x =? 110 then 10
             else if x =? 102 then 12 else if x =? 114 then 13 else x) :: s, r')
  | c :: r => '(s, r') ← read_quoted r; Some (c :: s, r')
  end.

Lemma hex4_val c : 0 <= c < 65536 -> numeral_val 16 (hex4 c) = c.
Proof.
  intros Hc. unfold hex4, numeral_val. cbn [fold_left]. rewrite !digit_val_unit by zdiv. zdiv.
Qed.

Lemma read_plain c r :
  c <> 34 -> c <> 92 -> read_quoted (c :: r) = ('(s, r') ← read_quoted r; Some (c :: s, r')).
Proof.
  intros H1 H2. destruct c as [|p|p]; [done| |done].
  repeat (destruct p as [p|p|]; try done).
Qed.

Lemma read_quote_unit c r :
  0 <= c < 65536 ->
  read_quoted (quote_unit c ++ r) = ('(s, r') ← read_quoted r; Some (c :: s, r')).
Proof.
  intros Hc. unfold quote_unit.
  repeat (case_match; [bools; subst; done|]).
  destruct ((c <? 32) || is_high_surrogate c || is_low_surrogate c); bools.
  - change ([92; 117] ++ hex4 c) with (92 :: 117 :: hex4 c). unfold hex4. cbn [app read_quoted].
    fold (hex4 c). by rewrite hex4_val.
  - by apply read_plain.
Qed.

Lemma read_quote_body s r : units_ok s -> read_quoted (quote_body s ++ 34 :: r) = Some (s, r).
Proof.
  induction s as [|c s IH IH2] using js_pair_ind; intros Hs; [done|].
  apply Forall_cons in Hs as [Hc Hs]. cbn [quote_body].
  assert (Hgen : read_quoted ((quote_unit c ++ quote_body s) ++ 34 :: r) = Some (c :: s, r)).
  { rewrite <- app_assoc, read_quote_unit by done. by rewrite IH. }
  destruct (is_high_surrogate c) eqn:Eh; [|done].
  destruct s as [|d s]; [by rewrite <- (app_nil_r (quote_unit c))|].
  destruct (is_low_surrogate d) eqn:El; [|done].
  apply Forall_cons in Hs as [Hd Hs]. unfold is_high_surrogate, is_low_surrogate in *. bools.
  cbn [app]. rewrite read_plain, read_plain by lia. by rewrite (IH2 d s).
Qed.

(** A quoted string can be read back from the front of any text. *)
Lemma json_quote_prefix s t r r' :
  units_ok s -> units_ok t -> json_quote s ++ r = json_quote t ++ r' -> s = t /\ r = r'.
Proof.
  intros Hs Ht H. unfold json_quote in H. cbn [app] in H. injection H as H.
  rewrite <- !app_assoc in H. cbn [app] in H. apply (f_equal read_quoted) in H.
  rewrite !read_quote_body in H by done. by simplify_eq.
Qed.

(** ** No lone surrogates in the output *)

Lemma js_well_formed_app a b :
  js_well_formed a = true -> js_well_formed b = true -> js_well_formed (a ++ b) = true.
Proof.
  induction a as [|c a IH IH2] using js_pair_ind; intros Ha Hb; [done|].
  simpl in Ha |- *. destruct (is_high_surrogate c).
  - destruct a as [|d a]; [done|]. apply andb_true_iff in Ha as [Hd Ha]. cbn [app].
    rewrite Hd. simpl. by apply (IH2 d a).
  - destruct (is_low_surrogate c); simpl in Ha |- *; [done|].
    apply andb_true_iff in Ha as [Hc Ha]. rewrite Hc. simpl. by apply IH.
Qed.

Lemma ascii_well_formed s : ascii_units s -> js_well_formed s = true.
Proof.
  induction 1 as [|c s Hc Hs IH]; [done|]. simpl.
  replace (is_high_surrogate c) with false; [replace (is_low_surrogate c) with false|].
  - rewrite IH, andb_true_r. simpl.
    repeat (apply andb_true_iff; split); apply Z.leb_le || apply Z.ltb_lt; lia.
  - symmetry. apply andb_false_iff. left. apply Z.leb_gt. lia.
  - symmetry. apply andb_false_iff. left. apply Z.leb_gt. lia.
Qed.

Lemma quote_unit_well_formed c : 0 <= c < 65536 -> js_well_formed (quote_unit c) = true.
Proof.
  intros Hc. unfold quote_unit. repeat (case_match; [done|]).
  destruct ((c <? 32) || is_high_surrogate c || is_low_surrogate c) eqn:E.
  - apply ascii_well_formed. unfold hex4, digit_unit.
    repeat (apply Forall_cons; split; [repeat case_match; zdiv|]). done.
  - apply orb_false_iff in E as [E El]. apply orb_false_iff in E as [_ Eh]. simpl. rewrite Eh, El.
    simpl. repeat (apply andb_true_iff; split); try done; apply Z.leb_le || apply Z.ltb_lt; lia.
Qed.

Lemma json_quote_well_formed s : units_ok s -> js_well_formed (json_quote s) = true.
Proof.
  intros Hs. unfold json_quote. change (34 :: quote_body s ++ [34]) with ([34] ++ quote_body s ++ [34]).
  repeat apply js_well_formed_app; try done.
  induction s as [|c s IH IH2] using js_pair_ind; [done|]. apply Forall_cons in Hs as [Hc Hs].
  cbn [quote_body].
  assert (Hgen : js_well_formed (quote_unit c ++ quote_body s) = true).
  { apply js_well_formed_app; [by apply quote_unit_well_formed | by apply IH]. }
  destruct (is_high_surrogate c) eqn:Eh; [|done].
  destruct s as [|d s]; [by apply quote_unit_well_formed|].
  destruct (is_low_surrogate d) eqn:El; [|done]. simpl. rewrite Eh, El. simpl.
  apply Forall_cons in Hs as [_ Hs]. by apply (IH2 d s).
Qed.
