(* ===== verification/JsMap.v ===== *)
(** * JavaScript Maps

    A [Map] with string keys, as its entries in insertion order: [set] on a
    present key keeps its position, [delete] followed by [set] moves it to the
    end.  Iteration order is what the bounded caches of the sources rely on for
    eviction. *)

From S2P Require Import Prelude JsString.
Local Open Scope Z_scope.

Definition jsmap (V : Type) : Type := list (jsstr * V).

Section Map.
Context {V : Type}.
Implicit Types (m : jsmap V) (k : jsstr) (v : V).

Fixpoint map_get m k : option V :=
  match m with
  | [] => None
  | (k', v) :: m' => if k' =s k then Some v else map_get m' k
  end.

Fixpoint map_set m k v : jsmap V :=
  match m with
  | [] => [(k, v)]
  | (k', v') :: m' => if k' =s k then (k', v) :: m' else (k', v') :: map_set m' k v
  end.

Definition map_delete m k : jsmap V := List.filter (fun kv => negb (fst kv =s k)) m.

Definition map_has m k : bool := match map_get m k with Some _ => true | None => false end.

(** No two entries with one key. *)
Definition map_ok m : Prop := NoDup (map fst m).

Lemma map_get_set m k v k' :
  map_get (map_set m k v) k' = if k =s k' then Some v else map_get m k'.
Proof.
  induction m as [|[k0 v0] m IH]; simpl; [done|].
  destruct (decide (k0 = k)) as [->|Hne].
  - rewrite bool_decide_true by done. simpl. by case_bool_decide.
  - rewrite (bool_decide_false (k0 = k)) by done. simpl. rewrite IH.
    destruct (decide (k0 = k')) as [->|]; [|by rewrite (bool_decide_false (k0 = k'))].
    rewrite (bool_decide_true (k' = k')), (bool_decide_false (k = k')) by congruence. done.
Qed.

Lemma map_get_delete m k k' :
  map_get (map_delete m k) k' = if k =s k' then None else map_get m k'.
Proof.
  induction m as [|[k0 v0] m IH]; simpl; [by case_bool_decide|].
  destruct (decide (k0 = k)) as [->|Hne].
  - rewrite bool_decide_true by done. simpl. rewrite IH. by case_bool_decide.
  - rewrite (bool_decide_false (k0 = k)) by done. simpl. rewrite IH.
    destruct (decide (k0 = k')) as [->|]; [|by rewrite (bool_decide_false (k0 = k'))].
    rewrite (bool_decide_true (k' = k')), (bool_decide_false (k = k')) by congruence. done.
Qed.

Lemma map_get_in m k v : map_get m k = Some v -> (k, v) ∈ m.
Proof.
  induction m as [|[k0 v0] m IH]; simpl; [done|]. case_bool_decide as H; intros Hg; simplify_eq.
  - apply list_elem_of_here.
  - apply list_elem_of_further. auto.
Qed.

Lemma map_get_None m k : map_get m k = None <-> k ∉ map fst m.
Proof.
  induction m as [|[k0 v0] m IH]; simpl.
  - split; [intros _; apply not_elem_of_nil|done].
  - rewrite not_elem_of_cons. case_bool_decide as H; [subst; naive_solver|]. rewrite IH. naive_solver.
Qed.

Lemma map_set_keys m k v :
  map fst (map_set m k v) = if map_has m k then map fst m else map fst m ++ [k].
Proof.
  unfold map_has. induction m as [|[k0 v0] m IH]; simpl; [done|].
  case_bool_decide as H; simpl; [done|]. rewrite IH. by destruct (map_get m k).
Qed.

Lemma map_set_size m k v :
  length (map_set m k v) = if map_has m k then length m else S (length m).
Proof.
  pose proof (f_equal length (map_set_keys m k v)) as H. rewrite length_map in H. rewrite H.
  destruct (map_has m k); rewrite ?length_app, length_map; simpl; lia.
Qed.

Lemma map_delete_size m k : (length (map_delete m k) <= length m)%nat.
Proof. apply filter_length_le. Qed.

Lemma map_set_ok m k v : map_ok m -> map_ok (map_set m k v).
Proof.
  unfold map_ok. intros H. rewrite map_set_keys. unfold map_has. destruct (map_get m k) eqn:E; [done|].
  apply map_get_None in E. apply NoDup_app. split_and!; [done| |apply NoDup_singleton].
  intros x Hx ->%list_elem_of_singleton. done.
Qed.

Lemma map_filter_ok (f : jsstr * V -> bool) m : map_ok m -> map_ok (List.filter f m).
Proof.
  unfold map_ok. induction m as [|[k v] m IH]; simpl; [done|]. intros [Hn Hd]%NoDup_cons.
  destruct (f (k, v)); simpl; [|auto]. apply NoDup_cons. split; [|auto].
  intros ([k' v'] & Heq & Hin)%list_elem_of_fmap. simpl in Heq. subst k'. apply Hn.
  apply list_elem_of_fmap. exists (k, v'). split; [done|].
  apply list_elem_of_In in Hin. apply filter_In in Hin as [Hin _]. by apply list_elem_of_In.
Qed.

Lemma map_get_filter (f : jsstr * V -> bool) m k v :
  map_ok m -> map_get m k = Some v ->
  map_get (List.filter f m) k = if f (k, v) then Some v else None.
Proof.
  unfold map_ok. induction m as [|[k0 v0] m IH]; simpl; [done|]. intros [Hn Hd]%NoDup_cons.
  case_bool_decide as H.
  - intros [= ->]. subst k0. destruct (f (k, v)) eqn:E; simpl.
    + by rewrite bool_decide_true.
    + apply map_get_None. intros ([k' v'] & Heq & Hin)%list_elem_of_fmap. simpl in Heq. subst k'.
      apply Hn, list_elem_of_fmap. exists (k, v'). split; [done|].
      apply list_elem_of_In in Hin. apply filter_In in Hin as [Hin _]. by apply list_elem_of_In.
  - intros Hg. destruct (f (k0, v0)); simpl; [rewrite bool_decide_false by done|]; auto.
Qed.
End Map.
