(* ===== verification/CryptoAad.v ===== *)
(** * Additional authenticated data of the AES-GCM envelopes

    Models src/src/lib/crypto/crypto-aad.ts (the registry of AAD builders) and
    its port cli/src/lib/crypto-aad.ts.  [buildAADBytes] writes a
    length-prefixed record into a preallocated buffer; the buffer writes are
    modelled one by one, with the range checks of [DataView] and [Uint8Array].
    The theorems show that the buffer code computes the documented layout, that
    every error branch is the documented one, and that the bytes determine the
    scope and every field, so that no builder can produce the AAD of another
    context. *)

From S2P Require Import Prelude JsString.

Local Open Scope Z_scope.

(** ** Typed-array writes *)

Inductive aad_error :=
| AadScopeLength
| AadFieldCount (expected got : Z)
| AadFieldTooLong (len : Z)
| AadRange
| AadWebhookVersion
| AadWebhookTable
| AadWebhookTeamRequired
| AadWebhookTeamForbidden.

(** [bytes[i] = v] on a Uint8Array: reduced modulo 256, ignored out of range. *)
Definition put_byte (i : nat) (v : Z) (buf : list Z) : list Z := <[i := v mod 256]> buf.

(** [bytes.set(data, i)]: a RangeError when the data does not fit. *)
Definition set_bytes (i : nat) (data buf : list Z) : outcome aad_error (list Z) :=
  if (i + length data <=? length buf)%nat
  then Ok (take i buf ++ data ++ drop (i + length data) buf)
  else Throw AadRange.

(** [view.setUint8(i, v)] and [view.setUint16(i, v, false)]. *)
Definition setUint8 (i : nat) (v : Z) (buf : list Z) : outcome aad_error (list Z) :=
  set_bytes i [v mod 256] buf.
Definition setUint16 (i : nat) (v : Z) (buf : list Z) : outcome aad_error (list Z) :=
  set_bytes i [(v / 256) mod 256; v mod 256] buf.

(** ** [buildAADBytes] *)

Definition AAD_VERSION : Z := 1.

(** The [for (const encoded of encodedFields)] loop. *)
Fixpoint write_fields (offset : nat) (encs : list (list Z)) (bytes : list Z)
    : outcome aad_error (list Z) :=
  match encs with
  | [] => Ok bytes
  | encoded :: rest =>
      if 65535 <? Z.of_nat (length encoded)
      then Throw (AadFieldTooLong (Z.of_nat (length encoded)))
      else
        bytes ← setUint16 offset (Z.of_nat (length encoded)) bytes;
        bytes ← set_bytes (offset + 2) encoded bytes;
        write_fields (offset + 2 + length encoded) rest bytes
  end.

Definition buildAADBytes (scope : jsstr) (expectedFieldCount : Z) (fields : list jsstr)
    : outcome aad_error (list Z) :=
  if negb (length scope =? 2)%nat then Throw AadScopeLength
  else if negb (Z.of_nat (length fields) =? expectedFieldCount)
  then Throw (AadFieldCount expectedFieldCount (Z.of_nat (length fields)))
  else
    let encodedFields := map js_utf8 fields in
    let headerSize := 4%nat in
    let fieldsSize := fold_left (fun sum ef => sum + 2 + length ef)%nat encodedFields 0%nat in
    let bytes := replicate (headerSize + fieldsSize) 0 in
    let bytes := put_byte 0 (nth 0 scope 0) bytes in
    let bytes := put_byte 1 (nth 1 scope 0) bytes in
    bytes ← setUint8 2 AAD_VERSION bytes;
    bytes ← setUint8 3 (Z.of_nat (length fields)) bytes;
    write_fields 4 encodedFields bytes.

(** ** The registry of builders *)

Inductive VaultType := BLOB | OVERVIEW.
Definition vaultTypeString (v : VaultType) : jsstr :=
  match v with BLOB => js "blob" | OVERVIEW => js "overview" end.

Definition SCOPE_PERSONAL := js "PV".
Definition SCOPE_TEAM := js "OV".
Definition SCOPE_ATTACHMENT := js "AT".
Definition SCOPE_ITEM_KEY := js "IK".
Definition SCOPE_ATTACHMENT_WRAP := js "AW".
Definition SCOPE_TEAM_KEY := js "OK".
Definition SCOPE_ADMIN_RESET := js "AR".
Definition SCOPE_EMERGENCY := js "EM".
Definition SCOPE_WEBHOOK := js "WH".
Definition SCOPE_ACCOUNT_TOKEN := js "AC".

Definition buildPersonalEntryAAD (userId entryId : jsstr) (vaultType : VaultType) :=
  buildAADBytes SCOPE_PERSONAL 3 [userId; entryId; vaultTypeString vaultType].

Definition buildTeamEntryAAD (teamId entryId : jsstr)
    (vaultType : option VaultType) (itemKeyVersion : option Z) :=
  buildAADBytes SCOPE_TEAM 4
    [teamId; entryId; vaultTypeString (default BLOB vaultType);
     js_of_Z (default 0 itemKeyVersion)].

Definition buildItemKeyWrapAAD (teamId entryId : jsstr) (teamKeyVersion : Z) :=
  buildAADBytes SCOPE_ITEM_KEY 3 [teamId; entryId; js_of_Z teamKeyVersion].

Definition buildAttachmentAAD (entryId attachmentId : jsstr) :=
  buildAADBytes SCOPE_ATTACHMENT 2 [entryId; attachmentId].

Definition buildAttachmentCekWrapAAD (entryId attachmentId : jsstr)
    (cekKeyVersion cekWrapAadVersion : Z) :=
  buildAADBytes SCOPE_ATTACHMENT_WRAP 4
    [entryId; attachmentId; js_of_Z cekKeyVersion; js_of_Z cekWrapAadVersion].

Record TeamKeyWrapContext := {
  tkw_teamId : jsstr; tkw_toUserId : jsstr; tkw_keyVersion : Z; tkw_wrapVersion : Z }.
Definition buildTeamKeyWrapAAD (ctx : TeamKeyWrapContext) :=
  buildAADBytes SCOPE_TEAM_KEY 4
    [tkw_teamId ctx; tkw_toUserId ctx; js_of_Z (tkw_keyVersion ctx);
     js_of_Z (tkw_wrapVersion ctx)].

Record AdminResetAad := {
  ar_tenantId : jsstr; ar_resetId : jsstr; ar_targetEmailAtInitiate : jsstr }.
Definition buildAdminResetAAD (aad : AdminResetAad) :=
  buildAADBytes SCOPE_ADMIN_RESET 3
    [ar_tenantId aad; ar_resetId aad; ar_targetEmailAtInitiate aad].

Record EmergencyWrapContext := {
  ew_grantId : jsstr; ew_ownerId : jsstr; ew_granteeId : jsstr;
  ew_keyVersion : Z; ew_wrapVersion : Z }.
Definition buildEmergencyWrapAAD (ctx : EmergencyWrapContext) :=
  buildAADBytes SCOPE_EMERGENCY 5
    [ew_grantId ctx; ew_ownerId ctx; ew_granteeId ctx;
     js_of_Z (ew_keyVersion ctx); js_of_Z (ew_wrapVersion ctx)].

(** A JavaScript number, as far as [Number.isInteger] looks at it. *)
Inductive jsnum := NInt (n : Z) | NNotInteger.

Record WebhookSecretAADArgs := {
  wh_tableName : jsstr; wh_version : jsnum; wh_webhookId : jsstr;
  wh_tenantId : jsstr; wh_teamId : option jsstr }.

(** [!teamId]: absent, null or the empty string. *)
Definition falsy (s : option jsstr) : bool :=
  match s with Some (_ :: _) => false | _ => true end.

Definition buildWebhookSecretAAD (args : WebhookSecretAADArgs)
    : outcome aad_error (list Z) :=
  match wh_version args with
  | NNotInteger => Throw AadWebhookVersion
  | NInt version =>
      if version <? 1 then Throw AadWebhookVersion
      else if negb (wh_tableName args =s js "TenantWebhook")
              && negb (wh_tableName args =s js "TeamWebhook")
      then Throw AadWebhookTable
      else if (wh_tableName args =s js "TeamWebhook") && falsy (wh_teamId args)
      then Throw AadWebhookTeamRequired
      else if (wh_tableName args =s js "TenantWebhook") && negb (falsy (wh_teamId args))
      then Throw AadWebhookTeamForbidden
      else
        let fields := [wh_tableName args; js "v" ++ js_of_Z version;
                       wh_webhookId args; wh_tenantId args] in
        let fields := if falsy (wh_teamId args) then fields
                      else fields ++ [default [] (wh_teamId args)] in
        buildAADBytes SCOPE_WEBHOOK (Z.of_nat (length fields)) fields
  end.

Record AccountTokenAad := {
  at_userId : jsstr; at_provider : jsstr; at_providerAccountId : jsstr }.
Definition buildAccountTokenAAD (aad : AccountTokenAad) :=
  buildAADBytes SCOPE_ACCOUNT_TOKEN 3
    [at_userId aad; at_provider aad; at_providerAccountId aad].

(** ** The port in cli/src/lib/crypto-aad.ts *)

Module Cli.

Definition AAD_VERSION : Z := 1.
Definition SCOPE_PERSONAL := js "PV".

Fixpoint write_fields (offset : nat) (encs : list (list Z)) (bytes : list Z)
    : outcome aad_error (list Z) :=
  match encs with
  | [] => Ok bytes
  | encoded :: rest =>
      if 65535 <? Z.of_nat (length encoded)
      then Throw (AadFieldTooLong (Z.of_nat (length encoded)))
      else
        bytes ← setUint16 offset (Z.of_nat (length encoded)) bytes;
        bytes ← set_bytes (offset + 2) encoded bytes;
        write_fields (offset + 2 + length encoded) rest bytes
  end.

Definition buildAADBytes (scope : jsstr) (expectedFieldCount : Z) (fields : list jsstr)
    : outcome aad_error (list Z) :=
  if negb (length scope =? 2)%nat then Throw AadScopeLength
  else if negb (Z.of_nat (length fields) =? expectedFieldCount)
  then Throw (AadFieldCount expectedFieldCount (Z.of_nat (length fields)))
  else
    let encodedFields := map js_utf8 fields in
    let fieldsSize := fold_left (fun sum ef => sum + 2 + length ef)%nat encodedFields 0%nat in
    let bytes := replicate (4 + fieldsSize) 0 in
    let bytes := put_byte 0 (nth 0 scope 0) bytes in
    let bytes := put_byte 1 (nth 1 scope 0) bytes in
    bytes ← setUint8 2 AAD_VERSION bytes;
    bytes ← setUint8 3 (Z.of_nat (length fields)) bytes;
    write_fields 4 encodedFields bytes.

Definition buildPersonalEntryAAD (userId entryId : jsstr) (vaultType : VaultType) :=
  buildAADBytes SCOPE_PERSONAL 3 [userId; entryId; vaultTypeString vaultType].

End Cli.

(** ** Specification: the documented layout *)

Definition field_layout (e : list Z) : list Z :=
  [Z.of_nat (length e) / 256; Z.of_nat (length e) mod 256] ++ e.

Definition aad_layout (scope : jsstr) (fields : list jsstr) : list Z :=
  [nth 0 scope 0 mod 256; nth 1 scope 0 mod 256; AAD_VERSION;
   Z.of_nat (length fields) mod 256]
  ++ concat (map (fun f => field_layout (js_utf8 f)) fields).

Definition field_fits (f : jsstr) : bool := Z.of_nat (length (js_utf8 f)) <=? 65535.

(** The result the documentation promises, branch by branch. *)
Definition aad_spec (scope : jsstr) (expected : Z) (fields : list jsstr)
    : outcome aad_error (list Z) :=
  if negb (length scope =? 2)%nat then Throw AadScopeLength
  else if negb (Z.of_nat (length fields) =? expected)
  then Throw (AadFieldCount expected (Z.of_nat (length fields)))
  else match List.find (fun f => negb (field_fits f)) fields with
       | Some f => Throw (AadFieldTooLong (Z.of_nat (length (js_utf8 f))))
       | None => Ok (aad_layout scope fields)
       end.

(** One value per call of a builder of the registry. *)
Inductive aad_request :=
| RPersonal (userId entryId : jsstr) (v : VaultType)
| RTeam (teamId entryId : jsstr) (v : option VaultType) (ikv : option Z)
| RItemKey (teamId entryId : jsstr) (v : Z)
| RAttachment (entryId attachmentId : jsstr)
| RAttachmentWrap (entryId attachmentId : jsstr) (kv wv : Z)
| RTeamKey (ctx : TeamKeyWrapContext)
| RAdminReset (aad : AdminResetAad)
| REmergency (ctx : EmergencyWrapContext)
| RWebhook (args : WebhookSecretAADArgs)
| RAccount (aad : AccountTokenAad).

Definition build_aad (r : aad_request) : outcome aad_error (list Z) :=
  match r with
  | RPersonal u e v => buildPersonalEntryAAD u e v
  | RTeam t e v k => buildTeamEntryAAD t e v k
  | RItemKey t e v => buildItemKeyWrapAAD t e v
  | RAttachment e a => buildAttachmentAAD e a
  | RAttachmentWrap e a k w => buildAttachmentCekWrapAAD e a k w
  | RTeamKey c => buildTeamKeyWrapAAD c
  | RAdminReset a => buildAdminResetAAD a
  | REmergency c => buildEmergencyWrapAAD c
  | RWebhook a => buildWebhookSecretAAD a
  | RAccount a => buildAccountTokenAAD a
  end.

(** Optional arguments that mean the same are identified. *)
Definition canonical_request (r : aad_request) : aad_request :=
  match r with
  | RTeam t e v k => RTeam t e (Some (default BLOB v)) (Some (default 0 k))
  | RWebhook a =>
      RWebhook {| wh_tableName := wh_tableName a; wh_version := wh_version a;
                  wh_webhookId := wh_webhookId a; wh_tenantId := wh_tenantId a;
                  wh_teamId := if falsy (wh_teamId a) then None else wh_teamId a |}
  | _ => r
  end.

(** Every caller-supplied string is well-formed UTF-16. *)
Definition request_well_formed (r : aad_request) : bool :=
  forallb js_well_formed
    match r with
    | RPersonal u e _ => [u; e]
    | RTeam t e _ _ => [t; e]
    | RItemKey t e _ => [t; e]
    | RAttachment e a => [e; a]
    | RAttachmentWrap e a _ _ => [e; a]
    | RTeamKey c => [tkw_teamId c; tkw_toUserId c]
    | RAdminReset a => [ar_tenantId a; ar_resetId a; ar_targetEmailAtInitiate a]
    | REmergency c => [ew_grantId c; ew_ownerId c; ew_granteeId c]
    | RWebhook a => [wh_webhookId a; wh_tenantId a; default [] (wh_teamId a)]
    | RAccount a => [at_userId a; at_provider a; at_providerAccountId a]
    end.

(** ** The buffer code computes the layout *)

Lemma set_bytes_at i pre data n x :
  i = length pre -> (length data <= n)%nat ->
  set_bytes i data (pre ++ replicate n x)
  = Ok ((pre ++ data) ++ replicate (n - length data) x).
Proof.
  intros -> Hn. unfold set_bytes. rewrite length_app, length_replicate.
  rewrite leb_correct by lia. f_equal.
  rewrite take_app_length, <- app_assoc. do 2 f_equal.
  rewrite drop_app_add. by rewrite drop_replicate.
Qed.

Definition fields_size (encs : list (list Z)) : nat :=
  sum_list_with (fun e => 2 + length e)%nat encs.

Lemma fields_size_fold encs k :
  fold_left (fun sum ef => sum + 2 + length ef)%nat encs k = (k + fields_size encs)%nat.
Proof.
  revert k. induction encs as [|e encs IH]; intros k; simpl; [lia|]. rewrite IH. lia.
Qed.

Lemma div256_small n : 0 <= n <= 65535 -> (n / 256) mod 256 = n / 256.
Proof. intros. zdiv. Qed.

Lemma write_fields_spec i encs pre n :
  i = length pre -> (fields_size encs <= n)%nat ->
  write_fields i encs (pre ++ replicate n 0)
  = match List.find (fun e => negb (Z.of_nat (length e) <=? 65535)) encs with
    | Some e => Throw (AadFieldTooLong (Z.of_nat (length e)))
    | None => Ok (pre ++ concat (map field_layout encs)
                   ++ replicate (n - fields_size encs) 0)
    end.
Proof.
  revert i pre n. induction encs as [|e encs IH]; intros i pre n Hi Hn; simpl.
  { do 3 f_equal. lia. }
  simpl in Hn. rewrite Z.leb_antisym, negb_involutive.
  destruct (Z.ltb_spec 65535 (Z.of_nat (length e))); [done|].
  unfold setUint16. rewrite set_bytes_at by (simpl; lia). cbn [mbind outcome_bind].
  rewrite set_bytes_at by (rewrite ?length_app; simpl; lia). cbn [mbind outcome_bind].
  rewrite IH by (rewrite ?length_app; simpl; lia).
  case_match; [done|]. f_equal. unfold field_layout. rewrite div256_small by lia.
  rewrite <- !app_assoc. cbn [app length].
  by replace (n - 2 - length e - fields_size encs)%nat
    with (n - fields_size (e :: encs))%nat by (simpl; lia).
Qed.

Lemma find_map_utf8 fields :
  List.find (fun e => negb (Z.of_nat (length e) <=? 65535)) (map js_utf8 fields)
  = js_utf8 <$> List.find (fun f => negb (field_fits f)) fields.
Proof. induction fields as [|f fs IH]; simpl; [done|]. unfold field_fits. by case_match. Qed.

Lemma buildAADBytes_correct scope n fields :
  buildAADBytes scope n fields = aad_spec scope n fields.
Proof.
  unfold buildAADBytes, aad_spec.
  destruct (length scope =? 2)%nat eqn:Hl; simpl negb; cbv iota; [|done].
  destruct (Z.of_nat (length fields) =? n) eqn:Hn; simpl negb; cbv iota; [|done].
  rewrite fields_size_fold, Nat.add_0_l. set (m := fields_size (map js_utf8 fields)).
  destruct scope as [|a [|b [|? ?]]]; try done. cbn [nth].
  assert (Hbuf : put_byte 1 b (put_byte 0 a (replicate (4 + m) 0))
                 = [a mod 256; b mod 256] ++ replicate (2 + m) 0) by done.
  rewrite Hbuf. unfold setUint8.
  do 2 (rewrite set_bytes_at by (rewrite ?length_app; simpl; lia); cbn [mbind outcome_bind]).
  rewrite write_fields_spec by (rewrite ?length_app; subst m; simpl; lia).
  rewrite find_map_utf8. destruct (List.find _ fields) as [f|] eqn:Hf; simpl; [done|].
  subst m. rewrite map_map, Nat.sub_0_r, Nat.sub_diag. by rewrite app_nil_r.
Qed.

(** ** The layout is injective *)

Lemma field_layout_inj e e' r r' :
  (Z.of_nat (length e) <= 65535) -> (Z.of_nat (length e') <= 65535) ->
  field_layout e ++ r = field_layout e' ++ r' -> e = e' /\ r = r'.
Proof.
  unfold field_layout. intros He He' Heq. cbn [app] in Heq.
  injection Heq as H1 H2 H3. apply app_inj_1; [zdiv | done].
Qed.

Lemma fields_layout_inj fs gs :
  length fs = length gs ->
  Forall (fun f => field_fits f = true /\ js_well_formed f = true) fs ->
  Forall (fun f => field_fits f = true /\ js_well_formed f = true) gs ->
  concat (map (fun f => field_layout (js_utf8 f)) fs)
  = concat (map (fun f => field_layout (js_utf8 f)) gs) -> fs = gs.
Proof.
  revert gs. induction fs as [|f fs IH]; intros [|g gs] Hl Hf Hg; try done.
  apply Forall_cons in Hf as [[Hf Hwf] Hfs], Hg as [[Hg Hwg] Hgs].
  unfold field_fits in Hf, Hg. bools. cbn [map concat].
  intros [Hu Heq]%field_layout_inj; [|done..].
  f_equal; [by apply js_utf8_inj | apply IH; auto].
Qed.

Lemma aad_spec_Ok scope n fields b :
  aad_spec scope n fields = Ok b ->
  length scope = 2%nat /\ Z.of_nat (length fields) = n /\
  Forall (fun f => field_fits f = true) fields /\ b = aad_layout scope fields.
Proof.
  unfold aad_spec. intros H. destruct (length scope =? 2)%nat eqn:E1; [|done].
  destruct (Z.of_nat (length fields) =? n) eqn:E2; [|done]. simpl in H.
  destruct (List.find _ fields) eqn:E3; [done|]. simplify_eq.
  apply Nat.eqb_eq in E1. bools. repeat split; try done.
  apply Forall_forall. intros f Hf. apply list_elem_of_In in Hf.
  apply negb_false_iff. exact (find_none _ _ E3 f Hf).
Qed.

(** A successful build fixes the scope bytes and, for well-formed fields, the
    fields themselves. *)
Lemma buildAADBytes_inj s1 n1 fs s2 n2 gs b :
  buildAADBytes s1 n1 fs = Ok b -> buildAADBytes s2 n2 gs = Ok b ->
  Forall (fun c => 0 <= c < 256) s1 -> Forall (fun c => 0 <= c < 256) s2 ->
  (length fs < 256)%nat -> (length gs < 256)%nat ->
  Forall (fun f => js_well_formed f = true) fs ->
  Forall (fun f => js_well_formed f = true) gs ->
  s1 = s2 /\ fs = gs.
Proof.
  rewrite !buildAADBytes_correct.
  intros (L1 & <- & F1 & ->)%aad_spec_Ok (L2 & <- & F2 & Hb)%aad_spec_Ok A1 A2 N1 N2 W1 W2.
  unfold aad_layout in Hb. injection Hb as B0 B1 Bn Hb.
  rewrite !Z.mod_small in Bn by lia. split.
  - destruct s1 as [|a [|a' [|? ?]]]; try done. destruct s2 as [|c [|c' [|? ?]]]; try done.
    rewrite !Forall_cons in A1, A2. simpl in B0, B1.
    rewrite !Z.mod_small in B0, B1 by lia. by subst.
  - apply fields_layout_inj; [lia | | | done]; by apply Forall_and.
Qed.

(** ** The registry as a whole *)

(** Scope and fields of a request that builds. *)
Definition request_scope (r : aad_request) : jsstr :=
  match r with
  | RPersonal _ _ _ => SCOPE_PERSONAL
  | RTeam _ _ _ _ => SCOPE_TEAM
  | RItemKey _ _ _ => SCOPE_ITEM_KEY
  | RAttachment _ _ => SCOPE_ATTACHMENT
  | RAttachmentWrap _ _ _ _ => SCOPE_ATTACHMENT_WRAP
  | RTeamKey _ => SCOPE_TEAM_KEY
  | RAdminReset _ => SCOPE_ADMIN_RESET
  | REmergency _ => SCOPE_EMERGENCY
  | RWebhook _ => SCOPE_WEBHOOK
  | RAccount _ => SCOPE_ACCOUNT_TOKEN
  end.

Definition request_fields (r : aad_request) : list jsstr :=
  match r with
  | RPersonal u e v => [u; e; vaultTypeString v]
  | RTeam t e v k => [t; e; vaultTypeString (default BLOB v); js_of_Z (default 0 k)]
  | RItemKey t e v => [t; e; js_of_Z v]
  | RAttachment e a => [e; a]
  | RAttachmentWrap e a k w => [e; a; js_of_Z k; js_of_Z w]
  | RTeamKey c => [tkw_teamId c; tkw_toUserId c; js_of_Z (tkw_keyVersion c);
                   js_of_Z (tkw_wrapVersion c)]
  | RAdminReset a => [ar_tenantId a; ar_resetId a; ar_targetEmailAtInitiate a]
  | REmergency c => [ew_grantId c; ew_ownerId c; ew_granteeId c;
                     js_of_Z (ew_keyVersion c); js_of_Z (ew_wrapVersion c)]
  | RWebhook a =>
      [wh_tableName a;
       js "v" ++ js_of_Z (match wh_version a with NInt v => v | NNotInteger => 0 end);
       wh_webhookId a; wh_tenantId a]
      ++ (if falsy (wh_teamId a) then [] else [default [] (wh_teamId a)])
  | RAccount a => [at_userId a; at_provider a; at_providerAccountId a]
  end.

(** What [buildWebhookSecretAAD] accepts. *)
Definition webhook_args_valid (a : WebhookSecretAADArgs) : bool :=
  match wh_version a with
  | NInt v => (1 <=? v) &&
      (((wh_tableName a =s js "TenantWebhook") && falsy (wh_teamId a))
       || ((wh_tableName a =s js "TeamWebhook") && negb (falsy (wh_teamId a))))
  | NNotInteger => false
  end.

Definition request_valid (r : aad_request) : bool :=
  match r with RWebhook a => webhook_args_valid a | _ => true end.

Lemma buildWebhookSecretAAD_valid a :
  webhook_args_valid a = true ->
  buildWebhookSecretAAD a
  = buildAADBytes SCOPE_WEBHOOK (Z.of_nat (length (request_fields (RWebhook a))))
      (request_fields (RWebhook a)).
Proof.
  unfold webhook_args_valid, buildWebhookSecretAAD, request_fields.
  destruct (wh_version a) as [v|]; [|done]. intros [Hv H]%andb_true_iff.
  rewrite Z.leb_antisym, negb_true_iff in Hv. rewrite Hv.
  destruct (wh_tableName a =s js "TenantWebhook") eqn:E1,
           (wh_tableName a =s js "TeamWebhook") eqn:E2,
           (falsy (wh_teamId a)) eqn:E3; simpl in *; try done.
  all: bools; rewrite E1 in E2; done.
Qed.

Lemma buildWebhookSecretAAD_invalid a b :
  webhook_args_valid a = false -> buildWebhookSecretAAD a <> Ok b.
Proof.
  unfold webhook_args_valid, buildWebhookSecretAAD.
  destruct (wh_version a) as [v|]; [|done]. rewrite Z.leb_antisym.
  destruct (v <? 1); simpl; [done|].
  destruct (wh_tableName a =s js "TenantWebhook") eqn:E1,
           (wh_tableName a =s js "TeamWebhook") eqn:E2,
           (falsy (wh_teamId a)) eqn:E3; simpl in *; done.
Qed.

(** Every builder is [buildAADBytes] on its scope and fields. *)
Lemma build_aad_Ok r b :
  build_aad r = Ok b ->
  request_valid r = true /\
  buildAADBytes (request_scope r) (Z.of_nat (length (request_fields r)))
    (request_fields r) = Ok b.
Proof.
  destruct r; simpl; intros H; try (by split).
  destruct (webhook_args_valid args) eqn:E.
  - by rewrite buildWebhookSecretAAD_valid in H.
  - by apply buildWebhookSecretAAD_invalid in H.
Qed.

Lemma request_scope_bytes r : Forall (fun c => 0 <= c < 256) (request_scope r).
Proof. destruct r; vm_compute; repeat constructor; try discriminate. Qed.

Lemma aad_ascii_well_formed s : Forall (fun c => 0 <= c < 128) s -> js_well_formed s = true.
Proof.
  induction 1 as [|c s Hc Hs IH]; [done|]. simpl.
  unfold is_high_surrogate, is_low_surrogate.
  destruct ((55296 <=? c) && (c <=? 56319)) eqn:E1; [bools; lia|].
  rewrite IH. rewrite !andb_true_iff, negb_true_iff. repeat split; try lia.
Qed.

Lemma aad_js_of_Z_ascii n : Forall (fun c => 0 <= c < 128) (js_of_Z n).
Proof.
  assert (H : forall k, 0 <= k -> Forall (fun c => 0 <= c < 128) (numeral 10 k)).
  { intros k Hk. eapply Forall_impl; [by apply numeral_decimal|].
    intros c Hc. unfold is_digit in Hc. bools. lia. }
  unfold js_of_Z. case_match; bools; [constructor; [lia|]|]; apply H; lia.
Qed.

Lemma js_of_Z_well_formed n : js_well_formed (js_of_Z n) = true.
Proof. apply aad_ascii_well_formed, aad_js_of_Z_ascii. Qed.

Lemma vaultTypeString_well_formed v : js_well_formed (vaultTypeString v) = true.
Proof. by destruct v. Qed.

Lemma vaultTypeString_inj v w : vaultTypeString v = vaultTypeString w -> v = w.
Proof. by destruct v, w. Qed.

#[export] Hint Resolve js_of_Z_well_formed vaultTypeString_well_formed : psso.

Lemma request_fields_well_formed r :
  request_valid r = true -> request_well_formed r = true ->
  Forall (fun f => js_well_formed f = true) (request_fields r).
Proof.
  unfold request_well_formed. intros Hv Hw. rewrite forallb_forall in Hw.
  destruct r; simpl in *; repeat (apply Forall_cons; split); auto with psso.
  - unfold webhook_args_valid in Hv. case_match; [|done]. bools.
    destruct H1 as [H1|H1]; bools; rewrite H1; done.
  - apply aad_ascii_well_formed, Forall_cons. split; [by vm_compute | apply aad_js_of_Z_ascii].
  - case_match; repeat constructor. apply Hw. auto.
Qed.

Lemma request_fields_count r : (length (request_fields r) < 256)%nat.
Proof. destruct r; simpl; try lia. case_match; simpl; lia. Qed.

Lemma webhook_fields_inj a1 a2 :
  webhook_args_valid a1 = true -> webhook_args_valid a2 = true ->
  request_fields (RWebhook a1) = request_fields (RWebhook a2) ->
  canonical_request (RWebhook a1) = canonical_request (RWebhook a2).
Proof.
  destruct a1 as [t1 v1 w1 n1 m1], a2 as [t2 v2 w2 n2 m2].
  unfold webhook_args_valid. cbn.
  destruct v1 as [v1|]; [|done]. destruct v2 as [v2|]; [|done]. intros _ _ Hf.
  assert (Hm : (if falsy m1 then None else m1) = (if falsy m2 then None else m2)).
  { destruct m1 as [[|]|], m2 as [[|]|]; simpl in *; congruence. }
  injection Hf as -> Hv -> -> _. apply js_of_Z_inj in Hv as ->. by rewrite Hm.
Qed.

(** Equal scopes and fields come from the same request, up to the optional
    arguments that mean the same. *)
Lemma request_fields_inj r1 r2 :
  request_valid r1 = true -> request_valid r2 = true ->
  request_scope r1 = request_scope r2 -> request_fields r1 = request_fields r2 ->
  canonical_request r1 = canonical_request r2.
Proof.
  intros V1 V2 Hs Hf.
  destruct r1, r2; try discriminate Hs; clear Hs;
    try (by apply webhook_fields_inj);
    repeat match goal with
    | c : TeamKeyWrapContext |- _ => destruct c
    | c : AdminResetAad |- _ => destruct c
    | c : EmergencyWrapContext |- _ => destruct c
    | c : AccountTokenAad |- _ => destruct c
    end; cbn in *; injection Hf; intros; subst;
    repeat match goal with
    | H : js_of_Z _ = js_of_Z _ |- _ => apply js_of_Z_inj in H
    | H : vaultTypeString _ = vaultTypeString _ |- _ => apply vaultTypeString_inj in H
    end; congruence.
Qed.

(** ** Properties *)

(** C17: the AAD bytes of the registry determine the builder and every argument
    it was called with: two calls on well-formed strings that produce the same
    bytes are the same call (up to optional arguments that mean the same), so a
    ciphertext cannot be transplanted to another scope, entry, user or key
    version. *)
Theorem aad_registry_injective r1 r2 b :
  build_aad r1 = Ok b -> build_aad r2 = Ok b ->
  request_well_formed r1 = true -> request_well_formed r2 = true ->
  canonical_request r1 = canonical_request r2.
Proof.
  intros [V1 B1]%build_aad_Ok [V2 B2]%build_aad_Ok W1 W2.
  destruct (buildAADBytes_inj _ _ _ _ _ _ _ B1 B2) as [Hs Hf];
    auto using request_scope_bytes, request_fields_count, request_fields_well_formed.
  by apply request_fields_inj.
Qed.

Lemma aad_registry_injective_witness :
  exists b,
    build_aad (RTeam (js "t1") (js "e1") None None) = Ok b /\
    build_aad (RTeam (js "t1") (js "e1") (Some BLOB) (Some 0)) = Ok b /\
    canonical_request (RTeam (js "t1") (js "e1") None None)
    = canonical_request (RTeam (js "t1") (js "e1") (Some BLOB) (Some 0)).
Proof.
  eexists. split; [vm_compute; reflexivity|]. split; [vm_compute; reflexivity|].
  eapply aad_registry_injective; vm_compute; reflexivity.
Defined.

(** [buildAADBytes], which fills a preallocated buffer through typed-array
    writes, never hits a range error: it returns exactly the documented layout
    or the documented error (scope length, field count, first field over 65535
    bytes). *)
Theorem buildAADBytes_layout scope expected fields :
  buildAADBytes scope expected fields = aad_spec scope expected fields.
Proof. apply buildAADBytes_correct. Qed.

(** [buildWebhookSecretAAD] succeeds exactly on a positive integer version
    with either TenantWebhook and no team or TeamWebhook and a team (and fields
    of at most 65535 bytes); a successful build of the other table with the
    other team presence does not exist. *)
Theorem buildWebhookSecretAAD_iff a :
  is_ok (buildWebhookSecretAAD a)
  = webhook_args_valid a && forallb field_fits (request_fields (RWebhook a)).
Proof.
  destruct (webhook_args_valid a) eqn:E.
  - rewrite buildWebhookSecretAAD_valid, buildAADBytes_correct by done.
    unfold aad_spec. rewrite Z.eqb_refl. cbn [negb length Nat.eqb SCOPE_WEBHOOK js].
    generalize (request_fields (RWebhook a)). intros fs. simpl.
    generalize (aad_layout SCOPE_WEBHOOK fs). intros layout.
    induction fs as [|f fs IH]; simpl; [done|]. by destruct (field_fits f).
  - destruct (buildWebhookSecretAAD a) eqn:B; [|done].
    by apply buildWebhookSecretAAD_invalid in B.
Qed.

(** The CLI port builds the same bytes as the web client for the same
    entry, and bytes of the CLI equal to those of any builder of the web
    registry come from the personal-entry builder with the same arguments. *)
Theorem cli_personal_aad_interop u e v r b :
  Cli.buildPersonalEntryAAD u e v = Ok b -> build_aad r = Ok b ->
  js_well_formed u = true -> js_well_formed e = true -> request_well_formed r = true ->
  r = RPersonal u e v.
Proof.
  intros Hc Hb Hu He Hr. change (build_aad (RPersonal u e v) = Ok b) in Hc.
  pose proof (build_aad_Ok _ _ Hc) as [V1 B1]. pose proof (build_aad_Ok _ _ Hb) as [V2 B2].
  assert (Hw : request_well_formed (RPersonal u e v) = true).
  { unfold request_well_formed. simpl. by rewrite Hu, He. }
  destruct (buildAADBytes_inj _ _ _ _ _ _ _ B1 B2) as [Hs Hf];
    auto using request_scope_bytes, request_fields_count, request_fields_well_formed.
  pose proof (request_fields_inj _ _ V1 V2 Hs Hf) as Hq.
  destruct r; try discriminate Hs. simpl in Hq. congruence.
Qed.

Lemma cli_personal_aad_interop_witness :
  exists b, Cli.buildPersonalEntryAAD (js "u1") (js "e1") OVERVIEW = Ok b /\
    build_aad (RPersonal (js "u1") (js "e1") OVERVIEW) = Ok b /\
    RPersonal (js "u1") (js "e1") OVERVIEW = RPersonal (js "u1") (js "e1") OVERVIEW.
Proof.
  eexists. split; [vm_compute; reflexivity|]. split; [vm_compute; reflexivity|].
  eapply cli_personal_aad_interop; vm_compute; reflexivity.
Defined.

(** Without well-formedness the encoding is not injective: TextEncoder maps
    every lone surrogate to U+FFFD. *)
Example lone_surrogates_collide :
  buildAttachmentAAD [55296] (js "a") = buildAttachmentAAD [56320] (js "a").
Proof. vm_compute. reflexivity. Qed.
