(* ===== verification/Table.v ===== *)
(** * Database tables as the Prisma client shows them

    A table is a finite map from primary key to row.  [findUnique],
    [updateMany], [create] and [deleteMany] are the client calls the components
    make; a row is visible to a call when the row-level-security context of the
    transaction admits it.  The lemmas are the ones the components' proofs
    use: what a lookup returns, which rows an update touches and how the
    returned count relates to them. *)

From S2P Require Import Prelude JsString.
From stdpp Require Import fin_maps.
Local Open Scope Z_scope.

Section Table.
Context {row : Type}.
Implicit Types (t : gmap jsstr row) (p : row -> bool) (f : row -> row).

(** [findUnique] / [findFirst] on a predicate over rows. *)
Definition find_by p t : option (jsstr * row) :=
  List.find (fun kr => p (snd kr)) (map_to_list t).

(** The rows a predicate selects. *)
Definition select p t : gmap jsstr row := filter (fun kr => p (snd kr) = true) t.

(** [updateMany({ where: p, data: f })]: the new table and the count. *)
Definition updateMany p f t : gmap jsstr row * nat :=
  ((fun r => if p r then f r else r) <$> t, size (select p t)).

(** [deleteMany({ where: p })] *)
Definition deleteMany p t : gmap jsstr row := filter (fun kr => p (snd kr) = false) t.

Lemma find_by_Some p t k r : find_by p t = Some (k, r) -> t !! k = Some r /\ p r = true.
Proof.
  unfold find_by. intros H. apply find_some in H as [Hin Hp].
  apply list_elem_of_In, elem_of_map_to_list in Hin. done.
Qed.

Lemma find_by_None p t k r : find_by p t = None -> t !! k = Some r -> p r = false.
Proof.
  unfold find_by. intros H Hk. apply elem_of_map_to_list, list_elem_of_In in Hk.
  exact (find_none _ _ H _ Hk).
Qed.

(** On a column that at most one row matches, [find_by] is the lookup. *)
Lemma find_by_unique p t k r :
  t !! k = Some r -> p r = true ->
  (forall k' r', t !! k' = Some r' -> p r' = true -> k' = k) ->
  find_by p t = Some (k, r).
Proof.
  intros Hk Hp Hu. destruct (find_by p t) as [[k' r']|] eqn:E.
  - apply find_by_Some in E as [Hk' Hp']. assert (k' = k) as -> by eauto. congruence.
  - rewrite (find_by_None _ _ _ _ E Hk) in Hp. done.
Qed.

Lemma select_lookup p t k r :
  select p t !! k = Some r <-> t !! k = Some r /\ p r = true.
Proof. unfold select. rewrite map_lookup_filter_Some. done. Qed.

Lemma updateMany_lookup p f t k :
  fst (updateMany p f t) !! k = (fun r => if p r then f r else r) <$> t !! k.
Proof. unfold updateMany. simpl. apply lookup_fmap. Qed.

Lemma updateMany_count_0 p f t :
  snd (updateMany p f t) = 0%nat <-> forall k r, t !! k = Some r -> p r = false.
Proof.
  unfold updateMany. simpl. rewrite map_size_empty_iff, map_empty.
  split; intros H k; [intros r Hk | ].
  - specialize (H k). destruct (p r) eqn:E; [|done].
    assert (select p t !! k = Some r) by (apply select_lookup; done). congruence.
  - destruct (select p t !! k) eqn:E; [|done].
    apply select_lookup in E as [Hk Hp]. specialize (H _ _ Hk). congruence.
Qed.

Lemma updateMany_none p f t :
  snd (updateMany p f t) = 0%nat -> fst (updateMany p f t) = t.
Proof.
  intros H. apply map_eq. intros k. rewrite updateMany_lookup.
  destruct (t !! k) as [r|] eqn:E; simpl; [|done].
  rewrite updateMany_count_0 in H. by rewrite (H _ _ E).
Qed.

Lemma updateMany_count_1 p f t :
  snd (updateMany p f t) = 1%nat <->
  exists k r, t !! k = Some r /\ p r = true /\
    (forall k' r', t !! k' = Some r' -> p r' = true -> k' = k).
Proof.
  unfold updateMany. simpl. split.
  - intros H. rewrite <- (size_dom (D:=gset jsstr)) in H.
    destruct (size_1_elem_of (C:=gset jsstr) _ H) as [k Hk].
    assert (Hin : k ∈ (dom (select p t) : gset jsstr)) by set_solver.
    apply elem_of_dom in Hin as [r Hr]. apply select_lookup in Hr as [Hr Hp].
    exists k, r. split_and!; [done..|]. intros k' r' Hk' Hp'.
    assert (k' ∈ (dom (select p t) : gset jsstr)); [|set_solver].
    apply elem_of_dom. exists r'. by apply select_lookup.
  - intros (k & r & Hk & Hp & Hu).
    replace (select p t) with ({[k := r]} : gmap jsstr row); [apply map_size_singleton|].
    apply map_eq. intros k'. destruct (decide (k = k')) as [<-|Hne].
    + rewrite lookup_singleton_eq. symmetry. by apply select_lookup.
    + rewrite lookup_singleton_ne by done. destruct (select p t !! k') eqn:E; [|done].
      apply select_lookup in E as [E E']. by destruct Hne; symmetry; eauto.
Qed.

(** A predicate that pins the primary key updates that row or nothing. *)
Lemma updateMany_pinned p f t k :
  (forall k' r', t !! k' = Some r' -> p r' = true -> k' = k) ->
  match t !! k with
  | Some r => if p r then updateMany p f t = (<[k := f r]> t, 1%nat)
              else updateMany p f t = (t, 0%nat)
  | None => updateMany p f t = (t, 0%nat)
  end.
Proof.
  intros Hu.
  assert (Hnone : (forall r, t !! k = Some r -> p r = false) ->
                  updateMany p f t = (t, 0%nat)).
  { intros Hn. assert (Hc : snd (updateMany p f t) = 0%nat).
    { apply updateMany_count_0. intros k' r' Hk'. destruct (p r') eqn:E; [|done].
      assert (k' = k) as -> by eauto. rewrite (Hn _ Hk') in E. done. }
    rewrite (surjective_pairing (updateMany p f t)), Hc. f_equal.
    by apply updateMany_none. }
  destruct (t !! k) as [r|] eqn:Hk; [|by apply Hnone].
  destruct (p r) eqn:Hp; [|apply Hnone; congruence].
  rewrite (surjective_pairing (updateMany p f t)). f_equal.
  - apply map_eq. intros k'. rewrite updateMany_lookup.
    destruct (decide (k = k')) as [<-|Hne].
    + rewrite lookup_insert_eq, Hk. simpl. by rewrite Hp.
    + rewrite lookup_insert_ne by done. destruct (t !! k') as [r'|] eqn:Hk'; [|done].
      simpl. destruct (p r') eqn:E; [|done]. by destruct Hne; symmetry; eauto.
  - apply updateMany_count_1. eauto 10.
Qed.
End Table.

