(* ===== verification/StatusMachine.v ===== *)
(** * Status machines stored in a table

    src/src/lib/emergency-access/emergency-access-state.ts and
    src/src/lib/access-request/access-request-state.ts are two copies of one
    scheme: an exhaustive matrix says which actor may move a row from one status
    to another, and [transition] / [bulkTransition] apply the move as a
    compare-and-swap on the status column.  [StatusMachine] is the interface the
    two modules instantiate; the theorems about the scheme are proved once
    against it. *)

From S2P Require Import Prelude JsString Table.
Local Open Scope Z_scope.

Inductive transition_error := UnscopedUnderBypass | MatchedManyRows.

#[export] Instance transition_error_eq_dec : EqDecision transition_error.
Proof. solve_decision. Defined.

(** What a status module provides: the statuses in the order of
    [Object.entries(MATRIX)], the matrix, the status column of a row, and the
    [where] inputs with their meaning and their scope check. *)
Class StatusMachine (status actor row where_ : Type) := {
  sm_statuses : list status;
  sm_matrix : status -> status -> list actor;
  sm_status : row -> status;
  sm_set_status : status -> row -> row;
  sm_matches : where_ -> jsstr -> row -> bool;
  sm_scoped : where_ -> bool;
  sm_status_set : forall s r, sm_status (sm_set_status s r) = s;
  sm_exhaustive : forall s, s ∈ sm_statuses }.

Section Machine.
Context {status actor row where_ : Type} `{EqDecision status, EqDecision actor}.
Context {M : StatusMachine status actor row where_}.
Implicit Types (t : gmap jsstr row) (a : actor) (to : status) (wh : where_)
  (visible : row -> bool) (extra : row -> row).

Definition sm_canTransition (from to : status) (a : actor) : bool :=
  bool_decide (a ∈ sm_matrix from to).

(** [Object.entries(MATRIX).filter(...).map(([from]) => from)] *)
Definition sm_allowedFroms (to : status) (a : actor) : list status :=
  filter (fun from => a ∈ sm_matrix from to) sm_statuses.

(** [updateMany({ where: { ...where, status: { in: allowedFroms } },
    data: { ...extraData, status: to } })] on the rows the RLS context shows. *)
Definition sm_update (visible : row -> bool) (wh : where_) (froms : list status)
    (to : status) (extra : row -> row) t : gmap jsstr row * nat :=
  let hit k r := visible r && sm_matches wh k r && bool_decide (sm_status r ∈ froms) in
  (map_imap (fun k r => Some (if hit k r then sm_set_status to (extra r) else r)) t,
   size (filter (fun kr : jsstr * row => hit kr.1 kr.2 = true) t)).

(** [transition(args)]: the table after the call and what the call returns or
    throws.  A throw after the update leaves the update in the transaction. *)
Definition sm_transition (bypass : bool) (visible : row -> bool) (wh : where_)
    (to : status) (a : actor) (extra : row -> row) t
    : gmap jsstr row * outcome transition_error bool :=
  let froms := sm_allowedFroms to a in
  if (length froms =? 0)%nat then (t, Ok false)
  else if bypass && negb (sm_scoped wh) then (t, Throw UnscopedUnderBypass)
  else
    let '(t', count) := sm_update visible wh froms to extra t in
    if (1 <? count)%nat then (t', Throw MatchedManyRows)
    else (t', Ok (count =? 1)%nat).

(** [bulkTransition(args)] returns the number of updated rows. *)
Definition sm_bulkTransition (bypass : bool) (visible : row -> bool) (wh : where_)
    (to : status) (a : actor) (extra : row -> row) t
    : gmap jsstr row * outcome transition_error nat :=
  let froms := sm_allowedFroms to a in
  if (length froms =? 0)%nat then (t, Ok 0%nat)
  else if bypass && negb (sm_scoped wh) then (t, Throw UnscopedUnderBypass)
  else
    let '(t', count) := sm_update visible wh froms to extra t in
    (t', Ok count).

(** ** Facts shared by every machine *)

Lemma sm_allowedFroms_spec to a from :
  from ∈ sm_allowedFroms to a <-> sm_canTransition from to a = true.
Proof.
  unfold sm_allowedFroms, sm_canTransition. rewrite list_elem_of_filter, bool_decide_eq_true.
  split; [tauto|]. split; [done | apply sm_exhaustive].
Qed.

(** When a call touches a row. *)
Definition sm_hit (visible : row -> bool) (wh : where_) (to : status) (a : actor)
    (k : jsstr) (r : row) : bool :=
  visible r && sm_matches wh k r && sm_canTransition (sm_status r) to a.

Lemma sm_hit_froms visible wh to a k r :
  visible r && sm_matches wh k r && bool_decide (sm_status r ∈ sm_allowedFroms to a)
  = sm_hit visible wh to a k r.
Proof.
  unfold sm_hit. f_equal.
  destruct (sm_canTransition (sm_status r) to a) eqn:E.
  - by apply bool_decide_eq_true, sm_allowedFroms_spec.
  - apply bool_decide_eq_false. rewrite sm_allowedFroms_spec. congruence.
Qed.

Lemma sm_update_lookup visible wh to a extra t k :
  fst (sm_update visible wh (sm_allowedFroms to a) to extra t) !! k
  = (fun r => if sm_hit visible wh to a k r then sm_set_status to (extra r) else r)
      <$> t !! k.
Proof.
  unfold sm_update. simpl. rewrite map_lookup_imap.
  destruct (t !! k) as [r|]; simpl; [|done]. by rewrite sm_hit_froms.
Qed.

Definition sm_hits visible wh to a t : gmap jsstr row :=
  filter (fun kr : jsstr * row => sm_hit visible wh to a kr.1 kr.2 = true) t.

Lemma sm_update_count visible wh to a extra t :
  snd (sm_update visible wh (sm_allowedFroms to a) to extra t)
  = size (sm_hits visible wh to a t).
Proof.
  unfold sm_update, sm_hits. simpl. f_equal. apply map_filter_ext. intros k r _. simpl.
  by rewrite sm_hit_froms.
Qed.

Lemma sm_allowedFroms_nil visible wh to a k r :
  (length (sm_allowedFroms to a) =? 0)%nat = true -> sm_hit visible wh to a k r = false.
Proof.
  intros Hn. unfold sm_hit. destruct (sm_canTransition (sm_status r) to a) eqn:E.
  - apply sm_allowedFroms_spec in E. apply Nat.eqb_eq, nil_length_inv in Hn.
    rewrite Hn in E. by apply not_elem_of_nil in E.
  - by rewrite andb_false_r.
Qed.

(** Row by row, a call either leaves the row alone or makes a permitted move of
    a row it was scoped to. *)
Lemma sm_transition_lookup bypass visible wh to a extra t k :
  let t' := fst (sm_transition bypass visible wh to a extra t) in
  t' !! k = t !! k \/
  exists r, t !! k = Some r /\ sm_hit visible wh to a k r = true /\
    t' !! k = Some (sm_set_status to (extra r)).
Proof.
  unfold sm_transition. case_match; [by left|]. case_match; [by left|].
  rewrite (surjective_pairing (sm_update _ _ _ _ _ _)).
  assert (Hl := sm_update_lookup visible wh to a extra t k).
  case_match; cbn [fst]; rewrite Hl; destruct (t !! k) as [r|]; simpl; try (by left);
    destruct (sm_hit visible wh to a k r) eqn:E; eauto.
Qed.

Lemma sm_bulkTransition_lookup bypass visible wh to a extra t k :
  is_ok (snd (sm_bulkTransition bypass visible wh to a extra t)) = true ->
  fst (sm_bulkTransition bypass visible wh to a extra t) !! k
  = (fun r => if sm_hit visible wh to a k r then sm_set_status to (extra r) else r)
      <$> t !! k.
Proof.
  unfold sm_bulkTransition. case_match eqn:E.
  { intros _. simpl. destruct (t !! k) as [r|]; simpl; [|done].
    by rewrite sm_allowedFroms_nil. }
  case_match; [done|]. rewrite (surjective_pairing (sm_update _ _ _ _ _ _)).
  intros _. apply sm_update_lookup.
Qed.

(** No call creates or deletes rows. *)
Lemma sm_transition_dom bypass visible wh to a extra t :
  dom (fst (sm_transition bypass visible wh to a extra t)) = dom t.
Proof.
  apply set_eq. intros k. rewrite !elem_of_dom.
  destruct (sm_transition_lookup bypass visible wh to a extra t k)
    as [->|(r & -> & _ & ->)]; [done|]. split; by eexists.
Qed.

(** A [where] input that matches at most the row with key [k]. *)
Definition sm_pins wh t (k : jsstr) : Prop :=
  forall k' r', t !! k' = Some r' -> sm_matches wh k' r' = true -> k' = k.

Lemma sm_hit_pinned visible wh to a t k k' r' :
  sm_pins wh t k -> t !! k' = Some r' -> k' <> k ->
  sm_hit visible wh to a k' r' = false.
Proof.
  intros Hpin Hr Hne. unfold sm_hit.
  destruct (sm_matches wh k' r') eqn:E; [|by rewrite andb_false_r].
  destruct Hne. eauto.
Qed.

Lemma sm_hits_pinned visible wh to a t k :
  sm_pins wh t k ->
  sm_hits visible wh to a t
  = match t !! k with
    | Some r => if sm_hit visible wh to a k r then {[k := r]} else ∅
    | None => ∅
    end.
Proof.
  intros Hpin. apply map_eq. intros k'. unfold sm_hits.
  destruct (decide (k = k')) as [<-|Hne].
  - rewrite map_lookup_filter. destruct (t !! k) as [r|]; simpl; [|done].
    destruct (sm_hit visible wh to a k r) eqn:Eh; simpl.
    + by rewrite lookup_singleton_eq.
    + by rewrite lookup_empty.
  - trans (None : option row).
    + apply map_lookup_filter_None. right. intros r' Hr' Hh. simpl in Hh.
      by rewrite (sm_hit_pinned _ _ _ _ _ _ _ _ Hpin Hr') in Hh.
    + repeat case_match; by rewrite ?lookup_empty, ?lookup_singleton_ne.
Qed.

(** The compare-and-swap on one row: when the [where] input pins key [k], the
    call succeeds exactly if the row is there, visible, matched and in a status
    the actor may leave, and then only that row changes. *)
Lemma sm_transition_pinned bypass visible wh to a extra t k :
  sm_pins wh t k -> bypass && negb (sm_scoped wh) = false ->
  sm_transition bypass visible wh to a extra t
  = match t !! k with
    | Some r => if sm_hit visible wh to a k r
                then (<[k := sm_set_status to (extra r)]> t, Ok true) else (t, Ok false)
    | None => (t, Ok false)
    end.
Proof.
  intros Hpin Hsc. unfold sm_transition. rewrite Hsc.
  destruct (length (sm_allowedFroms to a) =? 0)%nat eqn:E.
  { destruct (t !! k) as [r|] eqn:Hk; [|done]. by rewrite sm_allowedFroms_nil. }
  rewrite (surjective_pairing (sm_update _ _ _ _ _ _)), sm_update_count.
  rewrite (sm_hits_pinned _ _ _ _ _ k) by done.
  assert (Hl := sm_update_lookup visible wh to a extra t). set (t' := fst _) in *.
  assert (Hother : forall k', k' <> k -> t' !! k' = t !! k').
  { intros k' Hne. rewrite Hl. destruct (t !! k') as [r'|] eqn:E'; [|done]. simpl.
    by rewrite (sm_hit_pinned _ _ _ _ _ _ _ _ Hpin E'). }
  assert (Hext : forall m : gmap jsstr row,
    m !! k = t' !! k -> (forall k', k' <> k -> m !! k' = t !! k') -> t' = m).
  { intros m Hk Hm. apply map_eq. intros k'. destruct (decide (k' = k)) as [->|];
      [done|]. by rewrite Hother, Hm. }
  specialize (Hl k). destruct (t !! k) as [r|] eqn:Hk; simpl in Hl.
  1: destruct (sm_hit visible wh to a k r) eqn:Eh.
  - rewrite map_size_singleton. simpl. f_equal. apply Hext.
    + by rewrite lookup_insert_eq.
    + intros k' Hne. by rewrite lookup_insert_ne.
  - rewrite map_size_empty. simpl. f_equal. apply Hext; congruence.
  - rewrite map_size_empty. simpl. f_equal. apply Hext; congruence.
Qed.

End Machine.
