(* ===== verification/EmergencyAccess.v ===== *)
(** * Emergency access: grants and their status machine

    Models src/src/lib/emergency-access/emergency-access-state.ts (matrix,
    [canTransition], [transition], [bulkTransition]),
    emergency-access-server.ts ([markGrantsStaleForOwner]) and
    vault-auto-promote.ts ([autoPromoteIfElapsed]) on the grant table.  The
    handlers that call them are in EmergencyAccessApi. *)

From S2P Require Import Prelude JsString Table StatusMachine.
Local Open Scope Z_scope.

(** Time is in milliseconds since the epoch. *)
Definition MS_PER_DAY : Z := 86400000.

Inductive EmergencyAccessStatus :=
  PENDING | ACCEPTED | IDLE | STALE | REQUESTED | ACTIVATED | REVOKED | REJECTED.
Inductive EaActor := OWNER | GRANTEE | SYSTEM.

#[export] Instance ea_status_eq_dec : EqDecision EmergencyAccessStatus.
Proof. solve_decision. Defined.
#[export] Instance ea_actor_eq_dec : EqDecision EaActor.
Proof. solve_decision. Defined.

(** [MATRIX[from][to]] *)
Definition MATRIX (from to : EmergencyAccessStatus) : list EaActor :=
  match from, to with
  | PENDING, ACCEPTED => [GRANTEE]
  | PENDING, REJECTED => [GRANTEE]
  | PENDING, REVOKED => [OWNER]
  | ACCEPTED, IDLE => [OWNER]
  | ACCEPTED, REVOKED => [OWNER]
  | IDLE, REQUESTED => [GRANTEE]
  | IDLE, STALE => [SYSTEM]
  | IDLE, REVOKED => [OWNER]
  | STALE, IDLE => [OWNER]
  | STALE, REVOKED => [OWNER]
  | REQUESTED, ACTIVATED => [OWNER; SYSTEM]
  | REQUESTED, IDLE => [OWNER]
  | REQUESTED, STALE => [SYSTEM]
  | REQUESTED, REVOKED => [OWNER]
  | ACTIVATED, STALE => [SYSTEM]
  | ACTIVATED, REVOKED => [OWNER]
  | _, _ => []
  end.

(** ** Rows of emergency_access_grants *)

(** Columns written once, when the grant is created. *)
Record invitation := {
  inv_tenantId : jsstr; inv_ownerId : jsstr; inv_granteeEmail : jsstr;
  inv_waitDays : Z; inv_tokenHash : jsstr; inv_tokenExpiresAt : Z;
  inv_keyAlgorithm : jsstr }.

(** The escrow columns. *)
Record escrow := {
  es_ownerEphemeralPublicKey : option jsstr; es_encryptedSecretKey : option jsstr;
  es_secretKeyIv : option jsstr; es_secretKeyAuthTag : option jsstr;
  es_hkdfSalt : option jsstr; es_wrapVersion : Z; es_keyVersion : option Z }.

(** Timestamps of the state machine. *)
Record timeline := {
  tl_requestedAt : option Z; tl_activatedAt : option Z;
  tl_waitExpiresAt : option Z; tl_revokedAt : option Z }.

Record grant := {
  g_invitation : invitation; g_status : EmergencyAccessStatus;
  g_granteeId : option jsstr; g_granteePublicKey : option jsstr;
  g_escrow : escrow; g_timeline : timeline }.

Definition ownerId (g : grant) := inv_ownerId (g_invitation g).
Definition granteeEmail (g : grant) := inv_granteeEmail (g_invitation g).
Definition waitDays (g : grant) := inv_waitDays (g_invitation g).
Definition requestedAt (g : grant) := tl_requestedAt (g_timeline g).
Definition waitExpiresAt (g : grant) := tl_waitExpiresAt (g_timeline g).
Definition revokedAt (g : grant) := tl_revokedAt (g_timeline g).
Definition encryptedSecretKey (g : grant) := es_encryptedSecretKey (g_escrow g).
Definition ownerEphemeralPublicKey (g : grant) := es_ownerEphemeralPublicKey (g_escrow g).
Definition keyVersion (g : grant) := es_keyVersion (g_escrow g).

(** ** [extraData]: the column assignments of an update *)

Inductive column_set :=
| SetGranteeId (v : option jsstr)
| SetGranteePublicKey (v : option jsstr)
| SetRequestedAt (v : option Z)
| SetActivatedAt (v : option Z)
| SetWaitExpiresAt (v : option Z)
| SetRevokedAt (v : option Z)
| SetOwnerEphemeralPublicKey (v : option jsstr)
| SetCipher (epk esk iv tag salt : option jsstr)
| SetWrapVersion (v : Z)
| SetKeyVersion (v : option Z).

Definition set_timeline (g : grant) (t : timeline) : grant :=
  {| g_invitation := g_invitation g; g_status := g_status g; g_granteeId := g_granteeId g;
     g_granteePublicKey := g_granteePublicKey g; g_escrow := g_escrow g; g_timeline := t |}.
Definition set_escrow (g : grant) (e : escrow) : grant :=
  {| g_invitation := g_invitation g; g_status := g_status g; g_granteeId := g_granteeId g;
     g_granteePublicKey := g_granteePublicKey g; g_escrow := e; g_timeline := g_timeline g |}.
Definition set_grantee (g : grant) (i k : option jsstr) : grant :=
  {| g_invitation := g_invitation g; g_status := g_status g; g_granteeId := i;
     g_granteePublicKey := k; g_escrow := g_escrow g; g_timeline := g_timeline g |}.
Definition set_status (s : EmergencyAccessStatus) (g : grant) : grant :=
  {| g_invitation := g_invitation g; g_status := s; g_granteeId := g_granteeId g;
     g_granteePublicKey := g_granteePublicKey g; g_escrow := g_escrow g;
     g_timeline := g_timeline g |}.

Definition apply_set (g : grant) (s : column_set) : grant :=
  let t := g_timeline g in
  let e := g_escrow g in
  match s with
  | SetGranteeId v => set_grantee g v (g_granteePublicKey g)
  | SetGranteePublicKey v => set_grantee g (g_granteeId g) v
  | SetRequestedAt v =>
      set_timeline g {| tl_requestedAt := v; tl_activatedAt := tl_activatedAt t;
                        tl_waitExpiresAt := tl_waitExpiresAt t; tl_revokedAt := tl_revokedAt t |}
  | SetActivatedAt v =>
      set_timeline g {| tl_requestedAt := tl_requestedAt t; tl_activatedAt := v;
                        tl_waitExpiresAt := tl_waitExpiresAt t; tl_revokedAt := tl_revokedAt t |}
  | SetWaitExpiresAt v =>
      set_timeline g {| tl_requestedAt := tl_requestedAt t; tl_activatedAt := tl_activatedAt t;
                        tl_waitExpiresAt := v; tl_revokedAt := tl_revokedAt t |}
  | SetRevokedAt v =>
      set_timeline g {| tl_requestedAt := tl_requestedAt t; tl_activatedAt := tl_activatedAt t;
                        tl_waitExpiresAt := tl_waitExpiresAt t; tl_revokedAt := v |}
  | SetOwnerEphemeralPublicKey v =>
      set_escrow g {| es_ownerEphemeralPublicKey := v;
                      es_encryptedSecretKey := es_encryptedSecretKey e;
                      es_secretKeyIv := es_secretKeyIv e;
                      es_secretKeyAuthTag := es_secretKeyAuthTag e;
                      es_hkdfSalt := es_hkdfSalt e; es_wrapVersion := es_wrapVersion e;
                      es_keyVersion := es_keyVersion e |}
  | SetCipher epk esk iv tag salt =>
      set_escrow g {| es_ownerEphemeralPublicKey := epk; es_encryptedSecretKey := esk;
                      es_secretKeyIv := iv; es_secretKeyAuthTag := tag; es_hkdfSalt := salt;
                      es_wrapVersion := es_wrapVersion e; es_keyVersion := es_keyVersion e |}
  | SetWrapVersion v =>
      set_escrow g {| es_ownerEphemeralPublicKey := es_ownerEphemeralPublicKey e;
                      es_encryptedSecretKey := es_encryptedSecretKey e;
                      es_secretKeyIv := es_secretKeyIv e;
                      es_secretKeyAuthTag := es_secretKeyAuthTag e;
                      es_hkdfSalt := es_hkdfSalt e; es_wrapVersion := v;
                      es_keyVersion := es_keyVersion e |}
  | SetKeyVersion v =>
      set_escrow g {| es_ownerEphemeralPublicKey := es_ownerEphemeralPublicKey e;
                      es_encryptedSecretKey := es_encryptedSecretKey e;
                      es_secretKeyIv := es_secretKeyIv e;
                      es_secretKeyAuthTag := es_secretKeyAuthTag e;
                      es_hkdfSalt := es_hkdfSalt e; es_wrapVersion := es_wrapVersion e;
                      es_keyVersion := v |}
  end.

Definition apply_extra (xs : list column_set) (g : grant) : grant := foldl apply_set g xs.

(** ** [where] inputs *)

Inductive grant_pred :=
| WId (v : jsstr)
| WOwnerId (v : jsstr)
| WGranteeId (v : jsstr)
| WGranteeEmail (v : jsstr)
| WTokenHash (v : jsstr)
| WKeyVersionBelowOrNull (v : Z).

Definition pred_matches (p : grant_pred) (k : jsstr) (g : grant) : bool :=
  match p with
  | WId v => k =s v
  | WOwnerId v => ownerId g =s v
  | WGranteeId v => g_granteeId g =s Some v
  | WGranteeEmail v => granteeEmail g =s v
  | WTokenHash v => inv_tokenHash (g_invitation g) =s v
  | WKeyVersionBelowOrNull v => match keyVersion g with Some n => n <? v | None => true end
  end.

Definition where_matches (w : list grant_pred) (k : jsstr) (g : grant) : bool :=
  forallb (fun p => pred_matches p k g) w.

(** [hasResourceScope] *)
Definition hasResourceScope (w : list grant_pred) : bool :=
  existsb (fun p => match p with
                    | WOwnerId _ | WGranteeId _ | WGranteeEmail _ | WTokenHash _ => true
                    | _ => false
                    end) w.

Definition ea_statuses : list EmergencyAccessStatus :=
  [PENDING; ACCEPTED; IDLE; STALE; REQUESTED; ACTIVATED; REVOKED; REJECTED].

#[export, refine] Instance ea_machine :
  StatusMachine EmergencyAccessStatus EaActor grant (list grant_pred) := {|
    sm_statuses := ea_statuses; sm_matrix := MATRIX; sm_status := g_status;
    sm_set_status := set_status; sm_matches := where_matches;
    sm_scoped := hasResourceScope |}.
Proof.
  - done.
  - intros []; unfold ea_statuses; set_solver.
Defined.

Definition canTransition (from to : EmergencyAccessStatus) (a : EaActor) : bool :=
  bool_decide (a ∈ MATRIX from to).

(** The row-level-security context a transaction runs in. *)
Inductive rls := RlsBypass | RlsTenant (tenantId : jsstr).

Definition isBypassRlsActive (c : rls) : bool :=
  match c with RlsBypass => true | RlsTenant _ => false end.
Definition rls_visible (c : rls) (g : grant) : bool :=
  match c with
  | RlsBypass => true
  | RlsTenant t => inv_tenantId (g_invitation g) =s t
  end.

Definition transition (c : rls) (w : list grant_pred) (to : EmergencyAccessStatus)
    (a : EaActor) (extra : list column_set) (t : gmap jsstr grant)
    : gmap jsstr grant * outcome transition_error bool :=
  sm_transition (isBypassRlsActive c) (rls_visible c) w to a (apply_extra extra) t.

Definition bulkTransition (c : rls) (w : list grant_pred) (to : EmergencyAccessStatus)
    (a : EaActor) (extra : list column_set) (t : gmap jsstr grant)
    : gmap jsstr grant * outcome transition_error nat :=
  sm_bulkTransition (isBypassRlsActive c) (rls_visible c) w to a (apply_extra extra) t.

(** [markGrantsStaleForOwner] *)
Definition markGrantsStaleForOwner (c : rls) (owner : jsstr) (newKeyVersion : Z)
    (t : gmap jsstr grant) : gmap jsstr grant * outcome transition_error nat :=
  bulkTransition c [WOwnerId owner; WKeyVersionBelowOrNull newKeyVersion] STALE SYSTEM
    [SetOwnerEphemeralPublicKey None] t.

(** The [bulkTransition] call of the vault reset
    (src/src/lib/vault/vault-reset.ts). *)
Definition revokeGrantsOnVaultReset (c : rls) (target : jsstr) (now : Z)
    (t : gmap jsstr grant) : gmap jsstr grant * outcome transition_error nat :=
  bulkTransition c [WOwnerId target] REVOKED OWNER [SetRevokedAt (Some now)] t.

(** ** [autoPromoteIfElapsed] *)

Record keypair := {
  kp_encryptedPrivateKey : jsstr; kp_privateKeyIv : jsstr; kp_privateKeyAuthTag : jsstr }.

Inductive promote_reason := NotEligible | Revoked | NoEscrow.
Inductive AutoPromoteResult :=
| Promoted (g : grant) (kp : keypair)
| NotPromoted (r : promote_reason).

Definition truthy (s : option jsstr) : bool :=
  match s with Some (_ :: _) => true | _ => false end.

(** The eligibility check of step 2. *)
Definition promote_eligible (granteeId : jsstr) (now : Z) (current : option grant) : bool :=
  match current with
  | None => false
  | Some g =>
      (g_granteeId g =s Some granteeId) && bool_decide (g_status g = REQUESTED)
      && match waitExpiresAt g with Some e => negb (now <? e) | None => false end
  end.

(** Runs inside the caller's bypass transaction: the eligibility read and the
    compare-and-swap see the same table. *)
Definition autoPromoteIfElapsed (keypairs : gmap jsstr keypair) (granteeId grantId : jsstr)
    (now : Z) (t : gmap jsstr grant)
    : gmap jsstr grant * outcome transition_error AutoPromoteResult :=
  if negb (promote_eligible granteeId now (t !! grantId))
  then (t, Ok (NotPromoted NotEligible))
  else
    let '(t', promoted) :=
      transition RlsBypass [WId grantId; WGranteeId granteeId] ACTIVATED SYSTEM
        [SetActivatedAt (Some now)] t in
    match promoted with
    | Throw e => (t', Throw e)
    | Ok false => (t', Ok (NotPromoted NotEligible))
    | Ok true =>
        match t' !! grantId with
        | None => (t', Ok (NotPromoted Revoked))
        | Some updated =>
            match revokedAt updated with
            | Some _ => (t', Ok (NotPromoted Revoked))
            | None =>
                match keypairs !! grantId with
                | Some kp => if truthy (encryptedSecretKey updated)
                             then (t', Ok (Promoted updated kp))
                             else (t', Ok (NotPromoted NoEscrow))
                | None => (t', Ok (NotPromoted NoEscrow))
                end
            end
        end
    end.

(** ** Lemmas *)

Lemma apply_set_status g s : g_status (apply_set g s) = g_status g.
Proof. by destruct s. Qed.

Lemma apply_set_invitation g s : g_invitation (apply_set g s) = g_invitation g.
Proof. by destruct s. Qed.

Lemma apply_extra_invitation xs g : g_invitation (apply_extra xs g) = g_invitation g.
Proof.
  revert g. induction xs as [|x xs IH]; intros g; [done|].
  unfold apply_extra in *. simpl. by rewrite IH, apply_set_invitation.
Qed.

Lemma canTransition_sm from to a : sm_canTransition from to a = canTransition from to a.
Proof. done. Qed.

(** A [where] input with the primary key pins one row. *)
Lemma where_pins w t k : WId k ∈ w -> sm_pins w t k.
Proof.
  intros Hin k' r' _ Hm. change (where_matches w k' r' = true) in Hm.
  unfold where_matches in Hm. rewrite forallb_forall in Hm.
  apply list_elem_of_In in Hin. specialize (Hm _ Hin). simpl in Hm. by bools.
Qed.

(** The compare-and-swap of a single grant, in closed form. *)
Lemma transition_pinned c w to a extra t k :
  WId k ∈ w -> (isBypassRlsActive c = true -> hasResourceScope w = true) ->
  transition c w to a extra t
  = match t !! k with
    | Some g => if rls_visible c g && where_matches w k g && canTransition (g_status g) to a
                then (<[k := set_status to (apply_extra extra g)]> t, Ok true)
                else (t, Ok false)
    | None => (t, Ok false)
    end.
Proof.
  intros Hin Hsc. unfold transition. rewrite (sm_transition_pinned _ _ _ _ _ _ _ k); [done| |].
  - by apply where_pins.
  - destruct (isBypassRlsActive c); [|done]. simpl. change (negb (hasResourceScope w) = false).
    by rewrite Hsc.
Qed.

(** Edges of the machine. *)
Lemma canTransition_to_activated from a :
  canTransition from ACTIVATED a = true -> from = REQUESTED /\ (a = OWNER \/ a = SYSTEM).
Proof. destruct from, a; vm_compute; try done; auto. Qed.

Lemma canTransition_terminal from to a :
  canTransition from to a = true -> from <> REVOKED /\ from <> REJECTED.
Proof. destruct from, to, a; vm_compute; try done; auto. Qed.

Lemma canTransition_grantee from to :
  canTransition from to GRANTEE = true ->
  (from = PENDING /\ (to = ACCEPTED \/ to = REJECTED)) \/ (from = IDLE /\ to = REQUESTED).
Proof. destruct from, to; vm_compute; try done; auto. Qed.

Definition holds_escrow (s : EmergencyAccessStatus) : bool :=
  bool_decide (s ∈ [IDLE; REQUESTED; ACTIVATED]).

Lemma canTransition_stale from a :
  canTransition from STALE a = bool_decide (a = SYSTEM) && holds_escrow from.
Proof. by destruct from, a. Qed.

(** ** Properties *)

(** A [transition] call changes no row except by a move the matrix permits
    to that actor, on a row the transaction can see and the [where] input
    matches; the immutable columns of the row survive, REVOKED and REJECTED
    rows never change, and only OWNER or SYSTEM can activate, out of REQUESTED. *)
Theorem transition_row_safe c w to a extra t k g g' :
  t !! k = Some g -> fst (transition c w to a extra t) !! k = Some g' -> g' <> g ->
  canTransition (g_status g) to a = true /\ g_status g' = to /\
  rls_visible c g = true /\ where_matches w k g = true /\
  g_invitation g' = g_invitation g /\
  g_status g <> REVOKED /\ g_status g <> REJECTED /\
  (to = ACTIVATED -> g_status g = REQUESTED /\ a <> GRANTEE).
Proof.
  intros Hg Hg' Hne. unfold transition in Hg'.
  destruct (sm_transition_lookup (isBypassRlsActive c) (rls_visible c) w to a
              (apply_extra extra) t k) as [E|(r & Hr & Hh & E)].
  { rewrite Hg' in E. congruence. }
  rewrite Hg' in E. rewrite Hg in Hr. simplify_eq. unfold sm_hit in Hh. bools.
  change (canTransition (g_status r) to a = true) in H0.
  destruct (canTransition_terminal _ _ _ H0).
  split_and!; try done.
  - apply apply_extra_invitation.
  - intros ->. apply canTransition_to_activated in H0. naive_solver.
Qed.

Definition sample_invitation : invitation :=
  {| inv_tenantId := js "t1"; inv_ownerId := js "owner"; inv_granteeEmail := js "g@x.org";
     inv_waitDays := 3; inv_tokenHash := js "h"; inv_tokenExpiresAt := 1000;
     inv_keyAlgorithm := js "ECDH-P256" |}.
Definition sample_escrow : escrow :=
  {| es_ownerEphemeralPublicKey := Some (js "epk"); es_encryptedSecretKey := Some (js "ct");
     es_secretKeyIv := Some (js "iv"); es_secretKeyAuthTag := Some (js "tag");
     es_hkdfSalt := Some (js "salt"); es_wrapVersion := 1; es_keyVersion := Some 1 |}.
Definition sample_grant (s : EmergencyAccessStatus) : grant :=
  {| g_invitation := sample_invitation; g_status := s; g_granteeId := Some (js "grantee");
     g_granteePublicKey := Some (js "pk"); g_escrow := sample_escrow;
     g_timeline := {| tl_requestedAt := Some 0; tl_activatedAt := None;
                      tl_waitExpiresAt := Some (3 * MS_PER_DAY); tl_revokedAt := None |} |}.

Lemma transition_row_safe_witness :
  canTransition REQUESTED ACTIVATED OWNER = true /\
  fst (transition (RlsTenant (js "t1")) [WId (js "g1"); WOwnerId (js "owner")] ACTIVATED OWNER
         [SetActivatedAt (Some 5)] {[js "g1" := sample_grant REQUESTED]}) !! js "g1"
  = Some (set_status ACTIVATED (apply_extra [SetActivatedAt (Some 5)] (sample_grant REQUESTED))).
Proof.
  split.
  - apply (transition_row_safe (RlsTenant (js "t1")) [WId (js "g1"); WOwnerId (js "owner")]
      ACTIVATED OWNER [SetActivatedAt (Some 5)] {[js "g1" := sample_grant REQUESTED]} (js "g1")
      (sample_grant REQUESTED)
      (set_status ACTIVATED (apply_extra [SetActivatedAt (Some 5)] (sample_grant REQUESTED))));
      vm_compute; congruence.
  - vm_compute. reflexivity.
Defined.

(** [markGrantsStaleForOwner] moves exactly the owner's visible grants that
    hold escrow under an older (or untracked) key version to STALE, dropping the
    ephemeral key the unwrap needs, leaves every other row alone and returns
    how many rows it moved; afterwards no visible grant of the owner still
    serves escrow of an older key version. *)
Theorem markGrantsStaleForOwner_spec c owner v t :
  let hit k g := rls_visible c g && where_matches [WOwnerId owner; WKeyVersionBelowOrNull v] k g
                 && holds_escrow (g_status g) in
  snd (markGrantsStaleForOwner c owner v t)
  = Ok (size (filter (fun kg : jsstr * grant => hit kg.1 kg.2 = true) t)) /\
  (forall k, fst (markGrantsStaleForOwner c owner v t) !! k
     = (fun g => if hit k g
                 then set_status STALE (apply_set g (SetOwnerEphemeralPublicKey None))
                 else g) <$> t !! k) /\
  (forall k g, fst (markGrantsStaleForOwner c owner v t) !! k = Some g ->
     rls_visible c g = true -> ownerId g = owner -> holds_escrow (g_status g) = true ->
     exists n, keyVersion g = Some n /\ v <= n).
Proof.
  intros hit.
  assert (Hhit : forall k g, sm_hit (rls_visible c) [WOwnerId owner; WKeyVersionBelowOrNull v]
                   STALE SYSTEM k g = hit k g).
  { intros k g. unfold sm_hit. rewrite canTransition_sm. subst hit. cbv beta.
    by rewrite canTransition_stale. }
  assert (Hok : is_ok (snd (markGrantsStaleForOwner c owner v t)) = true).
  { unfold markGrantsStaleForOwner, bulkTransition, sm_bulkTransition. by destruct c. }
  assert (Hlk : forall k, fst (markGrantsStaleForOwner c owner v t) !! k
     = (fun g => if hit k g
                 then set_status STALE (apply_set g (SetOwnerEphemeralPublicKey None))
                 else g) <$> t !! k).
  { intros k. unfold markGrantsStaleForOwner, bulkTransition in *.
    rewrite sm_bulkTransition_lookup by done. destruct (t !! k) as [g|]; [|done].
    simpl. by rewrite Hhit. }
  split_and!; [|done|].
  - unfold markGrantsStaleForOwner, bulkTransition, sm_bulkTransition.
    replace (isBypassRlsActive c && negb (sm_scoped [WOwnerId owner; WKeyVersionBelowOrNull v]))
      with false by (by destruct c).
    cbn [length Nat.eqb sm_allowedFroms].
    rewrite (surjective_pairing (sm_update _ _ _ _ _ _)). simpl. by f_equal.
  - intros k g. rewrite Hlk. destruct (t !! k) as [g0|]; [|done]. simpl.
    destruct (hit k g0) eqn:E; intros [= <-] Hv Ho He; [done|].
    subst hit. cbv beta in E. rewrite Hv, He, andb_true_r in E. simpl in E.
    rewrite bool_decide_true in E by done. simpl in E. rewrite andb_true_r in E.
    destruct (keyVersion g0) as [n|]; [|done]. bools. eauto.
Qed.

(** [autoPromoteIfElapsed] activates a grant only when its own grantee asks
    for it, it is REQUESTED and its waiting period has elapsed; it hands out
    key material only for a grant it just activated that is not revoked and has
    escrow; it never throws, and it changes no other row. *)
Lemma autoPromoteIfElapsed_spec keypairs grantee k now t :
  let '(t', r) := autoPromoteIfElapsed keypairs grantee k now t in
  (forall k', k' <> k -> t' !! k' = t !! k') /\
  exists res, r = Ok res /\
  match t !! k with
  | Some g =>
      if promote_eligible grantee now (Some g) then
        t' !! k = Some (set_status ACTIVATED (apply_set g (SetActivatedAt (Some now)))) /\
        (exists e, waitExpiresAt g = Some e /\ e <= now) /\
        match res with
        | Promoted g' kp => t' !! k = Some g' /\ keypairs !! k = Some kp /\
            revokedAt g = None /\ truthy (encryptedSecretKey g) = true
        | NotPromoted Revoked => revokedAt g <> None
        | NotPromoted NoEscrow =>
            revokedAt g = None /\
            (keypairs !! k = None \/ truthy (encryptedSecretKey g) = false)
        | NotPromoted NotEligible => False
        end
      else t' = t /\ res = NotPromoted NotEligible
  | None => t' = t /\ res = NotPromoted NotEligible
  end.
Proof.
  unfold autoPromoteIfElapsed.
  destruct (t !! k) as [g|] eqn:Hk; simpl; [|by eauto 10].
  destruct (promote_eligible grantee now (Some g)) eqn:E; simpl in E; rewrite E; simpl;
    [|by eauto 10].
  destruct (waitExpiresAt g) as [e|] eqn:He; [|by rewrite andb_false_r in E].
  apply andb_true_iff in E as [E Hnow]. apply andb_true_iff in E as [Hgr Hst]. bools.
  assert (Hhit : rls_visible RlsBypass g && where_matches [WId k; WGranteeId grantee] k g
                 && canTransition (g_status g) ACTIVATED SYSTEM = true).
  { rewrite Hst. simpl. by rewrite Hgr, !bool_decide_true. }
  rewrite (transition_pinned _ _ _ _ _ _ k) by (done || set_solver).
  rewrite Hk, Hhit, lookup_insert_eq.
  unfold revokedAt, encryptedSecretKey. simpl.
  assert (Hkeep : forall x k', k' <> k -> <[k := x]> t !! k' = t !! k').
  { intros x k' Hne. by rewrite lookup_insert_ne. }
  repeat case_match; simplify_eq; (split; [by auto|]); eexists; (split; [done|]);
    rewrite lookup_insert_eq; (split; [done|]); (split; [eauto|]); simpl in *; eauto.
Qed.
