(* ===== verification/EmergencyAccessApi.v ===== *)
(** * Emergency access: the request handlers

    Models the route handlers under src/src/app/api/emergency-access on top of
    the status machine of EmergencyAccess.  A handler reads in one transaction
    and writes in a later one, so it takes two worlds: [w0], what its reads saw,
    and [w], the state its write runs in; another request may have committed in
    between.  The step relation [ea_step] lets [w0] be any earlier state, and the
    invariants are proved over it.  Notification e-mails are not modelled; the
    audit trail records action, target and acting user. *)

From S2P Require Import Prelude JsString Table StatusMachine EmergencyAccess.
Local Open Scope Z_scope.

(** ** State *)

Inductive ea_action :=
  GRANT_CREATE | GRANT_ACCEPT | GRANT_REJECT | GRANT_CONFIRM
| ACCESS_REQUEST | ACCESS_ACTIVATE | ACCESS_REVOKE.

Record audit_event := { ae_action : ea_action; ae_target : jsstr; ae_user : jsstr }.

Record user := { u_tenantId : option jsstr; u_keyVersion : Z }.

Record world := {
  w_grants : gmap jsstr grant;
  w_keypairs : gmap jsstr keypair;
  w_users : gmap jsstr user;
  w_audit : list audit_event }.

Definition set_grants (w : world) (t : gmap jsstr grant) : world :=
  {| w_grants := t; w_keypairs := w_keypairs w; w_users := w_users w; w_audit := w_audit w |}.
Definition set_keypairs (w : world) (m : gmap jsstr keypair) : world :=
  {| w_grants := w_grants w; w_keypairs := m; w_users := w_users w; w_audit := w_audit w |}.
Definition set_users (w : world) (m : gmap jsstr user) : world :=
  {| w_grants := w_grants w; w_keypairs := w_keypairs w; w_users := m; w_audit := w_audit w |}.
Definition log_audit (a : ea_action) (target uid : jsstr) (w : world) : world :=
  {| w_grants := w_grants w; w_keypairs := w_keypairs w; w_users := w_users w;
     w_audit := w_audit w ++ [{| ae_action := a; ae_target := target; ae_user := uid |}] |}.

(** The authenticated user: [session.user.id] and [session.user.email]. *)
Record session := { s_userId : jsstr; s_email : option jsstr }.

Inductive ea_throw := TransitionFailed (e : transition_error) | TenantNotResolved | UniqueViolation.

Inductive ea_response :=
| Unauthorized | RateLimited | ValidationError | NotFound | InvalidStatus
| InvitationExpired | InvitationWrongEmail | NotAuthorizedForGrant | CannotGrantSelf
| InvitationAlreadyUsed | GrantNotPending | UserNotFound | IncompatibleKeyAlgorithm
| DuplicateGrant | GrantRevoked | RecoveryKeyMissing | NotActivated
| Success (s : EmergencyAccessStatus)
| Created (id : jsstr)
| VaultData (g : grant) (kp : keypair).

Definition reply : Type := world * outcome ea_throw ea_response.

(** ** Transactions *)

(** [withUserTenantRls(userId, ...)]: the RLS context of the user's tenant. *)
Definition user_rls (w : world) (uid : jsstr) : outcome ea_throw rls :=
  match w_users w !! uid with
  | Some u => match u_tenantId u with
              | Some t => Ok (RlsTenant t)
              | None => Throw TenantNotResolved
              end
  | None => Throw TenantNotResolved
  end.

(** [emergencyAccessGrant.findUnique({ where: { id } })] *)
Definition find_grant (c : rls) (w : world) (id : jsstr) : option grant :=
  match w_grants w !! id with
  | Some g => if rls_visible c g then Some g else None
  | None => None
  end.

(** [transition] in a transaction of its own: a throw rolls back. *)
Definition run_transition (c : rls) (wh : list grant_pred) (to : EmergencyAccessStatus)
    (a : EaActor) (extra : list column_set) (w : world) : world * outcome ea_throw bool :=
  let '(t, r) := transition c wh to a extra (w_grants w) in
  match r with
  | Ok b => (set_grants w t, Ok b)
  | Throw e => (w, Throw (TransitionFailed e))
  end.

(** Run the transition, answer [failure] when the compare-and-swap lost, and
    otherwise log [action] and answer with the new status. *)
Definition finish_transition (c : rls) (wh : list grant_pred) (to : EmergencyAccessStatus)
    (a : EaActor) (extra : list column_set) (failure : ea_response)
    (action : ea_action) (id uid : jsstr) (w : world) : reply :=
  match run_transition c wh to a extra w with
  | (w', Throw e) => (w', Throw e)
  | (w', Ok false) => (w', Ok failure)
  | (w', Ok true) => (log_audit action id uid w', Ok (Success to))
  end.

(** ** Handlers *)

Definition with_session (sess : option session) (w : world) (f : session -> reply) : reply :=
  match sess with Some s => f s | None => (w, Ok Unauthorized) end.

(** [!session?.user?.id || !session.user.email] *)
Definition with_session_email (sess : option session) (w : world)
    (f : session -> jsstr -> reply) : reply :=
  match sess with
  | Some s => match s_email s with
              | Some (c :: e) => f s (c :: e)
              | _ => (w, Ok Unauthorized)
              end
  | None => (w, Ok Unauthorized)
  end.

(** The escrow columns of a row just inserted: their defaults. *)
Definition no_escrow : escrow :=
  {| es_ownerEphemeralPublicKey := None; es_encryptedSecretKey := None; es_secretKeyIv := None;
     es_secretKeyAuthTag := None; es_hkdfSalt := None; es_wrapVersion := 1; es_keyVersion := None |}.

Section Handlers.
Context (hashToken : jsstr -> jsstr).

(** POST /api/emergency-access; [newId] is the generated uuid and [token] the
    generated share token. *)
Definition post_create (w0 w : world) (now : Z) (sess : option session) (rlAllowed : bool)
    (body : option (jsstr * Z)) (newId token : jsstr) : reply :=
  with_session_email sess w (fun s email =>
    if negb rlAllowed then (w, Ok RateLimited) else
    match body with
    | None => (w, Ok ValidationError)
    | Some (granteeEmail_, waitDays_) =>
        if js_to_lower granteeEmail_ =s js_to_lower email then (w, Ok CannotGrantSelf) else
        match user_rls w0 (s_userId s) with
        | Throw e => (w, Throw e)
        | Ok c0 =>
            match find_by (fun g => rls_visible c0 g && (ownerId g =s s_userId s)
                     && (js_to_lower (granteeEmail g) =s js_to_lower granteeEmail_)
                     && negb (bool_decide (g_status g ∈ [REVOKED; REJECTED]))) (w_grants w0) with
            | Some _ => (w, Ok DuplicateGrant)
            | None =>
                match user_rls w (s_userId s) with
                | Ok (RlsTenant tenantId) =>
                    let row :=
                      {| g_invitation :=
                           {| inv_tenantId := tenantId; inv_ownerId := s_userId s;
                              inv_granteeEmail := granteeEmail_; inv_waitDays := waitDays_;
                              inv_tokenHash := hashToken token;
                              inv_tokenExpiresAt := now + 7 * MS_PER_DAY;
                              inv_keyAlgorithm := js "ECDH-P256" |};
                         g_status := PENDING; g_granteeId := None; g_granteePublicKey := None;
                         g_escrow := no_escrow;
                         g_timeline := {| tl_requestedAt := None; tl_activatedAt := None;
                                          tl_waitExpiresAt := None; tl_revokedAt := None |} |} in
                    match w_grants w !! newId,
                          find_by (fun g => inv_tokenHash (g_invitation g) =s hashToken token)
                            (w_grants w) with
                    | None, None =>
                        (log_audit GRANT_CREATE newId (s_userId s)
                           (set_grants w (<[newId := row]> (w_grants w))), Ok (Created newId))
                    | _, _ => (w, Throw UniqueViolation)
                    end
                | Ok RlsBypass => (w, Throw TenantNotResolved)
                | Throw e => (w, Throw e)
                end
            end
        end
    end).

(** The transaction shared by the two accept handlers: the compare-and-swap to
    ACCEPTED and, only if it fired, the escrow key pair. *)
Definition accept_tx (wh : list grant_pred) (gid uid : jsstr) (pk : jsstr) (kp : keypair)
    (failure : ea_response) (w : world) : reply :=
  match run_transition RlsBypass wh ACCEPTED GRANTEE
          [SetGranteeId (Some uid); SetGranteePublicKey (Some pk)] w with
  | (w', Throw e) => (w', Throw e)
  | (w', Ok false) => (w', Ok failure)
  | (w', Ok true) =>
      match w_keypairs w' !! gid with
      | Some _ => (w, Throw UniqueViolation)
      | None => (log_audit GRANT_ACCEPT gid uid
                   (set_keypairs w' (<[gid := kp]> (w_keypairs w'))), Ok (Success ACCEPTED))
      end
  end.

(** POST /api/emergency-access/accept *)
Definition post_accept (w0 w : world) (now : Z) (sess : option session) (blocked : bool)
    (body : option (jsstr * jsstr * keypair)) : reply :=
  with_session_email sess w (fun s email =>
    if blocked then (w, Ok RateLimited) else
    match body with
    | None => (w, Ok ValidationError)
    | Some (token, granteePublicKey, kp) =>
        match find_by (fun g => inv_tokenHash (g_invitation g) =s hashToken token)
                (w_grants w0) with
        | None => (w, Ok NotFound)
        | Some (gid, g) =>
            if inv_tokenExpiresAt (g_invitation g) <? now then (w, Ok InvitationExpired)
            else if negb (js_to_lower (granteeEmail g) =s js_to_lower email)
            then (w, Ok InvitationWrongEmail)
            else if ownerId g =s s_userId s then (w, Ok CannotGrantSelf)
            else accept_tx [WId gid; WTokenHash (inv_tokenHash (g_invitation g))] gid
                   (s_userId s) granteePublicKey kp InvitationAlreadyUsed w
        end
    end).

(** POST /api/emergency-access/[id]/accept *)
Definition post_accept_by_id (w0 w : world) (now : Z) (sess : option session)
    (rlAllowed : bool) (id : jsstr) (body : option (jsstr * keypair)) : reply :=
  with_session_email sess w (fun s email =>
    if negb rlAllowed then (w, Ok RateLimited) else
    match find_grant RlsBypass w0 id with
    | None => (w, Ok NotFound)
    | Some g =>
        if inv_tokenExpiresAt (g_invitation g) <? now then (w, Ok InvitationExpired)
        else if negb (js_to_lower (granteeEmail g) =s js_to_lower email)
        then (w, Ok NotAuthorizedForGrant)
        else if ownerId g =s s_userId s then (w, Ok CannotGrantSelf)
        else match body with
             | None => (w, Ok ValidationError)
             | Some (granteePublicKey, kp) =>
                 accept_tx [WId id; WGranteeEmail (granteeEmail g)] id (s_userId s)
                   granteePublicKey kp GrantNotPending w
             end
    end).

(** POST /api/emergency-access/[id]/decline *)
Definition post_decline (w0 w : world) (sess : option session) (id : jsstr) : reply :=
  with_session_email sess w (fun s email =>
    match find_grant RlsBypass w0 id with
    | None => (w, Ok NotFound)
    | Some g =>
        if negb (js_to_lower (granteeEmail g) =s js_to_lower email)
        then (w, Ok NotAuthorizedForGrant)
        else finish_transition RlsBypass [WId id; WGranteeEmail (granteeEmail g)] REJECTED
               GRANTEE [] GrantNotPending GRANT_REJECT id (s_userId s) w
    end).

(** POST /api/emergency-access/reject *)
Definition post_reject (w0 w : world) (sess : option session) (body : option jsstr) : reply :=
  with_session_email sess w (fun s email =>
    match body with
    | None => (w, Ok ValidationError)
    | Some token =>
        match find_by (fun g => inv_tokenHash (g_invitation g) =s hashToken token)
                (w_grants w0) with
        | None => (w, Ok NotFound)
        | Some (gid, g) =>
            if negb (js_to_lower (granteeEmail g) =s js_to_lower email)
            then (w, Ok InvitationWrongEmail)
            else finish_transition RlsBypass
                   [WId gid; WTokenHash (inv_tokenHash (g_invitation g))] REJECTED GRANTEE []
                   InvitationAlreadyUsed GRANT_REJECT gid (s_userId s) w
        end
    end).

(** POST /api/emergency-access/[id]/request *)
Definition post_request (w0 w : world) (now : Z) (sess : option session)
    (rlAllowed : bool) (id : jsstr) : reply :=
  with_session sess w (fun s =>
    if negb rlAllowed then (w, Ok RateLimited) else
    match find_grant RlsBypass w0 id with
    | None => (w, Ok NotFound)
    | Some g =>
        if negb (g_granteeId g =s Some (s_userId s)) then (w, Ok NotFound)
        else
          finish_transition RlsBypass [WId id; WGranteeId (s_userId s)] REQUESTED GRANTEE
            [SetRequestedAt (Some now); SetWaitExpiresAt (Some (now + waitDays g * MS_PER_DAY))]
            InvalidStatus ACCESS_REQUEST id (s_userId s) w
    end).

(** The owner-side handlers first read the grant in the user's tenant. *)
Definition with_owned_grant (w0 w : world) (s : session) (id : jsstr)
    (f : grant -> reply) : reply :=
  match user_rls w0 (s_userId s) with
  | Throw e => (w, Throw e)
  | Ok c0 =>
      match find_grant c0 w0 id with
      | None => (w, Ok NotFound)
      | Some g => if negb (ownerId g =s s_userId s) then (w, Ok NotFound) else f g
      end
  end.

(** [withUserTenantRls(session.user.id, () => transition({ where: { id, ownerId } }))] *)
Definition owner_transition (s : session) (id : jsstr) (to : EmergencyAccessStatus)
    (extra : list column_set) (action : ea_action) (w : world) : reply :=
  match user_rls w (s_userId s) with
  | Throw e => (w, Throw e)
  | Ok c => finish_transition c [WId id; WOwnerId (s_userId s)] to OWNER extra InvalidStatus
              action id (s_userId s) w
  end.

(** POST /api/emergency-access/[id]/approve *)
Definition post_approve (w0 w : world) (now : Z) (sess : option session) (id : jsstr) : reply :=
  with_session sess w (fun s =>
    with_owned_grant w0 w s id (fun _ =>
      owner_transition s id ACTIVATED [SetActivatedAt (Some now)] ACCESS_ACTIVATE w)).

(** The [extraData] of the two branches of the revoke handler. *)
Definition revoke_columns (now : Z) : list column_set :=
  [SetRevokedAt (Some now); SetCipher None None None None None].
Definition resume_columns : list column_set := [SetRequestedAt None; SetWaitExpiresAt None].

(** POST /api/emergency-access/[id]/revoke; [body] is the parsed [permanent]. *)
Definition post_revoke (w0 w : world) (now : Z) (sess : option session) (id : jsstr)
    (body : option bool) : reply :=
  with_session sess w (fun s =>
    with_owned_grant w0 w s id (fun _ =>
      match body with
      | None => (w, Ok ValidationError)
      | Some true =>
          owner_transition s id REVOKED (revoke_columns now) ACCESS_REVOKE w
      | Some false =>
          owner_transition s id IDLE resume_columns ACCESS_REVOKE w
      end)).

(** [SUPPORTED_KEY_ALGORITHMS[wrapVersion]?.includes(keyAlgorithm)] *)
Definition supported_algorithm (wrapVersion : Z) (alg : jsstr) : bool :=
  (wrapVersion =? 1) && (alg =s js "ECDH-P256").

Record confirm_body := {
  cb_ownerEphemeralPublicKey : jsstr; cb_encryptedSecretKey : jsstr; cb_secretKeyIv : jsstr;
  cb_secretKeyAuthTag : jsstr; cb_hkdfSalt : jsstr; cb_wrapVersion : Z }.

(** The [extraData] of the confirm handler: the client's escrow under the
    server-side key version. *)
Definition confirm_columns (b : confirm_body) (serverKeyVersion : Z) : list column_set :=
  [SetCipher (Some (cb_ownerEphemeralPublicKey b)) (Some (cb_encryptedSecretKey b))
     (Some (cb_secretKeyIv b)) (Some (cb_secretKeyAuthTag b)) (Some (cb_hkdfSalt b));
   SetWrapVersion (cb_wrapVersion b); SetKeyVersion (Some serverKeyVersion)].

(** POST /api/emergency-access/[id]/confirm *)
Definition post_confirm (w0 w : world) (sess : option session) (id : jsstr)
    (body : option confirm_body) : reply :=
  with_session sess w (fun s =>
    with_owned_grant w0 w s id (fun g =>
      match w_users w0 !! s_userId s with
      | None => (w, Ok UserNotFound)
      | Some owner =>
          match body with
          | None => (w, Ok ValidationError)
          | Some b =>
              if negb (supported_algorithm (cb_wrapVersion b)
                         (inv_keyAlgorithm (g_invitation g)))
              then (w, Ok IncompatibleKeyAlgorithm)
              else
                owner_transition s id IDLE (confirm_columns b (u_keyVersion owner))
                  GRANT_CONFIRM w
          end
      end)).

(** The tail of the vault handler: serve the snapshot that was read, if it was
    ACTIVATED and has escrow. *)
Definition serve_snapshot (w0 : world) (id : jsstr) (g : grant) (w : world) : reply :=
  if negb (bool_decide (g_status g = ACTIVATED)) then (w, Ok NotActivated)
  else match w_keypairs w0 !! id with
       | Some kp => if truthy (encryptedSecretKey g) then (w, Ok (VaultData g kp))
                    else (w, Ok RecoveryKeyMissing)
       | None => (w, Ok RecoveryKeyMissing)
       end.

(** GET /api/emergency-access/[id]/vault; [now] is the time of the route's own
    check and [now'] the time passed to the promotion. *)
Definition get_vault (w0 w : world) (now now' : Z) (sess : option session)
    (rlAllowed : bool) (id : jsstr) : reply :=
  with_session sess w (fun s =>
    if negb rlAllowed then (w, Ok RateLimited) else
    match find_grant RlsBypass w0 id with
    | None => (w, Ok NotFound)
    | Some g =>
        if negb (g_granteeId g =s Some (s_userId s)) then (w, Ok NotFound) else
        let elapsed := match waitExpiresAt g with Some e => e <=? now | None => false end in
        if bool_decide (g_status g = REQUESTED) && elapsed then
          match autoPromoteIfElapsed (w_keypairs w) (s_userId s) id now' (w_grants w) with
          | (_, Throw e) => (w, Throw (TransitionFailed e))
          | (t, Ok (Promoted g' kp)) =>
              (log_audit ACCESS_ACTIVATE id (s_userId s) (set_grants w t), Ok (VaultData g' kp))
          | (t, Ok (NotPromoted Revoked)) => (set_grants w t, Ok GrantRevoked)
          | (t, Ok (NotPromoted NoEscrow)) => (set_grants w t, Ok RecoveryKeyMissing)
          | (t, Ok (NotPromoted NotEligible)) => serve_snapshot w0 id g (set_grants w t)
          end
        else serve_snapshot w0 id g w
    end).

End Handlers.

(** The part of the key rotation that concerns grants
    (src/src/lib/vault/rotate-key-server.ts): bump the owner's key version and
    mark the grants stale, in one transaction. *)
Definition rotate_key (c : rls) (owner : jsstr) (w : world) : world :=
  match w_users w !! owner with
  | None => w
  | Some u =>
      let v := u_keyVersion u + 1 in
      let '(t, r) := markGrantsStaleForOwner c owner v (w_grants w) in
      match r with
      | Throw _ => w
      | Ok _ => set_users (set_grants w t)
                  (<[owner := {| u_tenantId := u_tenantId u; u_keyVersion := v |}]> (w_users w))
      end
  end.

(** The part of the vault reset that concerns grants. *)
Definition vault_reset (c : rls) (target : jsstr) (now : Z) (w : world) : world :=
  match revokeGrantsOnVaultReset c target now (w_grants w) with
  | (t, Ok _) => set_grants w t
  | (_, Throw _) => w
  end.

(** ** The system as a transition system *)

Inductive ea_request :=
| QCreate (now : Z) (sess : option session) (rl : bool) (body : option (jsstr * Z))
    (newId token : jsstr)
| QAccept (now : Z) (sess : option session) (blocked : bool)
    (body : option (jsstr * jsstr * keypair))
| QAcceptById (now : Z) (sess : option session) (rl : bool) (id : jsstr)
    (body : option (jsstr * keypair))
| QDecline (sess : option session) (id : jsstr)
| QReject (sess : option session) (body : option jsstr)
| QRequest (now : Z) (sess : option session) (rl : bool) (id : jsstr)
| QApprove (now : Z) (sess : option session) (id : jsstr)
| QRevoke (now : Z) (sess : option session) (id : jsstr) (body : option bool)
| QConfirm (sess : option session) (id : jsstr) (body : option confirm_body)
| QVault (now now' : Z) (sess : option session) (rl : bool) (id : jsstr)
| QRotate (c : rls) (owner : jsstr)
| QReset (c : rls) (target : jsstr) (now : Z).

Definition handle (hashToken : jsstr -> jsstr) (q : ea_request) (w0 w : world) : world :=
  match q with
  | QCreate now s rl b i t => fst (post_create hashToken w0 w now s rl b i t)
  | QAccept now s bl b => fst (post_accept hashToken w0 w now s bl b)
  | QAcceptById now s rl i b => fst (post_accept_by_id w0 w now s rl i b)
  | QDecline s i => fst (post_decline w0 w s i)
  | QReject s b => fst (post_reject hashToken w0 w s b)
  | QRequest now s rl i => fst (post_request w0 w now s rl i)
  | QApprove now s i => fst (post_approve w0 w now s i)
  | QRevoke now s i b => fst (post_revoke w0 w now s i b)
  | QConfirm s i b => fst (post_confirm w0 w s i b)
  | QVault now now' s rl i => fst (get_vault w0 w now now' s rl i)
  | QRotate c o => rotate_key c o w
  | QReset c t now => vault_reset c t now w
  end.

(** [w0] may be an earlier state of [w]: its grants are still there, with the
    columns that are written only at creation. *)
Definition earlier (w0 w : world) : Prop :=
  forall k g0, w_grants w0 !! k = Some g0 ->
    exists g, w_grants w !! k = Some g /\ g_invitation g = g_invitation g0.

Inductive ea_step (hashToken : jsstr -> jsstr) (w : world) (q : ea_request) : world -> Prop :=
| ea_step_intro w0 : earlier w0 w -> ea_step hashToken w q (handle hashToken q w0 w).

Inductive ea_reachable (hashToken : jsstr -> jsstr) : world -> Prop :=
| reach_init w : w_grants w = ∅ -> ea_reachable hashToken w
| reach_step w q w' :
    ea_reachable hashToken w -> ea_step hashToken w q w' -> ea_reachable hashToken w'.

(** What one request can do to one row. *)
Inductive row_step (kps : gmap jsstr keypair) (k : jsstr) (g : grant) : ea_request -> grant -> Prop :=
| rs_accept q uid pk :
    g_status g = PENDING -> is_Some (kps !! k) ->
    row_step kps k g q (set_status ACCEPTED
      (apply_extra [SetGranteeId (Some uid); SetGranteePublicKey (Some pk)] g))
| rs_reject q : g_status g = PENDING -> row_step kps k g q (set_status REJECTED g)
| rs_request now s rl :
    g_status g = IDLE -> g_granteeId g = Some (s_userId s) ->
    row_step kps k g (QRequest now (Some s) rl k)
      (set_status REQUESTED (apply_extra
         [SetRequestedAt (Some now); SetWaitExpiresAt (Some (now + waitDays g * MS_PER_DAY))] g))
| rs_approve now s :
    g_status g = REQUESTED -> ownerId g = s_userId s ->
    row_step kps k g (QApprove now (Some s) k)
      (set_status ACTIVATED (apply_extra [SetActivatedAt (Some now)] g))
| rs_promote now now' s rl e :
    g_status g = REQUESTED -> g_granteeId g = Some (s_userId s) ->
    waitExpiresAt g = Some e -> e <= now' ->
    row_step kps k g (QVault now now' (Some s) rl k)
      (set_status ACTIVATED (apply_extra [SetActivatedAt (Some now')] g))
| rs_revoke now s :
    canTransition (g_status g) REVOKED OWNER = true -> ownerId g = s_userId s ->
    row_step kps k g (QRevoke now (Some s) k (Some true))
      (set_status REVOKED (apply_extra (revoke_columns now) g))
| rs_resume now s :
    canTransition (g_status g) IDLE OWNER = true -> ownerId g = s_userId s ->
    row_step kps k g (QRevoke now (Some s) k (Some false))
      (set_status IDLE (apply_extra resume_columns g))
| rs_confirm s b v :
    canTransition (g_status g) IDLE OWNER = true -> ownerId g = s_userId s ->
    row_step kps k g (QConfirm (Some s) k (Some b))
      (set_status IDLE (apply_extra (confirm_columns b v) g))
| rs_stale c o :
    holds_escrow (g_status g) = true -> ownerId g = o ->
    row_step kps k g (QRotate c o)
      (set_status STALE (apply_extra [SetOwnerEphemeralPublicKey None] g))
| rs_reset c o now :
    canTransition (g_status g) REVOKED OWNER = true -> ownerId g = o ->
    row_step kps k g (QReset c o now)
      (set_status REVOKED (apply_extra [SetRevokedAt (Some now)] g)).

(** A freshly created grant. *)
Definition fresh_grant (g : grant) : Prop :=
  g_status g = PENDING /\ g_granteeId g = None /\ g_escrow g = no_escrow /\
  g_timeline g = {| tl_requestedAt := None; tl_activatedAt := None;
                    tl_waitExpiresAt := None; tl_revokedAt := None |}.

(** The effect of a request on the whole state. *)
Definition rows_ok (w : world) (q : ea_request) (w' : world) : Prop :=
  w_keypairs w ⊆ w_keypairs w' /\
  (forall k g, w_grants w !! k = Some g -> is_Some (w_grants w' !! k)) /\
  (forall k g', w_grants w' !! k = Some g' ->
     w_grants w !! k = None /\ fresh_grant g' \/
     exists g, w_grants w !! k = Some g /\ (g' = g \/ row_step (w_keypairs w') k g q g')).

(** ** Closed forms *)

Lemma set_grants_id w : set_grants w (w_grants w) = w.
Proof. by destruct w. Qed.

Lemma rows_ok_refl w q : rows_ok w q w.
Proof. split_and!; eauto 10. Qed.

(** One row changed, nothing else. *)
Lemma rows_ok_insert w q w' k g g' :
  w_grants w !! k = Some g -> w_grants w' = <[k := g']> (w_grants w) ->
  w_keypairs w ⊆ w_keypairs w' -> row_step (w_keypairs w') k g q g' -> rows_ok w q w'.
Proof.
  intros Hk Hw Hkp Hrs. split_and!; [done| |].
  - intros k2 g2 H2. rewrite Hw. destruct (decide (k = k2)) as [<-|].
    + rewrite lookup_insert_eq. eauto.
    + rewrite lookup_insert_ne by done. eauto.
  - intros k2 g2. rewrite Hw. destruct (decide (k = k2)) as [<-|].
    + rewrite lookup_insert_eq. intros [= <-]. eauto.
    + rewrite lookup_insert_ne by done. eauto 10.
Qed.

Lemma run_transition_pinned c wh to a extra w k :
  WId k ∈ wh -> (isBypassRlsActive c = true -> hasResourceScope wh = true) ->
  run_transition c wh to a extra w
  = match w_grants w !! k with
    | Some g => if rls_visible c g && where_matches wh k g && canTransition (g_status g) to a
                then (set_grants w (<[k := set_status to (apply_extra extra g)]> (w_grants w)),
                      Ok true)
                else (w, Ok false)
    | None => (w, Ok false)
    end.
Proof.
  intros Hin Hsc. unfold run_transition. rewrite (transition_pinned _ _ _ _ _ _ k) by done.
  repeat case_match; simplify_eq; by rewrite ?set_grants_id.
Qed.

(** Every handler that ends in [finish_transition] on a pinned row. *)
Lemma finish_transition_rows c wh to a extra failure action id uid w q :
  WId id ∈ wh -> (isBypassRlsActive c = true -> hasResourceScope wh = true) ->
  (forall g w', w_grants w !! id = Some g -> where_matches wh id g = true ->
     canTransition (g_status g) to a = true ->
     row_step w' id g q (set_status to (apply_extra extra g))) ->
  rows_ok w q (fst (finish_transition c wh to a extra failure action id uid w)).
Proof.
  intros Hin Hsc Hrs. unfold finish_transition.
  rewrite (run_transition_pinned _ _ _ _ _ _ id) by done.
  destruct (w_grants w !! id) as [g|] eqn:Hk; [|apply rows_ok_refl].
  destruct (rls_visible c g && where_matches wh id g && canTransition (g_status g) to a) eqn:E;
    [|apply rows_ok_refl].
  bools. eapply rows_ok_insert; [done | done | done | by apply Hrs].
Qed.

(** ** Every handler has the effect of one row step *)

Lemma accept_tx_rows wh gid uid pk kp failure w q :
  WId gid ∈ wh -> hasResourceScope wh = true ->
  rows_ok w q (fst (accept_tx wh gid uid pk kp failure w)).
Proof.
  intros Hin Hsc. unfold accept_tx. rewrite (run_transition_pinned _ _ _ _ _ _ gid) by done.
  destruct (w_grants w !! gid) as [g|] eqn:Hk; [|apply rows_ok_refl].
  destruct (rls_visible RlsBypass g && where_matches wh gid g
            && canTransition (g_status g) ACCEPTED GRANTEE) eqn:E; [|apply rows_ok_refl].
  simpl. destruct (w_keypairs w !! gid) eqn:Hkp; simpl; [apply rows_ok_refl|].
  eapply rows_ok_insert; [done | done | by apply insert_subseteq |].
  apply rs_accept; [|simpl; rewrite lookup_insert_eq; eauto].
  bools. destruct (canTransition_grantee _ _ H0) as [[? _]|[_ ?]]; done.
Qed.

Lemma canTransition_reject from : canTransition from REJECTED GRANTEE = true -> from = PENDING.
Proof. by destruct from. Qed.
Lemma canTransition_request from : canTransition from REQUESTED GRANTEE = true -> from = IDLE.
Proof. by destruct from. Qed.

Lemma where_owner k s g :
  where_matches [WId k; WOwnerId (s_userId s)] k g = true -> ownerId g = s_userId s.
Proof. simpl. intros H. by bools. Qed.

Lemma where_grantee k s g :
  where_matches [WId k; WGranteeId (s_userId s)] k g = true -> g_granteeId g = Some (s_userId s).
Proof. simpl. intros H. by bools. Qed.

(** The owner-side handlers, whatever they read first. *)
Lemma owner_transition_rows s id to extra action w q :
  (forall g w', w_grants w !! id = Some g -> ownerId g = s_userId s ->
     canTransition (g_status g) to OWNER = true ->
     row_step w' id g q (set_status to (apply_extra extra g))) ->
  rows_ok w q (fst (owner_transition s id to extra action w)).
Proof.
  intros Hrs. unfold owner_transition.
  destruct (user_rls w (s_userId s)) as [c|e] eqn:E; [|apply rows_ok_refl].
  apply finish_transition_rows.
  - set_solver.
  - done.
  - intros g w' Hg Hw Hc. apply Hrs; [done | by eapply where_owner | done].
Qed.

Lemma with_owned_grant_rows w0 w s id f q :
  (forall g, rows_ok w q (fst (f g))) -> rows_ok w q (fst (with_owned_grant w0 w s id f)).
Proof. intros Hf. unfold with_owned_grant. repeat case_match; auto using rows_ok_refl. Qed.

Lemma rows_ok_eq w q w' : w_grants w' = w_grants w -> w_keypairs w' = w_keypairs w -> rows_ok w q w'.
Proof. intros H1 H2. unfold rows_ok. rewrite H1, H2. split_and!; eauto 10. Qed.

Lemma post_create_rows ht w0 w now sess rl body newId token q :
  rows_ok w q (fst (post_create ht w0 w now sess rl body newId token)).
Proof.
  unfold post_create, with_session_email.
  repeat (case_match; try apply rows_ok_refl; []).
  repeat case_match; try apply rows_ok_refl.
  split_and!; [done| |]; simpl; intros k g Hg; destruct (decide (newId = k)) as [<-|].
  - congruence.
  - rewrite lookup_insert_ne by done. eauto.
  - rewrite lookup_insert_eq in Hg. simplify_eq. left. done.
  - rewrite lookup_insert_ne in Hg by done. eauto 10.
Qed.

Lemma get_vault_rows w0 w now now' s rl id :
  rows_ok w (QVault now now' (Some s) rl id) (fst (get_vault w0 w now now' (Some s) rl id)).
Proof.
  unfold get_vault, with_session.
  destruct rl; simpl; [|apply rows_ok_refl].
  destruct (find_grant RlsBypass w0 id) as [g|]; [|apply rows_ok_refl].
  destruct (negb _); [apply rows_ok_refl|].
  assert (Hserve : forall w1, fst (serve_snapshot w0 id g w1) = w1).
  { intros w1. unfold serve_snapshot. by repeat case_match. }
  destruct (bool_decide _ && _); [|rewrite Hserve; apply rows_ok_refl].
  pose proof (autoPromoteIfElapsed_spec (w_keypairs w) (s_userId s) id now' (w_grants w)) as Hs.
  destruct (autoPromoteIfElapsed _ _ _ _ _) as [t r]. destruct Hs as (Hother & res & -> & Hs).
  assert (Hrows : rows_ok w (QVault now now' (Some s) true id) (set_grants w t)).
  { destruct (w_grants w !! id) as [g0|] eqn:Hk; [|destruct Hs as [-> _]; by apply rows_ok_eq].
    destruct (promote_eligible (s_userId s) now' (Some g0)) eqn:E;
      [|destruct Hs as [-> _]; by apply rows_ok_eq].
    destruct Hs as (Ht & (e & He & Hle) & _). simpl in E. bools.
    apply (rows_ok_insert _ _ _ id g0 (set_status ACTIVATED (apply_set g0 (SetActivatedAt (Some now')))));
      [done | | done | by eapply rs_promote].
    simpl. apply map_eq. intros k'. destruct (decide (id = k')) as [<-|].
    - by rewrite lookup_insert_eq.
    - rewrite lookup_insert_ne by done. auto. }
  destruct res as [g' kp|[]]; simpl; rewrite ?Hserve; done.
Qed.

Lemma bulk_rows c wh to a extra w q t n w' :
  bulkTransition c wh to a extra (w_grants w) = (t, Ok n) ->
  w_grants w' = t -> w_keypairs w' = w_keypairs w ->
  (forall k g, where_matches wh k g = true -> canTransition (g_status g) to a = true ->
     row_step (w_keypairs w') k g q (set_status to (apply_extra extra g))) ->
  rows_ok w q w'.
Proof.
  intros Hb Hw Hkp Hrs.
  assert (Hl : forall k, w_grants w' !! k
    = (fun g => if sm_hit (rls_visible c) wh to a k g
                then set_status to (apply_extra extra g) else g) <$> w_grants w !! k).
  { intros k. rewrite Hw. unfold bulkTransition in Hb.
    change t with (fst (t, Ok n : outcome transition_error nat)). rewrite <- Hb.
    rewrite sm_bulkTransition_lookup; [done|]. by rewrite Hb. }
  split_and!; [by rewrite Hkp| |]; intros k g Hg; rewrite Hl in *.
  - rewrite Hg. simpl. eauto.
  - destruct (w_grants w !! k) as [g0|]; [|done]. simpl in Hg. right. exists g0. split; [done|].
    destruct (sm_hit (rls_visible c) wh to a k g0) eqn:E; simplify_eq; [|by left].
    right. unfold sm_hit in E. bools. by apply Hrs.
Qed.

Lemma rotate_key_rows c o w : rows_ok w (QRotate c o) (rotate_key c o w).
Proof.
  unfold rotate_key, markGrantsStaleForOwner.
  destruct (w_users w !! o) as [u|]; [|apply rows_ok_refl].
  destruct (bulkTransition _ _ _ _ _ _) as [t [n|e]] eqn:E; [|apply rows_ok_refl].
  eapply bulk_rows; [done | done | done |]. intros k g Hw Hc.
  apply rs_stale.
  - by rewrite canTransition_stale in Hc.
  - simpl in Hw. by bools.
Qed.

Lemma vault_reset_rows c o now w : rows_ok w (QReset c o now) (vault_reset c o now w).
Proof.
  unfold vault_reset, revokeGrantsOnVaultReset.
  destruct (bulkTransition _ _ _ _ _ _) as [t [n|e]] eqn:E; [|apply rows_ok_refl].
  eapply bulk_rows; [done | done | done |]. intros k g Hw Hc.
  apply rs_reset; [done|]. simpl in Hw. by bools.
Qed.

Lemma earlier_waitDays w0 w id g0 g :
  earlier w0 w -> find_grant RlsBypass w0 id = Some g0 -> w_grants w !! id = Some g ->
  waitDays g0 = waitDays g.
Proof.
  unfold find_grant. intros He Hf Hg. destruct (w_grants w0 !! id) as [g1|] eqn:H1; [|done].
  simpl in Hf. simplify_eq. destruct (He _ _ H1) as (g' & Hg' & Hi). simplify_eq.
  unfold waitDays. by rewrite Hi.
Qed.

Lemma handle_rows ht q w0 w : earlier w0 w -> rows_ok w q (handle ht q w0 w).
Proof.
  intros He. destruct q; simpl.
  - apply post_create_rows.
  - unfold post_accept, with_session_email.
    repeat case_match; try apply rows_ok_refl. apply accept_tx_rows; [set_solver | done].
  - unfold post_accept_by_id, with_session_email.
    repeat case_match; try apply rows_ok_refl. apply accept_tx_rows; [set_solver | done].
  - unfold post_decline, with_session_email. repeat case_match; try apply rows_ok_refl.
    apply finish_transition_rows; [set_solver | done |]. intros g' w' _ _ Hc%canTransition_reject.
    by apply rs_reject.
  - unfold post_reject, with_session_email. repeat case_match; try apply rows_ok_refl.
    apply finish_transition_rows; [set_solver | done |]. intros g' w' _ _ Hc%canTransition_reject.
    by apply rs_reject.
  - unfold post_request, with_session. destruct sess as [s|]; [|apply rows_ok_refl].
    repeat case_match; try apply rows_ok_refl.
    apply finish_transition_rows; [set_solver | done |].
    intros g' w' Hg Hw Hc%canTransition_request.
    erewrite (earlier_waitDays w0 w) by done. apply rs_request; [done | by eapply where_grantee].
  - unfold post_approve, with_session. destruct sess as [s|]; [|apply rows_ok_refl].
    apply with_owned_grant_rows. intros _. apply owner_transition_rows.
    intros g w' _ Ho Hc%canTransition_to_activated. apply rs_approve; tauto.
  - unfold post_revoke, with_session. destruct sess as [s|]; [|apply rows_ok_refl].
    apply with_owned_grant_rows. intros _. destruct body as [[]|]; [| |apply rows_ok_refl];
      apply owner_transition_rows; intros g w' _ Ho Hc; by constructor.
  - unfold post_confirm, with_session. destruct sess as [s|]; [|apply rows_ok_refl].
    apply with_owned_grant_rows. intros g. repeat case_match; try apply rows_ok_refl.
    apply owner_transition_rows. intros g' w' _ Ho Hc. by constructor.
  - destruct sess as [s|]; [apply get_vault_rows | apply rows_ok_refl].
  - apply rotate_key_rows.
  - apply vault_reset_rows.
Qed.

(** ** The invariant *)

(** Statuses in which a grantee has accepted and nobody has ended the grant. *)
Definition engaged (s : EmergencyAccessStatus) : bool :=
  match s with PENDING | REVOKED | REJECTED => false | _ => true end.

(** Statuses in which nobody has confirmed an escrow yet, nor can have. *)
Definition unarmed (s : EmergencyAccessStatus) : bool :=
  match s with PENDING | ACCEPTED | REJECTED => true | _ => false end.

(** The escrow columns by status: the ciphertext and its iv, tag and salt stand or
    fall together, with the key version they were made under; the owner's ephemeral
    key, which the grantee needs to open them, is there only with them and not on a
    STALE grant; before a confirmation there is nothing. *)
Definition escrow_ok (s : EmergencyAccessStatus) (e : escrow) : Prop :=
  (is_Some (es_encryptedSecretKey e) <-> is_Some (es_secretKeyIv e)) /\
  (is_Some (es_encryptedSecretKey e) <-> is_Some (es_secretKeyAuthTag e)) /\
  (is_Some (es_encryptedSecretKey e) <-> is_Some (es_hkdfSalt e)) /\
  (is_Some (es_encryptedSecretKey e) -> is_Some (es_keyVersion e)) /\
  (is_Some (es_ownerEphemeralPublicKey e) -> is_Some (es_encryptedSecretKey e)) /\
  (s = STALE -> es_ownerEphemeralPublicKey e = None) /\
  (unarmed s = true -> e = no_escrow).

Definition grant_ok (kps : gmap jsstr keypair) (k : jsstr) (g : grant) : Prop :=
  (g_status g = REQUESTED -> exists r, requestedAt g = Some r /\
     waitExpiresAt g = Some (r + waitDays g * MS_PER_DAY)) /\
  (engaged (g_status g) = true ->
     is_Some (g_granteeId g) /\ is_Some (g_granteePublicKey g) /\ is_Some (kps !! k)) /\
  (is_Some (revokedAt g) <-> g_status g = REVOKED) /\
  (g_status g = ACTIVATED -> is_Some (tl_activatedAt (g_timeline g))) /\
  escrow_ok (g_status g) (g_escrow g).

Definition ea_inv (w : world) : Prop :=
  forall k g, w_grants w !! k = Some g -> grant_ok (w_keypairs w) k g.

Lemma escrow_ok_none s : escrow_ok s no_escrow.
Proof. repeat split; simpl; intros H; try done; by destruct H. Qed.

Lemma fresh_grant_ok kps k g : fresh_grant g -> grant_ok kps k g.
Proof.
  intros (Hs & _ & He & Ht). unfold grant_ok, revokedAt. rewrite Hs, Ht, He. simpl.
  split_and!; [done..| |done|apply escrow_ok_none]. split; [by intros [] | done].
Qed.

(** Which status a row step leaves, and where it may come from. *)
Lemma row_step_requested kps k g q g' :
  row_step kps k g q g' -> g_status g' = REQUESTED ->
  exists r, requestedAt g' = Some r /\ waitExpiresAt g' = Some (r + waitDays g' * MS_PER_DAY).
Proof. intros [] Hs; simpl in Hs; try done. by exists now. Qed.

Lemma row_step_engaged kps k g q g' :
  row_step kps k g q g' -> engaged (g_status g') = true ->
  engaged (g_status g) = true /\ g_granteeId g' = g_granteeId g /\
    g_granteePublicKey g' = g_granteePublicKey g \/
  is_Some (g_granteeId g') /\ is_Some (g_granteePublicKey g') /\ is_Some (kps !! k).
Proof.
  intros Hrs He. destruct Hrs; simpl in He; try done; [right; simpl; eauto|left..].
  1-3: by rewrite H.
  all: by destruct (g_status g).
Qed.

Lemma row_step_revoked kps k g q g' :
  row_step kps k g q g' -> g_status g <> REVOKED /\
  (g_status g' = REVOKED /\ is_Some (revokedAt g') \/
   g_status g' <> REVOKED /\ revokedAt g' = revokedAt g).
Proof.
  intros []; simpl; (split; [by destruct (g_status g)|]); unfold revokedAt; simpl;
    by eauto.
Qed.

Lemma row_step_activated kps k g q g' :
  row_step kps k g q g' -> g_status g' = ACTIVATED -> is_Some (tl_activatedAt (g_timeline g')).
Proof. intros [] Hs; simpl in *; by eauto. Qed.

(** A status change that leaves the columns alone, into an armed status. *)
Lemma escrow_ok_status s s' e :
  s' <> STALE -> unarmed s' = false -> escrow_ok s e -> escrow_ok s' e.
Proof. unfold escrow_ok. intros ? ->. naive_solver. Qed.

Lemma row_step_escrow kps k g q g' :
  row_step kps k g q g' -> escrow_ok (g_status g) (g_escrow g) -> escrow_ok (g_status g') (g_escrow g').
Proof.
  intros Hrs H. destruct Hrs; simpl; try (by eapply escrow_ok_status).
  1-2: (destruct H as (_ & _ & _ & _ & _ & _ & ->); [apply escrow_ok_none|by rewrite H0]).
  all: unfold escrow_ok in *; simpl in *; naive_solver.
Qed.

Lemma row_step_ok kps kps' k g q g' :
  kps ⊆ kps' -> grant_ok kps k g -> row_step kps' k g q g' -> grant_ok kps' k g'.
Proof.
  intros Hsub (Hreq & Hgr & Hrev & Hact & Hesc) Hrs. split_and!.
  - by eapply row_step_requested.
  - intros He. destruct (row_step_engaged _ _ _ _ _ Hrs He) as [(He' & -> & ->)|?]; [|done].
    destruct (Hgr He') as (? & ? & kp & Hkp). split_and!; [done..|]. exists kp. by eapply lookup_weaken.
  - destruct (row_step_revoked _ _ _ _ _ Hrs) as [Hn [[-> ?]|[Hn' ->]]]; [done|].
    rewrite Hrev. naive_solver.
  - by eapply row_step_activated.
  - by eapply row_step_escrow.
Qed.

Lemma ea_inv_step ht w q w' : ea_inv w -> ea_step ht w q w' -> ea_inv w'.
Proof.
  intros Hinv [w0 He] k g' Hg'.
  destruct (handle_rows ht q w0 w He) as (Hkp & _ & Hrows).
  destruct (Hrows k g' Hg') as [[_ Hf]|(g & Hg & [->|Hrs])].
  - by apply fresh_grant_ok.
  - destruct (Hinv _ _ Hg) as (H1 & H2 & H3 & H4 & H5). split_and!; [done| |done..].
    intros He'. destruct (H2 He') as (? & ? & kp & Hk). split_and!; [done..|].
    exists kp. by eapply lookup_weaken.
  - eapply row_step_ok; [done | by apply Hinv | done].
Qed.

Lemma ea_reachable_inv ht w : ea_reachable ht w -> ea_inv w.
Proof.
  induction 1 as [w Hw|w q w' _ IH Hs].
  - intros k g Hg. by rewrite Hw, lookup_empty in Hg.
  - by eapply ea_inv_step.
Qed.

(** The states a run has been through stay [earlier] states of it. *)
Lemma row_step_invitation kps k g q g' : row_step kps k g q g' -> g_invitation g' = g_invitation g.
Proof. by intros []. Qed.

Lemma earlier_step ht w0 w q w' : earlier w0 w -> ea_step ht w q w' -> earlier w0 w'.
Proof.
  intros He [w1 H1] k g0 Hg0. destruct (He _ _ Hg0) as (g & Hg & Hi).
  destruct (handle_rows ht q w1 w H1) as (_ & Hdom & Hrows).
  destruct (Hdom _ _ Hg) as [g' Hg']. exists g'. split; [done|].
  destruct (Hrows _ _ Hg') as [[Hn _]|(g2 & Hg2 & [->|Hrs])]; [congruence..|].
  rewrite (row_step_invitation _ _ _ _ _ Hrs). congruence.
Qed.

(** What happens to a row of a reachable state in one step. *)
Lemma ea_step_row ht w q w' k g g' :
  ea_step ht w q w' -> w_grants w !! k = Some g -> w_grants w' !! k = Some g' ->
  g' = g \/ row_step (w_keypairs w') k g q g'.
Proof.
  intros [w0 He] Hg Hg'. destruct (handle_rows ht q w0 w He) as (_ & _ & Hrows).
  destruct (Hrows _ _ Hg') as [[Hn _]|(g2 & Hg2 & H)]; congruence.
Qed.

(** ** Properties *)

(** C1: in every state reachable through the handlers, under any interleaving
    of their read and write transactions: a REQUESTED grant carries its request
    time and the expiry [requestedAt + waitDays]; an ACTIVATED one carries its
    activation time; a grant that was accepted and not ended has a grantee, the
    grantee's public key and an escrow key pair; exactly the REVOKED grants have a
    revocation time; the escrow ciphertext, its iv, tag and salt are set together,
    with a key version, and the owner's ephemeral key only with them; a STALE grant
    has lost that ephemeral key, and a PENDING, ACCEPTED or REJECTED one holds no
    escrow at all.  (A later status does not imply that there is escrow:
    [revoke_resume_arms_without_escrow].) *)
Theorem ea_invariant ht w : ea_reachable ht w -> ea_inv w.
Proof. apply ea_reachable_inv. Qed.

Definition demo_world : world :=
  {| w_grants := ∅; w_keypairs := ∅;
     w_users := {[js "owner" := {| u_tenantId := Some (js "t1"); u_keyVersion := 1 |}]};
     w_audit := [] |}.
Definition demo_owner : session := {| s_userId := js "owner"; s_email := Some (js "o@x.org") |}.
Definition demo_grantee : session := {| s_userId := js "grantee"; s_email := Some (js "g@x.org") |}.
Definition demo_kp : keypair :=
  {| kp_encryptedPrivateKey := js "k"; kp_privateKeyIv := js "i"; kp_privateKeyAuthTag := js "t" |}.
Definition demo_body : confirm_body :=
  {| cb_ownerEphemeralPublicKey := js "epk"; cb_encryptedSecretKey := js "ct";
     cb_secretKeyIv := js "iv"; cb_secretKeyAuthTag := js "tag"; cb_hkdfSalt := js "salt";
     cb_wrapVersion := 1 |}.
Definition demo_requests : list ea_request :=
  [QCreate 0 (Some demo_owner) true (Some (js "g@x.org", 3)) (js "g1") (js "tok");
   QAccept 10 (Some demo_grantee) false (Some (js "tok", js "pk", demo_kp));
   QConfirm (Some demo_owner) (js "g1") (Some demo_body);
   QRequest 20 (Some demo_grantee) true (js "g1")].
(** Run requests one after the other, each reading the state it writes. *)
Definition run_requests (qs : list ea_request) (w : world) : world :=
  foldl (fun w q => handle (fun t => t) q w w) w qs.

Lemma earlier_refl w : earlier w w.
Proof. intros k g Hg. eauto. Qed.

Lemma run_requests_reachable qs w :
  ea_reachable (fun t => t) w -> ea_reachable (fun t => t) (run_requests qs w).
Proof.
  revert w. induction qs as [|q qs IH]; intros w Hw; [done|]. simpl. apply IH.
  eapply reach_step; [done|]. constructor. apply earlier_refl.
Qed.

Lemma ea_invariant_witness :
  ea_inv (run_requests demo_requests demo_world) /\
  (g_status <$> w_grants (run_requests demo_requests demo_world) !! js "g1") = Some REQUESTED.
Proof.
  split.
  - apply (ea_invariant (fun t => t)). apply run_requests_reachable. by apply reach_init.
  - vm_compute. reflexivity.
Defined.

(** The waiting period is enforced.  Whatever the interleaving, a grant
    becomes ACTIVATED only when the session of its owner approves it, or when
    its grantee opens the vault at least [waitDays] days after the request. *)
Theorem ea_waiting_period ht w q w' k g g' :
  ea_reachable ht w -> ea_step ht w q w' ->
  w_grants w !! k = Some g -> w_grants w' !! k = Some g' ->
  g_status g <> ACTIVATED -> g_status g' = ACTIVATED ->
  (exists now s, q = QApprove now (Some s) k /\ s_userId s = ownerId g) \/
  (exists now now' s rl r, q = QVault now now' (Some s) rl k /\
     g_granteeId g = Some (s_userId s) /\ requestedAt g = Some r /\
     r + waitDays g * MS_PER_DAY <= now').
Proof.
  intros Hr Hs Hg Hg' Hn Ha.
  destruct (ea_step_row _ _ _ _ _ _ _ Hs Hg Hg') as [->|Hrs]; [done|].
  destruct (ea_reachable_inv _ _ Hr _ _ Hg) as (Hreq & _).
  destruct Hrs as [| | |now s Hst Ho|now now' s rl e Hst Hgr He Hle| | | | |]; simpl in Ha; try done.
  - left. eauto.
  - right. destruct (Hreq Hst) as (r & Hr1 & Hr2). rewrite Hr2 in He. simplify_eq.
    eauto 10.
Qed.

Lemma ea_waiting_period_witness :
  let w := run_requests demo_requests demo_world in
  let q := QVault (20 + 3 * MS_PER_DAY) (20 + 3 * MS_PER_DAY) (Some demo_grantee) true (js "g1") in
  exists g g', w_grants w !! js "g1" = Some g /\
  w_grants (handle (fun t => t) q w w) !! js "g1" = Some g' /\ g_status g' = ACTIVATED /\
  ((exists now s, q = QApprove now (Some s) (js "g1") /\ s_userId s = ownerId g) \/
   (exists now now' s rl r, q = QVault now now' (Some s) rl (js "g1") /\
     g_granteeId g = Some (s_userId s) /\ requestedAt g = Some r /\
     r + waitDays g * MS_PER_DAY <= now')).
Proof.
  intros w q. eexists _, _. split; [vm_compute; reflexivity|].
  split; [vm_compute; reflexivity|]. split.
  - vm_compute. reflexivity.
  - eapply (ea_waiting_period (fun t => t) w q (handle (fun t => t) q w w) (js "g1")).
    + apply run_requests_reachable. by apply reach_init.
    + constructor. apply earlier_refl.
    + vm_compute. reflexivity.
    + vm_compute. reflexivity.
    + vm_compute. discriminate.
    + vm_compute. reflexivity.
Defined.

(** REVOKED and REJECTED are final: no request of any user, no key rotation
    and no vault reset changes such a grant, under any interleaving. *)
Theorem ea_terminal ht w q w' k g g' :
  ea_step ht w q w' -> w_grants w !! k = Some g -> w_grants w' !! k = Some g' ->
  g_status g = REVOKED \/ g_status g = REJECTED -> g' = g.
Proof.
  intros Hs Hg Hg' Ht.
  destruct (ea_step_row _ _ _ _ _ _ _ Hs Hg Hg') as [->|Hrs]; [done|].
  destruct Hrs; exfalso; destruct (g_status g); naive_solver.
Qed.

Lemma ea_terminal_witness :
  let w := run_requests (demo_requests ++ [QRevoke 30 (Some demo_owner) (js "g1") (Some true)])
             demo_world in
  exists g, w_grants w !! js "g1" = Some g /\ g_status g = REVOKED /\
    w_grants (handle (fun t => t) (QApprove 40 (Some demo_owner) (js "g1")) w w) !! js "g1" = Some g.
Proof.
  intros w. eexists. split; [vm_compute; reflexivity|]. split; [vm_compute; reflexivity|].
  destruct (w_grants (handle (fun t => t) (QApprove 40 (Some demo_owner) (js "g1")) w w) !! js "g1")
    as [g'|] eqn:E; [|vm_compute in E; discriminate E].
  f_equal. eapply (ea_terminal (fun t => t) w (QApprove 40 (Some demo_owner) (js "g1"))
    (handle (fun t => t) (QApprove 40 (Some demo_owner) (js "g1")) w w) (js "g1")).
  - constructor. apply earlier_refl.
  - vm_compute. reflexivity.
  - exact E.
  - left. vm_compute. reflexivity.
Defined.

(** C7: the vault handler gives key material only to the grantee of the grant:
    either the snapshot it read was ACTIVATED with escrow, or it has itself just
    moved the grant from REQUESTED to ACTIVATED after the wait expired, in which
    case the activation is logged. *)
Theorem get_vault_confidential w0 w now now' s rl id g kp :
  snd (get_vault w0 w now now' (Some s) rl id) = Ok (VaultData g kp) ->
  g_granteeId g = Some (s_userId s) /\ g_status g = ACTIVATED /\
  truthy (encryptedSecretKey g) = true /\
  (w_grants w0 !! id = Some g /\ fst (get_vault w0 w now now' (Some s) rl id) = w \/
   exists g1 e, w_grants w !! id = Some g1 /\ g_status g1 = REQUESTED /\
     waitExpiresAt g1 = Some e /\ e <= now' /\
     w_grants (fst (get_vault w0 w now now' (Some s) rl id)) !! id = Some g /\
     w_audit (fst (get_vault w0 w now now' (Some s) rl id))
     = w_audit w ++ [{| ae_action := ACCESS_ACTIVATE; ae_target := id; ae_user := s_userId s |}]).
Proof.
  unfold get_vault, with_session, find_grant.
  destruct rl; simpl; [|done]. destruct (w_grants w0 !! id) as [g0|] eqn:Hg0; simpl; [|done].
  destruct (bool_decide (g_granteeId g0 = Some (s_userId s))) eqn:Eg; simpl; [|done]. bools.
  assert (Hserve : forall w1, snd (serve_snapshot w0 id g0 w1) = Ok (VaultData g kp) ->
    g = g0 /\ g_status g0 = ACTIVATED /\ truthy (encryptedSecretKey g0) = true /\
    fst (serve_snapshot w0 id g0 w1) = w1).
  { intros w1. unfold serve_snapshot. repeat case_match; simpl; intros Hx; simplify_eq; bools; done. }
  destruct (bool_decide (g_status g0 = REQUESTED)) eqn:Es; simpl;
    [|intros (-> & ? & ? & ?)%Hserve; eauto 10].
  bools. destruct (match waitExpiresAt g0 with Some e => e <=? now | None => false end);
    [|intros (-> & ? & ? & ?)%Hserve; congruence].
  pose proof (autoPromoteIfElapsed_spec (w_keypairs w) (s_userId s) id now' (w_grants w)) as Hs.
  destruct (autoPromoteIfElapsed _ _ _ _ _) as [t r]. destruct Hs as (_ & res & -> & Hs).
  destruct res as [g' kp'|[]]; simpl; try done; [|intros (-> & ? & _)%Hserve; congruence].
  intros [= -> ->]. destruct (w_grants w !! id) as [g1|] eqn:Hg1; [|naive_solver].
  destruct (promote_eligible (s_userId s) now' (Some g1)) eqn:E; [|naive_solver].
  destruct Hs as (Ht & (e & He & Hle) & Ht' & _ & _ & Htr). rewrite Ht in Ht'. simplify_eq.
  simpl in E. bools. split_and!; try done. right. exists g1, e. done.
Qed.

Lemma get_vault_confidential_witness :
  let w := run_requests demo_requests demo_world in
  exists g kp, snd (get_vault w w (20 + 3 * MS_PER_DAY) (20 + 3 * MS_PER_DAY)
                      (Some demo_grantee) true (js "g1")) = Ok (VaultData g kp) /\
    g_status g = ACTIVATED.
Proof.
  intros w. eexists _, _. split; [vm_compute; reflexivity|].
  eapply (get_vault_confidential w w (20 + 3 * MS_PER_DAY) (20 + 3 * MS_PER_DAY) demo_grantee
    true (js "g1")). vm_compute. reflexivity.
Defined.

(** The "reject request only" branch of the revoke handler is not limited
    to REQUESTED grants: on an owner's ACCEPTED or STALE grant it also answers
    IDLE, arming the grant without any new escrow (the escrow columns are left
    as they are). *)
Theorem revoke_resume_arms_without_escrow w now s id g t :
  w_grants w !! id = Some g -> ownerId g = s_userId s ->
  user_rls w (s_userId s) = Ok (RlsTenant t) -> inv_tenantId (g_invitation g) = t ->
  g_status g = ACCEPTED \/ g_status g = STALE ->
  snd (post_revoke w w now (Some s) id (Some false)) = Ok (Success IDLE) /\
  exists g', w_grants (fst (post_revoke w w now (Some s) id (Some false))) !! id = Some g' /\
    g_status g' = IDLE /\ g_escrow g' = g_escrow g.
Proof.
  intros Hg Ho Hr Ht Hst. unfold post_revoke, with_session, with_owned_grant, find_grant.
  rewrite Hr, Hg. simpl. rewrite Ht, bool_decide_true by done. simpl.
  rewrite Ho, bool_decide_true by done. simpl.
  unfold owner_transition, finish_transition. rewrite Hr.
  rewrite (run_transition_pinned _ _ _ _ _ _ id) by (done || set_solver).
  rewrite Hg. simpl. rewrite Ht, Ho, !bool_decide_true by done.
  replace (canTransition (g_status g) IDLE OWNER) with true
    by (by destruct Hst as [-> | ->]).
  simpl. split; [done|]. rewrite lookup_insert_eq. eauto.
Qed.

Lemma revoke_resume_arms_without_escrow_witness :
  let w := run_requests (take 2 demo_requests) demo_world in
  exists g, w_grants w !! js "g1" = Some g /\ encryptedSecretKey g = None /\
    snd (post_revoke w w 50 (Some demo_owner) (js "g1") (Some false)) = Ok (Success IDLE).
Proof.
  intros w. eexists. split; [vm_compute; reflexivity|]. split; [vm_compute; reflexivity|].
  eapply (revoke_resume_arms_without_escrow w 50 demo_owner (js "g1") _ (js "t1"));
    [vm_compute; reflexivity.. | left; vm_compute; reflexivity].
Defined.

(** Confirm reads the owner's key version in one transaction and stores the
    escrow in another, without the lock the key rotation holds: when a rotation
    commits in between, the grant ends up IDLE under the superseded key version,
    which the rotation's stale-marking was meant to exclude. *)
Theorem confirm_rotation_race :
  exists w0 q1 q2 g u,
    let w1 := handle (fun t => t) q1 w0 w0 in
    let w2 := handle (fun t => t) q2 w0 w1 in
    ea_reachable (fun t => t) w0 /\ ea_reachable (fun t => t) w2 /\
    q1 = QRotate (RlsTenant (js "t1")) (js "owner") /\
    w_grants w2 !! js "g1" = Some g /\ g_status g = IDLE /\
    w_users w2 !! js "owner" = Some u /\ keyVersion g = Some 1 /\ u_keyVersion u = 2.
Proof.
  exists (run_requests (take 2 demo_requests) demo_world),
    (QRotate (RlsTenant (js "t1")) (js "owner")),
    (QConfirm (Some demo_owner) (js "g1") (Some demo_body)).
  eexists _, _. cbv zeta.
  assert (Hr : ea_reachable (fun t => t) (run_requests (take 2 demo_requests) demo_world)).
  { apply run_requests_reachable. by apply reach_init. }
  split; [done|]. split.
  - set (w0 := run_requests (take 2 demo_requests) demo_world) in *.
    assert (Hs : ea_step (fun t => t) w0 (QRotate (RlsTenant (js "t1")) (js "owner"))
                   (handle (fun t => t) (QRotate (RlsTenant (js "t1")) (js "owner")) w0 w0)).
    { constructor. apply earlier_refl. }
    eapply reach_step; [by eapply reach_step|]. constructor.
    eapply earlier_step; [apply earlier_refl | done].
  - split; [done|]. split; [vm_compute; reflexivity|]. split; [vm_compute; reflexivity|].
    split; [vm_compute; reflexivity|]. split; vm_compute; reflexivity.
Qed.
