(* ===== verification/AccessRequest.v ===== *)
(** * Just-in-time access requests of service accounts

    Models src/src/lib/access-request/access-request-state.ts, the second
    instance of the status-machine scheme, with the approve and deny handlers
    under src/src/app/api/tenant/access-requests, the expiry sweep of the
    retention worker and [parseSaTokenScopes] of service-account-token.ts.  The
    theorems state the dual-control property of approvals and the bounds on the
    token an approval issues. *)

From S2P Require Import Prelude JsString Table StatusMachine.
Local Open Scope Z_scope.

Inductive AccessRequestStatus := AR_PENDING | AR_APPROVED | AR_DENIED | AR_EXPIRED.
Inductive ArActor := AR_ADMIN | AR_SYSTEM.

#[export] Instance ar_status_eq_dec : EqDecision AccessRequestStatus.
Proof. solve_decision. Defined.
#[export] Instance ar_actor_eq_dec : EqDecision ArActor.
Proof. solve_decision. Defined.

Definition AR_MATRIX (from to : AccessRequestStatus) : list ArActor :=
  match from, to with
  | AR_PENDING, AR_APPROVED => [AR_ADMIN]
  | AR_PENDING, AR_DENIED => [AR_ADMIN]
  | AR_PENDING, AR_EXPIRED => [AR_SYSTEM]
  | _, _ => []
  end.

Definition ar_canTransition (from to : AccessRequestStatus) (a : ArActor) : bool :=
  bool_decide (a ∈ AR_MATRIX from to).

(** ** Rows *)

(** Columns written when the request is created. *)
Record ar_info := {
  ar_tenantId : jsstr; ar_serviceAccountId : jsstr; ar_requestedScope : jsstr;
  ar_requesterUserId : option jsstr; ar_requesterServiceAccountId : option jsstr;
  ar_expiresAt : Z }.

(** Columns written by the decision. *)
Record ar_decision := {
  ar_approvedById : option jsstr; ar_approvedAt : option Z;
  ar_grantedTokenId : option jsstr; ar_grantedTokenTtlSec : option Z }.

Record ar_row := { ar_info_ : ar_info; ar_status : AccessRequestStatus; ar_dec : ar_decision }.

Definition ar_set_status (s : AccessRequestStatus) (r : ar_row) : ar_row :=
  {| ar_info_ := ar_info_ r; ar_status := s; ar_dec := ar_dec r |}.
(** [extraData: { approvedById, approvedAt }] *)
Definition ar_set_approver (uid : jsstr) (at_ : Z) (r : ar_row) : ar_row :=
  {| ar_info_ := ar_info_ r; ar_status := ar_status r;
     ar_dec := {| ar_approvedById := Some uid; ar_approvedAt := Some at_;
                  ar_grantedTokenId := ar_grantedTokenId (ar_dec r);
                  ar_grantedTokenTtlSec := ar_grantedTokenTtlSec (ar_dec r) |} |}.
(** [data: { grantedTokenId, grantedTokenTtlSec }] *)
Definition ar_set_token (tid : jsstr) (ttl : Z) (r : ar_row) : ar_row :=
  {| ar_info_ := ar_info_ r; ar_status := ar_status r;
     ar_dec := {| ar_approvedById := ar_approvedById (ar_dec r);
                  ar_approvedAt := ar_approvedAt (ar_dec r);
                  ar_grantedTokenId := Some tid; ar_grantedTokenTtlSec := Some ttl |} |}.

(** ** [where] inputs *)

Inductive ar_pred := ArId (v : jsstr) | ArTenantId (v : jsstr) | ArExpiresAfter (v : Z).

Definition ar_pred_matches (p : ar_pred) (k : jsstr) (r : ar_row) : bool :=
  match p with
  | ArId v => k =s v
  | ArTenantId v => ar_tenantId (ar_info_ r) =s v
  | ArExpiresAfter v => v <? ar_expiresAt (ar_info_ r)
  end.
Definition ar_where_matches (w : list ar_pred) (k : jsstr) (r : ar_row) : bool :=
  forallb (fun p => ar_pred_matches p k r) w.

(** [hasScopeUnderBypass]: an explicit tenantId; an id alone is not enough. *)
Definition hasScopeUnderBypass (w : list ar_pred) : bool :=
  existsb (fun p => match p with ArTenantId _ => true | _ => false end) w.

#[export, refine] Instance ar_machine :
  StatusMachine AccessRequestStatus ArActor ar_row (list ar_pred) := {|
    sm_statuses := [AR_PENDING; AR_APPROVED; AR_DENIED; AR_EXPIRED];
    sm_matrix := AR_MATRIX; sm_status := ar_status; sm_set_status := ar_set_status;
    sm_matches := ar_where_matches; sm_scoped := hasScopeUnderBypass |}.
Proof.
  - done.
  - intros []; set_solver.
Defined.

(** The tenant RLS context, or none under bypass. *)
Definition ar_visible (tenant : option jsstr) (r : ar_row) : bool :=
  match tenant with Some t => ar_tenantId (ar_info_ r) =s t | None => true end.

Definition ar_transition (tenant : option jsstr) (w : list ar_pred) (to : AccessRequestStatus)
    (a : ArActor) (extra : ar_row -> ar_row) (t : gmap jsstr ar_row)
    : gmap jsstr ar_row * outcome transition_error bool :=
  sm_transition (bool_decide (tenant = None)) (ar_visible tenant) w to a extra t.

Definition ar_bulkTransition (tenant : option jsstr) (w : list ar_pred)
    (to : AccessRequestStatus) (a : ArActor) (extra : ar_row -> ar_row) (t : gmap jsstr ar_row)
    : gmap jsstr ar_row * outcome transition_error nat :=
  sm_bulkTransition (bool_decide (tenant = None)) (ar_visible tenant) w to a extra t.

(** [sweepExpiredAccessRequests]: the raw UPDATE; [batch] is the key set the
    inner SELECT returned from an earlier snapshot [t0], at most LIMIT rows. *)
Definition sweepExpiredAccessRequests (now : Z) (t0 : gmap jsstr ar_row) (batch : list jsstr)
    (t : gmap jsstr ar_row) : gmap jsstr ar_row :=
  map_imap (fun k r =>
    Some (if bool_decide (k ∈ batch)
             && match t0 !! k with
                | Some r0 => bool_decide (ar_status r0 = AR_PENDING)
                             && (ar_expiresAt (ar_info_ r0) <? now)
                | None => false
                end
             && bool_decide (ar_status r = AR_PENDING)
          then ar_set_status AR_EXPIRED r else r)) t.

(** ** Service-account scopes *)

Definition SA_TOKEN_SCOPES : list jsstr :=
  [js "passwords:read"; js "passwords:write"; js "passwords:list"; js "tags:read";
   js "vault:status"; js "folders:read"; js "folders:write"; js "team:passwords:read";
   js "team:passwords:write"; js "access-request:create"].

Definition parseSaTokenScopes (csv : jsstr) : list jsstr :=
  filter (fun s => s <> [] /\ s ∈ SA_TOKEN_SCOPES) (map js_trim (js_split [44] csv)).

Definition hasSaTokenScope (scopes : list jsstr) (required : jsstr) : bool :=
  bool_decide (required ∈ scopes).

(** ** Handlers *)

Record service_account := { sa_isActive : bool; sa_createdById : jsstr; sa_tenantId : jsstr }.
Record sa_token := {
  st_serviceAccountId : jsstr; st_tenantId : jsstr; st_tokenHash : jsstr;
  st_scope : jsstr; st_expiresAt : Z; st_revokedAt : option Z }.
(** [jitTokenDefaultTtlSec] and [jitTokenMaxTtlSec] of the tenant. *)
Record jit_policy := { jit_default : option Z; jit_max : option Z }.

Record ar_world := {
  aw_requests : gmap jsstr ar_row;
  aw_accounts : gmap jsstr service_account;
  aw_tokens : gmap jsstr sa_token;
  aw_tenants : gmap jsstr jit_policy }.

Inductive ar_throw := ArTransitionFailed (e : transition_error) | ArForeignKey | ArUnique.

Inductive ar_response :=
| ArUnauthorized | ArForbidden | ArStepUp | ArRateLimited | ArNotFound | ArInvalidRequest
| ArForbiddenSelfApproval | ArRequestExpired | ArInactive | ArConflict | ArTokenLimit
| ArInvalidScope | ArDeniedOk | ArScopeInsufficient | ArRestricted | ArBadBody | ArSaNotFound
| ArCreated (id : jsstr)
| ArApproved (plaintext : jsstr) (expiresAt ttlSec : Z).

Definition SEC_PER_HOUR : Z := 3600.
Definition JIT_TOKEN_TTL_MAX : Z := 86400.
Definition MAX_SA_TOKENS_PER_ACCOUNT : nat := 5.
Definition MS_PER_SECOND : Z := 1000.

(** The guards before any database access: session, permission, step-up, rate
    limit; [actor] is the tenant [requireTenantPermission] resolved. *)
Definition ar_guards (w : ar_world) (sess actor : option jsstr) (stepUp blocked : bool)
    (f : jsstr -> jsstr -> ar_world * outcome ar_throw ar_response)
    : ar_world * outcome ar_throw ar_response :=
  match sess with
  | None => (w, Ok ArUnauthorized)
  | Some uid =>
      match actor with
      | None => (w, Ok ArForbidden)
      | Some tenantId =>
          if stepUp then (w, Ok ArStepUp)
          else if blocked then (w, Ok ArRateLimited)
          else f uid tenantId
      end
  end.

Definition jit_ttl (p : option jit_policy) : Z :=
  let defaultTtlSec := default SEC_PER_HOUR (p ≫= jit_default) in
  let maxTtlSec := Z.min (default JIT_TOKEN_TTL_MAX (p ≫= jit_max)) JIT_TOKEN_TTL_MAX in
  Z.min defaultTtlSec maxTtlSec.

Definition active_tokens (now : Z) (sa : jsstr) (t : gmap jsstr sa_token) : gmap jsstr sa_token :=
  select (fun tk => (st_serviceAccountId tk =s sa) && bool_decide (st_revokedAt tk = None)
                    && (now <? st_expiresAt tk)) t.

(** The issuing transaction of the approve handler.  It runs under the advisory
    lock of the service account, so the count and the create see the same
    tokens; every early exit throws and rolls back. *)
Definition approve_tx (hashToken : jsstr -> jsstr) (tenantId uid requestId : jsstr)
    (request : ar_row) (ttlSec now : Z) (tokenId plaintext : jsstr) (w : ar_world)
    : ar_world * outcome ar_throw ar_response :=
  let sa := ar_serviceAccountId (ar_info_ request) in
  if (MAX_SA_TOKENS_PER_ACCOUNT <=? size (active_tokens now sa (aw_tokens w)))%nat
  then (w, Ok ArTokenLimit)
  else
    match ar_transition (Some tenantId)
            [ArId requestId; ArTenantId tenantId; ArExpiresAfter now] AR_APPROVED AR_ADMIN
            (ar_set_approver uid now) (aw_requests w) with
    | (_, Throw e) => (w, Throw (ArTransitionFailed e))
    | (_, Ok false) => (w, Ok ArConflict)
    | (t, Ok true) =>
        let validatedScopes := parseSaTokenScopes (ar_requestedScope (ar_info_ request)) in
        if (length validatedScopes =? 0)%nat then (w, Ok ArInvalidScope)
        else
          let expiresAt := now + ttlSec * MS_PER_SECOND in
          let token := {| st_serviceAccountId := sa; st_tenantId := tenantId;
                          st_tokenHash := hashToken plaintext;
                          st_scope := js_join [44] validatedScopes;
                          st_expiresAt := expiresAt; st_revokedAt := None |} in
          match aw_tokens w !! tokenId,
                find_by (fun tk => st_tokenHash tk =s hashToken plaintext) (aw_tokens w) with
          | None, None =>
              let upd r := if ar_tenantId (ar_info_ r) =s tenantId
                           then ar_set_token tokenId ttlSec r else r in
              ({| aw_requests := alter upd requestId t; aw_accounts := aw_accounts w;
                  aw_tokens := <[tokenId := token]> (aw_tokens w); aw_tenants := aw_tenants w |},
               Ok (ArApproved plaintext expiresAt ttlSec))
          | _, _ => (w, Throw ArUnique)
          end
    end.

(** Who calls the create route.  A [Bearer sa_] header selects the self-service
    path, whose [authOrToken] either fails, resolves to another caller type, or
    yields the tenant and service account of the token; any other caller needs a
    session. *)
Inductive ar_caller :=
| ArSaFailed | ArSaOtherType | ArSa (tenantId serviceAccountId : jsstr)
| ArNoSession | ArSession (uid : jsstr) (actor : option jsstr).

Record ar_body := {
  ab_serviceAccountId : jsstr; ab_requestedScope : list jsstr;
  ab_justification : option jsstr; ab_expiresInMinutes : option Z }.

Definition MS_PER_MINUTE : Z := 60000.
Definition MIN_PER_HOUR : Z := 60.
Definition MIN_PER_DAY : Z := 1440.

(** The fields [adminCreateSchema] and [saCreateSchema] share. *)
Definition ar_body_ok (b : ar_body) : bool :=
  bool_decide (ab_requestedScope b <> [])
  && forallb (fun s => bool_decide (s ∈ SA_TOKEN_SCOPES)) (ab_requestedScope b)
  && match ab_justification b with Some j => (length j <=? 1000)%nat | None => true end
  && match ab_expiresInMinutes b with
     | Some m => (5 <=? m) && (m <=? MIN_PER_DAY)
     | None => true
     end.

(** POST /api/tenant/access-requests.  [isUuid] is zod's check on the
    [serviceAccountId] of the admin schema; [restricted] is the outcome of
    [enforceAccessRestriction]; [id] is the new row's key. *)
Definition post_ar_create (isUuid : jsstr -> bool) (w0 w : ar_world) (now : Z)
    (caller : ar_caller) (restricted blocked : bool) (body : option ar_body) (id : jsstr)
    : ar_world * outcome ar_throw ar_response :=
  let create tenantId serviceAccountId requesterUserId requesterServiceAccountId b :=
    match aw_requests w !! id with
    | Some _ => (w, Throw ArUnique)
    | None =>
        let info := {| ar_tenantId := tenantId; ar_serviceAccountId := serviceAccountId;
                       ar_requestedScope := js_join [44] (ab_requestedScope b);
                       ar_requesterUserId := requesterUserId;
                       ar_requesterServiceAccountId := requesterServiceAccountId;
                       ar_expiresAt := now + default MIN_PER_HOUR (ab_expiresInMinutes b)
                                             * MS_PER_MINUTE |} in
        let r := {| ar_info_ := info; ar_status := AR_PENDING;
                    ar_dec := {| ar_approvedById := None; ar_approvedAt := None;
                                 ar_grantedTokenId := None; ar_grantedTokenTtlSec := None |} |} in
        ({| aw_requests := <[id := r]> (aw_requests w); aw_accounts := aw_accounts w;
            aw_tokens := aw_tokens w; aw_tenants := aw_tenants w |}, Ok (ArCreated id))
    end in
  match caller with
  | ArSaFailed => (w, Ok ArScopeInsufficient)
  | ArSaOtherType => (w, Ok ArUnauthorized)
  | ArNoSession => (w, Ok ArUnauthorized)
  | ArSa tenantId serviceAccountId =>
      if restricted then (w, Ok ArRestricted)
      else if blocked then (w, Ok ArRateLimited)
      else match body with
           | Some b =>
               if negb (ar_body_ok b) then (w, Ok ArBadBody)
               else match aw_accounts w0 !! serviceAccountId with
                    | None => (w, Ok ArSaNotFound)
                    | Some sa =>
                        if negb (sa_tenantId sa =s tenantId) then (w, Ok ArSaNotFound)
                        else if negb (sa_isActive sa) then (w, Ok ArInactive)
                        else create tenantId serviceAccountId None (Some serviceAccountId) b
                    end
           | None => (w, Ok ArBadBody)
           end
  | ArSession uid actor =>
      match actor with
      | None => (w, Ok ArForbidden)
      | Some tenantId =>
          if blocked then (w, Ok ArRateLimited)
          else match body with
               | Some b =>
                   if negb (isUuid (ab_serviceAccountId b) && ar_body_ok b)
                   then (w, Ok ArBadBody)
                   else match aw_accounts w0 !! ab_serviceAccountId b with
                        | None => (w, Ok ArSaNotFound)
                        | Some sa =>
                            if negb (sa_tenantId sa =s tenantId) then (w, Ok ArSaNotFound)
                            else if negb (sa_isActive sa) then (w, Ok ArInactive)
                            else create tenantId (ab_serviceAccountId b) (Some uid) None b
                        end
               | None => (w, Ok ArBadBody)
               end
      end
  end.

(** POST /api/tenant/access-requests/[id]/approve: the checks on the row read
    from [w0] at time [now], then the transaction in [w] at time [nowTx]. *)
Definition post_ar_approve (hashToken : jsstr -> jsstr) (w0 w : ar_world) (now nowTx : Z)
    (sess actor : option jsstr) (stepUp blocked : bool) (requestId tokenId plaintext : jsstr)
    : ar_world * outcome ar_throw ar_response :=
  ar_guards w sess actor stepUp blocked (fun uid tenantId =>
    match aw_requests w0 !! requestId with
    | None => (w, Ok ArNotFound)
    | Some request =>
        let info := ar_info_ request in
        if negb (ar_tenantId info =s tenantId) then (w, Ok ArNotFound) else
        match aw_accounts w0 !! ar_serviceAccountId info with
        | None => (w, Throw ArForeignKey)
        | Some account =>
            if bool_decide (ar_requesterUserId info = None)
               && bool_decide (ar_requesterServiceAccountId info = None)
            then (w, Ok ArInvalidRequest)
            else if bool_decide (ar_requesterUserId info = Some uid)
            then (w, Ok ArForbiddenSelfApproval)
            else if negb (bool_decide (ar_requesterServiceAccountId info = None))
                    && (sa_createdById account =s uid)
            then (w, Ok ArForbiddenSelfApproval)
            else if ar_expiresAt info <=? now then (w, Ok ArRequestExpired)
            else if negb (sa_isActive account) then (w, Ok ArInactive)
            else approve_tx hashToken tenantId uid requestId request
                   (jit_ttl (aw_tenants w0 !! tenantId)) nowTx tokenId plaintext w
        end
    end).

(** POST /api/tenant/access-requests/[id]/deny *)
Definition post_ar_deny (w0 w : ar_world) (now : Z) (sess actor : option jsstr)
    (stepUp blocked : bool) (requestId : jsstr) : ar_world * outcome ar_throw ar_response :=
  ar_guards w sess actor stepUp blocked (fun uid tenantId =>
    match aw_requests w0 !! requestId with
    | None => (w, Ok ArNotFound)
    | Some request =>
        if negb (ar_tenantId (ar_info_ request) =s tenantId) then (w, Ok ArNotFound) else
        match ar_transition (Some tenantId) [ArId requestId; ArTenantId tenantId] AR_DENIED
                AR_ADMIN (ar_set_approver uid now) (aw_requests w) with
        | (_, Throw e) => (w, Throw (ArTransitionFailed e))
        | (_, Ok false) => (w, Ok ArConflict)
        | (t, Ok true) =>
            ({| aw_requests := t; aw_accounts := aw_accounts w; aw_tokens := aw_tokens w;
                aw_tenants := aw_tenants w |}, Ok ArDeniedOk)
        end
    end).

(** ** The system of requests *)

Inductive ar_event :=
| ArECreate (now : Z) (caller : ar_caller) (restricted blocked : bool)
    (body : option ar_body) (id : jsstr)
| ArEApprove (now nowTx : Z) (sess actor : option jsstr) (stepUp blocked : bool)
    (requestId tokenId plaintext : jsstr)
| ArEDeny (now : Z) (sess actor : option jsstr) (stepUp blocked : bool) (requestId : jsstr)
| ArESweep (now : Z) (batch : list jsstr).

Definition ar_handle (hashToken : jsstr -> jsstr) (isUuid : jsstr -> bool) (e : ar_event)
    (w0 w : ar_world) : ar_world :=
  match e with
  | ArECreate now caller restricted blocked body id =>
      fst (post_ar_create isUuid w0 w now caller restricted blocked body id)
  | ArEApprove now nowTx sess actor stepUp blocked requestId tokenId plaintext =>
      fst (post_ar_approve hashToken w0 w now nowTx sess actor stepUp blocked
             requestId tokenId plaintext)
  | ArEDeny now sess actor stepUp blocked requestId =>
      fst (post_ar_deny w0 w now sess actor stepUp blocked requestId)
  | ArESweep now batch =>
      {| aw_requests := sweepExpiredAccessRequests now (aw_requests w0) batch (aw_requests w);
         aw_accounts := aw_accounts w; aw_tokens := aw_tokens w; aw_tenants := aw_tenants w |}
  end.

(** [w0] may be an earlier state of [w]: its requests are still there with the
    columns written at creation, and the accounts have the same creators. *)
Definition ar_earlier (w0 w : ar_world) : Prop :=
  (forall k r0, aw_requests w0 !! k = Some r0 ->
     exists r, aw_requests w !! k = Some r /\ ar_info_ r = ar_info_ r0) /\
  sa_createdById <$> aw_accounts w0 = sa_createdById <$> aw_accounts w.

Inductive ar_step (ht : jsstr -> jsstr) (isUuid : jsstr -> bool) (w : ar_world) : ar_world -> Prop :=
| ar_step_intro w0 e : ar_earlier w0 w -> ar_step ht isUuid w (ar_handle ht isUuid e w0 w).

Inductive ar_reachable (ht : jsstr -> jsstr) (isUuid : jsstr -> bool) : ar_world -> Prop :=
| ar_reach_init w : aw_requests w = ∅ -> ar_reachable ht isUuid w
| ar_reach_step w w' : ar_reachable ht isUuid w -> ar_step ht isUuid w w' ->
    ar_reachable ht isUuid w'.

(** ** Lemmas *)

Lemma ar_pins k ps t : sm_pins (ArId k :: ps) t k.
Proof. intros k' r' _. simpl. intros H. bools. tauto. Qed.

(** A decision on one request is a compare-and-swap on its row. *)
Lemma ar_transition_pinned tenantId k ps to a extra t :
  ar_transition (Some tenantId) (ArId k :: ps) to a extra t
  = match t !! k with
    | Some r => if sm_hit (ar_visible (Some tenantId)) (ArId k :: ps) to a k r
                then (<[k := ar_set_status to (extra r)]> t, Ok true) else (t, Ok false)
    | None => (t, Ok false)
    end.
Proof. apply (sm_transition_pinned (M := ar_machine)); [apply ar_pins | done]. Qed.

Lemma ar_admin_from_pending from to :
  ar_canTransition from to AR_ADMIN = true -> from = AR_PENDING.
Proof. destruct from, to; by vm_compute. Qed.

Lemma ar_hit_inv tenantId ps to k r :
  sm_hit (ar_visible (Some tenantId)) (ArId k :: ps) to AR_ADMIN k r = true ->
  ar_status r = AR_PENDING /\ ar_tenantId (ar_info_ r) = tenantId /\
  ar_where_matches ps k r = true.
Proof.
  unfold sm_hit. simpl. intros H. bools. split_and!; [|done..].
  by eapply ar_admin_from_pending.
Qed.

Lemma parseSaTokenScopes_spec csv s :
  s ∈ parseSaTokenScopes csv <-> s ∈ SA_TOKEN_SCOPES /\ s ∈ map js_trim (js_split [44] csv).
Proof.
  unfold parseSaTokenScopes. rewrite list_elem_of_filter. split; [tauto|].
  intros [H1 H2]. split_and!; [|done..]. intros ->. revert H1.
  change ([] ∉ SA_TOKEN_SCOPES). apply (bool_decide_unpack _). by vm_compute.
Qed.

Lemma jit_ttl_bound p : jit_ttl p <= JIT_TOKEN_TTL_MAX.
Proof. unfold jit_ttl. lia. Qed.

Definition granted_token (hashToken : jsstr -> jsstr) (tenantId plaintext : jsstr) (info : ar_info)
    (expiresAt : Z) : sa_token :=
  {| st_serviceAccountId := ar_serviceAccountId info; st_tenantId := tenantId;
     st_tokenHash := hashToken plaintext;
     st_scope := js_join [44] (parseSaTokenScopes (ar_requestedScope info));
     st_expiresAt := expiresAt; st_revokedAt := None |}.

(** What a committed approval did. *)
Record approval (hashToken : jsstr -> jsstr) (w w' : ar_world) (tenantId uid requestId : jsstr)
    (request : ar_row) (ttlSec now : Z) (tokenId plaintext : jsstr) (r : ar_row) : Prop := {
  ap_row : aw_requests w !! requestId = Some r;
  ap_pending : ar_status r = AR_PENDING;
  ap_tenant : ar_tenantId (ar_info_ r) = tenantId;
  ap_unexpired : now < ar_expiresAt (ar_info_ r);
  ap_limit : (size (active_tokens now (ar_serviceAccountId (ar_info_ request)) (aw_tokens w))
              < MAX_SA_TOKENS_PER_ACCOUNT)%nat;
  ap_scopes : parseSaTokenScopes (ar_requestedScope (ar_info_ request)) <> [];
  ap_fresh : aw_tokens w !! tokenId = None;
  ap_world : w' = {|
    aw_requests := <[requestId := ar_set_token tokenId ttlSec
                       (ar_set_status AR_APPROVED (ar_set_approver uid now r))]> (aw_requests w);
    aw_accounts := aw_accounts w;
    aw_tokens := <[tokenId := granted_token hashToken tenantId plaintext (ar_info_ request)
                                (now + ttlSec * MS_PER_SECOND)]> (aw_tokens w);
    aw_tenants := aw_tenants w |} }.

Lemma approve_tx_cases ht tenantId uid requestId request ttlSec now tokenId plaintext w w' res :
  approve_tx ht tenantId uid requestId request ttlSec now tokenId plaintext w = (w', res) ->
  (w' = w /\ forall p e t, res <> Ok (ArApproved p e t)) \/
  (res = Ok (ArApproved plaintext (now + ttlSec * MS_PER_SECOND) ttlSec) /\
   exists r, approval ht w w' tenantId uid requestId request ttlSec now tokenId plaintext r).
Proof.
  unfold approve_tx. case_match eqn:Hlim; [intros [= <- <-]; by left|].
  rewrite ar_transition_pinned.
  destruct (aw_requests w !! requestId) as [r|] eqn:Hr; [|intros [= <- <-]; by left].
  destruct (sm_hit _ _ _ _ _ _) eqn:Hh; [|intros [= <- <-]; by left].
  destruct (length _ =? 0)%nat eqn:Hsc; [intros [= <- <-]; by left|].
  destruct (aw_tokens w !! tokenId) eqn:Hf; [intros [= <- <-]; by left|].
  destruct (find_by _ _) eqn:Hf'; [intros [= <- <-]; by left|].
  intros [= <- <-]. right. split; [done|]. exists r.
  apply ar_hit_inv in Hh as (Hp & Ht & Hw). simpl in Hw. bools.
  apply Nat.leb_gt in Hlim. apply Nat.eqb_neq in Hsc.
  constructor; try done.
  - intros Heq. by rewrite Heq in Hsc.
  - f_equal. rewrite alter_insert_eq. simpl.
    by rewrite bool_decide_eq_true_2.
Qed.

Record dual_control (w : ar_world) (info : ar_info) (uid : jsstr) : Prop := {
  dc_requester : is_Some (ar_requesterUserId info) \/ is_Some (ar_requesterServiceAccountId info);
  dc_user : ar_requesterUserId info <> Some uid;
  dc_creator : forall sa, is_Some (ar_requesterServiceAccountId info) ->
    aw_accounts w !! ar_serviceAccountId info = Some sa -> sa_createdById sa <> uid }.

Lemma post_ar_approve_cases ht w0 w now nowTx sess actor stepUp blocked requestId tokenId
    plaintext w' res :
  post_ar_approve ht w0 w now nowTx sess actor stepUp blocked requestId tokenId plaintext
    = (w', res) ->
  (w' = w /\ forall p e t, res <> Ok (ArApproved p e t)) \/
  exists uid tenantId request account r,
    sess = Some uid /\ actor = Some tenantId /\ stepUp = false /\ blocked = false /\
    aw_requests w0 !! requestId = Some request /\
    ar_tenantId (ar_info_ request) = tenantId /\ now < ar_expiresAt (ar_info_ request) /\
    aw_accounts w0 !! ar_serviceAccountId (ar_info_ request) = Some account /\
    sa_isActive account = true /\
    dual_control w0 (ar_info_ request) uid /\
    let ttl := jit_ttl (aw_tenants w0 !! tenantId) in
    res = Ok (ArApproved plaintext (nowTx + ttl * MS_PER_SECOND) ttl) /\
    approval ht w w' tenantId uid requestId request ttl nowTx tokenId plaintext r.
Proof.
  unfold post_ar_approve, ar_guards.
  destruct sess as [uid|]; [|intros [= <- <-]; by left].
  destruct actor as [tenantId|]; [|intros [= <- <-]; by left].
  destruct stepUp; [intros [= <- <-]; by left|]. destruct blocked; [intros [= <- <-]; by left|].
  destruct (aw_requests w0 !! requestId) as [request|] eqn:Hq; [|intros [= <- <-]; by left].
  case_match eqn:Ht; [intros [= <- <-]; by left|].
  case_match eqn:Ha; [|intros [= <- <-]; by left].
  case_match eqn:Hr; [intros [= <- <-]; by left|].
  case_match eqn:Hu; [intros [= <- <-]; by left|].
  case_match eqn:Hc; [intros [= <- <-]; by left|].
  case_match eqn:He; [intros [= <- <-]; by left|].
  case_match eqn:Hi; [intros [= <- <-]; by left|].
  intros [?|(Hres & r & Hap)]%approve_tx_cases; [by left|]. right.
  apply negb_false_iff in Ht, Hi. bools.
  exists uid, tenantId, request, s, r. simpl. split_and!; try done.
  constructor.
  - destruct Hr as [Hr|Hr]; bools; rewrite <- !not_eq_None_Some; tauto.
  - done.
  - intros sa [x Hx] Hsa. destruct Hc as [Hc|Hc]; bools; congruence.
Qed.

(** What one step can do to one request. *)
Inductive ar_row_step (ht : jsstr -> jsstr) (w w' : ar_world) (k : jsstr) (r : ar_row)
  : ar_row -> Prop :=
| ar_rs_same : ar_row_step ht w w' k r r
| ar_rs_deny uid at_ : ar_status r = AR_PENDING ->
    ar_row_step ht w w' k r (ar_set_status AR_DENIED (ar_set_approver uid at_ r))
| ar_rs_expire : ar_status r = AR_PENDING -> ar_row_step ht w w' k r (ar_set_status AR_EXPIRED r)
| ar_rs_approve uid at_ tid ttl plaintext : ar_status r = AR_PENDING ->
    at_ < ar_expiresAt (ar_info_ r) -> ttl <= JIT_TOKEN_TTL_MAX ->
    dual_control w (ar_info_ r) uid ->
    aw_tokens w !! tid = None ->
    aw_tokens w' = <[tid := granted_token ht (ar_tenantId (ar_info_ r)) plaintext (ar_info_ r)
                              (at_ + ttl * MS_PER_SECOND)]> (aw_tokens w) ->
    ar_row_step ht w w' k r (ar_set_token tid ttl (ar_set_status AR_APPROVED (ar_set_approver uid at_ r))).

Definition ar_rows_ok (ht : jsstr -> jsstr) (w w' : ar_world) : Prop :=
  aw_accounts w' = aw_accounts w /\
  (forall k tk, aw_tokens w !! k = Some tk -> aw_tokens w' !! k = Some tk) /\
  (forall k r, aw_requests w !! k = Some r ->
     exists r', aw_requests w' !! k = Some r' /\ ar_row_step ht w w' k r r') /\
  (forall k r', aw_requests w !! k = None -> aw_requests w' !! k = Some r' ->
     ar_status r' = AR_PENDING /\ ar_grantedTokenId (ar_dec r') = None) /\
  (aw_tokens w' = aw_tokens w \/
   exists k, forall k' r', k' <> k -> aw_requests w' !! k' = Some r' ->
     aw_requests w !! k' = Some r').

Lemma ar_rows_ok_refl ht w : ar_rows_ok ht w w.
Proof.
  unfold ar_rows_ok. split_and!; [done | done | | | by left].
  - intros k r Hr. exists r. eauto using ar_rs_same.
  - intros k r' H1 H2. congruence.
Qed.

Lemma dual_control_earlier w0 w info uid :
  ar_earlier w0 w -> dual_control w0 info uid -> dual_control w info uid.
Proof.
  intros [_ He] [H1 H2 H3]. constructor; [done..|]. intros sa Hs Hsa.
  apply (f_equal (lookup (ar_serviceAccountId info))) in He. rewrite !lookup_fmap, Hsa in He.
  destruct (aw_accounts w0 !! ar_serviceAccountId info) as [sa0|] eqn:E; simplify_eq/=.
  rewrite <- He. eauto.
Qed.

(** Replacing one row keeps the others. *)
Lemma ar_rows_ok_insert ht w k r r' tokens :
  aw_requests w !! k = Some r ->
  (forall k tk, aw_tokens w !! k = Some tk -> tokens !! k = Some tk) ->
  let w' := {| aw_requests := <[k := r']> (aw_requests w); aw_accounts := aw_accounts w;
               aw_tokens := tokens; aw_tenants := aw_tenants w |} in
  ar_row_step ht w w' k r r' -> ar_rows_ok ht w w'.
Proof.
  intros Hr Htk w' Hs. unfold ar_rows_ok. split_and!; [done..| | |].
  - intros k' r1 H1. destruct (decide (k' = k)) as [->|Hne]; simpl.
    + rewrite lookup_insert_eq. simplify_eq. eauto.
    + rewrite lookup_insert_ne by done. eauto using ar_rs_same.
  - intros k' r1 Hn. simpl. rewrite lookup_insert_ne by congruence. congruence.
  - right. exists k. intros k' r1 Hne. simpl. by rewrite lookup_insert_ne.
Qed.

Lemma post_ar_create_rows ht isUuid w0 w now caller restricted blocked body id :
  ar_rows_ok ht w (fst (post_ar_create isUuid w0 w now caller restricted blocked body id)).
Proof.
  unfold post_ar_create. repeat case_match; try apply ar_rows_ok_refl;
  (unfold ar_rows_ok; split_and!; [done | done | | | by left];
   [intros k r Hr; simpl; exists r; rewrite lookup_insert_ne by congruence;
    eauto using ar_rs_same
   |intros k r' Hn; simpl; destruct (decide (k = id)) as [->|];
    [rewrite lookup_insert_eq; naive_solver | rewrite lookup_insert_ne by done; congruence]]).
Qed.

Lemma post_ar_approve_rows ht w0 w now nowTx sess actor stepUp blocked requestId tokenId plaintext :
  ar_earlier w0 w ->
  ar_rows_ok ht w (fst (post_ar_approve ht w0 w now nowTx sess actor stepUp blocked requestId
                         tokenId plaintext)).
Proof.
  intros He. destruct (post_ar_approve _ _ _ _ _ _ _ _ _ _ _ _) as [w' res] eqn:E. simpl.
  apply post_ar_approve_cases in E as [[-> _]|(uid & tenantId & request & account & r & -> & -> &
    _ & _ & Hq & Ht & _ & _ & _ & Hdc & _ & Hap)]; [apply ar_rows_ok_refl|].
  destruct Hap. destruct (proj1 He _ _ Hq) as (r1 & Hr1 & Hi). simplify_eq.
  rewrite <- Hi in *. apply (ar_rows_ok_insert _ _ _ r); [done| |].
  - intros k tk Hk. rewrite lookup_insert_ne; congruence.
  - econstructor; eauto using jit_ttl_bound, dual_control_earlier.
Qed.

Lemma post_ar_deny_rows ht w0 w now sess actor stepUp blocked requestId :
  ar_rows_ok ht w (fst (post_ar_deny w0 w now sess actor stepUp blocked requestId)).
Proof.
  unfold post_ar_deny, ar_guards. repeat (case_match; try apply ar_rows_ok_refl).
  match goal with H : ar_transition _ _ _ _ _ _ = _ |- _ => revert H end.
  rewrite ar_transition_pinned. destruct (aw_requests w !! requestId) as [r|] eqn:Hr; [|done].
  destruct (sm_hit _ _ _ _ _ _) eqn:Hh; [|done]. intros [= <-].
  apply (ar_rows_ok_insert _ _ _ r); [done..|]. apply ar_rs_deny. by apply ar_hit_inv in Hh as [? _].
Qed.

Lemma ar_handle_rows ht isUuid e w0 w :
  ar_earlier w0 w -> ar_rows_ok ht w (ar_handle ht isUuid e w0 w).
Proof.
  intros He. destruct e; simpl.
  - apply post_ar_create_rows.
  - by apply post_ar_approve_rows.
  - apply post_ar_deny_rows.
  - unfold ar_rows_ok, sweepExpiredAccessRequests. split_and!; [done | done | | | by left];
      intros k r; simpl; rewrite map_lookup_imap.
    + intros ->. simpl. eexists. split; [done|]. destruct (_ && _) eqn:E; bools;
        eauto using ar_rs_same, ar_rs_expire.
    + intros ->. done.
Qed.

(** The invariant of the system: an approved request names its approver, who is
    neither the requester nor the creator of the requesting service account, and
    the one token that was issued for it. *)
Record ar_approved_ok (w : ar_world) (r : ar_row) : Prop := {
  aok_parts : exists uid at_ tid ttl tk,
    ar_dec r = {| ar_approvedById := Some uid; ar_approvedAt := Some at_;
                  ar_grantedTokenId := Some tid; ar_grantedTokenTtlSec := Some ttl |} /\
    dual_control w (ar_info_ r) uid /\ at_ < ar_expiresAt (ar_info_ r) /\
    aw_tokens w !! tid = Some tk /\
    st_serviceAccountId tk = ar_serviceAccountId (ar_info_ r) /\
    st_tenantId tk = ar_tenantId (ar_info_ r) /\
    st_scope tk = js_join [44] (parseSaTokenScopes (ar_requestedScope (ar_info_ r))) /\
    st_expiresAt tk = at_ + ttl * MS_PER_SECOND /\ ttl <= JIT_TOKEN_TTL_MAX }.

Definition ar_inv (w : ar_world) : Prop :=
  (forall k r, aw_requests w !! k = Some r ->
     if bool_decide (ar_status r = AR_APPROVED) then ar_approved_ok w r
     else ar_grantedTokenId (ar_dec r) = None) /\
  (forall k1 k2 r1 r2 tid, aw_requests w !! k1 = Some r1 -> aw_requests w !! k2 = Some r2 ->
     ar_grantedTokenId (ar_dec r1) = Some tid -> ar_grantedTokenId (ar_dec r2) = Some tid ->
     k1 = k2).

Lemma ar_approved_ok_mono ht w w' r : ar_rows_ok ht w w' -> ar_approved_ok w r -> ar_approved_ok w' r.
Proof.
  intros (Ha & Htk & _) [(uid & at_ & tid & ttl & tk & Hd & [H1 H2 H3] & H)]. constructor.
  exists uid, at_, tid, ttl, tk. split; [done|]. split; [|naive_solver].
  constructor; [done..|]. rewrite Ha. done.
Qed.

Lemma ar_row_step_ok ht w w' k r r' :
  ar_rows_ok ht w w' -> ar_row_step ht w w' k r r' ->
  (if bool_decide (ar_status r = AR_APPROVED) then ar_approved_ok w r
   else ar_grantedTokenId (ar_dec r) = None) ->
  if bool_decide (ar_status r' = AR_APPROVED) then ar_approved_ok w' r'
  else ar_grantedTokenId (ar_dec r') = None.
Proof.
  intros Hok Hs. destruct Hs as [|? ? Hp|Hp|uid at_ tid ttl p Hp He Ht Hdc Hf Hw].
  - case_bool_decide; [by eapply ar_approved_ok_mono | done].
  - by rewrite Hp.
  - by rewrite Hp.
  - intros _. simpl. constructor.
    exists uid, at_, tid, ttl, (granted_token ht (ar_tenantId (ar_info_ r)) p (ar_info_ r)
                                  (at_ + ttl * MS_PER_SECOND)). split_and!; try done.
    + destruct Hdc as [H1 H2 H3]. constructor; [done..|]. destruct Hok as [-> _]. done.
    + by rewrite Hw, lookup_insert_eq.
Qed.

(** A token id that a step grants was not granted before. *)
Lemma ar_granted_old ht w w' k r r' tid :
  ar_inv w -> ar_rows_ok ht w w' -> aw_requests w !! k = Some r -> ar_row_step ht w w' k r r' ->
  ar_grantedTokenId (ar_dec r') = Some tid ->
  r' = r \/ (aw_tokens w !! tid = None /\ aw_tokens w' <> aw_tokens w).
Proof.
  intros [Hi _] Hok Hr Hs. specialize (Hi _ _ Hr).
  destruct Hs as [|? ? Hp|Hp|uid at_ tid' ttl p Hp He Ht Hdc Hf Hw]; simpl.
  - by left.
  - rewrite Hp in Hi. simpl in Hi. congruence.
  - rewrite Hp in Hi. simpl in Hi. congruence.
  - intros [= <-]. right. split; [done|]. rewrite Hw. intros Heq.
    apply (f_equal (lookup tid')) in Heq. rewrite lookup_insert_eq in Heq. congruence.
Qed.

Lemma ar_inv_granted w k r tid :
  ar_inv w -> aw_requests w !! k = Some r -> ar_grantedTokenId (ar_dec r) = Some tid ->
  is_Some (aw_tokens w !! tid).
Proof.
  intros [Hi _] Hr Ht. specialize (Hi _ _ Hr). case_bool_decide; [|congruence].
  destruct Hi as [(uid & at_ & tid' & ttl & tk & Hd & _ & _ & Htk & _)].
  rewrite Hd in Ht. simplify_eq/=. eauto.
Qed.

Lemma ar_inv_step ht w w' : ar_inv w -> ar_rows_ok ht w w' -> ar_inv w'.
Proof.
  intros Hinv Hok. pose proof Hok as (_ & Htk & Hrow & Hnew & Hone).
  assert (Hback : forall k r', aw_requests w' !! k = Some r' ->
    (ar_status r' = AR_PENDING /\ ar_grantedTokenId (ar_dec r') = None) \/
    exists r, aw_requests w !! k = Some r /\ ar_row_step ht w w' k r r').
  { intros k r' Hr'. destruct (aw_requests w !! k) as [r|] eqn:E; [right|left; by eapply Hnew].
    destruct (Hrow _ _ E) as (r2 & Hr2 & Hs). simplify_eq. eauto. }
  assert (Hold : forall k r' tid, aw_requests w' !! k = Some r' ->
    ar_grantedTokenId (ar_dec r') = Some tid -> aw_requests w !! k = Some r' \/
    (aw_tokens w !! tid = None /\ aw_tokens w' <> aw_tokens w /\ aw_requests w !! k <> Some r')).
  { intros k r' tid Hr' Ht. destruct (Hback _ _ Hr') as [[_ ?]|(r & Hr & Hs)]; [congruence|].
    destruct (decide (aw_tokens w !! tid = None)) as [Hn|Hn].
    - destruct (ar_granted_old _ _ _ _ _ _ _ Hinv Hok Hr Hs Ht) as [->|[_ Hne]]; [by left|].
      right. split_and!; [done..|]. intros Hr2.
      destruct (ar_inv_granted _ _ _ _ Hinv Hr2 Ht). congruence.
    - destruct (ar_granted_old _ _ _ _ _ _ _ Hinv Hok Hr Hs Ht) as [->|[? _]]; [by left|done]. }
  split.
  - intros k r' Hr'. destruct (Hback _ _ Hr') as [[Hp Hg]|(r & Hr & Hs)]; [by rewrite Hp|].
    eapply ar_row_step_ok; [done..|]. by eapply Hinv.
  - intros k1 k2 r1 r2 tid H1 H2 Ht1 Ht2.
    destruct (Hold _ _ _ H1 Ht1) as [Ho1|(Hn1 & Hne & Ho1)],
             (Hold _ _ _ H2 Ht2) as [Ho2|(Hn2 & _ & Ho2)].
    + by eapply (proj2 Hinv).
    + destruct (ar_inv_granted _ _ _ _ Hinv Ho1 Ht1). congruence.
    + destruct (ar_inv_granted _ _ _ _ Hinv Ho2 Ht2). congruence.
    + destruct Hone as [?|[k Hk]]; [done|].
      destruct (decide (k1 = k)) as [->|], (decide (k2 = k)) as [->|]; naive_solver.
Qed.

(** ** Properties *)

(** Dual control and single issuance.  In every state that requests reach
    through any interleaving of creations, approvals, denials and expiry sweeps
    (each handler's reads may come from an earlier state than its write), an
    approved request names an approver who is not the requesting user and not
    the creator of the requesting service account, was approved before its
    deadline, and carries exactly one token, for its service account and tenant,
    limited to the allow-listed part of the requested scopes and to at most a
    day; no two requests share a token, and no other request has one. *)
Theorem ar_invariant ht isUuid w : ar_reachable ht isUuid w -> ar_inv w.
Proof.
  induction 1 as [w Hw|w w' _ IH Hs].
  - split; intros *; rewrite Hw, lookup_empty; done.
  - destruct Hs as [w0 e He]. eapply (ar_inv_step ht); [done|]. by apply ar_handle_rows.
Qed.

(** A decision is final.  Once a request has left PENDING no handler and no
    sweep changes its row again, whatever stale row the handler had read. *)
Theorem ar_decided_final ht isUuid w w' k r :
  ar_step ht isUuid w w' -> aw_requests w !! k = Some r -> ar_status r <> AR_PENDING ->
  aw_requests w' !! k = Some r.
Proof.
  intros [w0 e He] Hr Hn. destruct (ar_handle_rows ht isUuid e w0 w He) as (_ & _ & Hrow & _).
  destruct (Hrow _ _ Hr) as (r' & Hr' & Hs). by destruct Hs.
Qed.

Lemma active_tokens_insert now sa t tid tk :
  (size (active_tokens now sa (<[tid := tk]> t)) <= S (size (active_tokens now sa t)))%nat.
Proof.
  unfold active_tokens, select. rewrite map_filter_insert. case_decide.
  - rewrite map_size_insert. case_match; unfold id; lia.
  - trans (size (filter (fun kr : jsstr * sa_token =>
      (st_serviceAccountId kr.2 =s sa) && bool_decide (st_revokedAt kr.2 = None)
      && (now <? st_expiresAt kr.2) = true) t)); [|lia].
    apply map_subseteq_size, map_filter_subseteq_mono, delete_subseteq.
Qed.

(** C15: what an approval does.  When the approve handler answers with a token,
    the caller had a session with the tenant permission and a fresh step-up, is
    under dual control with respect to the requester, and the request it read is of
    the caller's tenant and names a service account that was then active; the row
    was still PENDING and unexpired when it was written, and is now APPROVED with the
    caller and the token on it.  Exactly one token is issued: it is unrevoked, of the
    caller's tenant and of the account the request names, its expiry is the tenant's
    default capped by the tenant's maximum and by a day, its scopes are a non-empty
    allow-listed subset of the request's, and the account has at most
    [MAX_SA_TOKENS_PER_ACCOUNT] active tokens after it. *)
Theorem approve_issues_bounded_token ht w0 w now nowTx sess actor stepUp blocked requestId tokenId
    plaintext w' p e ttl :
  post_ar_approve ht w0 w now nowTx sess actor stepUp blocked requestId tokenId plaintext
    = (w', Ok (ArApproved p e ttl)) ->
  exists uid tenantId request account r tk,
    sess = Some uid /\ actor = Some tenantId /\ stepUp = false /\ blocked = false /\
    aw_requests w0 !! requestId = Some request /\
    ar_tenantId (ar_info_ request) = tenantId /\
    aw_accounts w0 !! ar_serviceAccountId (ar_info_ request) = Some account /\
    sa_isActive account = true /\
    dual_control w0 (ar_info_ request) uid /\
    aw_requests w !! requestId = Some r /\ ar_status r = AR_PENDING /\
    ar_tenantId (ar_info_ r) = tenantId /\ nowTx < ar_expiresAt (ar_info_ r) /\
    aw_requests w' = <[requestId := ar_set_token tokenId ttl
      (ar_set_status AR_APPROVED (ar_set_approver uid nowTx r))]> (aw_requests w) /\
    aw_tokens w !! tokenId = None /\ aw_tokens w' = <[tokenId := tk]> (aw_tokens w) /\
    st_tenantId tk = tenantId /\ st_serviceAccountId tk = ar_serviceAccountId (ar_info_ request) /\
    st_revokedAt tk = None /\
    st_tokenHash tk = ht p /\ st_expiresAt tk = e /\ e = nowTx + ttl * MS_PER_SECOND /\
    ttl = jit_ttl (aw_tenants w0 !! tenantId) /\ ttl <= JIT_TOKEN_TTL_MAX /\
    (forall pol m, aw_tenants w0 !! tenantId = Some pol -> jit_max pol = Some m -> ttl <= m) /\
    (exists scopes, st_scope tk = js_join [44] scopes /\ scopes <> [] /\
       forall s, s ∈ scopes -> s ∈ SA_TOKEN_SCOPES /\
         s ∈ map js_trim (js_split [44] (ar_requestedScope (ar_info_ request)))) /\
    (size (active_tokens nowTx (st_serviceAccountId tk) (aw_tokens w'))
     <= MAX_SA_TOKENS_PER_ACCOUNT)%nat.
Proof.
  intros [[_ Hn]|(uid & tenantId & request & account & r & -> & -> & -> & -> & Hq & Ht & Hx & Ha &
    Hact & Hdc & Hres & Hap)]%post_ar_approve_cases; [by destruct (Hn p e ttl)|].
  injection Hres as -> -> ->. destruct Hap.
  exists uid, tenantId, request, account, r, (granted_token ht tenantId plaintext (ar_info_ request)
    (nowTx + jit_ttl (aw_tenants w0 !! tenantId) * MS_PER_SECOND)).
  subst w'. simpl. split_and!; try done.
  - apply jit_ttl_bound.
  - intros pol m Hpol Hm. rewrite Hpol. unfold jit_ttl. simpl. rewrite Hm. simpl. lia.
  - eexists. split_and!; [done..|]. intros s Hs. by apply parseSaTokenScopes_spec.
  - etrans; [apply active_tokens_insert|]. lia.
Qed.

(** Witness data: an administrator's request approved by another administrator. *)
Definition ar_demo_world : ar_world := {|
  aw_requests := ∅;
  aw_accounts := {[js "sa1" := {| sa_isActive := true; sa_createdById := js "alice";
                                  sa_tenantId := js "t1" |}]};
  aw_tokens := ∅;
  aw_tenants := {[js "t1" := {| jit_default := Some 900; jit_max := Some 600 |}]} |}.
Definition ar_demo_create : ar_event :=
  ArECreate 1000 (ArSession (js "alice") (Some (js "t1"))) false false
    (Some {| ab_serviceAccountId := js "sa1"; ab_requestedScope := [js "passwords:read"];
             ab_justification := None; ab_expiresInMinutes := None |}) (js "r1").
Definition ar_demo_approve : ar_event :=
  ArEApprove 2000 2001 (Some (js "bob")) (Some (js "t1")) false false (js "r1") (js "tok1")
    (js "sa_secret").
Definition ar_demo_run (es : list ar_event) : ar_world :=
  foldl (fun w e => ar_handle id (fun _ => true) e w w) ar_demo_world es.

Lemma ar_earlier_refl w : ar_earlier w w.
Proof. split; [eauto | done]. Qed.

Lemma ar_demo_reachable es : ar_reachable id (fun _ => true) (ar_demo_run es).
Proof.
  induction es as [|e es IH] using rev_ind; [by apply ar_reach_init|].
  unfold ar_demo_run. rewrite foldl_app. simpl. eapply ar_reach_step; [exact IH|].
  constructor. apply ar_earlier_refl.
Qed.

Lemma ar_invariant_witness :
  ar_inv (ar_demo_run [ar_demo_create; ar_demo_approve]) /\
  (ar_status <$> aw_requests (ar_demo_run [ar_demo_create; ar_demo_approve]) !! js "r1")
  = Some AR_APPROVED.
Proof.
  split; [|by vm_compute].
  apply (ar_invariant id (fun _ => true)). apply ar_demo_reachable.
Defined.

Lemma ar_decided_final_witness :
  let w := ar_demo_run [ar_demo_create; ar_demo_approve] in
  exists r, aw_requests w !! js "r1" = Some r /\
    aw_requests (ar_handle id (fun _ => true) (ArESweep 99999999 [js "r1"]) w w) !! js "r1" = Some r.
Proof.
  eexists. split; [vm_compute; reflexivity|].
  eapply (ar_decided_final id (fun _ => true) (ar_demo_run [ar_demo_create; ar_demo_approve])).
  - constructor. apply ar_earlier_refl.
  - vm_compute. reflexivity.
  - discriminate.
Defined.

Lemma approve_issues_bounded_token_witness :
  let w := ar_demo_run [ar_demo_create] in
  let w' := ar_demo_run [ar_demo_create; ar_demo_approve] in
  exists request tk, aw_requests w !! js "r1" = Some request /\
    dual_control w (ar_info_ request) (js "bob") /\
    aw_tokens w' = <[js "tok1" := tk]> (aw_tokens w) /\
    st_tenantId tk = js "t1" /\ st_serviceAccountId tk = js "sa1".
Proof.
  destruct (approve_issues_bounded_token id (ar_demo_run [ar_demo_create])
    (ar_demo_run [ar_demo_create]) 2000 2001 (Some (js "bob")) (Some (js "t1")) false false
    (js "r1") (js "tok1") (js "sa_secret") (ar_demo_run [ar_demo_create; ar_demo_approve])
    (js "sa_secret") 602001 600 ltac:(vm_compute; reflexivity))
    as (uid & t & request & account & r & tk & [= <-] & [= <-] & _ & _ & Hq & _ & _ & _ & Hdc & _ & _ & _ &
        _ & _ & _ & Htk & Ht & Hsa & _).
  exists request, tk. split; [exact Hq|]. split; [exact Hdc|]. split; [exact Htk|]. split; [exact Ht|].
  rewrite Hsa. assert (Hr : aw_requests (ar_demo_run [ar_demo_create]) !! js "r1" = Some request) by exact Hq.
  vm_compute in Hr. injection Hr as <-. reflexivity.
Defined.
