(* ===== verification/IpAccess.v ===== *)
(** * IP addresses, CIDR ranges and the client address of a request

    Models src/src/lib/auth/policy/ip-access.ts: the IPv4 and IPv6 parsers, the
    normalisation of IPv4-mapped addresses, CIDR parsing and matching on byte
    arrays, and the rightmost-untrusted extraction of the client address from
    X-Forwarded-For.  An address is a list of bytes, as in the source; the
    theorems relate it to the integer it denotes, so that matching a CIDR is
    membership in an interval. *)

From S2P Require Import Prelude JsString JsNumber.
Local Open Scope Z_scope.

Inductive ip_version := V4 | V6.
#[export] Instance ip_version_eq_dec : EqDecision ip_version.
Proof. solve_decision. Defined.

Record ParsedCidr := { ip : list Z; prefixLen : Z; version : ip_version }.

(** ** Parsers *)

(** [/^(0|[1-9]\d{0,2})$/] *)
Definition is_octet (part : jsstr) : bool :=
  match part with
  | [48] => true
  | c :: r => (49 <=? c) && (c <=? 57) && (length r <=? 2)%nat && forallb is_digit r
  | [] => false
  end.

Fixpoint parse_octets (parts : list jsstr) : option (list Z) :=
  match parts with
  | [] => Some []
  | part :: rest =>
      if negb (is_octet part) then None
      else
        let n := numeral_val 10 part in
        if 255 <? n then None
        else os ← parse_octets rest; Some (n :: os)
  end.

Definition parseIpv4 (s : jsstr) : option (list Z) :=
  let parts := js_split [46] s in
  if negb (length parts =? 4)%nat then None else parse_octets parts.

(** [/^[0-9a-fA-F]{1,4}$/] *)
Definition is_group (g : jsstr) : bool :=
  (1 <=? length g)%nat && (length g <=? 4)%nat && forallb is_hex_digit g.

Fixpoint parse_groups (groups : list jsstr) : option (list Z) :=
  match groups with
  | [] => Some []
  | g :: rest =>
      if negb (is_group g) then None
      else
        let val := numeral_val 16 g in
        bs ← parse_groups rest;
        Some (Z.land (Z.shiftr val 8) 255 :: Z.land val 255 :: bs)
  end.

Definition parseGroups (s : jsstr) : option (list Z) :=
  if (length s =? 0)%nat then Some [] else parse_groups (js_split [58] s).

(** The part of [parseIpv6] after the dotted-quad rewrite. *)
Definition parse_halves (s : jsstr) : option (list Z) :=
  let halves := js_split [58; 58] s in
  match halves with
  | [h] =>
      bytes ← parseGroups h;
      if negb (length bytes =? 16)%nat then None else Some bytes
  | [h0; h1] =>
      match parseGroups h0, parseGroups h1 with
      | Some lbytes, Some rbytes =>
          let totalBytes := (length lbytes + length rbytes)%nat in
          if (16 <=? totalBytes)%nat then None
          else Some (lbytes ++ replicate (16 - totalBytes) 0 ++ rbytes)
      | _, _ => None
      end
  | _ => None
  end.

(** One unfolding of [parseIpv6], with its recursive call as an argument. *)
Definition parseIpv6_body (rec : jsstr -> option (list Z)) (s : jsstr) : option (list Z) :=
  match js_last_index_of 58 s with
  | Some lastColon =>
      let tail := drop (S lastColon) s in
      if js_has 46 tail then
        match parseIpv4 tail with
        | Some [a; b; c; d] =>
            let hi := numeral 16 (Z.lor (Z.shiftl a 8) b) in
            let lo := numeral 16 (Z.lor (Z.shiftl c 8) d) in
            rec (take (S lastColon) s ++ hi ++ [58] ++ lo)
        | _ => None
        end
      else parse_halves s
  | None => parse_halves s
  end.

Fixpoint parseIpv6_fuel (fuel : nat) (s : jsstr) : option (list Z) :=
  match fuel with
  | O => None
  | S f => parseIpv6_body (parseIpv6_fuel f) s
  end.

(** The rewritten string has no dotted tail: two calls are enough. *)
Definition parseIpv6 (s : jsstr) : option (list Z) := parseIpv6_fuel 2 s.

Definition ipv4BytesFromMappedIpv6 (s : jsstr) : option (list Z) :=
  match parseIpv6 s with
  | Some parsed =>
      if negb (length parsed =? 16)%nat then None
      else if forallb (fun i => if (i <? 10)%nat then parsed !!! i =? 0 else parsed !!! i =? 255)
                (seq 0 12)
      then Some (take 4 (drop 12 parsed))
      else None
  | None => None
  end.

(** [/^\d{1,3}\.\d{1,3}\.\d{1,3}\.\d{1,3}$/] *)
Definition dotted_quad (s : jsstr) : bool :=
  let parts := js_split [46] s in
  (length parts =? 4)%nat
  && forallb (fun p => (1 <=? length p)%nat && (length p <=? 3)%nat && forallb is_digit p) parts.

(** [/^::ffff:(quad)$/i], with its group *)
Definition v4_mapped_match (s : jsstr) : option jsstr :=
  if (js_to_lower (take 7 s) =s js "::ffff:") && dotted_quad (drop 7 s)
  then Some (drop 7 s) else None.

Definition unwrap_brackets (s : jsstr) : jsstr :=
  if js_starts_with [91] s && js_ends_with [93] s then removelast (drop 1 s) else s.

Definition normalizeIp (s : jsstr) : jsstr :=
  let unwrapped := unwrap_brackets (js_trim s) in
  match v4_mapped_match unwrapped with
  | Some m => m
  | None =>
      match ipv4BytesFromMappedIpv6 unwrapped with
      | Some bytes => js_join [46] (map js_of_Z bytes)
      | None => unwrapped
      end
  end.

(** [Array(missing)] throws a RangeError for a negative length. *)
Inductive range_error := RangeError.

Definition rateLimitKeyFromIp (s : jsstr) : outcome range_error jsstr :=
  let normalized := normalizeIp s in
  if negb (js_has 58 normalized) then Ok normalized
  else if js_includes [58; 58] normalized then
    let sides := js_split [58; 58] normalized in
    let side i := match sides !! i with
                  | Some p => if (length p =? 0)%nat then [] else js_split [58] p
                  | None => []
                  end in
    let left := side 0%nat in
    let right := side 1%nat in
    let missing := 8 - Z.of_nat (length left) - Z.of_nat (length right) in
    if missing <? 0 then Throw RangeError
    else
      let expanded := left ++ replicate (Z.to_nat missing) (js "0000") ++ right in
      Ok (js_join [58] (take 4 expanded) ++ js "::/64")
  else Ok (js_join [58] (take 4 (js_split [58] normalized)) ++ js "::/64").

(** ** CIDR ranges *)

Definition isNetworkAddress (ipBytes : list Z) (prefixLen : Z) : bool :=
  let totalBits := Z.of_nat (length ipBytes) * 8 in
  forallb (fun bit =>
    let byteIdx := bit / 8 in
    let bitIdx := 7 - bit mod 8 in
    Z.land (default 0 (ipBytes !! Z.to_nat byteIdx)) (Z.shiftl 1 bitIdx) =? 0)
    (seqZ prefixLen (totalBits - prefixLen)).

Definition parseCidr (cidr : jsstr) : option ParsedCidr :=
  match js_split [47] cidr with
  | [p0; p1] =>
      match js_integer (js_Number p1) with
      | None => None
      | Some prefixLen =>
          if prefixLen <? 0 then None
          else
            let ipStr := normalizeIp p0 in
            match parseIpv4 ipStr with
            | Some v4 =>
                if 32 <? prefixLen then None
                else if negb (isNetworkAddress v4 prefixLen) then None
                else Some {| ip := v4; prefixLen := prefixLen; version := V4 |}
            | None =>
                match parseIpv6 p0 with
                | Some v6 =>
                    if 128 <? prefixLen then None
                    else if negb (isNetworkAddress v6 prefixLen) then None
                    else Some {| ip := v6; prefixLen := prefixLen; version := V6 |}
                | None => None
                end
            end
      end
  | _ => None
  end.

Definition matchesPrefix (ipBytes networkBytes : list Z) (prefixLen : Z) : bool :=
  let fullBytes := prefixLen / 8 in
  forallb (fun i => bool_decide (ipBytes !! Z.to_nat i = networkBytes !! Z.to_nat i))
    (seqZ 0 fullBytes)
  && let remainingBits := prefixLen mod 8 in
     if 0 <? remainingBits then
       let mask := Z.shiftl 255 (8 - remainingBits) in
       Z.land (default 0 (ipBytes !! Z.to_nat fullBytes)) mask
       =? Z.land (default 0 (networkBytes !! Z.to_nat fullBytes)) mask
     else true.

Definition isIpInParsedCidr (s : jsstr) (parsed : ParsedCidr) : bool :=
  let normalizedIp := normalizeIp s in
  let ipBytes := match version parsed with
                 | V4 => parseIpv4 normalizedIp
                 | V6 => parseIpv6 s
                 end in
  match ipBytes with
  | None => false
  | Some bytes =>
      match version parsed with
      | V4 => if negb (length bytes =? 4)%nat then false
              else matchesPrefix bytes (ip parsed) (prefixLen parsed)
      | V6 => if negb (length bytes =? 16)%nat then false
              else matchesPrefix bytes (ip parsed) (prefixLen parsed)
      end
  end.

Definition isIpInCidr (s cidr : jsstr) : bool :=
  match parseCidr cidr with
  | None => false
  | Some parsed => isIpInParsedCidr s parsed
  end.

Definition isIpAllowed (s : jsstr) (cidrs : list jsstr) : bool :=
  if (length cidrs =? 0)%nat then false else existsb (isIpInCidr s) cidrs.

Definition isValidCidr (cidr : jsstr) : bool :=
  match parseCidr cidr with Some _ => true | None => false end.

Definition TAILSCALE_IPV4_CIDR := js "100.64.0.0/10".
Definition TAILSCALE_IPV6_CIDR := js "fd7a:115c:a1e0::/48".

Definition isTailscaleIp (s : jsstr) : bool :=
  let normalized := normalizeIp s in
  isIpInCidr normalized TAILSCALE_IPV4_CIDR || isIpInCidr normalized TAILSCALE_IPV6_CIDR.

(** [/^[0-9a-fA-F:.]+$/] *)
Definition ipv6_simple (s : jsstr) : bool :=
  (1 <=? length s)%nat && forallb (fun c => is_hex_digit c || (c =? 58) || (c =? 46)) s.

Definition isValidIpAddress (s : jsstr) : bool :=
  if dotted_quad s then match parseIpv4 s with Some _ => true | None => false end
  else if ipv6_simple s then match parseIpv6 s with Some _ => true | None => false end
  else false.

(** ** Client address *)

(** The process environment and the request as the extraction sees them. *)
Record ip_env := { TRUSTED_PROXIES : option jsstr; TRUST_PROXY_HEADERS : option jsstr }.
Record ip_headers := { x_forwarded_for : option jsstr; x_real_ip : option jsstr }.

Definition DEFAULT_TRUSTED_PROXIES := js "127.0.0.1/32,::1/128".

Definition trusted_of_env (env : ip_env) : list ParsedCidr :=
  let raw := default DEFAULT_TRUSTED_PROXIES (TRUSTED_PROXIES env) in
  omap parseCidr (filter (fun s => s <> []) (map js_trim (js_split [44] raw))).

(** The module variable [trustedProxyCidrs] is the cache. *)
Definition getTrustedProxies (env : ip_env) (cache : option (list ParsedCidr))
    : list ParsedCidr * option (list ParsedCidr) :=
  match cache with
  | Some l => (l, cache)
  | None => let l := trusted_of_env env in (l, Some l)
  end.

Definition trustProxyHeadersWithoutSocket (env : ip_env) : bool :=
  bool_decide (TRUST_PROXY_HEADERS env = Some (js "true")).

Definition present (s : option jsstr) : option jsstr :=
  match s with Some (c :: r) => Some (c :: r) | _ => None end.

(** The right-to-left walk: the last non-empty entry outside every range. *)
Definition rightmost_untrusted (trusted : list ParsedCidr) (ips : list jsstr) : option jsstr :=
  List.find (fun s => negb (length s =? 0)%nat && negb (existsb (isIpInParsedCidr s) trusted))
    (rev ips).

Definition extractClientIpFromHeaders (env : ip_env) (headers : ip_headers)
    (socketIp : option jsstr) (cache : option (list ParsedCidr))
    : option jsstr * option (list ParsedCidr) :=
  let from_headers cache :=
    match present (x_forwarded_for headers) with
    | None => (normalizeIp <$> present (x_real_ip headers), cache)
    | Some xff =>
        let ips := map normalizeIp (js_split [44] xff) in
        let '(trusted, cache) := getTrustedProxies env cache in
        match rightmost_untrusted trusted ips with
        | Some s => (Some s, cache)
        | None =>
            match List.find (fun s => negb (length s =? 0)%nat) ips with
            | Some leftmost => (Some leftmost, cache)
            | None => (present socketIp, cache)
            end
        end
    end in
  match present socketIp with
  | Some sock =>
      let normalizedSocket := normalizeIp sock in
      let '(trusted, cache) := getTrustedProxies env cache in
      if negb (existsb (isIpInParsedCidr normalizedSocket) trusted)
      then (Some normalizedSocket, cache)
      else from_headers cache
  | None =>
      if negb (trustProxyHeadersWithoutSocket env) then (None, cache) else from_headers cache
  end.

(** ** Addresses as integers *)

Definition is_byte (b : Z) : Prop := 0 <= b < 256.
Abbreviation bytes_ok := (Forall is_byte).

(** The integer a big-endian byte list denotes. *)
Fixpoint addr (bs : list Z) : Z :=
  match bs with [] => 0 | b :: r => b * 2 ^ (8 * Z.of_nat (length r)) + addr r end.

(** Bit [i] of a byte list, counted from the most significant one. *)
Definition bit_at (bs : list Z) (i : Z) : bool :=
  Z.testbit (default 0 (bs !! Z.to_nat (i / 8))) (7 - i mod 8).

Lemma addr_range bs : bytes_ok bs -> 0 <= addr bs < 2 ^ (8 * Z.of_nat (length bs)).
Proof.
  unfold is_byte. induction 1 as [|b r Hb Hr IH]; [simpl; lia|]. cbn [addr length].
  replace (2 ^ (8 * Z.of_nat (S (length r)))) with (256 * 2 ^ (8 * Z.of_nat (length r))).
  - nia.
  - replace (8 * Z.of_nat (S (length r))) with (8 + 8 * Z.of_nat (length r)) by lia.
    by rewrite Z.pow_add_r by lia.
Qed.

Lemma addr_testbit bs i :
  bytes_ok bs -> 0 <= i < 8 * Z.of_nat (length bs) ->
  Z.testbit (addr bs) (8 * Z.of_nat (length bs) - 1 - i) = bit_at bs i.
Proof.
  intros Hb. revert i. induction Hb as [|b r Hb Hr IH]; intros i Hi; [simpl in Hi; lia|].
  cbn [addr length] in *. pose proof (addr_range r Hr) as Hx.
  set (l := 8 * Z.of_nat (length r)) in *. unfold bit_at.
  assert (Hp : 0 < 2 ^ l) by (apply Z.pow_pos_nonneg; lia).
  destruct (decide (i < 8)) as [Hlt|Hge].
  - replace (i / 8) with 0 by zdiv. replace (i mod 8) with i by zdiv. simpl.
    replace (8 * Z.of_nat (S (length r)) - 1 - i) with (7 - i + l) by lia.
    rewrite <- Z.div_pow2_bits by lia. f_equal.
    rewrite Z.div_add_l by lia. rewrite Z.div_small by lia. lia.
  - replace (Z.to_nat (i / 8)) with (S (Z.to_nat ((i - 8) / 8))) by zdiv.
    change ((b :: r) !! S (Z.to_nat ((i - 8) / 8))) with (r !! Z.to_nat ((i - 8) / 8)).
    replace (i mod 8) with ((i - 8) mod 8) by zdiv.
    specialize (IH (i - 8)). unfold bit_at in IH. rewrite <- IH by lia.
    replace (8 * Z.of_nat (S (length r)) - 1 - i) with (l - 1 - (i - 8)) by lia.
    rewrite <- (Z.mod_pow2_bits_low _ l) by lia. f_equal.
    rewrite Z.add_comm, Z.mod_add by lia. apply Z.mod_small. lia.
Qed.

Lemma addr_high bs n :
  bytes_ok bs -> 8 * Z.of_nat (length bs) <= n -> Z.testbit (addr bs) n = false.
Proof.
  intros Hb Hn. pose proof (addr_range bs Hb) as Hr.
  destruct (decide (addr bs = 0)) as [->|]; [apply Z.bits_0|].
  apply Z.bits_above_log2; [lia|]. apply Z.log2_lt_pow2; [lia|].
  eapply Z.lt_le_trans; [apply Hr|]. apply Z.pow_le_mono_r; lia.
Qed.

Lemma land_bit b k : 0 <= k -> (Z.land b (Z.shiftl 1 k) =? 0) = negb (Z.testbit b k).
Proof.
  intros Hk. rewrite Z.shiftl_1_l. destruct (Z.testbit b k) eqn:E; simpl.
  - apply Z.eqb_neq. intros H. apply (f_equal (fun z => Z.testbit z k)) in H.
    rewrite Z.land_spec, Z.pow2_bits_true, E, Z.bits_0 in H by lia. done.
  - apply Z.eqb_eq, Z.bits_inj'. intros n Hn. rewrite Z.land_spec, Z.bits_0.
    destruct (decide (n = k)) as [->|]; [by rewrite E|].
    rewrite Z.pow2_bits_false by lia. apply andb_false_r.
Qed.

Lemma forallb_seqZ (f : Z -> bool) a n :
  forallb f (seqZ a n) = true <-> forall i, a <= i < a + n -> f i = true.
Proof.
  rewrite forallb_forall. setoid_rewrite <- list_elem_of_In. setoid_rewrite elem_of_seqZ. done.
Qed.

Lemma isNetworkAddress_bits bs p :
  0 <= p -> isNetworkAddress bs p = true <->
  forall i, p <= i < 8 * Z.of_nat (length bs) -> bit_at bs i = false.
Proof.
  intros Hp. unfold isNetworkAddress. rewrite forallb_seqZ. split; intros H i Hi.
  - specialize (H i ltac:(lia)). cbv beta zeta in H. rewrite land_bit in H by zdiv. by bools.
  - cbv beta zeta. rewrite land_bit by zdiv. apply negb_true_iff, H. lia.
Qed.

(** Two numbers agree above bit [h] iff their quotients by [2 ^ h] are equal. *)
Lemma div_pow2_bits_eq x y h :
  0 <= h -> x / 2 ^ h = y / 2 ^ h <-> forall n, h <= n -> Z.testbit x n = Z.testbit y n.
Proof.
  intros Hh. split.
  - intros H n Hn. replace n with (n - h + h) by lia. rewrite <- !Z.div_pow2_bits by lia.
    by rewrite H.
  - intros H. apply Z.bits_inj'. intros n Hn. rewrite !Z.div_pow2_bits by lia. apply H. lia.
Qed.

Lemma mod_pow2_bits_zero x h :
  0 <= h -> x mod 2 ^ h = 0 <-> forall n, 0 <= n < h -> Z.testbit x n = false.
Proof.
  intros Hh. split.
  - intros H n Hn. rewrite <- (Z.mod_pow2_bits_low x h) by lia. rewrite H. apply Z.bits_0.
  - intros H. apply Z.bits_inj'. intros n Hn. rewrite Z.bits_0.
    destruct (decide (n < h)); [rewrite Z.mod_pow2_bits_low by lia; apply H; lia|].
    apply Z.mod_pow2_bits_high. lia.
Qed.

(** Byte and mask comparisons are comparisons of bits. *)
Lemma byte_bits_above b n : is_byte b -> 8 <= n -> Z.testbit b n = false.
Proof.
  unfold is_byte. intros Hb Hn. destruct (decide (b = 0)) as [->|]; [apply Z.bits_0|].
  apply Z.bits_above_log2; [lia|]. apply Z.log2_lt_pow2; [lia|].
  eapply Z.lt_le_trans; [apply Hb|]. change 256 with (2 ^ 8). apply Z.pow_le_mono_r; lia.
Qed.

Lemma byte_eq_bits a b :
  is_byte a -> is_byte b -> a = b <-> forall k, 0 <= k < 8 -> Z.testbit a k = Z.testbit b k.
Proof.
  intros Ha Hb. split; [by intros ->|]. intros H. apply Z.bits_inj'. intros n Hn.
  destruct (decide (n < 8)); [apply H; lia|]. rewrite !byte_bits_above by (done || lia). done.
Qed.

Lemma mask_bits a b r :
  is_byte a -> is_byte b -> 0 < r < 8 ->
  Z.land a (Z.shiftl 255 (8 - r)) = Z.land b (Z.shiftl 255 (8 - r)) <->
  forall k, 8 - r <= k < 8 -> Z.testbit a k = Z.testbit b k.
Proof.
  intros Ha Hb Hr. change 255 with (Z.ones 8). split.
  - intros H k Hk. apply (f_equal (fun z => Z.testbit z k)) in H.
    rewrite !Z.land_spec, Z.shiftl_spec, Z.ones_spec_low, !andb_true_r in H by lia. done.
  - intros H. apply Z.bits_inj'. intros n Hn. rewrite !Z.land_spec, Z.shiftl_spec by lia.
    destruct (decide (n < 8 - r)).
    { rewrite (Z.testbit_neg_r _ (n - (8 - r))) by lia. by rewrite !andb_false_r. }
    destruct (decide (n < 8)); [by rewrite H by lia|].
    by rewrite !(byte_bits_above _ n) by (done || lia).
Qed.

Lemma lookup_byte bs n b : bytes_ok bs -> bs !! n = Some b -> is_byte b.
Proof. intros H Hn. by eapply Forall_lookup_1 in H. Qed.

Lemma matchesPrefix_bits xs ys p :
  bytes_ok xs -> bytes_ok ys -> length xs = length ys -> 0 <= p <= 8 * Z.of_nat (length xs) ->
  matchesPrefix xs ys p = true <-> forall i, 0 <= i < p -> bit_at xs i = bit_at ys i.
Proof.
  intros Hx Hy Hlen Hp. unfold matchesPrefix. rewrite andb_true_iff, forallb_seqZ.
  assert (Hget : forall i, 0 <= i < Z.of_nat (length xs) -> exists a b,
    xs !! Z.to_nat i = Some a /\ ys !! Z.to_nat i = Some b /\ is_byte a /\ is_byte b).
  { intros i Hi. destruct (lookup_lt_is_Some_2 xs (Z.to_nat i)) as [a Ha]; [lia|].
    destruct (lookup_lt_is_Some_2 ys (Z.to_nat i)) as [b Hb]; [lia|].
    exists a, b. split_and!; [done | done | eapply (lookup_byte xs) | eapply (lookup_byte ys)];
      done. }
  assert (Hfull : (forall i, 0 <= i < 0 + p / 8 ->
      bool_decide (xs !! Z.to_nat i = ys !! Z.to_nat i) = true) <->
    forall i, 0 <= i < 8 * (p / 8) -> bit_at xs i = bit_at ys i).
  { split.
    - intros H i Hi. specialize (H (i / 8) ltac:(zdiv)). bools. unfold bit_at. by rewrite H.
    - intros H i Hi. destruct (Hget i ltac:(zdiv)) as (a & b & Ha & Hb & Oa & Ob).
      apply bool_decide_eq_true. rewrite Ha, Hb. f_equal. apply byte_eq_bits; [done..|].
      intros k Hk. specialize (H (8 * i + (7 - k)) ltac:(zdiv)). unfold bit_at in H.
      replace ((8 * i + (7 - k)) / 8) with i in H by zdiv.
      replace (7 - (8 * i + (7 - k)) mod 8) with k in H by zdiv. by rewrite Ha, Hb in H. }
  rewrite Hfull. clear Hfull. destruct (0 <? p mod 8) eqn:Er; bools.
  - destruct (Hget (p / 8) ltac:(zdiv)) as (a & b & Ha & Hb & Oa & Ob).
    rewrite Ha, Hb. cbn [default from_option id]. rewrite Z.eqb_eq, mask_bits by (done || zdiv).
    assert (Hbit : forall k, 0 <= k < 8 ->
      bit_at xs (8 * (p / 8) + (7 - k)) = Z.testbit a k /\
      bit_at ys (8 * (p / 8) + (7 - k)) = Z.testbit b k).
    { intros k Hk. unfold bit_at.
      replace ((8 * (p / 8) + (7 - k)) / 8) with (p / 8) by zdiv.
      replace (7 - (8 * (p / 8) + (7 - k)) mod 8) with k by zdiv. by rewrite Ha, Hb. }
    split.
    + intros [H1 H2] i Hi. destruct (decide (i < 8 * (p / 8))); [apply H1; lia|].
      replace i with (8 * (p / 8) + (7 - (7 - i mod 8))) by zdiv.
      destruct (Hbit (7 - i mod 8) ltac:(zdiv)) as [-> ->]. apply H2. zdiv.
    + intros H. split; [intros i Hi; apply H; zdiv|]. intros k Hk.
      destruct (Hbit k ltac:(zdiv)) as [<- <-]. apply H. zdiv.
  - split; [intros [H _] | intros H; split; [|done]]; intros i Hi; apply H; zdiv.
Qed.

(** A CIDR range is an interval of addresses. *)
Lemma prefix_interval xs ys p :
  bytes_ok xs -> bytes_ok ys -> length xs = length ys -> 0 <= p <= 8 * Z.of_nat (length xs) ->
  isNetworkAddress ys p = true ->
  matchesPrefix xs ys p = true <->
  addr ys <= addr xs < addr ys + 2 ^ (8 * Z.of_nat (length xs) - p).
Proof.
  intros Hx Hy Hlen Hp Hnet. set (h := 8 * Z.of_nat (length xs) - p).
  assert (Hm : addr ys mod 2 ^ h = 0).
  { apply mod_pow2_bits_zero; [lia|]. intros n Hn.
    pose proof (addr_testbit ys (8 * Z.of_nat (length ys) - 1 - n) Hy ltac:(lia)) as Ht.
    replace (8 * Z.of_nat (length ys) - 1 - (8 * Z.of_nat (length ys) - 1 - n)) with n in Ht by lia.
    rewrite Ht. apply (proj1 (isNetworkAddress_bits ys p ltac:(lia)) Hnet). lia. }
  rewrite matchesPrefix_bits by done.
  trans (addr xs / 2 ^ h = addr ys / 2 ^ h).
  - rewrite div_pow2_bits_eq by lia. split.
    + intros H n Hn. destruct (decide (n < 8 * Z.of_nat (length xs))).
      * specialize (H (8 * Z.of_nat (length xs) - 1 - n) ltac:(lia)).
        rewrite <- !addr_testbit in H by (done || lia). rewrite <- Hlen in H.
        replace (8 * Z.of_nat (length xs) - 1 - (8 * Z.of_nat (length xs) - 1 - n)) with n in H by lia.
        done.
      * rewrite !addr_high by (done || lia). done.
    + intros H i Hi. rewrite <- !addr_testbit by (done || lia). rewrite <- Hlen. apply H. lia.
  - assert (Hpos : 0 < 2 ^ h) by (apply Z.pow_pos_nonneg; lia). set (d := 2 ^ h) in *.
    pose proof (Z.div_mod (addr ys) d ltac:(lia)). pose proof (Z.div_mod (addr xs) d ltac:(lia)).
    pose proof (Z.mod_pos_bound (addr xs) d ltac:(lia)). split; [intros He; nia|].
    intros Hi. symmetry. apply (Z.div_unique_pos _ _ _ (addr xs - addr ys)); nia.
Qed.

(** ** The parsers *)

Lemma octet_print n : 0 <= n < 256 ->
  is_octet (js_of_Z n) = true /\ numeral_val 10 (js_of_Z n) = n /\ (46 ∉ js_of_Z n) /\
  js_of_Z n <> [].
Proof.
  intros Hn.
  assert (H : Forall (fun n => is_octet (js_of_Z n) = true /\ numeral_val 10 (js_of_Z n) = n /\
    (46 ∉ js_of_Z n) /\ js_of_Z n <> []) (seqZ 0 256)).
  { apply (bool_decide_unpack _). vm_compute. exact I. }
  rewrite Forall_forall in H. apply H, elem_of_seqZ. lia.
Qed.

Definition octet_reads (p : jsstr) : bool :=
  bool_decide (js_of_Z (numeral_val 10 p) = p) && (0 <=? numeral_val 10 p).

Lemma octet_reads_all :
  forallb (fun c => octet_reads [c] &&
    forallb (fun d => octet_reads [c; d] &&
      forallb (fun e => octet_reads [c; d; e]) (seqZ 48 10)) (seqZ 48 10)) (seqZ 49 9) = true.
Proof. vm_compute. reflexivity. Qed.

Lemma is_octet_cases p :
  is_octet p = true ->
  p = [48] \/ exists c r, p = c :: r /\ 49 <= c < 58 /\ (length r <= 2)%nat /\
    Forall (fun d => 48 <= d < 58) r.
Proof.
  destruct p as [|c r]; [done|]. intros H.
  destruct (decide (c :: r = [48])) as [->|Hn]; [by left|right]. exists c, r.
  assert (Hc : (49 <=? c) && (c <=? 57) && (length r <=? 2)%nat && forallb is_digit r = true).
  { simpl in H. destruct c as [|q|q]; [done| |done].
    repeat (destruct q as [q|q|]; try done); destruct r; done. }
  apply andb_true_iff in Hc as [Hc Hr]. apply andb_true_iff in Hc as [Hc Hl%Nat.leb_le]. bools.
  split_and!; [done|lia..|]. apply Forall_forall. intros d Hd%list_elem_of_In.
  rewrite forallb_forall in Hr. specialize (Hr _ Hd). unfold is_digit in Hr. bools. lia.
Qed.

Lemma octet_read p : is_octet p = true -> js_of_Z (numeral_val 10 p) = p /\ 0 <= numeral_val 10 p.
Proof.
  intros H. assert (Hr : octet_reads p = true); [|unfold octet_reads in Hr; by bools].
  destruct (is_octet_cases p H) as [->|(c & r & -> & Hc & Hl & Hr)]; [done|].
  pose proof octet_reads_all as Hall. rewrite forallb_seqZ in Hall.
  specialize (Hall c ltac:(lia)). cbv beta in Hall. bools.
  destruct r as [|d r]; [done|]. apply Forall_cons in Hr as [Hd Hr].
  match goal with Hf : forallb _ _ = true |- _ =>
    rewrite forallb_seqZ in Hf; specialize (Hf d ltac:(lia)); cbv beta in Hf end. bools.
  destruct r as [|e r]; [done|]. apply Forall_cons in Hr as [He Hr].
  match goal with Hf : forallb _ _ = true |- _ =>
    rewrite forallb_seqZ in Hf; specialize (Hf e ltac:(lia)); cbv beta in Hf end.
  destruct r; [done|simpl in Hl; lia].
Qed.

Lemma parse_octets_spec parts bs :
  parse_octets parts = Some bs <-> bytes_ok bs /\ parts = map js_of_Z bs.
Proof.
  revert bs. induction parts as [|p parts IH]; intros bs; simpl.
  { split; [intros [= <-]; done|]. intros [_ H]. by destruct bs. }
  destruct (is_octet p) eqn:Ho; simpl.
  2: { split; [done|]. intros [Hb Heq]. destruct bs as [|b bs]; simplify_eq/=.
       apply Forall_cons in Hb as [Hb _]. destruct (octet_print b Hb). congruence. }
  destruct (octet_read p Ho) as [Hp Hnn]. split.
  - destruct (255 <? numeral_val 10 p) eqn:E; [done|]. bools.
    destruct (parse_octets parts) as [os|] eqn:Hos; simpl; [|done]. intros [= <-].
    destruct (proj1 (IH os)) as [Hb ->]; [done|]. split; [|by rewrite <- Hp at 1].
    constructor; [unfold is_byte; lia|done].
  - intros [Hb Heq]. destruct bs as [|b bs]; simplify_eq/=. apply Forall_cons in Hb as [Hb Hbs].
    destruct (octet_print b Hb) as (_ & -> & _). rewrite (proj2 (Z.ltb_ge 255 b)) by (unfold is_byte in Hb; lia).
    rewrite (proj2 (IH bs)); done.
Qed.

Definition dotted (bs : list Z) : jsstr := js_join [46] (map js_of_Z bs).

Lemma dotted_split bs : bytes_ok bs -> bs <> [] -> js_split [46] (dotted bs) = map js_of_Z bs.
Proof.
  intros Hb Hne. apply js_split_join; [by destruct bs|].
  apply Forall_map. eapply Forall_impl; [exact Hb|]. intros b H. apply (octet_print b H).
Qed.

(** The IPv4 parser accepts exactly the canonical dotted quads. *)
Lemma parseIpv4_canonical s bs :
  parseIpv4 s = Some bs <-> length bs = 4%nat /\ bytes_ok bs /\ s = dotted bs.
Proof.
  unfold parseIpv4. split.
  - destruct (length (js_split [46%Z] s) =? 4)%nat eqn:E; simpl; [|done]. apply Nat.eqb_eq in E.
    rewrite parse_octets_spec. intros [Hb Hs]. split_and!; [|done|].
    + by rewrite Hs, length_map in E.
    + unfold dotted. by rewrite <- Hs, js_join_split.
  - intros (Hl & Hb & ->). rewrite dotted_split, length_map, Hl by (done || by intros ->).
    simpl. by apply parse_octets_spec.
Qed.

(** *** IPv6 *)

Lemma parse_groups_spec gs bs :
  parse_groups gs = Some bs ->
  length bs = (2 * length gs)%nat /\ bytes_ok bs /\ Forall (fun g => is_group g = true) gs.
Proof.
  revert bs. induction gs as [|g gs IH]; intros bs; simpl; [by intros [= <-]|].
  destruct (is_group g) eqn:Hg; simpl; [|done].
  destruct (parse_groups gs) as [cs|]; simpl; [|done]. intros [= <-].
  destruct (IH cs) as (Hl & Hb & Hf); [done|]. simpl. split_and!; [lia| |by constructor].
  assert (Hland : forall z, is_byte (Z.land z 255)).
  { intros z. unfold is_byte. change 255 with (Z.ones 8). rewrite Z.land_ones by lia.
    apply Z.mod_pos_bound. lia. }
  constructor; [apply Hland|]. constructor; [apply Hland|done].
Qed.

Lemma parseGroups_spec h bs :
  parseGroups h = Some bs ->
  Nat.Even (length bs) /\ bytes_ok bs /\
  Forall (fun c => is_hex_digit c = true \/ c = 58) h.
Proof.
  unfold parseGroups. destruct (length h =? 0)%nat eqn:E.
  { intros [= <-]. apply Nat.eqb_eq, nil_length_inv in E as ->. split_and!; [by exists 0%nat|done..]. }
  intros (Hl & Hb & Hf)%parse_groups_spec. split_and!; [by eexists|done|].
  rewrite <- (js_join_split [58] h) by done. clear -Hf.
  induction Hf as [|g gs Hg Hgs IH]; [done|].
  assert (Hc : Forall (fun c => is_hex_digit c = true \/ c = 58) g).
  { unfold is_group in Hg. bools. match goal with H : forallb _ _ = true |- _ =>
      rewrite forallb_forall in H; apply Forall_forall; intros c Hc%list_elem_of_In; left; auto end. }
  destruct gs; [done|]. rewrite js_join_cons by done. repeat apply Forall_app_2; auto.
Qed.

Lemma parse_halves_spec s bs :
  parse_halves s = Some bs ->
  length bs = 16%nat /\ bytes_ok bs /\ Forall (fun c => is_hex_digit c = true \/ c = 58) s.
Proof.
  unfold parse_halves. intros H. rewrite <- (js_join_split [58; 58] s) by done.
  destruct (js_split [58; 58] s) as [|h0 [|h1 [|]]]; [done| | |done].
  - destruct (parseGroups h0) as [cs|] eqn:E; simpl in H; [|done].
    apply parseGroups_spec in E as (_ & Hb & Hc).
    destruct (length cs =? 16)%nat eqn:El; simplify_eq/=. apply Nat.eqb_eq in El. done.
  - destruct (parseGroups h0) as [ls|] eqn:E0; [|done].
    destruct (parseGroups h1) as [rs|] eqn:E1; [|done].
    apply parseGroups_spec in E0 as (_ & Hb0 & Hc0), E1 as (_ & Hb1 & Hc1).
    destruct (Nat.leb_spec 16 (length ls + length rs)) as [|El]; simplify_eq. split_and!.
    + rewrite !length_app, length_replicate. lia.
    + repeat apply Forall_app_2; [done| |done]. apply Forall_replicate. unfold is_byte. lia.
    + simpl. apply Forall_app_2; [done|]. constructor; [by right|]. constructor; [by right|done].
Qed.

Lemma js_last_index_app c p t :
  c ∉ t -> js_last_index_of c (p ++ c :: t) = Some (length p).
Proof.
  intros Ht. induction p as [|d p IH]; simpl; [|by rewrite IH].
  assert (Hn : js_last_index_of c t = None).
  { clear -Ht. induction t as [|d t IH]; simpl; [done|]. rewrite IH by set_solver.
    destruct (Z.eqb_spec d c); [set_solver|done]. }
  by rewrite Hn, Z.eqb_refl.
Qed.

Lemma js_last_index_inv c s i :
  js_last_index_of c s = Some i ->
  s = take i s ++ c :: drop (S i) s /\ (c ∉ drop (S i) s) /\ length (take i s) = i.
Proof.
  revert i. induction s as [|d s IH]; intros i; simpl; [done|].
  destruct (js_last_index_of c s) as [j|] eqn:E.
  - intros [= <-]. destruct (IH j eq_refl) as (H1 & H2 & H3). simpl.
    split_and!; [by rewrite H1 at 1|done|by rewrite H3].
  - destruct (Z.eqb_spec d c) as [->|]; [|done]. intros [= <-]. simpl. rewrite drop_0.
    split_and!; [done| |done]. clear -E. induction s as [|e s IH]; [set_solver|]. simpl in E.
    destruct (js_last_index_of c s); [done|]. destruct (Z.eqb_spec e c); [done|].
    apply not_elem_of_cons. auto.
Qed.

Lemma js_last_index_None c s : js_last_index_of c s = None <-> c ∉ s.
Proof.
  split; intros H.
  - intros Hin. apply list_elem_of_split in Hin as (p & t & ->).
    revert H. induction p as [|d p IH]; simpl.
    + destruct (js_last_index_of c t); by rewrite ?Z.eqb_refl.
    + destruct (js_last_index_of c (p ++ c :: t)); [done|]. by destruct IH.
  - destruct (js_last_index_of c s) as [i|] eqn:E; [|done].
    apply js_last_index_inv in E as (Hs & _). destruct H. rewrite Hs. apply elem_of_app. right.
    apply list_elem_of_here.
Qed.

Lemma numeral_hex_units n : 0 <= n -> Forall (fun c => is_hex_digit c = true) (numeral 16 n).
Proof.
  intros Hn. destruct (numeral_spec 16 n) as (_ & _ & Hall); [lia..|].
  eapply Forall_impl; [exact Hall|]. intros c (d & Hd & ->). by apply digit_unit_hex.
Qed.

Lemma hex_not_sep c : is_hex_digit c = true -> c <> 58 /\ c <> 46.
Proof. unfold is_hex_digit, is_digit. intros H. split; intros ->; done. Qed.

Lemma numeral_hex_not_sep n : 0 <= n -> (58 ∉ numeral 16 n) /\ (46 ∉ numeral 16 n).
Proof.
  intros Hn. pose proof (numeral_hex_units n Hn) as H. rewrite Forall_forall in H.
  split; intros Hin; by destruct (hex_not_sep _ (H _ Hin)).
Qed.

(** Without a dotted tail the recursive call is not reached. *)
Lemma parseIpv6_body_plain rec p t :
  58 ∉ t -> 46 ∉ t -> parseIpv6_body rec (p ++ 58 :: t) = parse_halves (p ++ 58 :: t).
Proof.
  intros Hc Hd. unfold parseIpv6_body. rewrite js_last_index_app by done.
  replace (drop (S (length p)) (p ++ 58 :: t)) with t.
  - by rewrite (proj2 (js_has_false 46 t)).
  - change (58 :: t) with ([58] ++ t). rewrite app_assoc, drop_app_length'; [done|].
    rewrite length_app. simpl. lia.
Qed.

(** The string that replaces a dotted tail. *)
Definition hex_tail (a b c d : Z) : jsstr :=
  numeral 16 (Z.lor (Z.shiftl a 8) b) ++ [58] ++ numeral 16 (Z.lor (Z.shiftl c 8) d).

Lemma hex_pair_nonneg a b : is_byte a -> is_byte b -> 0 <= Z.lor (Z.shiftl a 8) b.
Proof.
  unfold is_byte. intros. apply Z.lor_nonneg. split; [apply Z.shiftl_nonneg; lia|lia].
Qed.

Lemma parseIpv6_hex_tail rec p a b c d :
  bytes_ok [a; b; c; d] ->
  parseIpv6_body rec (p ++ hex_tail a b c d) = parse_halves (p ++ hex_tail a b c d).
Proof.
  intros Hb. rewrite !Forall_cons in Hb. destruct Hb as (Ha & Hb & Hc & Hd & _).
  unfold hex_tail. rewrite app_assoc. simpl.
  destruct (numeral_hex_not_sep (Z.lor (Z.shiftl c 8) d)) as [H1 H2];
    [by apply hex_pair_nonneg|]. by apply parseIpv6_body_plain.
Qed.

(** The bound on the recursion is enough: [parseIpv6] satisfies the source's
    recursive equation. *)
Lemma parseIpv6_unfold s : parseIpv6 s = parseIpv6_body parseIpv6 s.
Proof.
  change (parseIpv6_body (parseIpv6_fuel 1) s = parseIpv6_body parseIpv6 s).
  unfold parseIpv6_body. destruct (js_last_index_of 58 s) as [i|]; [|done].
  destruct (js_has 46 (drop (S i) s)); [|done].
  destruct (parseIpv4 (drop (S i) s)) as [bs|] eqn:E; [|done].
  apply parseIpv4_canonical in E as (Hl & Hb & _).
  destruct bs as [|a [|b [|c [|d [|]]]]]; try done.
  change (numeral 16 (Z.lor (Z.shiftl a 8) b) ++ [58] ++ numeral 16 (Z.lor (Z.shiftl c 8) d))
    with (hex_tail a b c d).
  unfold parseIpv6. cbn [parseIpv6_fuel]. by rewrite !parseIpv6_hex_tail.
Qed.

Lemma parseIpv6_plain s : 46 ∉ s -> parseIpv6 s = parse_halves s.
Proof.
  intros Hs. rewrite parseIpv6_unfold. unfold parseIpv6_body.
  destruct (js_last_index_of 58 s) as [i|] eqn:E; [|done].
  rewrite (proj2 (js_has_false 46 (drop (S i) s))); [done|].
  intros Hin. apply Hs. rewrite <- (take_drop (S i) s). set_solver.
Qed.

Lemma js_of_byte_digits b : is_byte b -> Forall (fun c => is_digit c = true) (js_of_Z b).
Proof.
  unfold is_byte, js_of_Z. intros Hb. rewrite (proj2 (Z.ltb_ge b 0)) by lia.
  apply numeral_decimal. lia.
Qed.

Lemma dotted_units bs :
  bytes_ok bs -> Forall (fun c => is_digit c = true \/ c = 46) (dotted bs).
Proof.
  unfold dotted. induction 1 as [|b bs Hb Hbs IH]; [done|].
  assert (Hd : Forall (fun c => is_digit c = true \/ c = 46) (js_of_Z b)).
  { eapply Forall_impl; [by apply js_of_byte_digits|]. auto. }
  destruct bs; [done|]. cbn [map]. rewrite js_join_cons by done.
  repeat apply Forall_app_2; auto.
Qed.

Lemma dotted_no_colon bs : bytes_ok bs -> 58 ∉ dotted bs.
Proof.
  intros Hb Hin. pose proof (dotted_units bs Hb) as H. rewrite Forall_forall in H.
  destruct (H _ Hin); done.
Qed.

Lemma dotted_has_dot bs : (1 < length bs)%nat -> js_has 46 (dotted bs) = true.
Proof.
  intros Hl. apply js_has_spec. destruct bs as [|a [|b bs]]; simpl in Hl; [lia..|].
  unfold dotted. cbn [map]. rewrite js_join_cons by done. set_solver.
Qed.

(** A dotted tail denotes its two hexadecimal groups, under any prefix. *)
Lemma parseIpv6_dotted_tail p a b c d :
  bytes_ok [a; b; c; d] ->
  parseIpv6 (p ++ 58 :: dotted [a; b; c; d]) = parse_halves (p ++ 58 :: hex_tail a b c d).
Proof.
  intros Hb. rewrite parseIpv6_unfold. unfold parseIpv6_body.
  rewrite js_last_index_app by (by apply dotted_no_colon).
  assert (Hdrop : forall t, drop (S (length p)) (p ++ 58 :: t) = t).
  { intros t. change (58 :: t) with ([58] ++ t). rewrite app_assoc, drop_app_length'; [done|].
    rewrite length_app. simpl. lia. }
  assert (Htake : forall t, take (S (length p)) (p ++ 58 :: t) = p ++ [58]).
  { intros t. change (58 :: t) with ([58] ++ t). rewrite app_assoc, take_app_length'; [done|].
    rewrite length_app. simpl. lia. }
  rewrite Hdrop, Htake, dotted_has_dot by (simpl; lia).
  rewrite (proj2 (parseIpv4_canonical _ [a; b; c; d])) by done.
  change (58 :: hex_tail a b c d) with ([58] ++ hex_tail a b c d).
  rewrite (app_assoc p [58] (hex_tail a b c d)).
  by rewrite <- (parseIpv6_hex_tail (parseIpv6_fuel 1) (p ++ [58]) a b c d).
Qed.

(** What the IPv6 parser returns, and the units it accepts. *)
Lemma parseIpv6_spec s bs :
  parseIpv6 s = Some bs ->
  length bs = 16%nat /\ bytes_ok bs /\
  Forall (fun c => is_hex_digit c = true \/ c = 58 \/ c = 46) s.
Proof.
  assert (Hw : forall t, Forall (fun c => is_hex_digit c = true \/ c = 58) t ->
    Forall (fun c => is_hex_digit c = true \/ c = 58 \/ c = 46) t).
  { intros t Ht. eapply Forall_impl; [exact Ht|]. intros x [?|?]; auto. }
  rewrite parseIpv6_unfold. unfold parseIpv6_body.
  destruct (js_last_index_of 58 s) as [i|] eqn:Ei;
    [|intros (? & ? & ?)%parse_halves_spec; auto].
  destruct (js_has 46 (drop (S i) s)); [|intros (? & ? & ?)%parse_halves_spec; auto].
  destruct (parseIpv4 (drop (S i) s)) as [v4|] eqn:E4; [|done].
  apply parseIpv4_canonical in E4 as (_ & Hb & Ht).
  destruct v4 as [|a [|b [|c [|d [|]]]]]; try done.
  change (numeral 16 (Z.lor (Z.shiftl a 8) b) ++ [58] ++ numeral 16 (Z.lor (Z.shiftl c 8) d))
    with (hex_tail a b c d).
  unfold parseIpv6. cbn [parseIpv6_fuel]. rewrite parseIpv6_hex_tail by done.
  intros (Hl & Hbs & Hu)%parse_halves_spec. split_and!; [done..|].
  apply Forall_app in Hu as [Hu _]. rewrite <- (take_drop (S i) s). apply Forall_app_2; [auto|].
  rewrite Ht. eapply Forall_impl; [by apply dotted_units|].
  intros x [Hx| ->]; [left|auto]. unfold is_hex_digit. by rewrite Hx.
Qed.

(** *** Splitting at the double colon *)

Lemma js_split_go_absent sep s cur :
  js_includes sep s = false -> js_split_go sep s cur 0 = [rev cur ++ s].
Proof.
  revert cur. induction s as [|c s IH]; intros cur H; cbn [js_split_go].
  { by rewrite app_nil_r. }
  cbn [js_includes] in H. apply orb_false_iff in H as [H1 H2]. rewrite H1, IH by done.
  cbn [rev]. by rewrite <- app_assoc.
Qed.

Lemma js_split_absent sep s : js_includes sep s = false -> js_split sep s = [s].
Proof. apply js_split_go_absent. Qed.

Lemma js_split_go_double p s cur :
  js_includes [58; 58] (p ++ [58]) = false ->
  js_split_go [58; 58] (p ++ 58 :: 58 :: s) cur 0 = (rev cur ++ p) :: js_split [58; 58] s.
Proof.
  revert cur. induction p as [|c p IH]; intros cur H.
  { cbn [app js_split_go]. simpl. by rewrite app_nil_r. }
  cbn [app js_split_go]. cbn [app js_includes] in H. apply orb_false_iff in H as [H1 H2].
  replace (js_starts_with [58; 58] (c :: p ++ 58 :: 58 :: s)) with false.
  - rewrite IH by done. cbn [rev]. by rewrite <- app_assoc.
  - symmetry. destruct p as [|d p]; [|done]. simpl in *. destruct (58 =? c); done.
Qed.

Lemma includes_skip g t :
  58 ∉ g -> js_includes [58; 58] (g ++ t) = js_includes [58; 58] t.
Proof.
  induction g as [|c g IH]; intros Hg; [done|]. cbn [app js_includes js_starts_with].
  apply not_elem_of_cons in Hg as [Hc Hg]. rewrite (proj2 (Z.eqb_neq 58 c)) by done.
  simpl. by apply IH.
Qed.

Definition group_ok (g : jsstr) : Prop := g <> [] /\ (58 ∉ g).

(** Colon-separated non-empty groups have no double colon. *)
Lemma groups_no_double gs t :
  Forall group_ok gs -> js_includes [58; 58] t = false ->
  js_includes [58; 58] (js_join [58] gs ++ t) = false.
Proof.
  intros Hg Ht. induction Hg as [|g gs [Hne Hc] Hgs IH]; [done|].
  destruct gs as [|g' gs]; [by rewrite includes_skip|].
  rewrite js_join_cons by done. rewrite <- !app_assoc, includes_skip by done.
  cbn [app js_includes]. rewrite IH, orb_false_r.
  apply Forall_cons in Hgs as [[Hne' Hc'] _]. destruct g' as [|c g']; [done|].
  apply not_elem_of_cons in Hc' as [Hc' _].
  assert (Hneq : (58 =? c) = false) by by apply Z.eqb_neq.
  destruct gs; [|rewrite js_join_cons by done]; cbn [js_join app js_starts_with];
    by rewrite Hneq.
Qed.

Lemma split_plain_groups gs :
  Forall group_ok gs -> js_split [58; 58] (js_join [58] gs) = [js_join [58] gs].
Proof.
  intros Hg. apply js_split_absent. rewrite <- (app_nil_r (js_join [58] gs)).
  by apply groups_no_double.
Qed.

Lemma split_compressed gs hs :
  Forall group_ok gs -> Forall group_ok hs ->
  js_split [58; 58] (js_join [58] gs ++ [58; 58] ++ js_join [58] hs)
  = [js_join [58] gs; js_join [58] hs].
Proof.
  intros Hg Hh. unfold js_split at 1. cbn [app]. rewrite js_split_go_double.
  - by rewrite split_plain_groups.
  - by apply groups_no_double.
Qed.

(** 16-bit groups, their bytes and their spelling. *)
Definition word_bytes (w : Z) : list Z := [w / 256; w mod 256].
Definition is_word (w : Z) : Prop := 0 <= w < 65536.

Lemma numeral_go_length f k n acc :
  0 <= n < 16 ^ (Z.of_nat (S k)) -> (length (numeral_go 16 f n acc) <= S k + length acc)%nat.
Proof.
  revert k n acc. induction f as [|f IH]; intros k n acc Hn; simpl; [lia|].
  destruct (n / 16 =? 0) eqn:E; simpl; [lia|]. bools.
  rewrite Nat2Z.inj_succ, Z.pow_succ_r in Hn by lia.
  destruct k as [|k]; [simpl in Hn; zdiv|].
  etrans; [apply (IH k); zdiv|simpl; lia].
Qed.

Lemma numeral_word w :
  is_word w -> is_group (numeral 16 w) = true /\ group_ok (numeral 16 w).
Proof.
  unfold is_word, is_group, group_ok. intros Hw.
  destruct (numeral_spec 16 w) as (_ & Hne & _); [lia..|].
  pose proof (numeral_go_length (Z.to_nat (Z.log2 w) + 1) 3 w [] Hw) as Hl.
  change (numeral_go 16 (Z.to_nat (Z.log2 w) + 1) w []) with (numeral 16 w) in Hl. simpl in Hl.
  split; [|split; [done|apply numeral_hex_not_sep; lia]].
  apply andb_true_iff. split; [apply andb_true_iff; split; apply Nat.leb_le|].
  - destruct (numeral 16 w); [done|simpl; lia].
  - lia.
  - apply forallb_forall. intros c Hc%list_elem_of_In.
    pose proof (numeral_hex_units w ltac:(lia)) as H. rewrite Forall_forall in H. auto.
Qed.

Lemma word_split w : is_word w -> Z.land (Z.shiftr w 8) 255 = w / 256 /\ Z.land w 255 = w mod 256.
Proof.
  unfold is_word. intros Hw. change 255 with (Z.ones 8). rewrite !Z.land_ones, Z.shiftr_div_pow2 by lia.
  change (2 ^ 8) with 256. split; [|done]. zdiv.
Qed.

Lemma parse_groups_print ws :
  Forall is_word ws -> parse_groups (map (numeral 16) ws) = Some (concat (map word_bytes ws)).
Proof.
  induction 1 as [|w ws Hw Hws IH]; [done|]. cbn [map parse_groups concat].
  destruct (numeral_word w Hw) as [-> _]. cbn [negb]. rewrite IH.
  destruct (numeral_spec 16 w) as (-> & _ & _); [lia|unfold is_word in Hw; lia|].
  destruct (word_split w Hw) as [-> ->]. done.
Qed.

(** The colon-separated spelling of a list of words. *)
Definition hex_groups (ws : list Z) : jsstr := js_join [58] (map (numeral 16) ws).

Lemma words_group_ok ws : Forall is_word ws -> Forall group_ok (map (numeral 16) ws).
Proof.
  intros H. apply Forall_map. eapply Forall_impl; [exact H|]. intros w Hw.
  by apply numeral_word.
Qed.

Lemma parseGroups_join gs :
  Forall group_ok gs -> parseGroups (js_join [58] gs) = parse_groups gs.
Proof.
  intros Hg. unfold parseGroups. destruct gs as [|g gs]; [done|].
  destruct (length (js_join [58%Z] (g :: gs)) =? 0)%nat eqn:E.
  - exfalso. apply Nat.eqb_eq, nil_length_inv in E.
    apply Forall_cons in Hg as [[Hne _] _]. destruct gs; simpl in E; [done|]. by destruct g.
  - rewrite js_split_join; [done..|]. eapply Forall_impl; [exact Hg|]. by intros ? [_ ?].
Qed.

Lemma parseGroups_print ws :
  Forall is_word ws -> parseGroups (hex_groups ws) = Some (concat (map word_bytes ws)).
Proof.
  intros Hw. unfold hex_groups. rewrite parseGroups_join by (by apply words_group_ok).
  by apply parse_groups_print.
Qed.

Lemma hex_groups_no_dot ws : Forall is_word ws -> 46 ∉ hex_groups ws.
Proof.
  unfold hex_groups. induction 1 as [|w ws Hw Hws IH]; [apply not_elem_of_nil|].
  destruct (numeral_hex_not_sep w) as [_ Hd]; [unfold is_word in Hw; lia|].
  destruct ws; [done|]. cbn [map] in *. rewrite js_join_cons by done.
  rewrite !not_elem_of_app. split_and!; [done|by apply not_elem_of_cons; split; [|apply not_elem_of_nil]|done].
Qed.

Lemma word_bytes_length ws : length (concat (map word_bytes ws)) = (2 * length ws)%nat.
Proof. induction ws; simpl; lia. Qed.

(** *** Normalisation *)

Definition addr_unit (c : Z) : Prop := is_hex_digit c = true \/ c = 58 \/ c = 46.

Lemma printable_no_space c : 33 <= c < 127 -> js_is_space c = false.
Proof.
  intros Hc. assert (H : forallb (fun c => negb (js_is_space c)) (seqZ 33 94) = true) by done.
  rewrite forallb_seqZ in H. apply negb_true_iff, H. lia.
Qed.

Lemma addr_unit_facts c : addr_unit c -> js_is_space c = false /\ c <> 91.
Proof.
  unfold addr_unit, is_hex_digit, is_digit. intros H.
  assert (Hr : 33 <= c < 127 /\ c <> 91).
  { destruct H as [H|[->| ->]]; [|lia..].
    repeat match goal with H : _ || _ = true |- _ => apply orb_true_iff in H as [H|H] end;
      bools; lia. }
  split; [apply printable_no_space|]; tauto.
Qed.

Lemma normalize_units s :
  Forall addr_unit s -> unwrap_brackets (js_trim s) = s.
Proof.
  intros Hs. rewrite js_trim_id.
  - unfold unwrap_brackets. destruct Hs as [|c s Hc Hs]; [done|].
    apply addr_unit_facts in Hc as [_ Hc]. rewrite js_starts_with_singleton.
    by rewrite (proj2 (Z.eqb_neq 91 c)).
  - eapply Forall_impl; [exact Hs|]. intros c Hc. by apply addr_unit_facts.
Qed.

(** The IPv4-mapped IPv6 address of four bytes. *)
Definition mapped (v4 : list Z) : list Z := replicate 10 0 ++ [255; 255] ++ v4.

Lemma list4 {A} (l : list A) : length l = 4%nat -> exists a b c d, l = [a; b; c; d].
Proof. destruct l as [|a [|b [|c [|d [|]]]]]; try done. eauto. Qed.

Lemma ipv4BytesFromMapped_mapped s v4 :
  length v4 = 4%nat -> parseIpv6 s = Some (mapped v4) -> ipv4BytesFromMappedIpv6 s = Some v4.
Proof.
  intros (a & b & c & d & ->)%list4 H. unfold ipv4BytesFromMappedIpv6. by rewrite H.
Qed.

Lemma lor_shift a b : is_byte a -> is_byte b -> Z.lor (Z.shiftl a 8) b = a * 256 + b.
Proof.
  intros Ha Hb. pose proof (Z.add_lor_land (Z.shiftl a 8) b) as H.
  assert (Hl : Z.land (Z.shiftl a 8) b = 0).
  { apply Z.bits_inj'. intros n Hn. rewrite Z.land_spec, Z.bits_0.
    destruct (decide (n < 8)); [by rewrite Z.shiftl_spec_low by lia|].
    rewrite (byte_bits_above b) by (done || lia). apply andb_false_r. }
  rewrite Hl, Z.shiftl_mul_pow2 in H by lia. rewrite Z.shiftl_mul_pow2 by lia.
  change (2 ^ 8) with 256 in *. lia.
Qed.

(** The spelling the fast path of [normalizeIp] matches. *)
Lemma v4_mapped_prefix p :
  js_to_lower p = js "::ffff:" -> exists g, p = 58 :: 58 :: g ++ [58] /\ group_ok g /\
    is_group g = true /\ numeral_val 16 g = 65535.
Proof.
  assert (Hc : forall c, lower_unit c = 58 -> c = 58).
  { intros c. unfold lower_unit. case_match; bools; lia. }
  assert (Hf : forall c, lower_unit c = 102 -> c = 102 \/ c = 70).
  { intros c. unfold lower_unit. case_match; bools; lia. }
  unfold js_to_lower. intros H. change (js "::ffff:") with [58; 58; 102; 102; 102; 102; 58] in H.
  destruct p as [|c0 [|c1 [|c2 [|c3 [|c4 [|c5 [|c6 [|]]]]]]]]; simplify_eq/=.
  exists [c2; c3; c4; c5]. rewrite (Hc c0), (Hc c1), (Hc c6) by done.
  destruct (Hf c2), (Hf c3), (Hf c4), (Hf c5); try done; subst;
    (split_and!; [done | split; [done|] | done | done];
     apply (bool_decide_unpack _); by vm_compute).
Qed.

Lemma parse_groups_cons g gs bs :
  is_group g = true -> parse_groups gs = Some bs ->
  parse_groups (g :: gs) =
  Some (Z.land (Z.shiftr (numeral_val 16 g) 8) 255 :: Z.land (numeral_val 16 g) 255 :: bs).
Proof. intros Hg Hgs. simpl. by rewrite Hg, Hgs. Qed.

(** [::ffff:a.b.c.d], in either case of the letters, is the mapped address. *)
Lemma parse_mapped_spelling g a b c d :
  bytes_ok [a; b; c; d] -> group_ok g -> is_group g = true -> numeral_val 16 g = 65535 ->
  parseIpv6 (58 :: 58 :: g ++ 58 :: dotted [a; b; c; d]) = Some (mapped [a; b; c; d]).
Proof.
  intros Hb Hg Hgg Hv.
  change (58 :: 58 :: g ++ 58 :: dotted [a; b; c; d])
    with ((58 :: 58 :: g) ++ 58 :: dotted [a; b; c; d]).
  rewrite parseIpv6_dotted_tail by done. unfold hex_tail.
  rewrite !Forall_cons in Hb. destruct Hb as (Ha & Hb & Hc & Hd & _).
  rewrite !lor_shift by done. unfold is_byte in *.
  set (hi := a * 256 + b). set (lo := c * 256 + d).
  assert (Hhi : is_word hi) by (unfold is_word; lia).
  assert (Hlo : is_word lo) by (unfold is_word; lia).
  assert (Hgs : Forall group_ok [g; numeral 16 hi; numeral 16 lo]).
  { repeat constructor; try apply Hg; by apply numeral_word. }
  change ((58 :: 58 :: g) ++ 58 :: numeral 16 hi ++ [58] ++ numeral 16 lo)
    with (js_join [58] [] ++ [58; 58] ++ js_join [58] [g; numeral 16 hi; numeral 16 lo]).
  unfold parse_halves. rewrite split_compressed by done.
  rewrite !parseGroups_join by done.
  rewrite (parse_groups_cons g _ (concat (map word_bytes [hi; lo]))), Hv.
  2: done. 2: { apply (parse_groups_print [hi; lo]). by repeat apply Forall_cons_2. }
  cbn [map]. replace (word_bytes hi) with [a; b] by (unfold word_bytes, hi; f_equal; [|f_equal]; zdiv).
  replace (word_bytes lo) with [c; d] by (unfold word_bytes, lo; f_equal; [|f_equal]; zdiv).
  reflexivity.
Qed.

Lemma drop_quad_no_colon s : dotted_quad s = true -> 58 ∉ s.
Proof.
  unfold dotted_quad. intros H. apply andb_true_iff in H as [_ H].
  rewrite <- (js_join_split [46] s) by done. revert H. generalize (js_split [46] s).
  intros ps. induction ps as [|p ps IH]; intros H; [apply not_elem_of_nil|].
  cbn [forallb] in H. apply andb_true_iff in H as [Hp Hps]. bools.
  assert (Hn : 58 ∉ p).
  { intros Hin%list_elem_of_In. match goal with H : forallb is_digit p = true |- _ =>
      rewrite forallb_forall in H; by specialize (H _ Hin) end. }
  destruct ps; [done|]. rewrite js_join_cons by done. rewrite !not_elem_of_app.
  split_and!; [done| |by apply IH]. apply not_elem_of_cons. split; [done|apply not_elem_of_nil].
Qed.

(** Every spelling of a mapped address normalises to the dotted quad. *)
Lemma normalizeIp_mapped s v4 :
  length v4 = 4%nat -> parseIpv6 s = Some (mapped v4) -> normalizeIp s = dotted v4.
Proof.
  intros Hl Hs. unfold normalizeIp. pose proof (parseIpv6_spec s _ Hs) as (_ & Hb & Hu).
  rewrite normalize_units by done. rewrite (ipv4BytesFromMapped_mapped s v4) by done.
  unfold v4_mapped_match. destruct (_ && _) eqn:E; [|done].
  apply andb_true_iff in E as [Hp Hq]. apply bool_decide_eq_true in Hp.
  destruct (v4_mapped_prefix _ Hp) as (g & Htake & Hg & Hgg & Hv).
  pose proof (drop_quad_no_colon _ Hq) as Hnc.
  assert (Heq : s = (58 :: 58 :: g) ++ 58 :: drop 7 s).
  { rewrite <- (take_drop 7 s) at 1. rewrite Htake. simpl. by rewrite <- app_assoc. }
  set (m := drop 7 s) in *. rewrite Heq in Hs.
  assert (Hdot : js_has 46 m = true).
  { unfold dotted_quad in Hq. apply andb_true_iff in Hq as [Hq _]. apply js_has_spec.
    destruct (decide (46 ∈ m)) as [|Hn]; [done|]. by rewrite js_split_none in Hq. }
  pose proof Hs as Hs'. rewrite parseIpv6_unfold in Hs'. unfold parseIpv6_body in Hs'.
  rewrite js_last_index_app in Hs' by done.
  replace (drop (S (length (58 :: 58 :: g))) ((58 :: 58 :: g) ++ 58 :: m)) with m in Hs'.
  2: { change (58 :: m) with ([58] ++ m). rewrite app_assoc, drop_app_length'; [done|].
       rewrite length_app. simpl. lia. }
  rewrite Hdot in Hs'. destruct (parseIpv4 m) as [bs|] eqn:E4; [|done]. clear Hs'.
  apply parseIpv4_canonical in E4 as (Hl4 & Hb4 & Hm). rewrite Hm. f_equal.
  apply list4 in Hl4 as (a & b & c & d & ->). rewrite Hm in Hs.
  change ((58 :: 58 :: g) ++ 58 :: dotted [a; b; c; d])
    with (58 :: 58 :: g ++ 58 :: dotted [a; b; c; d]) in Hs.
  rewrite parse_mapped_spelling in Hs by done. unfold mapped in Hs. by simplify_eq/=.
Qed.

Lemma normalizeIp_dotted v4 : length v4 = 4%nat -> bytes_ok v4 -> normalizeIp (dotted v4) = dotted v4.
Proof.
  intros Hl Hb. unfold normalizeIp. pose proof (dotted_units v4 Hb) as Hu.
  rewrite normalize_units.
  2: { eapply Forall_impl; [exact Hu|]. unfold addr_unit, is_hex_digit.
       intros c [Hc| ->]; [left; by rewrite Hc | by auto]. }
  pose proof (dotted_no_colon v4 Hb) as Hnc.
  assert (Hd : 46 ∈ dotted v4) by (apply js_has_spec, dotted_has_dot; lia).
  replace (v4_mapped_match (dotted v4)) with (None : option jsstr).
  2: { unfold v4_mapped_match. destruct (_ && _) eqn:E; [|done]. bools.
       match goal with H : js_to_lower _ = _ |- _ =>
         destruct (v4_mapped_prefix _ H) as (g & Ht & _) end.
       destruct Hnc. rewrite <- (take_drop 7 (dotted v4)), Ht. set_solver. }
  unfold ipv4BytesFromMappedIpv6. replace (parseIpv6 (dotted v4)) with (None : option (list Z)); [done|].
  rewrite parseIpv6_unfold. unfold parseIpv6_body. rewrite (proj2 (js_last_index_None 58 _)) by done.
  destruct (parse_halves (dotted v4)) as [bs|] eqn:E; [|done].
  apply parse_halves_spec in E as (_ & _ & Hf). rewrite Forall_forall in Hf.
  by destruct (Hf _ Hd).
Qed.

(** What an accepted CIDR satisfies. *)
Definition cidr_ok (c : ParsedCidr) : Prop :=
  bytes_ok (ip c) /\ 0 <= prefixLen c <= 8 * Z.of_nat (length (ip c)) /\
  isNetworkAddress (ip c) (prefixLen c) = true /\
  length (ip c) = match version c with V4 => 4%nat | V6 => 16%nat end.

Lemma parseCidr_ok cidr c : parseCidr cidr = Some c -> cidr_ok c.
Proof.
  unfold parseCidr, cidr_ok. destruct (js_split [47] cidr) as [|p0 [|p1 [|]]]; try done.
  destruct (js_integer (js_Number p1)) as [n|]; [|done].
  destruct (n <? 0) eqn:En; [done|].
  destruct (parseIpv4 (normalizeIp p0)) as [v4|] eqn:E4.
  - apply parseIpv4_canonical in E4 as (Hl & Hb & _).
    destruct (32 <? n) eqn:E32; [done|]. destruct (isNetworkAddress v4 n) eqn:Enet; [|done].
    intros [= <-]. simpl. bools. rewrite Hl. split_and!; try done; simpl; lia.
  - destruct (parseIpv6 p0) as [v6|] eqn:E6; [|done].
    apply parseIpv6_spec in E6 as (Hl & Hb & _).
    destruct (128 <? n) eqn:E32; [done|]. destruct (isNetworkAddress v6 n) eqn:Enet; [|done].
    intros [= <-]. simpl. bools. rewrite Hl. split_and!; try done; simpl; lia.
Qed.

(** The strings that denote an IPv4 address: its dotted quad, and every IPv6
    spelling of the mapped address. *)
Definition denotes (v : ip_version) (s : jsstr) (bs : list Z) : Prop :=
  match v with
  | V4 => parseIpv4 s = Some bs \/ (length bs = 4%nat /\ parseIpv6 s = Some (mapped bs))
  | V6 => parseIpv6 s = Some bs
  end.

Lemma denotes_parse v s bs :
  denotes v s bs ->
  match v with V4 => parseIpv4 (normalizeIp s) | V6 => parseIpv6 s end = Some bs /\
  bytes_ok bs /\ length bs = match v with V4 => 4%nat | V6 => 16%nat end.
Proof.
  destruct v; simpl.
  - intros [H|[Hl H]].
    + pose proof H as (Hl & Hb & ->)%parseIpv4_canonical. by rewrite normalizeIp_dotted.
    + rewrite (normalizeIp_mapped _ _ Hl H). apply parseIpv6_spec in H as (_ & Hb & _).
      unfold mapped in Hb. rewrite !Forall_app in Hb. destruct Hb as (_ & _ & Hb).
      split; [|done]. by apply parseIpv4_canonical.
  - intros H. by pose proof H as (Hl & Hb & _)%parseIpv6_spec.
Qed.

(** ** Properties *)

(** Matching a CIDR is membership in an interval of addresses.  For every
    range the parser accepts and every spelling of an address of the same family
    (for IPv4, the dotted quad and all IPv6 spellings of the mapped address, in
    hexadecimal or dotted form, so that no spelling evades a rule), [isIpInCidr]
    answers whether the address lies between the network address and the network
    address plus [2 ^ (width - prefix)]. *)
Theorem isIpInCidr_interval cidr c s bs :
  parseCidr cidr = Some c -> denotes (version c) s bs ->
  isIpInCidr s cidr = true <->
  addr (ip c) <= addr bs
    < addr (ip c) + 2 ^ (match version c with V4 => 32 | V6 => 128 end - prefixLen c).
Proof.
  intros Hc Hd. unfold isIpInCidr, isIpInParsedCidr. rewrite Hc.
  pose proof (parseCidr_ok _ _ Hc) as (Hb & Hp & Hnet & Hl).
  destruct (denotes_parse _ _ _ Hd) as (Hparse & Hbs & Hlen).
  destruct (version c); rewrite Hparse; rewrite Hlen; cbn [Nat.eqb negb];
    rewrite prefix_interval; try done; rewrite ?Hlen, ?Hl in *; try done; lia.
Qed.

(** The address parsers read back every spelling of RFC 4291.  Eight groups,
    any run of zero groups compressed to [::], and a dotted quad in place of the
    last two groups under any prefix all parse to the bytes they denote. *)
Theorem parseIpv6_reads_back ws vs :
  Forall is_word ws -> Forall is_word vs ->
  (length ws = 8%nat -> parseIpv6 (hex_groups ws) = Some (concat (map word_bytes ws))) /\
  ((length ws + length vs < 8)%nat ->
     parseIpv6 (hex_groups ws ++ js "::" ++ hex_groups vs)
     = Some (concat (map word_bytes ws) ++ replicate (16 - 2 * length ws - 2 * length vs) 0
             ++ concat (map word_bytes vs))) /\
  (forall p a b c d, bytes_ok [a; b; c; d] ->
     parseIpv6 (p ++ js ":" ++ dotted [a; b; c; d])
     = parseIpv6 (p ++ js ":" ++ hex_groups [a * 256 + b; c * 256 + d])).
Proof.
  intros Hw Hv. pose proof (words_group_ok _ Hw) as Gw. pose proof (words_group_ok _ Hv) as Gv.
  split_and!.
  - intros Hl. rewrite parseIpv6_plain by (by apply hex_groups_no_dot).
    unfold parse_halves, hex_groups. rewrite split_plain_groups by done.
    fold (hex_groups ws). rewrite parseGroups_print by done. cbn.
    by rewrite word_bytes_length, Hl.
  - intros Hl. rewrite parseIpv6_plain.
    2: { rewrite !not_elem_of_app. split_and!; [by apply hex_groups_no_dot| |by apply hex_groups_no_dot].
         apply (bool_decide_unpack _). by vm_compute. }
    unfold parse_halves, hex_groups. change (js "::") with [58; 58].
    rewrite split_compressed by done. fold (hex_groups ws) (hex_groups vs).
    rewrite !parseGroups_print by done. rewrite !word_bytes_length.
    rewrite (proj2 (Nat.leb_gt 16 _)) by lia. do 4 f_equal. lia.
  - intros p a b c d Hb. change (js ":") with [58]. cbn [app].
    rewrite parseIpv6_dotted_tail by done. unfold hex_tail.
    assert (Hb' := Hb). rewrite !Forall_cons in Hb'. destruct Hb' as (Ha & Hb' & Hc & Hd & _).
    rewrite !lor_shift by done. unfold hex_groups. cbn [map js_join].
    rewrite parseIpv6_unfold. change (58 :: numeral 16 (a * 256 + b) ++ [58] ++ numeral 16 (c * 256 + d))
      with ((58 :: numeral 16 (a * 256 + b)) ++ 58 :: numeral 16 (c * 256 + d)).
    rewrite app_assoc. unfold is_byte in *.
    destruct (numeral_hex_not_sep (c * 256 + d)) as [H1 H2]; [lia|].
    by rewrite parseIpv6_body_plain.
Qed.

(** The module cache holds nothing or the parsed environment. *)
Definition cache_ok (env : ip_env) (cache : option (list ParsedCidr)) : Prop :=
  cache = None \/ cache = Some (trusted_of_env env).

Lemma getTrustedProxies_ok env cache :
  cache_ok env cache -> getTrustedProxies env cache = (trusted_of_env env, Some (trusted_of_env env)).
Proof. by intros [->| ->]. Qed.

Definition trusted_ip (env : ip_env) (s : jsstr) : bool :=
  existsb (isIpInParsedCidr s) (trusted_of_env env).

(** When the forwarded headers count: the peer is a trusted proxy, or there is
    no peer address and the deployment opted in. *)
Definition headers_trusted (env : ip_env) (socketIp : option jsstr) : bool :=
  match present socketIp with
  | Some sock => trusted_ip env (normalizeIp sock)
  | None => trustProxyHeadersWithoutSocket env
  end.

(** An untrusted peer cannot choose its address.  Unless the connection comes
    from a trusted proxy (or the deployment opted in to trusting headers when
    there is no peer address), the forwarded headers have no influence: the
    result is the peer's own address, or nothing. *)
Theorem extract_untrusted_peer env headers socketIp cache :
  cache_ok env cache -> headers_trusted env socketIp = false ->
  fst (extractClientIpFromHeaders env headers socketIp cache) = normalizeIp <$> present socketIp.
Proof.
  unfold headers_trusted, extractClientIpFromHeaders. intros Hc Ht.
  destruct (present socketIp) as [sock|].
  - rewrite getTrustedProxies_ok by done. unfold trusted_ip in Ht. by rewrite Ht.
  - by rewrite Ht.
Qed.

Lemma find_app {A} (f : A -> bool) l1 l2 :
  List.find f (l1 ++ l2) = match List.find f l1 with Some x => Some x | None => List.find f l2 end.
Proof. induction l1 as [|x l1 IH]; simpl; [done|]. by destruct (f x). Qed.

Lemma rightmost_untrusted_app env front entry chain :
  entry <> [] -> trusted_ip env entry = false ->
  Forall (fun s => s = [] \/ trusted_ip env s = true) chain ->
  rightmost_untrusted (trusted_of_env env) (front ++ entry :: chain) = Some entry.
Proof.
  intros Hne Hu Hch. unfold rightmost_untrusted. rewrite rev_app_distr. cbn [rev].
  rewrite <- app_assoc, find_app.
  replace (List.find _ (rev chain)) with (None : option jsstr).
  - cbn [app List.find]. unfold trusted_ip in Hu. rewrite Hu.
    by destruct entry.
  - symmetry. destruct (List.find _ (rev chain)) as [s|] eqn:E; [|done].
    apply find_some in E as [Hs%in_rev%list_elem_of_In Hp].
    rewrite Forall_forall in Hch. destruct (Hch s Hs) as [->|Ht]; [done|].
    unfold trusted_ip in Ht. by rewrite Ht, andb_false_r in Hp.
Qed.

(** The rightmost-untrusted rule.  Behind trusted proxies that append to
    X-Forwarded-For, whatever text the client put in front, the result is the
    entry the outermost trusted proxy recorded: the last one that is outside
    every trusted range. *)
Theorem extract_rightmost_untrusted env prefix entry chain real socketIp cache :
  cache_ok env cache -> headers_trusted env socketIp = true ->
  44 ∉ entry -> Forall (fun s => 44 ∉ s) chain ->
  normalizeIp entry <> [] -> trusted_ip env (normalizeIp entry) = false ->
  Forall (fun s => normalizeIp s = [] \/ trusted_ip env (normalizeIp s) = true) chain ->
  fst (extractClientIpFromHeaders env
         {| x_forwarded_for := Some (prefix ++ js "," ++ js_join (js ",") (entry :: chain));
            x_real_ip := real |} socketIp cache)
  = Some (normalizeIp entry).
Proof.
  intros Hc Ht He Hch Hne Hu Htr. change (js ",") with [44].
  assert (Hip : forall cache', cache_ok env cache' ->
    rightmost_untrusted (fst (getTrustedProxies env cache'))
      (map normalizeIp (js_split [44] (prefix ++ [44] ++ js_join [44] (entry :: chain))))
    = Some (normalizeIp entry)).
  { intros cache' Hc'. rewrite getTrustedProxies_ok by done. cbn [fst].
    change ([44] ++ ?x) with (44 :: x). cbn [app]. rewrite js_split_app_any, map_app.
    rewrite js_split_join by (done || by constructor). cbn [map].
    apply rightmost_untrusted_app; [done..|]. by apply Forall_map. }
  assert (Hx : exists x r, prefix ++ [44] ++ js_join [44] (entry :: chain) = x :: r).
  { destruct prefix; cbn; eauto. }
  unfold headers_trusted in Ht. unfold extractClientIpFromHeaders. cbn [x_forwarded_for x_real_ip].
  destruct Hx as (x & r & Hx). rewrite Hx in *. cbn [present].
  destruct (present socketIp) as [sock|].
  - rewrite getTrustedProxies_ok by done. unfold trusted_ip in Ht. rewrite Ht. cbn [negb].
    specialize (Hip (Some (trusted_of_env env)) ltac:(by right)). cbn [fst getTrustedProxies] in Hip |- *. by rewrite Hip.
  - rewrite Ht. cbn [negb]. specialize (Hip cache Hc).
    destruct (getTrustedProxies env cache) as [tr c']. cbn [fst] in Hip. by rewrite Hip.
Qed.

(** [rateLimitKeyFromIp] is not a function of the /64 prefix its comment
    promises: two spellings of one address get different keys (the expansion of
    [::] writes [0000], an explicit zero group stays [0]), so one host has
    several rate-limit buckets; and a string with too many groups around [::]
    makes the expansion throw. *)
Theorem rateLimitKey_not_canonical :
  parseIpv6 (js "2001:db8::1") = parseIpv6 (js "2001:db8:0:0:0:0:0:1") /\
  rateLimitKeyFromIp (js "2001:db8::1") = Ok (js "2001:db8:0000:0000::/64") /\
  rateLimitKeyFromIp (js "2001:db8:0:0:0:0:0:1") = Ok (js "2001:db8:0:0::/64") /\
  rateLimitKeyFromIp (js "1:2:3:4:5:6:7:8:9::") = Throw RangeError.
Proof. vm_compute. done. Qed.

Lemma isIpInCidr_interval_witness :
  exists c, parseCidr (js "10.0.0.0/8") = Some c /\
    (isIpInCidr (js "::FFFF:a01:0203") (js "10.0.0.0/8") = true <->
     addr (ip c) <= addr [10; 1; 2; 3] < addr (ip c) + 2 ^ (32 - prefixLen c)) /\
    denotes V4 (js "::ffff:10.1.2.3") [10; 1; 2; 3].
Proof.
  eexists. split; [vm_compute; reflexivity|]. split.
  - refine (isIpInCidr_interval (js "10.0.0.0/8") {| ip := [10; 0; 0; 0]; prefixLen := 8; version := V4 |}
      (js "::FFFF:a01:0203") [10; 1; 2; 3] _ _); [vm_compute; reflexivity|].
    right. split; [reflexivity|]. vm_compute. reflexivity.
  - right. split; [reflexivity|]. vm_compute. reflexivity.
Defined.

Lemma parseIpv6_reads_back_witness :
  parseIpv6 (hex_groups [64; 65435] ++ js "::" ++ hex_groups [1])
  = Some [0; 64; 255; 155; 0; 0; 0; 0; 0; 0; 0; 0; 0; 0; 0; 1].
Proof.
  refine (proj1 (proj2 (parseIpv6_reads_back [64; 65435] [1] _ _)) _);
    repeat constructor; unfold is_word; lia.
Defined.

Lemma extract_untrusted_peer_witness :
  fst (extractClientIpFromHeaders {| TRUSTED_PROXIES := None; TRUST_PROXY_HEADERS := None |}
    {| x_forwarded_for := Some (js "10.0.0.1"); x_real_ip := None |}
    (Some (js "203.0.113.9")) None) = Some (js "203.0.113.9").
Proof.
  etrans; [refine (extract_untrusted_peer _ _ _ _ _ _); [by left|] |];
    vm_compute; reflexivity.
Defined.

Lemma extract_rightmost_untrusted_witness :
  fst (extractClientIpFromHeaders
    {| TRUSTED_PROXIES := Some (js "10.0.0.0/8"); TRUST_PROXY_HEADERS := None |}
    {| x_forwarded_for :=
         Some (js "1.1.1.1,10.9.9.9" ++ js "," ++ js_join (js ",") [js " 203.0.113.9"; js "10.0.0.2"]);
       x_real_ip := None |} (Some (js "::ffff:10.0.0.3")) None) = Some (js "203.0.113.9").
Proof.
  etrans; [refine (extract_rightmost_untrusted _ _ (js " 203.0.113.9") [js "10.0.0.2"] _ _ _ _ _ _ _ _ _ _)|].
  - by left.
  - vm_compute. reflexivity.
  - apply (bool_decide_unpack _). vm_compute. exact I.
  - apply (bool_decide_unpack _). vm_compute. exact I.
  - vm_compute. discriminate.
  - vm_compute. reflexivity.
  - apply Forall_singleton. right. vm_compute. reflexivity.
  - vm_compute. reflexivity.
Defined.
