(* ===== verification/AuditChain.v ===== *)
(** * The audit log's hash chain

    Models src/src/lib/audit/audit-chain.ts (RFC 8785 canonicalisation and the
    event hash) and src/src/lib/audit/audit-chain-verify.ts (the verifier).
    SHA-256 is a parameter; what the theorems need of it is stated where it is
    used.  Tamper evidence is stated as: two accepted chains with one anchor
    record the same events, or the strings they hashed contain a collision. *)

From S2P Require Import Prelude JsString JsNumber JsJson.
Local Open Scope Z_scope.
#[local] Set Warnings "-register-all".

(** ** Dates: [toISOString] of a time value in milliseconds *)

(** Year, month and day of a day number (days since 1970-01-01). *)
Definition civil (day : Z) : Z * Z * Z :=
  let z := day + 719468 in
  let era := z / 146097 in
  let doe := z mod 146097 in
  let yoe := (doe - doe / 1460 + doe / 36524 - doe / 146096) / 365 in
  let doy := doe - (365 * yoe + yoe / 4 - yoe / 100) in
  let mp := (5 * doy + 2) / 153 in
  let d := doy - (153 * mp + 2) / 5 + 1 in
  let m := if mp <? 10 then mp + 3 else mp - 9 in
  let y := yoe + era * 400 + (if m <=? 2 then 1 else 0) in
  (y, m, d).

Definition pad (w : nat) (n : Z) : jsstr :=
  let s := numeral 10 n in replicate (w - length s) 48 ++ s.

Definition toISOString (t : Z) : jsstr :=
  let '(y, m, d) := civil (t / 86400000) in
  let ms := t mod 86400000 in
  let year := if (0 <=? y) && (y <=? 9999) then pad 4 y
              else (if y <? 0 then [45] else [43]) ++ pad 6 (Z.abs y) in
  year ++ [45] ++ pad 2 m ++ [45] ++ pad 2 d ++ [84] ++ pad 2 (ms / 3600000) ++ [58]
    ++ pad 2 (ms / 60000 mod 60) ++ [58] ++ pad 2 (ms / 1000 mod 60) ++ [46]
    ++ pad 3 (ms mod 1000) ++ [90].

Example toISOString_samples :
  (toISOString 0, toISOString 1709210096789, toISOString (-1))
  = (js "1970-01-01T00:00:00.000Z", js "2024-02-29T12:34:56.789Z", js "1969-12-31T23:59:59.999Z").
Proof. vm_compute. reflexivity. Qed.

(** ** Canonicalisation *)

(** Order of [Array.prototype.sort] on strings: by code units. *)
Fixpoint js_leb (a b : jsstr) : bool :=
  match a, b with
  | [], _ => true
  | _ :: _, [] => false
  | x :: a', y :: b' => (x <? y) || ((x =? y) && js_leb a' b')
  end.
Definition js_le (a b : jsstr) : Prop := js_leb a b = true.

#[export] Instance js_le_dec : RelDecision js_le.
Proof. intros a b. unfold js_le. apply _. Defined.

Definition sort_keys (ks : list jsstr) : list jsstr := merge_sort js_le ks.

(** The value of a key among computed entries. *)
Definition entry_of (kvs : list (jsstr * jsstr)) (k : jsstr) : jsstr :=
  match List.find (fun kv => fst kv =s k) kvs with Some kv => snd kv | None => [] end.

(** [None] is the throw on a non-finite number. *)
Fixpoint jcsCanonical (v : json) : option jsstr :=
  match v with
  | JNull => Some (js "null")
  | JBool b => Some (if b then js "true" else js "false")
  | JNum x => match x with Dbl _ _ => Some (js_num_to_string x) | _ => None end
  | JStr s => Some (json_quote s)
  | JArr l => parts ← mapM jcsCanonical l; Some ([91] ++ js_join [44] parts ++ [93])
  | JObj l =>
      kvs ← mapM (fun kv => pair (fst kv) <$> jcsCanonical (snd kv)) l;
      let keys := sort_keys (map fst l) in
      let entries := map (fun k => json_quote k ++ [58] ++ entry_of kvs k) keys in
      Some ([123] ++ js_join [44] entries ++ [125])
  end.

(** ** Events and their hash *)

Record ChainInput := {
  ci_id : jsstr; ci_createdAt : jsstr; ci_chainSeq : jsstr; ci_prevHash : jsstr; ci_payload : json }.

(** [Buffer.toString("hex")] *)
Definition hex_of (bs : list Z) : jsstr :=
  concat (map (fun b => [digit_unit (b / 16); digit_unit (b mod 16)]) bs).

Definition buildChainInput (id : jsstr) (createdAt chainSeq : Z) (prevHash : list Z)
    (payload : json) : ChainInput :=
  {| ci_id := id; ci_createdAt := toISOString createdAt; ci_chainSeq := js_of_Z chainSeq;
     ci_prevHash := hex_of prevHash; ci_payload := payload |}.

Definition chain_input_json (i : ChainInput) : json :=
  JObj [(js "id", JStr (ci_id i)); (js "createdAt", JStr (ci_createdAt i));
        (js "chainSeq", JStr (ci_chainSeq i)); (js "prevHash", JStr (ci_prevHash i));
        (js "payload", ci_payload i)].

Definition computeCanonicalBytes (i : ChainInput) : option (list Z) :=
  js_utf8 <$> jcsCanonical (chain_input_json i).

(** ** The verifier *)

Inductive ChainVerifyReason :=
| TAMPER_DETECTED | GAP_DETECTED | TIMESTAMP_VIOLATION | ANCHOR_HASH_MISMATCH
| ANCHOR_MISSING | TRUNCATED | RANGE_INCOMPLETE.

Record ChainVerifyRow := {
  cr_id : jsstr; cr_created_at : Z; cr_chain_seq : Z; cr_event_hash : list Z;
  cr_chain_prev_hash : option (list Z); cr_metadata : json }.

Record ChainVerifyInput := {
  vi_rows : list ChainVerifyRow; vi_seedPrevHash : list Z; vi_fromSeq : Z; vi_toSeq : Z;
  vi_anchorPrevHash : option (list Z); vi_anchorComparable : bool; vi_rowCap : Z }.

Record ChainVerifyOutcome := {
  vo_ok : bool; vo_reason : option ChainVerifyReason; vo_totalVerified : Z; vo_walkedThrough : Z;
  vo_verifiedUpToSeq : option Z; vo_truncated : bool; vo_incomplete : bool;
  vo_anchorChecked : bool; vo_firstTamperedSeq : option Z; vo_firstGapAfterSeq : option Z;
  vo_firstTimestampViolationSeq : option Z; vo_firstBrokenLinkSeq : option Z }.

(** The local variables of the walk. *)
Record walk := {
  wk_prevHash : list Z; wk_prevSeq : option Z; wk_prevCreatedAt : option Z;
  wk_totalVerified : Z; wk_walkedThrough : Z; wk_firstTamperedSeq : option Z;
  wk_firstGapAfterSeq : option Z; wk_firstTimestampViolationSeq : option Z;
  wk_firstBrokenLinkSeq : option Z }.

Definition payload_of (metadata : json) : json :=
  match metadata with JObj _ | JArr _ => metadata | _ => JObj [] end.

Section Hash.
Variable sha256 : list Z -> list Z.

Definition computeEventHash (prevHash canonicalBytes : list Z) : list Z :=
  sha256 (prevHash ++ canonicalBytes).

Definition row_hash (prevHash : list Z) (row : ChainVerifyRow) : option (list Z) :=
  computeEventHash prevHash <$> computeCanonicalBytes
    (buildChainInput (cr_id row) (cr_created_at row) (cr_chain_seq row) prevHash
       (payload_of (cr_metadata row))).

Fixpoint walk_rows (rows : list ChainVerifyRow) (st : walk) : option walk :=
  match rows with
  | [] => Some st
  | row :: rest =>
      let seq := num_of_bigint (cr_chain_seq row) in
      let gap := match wk_prevSeq st, wk_firstGapAfterSeq st with
                 | Some prevSeq, None => if negb (seq =? prevSeq + 1) then Some prevSeq else None
                 | _, g => g
                 end in
      let ts := match wk_prevCreatedAt st, wk_firstTimestampViolationSeq st with
                | Some p, None => if cr_created_at row <? p then Some seq else None
                | _, v => v
                end in
      let link := match wk_firstBrokenLinkSeq st with
                  | Some s => Some s
                  | None =>
                      match cr_chain_prev_hash row with
                      | None => Some seq
                      | Some h => if negb (bool_decide (wk_prevHash st = h)) then Some seq else None
                      end
                  end in
      computed ← row_hash (wk_prevHash st) row;
      if negb (bool_decide (computed = cr_event_hash row)) then
        Some {| wk_prevHash := wk_prevHash st; wk_prevSeq := wk_prevSeq st;
                wk_prevCreatedAt := wk_prevCreatedAt st;
                wk_totalVerified := wk_totalVerified st; wk_walkedThrough := wk_walkedThrough st;
                wk_firstTamperedSeq := Some seq; wk_firstGapAfterSeq := gap;
                wk_firstTimestampViolationSeq := ts; wk_firstBrokenLinkSeq := link |}
      else
        walk_rows rest
          {| wk_prevHash := cr_event_hash row; wk_prevSeq := Some seq;
             wk_prevCreatedAt := Some (cr_created_at row);
             wk_totalVerified := wk_totalVerified st + 1;
             wk_walkedThrough := wk_walkedThrough st + 1;
             wk_firstTamperedSeq := wk_firstTamperedSeq st; wk_firstGapAfterSeq := gap;
             wk_firstTimestampViolationSeq := ts; wk_firstBrokenLinkSeq := link |}
  end.

Definition walk_init (seed : list Z) : walk :=
  {| wk_prevHash := seed; wk_prevSeq := None; wk_prevCreatedAt := None; wk_totalVerified := 0;
     wk_walkedThrough := 0; wk_firstTamperedSeq := None; wk_firstGapAfterSeq := None;
     wk_firstTimestampViolationSeq := None; wk_firstBrokenLinkSeq := None |}.

Definition absent {A} (o : option A) : bool := match o with None => true | Some _ => false end.

(** [None] when the canonicalisation of a row throws. *)
Definition verifyChainRows (input : ChainVerifyInput) : option ChainVerifyOutcome :=
  st ← walk_rows (vi_rows input) (walk_init (vi_seedPrevHash input));
  let coveredUpToSeq := match wk_prevSeq st with
                        | Some s => s
                        | None => vi_fromSeq input - 1
                        end in
  let incomplete := (vi_toSeq input <? vi_fromSeq input) || (coveredUpToSeq <? vi_toSeq input) in
  let truncated := (vi_rowCap input <=? Z.of_nat (length (vi_rows input))) && incomplete in
  let anchorChecked :=
    vi_anchorComparable input && negb (absent (vi_anchorPrevHash input)) && negb incomplete in
  let anchorMismatch :=
    anchorChecked && negb (bool_decide (vi_anchorPrevHash input = Some (wk_prevHash st))) in
  let integrityOk :=
    absent (wk_firstTamperedSeq st) && absent (wk_firstGapAfterSeq st)
    && absent (wk_firstTimestampViolationSeq st) && absent (wk_firstBrokenLinkSeq st)
    && negb anchorMismatch in
  let ok := integrityOk && negb incomplete in
  let reason :=
    if ok then None
    else if negb (absent (wk_firstTamperedSeq st)) then Some TAMPER_DETECTED
    else if anchorMismatch then Some ANCHOR_HASH_MISMATCH
    else if negb (absent (wk_firstBrokenLinkSeq st)) then Some TAMPER_DETECTED
    else if negb (absent (wk_firstGapAfterSeq st)) then Some GAP_DETECTED
    else if negb (absent (wk_firstTimestampViolationSeq st)) then Some TIMESTAMP_VIOLATION
    else if truncated then Some TRUNCATED
    else Some RANGE_INCOMPLETE in
  Some {| vo_ok := ok; vo_reason := reason; vo_totalVerified := wk_totalVerified st;
          vo_walkedThrough := wk_walkedThrough st; vo_verifiedUpToSeq := wk_prevSeq st;
          vo_truncated := truncated; vo_incomplete := incomplete;
          vo_anchorChecked := anchorChecked; vo_firstTamperedSeq := wk_firstTamperedSeq st;
          vo_firstGapAfterSeq := wk_firstGapAfterSeq st;
          vo_firstTimestampViolationSeq := wk_firstTimestampViolationSeq st;
          vo_firstBrokenLinkSeq := wk_firstBrokenLinkSeq st |}.
End Hash.

Definition GENESIS_PREV_HASH : list Z := [0].

(** ** What the verifier accepts *)

Section Spec.
Variable sha256 : list Z -> list Z.
Abbreviation walk_rows := (walk_rows sha256).
Abbreviation row_hash := (row_hash sha256).
Abbreviation verifyChainRows := (verifyChainRows sha256).

(** Each row points back to its predecessor's hash and carries its own. *)
Fixpoint linked (prev : list Z) (rows : list ChainVerifyRow) : Prop :=
  match rows with
  | [] => True
  | r :: rest =>
      cr_chain_prev_hash r = Some prev /\ row_hash prev r = Some (cr_event_hash r) /\
      linked (cr_event_hash r) rest
  end.

Fixpoint consecutive (prev : option Z) (rows : list ChainVerifyRow) : Prop :=
  match rows with
  | [] => True
  | r :: rest =>
      (forall p, prev = Some p -> cr_chain_seq r = p + 1) /\ consecutive (Some (cr_chain_seq r)) rest
  end.

Fixpoint ordered (prev : option Z) (rows : list ChainVerifyRow) : Prop :=
  match rows with
  | [] => True
  | r :: rest =>
      (forall p, prev = Some p -> p <= cr_created_at r) /\ ordered (Some (cr_created_at r)) rest
  end.

Definition final_hash (prev : list Z) (rows : list ChainVerifyRow) : list Z :=
  default prev (cr_event_hash <$> last rows).
Definition last_seq (prev : option Z) (rows : list ChainVerifyRow) : option Z :=
  match last rows with Some r => Some (cr_chain_seq r) | None => prev end.

Lemma last_cons_default {A B} (f : A -> B) r rest d :
  default d (f <$> last (r :: rest)) = default (f r) (f <$> last rest).
Proof.
  destruct rest as [|r' rest]; [done|]. rewrite last_cons_cons.
  by destruct (last _) eqn:E; [|apply last_None in E].
Qed.

Lemma final_hash_cons prev r rest :
  final_hash prev (r :: rest) = final_hash (cr_event_hash r) rest.
Proof. apply last_cons_default. Qed.

Lemma last_seq_cons prev r rest :
  last_seq prev (r :: rest) = last_seq (Some (cr_chain_seq r)) rest.
Proof.
  unfold last_seq. destruct rest; [done|]. rewrite last_cons_cons.
  by destruct (last _) eqn:E; [|apply last_None in E].
Qed.

(** No finding so far. *)
Definition clear (st : walk) : Prop :=
  wk_firstTamperedSeq st = None /\ wk_firstGapAfterSeq st = None /\
  wk_firstTimestampViolationSeq st = None /\ wk_firstBrokenLinkSeq st = None.

(** A finding is never withdrawn. *)
Lemma walk_rows_clear rows st st' : walk_rows rows st = Some st' -> clear st' -> clear st.
Proof.
  revert st. induction rows as [|r rest IH]; intros st H Hc; [by simplify_eq/=|].
  cbn [walk_rows] in H.
  destruct (row_hash (wk_prevHash st) r) as [h|]; [|done]. cbn in H.
  destruct (bool_decide (h = cr_event_hash r)); cbn in H.
  - apply IH in H; [|done]. destruct H as (H1 & H2 & H3 & H4). cbn in *. unfold clear.
    destruct (wk_firstBrokenLinkSeq st); [done|].
    destruct (wk_prevSeq st), (wk_firstGapAfterSeq st); try done;
      destruct (wk_prevCreatedAt st), (wk_firstTimestampViolationSeq st); done.
  - simplify_eq. by destruct Hc.
Qed.

Definition seqs_ok (rows : list ChainVerifyRow) : Prop :=
  Forall (fun r => 0 <= cr_chain_seq r < 2 ^ 53) rows.

Lemma walk_rows_spec rows st :
  seqs_ok rows -> clear st ->
  (exists st', walk_rows rows st = Some st' /\ clear st') <->
  linked (wk_prevHash st) rows /\ consecutive (wk_prevSeq st) rows /\
  ordered (wk_prevCreatedAt st) rows.
Proof.
  intros Hs. revert st. induction Hs as [|r rest Hr Hrest IH]; intros st Hc.
  { simpl. split; [done|]. eauto. }
  cbn [walk_rows linked consecutive ordered].
  rewrite num_of_bigint_exact by done.
  destruct (row_hash (wk_prevHash st) r) as [h|] eqn:Eh; cbn.
  2: { split; [intros (? & ? & _); done|]. intros [(_ & ? & _) _]. done. }
  destruct Hc as (Ht & Hg & Hts & Hl). rewrite Hg, Hts, Hl.
  case_bool_decide as Heq; cbn.
  2: { split; [|intros [(_ & [= Hh] & _) _]; done]. intros (st' & [= <-] & (? & _)). done. }
  subst h. set (st1 := Build_walk _ _ _ _ _ _ _ _ _).
  assert (Hst1 : clear st1 <-> cr_chain_prev_hash r = Some (wk_prevHash st) /\
    (forall p, wk_prevSeq st = Some p -> cr_chain_seq r = p + 1) /\
    (forall p, wk_prevCreatedAt st = Some p -> p <= cr_created_at r)).
  { unfold clear, st1. cbn. rewrite Ht.
    destruct (cr_chain_prev_hash r) as [ph|]; [case_bool_decide|];
    destruct (wk_prevSeq st) as [ps|]; try destruct (Z.eqb_spec (cr_chain_seq r) (ps + 1));
    destruct (wk_prevCreatedAt st) as [pc|]; try destruct (Z.ltb_spec (cr_created_at r) pc);
    cbn; split; intros HH; destruct_and?; split_and?; try congruence; try (intros ? [= <-]; lia);
    exfalso;
    repeat match goal with H : forall p, Some _ = Some p -> _ |- _ => specialize (H _ eq_refl) end;
    congruence || lia. }
  split.
  - intros (st' & Hw & Hc'). assert (Hc1 : clear st1) by (by eapply walk_rows_clear).
    destruct (proj1 (IH st1 Hc1)) as (H1 & H2 & H3); [eauto|]. cbn in *. tauto.
  - intros ((H1 & _ & H2) & (H3 & H4) & H5 & H6). apply (IH st1); [tauto|]. done.
Qed.

(** Where an uneventful walk ends. *)
Lemma walk_rows_end rows st st' :
  seqs_ok rows -> walk_rows rows st = Some st' -> clear st' ->
  wk_prevHash st' = final_hash (wk_prevHash st) rows /\
  wk_prevSeq st' = last_seq (wk_prevSeq st) rows.
Proof.
  intros Hs. revert st. induction Hs as [|r rest Hr Hrest IH]; intros st H Hc; [by simplify_eq/=|].
  rewrite final_hash_cons, last_seq_cons.
  cbn [walk_rows] in H. rewrite num_of_bigint_exact in H by done.
  destruct (row_hash (wk_prevHash st) r) as [h|]; [|done]. cbn in H.
  destruct (bool_decide (h = cr_event_hash r)); cbn in H.
  - by destruct (IH _ H Hc) as [-> ->].
  - simplify_eq. by destruct Hc.
Qed.
End Spec.

(** The verdict in terms of the rows. *)
Definition chain_accepts (sha256 : list Z -> list Z) (input : ChainVerifyInput) : Prop :=
  linked sha256 (vi_seedPrevHash input) (vi_rows input) /\
  consecutive None (vi_rows input) /\ ordered None (vi_rows input) /\
  vi_fromSeq input <= vi_toSeq input <=
    default (vi_fromSeq input - 1) (last_seq None (vi_rows input)) /\
  (vi_anchorComparable input = true -> forall h, vi_anchorPrevHash input = Some h ->
     h = final_hash (vi_seedPrevHash input) (vi_rows input)).

Lemma absent_None {A} (o : option A) : absent o = true <-> o = None.
Proof. by destruct o. Qed.

(** [ok] is set exactly when the walk found nothing, covered the range and ended
    on the anchor if it can be compared. *)
Lemma verdict_ok input st (covered : Z) :
  let incomplete := (vi_toSeq input <? vi_fromSeq input) || (covered <? vi_toSeq input) in
  absent (wk_firstTamperedSeq st) && absent (wk_firstGapAfterSeq st)
    && absent (wk_firstTimestampViolationSeq st) && absent (wk_firstBrokenLinkSeq st)
    && negb (vi_anchorComparable input && negb (absent (vi_anchorPrevHash input)) && negb incomplete
             && negb (bool_decide (vi_anchorPrevHash input = Some (wk_prevHash st))))
    && negb incomplete = true <->
  clear st /\ vi_fromSeq input <= vi_toSeq input <= covered /\
  (vi_anchorComparable input = true -> forall h, vi_anchorPrevHash input = Some h ->
     h = wk_prevHash st).
Proof.
  intros inc. rewrite !andb_true_iff, !absent_None, !negb_true_iff. unfold clear.
  assert (Hinc : inc = false <-> vi_fromSeq input <= vi_toSeq input <= covered).
  { unfold inc. rewrite orb_false_iff, !Z.ltb_ge. lia. }
  destruct inc; [split; [intros [_ ?]; done|intros (_ & H & _); by apply Hinc in H]|].
  assert (Ha : vi_anchorComparable input && negb (absent (vi_anchorPrevHash input)) && negb false
     && negb (bool_decide (vi_anchorPrevHash input = Some (wk_prevHash st))) = false <->
     (vi_anchorComparable input = true -> forall h, vi_anchorPrevHash input = Some h ->
        h = wk_prevHash st)).
  { destruct (vi_anchorComparable input); [|split; [done|by intros]].
    destruct (vi_anchorPrevHash input) as [h|]; cbn; [|split; [by intros|done]].
    case_bool_decide; cbn; naive_solver. }
  rewrite Ha. tauto.
Qed.

Lemma verify_accepts sha256 input :
  seqs_ok (vi_rows input) ->
  (exists o, verifyChainRows sha256 input = Some o /\ vo_ok o = true) <-> chain_accepts sha256 input.
Proof.
  intros Hs. unfold chain_accepts. set (seed := vi_seedPrevHash input).
  pose proof (walk_rows_spec sha256 _ (walk_init seed) Hs ltac:(done)) as Hspec. cbn in Hspec.
  assert (Hv : forall st, walk_rows sha256 (vi_rows input) (walk_init seed) = Some st ->
    (exists o, verifyChainRows sha256 input = Some o /\ vo_ok o = true) <->
    clear st /\ vi_fromSeq input <= vi_toSeq input <= default (vi_fromSeq input - 1) (wk_prevSeq st) /\
    (vi_anchorComparable input = true -> forall h, vi_anchorPrevHash input = Some h ->
       h = wk_prevHash st)).
  { intros st Hst. rewrite <- verdict_ok. unfold verifyChainRows. fold seed. rewrite Hst. cbn.
    split; [by intros (o & [= <-] & Ho)|]. intros Ho. eexists. split; [done|]. exact Ho. }
  split.
  - intros Ho. destruct (walk_rows sha256 (vi_rows input) (walk_init seed)) as [st|] eqn:Ew.
    2: { destruct Ho as (o & Ho & _). unfold verifyChainRows in Ho. fold seed in Ho. by rewrite Ew in Ho. }
    apply (Hv st) in Ho as (Hc & Hr & Ha); [|done].
    destruct (walk_rows_end sha256 _ _ _ Hs Ew Hc) as [Hf Hl]. cbn in Hf, Hl.
    rewrite <- Hf, <- Hl. destruct (proj1 Hspec) as (? & ? & ?); [eauto|]. done.
  - intros (H1 & H2 & H3 & Hr & Ha). destruct (proj2 Hspec) as (st & Ew & Hc); [done|].
    apply (Hv st Ew). destruct (walk_rows_end sha256 _ _ _ Hs Ew Hc) as [Hf Hl]. cbn in Hf, Hl.
    rewrite Hf, Hl. done.
Qed.

(** ** The canonical text determines the event *)

Lemma digit_unit_mod n : 48 <= digit_unit (n mod 10) < 58.
Proof. unfold digit_unit. case_match; bools; zdiv. Qed.

Lemma numeral_ascii_any n : ascii_units (numeral 10 n).
Proof.
  unfold numeral. assert (H : ascii_units []) by done. revert H.
  generalize (Z.to_nat (Z.log2 n) + 1)%nat, (@nil Z). intros f. revert n.
  induction f as [|f IH]; intros n acc Hacc; simpl; [done|].
  assert (Ha : ascii_units (digit_unit (n mod 10) :: acc)).
  { constructor; [|done]. pose proof (digit_unit_mod n). lia. }
  case_match; [done|]. by apply IH.
Qed.

Lemma pad_ascii w n : ascii_units (pad w n).
Proof. apply Forall_app_2; [apply Forall_replicate; lia|apply numeral_ascii_any]. Qed.

Lemma toISOString_ascii t : ascii_units (toISOString t).
Proof.
  unfold toISOString. destruct (civil _) as [[y m] d].
  repeat case_match; rewrite !Forall_app; split_and!;
    first [apply pad_ascii | apply Forall_singleton; lia].
Qed.

Lemma js_of_Z_ascii n : ascii_units (js_of_Z n).
Proof.
  unfold js_of_Z. case_match; [constructor; [lia|]|]; apply numeral_ascii_any.
Qed.

Lemma ascii_units_ok s : ascii_units s -> units_ok s.
Proof. intros H. eapply Forall_impl; [exact H|]. simpl. lia. Qed.

(** Every string inside a value is made of 16-bit units. *)
Fixpoint json_units (v : json) : Prop :=
  match v with
  | JStr s => units_ok s
  | JArr l => foldr (fun v P => json_units v /\ P) True l
  | JObj l => foldr (fun kv P => units_ok (fst kv) /\ json_units (snd kv) /\ P) True l
  | _ => True
  end.

Lemma js_join_well_formed c parts :
  js_well_formed [c] = true -> Forall (fun p => js_well_formed p = true) parts ->
  js_well_formed (js_join [c] parts) = true.
Proof.
  intros Hc. induction 1 as [|p ps Hp Hps IH]; [done|].
  destruct ps; [done|]. rewrite js_join_cons by done. by repeat apply js_well_formed_app.
Qed.

Lemma entry_of_in kvs k :
  entry_of kvs k = [] \/ exists kv, kv ∈ kvs /\ snd kv = entry_of kvs k.
Proof.
  unfold entry_of. destruct (List.find _ kvs) as [kv|] eqn:E; [|by left].
  apply find_some in E as [Hin _]. right. exists kv. by rewrite list_elem_of_In.
Qed.

Lemma jcs_well_formed v t : jcsCanonical v = Some t -> json_units v -> js_well_formed t = true.
Proof.
  revert t. induction v as [|b|x|s|l IH|l IH] using json_ind'; intros t Ht Hu; simpl in Ht.
  - by simplify_eq.
  - destruct b; by simplify_eq.
  - destruct x; simplify_eq. apply ascii_well_formed, js_num_to_string_ascii.
  - simplify_eq. by apply json_quote_well_formed.
  - destruct (mapM jcsCanonical l) as [parts|] eqn:E; simplify_eq/=.
    apply js_well_formed_app; [|done]. apply js_join_well_formed; [done|].
    apply mapM_Some in E. simpl in Hu. clear -IH E Hu. induction E as [|v p l ps Hv _ IHl]; [done|].
    apply Forall_cons in IH as [IHv IH]. destruct Hu. constructor; auto.
  - destruct (mapM _ l) as [kvs|] eqn:E; simplify_eq/=.
    apply js_well_formed_app; [|done]. apply js_join_well_formed; [done|].
    apply mapM_Some in E.
    assert (Hkvs : Forall (fun kv => js_well_formed (snd kv) = true) kvs).
    { clear -IH E Hu. induction E as [|kv kt l kts Hv _ IHl]; [done|].
      apply Forall_cons in IH as [IHv IH]. destruct Hu as (_ & Hv' & Hu). constructor; [|auto].
      destruct (jcsCanonical (snd kv)) eqn:Ev; simplify_eq/=. auto. }
    assert (Hks : Forall (fun k => units_ok k) (map fst l)).
    { clear -Hu. induction l as [|kv l IHl]; [done|]. destruct Hu as (Hk & _ & Hu).
      simpl. constructor; auto. }
    apply Forall_map. unfold sort_keys. rewrite merge_sort_Permutation.
    eapply Forall_impl; [exact Hks|]. intros k Hk. simpl.
    apply js_well_formed_app; [by apply json_quote_well_formed|].
    change (58 :: ?x) with ([58] ++ x). apply js_well_formed_app; [done|].
    destruct (entry_of_in kvs k) as [->|(kv & Hin & <-)]; [done|].
    rewrite Forall_forall in Hkvs. auto.
Qed.

(** The canonical text of an event, up to and from the previous hash. *)
Definition canon_head (seq created id p : jsstr) : jsstr :=
  [123] ++ json_quote (js "chainSeq") ++ [58] ++ json_quote seq ++ [44]
  ++ json_quote (js "createdAt") ++ [58] ++ json_quote created ++ [44]
  ++ json_quote (js "id") ++ [58] ++ json_quote id ++ [44]
  ++ json_quote (js "payload") ++ [58] ++ p ++ [44] ++ json_quote (js "prevHash") ++ [58].
Definition canon_text (seq created id p prev : jsstr) : jsstr :=
  canon_head seq created id p ++ [34] ++ prev ++ [34; 125].

Lemma hex_quote bs : Forall (fun b => 0 <= b < 256) bs ->
  quote_body (hex_of bs) = hex_of bs /\ ascii_units (hex_of bs) /\ (34 ∉ hex_of bs) /\
  length (hex_of bs) = (2 * length bs)%nat.
Proof.
  induction 1 as [|b bs Hb Hbs (IH1 & IH2 & IH3 & IH4)].
  { split_and!; [done..|apply not_elem_of_nil|done]. }
  change (hex_of (b :: bs)) with (digit_unit (b / 16) :: digit_unit (b mod 16) :: hex_of bs).
  assert (Hd : forall d, 0 <= d < 16 -> 48 <= digit_unit d < 58 \/ 97 <= digit_unit d < 103).
  { intros d Hd. unfold digit_unit. case_match; bools; lia. }
  assert (Hq : forall c s, 48 <= c < 58 \/ 97 <= c < 103 -> quote_body (c :: s) = c :: quote_body s).
  { intros c s Hc. cbn [quote_body].
    replace (is_high_surrogate c) with false
      by (symmetry; apply andb_false_iff; left; apply Z.leb_gt; lia).
    unfold quote_unit. repeat (case_match; [bools; lia|]).
    replace ((c <? 32) || is_high_surrogate c || is_low_surrogate c) with false; [done|].
    symmetry. repeat (apply orb_false_iff; split); [apply Z.ltb_ge; lia|..];
      apply andb_false_iff; left; apply Z.leb_gt; lia. }
  destruct (Hd (b / 16)) as [H1|H1]; [zdiv|..]; (destruct (Hd (b mod 16)) as [H2|H2]; [zdiv|..]);
    (split_and!; [rewrite !Hq by tauto; by rewrite IH1
                 |repeat (constructor; [lia|]); done
                 |rewrite !not_elem_of_cons; split_and!; [lia..|done]
                 |simpl; lia]).
Qed.

Lemma jcs_chain_input id createdAt seq prev payload p :
  Forall (fun b => 0 <= b < 256) prev -> jcsCanonical payload = Some p ->
  jcsCanonical (chain_input_json (buildChainInput id createdAt seq prev payload))
  = Some (canon_text (js_of_Z seq) (toISOString createdAt) id p (hex_of prev)).
Proof.
  intros Hp Hpay. unfold chain_input_json, buildChainInput. cbn [ci_id ci_createdAt ci_chainSeq
    ci_prevHash ci_payload jcsCanonical mapM mbind mret fmap option_bind option_fmap option_map
    option_ret fst snd map]. rewrite Hpay.
  cbn [mapM mbind mret fmap option_bind option_fmap option_map option_ret fst snd map].
  replace (sort_keys [js "id"; js "createdAt"; js "chainSeq"; js "prevHash"; js "payload"])
    with [js "chainSeq"; js "createdAt"; js "id"; js "payload"; js "prevHash"]
    by (by vm_compute).
  f_equal. unfold canon_text, canon_head. destruct (hex_quote prev Hp) as (Hq & _).
  cbn [map js_join].
  change (entry_of ?l (js "chainSeq")) with (json_quote (js_of_Z seq)).
  change (entry_of ?l (js "createdAt")) with (json_quote (toISOString createdAt)).
  change (entry_of ?l (js "id")) with (json_quote id).
  change (entry_of ?l (js "payload")) with p.
  change (entry_of ?l (js "prevHash")) with (json_quote (hex_of prev)).
  replace (json_quote (hex_of prev)) with (34 :: hex_of prev ++ [34]) by (unfold json_quote; by rewrite Hq). rewrite <- !app_assoc. cbn [app]. rewrite <- !app_assoc. done.
Qed.

Lemma js_utf8_app a b : js_well_formed a = true -> js_utf8 (a ++ b) = js_utf8 a ++ js_utf8 b.
Proof.
  intros Ha. unfold js_utf8. rewrite <- concat_app, <- map_app. do 2 f_equal.
  induction a as [|c a IH IH2] using js_pair_ind; [done|]. simpl in Ha |- *.
  destruct (is_high_surrogate c).
  - destruct a as [|d a]; [done|]. apply andb_true_iff in Ha as [Hd Ha]. cbn [app]. rewrite Hd.
    cbn [app]. f_equal. by apply (IH2 d a).
  - bools. destruct (is_low_surrogate c); [done|]. cbn [app]. f_equal. by apply IH.
Qed.

Lemma last_unit_split (c : Z) a b h h' :
  a ++ c :: h = b ++ c :: h' -> c ∉ h -> c ∉ h' -> a = b /\ h = h'.
Proof.
  intros H Hh Hh'. apply app_eq_inv in H as [(k & -> & Hk)|(k & -> & Hk)].
  - destruct k as [|x k]; simplify_eq/=; [by rewrite app_nil_r|].
    destruct Hh'. set_solver.
  - destruct k as [|x k]; simplify_eq/=; [by rewrite app_nil_r|].
    destruct Hh. set_solver.
Qed.

Definition row_ok (r : ChainVerifyRow) : Prop :=
  units_ok (cr_id r) /\ json_units (payload_of (cr_metadata r)).

(** Two rows that record the same event. *)
Definition same_event (r r' : ChainVerifyRow) : Prop :=
  cr_id r = cr_id r' /\ cr_chain_seq r = cr_chain_seq r' /\
  toISOString (cr_created_at r) = toISOString (cr_created_at r') /\
  jcsCanonical (payload_of (cr_metadata r)) = jcsCanonical (payload_of (cr_metadata r')).

Lemma canon_head_well_formed seq created id p :
  ascii_units seq -> ascii_units created -> units_ok id -> js_well_formed p = true ->
  js_well_formed (canon_head seq created id p) = true.
Proof.
  intros Hs Hc Hi Hp. unfold canon_head.
  repeat (apply js_well_formed_app; [first [done | apply json_quote_well_formed; auto using ascii_units_ok]|]).
  done.
Qed.

Lemma canon_text_inj s c i p h s' c' i' p' h' :
  ascii_units s -> ascii_units c -> units_ok i -> js_well_formed p = true -> ascii_units h ->
  ascii_units s' -> ascii_units c' -> units_ok i' -> js_well_formed p' = true -> ascii_units h' ->
  (34 ∉ h) -> (34 ∉ h') ->
  js_utf8 (canon_text s c i p h) = js_utf8 (canon_text s' c' i' p' h') ->
  s = s' /\ c = c' /\ i = i' /\ p = p'.
Proof.
  intros Hs Hc Hi Hp Hh Hs' Hc' Hi' Hp' Hh' Hq Hq' H.
  assert (Hw : forall h, ascii_units h -> js_well_formed ([34] ++ h ++ [34; 125]) = true).
  { intros g Hg. apply ascii_well_formed. rewrite !Forall_app. split_and!; [|done|];
      repeat (constructor; [lia|]); done. }
  apply js_utf8_inj in H; [| |]; try (by apply js_well_formed_app; auto using canon_head_well_formed).
  assert (Hf : forall a g : jsstr, a ++ [34] ++ g ++ [34; 125] = (a ++ 34 :: g) ++ [34; 125]).
  { intros a g. by rewrite <- app_assoc. }
  assert (Hh2 : canon_head s c i p = canon_head s' c' i' p').
  { unfold canon_text in H. rewrite !Hf in H. apply app_inj_2 in H as [H _]; [|done].
    by apply last_unit_split in H as [? _]. }
  clear H. unfold canon_head in Hh2. apply app_inv_head in Hh2.
  apply app_inv_head in Hh2. apply app_inv_head in Hh2.
  apply json_quote_prefix in Hh2 as [-> Hh2]; [|by apply ascii_units_ok..].
  do 3 apply app_inv_head in Hh2.
  apply json_quote_prefix in Hh2 as [-> Hh2]; [|by apply ascii_units_ok..].
  do 3 apply app_inv_head in Hh2.
  apply json_quote_prefix in Hh2 as [-> Hh2]; [|done..].
  do 3 apply app_inv_head in Hh2. by apply app_inj_2 in Hh2 as [-> _].
Qed.

Section Tamper.
Variable sha256 : list Z -> list Z.
Hypothesis digest_length : forall x, length (sha256 x) = 32%nat.
Hypothesis digest_bytes : forall x, Forall (fun b => 0 <= b < 256) (sha256 x).

(** The byte string whose digest a row carries, and those of a whole chain. *)
Definition row_input (prev : list Z) (r : ChainVerifyRow) : option (list Z) :=
  app prev <$> computeCanonicalBytes
    (buildChainInput (cr_id r) (cr_created_at r) (cr_chain_seq r) prev (payload_of (cr_metadata r))).
Fixpoint hashed_inputs (prev : list Z) (rows : list ChainVerifyRow) : list (list Z) :=
  match rows with
  | [] => []
  | r :: rest => from_option (fun x => [x]) [] (row_input prev r) ++ hashed_inputs (cr_event_hash r) rest
  end.

(** Two different strings with one digest among the inputs of two chains. *)
Definition collision (xs ys : list (list Z)) : Prop :=
  exists x y, x ∈ xs /\ y ∈ ys /\ x <> y /\ sha256 x = sha256 y.

Lemma collision_mono xs ys xs' ys' :
  xs ⊆ xs' -> ys ⊆ ys' -> collision xs ys -> collision xs' ys'.
Proof. intros Hx Hy (x & y & H1 & H2 & H3). exists x, y. auto. Qed.

Lemma row_hash_text prev r h :
  Forall (fun b => 0 <= b < 256) prev -> row_hash sha256 prev r = Some h ->
  exists p t, jcsCanonical (payload_of (cr_metadata r)) = Some p /\
    t = canon_text (js_of_Z (cr_chain_seq r)) (toISOString (cr_created_at r)) (cr_id r) p (hex_of prev) /\
    row_input prev r = Some (prev ++ js_utf8 t) /\ h = sha256 (prev ++ js_utf8 t).
Proof.
  unfold row_hash, row_input, computeCanonicalBytes. intros Hp H.
  destruct (jcsCanonical (payload_of (cr_metadata r))) as [p|] eqn:E.
  - rewrite (jcs_chain_input _ _ _ _ _ p Hp E) in *. cbn in H |- *. simplify_eq. by eexists _, _.
  - exfalso. unfold chain_input_json, buildChainInput in H. cbn in H. by rewrite E in H.
Qed.

(** The last event a hash covers, and what came before it, are determined by the
    hash. *)
Lemma row_hash_inj prev prev' r r' h :
  Forall (fun b => 0 <= b < 256) prev -> Forall (fun b => 0 <= b < 256) prev' ->
  row_ok r -> row_ok r' ->
  row_hash sha256 prev r = Some h -> row_hash sha256 prev' r' = Some h ->
  (prev = prev' /\ same_event r r') \/
  exists x y, row_input prev r = Some x /\ row_input prev' r' = Some y /\ x <> y /\ sha256 x = sha256 y.
Proof.
  intros Hp Hp' [Hi Hu] [Hi' Hu'] H H'.
  apply row_hash_text in H as (p & t & Ep & Et & Ei & H); [|done].
  apply row_hash_text in H' as (p' & t' & Ep' & Et' & Ei' & H'); [|done].
  destruct (decide (prev ++ js_utf8 t = prev' ++ js_utf8 t')) as [Heq|Hne].
  2: { right. exists (prev ++ js_utf8 t), (prev' ++ js_utf8 t'). split_and!; [done..|congruence]. }
  left. pose proof (jcs_well_formed _ _ Ep Hu) as Hw. pose proof (jcs_well_formed _ _ Ep' Hu') as Hw'.
  destruct (hex_quote prev Hp) as (_ & Ha & Hq & Hl).
  destruct (hex_quote prev' Hp') as (_ & Ha' & Hq' & Hl').
  assert (Hsplit : forall s c i q g, ascii_units s -> ascii_units c -> units_ok i ->
    js_well_formed q = true -> ascii_units g ->
    js_utf8 (canon_text s c i q g) = (js_utf8 (canon_head s c i q) ++ 34 :: g) ++ [34; 125]).
  { intros s c i q g ? ? ? ? Hg. unfold canon_text.
    rewrite js_utf8_app by (by apply canon_head_well_formed). rewrite <- app_assoc. f_equal.
    apply js_utf8_ascii. cbn [app]. constructor; [lia|]. rewrite Forall_app. split; [done|].
    repeat (constructor; [lia|]); done. }
  assert (Hprev : prev = prev').
  { pose proof Heq as H2. rewrite Et, Et' in H2.
    rewrite !Hsplit in H2 by (auto using js_of_Z_ascii, toISOString_ascii).
    rewrite !app_assoc in H2. apply app_inj_2 in H2 as [H2 _]; [|done].
    apply last_unit_split in H2 as [_ Hhex]; [|done..].
    apply (f_equal length) in Hhex. rewrite Hl, Hl' in Hhex.
    by apply app_inj_1 in Heq as [? _]; [|lia]. }
  split; [done|]. rewrite Hprev in Heq. apply app_inv_head in Heq. rewrite Et, Et' in Heq.
  apply canon_text_inj in Heq as (Hs & Hc & Hid & Hpp);
    auto using js_of_Z_ascii, toISOString_ascii.
  apply js_of_Z_inj in Hs. unfold same_event. by rewrite Ep, Ep', Hpp.
Qed.

Lemma linked_snoc prev rows r :
  linked sha256 prev (rows ++ [r]) <->
  linked sha256 prev rows /\ cr_chain_prev_hash r = Some (final_hash prev rows) /\
  row_hash sha256 (final_hash prev rows) r = Some (cr_event_hash r).
Proof.
  revert prev. induction rows as [|r0 rows IH]; intros prev; simpl.
  - change (final_hash prev []) with prev. tauto.
  - rewrite IH, final_hash_cons. tauto.
Qed.

Lemma final_hash_snoc prev rows r : final_hash prev (rows ++ [r]) = cr_event_hash r.
Proof. unfold final_hash. by rewrite last_snoc. Qed.

Lemma final_hash_bytes seed rows :
  Forall (fun b => 0 <= b < 256) seed -> linked sha256 seed rows ->
  Forall (fun b => 0 <= b < 256) (final_hash seed rows) /\
  (rows <> [] -> length (final_hash seed rows) = 32%nat).
Proof.
  intros Hs Hl. destruct rows as [|r rows _] using rev_ind; [done|].
  apply linked_snoc in Hl as (_ & _ & Hh). rewrite final_hash_snoc.
  unfold row_hash, computeEventHash in Hh. destruct (computeCanonicalBytes _); simplify_eq/=.
  rewrite <- Hh. auto.
Qed.

Lemma hashed_inputs_snoc prev rows r :
  hashed_inputs prev (rows ++ [r])
  = hashed_inputs prev rows ++ from_option (fun x => [x]) [] (row_input (final_hash prev rows) r).
Proof.
  revert prev. induction rows as [|r0 rows IH]; intros prev; simpl.
  - change (final_hash prev []) with prev. by rewrite app_nil_r.
  - by rewrite IH, final_hash_cons, app_assoc.
Qed.

Lemma chains_agree seed rows rows' :
  Forall (fun b => 0 <= b < 256) seed -> length seed <> 32%nat ->
  linked sha256 seed rows -> linked sha256 seed rows' ->
  Forall row_ok rows -> Forall row_ok rows' ->
  final_hash seed rows = final_hash seed rows' ->
  Forall2 same_event rows rows' \/ collision (hashed_inputs seed rows) (hashed_inputs seed rows').
Proof.
  intros Hs Hsl. revert rows'. induction rows as [|r rows IH] using rev_ind;
    intros rows' Hl Hl' Hok Hok' Hf.
  - destruct rows' as [|r' rows' _] using rev_ind; [by left|]. exfalso.
    destruct (final_hash_bytes seed (rows' ++ [r']) Hs Hl') as [_ Hlen].
    rewrite <- Hf in Hlen. change (final_hash seed []) with seed in Hlen.
    apply Hsl, Hlen. by destruct rows'.
  - destruct rows' as [|r' rows' _] using rev_ind.
    { exfalso. destruct (final_hash_bytes seed (rows ++ [r]) Hs Hl) as [_ Hlen].
      rewrite Hf in Hlen. apply Hsl, Hlen. by destruct rows. }
    apply linked_snoc in Hl as (Hl & _ & Hh), Hl' as (Hl' & _ & Hh').
    apply Forall_app in Hok as [Hok Hr], Hok' as [Hok' Hr'].
    rewrite Forall_singleton in Hr, Hr'. rewrite !final_hash_snoc in Hf. rewrite <- Hf in Hh'.
    destruct (final_hash_bytes seed rows Hs Hl) as [Hb _].
    destruct (final_hash_bytes seed rows' Hs Hl') as [Hb' _].
    rewrite !hashed_inputs_snoc.
    destruct (row_hash_inj _ _ _ _ _ Hb Hb' Hr Hr' Hh Hh') as [[Hp Hsame]|(x & y & Ex & Ey & Hxy)].
    2: { right. exists x, y. rewrite Ex, Ey. simpl. rewrite !elem_of_app, !list_elem_of_singleton. tauto. }
    destruct (IH rows' Hl Hl' Hok Hok' Hp) as [HF|Hc].
    2: { right. revert Hc. apply collision_mono; intros z; rewrite elem_of_app; tauto. }
    left. by apply Forall2_app; [|constructor].
Qed.
End Tamper.

(** ** Key order *)

#[local] Instance js_le_total : Total js_le.
Proof.
  intros a. unfold js_le. induction a as [|x a IH]; intros [|y b]; simpl; auto.
  destruct (Z.ltb_spec x y), (Z.ltb_spec y x), (Z.eqb_spec x y), (Z.eqb_spec y x);
    simpl; auto; try lia.
Qed.
#[local] Instance js_le_trans : Transitive js_le.
Proof.
  unfold js_le. intros a. induction a as [|x a IH]; intros [|y b] [|z c]; simpl; try done.
  intros H1 H2. apply orb_true_iff in H1, H2. apply orb_true_iff.
  destruct H1 as [H1|H1], H2 as [H2|H2]; bools; subst.
  1-3: left; apply Z.ltb_lt; lia. right. rewrite Z.eqb_refl. simpl. eauto.
Qed.
#[local] Instance js_le_antisymm : AntiSymm (=) js_le.
Proof.
  unfold js_le. intros a. induction a as [|x a IH]; intros [|y b]; simpl; try done.
  intros H1 H2. apply orb_true_iff in H1, H2.
  destruct H1 as [H1|H1], H2 as [H2|H2]; bools; subst; try lia. f_equal. auto.
Qed.

(** Sorting forgets the original order. *)
Lemma sort_keys_perm ks ks' : ks ≡ₚ ks' -> sort_keys ks = sort_keys ks'.
Proof.
  intros H. apply (StronglySorted_unique js_le).
  - apply (StronglySorted_merge_sort js_le).
  - apply (StronglySorted_merge_sort js_le).
  - unfold sort_keys. by rewrite !merge_sort_Permutation.
Qed.

(** Two values that differ in the order of object properties. *)
Inductive json_equiv : json -> json -> Prop :=
| je_refl v : json_equiv v v
| je_arr l l' : Forall2 json_equiv l l' -> json_equiv (JArr l) (JArr l')
| je_obj l l1 l' :
    Forall2 (fun a b => fst a = fst b /\ json_equiv (snd a) (snd b)) l l1 ->
    l1 ≡ₚ l' -> NoDup (map fst l') -> json_equiv (JObj l) (JObj l').

Lemma entry_of_perm kvs kvs' k :
  kvs ≡ₚ kvs' -> NoDup (map fst kvs') -> entry_of kvs k = entry_of kvs' k.
Proof.
  intros Hp Hnd. unfold entry_of.
  assert (Hnd' : NoDup (map fst kvs)) by (by rewrite Hp).
  assert (Huniq : forall l kv, NoDup (map fst l) -> kv ∈ l -> fst kv = k ->
    List.find (fun kv : jsstr * jsstr => fst kv =s k) l = Some kv).
  { intros l kv Hl. induction l as [|x l IH]; intros Hin Hk; [by apply not_elem_of_nil in Hin|].
    apply NoDup_cons in Hl as [Hx Hl]. simpl. case_bool_decide as Hxk.
    - apply elem_of_cons in Hin as [->|Hin]; [done|]. destruct Hx. rewrite Hxk, <- Hk.
      by apply list_elem_of_fmap_2.
    - apply elem_of_cons in Hin as [->|Hin]; [done|]. auto. }
  destruct (List.find _ kvs) as [kv|] eqn:E.
  - apply find_some in E as [Hin Hk]. apply bool_decide_eq_true in Hk.
    rewrite (Huniq kvs' kv); [done..| |done]. rewrite <- Hp. by apply list_elem_of_In.
  - destruct (List.find _ kvs') as [kv|] eqn:E'; [|done].
    apply find_some in E' as [Hin Hk]. apply list_elem_of_In in Hin. rewrite <- Hp in Hin.
    apply list_elem_of_In in Hin. pose proof (find_none _ _ E _ Hin) as Hn. simpl in Hn. congruence.
Qed.

Lemma mapM_perm {A B} (f : A -> option B) l l' :
  l ≡ₚ l' -> match mapM f l, mapM f l' with
             | Some k, Some k' => k ≡ₚ k'
             | None, None => True
             | _, _ => False
             end.
Proof.
  induction 1 as [|x l l' _ IH|x y l|l1 l2 l3 _ IH1 _ IH2]; simpl.
  - done.
  - destruct (f x); simpl; [|done]. destruct (mapM f l), (mapM f l'); simpl; try done. by constructor.
  - destruct (f x), (f y); simpl; try done; destruct (mapM f l); simpl; try done. constructor.
  - destruct (mapM f l1), (mapM f l2), (mapM f l3); try done. by etrans.
Qed.

(** Canonicalisation ignores the order of object properties at every depth. *)
Lemma jcs_equiv v w : json_equiv v w -> jcsCanonical v = jcsCanonical w.
Proof.
  revert w. induction v as [|b|x|s|l IH|l IH] using json_ind'; intros w Hw; inversion Hw as
    [|? l' HF|? l1 l' HF Hp Hnd]; subst; try done; simpl.
  - replace (mapM jcsCanonical l') with (mapM jcsCanonical l); [done|]. clear Hw.
    induction HF as [|a b l l' Hab _ IHF]; [done|]. apply Forall_cons in IH as [IHa IH].
    simpl. by rewrite (IHa _ Hab), IHF.
  - set (f := fun kv : jsstr * json => pair (fst kv) <$> jcsCanonical (snd kv)).
    assert (Hm : mapM f l = mapM f l1).
    { clear Hw Hp Hnd. induction HF as [|a b l l1 [Hk Hab] _ IHF]; [done|].
      apply Forall_cons in IH as [IHa IH]. simpl.
      replace (f a) with (f b) by (unfold f; by rewrite Hk, (IHa _ Hab)). by rewrite IHF. }
    assert (Hkeys : map fst l = map fst l1).
    { clear -HF. induction HF as [|a b l l1 [Hk _] _ IHF]; simpl; congruence. }
    pose proof (mapM_perm f l1 l' Hp) as HP. rewrite Hm, Hkeys.
    destruct (mapM f l1) as [k1|] eqn:E1, (mapM f l') as [k'|] eqn:E'; try done.
    cbn. rewrite (sort_keys_perm (map fst l1) (map fst l')) by (by apply Permutation_map).
    do 4 f_equal. apply map_ext. intros k. do 3 f_equal. apply entry_of_perm; [done|].
    assert (Hk : map fst k' = map fst l').
    { apply mapM_Some in E'. clear -E'. induction E' as [|a ka l' k' Ha _ IHF]; [done|].
      unfold f in Ha. destruct (jcsCanonical (snd a)); simplify_eq/=. by f_equal. }
    by rewrite Hk.
Qed.

(** ** Properties *)

(** The verifier's verdict.  [verifyChainRows] answers ok exactly when every
    row points back to its predecessor and carries the hash of its own canonical
    event, sequence numbers are consecutive, timestamps do not decrease, the
    requested range is non-empty and covered, and, when the walk is comparable,
    its last hash is the anchor's. *)
Theorem verifyChainRows_ok_iff sha256 input :
  seqs_ok (vi_rows input) ->
  (exists o, verifyChainRows sha256 input = Some o /\ vo_ok o = true /\ vo_reason o = None) <->
  chain_accepts sha256 input.
Proof.
  intros Hs. rewrite <- verify_accepts by done. split.
  - intros (o & Ho & Hok & _). eauto.
  - intros (o & Ho & Hok). exists o. split_and!; [done..|].
    unfold verifyChainRows in Ho. destruct (walk_rows _ _ _); simplify_eq/=. by rewrite Hok.
Qed.

(** C13: tamper evidence.  Two walks from genesis that the verifier accepts against
    the same anchor record the same events in the same order: same ids, sequence
    numbers, timestamps and canonical payloads, row by row.  The only exception is
    a SHA-256 collision among the strings the two walks themselves hashed: one
    input of the first chain and a different one of the second with one digest. *)
Theorem anchored_chain_tamper_evident sha256 a b h oa ob :
  (forall x, length (sha256 x) = 32%nat) ->
  (forall x, Forall (fun c => 0 <= c < 256) (sha256 x)) ->
  seqs_ok (vi_rows a) -> seqs_ok (vi_rows b) ->
  Forall row_ok (vi_rows a) -> Forall row_ok (vi_rows b) ->
  vi_seedPrevHash a = GENESIS_PREV_HASH -> vi_seedPrevHash b = GENESIS_PREV_HASH ->
  vi_anchorComparable a = true -> vi_anchorComparable b = true ->
  vi_anchorPrevHash a = Some h -> vi_anchorPrevHash b = Some h ->
  verifyChainRows sha256 a = Some oa -> vo_ok oa = true ->
  verifyChainRows sha256 b = Some ob -> vo_ok ob = true ->
  Forall2 same_event (vi_rows a) (vi_rows b) \/
  collision sha256 (hashed_inputs GENESIS_PREV_HASH (vi_rows a))
    (hashed_inputs GENESIS_PREV_HASH (vi_rows b)).
Proof.
  intros Hlen Hby Hsa Hsb Hra Hrb Hga Hgb Hca Hcb Hha Hhb Hva Hoa Hvb Hob.
  destruct (proj1 (verify_accepts sha256 a Hsa)) as (Hla & _ & _ & _ & Hfa); [eauto|].
  destruct (proj1 (verify_accepts sha256 b Hsb)) as (Hlb & _ & _ & _ & Hfb); [eauto|].
  rewrite Hga in *. rewrite Hgb in *. apply (chains_agree sha256 Hlen Hby GENESIS_PREV_HASH);
    [by repeat constructor|done..|]. rewrite <- (Hfa Hca h Hha). by apply Hfb.
Qed.

(** A digest for examples: 31 zero bytes and a checksum. *)
Definition toy_hash (x : list Z) : list Z :=
  replicate 31 0 ++ [fold_left (fun a c => (31 * a + c) mod 256) x 7].

Definition toy_row : ChainVerifyRow :=
  {| cr_id := js "a1"; cr_created_at := 1700000000000; cr_chain_seq := 1;
     cr_event_hash := default [] (row_hash toy_hash [0]
       {| cr_id := js "a1"; cr_created_at := 1700000000000; cr_chain_seq := 1;
          cr_event_hash := []; cr_chain_prev_hash := Some [0];
          cr_metadata := JObj [(js "b", JNum (Dbl 1 0)); (js "a", JStr (js "x"))] |});
     cr_chain_prev_hash := Some [0];
     cr_metadata := JObj [(js "a", JStr (js "x")); (js "b", JNum (Dbl 1 0))] |}.
Definition toy_input : ChainVerifyInput :=
  {| vi_rows := [toy_row]; vi_seedPrevHash := GENESIS_PREV_HASH; vi_fromSeq := 1; vi_toSeq := 1;
     vi_anchorPrevHash := Some (cr_event_hash toy_row); vi_anchorComparable := true;
     vi_rowCap := 10000 |}.

Lemma verifyChainRows_ok_iff_witness : chain_accepts toy_hash toy_input.
Proof.
  apply (verifyChainRows_ok_iff toy_hash toy_input).
  - apply Forall_singleton. vm_compute. split; [discriminate|reflexivity].
  - eexists. split_and!; vm_compute; reflexivity.
Defined.

Lemma anchored_chain_tamper_evident_witness :
  Forall2 same_event [toy_row] [toy_row] \/
  collision toy_hash (hashed_inputs GENESIS_PREV_HASH [toy_row])
    (hashed_inputs GENESIS_PREV_HASH [toy_row]).
Proof.
  assert (Hr : row_ok toy_row).
  { split; [|cbn; split_and!];
      first [exact I | apply (bool_decide_unpack _); vm_compute; exact I]. }
  assert (Hs : seqs_ok (vi_rows toy_input)).
  { apply Forall_singleton. vm_compute. split; [discriminate|reflexivity]. }
  destruct (verifyChainRows toy_hash toy_input) as [o|] eqn:E; [|vm_compute in E; discriminate].
  assert (Ho : vo_ok o = true) by (vm_compute in E; injection E as <-; reflexivity).
  assert (Hrs : Forall row_ok (vi_rows toy_input)) by (apply Forall_singleton; exact Hr).
  refine (anchored_chain_tamper_evident toy_hash toy_input toy_input (cr_event_hash toy_row) o o
    _ _ Hs Hs Hrs Hrs eq_refl eq_refl eq_refl eq_refl eq_refl eq_refl E Ho E Ho).
  - intros x. unfold toy_hash. rewrite length_app, length_replicate. reflexivity.
  - intros x. apply Forall_app_2; [apply Forall_replicate; lia|]. apply Forall_singleton.
    induction x as [|c x _] using rev_ind; [simpl; lia|]. rewrite fold_left_app. simpl.
    apply Z.mod_pos_bound. lia.
Defined.
