(* ===== verification/AuditOutbox.v ===== *)
(** * Delivery of audit events from the outbox into the chained log

    Models the delivery transactions of src/src/workers/audit-outbox-worker.ts:
    [parsePayload], [deliverRow], [deliverRowWithChain] and the two enqueue
    steps they run when they win the insert.  The anchor row is locked FOR
    UPDATE for the whole transaction, so deliveries of one tenant are serial and
    a transaction is one step on the database.  The theorems connect the writer
    to the verifier of the same chain. *)

From S2P Require Import Prelude JsString JsNumber JsJson AuditChain.
Local Open Scope Z_scope.

(** ** Payloads *)

Record AuditOutboxPayload := {
  pl_scope : jsstr; pl_action : jsstr; pl_userId : jsstr; pl_actorType : jsstr;
  pl_serviceAccountId : option jsstr; pl_teamId : option jsstr; pl_targetType : option jsstr;
  pl_targetId : option jsstr; pl_metadata : option json; pl_ip : option jsstr;
  pl_userAgent : option jsstr }.

(** [None] is the throw on a payload that is not an object. *)
Definition parsePayload (raw : json) : option AuditOutboxPayload :=
  match raw with
  | JObj _ | JArr _ =>
      Some {| pl_scope := default (js "PERSONAL") (get_string raw (js "scope"));
              pl_action := default [] (get_string raw (js "action"));
              pl_userId := default [] (get_string raw (js "userId"));
              pl_actorType := default (js "HUMAN") (get_string raw (js "actorType"));
              pl_serviceAccountId := get_string raw (js "serviceAccountId");
              pl_teamId := get_string raw (js "teamId");
              pl_targetType := get_string raw (js "targetType");
              pl_targetId := get_string raw (js "targetId");
              pl_metadata := match json_get raw (js "metadata") with
                             | (JObj _ | JArr _) as m => Some m
                             | _ => None
                             end;
              pl_ip := get_string raw (js "ip");
              pl_userAgent := get_string raw (js "userAgent") |}
  | _ => None
  end.

(** ** State *)

Record anchor := { an_chain_seq : Z; an_prev_hash : list Z; an_publish_paused_until : option Z }.
Inductive outbox_status := OB_PENDING | OB_PROCESSING | OB_SENT | OB_FAILED.
Record outbox_row := { ob_id : jsstr; ob_tenant_id : jsstr; ob_created_at : Z }.

Record chain_cols := { cc_chain_seq : Z; cc_event_hash : list Z; cc_chain_prev_hash : list Z }.
Record log_row := {
  lg_id : jsstr; lg_tenant_id : jsstr; lg_payload : AuditOutboxPayload; lg_created_at : Z;
  lg_outbox_id : jsstr; lg_chain : option chain_cols }.

Inductive webhook_scope := WH_TENANT | WH_TEAM.
#[export] Instance webhook_scope_eq_dec : EqDecision webhook_scope.
Proof. solve_decision. Defined.
Record webhook_delivery := {
  wd_outbox_id : jsstr; wd_tenant_id : jsstr; wd_scope : webhook_scope; wd_team_id : option jsstr;
  wd_action : jsstr }.
Record delivery_target := {
  dt_id : jsstr; dt_tenant_id : jsstr; dt_isActive : bool; dt_kind : jsstr }.
Record audit_delivery := { ad_outboxId : jsstr; ad_targetId : jsstr; ad_tenantId : jsstr }.

Record chain_db := {
  db_anchors : gmap jsstr anchor; db_logs : list log_row; db_outbox : gmap jsstr outbox_status;
  db_webhooks : list webhook_delivery; db_targets : list delivery_target;
  db_deliveries : list audit_delivery }.

Definition set_anchors (f : gmap jsstr anchor -> gmap jsstr anchor) (db : chain_db) : chain_db :=
  {| db_anchors := f (db_anchors db); db_logs := db_logs db; db_outbox := db_outbox db;
     db_webhooks := db_webhooks db; db_targets := db_targets db;
     db_deliveries := db_deliveries db |}.
Definition add_log (l : log_row) (db : chain_db) : chain_db :=
  {| db_anchors := db_anchors db; db_logs := db_logs db ++ [l]; db_outbox := db_outbox db;
     db_webhooks := db_webhooks db; db_targets := db_targets db;
     db_deliveries := db_deliveries db |}.
Definition set_outbox (id : jsstr) (s : outbox_status) (db : chain_db) : chain_db :=
  {| db_anchors := db_anchors db; db_logs := db_logs db;
     db_outbox := alter (fun _ => s) id (db_outbox db); db_webhooks := db_webhooks db;
     db_targets := db_targets db; db_deliveries := db_deliveries db |}.
Definition set_queues (w : list webhook_delivery) (d : list audit_delivery) (db : chain_db)
    : chain_db :=
  {| db_anchors := db_anchors db; db_logs := db_logs db; db_outbox := db_outbox db;
     db_webhooks := w; db_targets := db_targets db; db_deliveries := d |}.

(** ** Enqueue steps *)

Definition OUTBOX_BYPASS_AUDIT_ACTIONS : list jsstr :=
  [js "WEBHOOK_DELIVERY_FAILED"; js "TENANT_WEBHOOK_DELIVERY_FAILED"; js "AUDIT_OUTBOX_REAPED";
   js "AUDIT_OUTBOX_DEAD_LETTER"; js "AUDIT_OUTBOX_RETENTION_PURGED"; js "AUDIT_DELIVERY_FAILED";
   js "AUDIT_DELIVERY_DEAD_LETTER"; js "AUDIT_WEBHOOK_DELIVERY_DEAD_LETTER"].

Definition WEBHOOK_DISPATCH_SUPPRESS : list jsstr :=
  [js "AUDIT_OUTBOX_REAPED"; js "AUDIT_OUTBOX_DEAD_LETTER"; js "AUDIT_OUTBOX_RETENTION_PURGED";
   js "AUDIT_OUTBOX_METRICS_VIEW"; js "AUDIT_OUTBOX_PURGE_EXECUTED"; js "AUDIT_DELIVERY_FAILED";
   js "AUDIT_DELIVERY_DEAD_LETTER"; js "AUDIT_WEBHOOK_DELIVERY_DEAD_LETTER";
   js "AUDIT_ANCHOR_PUBLISHED"; js "AUDIT_ANCHOR_PUBLISH_FAILED"; js "AUDIT_ANCHOR_PUBLISH_PAUSED";
   js "AUDIT_ANCHOR_KEY_ROTATED"; js "AUDIT_CHAIN_VERIFY"; js "AUDIT_DELIVERY_TARGET_CREATE";
   js "AUDIT_DELIVERY_TARGET_DEACTIVATE"; js "AUDIT_DELIVERY_TARGET_REACTIVATE";
   js "RATE_LIMIT_FAIL_CLOSED"].

Definition enqueueWebhookDeliveryInTx (row : outbox_row) (payload : AuditOutboxPayload)
    (db : chain_db) : chain_db :=
  if bool_decide (pl_action payload ∈ OUTBOX_BYPASS_AUDIT_ACTIONS)
     || bool_decide (pl_action payload ∈ WEBHOOK_DISPATCH_SUPPRESS) then db
  else
    let insert scope teamId :=
      let w := {| wd_outbox_id := ob_id row; wd_tenant_id := ob_tenant_id row; wd_scope := scope;
                  wd_team_id := teamId; wd_action := pl_action payload |} in
      if existsb (fun w' => (wd_outbox_id w' =s wd_outbox_id w)
                            && bool_decide (wd_scope w' = wd_scope w)
                            && bool_decide (wd_team_id w' = wd_team_id w)) (db_webhooks db)
      then db else set_queues (db_webhooks db ++ [w]) (db_deliveries db) db in
    match pl_teamId payload with
    | Some (c :: r) =>
        if pl_scope payload =s js "TEAM" then insert WH_TEAM (Some (c :: r))
        else if pl_scope payload =s js "TENANT" then insert WH_TENANT None else db
    | _ => if pl_scope payload =s js "TENANT" then insert WH_TENANT None else db
    end.

Definition enqueueAuditDeliveriesInTx (outboxId tenantId : jsstr) (db : chain_db) : chain_db :=
  let targets := List.filter (fun t => (dt_tenant_id t =s tenantId) && dt_isActive t
                                       && negb (dt_kind t =s js "DB")) (db_targets db) in
  let add ds t :=
    if existsb (fun d => (ad_outboxId d =s outboxId) && (ad_targetId d =s dt_id t)) ds then ds
    else ds ++ [{| ad_outboxId := outboxId; ad_targetId := dt_id t; ad_tenantId := tenantId |}] in
  set_queues (db_webhooks db) (fold_left add targets (db_deliveries db)) db.

Arguments enqueueWebhookDeliveryInTx : simpl never.
Arguments enqueueAuditDeliveriesInTx : simpl never.

(** ** The transactions *)

(** A throw rolls the transaction back. *)
Inductive deliver_error := AnchorMissing | CanonicalizationFailed | DuplicateId.

Record deliver_result := { dr_delivered : bool; dr_inserted : bool }.

(** The INSERT ... ON CONFLICT (outbox_id) DO NOTHING: [None] on a primary-key
    clash, otherwise whether a row was inserted. *)
Definition insert_log (l : log_row) (db : chain_db) : option (chain_db * bool) :=
  if existsb (fun l' => lg_outbox_id l' =s lg_outbox_id l) (db_logs db) then Some (db, false)
  else if existsb (fun l' => lg_id l' =s lg_id l) (db_logs db) then None
  else Some (add_log l db, true).

Definition deliverRow (row : outbox_row) (payload : AuditOutboxPayload) (logId : jsstr)
    (db : chain_db) : outcome deliver_error (chain_db * deliver_result) :=
  let l := {| lg_id := logId; lg_tenant_id := ob_tenant_id row; lg_payload := payload;
              lg_created_at := ob_created_at row; lg_outbox_id := ob_id row; lg_chain := None |} in
  match insert_log l db with
  | None => Throw DuplicateId
  | Some (db1, inserted) =>
      let db2 := if inserted
                 then enqueueAuditDeliveriesInTx (ob_id row) (ob_tenant_id row)
                        (enqueueWebhookDeliveryInTx row payload db1)
                 else db1 in
      Ok (set_outbox (ob_id row) OB_SENT db2, {| dr_delivered := true; dr_inserted := inserted |})
  end.

Section Deliver.
Variable sha256 : list Z -> list Z.

Definition deliverRowWithChain (now : Z) (row : outbox_row) (payload : AuditOutboxPayload)
    (auditLogId : jsstr) (db : chain_db) : outcome deliver_error (chain_db * deliver_result) :=
  let tenant := ob_tenant_id row in
  let fresh := {| an_chain_seq := 0; an_prev_hash := GENESIS_PREV_HASH;
                  an_publish_paused_until := None |} in
  let db := set_anchors (fun m => match m !! tenant with
                                  | Some _ => m
                                  | None => <[tenant := fresh]> m
                                  end) db in
  match db_anchors db !! tenant with
  | None => Throw AnchorMissing
  | Some anchor =>
      if match an_publish_paused_until anchor with Some u => now <? u | None => false end then
        Ok (set_outbox (ob_id row) OB_PENDING db,
            {| dr_delivered := false; dr_inserted := false |})
      else
        let newSeq := an_chain_seq anchor + 1 in
        let prevHashBuf := an_prev_hash anchor in
        let metadataObj := default (JObj []) (pl_metadata payload) in
        match computeCanonicalBytes
                (buildChainInput auditLogId (ob_created_at row) newSeq prevHashBuf metadataObj) with
        | None => Throw CanonicalizationFailed
        | Some canonicalBytes =>
            let eventHash := computeEventHash sha256 prevHashBuf canonicalBytes in
            let l := {| lg_id := auditLogId; lg_tenant_id := tenant; lg_payload := payload;
                        lg_created_at := ob_created_at row; lg_outbox_id := ob_id row;
                        lg_chain := Some {| cc_chain_seq := newSeq; cc_event_hash := eventHash;
                                            cc_chain_prev_hash := prevHashBuf |} |} in
            match insert_log l db with
            | None => Throw DuplicateId
            | Some (db1, inserted) =>
                let db2 :=
                  if inserted then
                    let upd a := {| an_chain_seq := newSeq; an_prev_hash := eventHash;
                                    an_publish_paused_until := an_publish_paused_until a |} in
                    enqueueAuditDeliveriesInTx (ob_id row) tenant
                      (enqueueWebhookDeliveryInTx row payload
                         (set_anchors (alter upd tenant) db1))
                  else db1 in
                Ok (set_outbox (ob_id row) OB_SENT db2,
                    {| dr_delivered := true; dr_inserted := inserted |})
            end
        end
  end.
End Deliver.

(** ** Runs of the worker *)

(** The events that change the chain: deliveries of outbox rows, with or without
    the chain, and the publisher setting or clearing its pause flag. *)
Inductive worker_event :=
| WChain (now : Z) (row : outbox_row) (raw : json) (logId : jsstr)
| WPlain (row : outbox_row) (raw : json) (logId : jsstr)
| WPause (tenant : jsstr) (until : option Z).

Definition worker_step (sha256 : list Z -> list Z) (db : chain_db) (e : worker_event) : chain_db :=
  match e with
  | WChain now row raw logId =>
      match parsePayload raw with
      | None => db
      | Some payload =>
          match deliverRowWithChain sha256 now row payload logId db with
          | Ok (db', _) => db'
          | Throw _ => db
          end
      end
  | WPlain row raw logId =>
      match parsePayload raw with
      | None => db
      | Some payload =>
          match deliverRow row payload logId db with Ok (db', _) => db' | Throw _ => db end
      end
  | WPause tenant until =>
      set_anchors (alter (fun a => {| an_chain_seq := an_chain_seq a;
                                      an_prev_hash := an_prev_hash a;
                                      an_publish_paused_until := until |}) tenant) db
  end.

Definition worker_run (sha256 : list Z -> list Z) (es : list worker_event) (db : chain_db) : chain_db :=
  fold_left (worker_step sha256) es db.

Definition chain_row (l : log_row) (c : chain_cols) : ChainVerifyRow :=
  {| cr_id := lg_id l; cr_created_at := lg_created_at l; cr_chain_seq := cc_chain_seq c;
     cr_event_hash := cc_event_hash c; cr_chain_prev_hash := Some (cc_chain_prev_hash c);
     cr_metadata := default JNull (pl_metadata (lg_payload l)) |}.

(** The chained rows of a tenant, in the order of insertion. *)
Definition tenant_rows (tenant : jsstr) (logs : list log_row) : list ChainVerifyRow :=
  omap (fun l => if lg_tenant_id l =s tenant then chain_row l <$> lg_chain l else None) logs.

(** ** The chain the writer builds *)

Section Writer.
Variable sha256 : list Z -> list Z.

Definition chain_inv (tenant : jsstr) (db : chain_db) : Prop :=
  let rows := tenant_rows tenant (db_logs db) in
  match db_anchors db !! tenant with
  | None => rows = []
  | Some a =>
      linked sha256 GENESIS_PREV_HASH rows /\ consecutive (Some 0) rows /\
      an_chain_seq a = Z.of_nat (length rows) /\ an_prev_hash a = final_hash GENESIS_PREV_HASH rows
  end.

Definition outbox_once (db : chain_db) : Prop := NoDup (map lg_outbox_id (db_logs db)).

(** What one step may do to the logs and the anchors. *)
Lemma enqueue_frame row payload db :
  let db' := enqueueWebhookDeliveryInTx row payload db in
  db_logs db' = db_logs db /\ db_anchors db' = db_anchors db.
Proof. unfold enqueueWebhookDeliveryInTx. repeat case_match; done. Qed.

Lemma commit_frame row payload o t id st db :
  let db' := set_outbox id st (enqueueAuditDeliveriesInTx o t
               (enqueueWebhookDeliveryInTx row payload db)) in
  db_logs db' = db_logs db /\ db_anchors db' = db_anchors db.
Proof. apply enqueue_frame. Qed.

Lemma insert_log_cases l db db' b :
  insert_log l db = Some (db', b) ->
  (b = false /\ db' = db /\ exists l', l' ∈ db_logs db /\ lg_outbox_id l' = lg_outbox_id l) \/
  (b = true /\ db' = add_log l db /\ lg_outbox_id l ∉ map lg_outbox_id (db_logs db)).
Proof.
  unfold insert_log. destruct (existsb _ (db_logs db)) eqn:E.
  - intros [= <- <-]. left. split_and!; [done..|]. apply existsb_exists in E as (l' & Hin & Hl).
    bools. exists l'. by rewrite list_elem_of_In.
  - case_match; [done|]. intros [= <- <-]. right. split_and!; [done..|].
    intros (l' & Heq & Hin)%list_elem_of_fmap. apply list_elem_of_In in Hin.
    rewrite <- not_true_iff_false in E. apply E, existsb_exists. exists l'. split; [done|].
    apply bool_decide_eq_true. done.
Qed.

Lemma payload_of_parsed raw payload :
  parsePayload raw = Some payload ->
  payload_of (default JNull (pl_metadata payload)) = default (JObj []) (pl_metadata payload).
Proof.
  intros H. assert (Hm : pl_metadata payload = match json_get raw (js "metadata") with
    | (JObj _ | JArr _) as m => Some m | _ => None end).
  { destruct raw; simplify_eq/=; done. }
  rewrite Hm. by destruct (json_get raw (js "metadata")).
Qed.

Lemma consecutive_snoc p rows r :
  consecutive (Some p) (rows ++ [r]) <->
  consecutive (Some p) rows /\ cr_chain_seq r = default p (last_seq (Some p) rows) + 1.
Proof.
  revert p. induction rows as [|r0 rows IH]; intros p; cbn [app consecutive].
  - cbn. split; [intros [H _]; auto|]. intros [_ H]. split; [|done]. by intros ? [= <-].
  - rewrite IH, last_seq_cons. 
    assert (Hd : forall q, default q (last_seq (Some (cr_chain_seq r0)) rows)
      = default p (last_seq (Some (cr_chain_seq r0)) rows)).
    { intros q. unfold last_seq. by destruct (last rows). }
    rewrite (Hd (cr_chain_seq r0)). tauto.
Qed.

Lemma consecutive_last p rows :
  consecutive (Some p) rows -> last_seq (Some p) rows = Some (p + Z.of_nat (length rows)).
Proof.
  revert p. induction rows as [|r rows IH]; intros p; [intros _; cbn; f_equal; lia|].
  intros [H1 H2]. rewrite last_seq_cons, IH by done. rewrite (H1 p eq_refl). simpl. f_equal. lia.
Qed.

(** Extending the chain by the row the writer computes. *)
Lemma chain_extend rows seq prev r :
  linked sha256 GENESIS_PREV_HASH rows -> consecutive (Some 0) rows ->
  seq = Z.of_nat (length rows) -> prev = final_hash GENESIS_PREV_HASH rows ->
  cr_chain_seq r = seq + 1 -> cr_chain_prev_hash r = Some prev ->
  row_hash sha256 prev r = Some (cr_event_hash r) ->
  linked sha256 GENESIS_PREV_HASH (rows ++ [r]) /\ consecutive (Some 0) (rows ++ [r]) /\
  seq + 1 = Z.of_nat (length (rows ++ [r])) /\
  cr_event_hash r = final_hash GENESIS_PREV_HASH (rows ++ [r]).
Proof.
  intros Hl Hc -> -> Hs Hp Hh. rewrite linked_snoc, consecutive_snoc, length_app, final_hash_snoc.
  rewrite consecutive_last by done. cbn. split_and!; try done; lia.
Qed.

Lemma tenant_rows_snoc t logs l :
  tenant_rows t (logs ++ [l]) = tenant_rows t logs ++
  match lg_chain l with
  | Some c => if lg_tenant_id l =s t then [chain_row l c] else []
  | None => []
  end.
Proof.
  unfold tenant_rows. rewrite omap_app. f_equal. cbn.
  destruct (lg_tenant_id l =s t), (lg_chain l); done.
Qed.

Lemma chain_inv_frame t db db' :
  db_logs db' = db_logs db -> db_anchors db' !! t = db_anchors db !! t ->
  chain_inv t db -> chain_inv t db'.
Proof. unfold chain_inv. by intros -> ->. Qed.

(** The upsert of the anchor. *)
Definition with_anchor (tenant : jsstr) (db : chain_db) : chain_db :=
  set_anchors (fun m => match m !! tenant with
    | Some _ => m
    | None => <[tenant := {| an_chain_seq := 0; an_prev_hash := GENESIS_PREV_HASH;
                             an_publish_paused_until := None |}]> m
    end) db.

Lemma with_anchor_inv tenant t db :
  chain_inv t db -> chain_inv t (with_anchor tenant db) /\ db_logs (with_anchor tenant db) = db_logs db.
Proof.
  intros H. split; [|done]. unfold chain_inv, with_anchor in *.
  cbn [set_anchors db_anchors db_logs].
  destruct (db_anchors db !! tenant) as [a|] eqn:E; [done|].
  destruct (decide (tenant = t)) as [->|Hne]; [|by rewrite lookup_insert_ne].
  rewrite lookup_insert_eq. rewrite E in H. cbv zeta in *. rewrite H. done.
Qed.

(** A chained delivery as one case analysis: nothing visible to the chain
    changed, or the row was appended and the anchor advanced. *)
Lemma deliver_chain_cases now row payload logId db db' res :
  deliverRowWithChain sha256 now row payload logId db = Ok (db', res) ->
  let tenant := ob_tenant_id row in
  let dba := with_anchor tenant db in
  (db_logs db' = db_logs db /\ db_anchors db' = db_anchors dba /\ dr_inserted res = false) \/
  exists a c bytes l,
    db_anchors dba !! tenant = Some a /\
    computeCanonicalBytes (buildChainInput logId (ob_created_at row) (an_chain_seq a + 1)
      (an_prev_hash a) (default (JObj []) (pl_metadata payload))) = Some bytes /\
    c = {| cc_chain_seq := an_chain_seq a + 1;
           cc_event_hash := computeEventHash sha256 (an_prev_hash a) bytes;
           cc_chain_prev_hash := an_prev_hash a |} /\
    l = {| lg_id := logId; lg_tenant_id := tenant; lg_payload := payload;
           lg_created_at := ob_created_at row; lg_outbox_id := ob_id row; lg_chain := Some c |} /\
    (ob_id row ∉ map lg_outbox_id (db_logs db)) /\ dr_inserted res = true /\
    db_logs db' = db_logs db ++ [l] /\
    db_anchors db' = alter (fun a0 => {| an_chain_seq := cc_chain_seq c;
      an_prev_hash := cc_event_hash c;
      an_publish_paused_until := an_publish_paused_until a0 |}) tenant (db_anchors dba).
Proof.
  intros H tenant dba. unfold deliverRowWithChain in H. fold tenant in H.
  change (set_anchors _ db) with dba in H.
  destruct (db_anchors dba !! tenant) as [a|] eqn:Ea; [|done].
  destruct (match an_publish_paused_until a with Some u => now <? u | None => false end).
  { simplify_eq/=. by left. }
  destruct (computeCanonicalBytes _) as [bytes|] eqn:Eb; [|done].
  destruct (insert_log _ dba) as [[db1 ins]|] eqn:Ei; [|done].
  apply insert_log_cases in Ei as [(-> & -> & _)|(-> & -> & Hnin)]; simplify_eq/=.
  - by left.
  - right. eexists a, _, bytes, _. split_and!; [reflexivity|done|reflexivity|reflexivity|done|done| |].
    + unfold set_outbox. cbn. by rewrite (proj1 (enqueue_frame _ _ _)).
    + unfold set_outbox. cbn. by rewrite (proj2 (enqueue_frame _ _ _)).
Qed.

Lemma deliver_chain_inv now row raw payload logId db db' res t :
  parsePayload raw = Some payload ->
  deliverRowWithChain sha256 now row payload logId db = Ok (db', res) ->
  chain_inv t db -> chain_inv t db'.
Proof.
  intros Hparse H Hinv. apply deliver_chain_cases in H.
  destruct (with_anchor_inv (ob_tenant_id row) t db Hinv) as [Hinv' Hlogs].
  destruct H as [(Hl & Ha & _)|(a & c & bytes & l & Ea & Eb & -> & -> & _ & _ & Hl & Ha)].
  { eapply chain_inv_frame; [|by rewrite Ha|exact Hinv']. congruence. }
  set (dba := with_anchor (ob_tenant_id row) db) in *.
  destruct (decide (ob_tenant_id row = t)) as [<-|Hne].
  - unfold chain_inv in Hinv' |- *. rewrite Ha, Hl, lookup_alter_eq, Ea. cbn.
    rewrite Ea, Hlogs in Hinv'. destruct Hinv' as (H1 & H2 & H3 & H4).
    rewrite tenant_rows_snoc. cbn. rewrite bool_decide_true by done.
    apply (chain_extend _ (an_chain_seq a) (an_prev_hash a)); try done.
    unfold row_hash. cbn [chain_row cr_id cr_created_at cr_chain_seq cr_metadata lg_id lg_created_at
      lg_payload cc_chain_seq]. rewrite (payload_of_parsed raw) by done. by rewrite Eb.
  - unfold chain_inv in Hinv' |- *. rewrite Ha, Hl, lookup_alter_ne by done.
    rewrite tenant_rows_snoc. cbn. rewrite bool_decide_false by done. rewrite app_nil_r.
    by rewrite Hlogs in Hinv'.
Qed.

Lemma worker_step_inv t db e : chain_inv t db -> chain_inv t (worker_step sha256 db e).
Proof.
  intros Hinv. destruct e as [now row raw logId|row raw logId|tenant until]; cbn [worker_step].
  - destruct (parsePayload raw) as [payload|] eqn:Ep; [|done].
    destruct (deliverRowWithChain _ _ _ _ _ _) as [[db' res]|] eqn:E; [|done].
    by eapply deliver_chain_inv.
  - destruct (parsePayload raw) as [payload|]; [|done]. unfold deliverRow.
    destruct (insert_log _ db) as [[db1 ins]|] eqn:Ei; [|done].
    apply insert_log_cases in Ei as [(-> & -> & _)|(-> & -> & _)].
    { by eapply chain_inv_frame; [..|exact Hinv]. }
    eapply chain_inv_frame; [apply commit_frame|by rewrite (proj2 (commit_frame _ _ _ _ _ _ _))|].
    unfold chain_inv in *. cbn [add_log db_logs db_anchors].
    by rewrite tenant_rows_snoc, app_nil_r.
  - unfold chain_inv in *. cbn. destruct (decide (tenant = t)) as [->|Hne].
    + rewrite lookup_alter_eq. by destruct (db_anchors db !! t).
    + by rewrite lookup_alter_ne.
Qed.

Lemma worker_step_once db e : outbox_once db -> outbox_once (worker_step sha256 db e).
Proof.
  unfold outbox_once. intros Hnd. destruct e as [now row raw logId|row raw logId|]; cbn [worker_step].
  - destruct (parsePayload raw) as [payload|] eqn:Ep; [|done].
    destruct (deliverRowWithChain _ _ _ _ _ _) as [[db' res]|] eqn:E; [|done].
    apply deliver_chain_cases in E as [(-> & _)|(a & c & b & l & _ & _ & _ & -> & Hn & _ & -> & _)]; [done|].
    rewrite map_app. apply NoDup_app. split_and!; [done| |apply NoDup_singleton].
    intros x Hx ->%list_elem_of_singleton. done.
  - destruct (parsePayload raw) as [payload|]; [|done]. unfold deliverRow.
    destruct (insert_log _ db) as [[db1 ins]|] eqn:Ei; [|done].
    apply insert_log_cases in Ei as [(-> & -> & _)|(-> & -> & Hn)]; [done|].
    rewrite (proj1 (commit_frame _ _ _ _ _ _ _)). cbn [add_log db_logs]. rewrite map_app.
    apply NoDup_app. split_and!; [done| |apply NoDup_singleton].
    intros x Hx ->%list_elem_of_singleton. done.
  - done.
Qed.

Lemma worker_run_inv es db :
  (forall t, chain_inv t db) -> outbox_once db ->
  (forall t, chain_inv t (worker_run sha256 es db)) /\ outbox_once (worker_run sha256 es db).
Proof.
  revert db. induction es as [|e es IH]; intros db Hi Ho; [done|]. apply IH.
  - intros t. by apply worker_step_inv.
  - by apply worker_step_once.
Qed.
End Writer.

(** ** The verifier on the writer's chain *)

Section Verdict.
Variable sha256 : list Z -> list Z.

(** A linked, consecutive chain only leaves the timestamps to judge. *)
Lemma walk_rows_linked rows st :
  seqs_ok rows -> linked sha256 (wk_prevHash st) rows -> consecutive (wk_prevSeq st) rows ->
  wk_firstTamperedSeq st = None -> wk_firstGapAfterSeq st = None ->
  wk_firstBrokenLinkSeq st = None ->
  exists st', walk_rows sha256 rows st = Some st' /\
    wk_firstTamperedSeq st' = None /\ wk_firstGapAfterSeq st' = None /\
    wk_firstBrokenLinkSeq st' = None /\
    wk_prevHash st' = final_hash (wk_prevHash st) rows /\
    wk_prevSeq st' = last_seq (wk_prevSeq st) rows.
Proof.
  intros Hs. revert st. induction Hs as [|r rest Hr Hrest IH]; intros st Hl Hc Ht Hg Hb.
  { exists st. done. }
  destruct Hl as (Hp & Hh & Hl), Hc as [Hc1 Hc].
  cbn [walk_rows]. rewrite num_of_bigint_exact, Hh by done. cbn [mbind option_bind].
  rewrite bool_decide_true by done. cbn [negb].
  rewrite Ht, Hg, Hb, Hp, bool_decide_true by done. cbn [negb].
  match goal with |- context [walk_rows sha256 rest ?s] => set (st1 := s) end.
  destruct (IH st1) as (st' & H1 & H2 & H3 & H4 & H5 & H6); try done.
  - unfold st1. cbn. destruct (wk_prevSeq st) as [p|]; [|done].
    by rewrite (Hc1 p eq_refl), Z.eqb_refl.
  - exists st'. rewrite final_hash_cons, last_seq_cons. done.
Qed.

Lemma verify_linked input :
  seqs_ok (vi_rows input) -> linked sha256 (vi_seedPrevHash input) (vi_rows input) ->
  consecutive None (vi_rows input) ->
  vi_fromSeq input <= vi_toSeq input -> last_seq None (vi_rows input) = Some (vi_toSeq input) ->
  vi_anchorComparable input = true ->
  vi_anchorPrevHash input = Some (final_hash (vi_seedPrevHash input) (vi_rows input)) ->
  exists o, verifyChainRows sha256 input = Some o /\
    vo_firstTamperedSeq o = None /\ vo_firstGapAfterSeq o = None /\
    vo_firstBrokenLinkSeq o = None /\ vo_incomplete o = false /\ vo_anchorChecked o = true /\
    (vo_ok o = true <-> ordered None (vi_rows input)) /\
    (vo_ok o = false -> vo_reason o = Some TIMESTAMP_VIOLATION).
Proof.
  intros Hs Hl Hc Hr Hlast Hcmp Ha.
  destruct (walk_rows_linked (vi_rows input) (walk_init (vi_seedPrevHash input)))
    as (st & Ew & H1 & H2 & H3 & H4 & H5); try done. cbn in H4, H5.
  pose proof (verify_accepts sha256 input Hs) as Hv. unfold chain_accepts in Hv.
  assert (Hrange : (vi_toSeq input <? vi_fromSeq input) = false) by (apply Z.ltb_ge; lia).
  assert (Hval : verifyChainRows sha256 input = Some
    {| vo_ok := absent (wk_firstTimestampViolationSeq st);
       vo_reason := if absent (wk_firstTimestampViolationSeq st) then None
                    else Some TIMESTAMP_VIOLATION;
       vo_totalVerified := wk_totalVerified st; vo_walkedThrough := wk_walkedThrough st;
       vo_verifiedUpToSeq := wk_prevSeq st; vo_truncated := false; vo_incomplete := false;
       vo_anchorChecked := true; vo_firstTamperedSeq := None; vo_firstGapAfterSeq := None;
       vo_firstTimestampViolationSeq := wk_firstTimestampViolationSeq st;
       vo_firstBrokenLinkSeq := None |}).
  { unfold verifyChainRows. rewrite Ew. cbn [mbind option_bind].
    rewrite H1, H2, H3, H5, Hlast, Hrange, Z.ltb_irrefl, Hcmp, Ha, H4.
    rewrite bool_decide_true by done. cbn. rewrite andb_false_r.
    by destruct (wk_firstTimestampViolationSeq st). }
  eexists. split; [exact Hval|]. cbn. split_and!; [done..| |].
  - split.
    + intros Hok. apply Hv. rewrite Hval. eauto.
    + intros Ho. destruct (proj2 Hv) as (o & Hvo & Hok).
      { rewrite Hlast, Ha. cbn. split_and!; [done..|lia|lia|]. by intros _ h [= <-]. }
      rewrite Hval in Hvo. by simplify_eq/=.
  - by intros ->.
Qed.

(** Reading a chained row back through the jsonb column. *)
Definition read_row (jsonb : json -> json) (r : ChainVerifyRow) : ChainVerifyRow :=
  {| cr_id := cr_id r; cr_created_at := cr_created_at r; cr_chain_seq := cr_chain_seq r;
     cr_event_hash := cr_event_hash r; cr_chain_prev_hash := cr_chain_prev_hash r;
     cr_metadata := jsonb (cr_metadata r) |}.

Section Jsonb.
Variable jsonb : json -> json.
Hypothesis jsonb_equiv : forall v, json_equiv v (jsonb v).

Lemma payload_of_jsonb v : json_equiv (payload_of v) (payload_of (jsonb v)).
Proof.
  pose proof (jsonb_equiv v) as H.
  destruct v; inversion H as [? Heq|? ? HF Heq|? ? ? HF Hp Hn Heq]; subst; cbn;
    try rewrite <- Heq; cbn; by econstructor.
Qed.

Lemma row_hash_read prev r : row_hash sha256 prev (read_row jsonb r) = row_hash sha256 prev r.
Proof.
  unfold row_hash, computeCanonicalBytes. do 2 f_equal. symmetry. apply jcs_equiv.
  unfold chain_input_json, buildChainInput.
  cbn [ci_id ci_createdAt ci_chainSeq ci_prevHash ci_payload read_row cr_id cr_created_at
    cr_chain_seq cr_metadata].
  eapply je_obj; [|reflexivity|].
  - repeat (apply Forall2_cons; split; [split; [reflexivity|first [apply payload_of_jsonb | apply je_refl]]|]).
    apply Forall2_nil_2.
  - apply (bool_decide_unpack _). vm_compute. exact I.
Qed.

Lemma linked_read prev rows :
  linked sha256 prev rows -> linked sha256 prev (map (read_row jsonb) rows).
Proof.
  revert prev. induction rows as [|r rows IH]; intros prev; [done|].
  intros (H1 & H2 & H3). cbn [map linked]. rewrite row_hash_read. auto.
Qed.

Lemma read_seqs rows p :
  (consecutive p (map (read_row jsonb) rows) <-> consecutive p rows) /\
  (forall q, ordered q (map (read_row jsonb) rows) <-> ordered q rows) /\
  last_seq p (map (read_row jsonb) rows) = last_seq p rows /\
  (forall h, final_hash h (map (read_row jsonb) rows) = final_hash h rows).
Proof.
  split_and!.
  - revert p. induction rows as [|r rows IH]; intros p; [done|]. cbn. by rewrite IH.
  - induction rows as [|r rows IH]; intros q; [done|]. cbn. by rewrite IH.
  - unfold last_seq. rewrite fmap_last. by destruct (last rows).
  - intros h. unfold final_hash. rewrite fmap_last. by destruct (last rows).
Qed.
End Jsonb.
End Verdict.

(** ** Properties *)

Definition empty_db (targets : list delivery_target) (outbox : gmap jsstr outbox_status) : chain_db :=
  {| db_anchors := ∅; db_logs := []; db_outbox := outbox; db_webhooks := [];
     db_targets := targets; db_deliveries := [] |}.

Lemma empty_db_inv sha256 targets outbox t : chain_inv sha256 t (empty_db targets outbox).
Proof. done. Qed.

(** The full walk the maintenance endpoint asks for. *)
Definition full_walk (jsonb : json -> json) (tenant : jsstr) (a : anchor) (rowCap : Z)
    (db : chain_db) : ChainVerifyInput :=
  {| vi_rows := map (read_row jsonb) (tenant_rows tenant (db_logs db));
     vi_seedPrevHash := GENESIS_PREV_HASH; vi_fromSeq := 1; vi_toSeq := an_chain_seq a;
     vi_anchorPrevHash := Some (an_prev_hash a); vi_anchorComparable := true;
     vi_rowCap := rowCap |}.

(** C16: the writer and the verifier agree.  After any sequence of deliveries,
    chained or not, of any tenants, with publisher pauses, re-deliveries and
    failed transactions in between, the full walk of a tenant's non-empty chain,
    read back through the jsonb column, reports no tampering, no broken link and
    no gap, covers the range and matches the anchor.  Its verdict is ok exactly
    when the rows' creation times do not decrease, and otherwise it is
    TIMESTAMP_VIOLATION. *)
Theorem honest_chain_verdict sha256 jsonb targets outbox es tenant a rowCap :
  (forall v, json_equiv v (jsonb v)) ->
  let db := worker_run sha256 es (empty_db targets outbox) in
  db_anchors db !! tenant = Some a -> 1 <= an_chain_seq a < 2 ^ 53 ->
  exists o, verifyChainRows sha256 (full_walk jsonb tenant a rowCap db) = Some o /\
    vo_firstTamperedSeq o = None /\ vo_firstGapAfterSeq o = None /\
    vo_firstBrokenLinkSeq o = None /\ vo_incomplete o = false /\ vo_anchorChecked o = true /\
    (vo_ok o = true <-> ordered None (tenant_rows tenant (db_logs db))) /\
    (vo_ok o = false -> vo_reason o = Some TIMESTAMP_VIOLATION).
Proof.
  intros Hj db Ha Hseq.
  destruct (worker_run_inv sha256 es (empty_db targets outbox)) as [Hinv _];
    [done|apply NoDup_nil_2|].
  specialize (Hinv tenant). fold db in Hinv. unfold chain_inv in Hinv. rewrite Ha in Hinv.
  destruct Hinv as (Hl & Hc & Hn & Hf).
  set (rows := tenant_rows tenant (db_logs db)) in *.
  destruct (read_seqs jsonb rows None) as (Hrc & Hro & Hrl & Hrf).
  assert (Hc' : consecutive None rows).
  { destruct rows as [|r rows']; [done|]. split; [done|apply Hc]. }
  assert (Hlast : last_seq None rows = Some (an_chain_seq a)).
  { rewrite Hn. pose proof (consecutive_last 0 rows Hc) as H. rewrite Z.add_0_l in H.
    rewrite <- H. unfold last_seq. destruct rows; [cbn in Hn; lia|].
    by destruct (last _) eqn:E; [|apply last_None in E]. }
  assert (Hs : seqs_ok (map (read_row jsonb) rows)).
  { assert (Hle : forall p rs, consecutive (Some p) rs -> 0 <= p ->
      p + Z.of_nat (length rs) < 2 ^ 53 -> seqs_ok (map (read_row jsonb) rs)).
    { intros p rs. revert p. induction rs as [|r rs IH]; intros p Hcs Hp Hlt; [constructor|].
      destruct Hcs as [Hr Hcs]. specialize (Hr p eq_refl). cbn [map length] in *.
      constructor; [cbn; lia|]. apply (IH (p + 1)); [by rewrite Hr in Hcs|lia..]. }
    apply (Hle 0); [done|lia..]. }
  destruct (verify_linked sha256 (full_walk jsonb tenant a rowCap db))
    as (o & Ho & H1 & H2 & H3 & H4 & H5 & H6 & H7); cbn [full_walk vi_rows vi_seedPrevHash vi_fromSeq
      vi_toSeq vi_anchorPrevHash vi_anchorComparable]; fold rows; try done.
  - by apply linked_read.
  - by apply Hrc.
  - lia.
  - by rewrite Hrl.
  - by rewrite Hrf, Hf.
  - exists o. split_and!; try done. cbn [full_walk vi_rows] in H6. fold rows in H6.
    by rewrite H6, Hro.
Qed.

(** At most once.  Over any run of the worker no outbox row has two log
    entries; delivering a row that is already logged changes neither the log nor
    the chain state of a tenant that has an anchor, and only marks the row SENT
    or, during a pause, PENDING. *)
Theorem outbox_delivered_once sha256 targets outbox es now row raw payload logId :
  let db := worker_run sha256 es (empty_db targets outbox) in
  NoDup (map lg_outbox_id (db_logs db)) /\
  (parsePayload raw = Some payload -> ob_id row ∈ map lg_outbox_id (db_logs db) ->
   is_Some (db_anchors db !! ob_tenant_id row) ->
   match deliverRowWithChain sha256 now row payload logId db with
   | Ok (db', res) =>
       db_logs db' = db_logs db /\ db_anchors db' = db_anchors db /\ dr_inserted res = false
   | Throw e => e = CanonicalizationFailed
   end).
Proof.
  intros db. destruct (worker_run_inv sha256 es (empty_db targets outbox)) as [_ Hnd];
    [done|apply NoDup_nil_2|]. split; [exact Hnd|]. intros Hp Hin [a Ha].
  assert (Hwa : with_anchor (ob_tenant_id row) db = db).
  { unfold with_anchor, set_anchors. rewrite Ha. by destruct db. }
  destruct (deliverRowWithChain sha256 now row payload logId db) as [[db' res]|e] eqn:E.
  - apply deliver_chain_cases in E. rewrite Hwa in E.
    destruct E as [?|(? & ? & ? & ? & _ & _ & _ & _ & Hn & _)]; [done|]. by destruct Hn.
  - unfold deliverRowWithChain in E.
    change (set_anchors _ db) with (with_anchor (ob_tenant_id row) db) in E. rewrite Hwa, Ha in E.
    destruct (match an_publish_paused_until a with Some u => now <? u | None => false end); [done|].
    destruct (computeCanonicalBytes _); [|by simplify_eq].
    unfold insert_log in E. destruct (existsb _ (db_logs db)) eqn:Ex; [done|].
    exfalso. rewrite <- not_true_iff_false in Ex. apply Ex, existsb_exists.
    apply list_elem_of_fmap in Hin as (l' & Heq & Hl). exists l'. rewrite <- list_elem_of_In.
    split; [done|]. cbn. by rewrite <- Heq, bool_decide_true.
Qed.

(** Witness data: a retried event is delivered after a younger one. *)
Definition ob_demo_event (ob log : jsstr) (created : Z) : worker_event :=
  WChain 0 {| ob_id := ob; ob_tenant_id := js "t"; ob_created_at := created |}
    (JObj [(js "scope", JStr (js "TENANT")); (js "action", JStr (js "X"));
           (js "metadata", JObj [(js "k", JNum (Dbl 1 0))])]) log.
Definition ob_demo_db (es : list worker_event) : chain_db := worker_run toy_hash es (empty_db [] ∅).

Lemma honest_chain_verdict_witness :
  let db := ob_demo_db [ob_demo_event (js "o1") (js "l1") 1000; ob_demo_event (js "o2") (js "l2") 2000] in
  exists a o, db_anchors db !! js "t" = Some a /\
    verifyChainRows toy_hash (full_walk (fun v => v) (js "t") a 10000 db) = Some o /\
    (vo_ok o = true <-> ordered None (tenant_rows (js "t") (db_logs db))).
Proof.
  set (db := ob_demo_db _).
  destruct (db_anchors db !! js "t") as [a|] eqn:E; [|vm_compute in E; discriminate].
  assert (Hs : an_chain_seq a = 2) by (vm_compute in E; injection E as <-; reflexivity).
  destruct (honest_chain_verdict toy_hash (fun v => v) [] ∅
    [ob_demo_event (js "o1") (js "l1") 1000; ob_demo_event (js "o2") (js "l2") 2000] (js "t") a 10000)
    as (o & Ho & _ & _ & _ & _ & _ & Hok & _).
  - intros v. apply je_refl.
  - exact E.
  - rewrite Hs. lia.
  - exists a, o. split; [exact E|]. split; [exact Ho | exact Hok].
Defined.

Lemma outbox_delivered_once_witness :
  let db := ob_demo_db [ob_demo_event (js "o1") (js "l1") 1000] in
  NoDup (map lg_outbox_id (db_logs db)).
Proof.
  exact (proj1 (outbox_delivered_once toy_hash [] ∅ [ob_demo_event (js "o1") (js "l1") 1000] 0
    {| ob_id := js "o1"; ob_tenant_id := js "t"; ob_created_at := 0 |} JNull
    {| pl_scope := []; pl_action := []; pl_userId := []; pl_actorType := [];
       pl_serviceAccountId := None; pl_teamId := None; pl_targetType := None; pl_targetId := None;
       pl_metadata := None; pl_ip := None; pl_userAgent := None |} [])).
Defined.

(** An honest chain can be reported as violated.  The writer numbers events in
    delivery order but stamps them with their outbox creation time, and a row that
    is retried after a back-off is delivered after younger ones: the verifier
    answers TIMESTAMP_VIOLATION for a log nobody touched. *)
Theorem retried_event_reported_as_violation :
  let db := ob_demo_db [ob_demo_event (js "younger") (js "l1") 2000;
                        ob_demo_event (js "retried") (js "l2") 1000] in
  exists a o, db_anchors db !! js "t" = Some a /\
    verifyChainRows toy_hash (full_walk (fun v => v) (js "t") a 10000 db) = Some o /\
    vo_ok o = false /\ vo_reason o = Some TIMESTAMP_VIOLATION.
Proof. eexists _, _. split_and!; vm_compute; reflexivity. Qed.
