(* ===== verification/ScopeParser.v ===== *)
(** * Scopes of service-account and MCP tokens

    Models src/src/lib/auth/tokens/scope-parser.ts: parsing of one scope and of a
    comma-separated list, and the prefix-match check of a required scope against
    the granted ones.  The theorems give the language the parser accepts, that
    parsing loses nothing, and that granting is a preorder in which a list grants
    exactly what its members grant. *)

From S2P Require Import Prelude JsString.
Local Open Scope Z_scope.

Record ParsedScope := {
  sc_resource : jsstr; sc_action : jsstr; sc_qualifier : option jsstr; sc_raw : jsstr }.

#[export] Instance ParsedScope_eq_dec : EqDecision ParsedScope.
Proof. solve_decision. Defined.

(** [/^[0-9a-f]{8}-[0-9a-f]{4}-[0-9a-f]{4}-[0-9a-f]{4}-[0-9a-f]{12}$/i] *)
Definition hex_run (n : nat) (s : jsstr) : bool := (length s =? n)%nat && forallb is_hex_digit s.
Definition UUID_RE (s : jsstr) : bool :=
  match js_split [45] s with
  | [a; b; c; d; e] => hex_run 8 a && hex_run 4 b && hex_run 4 c && hex_run 4 d && hex_run 12 e
  | _ => false
  end.

(** [qualifierSchema] *)
Definition qualifier_ok (q : jsstr) : bool :=
  match js_split [47] q with
  | [type; id] => bool_decide (type ∈ [js "folder"; js "tag"; js "team"]) && UUID_RE id
  | _ => false
  end.

Definition VALID_RESOURCE_ACTIONS : list jsstr :=
  [js "passwords:read"; js "passwords:write"; js "passwords:list"; js "tags:read";
   js "folders:read"; js "folders:write"; js "vault:status"; js "access-request:create";
   js "credentials:list"; js "credentials:use"; js "vault:unlock-data"].
Definition VALID_FLAT_SCOPES : list jsstr := [js "team:credentials:read"].
Definition VALID_TEAM_RESOURCE_ACTIONS : list jsstr :=
  [js "passwords:read"; js "passwords:write"; js "credentials:read"].

(** [parts.length > n ? parts.slice(n).join(":") : undefined] *)
Definition rest_qualifier (n : nat) (parts : list jsstr) : option jsstr :=
  if (n <? length parts)%nat then Some (js_join [58] (drop n parts)) else None.

Definition parseScope (raw : jsstr) : option ParsedScope :=
  let parts := js_split [58] raw in
  match parts with
  | p0 :: p1 :: _ =>
      if bool_decide (raw ∈ VALID_FLAT_SCOPES) then
        Some {| sc_resource := js_join [58] (removelast parts); sc_action := List.last parts [];
                sc_qualifier := None; sc_raw := raw |}
      else if (p0 =s js "team") && (4 <=? length parts)%nat then
        if negb (UUID_RE p1) then None
        else
          let resource := nth 2 parts [] in
          let action := nth 3 parts [] in
          let qualifier := rest_qualifier 4 parts in
          if negb (bool_decide (resource ++ [58] ++ action ∈ VALID_TEAM_RESOURCE_ACTIONS)) then None
          else Some {| sc_resource := js "team:" ++ p1 ++ [58] ++ resource; sc_action := action;
                       sc_qualifier := qualifier; sc_raw := raw |}
      else
        let qualifier := rest_qualifier 2 parts in
        if match qualifier with
           | Some (c :: q) => negb (qualifier_ok (c :: q))
           | _ => false
           end then None
        else if negb (bool_decide (p0 ++ [58] ++ p1 ∈ VALID_RESOURCE_ACTIONS)) then None
        else Some {| sc_resource := p0; sc_action := p1; sc_qualifier := qualifier; sc_raw := raw |}
  | _ => None
  end.

Definition parseScopes (csv : jsstr) : list ParsedScope :=
  omap (fun raw => match js_trim raw with [] => None | t => parseScope t end) (js_split [44] csv).

(** One iteration of the loop of [scopeSatisfies]. *)
Definition scope_covers (granted required : ParsedScope) : bool :=
  (sc_resource granted =s sc_resource required) && (sc_action granted =s sc_action required)
  && (match sc_qualifier granted with None | Some [] => true | _ => false end
      || bool_decide (sc_qualifier granted = sc_qualifier required)).

Definition scopeSatisfies (grantedScopes : list ParsedScope) (required : ParsedScope) : bool :=
  existsb (fun g => scope_covers g required) grantedScopes.

Definition scopeStringSatisfies (grantedCsv requiredRaw : jsstr) : bool :=
  match parseScope requiredRaw with
  | None => false
  | Some required => scopeSatisfies (parseScopes grantedCsv) required
  end.

(** ** The accepted language *)

(** [resource:action] and its optional [:qualifier]. *)
Definition print_scope (resource action : jsstr) (qualifier : option jsstr) : jsstr :=
  resource ++ [58] ++ action ++ match qualifier with Some q => 58 :: q | None => [] end.

(** Resource and action of a plain scope. *)
Definition plain_pairs : list (jsstr * jsstr) :=
  map (fun s => match js_split [58] s with [a; b] => (a, b) | _ => ([], []) end)
    VALID_RESOURCE_ACTIONS.
Definition team_pairs : list (jsstr * jsstr) :=
  map (fun s => match js_split [58] s with [a; b] => (a, b) | _ => ([], []) end)
    VALID_TEAM_RESOURCE_ACTIONS.

(** The grammar of scopes. *)
Inductive scope_grammar : jsstr -> ParsedScope -> Prop :=
| sg_flat :
    scope_grammar (js "team:credentials:read")
      {| sc_resource := js "team:credentials"; sc_action := js "read"; sc_qualifier := None;
         sc_raw := js "team:credentials:read" |}
| sg_team id r a q :
    UUID_RE id = true -> (r, a) ∈ team_pairs ->
    scope_grammar (print_scope (js "team:" ++ id ++ [58] ++ r) a q)
      {| sc_resource := js "team:" ++ id ++ [58] ++ r; sc_action := a; sc_qualifier := q;
         sc_raw := print_scope (js "team:" ++ id ++ [58] ++ r) a q |}
| sg_plain r a q :
    (r, a) ∈ plain_pairs -> (forall s, q = Some s -> s = [] \/ qualifier_ok s = true) ->
    scope_grammar (print_scope r a q)
      {| sc_resource := r; sc_action := a; sc_qualifier := q; sc_raw := print_scope r a q |}.

Lemma uuid_no_colon s : UUID_RE s = true -> 58 ∉ s.
Proof.
  unfold UUID_RE. intros H. rewrite <- (js_join_split [45] s) by done.
  assert (Hr : forall n p, hex_run n p = true -> 58 ∉ p).
  { intros n p Hp. unfold hex_run in Hp. bools. intros Hin%list_elem_of_In.
    match goal with H : forallb _ _ = true |- _ => rewrite forallb_forall in H;
      specialize (H _ Hin); vm_compute in H end. done. }
  destruct (js_split [45] s) as [|a [|b [|c [|d [|e [|]]]]]]; try done. bools.
  repeat match goal with H : hex_run _ _ = true |- _ => apply Hr in H end.
  cbn [js_join]. rewrite !not_elem_of_app. repeat split; try done;
    apply not_elem_of_cons; (split; [done|apply not_elem_of_nil]).
Qed.

(** A colon-free pair is recovered from its printed form. *)
Lemma pair_split r a s :
  (58 ∉ r) -> (58 ∉ a) -> r ++ [58] ++ a = s -> js_split [58] s = [r; a].
Proof. intros Hr Ha <-. cbn [app]. by rewrite js_split_app, js_split_none. Qed.

Lemma valid_pair_iff r a (l : list jsstr) :
  (58 ∉ r) -> (58 ∉ a) ->
  Forall (fun s => exists x y, js_split [58] s = [x; y]) l ->
  r ++ [58] ++ a ∈ l <->
  (r, a) ∈ map (fun s => match js_split [58] s with [x; y] => (x, y) | _ => ([], []) end) l.
Proof.
  intros Hr Ha Hl. rewrite list_elem_of_fmap. split.
  - intros Hin. exists (r ++ [58] ++ a). split; [|done]. by rewrite (pair_split r a).
  - intros (s & Heq & Hin). rewrite Forall_forall in Hl. destruct (Hl s Hin) as (x & y & Hs).
    rewrite Hs in Heq. simplify_eq. rewrite <- (js_join_split [58] s), Hs in Hin by done. done.
Qed.

Lemma plain_pairs_iff r a : (58 ∉ r) -> (58 ∉ a) ->
  r ++ [58] ++ a ∈ VALID_RESOURCE_ACTIONS <-> (r, a) ∈ plain_pairs.
Proof.
  intros Hr Ha. apply valid_pair_iff; [done..|].
  repeat (apply Forall_cons; split; [eexists _, _; vm_compute; reflexivity|]). done.
Qed.

Lemma team_pairs_iff r a : (58 ∉ r) -> (58 ∉ a) ->
  r ++ [58] ++ a ∈ VALID_TEAM_RESOURCE_ACTIONS <-> (r, a) ∈ team_pairs.
Proof.
  intros Hr Ha. apply valid_pair_iff; [done..|].
  repeat (apply Forall_cons; split; [eexists _, _; vm_compute; reflexivity|]). done.
Qed.

Lemma pairs_plain_facts r a : (r, a) ∈ plain_pairs -> (58 ∉ r) /\ (58 ∉ a) /\ r <> js "team".
Proof.
  assert (H : Forall (fun p => (58 ∉ fst p) /\ (58 ∉ snd p) /\ fst p <> js "team") plain_pairs)
    by (apply (bool_decide_unpack _); vm_compute; exact I).
  rewrite Forall_forall in H. intros Hin. exact (H _ Hin).
Qed.

Lemma pairs_team_facts r a : (r, a) ∈ team_pairs -> (58 ∉ r) /\ (58 ∉ a).
Proof.
  assert (H : Forall (fun p => (58 ∉ fst p) /\ (58 ∉ snd p)) team_pairs)
    by (apply (bool_decide_unpack _); vm_compute; exact I).
  rewrite Forall_forall in H. intros Hin. exact (H _ Hin).
Qed.

(** The parts of a printed scope. *)
Lemma print_scope_split r a q :
  (58 ∉ r) -> (58 ∉ a) ->
  js_split [58] (print_scope r a q)
  = r :: a :: match q with Some q => js_split [58] q | None => [] end.
Proof.
  intros Hr Ha. unfold print_scope. cbn [app]. rewrite js_split_app by done. f_equal.
  destruct q; [by rewrite js_split_app | by rewrite app_nil_r, js_split_none].
Qed.

Lemma js_split_length c s : (1 <= length (js_split [c] s))%nat.
Proof.
  pose proof (js_split_go_nonempty [c] s [] 0). unfold js_split.
  destruct (js_split_go [c] s [] 0); [done|]. simpl. lia.
Qed.

Lemma rest_qualifier_print (pre : list jsstr) q :
  rest_qualifier (length pre) (pre ++ match q with Some q => js_split [58] q | None => [] end) = q.
Proof.
  unfold rest_qualifier. rewrite length_app, drop_app_length. destruct q as [q|]; simpl.
  - pose proof (js_split_length 58 q).
    rewrite (proj2 (Nat.ltb_lt _ _)) by lia. by rewrite js_join_split.
  - by rewrite (proj2 (Nat.ltb_ge _ _)) by lia.
Qed.

Lemma parse_plain r a q :
  (r, a) ∈ plain_pairs -> (forall s, q = Some s -> s = [] \/ qualifier_ok s = true) ->
  parseScope (print_scope r a q)
  = Some {| sc_resource := r; sc_action := a; sc_qualifier := q; sc_raw := print_scope r a q |}.
Proof.
  intros Hin Hq. destruct (pairs_plain_facts r a Hin) as (Hr & Ha & Hne).
  unfold parseScope. rewrite print_scope_split by done.
  rewrite (bool_decide_false (print_scope r a q ∈ VALID_FLAT_SCOPES)).
  2: { intros Hf%list_elem_of_singleton. apply (f_equal (js_split [58])) in Hf.
       rewrite print_scope_split in Hf by done. vm_compute in Hf. by simplify_eq. }
  rewrite (bool_decide_false (r = js "team")) by done. cbn [andb].
  pose proof (rest_qualifier_print [r; a] q) as Hrq. cbn [length app] in Hrq. rewrite Hrq.
  rewrite (bool_decide_true (r ++ [58] ++ a ∈ VALID_RESOURCE_ACTIONS)) by (by apply plain_pairs_iff).
  destruct q as [[|c q]|]; cbn; [done| |done].
  by destruct (Hq (c :: q) eq_refl) as [?| ->].
Qed.

Lemma parse_team id r a q :
  UUID_RE id = true -> (r, a) ∈ team_pairs ->
  let raw := print_scope (js "team:" ++ id ++ [58] ++ r) a q in
  parseScope raw = Some {| sc_resource := js "team:" ++ id ++ [58] ++ r; sc_action := a;
                           sc_qualifier := q; sc_raw := raw |}.
Proof.
  intros Hid Hin raw. destruct (pairs_team_facts r a Hin) as (Hr & Ha).
  pose proof (uuid_no_colon id Hid) as Hidc.
  assert (Hs : js_split [58] raw = [js "team"; id; r; a]
    ++ match q with Some q => js_split [58] q | None => [] end).
  { unfold raw. replace (print_scope (js "team:" ++ id ++ [58] ++ r) a q)
      with (js "team" ++ 58 :: id ++ 58 :: print_scope r a q).
    - rewrite js_split_app by (apply (bool_decide_unpack _); vm_compute; exact I).
      rewrite js_split_app, print_scope_split by done. done.
    - unfold print_scope. rewrite <- !app_assoc. done. }
  unfold parseScope. rewrite Hs.
  rewrite (bool_decide_false (raw ∈ VALID_FLAT_SCOPES)).
  2: { intros Hf%list_elem_of_singleton. rewrite Hf in Hs.
       change (js_split [58] (js "team:credentials:read"))
         with [js "team"; js "credentials"; js "read"] in Hs. by simplify_eq/=. }
  cbn [app]. rewrite bool_decide_true by done.
  pose proof (rest_qualifier_print [js "team"; id; r; a] q) as Hrq. cbn [length app] in Hrq.
  rewrite Hrq. cbn [length Nat.leb andb].
  rewrite Hid. cbn [negb nth app].
  by rewrite (bool_decide_true (r ++ [58] ++ a ∈ _)) by (by apply team_pairs_iff).
Qed.

Lemma rest_qualifier_join (pre rest : list jsstr) :
  pre <> [] ->
  js_join [58] (pre ++ rest) = js_join [58] pre
    ++ match rest_qualifier (length pre) (pre ++ rest) with Some q => 58 :: q | None => [] end.
Proof.
  intros Hne. unfold rest_qualifier. rewrite length_app, drop_app_length.
  destruct rest as [|x rest].
  - rewrite Nat.add_0_r, Nat.ltb_irrefl, !app_nil_r. done.
  - rewrite (proj2 (Nat.ltb_lt _ _)) by (simpl; lia).
    induction pre as [|p pre IH]; [done|]. destruct pre as [|p' pre]; [done|].
    cbn [app]. rewrite !(js_join_cons _ p) by done. rewrite <- !app_assoc. do 2 f_equal. by apply IH.
Qed.

Lemma parseScope_grammar raw s : parseScope raw = Some s <-> scope_grammar raw s.
Proof.
  split.
  2: { intros [|id r a q Hid Hin|r a q Hin Hq]; [by vm_compute|by apply parse_team|by apply parse_plain]. }
  unfold parseScope. pose proof (js_join_split [58] raw ltac:(done)) as Hraw.
  pose proof (js_split_pieces 58 raw) as Hp.
  destruct (js_split [58] raw) as [|p0 [|p1 rest]]; [done..|].
  case_bool_decide as Hf.
  { apply list_elem_of_singleton in Hf as ->. intros [= <-].
    change (js "team:credentials:read") with (js_join [58] [js "team"; js "credentials"; js "read"]) in Hraw.
    rewrite !Forall_cons in Hp. destruct Hp as (Hp0 & Hp1 & Hrest).
    apply (f_equal (js_split [58])) in Hraw. rewrite js_split_join in Hraw; [|done|].
    2: { by rewrite !Forall_cons. }
    vm_compute in Hraw. simplify_eq. apply sg_flat. }
  rewrite !Forall_cons in Hp. destruct Hp as (Hp0 & Hp1 & Hrest).
  destruct ((p0 =s js "team") && (4 <=? length (p0 :: p1 :: rest))%nat) eqn:Et.
  - apply andb_true_iff in Et as [->%bool_decide_eq_true Hl%Nat.leb_le].
    destruct rest as [|p2 [|p3 rest]]; [simpl in Hl; lia..|].
    rewrite !Forall_cons in Hrest. destruct Hrest as (Hp2 & Hp3 & _).
    destruct (UUID_RE p1) eqn:Hu; [|done]. cbn [negb nth].
    case_bool_decide as Hin; [|done]. cbn [negb]. intros [= <-].
    rewrite <- Hraw. pose proof (rest_qualifier_join [js "team"; p1; p2; p3] rest ltac:(done)) as Hq.
    cbn [length app] in Hq. rewrite Hq. set (q := rest_qualifier 4 _).
    replace (js_join [58] [js "team"; p1; p2; p3] ++ match q with Some q => 58 :: q | None => [] end)
      with (print_scope (js "team:" ++ p1 ++ [58] ++ p2) p3 q).
    + apply sg_team; [done|]. by apply team_pairs_iff.
    + unfold print_scope. cbn [js_join]. rewrite <- !app_assoc. done.
  - match goal with |- (if ?b then _ else _) = _ -> _ => destruct b eqn:Eq; [discriminate|] end.
    destruct (bool_decide (p0 ++ [58] ++ p1 ∈ VALID_RESOURCE_ACTIONS)) eqn:Hin; [|discriminate].
    apply bool_decide_eq_true in Hin. cbn [negb]. intros [= <-].
    rewrite <- Hraw. pose proof (rest_qualifier_join [p0; p1] rest ltac:(done)) as Hq.
    cbn [length app] in Hq. rewrite Hq. set (q := rest_qualifier 2 _) in *.
    replace (js_join [58] [p0; p1] ++ match q with Some q => 58 :: q | None => [] end)
      with (print_scope p0 p1 q).
    + apply sg_plain; [by apply plain_pairs_iff|]. intros x Hx. rewrite Hx in Eq.
      destruct x; [by left|]. right. by apply negb_false_iff in Eq.
    + unfold print_scope. cbn [js_join]. rewrite <- !app_assoc. done.
Qed.

(** ** Properties *)

(** The scope language.  [parseScope] accepts exactly the flat team scope, the
    team scopes [team:<uuid>:resource:action] and the plain scopes
    [resource:action] with an allow-listed pair and a well-formed or empty
    qualifier; what it returns prints back to the input, so no two inputs are
    confused. *)
Theorem parseScope_iff raw s :
  (parseScope raw = Some s <-> scope_grammar raw s) /\
  (parseScope raw = Some s ->
   sc_raw s = raw /\ print_scope (sc_resource s) (sc_action s) (sc_qualifier s) = raw).
Proof.
  split; [apply parseScope_grammar|]. intros [|id r a q _ _|r a q _ _]%parseScope_grammar; done.
Qed.

Lemma scope_covers_trans a b c :
  scope_covers a b = true -> scope_covers b c = true -> scope_covers a c = true.
Proof.
  unfold scope_covers. rewrite !andb_true_iff, !bool_decide_eq_true, !orb_true_iff, !bool_decide_eq_true.
  intros ((Hr & Ha) & Hq) ((Hr' & Ha') & Hq'). split_and!; [congruence..|].
  destruct (sc_qualifier a) as [[|x qa]|]; [by left| |by left].
  destruct Hq as [?|Hq]; [done|]. rewrite <- Hq in Hq'. destruct Hq'; [done|by right].
Qed.

(** Granting is a preorder, and a list of scopes grants exactly what one of its
    members grants.  Every scope grants itself; what is granted by a granted
    scope is granted; concatenating two lists with a comma grants the union; and
    a grant always comes from an entry with the same resource and action that is
    unqualified or has the same qualifier. *)
Theorem scope_grants_preorder :
  (forall g, scope_covers g g = true) /\
  (forall gs r s, scopeSatisfies gs r = true -> scope_covers r s = true ->
     scopeSatisfies gs s = true) /\
  (forall c1 c2 r, scopeStringSatisfies (c1 ++ js "," ++ c2) r
     = scopeStringSatisfies c1 r || scopeStringSatisfies c2 r) /\
  (forall csv r, scopeStringSatisfies csv r = true ->
     exists entry g req, entry ∈ js_split (js ",") csv /\
       parseScope (js_trim entry) = Some g /\ parseScope r = Some req /\
       sc_resource g = sc_resource req /\ sc_action g = sc_action req /\
       (sc_qualifier g = None \/ sc_qualifier g = Some [] \/ sc_qualifier g = sc_qualifier req)).
Proof.
  change (js ",") with [44]. split_and!.
  - intros g. unfold scope_covers. rewrite !bool_decide_true by done. apply orb_true_r.
  - unfold scopeSatisfies. intros gs r s [g [Hin Hg]]%existsb_exists Hrs.
    apply existsb_exists. exists g. split; [done|]. by eapply scope_covers_trans.
  - intros c1 c2 r. unfold scopeStringSatisfies. destruct (parseScope r) as [req|]; [|done].
    unfold parseScopes, scopeSatisfies. cbn [app].
    by rewrite js_split_app_any, omap_app, existsb_app.
  - intros csv r H. unfold scopeStringSatisfies in H.
    destruct (parseScope r) as [req|] eqn:Er; [|done].
    apply existsb_exists in H as (g & Hin%list_elem_of_In & Hc).
    apply list_elem_of_omap in Hin as (entry & Hin & Hg). exists entry, g, req.
    split_and!; try done.
    + by destruct (js_trim entry).
    + unfold scope_covers in Hc. by bools.
    + unfold scope_covers in Hc. by bools.
    + unfold scope_covers in Hc. bools. destruct (sc_qualifier g) as [[|]|]; auto.
      right. right. match goal with H : _ \/ _ |- _ => destruct H as [?|?] end; by bools.
Qed.

(** Two gaps between the scope tables and the parser.  The pair table is
    documented as all service-account and MCP scopes combined, but the
    service-account scopes [team:passwords:read] and [team:passwords:write] do
    not parse, so they grant nothing; and a trailing colon, [passwords:read:],
    is accepted and grants every qualifier. *)
Theorem scope_table_gaps :
  parseScope (js "team:passwords:read") = None /\
  parseScope (js "team:passwords:write") = None /\
  scopeStringSatisfies (js "team:passwords:read") (js "team:passwords:read") = false /\
  scopeStringSatisfies (js "passwords:read:")
    (js "passwords:read:folder/00000000-0000-4000-8000-000000000000") = true.
Proof. vm_compute. done. Qed.

Lemma parseScope_iff_witness :
  sc_raw {| sc_resource := js "passwords"; sc_action := js "read"; sc_qualifier := None;
            sc_raw := js "passwords:read" |} = js "passwords:read".
Proof.
  refine (proj1 (proj2 (parseScope_iff (js "passwords:read") _) _)). vm_compute. reflexivity.
Defined.
