(* ===== verification/RateLimit.v ===== *)
(** * Rate limiting

    Models src/src/lib/security/rate-limit.ts (the limiter over Redis with its
    in-memory fallback) and src/src/lib/security/rate-limit-audit.ts (the
    fail-closed wrapper around it and the throttle of its audit events).  Redis
    is a service: what a pipeline returned is an input of the operations.  The
    store and the throttle are insertion-ordered maps. *)

From S2P Require Import Prelude JsString JsMap.
Local Open Scope Z_scope.

Definition RATE_LIMIT_MAP_MAX_SIZE : Z := 10000.

Record RateLimiterOptions := { windowMs : Z; max : Z; failClosedOnRedisError : bool }.

Record RateLimitResult := { allowed : bool; retryAfterMs : option Z; redisErrored : bool }.

Definition allow : RateLimitResult :=
  {| allowed := true; retryAfterMs := None; redisErrored := false |}.

(** What a pipeline entry holds: an error, a number, or another value. *)
Inductive pipeline_value := PError | PNumber (n : Z) | POther.

(** What the attempt to run the pipeline gave: no client, an exception, a null
    result, or the entries of its commands. *)
Inductive redis_reply :=
| NoClient | ExecThrew | ExecNull | Results (entries : list pipeline_value).

Definition checkRedis (o : RateLimiterOptions) (r : redis_reply) : option RateLimitResult :=
  match r with
  | NoClient | ExecThrew | ExecNull => None
  | Results entries =>
      if existsb (fun e => match e with PError => true | _ => false end) entries then None
      else
        match entries !! 0%nat, entries !! 2%nat with
        | Some (PNumber count), Some (PNumber ttl) =>
            if count <=? max o then Some allow
            else Some {| allowed := false;
                         retryAfterMs := Some (if 0 <? ttl then ttl else windowMs o);
                         redisErrored := false |}
        | _, _ => None
        end
  end.

(** ** The in-memory store *)

Record counter := { resetAt : Z; count : Z }.
Definition store := jsmap counter.

Definition map_full {V} (m : jsmap V) : bool := RATE_LIMIT_MAP_MAX_SIZE <=? Z.of_nat (length m).

(** [while (size >= MAX) delete(oldest)] *)
Fixpoint evict_oldest {V} (m : jsmap V) : jsmap V :=
  if map_full m then match m with [] => [] | _ :: m' => evict_oldest m' end else m.

Definition checkMemory (o : RateLimiterOptions) (now : Z) (key : jsstr) (st : store)
    : store * RateLimitResult :=
  let fresh (st : store) :=
    let st := if map_full st
              then evict_oldest (List.filter (fun kv => negb (resetAt (snd kv) <? now)) st)
              else st in
    (map_set st key {| resetAt := now + windowMs o; count := 1 |}, allow) in
  match map_get st key with
  | None => fresh st
  | Some entry =>
      if resetAt entry <? now then fresh st
      else if max o <=? count entry then
        (st, {| allowed := false; retryAfterMs := Some (resetAt entry - now);
                redisErrored := false |})
      else (map_set st key {| resetAt := resetAt entry; count := count entry + 1 |}, allow)
  end.

Definition check (o : RateLimiterOptions) (r : redis_reply) (now : Z) (key : jsstr) (st : store)
    : store * RateLimitResult :=
  match checkRedis o r with
  | Some res => (st, res)
  | None =>
      if failClosedOnRedisError o
      then (st, {| allowed := false; retryAfterMs := None; redisErrored := true |})
      else checkMemory o now key st
  end.

(** [clear]: [cleared] is whether the DEL reached Redis. *)
Definition clear (cleared : bool) (key : jsstr) (st : store) : store :=
  if cleared then st else map_delete st key.

(** ** The wrapper the routes call *)

Inductive envelope := Canonical | OAuth | Custom.
Inductive blocked_response :=
| ServiceUnavailable (e : envelope) | TooManyRequests (retryAfterMs : option Z).

Definition checkRateLimitOrFail (env : envelope) (rl : RateLimitResult) : option blocked_response :=
  if redisErrored rl then Some (ServiceUnavailable env)
  else if negb (allowed rl) then Some (TooManyRequests (retryAfterMs rl))
  else None.

(** ** The audit throttle *)

Definition THROTTLE_WINDOW_MS : Z := 300000.
Definition throttle := jsmap Z.

Fixpoint drop_expired (now : Z) (t : throttle) : throttle :=
  match t with
  | (k, expiresAt) :: t' => if expiresAt <? now then drop_expired now t' else t
  | [] => []
  end.

Definition pruneAndAdd (key : jsstr) (now : Z) (t : throttle) : throttle :=
  map_set (evict_oldest (drop_expired now t)) key (now + THROTTLE_WINDOW_MS).

Definition shouldEmit (key : jsstr) (now : Z) (t : throttle) : throttle * bool :=
  match map_get t key with
  | Some expiresAt =>
      if now <? expiresAt then (map_set (map_delete t key) key expiresAt, false)
      else (pruneAndAdd key now t, true)
  | None => (pruneAndAdd key now t, true)
  end.

(** ** Lemmas *)

Lemma evict_oldest_spec {V} (m : jsmap V) :
  Z.of_nat (length (evict_oldest m)) < RATE_LIMIT_MAP_MAX_SIZE /\
  (map_full m = false -> evict_oldest m = m) /\ (map_ok m -> map_ok (evict_oldest m)).
Proof.
  unfold map_full, RATE_LIMIT_MAP_MAX_SIZE.
  induction m as [|[k v] m IH]; [split_and!; simpl; done|].
  cbn [evict_oldest]. unfold map_full, RATE_LIMIT_MAP_MAX_SIZE.
  destruct (10000 <=? Z.of_nat (length ((k, v) :: m))) eqn:E; bools.
  - destruct IH as (H1 & _ & H3). split_and!; [done|done|].
    unfold map_ok. cbn [map]. intros [_ ?]%NoDup_cons. by apply H3.
  - done.
Qed.

Lemma drop_expired_spec now (t : throttle) :
  (length (drop_expired now t) <= length t)%nat /\ (map_ok t -> map_ok (drop_expired now t)).
Proof.
  induction t as [|[k e] t [IH1 IH2]]; simpl; [done|]. destruct (e <? now); [|done].
  split; [lia|]. unfold map_ok. cbn [map]. intros [_ ?]%NoDup_cons. by apply IH2.
Qed.

Definition bounded {V} (m : jsmap V) : Prop :=
  map_ok m /\ Z.of_nat (length m) <= RATE_LIMIT_MAP_MAX_SIZE.

Lemma map_set_bounded {V} (m : jsmap V) k v :
  map_ok m -> Z.of_nat (length m) < RATE_LIMIT_MAP_MAX_SIZE -> bounded (map_set m k v).
Proof.
  intros Hok Hl. split; [by apply map_set_ok|]. rewrite map_set_size. destruct (map_has m k); lia.
Qed.

Lemma map_update_bounded {V} (m : jsmap V) k v v' :
  map_get m k = Some v' -> bounded m -> bounded (map_set m k v).
Proof.
  intros Hg [Hok Hl]. split; [by apply map_set_ok|]. rewrite map_set_size. unfold map_has.
  by rewrite Hg.
Qed.

Lemma checkMemory_bounded o now key st : bounded st -> bounded (fst (checkMemory o now key st)).
Proof.
  intros Hb. pose proof Hb as [Hok Hl].
  assert (Hfresh : forall v, bounded (map_set (if map_full st
    then evict_oldest (List.filter (fun kv => negb (resetAt (snd kv) <? now)) st) else st) key v)).
  { intros v. destruct (map_full st) eqn:E.
    - destruct (evict_oldest_spec (List.filter (fun kv => negb (resetAt (snd kv) <? now)) st))
        as (H1 & _ & H3). apply map_set_bounded; [|done]. apply H3. by apply map_filter_ok.
    - unfold map_full in E. bools. by apply map_set_bounded. }
  unfold checkMemory. destruct (map_get st key) as [e|] eqn:Eg; [|apply Hfresh].
  destruct (resetAt e <? now); [apply Hfresh|]. destruct (max o <=? count e); [done|].
  by eapply map_update_bounded.
Qed.

(** A run of the in-memory limiter: which calls for [key] were allowed. *)
Fixpoint run_memory (o : RateLimiterOptions) (key : jsstr) (calls : list (Z * jsstr)) (st : store)
    : list bool :=
  match calls with
  | [] => []
  | (now, k) :: calls' =>
      let '(st', r) := checkMemory o now k st in
      (if k =s key then [allowed r] else []) ++ run_memory o key calls' st'
  end.

Definition allowed_calls (bs : list bool) : Z := Z.of_nat (length (List.filter (fun b => b) bs)).
Definition calls_for (key : jsstr) (calls : list (Z * jsstr)) : Z :=
  Z.of_nat (length (List.filter (fun c => snd c =s key) calls)).

Lemma checkMemory_size o now key st :
  map_full st = false ->
  (length (fst (checkMemory o now key st)) <= S (length st))%nat /\
  forall k, k <> key -> map_get (fst (checkMemory o now key st)) k = map_get st k.
Proof.
  intros Hf. assert (Hset : forall v, (length (map_set st key v) <= S (length st))%nat /\
    forall k, k <> key -> map_get (map_set st key v) k = map_get st k).
  { intros v. split; [rewrite map_set_size; destruct (map_has st key); lia|].
    intros k Hk. rewrite map_get_set. by rewrite bool_decide_false. }
  unfold checkMemory. rewrite Hf. destruct (map_get st key) as [e|]; [|apply Hset].
  destruct (resetAt e <? now); [apply Hset|]. destruct (max o <=? count e); [|apply Hset].
  split; [simpl; lia|done].
Qed.

Lemma quota_live o key calls st e :
  map_get st key = Some e -> Forall (fun c => fst c <= resetAt e) calls ->
  Z.of_nat (length st + length calls) <= RATE_LIMIT_MAP_MAX_SIZE ->
  allowed_calls (run_memory o key calls st)
  = Z.min (calls_for key calls) (Z.max 0 (max o - count e)).
Proof.
  revert st e. induction calls as [|[now k] calls IH]; intros st e Hg Ht Hl.
  { unfold allowed_calls, calls_for. simpl. lia. }
  apply Forall_cons in Ht as [Hnow Ht]. cbn [fst snd length] in *. cbn [run_memory].
  assert (Hnf : map_full st = false) by (unfold map_full; apply Z.leb_gt; lia).
  destruct (checkMemory_size o now k st Hnf) as [Hsz Hother].
  unfold calls_for. cbn [List.filter snd]. destruct (decide (k = key)) as [->|Hne].
  - rewrite bool_decide_true by done. clear Hother.
    unfold checkMemory in *. rewrite Hg in *. rewrite (proj2 (Z.ltb_ge _ _)) in * by lia.
    destruct (max o <=? count e) eqn:Em; bools; cbn [fst app allowed allow] in *.
    + unfold allowed_calls. cbn [List.filter]. fold (allowed_calls (run_memory o key calls st)).
      rewrite (IH st e Hg Ht) by lia. unfold calls_for. cbn [length]. lia.
    + set (e' := {| resetAt := resetAt e; count := count e + 1 |}) in *.
      unfold allowed_calls. cbn [List.filter length]. rewrite Nat2Z.inj_succ.
      fold (allowed_calls (run_memory o key calls (map_set st key e'))).
      rewrite (IH (map_set st key e') e').
      * unfold calls_for. cbn [count e']. lia.
      * rewrite map_get_set. by rewrite bool_decide_true.
      * done.
      * lia.
  - rewrite bool_decide_false by done. rewrite (surjective_pairing (checkMemory o now k st)).
    cbn [app]. rewrite (IH _ e); [done| |done|lia]. by rewrite Hother.
Qed.

(** ** Properties *)

(** The in-memory quota.  From the call that opens a window for a key, at time
    [t0], until [t0 + windowMs], exactly [max] calls for the key are allowed (one
    if [max] is below one), whatever calls for other keys come in between, as
    long as the store has room for the calls of the window so that nothing is
    evicted. *)
Theorem memory_quota o key t0 calls st :
  match map_get st key with Some e => resetAt e < t0 | None => True end ->
  Forall (fun c => fst c <= t0 + windowMs o) calls ->
  Z.of_nat (length st + S (length calls)) <= RATE_LIMIT_MAP_MAX_SIZE ->
  allowed_calls (run_memory o key ((t0, key) :: calls) st)
  = 1 + Z.min (calls_for key calls) (Z.max 0 (max o - 1)).
Proof.
  intros Hexp Ht Hl. cbn [run_memory]. rewrite bool_decide_true by done.
  set (e := {| resetAt := t0 + windowMs o; count := 1 |}).
  assert (Hnf : map_full st = false) by (unfold map_full; apply Z.leb_gt; lia).
  assert (Hc : checkMemory o t0 key st = (map_set st key e, allow)).
  { unfold checkMemory. rewrite Hnf. destruct (map_get st key) as [e0|]; [|done].
    by rewrite (proj2 (Z.ltb_lt _ _)). }
  rewrite Hc. cbn [app allowed allow]. unfold allowed_calls. cbn [List.filter length].
  rewrite Nat2Z.inj_succ. fold (allowed_calls (run_memory o key calls (map_set st key e))).
  rewrite (quota_live o key calls (map_set st key e) e).
  - cbn [count e]. lia.
  - rewrite map_get_set. by rewrite bool_decide_true.
  - done.
  - rewrite map_set_size. destruct (map_has st key); lia.
Qed.

(** A fail-closed limiter allows only what Redis counted.  Whatever the
    pipeline did (no client, exception, null result, a failed command, a missing
    or non-numeric value), the request is refused with [redisErrored], the
    wrapper answers 503 and no local counter is touched; a request is allowed
    exactly when Redis returned, without any command error, a count within the
    maximum. *)
Theorem fail_closed_sound o r now key st env :
  failClosedOnRedisError o = true ->
  let '(st', res) := check o r now key st in
  st' = st /\
  (allowed res = true <-> exists entries c t, r = Results entries /\ (PError ∉ entries) /\
     entries !! 0%nat = Some (PNumber c) /\ entries !! 2%nat = Some (PNumber t) /\ c <= max o) /\
  (checkRateLimitOrFail env res = None <-> allowed res = true) /\
  (checkRedis o r = None -> checkRateLimitOrFail env res = Some (ServiceUnavailable env)).
Proof.
  intros Hf. unfold check. rewrite Hf.
  assert (Hr : match checkRedis o r with
    | Some res => redisErrored res = false /\
        (allowed res = true <-> exists entries c t, r = Results entries /\ (PError ∉ entries) /\
         entries !! 0%nat = Some (PNumber c) /\ entries !! 2%nat = Some (PNumber t) /\ c <= max o)
    | None => ~ exists entries c t, r = Results entries /\ (PError ∉ entries) /\
         entries !! 0%nat = Some (PNumber c) /\ entries !! 2%nat = Some (PNumber t) /\ c <= max o
    end).
  { destruct r as [| | |entries]; simpl; try naive_solver.
    destruct (existsb _ entries) eqn:Ee.
    - intros (es & c & t & [= <-] & Hn & _). apply Hn.
      apply existsb_exists in Ee as ([] & Hin & ?); try done. by apply list_elem_of_In.
    - assert (Hn : PError ∉ entries).
      { intros Hin%list_elem_of_In. rewrite <- not_true_iff_false in Ee. apply Ee, existsb_exists.
        by exists PError. }
      destruct (entries !! 0%nat) as [[]|] eqn:E0; try naive_solver.
      destruct (entries !! 2%nat) as [[]|] eqn:E2; try naive_solver.
      destruct (Z.leb_spec n (max o)); cbn; (split; [done|]); split; try done.
      + intros _. eauto 10.
      + intros (es & c & t & [= <-] & _ & H0 & _ & Hle). rewrite E0 in H0. simplify_eq. lia. }
  destruct (checkRedis o r) as [res|] eqn:E.
  - destruct Hr as [Hre Hr]. split_and!; [done|done| |done].
    unfold checkRateLimitOrFail. rewrite Hre. by destruct (allowed res).
  - split_and!; [done| | |done]; cbn; [|done]. split; [done|]. intros H. by destruct Hr.
Qed.

(** The operations that change the store or the throttle. *)
Inductive limiter_op :=
| OpCheck (o : RateLimiterOptions) (r : redis_reply) (now : Z) (key : jsstr)
| OpClear (cleared : bool) (key : jsstr)
| OpThrottle (key : jsstr) (now : Z).

Definition limiter_step (s : store * throttle) (op : limiter_op) : store * throttle :=
  match op with
  | OpCheck o r now key => (fst (check o r now key (fst s)), snd s)
  | OpClear cleared key => (clear cleared key (fst s), snd s)
  | OpThrottle key now => (fst s, fst (shouldEmit key now (snd s)))
  end.

Lemma shouldEmit_bounded key now t : bounded t -> bounded (fst (shouldEmit key now t)).
Proof.
  intros [Hok Hl].
  assert (Hp : bounded (pruneAndAdd key now t)).
  { unfold pruneAndAdd. destruct (drop_expired_spec now t) as [_ H2].
    destruct (evict_oldest_spec (drop_expired now t)) as (H3 & _ & H4).
    apply map_set_bounded; auto. }
  unfold shouldEmit. destruct (map_get t key) as [e|] eqn:E; [|done].
  destruct (now <? e); [|done]. cbn [fst].
  assert (Hlt : (length (map_delete t key) < length t)%nat).
  { clear -E. unfold map_delete. induction t as [|[k v] t IH]; simpl in *; [done|].
    destruct (bool_decide (k = key)) eqn:Ek; simpl.
    - pose proof (filter_length_le (fun kv : jsstr * Z => negb (fst kv =s key)) t). lia.
    - specialize (IH E). lia. }
  apply map_set_bounded; [by apply map_filter_ok|lia].
Qed.

(** Memory use is bounded.  Starting from empty maps, no sequence of checks
    (with any Redis replies), clears and throttle queries makes the counter
    store or the audit throttle hold two entries for one key or more than
    [RATE_LIMIT_MAP_MAX_SIZE] entries. *)
Theorem limiter_memory_bounded ops :
  let '(st, t) := fold_left limiter_step ops ([], []) in bounded st /\ bounded t.
Proof.
  assert (H : forall s, bounded (fst s) -> bounded (snd s) ->
    bounded (fst (fold_left limiter_step ops s)) /\ bounded (snd (fold_left limiter_step ops s))).
  { induction ops as [|op ops IH]; intros [st t] Hs Ht; [done|]. cbn [fold_left fst snd] in *.
    destruct op as [o r now key|cleared key|key now]; apply IH; cbn [limiter_step fst snd]; try done.
    - unfold check. destruct (checkRedis o r); [done|].
      destruct (failClosedOnRedisError o); [done|]. by apply checkMemory_bounded.
    - unfold clear. destruct cleared; [done|]. destruct Hs as [H1 H2].
      split; [by apply map_filter_ok|]. pose proof (map_delete_size st key). lia.
    - by apply shouldEmit_bounded. }
  destruct (fold_left limiter_step ops ([], [])) as [st t] eqn:E.
  specialize (H ([], [])). rewrite E in H. apply H; split; simpl; (apply NoDup_nil_2 || lia || done).
Qed.

Lemma drop_expired_live now (t : throttle) k e :
  map_get t k = Some e -> now <= e -> map_get (drop_expired now t) k = Some e.
Proof.
  intros Hg He. induction t as [|[k0 e0] t IH]; [done|]. simpl in Hg |- *.
  destruct (e0 <? now) eqn:E; [|done]. case_bool_decide; bools; [simplify_eq; lia|auto].
Qed.

Lemma shouldEmit_keeps key e k now (t : throttle) :
  map_get t key = Some e -> now < e -> Z.of_nat (length t) < RATE_LIMIT_MAP_MAX_SIZE ->
  map_get (fst (shouldEmit k now t)) key = Some e /\
  (length (fst (shouldEmit k now t)) <= S (length t))%nat.
Proof.
  intros Hg He Hl.
  assert (Hp : k <> key -> map_get (pruneAndAdd k now t) key = Some e /\
    (length (pruneAndAdd k now t) <= S (length t))%nat).
  { intros Hne. unfold pruneAndAdd. destruct (drop_expired_spec now t) as [Hd _].
    destruct (evict_oldest_spec (drop_expired now t)) as (_ & Hid & _).
    rewrite Hid by (unfold map_full; apply Z.leb_gt; lia). rewrite map_get_set, map_set_size.
    rewrite bool_decide_false by done. split; [apply drop_expired_live; [done|lia]|].
    destruct (map_has _ k); lia. }
  unfold shouldEmit. destruct (map_get t k) as [ek|] eqn:Ek.
  - destruct (decide (k = key)) as [->|Hne].
    + rewrite Hg in Ek. simplify_eq. rewrite (proj2 (Z.ltb_lt _ _)) by done. cbn [fst].
      rewrite map_get_set, bool_decide_true, map_set_size by done. split; [done|].
      pose proof (map_delete_size t key). destruct (map_has _ key); lia.
    + destruct (now <? ek); cbn [fst]; [|by apply Hp].
      rewrite map_get_set, map_get_delete, !bool_decide_false, map_set_size by done. split; [done|].
      pose proof (map_delete_size t k). destruct (map_has _ k); lia.
  - cbn [fst]. apply Hp. congruence.
Qed.

(** One audit event per key and window.  When the throttle lets an event
    through at time [now], it suppresses every later one for the key until the
    window ends, whatever queries for other keys come in between, as long as
    those do not fill the map. *)
Theorem throttle_suppresses key now t later :
  Forall (fun q => snd q < now + THROTTLE_WINDOW_MS) later ->
  Z.of_nat (length t + S (length later)) < RATE_LIMIT_MAP_MAX_SIZE ->
  snd (shouldEmit key now t) = true ->
  let t' := fold_left (fun t q => fst (shouldEmit (fst q) (snd q) t)) later
              (fst (shouldEmit key now t)) in
  forall now', now' < now + THROTTLE_WINDOW_MS -> snd (shouldEmit key now' t') = false.
Proof.
  intros Hlater Hl Hem t' now' Hnow'.
  assert (Hinit : map_get (fst (shouldEmit key now t)) key = Some (now + THROTTLE_WINDOW_MS) /\
    (length (fst (shouldEmit key now t)) <= S (length t))%nat).
  { assert (Hp : map_get (pruneAndAdd key now t) key = Some (now + THROTTLE_WINDOW_MS) /\
      (length (pruneAndAdd key now t) <= S (length t))%nat).
    { unfold pruneAndAdd. rewrite map_get_set, bool_decide_true, map_set_size by done.
      destruct (drop_expired_spec now t) as [Hd _].
      destruct (evict_oldest_spec (drop_expired now t)) as (_ & Hid & _).
      rewrite Hid by (unfold map_full; apply Z.leb_gt; lia). split; [done|].
      destruct (map_has _ key); lia. }
    unfold shouldEmit in *. destruct (map_get t key) as [e|]; [|done]. by destruct (now <? e). }
  assert (Hinv : forall later s, Forall (fun q => snd q < now + THROTTLE_WINDOW_MS) later ->
    map_get s key = Some (now + THROTTLE_WINDOW_MS) ->
    Z.of_nat (length s + length later) <= RATE_LIMIT_MAP_MAX_SIZE ->
    map_get (fold_left (fun t q => fst (shouldEmit (fst q) (snd q) t)) later s) key
    = Some (now + THROTTLE_WINDOW_MS)).
  { clear. induction later as [|[k n] later IH]; intros s Hf Hg Hl; [done|].
    apply Forall_cons in Hf as [Hn Hf]. cbn [fold_left fst snd length] in *.
    destruct (shouldEmit_keeps key _ k n s Hg Hn ltac:(lia)) as [Hg' Hsz].
    apply IH; [done..|lia]. }
  unfold shouldEmit at 1. unfold t'. rewrite Hinv; [|done|apply Hinit|lia].
  by rewrite (proj2 (Z.ltb_lt _ _)).
Qed.

(** The throttle's early stop is not exact.  The pruning scan stops at the first
    live entry because insertion order is taken to be age order, but a suppressed
    query re-inserts its entry at the end with its old expiry, so an expired entry
    can sit behind a live one and survive pruning. *)
Theorem prune_leaves_expired :
  let t1 := fst (shouldEmit (js "a") 0 []) in
  let t2 := fst (shouldEmit (js "b") 200000 t1) in
  let t3 := fst (shouldEmit (js "a") 250000 t2) in
  let t4 := fst (shouldEmit (js "c") 400000 t3) in
  map_get t4 (js "a") = Some 300000.
Proof. vm_compute. reflexivity. Qed.

Definition demo_limiter : RateLimiterOptions :=
  {| windowMs := 60000; max := 2; failClosedOnRedisError := false |}.

Lemma memory_quota_witness :
  allowed_calls (run_memory demo_limiter (js "k")
    [(0, js "k"); (10, js "x"); (20, js "k"); (30, js "k"); (60000, js "k")] []) = 2.
Proof.
  etrans; [refine (memory_quota demo_limiter (js "k") 0 _ [] I _ _)|].
  - repeat (apply Forall_cons; split; [cbn; lia|]). done.
  - cbn. unfold RATE_LIMIT_MAP_MAX_SIZE. lia.
  - vm_compute. reflexivity.
Defined.

Lemma fail_closed_sound_witness :
  snd (check {| windowMs := 60000; max := 2; failClosedOnRedisError := true |}
         (Results [PNumber 1; PError; PNumber 5]) 0 (js "k") [])
  = {| allowed := false; retryAfterMs := None; redisErrored := true |} /\
  fst (check {| windowMs := 60000; max := 2; failClosedOnRedisError := true |}
         (Results [PNumber 1; PError; PNumber 5]) 0 (js "k") []) = [].
Proof.
  split; [vm_compute; reflexivity|].
  exact (proj1 (fail_closed_sound {| windowMs := 60000; max := 2; failClosedOnRedisError := true |}
    (Results [PNumber 1; PError; PNumber 5]) 0 (js "k") [] Canonical eq_refl)).
Defined.

Lemma throttle_suppresses_witness :
  snd (shouldEmit (js "a") 299999
    (fst (shouldEmit (js "b") 100 (fst (shouldEmit (js "a") 0 []))))) = false.
Proof.
  refine (throttle_suppresses (js "a") 0 [] [(js "b", 100)] _ _ _ 299999 _).
  - apply Forall_singleton. vm_compute. reflexivity.
  - vm_compute. reflexivity.
  - vm_compute. reflexivity.
  - vm_compute. reflexivity.
Defined.
