(* ===== verification/AccountLockout.v ===== *)
(** * Account lockout

    Models src/src/lib/auth/policy/account-lockout.ts: the progressive lockout of
    vault unlock attempts with its per-tenant thresholds, their cache and the
    fail-closed fallback.  [recordFailure] takes the row lock, so its transaction
    is one step on the users table; the outcome of the threshold query and a
    database fault of the transaction are inputs. *)

From S2P Require Import Prelude JsString JsMap.
Local Open Scope Z_scope.

Definition OBSERVATION_WINDOW_MS : Z := 86400000.
Definition MS_PER_MINUTE : Z := 60000.
Definition LOCKOUT_THRESHOLD_MIN : Z := 1.
Definition LOCKOUT_DURATION_MIN : Z := 1.
Definition LOCKOUT_DURATION_MAX : Z := 7 * 1440.
Definition LOCKOUT_THRESHOLD_CACHE_TTL_MS : Z := MS_PER_MINUTE.
Definition LOCKOUT_THRESHOLD_CACHE_MAX_SIZE : Z := 1000.

Record LockoutThreshold := { attempts : Z; lockMinutes : Z }.

Definition STRICTEST_LOCKOUT_THRESHOLDS : list LockoutThreshold :=
  [{| attempts := LOCKOUT_THRESHOLD_MIN; lockMinutes := LOCKOUT_DURATION_MAX |}].

(** ** Thresholds *)

(** The policy columns of a tenant. *)
Record tenant_policy := {
  lockoutThreshold1 : Z; lockoutDuration1Minutes : Z; lockoutThreshold2 : Z;
  lockoutDuration2Minutes : Z; lockoutThreshold3 : Z; lockoutDuration3Minutes : Z }.

Definition policy_thresholds (p : tenant_policy) : list LockoutThreshold :=
  [{| attempts := lockoutThreshold3 p; lockMinutes := lockoutDuration3Minutes p |};
   {| attempts := lockoutThreshold2 p; lockMinutes := lockoutDuration2Minutes p |};
   {| attempts := lockoutThreshold1 p; lockMinutes := lockoutDuration1Minutes p |}].

(** What the tenant query did. *)
Inductive tenant_fetch := FetchFound (p : tenant_policy) | FetchMissing | FetchThrew.

Record cached_thresholds := { ct_thresholds : list LockoutThreshold; ct_expiresAt : Z }.
Definition threshold_cache := jsmap cached_thresholds.

(** [now] is the time of the cache check, [now'] the time after the query. *)
Definition getLockoutThresholds (tenantId : jsstr) (now now' : Z) (fetch : tenant_fetch)
    (cache : threshold_cache) : threshold_cache * list LockoutThreshold :=
  let miss (cache : threshold_cache) :=
    let cache := if LOCKOUT_THRESHOLD_CACHE_MAX_SIZE <=? Z.of_nat (length cache)
                 then drop 1 cache else cache in
    match fetch with
    | FetchFound p =>
        let thresholds := policy_thresholds p in
        (map_set cache tenantId
           {| ct_thresholds := thresholds;
              ct_expiresAt := now' + LOCKOUT_THRESHOLD_CACHE_TTL_MS |}, thresholds)
    | FetchMissing | FetchThrew => (cache, STRICTEST_LOCKOUT_THRESHOLDS)
    end in
  match map_get cache tenantId with
  | Some c => if now <? ct_expiresAt c then (cache, ct_thresholds c)
              else miss (map_delete cache tenantId)
  | None => miss cache
  end.

Definition invalidateLockoutThresholdCache (tenantId : jsstr) (cache : threshold_cache)
    : threshold_cache := map_delete cache tenantId.

(** ** Users *)

Record lockout_user := {
  lu_tenantId : jsstr; failed_unlock_attempts : Z; last_failed_unlock_at : option Z;
  account_locked_until : option Z }.

Record LockoutStatus := { ls_locked : bool; ls_lockedUntil : option Z }.

Definition checkLockout (now : Z) (u : option lockout_user) : LockoutStatus :=
  match u ≫= account_locked_until with
  | None => {| ls_locked := false; ls_lockedUntil := None |}
  | Some until =>
      if now <? until then {| ls_locked := true; ls_lockedUntil := Some until |}
      else {| ls_locked := false; ls_lockedUntil := None |}
  end.

(** ** The transaction of [recordFailure] *)

Record failure_step := {
  fs_attempts : Z; fs_locked : bool; fs_lockedUntil : option Z; fs_lockMinutes : option Z;
  fs_thresholdCrossed : bool }.

Definition first_match (thresholds : list LockoutThreshold) (n : Z) : option LockoutThreshold :=
  List.find (fun t => attempts t <=? n) thresholds.

Definition record_failure_tx (thresholds : list LockoutThreshold) (now : Z) (row : lockout_user)
    : lockout_user * failure_step :=
  let prevAttempts := failed_unlock_attempts row in
  let newAttempts :=
    match last_failed_unlock_at row with
    | Some last => if now - last <? OBSERVATION_WINDOW_MS then prevAttempts + 1 else 1
    | None => 1
    end in
  let matched := first_match thresholds newAttempts in
  let newLockedUntil := (fun t => now + lockMinutes t * MS_PER_MINUTE) <$> matched in
  let finalLockedUntil :=
    match account_locked_until row, newLockedUntil with
    | Some existing, Some new => Some (if new <? existing then existing else new)
    | Some existing, None => if now <? existing then Some existing else None
    | None, new => new
    end in
  let thresholdCrossed :=
    match matched with Some t => prevAttempts <? attempts t | None => false end in
  ({| lu_tenantId := lu_tenantId row; failed_unlock_attempts := newAttempts;
      last_failed_unlock_at := Some now; account_locked_until := finalLockedUntil |},
   {| fs_attempts := newAttempts;
      fs_locked := match finalLockedUntil with Some u => now <? u | None => false end;
      fs_lockedUntil := finalLockedUntil; fs_lockMinutes := lockMinutes <$> matched;
      fs_thresholdCrossed := thresholdCrossed |}).

(** ** Errors *)

(** The fields of a thrown object that the classification reads. *)
Record db_error := { err_code : option jsstr; err_meta_code : option jsstr; err_cause_code : option jsstr }.

Definition isLockTimeoutError (e : db_error) : bool :=
  bool_decide (err_code e = Some (js "55P03"))
  || (bool_decide (err_code e = Some (js "P2010"))
      && bool_decide (err_meta_code e = Some (js "55P03")))
  || bool_decide (err_cause_code e = Some (js "55P03")).

Inductive lockout_throw := UserNotFound | DbError (e : db_error).

(** ** [recordFailure] *)

Inductive lockout_audit :=
| VAULT_UNLOCK_FAILED (userId : jsstr) (n : Z)
| VAULT_UNLOCK_FAILED_LOCK_TIMEOUT (userId : jsstr)
| VAULT_LOCKOUT_TRIGGERED (userId : jsstr) (n minutes : Z) (lockedUntil : option Z)
| NOTIFY_ADMINS (userId : jsstr) (n minutes : Z).

Record lockout_db := {
  ld_users : gmap jsstr lockout_user; ld_cache : threshold_cache; ld_audit : list lockout_audit }.

Record RecordFailureResult := { rf_locked : bool; rf_lockedUntil : option Z; rf_attempts : Z }.

(** [now] is the time the call starts, [now1] and [now2] the times around the
    threshold query, [fault] an error the transaction met. *)
Definition recordFailure (userId : jsstr) (tenantId : option jsstr) (now now1 now2 : Z)
    (fetch : tenant_fetch) (fault : option db_error) (db : lockout_db)
    : lockout_db * outcome lockout_throw (option RecordFailureResult) :=
  let resolvedTenantId :=
    match tenantId with
    | Some (c :: r) => Some (c :: r)
    | _ => lu_tenantId <$> ld_users db !! userId
    end in
  let '(cache, thresholds) :=
    match resolvedTenantId with
    | Some (c :: r) => getLockoutThresholds (c :: r) now1 now2 fetch (ld_cache db)
    | _ => (ld_cache db, STRICTEST_LOCKOUT_THRESHOLDS)
    end in
  let with_audit users audit :=
    {| ld_users := users; ld_cache := cache; ld_audit := ld_audit db ++ audit |} in
  match fault with
  | Some e =>
      if isLockTimeoutError e
      then (with_audit (ld_users db) [VAULT_UNLOCK_FAILED_LOCK_TIMEOUT userId], Ok None)
      else (with_audit (ld_users db) [], Throw (DbError e))
  | None =>
      match ld_users db !! userId with
      | None => (with_audit (ld_users db) [], Throw UserNotFound)
      | Some row =>
          let '(row', s) := record_failure_tx thresholds now row in
          let triggered :=
            match fs_lockMinutes s with
            | Some m =>
                [VAULT_LOCKOUT_TRIGGERED userId (fs_attempts s) m (fs_lockedUntil s)]
                ++ (if fs_thresholdCrossed s then [NOTIFY_ADMINS userId (fs_attempts s) m] else [])
            | None => []
            end in
          (with_audit (<[userId := row']> (ld_users db))
             (VAULT_UNLOCK_FAILED userId (fs_attempts s) :: triggered),
           Ok (Some {| rf_locked := fs_locked s; rf_lockedUntil := fs_lockedUntil s;
                       rf_attempts := fs_attempts s |}))
      end
  end.

(** [failed] is whether the update threw; the error is swallowed. *)
Definition resetLockout (userId : jsstr) (failed : bool) (db : lockout_db) : lockout_db :=
  if failed then db
  else {| ld_users := alter (fun u => {| lu_tenantId := lu_tenantId u; failed_unlock_attempts := 0;
                                         last_failed_unlock_at := None;
                                         account_locked_until := None |}) userId (ld_users db);
          ld_cache := ld_cache db; ld_audit := ld_audit db |}.

(** ** Lemmas on one failure *)

(** Order of lock ends, no lock being the least. *)
Definition until_le (a b : option Z) : Prop :=
  match a, b with
  | None, _ => True
  | Some x, Some y => x <= y
  | Some _, None => False
  end.

Lemma first_match_spec th n t :
  first_match th n = Some t -> t ∈ th /\ attempts t <= n.
Proof. intros [H1 H2]%find_some. bools. by rewrite list_elem_of_In. Qed.

Lemma first_match_exists th n t :
  t ∈ th -> attempts t <= n -> is_Some (first_match th n).
Proof.
  intros Hin Hle. unfold first_match. destruct (List.find _ th) eqn:E; [done|].
  apply list_elem_of_In in Hin. pose proof (find_none _ _ E _ Hin) as Hn. simpl in Hn. bools. lia.
Qed.

(** The lock after a failure: at least the existing one if active, at least the
    one the matched threshold asks for. *)
Lemma failure_lock th now row :
  let row' := fst (record_failure_tx th now row) in
  let s := snd (record_failure_tx th now row) in
  fs_attempts s = failed_unlock_attempts row' /\
  (forall u, account_locked_until row = Some u -> now < u ->
     until_le (Some u) (account_locked_until row')) /\
  (forall t, first_match th (fs_attempts s) = Some t ->
     until_le (Some (now + lockMinutes t * MS_PER_MINUTE)) (account_locked_until row')) /\
  (first_match th (fs_attempts s) = None -> until_le (account_locked_until row') (account_locked_until row)).
Proof.
  unfold record_failure_tx. cbn [fst snd fs_attempts account_locked_until failed_unlock_attempts].
  split; [done|]. set (n := match last_failed_unlock_at row with Some last => _ | None => 1 end).
  destruct (first_match th n) as [t|]; cbn [fmap option_fmap option_map];
    destruct (account_locked_until row) as [u|]; cbn; split_and!; try done;
    intros; simplify_eq; cbn; repeat case_match; bools; simplify_eq; cbn; try lia; try done.
Qed.

(** ** Sequences of failures *)

Definition run_failures (th : list LockoutThreshold) (ts : list Z) (row : lockout_user) : lockout_user :=
  fold_left (fun row now => fst (record_failure_tx th now row)) ts row.

(** Each failure comes within the observation window of the one before. *)
Fixpoint in_window (prev : Z) (ts : list Z) : Prop :=
  match ts with
  | [] => True
  | t :: ts' => t - prev < OBSERVATION_WINDOW_MS /\ in_window t ts'
  end.

Lemma list_last_cons (x : Z) l d : List.last (x :: l) d = List.last l x.
Proof.
  revert x d. induction l as [|y l IH]; intros x d; [done|].
  change (List.last (x :: y :: l) d) with (List.last (y :: l) d). by rewrite !IH.
Qed.

Lemma run_failures_count th ts row last :
  last_failed_unlock_at row = Some last -> in_window last ts ->
  failed_unlock_attempts (run_failures th ts row)
    = failed_unlock_attempts row + Z.of_nat (length ts) /\
  last_failed_unlock_at (run_failures th ts row) = Some (List.last ts last).
Proof.
  revert row last. induction ts as [|t ts IH]; intros row last Hl Hw; [cbn; split; [lia|done]|].
  destruct Hw as [Ht Hw]. cbn [run_failures fold_left].
  set (row1 := fst (record_failure_tx th t row)).
  assert (H1 : last_failed_unlock_at row1 = Some t) by done.
  assert (H2 : failed_unlock_attempts row1 = failed_unlock_attempts row + 1).
  { unfold row1, record_failure_tx. cbn. rewrite Hl. by rewrite (proj2 (Z.ltb_lt _ _)). }
  destruct (IH row1 t H1 Hw) as [IH1 IH2]. unfold run_failures in IH1, IH2. rewrite IH1, IH2, H2.
  split; [cbn [length]; lia|]. by rewrite list_last_cons.
Qed.

(** ** Properties *)

(** Brute force is bounded.  Failures of a user with a clean record, each within
    the observation window of the one before, are all counted; as soon as their
    number reaches a configured threshold, the account is locked from the last
    failure for the duration of the first threshold reached in the descending
    list, whatever locks were set on the way. *)
Theorem lockout_progressive th ts t0 row t :
  last_failed_unlock_at row = None -> in_window t0 ts -> t ∈ th ->
  attempts t <= 1 + Z.of_nat (length ts) ->
  let row' := run_failures th (t0 :: ts) row in
  let now := List.last ts t0 in
  failed_unlock_attempts row' = 1 + Z.of_nat (length ts) /\
  exists m, first_match th (1 + Z.of_nat (length ts)) = Some m /\
    until_le (Some (now + lockMinutes m * MS_PER_MINUTE)) (account_locked_until row') /\
    (0 < lockMinutes m -> ls_locked (checkLockout now (Some row')) = true).
Proof.
  intros Hl Hw Hin Hle row' now.
  destruct (first_match_exists th _ t Hin Hle) as [m Hm].
  set (row1 := fst (record_failure_tx th t0 row)).
  assert (H1 : last_failed_unlock_at row1 = Some t0) by done.
  assert (H2 : failed_unlock_attempts row1 = 1).
  { unfold row1, record_failure_tx. cbn. by rewrite Hl. }
  assert (Hcount : failed_unlock_attempts row' = 1 + Z.of_nat (length ts)).
  { destruct (run_failures_count th ts row1 t0 H1 Hw) as [Hc _]. unfold row', run_failures in *.
    cbn [fold_left]. fold row1. rewrite Hc, H2. done. }
  split; [done|]. exists m. split; [done|].
  assert (Hlast : exists rowp, row' = fst (record_failure_tx th now rowp)).
  { unfold row', now. destruct ts as [|x ts _] using rev_ind; [by exists row|].
    exists (run_failures th (t0 :: ts) row). unfold run_failures. rewrite app_comm_cons, fold_left_app.
    cbn [fold_left]. by rewrite last_last. }
  destruct Hlast as [rowp Hrow].
  assert (Hu : until_le (Some (now + lockMinutes m * MS_PER_MINUTE)) (account_locked_until row')).
  { destruct (failure_lock th now rowp) as (Ha & _ & Hf & _). rewrite Hrow in Hcount |- *.
    apply Hf. by rewrite Ha, Hcount. }
  split; [done|]. intros Hm0. unfold checkLockout. cbn [mbind option_bind].
  destruct (account_locked_until row') as [u|]; [|done]. cbn in Hu. unfold MS_PER_MINUTE in Hu.
  by rewrite (proj2 (Z.ltb_lt _ _)) by lia.
Qed.

(** The fallback is never weaker.  For every policy within the configurable
    bounds, every user row and every time, one failure recorded under the
    fallback thresholds locks the account at least as long as under the policy;
    and a missing tenant row or a failed query selects the fallback. *)
Theorem strictest_fallback_never_weaker p now row :
  (forall t, t ∈ policy_thresholds p ->
     LOCKOUT_THRESHOLD_MIN <= attempts t /\ lockMinutes t <= LOCKOUT_DURATION_MAX) ->
  0 <= failed_unlock_attempts row ->
  until_le (account_locked_until (fst (record_failure_tx (policy_thresholds p) now row)))
    (account_locked_until (fst (record_failure_tx STRICTEST_LOCKOUT_THRESHOLDS now row))) /\
  (forall tenantId now1 now2 fetch cache,
     map_get cache tenantId = None -> (forall p', fetch <> FetchFound p') ->
     snd (getLockoutThresholds tenantId now1 now2 fetch cache) = STRICTEST_LOCKOUT_THRESHOLDS).
Proof.
  intros Hp Hrow. split.
  - unfold record_failure_tx. cbn [fst account_locked_until].
    set (n := match last_failed_unlock_at row with Some last => _ | None => 1 end).
    assert (Hn : 1 <= n) by (unfold n; repeat case_match; lia).
    assert (Hs : first_match STRICTEST_LOCKOUT_THRESHOLDS n
      = Some {| attempts := LOCKOUT_THRESHOLD_MIN; lockMinutes := LOCKOUT_DURATION_MAX |}).
    { unfold first_match. cbn. unfold LOCKOUT_THRESHOLD_MIN. by rewrite (proj2 (Z.leb_le _ _)). }
    rewrite Hs. destruct (first_match (policy_thresholds p) n) as [t|] eqn:E.
    + apply first_match_spec in E as [Hin _]. destruct (Hp t Hin) as [_ Hd]. cbn.
      unfold LOCKOUT_DURATION_MAX, MS_PER_MINUTE in *.
      destruct (account_locked_until row); cbn; repeat case_match; bools; lia.
    + cbn. unfold LOCKOUT_DURATION_MAX, MS_PER_MINUTE.
      destruct (account_locked_until row); cbn; [|done]. repeat case_match; bools; cbn; done || lia.
  - intros tenantId now1 now2 fetch cache Hg Hf. unfold getLockoutThresholds. rewrite Hg.
    destruct fetch as [p'| |]; [by destruct (Hf p')|done..].
Qed.

(** What a recorded failure does.  Without a database fault the attempt is
    counted, an active lock is never shortened, the answer says whether the
    account is locked as [checkLockout] would at that moment, and the attempt is
    audited; a lock timeout answers null, any other error is thrown, and both
    leave every user row as it was. *)
Theorem recordFailure_outcome userId tenantId now now1 now2 fetch fault db :
  let '(db', r) := recordFailure userId tenantId now now1 now2 fetch fault db in
  match r with
  | Ok (Some res) =>
      fault = None /\ exists row row', ld_users db !! userId = Some row /\
      ld_users db' = <[userId := row']> (ld_users db) /\
      rf_attempts res = failed_unlock_attempts row' /\
      rf_locked res = ls_locked (checkLockout now (Some row')) /\
      (ls_locked (checkLockout now (Some row)) = true ->
       until_le (account_locked_until row) (account_locked_until row')) /\
      VAULT_UNLOCK_FAILED userId (rf_attempts res) ∈ ld_audit db'
  | Ok None =>
      ld_users db' = ld_users db /\ exists e, fault = Some e /\ isLockTimeoutError e = true
  | Throw (DbError e) =>
      ld_users db' = ld_users db /\ fault = Some e /\ isLockTimeoutError e = false
  | Throw UserNotFound => ld_users db' = ld_users db /\ ld_users db !! userId = None
  end.
Proof.
  unfold recordFailure.
  destruct (match _ with Some (c :: r) => getLockoutThresholds (c :: r) _ _ _ _ | _ => _ end) as [cache th].
  destruct fault as [e|].
  { destruct (isLockTimeoutError e) eqn:E; cbn; eauto. }
  destruct (ld_users db !! userId) as [row|] eqn:Er; [|done].
  pose proof (failure_lock th now row) as Hf.
  rewrite (surjective_pairing (record_failure_tx th now row)). cbv zeta in Hf.
  destruct Hf as (Ha & Hk & _ & _). split; [done|]. exists row, (fst (record_failure_tx th now row)).
  split_and!; try done.
  - unfold checkLockout. cbn [rf_locked]. unfold record_failure_tx. cbn [fst snd fs_locked mbind option_bind
      account_locked_until].
    match goal with |- context [match ?x with Some u => now <? u | None => false end] =>
      destruct x as [u|] end; [|done]. by destruct (now <? u).
  - intros Hl. unfold checkLockout in Hl. cbn [mbind option_bind] in Hl.
    destruct (account_locked_until row) as [u|]; [|done]. destruct (now <? u) eqn:Eu; [|done].
    bools. by apply Hk.
  - cbn [ld_audit rf_attempts]. apply elem_of_app. right. apply list_elem_of_here.
Qed.

(** ** The threshold cache *)

Inductive cache_op :=
| CGet (tenantId : jsstr) (now now' : Z) (fetch : tenant_fetch)
| CInvalidate (tenantId : jsstr).

Definition cache_step (cache : threshold_cache) (op : cache_op) : threshold_cache :=
  match op with
  | CGet t now now' fetch => fst (getLockoutThresholds t now now' fetch cache)
  | CInvalidate t => invalidateLockoutThresholdCache t cache
  end.

(** An entry stands for a successful query at most a TTL before its expiry. *)
Definition entry_from (ops : list cache_op) (e : jsstr * cached_thresholds) : Prop :=
  exists now now' p, CGet (fst e) now now' (FetchFound p) ∈ ops /\
    ct_thresholds (snd e) = policy_thresholds p /\
    ct_expiresAt (snd e) = now' + LOCKOUT_THRESHOLD_CACHE_TTL_MS.

Definition cache_inv (ops : list cache_op) (cache : threshold_cache) : Prop :=
  map_ok cache /\ Z.of_nat (length cache) <= LOCKOUT_THRESHOLD_CACHE_MAX_SIZE /\
  Forall (entry_from ops) cache.

Lemma cache_inv_sub ops cache cache' :
  cache_inv ops cache -> map_ok cache' -> (length cache' <= length cache)%nat ->
  (forall e, e ∈ cache' -> e ∈ cache) -> cache_inv ops cache'.
Proof.
  intros (_ & Hl & Hf) Hok Hle Hsub. split_and!; [done|lia|].
  rewrite Forall_forall in *. auto.
Qed.

Lemma map_set_elem {V} (m : jsmap V) k v e : e ∈ map_set m k v -> e = (k, v) \/ e ∈ m.
Proof.
  induction m as [|[k0 v0] m IH]; simpl.
  - intros ->%list_elem_of_singleton. by left.
  - case_bool_decide; rewrite !elem_of_cons; intros [->|Hin]; subst; auto.
    destruct (IH Hin); auto.
Qed.

Lemma map_delete_inv ops cache t : cache_inv ops cache -> cache_inv ops (map_delete cache t).
Proof.
  intros H. eapply cache_inv_sub; [exact H|by apply map_filter_ok, H|apply map_delete_size|].
  intros e He. apply list_elem_of_In in He. apply filter_In in He as [He _]. by apply list_elem_of_In.
Qed.

Lemma entry_from_mono ops op e : entry_from ops e -> entry_from (ops ++ [op]) e.
Proof.
  intros (now & now' & p & Hin & H1 & H2). exists now, now', p. split_and!; [|done..].
  apply elem_of_app. by left.
Qed.

Lemma cache_step_inv ops cache op :
  cache_inv ops cache -> cache_inv (ops ++ [op]) (cache_step cache op).
Proof.
  intros Hinv. assert (Hmono : forall c, cache_inv ops c -> cache_inv (ops ++ [op]) c).
  { intros c (H1 & H2 & H3). split_and!; [done..|]. eapply Forall_impl; [exact H3|].
    intros e. apply entry_from_mono. }
  destruct op as [t now now' fetch|t]; cbn [cache_step]; [|by apply Hmono, map_delete_inv].
  assert (Hmiss : forall c, cache_inv ops c ->
    let c' := if LOCKOUT_THRESHOLD_CACHE_MAX_SIZE <=? Z.of_nat (length c) then drop 1 c else c in
    cache_inv ops c' /\ Z.of_nat (length c') < LOCKOUT_THRESHOLD_CACHE_MAX_SIZE).
  { intros c Hc c'. unfold c', LOCKOUT_THRESHOLD_CACHE_MAX_SIZE.
    destruct (1000 <=? Z.of_nat (length c)) eqn:E; bools; [|done].
    destruct c as [|kv c]; [simpl in E; lia|]. cbn [drop]. rewrite drop_0.
    pose proof Hc as (Hok & Hl & _). unfold LOCKOUT_THRESHOLD_CACHE_MAX_SIZE in Hl.
    split; [|simpl in Hl; lia]. eapply cache_inv_sub; [exact Hc| |simpl; lia|].
    - unfold map_ok in *. cbn [map] in Hok. by apply NoDup_cons in Hok as [_ ?].
    - intros e He. by apply list_elem_of_further. }
  assert (Hget : forall c, cache_inv ops c -> cache_inv (ops ++ [CGet t now now' fetch])
    (fst (let c' := if LOCKOUT_THRESHOLD_CACHE_MAX_SIZE <=? Z.of_nat (length c) then drop 1 c else c in
     match fetch with
     | FetchFound p => (map_set c' t {| ct_thresholds := policy_thresholds p;
         ct_expiresAt := now' + LOCKOUT_THRESHOLD_CACHE_TTL_MS |}, policy_thresholds p)
     | FetchMissing | FetchThrew => (c', STRICTEST_LOCKOUT_THRESHOLDS)
     end))).
  { intros c Hc. destruct (Hmiss c Hc) as [Hc' Hl']. cbv zeta in *.
    set (c' := (if LOCKOUT_THRESHOLD_CACHE_MAX_SIZE <=? Z.of_nat (length c) then drop 1 c else c)) in *.
    destruct fetch as [p| |]; cbn [fst]; [|by apply Hmono..].
    pose proof (Hmono c' Hc') as (H1 & _ & H3). split_and!; [by apply map_set_ok| |].
    - rewrite map_set_size. destruct (map_has c' t); lia.
    - rewrite Forall_forall in *. intros e [->|He]%map_set_elem; [|by apply H3].
      exists now, now', p. split_and!; [|done..]. apply elem_of_app. right. apply list_elem_of_here. }
  unfold getLockoutThresholds. destruct (map_get cache t) as [ct|]; [|by apply Hget].
  destruct (now <? ct_expiresAt ct); [by apply Hmono|]. by apply Hget, map_delete_inv.
Qed.

(** The cache is bounded and fresh.  After any sequence of look-ups and
    invalidations the cache has at most 1000 tenants, one entry each, and what a
    look-up at time [now] answers is the fallback, or the policy a successful
    query for that tenant returned, either this one or one that ended less than
    a minute before. *)
Theorem thresholds_bounded_and_fresh ops tenantId now now' fetch :
  let cache := fold_left cache_step ops [] in
  Z.of_nat (length cache) <= LOCKOUT_THRESHOLD_CACHE_MAX_SIZE /\ map_ok cache /\
  let th := snd (getLockoutThresholds tenantId now now' fetch cache) in
  th = STRICTEST_LOCKOUT_THRESHOLDS \/
  (exists p, fetch = FetchFound p /\ th = policy_thresholds p) \/
  (exists t t' p, CGet tenantId t t' (FetchFound p) ∈ ops /\ th = policy_thresholds p /\
     now < t' + 60000).
Proof.
  intros cache. assert (Hinv : cache_inv ops cache).
  { unfold cache. induction ops as [|op ops IH] using rev_ind.
    - split_and!; [apply NoDup_nil_2|done|done].
    - rewrite fold_left_app. by apply cache_step_inv. }
  pose proof Hinv as (Hok & Hl & Hf). split_and!; [done..|]. cbv zeta.
  assert (Hmiss : forall c : threshold_cache, snd (match fetch with
     | FetchFound p => (map_set c tenantId {| ct_thresholds := policy_thresholds p;
         ct_expiresAt := now' + LOCKOUT_THRESHOLD_CACHE_TTL_MS |}, policy_thresholds p)
     | FetchMissing | FetchThrew => (c, STRICTEST_LOCKOUT_THRESHOLDS)
     end) = STRICTEST_LOCKOUT_THRESHOLDS \/ (exists p, fetch = FetchFound p /\
     snd (match fetch with
     | FetchFound p => (map_set c tenantId {| ct_thresholds := policy_thresholds p;
         ct_expiresAt := now' + LOCKOUT_THRESHOLD_CACHE_TTL_MS |}, policy_thresholds p)
     | FetchMissing | FetchThrew => (c, STRICTEST_LOCKOUT_THRESHOLDS)
     end) = policy_thresholds p)).
  { intros c. destruct fetch; eauto. }
  unfold getLockoutThresholds. destruct (map_get cache tenantId) as [ct|] eqn:E.
  - destruct (now <? ct_expiresAt ct) eqn:Et; bools.
    + right. right. apply map_get_in in E. rewrite Forall_forall in Hf.
      destruct (Hf _ E) as (t & t' & p & Hin & H1 & H2). cbn in *. exists t, t', p.
      split_and!; [done..|]. unfold LOCKOUT_THRESHOLD_CACHE_TTL_MS, MS_PER_MINUTE in H2. lia.
    + edestruct Hmiss as [H|H]; [left; exact H|right; left; exact H].
  - edestruct Hmiss as [H|H]; [left; exact H|right; left; exact H].
Qed.

Definition demo_policy : tenant_policy :=
  {| lockoutThreshold1 := 1; lockoutDuration1Minutes := 15; lockoutThreshold2 := 10;
     lockoutDuration2Minutes := 60; lockoutThreshold3 := 15; lockoutDuration3Minutes := 1440 |}.
Definition demo_user (n : Z) (last until : option Z) : lockout_user :=
  {| lu_tenantId := js "t"; failed_unlock_attempts := n; last_failed_unlock_at := last;
     account_locked_until := until |}.

(** A lockout after a quiet period is not reported to the administrators.  With a
    policy that locks at the first failure, a user whose last failure is more
    than a day old is locked again, but the crossing test compares the stale
    counter, so the triggered lockout is audited and no notification is sent. *)
Theorem stale_counter_suppresses_notification :
  let db := {| ld_users := {[js "u" := demo_user 3 (Some 0) None]}; ld_cache := [];
               ld_audit := [] |} in
  let now := 90000000 in
  let '(db', r) := recordFailure (js "u") (Some (js "t")) now now now (FetchFound demo_policy)
                     None db in
  r = Ok (Some {| rf_locked := true; rf_lockedUntil := Some (now + 900000); rf_attempts := 1 |}) /\
  ld_audit db' = [VAULT_UNLOCK_FAILED (js "u") 1;
                  VAULT_LOCKOUT_TRIGGERED (js "u") 1 15 (Some (now + 900000))].
Proof. vm_compute. split; reflexivity. Qed.

Lemma lockout_progressive_witness :
  let row' := run_failures (policy_thresholds demo_policy) [1000; 2000; 3000] (demo_user 0 None None) in
  failed_unlock_attempts row' = 3.
Proof.
  refine (proj1 (lockout_progressive (policy_thresholds demo_policy) [2000; 3000] 1000
    (demo_user 0 None None) {| attempts := 1; lockMinutes := 15 |} _ _ _ _)).
  - reflexivity.
  - vm_compute. split_and!; reflexivity || exact I.
  - unfold policy_thresholds. do 2 apply list_elem_of_further. apply list_elem_of_here.
  - vm_compute. discriminate.
Defined.

Lemma strictest_fallback_never_weaker_witness :
  until_le
    (account_locked_until (fst (record_failure_tx (policy_thresholds demo_policy) 5000
       (demo_user 2 (Some 4000) (Some 6000)))))
    (account_locked_until (fst (record_failure_tx STRICTEST_LOCKOUT_THRESHOLDS 5000
       (demo_user 2 (Some 4000) (Some 6000))))).
Proof.
  refine (proj1 (strictest_fallback_never_weaker demo_policy 5000 (demo_user 2 (Some 4000) (Some 6000)) _ _)).
  - intros t Ht. unfold policy_thresholds in Ht.
    repeat (apply elem_of_cons in Ht as [->|Ht];
      [vm_compute; split; discriminate|]). by apply not_elem_of_nil in Ht.
  - vm_compute. discriminate.
Defined.
