(* ===== verification/PasskeyPolicy.v ===== *)
(** * Passkey enforcement

    src/src/lib/auth/policy/passkey-enforcement.ts: the grace-period decision,
    the re-derivation of a user's passkey state from the database at every
    token-issuance point, and the de-duplication of the audit event emitted
    when enforcement blocks.  [requirePasskeyEnabledAt] is kept as the
    timestamp the ISO string of the source denotes. *)

From S2P Require Import Prelude JsString JsMap.
Local Open Scope Z_scope.

Definition PASSKEY_MS_PER_DAY : Z := 86400000.

Definition isPasskeyGracePeriodExpired (now : Z) (requirePasskeyEnabledAt : option Z)
    (passkeyGracePeriodDays : option Z) : bool :=
  match requirePasskeyEnabledAt with
  | None => true
  | Some enabledAt =>
      match passkeyGracePeriodDays with
      | None => true
      | Some days =>
          if days <=? 0 then true
          else enabledAt + days * PASSKEY_MS_PER_DAY <? now
      end
  end.

Record passkey_state := {
  requirePasskey : bool; hasPasskey : bool; requirePasskeyEnabledAt : option Z;
  passkeyGracePeriodDays : option Z }.

Definition passkeyEnforcementBlocks (now : Z) (p : passkey_state) : bool :=
  requirePasskey p && negb (hasPasskey p)
  && isPasskeyGracePeriodExpired now (requirePasskeyEnabledAt p) (passkeyGracePeriodDays p).

(** The tenant columns the derivation selects. *)
Record passkey_tenant := {
  pt_requirePasskey : bool; pt_enabledAt : option Z; pt_graceDays : option Z }.

Inductive passkey_throw := TenantNotFound.

(** [credCount] is the number of the user's WebAuthn credentials, [tenant] the
    tenant row; a missing row throws. *)
Definition derivePasskeyState (credCount : nat) (tenant : option passkey_tenant)
    : outcome passkey_throw passkey_state :=
  match tenant with
  | None => Throw TenantNotFound
  | Some t => Ok {| requirePasskey := pt_requirePasskey t; hasPasskey := (0 <? credCount)%nat;
                    requirePasskeyEnabledAt := pt_enabledAt t;
                    passkeyGracePeriodDays := pt_graceDays t |}
  end.

(** ** The audit de-duplication map *)

Definition PASSKEY_AUDIT_DEDUP_MS : Z := 300000.
Definition PASSKEY_AUDIT_MAP_MAX : Z := 1000.

Definition passkey_audit_key (userId blockedPath : jsstr) : jsstr :=
  userId ++ js ":" ++ blockedPath.

Definition recordPasskeyAuditEmit (userId blockedPath : jsstr) (nowMs : Z) (m : jsmap Z)
    : jsmap Z * bool :=
  let key := passkey_audit_key userId blockedPath in
  let emit :=
    let m1 := map_delete m key in
    let m2 := if PASSKEY_AUDIT_MAP_MAX <=? Z.of_nat (length m1)
              then match m1 with [] => [] | (oldest, _) :: _ => map_delete m1 oldest end
              else m1 in
    (map_set m2 key nowMs, true) in
  match map_get m key with
  | Some lastEmitted =>
      if nowMs - lastEmitted <=? PASSKEY_AUDIT_DEDUP_MS then (m, false) else emit
  | None => emit
  end.

(** ** Properties *)

(** Enforcement blocks a user without a passkey exactly outside the grace
    period. *)
Lemma passkeyEnforcementBlocks_iff now p :
  passkeyEnforcementBlocks now p = true <->
  requirePasskey p = true /\ hasPasskey p = false /\
  forall enabledAt days, requirePasskeyEnabledAt p = Some enabledAt ->
    passkeyGracePeriodDays p = Some days -> 0 < days ->
    enabledAt + days * PASSKEY_MS_PER_DAY < now.
Proof.
  unfold passkeyEnforcementBlocks, isPasskeyGracePeriodExpired.
  rewrite !andb_true_iff, negb_true_iff.
  destruct (requirePasskeyEnabledAt p) as [e|]; [|naive_solver].
  destruct (passkeyGracePeriodDays p) as [d|]; [|naive_solver].
  destruct (d <=? 0) eqn:E; bools.
  - split; [|naive_solver]. intros [[-> ->] _]. split_and!; [done..|]. intros ? ? ? [= <-]. lia.
  - split.
    + intros [[-> ->] H%Z.ltb_lt]. split_and!; [done..|]. intros ? ? [= <-] [= <-] _. done.
    + intros (-> & -> & H). split; [done|]. apply Z.ltb_lt. by apply H.
Qed.

(** The map holds at most [PASSKEY_AUDIT_MAP_MAX] entries. *)
Lemma recordPasskeyAuditEmit_bounded u p now m :
  Z.of_nat (length m) <= PASSKEY_AUDIT_MAP_MAX -> map_ok m ->
  let m' := fst (recordPasskeyAuditEmit u p now m) in
  Z.of_nat (length m') <= PASSKEY_AUDIT_MAP_MAX /\ map_ok m'.
Proof.
  intros Hl Hok. unfold recordPasskeyAuditEmit. set (key := passkey_audit_key u p).
  assert (H : forall m2 : jsmap Z, Z.of_nat (length m2) < PASSKEY_AUDIT_MAP_MAX -> map_ok m2 ->
    Z.of_nat (length (map_set m2 key now)) <= PASSKEY_AUDIT_MAP_MAX /\ map_ok (map_set m2 key now)).
  { intros m2 H2 Hok2. split; [|by apply map_set_ok]. rewrite map_set_size.
    destruct (map_has m2 key); lia. }
  assert (He : Z.of_nat (length (if PASSKEY_AUDIT_MAP_MAX <=? Z.of_nat (length (map_delete m key))
      then match map_delete m key with [] => [] | (oldest, _) :: _ => map_delete (map_delete m key) oldest end
      else map_delete m key)) < PASSKEY_AUDIT_MAP_MAX /\
    map_ok (if PASSKEY_AUDIT_MAP_MAX <=? Z.of_nat (length (map_delete m key))
      then match map_delete m key with [] => [] | (oldest, _) :: _ => map_delete (map_delete m key) oldest end
      else map_delete m key)).
  { pose proof (map_delete_size m key) as Hd.
    assert (Hok1 : map_ok (map_delete m key)) by by apply map_filter_ok.
    destruct (PASSKEY_AUDIT_MAP_MAX <=? _) eqn:E; bools; [|split; [lia|done]].
    destruct (map_delete m key) as [|[o v] m1] eqn:Em; [done|].
    split; [|by apply map_filter_ok]. unfold map_delete at 1. cbn [List.filter fst].
    rewrite bool_decide_true by done. cbn [negb]. pose proof (filter_length_le
      (fun kv : jsstr * Z => negb (fst kv =s o)) m1). cbn [length] in *. lia. }
  destruct He as [He1 He2].
  destruct (map_get m key) as [l|]; [destruct (now - l <=? _); [by split|]|]; by apply H.
Qed.
