(* ===== verification/McpOAuth.v ===== *)
(** * The MCP OAuth 2.1 server

    src/src/lib/mcp/oauth-server.ts: authorization codes with PKCE, access
    tokens, refresh-token rotation with family revocation, validation and
    RFC 7009 revocation.

    Transactions run at Read Committed: a call reads its rows in one state and
    writes in a later one.  Every operation therefore takes the states its
    reads see ([w0] for the credential row and its client, [w1] for the
    membership and passkey rows) and the state [w] its writes act on; the
    compare-and-swap and the writes after it are one step on [w].  Clock reads
    of one phase of a call are one argument.  [hashToken] and
    [sha256_base64url] stand for the SHA-256 of node:crypto in its two
    encodings, random values and generated identifiers are arguments. *)

From S2P Require Import Prelude JsString JsMap Table PasskeyPolicy.
Local Open Scope Z_scope.

Definition MCP_TOKEN_PREFIX : jsstr := js "mcp_".
Definition MCP_REFRESH_TOKEN_PREFIX : jsstr := js "mcpr_".
Definition MCP_CLIENT_ID_MAX_LENGTH : nat := 64.
Definition MCP_AUTHORIZATION_CODE_MAX_LENGTH : nat := 256.
Definition MCP_PRESENTED_TOKEN_MAX_LENGTH : nat := 256.
Definition MCP_CODE_EXPIRY_SEC : Z := 300.
Definition MCP_TOKEN_EXPIRY_SEC : Z := 3600.
Definition MCP_REFRESH_TOKEN_EXPIRY_SEC : Z := 604800.
Definition MCP_REFRESH_TOKEN_FAMILY_ABSOLUTE_TIMEOUT_SEC : Z := 2592000.
Definition MAX_MCP_TOKEN_LAST_USED_THROTTLE_MS : Z := 300000.
Definition MCP_MS_PER_SECOND : Z := 1000.

(** ** Tables *)

Record mcp_client := {
  mc_clientId : jsstr; mc_clientSecretHash : jsstr; mc_isActive : bool;
  mc_tenantId : option jsstr }.

(** The columns that a code, an access token and a refresh token share. *)
Record mcp_grant := {
  gr_clientId : jsstr; gr_tenantId : jsstr; gr_userId : option jsstr;
  gr_serviceAccountId : option jsstr; gr_scope : jsstr }.

Record auth_code := {
  ac_codeHash : jsstr; ac_grant : mcp_grant; ac_redirectUri : jsstr; ac_codeChallenge : jsstr;
  ac_codeChallengeMethod : jsstr; ac_expiresAt : Z; ac_usedAt : option Z }.

Record access_token := {
  at_tokenHash : jsstr; at_grant : mcp_grant; at_expiresAt : Z; at_revokedAt : option Z;
  at_lastUsedAt : option Z }.

Record refresh_token := {
  rt_tokenHash : jsstr; rt_familyId : jsstr; rt_familyCreatedAt : Z; rt_accessTokenId : jsstr;
  rt_grant : mcp_grant; rt_expiresAt : Z; rt_rotatedAt : option Z; rt_revokedAt : option Z;
  rt_replacedByHash : option jsstr }.

Record mcp_world := {
  mw_codes : gmap jsstr auth_code; mw_access : gmap jsstr access_token;
  mw_refresh : gmap jsstr refresh_token; mw_clients : gmap jsstr mcp_client;
  mw_members : gmap (jsstr * jsstr) (option Z);
  mw_tenants : gmap jsstr passkey_tenant; mw_credentials : gmap jsstr nat }.

Definition set_codes (w : mcp_world) t : mcp_world :=
  {| mw_codes := t; mw_access := mw_access w; mw_refresh := mw_refresh w;
     mw_clients := mw_clients w; mw_members := mw_members w; mw_tenants := mw_tenants w;
     mw_credentials := mw_credentials w |}.
Definition set_access (w : mcp_world) t : mcp_world :=
  {| mw_codes := mw_codes w; mw_access := t; mw_refresh := mw_refresh w;
     mw_clients := mw_clients w; mw_members := mw_members w; mw_tenants := mw_tenants w;
     mw_credentials := mw_credentials w |}.
Definition set_refresh (w : mcp_world) t : mcp_world :=
  {| mw_codes := mw_codes w; mw_access := mw_access w; mw_refresh := t;
     mw_clients := mw_clients w; mw_members := mw_members w; mw_tenants := mw_tenants w;
     mw_credentials := mw_credentials w |}.

(** Row updates. *)
Definition use_code (now : Z) (c : auth_code) : auth_code :=
  {| ac_codeHash := ac_codeHash c; ac_grant := ac_grant c; ac_redirectUri := ac_redirectUri c;
     ac_codeChallenge := ac_codeChallenge c; ac_codeChallengeMethod := ac_codeChallengeMethod c;
     ac_expiresAt := ac_expiresAt c; ac_usedAt := Some now |}.
Definition revoke_access (now : Z) (a : access_token) : access_token :=
  {| at_tokenHash := at_tokenHash a; at_grant := at_grant a; at_expiresAt := at_expiresAt a;
     at_revokedAt := Some now; at_lastUsedAt := at_lastUsedAt a |}.
Definition touch_access (now : Z) (a : access_token) : access_token :=
  {| at_tokenHash := at_tokenHash a; at_grant := at_grant a; at_expiresAt := at_expiresAt a;
     at_revokedAt := at_revokedAt a; at_lastUsedAt := Some now |}.
Definition revoke_refresh (now : Z) (r : refresh_token) : refresh_token :=
  {| rt_tokenHash := rt_tokenHash r; rt_familyId := rt_familyId r;
     rt_familyCreatedAt := rt_familyCreatedAt r; rt_accessTokenId := rt_accessTokenId r;
     rt_grant := rt_grant r; rt_expiresAt := rt_expiresAt r; rt_rotatedAt := rt_rotatedAt r;
     rt_revokedAt := Some now; rt_replacedByHash := rt_replacedByHash r |}.
Definition rotate_refresh (now : Z) (newHash : jsstr) (r : refresh_token) : refresh_token :=
  {| rt_tokenHash := rt_tokenHash r; rt_familyId := rt_familyId r;
     rt_familyCreatedAt := rt_familyCreatedAt r; rt_accessTokenId := rt_accessTokenId r;
     rt_grant := rt_grant r; rt_expiresAt := rt_expiresAt r; rt_rotatedAt := Some now;
     rt_revokedAt := rt_revokedAt r; rt_replacedByHash := Some newHash |}.

Inductive mcp_throw :=
| McpRangeError   (* timingSafeEqual on buffers of different length *)
| McpUnique       (* a unique index refused the insert *)
| McpMissing      (* a required related row, or the row to update, is absent *)
| McpPasskey (e : passkey_throw).

(** [is_set d] is the truthiness of a nullable date. *)
Definition is_set (d : option Z) : bool := match d with Some _ => true | None => false end.

(** [findUnique] on a hash column, and an insert under its unique index. *)
Definition find_hash {row} (hash : row -> jsstr) (h : jsstr) (t : gmap jsstr row)
    : option (jsstr * row) := find_by (fun r => hash r =s h) t.
Definition create {row} (hash : row -> jsstr) (id : jsstr) (r : row) (t : gmap jsstr row)
    : outcome mcp_throw (gmap jsstr row) :=
  match t !! id, find_hash hash (hash r) t with
  | None, None => Ok (<[id := r]> t)
  | _, _ => Throw McpUnique
  end.

(** ** Comparison and client authentication *)

(** Strings of equal length may encode to buffers of different length, on which
    [timingSafeEqual] throws. *)
Definition safeEqual (a b : jsstr) : outcome mcp_throw bool :=
  if negb (length a =? length b)%nat then Ok false
  else if (length (js_utf8 a) =? length (js_utf8 b))%nat
       then Ok (js_utf8 a =s js_utf8 b)
       else Throw McpRangeError.

Definition verifyRevokeClientAuth (storedHash : jsstr) (providedHash : option jsstr)
    : outcome mcp_throw bool :=
  if storedHash =s [] then Ok true
  else match providedHash with
       | None | Some [] => Ok false
       | Some h => safeEqual storedHash h
       end.

(** The secret check of the two exchanges; a public client has an empty hash. *)
Definition client_secret_ok (c : mcp_client) (secretHash : jsstr) : outcome mcp_throw bool :=
  if mc_clientSecretHash c =s [] then Ok true else safeEqual (mc_clientSecretHash c) secretHash.

Definition checkTenantMembership (w : mcp_world) (tenantId userId : jsstr) : bool :=
  match mw_members w !! (tenantId, userId) with
  | Some deactivatedAt => negb (is_set deactivatedAt)
  | None => false
  end.

(** The passkey gate at the mint points; service-account grants skip it. *)
Definition passkey_gate (now : Z) (w : mcp_world) (g : mcp_grant) : outcome mcp_throw bool :=
  match gr_userId g with
  | None => Ok false
  | Some u =>
      match derivePasskeyState (default 0%nat (mw_credentials w !! u)) (mw_tenants w !! gr_tenantId g) with
      | Throw e => Throw (McpPasskey e)
      | Ok pk => Ok (passkeyEnforcementBlocks now pk)
      end
  end.

Definition blank (s : jsstr) : bool := s =s [].
Definition too_long (max : nat) (s : jsstr) : bool := (max <? length s)%nat.

Section Server.
Context (hashToken : jsstr -> jsstr) (sha256_base64url : jsstr -> jsstr).

(** ** PKCE *)

Definition computeS256Challenge (verifier : jsstr) : jsstr := sha256_base64url verifier.
Definition verifyPkceS256 (challenge verifier : jsstr) : outcome mcp_throw bool :=
  safeEqual (computeS256Challenge verifier) challenge.

(** ** Authorization codes *)

Record CreateAuthCodeParams := {
  cp_grant : mcp_grant; cp_redirectUri : jsstr; cp_codeChallenge : jsstr;
  cp_codeChallengeMethod : option jsstr }.

Definition createAuthorizationCode (p : CreateAuthCodeParams) (now : Z) (id plainCode : jsstr)
    (w : mcp_world) : mcp_world * outcome mcp_throw (jsstr * Z) :=
  let expiresAt := now + MCP_CODE_EXPIRY_SEC * MCP_MS_PER_SECOND in
  let row := {| ac_codeHash := hashToken plainCode; ac_grant := cp_grant p;
                ac_redirectUri := cp_redirectUri p; ac_codeChallenge := cp_codeChallenge p;
                ac_codeChallengeMethod := default (js "S256") (cp_codeChallengeMethod p);
                ac_expiresAt := expiresAt; ac_usedAt := None |} in
  match create ac_codeHash id row (mw_codes w) with
  | Throw e => (w, Throw e)
  | Ok t => (set_codes w t, Ok (plainCode, expiresAt))
  end.

Definition resolveCodeTenantId (code : jsstr) (w : mcp_world) : option jsstr :=
  if blank code || too_long MCP_AUTHORIZATION_CODE_MAX_LENGTH code then None
  else (fun kc => gr_tenantId (ac_grant (snd kc))) <$> find_hash ac_codeHash (hashToken code) (mw_codes w).

Record ExchangeCodeParams := {
  ep_code : jsstr; ep_clientId : jsstr; ep_clientSecretHash : jsstr; ep_redirectUri : jsstr;
  ep_codeVerifier : jsstr; ep_tokenExpirySeconds : option Z }.

Inductive TokenExchangeError :=
| InvalidGrant | InvalidClient | InvalidRequest | AccessDenied (userId : option jsstr) (tenantId : jsstr).

Record TokenExchangeResult := {
  tr_accessToken : jsstr; tr_expiresIn : Z; tr_tokenId : jsstr; tr_grant : mcp_grant }.

(** The checks of the exchange, in the order of the source, up to the
    compare-and-swap. *)
Definition check_code (p : ExchangeCodeParams) (now : Z) (w0 w1 : mcp_world)
    : outcome mcp_throw (TokenExchangeError + jsstr * auth_code) :=
  match find_hash ac_codeHash (hashToken (ep_code p)) (mw_codes w0) with
  | None => Ok (inl InvalidGrant)
  | Some (k, c) =>
      match mw_clients w0 !! gr_clientId (ac_grant c) with
      | None => Throw McpMissing
      | Some cl =>
          if is_set (ac_usedAt c) then Ok (inl InvalidGrant)
          else if ac_expiresAt c <? now then Ok (inl InvalidGrant)
          else if negb (mc_clientId cl =s ep_clientId p) then Ok (inl InvalidClient)
          else
            secretOk ← client_secret_ok cl (ep_clientSecretHash p);
            if negb secretOk then Ok (inl InvalidClient)
            else if negb (mc_isActive cl) then Ok (inl InvalidClient)
            else if blank (gr_tenantId (ac_grant c)) || blank (default [] (mc_tenantId cl))
                 then Ok (inl InvalidClient)
            else if negb (mc_tenantId cl =s Some (gr_tenantId (ac_grant c)))
                 then Ok (inl InvalidGrant)
            else if negb (ac_redirectUri c =s ep_redirectUri p) then Ok (inl InvalidGrant)
            else if negb (ac_codeChallengeMethod c =s js "S256") then Ok (inl InvalidRequest)
            else
              pkceOk ← verifyPkceS256 (ac_codeChallenge c) (ep_codeVerifier p);
              if negb pkceOk then Ok (inl InvalidGrant)
              else
                blocked ← passkey_gate now w1 (ac_grant c);
                Ok (if (blocked : bool)
                    then inl (AccessDenied (gr_userId (ac_grant c)) (gr_tenantId (ac_grant c)))
                    else inr (k, c))
      end
  end.

(** The compare-and-swap on [usedAt] and the mint. *)
Definition redeem_code (p : ExchangeCodeParams) (k : jsstr) (c : auth_code) (now : Z)
    (id random : jsstr) (w : mcp_world)
    : mcp_world * outcome mcp_throw (TokenExchangeError + TokenExchangeResult) :=
  match mw_codes w !! k with
  | None => (w, Ok (inl InvalidGrant))
  | Some cur =>
      if is_set (ac_usedAt cur) then (w, Ok (inl InvalidGrant))
      else
        let plainToken := MCP_TOKEN_PREFIX ++ random in
        let expirySeconds :=
          Z.min (default MCP_TOKEN_EXPIRY_SEC (ep_tokenExpirySeconds p)) MCP_TOKEN_EXPIRY_SEC in
        let row := {| at_tokenHash := hashToken plainToken; at_grant := ac_grant c;
                      at_expiresAt := now + expirySeconds * MCP_MS_PER_SECOND;
                      at_revokedAt := None; at_lastUsedAt := None |} in
        match create at_tokenHash id row (mw_access w) with
        | Throw e => (w, Throw e)
        | Ok t => (set_access (set_codes w (<[k := use_code now cur]> (mw_codes w))) t,
                   Ok (inr {| tr_accessToken := plainToken; tr_expiresIn := expirySeconds;
                              tr_tokenId := id; tr_grant := ac_grant c |}))
        end
  end.

Definition exchangeCodeForToken (p : ExchangeCodeParams) (now now' : Z) (id random : jsstr)
    (w0 w1 w : mcp_world)
    : mcp_world * outcome mcp_throw (TokenExchangeError + TokenExchangeResult) :=
  if blank (ep_code p) || too_long MCP_AUTHORIZATION_CODE_MAX_LENGTH (ep_code p)
  then (w, Ok (inl InvalidGrant))
  else if blank (ep_clientId p) || too_long MCP_CLIENT_ID_MAX_LENGTH (ep_clientId p)
  then (w, Ok (inl InvalidClient))
  else match check_code p now w0 w1 with
       | Throw e => (w, Throw e)
       | Ok (inl e) => (w, Ok (inl e))
       | Ok (inr (k, c)) => redeem_code p k c now' id random w
       end.

(** ** Refresh tokens *)

Record RefreshTokenGate := { rg_tenantId : jsstr; rg_alreadyRotated : bool }.

Definition resolveRefreshTokenGate (refreshToken : jsstr) (w : mcp_world) : option RefreshTokenGate :=
  if blank refreshToken || too_long MCP_PRESENTED_TOKEN_MAX_LENGTH refreshToken then None
  else (fun kr => {| rg_tenantId := gr_tenantId (rt_grant (snd kr));
                     rg_alreadyRotated := is_set (rt_rotatedAt (snd kr)) |})
       <$> find_hash rt_tokenHash (hashToken refreshToken) (mw_refresh w).

(** [familyId] is the given family or the generated one. *)
Definition createRefreshToken (accessTokenId : jsstr) (g : mcp_grant) (familyId : jsstr) (now : Z)
    (id random : jsstr) (w : mcp_world) : mcp_world * outcome mcp_throw (jsstr * Z) :=
  let token := MCP_REFRESH_TOKEN_PREFIX ++ random in
  let expiresAt := now + MCP_REFRESH_TOKEN_EXPIRY_SEC * MCP_MS_PER_SECOND in
  let row := {| rt_tokenHash := hashToken token; rt_familyId := familyId;
                rt_familyCreatedAt := now; rt_accessTokenId := accessTokenId; rt_grant := g;
                rt_expiresAt := expiresAt; rt_rotatedAt := None; rt_revokedAt := None;
                rt_replacedByHash := None |} in
  match mw_access w !! accessTokenId with
  | None => (w, Throw McpMissing)
  | Some _ =>
      match create rt_tokenHash id row (mw_refresh w) with
      | Throw e => (w, Throw e)
      | Ok t => (set_refresh w t, Ok (token, expiresAt))
      end
  end.

Record RefreshParams := {
  rp_refreshToken : jsstr; rp_clientId : jsstr; rp_clientSecretHash : jsstr }.

Record family_ref := {
  fr_tenantId : jsstr; fr_familyId : jsstr; fr_accessTokenId : jsstr; fr_storedClientId : jsstr }.

Record rotation := {
  ro_accessToken : jsstr; ro_accessTokenId : jsstr; ro_refreshToken : jsstr;
  ro_refreshTokenId : jsstr; ro_familyId : jsstr; ro_expiresIn : Z; ro_grant : mcp_grant }.

Inductive refresh_phase1 :=
| P1_not_found | P1_replay (f : family_ref) | P1_revoked | P1_expired | P1_invalid_client
| P1_family_cap_exceeded | P1_deactivated_user | P1_passkey_required (tenantId : jsstr) (userId : option jsstr)
| P1_race_lost (f : family_ref) | P1_success (r : rotation).

Definition family_of (r : refresh_token) (cl : mcp_client) : family_ref :=
  {| fr_tenantId := gr_tenantId (rt_grant r); fr_familyId := rt_familyId r;
     fr_accessTokenId := rt_accessTokenId r; fr_storedClientId := mc_clientId cl |}.

(** [rt.mcpClient.clientId !== params.clientId || (!isPublicClient &&
    !safeEqual(..)) || !rt.mcpClient.isActive], evaluated left to right. *)
Definition refresh_client_bad (cl : mcp_client) (p : RefreshParams) : outcome mcp_throw bool :=
  if negb (mc_clientId cl =s rp_clientId p) then Ok true
  else secretOk ← client_secret_ok cl (rp_clientSecretHash p);
       Ok (negb secretOk || negb (mc_isActive cl)).

(** The checks of phase 1, in the order of the source, up to the
    compare-and-swap.  [nowMs] is the clock of the family cap. *)
Definition check_refresh (p : RefreshParams) (nowMs now : Z) (w0 w1 : mcp_world)
    : outcome mcp_throw (refresh_phase1 + jsstr * refresh_token * mcp_client) :=
  match find_hash rt_tokenHash (hashToken (rp_refreshToken p)) (mw_refresh w0) with
  | None => Ok (inl P1_not_found)
  | Some (k, r) =>
      let g := rt_grant r in
      match mw_clients w0 !! gr_clientId g with
      | None => Throw McpMissing
      | Some cl =>
          if is_set (rt_rotatedAt r) then Ok (inl (P1_replay (family_of r cl)))
          else if is_set (rt_revokedAt r) then Ok (inl P1_revoked)
          else if rt_expiresAt r <? now then Ok (inl P1_expired)
          else
            clientBad ← refresh_client_bad cl p;
            if (clientBad : bool) then Ok (inl P1_invalid_client)
            else if negb (mc_tenantId cl =s Some (gr_tenantId g)) then Ok (inl P1_invalid_client)
            else if MCP_REFRESH_TOKEN_FAMILY_ABSOLUTE_TIMEOUT_SEC * MCP_MS_PER_SECOND
                    <? nowMs - rt_familyCreatedAt r
                 then Ok (inl P1_family_cap_exceeded)
            else if match gr_userId g with
                    | Some u => negb (checkTenantMembership w1 (gr_tenantId g) u)
                    | None => false
                    end
                 then Ok (inl P1_deactivated_user)
            else
              blocked ← passkey_gate now w1 g;
              Ok (if (blocked : bool) then inl (P1_passkey_required (gr_tenantId g) (gr_userId g))
                  else inr (k, r, cl))
      end
  end.

(** The compare-and-swap on [rotatedAt], the two inserts and the revocation of
    the access token paired with the rotated refresh token. *)
Definition rotate_token (k : jsstr) (r : refresh_token) (cl : mcp_client) (now : Z)
    (accessId refreshId random random' : jsstr) (w : mcp_world)
    : mcp_world * outcome mcp_throw refresh_phase1 :=
  let newAccessToken := MCP_TOKEN_PREFIX ++ random in
  let newRefreshToken := MCP_REFRESH_TOKEN_PREFIX ++ random' in
  match mw_refresh w !! k with
  | None => (w, Ok (P1_race_lost (family_of r cl)))
  | Some cur =>
      if is_set (rt_rotatedAt cur) then (w, Ok (P1_race_lost (family_of r cl)))
      else
        let access := {| at_tokenHash := hashToken newAccessToken; at_grant := rt_grant r;
                         at_expiresAt := now + MCP_TOKEN_EXPIRY_SEC * MCP_MS_PER_SECOND;
                         at_revokedAt := None; at_lastUsedAt := None |} in
        let refresh := {| rt_tokenHash := hashToken newRefreshToken; rt_familyId := rt_familyId r;
                          rt_familyCreatedAt := rt_familyCreatedAt r; rt_accessTokenId := accessId;
                          rt_grant := rt_grant r;
                          rt_expiresAt := now + MCP_REFRESH_TOKEN_EXPIRY_SEC * MCP_MS_PER_SECOND;
                          rt_rotatedAt := None; rt_revokedAt := None; rt_replacedByHash := None |} in
        let claimed := <[k := rotate_refresh now (hashToken newRefreshToken) cur]> (mw_refresh w) in
        match create at_tokenHash accessId access (mw_access w),
              create rt_tokenHash refreshId refresh claimed with
        | Ok ta, Ok tr =>
            match ta !! rt_accessTokenId r with
            | None => (w, Throw McpMissing)
            | Some old =>
                (set_refresh (set_access w (<[rt_accessTokenId r := revoke_access now old]> ta)) tr,
                 Ok (P1_success {| ro_accessToken := newAccessToken; ro_accessTokenId := accessId;
                                   ro_refreshToken := newRefreshToken; ro_refreshTokenId := refreshId;
                                   ro_familyId := rt_familyId r; ro_expiresIn := MCP_TOKEN_EXPIRY_SEC;
                                   ro_grant := rt_grant r |}))
            end
        | Throw e, _ => (w, Throw e)
        | _, Throw e => (w, Throw e)
        end
  end.

Definition refresh_tx (p : RefreshParams) (nowMs now now' : Z)
    (accessId refreshId random random' : jsstr) (w0 w1 w : mcp_world)
    : mcp_world * outcome mcp_throw refresh_phase1 :=
  match check_refresh p nowMs now w0 w1 with
  | Throw e => (w, Throw e)
  | Ok (inl r) => (w, Ok r)
  | Ok (inr (k, r, cl)) => rotate_token k r cl now' accessId refreshId random random' w
  end.

(** [ws] is what the [findMany] of the transaction sees; a failed transaction is
    logged and leaves the tables as they are. *)
Definition revokeFamilyOutOfBand (fails : bool) (familyId accessTokenId : jsstr) (now : Z)
    (ws w : mcp_world) : mcp_world :=
  if fails then w
  else
    let familyTokens := select (fun r => rt_familyId r =s familyId) (mw_refresh ws) in
    let accessTokenIds :=
      accessTokenId :: map (fun kr => rt_accessTokenId (snd kr)) (map_to_list familyTokens) in
    let tr := fst (updateMany (fun r => (rt_familyId r =s familyId) && negb (is_set (rt_revokedAt r)))
                     (revoke_refresh now) (mw_refresh w)) in
    let ta := map_imap (fun k a => Some (if bool_decide (k ∈ accessTokenIds) && negb (is_set (at_revokedAt a))
                                         then revoke_access now a else a)) (mw_access w) in
    set_refresh (set_access w ta) tr.

Inductive RefreshExchangeReason :=
| R_REPLAY | R_CONCURRENT_ROTATION_REVOKED | R_EXPIRED | R_REVOKED | R_PASSKEY_REQUIRED.

Inductive refresh_result :=
| RefreshOk (r : rotation)
| RefreshErr (e : TokenExchangeError) (reason : option RefreshExchangeReason) (f : option family_ref).

(** [between] is what other requests do between the two transactions, [fails]
    whether the revocation transaction fails. *)
Definition exchangeRefreshToken (p : RefreshParams) (nowMs now now' now2 : Z)
    (accessId refreshId random random' : jsstr) (fails : bool) (between : mcp_world -> mcp_world)
    (w0 w1 w : mcp_world) : mcp_world * outcome mcp_throw refresh_result :=
  if blank (rp_refreshToken p) || too_long MCP_PRESENTED_TOKEN_MAX_LENGTH (rp_refreshToken p)
  then (w, Ok (RefreshErr InvalidGrant None None))
  else if blank (rp_clientId p) || too_long MCP_CLIENT_ID_MAX_LENGTH (rp_clientId p)
  then (w, Ok (RefreshErr InvalidClient None None))
  else
    let '(w', phase1) := refresh_tx p nowMs now now' accessId refreshId random random' w0 w1 w in
    let revoke f reason :=
      let w2 := between w' in
      (revokeFamilyOutOfBand fails (fr_familyId f) (fr_accessTokenId f) now2 w2 w2,
       Ok (RefreshErr InvalidGrant (Some reason) (Some f))) in
    match phase1 with
    | Throw e => (w', Throw e)
    | Ok (P1_success r) => (w', Ok (RefreshOk r))
    | Ok P1_not_found => (w', Ok (RefreshErr InvalidGrant None None))
    | Ok P1_revoked => (w', Ok (RefreshErr InvalidGrant (Some R_REVOKED) None))
    | Ok P1_expired => (w', Ok (RefreshErr InvalidGrant (Some R_EXPIRED) None))
    | Ok P1_invalid_client => (w', Ok (RefreshErr InvalidClient None None))
    | Ok P1_family_cap_exceeded => (w', Ok (RefreshErr InvalidGrant None None))
    | Ok P1_deactivated_user => (w', Ok (RefreshErr InvalidGrant None None))
    | Ok (P1_passkey_required t u) =>
        (w', Ok (RefreshErr (AccessDenied u t) (Some R_PASSKEY_REQUIRED) None))
    | Ok (P1_replay f) => revoke f R_REPLAY
    | Ok (P1_race_lost f) => revoke f R_CONCURRENT_ROTATION_REVOKED
    end.
(** ** Validation *)

Record McpTokenData := {
  td_tokenId : jsstr; td_mcpClientId : jsstr; td_grant : mcp_grant; td_scopes : list jsstr }.
Inductive validation_error := V_invalid_token | V_token_revoked | V_token_expired.

(** [w0] is read for the token and its client, [w1] for the membership; the
    throttled [lastUsedAt] update acts on [w] and may fail. *)
Definition validateMcpToken (token : jsstr) (now : Z) (updateFails : bool) (w0 w1 w : mcp_world)
    : mcp_world * outcome mcp_throw (validation_error + McpTokenData) :=
  if negb (js_starts_with MCP_TOKEN_PREFIX token) || too_long MCP_PRESENTED_TOKEN_MAX_LENGTH token
  then (w, Ok (inl V_invalid_token))
  else
    match find_hash at_tokenHash (hashToken token) (mw_access w0) with
    | None => (w, Ok (inl V_invalid_token))
    | Some (k, a) =>
        let g := at_grant a in
        match mw_clients w0 !! gr_clientId g with
        | None => (w, Throw McpMissing)
        | Some cl =>
            if is_set (at_revokedAt a) then (w, Ok (inl V_token_revoked))
            else if at_expiresAt a <? now then (w, Ok (inl V_token_expired))
            else if negb (mc_isActive cl) then (w, Ok (inl V_invalid_token))
            else if negb (mc_tenantId cl =s Some (gr_tenantId g)) then (w, Ok (inl V_invalid_token))
            else if match gr_userId g with
                    | Some u => negb (checkTenantMembership w1 (gr_tenantId g) u)
                    | None => false
                    end
                 then (w, Ok (inl V_invalid_token))
            else
              let shouldUpdate :=
                match at_lastUsedAt a with
                | None => true
                | Some l => MAX_MCP_TOKEN_LAST_USED_THROTTLE_MS <? now - l
                end in
              (if shouldUpdate && negb updateFails
               then set_access w (alter (touch_access now) k (mw_access w)) else w,
               Ok (inr {| td_tokenId := k; td_mcpClientId := mc_clientId cl; td_grant := g;
                          td_scopes := List.filter (fun s => negb (blank s))
                                         (map js_trim (js_split [44] (gr_scope g))) |}))
        end
    end.

(** ** Revocation *)

Inductive token_type_hint := HintAccess | HintRefresh.
Record RevokeParams := {
  vp_token : jsstr; vp_hint : option token_type_hint; vp_clientId : jsstr;
  vp_clientSecretHash : option jsstr }.

Definition revoke_access_row (p : RevokeParams) (now : Z) (w0 w : mcp_world)
    : mcp_world * outcome mcp_throw () :=
  match find_hash at_tokenHash (hashToken (vp_token p)) (mw_access w0) with
  | None => (w, Ok ())
  | Some (k, a) =>
      match mw_clients w0 !! gr_clientId (at_grant a) with
      | None => (w, Throw McpMissing)
      | Some cl =>
          if negb (mc_clientId cl =s vp_clientId p) then (w, Ok ())
          else match verifyRevokeClientAuth (mc_clientSecretHash cl) (vp_clientSecretHash p) with
               | Throw e => (w, Throw e)
               | Ok false => (w, Ok ())
               | Ok true =>
                   match mw_access w !! k with
                   | Some cur =>
                       if gr_tenantId (at_grant cur) =s gr_tenantId (at_grant a)
                       then (set_access w (<[k := revoke_access now cur]> (mw_access w)), Ok ())
                       else (w, Throw McpMissing)
                   | None => (w, Throw McpMissing)
                   end
               end
      end
  end.

(** Revoke the refresh tokens of a family in a tenant, and the access tokens the
    family's rows name. *)
Definition revoke_family_rows (familyId tenantId : jsstr) (now : Z) (w : mcp_world) : mcp_world :=
  let in_family r := (rt_familyId r =s familyId) && (gr_tenantId (rt_grant r) =s tenantId) in
  let tr := fst (updateMany (fun r => in_family r && negb (is_set (rt_revokedAt r)))
                   (revoke_refresh now) (mw_refresh w)) in
  let accessTokenIds :=
    map (fun kr => rt_accessTokenId (snd kr)) (map_to_list (select in_family tr)) in
  let ta := map_imap (fun k a => Some (if bool_decide (k ∈ accessTokenIds)
                                          && (gr_tenantId (at_grant a) =s tenantId)
                                          && negb (is_set (at_revokedAt a))
                                       then revoke_access now a else a)) (mw_access w) in
  set_refresh (set_access w ta) tr.

Definition revokeToken (p : RevokeParams) (now : Z) (w0 w : mcp_world)
    : mcp_world * outcome mcp_throw () :=
  if blank (vp_token p) || too_long MCP_PRESENTED_TOKEN_MAX_LENGTH (vp_token p)
     || blank (vp_clientId p) || too_long MCP_CLIENT_ID_MAX_LENGTH (vp_clientId p)
  then (w, Ok ())
  else
    match vp_hint p with
    | Some HintAccess => revoke_access_row p now w0 w
    | _ =>
        match find_hash rt_tokenHash (hashToken (vp_token p)) (mw_refresh w0) with
        | None => revoke_access_row p now w0 w
        | Some (k, r) =>
            match mw_clients w0 !! gr_clientId (rt_grant r) with
            | None => (w, Throw McpMissing)
            | Some cl =>
                if negb (mc_clientId cl =s vp_clientId p) then revoke_access_row p now w0 w
                else match verifyRevokeClientAuth (mc_clientSecretHash cl) (vp_clientSecretHash p) with
                     | Throw e => (w, Throw e)
                     | Ok false => (w, Ok ())
                     | Ok true =>
                         (revoke_family_rows (rt_familyId r) (gr_tenantId (rt_grant r)) now w, Ok ())
                     end
            end
        end
    end.

(** ** Traces

    One step is one transaction.  Its reads see any earlier state, which covers
    every interleaving of the calls; [EvAdmin] stands for what the rest of the
    system does to clients, members, tenants and credentials. *)

Inductive mcp_event :=
| EvCode (p : CreateAuthCodeParams) (now : Z) (id plainCode : jsstr)
| EvExchange (p : ExchangeCodeParams) (now now' : Z) (id random : jsstr)
| EvIssue (accessTokenId : jsstr) (g : mcp_grant) (familyId : jsstr) (now : Z) (id random : jsstr)
| EvRotate (p : RefreshParams) (nowMs now now' : Z) (accessId refreshId random random' : jsstr)
| EvRevokeFamily (fails : bool) (familyId accessTokenId : jsstr) (now : Z)
| EvValidate (token : jsstr) (now : Z) (updateFails : bool)
| EvRevoke (p : RevokeParams) (now : Z)
| EvAdmin (clients : gmap jsstr mcp_client) (members : gmap (jsstr * jsstr) (option Z))
    (tenants : gmap jsstr passkey_tenant) (credentials : gmap jsstr nat).

Definition mcp_handle (e : mcp_event) (w0 w1 w : mcp_world) : mcp_world :=
  match e with
  | EvCode p now id code => fst (createAuthorizationCode p now id code w)
  | EvExchange p now now' id random => fst (exchangeCodeForToken p now now' id random w0 w1 w)
  | EvIssue aid g fam now id random => fst (createRefreshToken aid g fam now id random w)
  | EvRotate p nowMs now now' aid rid r r' => fst (refresh_tx p nowMs now now' aid rid r r' w0 w1 w)
  | EvRevokeFamily fails fam aid now => revokeFamilyOutOfBand fails fam aid now w0 w
  | EvValidate token now fails => fst (validateMcpToken token now fails w0 w1 w)
  | EvRevoke p now => fst (revokeToken p now w0 w)
  | EvAdmin c m t k => {| mw_codes := mw_codes w; mw_access := mw_access w; mw_refresh := mw_refresh w;
                          mw_clients := c; mw_members := m; mw_tenants := t; mw_credentials := k |}
  end.

(** A refresh token is first issued by the token endpoint, for the access token
    it has just minted, in a family whose identifier [randomUUID] generated. *)
Definition event_ok (w : mcp_world) (e : mcp_event) : Prop :=
  match e with
  | EvIssue aid g fam _ _ _ =>
      (exists a, mw_access w !! aid = Some a /\ at_grant a = g) /\
      (forall k r, mw_refresh w !! k = Some r -> rt_familyId r <> fam)
  | _ => True
  end.

(** The states of a run, latest first. *)
Inductive mcp_trace : list mcp_world -> Prop :=
| mcp_start w : mw_codes w = ∅ -> mw_access w = ∅ -> mw_refresh w = ∅ -> mcp_trace [w]
| mcp_next e w0 w1 w past :
    mcp_trace (w :: past) -> w0 ∈ w :: past -> w1 ∈ w :: past -> event_ok w e ->
    mcp_trace (mcp_handle e w0 w1 w :: w :: past).
End Server.

(** ** Rows only move forward *)

Definition kept (d d' : option Z) : Prop := is_set d = true -> is_set d' = true.
#[export] Instance kept_preorder : PreOrder kept.
Proof. split; unfold kept; repeat intro; auto. Qed.

Definition table_le {row} (R : row -> row -> Prop) (t t' : gmap jsstr row) : Prop :=
  forall k r, t !! k = Some r -> exists r', t' !! k = Some r' /\ R r r'.
#[export] Instance table_le_preorder {row} (R : row -> row -> Prop) `{!PreOrder R} :
  PreOrder (table_le R).
Proof.
  split; [intros t k r H; by exists r|].
  intros t1 t2 t3 H12 H23 k r (r2 & H2 & Hr2)%H12. destruct (H23 _ _ H2) as (r3 & H3 & Hr3).
  exists r3. split; [done|by etrans].
Qed.

Record code_le (c c' : auth_code) : Prop := {
  cl_hash : ac_codeHash c' = ac_codeHash c; cl_grant : ac_grant c' = ac_grant c;
  cl_used : kept (ac_usedAt c) (ac_usedAt c') }.
Record access_le (a a' : access_token) : Prop := {
  al_hash : at_tokenHash a' = at_tokenHash a; al_grant : at_grant a' = at_grant a;
  al_expires : at_expiresAt a' = at_expiresAt a; al_revoked : kept (at_revokedAt a) (at_revokedAt a') }.
Record refresh_le (r r' : refresh_token) : Prop := {
  rl_hash : rt_tokenHash r' = rt_tokenHash r; rl_family : rt_familyId r' = rt_familyId r;
  rl_born : rt_familyCreatedAt r' = rt_familyCreatedAt r;
  rl_access : rt_accessTokenId r' = rt_accessTokenId r; rl_grant : rt_grant r' = rt_grant r;
  rl_rotated : kept (rt_rotatedAt r) (rt_rotatedAt r');
  rl_revoked : kept (rt_revokedAt r) (rt_revokedAt r') }.

Ltac row_le := constructor; simpl; unfold kept; simpl; auto.

#[export] Instance code_le_preorder : PreOrder code_le.
Proof. split; [intros ?; by row_le|]. intros ??? [] []. constructor; [congruence..|by etrans]. Qed.
#[export] Instance access_le_preorder : PreOrder access_le.
Proof. split; [intros ?; by row_le|]. intros ??? [] []. constructor; [congruence..|by etrans]. Qed.
#[export] Instance refresh_le_preorder : PreOrder refresh_le.
Proof.
  split; [intros ?; by row_le|].
  intros ??? [] []. constructor; [congruence..|by etrans|by etrans].
Qed.

Lemma use_code_le now c : code_le c (use_code now c).
Proof. row_le. Qed.
Lemma revoke_access_le now a : access_le a (revoke_access now a).
Proof. row_le. Qed.
Lemma touch_access_le now a : access_le a (touch_access now a).
Proof. row_le. Qed.
Lemma revoke_refresh_le now r : refresh_le r (revoke_refresh now r).
Proof. row_le. Qed.
Lemma rotate_refresh_le now h r : refresh_le r (rotate_refresh now h r).
Proof. row_le. Qed.
#[export] Hint Resolve use_code_le revoke_access_le touch_access_le revoke_refresh_le
  rotate_refresh_le : psso.

Section TableLe.
Context {row : Type} (R : row -> row -> Prop) `{!PreOrder R}.
Implicit Types (t : gmap jsstr row).

Lemma table_le_new t k r : t !! k = None -> table_le R t (<[k := r]> t).
Proof.
  intros Hk k' r' Hk'. exists r'. split; [|done].
  rewrite lookup_insert_ne; [done|]. congruence.
Qed.

Lemma table_le_upd t k r r' : t !! k = Some r -> R r r' -> table_le R t (<[k := r']> t).
Proof.
  intros Hk HR k1 r1 Hk1. destruct (decide (k = k1)) as [<-|Hne].
  - exists r'. rewrite lookup_insert_eq. split; congruence.
  - exists r1. by rewrite lookup_insert_ne.
Qed.

Lemma table_le_alter t k f : (forall r, R r (f r)) -> table_le R t (alter f k t).
Proof.
  intros Hf k1 r1 Hk1. destruct (decide (k = k1)) as [<-|Hne].
  - exists (f r1). by rewrite lookup_alter_eq, Hk1.
  - exists r1. by rewrite lookup_alter_ne.
Qed.

Lemma table_le_updateMany t p f : (forall r, R r (f r)) -> table_le R t (fst (updateMany p f t)).
Proof.
  intros Hf k r Hk. rewrite updateMany_lookup, Hk. simpl. eexists. split; [done|]. by destruct (p r).
Qed.

Lemma table_le_imap t (p : jsstr -> row -> bool) f : (forall r, R r (f r)) ->
  table_le R t (map_imap (fun k r => Some (if p k r then f r else r)) t).
Proof.
  intros Hf k r Hk. rewrite map_lookup_imap, Hk. simpl. eexists. split; [done|]. by destruct (p k r).
Qed.
End TableLe.

Definition mcp_le (w w' : mcp_world) : Prop :=
  table_le code_le (mw_codes w) (mw_codes w') /\ table_le access_le (mw_access w) (mw_access w')
  /\ table_le refresh_le (mw_refresh w) (mw_refresh w').
#[export] Instance mcp_le_preorder : PreOrder mcp_le.
Proof.
  split; [by intros w|]. intros ? ? ? (?&?&?) (?&?&?). split_and!; by etrans.
Qed.

Lemma create_Ok {row} (hash : row -> jsstr) (id : jsstr) (r : row) (t t' : gmap jsstr row) :
  create hash id r t = Ok t' ->
  t !! id = None /\ t' = <[id := r]> t /\ forall k r', t !! k = Some r' -> hash r' <> hash r.
Proof.
  unfold create. destruct (t !! id) eqn:E; [done|]. destruct (find_hash _ _ _) eqn:F; [done|].
  intros [= <-]. split_and!; [done..|]. intros k r' Hk. unfold find_hash in F.
  pose proof (find_by_None _ _ _ _ F Hk) as Hh. simpl in Hh. by bools.
Qed.

(** What the committing parts of the operations did. *)

Lemma createAuthorizationCode_cases ht p now id code w w' res :
  createAuthorizationCode ht p now id code w = (w', res) ->
  w' = w \/ exists c, mw_codes w !! id = None /\ ac_usedAt c = None /\
    (forall k c', mw_codes w !! k = Some c' -> ac_codeHash c' <> ac_codeHash c) /\
    w' = set_codes w (<[id := c]> (mw_codes w)).
Proof.
  unfold createAuthorizationCode. destruct (create _ _ _ _) eqn:E; intros [= <- <-]; [|by left].
  apply create_Ok in E as (H1 & -> & H2). right.
  match goal with |- context [<[id := ?c]> (mw_codes w)] => exists c end. split_and!; done.
Qed.

Lemma redeem_code_cases ht p k c now id random w w' res :
  redeem_code ht p k c now id random w = (w', res) ->
  (w' = w /\ forall r, res <> Ok (inr r)) \/
  exists cur a, mw_codes w !! k = Some cur /\ ac_usedAt cur = None /\ mw_access w !! id = None /\
    at_grant a = ac_grant c /\ at_revokedAt a = None /\
    at_expiresAt a <= now + MCP_TOKEN_EXPIRY_SEC * MCP_MS_PER_SECOND /\
    (forall k' a', mw_access w !! k' = Some a' -> at_tokenHash a' <> at_tokenHash a) /\
    w' = set_access (set_codes w (<[k := use_code now cur]> (mw_codes w))) (<[id := a]> (mw_access w)) /\
    exists r, res = Ok (inr r) /\ tr_tokenId r = id /\ tr_grant r = ac_grant c.
Proof.
  unfold redeem_code. destruct (mw_codes w !! k) as [cur|] eqn:Hk; [|intros [= <- <-]; by left].
  destruct (is_set (ac_usedAt cur)) eqn:Hu; [intros [= <- <-]; by left|].
  destruct (create _ _ _ _) eqn:E; intros [= <- <-]; [|by left].
  apply create_Ok in E as (H1 & -> & H2). right.
  match goal with |- context [<[id := ?a]> (mw_access w)] => exists cur, a end.
  split_and!; try done.
  - by destruct (ac_usedAt cur).
  - cbn [at_expiresAt]. unfold MCP_MS_PER_SECOND.
    pose proof (Z.le_min_r (default MCP_TOKEN_EXPIRY_SEC (ep_tokenExpirySeconds p)) MCP_TOKEN_EXPIRY_SEC).
    lia.
  - eexists. split_and!; done.
Qed.

Lemma createRefreshToken_cases ht aid g fam now id random w w' res :
  createRefreshToken ht aid g fam now id random w = (w', res) ->
  w' = w \/ exists r, mw_refresh w !! id = None /\ rt_familyId r = fam /\ rt_grant r = g /\
    rt_accessTokenId r = aid /\ rt_rotatedAt r = None /\ rt_revokedAt r = None /\
    (forall k r', mw_refresh w !! k = Some r' -> rt_tokenHash r' <> rt_tokenHash r) /\
    w' = set_refresh w (<[id := r]> (mw_refresh w)).
Proof.
  unfold createRefreshToken. destruct (mw_access w !! aid); [|intros [= <- <-]; by left].
  destruct (create _ _ _ _) eqn:E; intros [= <- <-]; [|by left].
  apply create_Ok in E as (H1 & -> & H2). right.
  match goal with |- context [<[id := ?r]> (mw_refresh w)] => exists r end. split_and!; done.
Qed.

(** A rotation that committed: the claimed row, the paired access token, and the
    two new rows. *)
Record rotated (k : jsstr) (r : refresh_token) (now : Z) (aid rid : jsstr) (w w' : mcp_world)
    (cur : refresh_token) (old a : access_token) (n : refresh_token) : Prop := {
  rd_cur : mw_refresh w !! k = Some cur;
  rd_unrotated : rt_rotatedAt cur = None;
  rd_rid : mw_refresh w !! rid = None;
  rd_aid : mw_access w !! aid = None;
  rd_old : (<[aid := a]> (mw_access w)) !! rt_accessTokenId r = Some old;
  rd_ahash : forall k' a', mw_access w !! k' = Some a' -> at_tokenHash a' <> at_tokenHash a;
  rd_nhash : forall k' r', mw_refresh w !! k' = Some r' -> rt_tokenHash r' <> rt_tokenHash n;
  rd_agrant : at_grant a = rt_grant r;
  rd_alive : at_revokedAt a = None /\ rt_rotatedAt n = None /\ rt_revokedAt n = None;
  rd_n : rt_familyId n = rt_familyId r /\ rt_familyCreatedAt n = rt_familyCreatedAt r /\
         rt_accessTokenId n = aid /\ rt_grant n = rt_grant r;
  rd_world : w' = set_refresh
    (set_access w (<[rt_accessTokenId r := revoke_access now old]> (<[aid := a]> (mw_access w))))
    (<[rid := n]> (<[k := rotate_refresh now (rt_tokenHash n) cur]> (mw_refresh w))) }.

Lemma rotate_token_cases ht k r cl now aid rid x y w w' res :
  rotate_token ht k r cl now aid rid x y w = (w', res) ->
  (w' = w /\ forall ro, res <> Ok (P1_success ro)) \/
  exists cur old a n, rotated k r now aid rid w w' cur old a n /\
    exists ro, res = Ok (P1_success ro) /\ ro_familyId ro = rt_familyId r /\ ro_grant ro = rt_grant r.
Proof.
  unfold rotate_token. destruct (mw_refresh w !! k) as [cur|] eqn:Hk; [|intros [= <- <-]; by left].
  destruct (is_set (rt_rotatedAt cur)) eqn:Hu; [intros [= <- <-]; by left|].
  destruct (create at_tokenHash _ _ _) eqn:Ea; [|intros [= <- <-]; by left].
  destruct (create rt_tokenHash _ _ _) eqn:Er; [|intros [= <- <-]; by left].
  apply create_Ok in Ea as (Ha & -> & Hah). apply create_Ok in Er as (Hr & -> & Hrh).
  destruct (_ !! rt_accessTokenId r) as [old|] eqn:Ho; intros [= <- <-]; [|by left].
  right. match goal with |- context [<[aid := ?a]> (mw_access w)] => exists cur, old, a end.
  match goal with |- context [<[rid := ?n]> _] => exists n end.
  assert (k <> rid) as Hne by (intros ->; by rewrite lookup_insert_eq in Hr).
  split; [|by eexists]. constructor; try done.
  - by destruct (rt_rotatedAt cur).
  - by rewrite lookup_insert_ne in Hr.
  - intros k' r' Hk' Heq. destruct (decide (k = k')) as [<-|].
    + apply (Hrh k (rotate_refresh now (ht (MCP_REFRESH_TOKEN_PREFIX ++ y)) cur)).
      * by rewrite lookup_insert_eq.
      * simplify_eq. done.
    + apply (Hrh k' r'); [by rewrite lookup_insert_ne|done].
Qed.

Definition active_member (w : mcp_world) (g : mcp_grant) : Prop :=
  forall u, gr_userId g = Some u -> checkTenantMembership w (gr_tenantId g) u = true.

(** What the checks of a refresh established. *)
Record refresh_admitted (ht : jsstr -> jsstr) (p : RefreshParams) (nowMs now : Z) (w0 w1 : mcp_world)
    (k : jsstr) (r : refresh_token) (cl : mcp_client) : Prop := {
  ra_row : mw_refresh w0 !! k = Some r;
  ra_hash : rt_tokenHash r = ht (rp_refreshToken p);
  ra_live : rt_rotatedAt r = None /\ rt_revokedAt r = None /\ now <= rt_expiresAt r;
  ra_client : mw_clients w0 !! gr_clientId (rt_grant r) = Some cl /\ mc_clientId cl = rp_clientId p /\
              client_secret_ok cl (rp_clientSecretHash p) = Ok true /\
              mc_isActive cl = true /\ mc_tenantId cl = Some (gr_tenantId (rt_grant r));
  ra_cap : nowMs <= rt_familyCreatedAt r
                    + MCP_REFRESH_TOKEN_FAMILY_ABSOLUTE_TIMEOUT_SEC * MCP_MS_PER_SECOND;
  ra_member : active_member w1 (rt_grant r);
  ra_passkey : passkey_gate now w1 (rt_grant r) = Ok false }.

Lemma member_test w g :
  match gr_userId g with Some u => negb (checkTenantMembership w (gr_tenantId g) u) | None => false end
    = false -> active_member w g.
Proof. unfold active_member. destruct (gr_userId g); intros H u' [= <-]. by bools. Qed.

Lemma check_refresh_admitted ht p nowMs now w0 w1 k r cl :
  check_refresh ht p nowMs now w0 w1 = Ok (inr (k, r, cl)) ->
  refresh_admitted ht p nowMs now w0 w1 k r cl.
Proof.
  unfold check_refresh. destruct (find_hash _ _ _) as [[k' r']|] eqn:Hf; [|done].
  apply find_by_Some in Hf as [Hk Hh].
  destruct (mw_clients w0 !! _) as [cl'|] eqn:Hcl; [|done].
  destruct (rt_rotatedAt r') eqn:H1; [done|]. destruct (rt_revokedAt r') eqn:H2; [done|]. cbn [is_set].
  destruct (rt_expiresAt r' <? now) eqn:H3; [done|].
  destruct (refresh_client_bad cl' p) as [[]|] eqn:H4; [done| |done]. cbn [mbind outcome_bind].
  destruct (negb (mc_tenantId cl' =s _)) eqn:H5; [done|].
  destruct (_ <? nowMs - rt_familyCreatedAt r') eqn:H6; [done|].
  destruct (match gr_userId _ with Some _ => _ | None => _ end) eqn:H7; [done|].
  destruct (passkey_gate now w1 (rt_grant r')) as [[]|] eqn:H8; [done| |done]. cbn [mbind outcome_bind].
  intros [= <- <- <-]. unfold refresh_client_bad in H4. bools.
  destruct (negb (mc_clientId cl' =s _)) eqn:H9; [done|].
  destruct (client_secret_ok cl' _) as [b|] eqn:H10; [|done]. cbn [mbind outcome_bind] in H4.
  injection H4 as H4. apply orb_false_iff in H4 as [H4 H11]. bools. simplify_eq.
  constructor; try done; [lia|by apply member_test].
Qed.

Lemma refresh_tx_cases ht p nowMs now now' aid rid x y w0 w1 w w' res :
  refresh_tx ht p nowMs now now' aid rid x y w0 w1 w = (w', res) ->
  (w' = w /\ forall ro, res <> Ok (P1_success ro)) \/
  exists k r cl cur old a n, refresh_admitted ht p nowMs now w0 w1 k r cl /\
    rotated k r now' aid rid w w' cur old a n /\
    exists ro, res = Ok (P1_success ro) /\ ro_familyId ro = rt_familyId r /\ ro_grant ro = rt_grant r.
Proof.
  unfold refresh_tx. destruct (check_refresh _ _ _ _ _ _) as [[e|[[k r] cl]]|e] eqn:E.
  - intros [= <- <-]. left. split; [done|]. intros ro [= ->].
    unfold check_refresh, mbind, outcome_bind in E. cases.
  - intros [H|H]%rotate_token_cases; [by left|]. apply check_refresh_admitted in E.
    destruct H as (cur & old & a & n & H1 & H2). right. by exists k, r, cl, cur, old, a, n.
  - intros [= <- <-]. by left.
Qed.

Lemma rotated_le k r now aid rid w w' cur old a n :
  rotated k r now aid rid w w' cur old a n -> mcp_le w w'.
Proof.
  intros []. subst w'. split_and!; simpl; [done| |].
  - etrans; [by apply (table_le_new access_le)|].
    eapply (table_le_upd access_le); [done|eauto with psso].
  - etrans; [by eapply (table_le_upd refresh_le); eauto with psso|].
    apply (table_le_new refresh_le _). rewrite lookup_insert_ne; [done|]. intros ->. congruence.
Qed.

Lemma revokeFamily_le fails fam aid now ws w : mcp_le w (revokeFamilyOutOfBand fails fam aid now ws w).
Proof.
  unfold revokeFamilyOutOfBand. destruct fails; [done|]. split_and!; simpl; [done| |].
  - apply (table_le_imap access_le); eauto with psso.
  - apply (table_le_updateMany refresh_le); eauto with psso.
Qed.

Lemma revoke_family_rows_le fam t now w : mcp_le w (revoke_family_rows fam t now w).
Proof.
  unfold revoke_family_rows. split_and!; simpl; [done| |].
  - apply (table_le_imap access_le); eauto with psso.
  - apply (table_le_updateMany refresh_le); eauto with psso.
Qed.

(** What a revocation does: nothing, one access token, or one family, each for a
    client that authenticated. *)
Definition revocation (ht : jsstr -> jsstr) (p : RevokeParams) (now : Z) (w0 w w' : mcp_world) : Prop :=
  w' = w \/
  exists cl, mc_clientId cl = vp_clientId p /\
    verifyRevokeClientAuth (mc_clientSecretHash cl) (vp_clientSecretHash p) = Ok true /\
    ((exists k a cur, mw_access w0 !! k = Some a /\ mw_access w !! k = Some cur /\
        mw_clients w0 !! gr_clientId (at_grant a) = Some cl /\
        w' = set_access w (<[k := revoke_access now cur]> (mw_access w))) \/
     (exists k r, mw_refresh w0 !! k = Some r /\ rt_tokenHash r = ht (vp_token p) /\
        mw_clients w0 !! gr_clientId (rt_grant r) = Some cl /\
        w' = revoke_family_rows (rt_familyId r) (gr_tenantId (rt_grant r)) now w)).

Lemma revoke_access_row_cases ht p now w0 w :
  revocation ht p now w0 w (fst (revoke_access_row ht p now w0 w)).
Proof.
  unfold revoke_access_row. destruct (find_hash _ _ _) as [[k a]|] eqn:Hf; [|by left].
  apply find_by_Some in Hf as [Hk _].
  destruct (mw_clients w0 !! _) as [cl|] eqn:Hcl; [|by left].
  destruct (negb (mc_clientId cl =s _)) eqn:Hid; [by left|].
  destruct (verifyRevokeClientAuth _ _) as [[]|] eqn:Ha; [|by left..].
  destruct (mw_access w !! k) as [cur|] eqn:Hc; [|by left].
  destruct (bool_decide (gr_tenantId _ = _)); [|by left]. bools.
  right. exists cl. split_and!; [done..|]. left. exists k, a, cur. by split_and!.
Qed.

Lemma revokeToken_cases ht p now w0 w :
  revocation ht p now w0 w (fst (revokeToken ht p now w0 w)).
Proof.
  pose proof (revoke_access_row_cases ht p now w0 w) as Hacc.
  unfold revokeToken. destruct (_ || _); [by left|].
  destruct (vp_hint p) as [[]|]; [done| |];
    (destruct (find_hash rt_tokenHash _ _) as [[k r]|] eqn:Hf; [|done];
     destruct (mw_clients w0 !! gr_clientId (rt_grant r)) as [cl|] eqn:Hcl; [|by left];
     destruct (negb (mc_clientId cl =s _)) eqn:Hid; [done|];
     apply find_by_Some in Hf as [Hk Hh]; simpl in Hh; bools;
     destruct (verifyRevokeClientAuth _ _) as [[]|] eqn:Ha; [|by left..];
     right; exists cl; split_and!; [done..|]; right; by exists k, r).
Qed.

(** The conditions under which a bearer token is accepted. *)
Record token_valid (ht : jsstr -> jsstr) (token : jsstr) (now : Z) (w0 w1 : mcp_world)
    (k : jsstr) (a : access_token) (cl : mcp_client) : Prop := {
  tv_shape : js_starts_with MCP_TOKEN_PREFIX token = true /\
             (length token <= MCP_PRESENTED_TOKEN_MAX_LENGTH)%nat;
  tv_row : find_hash at_tokenHash (ht token) (mw_access w0) = Some (k, a);
  tv_unrevoked : at_revokedAt a = None;
  tv_unexpired : now <= at_expiresAt a;
  tv_client : mw_clients w0 !! gr_clientId (at_grant a) = Some cl /\ mc_isActive cl = true /\
              mc_tenantId cl = Some (gr_tenantId (at_grant a));
  tv_member : active_member w1 (at_grant a) }.

Definition token_data (k : jsstr) (a : access_token) (cl : mcp_client) : McpTokenData :=
  {| td_tokenId := k; td_mcpClientId := mc_clientId cl; td_grant := at_grant a;
     td_scopes := List.filter (fun s => negb (blank s)) (map js_trim (js_split [44] (gr_scope (at_grant a)))) |}.

Lemma validateMcpToken_cases ht token now fails w0 w1 w w' res :
  validateMcpToken ht token now fails w0 w1 w = (w', res) ->
  (w' = w /\ forall d, res <> Ok (inr d)) \/
  exists k a cl, token_valid ht token now w0 w1 k a cl /\ res = Ok (inr (token_data k a cl)) /\
    (w' = w \/ w' = set_access w (alter (touch_access now) k (mw_access w))).
Proof.
  unfold validateMcpToken. destruct (negb _ || _) eqn:H0; [intros [= <- <-]; by left|].
  destruct (find_hash _ _ _) as [[k a]|] eqn:Hf; [|intros [= <- <-]; by left].
  destruct (mw_clients w0 !! _) as [cl|] eqn:Hcl; [|intros [= <- <-]; by left].
  destruct (is_set (at_revokedAt a)) eqn:H1; [intros [= <- <-]; by left|].
  destruct (at_expiresAt a <? now) eqn:H2; [intros [= <- <-]; by left|].
  destruct (negb (mc_isActive cl)) eqn:H3; [intros [= <- <-]; by left|].
  destruct (negb (mc_tenantId cl =s _)) eqn:H4; [intros [= <- <-]; by left|].
  destruct (match gr_userId _ with Some _ => _ | None => _ end) eqn:H5; [intros [= <- <-]; by left|].
  intros [= <- <-]. right. exists k, a, cl. unfold too_long in H0. bools. split_and!; [|done|].
  - constructor; try done; [split; [done|by apply Nat.ltb_ge]|by destruct (at_revokedAt a)|by apply member_test].
  - destruct (_ && _); [by right|by left].
Qed.

Lemma token_valid_accepted ht token now fails w0 w1 w k a cl :
  token_valid ht token now w0 w1 k a cl ->
  snd (validateMcpToken ht token now fails w0 w1 w) = Ok (inr (token_data k a cl)).
Proof.
  intros [[Hp Hl] Hf Hr He (Hcl & Ha & Ht) Hm]. unfold validateMcpToken, too_long.
  rewrite Hp, Hf, Hcl, Hr, Ha, Ht, bool_decide_true by done. cbn [negb orb is_set].
  rewrite (proj2 (Nat.ltb_ge _ _)), (proj2 (Z.ltb_ge _ _)) by done.
  destruct (gr_userId (at_grant a)) as [u|] eqn:Hu; [|done]. by rewrite Hm.
Qed.

Lemma mcp_handle_le ht sha e w0 w1 w : mcp_le w (mcp_handle ht sha e w0 w1 w).
Proof.
  destruct e as [p now id code|p now now' id x|aid g fam now id x|p nowMs now now' aid rid x y
    |fails fam aid now|token now fails|p now|c m t cr]; cbn [mcp_handle]; [..|by split_and!].
  - destruct (createAuthorizationCode _ _ _ _ _ _) as [w' res] eqn:E.
    apply createAuthorizationCode_cases in E as [->|(c & Hid & _ & _ & ->)]; [done|].
    split_and!; [by apply (table_le_new code_le)|done..].
  - destruct (exchangeCodeForToken _ _ _ _ _ _ _ _ _ _) as [w' res] eqn:E.
    unfold exchangeCodeForToken in E. do 2 (destruct (_ || _); [by simplify_eq|]).
    destruct (check_code _ _ _ _ _ _) as [[e|[k c]]|e]; [by simplify_eq| |by simplify_eq].
    apply redeem_code_cases in E as [[-> _]|(cur & a & Hk & _ & Hid & _ & _ & _ & _ & -> & _)]; [done|].
    split_and!; [by eapply (table_le_upd code_le); eauto with psso|by apply (table_le_new access_le)|done].
  - destruct (createRefreshToken _ _ _ _ _ _ _ _) as [w' res] eqn:E.
    apply createRefreshToken_cases in E as [->|(r & Hid & _ & _ & _ & _ & _ & _ & ->)]; [done|].
    split_and!; [done..|by apply (table_le_new refresh_le)].
  - destruct (refresh_tx _ _ _ _ _ _ _ _ _ _ _ _) as [w' res] eqn:E.
    apply refresh_tx_cases in E as [[-> _]|(k & r & cl & cur & old & a & n & _ & H & _)]; [done|].
    by eapply rotated_le.
  - apply revokeFamily_le.
  - destruct (validateMcpToken _ _ _ _ _ _ _) as [w' res] eqn:E.
    apply validateMcpToken_cases in E as [[-> _]|(k & a & cl & _ & _ & [->| ->])]; [done..|].
    split_and!; [done| |done]. apply (table_le_alter access_le). eauto with psso.
  - destruct (revokeToken_cases ht p now w0 w) as [->|(cl & _ & _ & [(k & a & cur & _ & Hk & _ & ->)|(k & r & _ & _ & _ & ->)])].
    + done.
    + split_and!; [done| |done]. eapply (table_le_upd access_le); eauto with psso.
    + apply revoke_family_rows_le.
Qed.

Lemma mcp_trace_le ht sha w past w0 :
  mcp_trace ht sha (w :: past) -> w0 ∈ w :: past -> mcp_le w0 w.
Proof.
  remember (w :: past) as tr eqn:Htr. intros H. revert w past Htr w0.
  induction H as [w Hc Ha Hr|e w0 w1 w past H IH Hw0 Hw1 Hok]; intros w' past' [= <- <-] s Hs.
  - by apply list_elem_of_singleton in Hs as ->.
  - apply elem_of_cons in Hs as [->|Hs]; [done|].
    etrans; [by eapply IH|]. apply mcp_handle_le.
Qed.

Lemma mcp_trace_suffix ht sha later w past :
  mcp_trace ht sha (later ++ w :: past) -> mcp_trace ht sha (w :: past).
Proof.
  induction later as [|x later IH]; [done|]. simpl. intros H. inversion H as [|? ? ? y ? H' ? ? ? E1]; subst.
  - by destruct later.
  - apply IH. congruence.
Qed.

(** ** The invariant of the token tables *)

(** An update that keeps the set of rows and moves each of them by [R]. *)
Definition table_upd {row} (R : row -> row -> Prop) (t t' : gmap jsstr row) : Prop :=
  forall k, option_Forall2 R (t !! k) (t' !! k).

Definition unique_hash {row} (hash : row -> jsstr) (t : gmap jsstr row) : Prop :=
  forall k k' r r', t !! k = Some r -> t !! k' = Some r' -> hash r = hash r' -> k = k'.

Lemma table_upd_inv {row} (R : row -> row -> Prop) (t t' : gmap jsstr row) k r' :
  table_upd R t t' -> t' !! k = Some r' -> exists r, t !! k = Some r /\ R r r'.
Proof. intros H Hk. specialize (H k). rewrite Hk in H. inversion H; eauto. Qed.

Lemma table_upd_refl {row} (R : row -> row -> Prop) `{!Reflexive R} (t : gmap jsstr row) : table_upd R t t.
Proof. intros k. destruct (t !! k); by constructor. Qed.

Lemma table_upd_imap {row} (R : row -> row -> Prop) `{!Reflexive R} (p : jsstr -> row -> bool) (f : row -> row)
    (t : gmap jsstr row) :
  (forall r, R r (f r)) -> table_upd R t (map_imap (fun k r => Some (if p k r then f r else r)) t).
Proof.
  intros Hf k. rewrite map_lookup_imap. destruct (t !! k) as [r|]; constructor. by destruct (p k r).
Qed.

Lemma table_upd_updateMany {row} (R : row -> row -> Prop) `{!Reflexive R} (p : row -> bool) (f : row -> row)
    (t : gmap jsstr row) :
  (forall r, R r (f r)) -> table_upd R t (fst (updateMany p f t)).
Proof.
  intros Hf k. rewrite updateMany_lookup. destruct (t !! k) as [r|]; constructor. by destruct (p r).
Qed.

Lemma table_upd_insert {row} (R : row -> row -> Prop) `{!Reflexive R} (k : jsstr) (r r' : row)
    (t : gmap jsstr row) :
  t !! k = Some r -> R r r' -> table_upd R t (<[k := r']> t).
Proof.
  intros Hk Hr k'. destruct (decide (k = k')) as [<-|Hne].
  - rewrite lookup_insert_eq, Hk. by constructor.
  - rewrite lookup_insert_ne by done. by apply table_upd_refl.
Qed.

Lemma table_upd_alter {row} (R : row -> row -> Prop) `{!Reflexive R} (k : jsstr) (f : row -> row)
    (t : gmap jsstr row) :
  (forall r, R r (f r)) -> table_upd R t (alter f k t).
Proof.
  intros Hf k'. destruct (decide (k = k')) as [<-|Hne].
  - rewrite lookup_alter_eq. destruct (t !! k); by constructor.
  - rewrite lookup_alter_ne by done. by apply table_upd_refl.
Qed.

Lemma unique_hash_upd {row} (hash : row -> jsstr) (R : row -> row -> Prop) (t t' : gmap jsstr row) :
  (forall r r', R r r' -> hash r' = hash r) -> table_upd R t t' -> unique_hash hash t -> unique_hash hash t'.
Proof.
  intros HR Hu H k k' r r' Hk Hk' Heq.
  destruct (table_upd_inv _ _ _ _ _ Hu Hk) as (s & Hs & HRs).
  destruct (table_upd_inv _ _ _ _ _ Hu Hk') as (s' & Hs' & HRs').
  apply (H k k' s s'); [done..|]. rewrite <- (HR _ _ HRs), <- (HR _ _ HRs'). done.
Qed.

Lemma unique_hash_insert {row} (hash : row -> jsstr) (k : jsstr) (r : row) (t : gmap jsstr row) :
  (forall k' r', t !! k' = Some r' -> hash r' <> hash r) -> unique_hash hash t ->
  unique_hash hash (<[k := r]> t).
Proof.
  intros Hf H k1 k2 r1 r2 H1 H2 Heq.
  apply lookup_insert_Some in H1 as [[<- <-]|[Hn1 H1]];
    apply lookup_insert_Some in H2 as [[<- <-]|[Hn2 H2]]; [done| | |by eapply H].
  - by destruct (Hf _ _ H2).
  - by destruct (Hf _ _ H1).
Qed.

(** The rotation structure: the rows of a family carry one grant and one birth
    time, at most one of them is not yet rotated, and each is paired with an
    access token of the same grant that is revoked once the row is rotated. *)
Record refresh_inv (tr : gmap jsstr refresh_token) (ta : gmap jsstr access_token) : Prop := {
  fi_family : forall k k' r r', tr !! k = Some r -> tr !! k' = Some r' ->
    rt_familyId r = rt_familyId r' ->
    rt_grant r = rt_grant r' /\ rt_familyCreatedAt r = rt_familyCreatedAt r';
  fi_linear : forall k k' r r', tr !! k = Some r -> tr !! k' = Some r' ->
    rt_familyId r = rt_familyId r' -> rt_rotatedAt r = None -> rt_rotatedAt r' = None -> k = k';
  fi_paired : forall k r, tr !! k = Some r -> exists a, ta !! rt_accessTokenId r = Some a /\
    at_grant a = rt_grant r /\ kept (rt_rotatedAt r) (at_revokedAt a) }.

Record mcp_inv (w : mcp_world) : Prop := {
  mi_codes : unique_hash ac_codeHash (mw_codes w);
  mi_access : unique_hash at_tokenHash (mw_access w);
  mi_refresh : unique_hash rt_tokenHash (mw_refresh w);
  mi_families : refresh_inv (mw_refresh w) (mw_access w) }.

(** A refresh row that moves without being rotated. *)
Definition refresh_same (r r' : refresh_token) : Prop :=
  refresh_le r r' /\ rt_rotatedAt r' = rt_rotatedAt r.
#[export] Instance refresh_same_refl : Reflexive refresh_same.
Proof. intros r. by split. Qed.

Lemma paired_le tr ta ta' k r :
  table_le access_le ta ta' -> refresh_inv tr ta -> tr !! k = Some r ->
  exists a, ta' !! rt_accessTokenId r = Some a /\ at_grant a = rt_grant r /\
    kept (rt_rotatedAt r) (at_revokedAt a).
Proof.
  intros Hle [_ _ Hp] Hk. destruct (Hp _ _ Hk) as (a & Ha & Hg & Hr).
  destruct (Hle _ _ Ha) as (a' & Ha' & [_ Hg' _ Hr']). exists a'. split_and!; [done|congruence|by etrans].
Qed.

Lemma refresh_inv_upd tr tr' ta ta' :
  table_upd refresh_same tr tr' -> table_le access_le ta ta' -> refresh_inv tr ta -> refresh_inv tr' ta'.
Proof.
  intros Hu Hle Hi. pose proof Hi as [Hf Hl _]. constructor.
  - intros k k' r r' Hk Hk' Heq.
    destruct (table_upd_inv _ _ _ _ _ Hu Hk) as (s & Hs & [[] _]).
    destruct (table_upd_inv _ _ _ _ _ Hu Hk') as (s' & Hs' & [[] _]).
    destruct (Hf k k' s s') as [? ?]; [done..|congruence|]. split; congruence.
  - intros k k' r r' Hk Hk' Heq Hr Hr'.
    destruct (table_upd_inv _ _ _ _ _ Hu Hk) as (s & Hs & [[] ?]).
    destruct (table_upd_inv _ _ _ _ _ Hu Hk') as (s' & Hs' & [[] ?]).
    apply (Hl k k' s s'); congruence.
  - intros k r Hk. destruct (table_upd_inv _ _ _ _ _ Hu Hk) as (s & Hs & [[] Hrot]).
    destruct (paired_le _ _ _ _ _ Hle Hi Hs) as (a & ? & ? & ?). exists a.
    split_and!; [congruence..|]. by rewrite Hrot.
Qed.

Lemma refresh_inv_issue tr ta id n a :
  tr !! id = None -> (forall k r, tr !! k = Some r -> rt_familyId r <> rt_familyId n) ->
  ta !! rt_accessTokenId n = Some a -> at_grant a = rt_grant n -> rt_rotatedAt n = None ->
  refresh_inv tr ta -> refresh_inv (<[id := n]> tr) ta.
Proof.
  intros Hid Hfam Ha Hg Hn [Hf Hl Hp].
  constructor.
  - intros k k' r r' Hk Hk' Heq.
    apply lookup_insert_Some in Hk as [[<- <-]|[_ Hk]];
      apply lookup_insert_Some in Hk' as [[<- <-]|[_ Hk']];
      [done|by destruct (Hfam _ _ Hk')|by destruct (Hfam _ _ Hk)|by eapply Hf].
  - intros k k' r r' Hk Hk' Heq.
    apply lookup_insert_Some in Hk as [[<- <-]|[_ Hk]];
      apply lookup_insert_Some in Hk' as [[<- <-]|[_ Hk']];
      [done|by destruct (Hfam _ _ Hk')|by destruct (Hfam _ _ Hk)|by eapply Hl].
  - intros k r Hk. apply lookup_insert_Some in Hk as [[<- <-]|[_ Hk]]; [|by eapply Hp].
    exists a. rewrite Hn. by split_and!.
Qed.

(** Every row after a rotation descends from a row before it. *)
Lemma rotated_parent k r now aid rid w w' cur old a n k1 r1 :
  rotated k r now aid rid w w' cur old a n -> refresh_le r cur -> mw_refresh w' !! k1 = Some r1 ->
  exists k0 r0, mw_refresh w !! k0 = Some r0 /\ rt_familyId r1 = rt_familyId r0 /\
    rt_grant r1 = rt_grant r0 /\ rt_familyCreatedAt r1 = rt_familyCreatedAt r0 /\
    (rt_rotatedAt r1 = None -> rt_rotatedAt r0 = None /\ (k1 = rid /\ k0 = k \/ k1 = k0 /\ k1 <> k)).
Proof.
  intros [Hcur Hun Hrid _ _ _ _ _ _ (Hnf & Hnb & _ & Hng) ->] [_ Hf Hb _ Hg _ _] H1. simpl in H1.
  apply lookup_insert_Some in H1 as [[<- <-]|[Hne H1]].
  - exists k, cur. split_and!; [done|congruence..|]. intros _. split; [done|by left].
  - apply lookup_insert_Some in H1 as [[<- <-]|[Hne' H1]].
    + exists k, cur. by split_and!.
    + exists k1, r1. split_and!; [done..|]. intros ?. split; [done|by right].
Qed.

Lemma rotated_access k r now aid rid w w' cur old a n :
  rotated k r now aid rid w w' cur old a n -> refresh_le r cur -> mcp_inv w ->
  rt_accessTokenId r <> aid /\ mw_access w' !! aid = Some a /\
  mw_access w !! rt_accessTokenId r = Some old /\ at_grant old = rt_grant r /\
  mw_access w' !! rt_accessTokenId r = Some (revoke_access now old).
Proof.
  intros [Hcur Hun Hrid Haid Hold _ _ _ _ _ ->] [_ _ _ Hacc Hg _ _] [_ _ _ Hi].
  destruct (fi_paired _ _ Hi _ _ Hcur) as (a0 & Ha0 & Hg0 & _). rewrite Hacc in Ha0.
  assert (Hne : rt_accessTokenId r <> aid) by congruence.
  rewrite lookup_insert_ne in Hold by done. simpl. split_and!; [done| |done|congruence|].
  - by rewrite lookup_insert_ne, lookup_insert_eq.
  - by rewrite lookup_insert_eq.
Qed.

Lemma rotated_inv k r now aid rid w w' cur old a n :
  rotated k r now aid rid w w' cur old a n -> refresh_le r cur -> mcp_inv w -> mcp_inv w'.
Proof.
  intros Hrd Hle Hinv. pose proof (rotated_le _ _ _ _ _ _ _ _ _ _ _ Hrd) as (_ & Hla & _).
  destruct (rotated_access _ _ _ _ _ _ _ _ _ _ _ Hrd Hle Hinv) as (Hne & Hn & Hold & Hgo & Hnew).
  pose proof (fun k1 r1 => rotated_parent _ _ _ _ _ _ _ _ _ _ _ k1 r1 Hrd Hle) as Hpar.
  pose proof Hinv as [Hc Ha Hr Hi]. pose proof Hi as [Hfam Hlin Hpair].
  destruct Hrd as [Hcur Hun Hrid Haid Hold' Hah Hnh Hag (Hal1 & Hal2 & Hal3) (Hnf & Hnb & Hna & Hng) Hw'].
  constructor; rewrite ?Hw'; simpl; [done| | |constructor].
  - apply (unique_hash_upd _ access_le (<[aid := a]> (mw_access w))).
    + by intros ? ? [].
    + eapply table_upd_insert; [apply _|done|apply revoke_access_le].
    + by apply unique_hash_insert.
  - apply unique_hash_insert.
    + intros k' r' [[<- <-]|[_ Hk']]%lookup_insert_Some; [|by eapply Hnh].
      simpl. by eapply Hnh.
    + eapply (unique_hash_upd _ refresh_le); [by intros ? ? []| |done].
      eapply table_upd_insert; [apply _|done|apply rotate_refresh_le].
  - intros k1 k2 r1 r2 H1 H2 Heq.
    destruct (Hpar k1 r1) as (p1 & s1 & ? & ? & ? & ? & _); [by rewrite Hw'|].
    destruct (Hpar k2 r2) as (p2 & s2 & ? & ? & ? & ? & _); [by rewrite Hw'|].
    destruct (Hfam p1 p2 s1 s2) as [? ?]; [done..|congruence|]. split; congruence.
  - intros k1 k2 r1 r2 H1 H2 Heq Hr1 Hr2.
    destruct (Hpar k1 r1) as (p1 & s1 & Hp1 & Hf1 & _ & _ & Hx1); [by rewrite Hw'|].
    destruct (Hpar k2 r2) as (p2 & s2 & Hp2 & Hf2 & _ & _ & Hx2); [by rewrite Hw'|].
    destruct (Hx1 Hr1) as [Hu1 Hc1]. destruct (Hx2 Hr2) as [Hu2 Hc2].
    assert (p1 = p2) as -> by (apply (Hlin p1 p2 s1 s2); congruence).
    destruct Hc1 as [[-> ->]|[-> ?]], Hc2 as [[-> ?]|[-> ?]]; congruence.
  - intros k1 r1 [[<- <-]|[_ H1]]%lookup_insert_Some.
    + exists a. rewrite Hw' in Hn. simpl in Hn. rewrite Hna, Hal2. split_and!; [done|congruence|done].
    + apply lookup_insert_Some in H1 as [[<- <-]|[_ H1]].
      * destruct Hle. exists (revoke_access now old). simpl. rewrite rl_access0. rewrite Hw' in Hnew.
        split_and!; [done|congruence|done].
      * rewrite Hw' in Hla. by apply (paired_le (mw_refresh w) (mw_access w) _ k1).
Qed.

Lemma mcp_inv_upd w w' :
  table_upd code_le (mw_codes w) (mw_codes w') -> table_upd access_le (mw_access w) (mw_access w') ->
  table_upd refresh_same (mw_refresh w) (mw_refresh w') -> mcp_inv w -> mcp_inv w'.
Proof.
  intros Hc Ha Hr [Ic Ia Ir If]. constructor.
  - by eapply (unique_hash_upd _ code_le); [intros ? ? []| |].
  - by eapply (unique_hash_upd _ access_le); [intros ? ? []| |].
  - by eapply (unique_hash_upd _ refresh_same); [intros ? ? [[] _]| |].
  - eapply refresh_inv_upd; [done| |done]. intros k a Hk. specialize (Ha k). rewrite Hk in Ha.
    inversion Ha; eauto.
Qed.

Lemma revoke_refresh_same now r : refresh_same r (revoke_refresh now r).
Proof. split; [apply revoke_refresh_le|done]. Qed.
#[export] Hint Resolve revoke_refresh_same : psso.

(** Every transaction keeps the invariant, when its reads saw earlier states. *)
Lemma mcp_handle_inv ht sha e w0 w1 w :
  mcp_le w0 w -> event_ok w e -> mcp_inv w -> mcp_inv (mcp_handle ht sha e w0 w1 w).
Proof.
  intros Hle Hok Hinv. pose proof Hinv as [Hc Ha Hr Hf].
  assert (Hrefl : forall w', mw_codes w' = mw_codes w -> mw_refresh w' = mw_refresh w ->
    table_upd access_le (mw_access w) (mw_access w') -> mcp_inv w').
  { intros w' E1 E2 H. apply (mcp_inv_upd w); [| |by rewrite E2; apply table_upd_refl; apply _|done].
    - rewrite E1. by apply table_upd_refl; apply _.
    - done. }
  destruct e as [p now id code|p now now' id x|aid g fam now id x|p nowMs now now' aid rid x y
    |fails fam aid now|token now fails|p now|c m t cr]; cbn [mcp_handle].
  - destruct (createAuthorizationCode _ _ _ _ _ _) as [w' res] eqn:E.
    apply createAuthorizationCode_cases in E as [->|(c & Hid & _ & Hh & ->)]; [done|].
    constructor; [by apply unique_hash_insert|done..].
  - destruct (exchangeCodeForToken _ _ _ _ _ _ _ _ _ _) as [w' res] eqn:E.
    unfold exchangeCodeForToken in E. do 2 (destruct (_ || _); [by simplify_eq|]).
    destruct (check_code _ _ _ _ _ _) as [[e|[k c]]|e]; [by simplify_eq| |by simplify_eq].
    apply redeem_code_cases in E as [[-> _]|(cur & a & Hk & _ & Hid & _ & _ & _ & Hh & -> & _)]; [done|].
    constructor; simpl; [|by apply unique_hash_insert|done|].
    + eapply (unique_hash_upd _ code_le); [by intros ? ? []| |done].
      eapply table_upd_insert; [apply _|done|apply use_code_le].
    + eapply refresh_inv_upd; [by apply table_upd_refl; apply _| |done].
      by apply (table_le_new access_le).
  - destruct (createRefreshToken _ _ _ _ _ _ _ _) as [w' res] eqn:E.
    apply createRefreshToken_cases in E as [->|(r & Hid & Hfam & Hg & Haid & Hrot & _ & Hh & ->)]; [done|].
    destruct Hok as [(a & Hacc & Hga) Hfresh]. subst.
    constructor; simpl; [done..|by apply unique_hash_insert|by eapply refresh_inv_issue].
  - destruct (refresh_tx _ _ _ _ _ _ _ _ _ _ _ _) as [w' res] eqn:E.
    apply refresh_tx_cases in E as [[-> _]|(k & r & cl & cur & old & a & n & Hadm & H & _)]; [done|].
    eapply rotated_inv; [done| |done]. destruct Hle as (_ & _ & Hle).
    destruct (Hle _ _ (ra_row _ _ _ _ _ _ _ _ _ Hadm)) as (cur' & Hcur' & ?).
    pose proof (rd_cur _ _ _ _ _ _ _ _ _ _ _ H). congruence.
  - unfold revokeFamilyOutOfBand. destruct fails; [done|]. apply (mcp_inv_upd w); simpl; [| | |done].
    + apply table_upd_refl; apply _.
    + apply (table_upd_imap access_le); eauto with psso.
    + apply (table_upd_updateMany refresh_same); eauto with psso.
  - destruct (validateMcpToken _ _ _ _ _ _ _) as [w' res] eqn:E.
    apply validateMcpToken_cases in E as [[-> _]|(k & a & cl & _ & _ & [->| ->])]; [done..|].
    apply Hrefl; [done..|]. apply (table_upd_alter access_le). eauto with psso.
  - destruct (revokeToken_cases ht p now w0 w) as [->|(cl & _ & _ & [(k & a & cur & _ & Hk & _ & ->)|(k & r & _ & _ & _ & ->)])].
    + done.
    + apply Hrefl; [done..|]. eapply (table_upd_insert access_le); eauto with psso.
    + unfold revoke_family_rows. apply (mcp_inv_upd w); simpl; [| | |done].
      * apply table_upd_refl; apply _.
      * apply (table_upd_imap access_le); eauto with psso.
      * apply (table_upd_updateMany refresh_same); eauto with psso.
  - by apply Hrefl; [..|apply table_upd_refl; apply _].
Qed.

Lemma mcp_trace_inv ht sha w past : mcp_trace ht sha (w :: past) -> mcp_inv w.
Proof.
  remember (w :: past) as tr eqn:Htr. intros H. revert w past Htr.
  induction H as [w Hc Ha Hr|e w0 w1 w past H IH Hw0 Hw1 Hok]; intros w' past' [= <- <-].
  - destruct w; simpl in *; subst. constructor; simpl; try (by intros ? ? ? ? ?).
    constructor; by intros.
  - apply mcp_handle_inv; [by eapply mcp_trace_le|done|by eapply IH].
Qed.

(** ** Theorems *)

Lemma exchange_success_used ht sha p now now' id x s0 s1 w w' res :
  exchangeCodeForToken ht sha p now now' id x s0 s1 w = (w', Ok (inr res)) -> mcp_le s0 w ->
  exists k c, mw_codes w' !! k = Some c /\ ac_codeHash c = ht (ep_code p) /\ is_set (ac_usedAt c) = true.
Proof.
  unfold exchangeCodeForToken. do 2 (destruct (_ || _); [done|]).
  destruct (check_code _ _ _ _ _ _) as [[e|[k c]]|e] eqn:Hck; [done| |done].
  intros [[_ H]|(cur & a & Hk & _ & _ & _ & _ & _ & _ & -> & _)]%redeem_code_cases (Hle & _ & _);
    [by destruct (H res)|].
  exists k, (use_code now' cur). simpl. rewrite lookup_insert_eq. split_and!; [done| |done].
  unfold check_code in Hck. destruct (find_hash _ _ _) as [[k' c']|] eqn:Hf; [|done].
  apply find_by_Some in Hf as [Hk' Hh]. simpl in Hh. bools.
  assert (k' = k) as ->.
  { revert Hck. unfold mbind, outcome_bind. clear. cases; congruence. }
  destruct (Hle _ _ Hk') as (cur' & Hcur' & []). congruence.
Qed.

(** The token endpoint may issue a refresh token for what an exchange returned:
    the access token stays in place with the grant of the result. *)
Lemma exchange_result_row ht sha p now now' id x s0 s1 w w' r cur :
  exchangeCodeForToken ht sha p now now' id x s0 s1 w = (w', Ok (inr r)) -> mcp_le w' cur ->
  exists a, mw_access cur !! tr_tokenId r = Some a /\ at_grant a = tr_grant r.
Proof.
  unfold exchangeCodeForToken. do 2 (destruct (_ || _); [done|]).
  destruct (check_code _ _ _ _ _ _) as [[e|[k c]]|e]; [done| |done].
  intros [[_ H]|(cu & a & _ & _ & _ & Hg & _ & _ & _ & -> & r' & [= <-] & Hid & Hgr)]%redeem_code_cases
    (_ & Hle & _); [by destruct (H r)|].
  destruct (Hle id a) as (a' & Ha' & []); [apply lookup_insert_eq|].
  exists a'. split; congruence.
Qed.

(** A used code is refused whatever the snapshot the exchange read. *)
Lemma exchange_used_refused ht sha p now now' id x s0 s1 w k c :
  mcp_le s0 w -> unique_hash ac_codeHash (mw_codes w) ->
  mw_codes w !! k = Some c -> ac_codeHash c = ht (ep_code p) -> is_set (ac_usedAt c) = true ->
  fst (exchangeCodeForToken ht sha p now now' id x s0 s1 w) = w /\
  forall r, snd (exchangeCodeForToken ht sha p now now' id x s0 s1 w) <> Ok (inr r).
Proof.
  intros (Hle & _ & _) Hu Hk Hh Hused. unfold exchangeCodeForToken. do 2 (destruct (_ || _); [done|]).
  destruct (check_code _ _ _ _ _ _) as [[e|[k' c']]|e] eqn:Hck; [done| |done].
  assert (k' = k) as ->.
  { unfold check_code in Hck. destruct (find_hash _ _ _) as [[k0 c0]|] eqn:Hf; [|done].
    apply find_by_Some in Hf as [Hk0 Hh0]. simpl in Hh0. bools.
    assert (k0 = k') as ->.
    { revert Hck. unfold mbind, outcome_bind. clear. cases; congruence. }
    destruct (Hle _ _ Hk0) as (c1 & Hc1 & []). apply (Hu k' k c1 c); congruence. }
  unfold redeem_code. by rewrite Hk, Hused.
Qed.

(** C12: an authorization code is redeemed at most once.  Once an exchange has
    succeeded in some state of a run, every later exchange of the same code, by
    any client and with reads from any state of the run (also one from before the
    success), mints nothing and changes nothing. *)
Theorem code_single_use ht sha later w' w past p now now' id x s0 s1 r cur rest
    p2 now2 now2' id2 x2 t0 t1 :
  mcp_trace ht sha (later ++ w' :: w :: past) -> later ++ w' :: w :: past = cur :: rest ->
  s0 ∈ w :: past -> exchangeCodeForToken ht sha p now now' id x s0 s1 w = (w', Ok (inr r)) ->
  ep_code p2 = ep_code p -> t0 ∈ cur :: rest ->
  fst (exchangeCodeForToken ht sha p2 now2 now2' id2 x2 t0 t1 cur) = cur /\
  forall r', snd (exchangeCodeForToken ht sha p2 now2 now2' id2 x2 t0 t1 cur) <> Ok (inr r').
Proof.
  intros Htr Heq Hs0 Hex Hcode Ht0.
  assert (Hw : mcp_trace ht sha (w :: past)).
  { apply (mcp_trace_suffix _ _ (later ++ [w'])). by rewrite <- app_assoc. }
  destruct (exchange_success_used _ _ _ _ _ _ _ _ _ _ _ _ Hex) as (k & c & Hk & Hh & Hu);
    [by eapply mcp_trace_le|].
  rewrite Heq in Htr. assert (Hin : w' ∈ cur :: rest) by (rewrite <- Heq; set_solver).
  destruct (mcp_trace_le _ _ _ _ _ Htr Hin) as (Hle & _ & _).
  destruct (Hle _ _ Hk) as (c' & Hk' & [Hh' _ Hu']).
  eapply (exchange_used_refused _ _ _ _ _ _ _ _ _ _ k c'); [by eapply mcp_trace_le| |done|congruence|auto].
  by destruct (mcp_trace_inv _ _ _ _ Htr).
Qed.

(** C5: refresh-token rotation is linear and confers nothing new.  In every state
    of every run two refresh tokens of one family carry the same client, tenant,
    user, service account, scope and family birth time; at most one token of the
    family is not yet rotated; each token's access token exists with the same
    grant, and is revoked once the refresh token has been rotated. *)
Theorem refresh_rotation_linear ht sha w past k k' r r' :
  mcp_trace ht sha (w :: past) -> mw_refresh w !! k = Some r -> mw_refresh w !! k' = Some r' ->
  rt_familyId r = rt_familyId r' ->
  rt_grant r = rt_grant r' /\ rt_familyCreatedAt r = rt_familyCreatedAt r' /\
  (rt_rotatedAt r = None -> rt_rotatedAt r' = None -> k = k') /\
  exists a, mw_access w !! rt_accessTokenId r = Some a /\ at_grant a = rt_grant r /\
    (is_set (rt_rotatedAt r) = true -> is_set (at_revokedAt a) = true).
Proof.
  intros [_ _ _ [Hf Hl Hp]]%mcp_trace_inv Hk Hk' Heq.
  destruct (Hf _ _ _ _ Hk Hk' Heq) as [? ?]. split_and!; [done..|by eapply Hl|by eapply Hp].
Qed.

Lemma revokeFamily_revokes fam aid now w k r :
  mw_refresh (revokeFamilyOutOfBand false fam aid now w w) !! k = Some r -> rt_familyId r = fam ->
  is_set (rt_revokedAt r) = true /\
  forall a, mw_access (revokeFamilyOutOfBand false fam aid now w w) !! rt_accessTokenId r = Some a ->
    is_set (at_revokedAt a) = true.
Proof.
  simpl. unfold updateMany. simpl. rewrite lookup_fmap. intros (r0 & Hk & ->)%fmap_Some_1 Hfam.
  assert (Hf0 : rt_familyId r0 = fam) by (by destruct (_ && _)).
  split.
  - rewrite bool_decide_true by done. simpl. by destruct (rt_revokedAt r0) eqn:E; simpl; rewrite ?E.
  - intros a. rewrite map_lookup_imap. intros (a0 & Ha0 & [= <-])%bind_Some.
    rewrite bool_decide_true; [by destruct (at_revokedAt a0) eqn:E; simpl; rewrite ?E|].
    apply elem_of_cons. right. apply list_elem_of_fmap. exists (k, r0). split; [by destruct (_ && _)|].
    apply elem_of_map_to_list, select_lookup. split; [done|]. by apply bool_decide_true.
Qed.

Lemma revokeFamily_dom fails fam aid now ws w :
  dom (mw_refresh (revokeFamilyOutOfBand fails fam aid now ws w)) = dom (mw_refresh w) /\
  dom (mw_access (revokeFamilyOutOfBand fails fam aid now ws w)) = dom (mw_access w).
Proof.
  unfold revokeFamilyOutOfBand. destruct fails; [done|]. simpl. split.
  - unfold updateMany. simpl. by rewrite dom_fmap_L.
  - apply set_eq. intros k. rewrite !elem_of_dom, map_lookup_imap.
    destruct (mw_access w !! k); simpl; split; intros []; eauto.
Qed.

(** The two ways a presented token turns out to have been rotated already. *)
Inductive reuse_detected (ht : jsstr -> jsstr) (p : RefreshParams) (nowMs now : Z) (w0 w1 w : mcp_world)
    (r : refresh_token) (cl : mcp_client) : RefreshExchangeReason -> Prop :=
| Replayed k :
    find_hash rt_tokenHash (ht (rp_refreshToken p)) (mw_refresh w0) = Some (k, r) ->
    mw_clients w0 !! gr_clientId (rt_grant r) = Some cl -> is_set (rt_rotatedAt r) = true ->
    reuse_detected ht p nowMs now w0 w1 w r cl R_REPLAY
| RaceLost k cur :
    check_refresh ht p nowMs now w0 w1 = Ok (inr (k, r, cl)) ->
    mw_refresh w !! k = Some cur -> is_set (rt_rotatedAt cur) = true ->
    reuse_detected ht p nowMs now w0 w1 w r cl R_CONCURRENT_ROTATION_REVOKED.

(** Reuse of a refresh token revokes its family.  When a presented token was
    already rotated in the state the exchange read (whatever client presents it,
    and before any other check), or is rotated by the time of the
    compare-and-swap, the exchange answers invalid_grant with the family, mints
    nothing, and leaves every refresh token of the family and every access token
    paired with one revoked; [between] is whatever other requests did between the
    two transactions. *)
Theorem reuse_revokes_family ht p nowMs now now' now2 aid rid x y between w0 w1 w r cl reason :
  rp_refreshToken p <> [] -> (length (rp_refreshToken p) <= MCP_PRESENTED_TOKEN_MAX_LENGTH)%nat ->
  rp_clientId p <> [] -> (length (rp_clientId p) <= MCP_CLIENT_ID_MAX_LENGTH)%nat ->
  reuse_detected ht p nowMs now w0 w1 w r cl reason ->
  let '(w', res) := exchangeRefreshToken ht p nowMs now now' now2 aid rid x y false between w0 w1 w in
  res = Ok (RefreshErr InvalidGrant (Some reason) (Some (family_of r cl))) /\
  dom (mw_refresh w') = dom (mw_refresh (between w)) /\
  dom (mw_access w') = dom (mw_access (between w)) /\
  forall k' r', mw_refresh w' !! k' = Some r' -> rt_familyId r' = rt_familyId r ->
    is_set (rt_revokedAt r') = true /\
    forall a, mw_access w' !! rt_accessTokenId r' = Some a -> is_set (at_revokedAt a) = true.
Proof.
  intros Ht Htl Hc Hcl Hre.
  assert (Htx : refresh_tx ht p nowMs now now' aid rid x y w0 w1 w =
    (w, Ok (match reason with R_REPLAY => P1_replay | _ => P1_race_lost end (family_of r cl)))).
  { unfold refresh_tx. destruct Hre as [k Hf Hcli Hrot|k cur Hck Hk Hrot].
    - unfold check_refresh. by rewrite Hf, Hcli, Hrot.
    - rewrite Hck. unfold rotate_token. by rewrite Hk, Hrot. }
  unfold exchangeRefreshToken, blank, too_long.
  rewrite !bool_decide_false, !(proj2 (Nat.ltb_ge _ _)), Htx by done. cbn [orb].
  assert (Hfin : forall w2, let w' := revokeFamilyOutOfBand false (rt_familyId r) (rt_accessTokenId r) now2 w2 w2 in
    dom (mw_refresh w') = dom (mw_refresh w2) /\ dom (mw_access w') = dom (mw_access w2) /\
    forall k' r', mw_refresh w' !! k' = Some r' -> rt_familyId r' = rt_familyId r ->
    is_set (rt_revokedAt r') = true /\
    forall a, mw_access w' !! rt_accessTokenId r' = Some a -> is_set (at_revokedAt a) = true).
  { intros w2 w'. destruct (revokeFamily_dom false (rt_familyId r) (rt_accessTokenId r) now2 w2 w2).
    split_and!; [done..|]. intros k' r' Hk' Hf. by eapply revokeFamily_revokes. }
  by destruct Hre.
Qed.

(** What a successful refresh did.  It was admitted only for a token that was
    live, presented by its active, authenticated client within the tenant, in a
    family not older than thirty days, for a member that is not deactivated and
    not blocked by passkey enforcement; it rotated that row, revoked the paired
    access token, and added one access token and one refresh token with the grant
    and family birth time of the presented one. *)
Theorem refresh_success_sound ht p nowMs now now' now2 aid rid x y fails between w0 w1 w w' ro :
  exchangeRefreshToken ht p nowMs now now' now2 aid rid x y fails between w0 w1 w
    = (w', Ok (RefreshOk ro)) ->
  exists k r cl cur old a n,
    refresh_admitted ht p nowMs now w0 w1 k r cl /\ rotated k r now' aid rid w w' cur old a n /\
    ro_familyId ro = rt_familyId r /\ ro_grant ro = rt_grant r.
Proof.
  unfold exchangeRefreshToken. do 2 (destruct (_ || _); [done|]).
  destruct (refresh_tx _ _ _ _ _ _ _ _ _ _ _ _) as [w2 ph] eqn:E. intros H.
  assert (w2 = w' /\ ph = Ok (P1_success ro)) as [-> ->] by (destruct ph as [[]|]; naive_solver).
  apply refresh_tx_cases in E as [[_ Hno]|(k & r & cl & cur & old & a & n & H1 & H2 & ro' & [= <-] & ? & ?)];
    [by destruct (Hno ro)|].
  by exists k, r, cl, cur, old, a, n.
Qed.

(** Revocation of an access token is final.  Once its row is revoked in some
    state of a run, no validation that reads that state or a later one accepts a
    token with its hash. *)
Theorem revoked_token_never_accepted ht sha later s past k a token now fails t0 t1 w d :
  mcp_trace ht sha (later ++ s :: past) -> t0 ∈ later ++ [s] ->
  mw_access s !! k = Some a -> is_set (at_revokedAt a) = true -> ht token = at_tokenHash a ->
  snd (validateMcpToken ht token now fails t0 t1 w) <> Ok (inr d).
Proof.
  intros Htr Hin Hk Hr Hh Hv.
  assert (Hsuf : exists past', mcp_trace ht sha (t0 :: past') /\ s ∈ t0 :: past').
  { apply elem_of_app in Hin as [Hin| ->%list_elem_of_singleton].
    - apply list_elem_of_split in Hin as (l1 & l2 & ->). rewrite <- app_assoc in Htr. simpl in Htr.
      exists (l2 ++ s :: past). split; [by eapply mcp_trace_suffix|]. set_solver.
    - exists past. split; [by eapply mcp_trace_suffix|]. set_solver. }
  destruct Hsuf as (past' & Ht0 & Hs).
  destruct (mcp_trace_le _ _ _ _ _ Ht0 Hs) as (_ & Hle & _).
  destruct (Hle _ _ Hk) as (a' & Hk' & [Hh' _ _ Hr']).
  destruct (validateMcpToken _ _ _ _ _ _ _) as [w' res] eqn:E. simpl in Hv. subst res.
  apply validateMcpToken_cases in E as [[_ Hn]|(k1 & a1 & cl & Hval & _ & _)]; [by destruct (Hn d)|].
  destruct Hval as [_ Hf Hun _ _ _]. apply find_by_Some in Hf as [Hk1 Hh1]. simpl in Hh1. bools.
  assert (k1 = k) as -> by (eapply (mi_access _ (mcp_trace_inv _ _ _ _ Ht0)); [done..|congruence]).
  assert (a1 = a') as -> by congruence. specialize (Hr' Hr). by rewrite Hun in Hr'.
Qed.

(** ** A concrete run *)

Definition demo_ht (s : jsstr) : jsstr := js "h:" ++ s.
Definition demo_sha (s : jsstr) : jsstr := s.
Definition demo_grant : mcp_grant := {|
  gr_clientId := js "C"; gr_tenantId := js "T"; gr_userId := None;
  gr_serviceAccountId := Some (js "sa"); gr_scope := js "credentials:list" |}.
Definition demo_start : mcp_world := {|
  mw_codes := ∅; mw_access := ∅; mw_refresh := ∅;
  mw_clients := {[ js "C" := {| mc_clientId := js "mcpc_1"; mc_clientSecretHash := [];
                                mc_isActive := true; mc_tenantId := Some (js "T") |} ]};
  mw_members := ∅; mw_tenants := ∅; mw_credentials := ∅ |}.
Definition demo_code_params : CreateAuthCodeParams := {|
  cp_grant := demo_grant; cp_redirectUri := js "http://127.0.0.1:7/"; cp_codeChallenge := js "v";
  cp_codeChallengeMethod := None |}.
Definition demo_exchange : ExchangeCodeParams := {|
  ep_code := js "code"; ep_clientId := js "mcpc_1"; ep_clientSecretHash := [];
  ep_redirectUri := js "http://127.0.0.1:7/"; ep_codeVerifier := js "v";
  ep_tokenExpirySeconds := None |}.
Definition demo_refresh (token : jsstr) : RefreshParams := {|
  rp_refreshToken := token; rp_clientId := js "mcpc_1"; rp_clientSecretHash := [] |}.
Definition demo_revoke : RevokeParams := {|
  vp_token := js "mcpr_1"; vp_hint := None; vp_clientId := js "mcpc_1"; vp_clientSecretHash := None |}.

Definition demo_run (e : mcp_event) (w0 w : mcp_world) : mcp_world :=
  mcp_handle demo_ht demo_sha e w0 w w.
(** A code, its exchange, and the first refresh token. *)
Definition demo_coded := demo_run (EvCode demo_code_params 0 (js "k") (js "code")) demo_start demo_start.
Definition demo_exchanged :=
  demo_run (EvExchange demo_exchange 1 1 (js "a1") (js "1")) demo_coded demo_coded.
Definition demo_issued :=
  demo_run (EvIssue (js "a1") demo_grant (js "F") 2 (js "r1") (js "1")) demo_exchanged demo_exchanged.
Definition demo_rotation (w0 w : mcp_world) : mcp_world :=
  demo_run (EvRotate (demo_refresh (js "mcpr_1")) 3 3 4 (js "a2") (js "r2") (js "2") (js "2")) w0 w.
Definition demo_rotated := demo_rotation demo_issued demo_issued.
(** The client revokes its refresh token; a rotation that had read the token
    before then commits. *)
Definition demo_revoked := demo_run (EvRevoke demo_revoke 3) demo_issued demo_issued.
Definition demo_escaped := demo_rotation demo_issued demo_revoked.

Lemma demo_trace_issued :
  mcp_trace demo_ht demo_sha [demo_issued; demo_exchanged; demo_coded; demo_start].
Proof.
  apply mcp_next; [|apply list_elem_of_here..|].
  - apply mcp_next; [|apply list_elem_of_here..|done].
    apply mcp_next; [|apply list_elem_of_here..|done]. by apply mcp_start.
  - split.
    + eexists. split; vm_compute; reflexivity.
    + intros k r. change (mw_refresh demo_exchanged) with (∅ : gmap jsstr refresh_token). by rewrite lookup_empty.
Qed.

(** A rotation can outlive the revocation of its family.  The compare-and-swap
    of the refresh exchange tests only [rotatedAt], so an exchange that read the
    token before [revokeToken] committed still wins it afterwards: there is a run
    in which every refresh and access token has been revoked by its client and a
    later state holds a live refresh token of the same family, whose access token
    is accepted. *)
Theorem rotation_escapes_revocation :
  exists s w past k r d, mcp_trace demo_ht demo_sha (w :: past) /\ s ∈ past /\
    mw_refresh w !! k = Some r /\ rt_revokedAt r = None /\ rt_rotatedAt r = None /\
    (exists k0 r0, mw_refresh s !! k0 = Some r0 /\ rt_familyId r0 = rt_familyId r) /\
    map_Forall (fun _ r0 => is_set (rt_revokedAt r0) = true) (mw_refresh s) /\
    map_Forall (fun _ a => is_set (at_revokedAt a) = true) (mw_access s) /\
    snd (validateMcpToken demo_ht (js "mcp_2") 5 false w w w) = Ok (inr d).
Proof.
  exists demo_revoked, demo_escaped, [demo_revoked; demo_issued; demo_exchanged; demo_coded; demo_start].
  eexists (js "r2"), _, _. split_and!.
  - apply (mcp_next _ _ _ demo_issued demo_revoked).
    + apply (mcp_next _ _ (EvRevoke demo_revoke 3)); [apply demo_trace_issued|apply list_elem_of_here..|done].
    + apply list_elem_of_further, list_elem_of_here.
    + apply list_elem_of_here.
    + done.
  - apply list_elem_of_here.
  - vm_compute. reflexivity.
  - reflexivity.
  - reflexivity.
  - exists (js "r1"). eexists. split; vm_compute; reflexivity.
  - apply map_Forall_to_list. vm_compute. by repeat constructor.
  - apply map_Forall_to_list. vm_compute. by repeat constructor.
  - vm_compute. reflexivity.
Qed.

Lemma code_single_use_witness :
  exists r, snd (exchangeCodeForToken demo_ht demo_sha demo_exchange 1 1 (js "a1") (js "1")
                   demo_coded demo_coded demo_coded) = Ok (inr r) /\
  fst (exchangeCodeForToken demo_ht demo_sha demo_exchange 2 2 (js "a9") (js "9")
         demo_coded demo_coded demo_issued) = demo_issued.
Proof.
  eexists. split; [vm_compute; reflexivity|].
  refine (proj1 (code_single_use demo_ht demo_sha [demo_issued] demo_exchanged demo_coded [demo_start]
    demo_exchange 1 1 (js "a1") (js "1") demo_coded demo_coded _ demo_issued
    [demo_exchanged; demo_coded; demo_start] demo_exchange 2 2 (js "a9") (js "9") demo_coded demo_coded
    demo_trace_issued _ _ _ _ _)).
  - reflexivity.
  - apply list_elem_of_here.
  - vm_compute. reflexivity.
  - reflexivity.
  - apply list_elem_of_further, list_elem_of_further, list_elem_of_here.
Defined.

Lemma demo_trace_rotated :
  mcp_trace demo_ht demo_sha [demo_rotated; demo_issued; demo_exchanged; demo_coded; demo_start].
Proof. apply mcp_next; [apply demo_trace_issued|apply list_elem_of_here..|done]. Qed.

Lemma refresh_rotation_linear_witness :
  exists r r', mw_refresh demo_rotated !! js "r1" = Some r /\ mw_refresh demo_rotated !! js "r2" = Some r' /\
    rt_grant r = rt_grant r' /\ is_set (rt_rotatedAt r) = true.
Proof.
  eexists _, _. split; [vm_compute; reflexivity|]. split; [vm_compute; reflexivity|]. split.
  - eapply (refresh_rotation_linear demo_ht demo_sha demo_rotated _ (js "r1") (js "r2"));
      [apply demo_trace_rotated|vm_compute; reflexivity..].
  - reflexivity.
Defined.

Lemma reuse_revokes_family_witness :
  exists r cl, (snd (exchangeRefreshToken demo_ht (demo_refresh (js "mcpr_1")) 5 5 5 6 (js "a3") (js "r3")
    (js "3") (js "3") false id demo_rotated demo_rotated demo_rotated))
  = Ok (RefreshErr InvalidGrant (Some R_REPLAY) (Some (family_of r cl))).
Proof.
  eexists _, _.
  pose proof (reuse_revokes_family demo_ht (demo_refresh (js "mcpr_1")) 5 5 5 6 (js "a3") (js "r3")
    (js "3") (js "3") id demo_rotated demo_rotated demo_rotated) as H.
  destruct (exchangeRefreshToken _ _ _ _ _ _ _ _ _ _ _ _ _ _ _) as [w' res].
  eapply H.
  - done.
  - vm_compute. lia.
  - done.
  - vm_compute. lia.
  - apply (Replayed _ _ _ _ _ _ _ _ _ (js "r1")); vm_compute; reflexivity.
Defined.

Lemma refresh_success_sound_witness :
  exists ro, snd (exchangeRefreshToken demo_ht (demo_refresh (js "mcpr_1")) 3 3 4 4 (js "a2") (js "r2")
    (js "2") (js "2") false id demo_issued demo_issued demo_issued) = Ok (RefreshOk ro) /\
  exists k r cl, refresh_admitted demo_ht (demo_refresh (js "mcpr_1")) 3 3 demo_issued demo_issued k r cl.
Proof.
  eexists. split; [vm_compute; reflexivity|].
  edestruct (refresh_success_sound demo_ht (demo_refresh (js "mcpr_1")) 3 3 4 4 (js "a2") (js "r2")
    (js "2") (js "2") false id demo_issued demo_issued demo_issued) as (k & r & cl & _ & _ & _ & _ & H & _);
    [vm_compute; reflexivity|]. by exists k, r, cl.
Defined.

Lemma revoked_token_never_accepted_witness :
  (exists a, mw_access demo_rotated !! js "a1" = Some a /\ is_set (at_revokedAt a) = true) /\
  forall d, snd (validateMcpToken demo_ht (js "mcp_1") 5 false demo_rotated demo_rotated demo_rotated)
            <> Ok (inr d).
Proof.
  split; [eexists; split; vm_compute; reflexivity|]. intros d.
  eapply (revoked_token_never_accepted demo_ht demo_sha [] demo_rotated _ (js "a1"));
    [apply demo_trace_rotated|apply list_elem_of_here|vm_compute; reflexivity..].
Defined.
