(* ===== verification/ScimFilter.v ===== *)
(** * SCIM filters

    src/src/lib/scim/filter-parser.ts: the tokeniser, the parser with its
    attribute allow-list, the translation to a Prisma [where] clause and the
    look-up of [externalId]; and the way the list handler of
    src/src/app/api/scim/v2/Users/route.ts turns a filter into a query on the
    tenant's members.  The loops over the input and over the tokens run on fuel;
    [tokenise_total] and [parse_loop_total] show that the fuel given is enough. *)

From S2P Require Import Prelude JsString.
Local Open Scope Z_scope.
#[local] Set Warnings "-register-all".
#[local] Set Default Proof Using "Type".

Definition SCIM_FILTER_MAX_LENGTH : nat := 256.
Definition ALLOWED_FILTER_ATTRIBUTES : list jsstr := [js "userName"; js "active"; js "externalId"].

Inductive ScimFilterOp := Op_eq | Op_co | Op_sw.
#[export] Instance ScimFilterOp_eq_dec : EqDecision ScimFilterOp.
Proof. solve_decision. Defined.

Record ScimFilterNode := { fn_attr : jsstr; fn_op : ScimFilterOp; fn_value : jsstr }.

Inductive ScimFilterExpression :=
| FNode (n : ScimFilterNode)
| FAnd (l : list ScimFilterExpression)
| FOr (l : list ScimFilterExpression).

Inductive FilterParseError :=
| TooLong | UnterminatedString | EmptyFilter | ExpectedAttribute | UnsupportedFilterAttribute
| ExpectedOperator | ExpectedValue | MixedConnectives | UnexpectedToken
| OperatorNotSupported | UnsupportedAttribute | ConflictingExternalId
| OutOfFuel.

(** ** The tokeniser *)

Inductive Token :=
| TAttr (value : jsstr) | TOp (value : ScimFilterOp) | TStr (value : jsstr) | TBool (value : jsstr)
| TAnd | TOr.

Definition is_blank (c : Z) : bool := (c =? 32) || (c =? 9).
Definition is_quote (c : Z) : bool := c =? 34.

(** The text of a quoted string after its opening quote, and what follows the
    closing one. *)
Fixpoint read_string (s str : jsstr) : option (jsstr * jsstr) :=
  match s with
  | [] => None
  | c :: s' =>
      if is_quote c then Some (str, s')
      else if c =? 92
           then match s' with
                | [] => None
                | d :: s'' => read_string s'' (str ++ [d])
                end
           else read_string s' (str ++ [c])
  end.

Fixpoint read_word (s : jsstr) : jsstr * jsstr :=
  match s with
  | [] => ([], [])
  | c :: s' =>
      if is_blank c || is_quote c then ([], s)
      else let '(w, rest) := read_word s' in (c :: w, rest)
  end.

Definition op_of (lower : jsstr) : option ScimFilterOp :=
  if lower =s js "eq" then Some Op_eq
  else if lower =s js "co" then Some Op_co
  else if lower =s js "sw" then Some Op_sw else None.

Definition word_token (word : jsstr) : Token :=
  let lower := js_to_lower word in
  if lower =s js "and" then TAnd
  else if lower =s js "or" then TOr
  else match op_of lower with
       | Some o => TOp o
       | None => if (lower =s js "true") || (lower =s js "false") then TBool lower
                 else TAttr word
       end.

Fixpoint tokenise_loop (fuel : nat) (input : jsstr) : outcome FilterParseError (list Token) :=
  match fuel with
  | O => Throw OutOfFuel
  | S fuel' =>
      match input with
      | [] => Ok []
      | c :: rest =>
          if is_blank c then tokenise_loop fuel' rest
          else if is_quote c
               then match read_string rest [] with
                    | None => Throw UnterminatedString
                    | Some (str, rest') => cons (TStr str) <$> tokenise_loop fuel' rest'
                    end
               else match read_word input with
                    | ([], _) => tokenise_loop fuel' rest
                    | (word, rest') => cons (word_token word) <$> tokenise_loop fuel' rest'
                    end
      end
  end.

Definition tokenise (input : jsstr) : outcome FilterParseError (list Token) :=
  tokenise_loop (S (length input)) input.

(** ** The parser *)

Definition parseComparison (ts : list Token)
    : outcome FilterParseError (ScimFilterNode * list Token) :=
  match ts with
  | TAttr a :: ts1 =>
      if negb (bool_decide (a ∈ ALLOWED_FILTER_ATTRIBUTES)) then Throw UnsupportedFilterAttribute
      else match ts1 with
           | TOp o :: ts2 =>
               match ts2 with
               | TStr v :: ts3 | TBool v :: ts3 =>
                   Ok ({| fn_attr := a; fn_op := o; fn_value := v |}, ts3)
               | _ => Throw ExpectedValue
               end
           | _ => Throw ExpectedOperator
           end
  | _ => Throw ExpectedAttribute
  end.

Inductive connective := C_and | C_or.
#[export] Instance connective_eq_dec : EqDecision connective.
Proof. solve_decision. Defined.

Definition connective_of (t : Token) : option connective :=
  match t with TAnd => Some C_and | TOr => Some C_or | _ => None end.

(** Attaching the right operand to what has been read so far. *)
Definition extend (c : connective) (left : ScimFilterExpression) (rhs : ScimFilterNode)
    : ScimFilterExpression :=
  match c, left with
  | C_and, FAnd l => FAnd (l ++ [FNode rhs])
  | C_and, _ => FAnd [left; FNode rhs]
  | C_or, FOr l => FOr (l ++ [FNode rhs])
  | C_or, _ => FOr [left; FNode rhs]
  end.

Fixpoint parse_loop (fuel : nat) (conn : option connective) (left : ScimFilterExpression)
    (ts : list Token) : outcome FilterParseError (ScimFilterExpression * list Token) :=
  match fuel with
  | O => Throw OutOfFuel
  | S fuel' =>
      match ts with
      | [] => Ok (left, [])
      | t :: ts' =>
          match connective_of t with
          | None => Ok (left, ts)
          | Some c =>
              if match conn with Some c' => negb (bool_decide (c' = c)) | None => false end
              then Throw MixedConnectives
              else
                '(rhs, rest) ← parseComparison ts';
                parse_loop fuel' (Some c) (extend c left rhs) rest
          end
      end
  end.

Definition parseExpression (ts : list Token)
    : outcome FilterParseError (ScimFilterExpression * list Token) :=
  '(n, rest) ← parseComparison ts;
  parse_loop (S (length rest)) None (FNode n) rest.

Definition parseScimFilter (filter : jsstr) : outcome FilterParseError ScimFilterExpression :=
  if (SCIM_FILTER_MAX_LENGTH <? length filter)%nat then Throw TooLong
  else
    tokens ← tokenise filter;
    match tokens with
    | [] => Throw EmptyFilter
    | _ :: _ =>
        '(result, rest) ← parseExpression tokens;
        match rest with [] => Ok result | _ :: _ => Throw UnexpectedToken end
    end.

(** ** Translation *)

Inductive PrismaWhere :=
| P_deactivatedNull | P_deactivatedNotNull
| P_email (op : ScimFilterOp) (value : jsstr)
| P_any
| P_AND (l : list PrismaWhere) | P_OR (l : list PrismaWhere).

Section Translate.
(** [String.prototype.toLowerCase] on the value of [userName], and the
    case-insensitive comparisons of the database. *)
Context (toLowerCase : jsstr -> jsstr) (insensitive : ScimFilterOp -> jsstr -> jsstr -> bool).

Definition comparisonToPrisma (node : ScimFilterNode) : outcome FilterParseError PrismaWhere :=
  if fn_attr node =s js "active"
  then Ok (if fn_value node =s js "true" then P_deactivatedNull else P_deactivatedNotNull)
  else if fn_attr node =s js "userName"
  then Ok (P_email (fn_op node) (toLowerCase (fn_value node)))
  else if fn_attr node =s js "externalId"
  then match fn_op node with Op_eq => Ok P_any | _ => Throw OperatorNotSupported end
  else Throw UnsupportedAttribute.

Fixpoint filterToPrismaWhere (expr : ScimFilterExpression) : outcome FilterParseError PrismaWhere :=
  match expr with
  | FAnd l => P_AND <$> (fix go l := match l with
                         | [] => Ok []
                         | e :: l' => w ← filterToPrismaWhere e; cons w <$> go l'
                         end) l
  | FOr l => P_OR <$> (fix go l := match l with
                       | [] => Ok []
                       | e :: l' => w ← filterToPrismaWhere e; cons w <$> go l'
                       end) l
  | FNode n => comparisonToPrisma n
  end.

(** [visit]: [found] threads through the traversal. *)
Fixpoint visit_external (expr : ScimFilterExpression) (found : option jsstr)
    : outcome FilterParseError (option jsstr) :=
  match expr with
  | FAnd l | FOr l => (fix go l found := match l with
                       | [] => Ok found
                       | e :: l' => f ← visit_external e found; go l' f
                       end) l found
  | FNode n =>
      if negb (fn_attr n =s js "externalId") then Ok found
      else match found with
           | None => Ok (Some (fn_value n))
           | Some v => if negb (v =s fn_value n) then Throw ConflictingExternalId else Ok found
           end
  end.

Definition extractExternalIdValue (expr : ScimFilterExpression)
    : outcome FilterParseError (option jsstr) := visit_external expr None.

Fixpoint hasAttribute (expr : ScimFilterExpression) (attr : jsstr) : bool :=
  match expr with
  | FAnd l | FOr l => existsb (fun e => hasAttribute e attr) l
  | FNode n => fn_attr n =s attr
  end.

(** ** The query of the list handler *)

Record member := {
  mb_tenantId : jsstr; mb_userId : jsstr; mb_email : option jsstr; mb_deactivatedAt : option Z }.
Record external_mapping := { em_tenantId : jsstr; em_externalId : jsstr; em_internalId : jsstr }.

Fixpoint eval_where (w : PrismaWhere) (m : member) : bool :=
  match w with
  | P_deactivatedNull => bool_decide (mb_deactivatedAt m = None)
  | P_deactivatedNotNull => negb (bool_decide (mb_deactivatedAt m = None))
  | P_email op v => match mb_email m with Some e => insensitive op v e | None => false end
  | P_any => true
  | P_AND l => forallb (fun w => eval_where w m) l
  | P_OR l => existsb (fun w => eval_where w m) l
  end.

(** The clause the handler builds: the tenant, an optional user, and the
    translated filter, whose [user] key replaces the test that the e-mail is
    set. *)
Record member_query := {
  mq_tenantId : jsstr; mq_userId : option jsstr; mq_where : option PrismaWhere }.
Definition query_matches (q : member_query) (m : member) : bool :=
  (mb_tenantId m =s mq_tenantId q)
  && match mq_userId q with Some u => mb_userId m =s u | None => true end
  && match mq_where q with
     | Some (P_email op v) => eval_where (P_email op v) m
     | Some w => negb (bool_decide (mb_email m = None)) && eval_where w m
     | None => negb (bool_decide (mb_email m = None))
     end.

Inductive scim_list :=
| ListError (e : FilterParseError) | ExternalIdInOr | ListEmpty | ListQuery (q : member_query).

(** The filter part of GET /api/scim/v2/Users; [mappings] are the rows of type
    User. *)
Definition scim_users_query (tenantId : jsstr) (mappings : list external_mapping)
    (filterParam : option jsstr) : scim_list :=
  match filterParam with
  | None | Some [] => ListQuery {| mq_tenantId := tenantId; mq_userId := None; mq_where := None |}
  | Some f =>
      match parseScimFilter f with
      | Throw e => ListError e
      | Ok ast =>
          match extractExternalIdValue ast with
          | Throw e => ListError e
          | Ok ext =>
              let finish userId :=
                match filterToPrismaWhere ast with
                | Throw e => ListError e
                | Ok w => ListQuery {| mq_tenantId := tenantId; mq_userId := userId; mq_where := Some w |}
                end in
              match ext, ast with
              | Some _, FOr _ => ExternalIdInOr
              | Some v, _ =>
                  match List.find (fun m => (em_tenantId m =s tenantId) && (em_externalId m =s v)) mappings with
                  | None => ListEmpty
                  | Some m => finish (Some (em_internalId m))
                  end
              | None, _ => finish None
              end
          end
      end
  end.
End Translate.

(** ** The fuel is enough *)

Lemma read_string_length s str v rest : read_string s str = Some (v, rest) -> (length rest < length s)%nat.
Proof.
  revert str. induction s as [s IH] using (induction_ltof1 _ length). unfold ltof in IH.
  intros str. destruct s as [|c s]; [done|]. simpl. destruct (is_quote c); [intros [= <- <-]; lia|].
  destruct (c =? 92).
  - destruct s as [|d s]; [done|]. intros H%IH; simpl in *; lia.
  - intros H%IH; simpl; lia.
Qed.

Lemma read_word_length s w rest : read_word s = (w, rest) -> length s = (length w + length rest)%nat.
Proof.
  revert w rest. induction s as [|c s IH]; simpl; intros w rest; [by intros [= <- <-]|].
  destruct (_ || _); [by intros [= <- <-]|].
  destruct (read_word s) as [w' r']. intros [= <- <-]. simpl. by rewrite (IH w' r').
Qed.

(** The result does not depend on the fuel once it exceeds the input. *)
Lemma tokenise_fuel f f' s :
  (length s < f)%nat -> (length s < f')%nat -> tokenise_loop f s = tokenise_loop f' s.
Proof.
  revert f' s. induction f as [|f IH]; intros [|f'] s Hf Hf'; try lia.
  destruct s as [|c s]; [done|]. cbn [tokenise_loop length] in *.
  destruct (is_blank c); [apply IH; lia|]. destruct (is_quote c).
  - destruct (read_string s []) as [[v r]|] eqn:E; [|done]. apply read_string_length in E.
    by rewrite (IH f') by lia.
  - destruct (read_word (c :: s)) as [[|x w] r] eqn:E; [apply IH; lia|].
    apply read_word_length in E. simpl in E. by rewrite (IH f') by lia.
Qed.

Lemma tokenise_total s : tokenise s <> Throw OutOfFuel.
Proof.
  unfold tokenise. generalize (Nat.lt_succ_diag_r (length s)). generalize (S (length s)). intros f.
  revert s. induction f as [|f IH]; intros s Hf; [lia|]. destruct s as [|c s]; [done|].
  cbn [tokenise_loop length] in *. destruct (is_blank c); [apply IH; lia|]. destruct (is_quote c).
  - destruct (read_string s []) as [[v r]|] eqn:E; [|done]. apply read_string_length in E.
    specialize (IH r ltac:(lia)). by destruct (tokenise_loop f r); [|intros [= ->]].
  - destruct (read_word (c :: s)) as [[|x w] r] eqn:E; [apply IH; lia|].
    apply read_word_length in E. simpl in E.
    specialize (IH r ltac:(lia)). by destruct (tokenise_loop f r); [|intros [= ->]].
Qed.

Lemma parseComparison_length ts n rest :
  parseComparison ts = Ok (n, rest) -> length ts = (3 + length rest)%nat /\
  fn_attr n ∈ ALLOWED_FILTER_ATTRIBUTES.
Proof.
  unfold parseComparison. destruct ts as [|[] [|[] [|[] ts]]]; try done;
    (destruct (bool_decide _) eqn:E; [|done]); try done;
    intros [= <- <-]; bools; by split.
Qed.

Lemma parse_loop_total f conn left ts :
  (length ts < f)%nat -> parse_loop f conn left ts <> Throw OutOfFuel.
Proof.
  revert conn left ts. induction f as [|f IH]; intros conn left ts Hf; [lia|].
  destruct ts as [|t ts]; [done|]. cbn [parse_loop length] in *.
  destruct (connective_of t) as [c|]; [|done]. destruct (match conn with Some _ => _ | None => _ end); [done|].
  destruct (parseComparison ts) as [[n rest]|e] eqn:E; cbn [mbind outcome_bind].
  - apply parseComparison_length in E as [E _]. apply IH. lia.
  - intros [= ->]. unfold parseComparison in E. repeat case_match; simplify_eq.
Qed.

(** ** The shape of a parsed filter *)

Definition join_nodes (c : connective) (ns : list ScimFilterNode) : ScimFilterExpression :=
  match ns with
  | [n] => FNode n
  | _ => match c with C_and => FAnd (map FNode ns) | C_or => FOr (map FNode ns) end
  end.

Definition node_ok (n : ScimFilterNode) : Prop := fn_attr n ∈ ALLOWED_FILTER_ATTRIBUTES.

Lemma extend_join c ns n :
  ns <> [] -> extend c (join_nodes c ns) n = join_nodes c (ns ++ [n]).
Proof.
  intros Hne. destruct ns as [|n1 [|n2 ns]]; [done|by destruct c|].
  destruct c; simpl; by rewrite map_app.
Qed.

Lemma parse_loop_shape f conn c ns ts e rest :
  parse_loop f conn (join_nodes c ns) ts = Ok (e, rest) -> ns <> [] -> Forall node_ok ns ->
  (conn = Some c \/ conn = None /\ length ns = 1%nat) ->
  exists c' ns', e = join_nodes c' ns' /\ ns' <> [] /\ Forall node_ok ns'.
Proof.
  revert conn c ns ts. induction f as [|f IH]; intros conn c ns ts H Hne Hok Hc; [done|].
  destruct ts as [|t ts]; cbn [parse_loop] in H; [simplify_eq; eauto|].
  destruct (connective_of t) as [c1|]; [|simplify_eq; eauto].
  destruct (match conn with Some _ => _ | None => _ end) eqn:Hm; [done|].
  destruct (parseComparison ts) as [[n r]|] eqn:E; [|done]. cbn [mbind outcome_bind] in H.
  apply parseComparison_length in E as [_ Hn].
  assert (join_nodes c ns = join_nodes c1 ns) as Hj.
  { destruct Hc as [->|[-> Hl]]; [bools; by subst|]. by destruct ns as [|? [|]]. }
  rewrite Hj, extend_join in H by done.
  eapply (IH (Some c1) c1); [done|by destruct ns|by apply Forall_app_2; [|constructor]|by left].
Qed.

Lemma parse_shape f e :
  parseScimFilter f = Ok e -> exists c ns, e = join_nodes c ns /\ ns <> [] /\ Forall node_ok ns.
Proof.
  unfold parseScimFilter, parseExpression. destruct (_ <? _)%nat; [done|].
  destruct (tokenise f) as [[|t ts]|]; [done| |done]. cbn [mbind outcome_bind].
  destruct (parseComparison (t :: ts)) as [[n r]|] eqn:E; [|done]. cbn [mbind outcome_bind].
  apply parseComparison_length in E as [_ Hn].
  destruct (parse_loop _ _ _ _) as [[e' [|]]|] eqn:El; cbn [mbind outcome_bind]; try done.
  intros [= <-]. eapply (parse_loop_shape _ None C_and [n]); [exact El|done|by constructor|by right].
Qed.

(** ** Printing *)

Definition op_text (o : ScimFilterOp) : jsstr :=
  match o with Op_eq => js "eq" | Op_co => js "co" | Op_sw => js "sw" end.
Definition escape (v : jsstr) : jsstr :=
  concat (map (fun c => if is_quote c || (c =? 92) then [92; c] else [c]) v).
Definition print_node (n : ScimFilterNode) : jsstr :=
  fn_attr n ++ 32 :: op_text (fn_op n) ++ 32 :: 34 :: escape (fn_value n) ++ [34].
Definition connective_text (c : connective) : jsstr :=
  match c with C_and => js "and" | C_or => js "or" end.
Fixpoint print_more (c : connective) (ns : list ScimFilterNode) : jsstr :=
  match ns with
  | [] => []
  | n :: ns' => 32 :: connective_text c ++ 32 :: print_node n ++ print_more c ns'
  end.
Definition print_filter (c : connective) (n : ScimFilterNode) (ns : list ScimFilterNode) : jsstr :=
  print_node n ++ print_more c ns.

Definition node_tokens (n : ScimFilterNode) : list Token :=
  [TAttr (fn_attr n); TOp (fn_op n); TStr (fn_value n)].
Definition more_tokens (c : connective) (ns : list ScimFilterNode) : list Token :=
  concat (map (fun n => (match c with C_and => TAnd | C_or => TOr end) :: node_tokens n) ns).

Lemma read_string_escape v rest acc :
  read_string (escape v ++ 34 :: rest) acc = Some (acc ++ v, rest).
Proof.
  revert acc. induction v as [|c v IH]; intros acc; [simpl; by rewrite app_nil_r|].
  unfold escape in *. cbn [map concat]. rewrite <- app_assoc.
  destruct (is_quote c) eqn:Eq; cbn [orb].
  - simpl. rewrite IH. by rewrite <- app_assoc.
  - destruct (c =? 92) eqn:E; cbn [app read_string].
    + simpl. rewrite IH. by rewrite <- app_assoc.
    + rewrite Eq, E, IH. by rewrite <- app_assoc.
Qed.

Definition plain_unit (c : Z) : bool := negb (is_blank c || is_quote c).

Lemma read_word_plain w c rest :
  forallb plain_unit w = true -> is_blank c || is_quote c = true ->
  read_word (w ++ c :: rest) = (w, c :: rest).
Proof.
  intros Hw Hc. induction w as [|x w IH]; cbn [app read_word]; [by rewrite Hc|].
  cbn [forallb] in Hw. apply andb_true_iff in Hw as [Hx Hw]. apply negb_true_iff in Hx.
  by rewrite Hx, IH.
Qed.

(** The loop of the tokeniser, without fuel. *)
Lemma tokenise_cons c s :
  tokenise (c :: s) =
  if is_blank c then tokenise s
  else if is_quote c
       then match read_string s [] with
            | None => Throw UnterminatedString
            | Some (str, rest) => cons (TStr str) <$> tokenise rest
            end
       else match read_word (c :: s) with
            | ([], _) => tokenise s
            | (word, rest) => cons (word_token word) <$> tokenise rest
            end.
Proof.
  unfold tokenise at 1. remember (S (length s)) as f eqn:Hf. cbn [length]. rewrite <- Hf.
  cbn [tokenise_loop]. destruct (is_blank c); [by rewrite Hf|]. destruct (is_quote c).
  - destruct (read_string s []) as [[v r]|] eqn:E; [|done]. apply read_string_length in E.
    by rewrite (tokenise_fuel f (S (length r))) by lia.
  - destruct (read_word (c :: s)) as [[|x w] r] eqn:E; [by rewrite Hf|].
    apply read_word_length in E. simpl in E. by rewrite (tokenise_fuel f (S (length r))) by lia.
Qed.

Lemma tokenise_blank c s : is_blank c = true -> tokenise (c :: s) = tokenise s.
Proof. intros H. by rewrite tokenise_cons, H. Qed.

Lemma tokenise_quoted v rest :
  tokenise (34 :: escape v ++ 34 :: rest) = cons (TStr v) <$> tokenise rest.
Proof. rewrite tokenise_cons, read_string_escape. done. Qed.

Lemma tokenise_word w c rest :
  w <> [] -> forallb plain_unit w = true -> is_blank c || is_quote c = true ->
  tokenise (w ++ c :: rest) = cons (word_token w) <$> tokenise (c :: rest).
Proof.
  intros Hne Hw Hc. destruct w as [|x w]; [done|].
  pose proof (read_word_plain (x :: w) c rest Hw Hc) as Hr.
  cbn [forallb] in Hw. apply andb_true_iff in Hw as [Hx _]. unfold plain_unit in Hx.
  apply negb_true_iff, orb_false_iff in Hx as [Hb Hq].
  cbn [app] in *. by rewrite tokenise_cons, Hb, Hq, Hr.
Qed.

Lemma allowed_word a :
  a ∈ ALLOWED_FILTER_ATTRIBUTES -> a <> [] /\ forallb plain_unit a = true /\ word_token a = TAttr a.
Proof.
  unfold ALLOWED_FILTER_ATTRIBUTES. rewrite !elem_of_cons, elem_of_nil.
  intros [->|[->|[->|[]]]]; by split_and!; vm_compute.
Qed.

Lemma tokenise_node n rest :
  node_ok n -> tokenise (print_node n ++ rest) = app (node_tokens n) <$> tokenise rest.
Proof.
  intros Hn. destruct (allowed_word _ Hn) as (H1 & H2 & H3). unfold print_node.
  rewrite <- app_assoc. cbn [app]. rewrite <- app_assoc. cbn [app]. rewrite <- app_assoc. cbn [app].
  rewrite tokenise_word, H3, tokenise_blank by done.
  replace (op_text (fn_op n) ++ 32 :: 34 :: escape (fn_value n) ++ 34 :: rest)
    with (op_text (fn_op n) ++ 32 :: (34 :: escape (fn_value n) ++ 34 :: rest)) by done.
  rewrite tokenise_word; [|by destruct (fn_op n)..|done].
  rewrite tokenise_blank, tokenise_quoted by done.
  replace (word_token (op_text (fn_op n))) with (TOp (fn_op n)) by (by destruct (fn_op n)).
  by destruct (tokenise rest).
Qed.

Lemma tokenise_more c ns :
  Forall node_ok ns -> tokenise (print_more c ns) = Ok (more_tokens c ns).
Proof.
  induction ns as [|n ns IH]; intros Hok; [done|]. apply Forall_cons in Hok as [Hn Hok].
  cbn [print_more]. rewrite tokenise_blank, tokenise_word, tokenise_blank by (by destruct c).
  rewrite tokenise_node, IH by done. by destruct c.
Qed.

Lemma parse_more f conn c ns0 ns :
  (length (more_tokens c ns) < f)%nat -> ns0 <> [] -> Forall node_ok ns ->
  (conn = Some c \/ conn = None) ->
  parse_loop f conn (join_nodes c ns0) (more_tokens c ns) = Ok (join_nodes c (ns0 ++ ns), []).
Proof.
  revert f conn ns0. induction ns as [|n ns IH]; intros f conn ns0 Hf Hne Hok Hc.
  - rewrite app_nil_r. by destruct f; [simpl in Hf; lia|].
  - apply Forall_cons in Hok as [Hn Hok]. destruct f as [|f]; [lia|].
    unfold more_tokens in *. cbn [map concat app length node_tokens parse_loop] in *.
    replace (connective_of (match c with C_and => TAnd | C_or => TOr end)) with (Some c) by (by destruct c).
    replace (match conn with Some c' => negb (bool_decide (c' = c)) | None => false end) with false
      by (destruct Hc as [->| ->]; [by rewrite bool_decide_true|done]).
    unfold parseComparison. rewrite bool_decide_true by done. cbn [negb mbind outcome_bind].
    destruct n as [a o v]. cbn [fn_attr fn_op fn_value] in *.
    rewrite extend_join, IH by (first [done | by destruct ns0 | by left | lia]).
    by rewrite <- app_assoc.
Qed.

(** The filter language round-trips.  Every filter that compares allowed
    attributes and joins its comparisons by one connective, printed with its
    values quoted (whatever quotes and backslashes they contain) within the length
    limit, is parsed back to itself. *)
Theorem parse_print_filter c n ns :
  node_ok n -> Forall node_ok ns -> (length (print_filter c n ns) <= SCIM_FILTER_MAX_LENGTH)%nat ->
  parseScimFilter (print_filter c n ns) = Ok (join_nodes c (n :: ns)).
Proof.
  intros Hn Hok Hl. unfold parseScimFilter. rewrite (proj2 (Nat.ltb_ge _ _)) by done.
  unfold print_filter. rewrite tokenise_node, tokenise_more by done.
  cbn [fmap outcome_fmap mbind outcome_bind node_tokens app]. unfold parseExpression, parseComparison.
  rewrite bool_decide_true by done. cbn [negb mbind outcome_bind].
  destruct n as [a o v]. cbn [fn_attr fn_op fn_value] in *.
  set (n := {| fn_attr := a; fn_op := o; fn_value := v |}).
  rewrite (parse_more _ None c [n] ns) by (first [lia | done | by right]). done.
Qed.

Lemma parse_print_filter_witness :
  parseScimFilter (print_filter C_or {| fn_attr := js "userName"; fn_op := Op_sw; fn_value := [97; 34; 92] |}
    [{| fn_attr := js "active"; fn_op := Op_eq; fn_value := js "true" |}])
  = Ok (FOr [FNode {| fn_attr := js "userName"; fn_op := Op_sw; fn_value := [97; 34; 92] |};
             FNode {| fn_attr := js "active"; fn_op := Op_eq; fn_value := js "true" |}]).
Proof.
  apply (parse_print_filter C_or).
  - apply (bool_decide_unpack _). vm_compute. exact I.
  - apply Forall_singleton. apply (bool_decide_unpack _). vm_compute. exact I.
  - vm_compute. lia.
Defined.

(** ** What a filter means *)

Definition text_match (op : ScimFilterOp) (v s : jsstr) : Prop :=
  match op with
  | Op_eq => s = v
  | Op_co => js_includes v s = true
  | Op_sw => js_starts_with v s = true
  end.

Definition external_node (n : ScimFilterNode) : Prop := fn_attr n = js "externalId".

Lemma hasAttribute_join c ns a :
  ns <> [] -> hasAttribute (join_nodes c ns) a = true <-> Exists (fun n => fn_attr n = a) ns.
Proof.
  intros Hne.
  assert (H : existsb (fun e => hasAttribute e a) (map FNode ns) = true <-> Exists (fun n => fn_attr n = a) ns).
  { clear Hne. induction ns as [|n ns IH]; simpl; [by rewrite Exists_nil|].
    rewrite orb_true_iff, IH, Exists_cons, bool_decide_eq_true. done. }
  destruct ns as [|n [|n2 ns]]; [done| |by destruct c].
  simpl. rewrite bool_decide_eq_true, Exists_cons, Exists_nil. tauto.
Qed.

(** The traversal for [externalId] on a list of comparisons. *)
Fixpoint visit_nodes (ns : list ScimFilterNode) (found : option jsstr) : outcome FilterParseError (option jsstr) :=
  match ns with
  | [] => Ok found
  | n :: ns' => f ← visit_external (FNode n) found; visit_nodes ns' f
  end.

Lemma extract_join c ns : ns <> [] -> extractExternalIdValue (join_nodes c ns) = visit_nodes ns None.
Proof.
  intros Hne. unfold extractExternalIdValue.
  assert (H : forall found, visit_external (FAnd (map FNode ns)) found = visit_nodes ns found /\
    visit_external (FOr (map FNode ns)) found = visit_nodes ns found).
  { clear Hne. induction ns as [|n ns IH]; intros found; [done|]. cbn [map visit_nodes].
    change (visit_external (FAnd (FNode n :: map FNode ns)) found)
      with (visit_external (FNode n) found ≫= visit_external (FAnd (map FNode ns))).
    change (visit_external (FOr (FNode n :: map FNode ns)) found)
      with (visit_external (FNode n) found ≫= visit_external (FOr (map FNode ns))).
    destruct (visit_external (FNode n) found) as [f|]; [apply IH|done]. }
  destruct ns as [|n [|n2 ns]]; [done| |by destruct c; apply H].
  simpl. by destruct (negb _).
Qed.

Lemma visit_nodes_spec ns found :
  match visit_nodes ns found with
  | Ok None => found = None /\ Forall (fun n => ~ external_node n) ns
  | Ok (Some v) => (found = Some v \/ found = None /\ Exists external_node ns) /\
      Forall (fun n => external_node n -> fn_value n = v) ns
  | Throw e => e = ConflictingExternalId /\ Exists external_node ns
  end.
Proof.
  revert found. induction ns as [|n ns IH]; intros found; cbn [visit_nodes].
  - destruct found; split; auto.
  - simpl. unfold external_node in *.
    destruct (bool_decide (fn_attr n = js "externalId")) eqn:E; bools; cbn [negb].
    + destruct found as [v|]; cbn [mbind outcome_bind].
      * destruct (bool_decide (v = fn_value n)) eqn:Ev; bools; cbn [negb mbind outcome_bind].
        -- subst v. specialize (IH (Some (fn_value n))). destruct (visit_nodes ns _) as [[v|]|e].
           ++ destruct IH as [[[= <-]|[? ?]] Hf]; [|done]. split; [by left|]. constructor; auto.
           ++ by destruct IH.
           ++ destruct IH as [-> ?]. split; [done|by right].
        -- split; [done|by left].
      * specialize (IH (Some (fn_value n))). destruct (visit_nodes ns _) as [[v|]|e].
        -- destruct IH as [[[= <-]|[? ?]] Hf]; [|done]. split; [right; split; [done|by left]|]. constructor; auto.
        -- by destruct IH.
        -- destruct IH as [-> ?]. split; [done|by right].
    + specialize (IH found). cbn [mbind outcome_bind]. destruct (visit_nodes ns found) as [[v|]|e].
      * destruct IH as [[->|[-> ?]] Hf]; (split; [|constructor; [intros ?; done|done]]); [by left|].
        right. split; [done|by right].
      * destruct IH as [-> ?]. split; [done|by constructor].
      * destruct IH as [-> ?]. split; [done|by right].
Qed.

Section Meaning.
Context (insensitive : ScimFilterOp -> jsstr -> jsstr -> bool).
Context (tenantId : jsstr) (mappings : list external_mapping).

(** [active] compares with "true" whatever the operator; [externalId] is the
    external identifier mapped to the member. *)
Definition node_sat (m : member) (n : ScimFilterNode) : Prop :=
  if decide (fn_attr n = js "active")
  then if decide (fn_value n = js "true") then mb_deactivatedAt m = None else mb_deactivatedAt m <> None
  else if decide (fn_attr n = js "userName")
  then exists e, mb_email m = Some e /\ insensitive (fn_op n) (fn_value n) e = true
  else exists x, x ∈ mappings /\ em_tenantId x = tenantId /\ em_internalId x = mb_userId m /\
         text_match (fn_op n) (fn_value n) (em_externalId x).

Fixpoint filter_sat (m : member) (e : ScimFilterExpression) : Prop :=
  match e with
  | FNode n => node_sat m n
  | FAnd l => (fix go l := match l with [] => True | e :: l' => filter_sat m e /\ go l' end) l
  | FOr l => (fix go l := match l with [] => False | e :: l' => filter_sat m e \/ go l' end) l
  end.

Lemma filter_sat_join m c ns :
  ns <> [] -> filter_sat m (join_nodes c ns) <->
  match c with C_and => Forall (node_sat m) ns | C_or => Exists (node_sat m) ns end.
Proof.
  intros Hne.
  assert (Ha : filter_sat m (FAnd (map FNode ns)) <-> Forall (node_sat m) ns).
  { clear Hne. simpl. induction ns as [|n ns IH]; [by rewrite Forall_nil|]. rewrite Forall_cons, <- IH. done. }
  assert (Ho : filter_sat m (FOr (map FNode ns)) <-> Exists (node_sat m) ns).
  { clear Hne Ha. simpl. induction ns as [|n ns IH]; [by rewrite Exists_nil|]. rewrite Exists_cons, <- IH. done. }
  destruct ns as [|n [|n2 ns]]; [done| |by destruct c].
  destruct c; simpl; [by rewrite Forall_singleton|]. by rewrite Exists_cons, Exists_nil; tauto.
Qed.
End Meaning.

Section Translation.
Context (toLowerCase : jsstr -> jsstr).
Abbreviation filterToPrismaWhere := (filterToPrismaWhere toLowerCase).
Abbreviation comparisonToPrisma := (comparisonToPrisma toLowerCase).

(** The translation of a list of comparisons. *)
Fixpoint translate_nodes (ns : list ScimFilterNode) : outcome FilterParseError (list PrismaWhere) :=
  match ns with
  | [] => Ok []
  | n :: ns' => w ← comparisonToPrisma n; cons w <$> translate_nodes ns'
  end.

Lemma translate_join c ns :
  ns <> [] ->
  filterToPrismaWhere (join_nodes c ns) =
  match ns with
  | [n] => comparisonToPrisma n
  | _ => (match c with C_and => P_AND | C_or => P_OR end) <$> translate_nodes ns
  end.
Proof.
  intros Hne.
  assert (Ha : filterToPrismaWhere (FAnd (map FNode ns)) = P_AND <$> translate_nodes ns).
  { clear Hne. cbn [ScimFilter.filterToPrismaWhere]. f_equal.
    induction ns as [|n ns IH]; [done|]. cbn [map translate_nodes]. by rewrite <- IH. }
  assert (Ho : filterToPrismaWhere (FOr (map FNode ns)) = P_OR <$> translate_nodes ns).
  { clear Hne Ha. cbn [ScimFilter.filterToPrismaWhere]. f_equal.
    induction ns as [|n ns IH]; [done|]. cbn [map translate_nodes]. by rewrite <- IH. }
  destruct ns as [|n [|n2 ns]]; [done|done|]. by destruct c.
Qed.

Lemma comparison_error n e :
  node_ok n -> comparisonToPrisma n = Throw e -> e = OperatorNotSupported /\ external_node n.
Proof.
  unfold node_ok, external_node, ALLOWED_FILTER_ATTRIBUTES, ScimFilter.comparisonToPrisma.
  intros Hn. destruct (bool_decide (fn_attr n = js "active")) eqn:E1; [done|].
  destruct (bool_decide (fn_attr n = js "userName")) eqn:E2; [done|].
  destruct (bool_decide (fn_attr n = js "externalId")) eqn:E3; bools.
  - destruct (fn_op n); [done|intros [= <-]; by split..].
  - rewrite !elem_of_cons, elem_of_nil in Hn. naive_solver.
Qed.

Lemma translate_error ns e :
  Forall node_ok ns -> translate_nodes ns = Throw e -> e = OperatorNotSupported /\ Exists external_node ns.
Proof.
  induction 1 as [|n ns Hn _ IH]; cbn [translate_nodes]; [done|].
  destruct (comparisonToPrisma n) as [w|e'] eqn:E; cbn [mbind outcome_bind].
  - destruct (translate_nodes ns); [done|]. intros [= ->]. destruct IH as [-> ?]; [done|]. split; [done|by right].
  - intros [= ->]. apply comparison_error in E as [-> ?]; [|done]. split; [done|by left].
Qed.
End Translation.

Section Agreement.
Context (toLowerCase : jsstr -> jsstr) (insensitive : ScimFilterOp -> jsstr -> jsstr -> bool).
Context (tenantId : jsstr) (mappings : list external_mapping).
Abbreviation filterToPrismaWhere := (filterToPrismaWhere toLowerCase).
Abbreviation comparisonToPrisma := (comparisonToPrisma toLowerCase).
Abbreviation translate_nodes := (translate_nodes toLowerCase).
Abbreviation eval_where := (eval_where insensitive).
Abbreviation node_sat := (node_sat insensitive tenantId mappings).
Abbreviation filter_sat := (filter_sat insensitive tenantId mappings).

(** A comparison and its clause agree on a member, once [externalId] has been
    resolved. *)
Definition resolved (m : member) (n : ScimFilterNode) : Prop :=
  external_node n -> fn_op n = Op_eq -> node_sat m n.

Lemma comparison_sat m n w :
  (forall op v e, insensitive op (toLowerCase v) e = insensitive op v e) ->
  resolved m n -> comparisonToPrisma n = Ok w -> eval_where w m = true <-> node_sat m n.
Proof.
  intros Hci Hres. unfold ScimFilter.comparisonToPrisma.
  destruct (bool_decide (fn_attr n = js "active")) eqn:E1; bools.
  { intros [= <-]. unfold ScimFilter.node_sat. rewrite decide_True by done.
    destruct (bool_decide (fn_value n = js "true")) eqn:E; bools.
    - rewrite decide_True by done. simpl. apply bool_decide_eq_true.
    - rewrite decide_False by done. simpl. rewrite negb_true_iff. apply bool_decide_eq_false. }
  destruct (bool_decide (fn_attr n = js "userName")) eqn:E2; bools.
  { intros [= <-]. unfold ScimFilter.node_sat. rewrite decide_False, decide_True by done. simpl.
    destruct (mb_email m) as [e|]; [rewrite Hci|]; naive_solver. }
  destruct (bool_decide (fn_attr n = js "externalId")) eqn:E3; bools; [|done].
  destruct (fn_op n) eqn:Eo; [|done..]. intros [= <-]. split; [|done]. intros _. by apply Hres.
Qed.

Lemma translate_sat m ns ws :
  (forall op v e, insensitive op (toLowerCase v) e = insensitive op v e) ->
  Forall (resolved m) ns -> translate_nodes ns = Ok ws ->
  (forallb (fun w => eval_where w m) ws = true <-> Forall (node_sat m) ns) /\
  (existsb (fun w => eval_where w m) ws = true <-> Exists (node_sat m) ns).
Proof.
  intros Hci Hres. revert ws. induction Hres as [|n ns Hn _ IH]; intros ws; cbn [translate_nodes].
  - intros [= <-]. simpl. by rewrite Forall_nil, Exists_nil.
  - destruct (comparisonToPrisma n) as [w|] eqn:E; [|done]. cbn [mbind outcome_bind].
    destruct (translate_nodes ns) as [ws'|]; [|done]. intros [= <-]. cbn [forallb existsb].
    destruct (IH ws' eq_refl) as [H1 H2]. pose proof (comparison_sat m n w Hci Hn E) as Hw.
    rewrite andb_true_iff, orb_true_iff, Forall_cons, Exists_cons, Hw, H1, H2. done.
Qed.

Lemma filter_where_sat m c ns w :
  (forall op v e, insensitive op (toLowerCase v) e = insensitive op v e) ->
  ns <> [] -> Forall (resolved m) ns -> filterToPrismaWhere (join_nodes c ns) = Ok w ->
  eval_where w m = true <-> filter_sat m (join_nodes c ns).
Proof.
  intros Hci Hne Hres. rewrite translate_join, filter_sat_join by done.
  destruct ns as [|n [|n2 ns]]; [done| |].
  - intros E. rewrite Forall_singleton in Hres. rewrite (comparison_sat m n w Hci Hres E).
    destruct c; [by rewrite Forall_singleton|]. rewrite Exists_cons, Exists_nil. tauto.
  - destruct (translate_nodes (n :: n2 :: ns)) as [ws|] eqn:E; [|by destruct c].
    destruct (translate_sat m _ _ Hci Hres E) as [H1 H2]. destruct c; intros [= <-]; done.
Qed.
End Agreement.

Lemma query_matches_eq insensitive t u w m :
  query_matches insensitive {| mq_tenantId := t; mq_userId := u; mq_where := Some w |} m = true <->
  mb_tenantId m = t /\ (forall x, u = Some x -> mb_userId m = x) /\ mb_email m <> None /\
  eval_where insensitive w m = true.
Proof.
  unfold query_matches. cbn [mq_tenantId mq_userId mq_where].
  assert (Hw : match w with P_email op v => eval_where insensitive (P_email op v) m
               | _ => negb (bool_decide (mb_email m = None)) && eval_where insensitive w m end = true <->
               mb_email m <> None /\ eval_where insensitive w m = true).
  { destruct w; rewrite ?andb_true_iff, ?negb_true_iff, ?bool_decide_eq_false; try done.
    simpl. destruct (mb_email m); naive_solver. }
  rewrite !andb_true_iff, bool_decide_eq_true. rewrite <- Hw.
  assert (Hu : match u with Some u0 => bool_decide (mb_userId m = u0) | None => true end = true <->
               forall x, u = Some x -> mb_userId m = x).
  { destruct u; [rewrite bool_decide_eq_true|]; naive_solver. }
  rewrite Hu. destruct w; tauto.
Qed.


(** Two rows of the mapping table with one tenant and external identifier are
    one row (its unique index). *)
Definition mappings_unique (mappings : list external_mapping) : Prop :=
  forall x y, x ∈ mappings -> y ∈ mappings -> em_tenantId x = em_tenantId y ->
    em_externalId x = em_externalId y -> x = y.

(** Every comparison of [externalId] is an equality. *)
Fixpoint external_eq (e : ScimFilterExpression) : bool :=
  match e with
  | FNode n => negb (fn_attr n =s js "externalId") || bool_decide (fn_op n = Op_eq)
  | FAnd l | FOr l => forallb external_eq l
  end.

Lemma external_eq_join c ns :
  external_eq (join_nodes c ns) = true -> Forall (fun n => external_node n -> fn_op n = Op_eq) ns.
Proof.
  assert (H : forallb external_eq (map FNode ns) = true -> Forall (fun n => external_node n -> fn_op n = Op_eq) ns).
  { induction ns as [|n ns IH]; simpl; [by constructor|]. intros [H1 H2]%andb_true_iff.
    constructor; [|auto]. unfold external_node. intros Hn. apply orb_true_iff in H1 as [H1|H1]; by bools. }
  destruct ns as [|n [|n2 ns]]; [by constructor| |by destruct c].
  intros H1. apply H. simpl in *. by rewrite andb_true_r.
Qed.

Section Query.
Context (toLowerCase : jsstr -> jsstr) (insensitive : ScimFilterOp -> jsstr -> jsstr -> bool).
Context (case_insensitive : forall op v e, insensitive op (toLowerCase v) e = insensitive op v e).
Context (tenantId : jsstr) (mappings : list external_mapping).
Context (unique_index : mappings_unique mappings).
Abbreviation filterToPrismaWhere := (filterToPrismaWhere toLowerCase).
Abbreviation filter_sat := (filter_sat insensitive tenantId mappings).
Abbreviation node_sat := (node_sat insensitive tenantId mappings).

Lemma sat_forall m c ns :
  ns <> [] -> (forall l, join_nodes c ns <> FOr l) ->
  filter_sat m (join_nodes c ns) <-> Forall (node_sat m) ns.
Proof.
  intros Hne Hor. rewrite filter_sat_join by done. destruct c; [done|].
  destruct ns as [|n [|n2 ns]]; [done| |by destruct (Hor (map FNode (n :: n2 :: ns)))].
  rewrite Forall_singleton, Exists_cons, Exists_nil. tauto.
Qed.

Lemma translate_ok_eq c ns w :
  ns <> [] -> filterToPrismaWhere (join_nodes c ns) = Ok w ->
  Forall (fun n => external_node n -> fn_op n = Op_eq) ns.
Proof.
  intros Hne. rewrite translate_join by done.
  assert (Hn : forall n w, comparisonToPrisma toLowerCase n = Ok w -> external_node n -> fn_op n = Op_eq).
  { intros n w' H Hx. unfold comparisonToPrisma in H. rewrite Hx in H. by destruct (fn_op n). }
  assert (Hns : forall ns ws, translate_nodes toLowerCase ns = Ok ws ->
    Forall (fun n => external_node n -> fn_op n = Op_eq) ns).
  { clear -Hn. induction ns as [|n ns IH]; intros ws; [by constructor|]. cbn [translate_nodes].
    destruct (comparisonToPrisma _ n) eqn:E; [|done]. cbn [mbind outcome_bind].
    destruct (translate_nodes _ ns) eqn:E'; [|done]. intros _. constructor; eauto. }
  destruct ns as [|n [|n2 ns]]; [done|intros H; apply Forall_singleton; eauto|].
  destruct (translate_nodes _ (n :: n2 :: ns)) eqn:E; [eauto|by destruct c].
Qed.

Lemma external_sat m n :
  external_node n -> fn_op n = Op_eq -> node_sat m n <->
  exists x, x ∈ mappings /\ em_tenantId x = tenantId /\ em_internalId x = mb_userId m /\
    em_externalId x = fn_value n.
Proof. intros Hn Ho. unfold ScimFilter.node_sat. rewrite !Hn, Ho. done. Qed.

(** [externalId] resolved to a mapping: the query pins its user. *)
Lemma query_resolved c ns w x m :
  ns <> [] -> (forall l, join_nodes c ns <> FOr l) -> Exists external_node ns ->
  Forall (fun n => external_node n -> fn_value n = em_externalId x) ns ->
  x ∈ mappings -> em_tenantId x = tenantId -> filterToPrismaWhere (join_nodes c ns) = Ok w ->
  query_matches insensitive
    {| mq_tenantId := tenantId; mq_userId := Some (em_internalId x); mq_where := Some w |} m = true <->
  mb_tenantId m = tenantId /\ mb_email m <> None /\ filter_sat m (join_nodes c ns).
Proof using Type case_insensitive unique_index.
  intros Hne Hor Hex Hval Hx Ht Hw. rewrite query_matches_eq.
  pose proof (translate_ok_eq _ _ _ Hne Hw) as Hops.
  assert (Hres : mb_userId m = em_internalId x -> Forall (resolved insensitive tenantId mappings m) ns).
  { intros Hu. eapply Forall_impl; [exact Hval|]. intros n Hv Hn Ho. apply external_sat; [done..|].
    exists x. rewrite Hv by done. by rewrite Hu. }
  assert (Huser : filter_sat m (join_nodes c ns) -> mb_userId m = em_internalId x).
  { rewrite sat_forall by done. intros Hall. apply Exists_exists in Hex as (n & Hin & Hn).
    rewrite Forall_forall in Hall, Hval, Hops.
    destruct (proj1 (external_sat m n Hn (Hops _ Hin Hn)) (Hall _ Hin)) as (y & Hy & Hyt & Hyi & Hye).
    assert (y = x) as -> by (apply unique_index; [done..|congruence|rewrite Hye; by apply Hval]). done. }
  split.
  - intros (? & Hu & ? & Hev). split_and!; [done..|].
    eapply filter_where_sat; [done|done|by apply Hres, Hu|done|done].
  - intros (? & ? & Hsat). split_and!; [done| |done|].
    + intros ? [= <-]. by apply Huser.
    + eapply filter_where_sat; [done|done|by apply Hres, Huser|done|done].
Qed.

Lemma no_mapping_unsat c ns v m :
  ns <> [] -> (forall l, join_nodes c ns <> FOr l) -> Exists external_node ns ->
  Forall (fun n => external_node n -> fn_value n = v) ns ->
  (forall x, x ∈ mappings -> em_tenantId x = tenantId -> em_externalId x <> v) ->
  external_eq (join_nodes c ns) = true -> ~ filter_sat m (join_nodes c ns).
Proof.
  intros Hne Hor Hex Hval Hno Heq%external_eq_join. rewrite sat_forall by done. intros Hall.
  apply Exists_exists in Hex as (n & Hin & Hn). rewrite Forall_forall in Hall, Hval, Heq.
  destruct (proj1 (external_sat m n Hn (Heq _ Hin Hn)) (Hall _ Hin)) as (y & Hy & Hyt & _ & Hye).
  apply (Hno y Hy Hyt). rewrite Hye. by apply Hval.
Qed.

Lemma query_plain c ns w m :
  ns <> [] -> Forall (fun n => ~ external_node n) ns -> filterToPrismaWhere (join_nodes c ns) = Ok w ->
  query_matches insensitive {| mq_tenantId := tenantId; mq_userId := None; mq_where := Some w |} m = true <->
  mb_tenantId m = tenantId /\ mb_email m <> None /\ filter_sat m (join_nodes c ns).
Proof using Type case_insensitive.
  intros Hne Hno Hw. rewrite query_matches_eq.
  rewrite (filter_where_sat toLowerCase insensitive tenantId mappings m c ns w); [naive_solver|done|done| |done].
  eapply Forall_impl; [exact Hno|]. intros n Hn Hx. by destruct Hn.
Qed.

Lemma translation_error c ns e :
  ns <> [] -> Forall node_ok ns -> filterToPrismaWhere (join_nodes c ns) = Throw e ->
  e = OperatorNotSupported /\ Exists external_node ns.
Proof.
  intros Hne Hok He. rewrite translate_join in He by done.
  destruct ns as [|n [|n2 ns]]; [done| |].
  - rewrite Forall_singleton in Hok. apply comparison_error in He as [-> ?]; [|done]. split; [done|by left].
  - destruct (translate_nodes _ (n :: n2 :: ns)) eqn:E; [by destruct c|].
    eapply translate_error; [done|]. rewrite E. by destruct c; simplify_eq/=.
Qed.
End Query.

(** C39: the list handler answers the filter.  For an accepted filter the handler
    either queries exactly the tenant's members with an e-mail address that
    satisfy it (case-insensitively on [userName], through the mapping table on
    [externalId]); or answers the empty list, which it does only when the filter
    names one [externalId] value that no mapping of the tenant has, and then nobody
    satisfies the filter if all its [externalId] comparisons are equalities (one with
    another operator gets here before its error, whoever satisfies it:
    [external_prefix_answers_empty]); or refuses it: with an error only for
    conflicting or non-equality comparisons of [externalId], and for [externalId] in
    a disjunction.  (The database matches e-mail addresses regardless of case, and the
    mappings have their unique index.) *)
Theorem scim_query_exact toLowerCase insensitive tenantId mappings f ast :
  (forall op v e, insensitive op (toLowerCase v) e = insensitive op v e) ->
  mappings_unique mappings -> parseScimFilter f = Ok ast ->
  match scim_users_query toLowerCase tenantId mappings (Some f) with
  | ListQuery q => forall m, query_matches insensitive q m = true <->
      mb_tenantId m = tenantId /\ mb_email m <> None /\ filter_sat insensitive tenantId mappings m ast
  | ListEmpty => hasAttribute ast (js "externalId") = true /\
      (exists v, extractExternalIdValue ast = Ok (Some v) /\
         forall x, x ∈ mappings -> em_tenantId x = tenantId -> em_externalId x <> v) /\
      (external_eq ast = true -> forall m, ~ filter_sat insensitive tenantId mappings m ast)
  | ExternalIdInOr => hasAttribute ast (js "externalId") = true /\ exists l, ast = FOr l
  | ListError e => hasAttribute ast (js "externalId") = true /\
      (e = ConflictingExternalId \/ e = OperatorNotSupported)
  end.
Proof.
  intros Hci Huniq Hp. destruct (parse_shape _ _ Hp) as (c & ns & -> & Hne & Hok).
  assert (Hf : f <> []) by (by intros ->). unfold scim_users_query.
  destruct f as [|u f]; [done|]. rewrite Hp, !extract_join by done.
  assert (Hhas : Exists external_node ns -> hasAttribute (join_nodes c ns) (js "externalId") = true)
    by by rewrite hasAttribute_join.
  assert (Herr : forall e, filterToPrismaWhere toLowerCase (join_nodes c ns) = Throw e ->
    hasAttribute (join_nodes c ns) (js "externalId") = true /\
    (e = ConflictingExternalId \/ e = OperatorNotSupported)).
  { intros e He. apply translation_error in He as [-> ?]; auto. }
  pose proof (visit_nodes_spec ns None) as Hv. destruct (visit_nodes ns None) as [[v|]|e].
  - destruct Hv as [[?|[_ Hex]] Hval]; [done|].
    assert (Hcase : (exists l, join_nodes c ns = FOr l) \/ forall l, join_nodes c ns <> FOr l)
      by (destruct (join_nodes c ns); [by right..|left; eauto]).
    destruct Hcase as [[l Hl]|Hor]; [rewrite Hl in *; split; [by apply Hhas|by eauto]|].
    replace (match join_nodes c ns with FOr _ => _ | _ => _ end) with
      (match List.find (fun m => (em_tenantId m =s tenantId) && (em_externalId m =s v)) mappings with
       | None => ListEmpty
       | Some m => match filterToPrismaWhere toLowerCase (join_nodes c ns) with
                   | Throw e => ListError e
                   | Ok w => ListQuery {| mq_tenantId := tenantId; mq_userId := Some (em_internalId m);
                                          mq_where := Some w |}
                   end
       end) by (destruct (join_nodes c ns); [done..|by destruct (Hor l)]).
    destruct (List.find _ mappings) as [x|] eqn:Ef.
    + apply find_some in Ef as [Hx Hm]. apply list_elem_of_In in Hx. bools. subst v.
      destruct (filterToPrismaWhere _ _) as [w|e] eqn:Ew; [|by apply Herr].
      intros m. by apply (query_resolved toLowerCase).
    + assert (Hnone : forall x, x ∈ mappings -> em_tenantId x = tenantId -> em_externalId x <> v).
      { intros x Hx Ht Hv. apply list_elem_of_In in Hx. pose proof (find_none _ _ Ef _ Hx) as Hn.
        simpl in Hn. by rewrite !bool_decide_true in Hn by done. }
      split; [by apply Hhas|]. split; [by exists v|]. intros Heq m. by eapply no_mapping_unsat.
  - destruct Hv as [_ Hno]. destruct (filterToPrismaWhere _ _) as [w|e] eqn:Ew; [|by apply Herr].
    intros m. by apply (query_plain toLowerCase).
  - destruct Hv as [-> ?]. split; [by apply Hhas|by left].
Qed.

Definition demo_insensitive (op : ScimFilterOp) (v e : jsstr) : bool :=
  match op with
  | Op_eq => js_to_lower e =s js_to_lower v
  | Op_co => js_includes (js_to_lower v) (js_to_lower e)
  | Op_sw => js_starts_with (js_to_lower v) (js_to_lower e)
  end.
Definition demo_mappings : list external_mapping :=
  [{| em_tenantId := js "T"; em_externalId := js "x1"; em_internalId := js "u1" |}].
Definition demo_member : member :=
  {| mb_tenantId := js "T"; mb_userId := js "u1"; mb_email := Some (js "Ann@example.org");
     mb_deactivatedAt := None |}.
Definition demo_nodes : list ScimFilterNode :=
  [{| fn_attr := js "externalId"; fn_op := Op_eq; fn_value := js "x1" |};
   {| fn_attr := js "userName"; fn_op := Op_sw; fn_value := js "ANN@" |}].
Definition demo_filter : jsstr :=
  print_filter C_and {| fn_attr := js "externalId"; fn_op := Op_eq; fn_value := js "x1" |}
    [{| fn_attr := js "userName"; fn_op := Op_sw; fn_value := js "ANN@" |}].
Definition demo_query : member_query :=
  {| mq_tenantId := js "T"; mq_userId := Some (js "u1");
     mq_where := Some (P_AND [P_any; P_email Op_sw (js "ann@")]) |}.

Lemma js_to_lower_idem s : js_to_lower (js_to_lower s) = js_to_lower s.
Proof.
  unfold js_to_lower. rewrite map_map. apply map_ext. intros c. unfold lower_unit.
  destruct ((65 <=? c) && (c <=? 90)) eqn:E; [|by rewrite E]. bools.
  destruct ((65 <=? c + 32) && (c + 32 <=? 90)) eqn:E; bools; lia.
Qed.

Lemma scim_query_exact_witness :
  filter_sat demo_insensitive (js "T") demo_mappings demo_member (FAnd (map FNode demo_nodes)).
Proof.
  assert (Hci : forall op v e, demo_insensitive op (js_to_lower v) e = demo_insensitive op v e).
  { intros op v e. unfold demo_insensitive. by rewrite js_to_lower_idem. }
  assert (Hu : mappings_unique demo_mappings).
  { intros x y Hx Hy. apply list_elem_of_singleton in Hx, Hy. by subst. }
  pose proof (scim_query_exact js_to_lower demo_insensitive (js "T") demo_mappings demo_filter
    (FAnd (map FNode demo_nodes)) Hci Hu ltac:(vm_compute; reflexivity)) as H.
  assert (E : scim_users_query js_to_lower (js "T") demo_mappings (Some demo_filter) = ListQuery demo_query)
    by (vm_compute; reflexivity).
  rewrite E in H. apply (H demo_member). vm_compute. reflexivity.
Defined.

(** A prefix comparison of [externalId] that a member satisfies is answered with the
    empty list, not with the error for its operator, unless the prefix is itself the
    identifier of a mapping. *)
Lemma external_prefix_answers_empty :
  let n := {| fn_attr := js "externalId"; fn_op := Op_sw; fn_value := js "x" |} in
  parseScimFilter (print_filter C_and n []) = Ok (FNode n) /\
  filter_sat demo_insensitive (js "T") demo_mappings demo_member (FNode n) /\
  scim_users_query js_to_lower (js "T") demo_mappings (Some (print_filter C_and n [])) = ListEmpty /\
  filterToPrismaWhere js_to_lower (FNode n) = Throw OperatorNotSupported.
Proof.
  intros n. split; [vm_compute; reflexivity|]. split; [|split; vm_compute; reflexivity].
  eexists. split; [apply list_elem_of_here|]. split_and!; vm_compute; reflexivity.
Qed.

(** C40: The parser returns on every text: the loops of the tokeniser and of the
    expression parser each consume input, so that it ends with an expression over
    the allowed attributes or with one of the errors of the source. *)
Theorem parseScimFilter_terminates filter :
  (exists e, parseScimFilter filter = Ok e) \/
  exists err, parseScimFilter filter = Throw err /\ err <> OutOfFuel.
Proof.
  assert (H : parseScimFilter filter <> Throw OutOfFuel); [|destruct (parseScimFilter filter); naive_solver].
  unfold parseScimFilter. destruct (_ <? _)%nat; [done|].
  pose proof (tokenise_total filter) as Ht. destruct (tokenise filter) as [ts|e]; [|naive_solver].
  cbn [mbind outcome_bind]. destruct ts as [|t ts]; [done|]. unfold parseExpression.
  destruct (parseComparison (t :: ts)) as [[n rest]|e] eqn:E; cbn [mbind outcome_bind].
  - pose proof (parse_loop_total (S (length rest)) None (FNode n) rest (Nat.lt_succ_diag_r _)) as Hp.
    destruct (parse_loop _ _ _ _) as [[r [|? ?]]|e]; cbn; naive_solver.
  - intros [= ->]. unfold parseComparison in E. repeat case_match; simplify_eq.
Qed.
