(* ===== verification/TagTree.v ===== *)
(** * The tag hierarchy

    src/src/lib/format/tag-tree.ts (validation of a parent change, construction
    and flattening of the tree, descendants, paths) and the parent update of the handlers in
    src/src/app/api/tags/.  The walk to the root and the recursion over
    descendants run on fuel above the number of tags: [walk_up_total] shows that
    this is enough for the walk on any list, [maxDepth_total] for the recursion on
    a forest; on a cycle the recursion of the code does not return either.
    The authentication and the parsing of the request body come before the
    handlers; parent identifiers have passed the uuid check of the schema. *)

From S2P Require Import Prelude JsString JsMap.
Local Open Scope Z_scope.
#[local] Set Warnings "-register-all".
#[local] Set Default Proof Using "Type".

Definition TAG_TREE_MAX_DEPTH : Z := 3.

Record FlatTag := { ft_id : jsstr; ft_name : jsstr; ft_color : option jsstr; ft_parentId : option jsstr }.

(** [t.parentId] when it is truthy. *)
Definition parent_of (t : FlatTag) : option jsstr :=
  match ft_parentId t with Some (c :: r) => Some (c :: r) | _ => None end.

(** [new Map(tags.map((t) => [t.id, t]))] *)
Definition byId (tags : list FlatTag) : jsmap FlatTag :=
  fold_left (fun m t => map_set m (ft_id t) t) tags [].

(** [childrenOf.get(id) ?? []] *)
Definition childrenOf (tags : list FlatTag) (id : jsstr) : list FlatTag :=
  List.filter (fun t => bool_decide (parent_of t = Some id)) tags.

(** ** Validation of a parent *)

Inductive TagTreeError := ParentNotFound | CircularReference | MaxDepthExceeded | StackOverflow.

(** The loop of [validateParentChain]; [None] is an exhausted fuel. *)
Fixpoint walk_up (fuel : nat) (tags : list FlatTag) (tagId current : option jsstr)
    (visited : list jsstr) (depth : Z) : option (outcome TagTreeError Z) :=
  match fuel with
  | O => None
  | S fuel' =>
      match current with
      | None | Some [] => Some (Ok depth)
      | Some cur =>
          if bool_decide (tagId = Some cur) then Some (Throw CircularReference)
          else if bool_decide (cur ∈ visited) then Some (Throw CircularReference)
          else walk_up fuel' tags tagId (map_get (byId tags) cur ≫= ft_parentId)
                 (cur :: visited) (depth + 1)
      end
  end.

(** [None]: the recursion does not return. *)
Fixpoint maxDepth (fuel : nat) (tags : list FlatTag) (id : jsstr) : option Z :=
  match fuel with
  | O => None
  | S fuel' =>
      match childrenOf tags id with
      | [] => Some 1
      | cs => (fun hs => 1 + foldr Z.max 0 hs) <$> mapM (fun c => maxDepth fuel' tags (ft_id c)) cs
      end
  end.

Definition getMaxDescendantDepth (tagId : jsstr) (allTags : list FlatTag) : option Z :=
  maxDepth (S (length allTags)) allTags tagId.

Definition validateParentChain (tagId newParentId : option jsstr) (allTags : list FlatTag)
    : outcome TagTreeError () :=
  match newParentId with
  | None | Some [] => Ok ()
  | Some p =>
      if negb (map_has (byId allTags) p) then Throw ParentNotFound
      else match walk_up (S (S (length allTags))) allTags tagId (Some p) [] 1 with
           | None => Throw StackOverflow
           | Some (Throw e) => Throw e
           | Some (Ok depth) =>
               match tagId with
               | Some (c :: r) =>
                   match getMaxDescendantDepth (c :: r) allTags with
                   | None => Throw StackOverflow
                   | Some h => if TAG_TREE_MAX_DEPTH <? depth + h - 1 then Throw MaxDepthExceeded else Ok ()
                   end
               | _ => if TAG_TREE_MAX_DEPTH <? depth then Throw MaxDepthExceeded else Ok ()
               end
           end
  end.

(** ** Construction of the tree *)

Inductive TagTreeNode := Node (tag : FlatTag) (depth : Z) (children : list TagTreeNode).

Section Build.
(** [a.name.localeCompare(b.name)] *)
Context (localeCompare : jsstr -> jsstr -> Z).

Fixpoint insert_sorted (t : FlatTag) (l : list FlatTag) : list FlatTag :=
  match l with
  | [] => [t]
  | u :: l' => if localeCompare (ft_name t) (ft_name u) <? 0 then t :: l else u :: insert_sorted t l'
  end.
(** [Array.prototype.sort] is stable. *)
Definition sort_tags (l : list FlatTag) : list FlatTag := fold_left (fun acc t => insert_sorted t acc) l [].

(** Nodes point to their children; those of a root are reached within as many
    steps as there are tags. *)
Fixpoint subtree (fuel : nat) (nodes : list FlatTag) (t : FlatTag) (depth : Z) : TagTreeNode :=
  Node t depth
    match fuel with
    | O => []
    | S fuel' => map (fun c => subtree fuel' nodes c (depth + 1)) (sort_tags (childrenOf nodes (ft_id t)))
    end.

Definition buildTagTree (flatTags : list FlatTag) : list TagTreeNode :=
  let nodes := map snd (byId flatTags) in
  let roots := List.filter (fun t => match parent_of t with
                                     | Some p => negb (map_has (byId flatTags) p)
                                     | None => true
                                     end) nodes in
  map (fun t => subtree (length nodes) nodes t 0) (sort_tags roots).
End Build.

Fixpoint flatten_node (n : TagTreeNode) : list (FlatTag * Z) :=
  match n with Node t d cs => (t, d) :: concat (map flatten_node cs) end.
Definition flattenTagTree (tree : list TagTreeNode) : list (FlatTag * Z) := concat (map flatten_node tree).

(** ** Descendants and paths *)

(** The inner [find], depth first. *)
Fixpoint find_node (tagId : jsstr) (n : TagTreeNode) : option TagTreeNode :=
  match n with
  | Node t d cs =>
      if ft_id t =s tagId then Some n
      else fold_right (fun c found => match find_node tagId c with Some m => Some m | None => found end) None cs
  end.

Definition collectDescendantIds (tree : list TagTreeNode) (tagId : jsstr) : list jsstr :=
  match fold_right (fun c found => match find_node tagId c with Some m => Some m | None => found end) None tree with
  | Some target => map (fun td => ft_id td.1) (flatten_node target)
  | None => []
  end.

(** The loop of [buildTagPathWithMap]; [None] is an exhausted fuel. *)
Fixpoint path_parts (fuel : nat) (byId : jsmap FlatTag) (currentId : option jsstr)
    (visited parts : list jsstr) : option (list jsstr) :=
  match fuel with
  | O => None
  | S fuel' =>
      match currentId with
      | None | Some [] => Some parts
      | Some cur =>
          if bool_decide (cur ∈ visited) then Some parts
          else match map_get byId cur with
               | None => Some parts
               | Some parent => path_parts fuel' byId (ft_parentId parent) (cur :: visited) (ft_name parent :: parts)
               end
      end
  end.

(** [null], a path, or no return. *)
Definition buildTagPath (tagId : jsstr) (tags : list FlatTag) : option (option jsstr) :=
  match map_get (byId tags) tagId with
  | None => Some None
  | Some tag =>
      (fun parts => Some (js_join (js " / ") parts)) <$>
      path_parts (S (S (length tags))) (byId tags) (ft_parentId tag) [tagId] [ft_name tag]
  end.

(** ** The handlers

    The lists are the tags of the session's user; each read of a handler may see
    an earlier list than its write. *)

Inductive tag_throw := TagRangeError | TagRecordMissing | TagUnique | TagForeignKey | TagBadUuid.
Inductive tag_response := TagNotFound | TagInvalid (e : TagTreeError) | TagExists | TagSaved | TagDeleted.

(** A validation error is answered, a stack overflow is rethrown. *)
Definition on_tree_error (e : TagTreeError) : outcome tag_throw tag_response :=
  match e with StackOverflow => Throw TagRangeError | _ => Ok (TagInvalid e) end.

Definition find_tag (id : jsstr) (tags : list FlatTag) : option FlatTag :=
  List.find (fun t => ft_id t =s id) tags.

(** The unique index on name, parent and user; null parents are distinct. *)
Definition violates_unique (t : FlatTag) (tags : list FlatTag) : bool :=
  match ft_parentId t with
  | None => false
  | Some p => existsb (fun u => negb (ft_id u =s ft_id t) && (ft_name u =s ft_name t)
                                && bool_decide (ft_parentId u = Some p)) tags
  end.

(** The foreign key of the parent. *)
Definition violates_parent (parentId : option jsstr) (tags : list FlatTag) : bool :=
  match parentId with Some p => negb (bool_decide (is_Some (find_tag p tags))) | None => false end.

Definition update_tag (t : FlatTag) (tags : list FlatTag) : list FlatTag :=
  map (fun u => if ft_id u =s ft_id t then t else u) tags.

Record tag_update := {
  tu_name : option jsstr; tu_color : option (option jsstr); tu_parentId : option (option jsstr) }.

(** [color || null] *)
Definition color_or_null (c : option jsstr) : option jsstr :=
  match c with Some (x :: r) => Some (x :: r) | _ => None end.

Section Handlers.
(** The text the database gives back for the uuid that a string denotes; [None]
    when it denotes none.  The uuid columns compare after this conversion. *)
Context (dbUuid : jsstr -> option jsstr).

(** PUT /api/tags/[id]: [r0], [r1] and [r2] are what the reads of the existing
    tag, of all tags and of a duplicate see. *)
Definition put_tag (id : jsstr) (u : tag_update) (r0 r1 r2 now : list FlatTag)
    : list FlatTag * outcome tag_throw tag_response :=
  match dbUuid id with
  | None => (now, Throw TagBadUuid)
  | Some key =>
  match find_tag key r0 with
  | None => (now, Ok TagNotFound)
  | Some existing =>
      let checked :=
        match tu_parentId u with
        | Some (Some p) => validateParentChain (Some id) (Some p) r1
        | _ => Ok ()
        end in
      match checked with
      | Throw e => (now, on_tree_error e)
      | Ok _ =>
          let effectiveName := default (ft_name existing) (tu_name u) in
          let effectiveParentId := default (ft_parentId existing) (tu_parentId u) in
          let changed := negb (effectiveName =s ft_name existing)
                         || negb (bool_decide (effectiveParentId = ft_parentId existing)) in
          let duplicate := existsb (fun t => negb (ft_id t =s key) && (ft_name t =s effectiveName)
                                     && bool_decide (ft_parentId t = effectiveParentId)) r2 in
          if changed && duplicate then (now, Ok TagExists)
          else match find_tag key now with
               | None => (now, Throw TagRecordMissing)
               | Some cur =>
                   let t := {| ft_id := key; ft_name := default (ft_name cur) (tu_name u);
                               ft_color := match tu_color u with
                                           | Some c => color_or_null c
                                           | None => ft_color cur
                                           end;
                               ft_parentId := default (ft_parentId cur) (tu_parentId u) |} in
                   if violates_unique t now then (now, Ok TagExists)
                   else if violates_parent (default None (tu_parentId u)) now
                   then (now, Throw TagForeignKey)
                   else (update_tag t now, Ok TagSaved)
               end
      end
  end
  end.

(** POST /api/tags: [id] is the generated identifier. *)
Definition post_tag (id name : jsstr) (color parentId : option jsstr) (r0 r1 now : list FlatTag)
    : list FlatTag * outcome tag_throw tag_response :=
  match validateParentChain None parentId r0 with
  | Throw e => (now, on_tree_error e)
  | Ok _ =>
      if existsb (fun t => (ft_name t =s name) && bool_decide (ft_parentId t = parentId)) r1
      then (now, Ok TagExists)
      else
        let t := {| ft_id := id; ft_name := name; ft_color := color_or_null color;
                    ft_parentId := parentId |} in
        match find_tag id now with
        | Some _ => (now, Throw TagUnique)
        | None => if violates_unique t now then (now, Throw TagUnique)
                  else if violates_parent parentId now then (now, Throw TagForeignKey)
                  else (now ++ [t], Ok TagSaved)
        end
  end.

(** [onDelete: SetNull] *)
Definition delete_row (key : jsstr) (tags : list FlatTag) : list FlatTag :=
  map (fun t => if bool_decide (ft_parentId t = Some key)
                then {| ft_id := ft_id t; ft_name := ft_name t; ft_color := ft_color t; ft_parentId := None |}
                else t)
    (List.filter (fun t => negb (ft_id t =s key)) tags).

(** DELETE /api/tags/[id] *)
Definition delete_tag (id : jsstr) (r0 now : list FlatTag)
    : list FlatTag * outcome tag_throw tag_response :=
  match dbUuid id with
  | None => (now, Throw TagBadUuid)
  | Some key =>
      match find_tag key r0 with
      | None => (now, Ok TagNotFound)
      | Some _ =>
          match find_tag key now with
          | None => (now, Throw TagRecordMissing)
          | Some _ => (delete_row key now, Ok TagDeleted)
          end
      end
  end.

(** A request whose reads all see the list it writes to. *)
Inductive tag_request :=
| PutTag (id : jsstr) (u : tag_update)
| PostTag (id name : jsstr) (color parentId : option jsstr)
| DeleteTag (id : jsstr).

Definition serve_tag (tags : list FlatTag) (r : tag_request) : list FlatTag :=
  match r with
  | PutTag id u => (put_tag id u tags tags tags tags).1
  | PostTag id name color parentId => (post_tag id name color parentId tags tags tags).1
  | DeleteTag id => (delete_tag id tags tags).1
  end.

(** Path identifiers are written as the database writes them, and generated
    ones are not empty. *)
Definition canonical_request (r : tag_request) : Prop :=
  match r with
  | PutTag id _ | DeleteTag id => dbUuid id = Some id
  | PostTag id _ _ _ => id <> []
  end.
End Handlers.

(** ** Forests *)

(** The path from a tag to its root. *)
Inductive up_chain (tags : list FlatTag) : jsstr -> list jsstr -> Prop :=
| uc_root id t : map_get (byId tags) id = Some t -> parent_of t = None -> up_chain tags id [id]
| uc_step id t p l : map_get (byId tags) id = Some t -> parent_of t = Some p ->
    up_chain tags p l -> up_chain tags id (id :: l).

(** Identifiers are unique, and every tag has a path to a root of at most
    [TAG_TREE_MAX_DEPTH] tags. *)
Record tag_forest (tags : list FlatTag) : Prop := {
  tf_ids : NoDup (map ft_id tags);
  tf_nonempty : Forall (fun t => ft_id t <> []) tags;
  tf_chain : forall t, t ∈ tags -> exists l, up_chain tags (ft_id t) l /\
    Z.of_nat (length l) <= TAG_TREE_MAX_DEPTH }.

Lemma byId_get_gen tags m id :
  NoDup (map ft_id tags) ->
  map_get (fold_left (fun m t => map_set m (ft_id t) t) tags m) id =
  match find_tag id tags with Some t => Some t | None => map_get m id end.
Proof.
  revert m. induction tags as [|t tags IH]; intros m Hnd; [done|].
  apply NoDup_cons in Hnd as [Hn Hnd]. cbn [fold_left]. rewrite IH by done. unfold find_tag. simpl.
  rewrite map_get_set. destruct (bool_decide (ft_id t = id)) eqn:E; bools; [|done]. subst id.
  destruct (List.find _ tags) as [u|] eqn:Ef; [|done]. exfalso. apply find_some in Ef as [Hin He]. bools.
  apply Hn. rewrite <- He. apply list_elem_of_fmap. exists u. split; [done|by apply list_elem_of_In].
Qed.

Lemma byId_get tags id : NoDup (map ft_id tags) -> map_get (byId tags) id = find_tag id tags.
Proof. intros H. unfold byId. rewrite byId_get_gen by done. by destruct (find_tag id tags). Qed.

Lemma find_tag_spec tags id t :
  NoDup (map ft_id tags) -> find_tag id tags = Some t <-> t ∈ tags /\ ft_id t = id.
Proof.
  intros Hnd. unfold find_tag. split.
  - intros [Hin He]%find_some. bools. split; [by apply list_elem_of_In|done].
  - intros [Hin <-]. induction tags as [|u tags IH]; [by apply not_elem_of_nil in Hin|].
    apply NoDup_cons in Hnd as [Hn Hnd]. simpl. apply elem_of_cons in Hin as [->|Hin].
    + by rewrite bool_decide_true.
    + rewrite bool_decide_false; [auto|]. intros He. apply Hn. rewrite He. apply list_elem_of_fmap. eauto.
Qed.

Lemma up_chain_fun tags id l l' : up_chain tags id l -> up_chain tags id l' -> l = l'.
Proof.
  intros H. revert l'. induction H as [id t Hg Hp|id t p l Hg Hp H IH]; intros l' H'; inversion H'; subst;
    [done|congruence..|]. f_equal. apply IH. congruence.
Qed.

Lemma up_chain_head tags id l : up_chain tags id l -> exists l', l = id :: l'.
Proof. intros H. inversion H; eauto. Qed.

(** What follows a tag in a path is that tag's own path. *)
Lemma up_chain_suffix tags id l pre x suf :
  up_chain tags id l -> l = pre ++ x :: suf -> up_chain tags x (x :: suf).
Proof.
  intros H. revert pre. induction H as [id t Hg Hp|id t p l Hg Hp H IH]; intros [|y pre] Heq; simplify_eq/=.
  - by eapply uc_root.
  - by destruct pre.
  - by eapply uc_step.
  - by eapply IH.
Qed.

Lemma up_chain_nodup tags id l : up_chain tags id l -> NoDup l.
Proof.
  intros H. induction H as [id t Hg Hp|id t p l Hg Hp H IH]; [apply NoDup_singleton|].
  apply NoDup_cons. split; [|done]. intros (pre & suf & ->)%list_elem_of_split.
  pose proof (up_chain_suffix _ _ _ _ _ _ H eq_refl) as H1.
  pose proof (uc_step _ _ _ _ _ Hg Hp H) as H2.
  pose proof (up_chain_fun _ _ _ _ H1 H2) as He. apply (f_equal length) in He.
  simpl in He. rewrite length_app in He. simpl in He. lia.
Qed.

(** ** The validation on a forest *)

Section Forest.
Context (tags : list FlatTag) (Hf : tag_forest tags).

Lemma forest_get id t : map_get (byId tags) id = Some t <-> t ∈ tags /\ ft_id t = id.
Proof using Hf. rewrite byId_get by apply Hf. apply find_tag_spec, Hf. Qed.

Lemma forest_chain id t : map_get (byId tags) id = Some t ->
  exists l, up_chain tags id (id :: l) /\ Z.of_nat (length (id :: l)) <= TAG_TREE_MAX_DEPTH.
Proof using Hf.
  intros [Hin <-]%forest_get. destruct (tf_chain _ Hf t Hin) as (l & Hl & Hlen).
  destruct (up_chain_head _ _ _ Hl) as [l' ->]. eauto.
Qed.

(** Every tag of a path is in the list. *)
Lemma chain_ids id l x : up_chain tags id l -> x ∈ l -> x ∈ map ft_id tags.
Proof using Hf.
  assert (Hid : forall id t, map_get (byId tags) id = Some t -> id ∈ map ft_id tags).
  { intros i t [Hin <-]%forest_get. apply list_elem_of_fmap. eauto. }
  induction 1 as [id t Hg Hp|id t p l Hg Hp H IH]; intros [->|Hx]%elem_of_cons; eauto.
  by apply not_elem_of_nil in Hx.
Qed.

Lemma chain_length id l : up_chain tags id l -> (length l <= length tags)%nat.
Proof using Hf.
  intros H. rewrite <- (length_map ft_id tags). apply submseteq_length, NoDup_submseteq.
  - by eapply up_chain_nodup.
  - intros x. by eapply chain_ids.
Qed.

Lemma chain_ne id l : up_chain tags id l -> id <> [].
Proof using Hf.
  intros H. assert (exists t, map_get (byId tags) id = Some t) as [t Hg] by (inversion H; eauto).
  apply forest_get in Hg as [Hin <-]. by eapply (proj1 (Forall_forall _ _) (tf_nonempty _ Hf)).
Qed.

(** The loop follows the path. *)
Lemma walk_up_chain cur l tagId : up_chain tags cur l -> forall fuel visited depth,
  (length l < fuel)%nat -> (forall x, x ∈ l -> x ∉ visited) ->
  walk_up fuel tags tagId (Some cur) visited depth =
  Some (match tagId with
        | Some i => if bool_decide (i ∈ l) then Throw CircularReference else Ok (depth + Z.of_nat (length l))
        | None => Ok (depth + Z.of_nat (length l))
        end).
Proof using Hf.
  intros H. pose proof (up_chain_nodup _ _ _ H) as Hnd.
  induction H as [cur t Hg Hp|cur t p l Hg Hp H IH]; intros [|fuel] visited depth Hlen Hv; simpl in Hlen; try lia.
  - assert (cur <> []) by (eapply chain_ne, uc_root; eauto).
    destruct cur as [|c r]; [done|]. cbn [walk_up]. rewrite Hg. simpl.
    rewrite (bool_decide_false (_ ∈ visited)) by (apply Hv; by left).
    destruct fuel as [|fuel]; [lia|].
    assert (Hw : walk_up (S fuel) tags tagId (ft_parentId t) ((c :: r) :: visited) (depth + 1)
                 = Some (Ok (depth + 1)))
      by (unfold parent_of in Hp; destruct (ft_parentId t) as [[|]|]; done).
    rewrite Hw. destruct tagId as [i|]; [|by rewrite bool_decide_false]. case_bool_decide as E1; case_bool_decide as E2; try done.
    + simplify_eq. exfalso. apply E2. by left.
    + exfalso. apply E1. apply list_elem_of_singleton in E2. by subst.
  - assert (cur <> []) by (eapply chain_ne, uc_step; eauto).
    destruct cur as [|c r]; [done|]. cbn [walk_up]. rewrite Hg. simpl.
    rewrite (bool_decide_false (_ ∈ visited)) by (apply Hv; by left).
    apply NoDup_cons in Hnd as [Hn Hnd].
    assert (ft_parentId t = Some p) as ->
      by (unfold parent_of in Hp; destruct (ft_parentId t) as [[|]|]; done).
    rewrite IH; [|done|lia|].
    2:{ intros x Hx [->|Hx']%elem_of_cons; [done|]. eapply Hv; [by right|done]. }
    replace (depth + 1 + Z.of_nat (length l)) with (depth + Z.of_nat (S (length l))) by lia.
    destruct tagId as [i|]; [|by rewrite bool_decide_false]. destruct (decide (i = c :: r)) as [->|E1].
    + by rewrite (bool_decide_true (Some _ = _)), (bool_decide_true (_ ∈ _ :: l)) by (done || by left).
    + rewrite (bool_decide_false (Some i = _)) by naive_solver.
      assert (Hiff : i ∈ (c :: r) :: l <-> i ∈ l) by (rewrite elem_of_cons; naive_solver).
      by rewrite (bool_decide_ext _ _ Hiff).
Qed.

Lemma childrenOf_in c id : c ∈ childrenOf tags id <-> c ∈ tags /\ parent_of c = Some id.
Proof.
  unfold childrenOf. rewrite list_elem_of_In, filter_In, <- list_elem_of_In, bool_decide_eq_true. done.
Qed.

Lemma child_chain c id l :
  c ∈ childrenOf tags id -> up_chain tags id l -> up_chain tags (ft_id c) (ft_id c :: l).
Proof using Hf. intros [Hin Hp]%childrenOf_in H. eapply uc_step; [|done..]. by apply forest_get. Qed.

Lemma maxDepth_unfold fuel id h :
  maxDepth (S fuel) tags id = Some h <->
  exists hs, Forall2 (fun c h => maxDepth fuel tags (ft_id c) = Some h) (childrenOf tags id) hs /\
    h = 1 + foldr Z.max 0 hs.
Proof.
  assert (maxDepth (S fuel) tags id =
    (fun hs => 1 + foldr Z.max 0 hs) <$> mapM (fun c => maxDepth fuel tags (ft_id c)) (childrenOf tags id))
    as -> by (simpl; by destruct (childrenOf tags id)).
  rewrite fmap_Some. setoid_rewrite mapM_Some. done.
Qed.

Lemma max_le (x : Z) hs : x ∈ hs -> x <= foldr Z.max 0 hs.
Proof. induction 1; simpl; lia. Qed.

Lemma max_attained (hs : list Z) : Forall (fun h => 1 <= h) hs -> hs <> [] -> foldr Z.max 0 hs ∈ hs.
Proof.
  induction 1 as [|h hs Hh Hhs IH]; [done|]. intros _. simpl. destruct hs as [|h' hs].
  - simpl. rewrite Z.max_l by lia. by left.
  - destruct (Z.max_spec h (foldr Z.max 0 (h' :: hs))) as [[_ ->]|[_ ->]]; [right|left]. by apply IH.
Qed.

Lemma maxDepth_pos fuel id h : maxDepth fuel tags id = Some h -> 1 <= h.
Proof.
  destruct fuel as [|fuel]; [done|]. intros (hs & _ & ->)%maxDepth_unfold.
  assert (0 <= foldr Z.max 0 hs) by (induction hs; simpl; lia). lia.
Qed.

(** Every path through a tag is accounted for. *)
Lemma maxDepth_lower x pre : forall fuel id suf h,
  up_chain tags x (pre ++ id :: suf) -> maxDepth fuel tags id = Some h -> Z.of_nat (length pre) + 1 <= h.
Proof using Hf.
  induction pre as [|c pre IH] using rev_ind; intros [|fuel] id suf h Hx Hm; try done.
  - apply maxDepth_pos in Hm. simpl. lia.
  - rewrite <- app_assoc in Hx. simpl in Hx.
    pose proof (up_chain_suffix _ _ _ pre c _ Hx eq_refl) as Hc. inversion Hc as [|? t p l Hg Hp Hl]; subst.
    destruct (up_chain_head _ _ _ Hl) as [? [= -> ->]]. apply forest_get in Hg as [Hin <-].
    apply maxDepth_unfold in Hm as (hs & Hhs & ->).
    assert (t ∈ childrenOf tags p) as [i Hi]%list_elem_of_lookup by by apply childrenOf_in.
    destruct (Forall2_lookup_l _ _ _ _ _ Hhs Hi) as (h' & Hh' & Hd).
    pose proof (IH _ _ _ _ Hx Hd). apply list_elem_of_lookup_2, max_le in Hh'. rewrite length_app. simpl. lia.
Qed.

(** The recursion ends within the fuel, and its result is the length of a path. *)
Lemma maxDepth_total fuel : forall id l, up_chain tags id (id :: l) -> (length tags - length l <= fuel)%nat ->
  exists h x pre, maxDepth fuel tags id = Some h /\ up_chain tags x (pre ++ id :: l) /\
    Z.of_nat (length pre) + 1 = h.
Proof using Hf.
  induction fuel as [|fuel IH]; intros id l Hl Hfuel.
  { pose proof (chain_length _ _ Hl). simpl in *. lia. }
  assert (Hch : forall c, c ∈ childrenOf tags id -> exists h x pre, maxDepth fuel tags (ft_id c) = Some h /\
    up_chain tags x (pre ++ ft_id c :: id :: l) /\ Z.of_nat (length pre) + 1 = h).
  { intros c Hc. apply IH; [by eapply child_chain|simpl; lia]. }
  assert (is_Some (mapM (fun c => maxDepth fuel tags (ft_id c)) (childrenOf tags id))) as [hs Hhs].
  { apply mapM_is_Some, Forall_forall. intros c Hc. destruct (Hch c Hc) as (h & ? & ? & Hm & _). by exists h. }
  apply mapM_Some in Hhs. assert (Hm := proj2 (maxDepth_unfold fuel id _) (ex_intro _ hs (conj Hhs eq_refl))).
  destruct (decide (hs = [])) as [->|Hne].
  { exists 1, id, []. split_and!; done. }
  assert (Hin : foldr Z.max 0 hs ∈ hs).
  { apply max_attained; [|done]. apply Forall_forall. intros h [i Hi]%list_elem_of_lookup.
    destruct (Forall2_lookup_r _ _ _ _ _ Hhs Hi) as (c & _ & Hd). by eapply maxDepth_pos. }
  apply list_elem_of_lookup in Hin as [i Hi]. destruct (Forall2_lookup_r _ _ _ _ _ Hhs Hi) as (c & Hc & Hd).
  destruct (Hch c) as (h & x & pre & Hd' & Hx & Hlen); [by eapply list_elem_of_lookup_2|].
  rewrite Hd in Hd'. injection Hd' as Hh. eexists _, x, (pre ++ [ft_id c]).
  split_and!; [done|by rewrite <- app_assoc|]. rewrite length_app. simpl. lia.
Qed.
End Forest.

(** ** Changing the list *)

Lemma get_chain tags id l : up_chain tags id l -> is_Some (map_get (byId tags) id).
Proof. intros H. inversion H; eauto. Qed.

(** A path only depends on the tags on it. *)
Lemma chain_transfer tags tags' id l :
  up_chain tags id l -> (forall y, y ∈ l -> map_get (byId tags') y = map_get (byId tags) y) -> up_chain tags' id l.
Proof.
  induction 1 as [id t Hg Hp|id t p l Hg Hp H IH]; intros Heq.
  - eapply uc_root; [|done]. rewrite Heq; [done|by left].
  - eapply uc_step; [|done|].
    + rewrite Heq; [done|by left].
    + apply IH. intros y Hy. apply Heq. by right.
Qed.

(** A path up to [id] goes on from there with the path [id] has after the change. *)
Lemma chain_redirect tags tags' id pre suf lp : forall x,
  up_chain tags x (pre ++ id :: suf) -> up_chain tags' id (id :: lp) ->
  (forall y, y ∈ pre -> map_get (byId tags') y = map_get (byId tags) y) -> up_chain tags' x (pre ++ id :: lp).
Proof.
  induction pre as [|y pre IH]; simpl; intros x Hx Hid Heq.
  - by destruct (up_chain_head _ _ _ Hx) as [? [= <- _]].
  - assert (Hy : map_get (byId tags') y = map_get (byId tags) y) by (apply Heq; by left).
    inversion Hx as [? ? ? ? Hnil|? t p l Hg Hp Hl]; subst; [by destruct pre|].
    eapply uc_step; [by rewrite Hy|done|]. apply IH; [done..|]. intros z Hz. apply Heq. by right.
Qed.

Section Update.
Context (tags : list FlatTag) (Hf : tag_forest tags) (t' : FlatTag) (Hid : ft_id t' ∈ map ft_id tags).
#[local] Abbreviation tags' := (update_tag t' tags).
#[local] Abbreviation id := (ft_id t').

Lemma update_ids : map ft_id tags' = map ft_id tags.
Proof. unfold update_tag. rewrite map_map. apply map_ext. intros u. by case_bool_decide. Qed.

Lemma update_in u : u ∈ tags' <-> u = t' \/ u ∈ tags /\ ft_id u <> id.
Proof using Hid.
  unfold update_tag. rewrite list_elem_of_fmap. apply list_elem_of_fmap in Hid as (v & Hv & Hin). split.
  - intros (w & -> & Hw). case_bool_decide; auto.
  - intros [->|[Hu Hne]].
    + exists v. by rewrite bool_decide_true.
    + exists u. by rewrite bool_decide_false.
Qed.

Lemma update_get x :
  map_get (byId tags') x = if bool_decide (x = id) then Some t' else map_get (byId tags) x.
Proof using Hf Hid.
  rewrite !byId_get by (rewrite ?update_ids; apply Hf).
  assert (Hnd : NoDup (map ft_id tags')) by (rewrite update_ids; apply Hf).
  case_bool_decide as E.
  - apply find_tag_spec; [done|]. rewrite update_in. auto.
  - apply option_eq. intros u. rewrite !find_tag_spec, update_in by (done || apply Hf). naive_solver.
Qed.

Lemma update_get_ne x : x <> id -> map_get (byId tags') x = map_get (byId tags) x.
Proof using Hf Hid. intros H. by rewrite update_get, bool_decide_false. Qed.

Lemma update_nonempty : Forall (fun t => ft_id t <> []) tags'.
Proof using Hf. rewrite <- (Forall_map ft_id (fun i => i <> [])), update_ids, Forall_map. apply Hf. Qed.

(** The list stays a forest when no path through the changed tag gets too long. *)
Lemma forest_update lp :
  up_chain tags' id (id :: lp) ->
  (forall x pre suf, up_chain tags x (pre ++ id :: suf) ->
     Z.of_nat (length (pre ++ id :: lp)) <= TAG_TREE_MAX_DEPTH) -> tag_forest tags'.
Proof using Hf Hid.
  intros Hlp Hbound. split; [rewrite update_ids; apply Hf|apply update_nonempty|].
  intros u Hu. assert (ft_id u ∈ map ft_id tags) as (v & Hv & Hin)%list_elem_of_fmap.
  { rewrite <- update_ids. by apply list_elem_of_fmap_2. }
  destruct (tf_chain _ Hf v Hin) as (l & Hl & Hlen). rewrite Hv.
  destruct (decide (id ∈ l)) as [Hi|Hi].
  - apply list_elem_of_split in Hi as (pre & suf & ->). exists (pre ++ id :: lp). split; [|by eapply Hbound].
    eapply chain_redirect; [done..|]. intros y Hy. apply update_get_ne. intros ->.
    apply up_chain_nodup in Hl. apply NoDup_app in Hl as (_ & Hd & _). apply (Hd _ Hy). by left.
  - exists l. split; [|done]. eapply chain_transfer; [done|]. intros y Hy. apply update_get_ne. by intros ->.
Qed.

(** The changed tag hangs below [p]. *)
Section Move.
Context (p : jsstr) (Hp : parent_of t' = Some p).

Lemma id_ne : id <> [].
Proof using Hf Hid.
  apply list_elem_of_fmap in Hid as (v & -> & Hin). by apply (proj1 (Forall_forall _ _) (tf_nonempty _ Hf)).
Qed.

Lemma id_chain : exists l, up_chain tags id (id :: l).
Proof using Hf Hid.
  apply list_elem_of_fmap in Hid as (v & -> & Hin). destruct (tf_chain _ Hf v Hin) as (l & Hl & _).
  destruct (up_chain_head _ _ _ Hl) as [l' ->]. eauto.
Qed.

Lemma validate_move lp :
  up_chain tags p lp ->
  exists h x pre suf, up_chain tags x (pre ++ id :: suf) /\ Z.of_nat (length pre) + 1 = h /\
    (forall y pre' suf', up_chain tags y (pre' ++ id :: suf') -> Z.of_nat (length pre') + 1 <= h) /\
    validateParentChain (Some id) (Some p) tags =
    if bool_decide (id ∈ lp) then Throw CircularReference
    else if TAG_TREE_MAX_DEPTH <? Z.of_nat (length lp) + h then Throw MaxDepthExceeded else Ok ().
Proof using Hf Hid.
  clear Hp. intros Hlp. destruct id_chain as [l Hl].
  destruct (maxDepth_total tags Hf (S (length tags)) _ _ Hl) as (h & x & pre & Hm & Hx & Hpre); [simpl; lia|].
  exists h, x, pre, l. split_and!; [done..| |].
  { intros y pre' suf' Hy. by eapply maxDepth_lower. }
  unfold validateParentChain. pose proof (chain_ne tags Hf _ _ Hlp) as Hne. destruct p as [|c r]; [done|].
  destruct (get_chain _ _ _ Hlp) as [u Hu]. unfold map_has. rewrite Hu. cbn [negb].
  pose proof (chain_length tags Hf _ _ Hlp).
  rewrite (walk_up_chain tags Hf _ _ _ Hlp) by (lia || (intros; apply not_elem_of_nil)).
  destruct (bool_decide (id ∈ lp)); [done|]. pose proof id_ne. destruct id as [|c' r'] eqn:E; [done|].
  unfold getMaxDescendantDepth. rewrite Hm.
  by replace (1 + Z.of_nat (length lp) + h - 1) with (Z.of_nat (length lp) + h) by lia.
Qed.

Lemma move_chain lp : up_chain tags p lp -> id ∉ lp -> up_chain tags' id (id :: lp).
Proof using Hf Hid Hp.
  intros Hlp Hn. eapply uc_step; [by rewrite update_get, bool_decide_true|done|].
  eapply chain_transfer; [done|]. intros y Hy. apply update_get_ne. by intros ->.
Qed.

Lemma move_chain_inv lp : up_chain tags' id (id :: lp) -> up_chain tags p lp /\ id ∉ lp.
Proof using Hf Hid Hp.
  intros H. pose proof (up_chain_nodup _ _ _ H) as [Hn _]%NoDup_cons. split; [|done].
  inversion_clear H as [? u Hg Hr|? u q l Hg Hq Hl]; rewrite update_get, bool_decide_true in Hg by done;
    injection Hg as <-; rewrite Hp in *; [done|]. injection Hq as <-. eapply chain_transfer; [done|]. intros y Hy. symmetry. apply update_get_ne. by intros ->.
Qed.
End Move.
End Update.

Definition with_parent (t : FlatTag) (p : option jsstr) : FlatTag :=
  {| ft_id := ft_id t; ft_name := ft_name t; ft_color := ft_color t; ft_parentId := p |}.

(** A list whose changed tag lies below [p] is a forest exactly when the
    validation accepted [p]. *)
Lemma validate_iff tags t' p :
  tag_forest tags -> ft_id t' ∈ map ft_id tags -> parent_of t' = Some p ->
  validateParentChain (Some (ft_id t')) (Some p) tags = Ok () <-> tag_forest (update_tag t' tags).
Proof.
  intros Hf Hid Hp. split.
  - intros Hv. assert (exists lp, up_chain tags p lp) as [lp Hlp].
    { assert (is_Some (map_get (byId tags) p)) as [u Hu].
      { unfold validateParentChain in Hv. destruct p as [|c r].
        - exfalso. unfold parent_of in Hp. by destruct (ft_parentId t') as [[|]|].
        - unfold map_has in Hv. destruct (map_get _ _); [eauto|done]. }
      destruct (forest_chain tags Hf _ _ Hu) as (l & ? & _). eauto. }
    destruct (validate_move tags Hf t' Hid p lp Hlp) as (h & x & pre & suf & _ & _ & Hmax & Hr).
    rewrite Hv in Hr. case_bool_decide; [done|]. destruct (_ <? _) eqn:Hlt; [done|]. apply Z.ltb_ge in Hlt.
    eapply (forest_update tags Hf t' Hid lp); [by eapply move_chain|].
    intros y pre' suf' Hy. specialize (Hmax _ _ _ Hy). rewrite length_app. simpl. lia.
  - intros Hf'. assert (t' ∈ update_tag t' tags) as Hin by (apply update_in; auto).
    destruct (tf_chain _ Hf' _ Hin) as (l & Hl & _). destruct (up_chain_head _ _ _ Hl) as [lp ->].
    destruct (move_chain_inv tags Hf t' Hid p Hp lp Hl) as [Hlp Hn].
    destruct (validate_move tags Hf t' Hid p lp Hlp) as (h & x & pre & suf & Hx & <- & _ & ->).
    rewrite bool_decide_false by done. rewrite (proj2 (Z.ltb_ge _ _)); [done|].
    assert (Hx' : up_chain (update_tag t' tags) x (pre ++ ft_id t' :: lp)).
    { eapply chain_redirect; [done..|]. intros y Hy. apply update_get_ne; [done..|]. intros ->.
      apply up_chain_nodup in Hx. apply NoDup_app in Hx as (_ & Hd & _). apply (Hd _ Hy). by left. }
    destruct (get_chain _ _ _ Hx') as [u Hu]. apply (forest_get _ Hf') in Hu as [Hu <-].
    destruct (tf_chain _ Hf' _ Hu) as (l & Hl' & Hlen). rewrite <- (up_chain_fun _ _ _ _ Hx' Hl') in Hlen.
    rewrite length_app in Hlen. simpl in Hlen. lia.
Qed.

Lemma path_bound tags x l : tag_forest tags -> up_chain tags x l -> Z.of_nat (length l) <= TAG_TREE_MAX_DEPTH.
Proof.
  intros Hf Hl. destruct (get_chain _ _ _ Hl) as [u Hu]. apply (forest_get _ Hf) in Hu as [Hin <-].
  destruct (tf_chain _ Hf _ Hin) as (l' & Hl' & ?). by rewrite (up_chain_fun _ _ _ _ Hl Hl').
Qed.

(** A tag that becomes a root. *)
Lemma forest_to_root tags t' :
  tag_forest tags -> ft_id t' ∈ map ft_id tags -> parent_of t' = None -> tag_forest (update_tag t' tags).
Proof.
  intros Hf Hid Hp. eapply (forest_update _ Hf _ Hid []).
  - eapply uc_root; [|done]. by rewrite update_get, bool_decide_true.
  - intros x pre suf Hx. apply path_bound in Hx; [|done]. rewrite length_app in *. simpl in *. lia.
Qed.

(** A tag that keeps its parent. *)
Lemma forest_same_parent tags t' cur :
  tag_forest tags -> find_tag (ft_id t') tags = Some cur -> parent_of t' = parent_of cur ->
  tag_forest (update_tag t' tags).
Proof.
  intros Hf Hc Hp. assert (Hid : ft_id t' ∈ map ft_id tags).
  { apply find_tag_spec in Hc as [Hin <-]; [|apply Hf]. by apply list_elem_of_fmap_2. }
  rewrite <- byId_get in Hc by apply Hf. destruct (parent_of t') as [p|] eqn:E; [|by apply forest_to_root].
  destruct (forest_chain _ Hf _ _ Hc) as (l & Hl & Hlen).
  assert (Hlp : up_chain tags p l) by (inversion Hl; simplify_eq; congruence).
  eapply (forest_update _ Hf _ Hid l).
  - eapply move_chain; [done..|]. by apply up_chain_nodup, NoDup_cons in Hl as [? _].
  - intros x pre suf Hx. pose proof (up_chain_suffix _ _ _ _ _ _ Hx eq_refl) as Hs.
    pose proof (up_chain_fun _ _ _ _ Hl Hs). simplify_eq. by apply path_bound in Hx.
Qed.

Section Create.
Context (tags : list FlatTag) (Hf : tag_forest tags) (t : FlatTag) (Hnew : ft_id t ∉ map ft_id tags).

Lemma create_ids : NoDup (map ft_id (tags ++ [t])).
Proof using Hf Hnew.
  rewrite map_app. apply NoDup_app. split_and!; [apply Hf| |apply NoDup_singleton].
  by intros x Hx ->%list_elem_of_singleton.
Qed.

Lemma create_get x :
  map_get (byId (tags ++ [t])) x = if bool_decide (x = ft_id t) then Some t else map_get (byId tags) x.
Proof using Hf Hnew.
  pose proof create_ids. rewrite !byId_get by (done || apply Hf). case_bool_decide as E.
  - apply find_tag_spec; [done|]. rewrite elem_of_app, list_elem_of_singleton. auto.
  - apply option_eq. intros u. rewrite !find_tag_spec, elem_of_app, list_elem_of_singleton by (done || apply Hf).
    naive_solver.
Qed.

Lemma create_chain x l : up_chain tags x l -> up_chain (tags ++ [t]) x l.
Proof using Hf Hnew.
  intros Hl. eapply chain_transfer; [done|]. intros y Hy. rewrite create_get, bool_decide_false; [done|].
  intros ->. by eapply Hnew, chain_ids.
Qed.

Lemma forest_create :
  ft_id t <> [] -> validateParentChain None (ft_parentId t) tags = Ok () -> tag_forest (tags ++ [t]).
Proof using Hf Hnew.
  intros Hne Hv. split; [apply create_ids| |].
  { apply Forall_app. split; [apply Hf|by apply Forall_singleton]. }
  intros u [Hu|Hu]%elem_of_app.
  { destruct (tf_chain _ Hf _ Hu) as (l & Hl & ?). exists l. split; [by apply create_chain|done]. }
  apply list_elem_of_singleton in Hu as ->.
  assert (Hg : map_get (byId (tags ++ [t])) (ft_id t) = Some t) by by rewrite create_get, bool_decide_true.
  unfold validateParentChain in Hv. destruct (ft_parentId t) as [[|c r]|] eqn:Ep.
  1,3: exists [ft_id t]; split; [eapply uc_root; [done|]; unfold parent_of; by rewrite Ep|done].
  unfold map_has in Hv. destruct (map_get (byId tags) (c :: r)) as [v|] eqn:Hpv; [|done]. cbn [negb] in Hv.
  destruct (forest_chain _ Hf _ _ Hpv) as (l & Hl & Hlen). pose proof (chain_length _ Hf _ _ Hl).
  rewrite (walk_up_chain _ Hf _ _ _ Hl) in Hv by (lia || (intros; apply not_elem_of_nil)).
  destruct (_ <? _) eqn:Hlt in Hv; [done|]. apply Z.ltb_ge in Hlt.
  exists (ft_id t :: (c :: r) :: l). split; [|simpl in *; lia].
  eapply uc_step; [done| |by apply create_chain]. unfold parent_of. by rewrite Ep.
Qed.
End Create.

(** Deleting a tag makes its children roots. *)
Lemma delete_row_in key tags u :
  u ∈ delete_row key tags <-> exists t, t ∈ tags /\ ft_id t <> key /\
    u = if bool_decide (ft_parentId t = Some key) then with_parent t None else t.
Proof.
  unfold delete_row. rewrite list_elem_of_fmap. setoid_rewrite list_elem_of_In. setoid_rewrite filter_In.
  setoid_rewrite negb_true_iff. setoid_rewrite bool_decide_eq_false.
  split; intros (t & H); exists t; destruct H as (? & ? & ?); auto.
Qed.

Lemma NoDup_map_filter {A} (f : A -> jsstr) (g : A -> bool) l :
  NoDup (map f l) -> NoDup (map f (List.filter g l)).
Proof.
  induction l as [|x l IH]; [done|]. intros [Hn Hnd]%NoDup_cons. simpl. destruct (g x); [|by apply IH].
  apply NoDup_cons. split; [|by apply IH]. intros (y & Hy & Hin)%list_elem_of_fmap. apply Hn. rewrite Hy.
  apply list_elem_of_In, filter_In in Hin as [Hin _]. by apply list_elem_of_fmap_2, list_elem_of_In.
Qed.

Lemma delete_row_ids key tags :
  map ft_id (delete_row key tags) = map ft_id (List.filter (fun t => negb (ft_id t =s key)) tags).
Proof. unfold delete_row. rewrite map_map. apply map_ext. intros t. by case_bool_decide. Qed.

Lemma forest_delete key tags : tag_forest tags -> tag_forest (delete_row key tags).
Proof.
  intros Hf. assert (Hnd : NoDup (map ft_id (delete_row key tags))).
  { rewrite delete_row_ids. apply NoDup_map_filter, Hf. }
  split; [done| |].
  - apply Forall_forall. intros u (t & Hin & Hne & ->)%delete_row_in.
    pose proof (proj1 (Forall_forall _ _) (tf_nonempty _ Hf) t Hin). by case_bool_decide.
  - assert (Hcut : forall id l, up_chain tags id l -> id <> key ->
      exists l', up_chain (delete_row key tags) id l' /\ (length l' <= length l)%nat).
    { induction 1 as [id t Hg Hp|id t p l Hg Hp H IH]; intros Hne;
        apply (forest_get _ Hf) in Hg as [Hin <-];
        assert (Hg : map_get (byId (delete_row key tags)) (ft_id t) =
          Some (if bool_decide (ft_parentId t = Some key) then with_parent t None else t))
          by (rewrite byId_get by done; apply find_tag_spec; [done|]; split;
              [apply delete_row_in; eauto|by case_bool_decide]).
      - exists [ft_id t]. split; [|done]. eapply uc_root; [done|]. by case_bool_decide.
      - destruct (decide (p = key)) as [->|Hpk].
        + exists [ft_id t]. split; [|simpl; lia]. eapply uc_root; [done|].
          rewrite bool_decide_true; [done|]. unfold parent_of in Hp. by destruct (ft_parentId t) as [[|]|].
        + destruct IH as (l' & Hl' & Hlen); [done|]. exists (ft_id t :: l'). split; [|simpl; lia].
          eapply uc_step; [done| |done]. rewrite bool_decide_false; [done|]. intros E.
          unfold parent_of in Hp. rewrite E in Hp. destruct key; congruence. }
    intros u (t & Hin & Hne & ->)%delete_row_in. destruct (tf_chain _ Hf _ Hin) as (l & Hl & Hlen).
    destruct (Hcut _ _ Hl Hne) as (l' & Hl' & Hle). exists l'. split; [by case_bool_decide|lia].
Qed.

(** ** The handlers keep the forest *)

Section Handlers.
Context (dbUuid : jsstr -> option jsstr).

(** A move is validated on the list it is written to. *)
Lemma put_forest id u r0 r2 tags :
  tag_forest tags -> dbUuid id = Some id -> tag_forest (put_tag dbUuid id u r0 tags r2 tags).1.
Proof.
  intros Hf Hdb. unfold put_tag. rewrite Hdb. destruct (find_tag id r0) as [existing|]; [|done].
  destruct (match tu_parentId u with Some (Some p) => _ | _ => _ end) as [[]|e] eqn:Hv; [|done].
  destruct (_ && _); [done|]. destruct (find_tag id tags) as [cur|] eqn:Hcur; [|done].
  destruct (violates_unique _ _); [done|]. destruct (violates_parent _ _); [done|]. cbn [fst].
  assert (id ∈ map ft_id tags).
  { apply find_tag_spec in Hcur as [Hin <-]; [|apply Hf]. by apply list_elem_of_fmap_2. }
  destruct (tu_parentId u) as [[[|c r]|]|] eqn:Hu; cbn [default].
  - by apply forest_to_root.
  - by eapply validate_iff.
  - by apply forest_to_root.
  - by eapply forest_same_parent.
Qed.

Lemma post_forest id name color parentId r1 tags :
  tag_forest tags -> id <> [] -> tag_forest (post_tag id name color parentId tags r1 tags).1.
Proof.
  intros Hf Hne. unfold post_tag. destruct (validateParentChain _ _ _) as [[]|e] eqn:Hv; [|done].
  destruct (existsb _ _); [done|]. destruct (find_tag id tags) as [t|] eqn:Hn; [done|].
  destruct (violates_unique _ _); [done|]. destruct (violates_parent _ _); [done|].
  apply forest_create; [done| |done|done]. simpl. intros (t & -> & Hin)%list_elem_of_fmap.
  assert (find_tag (ft_id t) tags = Some t) by (apply find_tag_spec; [apply Hf|done]). congruence.
Qed.

Lemma serve_forest tags r : tag_forest tags -> canonical_request dbUuid r -> tag_forest (serve_tag dbUuid tags r).
Proof.
  intros Hf. destruct r as [id u|id name color parentId|id]; simpl; intros Hr.
  - by apply put_forest.
  - by apply post_forest.
  - unfold delete_tag. rewrite Hr. destruct (find_tag id tags); [|done]. by apply forest_delete.
Qed.
End Handlers.

(** C38: when requests run one after the other and name tags the way the database
    writes their identifiers, the tags of a user stay a forest of at most
    [TAG_TREE_MAX_DEPTH] levels, with unique identifiers and no cycle, whatever
    the requests move, create, rename or delete. *)
Theorem tag_requests_keep_forest dbUuid reqs tags :
  tag_forest tags -> Forall (canonical_request dbUuid) reqs ->
  tag_forest (fold_left (serve_tag dbUuid) reqs tags).
Proof. intros Hf Hr. revert tags Hf. induction Hr; intros tags Hf; [done|]. simpl. eauto using serve_forest. Qed.

Lemma tag_requests_keep_forest_witness :
  tag_forest (fold_left (serve_tag Some)
    [PostTag [97] [120] None None; PostTag [98] [121] None (Some [97]);
     PutTag [97] {| tu_name := None; tu_color := None; tu_parentId := Some (Some [98]) |};
     DeleteTag [97]] []).
Proof.
  apply tag_requests_keep_forest.
  - split; [constructor|constructor|]. intros t Ht. by apply not_elem_of_nil in Ht.
  - repeat apply Forall_cons_2; [done..|]. apply Forall_nil_2.
Defined.

(** The validation of a move is exact: on a forest it accepts the new parent
    of a tag if and only if the list with that parent is again a forest, so it
    neither lets a cycle or a deeper tree through nor refuses a move that keeps
    the tree in its bounds. *)
Theorem validateParentChain_exact tags t p :
  tag_forest tags -> t ∈ tags -> p <> [] ->
  validateParentChain (Some (ft_id t)) (Some p) tags = Ok () <->
  tag_forest (update_tag (with_parent t (Some p)) tags).
Proof.
  intros Hf Hin Hp. apply (validate_iff tags (with_parent t (Some p))); [done| |by destruct p].
  apply (list_elem_of_fmap_2 ft_id _ _ Hin).
Qed.

Lemma validateParentChain_exact_witness :
  let tag i p := {| ft_id := [i]; ft_name := [i]; ft_color := None; ft_parentId := p |} in
  validateParentChain (Some [98]) (Some [97]) [tag 97 None; tag 98 None] = Ok () <->
  tag_forest (update_tag (with_parent (tag 98 None) (Some [97])) [tag 97 None; tag 98 None]).
Proof.
  intros tag. apply (validateParentChain_exact [tag 97 None; tag 98 None] (tag 98 None)).
  - split.
    + apply (bool_decide_unpack _). by vm_compute.
    + by repeat apply Forall_cons_2.
    + intros t [->|[->|[]%not_elem_of_nil]%elem_of_cons]%elem_of_cons.
      * exists [[97]]. split; [by eapply uc_root|done].
      * exists [[98]]. split; [by eapply uc_root|done].
  - right. left.
  - done.
Defined.

(** ** The built tree *)

Lemma map_set_new (m : jsmap FlatTag) k v : map_get m k = None -> map_set m k v = m ++ [(k, v)].
Proof. induction m as [|[k' v'] m IH]; [done|]. simpl. case_bool_decide; [done|]. intros Hm. by rewrite IH. Qed.

Lemma byId_values tags : NoDup (map ft_id tags) -> map snd (byId tags) = tags.
Proof.
  assert (Hgen : forall m, NoDup (map fst m ++ map ft_id tags) ->
    map snd (fold_left (fun m t => map_set m (ft_id t) t) tags m) = map snd m ++ tags).
  { induction tags as [|t tags IH]; intros m Hnd; simpl; [by rewrite app_nil_r|].
    simpl in Hnd. rewrite map_set_new.
    - rewrite IH; rewrite map_app; simpl; by rewrite <- app_assoc.
    - apply map_get_None. intros Hin. apply NoDup_app in Hnd as (_ & Hd & _). eapply Hd; [done|by left]. }
  intros Hnd. unfold byId. by rewrite Hgen.
Qed.

Section Tree.
Context (localeCompare : jsstr -> jsstr -> Z).

Lemma insert_sorted_perm t l : insert_sorted localeCompare t l ≡ₚ t :: l.
Proof.
  induction l as [|u l IH]; simpl; [done|]. destruct (_ <? _); [done|]. rewrite IH. apply Permutation_swap.
Qed.

Lemma sort_tags_perm l : sort_tags localeCompare l ≡ₚ l.
Proof.
  unfold sort_tags. assert (Hgen : forall acc, fold_left (fun acc t => insert_sorted localeCompare t acc) l acc
    ≡ₚ acc ++ l).
  { induction l as [|t l IH]; intros acc; simpl; [by rewrite app_nil_r|].
    rewrite IH, insert_sorted_perm. apply Permutation_middle. }
  by rewrite Hgen.
Qed.

Lemma concat_map_bind {A B} (f : A -> list B) l : concat (map f l) = l ≫= f.
Proof. induction l as [|x l IH]; simpl; [done|]. by rewrite IH. Qed.

Lemma map_bind {A B C} (f : B -> C) (g : A -> list B) l : map f (l ≫= g) = l ≫= (fun x => map f (g x)).
Proof. induction l as [|x l IH]; [done|]. rewrite !bind_cons, map_app. by rewrite IH. Qed.

Context (tags : list FlatTag) (Hf : tag_forest tags).

Lemma tags_id_inj t u : t ∈ tags -> u ∈ tags -> ft_id t = ft_id u -> t = u.
Proof using Hf.
  intros Ht Hu He. assert (find_tag (ft_id u) tags = Some t) by (apply find_tag_spec; [apply Hf|done]).
  assert (find_tag (ft_id u) tags = Some u) by (apply find_tag_spec; [apply Hf|done]). congruence.
Qed.

Lemma NoDup_tags : NoDup tags.
Proof using Hf. eapply NoDup_fmap_1, (tf_ids _ Hf). Qed.

#[local] Abbreviation sub fuel t d := (flatten_node (subtree localeCompare fuel tags t d)).

Lemma sub_unfold fuel t d :
  sub (S fuel) t d = (t, d) :: (sort_tags localeCompare (childrenOf tags (ft_id t)) ≫= fun c => sub fuel c (d + 1)).
Proof. simpl. by rewrite map_map, concat_map_bind. Qed.

(** The nodes below a tag are the tags whose path goes through it, each at its
    distance. *)
Lemma sub_in fuel : forall t d s u d', t ∈ tags -> up_chain tags (ft_id t) (ft_id t :: s) ->
  (length tags - length s <= fuel)%nat ->
  (u, d') ∈ sub fuel t d <->
  u ∈ tags /\ exists pre, up_chain tags (ft_id u) (pre ++ ft_id t :: s) /\ d' = d + Z.of_nat (length pre).
Proof using Hf.
  induction fuel as [|fuel IH]; intros t d s u d' Ht Hs Hfuel.
  { pose proof (chain_length _ Hf _ _ Hs). simpl in *. lia. }
  rewrite sub_unfold, elem_of_cons, list_elem_of_bind.
  assert (Hch : forall c, c ∈ sort_tags localeCompare (childrenOf tags (ft_id t)) <->
    c ∈ tags /\ parent_of c = Some (ft_id t)) by (intros c; by rewrite sort_tags_perm, childrenOf_in).
  assert (Hchain : forall c, c ∈ tags -> parent_of c = Some (ft_id t) ->
    up_chain tags (ft_id c) (ft_id c :: ft_id t :: s)) by (intros c ? ?; by eapply child_chain; [done|apply childrenOf_in|done]).
  split.
  - intros [[= -> ->]|(c & Hin & [Hc Hp]%Hch)].
    + split; [done|]. exists []. simpl. split; [done|lia].
    + apply (IH c _ (ft_id t :: s)) in Hin as (Hu & pre & Hpre & ->); [|auto|auto|simpl; lia].
      split; [done|]. exists (pre ++ [ft_id c]). rewrite <- app_assoc, length_app. split; [done|simpl; lia].
  - intros (Hu & pre & Hpre & ->). destruct pre as [|x pre _] using rev_ind.
    + left. destruct (up_chain_head _ _ _ Hpre) as [? [= He _]].
      rewrite (tags_id_inj u t) by done. simpl. f_equal. lia.
    + right. rewrite <- app_assoc in Hpre. simpl in Hpre.
      pose proof (up_chain_suffix _ _ _ pre x _ Hpre eq_refl) as Hx.
      inversion Hx as [|? c p l Hg Hp Hl]; subst. destruct (up_chain_head _ _ _ Hl) as [? [= <- _]].
      apply (forest_get _ Hf) in Hg as [Hc <-]. exists c. split; [|by apply Hch].
      apply (IH c _ (ft_id t :: s)); [done|auto|simpl; lia|]. split; [done|]. exists pre. split; [done|].
      rewrite length_app. simpl. lia.
Qed.

Lemma sub_nodup fuel : forall t d s, t ∈ tags -> up_chain tags (ft_id t) (ft_id t :: s) ->
  (length tags - length s <= fuel)%nat -> NoDup (map fst (sub fuel t d)).
Proof using Hf.
  induction fuel as [|fuel IH]; intros t d s Ht Hs Hfuel.
  { pose proof (chain_length _ Hf _ _ Hs). simpl in *. lia. }
  assert (Hch : forall c, c ∈ sort_tags localeCompare (childrenOf tags (ft_id t)) ->
    c ∈ tags /\ up_chain tags (ft_id c) (ft_id c :: ft_id t :: s)).
  { intros c. rewrite sort_tags_perm. intros Hc. split; [by apply childrenOf_in in Hc as [? _]|].
    by eapply child_chain. }
  assert (Hpath : forall c u, c ∈ sort_tags localeCompare (childrenOf tags (ft_id t)) ->
    u ∈ map fst (sub fuel c (d + 1)) -> exists pre, up_chain tags (ft_id u) (pre ++ ft_id c :: ft_id t :: s)).
  { intros c u [Hc Hcc]%Hch ([u' d'] & -> & Hin)%list_elem_of_fmap.
    apply (sub_in _ _ _ (ft_id t :: s)) in Hin as (_ & pre & Hpre & _); [eauto|done|done|simpl; lia]. }
  rewrite sub_unfold, map_cons, map_bind. apply NoDup_cons. split.
  - intros (c & Hin & Hc)%list_elem_of_bind. destruct (Hpath _ _ Hc Hin) as [pre Hpre].
    pose proof (f_equal length (up_chain_fun _ _ _ _ Hs Hpre)) as Hl. rewrite length_app in Hl. simpl in Hl. lia.
  - apply NoDup_bind.
    + intros c1 c2 u H1 H2 Hu1 Hu2. destruct (Hpath _ _ H1 Hu1) as [pre1 Hp1], (Hpath _ _ H2 Hu2) as [pre2 Hp2].
      pose proof (up_chain_fun _ _ _ _ Hp1 Hp2) as He. apply app_inj_2 in He as [_ [= He]]; [|done].
      apply tags_id_inj; [by apply Hch..|done].
    + intros c [Hc Hcc]%Hch. apply (IH c _ (ft_id t :: s)); [done..|simpl; lia].
    + rewrite sort_tags_perm. apply (NoDup_fmap_1 ft_id), NoDup_map_filter, Hf.
Qed.

#[local] Abbreviation built := (flattenTagTree (buildTagTree localeCompare tags)).

Definition is_root (t : FlatTag) : bool :=
  match parent_of t with Some p => negb (map_has (byId tags) p) | None => true end.

Lemma built_bind : built =
  sort_tags localeCompare (List.filter is_root tags) ≫= fun t => sub (length tags) t 0.
Proof using Hf.
  unfold flattenTagTree, buildTagTree. rewrite (byId_values tags) by apply Hf.
  by rewrite map_map, concat_map_bind.
Qed.

(** The roots of a forest are the tags whose path is the tag alone. *)
Lemma root_in t :
  t ∈ sort_tags localeCompare (List.filter is_root tags) <-> t ∈ tags /\ up_chain tags (ft_id t) [ft_id t].
Proof using Hf.
  rewrite sort_tags_perm, list_elem_of_In, filter_In, <- list_elem_of_In.
  assert (Hg : t ∈ tags -> map_get (byId tags) (ft_id t) = Some t) by (intros; by apply forest_get).
  unfold is_root, map_has. split; intros [Hin H]; (split; [done|]).
  - destruct (parent_of t) as [p|] eqn:Hp; [|eapply uc_root; eauto].
    destruct (tf_chain _ Hf _ Hin) as (l & Hl & _). inversion Hl as [? ? Hg' Hp'|? ? q l' Hg' Hp' Hl']; subst;
      rewrite (Hg Hin) in Hg'; simplify_eq. destruct (get_chain _ _ _ Hl') as [v Hv]. by rewrite Hv in H.
  - inversion H as [? ? Hg' Hp'|? ? q l' Hg' Hp' Hl']; subst; rewrite (Hg Hin) in Hg'; simplify_eq.
    + by rewrite Hp'.
    + inversion Hl'.
Qed.

Lemma built_in u d :
  (u, d) ∈ built <-> u ∈ tags /\ exists l, up_chain tags (ft_id u) l /\ Z.of_nat (length l) = d + 1.
Proof using Hf.
  rewrite built_bind, list_elem_of_bind. split.
  - intros (t & Hin & [Ht Hc]%root_in). apply (sub_in _ t 0 []) in Hin as (Hu & pre & Hpre & ->); [|done|done|simpl; lia].
    split; [done|]. eexists. split; [done|]. rewrite length_app. simpl. lia.
  - intros (Hu & l & Hl & Hlen). destruct l as [|r pre _] using rev_ind; [inversion Hl|].
    pose proof (up_chain_suffix _ _ _ pre r [] Hl eq_refl) as Hr. destruct (get_chain _ _ _ Hr) as [t Ht].
    apply (forest_get _ Hf) in Ht as [Ht <-]. exists t. split; [|by apply root_in].
    apply (sub_in _ t 0 []); [done..|simpl; lia|]. split; [done|]. exists pre. split; [done|].
    rewrite length_app in Hlen. simpl in Hlen. lia.
Qed.

Lemma built_nodup : NoDup (map fst built).
Proof using Hf.
  rewrite built_bind, map_bind. apply NoDup_bind.
  - intros t1 t2 u [H1 Hc1]%root_in [H2 Hc2]%root_in ([u1 d1] & -> & Hu1)%list_elem_of_fmap
      ([u2 d2] & He & Hu2)%list_elem_of_fmap. simpl in He. subst u2.
    apply (sub_in _ t1 0 []) in Hu1 as (_ & pre1 & Hp1 & _); [|done|done|simpl; lia].
    apply (sub_in _ t2 0 []) in Hu2 as (_ & pre2 & Hp2 & _); [|done|done|simpl; lia].
    pose proof (up_chain_fun _ _ _ _ Hp1 Hp2) as He. apply app_inj_2 in He as [_ [= He]]; [|done].
    by apply tags_id_inj.
  - intros t [Ht Hc]%root_in. eapply sub_nodup; [done..|simpl; lia].
  - rewrite sort_tags_perm. apply (NoDup_fmap_1 ft_id), NoDup_map_filter, Hf.
Qed.

(** The search finds the node of a tag below [r], with its whole subtree. *)
Definition found_node (tagId : jsstr) (r : option TagTreeNode) : Prop :=
  match r with
  | Some n => exists t fuel d s, n = subtree localeCompare fuel tags t d /\ t ∈ tags /\ ft_id t = tagId /\
      up_chain tags tagId (tagId :: s) /\ (length tags - length s <= fuel)%nat
  | None => True
  end.

Lemma find_first_some tagId cs :
  is_Some (fold_right (fun c found => match find_node tagId c with Some m => Some m | None => found end) None cs)
  <-> Exists (fun c => is_Some (find_node tagId c)) cs.
Proof.
  clear localeCompare Hf. induction cs as [|c cs IH]; simpl; [rewrite Exists_nil, is_Some_alt; done|].
  rewrite Exists_cons, <- IH. destruct (find_node tagId c); naive_solver.
Qed.

Lemma find_first_found tagId cs :
  Forall (fun c => found_node tagId (find_node tagId c)) cs ->
  found_node tagId (fold_right (fun c found => match find_node tagId c with Some m => Some m | None => found end) None cs).
Proof. induction 1 as [|c cs Hc Hcs IH]; simpl; [done|]. by destruct (find_node tagId c). Qed.

Lemma find_sub tagId fuel : forall r d s, r ∈ tags -> up_chain tags (ft_id r) (ft_id r :: s) ->
  (length tags - length s <= fuel)%nat ->
  found_node tagId (find_node tagId (subtree localeCompare fuel tags r d)) /\
  forall pre, up_chain tags tagId (pre ++ ft_id r :: s) ->
    is_Some (find_node tagId (subtree localeCompare fuel tags r d)).
Proof using Hf.
  induction fuel as [|fuel IH]; intros r d s Hr Hs Hfuel.
  { pose proof (chain_length _ Hf _ _ Hs). simpl in *. lia. }
  assert (Hch : forall c, c ∈ sort_tags localeCompare (childrenOf tags (ft_id r)) ->
    c ∈ tags /\ up_chain tags (ft_id c) (ft_id c :: ft_id r :: s)).
  { intros c. rewrite sort_tags_perm. intros Hc. split; [by apply childrenOf_in in Hc as [? _]|].
    by eapply child_chain. }
  change (find_node tagId (subtree localeCompare (S fuel) tags r d)) with
    (if ft_id r =s tagId then Some (subtree localeCompare (S fuel) tags r d)
     else fold_right (fun c found => match find_node tagId c with Some m => Some m | None => found end) None
       (map (fun c => subtree localeCompare fuel tags c (d + 1)) (sort_tags localeCompare (childrenOf tags (ft_id r))))).
  case_bool_decide as E; [subst tagId; split; [exists r, (S fuel), d, s; done|eauto]|]. split.
  - apply find_first_found, Forall_map, Forall_forall. intros c [Hc Hcc]%Hch. eapply IH; [done..|simpl; lia].
  - intros pre Hpre. destruct pre as [|x pre _] using rev_ind.
    { destruct (up_chain_head _ _ _ Hpre) as [? [= ? _]]. done. }
    rewrite <- app_assoc in Hpre. simpl in Hpre.
    pose proof (up_chain_suffix _ _ _ pre x _ Hpre eq_refl) as Hx. inversion Hx as [|? c p l Hg Hp Hl]; subst.
    destruct (up_chain_head _ _ _ Hl) as [? [= <- _]]. apply (forest_get _ Hf) in Hg as [Hc <-].
    apply find_first_some, Exists_exists. exists (subtree localeCompare fuel tags c (d + 1)). split.
    + apply (list_elem_of_fmap_2 (fun c => subtree localeCompare fuel tags c (d + 1))).
      rewrite sort_tags_perm. by apply childrenOf_in.
    + eapply (IH c _ (ft_id r :: s)); [done..|simpl; lia|done].
Qed.

(** [collectDescendantIds] lists the tags whose path goes through the given one. *)
Lemma collectDescendantIds_in t x : t ∈ tags ->
  x ∈ collectDescendantIds (buildTagTree localeCompare tags) (ft_id t) <->
  exists l, up_chain tags x l /\ ft_id t ∈ l.
Proof using Hf.
  intros Ht. unfold collectDescendantIds, buildTagTree. rewrite (byId_values tags) by apply Hf.
  fold is_root. set (roots := map _ _).
  assert (Hroots : forall r, r ∈ sort_tags localeCompare (List.filter is_root tags) -> _) by
    (intros r [Hr Hc]%root_in; exact (find_sub (ft_id t) (length tags) r 0 [] Hr Hc ltac:(simpl; lia))).
  assert (Hfound := find_first_found (ft_id t) roots).
  assert (Hsome := proj2 (find_first_some (ft_id t) roots)).
  destruct (fold_right _ None roots) as [n|].
  2:{ exfalso. destruct (tf_chain _ Hf _ Ht) as (l & Hl & _). destruct l as [|r pre _] using rev_ind; [inversion Hl|].
      pose proof (up_chain_suffix _ _ _ pre r [] Hl eq_refl) as Hr. destruct (get_chain _ _ _ Hr) as [u Hu].
      apply (forest_get _ Hf) in Hu as [Hu <-]. destruct Hsome as [? [=]]. apply Exists_exists.
      eexists. split; [apply list_elem_of_fmap_2; by apply root_in|]. by eapply Hroots, Hl; apply root_in. }
  destruct Hfound as (u & fuel & d & s & -> & Hu & He & Hs & Hfuel).
  { apply Forall_map, Forall_forall. intros r Hr. by apply Hroots. }
  rewrite <- He in Hs. rewrite list_elem_of_fmap. split.
  - intros ([v d'] & -> & Hin). apply (sub_in _ _ _ s) in Hin as (_ & pre & Hpre & _); [|done..].
    eexists. split; [done|]. rewrite elem_of_app, <- He. right. by left.
  - intros (l & Hl & (pre & suf & ->)%list_elem_of_split). rewrite <- He in Hl.
    pose proof (up_chain_fun _ _ _ _ Hs (up_chain_suffix _ _ _ _ _ _ Hl eq_refl)). simplify_eq.
    destruct (get_chain _ _ _ Hl) as [v Hv]. apply (forest_get _ Hf) in Hv as [Hv <-].
    exists (v, d + Z.of_nat (length pre)). split; [done|]. eapply sub_in; [done..|]. eauto.
Qed.
End Tree.

(** On a forest of tags, the tree that [buildTagTree] makes and
    [flattenTagTree] lists contains every tag exactly once, whatever the
    collation order, and gives each the number of its ancestors as its depth. *)
Theorem tag_tree_complete localeCompare tags :
  tag_forest tags ->
  map fst (flattenTagTree (buildTagTree localeCompare tags)) ≡ₚ tags /\
  forall t d, (t, d) ∈ flattenTagTree (buildTagTree localeCompare tags) ->
    exists l, up_chain tags (ft_id t) (ft_id t :: l) /\ d = Z.of_nat (length l).
Proof.
  intros Hf. split.
  - apply NoDup_Permutation; [by apply built_nodup|by apply NoDup_tags|]. intros t. split.
    + intros ([u d] & -> & Hin)%list_elem_of_fmap. by apply (built_in _ _ Hf) in Hin as [? _].
    + intros Ht. destruct (tf_chain _ Hf _ Ht) as (l & Hl & _). apply list_elem_of_fmap.
      exists (t, Z.of_nat (length l) - 1). split; [done|]. apply (built_in _ _ Hf). split; [done|].
      exists l. split; [done|lia].
  - intros t d [_ (l & Hl & Hlen)]%(built_in _ _ Hf). destruct (up_chain_head _ _ _ Hl) as [l' ->].
    exists l'. split; [done|]. simpl in Hlen. lia.
Qed.

Lemma tag_tree_complete_witness :
  let tags := [{| ft_id := [97]; ft_name := [120]; ft_color := None; ft_parentId := None |}] in
  map fst (flattenTagTree (buildTagTree (fun _ _ => 0) tags)) ≡ₚ tags.
Proof.
  intros tags. apply (tag_tree_complete (fun _ _ => 0) tags). split.
  - apply NoDup_singleton.
  - by apply Forall_singleton.
  - intros t ->%list_elem_of_singleton. exists [[97]]. split; [by eapply uc_root|done].
Defined.

(** ** Paths *)

Definition names_of (tags : list FlatTag) (l : list jsstr) : list jsstr :=
  map (fun i => default [] (ft_name <$> map_get (byId tags) i)) l.

Lemma path_parts_chain tags p l : tag_forest tags -> up_chain tags p l -> forall fuel visited parts,
  (length l < fuel)%nat -> (forall x, x ∈ l -> x ∉ visited) ->
  path_parts fuel (byId tags) (Some p) visited parts = Some (rev (names_of tags l) ++ parts).
Proof.
  intros Hf H. pose proof (up_chain_nodup _ _ _ H) as Hnd.
  induction H as [p t Hg Hp|p t q l Hg Hp H IH]; intros [|fuel] visited parts Hlen Hv; simpl in Hlen; try lia.
  - assert (p <> []) by (eapply (chain_ne _ Hf), uc_root; eauto). destruct p as [|c r]; [done|].
    cbn [path_parts]. rewrite bool_decide_false by (apply Hv; by left). cbn. rewrite Hg. cbn.
    destruct fuel as [|fuel]; [lia|]. unfold parent_of in Hp. by destruct (ft_parentId t) as [[|]|].
  - assert (p <> []) by (eapply (chain_ne _ Hf), uc_step; eauto). destruct p as [|c r]; [done|].
    apply NoDup_cons in Hnd as [Hn Hnd].
    cbn [path_parts]. rewrite bool_decide_false by (apply Hv; by left). cbn. rewrite Hg. cbn.
    assert (ft_parentId t = Some q) as -> by (unfold parent_of in Hp; by destruct (ft_parentId t) as [[|]|]).
    rewrite IH; [by rewrite <- app_assoc|done|lia|].
    intros x Hx [->|Hx']%elem_of_cons; [done|]. eapply Hv; [by right|done].
Qed.

(** On a forest, [buildTagPath] returns for every tag the names on its path
    from the root down, joined by the separator, and [null] for an unknown
    identifier. *)
Theorem buildTagPath_names tags id :
  tag_forest tags ->
  match map_get (byId tags) id with
  | Some t => exists l, up_chain tags id l /\
      buildTagPath id tags = Some (Some (js_join (js " / ") (rev (names_of tags l))))
  | None => buildTagPath id tags = Some None
  end.
Proof.
  intros Hf. unfold buildTagPath. destruct (map_get (byId tags) id) as [t|] eqn:Hg; [|done].
  destruct (forest_chain _ Hf _ _ Hg) as (l & Hl & _). exists (id :: l). split; [done|].
  pose proof (chain_length _ Hf _ _ Hl) as Hlen. pose proof (up_chain_nodup _ _ _ Hl) as [Hn _]%NoDup_cons.
  cbn [names_of map rev]. rewrite Hg. cbn -[path_parts].
  inversion Hl as [? t' Hg' Hp|? t' p l' Hg' Hp Hl']; subst; rewrite Hg in Hg'; simplify_eq.
  - unfold parent_of in Hp. by destruct (ft_parentId t') as [[|]|].
  - assert (ft_parentId t' = Some p) as -> by (unfold parent_of in Hp; by destruct (ft_parentId t') as [[|]|]).
    rewrite (path_parts_chain _ _ _ Hf Hl'); [done|simpl in Hlen; lia|].
    intros x Hx ->%list_elem_of_singleton. done.
Qed.

(** ** Termination of the walk on any list *)

(** The set of visited identifiers bounds the loop even when the stored parents
    form a cycle. *)
Lemma walk_up_total tags tagId fuel : forall current visited depth,
  NoDup visited -> (forall x, x ∈ visited -> x ∈ map fst (byId tags)) ->
  (length (byId tags) + 2 <= fuel + length visited)%nat ->
  is_Some (walk_up fuel tags tagId current visited depth).
Proof.
  induction fuel as [|fuel IH]; intros current visited depth Hnd Hsub Hfuel.
  - exfalso. apply NoDup_submseteq, submseteq_length in Hsub; [|done]. rewrite length_map in Hsub. lia.
  - destruct current as [[|c r]|]; [by eexists..| |by eexists]. simpl.
    case_bool_decide; [by eexists|]. case_bool_decide as Hv; [by eexists|].
    destruct (map_get (byId tags) (c :: r)) as [t|] eqn:Hg; simpl.
    + apply IH; [by apply NoDup_cons| |simpl; lia]. intros x [->|Hx]%elem_of_cons; [|by apply Hsub].
      apply map_get_in in Hg. by apply (list_elem_of_fmap_2 fst _ _ Hg).
    + destruct fuel as [|fuel]; [|by eexists]. exfalso.
      apply NoDup_submseteq, submseteq_length in Hsub; [|done]. rewrite length_map in Hsub. lia.
Qed.

Lemma length_byId tags : (length (byId tags) <= length tags)%nat.
Proof.
  assert (Hgen : forall m, (length (fold_left (fun m t => map_set m (ft_id t) t) tags m)
                            <= length m + length tags)%nat).
  { induction tags as [|t tags IH]; intros m; simpl; [lia|]. etrans; [apply IH|].
    pose proof (map_set_size m (ft_id t) t). destruct (map_has m (ft_id t)); lia. }
  apply (Hgen []).
Qed.

Lemma validate_walk_total tags tagId p : is_Some (walk_up (S (S (length tags))) tags tagId (Some p) [] 1).
Proof.
  apply walk_up_total; [apply NoDup_nil_2|by intros x Hx%not_elem_of_nil|].
  pose proof (length_byId tags). simpl. lia.
Qed.

(** ** What the handlers let through *)

(** A tag can be moved below itself by naming it in the path with another
    spelling of its identifier.  The database takes both spellings for the same
    uuid, the validation compares the strings, finds neither the tag nor its
    descendants, and the update makes the tag its own parent; the tag is then in no
    tree that [buildTagTree] builds. *)
Theorem put_other_spelling_makes_cycle dbUuid localeCompare i j name color :
  dbUuid j = Some i -> i <> j -> i <> [] -> j <> [] ->
  let tag p := {| ft_id := i; ft_name := name; ft_color := color; ft_parentId := p |} in
  put_tag dbUuid j {| tu_name := None; tu_color := None; tu_parentId := Some (Some i) |}
    [tag None] [tag None] [tag None] [tag None] = ([tag (Some i)], Ok TagSaved) /\
  ~ tag_forest [tag (Some i)] /\ buildTagTree localeCompare [tag (Some i)] = [].
Proof.
  intros Hdb Hij Hi Hj tag. destruct i as [|c r]; [done|]. destruct j as [|c' r']; [done|]. split_and!.
  - unfold put_tag. rewrite Hdb. cbn. rewrite !(bool_decide_true (c :: r = c :: r)) by done. cbn.
    unfold map_has. cbn. rewrite !(bool_decide_true (c :: r = c :: r)) by done. cbn.
    rewrite (bool_decide_false (Some (c' :: r') = _)) by congruence.
    rewrite (bool_decide_false (_ ∈ [])) by apply not_elem_of_nil. cbn. by rewrite andb_false_r.
  - intros Hf. destruct (tf_chain _ Hf (tag (Some (c :: r)))) as (l & Hl & _); [by left|].
    pose proof (up_chain_nodup _ _ _ Hl) as Hnd. inversion Hl as [? t Hg Hp|? t p l' Hg Hp Hl']; subst;
      apply (forest_get _ Hf) in Hg as [->%list_elem_of_singleton _]; [done|]. injection Hp as <-.
    destruct (up_chain_head _ _ _ Hl') as [? ->]. apply NoDup_cons in Hnd as [Hn _]. apply Hn. by left.
  - unfold buildTagTree, map_has. cbn. by rewrite !(bool_decide_true (c :: r = c :: r)) by done.
Qed.

(** The lower-case spelling of an identifier. *)
Lemma put_other_spelling_makes_cycle_witness :
  let tag p := {| ft_id := [97]; ft_name := [120]; ft_color := None; ft_parentId := p |} in
  let lower := fun s => Some (js_to_lower s) in
  (put_tag lower [65] {| tu_name := None; tu_color := None; tu_parentId := Some (Some [97]) |}
    [tag None] [tag None] [tag None] [tag None]).1 = [tag (Some [97])].
Proof.
  intros tag lower.
  destruct (put_other_spelling_makes_cycle lower (fun _ _ => 0) [97] [65] [120] None) as [H _];
    [reflexivity|discriminate..|]. unfold tag. by rewrite H.
Defined.

(** Two moves that are each valid on the tags they read make a cycle when
    both read before either writes: each of two roots becomes the parent of the
    other, both requests answer success, neither tag is in the tree any more, and
    the recursion that measures their height no longer returns. *)
Theorem concurrent_moves_make_cycle dbUuid localeCompare :
  dbUuid [97] = Some [97] -> dbUuid [98] = Some [98] ->
  let tag i p := {| ft_id := [i]; ft_name := [i]; ft_color := None; ft_parentId := p |} in
  let move p := {| tu_name := None; tu_color := None; tu_parentId := Some (Some p) |} in
  let s := [tag 97 None; tag 98 None] in
  let s1 := put_tag dbUuid [97] (move [98]) s s s s in
  let s2 := put_tag dbUuid [98] (move [97]) s s s s1.1 in
  s1.2 = Ok TagSaved /\ s2.2 = Ok TagSaved /\
  s2.1 = [tag 97 (Some [98]); tag 98 (Some [97])] /\
  buildTagTree localeCompare s2.1 = [] /\
  forall fuel, maxDepth fuel s2.1 [97] = None /\ maxDepth fuel s2.1 [98] = None.
Proof.
  intros Ha Hb tag move s s1 s2.
  assert (H1 : s1 = ([tag 97 (Some [98]); tag 98 None], Ok TagSaved))
    by (unfold s1, put_tag; rewrite Ha; vm_compute; reflexivity).
  assert (H2 : s2 = ([tag 97 (Some [98]); tag 98 (Some [97])], Ok TagSaved))
    by (unfold s2, put_tag; rewrite Hb, H1; vm_compute; reflexivity).
  rewrite H1, H2. split_and!; [done..| |].
  - vm_compute. reflexivity.
  - cbn [fst]. induction fuel as [|fuel [IHa IHb]]; [done|].
    split; apply eq_None_not_Some; intros [h (hs & Hhs & _)%maxDepth_unfold];
      [change (childrenOf _ _) with [tag 98 (Some [97])] in Hhs
      |change (childrenOf _ _) with [tag 97 (Some [98])] in Hhs];
      apply Forall2_cons_inv_l in Hhs as (? & ? & Hd & _); simpl in Hd; congruence.
Qed.

Lemma concurrent_moves_make_cycle_witness :
  let tag i p := {| ft_id := [i]; ft_name := [i]; ft_color := None; ft_parentId := p |} in
  maxDepth 20 [tag 97 (Some [98]); tag 98 (Some [97])] [97] = None.
Proof.
  intros tag. destruct (concurrent_moves_make_cycle Some (fun _ _ => 0) eq_refl eq_refl)
    as (_ & _ & Hs & _ & Hm). unfold tag. rewrite <- Hs. apply Hm.
Defined.
