(* ===== verification/WorkQueue.v ===== *)
(** * Durable work queues

    The claim, retry, reap and purge statements that the three tables of
    src/src/workers/audit-outbox-worker.ts (audit_outbox, audit_deliveries and
    webhook_deliveries) share, over rows with a body of any type, and the
    back-off of src/src/lib/http/backoff.ts.  A statement is one step on the
    table; rows that a concurrent transaction has locked are skipped.  The
    theorems of this file hold for every table that is driven by these
    statements; [OutboxWorker] instantiates them. *)

From S2P Require Import Prelude JsString.
Local Open Scope Z_scope.
#[local] Set Warnings "-register-all".
#[local] Set Default Proof Using "Type".

(** ** Back-off *)

Definition MS_PER_SECOND : Z := 1000.
Definition MS_PER_HOUR : Z := 3600000.
Definition MS_PER_DAY : Z := 86400000.

Definition computeBackoffMs (attempt : Z) : Z := Z.min (MS_PER_SECOND * 2 ^ attempt) MS_PER_HOUR.

(** ** Rows *)

Inductive queue_status := Q_PENDING | Q_PROCESSING | Q_SENT | Q_FAILED.
#[export] Instance queue_status_eq_dec : EqDecision queue_status.
Proof. solve_decision. Defined.

Record queue_row (A : Type) := {
  q_body : A; q_status : queue_status; q_attempt_count : Z; q_max_attempts : Z; q_created_at : Z;
  q_next_retry_at : Z; q_processing_started_at : option Z; q_sent_at : option Z;
  q_last_error : option jsstr }.
Arguments q_body {A}. Arguments q_status {A}. Arguments q_attempt_count {A}.
Arguments q_max_attempts {A}. Arguments q_created_at {A}. Arguments q_next_retry_at {A}.
Arguments q_processing_started_at {A}. Arguments q_sent_at {A}. Arguments q_last_error {A}.

Section Queue.
Context {A : Type}.
Implicit Types (r : queue_row A) (t : gmap jsstr (queue_row A)) (p : queue_row A -> bool).

(** The columns a statement sets. *)
Definition set_state r (st : queue_status) (attempts nextRetry : Z) (started sent : option Z)
    (err : option jsstr) : queue_row A :=
  {| q_body := q_body r; q_status := st; q_attempt_count := attempts;
     q_max_attempts := q_max_attempts r; q_created_at := q_created_at r;
     q_next_retry_at := nextRetry; q_processing_started_at := started; q_sent_at := sent;
     q_last_error := err |}.

(** A new row, with the defaults of the schema. *)
Definition fresh_row (body : A) (now : Z) : queue_row A :=
  {| q_body := body; q_status := Q_PENDING; q_attempt_count := 0; q_max_attempts := 8;
     q_created_at := now; q_next_retry_at := now; q_processing_started_at := None;
     q_sent_at := None; q_last_error := None |}.

(** [SELECT id ... WHERE p ORDER BY key ASC LIMIT limit FOR UPDATE SKIP LOCKED]; the
    order among equal keys is that of the table. *)
Definition key_le (key : queue_row A -> Z) (a b : jsstr * queue_row A) : Prop := key (snd a) <= key (snd b).
#[export] Instance key_le_dec key : RelDecision (key_le key).
Proof. intros a b. apply Z_le_dec. Defined.

Definition candidates p (locked : gset jsstr) t : list (jsstr * queue_row A) :=
  List.filter (fun kr => p (snd kr) && negb (bool_decide (fst kr ∈ locked))) (map_to_list t).

Definition select_rows p (key : queue_row A -> Z) (limit : nat) (locked : gset jsstr) t
    : list (jsstr * queue_row A) :=
  take limit (merge_sort (key_le key) (candidates p locked t)).

(** [UPDATE ... SET f WHERE id IN ids] *)
Definition update_ids (f : queue_row A -> queue_row A) (ids : list jsstr) t : gmap jsstr (queue_row A) :=
  map_imap (fun k r => Some (if bool_decide (k ∈ ids) then f r else r)) t.

(** [DELETE ... WHERE id IN ids] *)
Definition delete_ids (ids : list jsstr) t : gmap jsstr (queue_row A) :=
  filter (fun kr => fst kr ∉ ids) t.

(** ** Statements *)

Definition claimable (now : Z) r : bool :=
  bool_decide (q_status r = Q_PENDING) && (q_next_retry_at r <=? now).
Definition claim_row (now : Z) r : queue_row A :=
  set_state r Q_PROCESSING (q_attempt_count r) (q_next_retry_at r) (Some now) (q_sent_at r) (q_last_error r).

(** The claim and the rows it returns. *)
Definition claim (key : queue_row A -> Z) (now : Z) (limit : nat) (locked : gset jsstr) t
    : gmap jsstr (queue_row A) * list (jsstr * queue_row A) :=
  let sel := select_rows (claimable now) key limit locked t in
  (update_ids (claim_row now) (map fst sel) t, map (fun kr => (fst kr, claim_row now (snd kr))) sel).

(** The failure of an attempt: [attempt] is the count the worker read when it
    claimed the row, [delay] the jittered back-off. *)
Definition is_dead (r : queue_row A) : bool := q_max_attempts r <=? q_attempt_count r + 1.
Definition error_row (snapshot : queue_row A) (now delay : Z) (msg : jsstr) r : queue_row A :=
  let attempts := q_attempt_count snapshot + 1 in
  if is_dead snapshot
  then set_state r Q_FAILED attempts (q_next_retry_at r) None (q_sent_at r) (Some msg)
  else set_state r Q_PENDING attempts (now + delay) None (q_sent_at r) (Some msg).

(** The reaper: a row that has been in processing for longer than the time-out. *)
Definition stuck (now timeout : Z) r : bool :=
  bool_decide (q_status r = Q_PROCESSING)
  && match q_processing_started_at r with Some s => s <? now - timeout | None => false end.
Definition reap_row (msg : Z -> jsstr) r : queue_row A :=
  let attempts := q_attempt_count r + 1 in
  set_state r (if q_max_attempts r <=? attempts then Q_FAILED else Q_PENDING) attempts
    (q_next_retry_at r) None (q_sent_at r) (Some (msg attempts)).
Definition started_at r : Z := default 0 (q_processing_started_at r).

Definition reap (msg : Z -> jsstr) (now timeout : Z) (limit : nat) (locked : gset jsstr) t
    : gmap jsstr (queue_row A) * list (jsstr * queue_row A) :=
  let sel := select_rows (stuck now timeout) started_at limit locked t in
  (update_ids (reap_row msg) (map fst sel) t, map (fun kr => (fst kr, reap_row msg (snd kr))) sel).

(** ** Selection *)

Lemma candidates_in p locked t k r :
  (k, r) ∈ candidates p locked t <-> t !! k = Some r /\ p r = true /\ k ∉ locked.
Proof.
  unfold candidates. rewrite list_elem_of_In, filter_In, <- list_elem_of_In, elem_of_map_to_list.
  rewrite andb_true_iff, negb_true_iff, bool_decide_eq_false. done.
Qed.

Lemma select_rows_in p key limit locked t k r :
  (k, r) ∈ select_rows p key limit locked t -> t !! k = Some r /\ p r = true /\ k ∉ locked.
Proof.
  unfold select_rows. intros H. apply (candidates_in p). rewrite <- (merge_sort_Permutation (key_le key)).
  by eapply elem_of_subseteq; [apply subseteq_take|].
Qed.

Lemma candidates_NoDup p locked t : NoDup (map fst (candidates p locked t)).
Proof.
  assert (Hsub : forall (l : list (jsstr * queue_row A)) f, NoDup (map fst l) -> NoDup (map fst (List.filter f l))).
  { induction l as [|x l IH]; intros f; [done|]. intros [Hn Hnd]%NoDup_cons. simpl. destruct (f x); [|by apply IH].
    apply NoDup_cons. split; [|by apply IH]. intros (y & Hy & Hin)%list_elem_of_fmap. apply Hn. rewrite Hy.
    apply list_elem_of_In, filter_In in Hin as [Hin _]. by apply list_elem_of_fmap_2, list_elem_of_In. }
  apply Hsub, NoDup_fst_map_to_list.
Qed.

Lemma select_rows_NoDup p key limit locked t : NoDup (map fst (select_rows p key limit locked t)).
Proof.
  unfold select_rows. assert (Hs : NoDup (map fst (merge_sort (key_le key) (candidates p locked t)))).
  { rewrite (Permutation_map fst (merge_sort_Permutation (key_le key) _)). apply candidates_NoDup. }
  rewrite <- (take_drop limit (merge_sort _ _)), map_app in Hs. by apply NoDup_app in Hs as [? _].
Qed.

Lemma select_rows_length p key limit locked t : (length (select_rows p key limit locked t) <= limit)%nat.
Proof. unfold select_rows. rewrite length_take. lia. Qed.

(** A candidate that is not selected is not older than any selected row, and the
    selection is full. *)
Lemma select_rows_oldest p key limit locked t k r :
  t !! k = Some r -> p r = true -> k ∉ locked ->
  k ∈ map fst (select_rows p key limit locked t) \/
  (length (select_rows p key limit locked t) = limit /\
   forall k' r', (k', r') ∈ select_rows p key limit locked t -> key r' <= key r).
Proof.
  intros Ht Hp Hl. unfold select_rows. set (s := merge_sort (key_le key) (candidates p locked t)).
  assert (Hin : (k, r) ∈ s) by (unfold s; rewrite merge_sort_Permutation; by apply candidates_in).
  assert (Hsort : StronglySorted (key_le key) s).
  { apply StronglySorted_merge_sort.
    - intros a b c. unfold key_le. lia.
    - intros a b. unfold key_le. lia. }
  rewrite <- (take_drop limit s) in Hin, Hsort. apply elem_of_app in Hin as [Hin|Hin].
  - left. by apply (list_elem_of_fmap_2 fst _ _ Hin).
  - right. split.
    + rewrite length_take. apply list_elem_of_lookup_1 in Hin as [i Hi]. apply lookup_lt_Some in Hi.
      rewrite length_drop in Hi. lia.
    + intros k' r' Hin'. clear -Hsort Hin Hin'. induction (take limit s) as [|x l IH]; [by apply not_elem_of_nil in Hin'|].
      simpl in Hsort. apply StronglySorted_inv in Hsort as [Hs Hall]. apply elem_of_cons in Hin' as [<-|Hin']; [|auto].
      rewrite Forall_forall in Hall. specialize (Hall (k, r)). apply Hall. apply elem_of_app. by right.
Qed.

(** A candidate makes the selection non-empty. *)
Lemma select_nonempty p key limit locked t k r :
  (0 < limit)%nat -> t !! k = Some r -> k ∉ locked -> p r = true ->
  (0 < length (select_rows p key limit locked t))%nat.
Proof.
  intros Hl Hr Hk Hp. destruct (select_rows_oldest p key limit locked t k r Hr Hp Hk) as [Hin|[Hlen _]]; [|lia].
  destruct (select_rows p key limit locked t); [by apply not_elem_of_nil in Hin|simpl; lia].
Qed.

Lemma update_ids_lookup f ids t k :
  update_ids f ids t !! k = (fun r => if bool_decide (k ∈ ids) then f r else r) <$> t !! k.
Proof. unfold update_ids. rewrite map_lookup_imap. by destruct (t !! k). Qed.

Lemma delete_ids_lookup ids t k r :
  delete_ids ids t !! k = Some r <-> t !! k = Some r /\ k ∉ ids.
Proof. unfold delete_ids. rewrite map_lookup_filter_Some. done. Qed.

(** A selected identifier names a row of the table that satisfies the predicate. *)
Lemma selected_row p key limit locked t k :
  k ∈ map fst (select_rows p key limit locked t) ->
  exists r, t !! k = Some r /\ p r = true /\ (k, r) ∈ select_rows p key limit locked t.
Proof.
  intros ([k' r] & -> & Hin)%list_elem_of_fmap. simpl. destruct (select_rows_in _ _ _ _ _ _ _ Hin) as (? & ? & _).
  eauto.
Qed.

Lemma claim_ids key now limit locked t :
  map fst (snd (claim key now limit locked t)) = map fst (select_rows (claimable now) key limit locked t).
Proof. unfold claim. simpl. rewrite map_map. done. Qed.

Lemma claim_lookup key now limit locked t k :
  fst (claim key now limit locked t) !! k =
  (fun r => if bool_decide (k ∈ map fst (select_rows (claimable now) key limit locked t))
            then claim_row now r else r) <$> t !! k.
Proof. apply update_ids_lookup. Qed.

(** ** Attempts left *)

Definition terminal (s : queue_status) : bool :=
  match s with Q_SENT | Q_FAILED => true | Q_PENDING | Q_PROCESSING => false end.

(** How many more failures a row survives before it is dead-lettered. *)
Definition budget r : nat :=
  if terminal (q_status r) then O else S (Z.to_nat (q_max_attempts r - 1 - q_attempt_count r)).

Lemma budget_terminal r : budget r = O <-> terminal (q_status r) = true.
Proof. unfold budget. destruct (terminal _); [done|]. split; lia || done. Qed.

Lemma budget_claim now r : q_status r = Q_PENDING -> budget (claim_row now r) = budget r.
Proof. intros H. unfold budget. rewrite H. done. Qed.

(** A recorded error uses up one attempt. *)
Lemma budget_error snapshot now delay msg r :
  q_attempt_count snapshot = q_attempt_count r -> q_max_attempts snapshot = q_max_attempts r ->
  terminal (q_status r) = false -> (budget (error_row snapshot now delay msg r) < budget r)%nat.
Proof.
  intros Ha Hm Ht. unfold error_row, is_dead, budget. rewrite Ht, Ha, Hm.
  destruct (_ <=? _) eqn:E; bools; simpl; lia.
Qed.

Lemma budget_reap msg r : terminal (q_status r) = false -> (budget (reap_row msg r) < budget r)%nat.
Proof.
  intros Ht. unfold budget, reap_row. rewrite Ht. simpl. destruct (_ <=? _) eqn:E; bools; simpl; lia.
Qed.

(** The sum of a measure over a table. *)
Definition total (f : queue_row A -> nat) t : nat := sum_list_with (fun kr => f (snd kr)) (map_to_list t).

Lemma total_insert f t k r : t !! k = None -> total f (<[k := r]> t) = (f r + total f t)%nat.
Proof. intros H. unfold total. rewrite map_to_list_insert by done. done. Qed.

Lemma total_delete f t k r : t !! k = Some r -> total f t = (f r + total f (delete k t))%nat.
Proof. intros H. rewrite <- (total_insert f (delete k t) k r) by apply lookup_delete_eq. by rewrite insert_delete_id. Qed.

Lemma total_empty_le f t : (total f ∅ <= total f t)%nat.
Proof. unfold total. rewrite map_to_list_empty. simpl. lia. Qed.

(** The sum does not grow when no row's measure does. *)
Lemma total_le f t' t :
  (forall k r', t' !! k = Some r' -> exists r, t !! k = Some r /\ (f r' <= f r)%nat) ->
  (total f t' <= total f t)%nat.
Proof.
  revert t. induction t' as [|k r' t' Hk IH] using map_ind; intros t H; [apply total_empty_le|].
  destruct (H k r') as (r & Hr & Hle); [by rewrite lookup_insert_eq|].
  rewrite total_insert by done. rewrite (total_delete f t k r Hr).
  assert (total f t' <= total f (delete k t))%nat; [|lia]. apply IH. intros k' r0 Hr0.
  assert (k' <> k) by congruence. rewrite lookup_delete_ne by done. apply H. by rewrite lookup_insert_ne.
Qed.

Lemma total_alter f g t k r :
  t !! k = Some r -> (total f (alter g k t) + f r = total f t + f (g r))%nat.
Proof.
  intros H. rewrite (total_delete f (alter g k t) k (g r)) by (by rewrite lookup_alter_eq, H).
  rewrite (total_delete f t k r H), delete_alter_eq. lia.
Qed.

Lemma total_0 f t : total f t = O -> forall k r, t !! k = Some r -> f r = O.
Proof. intros H k r Hr. rewrite (total_delete f t k r Hr) in H. lia. Qed.

Lemma update_ids_cons g k ids t :
  k ∉ ids -> update_ids g (k :: ids) t = alter g k (update_ids g ids t).
Proof.
  intros Hk. apply map_eq. intros k'. destruct (decide (k' = k)) as [->|Hne].
  - rewrite lookup_alter_eq, !update_ids_lookup. rewrite bool_decide_true by by left.
    rewrite bool_decide_false by done. by destruct (t !! k).
  - rewrite lookup_alter_ne, !update_ids_lookup by done.
    assert (Hiff : k' ∈ k :: ids <-> k' ∈ ids) by (rewrite elem_of_cons; naive_solver).
    by rewrite (bool_decide_ext _ _ Hiff).
Qed.

(** An update that lowers the measure of each of its rows. *)
Lemma update_ids_total f g ids t :
  NoDup ids -> (forall k, k ∈ ids -> exists r, t !! k = Some r /\ (f (g r) < f r)%nat) ->
  (total f (update_ids g ids t) + length ids <= total f t)%nat.
Proof.
  induction ids as [|k ids IH]; intros Hnd Hids.
  - assert (total f (update_ids g [] t) <= total f t)%nat; [|simpl; lia]. apply total_le. intros k r'.
    rewrite update_ids_lookup. intros (r & Hr & ->)%fmap_Some. exists r. split; [done|].
    by rewrite bool_decide_false by apply not_elem_of_nil.
  - apply NoDup_cons in Hnd as [Hk Hnd]. rewrite update_ids_cons by done.
    destruct (Hids k) as (r & Hr & Hlt); [by left|].
    assert (Hr' : update_ids g ids t !! k = Some r) by (by rewrite update_ids_lookup, Hr, bool_decide_false).
    pose proof (total_alter f g _ _ _ Hr'). specialize (IH Hnd). simpl.
    assert (forall k', k' ∈ ids -> exists r, t !! k' = Some r /\ (f (g r) < f r)%nat) as Hids'
      by (intros; apply Hids; by right). specialize (IH Hids'). lia.
Qed.

(** The reaper uses up an attempt of every row it takes. *)
Lemma reap_total msg now timeout limit locked t :
  let c := reap msg now timeout limit locked t in
  (total budget (fst c) + length (snd c) <= total budget t)%nat.
Proof.
  unfold reap. cbn [fst snd]. rewrite length_map. rewrite <- (length_map fst (select_rows _ _ _ _ _)).
  apply update_ids_total; [apply select_rows_NoDup|].
  intros k Hk. destruct (selected_row _ _ _ _ _ _ Hk) as (r & Hr & Hs & _). exists r. split; [done|].
  apply budget_reap. unfold stuck in Hs. bools. by rewrite H.
Qed.

Lemma claim_total key now limit locked t :
  (total budget (fst (claim key now limit locked t)) <= total budget t)%nat.
Proof.
  apply total_le. intros k r'. rewrite claim_lookup. intros (r & Hr & ->)%fmap_Some. exists r. split; [done|].
  case_bool_decide as Hk; [|done]. destruct (selected_row _ _ _ _ _ _ Hk) as (r0 & Hr0 & Hc & _).
  assert (r0 = r) as -> by congruence. unfold claimable in Hc. bools. by rewrite budget_claim.
Qed.

(** What a claim returns. *)
Lemma claim_returned key now limit locked t k r :
  (k, r) ∈ snd (claim key now limit locked t) ->
  fst (claim key now limit locked t) !! k = Some r /\ q_status r = Q_PROCESSING /\ q_processing_started_at r = Some now.
Proof.
  unfold claim. cbn [fst snd]. intros ([k0 r0] & [= -> ->] & Hin)%list_elem_of_fmap.
  destruct (select_rows_in _ _ _ _ _ _ _ Hin) as (Hr & _). rewrite update_ids_lookup, Hr.
  rewrite bool_decide_true; [done|]. by apply (list_elem_of_fmap_2 fst _ _ Hin).
Qed.

(** ** Leases *)

(** The steps that concurrent workers take on one table.  A settlement is any
    update of one row by the worker that holds it; a purge deletes terminal
    rows. *)
Inductive queue_event :=
| QClaim (key : queue_row A -> Z) (now : Z) (limit : nat) (locked : gset jsstr)
| QReap (msg : Z -> jsstr) (now timeout : Z) (limit : nat) (locked : gset jsstr)
| QSettle (id : jsstr) (f : queue_row A -> queue_row A)
| QInsert (id : jsstr) (body : A) (now : Z)
| QPurge (p : queue_row A -> bool) (key : queue_row A -> Z) (limit : nat).

(** The next table, and the identifiers a claim hands out. *)
Definition queue_step t (e : queue_event) : gmap jsstr (queue_row A) * list jsstr :=
  match e with
  | QClaim key now limit locked => let c := claim key now limit locked t in (fst c, map fst (snd c))
  | QReap msg now timeout limit locked => (fst (reap msg now timeout limit locked t), [])
  | QSettle id f => (alter f id t, [])
  | QInsert id body now => (match t !! id with Some _ => t | None => <[id := fresh_row body now]> t end, [])
  | QPurge p key limit =>
      let p' r := terminal (q_status r) && p r in
      (delete_ids (map fst (select_rows p' key limit ∅ t)) t, [])
  end.

(** A lease: the row, the worker that claimed it, and the time of the claim. *)
Record lease := { ls_row : jsstr; ls_worker : nat; ls_since : Z }.

Definition reaped_ids t (e : queue_event) : list jsstr :=
  match e with
  | QReap msg now timeout limit locked => map fst (snd (reap msg now timeout limit locked t))
  | _ => []
  end.

(** The leases after a step of worker [w]: a claim starts the leases of the rows it
    hands out; the worker's own settlement ends one, and so does the reaper for the
    rows it takes back. *)
Definition lease_step t (w : nat) (e : queue_event) (ls : list lease) : list lease :=
  match e with
  | QClaim _ now _ _ =>
      map (fun id => {| ls_row := id; ls_worker := w; ls_since := now |}) (snd (queue_step t e)) ++ ls
  | QReap _ _ _ _ _ => List.filter (fun l => negb (bool_decide (ls_row l ∈ reaped_ids t e))) ls
  | QSettle id _ => List.filter (fun l => negb (ls_row l =s id)) ls
  | _ => ls
  end.

(** A worker settles a row only under its own lease on it: not a row it never
    claimed, nor one it has settled or the reaper has taken back. *)
Definition settles_own (w : nat) (e : queue_event) (ls : list lease) : Prop :=
  match e with
  | QSettle id _ => exists l, l ∈ ls /\ ls_row l = id /\ ls_worker l = w
  | _ => True
  end.

(** The tables and leases that such workers reach from a table, which may be any. *)
Inductive leased_run t0 : gmap jsstr (queue_row A) -> list lease -> Prop :=
| leased_start : leased_run t0 t0 []
| leased_step t ls w e :
    leased_run t0 t ls -> settles_own w e ls ->
    leased_run t0 (fst (queue_step t e)) (lease_step t w e ls).

Lemma leased_next t0 t ls w e ls' :
  leased_run t0 t ls -> settles_own w e ls -> lease_step t w e ls = ls' -> leased_run t0 (fst (queue_step t e)) ls'.
Proof. intros ?? <-. by constructor. Qed.

Definition held (id : jsstr) (s : Z) t : Prop :=
  exists r, t !! id = Some r /\ q_status r = Q_PROCESSING /\ q_processing_started_at r = Some s.

Lemma claim_ids_selected key now limit locked t id r :
  id ∈ map fst (snd (claim key now limit locked t)) -> t !! id = Some r -> q_status r = Q_PENDING.
Proof.
  rewrite claim_ids. intros (r' & Hr' & Hc & _)%selected_row Hr. assert (r' = r) as -> by congruence.
  unfold claimable in Hc. by bools.
Qed.

Lemma reap_ids msg now timeout limit locked t :
  map fst (snd (reap msg now timeout limit locked t)) = map fst (select_rows (stuck now timeout) started_at limit locked t).
Proof. unfold reap. cbn [snd]. by rewrite map_map. Qed.

(** The reaper takes a row back only after the time-out. *)
Lemma reap_after_timeout msg now timeout limit locked t id s :
  held id s t -> id ∈ map fst (snd (reap msg now timeout limit locked t)) -> s < now - timeout.
Proof.
  intros (r & Hr & _ & Hs). rewrite reap_ids. intros (r' & Hr' & Hc & _)%selected_row.
  assert (r' = r) as -> by congruence. unfold stuck in Hc. rewrite Hs in Hc. by bools.
Qed.

(** A row in processing stays as it is but for a settlement or the reaper. *)
Lemma held_step id s t e :
  held id s t -> (forall f, e <> QSettle id f) -> id ∉ reaped_ids t e ->
  held id s (fst (queue_step t e)) /\ id ∉ snd (queue_step t e).
Proof.
  intros (r & Hr & Hst & Hs) He Hreap. unfold held.
  destruct e as [key now limit locked|msg now timeout limit locked|id' f|id' body now|p key limit];
    cbn [queue_step fst snd reaped_ids] in *.
  - assert (Hn : id ∉ map fst (snd (claim key now limit locked t)))
      by (intros Hin; pose proof (claim_ids_selected _ _ _ _ _ _ _ Hin Hr); congruence).
    split; [|done]. rewrite claim_ids in Hn. rewrite claim_lookup, Hr, bool_decide_false by done. simpl. eauto.
  - split; [|apply not_elem_of_nil]. rewrite reap_ids in Hreap. unfold reap. simpl.
    rewrite update_ids_lookup, Hr, bool_decide_false by done. simpl. eauto.
  - split; [|apply not_elem_of_nil]. rewrite lookup_alter_ne by (intros ->; by eapply He). eauto.
  - split; [|apply not_elem_of_nil]. destruct (t !! id') eqn:E; [eauto|].
    rewrite lookup_insert_ne by congruence. eauto.
  - split; [|apply not_elem_of_nil]. exists r. split; [|done]. apply delete_ids_lookup. split; [done|].
    intros (r' & Hr' & Hp' & _)%selected_row. assert (r' = r) as -> by congruence. by rewrite Hst in Hp'.
Qed.

(** A claimed row is held from the time of the claim. *)
Lemma claim_held key now limit locked t id :
  id ∈ map fst (snd (claim key now limit locked t)) -> held id now (fst (claim key now limit locked t)).
Proof.
  rewrite claim_ids. intros Hin. destruct (selected_row _ _ _ _ _ _ Hin) as (r & Hr & Hc & _).
  exists (claim_row now r). by rewrite claim_lookup, Hr, bool_decide_true.
Qed.

Lemma claim_NoDup key now limit locked t : NoDup (map fst (snd (claim key now limit locked t))).
Proof. rewrite claim_ids. apply select_rows_NoDup. Qed.

(** A leased row is in processing since its claim, and has one lease. *)
Definition leases_ok t (ls : list lease) : Prop :=
  Forall (fun l => held (ls_row l) (ls_since l) t) ls /\ NoDup (map ls_row ls).

Lemma leases_ok_filter t ls keep : leases_ok t ls -> leases_ok t (List.filter keep ls).
Proof.
  intros [H1 H2]. split.
  - apply list.Forall_forall. intros l Hl%list_elem_of_In%filter_In. rewrite list.Forall_forall in H1.
    apply H1, list_elem_of_In, Hl.
  - clear H1. induction ls as [|l ls IH]; [constructor|]. cbn in *. apply NoDup_cons in H2 as [Hn H2].
    destruct (keep l); [|by apply IH]. cbn. apply NoDup_cons. split; [|by apply IH]. intros Hin. apply Hn.
    apply list_elem_of_fmap in Hin as (l' & -> & Hl'%list_elem_of_In%filter_In).
    by apply list_elem_of_fmap_2, list_elem_of_In, Hl'.
Qed.

(** Leases survive a step that does not touch their rows. *)
Lemma leases_ok_step t ls e :
  leases_ok t ls -> (forall l f, l ∈ ls -> e <> QSettle (ls_row l) f) -> (forall l, l ∈ ls -> ls_row l ∉ reaped_ids t e) ->
  leases_ok (fst (queue_step t e)) ls /\ forall id, id ∈ snd (queue_step t e) -> id ∉ map ls_row ls.
Proof.
  intros [H1 H2] Hs Hr. rewrite list.Forall_forall in H1.
  assert (Hk : forall l, l ∈ ls -> held (ls_row l) (ls_since l) (fst (queue_step t e)) /\ ls_row l ∉ snd (queue_step t e))
    by (intros l Hl; apply held_step; [by apply H1|intros f; by apply Hs|by apply Hr]).
  split; [split; [apply list.Forall_forall; intros l Hl; by apply Hk|done]|].
  intros id Hid (l & -> & Hl)%list_elem_of_fmap. by apply (Hk l Hl).
Qed.

Lemma leased_run_ok t0 t ls : leased_run t0 t ls -> leases_ok t ls.
Proof.
  induction 1 as [|t ls w e _ IH Hown]; [split; constructor|].
  destruct e as [key now limit locked|msg now timeout limit locked|id f|id body now|p key limit]; cbn [lease_step].
  - destruct (leases_ok_step t ls (QClaim key now limit locked) IH) as [[H1 H2] Hn]; [done|intros; apply not_elem_of_nil|].
    set (ids := snd _) in *. split.
    + apply Forall_app. split; [|done]. apply list.Forall_forall. intros l (id & -> & Hid)%list_elem_of_fmap.
      by apply claim_held.
    + rewrite map_app, map_map. cbn [ls_row]. rewrite map_id. apply NoDup_app. split_and!; [apply claim_NoDup|done..].
  - apply (leases_ok_step t _ (QReap msg now timeout limit locked)); [by apply leases_ok_filter|done|].
    intros l [_ Hl%negb_true_iff%bool_decide_eq_false]%list_elem_of_In%filter_In. exact Hl.
  - apply (leases_ok_step t _ (QSettle id f)); [by apply leases_ok_filter| |intros; apply not_elem_of_nil].
    intros l g [_ Hl%negb_true_iff%bool_decide_eq_false]%list_elem_of_In%filter_In [= Heq _]. congruence.
  - apply (leases_ok_step t ls (QInsert id body now)); [done..|intros; apply not_elem_of_nil].
  - apply (leases_ok_step t ls (QPurge p key limit)); [done..|intros; apply not_elem_of_nil].
Qed.
End Queue.
Arguments leased_run {A}.

(** C29: a claim is exclusive among workers that settle a row only under their own
    lease on it, a lease lasting from the claim to the settlement or to the reaper
    that takes the row back.  Whatever such workers claim, insert, purge, settle and
    reap, in any order and at any times: no two leases are on one row, a leased row
    is in processing since its claim, no claim hands out a leased row, nor a row
    twice, and the reaper takes a leased row back only after the time-out. *)
Theorem claim_exclusive {A} (t0 t : gmap jsstr (queue_row A)) (ls : list lease) :
  leased_run t0 t ls ->
  NoDup (map ls_row ls) /\
  (forall l, l ∈ ls -> held (ls_row l) (ls_since l) t) /\
  (forall key now limit locked, let ids := map fst (snd (claim key now limit locked t)) in
     NoDup ids /\ forall l, l ∈ ls -> ls_row l ∉ ids) /\
  (forall msg now timeout limit locked l, l ∈ ls ->
     ls_row l ∈ map fst (snd (reap msg now timeout limit locked t)) -> ls_since l < now - timeout).
Proof.
  intros [H1 H2]%leased_run_ok. rewrite list.Forall_forall in H1. split_and!; [done|done|..].
  - intros key now limit locked ids. split; [apply claim_NoDup|]. intros l Hl Hid.
    destruct (H1 l Hl) as (r & Hr & Hst & _). pose proof (claim_ids_selected _ _ _ _ _ _ _ Hid Hr). congruence.
  - intros msg now timeout limit locked l Hl. by apply reap_after_timeout, H1.
Qed.

(** Witness data: worker 1 claims a row, worker 2 the other and settles it, and a
    reaper finds nothing. *)
Definition demo_queue : gmap jsstr (queue_row unit) := {[ [1] := fresh_row tt 0; [2] := fresh_row tt 1 ]}.
Definition demo_after1 := fst (queue_step demo_queue (QClaim q_created_at 5 1 ∅)).
Definition demo_after2 := fst (queue_step demo_after1 (QClaim q_created_at 6 9 ∅)).
Definition demo_after3 := fst (queue_step demo_after2 (QSettle [2] (fun r => r))).
Definition demo_lease : lease := {| ls_row := [1]; ls_worker := 1; ls_since := 5 |}.

Lemma claim_exclusive_witness :
  let t := fst (queue_step demo_after3 (QReap (fun _ => []) 7 300000 9 ∅)) in
  held [1] 5 t /\ [1] ∉ map fst (snd (claim q_created_at 8 9 ∅ t)).
Proof.
  assert (Hrun : leased_run demo_queue (fst (queue_step demo_after3 (QReap (fun _ => []) 7 300000 9 ∅))) [demo_lease]).
  { eapply (leased_next _ _ [demo_lease] 3); [|exact I|vm_compute; reflexivity].
    eapply (leased_next _ _ [{| ls_row := [2]; ls_worker := 2; ls_since := 6 |}; demo_lease] 2);
      [|eexists; split; [apply list_elem_of_here|done]|vm_compute; reflexivity].
    eapply (leased_next _ _ [demo_lease] 2); [|exact I|vm_compute; reflexivity].
    eapply (leased_next _ _ [] 1); [constructor|exact I|vm_compute; reflexivity]. }
  destruct (claim_exclusive _ _ _ Hrun) as (_ & Hheld & Hclaim & _). split.
  - apply (Hheld demo_lease), list_elem_of_here.
  - apply (proj2 (Hclaim q_created_at 8 9%nat ∅) demo_lease), list_elem_of_here.
Defined.
