(* ===== verification/OutboxWorker.v ===== *)
(** * The outbox worker

    The rest of src/src/workers/audit-outbox-worker.ts around the deliveries of
    [AuditOutbox]: claiming a batch, processing its rows, recording errors,
    processing audit and webhook deliveries, the reaper, the retention purge and
    the depth alert.  The three tables are queues of [WorkQueue]; the delivery
    transactions run on a view of the state.  What the outside decides (generated
    identifiers, the jitter, database faults, the answers of sinks and webhooks)
    is given per row as an oracle. *)

From S2P Require Import Prelude JsString JsNumber JsJson AuditChain AuditOutbox ScopeParser WorkQueue.
Local Open Scope Z_scope.
#[local] Set Warnings "-register-all".
#[local] Set Default Proof Using "Type".

(** ** Configuration *)

Record worker_config := {
  BATCH_SIZE : nat; PROCESSING_TIMEOUT_MS : Z; RETENTION_HOURS : Z; FAILED_RETENTION_DAYS : Z;
  REAP_BATCH_SIZE : nat; PURGE_BATCH_SIZE : nat; READY_PENDING_THRESHOLD : Z; READY_OLDEST_THRESHOLD : Z }.

(** The defaults of the environment variables. *)
Definition AUDIT_OUTBOX : worker_config :=
  {| BATCH_SIZE := 500; PROCESSING_TIMEOUT_MS := 300000; RETENTION_HOURS := 24;
     FAILED_RETENTION_DAYS := 90; REAP_BATCH_SIZE := 1000; PURGE_BATCH_SIZE := 1000;
     READY_PENDING_THRESHOLD := 10000; READY_OLDEST_THRESHOLD := 600 |}.

(** ** State *)

Record outbox_body := { ob_tenant : jsstr; ob_payload : json }.

(** The audit events that the worker writes without the outbox. *)
Record direct_log := {
  dl_tenant : jsstr; dl_action : jsstr; dl_scope : jsstr; dl_teamId : option jsstr;
  dl_metadata : list (jsstr * json) }.

Record target_health := { th_failCount : Z; th_lastError : option jsstr; th_lastDeliveredAt : option Z }.
Record webhook := {
  wh_tenantId : jsstr; wh_teamId : option jsstr; wh_events : list jsstr; wh_isActive : bool;
  wh_failCount : Z; wh_lastError : option jsstr }.

Record worker_state := {
  ws_anchors : gmap jsstr anchor; ws_logs : list log_row; ws_targets : list delivery_target;
  ws_outbox : gmap jsstr (queue_row outbox_body);
  ws_deliveries : gmap jsstr (queue_row audit_delivery);
  ws_hooks : gmap jsstr (queue_row webhook_delivery);
  ws_health : gmap jsstr target_health; ws_webhooks : gmap jsstr webhook;
  ws_direct : list direct_log }.

Definition set_queue (f : gmap jsstr (queue_row outbox_body) -> gmap jsstr (queue_row outbox_body)) (w : worker_state) :=
  {| ws_anchors := ws_anchors w; ws_logs := ws_logs w; ws_targets := ws_targets w;
     ws_outbox := f (ws_outbox w); ws_deliveries := ws_deliveries w; ws_hooks := ws_hooks w;
     ws_health := ws_health w; ws_webhooks := ws_webhooks w; ws_direct := ws_direct w |}.
Definition set_deliveries (f : gmap jsstr (queue_row audit_delivery) -> gmap jsstr (queue_row audit_delivery)) (w : worker_state) :=
  {| ws_anchors := ws_anchors w; ws_logs := ws_logs w; ws_targets := ws_targets w;
     ws_outbox := ws_outbox w; ws_deliveries := f (ws_deliveries w); ws_hooks := ws_hooks w;
     ws_health := ws_health w; ws_webhooks := ws_webhooks w; ws_direct := ws_direct w |}.
Definition set_hooks (f : gmap jsstr (queue_row webhook_delivery) -> gmap jsstr (queue_row webhook_delivery)) (w : worker_state) :=
  {| ws_anchors := ws_anchors w; ws_logs := ws_logs w; ws_targets := ws_targets w;
     ws_outbox := ws_outbox w; ws_deliveries := ws_deliveries w; ws_hooks := f (ws_hooks w);
     ws_health := ws_health w; ws_webhooks := ws_webhooks w; ws_direct := ws_direct w |}.
Definition set_health (f : gmap jsstr target_health -> gmap jsstr target_health) (w : worker_state) :=
  {| ws_anchors := ws_anchors w; ws_logs := ws_logs w; ws_targets := ws_targets w;
     ws_outbox := ws_outbox w; ws_deliveries := ws_deliveries w; ws_hooks := ws_hooks w;
     ws_health := f (ws_health w); ws_webhooks := ws_webhooks w; ws_direct := ws_direct w |}.
Definition set_webhooks (f : gmap jsstr webhook -> gmap jsstr webhook) (w : worker_state) :=
  {| ws_anchors := ws_anchors w; ws_logs := ws_logs w; ws_targets := ws_targets w;
     ws_outbox := ws_outbox w; ws_deliveries := ws_deliveries w; ws_hooks := ws_hooks w;
     ws_health := ws_health w; ws_webhooks := f (ws_webhooks w); ws_direct := ws_direct w |}.
Definition add_direct (ls : list direct_log) (w : worker_state) :=
  {| ws_anchors := ws_anchors w; ws_logs := ws_logs w; ws_targets := ws_targets w;
     ws_outbox := ws_outbox w; ws_deliveries := ws_deliveries w; ws_hooks := ws_hooks w;
     ws_health := ws_health w; ws_webhooks := ws_webhooks w; ws_direct := ws_direct w ++ ls |}.

Definition num (n : Z) : json := JNum (round_double n 1).

(** [writeDirectAuditLogInTx], with the tenant scope unless a scope is given. *)
Definition writeDirectAuditLogInTx (tenantId action : jsstr) (metadata : list (jsstr * json))
    (team : option jsstr) : direct_log :=
  {| dl_tenant := tenantId; dl_action := action;
     dl_scope := match team with Some _ => js "TEAM" | None => js "TENANT" end;
     dl_teamId := team; dl_metadata := metadata |}.

(** The part of the state that the delivery transactions read and write. *)
Definition ob_status (s : queue_status) : outbox_status :=
  match s with
  | Q_PENDING => OB_PENDING | Q_PROCESSING => OB_PROCESSING | Q_SENT => OB_SENT | Q_FAILED => OB_FAILED
  end.
Definition bodies {A} (t : gmap jsstr (queue_row A)) : list A := map (fun kr => q_body (snd kr)) (map_to_list t).
Definition chain_view (w : worker_state) : chain_db :=
  {| db_anchors := ws_anchors w; db_logs := ws_logs w;
     db_outbox := (fun r => ob_status (q_status r)) <$> ws_outbox w;
     db_webhooks := bodies (ws_hooks w); db_targets := ws_targets w;
     db_deliveries := bodies (ws_deliveries w) |}.

(** ** Processing a batch of the outbox *)

Record row_oracle := {
  o_now : Z;                    (* the clock of this row's transactions *)
  o_fault : option jsstr;       (* a database fault of the delivery, by its message *)
  o_record_ok : bool;           (* whether the transaction that records an error commits *)
  o_thrown : jsstr;             (* the message of an exception of the delivery itself *)
  o_delay : Z;                  (* the jittered back-off *)
  o_logId : jsstr; o_newId : nat -> jsstr }.

(** [parsePayloadAction] *)
Definition parsePayloadAction (raw : json) : jsstr :=
  match raw with
  | JObj _ | JArr _ => default (js "unknown") (get_string raw (js "action"))
  | _ => js "unknown"
  end.

Section Sanitize.
(** [sanitizeErrorForStorage] of src/src/lib/http/external-http.ts *)
Context (sanitize : jsstr -> jsstr).
Context (sha256 : list Z -> list Z).

Definition recordError (o : row_oracle) (id : jsstr) (row : queue_row outbox_body) (errorMsg : jsstr)
    (w : worker_state) : worker_state :=
  let sanitizedError := sanitize errorMsg in
  if negb (o_record_ok o) then w
  else
    let w' := set_queue (alter (error_row row (o_now o) (o_delay o) (take 1024 sanitizedError)) id) w in
    if is_dead row then
      add_direct [writeDirectAuditLogInTx (ob_tenant (q_body row)) (js "AUDIT_OUTBOX_DEAD_LETTER")
                    [(js "outboxId", JStr id); (js "action", JStr (parsePayloadAction (ob_payload (q_body row))));
                     (js "attemptCount", num (q_attempt_count row + 1));
                     (js "lastError", JStr (take 256 sanitizedError))] None] w'
    else w'.

(** Insertion of new rows under generated identifiers; [None] on a clash. *)
Fixpoint insert_new {A} (now : Z) (newId : nat -> jsstr) (n : nat) (new : list A)
    (t : gmap jsstr (queue_row A)) : option (gmap jsstr (queue_row A)) :=
  match new with
  | [] => Some t
  | b :: new' =>
      match t !! newId n with
      | Some _ => None
      | None => insert_new now newId (S n) new' (<[newId n := fresh_row b now]> t)
      end
  end.

(** The commit of a delivery transaction: the log and the anchor it wrote, the work
    items it enqueued, and the status of the outbox row. *)
Definition commit_delivery (o : row_oracle) (id : jsstr) (db : chain_db) (res : deliver_result)
    (w : worker_state) : option worker_state :=
  match insert_new (o_now o) (o_newId o) 0 (drop (length (bodies (ws_hooks w))) (db_webhooks db)) (ws_hooks w),
        insert_new (o_now o) (o_newId o) 1 (drop (length (bodies (ws_deliveries w))) (db_deliveries db))
          (ws_deliveries w) with
  | Some hooks, Some deliveries =>
      let settle r :=
        if dr_delivered res
        then set_state r Q_SENT (q_attempt_count r) (q_next_retry_at r) None (Some (o_now o)) (q_last_error r)
        else set_state r Q_PENDING (q_attempt_count r) (q_next_retry_at r) None (q_sent_at r) (q_last_error r) in
      Some {| ws_anchors := db_anchors db; ws_logs := db_logs db; ws_targets := ws_targets w;
              ws_outbox := alter settle id (ws_outbox w); ws_deliveries := deliveries; ws_hooks := hooks;
              ws_health := ws_health w; ws_webhooks := ws_webhooks w; ws_direct := ws_direct w |}
  | _, _ => None
  end.

(** Other messages than the worker's own come from the libraries that throw. *)
Definition deliver_error_text (o : row_oracle) (tenant : jsstr) (e : deliver_error) : jsstr :=
  match e with
  | AnchorMissing => js "Anchor row missing after upsert for tenant " ++ tenant
  | CanonicalizationFailed | DuplicateId => o_thrown o
  end.

(** The body of the loop of [processBatch]; [chainEnabled] is what the cache of the
    batch holds. *)
Definition process_row (chainEnabled : jsstr -> bool) (o : row_oracle) (id : jsstr)
    (row : queue_row outbox_body) (w : worker_state) : worker_state :=
  let tenant := ob_tenant (q_body row) in
  match parsePayload (ob_payload (q_body row)) with
  | None => recordError o id row (js "outbox payload is not an object") w
  | Some payload =>
      if negb (UUID_RE (pl_userId payload)) && negb (pl_actorType payload =s js "SYSTEM") then
        recordError o id row (js "invalid userId for non-SYSTEM actor type") w
      else if negb (UUID_RE (pl_userId payload)) then
        recordError o id row
          (js "SYSTEM actor with invalid userId must not enter the outbox " ++ [8212]
           ++ js " check OUTBOX_BYPASS_AUDIT_ACTIONS") w
      else
        match o_fault o with
        | Some msg => recordError o id row msg w
        | None =>
            let r := {| ob_id := id; ob_tenant_id := tenant; ob_created_at := q_created_at row |} in
            let chained := negb (tenant =s []) && chainEnabled tenant in
            match (if chained then deliverRowWithChain sha256 (o_now o) r payload (o_logId o) (chain_view w)
                   else deliverRow r payload (o_logId o) (chain_view w)) with
            | Throw e => recordError o id row (deliver_error_text o tenant e) w
            | Ok (db, res) =>
                match commit_delivery o id db res w with
                | Some w' => w'
                | None => recordError o id row (deliver_error_text o tenant DuplicateId) w
                end
            end
        end
  end.

Definition process_rows (chainEnabled : jsstr -> bool) (oracle : jsstr -> row_oracle)
    (rows : list (jsstr * queue_row outbox_body)) (w : worker_state) : worker_state :=
  fold_left (fun w kr => process_row chainEnabled (oracle (fst kr)) (fst kr) (snd kr) w) rows w.

(** [claimBatch] *)
Definition claimBatch (batchSize : nat) (now : Z) (locked : gset jsstr) (w : worker_state)
    : worker_state * list (jsstr * queue_row outbox_body) :=
  let c := claim q_created_at now batchSize locked (ws_outbox w) in (set_queue (fun _ => fst c) w, snd c).

(** [processBatch], with the number of claimed rows. *)
Definition processBatch (batchSize : nat) (chainEnabled : jsstr -> bool) (oracle : jsstr -> row_oracle)
    (now : Z) (locked : gset jsstr) (w : worker_state) : worker_state * nat :=
  let c := claimBatch batchSize now locked w in
  (process_rows chainEnabled oracle (snd c) (fst c), length (snd c)).

(** ** Audit deliveries *)

Definition DELIVERERS : list jsstr := [js "WEBHOOK"; js "SIEM_HEC"; js "S3_OBJECT"].

(** What the sink and the transactions of one delivery do. *)
Inductive delivery_outcome := D_ok | D_error (msg : jsstr).
Record delivery_oracle := {
  d_now : Z; d_outcome : delivery_outcome; d_delay : Z;
  d_record_ok : bool (* whether the transaction that records an error commits *) }.

Definition find_target (id : jsstr) (ts : list delivery_target) : option delivery_target :=
  List.find (fun t => dt_id t =s id) ts.
Definition fail_count (w : worker_state) (targetId : jsstr) : Z :=
  default 0 (th_failCount <$> ws_health w !! targetId).

(** [None]: the exception of the failed transaction ends the batch. *)
Definition recordDeliveryError (o : delivery_oracle) (id : jsstr) (row : queue_row audit_delivery)
    (failCount : Z) (err : jsstr) (w : worker_state) : option worker_state :=
  let message := sanitize err in
  if negb (d_record_ok o) then None
  else
    let w' := set_deliveries (alter (error_row row (d_now o) (d_delay o) message) id) w in
    if is_dead row then
      let targetId := ad_targetId (q_body row) in
      Some (add_direct [writeDirectAuditLogInTx (ad_tenantId (q_body row)) (js "AUDIT_DELIVERY_DEAD_LETTER")
                          [(js "deliveryId", JStr id); (js "targetId", JStr targetId);
                           (js "error", JStr (take 256 message))] None]
              (set_health (alter (fun h => {| th_failCount := failCount + 1; th_lastError := Some message;
                                              th_lastDeliveredAt := th_lastDeliveredAt h |}) targetId) w'))
    else Some w'.

Definition processOneDelivery (o : delivery_oracle) (id : jsstr) (row : queue_row audit_delivery)
    (w : worker_state) : option worker_state :=
  let targetId := ad_targetId (q_body row) in
  match find_target targetId (ws_targets w) with
  | None => Some w
  | Some target =>
      let failCount := fail_count w targetId in
      if negb (bool_decide (dt_kind target ∈ DELIVERERS)) then
        recordDeliveryError o id row failCount (js "Unknown delivery target kind: " ++ dt_kind target) w
      else
        match d_outcome o with
        | D_error msg => recordDeliveryError o id row failCount msg w
        | D_ok =>
            let sent r := set_state r Q_SENT (q_attempt_count r) (q_next_retry_at r)
                            (q_processing_started_at r) (q_sent_at r) None in
            let healthy h :=
              {| th_failCount := if 0 <? failCount then 0 else th_failCount h;
                 th_lastError := if 0 <? failCount then None else th_lastError h;
                 th_lastDeliveredAt := Some (d_now o) |} in
            Some (set_health (alter healthy targetId) (set_deliveries (alter sent id) w))
        end
  end.

Fixpoint process_deliveries (oracle : jsstr -> delivery_oracle) (outboxIds : list jsstr)
    (rows : list (jsstr * queue_row audit_delivery)) (w : worker_state) : worker_state :=
  match rows with
  | [] => w
  | (id, row) :: rows' =>
      if bool_decide (ad_outboxId (q_body row) ∈ outboxIds) then
        match processOneDelivery (oracle id) id row w with
        | Some w' => process_deliveries oracle outboxIds rows' w'
        | None => w
        end
      else process_deliveries oracle outboxIds rows' w
  end.

(** [fetch_ok]: whether the read of the outbox rows succeeds; its exception is
    logged by the loop. *)
Definition processDeliveryBatch (batchSize : nat) (oracle : jsstr -> delivery_oracle) (fetch_ok : bool)
    (now : Z) (locked : gset jsstr) (w : worker_state) : worker_state * nat :=
  let c := claim q_created_at now batchSize locked (ws_deliveries w) in
  let w1 := set_deliveries (fun _ => fst c) w in
  let present id := UUID_RE id && bool_decide (is_Some (ws_outbox w1 !! id)) in
  let outboxIds := List.filter present (map (fun kr => ad_outboxId (q_body (snd kr))) (snd c)) in
  if negb fetch_ok then (w1, O)
  else (process_deliveries oracle outboxIds (snd c) w1, length (snd c)).

(** ** Webhook deliveries *)

Definition WEBHOOK_MAX_RETRIES : Z := 3.
Definition WEBHOOK_AUTO_DISABLE_THRESHOLD : Z := 10.

(** What becomes of the call to one subscriber. *)
Inductive hook_outcome := H_ok | H_failed | H_error (msg : jsstr).
Record hook_oracle := {
  h_now : Z; h_outcome : jsstr -> hook_outcome; h_fault : option jsstr; h_record_ok : bool; h_delay : Z;
  h_audit_ok : bool (* whether the best-effort audit write succeeds *) }.

(** The live subscribers of a work item. *)
Definition resolveWebhookSubscribers (item : webhook_delivery) (t : gmap jsstr webhook) : list jsstr :=
  let has kr := bool_decide (wd_action item ∈ wh_events (snd kr)) && wh_isActive (snd kr)
                && (wh_tenantId (snd kr) =s wd_tenant_id item) in
  let team := match wd_scope item, wd_team_id item with
              | WH_TEAM, Some (c :: r) => Some (c :: r)
              | _, _ => None
              end in
  map fst (List.filter (fun kr => has kr && bool_decide (wh_teamId (snd kr) = team)) (map_to_list t)).

Definition onWebhookDeliverySuccess (id : jsstr) : gmap jsstr webhook -> gmap jsstr webhook :=
  alter (fun h => {| wh_tenantId := wh_tenantId h; wh_teamId := wh_teamId h; wh_events := wh_events h;
                     wh_isActive := wh_isActive h; wh_failCount := 0; wh_lastError := None |}) id.

(** The atomic increment of the UPDATE, which disables at the threshold. *)
Definition fail_webhook (h : webhook) : webhook :=
  {| wh_tenantId := wh_tenantId h; wh_teamId := wh_teamId h; wh_events := wh_events h;
     wh_isActive := if WEBHOOK_AUTO_DISABLE_THRESHOLD <=? wh_failCount h + 1 then false else wh_isActive h;
     wh_failCount := wh_failCount h + 1;
     wh_lastError := Some (js "Delivery failed after " ++ js_of_Z WEBHOOK_MAX_RETRIES ++ js " attempts") |}.

Section Mask.
(** [maskUrlForDisplay], of the address of a webhook *)
Context (maskedUrl : jsstr -> jsstr).

Definition onWebhookDeliveryFailure (o : hook_oracle) (item : webhook_delivery) (id : jsstr)
    (w : worker_state) : worker_state :=
  let w' := set_webhooks (alter fail_webhook id) w in
  let newFailCount := default 0 (wh_failCount <$> ws_webhooks w' !! id) in
  if h_audit_ok o then
    add_direct [writeDirectAuditLogInTx (wd_tenant_id item)
                  (match wd_scope item with
                   | WH_TEAM => js "WEBHOOK_DELIVERY_FAILED"
                   | WH_TENANT => js "TENANT_WEBHOOK_DELIVERY_FAILED"
                   end)
                  [(js "webhookId", JStr id); (js "url", JStr (maskedUrl id)); (js "failCount", num newFailCount)]
                  (match wd_scope item with WH_TEAM => wd_team_id item | WH_TENANT => None end)] w'
  else w'.

(** The fan-out, with the first recoverable error. *)
Fixpoint deliver_hooks (o : hook_oracle) (item : webhook_delivery) (ids : list jsstr) (w : worker_state)
    : worker_state * option jsstr :=
  match ids with
  | [] => (w, None)
  | id :: ids' =>
      let '(w1, e) :=
        match h_outcome o id with
        | H_ok => (set_webhooks (onWebhookDeliverySuccess id) w, None)
        | H_failed => (onWebhookDeliveryFailure o item id w, None)
        | H_error msg => (w, Some msg)
        end in
      let '(w2, e2) := deliver_hooks o item ids' w1 in
      (w2, match e with Some _ => e | None => e2 end)
  end.

Definition hook_team (item : webhook_delivery) : option jsstr :=
  match wd_scope item, wd_team_id item with WH_TEAM, Some (c :: r) => Some (c :: r) | _, _ => None end.

Definition recordWebhookDeliveryError (o : hook_oracle) (id : jsstr) (row : queue_row webhook_delivery)
    (err : jsstr) (w : worker_state) : worker_state :=
  let message := sanitize err in
  let item := q_body row in
  if negb (h_record_ok o) then w
  else
    let w' := set_hooks (alter (error_row row (h_now o) (h_delay o) (take 1024 message)) id) w in
    if is_dead row then
      add_direct [writeDirectAuditLogInTx (wd_tenant_id item) (js "AUDIT_WEBHOOK_DELIVERY_DEAD_LETTER")
                    [(js "deliveryId", JStr id); (js "action", JStr (wd_action item));
                     (js "attemptCount", num (q_attempt_count row + 1));
                     (js "lastError", JStr (take 256 message))] (hook_team item)] w'
    else w'.

Definition markWebhookDeliverySent (id : jsstr) : worker_state -> worker_state :=
  set_hooks (alter (fun r => set_state r Q_SENT (q_attempt_count r) (q_next_retry_at r) None (q_sent_at r) None) id).

(** [h_fault] is a database fault outside of the fan-out. *)
Definition processOneWebhookDelivery (o : hook_oracle) (id : jsstr) (row : queue_row webhook_delivery)
    (w : worker_state) : worker_state :=
  match h_fault o with
  | Some msg => recordWebhookDeliveryError o id row msg w
  | None =>
      match ws_outbox w !! wd_outbox_id (q_body row) with
      | None => markWebhookDeliverySent id w
      | Some _ =>
          match deliver_hooks o (q_body row) (resolveWebhookSubscribers (q_body row) (ws_webhooks w)) w with
          | (w', Some err) => recordWebhookDeliveryError o id row err w'
          | (w', None) => markWebhookDeliverySent id w'
          end
      end
  end.

Definition processWebhookDeliveryBatch (batchSize : nat) (oracle : jsstr -> hook_oracle) (now : Z)
    (locked : gset jsstr) (w : worker_state) : worker_state * nat :=
  let c := claim q_next_retry_at now batchSize locked (ws_hooks w) in
  (fold_left (fun w kr => processOneWebhookDelivery (oracle (fst kr)) (fst kr) (snd kr) w) (snd c)
     (set_hooks (fun _ => fst c) w), length (snd c)).
End Mask.
End Sanitize.

(** ** The reaper *)

Definition outbox_reap_error (attempts : Z) : jsstr :=
  take 1024 (js "[reaped after timeout, attempt " ++ js_of_Z attempts ++ js "]").
Definition delivery_reap_error (attempts : Z) : jsstr := js "reaped: processing timeout exceeded".

Definition reapStuckRows (cfg : worker_config) (now : Z) (locked : gset jsstr) (w : worker_state)
    : worker_state * nat :=
  let c := reap outbox_reap_error now (PROCESSING_TIMEOUT_MS cfg) (REAP_BATCH_SIZE cfg) locked (ws_outbox w) in
  let event kr :=
    let '(id, row) := kr in
    if bool_decide (q_status row = Q_FAILED)
    then writeDirectAuditLogInTx (ob_tenant (q_body row)) (js "AUDIT_OUTBOX_DEAD_LETTER")
           [(js "outboxId", JStr id); (js "attemptCount", num (q_attempt_count row));
            (js "reason", JStr (js "reaped_max_attempts"))] None
    else writeDirectAuditLogInTx (ob_tenant (q_body row)) (js "AUDIT_OUTBOX_REAPED")
           [(js "outboxId", JStr id); (js "attemptCount", num (q_attempt_count row))] None in
  (add_direct (map event (snd c)) (set_queue (fun _ => fst c) w), length (snd c)).

(** The events of the rows that the reaper dead-letters. *)
Definition failed_events {A} (event : jsstr -> queue_row A -> direct_log)
    (rows : list (jsstr * queue_row A)) : list direct_log :=
  map (fun kr => event (fst kr) (snd kr)) (List.filter (fun kr => bool_decide (q_status (snd kr) = Q_FAILED)) rows).

Definition reapStuckDeliveries (cfg : worker_config) (now : Z) (locked : gset jsstr) (w : worker_state)
    : worker_state * nat :=
  let c := reap delivery_reap_error now (PROCESSING_TIMEOUT_MS cfg) (REAP_BATCH_SIZE cfg) locked (ws_deliveries w) in
  let event id row :=
    writeDirectAuditLogInTx (ad_tenantId (q_body row)) (js "AUDIT_DELIVERY_DEAD_LETTER")
      [(js "deliveryId", JStr id); (js "attemptCount", num (q_attempt_count row));
       (js "reason", JStr (js "reaped_max_attempts"))] None in
  (add_direct (failed_events event (snd c)) (set_deliveries (fun _ => fst c) w), length (snd c)).

Definition reapStuckWebhookDeliveries (cfg : worker_config) (now : Z) (locked : gset jsstr) (w : worker_state)
    : worker_state * nat :=
  let c := reap delivery_reap_error now (PROCESSING_TIMEOUT_MS cfg) (REAP_BATCH_SIZE cfg) locked (ws_hooks w) in
  let event id row :=
    writeDirectAuditLogInTx (wd_tenant_id (q_body row)) (js "AUDIT_WEBHOOK_DELIVERY_DEAD_LETTER")
      [(js "deliveryId", JStr id); (js "action", JStr (wd_action (q_body row)));
       (js "attemptCount", num (q_attempt_count row)); (js "reason", JStr (js "reaped_max_attempts"))]
      (hook_team (q_body row)) in
  (add_direct (failed_events event (snd c)) (set_hooks (fun _ => fst c) w), length (snd c)).

(** ** The retention purge *)

Definition live {A} (r : queue_row A) : bool := negb (terminal (q_status r)).

(** The outbox rows that a delivery still in progress refers to. *)
Definition referenced (w : worker_state) : gset jsstr :=
  list_to_set (map (fun kr => ad_outboxId (q_body (snd kr))) (List.filter (fun kr => live (snd kr)) (map_to_list (ws_deliveries w)))
               ++ map (fun kr => wd_outbox_id (q_body (snd kr))) (List.filter (fun kr => live (snd kr)) (map_to_list (ws_hooks w)))).

(** [SELECT tenant_id, COUNT of its rows ... GROUP BY tenant_id] *)
Definition group_count (tenants : list jsstr) : list (jsstr * nat) :=
  map (fun t => (t, count_occ (fun a b : jsstr => decide (a = b)) tenants t))
      (nodup (fun a b : jsstr => decide (a = b)) tenants).

Definition purge_events (cfg : worker_config) (branch : jsstr) (rows : list (jsstr * queue_row outbox_body))
    : list direct_log :=
  map (fun tn => writeDirectAuditLogInTx (fst tn) (js "AUDIT_OUTBOX_RETENTION_PURGED")
                   [(js "purgedCount", num (Z.of_nat (snd tn))); (js "retentionHours", num (RETENTION_HOURS cfg));
                    (js "failedRetentionDays", num (FAILED_RETENTION_DAYS cfg)); (js "branch", JStr branch)] None)
      (group_count (map (fun kr => ob_tenant (q_body (snd kr))) rows)).

Definition sent_aged (cfg : worker_config) (now : Z) {A} (r : queue_row A) : bool :=
  bool_decide (q_status r = Q_SENT)
  && match q_sent_at r with Some s => s <? now - RETENTION_HOURS cfg * MS_PER_HOUR | None => false end.
Definition failed_aged (cfg : worker_config) (now : Z) {A} (r : queue_row A) : bool :=
  bool_decide (q_status r = Q_FAILED) && (q_created_at r <? now - FAILED_RETENTION_DAYS cfg * MS_PER_DAY).

Definition purge_outbox (cfg : worker_config) (branch : jsstr) (sel : list (jsstr * queue_row outbox_body))
    (w : worker_state) : worker_state * nat :=
  (add_direct (purge_events cfg branch sel) (set_queue (delete_ids (map fst sel)) w), length sel).

Definition purgeSentAgedInTx (cfg : worker_config) (now : Z) (w : worker_state) : worker_state * nat :=
  purge_outbox cfg (js "SENT")
    (select_rows (sent_aged cfg now) (fun r => default 0 (q_sent_at r)) (PURGE_BATCH_SIZE cfg) (referenced w) (ws_outbox w)) w.

Definition purgeFailedAgedInTx (cfg : worker_config) (now : Z) (w : worker_state) : worker_state * nat :=
  purge_outbox cfg (js "FAILED")
    (select_rows (failed_aged cfg now) q_created_at (PURGE_BATCH_SIZE cfg) ∅ (ws_outbox w)) w.

(** The terminal rows of the delivery tables, by their time of creation. *)
Definition delivery_aged (cfg : worker_config) (now : Z) {A} (r : queue_row A) : bool :=
  (bool_decide (q_status r = Q_SENT) && (q_created_at r <? now - RETENTION_HOURS cfg * MS_PER_HOUR))
  || failed_aged cfg now r.
Definition purge_deliveries (cfg : worker_config) (now : Z) {A} (t : gmap jsstr (queue_row A)) : gmap jsstr (queue_row A) :=
  delete_ids (map fst (select_rows (delivery_aged cfg now) q_created_at (PURGE_BATCH_SIZE cfg) ∅ t)) t.

(** The first [steps] of its four transactions commit; an exception of one ends the
    purge. *)
Definition purgeRetention (cfg : worker_config) (steps : nat) (now : Z) (w : worker_state) : worker_state :=
  let w1 := if (1 <=? steps)%nat then fst (purgeSentAgedInTx cfg now w) else w in
  let w2 := if (2 <=? steps)%nat then fst (purgeFailedAgedInTx cfg now w1) else w1 in
  let w3 := if (3 <=? steps)%nat then set_deliveries (purge_deliveries cfg now) w2 else w2 in
  if (4 <=? steps)%nat then set_hooks (purge_deliveries cfg now) w3 else w3.

(** [runReaper]; the flags tell which of the three reapers commit. *)
Definition runReaper (cfg : worker_config) (ok : bool * bool * bool) (purges : nat) (now : Z)
    (locked : gset jsstr) (w : worker_state) : worker_state :=
  let '(ok1, ok2, ok3) := ok in
  let w1 := if ok1 then fst (reapStuckRows cfg now locked w) else w in
  let w2 := if ok2 then fst (reapStuckDeliveries cfg now locked w1) else w1 in
  let w3 := if ok3 then fst (reapStuckWebhookDeliveries cfg now locked w2) else w2 in
  purgeRetention cfg purges now w3.

(** ** The depth alert *)

Record depth_alarm := { da_alarmed : bool; da_lastAlertAt : Z }.

(** The new state of the alarm and whether an alert is logged; [oldestAge] is in
    seconds. *)
Definition checkDepthAlert (cfg : worker_config) (pending oldestAge now : Z) (a : depth_alarm)
    : depth_alarm * bool :=
  if (READY_PENDING_THRESHOLD cfg <? pending) || (READY_OLDEST_THRESHOLD cfg <? oldestAge) then
    let shouldAlert := negb (da_alarmed a) || (MS_PER_DAY <=? now - da_lastAlertAt a) in
    ({| da_alarmed := true; da_lastAlertAt := if shouldAlert then now else da_lastAlertAt a |}, shouldAlert)
  else ({| da_alarmed := false; da_lastAlertAt := 0 |}, false).

(** ** The webhook lease *)

Definition WEBHOOK_FETCH_TIMEOUT_MS : Z := 10 * MS_PER_SECOND.
Definition WEBHOOK_RETRY_DELAYS_MS : list Z := [1 * MS_PER_SECOND; 5 * MS_PER_SECOND; 25 * MS_PER_SECOND].
Definition WEBHOOK_DELIVERY_CONCURRENCY : Z := 4.
Definition DNS_RESOLVE_TIMEOUT_MS : Z := 5 * MS_PER_SECOND.

Definition WEBHOOK_WORST_CASE_PER_ITEM_MS : Z :=
  WEBHOOK_MAX_RETRIES * (DNS_RESOLVE_TIMEOUT_MS + WEBHOOK_FETCH_TIMEOUT_MS)
  + fold_left Z.add (take (Z.to_nat (WEBHOOK_MAX_RETRIES - 1)) WEBHOOK_RETRY_DELAYS_MS) 0.

(** [Math.floor(timeout / 2 / perItem)] on integers of milliseconds *)
Definition WEBHOOK_DELIVERY_BATCH_SIZE (timeout : Z) : Z :=
  Z.max 1 (WEBHOOK_DELIVERY_CONCURRENCY * (timeout / (2 * WEBHOOK_WORST_CASE_PER_ITEM_MS))).

(** [null] is true. *)
Definition validateWebhookDeliveryLease (timeout : Z) : bool :=
  negb (timeout <? 2 * WEBHOOK_WORST_CASE_PER_ITEM_MS).


(** ** One row *)

(** No tenant's chain is paused at time [now] or later. *)
Definition unpaused (now : Z) (anchors : gmap jsstr anchor) : Prop :=
  forall t a u, anchors !! t = Some a -> an_publish_paused_until a = Some u -> u <= now.

Section Rows.
Context (sanitize : jsstr -> jsstr) (sha256 : list Z -> list Z).

Lemma unpaused_chain now row payload logId db db' res T :
  deliverRowWithChain sha256 now row payload logId db = Ok (db', res) -> T <= now ->
  unpaused T (db_anchors db) -> unpaused T (db_anchors db') /\ dr_delivered res = true.
Proof.
  intros H HT Hu. set (tenant := ob_tenant_id row).
  assert (Hu' : unpaused T (db_anchors (with_anchor tenant db))).
  { intros t a u. unfold with_anchor. cbn [set_anchors db_anchors].
    destruct (db_anchors db !! tenant) as [b|] eqn:E; [apply Hu|].
    destruct (decide (t = tenant)) as [->|Hne]; [rewrite lookup_insert_eq; by intros [= <-]|].
    rewrite lookup_insert_ne by done. apply Hu. }
  split.
  - destruct (deliver_chain_cases _ _ _ _ _ _ _ _ H) as [(_ & -> & _)|(a & c & bytes & l & _ & _ & _ & _ & _ & _ & _ & ->)];
      [done|]. intros t a0 u. destruct (decide (t = tenant)) as [->|Hne].
    + fold tenant. rewrite lookup_alter_eq. intros (b & Hb & ->)%fmap_Some Hp. exact (Hu' _ _ _ Hb Hp).
    + fold tenant. rewrite lookup_alter_ne by done. apply Hu'.
  - unfold deliverRowWithChain in H. fold tenant in H. change (set_anchors _ db) with (with_anchor tenant db) in H.
    destruct (db_anchors (with_anchor tenant db) !! tenant) as [a|] eqn:Ea; [|done].
    assert (match an_publish_paused_until a with Some u => now <? u | None => false end = false) as Hn.
    { destruct (an_publish_paused_until a) as [u|] eqn:Eu; [|done]. apply Z.ltb_ge. specialize (Hu' _ _ _ Ea Eu). lia. }
    rewrite Hn in H. destruct (computeCanonicalBytes _); [|done].
    by destruct (insert_log _ _) as [[db1 ins]|]; simplify_eq/=.
Qed.

Lemma deliver_plain_ok row payload logId db db' res :
  deliverRow row payload logId db = Ok (db', res) ->
  db_anchors db' = db_anchors db /\ dr_delivered res = true.
Proof.
  unfold deliverRow. destruct (insert_log _ db) as [[db1 ins]|] eqn:Ei; [|done]. intros [= <- <-]. split; [|done].
  apply insert_log_cases in Ei as [(-> & -> & _)|(-> & -> & _)]; simpl; [done|].
  by rewrite (proj2 (enqueue_frame _ _ _)).
Qed.

(** The row is settled: recorded as an error, or by the commit of a delivery. *)
Lemma process_row_cases ce o id row w :
  (exists msg, process_row sanitize sha256 ce o id row w = recordError sanitize o id row msg w) \/
  exists r payload db res,
    ((deliverRowWithChain sha256 (o_now o) r payload (o_logId o) (chain_view w) = Ok (db, res)) \/
     deliverRow r payload (o_logId o) (chain_view w) = Ok (db, res)) /\
    commit_delivery o id db res w = Some (process_row sanitize sha256 ce o id row w).
Proof.
  unfold process_row. destruct (parsePayload _) as [payload|]; [|eauto].
  destruct (_ && _); [eauto|]. destruct (negb _); [eauto|]. destruct (o_fault o); [eauto|].
  set (r := {| ob_id := id; ob_tenant_id := _; ob_created_at := _ |}).
  destruct (if negb _ && _ then _ else _) as [[db res]|e] eqn:Ed; [|eauto].
  destruct (commit_delivery o id db res w) as [w'|] eqn:Ec; [|eauto].
  right. exists r, payload, db, res. split; [|done]. destruct (negb _ && _); auto.
Qed.

Lemma commit_delivery_outbox o id db res w w' :
  commit_delivery o id db res w = Some w' ->
  ws_outbox w' = alter (fun r => if dr_delivered res
    then set_state r Q_SENT (q_attempt_count r) (q_next_retry_at r) None (Some (o_now o)) (q_last_error r)
    else set_state r Q_PENDING (q_attempt_count r) (q_next_retry_at r) None (q_sent_at r) (q_last_error r)) id (ws_outbox w) /\
  ws_anchors w' = db_anchors db /\ ws_direct w' = ws_direct w.
Proof.
  unfold commit_delivery. destruct (insert_new _ _ 0 _ _); [|done]. destruct (insert_new _ _ 1 _ _); [|done].
  by intros [= <-].
Qed.

(** With nothing paused and errors recorded, a claimed row leaves processing with a
    smaller budget, no other row changes, and nothing gets paused. *)
Lemma process_row_progress ce o id row w T :
  ws_outbox w !! id = Some row -> q_status row = Q_PROCESSING -> o_record_ok o = true -> T <= o_now o ->
  unpaused T (ws_anchors w) ->
  let w' := process_row sanitize sha256 ce o id row w in
  (total budget (ws_outbox w') < total budget (ws_outbox w))%nat /\ unpaused T (ws_anchors w') /\
  (forall k, k <> id -> ws_outbox w' !! k = ws_outbox w !! k) /\
  exists r', ws_outbox w' !! id = Some r' /\ q_status r' <> Q_PROCESSING.
Proof.
  intros Hrow Hst Hok HT Hu w'.
  assert (Hgen : forall g, ws_outbox w' = alter g id (ws_outbox w) -> (budget (g row) < budget row)%nat ->
    q_status (g row) <> Q_PROCESSING ->
    (total budget (ws_outbox w') < total budget (ws_outbox w))%nat /\
    (forall k, k <> id -> ws_outbox w' !! k = ws_outbox w !! k) /\
    exists r', ws_outbox w' !! id = Some r' /\ q_status r' <> Q_PROCESSING).
  { intros g -> Hb Hs. pose proof (total_alter budget g _ _ _ Hrow). split_and!; [lia| |].
    - intros k Hk. by rewrite lookup_alter_ne.
    - exists (g row). by rewrite lookup_alter_eq, Hrow. }
  destruct (process_row_cases ce o id row w) as [[msg Hm]|(r & payload & db & res & Hd & Hc)].
  - assert (Hw : ws_outbox w' = alter (error_row row (o_now o) (o_delay o) (take 1024 (sanitize msg))) id (ws_outbox w)
                 /\ ws_anchors w' = ws_anchors w).
    { unfold w'. rewrite Hm. unfold recordError. rewrite Hok. simpl. by destruct (is_dead row). }
    destruct Hw as [Hw Ha]. destruct (Hgen _ Hw) as (? & ? & ?).
    + apply budget_error; [done..|]. by rewrite Hst.
    + unfold error_row. by destruct (is_dead row).
    + rewrite Ha. done.
  - destruct (commit_delivery_outbox _ _ _ _ _ _ Hc) as (Hw & Ha & _). fold w' in Hw, Ha.
    assert (unpaused T (db_anchors db) /\ dr_delivered res = true) as [Hu' Hdel].
    { destruct Hd as [Hd|Hd]; [by eapply unpaused_chain|]. apply deliver_plain_ok in Hd as [-> ->]. done. }
    destruct (Hgen _ Hw) as (? & ? & ?); rewrite ?Hdel; [|done|].
    + unfold budget. rewrite Hst. simpl. lia.
    + rewrite Ha. done.
Qed.

(** The same for a list of claimed rows. *)
Lemma process_rows_progress ce oracle T rows : forall w,
  NoDup (map fst rows) -> (forall k r, (k, r) ∈ rows -> ws_outbox w !! k = Some r /\ q_status r = Q_PROCESSING) ->
  (forall k, o_record_ok (oracle k) = true /\ T <= o_now (oracle k)) -> unpaused T (ws_anchors w) ->
  let w' := process_rows sanitize sha256 ce oracle rows w in
  (total budget (ws_outbox w') + length rows <= total budget (ws_outbox w))%nat /\ unpaused T (ws_anchors w') /\
  forall k r', ws_outbox w' !! k = Some r' -> q_status r' = Q_PROCESSING ->
    (k ∉ map fst rows) /\ ws_outbox w !! k = Some r'.
Proof.
  induction rows as [|[id row] rows IH]; intros w Hnd Hrows Ho Hu; simpl.
  - split_and!; [lia|done|]. intros k r' Hr Hs. split; [apply not_elem_of_nil|done].
  - simpl in Hnd. apply NoDup_cons in Hnd as [Hn Hnd]. destruct (Hrows id row) as [Hid Hst]; [by left|].
    destruct (Ho id) as [Hok HT].
    destruct (process_row_progress ce (oracle id) id row w T) as (Hlt & Hu' & Hfr & r0 & Hr0 & Hs0); [done..|].
    set (w1 := process_row sanitize sha256 ce (oracle id) id row w) in *.
    destruct (IH w1) as (Hle & Hu'' & Hrest); [done| |done|done|].
    { intros k r Hk. rewrite Hfr; [apply Hrows; by right|]. intros ->. apply Hn.
      by apply (list_elem_of_fmap_2 fst _ _ Hk). }
    split_and!; [lia|done|]. intros k r' Hr Hs. destruct (Hrest k r' Hr Hs) as [Hk Hk1].
    assert (k <> id) by (intros ->; congruence). rewrite not_elem_of_cons, <- (Hfr k) by done. done.
Qed.
End Rows.

(** ** The outbox drains *)

Section Drain.
Context (sanitize : jsstr -> jsstr) (sha256 : list Z -> list Z) (cfg : worker_config) (ce : jsstr -> bool).

(** One turn of the worker's loop on the outbox, after the reaper. *)
Definition drain_round (oracle : jsstr -> row_oracle) (now : Z) (w : worker_state) : worker_state :=
  fst (processBatch sanitize sha256 (BATCH_SIZE cfg) ce oracle now ∅ (fst (reapStuckRows cfg now ∅ w))).

(** The clock has passed every back-off and every lease. *)
Definition late (now : Z) (w : worker_state) : Prop :=
  forall k r, ws_outbox w !! k = Some r ->
    q_next_retry_at r <= now /\
    (q_status r = Q_PROCESSING -> exists s, q_processing_started_at r = Some s /\ s < now - PROCESSING_TIMEOUT_MS cfg).

(** [n] turns, each late enough, whose database writes succeed at recording errors;
    the deliveries themselves may fail in any way. *)
Inductive rounds (T : Z) : nat -> worker_state -> worker_state -> Prop :=
| rounds_O w : rounds T O w w
| rounds_S n w oracle now w' :
    late now w -> (forall k, o_record_ok (oracle k) = true /\ T <= o_now (oracle k)) ->
    rounds T n (drain_round oracle now w) w' -> rounds T (S n) w w'.

Definition leases_dated (w : worker_state) : Prop :=
  forall k r, ws_outbox w !! k = Some r -> q_status r = Q_PROCESSING -> is_Some (q_processing_started_at r).

Lemma late_exists w : leases_dated w -> exists now0, forall now, now0 <= now -> late now w.
Proof.
  unfold leases_dated, late. generalize (ws_outbox w). intros t.
  induction t as [|k r t Hk IH] using map_ind; intros Hd.
  { exists 0. intros now _ k r. by rewrite lookup_empty. }
  destruct IH as [n0 Hn0].
  { intros k' r' Hr'. apply (Hd k' r'). rewrite lookup_insert_ne by congruence. done. }
  exists (Z.max n0 (Z.max (q_next_retry_at r) (default 0 (q_processing_started_at r) + PROCESSING_TIMEOUT_MS cfg + 1))).
  intros now Hnow k' r'. destruct (decide (k' = k)) as [->|Hne].
  - rewrite lookup_insert_eq. intros [= <-]. split; [lia|]. intros Hp.
    destruct (Hd k r) as [s Hs]; [by rewrite lookup_insert_eq|done|]. exists s. rewrite Hs in Hnow. simpl in Hnow.
    split; [done|lia].
  - rewrite lookup_insert_ne by done. apply Hn0. lia.
Qed.

Lemma reap_rows_outbox now locked w :
  let w' := fst (reapStuckRows cfg now locked w) in
  ws_outbox w' = fst (reap outbox_reap_error now (PROCESSING_TIMEOUT_MS cfg) (REAP_BATCH_SIZE cfg) locked (ws_outbox w)) /\
  ws_anchors w' = ws_anchors w.
Proof. done. Qed.

(** A row that the reaper leaves in processing was not touched. *)
Lemma reap_lookup_processing (msg : Z -> jsstr) (now timeout : Z) (limit : nat) (locked : gset jsstr)
    (t : gmap jsstr (queue_row outbox_body)) k r :
  fst (reap msg now timeout limit locked t) !! k = Some r -> q_status r = Q_PROCESSING -> t !! k = Some r.
Proof.
  unfold reap. cbn [fst]. rewrite update_ids_lookup. intros (r0 & Hr0 & ->)%fmap_Some. case_bool_decide; [|done].
  unfold reap_row, set_state. simpl. by destruct (_ <=? _).
Qed.

Lemma process_batch_progress oracle T now w :
  (forall k, o_record_ok (oracle k) = true /\ T <= o_now (oracle k)) -> unpaused T (ws_anchors w) ->
  let w' := fst (processBatch sanitize sha256 (BATCH_SIZE cfg) ce oracle now ∅ w) in
  (total budget (ws_outbox w')
   + length (select_rows (claimable now) q_created_at (BATCH_SIZE cfg) ∅ (ws_outbox w))
   <= total budget (ws_outbox w))%nat /\ unpaused T (ws_anchors w') /\
  forall k r', ws_outbox w' !! k = Some r' -> q_status r' = Q_PROCESSING -> ws_outbox w !! k = Some r'.
Proof.
  intros Ho Hu. unfold processBatch, claimBatch. cbn [fst snd].
  set (c := claim q_created_at now (BATCH_SIZE cfg) ∅ (ws_outbox w)).
  destruct (process_rows_progress sanitize sha256 ce oracle T (snd c) (set_queue (fun _ => fst c) w))
    as (Hle & Hu' & Hrest); [|..|done|done|].
  - unfold c. rewrite claim_ids. apply select_rows_NoDup.
  - intros k r Hk. apply claim_returned in Hk as (? & ? & _). done.
  - change (ws_outbox (set_queue _ w)) with (fst c) in Hle. assert (length (snd c) = length (select_rows (claimable now) q_created_at (BATCH_SIZE cfg) ∅ (ws_outbox w)))
      as Hlen by (unfold c, claim; simpl; by rewrite length_map).
    pose proof (claim_total q_created_at now (BATCH_SIZE cfg) ∅ (ws_outbox w)) as Hc. fold c in Hc.
    split_and!; [lia|done|]. intros k r' Hr Hs. destruct (Hrest k r' Hr Hs) as [Hn Hk].
    cbn [ws_outbox set_queue] in Hk. unfold c in Hk. rewrite claim_lookup in Hk. apply fmap_Some in Hk as (r & Hr0 & Hr').
    rewrite bool_decide_false in Hr' by (rewrite <- (claim_ids q_created_at now (BATCH_SIZE cfg) ∅); done).
    congruence.
Qed.

Context (T : Z) (Hbatch : (0 < BATCH_SIZE cfg)%nat) (Hreap : (0 < REAP_BATCH_SIZE cfg)%nat).

(** Every turn uses up at least one attempt while a row is left. *)
Lemma drain_round_progress oracle now w :
  late now w -> (forall k, o_record_ok (oracle k) = true /\ T <= o_now (oracle k)) -> unpaused T (ws_anchors w) ->
  let w' := drain_round oracle now w in
  (total budget (ws_outbox w') <= pred (total budget (ws_outbox w)))%nat /\ unpaused T (ws_anchors w') /\
  (leases_dated w -> leases_dated w').
Proof using Hbatch Hreap.
  intros Hl Ho Hu w'. unfold w', drain_round. set (w1 := fst (reapStuckRows cfg now ∅ w)).
  destruct (reap_rows_outbox now ∅ w) as [Hq Ha]. fold w1 in Hq, Ha.
  pose proof (reap_total outbox_reap_error now (PROCESSING_TIMEOUT_MS cfg) (REAP_BATCH_SIZE cfg) ∅ (ws_outbox w)) as Hrt.
  cbv zeta in Hrt. rewrite <- Hq in Hrt. unfold reap in Hrt. cbn [snd] in Hrt. rewrite length_map in Hrt.
  destruct (process_batch_progress oracle T now w1 Ho) as (Hb & Hu' & Hp); [by rewrite Ha|].
  split_and!; [|done|].
  - destruct (decide (total budget (ws_outbox w) = 0)%nat) as [H0|H0]; [lia|].
    assert (Hex : exists k r, ws_outbox w !! k = Some r /\ terminal (q_status r) = false).
    { destruct (decide (map_Forall (fun _ r => terminal (q_status r) = true) (ws_outbox w))) as [Hall|Hex].
      - exfalso. apply H0. assert (total budget (ws_outbox w) <= total budget (∅ : gmap jsstr (queue_row outbox_body)))%nat as Hz.
        { clear -Hall. revert Hall. generalize (ws_outbox w) as t. intros t.
          induction t as [|k r t Hk IH] using map_ind; [done|]. intros Hall. rewrite total_insert by done.
          apply map_Forall_insert in Hall as [H1 H2]; [|done]. rewrite (proj2 (budget_terminal r) H1). simpl. auto. }
        unfold total in Hz at 2. rewrite map_to_list_empty in Hz. simpl in Hz. lia.
      - apply map_not_Forall in Hex; [|apply _]. destruct Hex as (k & r & Hr & Ht). exists k, r.
        by rewrite <- not_true_iff_false. }
    destruct Hex as (k & r & Hr & Ht). destruct (Hl k r Hr) as [Hnr Hlease]. destruct (q_status r) eqn:Es; try done.
    + assert (Hr1 : ws_outbox w1 !! k = Some r).
      { rewrite Hq. unfold reap. cbn [fst]. rewrite update_ids_lookup, Hr, bool_decide_false; [done|].
        intros Hk. destruct (selected_row _ _ _ _ _ _ Hk) as (r0 & Hr0 & Hs0 & _). unfold stuck in Hs0. bools. congruence. }
      pose proof (select_nonempty (claimable now) q_created_at (BATCH_SIZE cfg) ∅ _ k r Hbatch Hr1 ltac:(set_solver)) as Hne.
      unfold claimable in Hne at 1. rewrite Es, (proj2 (Z.leb_le _ _) Hnr) in Hne. specialize (Hne eq_refl). lia.
    + destruct (Hlease eq_refl) as (s & Hs & Hlt).
      pose proof (select_nonempty (stuck now (PROCESSING_TIMEOUT_MS cfg)) started_at (REAP_BATCH_SIZE cfg) ∅ _ k r Hreap Hr ltac:(set_solver)) as Hne.
      unfold stuck in Hne at 1. rewrite Es, Hs, (proj2 (Z.ltb_lt _ _) Hlt) in Hne. specialize (Hne eq_refl). lia.
  - intros Hd k r Hr Hs. specialize (Hp k r Hr Hs). rewrite Hq in Hp. apply reap_lookup_processing in Hp; [|done].
    by apply (Hd k r).
Qed.
End Drain.

Lemma rounds_progress sanitize sha256 cfg ce T n w w' :
  (0 < BATCH_SIZE cfg)%nat -> (0 < REAP_BATCH_SIZE cfg)%nat -> unpaused T (ws_anchors w) ->
  rounds sanitize sha256 cfg ce T n w w' -> (total budget (ws_outbox w') <= total budget (ws_outbox w) - n)%nat.
Proof.
  intros Hb Hr Hu H. revert Hu. induction H as [w|n w oracle now w' Hl Ho H IH]; intros Hu; [lia|].
  destruct (drain_round_progress sanitize sha256 cfg ce T Hb Hr oracle now w Hl Ho Hu) as (Hle & Hu' & _).
  specialize (IH Hu'). lia.
Qed.

(** C14: the outbox drains, while no chain is paused.  Let one worker turn (reap, claim
    a batch, process it) as many times as the rows have attempts left, each turn late
    enough for every back-off and lease to have passed, at times when no chain of a
    tenant is paused and with every failure of an attempt recorded.  Then every row
    is SENT or FAILED, however the deliveries fail; and such turns exist, for any
    other answers of the outside (batch sizes are positive, and a row in processing has
    its start time).  A paused chain does hold back the others
    ([paused_batch_starves]). *)
Theorem outbox_drains sanitize sha256 cfg ce T w :
  (0 < BATCH_SIZE cfg)%nat -> (0 < REAP_BATCH_SIZE cfg)%nat ->
  unpaused T (ws_anchors w) -> leases_dated w ->
  (forall n w', rounds sanitize sha256 cfg ce T n w w' -> (total budget (ws_outbox w) <= n)%nat ->
     forall k r, ws_outbox w' !! k = Some r -> q_status r = Q_SENT \/ q_status r = Q_FAILED) /\
  (forall (oracle : jsstr -> row_oracle) (n : nat), (forall k, o_record_ok (oracle k) = true /\ T <= o_now (oracle k)) ->
     exists w', rounds sanitize sha256 cfg ce T n w w').
Proof.
  intros Hb Hr Hu Hd. split.
  - intros n w' H Hn k r Hk. pose proof (rounds_progress _ _ _ _ _ _ _ _ Hb Hr Hu H).
    assert (budget r = O) as Ht%budget_terminal by (eapply total_0; [|done]; lia). destruct (q_status r); auto; done.
  - intros oracle n Ho. revert w Hu Hd. induction n as [|n IH]; intros w Hu Hd; [eexists; constructor|].
    destruct (late_exists cfg w Hd) as [now Hl]. specialize (Hl now ltac:(lia)).
    destruct (drain_round_progress sanitize sha256 cfg ce T Hb Hr oracle now w Hl Ho Hu) as (_ & Hu' & Hd').
    destruct (IH _ Hu' (Hd' Hd)) as [w' Hw']. exists w'. by eapply rounds_S.
Qed.

Definition empty_worker (outbox : gmap jsstr (queue_row outbox_body)) : worker_state :=
  {| ws_anchors := ∅; ws_logs := []; ws_targets := []; ws_outbox := outbox; ws_deliveries := ∅; ws_hooks := ∅;
     ws_health := ∅; ws_webhooks := ∅; ws_direct := [] |}.

Definition demo_oracle (now : Z) : row_oracle :=
  {| o_now := now; o_fault := None; o_record_ok := true; o_thrown := []; o_delay := 0; o_logId := [1];
     o_newId := fun n => [Z.of_nat n] |}.

Lemma outbox_drains_witness :
  let row := fresh_row {| ob_tenant := [7]; ob_payload := JNull |} 0 in
  exists w', rounds (fun s => s) (fun b => b) AUDIT_OUTBOX (fun _ => false) 0 8 (empty_worker {[ [1] := row ]}) w' /\
    forall k r, ws_outbox w' !! k = Some r -> q_status r = Q_SENT \/ q_status r = Q_FAILED.
Proof.
  intros row. assert (Hu : unpaused 0 (ws_anchors (empty_worker {[ [1] := row ]})))
    by (intros t a u H; cbn in H; by rewrite lookup_empty in H).
  assert (Hd : leases_dated (empty_worker {[ [1] := row ]})).
  { intros k r Hr Hs. cbn [empty_worker ws_outbox] in Hr. apply lookup_singleton_Some in Hr as [_ <-]. done. }
  destruct (outbox_drains (fun s => s) (fun b => b) AUDIT_OUTBOX (fun _ => false) 0 (empty_worker {[ [1] := row ]})
              ltac:(cbn; lia) ltac:(cbn; lia) Hu Hd) as [Hall Hex].
  destruct (Hex (fun _ => demo_oracle 0) 8%nat) as [w' Hw']; [intros k; split; [done|cbn; lia]|].
  exists w'. split; [done|]. apply (Hall 8%nat); [done|]. vm_compute. lia.
Defined.

(** ** A paused tenant at the head of the queue *)

(** What the claim and the pause do to a row cancels out. *)
Lemma release_claim_id now (r : queue_row outbox_body) :
  q_status r = Q_PENDING -> q_processing_started_at r = None ->
  let c := claim_row now r in
  set_state c Q_PENDING (q_attempt_count c) (q_next_retry_at c) None (q_sent_at c) (q_last_error c) = r.
Proof. destruct r; simpl. by intros -> ->. Qed.

Section Paused.
Context (sanitize : jsstr -> jsstr) (sha256 : list Z -> list Z) (ce : jsstr -> bool).

(** A row of a tenant whose chain is paused, with a payload that passes the checks. *)
Definition paused_row (anchors : gmap jsstr anchor) (o : row_oracle) (r : queue_row outbox_body) : Prop :=
  let tenant := ob_tenant (q_body r) in
  tenant <> [] /\ ce tenant = true /\ o_fault o = None /\
  (exists payload, parsePayload (ob_payload (q_body r)) = Some payload /\ UUID_RE (pl_userId payload) = true) /\
  exists a u, anchors !! tenant = Some a /\ an_publish_paused_until a = Some u /\ o_now o < u.

Lemma process_paused_row o id row w :
  paused_row (ws_anchors w) o row ->
  process_row sanitize sha256 ce o id row w =
  set_queue (alter (fun r => set_state r Q_PENDING (q_attempt_count r) (q_next_retry_at r) None (q_sent_at r) (q_last_error r)) id) w.
Proof.
  intros (Ht & Hce & Hf & (payload & Hp & Hu) & a & u & Ha & Hpa & Hlt). unfold process_row.
  rewrite Hp, Hu, Hf. cbn [negb andb]. rewrite (bool_decide_false (_ = [])) by done. rewrite Hce. cbn [negb andb].
  unfold deliverRowWithChain. cbn [ob_tenant_id ob_id set_anchors db_anchors chain_view]. rewrite Ha, Ha, Hpa.
  rewrite (proj2 (Z.ltb_lt _ _) Hlt). unfold commit_delivery. cbn [set_outbox set_anchors db_webhooks db_deliveries chain_view].
  rewrite !drop_all. cbn [insert_new dr_delivered db_anchors db_logs set_outbox set_anchors chain_view]. rewrite Ha.
  by destruct w.
Qed.

Lemma process_paused_rows oracle rows : forall w,
  NoDup (map fst rows) -> (forall k r, (k, r) ∈ rows -> paused_row (ws_anchors w) (oracle k) r) ->
  process_rows sanitize sha256 ce oracle rows w =
  set_queue (update_ids (fun r => set_state r Q_PENDING (q_attempt_count r) (q_next_retry_at r) None (q_sent_at r) (q_last_error r))
               (map fst rows)) w.
Proof.
  induction rows as [|[id row] rows IH] using rev_ind; intros w Hnd Hp.
  - unfold process_rows. simpl. destruct w. unfold set_queue. simpl. f_equal. apply map_eq. intros k.
    rewrite update_ids_lookup. rewrite bool_decide_false by apply not_elem_of_nil. by destruct (_ !! k).
  - rewrite map_app in Hnd. apply NoDup_app in Hnd as (Hnd & Hdis & _). unfold process_rows. rewrite fold_left_app.
    fold (process_rows sanitize sha256 ce oracle rows w). rewrite IH; [|done|].
    2:{ intros k r Hk. apply Hp. apply elem_of_app. by left. }
    simpl. rewrite process_paused_row.
    2:{ apply Hp. apply elem_of_app. right. by left. }
    unfold set_queue. simpl. f_equal. rewrite map_app. simpl.
    assert (Hn : id ∉ map fst rows) by (intros Hin; apply (Hdis _ Hin); by left).
    rewrite <- update_ids_cons by done. apply map_eq. intros k. rewrite !update_ids_lookup.
    assert (Hiff : k ∈ id :: map fst rows <-> k ∈ map fst rows ++ [id])
      by (rewrite elem_of_cons, elem_of_app, list_elem_of_singleton; naive_solver).
    by rewrite (bool_decide_ext _ _ Hiff).
Qed.
End Paused.

(** A paused tenant blocks the outbox of every tenant.  When the rows that a batch
    claims all belong to tenants whose chain is paused, the turn leaves the whole
    state as it was: the rows are pending and due again, ahead of the others.  As
    the batch was not empty the loop does not sleep before the next turn, and no
    row of another tenant is delivered until the pause is over. *)
Theorem paused_batch_starves sanitize sha256 batchSize ce oracle now w :
  (forall k r, (k, r) ∈ select_rows (claimable now) q_created_at batchSize ∅ (ws_outbox w) ->
     q_processing_started_at r = None /\ paused_row ce (ws_anchors w) (oracle k) r) ->
  processBatch sanitize sha256 batchSize ce oracle now ∅ w =
  (w, length (select_rows (claimable now) q_created_at batchSize ∅ (ws_outbox w))).
Proof.
  intros Hsel. unfold processBatch, claimBatch, claim. cbn [fst snd]. rewrite length_map. f_equal.
  set (sel := select_rows (claimable now) q_created_at batchSize ∅ (ws_outbox w)) in *.
  rewrite process_paused_rows.
  - rewrite map_map. unfold set_queue. cbn [ws_outbox]. destruct w. f_equal. cbn [ws_outbox fst] in *. apply map_eq. intros k.
    rewrite !update_ids_lookup. destruct (ws_outbox0 !! k) as [r|] eqn:Hr; [|done]. simpl. f_equal.
    change (map (fun x => fst x) sel) with (map fst sel). case_bool_decide as Hk; [|done]. destruct (selected_row _ _ _ _ _ _ Hk) as (r0 & Hr0 & Hc & Hin).
    assert (r0 = r) as -> by congruence. destruct (Hsel k r Hin) as [Hs _].
    unfold claimable in Hc. bools. by apply release_claim_id.
  - rewrite map_map. apply select_rows_NoDup.
  - intros k r ([k' r'] & [= -> ->] & Hin)%list_elem_of_fmap. by destruct (Hsel k' r' Hin) as [_ ?].
Qed.

Lemma paused_batch_starves_witness :
  let uuid := js "00000000-0000-4000-8000-000000000001" in
  let body t := {| ob_tenant := t; ob_payload := JObj [(js "userId", JStr uuid)] |} in
  let pausedAnchor := {| an_chain_seq := 0; an_prev_hash := [0]; an_publish_paused_until := Some 100 |} in
  let w := {| ws_anchors := {[ [7] := pausedAnchor ]}; ws_logs := []; ws_targets := [];
              ws_outbox := {[ [1] := fresh_row (body [7]) 0; [2] := fresh_row (body [8]) 1 ]};
              ws_deliveries := ∅; ws_hooks := ∅; ws_health := ∅; ws_webhooks := ∅; ws_direct := [] |} in
  processBatch (fun s => s) (fun b => b) 1 (fun _ => true) (fun _ => demo_oracle 50) 50 ∅ w = (w, 1%nat).
Proof.
  intros uuid body pausedAnchor w.
  assert (Hs : select_rows (claimable 50) q_created_at 1 ∅ (ws_outbox w) = [([1], fresh_row (body [7]) 0)])
    by (vm_compute; reflexivity).
  rewrite (paused_batch_starves (fun s => s) (fun b => b) 1 (fun _ => true) (fun _ => demo_oracle 50) 50 w).
  - by rewrite Hs.
  - intros k r. rewrite Hs. intros [= -> ->]%list_elem_of_singleton. split; [done|].
    split_and!; [done|done|done| |].
    + eexists. split; [reflexivity|]. vm_compute. reflexivity.
    + exists pausedAnchor, 100. split_and!; [by vm_compute|done|cbn; lia].
Defined.

(** ** Dead letters *)

(** The record of a dead-lettered row. *)
Definition dead_letter (action key id tenant : jsstr) (ls : list direct_log) : Prop :=
  exists l, l ∈ ls /\ dl_action l = action /\ dl_tenant l = tenant /\ (key, JStr id) ∈ dl_metadata l.

Definition dead_letters {A} (action key : jsstr) (tenant : A -> jsstr) (t : gmap jsstr (queue_row A))
    (ls : list direct_log) : Prop :=
  forall id r, t !! id = Some r -> q_status r = Q_FAILED -> dead_letter action key id (tenant (q_body r)) ls.

Record recorded (w : worker_state) : Prop := {
  rec_outbox : dead_letters (js "AUDIT_OUTBOX_DEAD_LETTER") (js "outboxId") ob_tenant (ws_outbox w) (ws_direct w);
  rec_deliveries : dead_letters (js "AUDIT_DELIVERY_DEAD_LETTER") (js "deliveryId") ad_tenantId (ws_deliveries w) (ws_direct w);
  rec_hooks : dead_letters (js "AUDIT_WEBHOOK_DELIVERY_DEAD_LETTER") (js "deliveryId") wd_tenant_id (ws_hooks w) (ws_direct w) }.

(** The transactions of any number of workers, in any order.  A worker settles a row
    that it once claimed, so it knows the row's body, but not necessarily its
    present state. *)
Inductive worker_tx (sanitize : jsstr -> jsstr) (sha256 : list Z -> list Z) (maskedUrl : jsstr -> jsstr)
    (cfg : worker_config) : worker_state -> worker_state -> Prop :=
| Tx_enqueue w id body now :
    ws_outbox w !! id = None -> worker_tx sanitize sha256 maskedUrl cfg w (set_queue <[id := fresh_row body now]> w)
| Tx_claim w n now locked : worker_tx sanitize sha256 maskedUrl cfg w (fst (claimBatch n now locked w))
| Tx_row w ce o id row :
    (forall r, ws_outbox w !! id = Some r -> q_body r = q_body row) ->
    worker_tx sanitize sha256 maskedUrl cfg w (process_row sanitize sha256 ce o id row w)
| Tx_claim_deliveries w n now locked :
    worker_tx sanitize sha256 maskedUrl cfg w
      (set_deliveries (fun t => fst (claim q_created_at now n locked t)) w)
| Tx_delivery w o id row w' :
    (forall r, ws_deliveries w !! id = Some r -> q_body r = q_body row) ->
    processOneDelivery sanitize o id row w = Some w' -> worker_tx sanitize sha256 maskedUrl cfg w w'
| Tx_claim_hooks w n now locked :
    worker_tx sanitize sha256 maskedUrl cfg w
      (set_hooks (fun t => fst (claim q_next_retry_at now n locked t)) w)
| Tx_hook w o id row :
    (forall r, ws_hooks w !! id = Some r -> q_body r = q_body row) ->
    worker_tx sanitize sha256 maskedUrl cfg w (processOneWebhookDelivery sanitize maskedUrl o id row w)
| Tx_reaper w ok purges now locked : worker_tx sanitize sha256 maskedUrl cfg w (runReaper cfg ok purges now locked w).

Lemma dead_letter_mono action key id tenant ls ls' :
  dead_letter action key id tenant ls -> dead_letter action key id tenant (ls ++ ls').
Proof. intros (l & Hl & H). exists l. split; [apply elem_of_app; by left|done]. Qed.

Section Dead.
Context {A : Type} (action key : jsstr) (tenant : A -> jsstr).
Implicit Types (t : gmap jsstr (queue_row A)) (ls : list direct_log).

(** A table whose FAILED rows were already FAILED, with the same body. *)
Lemma dead_letters_frame t t' ls ls' :
  dead_letters action key tenant t ls ->
  (forall id r', t' !! id = Some r' -> q_status r' = Q_FAILED ->
     (exists r, t !! id = Some r /\ q_status r = Q_FAILED /\ q_body r = q_body r') \/
     dead_letter action key id (tenant (q_body r')) ls') ->
  dead_letters action key tenant t' (ls ++ ls').
Proof.
  intros H Hf id r' Hr' Hs. destruct (Hf id r' Hr' Hs) as [(r & Hr & Hs0 & <-)|(l & Hl & Hd)].
  - apply dead_letter_mono. by apply (H id r).
  - exists l. split; [apply elem_of_app; by right|done].
Qed.

Lemma dead_letters_more t ls ls' :
  dead_letters action key tenant t ls -> dead_letters action key tenant t (ls ++ ls').
Proof. intros H id r Hr Hs. by apply dead_letter_mono, H. Qed.

Lemma dead_letters_claim k now n locked t ls :
  dead_letters action key tenant t ls -> dead_letters action key tenant (fst (claim k now n locked t)) ls.
Proof.
  intros H id r'. rewrite claim_lookup. intros (r & Hr & ->)%fmap_Some Hs. case_bool_decide; [done|]. by apply (H id r).
Qed.

Lemma dead_letters_alter t ls f id :
  dead_letters action key tenant t ls -> (forall r, q_status (f r) <> Q_FAILED) ->
  dead_letters action key tenant (alter f id t) ls.
Proof.
  intros H Hf id' r'. destruct (decide (id' = id)) as [->|Hne].
  - rewrite lookup_alter_eq. intros (r & Hr & ->)%fmap_Some Hs. by destruct (Hf r).
  - rewrite lookup_alter_ne by done. apply H.
Qed.

Lemma dead_letters_error t ls snapshot now delay msg id ls' :
  dead_letters action key tenant t ls -> (forall r, t !! id = Some r -> q_body r = q_body snapshot) ->
  (is_dead snapshot = true -> dead_letter action key id (tenant (q_body snapshot)) ls') ->
  dead_letters action key tenant (alter (error_row snapshot now delay msg) id t) (ls ++ ls').
Proof.
  intros H Hb Hd. eapply dead_letters_frame; [done|]. intros id' r'. destruct (decide (id' = id)) as [->|Hne].
  - rewrite lookup_alter_eq. intros (r & Hr & ->)%fmap_Some Hs. right. unfold error_row in *.
    destruct (is_dead snapshot); [|done]. simpl. rewrite (Hb r Hr). auto.
  - rewrite lookup_alter_ne by done. eauto.
Qed.

Lemma dead_letters_reap msg now timeout n locked t ls ls' :
  dead_letters action key tenant t ls ->
  (forall id r, (id, r) ∈ snd (reap msg now timeout n locked t) -> q_status r = Q_FAILED ->
     dead_letter action key id (tenant (q_body r)) ls') ->
  dead_letters action key tenant (fst (reap msg now timeout n locked t)) (ls ++ ls').
Proof.
  intros H Hd. eapply dead_letters_frame; [done|]. intros id r'. unfold reap. cbn [fst]. rewrite update_ids_lookup.
  intros (r & Hr & ->)%fmap_Some Hs. case_bool_decide as Hk; [|eauto]. right. apply (Hd id); [|done].
  destruct (selected_row _ _ _ _ _ _ Hk) as (r0 & Hr0 & _ & Hin). assert (r0 = r) as -> by congruence.
  unfold reap. cbn [snd]. by apply (list_elem_of_fmap_2 (fun kr => (fst kr, reap_row msg (snd kr))) _ _ Hin).
Qed.

Lemma dead_letters_delete ids t ls :
  dead_letters action key tenant t ls -> dead_letters action key tenant (delete_ids ids t) ls.
Proof. intros H id r [Hr _]%delete_ids_lookup. by apply H. Qed.

Lemma dead_letters_insert t ls id body now :
  dead_letters action key tenant t ls -> dead_letters action key tenant (<[id := fresh_row body now]> t) ls.
Proof.
  intros H id' r'. destruct (decide (id' = id)) as [->|Hne].
  - rewrite lookup_insert_eq. by intros [= <-].
  - rewrite lookup_insert_ne by done. apply H.
Qed.

Lemma dead_letters_insert_new now newId n new t t' ls :
  insert_new now newId n new t = Some t' -> dead_letters action key tenant t ls ->
  dead_letters action key tenant t' ls.
Proof.
  revert n t. induction new as [|b new IH]; intros n t; simpl; [by intros [= <-]|].
  destruct (t !! newId n); [done|]. intros Hi H. eapply IH; [done|]. by apply dead_letters_insert.
Qed.
End Dead.

Section Recorded.
Context (sanitize : jsstr -> jsstr) (sha256 : list Z -> list Z) (maskedUrl : jsstr -> jsstr) (cfg : worker_config).

Lemma dead_letter_singleton action key id tenant l :
  dl_action l = action -> dl_tenant l = tenant -> (key, JStr id) ∈ dl_metadata l ->
  dead_letter action key id tenant [l].
Proof. intros. exists l. split; [by apply list_elem_of_singleton|done]. Qed.

Lemma recordError_recorded o id row msg w :
  (forall r, ws_outbox w !! id = Some r -> q_body r = q_body row) -> recorded w ->
  recorded (recordError sanitize o id row msg w).
Proof.
  intros Hb [H1 H2 H3]. unfold recordError. destruct (o_record_ok o); simpl; [|done].
  destruct (is_dead row) eqn:Hd; split; simpl; try (by apply dead_letters_more); try done.
  - apply dead_letters_error; [done..|]. intros _. apply dead_letter_singleton; [done..|]. simpl. by left.
  - rewrite <- (app_nil_r (ws_direct w)). apply dead_letters_error; [done..|]. congruence.
Qed.

Lemma commit_recorded o id db res w w' :
  commit_delivery o id db res w = Some w' -> recorded w -> recorded w'.
Proof.
  intros Hc [H1 H2 H3]. unfold commit_delivery in Hc.
  destruct (insert_new _ _ 0 _ _) as [hooks|] eqn:Eh; [|done].
  destruct (insert_new _ _ 1 _ _) as [deliveries|] eqn:Ed; [|done]. injection Hc as <-. split; simpl.
  - apply dead_letters_alter; [done|]. intros r. by destruct (dr_delivered res).
  - by eapply dead_letters_insert_new.
  - by eapply dead_letters_insert_new.
Qed.

Lemma delivery_recorded o id row w w' :
  (forall r, ws_deliveries w !! id = Some r -> q_body r = q_body row) ->
  processOneDelivery sanitize o id row w = Some w' -> recorded w -> recorded w'.
Proof.
  intros Hb Hp [H1 H2 H3]. unfold processOneDelivery in Hp.
  destruct (find_target _ _) as [target|]; [|by injection Hp as <-].
  assert (Herr : forall fc err, recordDeliveryError sanitize o id row fc err w = Some w' -> recorded w').
  { intros fc err. unfold recordDeliveryError. destruct (d_record_ok o); simpl; [|done].
    destruct (is_dead row) eqn:Hd; intros [= <-]; split; simpl; try (by apply dead_letters_more); try done.
    - apply dead_letters_error; [done..|]. intros _. apply dead_letter_singleton; [done..|]. simpl. by left.
    - rewrite <- (app_nil_r (ws_direct w)). apply dead_letters_error; [done..|]. congruence. }
  destruct (negb _); [by eapply Herr|]. destruct (d_outcome o); [|by eapply Herr].
  injection Hp as <-. split; simpl; [done| |done]. by apply dead_letters_alter.
Qed.

(** The fan-out touches the webhooks and the direct log only. *)
Lemma deliver_hooks_frame o item ids : forall w,
  let w' := fst (deliver_hooks maskedUrl o item ids w) in
  ws_outbox w' = ws_outbox w /\ ws_deliveries w' = ws_deliveries w /\ ws_hooks w' = ws_hooks w /\
  exists ls, ws_direct w' = ws_direct w ++ ls.
Proof.
  induction ids as [|id ids IH]; intros w; simpl; [split_and!; try done; exists []; by rewrite app_nil_r|].
  assert (Hstep : forall w1, ws_outbox w1 = ws_outbox w -> ws_deliveries w1 = ws_deliveries w ->
    ws_hooks w1 = ws_hooks w -> (exists ls, ws_direct w1 = ws_direct w ++ ls) ->
    let w' := fst (deliver_hooks maskedUrl o item ids w1) in
    ws_outbox w' = ws_outbox w /\ ws_deliveries w' = ws_deliveries w /\ ws_hooks w' = ws_hooks w /\
    exists ls, ws_direct w' = ws_direct w ++ ls).
  { intros w1 E1 E2 E3 [ls E4]. destruct (IH w1) as (F1 & F2 & F3 & ls' & F4). simpl.
    rewrite F1, F2, F3, F4, E1, E2, E3, E4. split_and!; try done. exists (ls ++ ls'). by rewrite app_assoc. }
  destruct (h_outcome o id).
  - pose proof (Hstep (set_webhooks (onWebhookDeliverySuccess id) w)) as Hs.
    destruct (deliver_hooks maskedUrl o item ids _) as [w2 e2] eqn:E. apply Hs; try done. exists []. by rewrite app_nil_r.
  - pose proof (Hstep (onWebhookDeliveryFailure maskedUrl o item id w)) as Hs.
    destruct (deliver_hooks maskedUrl o item ids _) as [w2 e2] eqn:E. unfold onWebhookDeliveryFailure in Hs.
    destruct (h_audit_ok o); apply Hs; try done; [eexists; done|exists []; simpl; by rewrite app_nil_r].
  - pose proof (Hstep w) as Hs. destruct (deliver_hooks maskedUrl o item ids w) as [w2 e2] eqn:E.
    apply Hs; try done. exists []. by rewrite app_nil_r.
Qed.

Lemma recordWebhook_recorded o id row err w :
  (forall r, ws_hooks w !! id = Some r -> q_body r = q_body row) -> recorded w ->
  recorded (recordWebhookDeliveryError sanitize o id row err w).
Proof.
  intros Hb [H1 H2 H3]. unfold recordWebhookDeliveryError. destruct (h_record_ok o); simpl; [|done].
  destruct (is_dead row) eqn:Hd; split; simpl; try (by apply dead_letters_more); try done.
  - apply dead_letters_error; [done..|]. intros _. apply dead_letter_singleton; [done..|]. simpl. by left.
  - rewrite <- (app_nil_r (ws_direct w)). apply dead_letters_error; [done..|]. congruence.
Qed.

Lemma hook_recorded o id row w :
  (forall r, ws_hooks w !! id = Some r -> q_body r = q_body row) -> recorded w ->
  recorded (processOneWebhookDelivery sanitize maskedUrl o id row w).
Proof.
  intros Hb Hw. unfold processOneWebhookDelivery.
  assert (Hsent : forall w, recorded w -> recorded (markWebhookDeliverySent id w)).
  { intros w0 [H1 H2 H3]. split; simpl; [done..|]. by apply dead_letters_alter. }
  destruct (h_fault o); [by apply recordWebhook_recorded|]. destruct (ws_outbox w !! _); [|by apply Hsent].
  destruct (deliver_hooks_frame o (q_body row) (resolveWebhookSubscribers (q_body row) (ws_webhooks w)) w)
    as (F1 & F2 & F3 & ls & F4).
  destruct (deliver_hooks _ _ _ _ _) as [w1 e]. simpl in *.
  assert (recorded w1).
  { destruct Hw as [H1 H2 H3]. split; rewrite ?F1, ?F2, ?F3, F4; by apply dead_letters_more. }
  destruct e; [|by apply Hsent]. apply recordWebhook_recorded; [by rewrite F3|done].
Qed.

Lemma failed_events_in {A} (event : jsstr -> queue_row A -> direct_log) rows id r :
  (id, r) ∈ rows -> q_status r = Q_FAILED -> event id r ∈ failed_events event rows.
Proof.
  intros Hin Hs. unfold failed_events. apply list_elem_of_fmap. exists (id, r). split; [done|].
  apply list_elem_of_In, filter_In. split; [by apply list_elem_of_In|]. by apply bool_decide_eq_true.
Qed.

Lemma reaper_recorded ok purges now locked w :
  recorded w -> recorded (runReaper cfg ok purges now locked w).
Proof.
  destruct ok as [[ok1 ok2] ok3]. intros Hw. unfold runReaper.
  assert (Hw1 : recorded (if ok1 then fst (reapStuckRows cfg now locked w) else w)).
  { destruct ok1; [|done]. destruct Hw as [H1 H2 H3]. split; simpl; try by apply dead_letters_more.
    apply dead_letters_reap; [done|]. intros id r Hin Hs. eexists. split.
    - apply list_elem_of_fmap. exists (id, r). split; [done|exact Hin].
    - simpl. rewrite bool_decide_true by done. split_and!; [done..|]. simpl. by left. }
  revert Hw1. generalize (if ok1 then fst (reapStuckRows cfg now locked w) else w). clear w Hw. intros w Hw.
  assert (Hw2 : recorded (if ok2 then fst (reapStuckDeliveries cfg now locked w) else w)).
  { destruct ok2; [|done]. destruct Hw as [H1 H2 H3]. split; simpl; try by apply dead_letters_more.
    apply dead_letters_reap; [done|]. intros id r Hin Hs. eexists. split; [by apply failed_events_in|].
    split_and!; [done..|]. simpl. by left. }
  revert Hw2. generalize (if ok2 then fst (reapStuckDeliveries cfg now locked w) else w). clear w Hw. intros w Hw.
  assert (Hw3 : recorded (if ok3 then fst (reapStuckWebhookDeliveries cfg now locked w) else w)).
  { destruct ok3; [|done]. destruct Hw as [H1 H2 H3]. split; simpl; try by apply dead_letters_more.
    apply dead_letters_reap; [done|]. intros id r Hin Hs. eexists. split; [by apply failed_events_in|].
    split_and!; [done..|]. simpl. by left. }
  revert Hw3. generalize (if ok3 then fst (reapStuckWebhookDeliveries cfg now locked w) else w). clear w Hw. intros w [H1 H2 H3].
  unfold purgeRetention. destruct purges as [|[|[|[|purges]]]]; simpl; split; simpl; try done;
    repeat (apply dead_letters_more || apply dead_letters_delete); done.
Qed.

Lemma tx_recorded w w' : worker_tx sanitize sha256 maskedUrl cfg w w' -> recorded w -> recorded w'.
Proof.
  intros Htx Hw. pose proof Hw as [H1 H2 H3]. destruct Htx as [w id body now Hn|w n now locked|w ce o id row Hb
    |w n now locked|w o id row w' Hb Hp|w n now locked|w o id row Hb|w ok purges now locked].
  - split; simpl; [|done..]. by apply dead_letters_insert.
  - split; simpl; [|done..]. by apply dead_letters_claim.
  - destruct (process_row_cases sanitize sha256 ce o id row w) as [[msg ->]|(r & payload & db & res & _ & Hc)].
    + by apply recordError_recorded.
    + by eapply commit_recorded.
  - split; simpl; [done| |done]. by apply dead_letters_claim.
  - by eapply delivery_recorded.
  - split; simpl; [done..|]. by apply dead_letters_claim.
  - by apply hook_recorded.
  - by apply reaper_recorded.
Qed.
End Recorded.

(** No row is dead-lettered silently.  However the transactions of any number of
    workers and reapers interleave, and whichever of them fail, every FAILED row of
    the outbox and of the two delivery tables has a dead-letter event that names the
    row, under the row's tenant. *)
Theorem dead_letters_recorded sanitize sha256 maskedUrl cfg w w' :
  recorded w -> rtc (worker_tx sanitize sha256 maskedUrl cfg) w w' -> recorded w'.
Proof. intros Hw H. induction H as [|w w1 w' Htx H IH]; [done|]. apply IH. by eapply tx_recorded. Qed.

Lemma dead_letters_recorded_witness :
  let row := {| q_body := {| ob_tenant := [7]; ob_payload := JNull |}; q_status := Q_PROCESSING;
                q_attempt_count := 7; q_max_attempts := 8; q_created_at := 0; q_next_retry_at := 0;
                q_processing_started_at := Some 0; q_sent_at := None; q_last_error := None |} in
  let w := empty_worker {[ [1] := row ]} in
  let w' := process_row (fun s => s) (fun b => b) (fun _ => false) (demo_oracle 0) [1] row w in
  (q_status <$> ws_outbox w' !! [1]) = Some Q_FAILED /\ recorded w'.
Proof.
  intros row w w'. split; [vm_compute; reflexivity|].
  apply (dead_letters_recorded (fun s => s) (fun b => b) (fun u => u) AUDIT_OUTBOX w).
  - split; intros id r Hr Hs.
    + cbn [ws_outbox w empty_worker] in Hr. apply lookup_singleton_Some in Hr as [_ <-]. done.
    + cbn in Hr. by rewrite lookup_empty in Hr.
    + cbn in Hr. by rewrite lookup_empty in Hr.
  - apply rtc_once. apply (Tx_row _ _ _ _ w (fun _ => false) (demo_oracle 0) [1] row).
    intros r Hr. cbn [ws_outbox w empty_worker] in Hr. apply lookup_singleton_Some in Hr as [_ <-]. done.
Defined.

(** ** The purge *)

Lemma referenced_delivery w id d :
  ws_deliveries w !! id = Some d -> terminal (q_status d) = false -> ad_outboxId (q_body d) ∈ referenced w.
Proof.
  intros Hd Ht. unfold referenced. apply elem_of_list_to_set, elem_of_app. left. apply list_elem_of_fmap.
  exists (id, d). split; [done|]. apply list_elem_of_In, filter_In. split; [by apply list_elem_of_In, elem_of_map_to_list|].
  unfold live. simpl. by rewrite Ht.
Qed.

Lemma referenced_hook w id d :
  ws_hooks w !! id = Some d -> terminal (q_status d) = false -> wd_outbox_id (q_body d) ∈ referenced w.
Proof.
  intros Hd Ht. unfold referenced. apply elem_of_list_to_set, elem_of_app. right. apply list_elem_of_fmap.
  exists (id, d). split; [done|]. apply list_elem_of_In, filter_In. split; [by apply list_elem_of_In, elem_of_map_to_list|].
  unfold live. simpl. by rewrite Ht.
Qed.

(** What a purge event accounts for. *)
Definition purged_of (tenant : jsstr) (sel : list (jsstr * queue_row outbox_body)) : nat :=
  length (List.filter (fun kr => ob_tenant (q_body (snd kr)) =s tenant) sel).

Lemma count_occ_filter (l : list jsstr) t :
  count_occ (fun a b : jsstr => decide (a = b)) l t = length (List.filter (fun x => x =s t) l).
Proof.
  induction l as [|x l IH]; simpl; [done|]. destruct (decide (x = t)) as [->|Hne].
  - rewrite bool_decide_true by done. simpl. by rewrite IH.
  - by rewrite bool_decide_false.
Qed.

Lemma filter_map_length {A} (f : A -> jsstr) t l :
  length (List.filter (fun x => x =s t) (map f l)) = length (List.filter (fun x => f x =s t) l).
Proof. induction l as [|x l IH]; simpl; [done|]. case_bool_decide; simpl; by rewrite IH. Qed.

(** The purge of delivered rows.  It deletes at most a batch, only SENT rows past
    their retention, and none that a delivery in progress refers to; every other row
    stays; and it writes one event for each tenant that lost rows, with the number of
    that tenant's deleted rows, and no other event. *)
Theorem purge_sent_spec cfg now w :
  let sel := select_rows (sent_aged cfg now) (fun r => default 0 (q_sent_at r)) (PURGE_BATCH_SIZE cfg)
               (referenced w) (ws_outbox w) in
  let w' := fst (purgeSentAgedInTx cfg now w) in
  (length sel <= PURGE_BATCH_SIZE cfg)%nat /\
  (forall id r, ws_outbox w !! id = Some r -> ws_outbox w' !! id = None ->
     q_status r = Q_SENT /\ (exists s, q_sent_at r = Some s /\ s + RETENTION_HOURS cfg * MS_PER_HOUR < now) /\
     (forall k d, ws_deliveries w !! k = Some d -> ad_outboxId (q_body d) = id -> terminal (q_status d) = true) /\
     (forall k d, ws_hooks w !! k = Some d -> wd_outbox_id (q_body d) = id -> terminal (q_status d) = true)) /\
  (forall id r, ws_outbox w' !! id = Some r -> ws_outbox w !! id = Some r) /\
  exists ls, ws_direct w' = ws_direct w ++ ls /\ NoDup (map dl_tenant ls) /\
    forall l, l ∈ ls <-> exists tenant, (0 < purged_of tenant sel)%nat /\
      l = writeDirectAuditLogInTx tenant (js "AUDIT_OUTBOX_RETENTION_PURGED")
            [(js "purgedCount", num (Z.of_nat (purged_of tenant sel))); (js "retentionHours", num (RETENTION_HOURS cfg));
             (js "failedRetentionDays", num (FAILED_RETENTION_DAYS cfg)); (js "branch", JStr (js "SENT"))] None.
Proof.
  intros sel w'. split_and!; [apply select_rows_length| | |].
  - intros id r Hr Hd. assert (Hin : id ∈ map fst sel).
    { destruct (decide (id ∈ map fst sel)) as [|Hn]; [done|]. exfalso.
      assert (ws_outbox w' !! id = Some r) by (by apply delete_ids_lookup). congruence. }
    destruct (selected_row _ _ _ _ _ _ Hin) as (r0 & Hr0 & Hp & Hsel). assert (r0 = r) as -> by congruence.
    apply select_rows_in in Hsel as (_ & _ & Hnot). unfold sent_aged in Hp. bools. split_and!; [done| | |].
    + destruct (q_sent_at r) as [s|]; [|done]. bools. exists s. split; [done|lia].
    + intros k d Hk <-. destruct (terminal (q_status d)) eqn:E; [done|]. by destruct Hnot; eapply referenced_delivery.
    + intros k d Hk <-. destruct (terminal (q_status d)) eqn:E; [done|]. by destruct Hnot; eapply referenced_hook.
  - intros id r [Hr _]%delete_ids_lookup. done.
  - exists (purge_events cfg (js "SENT") sel). split; [done|].
    assert (Hcount : forall t, count_occ (fun a b : jsstr => decide (a = b)) (map (fun kr => ob_tenant (q_body (snd kr))) sel) t
      = purged_of t sel) by (intros t; by rewrite count_occ_filter, filter_map_length).
    unfold purge_events, group_count. rewrite !map_map. split.
    + simpl. rewrite map_id. apply NoDup_ListNoDup, NoDup_nodup.
    + intros l. rewrite list_elem_of_fmap. setoid_rewrite list_elem_of_In. setoid_rewrite nodup_In.
      split; intros (t & Ht).
      * destruct Ht as [-> Hin]. exists t. rewrite <- Hcount. split; [|done].
        by apply (count_occ_In (fun a b : jsstr => decide (a = b))).
      * destruct Ht as [Hpos ->]. exists t. simpl. rewrite Hcount. split; [done|].
        apply (count_occ_In (fun a b : jsstr => decide (a = b))). rewrite Hcount. lia.
Qed.

(** ** A worker that lost its lease *)

(** A worker whose lease expired still settles its row, over whatever happened
    since: its failure puts a delivered row back to PENDING.  The insert into the log
    is idempotent, so the event is still logged once. *)
Theorem late_error_undoes_delivery :
  let uuid := js "00000000-0000-4000-8000-000000000001" in
  let row := {| q_body := {| ob_tenant := [7]; ob_payload := JObj [(js "userId", JStr uuid)] |};
                q_status := Q_PENDING; q_attempt_count := 6; q_max_attempts := 8; q_created_at := 0;
                q_next_retry_at := 0; q_processing_started_at := None; q_sent_at := None; q_last_error := None |} in
  let off := fun _ : jsstr => false in
  let run := process_row (fun s => s) (fun b => b) off in
  let '(w1, c1) := claimBatch 1 0 ∅ (empty_worker {[ [1] := row ]}) in
  let w2 := fst (reapStuckRows AUDIT_OUTBOX 300001 ∅ w1) in
  let '(w3, c2) := claimBatch 1 300001 ∅ w2 in
  let w4 := fold_left (fun w kr => run (demo_oracle 300002) (fst kr) (snd kr) w) c2 w3 in
  let fault := {| o_now := 300003; o_fault := Some (js "timeout"); o_record_ok := true; o_thrown := []; o_delay := 0;
                  o_logId := [2]; o_newId := fun n => [Z.of_nat n] |} in
  let w5 := fold_left (fun w kr => run fault (fst kr) (snd kr) w) c1 w4 in
  (q_status <$> ws_outbox w4 !! [1]) = Some Q_SENT /\ length (ws_logs w4) = 1%nat /\
  (q_status <$> ws_outbox w5 !! [1]) = Some Q_PENDING.
Proof. vm_compute. done. Qed.

(** ** The webhook lease *)

(** When the start-up check passes, the chunks of a claimed batch, processed one after
    the other, end within half of the lease; otherwise one item alone would not. *)
Theorem webhook_batch_fits_lease timeout n :
  validateWebhookDeliveryLease timeout = true -> 0 <= n <= WEBHOOK_DELIVERY_BATCH_SIZE timeout ->
  2 * ((n + WEBHOOK_DELIVERY_CONCURRENCY - 1) / WEBHOOK_DELIVERY_CONCURRENCY * WEBHOOK_WORST_CASE_PER_ITEM_MS) <= timeout.
Proof.
  unfold validateWebhookDeliveryLease, WEBHOOK_DELIVERY_BATCH_SIZE. intros Hv Hn. bools.
  change WEBHOOK_WORST_CASE_PER_ITEM_MS with 51000 in *. unfold WEBHOOK_DELIVERY_CONCURRENCY in *. zdiv.
Qed.

(** ** Auto-disable and depth alert *)

(** Failures in a row are all counted, and disable the webhook at the threshold. *)
Lemma webhook_auto_disable n h :
  let h' := Nat.iter n fail_webhook h in
  wh_failCount h' = wh_failCount h + Z.of_nat n /\
  (wh_isActive h' = true -> (0 < n)%nat -> wh_failCount h + Z.of_nat n < WEBHOOK_AUTO_DISABLE_THRESHOLD).
Proof.
  induction n as [|n [IH1 IH2]]; simpl; [split; [lia|intros; lia]|]. rewrite IH1. split; [lia|].
  destruct (_ <=? _) eqn:E; [done|]. bools. intros _ _. lia.
Qed.

(** While the outbox stays above its thresholds, alerts are a day apart. *)
Lemma depth_alerts_spaced cfg p1 p2 a1 a2 t1 t2 s s1 :
  checkDepthAlert cfg p1 a1 t1 s = (s1, true) -> snd (checkDepthAlert cfg p2 a2 t2 s1) = true -> t1 + MS_PER_DAY <= t2.
Proof.
  unfold checkDepthAlert. intros H1 H2. destruct (_ || _) in H1; [|done]. injection H1 as <- Hs. rewrite Hs in H2.
  destruct (_ || _) in H2; [|done]. simpl in H2. bools. lia.
Qed.
