(* ===== verification/Dpop.v ===== *)
(** * DPoP proofs

    src/src/lib/auth/dpop/: the proof verifier (verify.ts), the cache of proof
    identifiers over Redis or memory (jti-cache.ts), and the canonical target
    URIs of server and client (htu-canonical.ts, with resolveBasePath and
    getAppOrigin of url-helpers.ts).  The URL parser, the decoding of a JWS
    segment, ES256, SHA-256 and the Redis server are parameters.  [JtiCache] is
    the promise the verifier relies on; the in-memory store and a Redis server
    that honours SET NX PX both discharge it. *)

From S2P Require Import Prelude JsString JsNumber JsJson JsMap.
Local Open Scope Z_scope.

(** ** Target URIs *)

(** The fields of a parsed URL that the sources read. *)
Record url := {
  protocol : jsstr; hostname : jsstr; port : jsstr; pathname : jsstr; search : jsstr;
  hash : jsstr; origin : jsstr }.

(** The environment variables; an unset one is [None]. *)
Record url_env := {
  env_APP_URL : option jsstr; env_AUTH_URL : option jsstr;
  env_NEXT_PUBLIC_BASE_PATH : option jsstr }.

Inductive htu_throw := HtuNotConfigured | HtuInvalidUrl.

(** [v || rest] on an optional string. *)
Definition or_else (v rest : option jsstr) : option jsstr :=
  match v with Some (_ :: _) => v | _ => rest end.

Definition getAppOrigin (env : url_env) : option jsstr :=
  or_else (env_APP_URL env) (or_else (env_AUTH_URL env) None).

Definition resolveBasePath (env : url_env) (u : url) : jsstr :=
  let basePath := pathname u in
  let basePath := if js_ends_with (js "/") basePath then removelast basePath else basePath in
  match basePath with
  | [] => match env_NEXT_PUBLIC_BASE_PATH env with Some envBasePath => envBasePath | None => [] end
  | _ => basePath
  end.

Definition normalizePath (route : jsstr) : jsstr :=
  if js_starts_with (js "/") route then route else js "/" ++ route.

(** The path under the base path, which is not prepended a second time. *)
Definition canonicalPath (basePath path : jsstr) : jsstr :=
  match basePath with
  | [] => path
  | _ => if (path =s basePath) || js_starts_with (basePath ++ js "/") path then path
         else basePath ++ path
  end.

Definition authority (u : url) : jsstr :=
  let scheme := js_to_lower (protocol u) in
  let host := js_to_lower (hostname u) in
  let isDefaultPort :=
    ((scheme =s js "http:") && ((port u =s []) || (port u =s js "80")))
    || ((scheme =s js "https:") && ((port u =s []) || (port u =s js "443"))) in
  if isDefaultPort then host else host ++ js ":" ++ port u.

Definition normalizePort (u : url) : jsstr :=
  match port u with
  | [] => if protocol u =s js "http:" then js "80"
          else if protocol u =s js "https:" then js "443" else []
  | p => p
  end.

Section Urls.
(** [new URL(s)]; [None] is its TypeError. *)
Variable URL : jsstr -> option url.

Definition canonicalHtu (env : url_env) (route : jsstr) : outcome htu_throw jsstr :=
  match getAppOrigin env with
  | None => Throw HtuNotConfigured
  | Some o =>
      match URL o with
      | None => Throw HtuInvalidUrl
      | Some u =>
          Ok (js_to_lower (protocol u) ++ js "//" ++ authority u
              ++ canonicalPath (resolveBasePath env u) (normalizePath route))
      end
  end.

Definition canonicalHtuClient (env : url_env) (serverUrl route : jsstr) : outcome htu_throw jsstr :=
  match URL serverUrl with
  | None => Throw HtuInvalidUrl
  | Some u => Ok (origin u ++ resolveBasePath env u ++ normalizePath route)
  end.

Definition htuMatches (provided expected : jsstr) : bool :=
  match URL provided, URL expected with
  | Some a, Some b =>
      (js_to_lower (protocol a) =s js_to_lower (protocol b))
      && (js_to_lower (hostname a) =s js_to_lower (hostname b))
      && (normalizePort a =s normalizePort b)
      && (pathname a =s pathname b)
      && (search a =s []) && (hash a =s [])
  | _, _ => false
  end.
End Urls.

(** ** The cache of proof identifiers *)

Definition DPOP_DEFAULT_SKEW_SECONDS : Z := 30.
Definition DPOP_DEFAULT_JTI_TTL_MS : Z := 60000.
Definition IN_MEMORY_MAX : Z := 10000.

Definition makeKey (jkt jti : jsstr) : jsstr := js "dpop:jti:" ++ jkt ++ js ":" ++ jti.

(** The in-process store: expiry times by key. *)
Definition jti_memory := jsmap Z.

Definition jti_checkMemory (st : jti_memory) (key : jsstr) (ttlMs now : Z) : jti_memory * bool :=
  let live := match map_get st key with Some expiresAt => now <? expiresAt | None => false end in
  if live then (st, true)
  else
    let st :=
      if IN_MEMORY_MAX <=? Z.of_nat (length st) then
        let st := List.filter (fun kv => negb (snd kv <=? now)) st in
        if IN_MEMORY_MAX <=? Z.of_nat (length st) then [] else st
      else st in
    (map_set st key (now + ttlMs), false).

(** What SET key 1 PX ttl NX answers. *)
Inductive redis_set_reply := SetOk | SetNull | SetError.

(** [jc_redis] is the server behind [getRedis()], when one is configured. *)
Record jti_cache (R : Type) := { jc_redis : option R; jc_memory : jti_memory }.
Arguments jc_redis {R} _.
Arguments jc_memory {R} _.

(** [redis_set r now key ttlMs] is the server's SET key 1 PX ttlMs NX at [now]. *)
Definition hasOrRecord {R} (redis_set : R -> Z -> jsstr -> Z -> R * redis_set_reply)
    (ttlMs : Z) (st : jti_cache R) (now : Z) (jkt jti : jsstr) : jti_cache R * bool :=
  let key := makeKey jkt jti in
  match jc_redis st with
  | Some r =>
      let '(r', reply) := redis_set r now key ttlMs in
      ({| jc_redis := Some r'; jc_memory := jc_memory st |},
       match reply with SetOk => false | SetNull | SetError => true end)
  | None =>
      let '(m, replay) := jti_checkMemory (jc_memory st) key ttlMs now in
      ({| jc_redis := None; jc_memory := m |}, replay)
  end.

(** What a verifier may rely on: an identifier recorded at [now] is reported as
    seen until [now + ttl], whatever is presented in between, as long as time does
    not run backwards and the store has room for the calls ([jti_room c t n]: for
    [n] more identifiers from time [t] on). *)
Class JtiCache (C : Type) := {
  has_or_record : C -> Z -> jsstr -> jsstr -> C * bool;
  jti_room : C -> Z -> nat -> Prop;
  jti_room_later : forall c t n now, jti_room c t (S n) -> t <= now -> jti_room c now n;
  jti_room_step : forall c t n now jkt jti,
    jti_room c t (S n) -> t <= now -> jti_room (fst (has_or_record c now jkt jti)) now n;
  jti_seen : C -> jsstr -> jsstr -> Z -> Prop;
  jti_recorded : forall c now jkt jti c',
    has_or_record c now jkt jti = (c', false) ->
    jti_seen c' jkt jti (now + DPOP_DEFAULT_JTI_TTL_MS);
  jti_kept : forall c t n now jkt jti jkt' jti' till,
    jti_room c t (S n) -> t <= now -> jti_seen c jkt jti till -> now < till ->
    jti_seen (fst (has_or_record c now jkt' jti')) jkt jti till;
  jti_refused : forall c now jkt jti till,
    jti_seen c jkt jti till -> now < till -> snd (has_or_record c now jkt jti) = true }.

(** ** The verifier *)

Inductive DpopVerifyError :=
| HEADER_MISSING | PARSE_ERROR | BAD_TYP | BAD_ALG | BAD_JWK | SIG_INVALID | HTM_MISMATCH
| HTU_MISMATCH | IAT_OUT_OF_WINDOW | JTI_REPLAY | ATH_REQUIRED | ATH_MISMATCH
| CNF_JKT_MISMATCH | NONCE_REQUIRED | NONCE_INVALID.

(** How a verification ends other than by acceptance: an error value, or the
    RangeError of [timingSafeEqual]. *)
Inductive dpop_stop :=
| DpopFail (e : DpopVerifyError) (detail : option jsstr)
| DpopRangeError.

Record DpopJwk := { jwk_x : jsstr; jwk_y : jsstr }.

Record DpopVerifyOptions := {
  expectedHtm : jsstr; expectedHtu : jsstr; iatSkewSeconds : option Z;
  expectedAth : option jsstr; expectedCnfJkt : option jsstr; expectedNonce : option jsstr }.

Record DpopProofClaims := {
  cl_jti : jsstr; cl_htm : jsstr; cl_htu : jsstr; cl_iat : jsnum; cl_ath : option jsstr;
  cl_nonce : option jsstr; cl_jkt : jsstr }.

Record ParsedJws := {
  jws_header : json; jws_payload : json; jws_signingInput : jsstr; jws_signature : list Z }.

Definition dpop_fail {A} (e : DpopVerifyError) : outcome dpop_stop A := Throw (DpopFail e None).
Definition dpop_fail_detail {A} (e : DpopVerifyError) (detail : jsstr) : outcome dpop_stop A :=
  Throw (DpopFail e (Some detail)).

(** [timingSafeEqual] throws on buffers of different lengths; the guard compares
    UTF-16 lengths, the buffers hold UTF-8. *)
Definition safeStringEqual (a b : jsstr) : outcome dpop_stop bool :=
  if negb (length a =? length b)%nat then Ok false
  else if negb (length (js_utf8 a) =? length (js_utf8 b))%nat then Throw DpopRangeError
  else Ok (js_utf8 a =s js_utf8 b).

Definition extractEcJwk (value : json) : option DpopJwk :=
  match value with
  | JObj _ | JArr _ =>
      if negb (bool_decide (get_string value (js "kty") = Some (js "EC"))) then None
      else if negb (bool_decide (get_string value (js "crv") = Some (js "P-256"))) then None
      else match get_string value (js "x"), get_string value (js "y") with
           | Some ((_ :: _) as x), Some ((_ :: _) as y) =>
               if json_has value (js "d") then None else Some {| jwk_x := x; jwk_y := y |}
           | _, _ => None
           end
  | _ => None
  end.

(** [JSON.stringify({crv, kty, x, y})] *)
Definition jwk_canonical (k : DpopJwk) : jsstr :=
  [123] ++ json_quote (js "crv") ++ js ":" ++ json_quote (js "P-256") ++ js ","
  ++ json_quote (js "kty") ++ js ":" ++ json_quote (js "EC") ++ js ","
  ++ json_quote (js "x") ++ js ":" ++ json_quote (jwk_x k) ++ js ","
  ++ json_quote (js "y") ++ js ":" ++ json_quote (jwk_y k) ++ [125].

(** [Math.abs(nowSec - iat) > skew].  The subtraction of doubles is exact when
    the operands are within a factor of two of each other, and otherwise it and
    the exact difference are both larger than any skew. *)
Definition iat_outside (nowSec skew m e : Z) : bool :=
  skew * dbl_den e <? Z.abs (nowSec * dbl_den e - dbl_num m e).

Section Verifier.
Variable URL : jsstr -> option url.
(** [JSON.parse(Buffer.from(h, "base64url").toString("utf8"))]; [None] throws. *)
Variable decode_json : jsstr -> option json.
(** [Buffer.from(s, "base64url")] *)
Variable decode_bytes : jsstr -> list Z.
(** importKey and verify of WebCrypto, false on any exception. *)
Variable verifyEs256 : DpopJwk -> jsstr -> list Z -> bool.
(** [createHash("sha256").update(bytes).digest("base64url")] *)
Variable sha256_base64url : list Z -> jsstr.

Definition computeAth (accessToken : jsstr) : jsstr := sha256_base64url (js_utf8 accessToken).
Definition jwkThumbprint (k : DpopJwk) : jsstr := sha256_base64url (js_utf8 (jwk_canonical k)).

Definition parseJws (token : jsstr) : jsstr + ParsedJws :=
  match js_split (js ".") token with
  | [h; p; s] =>
      match h, p, s with
      | _ :: _, _ :: _, _ :: _ =>
          match decode_json h, decode_json p with
          | Some header, Some payload =>
              match header, payload with
              | (JObj _ | JArr _), (JObj _ | JArr _) =>
                  match decode_bytes s with
                  | [] => inl (js "empty signature")
                  | signatureRaw =>
                      inr {| jws_header := header; jws_payload := payload;
                             jws_signingInput := h ++ js "." ++ p;
                             jws_signature := signatureRaw |}
                  end
              | (JObj _ | JArr _), _ => inl (js "payload not object")
              | _, _ => inl (js "header not object")
              end
          | _, _ => inl (js "header/payload not valid JSON")
          end
      | _, _, _ => inl (js "empty segment")
      end
  | _ => inl (js "expected 3 segments")
  end.

(** The checks on the header and the signature, up to the thumbprint. *)
Definition check_signature (parsed : ParsedJws) : outcome dpop_stop jsstr :=
  let header := jws_header parsed in
  if negb (bool_decide (get_string header (js "typ") = Some (js "dpop+jwt"))) then dpop_fail BAD_TYP
  else if negb (bool_decide (get_string header (js "alg") = Some (js "ES256"))) then
    dpop_fail BAD_ALG
  else match extractEcJwk (json_get header (js "jwk")) with
       | None => dpop_fail BAD_JWK
       | Some jwk =>
           let n := length (jws_signature parsed) in
           if negb (n =? 64)%nat then
             dpop_fail_detail SIG_INVALID (js "signature length " ++ js_of_Z (Z.of_nat n))
           else if negb (verifyEs256 jwk (jws_signingInput parsed) (jws_signature parsed)) then
             dpop_fail SIG_INVALID
           else Ok (jwkThumbprint jwk)
       end.

(** A claim that must be present and equal to the expected value. *)
Definition check_claim (payload : json) (name : jsstr) (expected : option jsstr)
    (missing wrong : DpopVerifyError) : outcome dpop_stop unit :=
  match expected with
  | None => Ok tt
  | Some v =>
      match get_string payload name with
      | Some ((_ :: _) as got) =>
          same ← safeStringEqual got v;
          if same : bool then Ok tt else dpop_fail wrong
      | _ => dpop_fail missing
      end
  end.

(** The claims, in the order of the source, up to the replay check. *)
Definition check_claims (o : DpopVerifyOptions) (now : Z) (payload : json) (jkt : jsstr)
    : outcome dpop_stop DpopProofClaims :=
  match get_string payload (js "htm") with
  | None => dpop_fail_detail HTM_MISMATCH (js "htm missing")
  | Some htm =>
  if negb (js_to_upper htm =s js_to_upper (expectedHtm o)) then dpop_fail HTM_MISMATCH else
  match get_string payload (js "htu") with
  | None => dpop_fail_detail HTU_MISMATCH (js "htu missing")
  | Some htu =>
  if negb (htuMatches URL htu (expectedHtu o)) then dpop_fail HTU_MISMATCH else
  match json_get payload (js "iat") with
  | JNum (Dbl m e) =>
  if iat_outside (now / 1000) (default DPOP_DEFAULT_SKEW_SECONDS (iatSkewSeconds o)) m e then
    dpop_fail IAT_OUT_OF_WINDOW else
  match get_string payload (js "jti") with
  | Some ((_ :: _) as jti) =>
      check_claim payload (js "nonce") (expectedNonce o) NONCE_REQUIRED NONCE_INVALID;;
      check_claim payload (js "ath") (expectedAth o) ATH_REQUIRED ATH_MISMATCH;;
      bound ← match expectedCnfJkt o with
              | None => Ok true
              | Some v => safeStringEqual jkt v
              end;
      if negb bound then dpop_fail CNF_JKT_MISMATCH
      else Ok {| cl_jti := jti; cl_htm := htm; cl_htu := htu; cl_iat := Dbl m e;
                 cl_ath := get_string payload (js "ath");
                 cl_nonce := get_string payload (js "nonce"); cl_jkt := jkt |}
  | _ => dpop_fail_detail PARSE_ERROR (js "jti missing")
  end
  | _ => dpop_fail_detail IAT_OUT_OF_WINDOW (js "iat missing")
  end
  end
  end.

(** Everything before the replay check. *)
Definition check_proof (o : DpopVerifyOptions) (now : Z) (dpopHeader : option jsstr)
    : outcome dpop_stop DpopProofClaims :=
  match dpopHeader with
  | None | Some [] => dpop_fail HEADER_MISSING
  | Some token =>
      match parseJws token with
      | inl detail => dpop_fail_detail PARSE_ERROR detail
      | inr parsed =>
          jkt ← check_signature parsed;
          check_claims o now (jws_payload parsed) jkt
      end
  end.

Definition verifyDpopProof {C} `{JtiCache C} (o : DpopVerifyOptions) (now : Z) (cache : C)
    (dpopHeader : option jsstr) : C * outcome dpop_stop DpopProofClaims :=
  match check_proof o now dpopHeader with
  | Throw e => (cache, Throw e)
  | Ok claims =>
      let '(cache', isReplay) := has_or_record cache now (cl_jkt claims) (cl_jti claims) in
      (cache', if isReplay : bool then dpop_fail JTI_REPLAY else Ok claims)
  end.
End Verifier.

(** ** The stores keep the promise *)

(** What SET NX PX documents: a key that was set is held until its expiry, and
    while it is held a further SET NX does not succeed. *)
Class RedisNxPx {R} (redis_set : R -> Z -> jsstr -> Z -> R * redis_set_reply) := {
  redis_holds : R -> jsstr -> Z -> Prop;
  redis_set_held : forall r now key ttl r',
    redis_set r now key ttl = (r', SetOk) -> redis_holds r' key (now + ttl);
  redis_held_on : forall r now key key' ttl till,
    redis_holds r key till -> now < till -> redis_holds (fst (redis_set r now key' ttl)) key till;
  redis_held_null : forall r now key ttl till,
    redis_holds r key till -> now < till -> snd (redis_set r now key ttl) <> SetOk }.

(** The entries of the in-process store that have not expired. *)
Definition live_entries (now : Z) (m : jti_memory) : jti_memory :=
  List.filter (fun kv => negb (snd kv <=? now)) m.

Definition memory_room (m : jti_memory) (t : Z) (n : nat) : Prop :=
  map_ok m /\ Z.of_nat (length (live_entries t m)) + Z.of_nat n <= IN_MEMORY_MAX.

Lemma live_entries_later t now m :
  t <= now -> (length (live_entries now m) <= length (live_entries t m))%nat.
Proof.
  intros Ht. induction m as [|[k e] m IH]; [done|]. simpl.
  destruct (e <=? now) eqn:E1, (e <=? t) eqn:E2; bools; simpl in *; lia.
Qed.

Lemma live_entries_idem now m : live_entries now (live_entries now m) = live_entries now m.
Proof.
  unfold live_entries. induction m as [|[k e] m IH]; [done|]. simpl.
  destruct (negb (e <=? now)) eqn:E; simpl; [by rewrite E, IH|done].
Qed.

Lemma live_entries_set now m k v :
  (length (live_entries now (map_set m k v)) <= S (length (live_entries now m)))%nat.
Proof.
  unfold live_entries. induction m as [|[k0 e0] m IH]; simpl; [by destruct (v <=? now); simpl; lia|].
  case_bool_decide; simpl; destruct (e0 <=? now); simpl; try (destruct (v <=? now); simpl; lia); lia.
Qed.

(** The store after making room: with room left it is the same map, or its live
    part, and in either case holds every live entry. *)
Lemma jti_checkMemory_room m t n key ttl now :
  memory_room m t (S n) -> t <= now ->
  exists m', map_ok m' /\ (length (live_entries now m') <= length (live_entries now m))%nat /\
    (forall k e, map_get m k = Some e -> now < e -> map_get m' k = Some e) /\
    (jti_checkMemory m key ttl now = (m, true)
     \/ jti_checkMemory m key ttl now = (map_set m' key (now + ttl), false)).
Proof.
  intros [Hok Hr] Ht. pose proof (live_entries_later t now m Ht) as Hl.
  unfold jti_checkMemory. destruct (match map_get m key with Some e => now <? e | None => false end).
  { exists m. split_and!; auto. }
  destruct (IN_MEMORY_MAX <=? Z.of_nat (length m)).
  - exists (live_entries now m). split_and!.
    + by apply map_filter_ok.
    + by rewrite live_entries_idem.
    + intros k e Hg He. unfold live_entries. rewrite (map_get_filter _ _ _ e) by done. simpl.
      by rewrite (proj2 (Z.leb_gt _ _)).
    + right. fold (live_entries now m). by rewrite (proj2 (Z.leb_gt _ _)) by lia.
  - exists m. split_and!; auto.
Qed.

Lemma memory_room_step m t n key ttl now :
  memory_room m t (S n) -> t <= now -> memory_room (fst (jti_checkMemory m key ttl now)) now n.
Proof.
  intros Hr Ht. pose proof (live_entries_later t now m Ht).
  destruct (jti_checkMemory_room m t n key ttl now Hr Ht) as (m' & Hok & Hl & _ & [-> | ->]);
    destruct Hr as [Hok0 Hr]; split; simpl; auto using map_set_ok; [lia|].
  pose proof (live_entries_set now m' key (now + ttl)). lia.
Qed.

(** An identifier known until [till]. *)
Definition memory_seen (m : jti_memory) (key : jsstr) (till : Z) : Prop :=
  exists e, map_get m key = Some e /\ till <= e.

Lemma memory_recorded m key ttl now m' :
  jti_checkMemory m key ttl now = (m', false) -> memory_seen m' key (now + ttl).
Proof.
  unfold jti_checkMemory. intros H. exists (now + ttl). split; [|lia].
  destruct (match map_get m key with Some e => now <? e | None => false end); simplify_eq.
  rewrite map_get_set. by rewrite bool_decide_true.
Qed.

Lemma memory_kept m t n now key key' till :
  memory_room m t (S n) -> t <= now -> memory_seen m key till -> now < till ->
  memory_seen (fst (jti_checkMemory m key' DPOP_DEFAULT_JTI_TTL_MS now)) key till.
Proof.
  intros Hr Ht (e & Hg & He) Hlt.
  destruct (decide (key' = key)) as [->|Hne].
  { exists e. split; [|done]. unfold jti_checkMemory. rewrite Hg.
    by rewrite (proj2 (Z.ltb_lt _ _)) by lia. }
  destruct (jti_checkMemory_room m t n key' DPOP_DEFAULT_JTI_TTL_MS now Hr Ht)
    as (m' & _ & _ & Hm & [-> | ->]); [by exists e|].
  exists e. split; [|done]. cbn [fst]. rewrite map_get_set, bool_decide_false by done.
  apply Hm; [done|lia].
Qed.

Lemma memory_refused m key ttl now till :
  memory_seen m key till -> now < till -> snd (jti_checkMemory m key ttl now) = true.
Proof.
  intros (e & Hg & He) Hlt. unfold jti_checkMemory. rewrite Hg.
  by rewrite (proj2 (Z.ltb_lt _ _)) by lia.
Qed.

Section Stores.
Context {R : Type} (redis_set : R -> Z -> jsstr -> Z -> R * redis_set_reply) `{!RedisNxPx redis_set}.

Definition cache_seen (c : jti_cache R) (jkt jti : jsstr) (till : Z) : Prop :=
  match jc_redis c with
  | Some r => redis_holds r (makeKey jkt jti) till
  | None => memory_seen (jc_memory c) (makeKey jkt jti) till
  end.

Definition cache_room (c : jti_cache R) (t : Z) (n : nat) : Prop :=
  match jc_redis c with Some _ => True | None => memory_room (jc_memory c) t n end.

(** The cache of createJtiCache with its default lifetime, over memory or over a
    Redis server. *)
#[export] Program Instance default_jti_cache : JtiCache (jti_cache R) := {|
  has_or_record := hasOrRecord redis_set DPOP_DEFAULT_JTI_TTL_MS;
  jti_room := cache_room; jti_seen := cache_seen |}.
Next Obligation.
  intros [[r|] m] t n now; unfold cache_room; simpl; [done|]. intros [Hok Hr] Ht. split; [done|].
  pose proof (live_entries_later t now m Ht). lia.
Qed.
Next Obligation.
  intros [[r|] m] t n now jkt jti; unfold cache_room, hasOrRecord; simpl.
  - by destruct (redis_set _ _ _ _).
  - intros Hr Ht. pose proof (memory_room_step m t n (makeKey jkt jti) DPOP_DEFAULT_JTI_TTL_MS now Hr Ht).
    by destruct (jti_checkMemory _ _ _ _).
Qed.
Next Obligation.
  intros [[r|] m] now jkt jti c'; unfold cache_seen, hasOrRecord; simpl.
  - destruct (redis_set _ _ _ _) as [r' []] eqn:E; intros; simplify_eq. simpl.
    by eapply redis_set_held.
  - destruct (jti_checkMemory _ _ _ _) as [m' b] eqn:E. intros; simplify_eq. simpl.
    by eapply memory_recorded.
Qed.
Next Obligation.
  intros [[r|] m] t n now jkt jti jkt' jti' till; unfold cache_seen, cache_room, hasOrRecord; simpl;
    intros Hr Ht Hs Hlt.
  - pose proof (redis_held_on r now (makeKey jkt jti) (makeKey jkt' jti') DPOP_DEFAULT_JTI_TTL_MS till
      Hs Hlt). by destruct (redis_set _ _ _ _).
  - pose proof (memory_kept m t n now (makeKey jkt jti) (makeKey jkt' jti') till Hr Ht Hs Hlt).
    by destruct (jti_checkMemory _ _ _ _).
Qed.
Next Obligation.
  intros [[r|] m] now jkt jti till; unfold cache_seen, hasOrRecord; simpl; intros Hs Hlt.
  - pose proof (redis_held_null r now _ DPOP_DEFAULT_JTI_TTL_MS till Hs Hlt).
    by destruct (redis_set _ _ _ _) as [r' []].
  - pose proof (memory_refused m _ DPOP_DEFAULT_JTI_TTL_MS now till Hs Hlt).
    by destruct (jti_checkMemory _ _ _ _).
Qed.
End Stores.

(** A server that does what SET NX PX documents. *)
Definition table_set (r : jsmap Z) (now : Z) (key : jsstr) (ttl : Z) : jsmap Z * redis_set_reply :=
  match map_get r key with
  | Some e => if now <? e then (r, SetNull) else (map_set r key (now + ttl), SetOk)
  | None => (map_set r key (now + ttl), SetOk)
  end.

#[export] Program Instance table_nx_px : RedisNxPx table_set := {|
  redis_holds r key till := memory_seen r key till |}.
Next Obligation.
  intros r now key ttl r'. unfold table_set. intros H. exists (now + ttl). split; [|lia].
  assert (r' = map_set r key (now + ttl)) as ->.
  { destruct (map_get r key) as [e|]; [destruct (now <? e)|]; by simplify_eq. }
  rewrite map_get_set. by rewrite bool_decide_true.
Qed.
Next Obligation.
  intros r now key key' ttl till (e & Hg & He) Hlt. unfold table_set.
  destruct (decide (key' = key)) as [->|Hne].
  - rewrite Hg, (proj2 (Z.ltb_lt _ _)) by lia. by exists e.
  - exists e. split; [|done].
    destruct (map_get r key') as [e'|]; [destruct (now <? e'); [done|]|]; cbn [fst];
      rewrite map_get_set; by rewrite bool_decide_false.
Qed.
Next Obligation.
  intros r now key ttl till (e & Hg & He) Hlt. unfold table_set.
  by rewrite Hg, (proj2 (Z.ltb_lt _ _)) by lia.
Qed.

(** ** Comparing strings *)

Lemma js_utf8_cons_ascii c s :
  js_scalars (c :: s) = c :: js_scalars s -> 0 <= c < 128 -> js_utf8 (c :: s) = c :: js_utf8 s.
Proof.
  intros Hs Hc. unfold js_utf8. rewrite Hs. simpl. unfold utf8_scalar at 1.
  by rewrite (proj2 (Z.ltb_lt c 128)) by lia.
Qed.

Lemma utf8_scalar_not_ascii p : 128 <= p < 1114112 -> exists b r, utf8_scalar p = b :: r /\ 128 <= b.
Proof. intros Hp. unfold utf8_scalar. repeat case_match; bools; eexists _, _; (split; [done|zdiv]). Qed.

Lemma js_scalars_cons c s :
  0 <= c < 65536 -> exists p r, js_scalars (c :: s) = p :: r /\ (c < 128 -> p = c /\ r = js_scalars s)
                 /\ (128 <= c -> 128 <= p < 1114112).
Proof.
  intros Hc. simpl. unfold is_high_surrogate, is_low_surrogate.
  repeat case_match; subst; bools; eexists _, _; (split; [done|]); split; intros; try (split; [done|done]); zdiv.
Qed.

(** A string whose UTF-8 bytes are those of an ASCII string is that string. *)
Lemma js_utf8_eq_ascii a b : units_ok a -> ascii_units b -> js_utf8 a = js_utf8 b -> a = b.
Proof.
  revert b. induction a as [|c a IH]; intros b Ha Hb He.
  { destruct b as [|d b]; [done|]. apply Forall_cons in Hb as [Hd Hb].
    rewrite (js_utf8_ascii (d :: b)) in He by by apply Forall_cons. done. }
  apply Forall_cons in Ha as [Hc Ha]. rewrite (js_utf8_ascii b) in He by done.
  destruct (js_scalars_cons c a Hc) as (p & r & Hs & Hlow & Hhigh).
  destruct (decide (c < 128)) as [Hlt|Hge].
  - destruct (Hlow Hlt) as [-> ->]. rewrite js_utf8_cons_ascii in He by (done || lia).
    destruct b as [|d b]; [done|]. apply Forall_cons in Hb as [Hd Hb]. injection He as -> He.
    f_equal. apply IH; [done|done|]. by rewrite (js_utf8_ascii b).
  - exfalso. destruct (utf8_scalar_not_ascii p) as (x & rest & Hp & Hx); [apply Hhigh; lia|].
    unfold js_utf8 in He. rewrite Hs in He. simpl in He. rewrite Hp in He.
    destruct b as [|d b]; [done|]. apply Forall_cons in Hb as [Hd _]. simplify_eq/=. lia.
Qed.

Lemma safeStringEqual_true a b :
  units_ok a -> ascii_units b -> safeStringEqual a b = Ok true -> a = b.
Proof.
  intros Ha Hb. unfold safeStringEqual. cases; intros; simplify_eq.
  apply js_utf8_eq_ascii; [done|done|]. by eapply bool_decide_eq_true_1.
Qed.

(** ** What acceptance means *)

Section Acceptance.
Context (URL : jsstr -> option url) (decode_json : jsstr -> option json)
  (decode_bytes : jsstr -> list Z) (verifyEs256 : DpopJwk -> jsstr -> list Z -> bool)
  (sha256_base64url : list Z -> jsstr).

(** A JWS of three non-empty segments with object header and payload. *)
Definition is_jws (token : jsstr) (j : ParsedJws) : Prop :=
  exists h p s, token = h ++ js "." ++ p ++ js "." ++ s /\
    (46 ∉ h) /\ (46 ∉ p) /\ (46 ∉ s) /\ h <> [] /\ p <> [] /\ s <> [] /\
    decode_json h = Some (jws_header j) /\ decode_json p = Some (jws_payload j) /\
    (match jws_header j with JObj _ | JArr _ => True | _ => False end) /\
    (match jws_payload j with JObj _ | JArr _ => True | _ => False end) /\
    jws_signingInput j = h ++ js "." ++ p /\ decode_bytes s = jws_signature j /\
    jws_signature j <> [].

Lemma parseJws_iff token j : parseJws decode_json decode_bytes token = inr j <-> is_jws token j.
Proof.
  unfold parseJws, is_jws. split.
  - pose proof (js_join_split (js ".") token ltac:(done)) as Hj.
    pose proof (js_split_pieces 46 token) as Hp. change (js_split [46] token) with (js_split (js ".") token) in Hp.
    destruct (js_split (js ".") token) as [|h [|p [|s [|]]]]; [done..| |done].
    destruct h as [|h0 h'], p as [|p0 p'], s as [|s0 s']; try done.
    rewrite !Forall_cons in Hp. destruct Hp as (H1 & H2 & H3 & _).
    set (h := h0 :: h') in *. set (p := p0 :: p') in *. set (s := s0 :: s') in *.
    destruct (decode_json h) as [header|] eqn:Eh; [|done].
    destruct (decode_json p) as [payload|] eqn:Ep; [|done].
    intros H. exists h, p, s.
    destruct header, payload; try done; destruct (decode_bytes s) as [|b bs] eqn:Eb; try done;
      simplify_eq; simpl; split_and!; done.
  - intros (h & p & s & -> & H1 & H2 & H3 & Hh & Hp & Hs & Eh & Ep & Oh & Op & Hi & Hb & Hne).
    change (js ".") with [46]. cbn [app]. rewrite js_split_app, js_split_app, js_split_none by done.
    cbn [app]. destruct h, p, s; try done. rewrite Eh, Ep, Hb.
    destruct j as [header payload si sig]; simpl in *. subst si.
    destruct header, payload, sig; done.
Qed.

Definition signature_valid (j : ParsedJws) (jkt : jsstr) : Prop :=
  get_string (jws_header j) (js "typ") = Some (js "dpop+jwt") /\
  get_string (jws_header j) (js "alg") = Some (js "ES256") /\
  exists jwk, extractEcJwk (json_get (jws_header j) (js "jwk")) = Some jwk /\
    length (jws_signature j) = 64%nat /\
    verifyEs256 jwk (jws_signingInput j) (jws_signature j) = true /\
    jkt = jwkThumbprint sha256_base64url jwk.

Lemma check_signature_iff j jkt :
  check_signature verifyEs256 sha256_base64url j = Ok jkt <-> signature_valid j jkt.
Proof.
  unfold check_signature, signature_valid, dpop_fail, dpop_fail_detail. split.
  - cases; intros; simplify_eq. bools. split_and!; try done. eexists. split_and!; try done. by apply Nat.eqb_eq.
  - intros (-> & -> & jwk & -> & -> & -> & ->). rewrite !bool_decide_true by done. done.
Qed.

(** [expected] is absent, or the claim is a non-empty string equal to it. *)
Definition claim_is (payload : json) (name : jsstr) (expected : option jsstr) : Prop :=
  forall v, expected = Some v ->
    exists got, get_string payload name = Some got /\ got <> [] /\ safeStringEqual got v = Ok true.

Lemma check_claim_iff payload name expected missing wrong :
  check_claim payload name expected missing wrong = Ok tt <-> claim_is payload name expected.
Proof.
  unfold check_claim, claim_is, dpop_fail. destruct expected as [v|]; [|done]. split.
  - intros H v' [= <-]. destruct (get_string payload name) as [[|c got]|]; [done| |done].
    apply bind_Ok_inv in H as ([] & Heq & H); [|done]. by exists (c :: got).
  - intros H. destruct (H v eq_refl) as (got & -> & Hne & Heq). destruct got; [done|].
    by rewrite Heq.
Qed.

Definition claims_valid (o : DpopVerifyOptions) (now : Z) (payload : json) (c : DpopProofClaims)
    : Prop :=
  get_string payload (js "htm") = Some (cl_htm c) /\
  js_to_upper (cl_htm c) = js_to_upper (expectedHtm o) /\
  get_string payload (js "htu") = Some (cl_htu c) /\
  htuMatches URL (cl_htu c) (expectedHtu o) = true /\
  (exists m e, json_get payload (js "iat") = JNum (Dbl m e) /\ cl_iat c = Dbl m e /\
    Z.abs (now / 1000 * dbl_den e - dbl_num m e)
    <= default DPOP_DEFAULT_SKEW_SECONDS (iatSkewSeconds o) * dbl_den e) /\
  get_string payload (js "jti") = Some (cl_jti c) /\ cl_jti c <> [] /\
  claim_is payload (js "nonce") (expectedNonce o) /\ cl_nonce c = get_string payload (js "nonce") /\
  claim_is payload (js "ath") (expectedAth o) /\ cl_ath c = get_string payload (js "ath") /\
  (forall v, expectedCnfJkt o = Some v -> safeStringEqual (cl_jkt c) v = Ok true).

Lemma check_claims_iff o now payload jkt c :
  check_claims URL o now payload jkt = Ok c <-> claims_valid o now payload c /\ cl_jkt c = jkt.
Proof.
  unfold check_claims, claims_valid, dpop_fail, dpop_fail_detail. split.
  - destruct (get_string payload (js "htm")) as [htm|]; [|done].
    destruct (js_to_upper htm =s _) eqn:Em; simpl; [|done].
    destruct (get_string payload (js "htu")) as [htu|]; [|done].
    destruct (htuMatches URL htu _) eqn:Eu; simpl; [|done].
    destruct (json_get payload (js "iat")) as [| |[| |m e]| | |] eqn:Ei; try done.
    destruct (iat_outside _ _ _ _) eqn:Eo; [done|].
    destruct (get_string payload (js "jti")) as [[|j0 jti]|]; [done| |done].
    intros H. apply bind_Ok_inv in H as ([] & Hn & H). apply bind_Ok_inv in H as ([] & Ha & H).
    apply check_claim_iff in Hn, Ha. apply bind_Ok_inv in H as (b & Hb & H).
    destruct b; simplify_eq/=. unfold iat_outside in Eo. bools. split_and!; try done.
    + by exists m, e.
    + intros v Hv. by rewrite Hv in Hb.
  - intros [(-> & Hm & -> & Hu & (m & e & -> & Hi & Hw) & -> & Hj & Hn & Hnc & Ha & Hac & Hk) <-].
    rewrite bool_decide_true, Hu by done. simpl.
    replace (iat_outside _ _ _ _) with false by (symmetry; by apply Z.ltb_ge).
    destruct (cl_jti c) as [|j0 jti] eqn:Ej; [done|].
    rewrite (proj2 (check_claim_iff _ _ _ _ _) Hn). cbn [mbind outcome_bind].
    rewrite (proj2 (check_claim_iff _ _ _ _ _) Ha). cbn [mbind outcome_bind].
    replace (match expectedCnfJkt o with Some v => safeStringEqual (cl_jkt c) v | None => Ok true end)
      with (@Ok dpop_stop _ true).
    + simpl. destruct c; simpl in *. by subst.
    + destruct (expectedCnfJkt o) as [v|]; [|done]. symmetry. by apply Hk.
Qed.

(** A proof that may be accepted at [now], with its claims. *)
Definition dpop_valid (o : DpopVerifyOptions) (now : Z) (token : jsstr) (c : DpopProofClaims) : Prop :=
  exists j, is_jws token j /\ signature_valid j (cl_jkt c) /\ claims_valid o now (jws_payload j) c.

Lemma check_proof_iff o now token c :
  check_proof URL decode_json decode_bytes verifyEs256 sha256_base64url o now (Some token) = Ok c
  <-> dpop_valid o now token c.
Proof.
  unfold check_proof, dpop_valid. split.
  - destruct token as [|t0 t]; [done|]. set (token := t0 :: t) in *.
    destruct (parseJws decode_json decode_bytes token) as [d|j] eqn:Ep; [done|].
    intros (jkt & Hs & Hc)%bind_Ok_inv. apply parseJws_iff in Ep. apply check_signature_iff in Hs.
    apply check_claims_iff in Hc as [Hc <-]. by exists j.
  - intros (j & Hj & Hs & Hc). apply parseJws_iff in Hj. rewrite Hj.
    apply check_signature_iff in Hs. destruct token; [done|].
    rewrite Hs. cbn [mbind outcome_bind]. by apply check_claims_iff.
Qed.
End Acceptance.

(** ** Lemmas on runs *)

Section Runs.
Context (URL : jsstr -> option url) (decode_json : jsstr -> option json)
  (decode_bytes : jsstr -> list Z) (verifyEs256 : DpopJwk -> jsstr -> list Z -> bool)
  (sha256_base64url : list Z -> jsstr) {C : Type} `{JtiCache C}.

Abbreviation verify :=
  (verifyDpopProof URL decode_json decode_bytes verifyEs256 sha256_base64url).

(** Verifications one after the other: options, time, header. *)
Definition dpop_call : Type := DpopVerifyOptions * Z * option jsstr.

Fixpoint verify_run (cache : C) (calls : list dpop_call) : C :=
  match calls with
  | [] => cache
  | (o, now, header) :: calls' => verify_run (fst (verify o now cache header)) calls'
  end.

(** The calls' times do not decrease from [t] and stay below [till]. *)
Fixpoint times_within (t till : Z) (calls : list dpop_call) : Prop :=
  match calls with
  | [] => True
  | (_, now, _) :: calls' => t <= now < till /\ times_within now till calls'
  end.

Lemma verify_cache o now (cache : C) header :
  fst (verify o now cache header) = cache
  \/ exists jkt jti, fst (verify o now cache header) = fst (has_or_record cache now jkt jti).
Proof.
  unfold verifyDpopProof. destruct (check_proof _ _ _ _ _ _ _ _) as [c|]; [|by left].
  right. exists (cl_jkt c), (cl_jti c). by destruct (has_or_record _ _ _ _).
Qed.

Lemma dpop_verify_accepts o now (cache : C) header c :
  snd (verify o now cache header) = Ok c <->
  check_proof URL decode_json decode_bytes verifyEs256 sha256_base64url o now header = Ok c /\
  snd (has_or_record cache now (cl_jkt c) (cl_jti c)) = false.
Proof.
  unfold verifyDpopProof. destruct (check_proof _ _ _ _ _ _ _ _) as [c'|].
  - destruct (has_or_record cache now (cl_jkt c') (cl_jti c')) as [cache' []] eqn:E; simpl; split.
    + done.
    + intros [[= ->] Hf]. by rewrite E in Hf.
    + intros [= ->]. by rewrite E.
    + by intros [[= ->] _].
  - simpl. split; [done|by intros [? _]].
Qed.

Lemma verify_records o now (cache : C) header c :
  snd (verify o now cache header) = Ok c ->
  jti_seen (fst (verify o now cache header)) (cl_jkt c) (cl_jti c) (now + DPOP_DEFAULT_JTI_TTL_MS).
Proof.
  intros Ha. apply dpop_verify_accepts in Ha as [Hc Hf]. unfold verifyDpopProof. rewrite Hc.
  destruct (has_or_record cache now (cl_jkt c) (cl_jti c)) as [cache' b] eqn:E. simpl in Hf |- *.
  subst b. by eapply jti_recorded.
Qed.

Lemma verify_room o now (cache : C) header t n :
  jti_room cache t (S n) -> t <= now -> jti_room (fst (verify o now cache header)) now n.
Proof.
  intros Hr Ht. destruct (verify_cache o now cache header) as [-> | (jkt & jti & ->)].
  - by eapply jti_room_later.
  - by eapply jti_room_step.
Qed.

Lemma verify_run_seen calls : forall (cache : C) t n jkt jti till,
  jti_room cache t (length calls + n) -> times_within t till calls -> jti_seen cache jkt jti till ->
  jti_seen (verify_run cache calls) jkt jti till.
Proof.
  induction calls as [|[[o now] header] calls IH]; intros cache t n jkt jti till Hr Ht Hs; [done|].
  destruct Ht as [[Ht Hlt] Hts]. simpl in Hr |- *. eapply (IH _ now n).
  - eapply verify_room; [|done]. exact Hr.
  - done.
  - destruct (verify_cache o now cache header) as [-> | (jkt' & jti' & ->)]; [done|].
    by eapply jti_kept.
Qed.
End Runs.

(** ** Thumbprints *)

Definition jwk_units (k : DpopJwk) : Prop := units_ok (jwk_x k) /\ units_ok (jwk_y k).

Lemma jwk_canonical_inj k k' :
  jwk_units k -> jwk_units k' -> jwk_canonical k = jwk_canonical k' -> k = k'.
Proof.
  intros [Hx Hy] [Hx' Hy'] H. destruct k as [x y], k' as [x' y']; simpl in *.
  unfold jwk_canonical in H. simpl jwk_x in H. simpl jwk_y in H.
  repeat (apply app_inv_head in H).
  apply json_quote_prefix in H as [-> H]; [|done|done]. repeat (apply app_inv_head in H).
  by apply json_quote_prefix in H as [-> _].
Qed.

Lemma jwk_canonical_well_formed k : jwk_units k -> js_well_formed (jwk_canonical k) = true.
Proof.
  intros [Hx Hy]. unfold jwk_canonical.
  repeat (apply js_well_formed_app; [first [by apply json_quote_well_formed | by vm_compute]|]).
  by vm_compute.
Qed.

(** The canonical texts of two different keys, which the hash takes to one digest:
    a collision that two given keys exhibit. *)
Definition thumbprint_collision (sha256_base64url : list Z -> jsstr) (k k' : DpopJwk) : Prop :=
  js_utf8 (jwk_canonical k) <> js_utf8 (jwk_canonical k') /\
  sha256_base64url (js_utf8 (jwk_canonical k)) = sha256_base64url (js_utf8 (jwk_canonical k')).

(** Keys with one thumbprint are one key, or they are themselves the collision. *)
Lemma jwkThumbprint_inj sha k k' :
  jwk_units k -> jwk_units k' -> jwkThumbprint sha k = jwkThumbprint sha k' ->
  k = k' \/ thumbprint_collision sha k k'.
Proof.
  intros Hk Hk' H. destruct (decide (js_utf8 (jwk_canonical k) = js_utf8 (jwk_canonical k'))) as [He|Hne].
  - left. apply jwk_canonical_inj; [done|done|].
    apply js_utf8_inj; [exact (jwk_canonical_well_formed k Hk) | exact (jwk_canonical_well_formed k' Hk') | exact He].
  - right. by split.
Qed.

(** The coordinates are strings of the header. *)
Lemma extractEcJwk_units v jwk :
  (forall key str, get_string v key = Some str -> units_ok str) -> extractEcJwk v = Some jwk -> jwk_units jwk.
Proof.
  intros Hx H. unfold extractEcJwk in H. destruct v; try done;
    (repeat match type of H with (if ?b then _ else _) = _ => destruct b; [done|] end;
     destruct (get_string _ (js "x")) as [[|x0 x]|] eqn:Ex; try done;
     destruct (get_string _ (js "y")) as [[|y0 y]|] eqn:Ey; try done;
     destruct (json_has _ _); simplify_eq; split; [exact (Hx _ _ Ex) | exact (Hx _ _ Ey)]).
Qed.

(** ** Properties *)

Section Properties.
Context (URL : jsstr -> option url) (decode_json : jsstr -> option json)
  (decode_bytes : jsstr -> list Z) (verifyEs256 : DpopJwk -> jsstr -> list Z -> bool)
  (sha256_base64url : list Z -> jsstr) {C : Type} `{JtiCache C}.

Abbreviation verify :=
  (verifyDpopProof URL decode_json decode_bytes verifyEs256 sha256_base64url).

(** [verifyDpopProof] accepts exactly the proofs that are a three-segment JWS
    of type dpop+jwt signed with ES256 by the key in its header, whose method,
    target URI, time, nonce, token hash and key binding are as the options ask, and
    whose identifier the cache has not seen; it then returns the proof's claims. *)
Theorem dpop_accept_iff o now (cache : C) token c :
  snd (verify o now cache (Some token)) = Ok c <->
  dpop_valid URL decode_json decode_bytes verifyEs256 sha256_base64url o now token c /\
  snd (has_or_record cache now (cl_jkt c) (cl_jti c)) = false.
Proof. rewrite dpop_verify_accepts. by rewrite check_proof_iff. Qed.

(** C18: a proof accepted for an access token bound to the thumbprint of a key [k]
    is a three-segment JWS whose header carries a public key under which its third
    segment verifies over the first two, whose payload carries the hash of that
    access token, the expected method and the expected target, and whose header key
    has the thumbprint of [k]: it is [k] itself, or the two keys are a collision of
    the hash. *)
Theorem dpop_proves_possession o now (cache : C) token c k accessToken
    (Hsha : forall bytes, ascii_units (sha256_base64url bytes))
    (Hjson : forall s v, decode_json s = Some v ->
       forall k1 k2 str, get_string v k1 = Some str \/ get_string (json_get v k2) k1 = Some str ->
       units_ok str)
    (Hk : jwk_units k)
    (Hcnf : expectedCnfJkt o = Some (jwkThumbprint sha256_base64url k))
    (Hath : expectedAth o = Some (computeAth sha256_base64url accessToken)) :
  snd (verify o now cache (Some token)) = Ok c ->
  exists h p s header payload jwk, token = h ++ js "." ++ p ++ js "." ++ s /\
    decode_json h = Some header /\ decode_json p = Some payload /\
    extractEcJwk (json_get header (js "jwk")) = Some jwk /\
    verifyEs256 jwk (h ++ js "." ++ p) (decode_bytes s) = true /\
    get_string payload (js "ath") = Some (computeAth sha256_base64url accessToken) /\
    (exists htm htu, get_string payload (js "htm") = Some htm /\
       js_to_upper htm = js_to_upper (expectedHtm o) /\
       get_string payload (js "htu") = Some htu /\ htuMatches URL htu (expectedHtu o) = true) /\
    jwkThumbprint sha256_base64url jwk = jwkThumbprint sha256_base64url k /\
    (jwk = k \/ thumbprint_collision sha256_base64url jwk k).
Proof using Type.
  intros (Hc & _)%dpop_verify_accepts.
  apply check_proof_iff in Hc as (j & Hj & (_ & _ & jwk & Hjwk & _ & Hv & Hjkt) & Hcl).
  destruct Hj as (h & p & s & -> & _ & _ & _ & _ & _ & _ & Eh & Ep & _ & _ & Hsi & Hb & _).
  destruct Hcl as (Hm & Hmu & Hu & Hum & _ & _ & _ & _ & _ & Ha & Hac & Hcnf').
  assert (Hju : jwk_units jwk) by (eapply extractEcJwk_units; [|exact Hjwk]; intros key str Hs;
    eapply (Hjson h _ Eh key (js "jwk")); by right).
  pose proof (Hcnf' _ Hcnf) as Heq. apply safeStringEqual_true in Heq;
    [|rewrite Hjkt; eapply Forall_impl; [apply Hsha|simpl; lia] | apply Hsha].
  rewrite Hjkt in Heq.
  destruct (Ha _ Hath) as (got & Hg & _ & Hgeq). apply safeStringEqual_true in Hgeq;
    [|eapply (Hjson p _ Ep (js "ath") []); by left | apply Hsha].
  exists h, p, s, (jws_header j), (jws_payload j), jwk. rewrite Hb, <- Hsi.
  split; [reflexivity|]. split; [exact Eh|]. split; [exact Ep|]. split; [exact Hjwk|]. split; [exact Hv|].
  split; [rewrite Hg; by f_equal|]. split; [exists (cl_htm c), (cl_htu c); exact (conj Hm (conj Hmu (conj Hu Hum)))|].
  split; [exact Heq|exact (jwkThumbprint_inj _ _ _ Hju Hk Heq)].
Qed.

(** Once a proof has been accepted, no proof with its key and identifier is
    accepted within the cache lifetime of a minute, whatever is presented in
    between, and the proof itself is never accepted again when its time was at
    most 29 seconds ahead of the server's. *)
Theorem dpop_no_replay o o' now now' (cache : C) header header' c calls
    (Hroom : jti_room cache now (S (length calls)))
    (Hacc : snd (verify o now cache header) = Ok c)
    (Hskew : iatSkewSeconds o' = None)
    (Htimes : times_within now (now' + 1) calls) (Hnow : now <= now') :
  let cache' := verify_run URL decode_json decode_bytes verifyEs256 sha256_base64url
                  (fst (verify o now cache header)) calls in
  forall c', snd (verify o' now' cache' header') = Ok c' ->
  cl_jkt c' = cl_jkt c -> cl_jti c' = cl_jti c ->
  now + DPOP_DEFAULT_JTI_TTL_MS <= now' /\
  (forall m e, cl_iat c' = Dbl m e -> (now + 29000) * dbl_den e < 1000 * dbl_num m e).
Proof using Type.
  intros cache' c' Hacc' Hk Hj. apply dpop_verify_accepts in Hacc' as [Hc' Hf].
  assert (Hlate : now + DPOP_DEFAULT_JTI_TTL_MS <= now').
  { destruct (decide (now + DPOP_DEFAULT_JTI_TTL_MS <= now')) as [?|Hlt]; [done|exfalso].
    rewrite Hk, Hj in Hf. rewrite (jti_refused _ _ _ _ (now + DPOP_DEFAULT_JTI_TTL_MS)) in Hf;
      [done| |lia].
    eapply (verify_run_seen _ _ _ _ _ _ _ now 0).
    - rewrite Nat.add_0_r. by eapply verify_room.
    - assert (Hmono : forall l t b b', b <= b' -> times_within t b l -> times_within t b' l).
      { clear. induction l as [|[[? ?] ?] l IH]; [done|]. simpl. intros t b b' Hb [? ?].
        split; [lia|]. by eapply IH. }
      eapply Hmono; [|done]. lia.
    - by apply verify_records. }
  split; [done|]. intros m e Hi. destruct header' as [token'|]; [|done].
  apply check_proof_iff in Hc' as (j & _ & _ & Hcl).
  destruct Hcl as (_ & _ & _ & _ & (m' & e' & _ & Hi' & Hw) & _).
  rewrite Hi in Hi'. injection Hi' as <- <-. rewrite Hskew in Hw. simpl in Hw.
  unfold DPOP_DEFAULT_JTI_TTL_MS, DPOP_DEFAULT_SKEW_SECONDS in *.
  assert (Hd : 0 < dbl_den e) by (apply Z.pow_pos_nonneg; lia).
  assert (Hq : now' < 1000 * (now' / 1000) + 1000) by zdiv.
  apply Z.abs_le in Hw as [_ Hw]. nia.
Qed.
End Properties.

(** ** Concrete instances *)

Module Demo.
Definition demo_url (s : jsstr) : option url :=
  Some {| protocol := js "https:"; hostname := js "h"; port := []; pathname := s; search := [];
          hash := []; origin := js "https://h" |}.
Definition demo_header : json :=
  JObj [(js "typ", JStr (js "dpop+jwt")); (js "alg", JStr (js "ES256"));
        (js "jwk", JObj [(js "kty", JStr (js "EC")); (js "crv", JStr (js "P-256"));
                         (js "x", JStr (js "1")); (js "y", JStr (js "2"))])].
(** A proof issued for second 1030. *)
Definition demo_payload : json :=
  JObj [(js "htm", JStr (js "post")); (js "htu", JStr (js "/r")); (js "iat", JNum (Dbl 1030 0));
        (js "jti", JStr (js "j")); (js "ath", JStr (js "d"))].
Definition demo_json (s : jsstr) : option json :=
  if s =s js "h" then Some demo_header else if s =s js "p" then Some demo_payload else None.
Definition demo_bytes (_ : jsstr) : list Z := replicate 64 0.
Definition demo_es256 (_ : DpopJwk) (_ : jsstr) (_ : list Z) : bool := true.
Definition demo_sha (_ : list Z) : jsstr := js "d".
Definition demo_key : DpopJwk := {| jwk_x := js "1"; jwk_y := js "2" |}.
Definition demo_options : DpopVerifyOptions :=
  {| expectedHtm := js "POST"; expectedHtu := js "/r"; iatSkewSeconds := None;
     expectedAth := Some (js "d"); expectedCnfJkt := Some (js "d"); expectedNonce := None |}.
Definition demo_cache : jti_cache (jsmap Z) := {| jc_redis := None; jc_memory := [] |}.
Definition demo_redis : jti_cache (jsmap Z) := {| jc_redis := Some []; jc_memory := [] |}.
Definition demo_token : option jsstr := Some (js "h.p.s").
Definition demo_claims : DpopProofClaims :=
  {| cl_jti := js "j"; cl_htm := js "post"; cl_htu := js "/r"; cl_iat := Dbl 1030 0;
     cl_ath := Some (js "d"); cl_nonce := None; cl_jkt := js "d" |}.
#[export] Instance demo_jti : JtiCache (jti_cache (jsmap Z)) := default_jti_cache table_set.
Abbreviation demo_verify :=
  (verifyDpopProof demo_url demo_json demo_bytes demo_es256 demo_sha).

(** Every string of an object, one level deep. *)
Definition strings_ok (v : json) : Prop :=
  match v with
  | JObj l => Forall (fun kv => match snd kv with JStr s => units_ok s | _ => True end) l
  | _ => True
  end.

Lemma json_get_elem v k w : json_get v k = w -> w <> JNull -> exists l, v = JObj l /\ (k, w) ∈ l.
Proof.
  destruct v; simpl; try by intros <-. intros H Hn. eexists. split; [done|].
  destruct (List.find _ l) as [[k' w']|] eqn:E; [|by subst]. simpl in H. subst w'.
  apply find_some in E as [Hin Hk]. apply bool_decide_eq_true in Hk. simpl in Hk. subst k'.
  by apply list_elem_of_In.
Qed.

Lemma get_string_ok v k s : strings_ok v -> get_string v k = Some s -> units_ok s.
Proof.
  unfold get_string. intros Hv. destruct (json_get v k) eqn:E; intros; simplify_eq.
  apply json_get_elem in E as (l & -> & Hin); [|done]. simpl in Hv. rewrite Forall_forall in Hv.
  exact (Hv _ Hin).
Qed.

Lemma demo_strings s v :
  demo_json s = Some v ->
  forall k1 k2 str, get_string v k1 = Some str \/ get_string (json_get v k2) k1 = Some str ->
  units_ok str.
Proof.
  intros H k1 k2 str [Hs | Hs]; eapply get_string_ok in Hs; try done; clear Hs.
  - unfold demo_json in H. cases; simplify_eq; simpl; repeat constructor; simpl; lia.
  - destruct (json_get v k2) eqn:E; try done.
    apply json_get_elem in E as (l' & -> & Hin); [|done].
    unfold demo_json, demo_header, demo_payload in H. cases; simplify_eq/=;
      set_unfold; destruct_or!; simplify_eq/=; repeat constructor; simpl; lia.
Qed.
End Demo.
Import Demo.

(** A hash that keeps its input, as hexadecimal digits, and the proof for it. *)
Definition hex_digit (n : Z) : Z := if n <? 10 then 48 + n else 87 + n.
Definition hex_sha (bytes : list Z) : jsstr :=
  concat (map (fun b => [hex_digit (b / 16 mod 16); hex_digit (b mod 16)]) bytes).
Definition bound_payload : json :=
  JObj [(js "htm", JStr (js "post")); (js "htu", JStr (js "/r")); (js "iat", JNum (Dbl 1030 0));
        (js "jti", JStr (js "j")); (js "ath", JStr (js "746f6b656e"))].
Definition bound_json (s : jsstr) : option json :=
  if s =s js "h" then Some demo_header else if s =s js "p" then Some bound_payload else None.
Definition bound_es256 (k : DpopJwk) (input : jsstr) (_ : list Z) : bool :=
  (jwk_x k =s js "1") && (jwk_y k =s js "2") && (input =s js "h.p").
Definition bound_options : DpopVerifyOptions :=
  {| expectedHtm := js "POST"; expectedHtu := js "/r"; iatSkewSeconds := None;
     expectedAth := Some (computeAth hex_sha (js "token"));
     expectedCnfJkt := Some (jwkThumbprint hex_sha demo_key); expectedNonce := None |}.
Definition bound_claims : DpopProofClaims :=
  {| cl_jti := js "j"; cl_htm := js "post"; cl_htu := js "/r"; cl_iat := Dbl 1030 0;
     cl_ath := Some (js "746f6b656e"); cl_nonce := None; cl_jkt := jwkThumbprint hex_sha demo_key |}.

Lemma hex_sha_ascii bytes : ascii_units (hex_sha bytes).
Proof.
  assert (H : forall n, 0 <= hex_digit (n mod 16) < 128)
    by (intros n; pose proof (Z.mod_pos_bound n 16 ltac:(lia)); unfold hex_digit; case_match; lia).
  induction bytes as [|b bytes IH]; [constructor|]. unfold hex_sha. simpl.
  constructor; [apply H|]. constructor; [apply H|exact IH].
Qed.

Lemma bound_strings s v :
  bound_json s = Some v ->
  forall k1 k2 str, get_string v k1 = Some str \/ get_string (json_get v k2) k1 = Some str ->
  units_ok str.
Proof.
  intros H k1 k2 str [Hs | Hs]; eapply get_string_ok in Hs; try done; clear Hs.
  - unfold bound_json in H. cases; simplify_eq; simpl; repeat constructor; simpl; lia.
  - destruct (json_get v k2) eqn:E; try done.
    apply json_get_elem in E as (l' & -> & Hin); [|done].
    unfold bound_json, demo_header, bound_payload in H. cases; simplify_eq/=;
      set_unfold; destruct_or!; simplify_eq/=; repeat constructor; simpl; lia.
Qed.

Lemma dpop_proves_possession_witness :
  exists h p s jwk, js "h.p.s" = h ++ js "." ++ p ++ js "." ++ s /\
    bound_es256 jwk (h ++ js "." ++ p) (demo_bytes s) = true /\
    (jwk = demo_key \/ thumbprint_collision hex_sha jwk demo_key).
Proof.
  destruct (dpop_proves_possession demo_url bound_json demo_bytes bound_es256 hex_sha
    bound_options 1000000 demo_cache (js "h.p.s") bound_claims demo_key (js "token"))
    as (h & p & s & header & payload & jwk & Ht & _ & _ & _ & Hv & _ & _ & _ & Hj).
  - exact hex_sha_ascii.
  - exact bound_strings.
  - split; repeat constructor; simpl; lia.
  - reflexivity.
  - reflexivity.
  - vm_compute. reflexivity.
  - exists h, p, s, jwk. split; [exact Ht|]. split; [exact Hv|exact Hj].
Defined.

(** Presented to the store behind Redis, then after another call, 59.999 s later. *)
Lemma dpop_no_replay_witness :
  let calls := [(demo_options, 1059999, demo_token)] in
  let first := demo_verify demo_options 1000000 demo_redis demo_token in
  snd first = Ok demo_claims /\
  ~ snd (demo_verify demo_options 1059999
           (verify_run demo_url demo_json demo_bytes demo_es256 demo_sha (fst first) calls)
           demo_token) = Ok demo_claims.
Proof.
  split; [vm_compute; reflexivity|]. intros H.
  destruct (dpop_no_replay demo_url demo_json demo_bytes demo_es256 demo_sha
    demo_options demo_options 1000000 1059999 demo_redis demo_token demo_token demo_claims
    [(demo_options, 1059999, demo_token)]) with (c' := demo_claims) as [Hlate _].
  - exact I.
  - vm_compute. reflexivity.
  - reflexivity.
  - simpl. lia.
  - lia.
  - exact H.
  - reflexivity.
  - reflexivity.
  - unfold DPOP_DEFAULT_JTI_TTL_MS in Hlate. lia.
Defined.

(** The cache lifetime does not cover the whole acceptance window, because the
    current time is rounded down to a second before it is compared: a proof that is
    valid at two instants a minute or more apart is accepted at both. *)
Theorem dpop_replay_after_ttl URL decode_json decode_bytes verifyEs256 sha256_base64url o now now' token c
    (Hfirst : dpop_valid URL decode_json decode_bytes verifyEs256 sha256_base64url o now token c)
    (Hsecond : dpop_valid URL decode_json decode_bytes verifyEs256 sha256_base64url o now' token c)
    (Hgap : now + DPOP_DEFAULT_JTI_TTL_MS <= now') :
  let verify := verifyDpopProof URL decode_json decode_bytes verifyEs256 sha256_base64url in
  snd (verify o now demo_cache (Some token)) = Ok c /\
  snd (verify o now' (fst (verify o now demo_cache (Some token))) (Some token)) = Ok c.
Proof.
  apply check_proof_iff in Hfirst, Hsecond. intros verify. unfold verify, verifyDpopProof.
  rewrite Hfirst, Hsecond. cbn -[DPOP_DEFAULT_JTI_TTL_MS IN_MEMORY_MAX makeKey].
  change (IN_MEMORY_MAX <=? Z.of_nat 0) with false. split; [done|].
  unfold jti_checkMemory. rewrite map_get_set, bool_decide_true by done.
  by rewrite (proj2 (Z.ltb_ge _ _)) by done.
Qed.

(** Issued 30 s ahead of the server, accepted again 60.999 s later. *)
Lemma dpop_replay_after_ttl_witness :
  snd (demo_verify demo_options 1000000 demo_cache demo_token) = Ok demo_claims /\
  snd (demo_verify demo_options 1060999
         (fst (demo_verify demo_options 1000000 demo_cache demo_token)) demo_token) = Ok demo_claims.
Proof.
  refine (dpop_replay_after_ttl demo_url demo_json demo_bytes demo_es256 demo_sha
    demo_options 1000000 1060999 (js "h.p.s") demo_claims _ _ _).
  - apply check_proof_iff. vm_compute. reflexivity.
  - apply check_proof_iff. vm_compute. reflexivity.
  - unfold DPOP_DEFAULT_JTI_TTL_MS. lia.
Defined.

(** Non-ASCII text is longer in UTF-8 than in UTF-16. *)
Lemma js_utf8_length a :
  units_ok a -> (length a <= length (js_utf8 a))%nat /\
                (length a = length (js_utf8 a) -> ascii_units a).
Proof.
  induction a as [|c a IH IH2] using js_pair_ind; intros Ha; [done|].
  apply Forall_cons in Ha as [Hc Ha]. unfold js_utf8 in *. simpl.
  assert (Hlen : forall p, 128 <= p < 1114112 -> (2 <= length (utf8_scalar p))%nat).
  { intros p Hp. unfold utf8_scalar. repeat case_match; bools; simpl; lia. }
  specialize (IH Ha). unfold is_high_surrogate, is_low_surrogate.
  destruct ((55296 <=? c) && (c <=? 56319)) eqn:Eh; bools.
  { destruct a as [|d a]; [simpl; split; [lia|intros [=]]|].
    destruct ((56320 <=? d) && (d <=? 57343)) eqn:Ed; bools.
    - apply Forall_cons in Ha as [Hd Ha]. destruct (IH2 d a eq_refl Ha) as [Hle Hasc].
      assert (Hfour : forall p, 65536 <= p -> length (utf8_scalar p) = 4%nat).
      { intros p Hp. unfold utf8_scalar. by rewrite !(proj2 (Z.ltb_ge _ _)) by lia. }
      simpl. rewrite length_app, Hfour by lia. split; lia.
    - cbn [map concat] in *. rewrite length_app. specialize (Hlen 65533). cbn [length] in IH |- *. lia. }
  destruct ((56320 <=? c) && (c <=? 57343)) eqn:El; bools; cbn [map concat length]; rewrite length_app.
  { specialize (Hlen 65533). split; lia. }
  destruct (decide (c < 128)) as [Hlt|Hge].
  - replace (utf8_scalar c) with [c] by (unfold utf8_scalar; by rewrite (proj2 (Z.ltb_lt _ _)) by lia).
    cbn [length]. split; [lia|]. intros Heq. apply Forall_cons. split; [lia|]. apply IH. lia.
  - specialize (Hlen c). split; lia.
Qed.

(** Compared with an ASCII value, [safeStringEqual] answers whether the strings
    are equal, except that a different string of the same length that is not ASCII
    makes it throw instead of answering false. *)
Theorem safeStringEqual_spec a v (Ha : units_ok a) (Hv : ascii_units v) :
  safeStringEqual a v =
  if bool_decide (length a = length v /\ ~ ascii_units a) then Throw DpopRangeError
  else Ok (a =s v).
Proof.
  unfold safeStringEqual. destruct (js_utf8_length a Ha) as [H1 H2].
  assert (Hv' : js_utf8 v = v) by by apply js_utf8_ascii. rewrite Hv'.
  destruct (length a =? length v)%nat eqn:El; simpl.
  - apply Nat.eqb_eq in El. destruct (length (js_utf8 a) =? length v)%nat eqn:Eu; simpl.
    + apply Nat.eqb_eq in Eu. assert (Hasc : ascii_units a) by (apply H2; lia).
      rewrite (bool_decide_false (_ /\ _)) by (intros [_ Hn]; exact (Hn Hasc)). by rewrite (js_utf8_ascii a).
    + apply Nat.eqb_neq in Eu. rewrite bool_decide_true; [done|]. split; [done|].
      intros Hasc. apply Eu. by rewrite (js_utf8_ascii a).
  - apply Nat.eqb_neq in El. rewrite (bool_decide_false (_ /\ _)) by (intros [Hl _]; exact (El Hl)).
    f_equal. symmetry. apply bool_decide_eq_false. by intros ->.
Qed.

(** A one-letter hash answered by a letter outside ASCII. *)
Lemma safeStringEqual_spec_witness : safeStringEqual [233] (js "d") = Throw DpopRangeError.
Proof.
  rewrite (safeStringEqual_spec [233] (js "d")); [vm_compute; reflexivity| |].
  - repeat constructor; lia.
  - repeat constructor; lia.
Defined.

(** ** Target URIs agree *)

(** What the URL Standard says of a parsed http or https URL: scheme and host are
    in lower case, a default port is dropped, and the origin is put together from
    them. *)
Definition http_url (u : url) : Prop :=
  (protocol u = js "http:" /\ port u <> js "80" \/ protocol u = js "https:" /\ port u <> js "443") /\
  js_to_lower (hostname u) = hostname u /\
  origin u = protocol u ++ js "//" ++ hostname u
             ++ match port u with [] => [] | p => js ":" ++ p end.

Lemma authority_http u :
  http_url u -> js_to_lower (protocol u) ++ js "//" ++ authority u = origin u.
Proof.
  intros (Hp & Hh & ->). unfold authority. rewrite Hh.
  destruct Hp as [[-> Hn] | [-> Hn]]; change (js_to_lower (js "http:")) with (js "http:");
    change (js_to_lower (js "https:")) with (js "https:");
    first [rewrite (bool_decide_false (port u = js "80")) by exact Hn
          | rewrite (bool_decide_false (port u = js "443")) by exact Hn];
    destruct (port u); simpl; by rewrite ?app_nil_r.
Qed.

(** For a route that is not already under the base path, the URI a client
    computes from the server's address is the one the server expects. *)
Theorem htu_client_server_agree (URL : jsstr -> option url) env serverUrl u route
    (Horigin : getAppOrigin env = Some serverUrl) (Hurl : URL serverUrl = Some u)
    (Hhttp : http_url u)
    (Hroute : normalizePath route <> resolveBasePath env u /\
       js_starts_with (resolveBasePath env u ++ js "/") (normalizePath route) = false
       \/ resolveBasePath env u = []) :
  canonicalHtu URL env route = canonicalHtuClient URL env serverUrl route.
Proof.
  unfold canonicalHtu, canonicalHtuClient. rewrite Horigin, Hurl. f_equal.
  rewrite (app_assoc (js "//")), (app_assoc (js_to_lower _)), authority_http by done. f_equal.
  unfold canonicalPath. destruct (resolveBasePath env u) as [|b bs]; [done|].
  destruct Hroute as [[Hne Hs]|]; [|done]. by rewrite bool_decide_false, Hs by done.
Qed.

Lemma htu_client_server_agree_witness :
  let env := {| env_APP_URL := Some (js "/app/"); env_AUTH_URL := None;
                env_NEXT_PUBLIC_BASE_PATH := None |} in
  canonicalHtu demo_url env (js "/api/x") = Ok (js "https://h/app/api/x") /\
  canonicalHtu demo_url env (js "/api/x") = canonicalHtuClient demo_url env (js "/app/") (js "/api/x").
Proof.
  split; [vm_compute; reflexivity|].
  eapply (htu_client_server_agree demo_url _ (js "/app/")).
  - reflexivity.
  - reflexivity.
  - split; [right; split; [reflexivity|discriminate]|]. split; reflexivity.
  - left. split; [vm_compute; discriminate|vm_compute; reflexivity].
Defined.

(** The expected URI of a route taken from a request that already carries the
    base path is that of the route without it: computing it is idempotent. *)
Theorem canonicalHtu_idempotent URL env route h :
  canonicalHtu URL env route = Ok h ->
  (forall o u, getAppOrigin env = Some o -> URL o = Some u ->
     resolveBasePath env u = [] \/ js_starts_with (js "/") (resolveBasePath env u) = true) ->
  exists pre path, h = pre ++ path /\ canonicalHtu URL env path = Ok h.
Proof.
  unfold canonicalHtu. destruct (getAppOrigin env) as [o|]; [|done].
  destruct (URL o) as [u|] eqn:Eu; [|done]. intros [= <-] Hbase.
  specialize (Hbase o u eq_refl Eu). set (base := resolveBasePath env u) in *.
  assert (Hn : js_starts_with (js "/") (normalizePath route) = true).
  { unfold normalizePath. destruct (js_starts_with (js "/") route) eqn:E; [done|].
    apply js_starts_with_spec. by exists route. }
  set (path := canonicalPath base (normalizePath route)).
  exists (js_to_lower (protocol u) ++ js "//" ++ authority u), path.
  split; [by rewrite <- !app_assoc|]. do 4 f_equal.
  enough (Hp : normalizePath path = path /\ canonicalPath base path = path) by by destruct Hp as [-> ->].
  unfold path, canonicalPath. destruct base as [|b bs] eqn:Eb.
  { split; [|done]. unfold normalizePath at 1. by rewrite Hn. }
  destruct Hbase as [|Hbase]; [done|].
  destruct ((normalizePath route =s b :: bs) || js_starts_with ((b :: bs) ++ js "/") (normalizePath route))
    eqn:Ec.
  - rewrite Ec. split; [|done]. unfold normalizePath at 1. by rewrite Hn.
  - split.
    + unfold normalizePath at 1. apply js_starts_with_spec in Hbase as [r Hr].
      rewrite (proj2 (js_starts_with_spec _ _)); [done|]. exists (r ++ normalizePath route).
      rewrite Hr. by rewrite <- app_assoc.
    + rewrite (proj2 (js_starts_with_spec _ ((b :: bs) ++ normalizePath route))).
      * by rewrite orb_true_r.
      * apply js_starts_with_spec in Hn as [r Hr]. exists r. rewrite Hr. by rewrite app_assoc.
Qed.
