(* ===== verification/ExtToken.v ===== *)
(** * Extension and mobile tokens

    src/src/lib/auth/tokens/extension-token.ts, extension-token-types.ts and
    mobile-token.ts, src/src/lib/auth/dpop/validate-token-dpop.ts, the resolution
    of a user's tenant (src/src/lib/tenant-context.ts) and the routes that mint,
    rotate and revoke these tokens: extension/bridge-code, extension/token,
    extension/token/exchange, extension/token/refresh, mobile/token and
    mobile/token/refresh.

    The tables are finite maps.  A handler takes the database it read ([w0], [w1])
    and the one its transaction runs on ([w]) separately, so that its theorems hold
    whatever other requests did in between; row-level security restricts a
    transaction to one tenant's rows.  The access restriction and the rate limiter
    enter by their verdicts.  Proofs are checked by [Dpop.verifyDpopProof]; hashes,
    random values and generated identifiers are arguments. *)

From S2P Require Import Prelude JsString JsNumber JsJson JsMap Table PasskeyPolicy McpOAuth Dpop.
Local Open Scope Z_scope.
#[local] Set Warnings "-register-all".

Definition EXT_MS_PER_MINUTE : Z := 60000.
Definition EXT_MS_PER_DAY : Z := 86400000.
Definition EXTENSION_TOKEN_MAX_ACTIVE : nat := 3.
Definition EXTENSION_TOKEN_IDLE_TIMEOUT_DEFAULT : Z := 7 * 1440.
Definition EXTENSION_TOKEN_ABSOLUTE_TIMEOUT_DEFAULT : Z := 30 * 1440.
Definition EXTENSION_TOKEN_IDLE_TIMEOUT_MAX : Z := 30 * 1440.
Definition EXTENSION_TOKEN_ABSOLUTE_TIMEOUT_MAX : Z := 30 * 1440.
Definition IOS_TOKEN_IDLE_TIMEOUT_MS : Z := EXT_MS_PER_DAY.
Definition IOS_TOKEN_ABSOLUTE_TIMEOUT_MS : Z := 7 * EXT_MS_PER_DAY.
Definition IOS_AUTOFILL_TOKEN_TTL_MS : Z := 5 * EXT_MS_PER_MINUTE.
Definition REFRESH_REPLAY_GRACE_MS : Z := 5000.
Definition ROTATION_CACHE_MAX : Z := 10000.
Definition BRIDGE_CODE_TTL_MS : Z := EXT_MS_PER_MINUTE.
Definition BRIDGE_CODE_MAX_ACTIVE : nat := 3.

Definition PASSWORDS_READ : jsstr := js "passwords:read".
Definition PASSWORDS_WRITE : jsstr := js "passwords:write".
Definition VAULT_UNLOCK_DATA : jsstr := js "vault:unlock-data".
Definition EXTENSION_TOKEN_DEFAULT_SCOPES : list jsstr := [PASSWORDS_READ; PASSWORDS_WRITE; VAULT_UNLOCK_DATA].
Definition IOS_TOKEN_DEFAULT_SCOPES : list jsstr := [PASSWORDS_READ; PASSWORDS_WRITE; VAULT_UNLOCK_DATA].

Definition parseScopes (csv : jsstr) : list jsstr :=
  List.filter (fun s => negb (blank s) && bool_decide (s ∈ EXTENSION_TOKEN_DEFAULT_SCOPES))
    (map js_trim (js_split (js ",") csv)).

Definition hasScope (scopes : list jsstr) (required : jsstr) : bool := bool_decide (required ∈ scopes).

(** ** Tables *)

Inductive ExtensionTokenClientKind := BROWSER_EXTENSION | IOS_APP | IOS_AUTOFILL.
#[export] Instance client_kind_eq_dec : EqDecision ExtensionTokenClientKind.
Proof. solve_decision. Defined.

Record last_used := { lu_at : option Z; lu_ip : option jsstr; lu_userAgent : option jsstr }.

Record ext_token := {
  et_userId : jsstr; et_tenantId : jsstr; et_tokenHash : jsstr; et_scope : jsstr;
  et_expiresAt : Z; et_createdAt : Z; et_revokedAt : option Z; et_familyId : jsstr;
  et_familyCreatedAt : Z; et_clientKind : ExtensionTokenClientKind; et_cnfJkt : option jsstr;
  et_lastUsed : last_used }.

Record bridge_code := {
  bc_codeHash : jsstr; bc_userId : jsstr; bc_tenantId : jsstr; bc_scope : jsstr; bc_expiresAt : Z;
  bc_usedAt : option Z; bc_createdAt : Z; bc_cnfJkt : jsstr }.

Record mobile_code := {
  mb_codeHash : jsstr; mb_userId : jsstr; mb_tenantId : jsstr; mb_codeChallenge : jsstr;
  mb_deviceJkt : jsstr; mb_expiresAt : Z; mb_usedAt : option Z }.

Record session_row := { ss_userId : jsstr; ss_tenantId : jsstr; ss_expires : Z }.

(** The policy columns of a tenant, and those of its passkey policy. *)
Record tenant_row := {
  tn_idleMinutes : option Z; tn_absoluteMinutes : option Z; tn_passkey : passkey_tenant }.

Record ext_world := {
  xw_tokens : gmap jsstr ext_token; xw_codes : gmap jsstr bridge_code;
  xw_mobile : gmap jsstr mobile_code; xw_members : gmap (jsstr * jsstr) (option Z);
  xw_sessions : gmap jsstr session_row; xw_tenants : gmap jsstr tenant_row;
  xw_credentials : gmap jsstr nat }.

Definition set_tokens (w : ext_world) (t : gmap jsstr ext_token) : ext_world :=
  {| xw_tokens := t; xw_codes := xw_codes w; xw_mobile := xw_mobile w; xw_members := xw_members w;
     xw_sessions := xw_sessions w; xw_tenants := xw_tenants w; xw_credentials := xw_credentials w |}.
Definition set_bridge (w : ext_world) (t : gmap jsstr bridge_code) : ext_world :=
  {| xw_tokens := xw_tokens w; xw_codes := t; xw_mobile := xw_mobile w; xw_members := xw_members w;
     xw_sessions := xw_sessions w; xw_tenants := xw_tenants w; xw_credentials := xw_credentials w |}.
Definition set_mobile (w : ext_world) (t : gmap jsstr mobile_code) : ext_world :=
  {| xw_tokens := xw_tokens w; xw_codes := xw_codes w; xw_mobile := t; xw_members := xw_members w;
     xw_sessions := xw_sessions w; xw_tenants := xw_tenants w; xw_credentials := xw_credentials w |}.

Definition revoke_token (now : Z) (r : ext_token) : ext_token :=
  {| et_userId := et_userId r; et_tenantId := et_tenantId r; et_tokenHash := et_tokenHash r;
     et_scope := et_scope r; et_expiresAt := et_expiresAt r; et_createdAt := et_createdAt r;
     et_revokedAt := Some now; et_familyId := et_familyId r;
     et_familyCreatedAt := et_familyCreatedAt r; et_clientKind := et_clientKind r;
     et_cnfJkt := et_cnfJkt r; et_lastUsed := et_lastUsed r |}.
Definition touch_token (u : last_used) (r : ext_token) : ext_token :=
  {| et_userId := et_userId r; et_tenantId := et_tenantId r; et_tokenHash := et_tokenHash r;
     et_scope := et_scope r; et_expiresAt := et_expiresAt r; et_createdAt := et_createdAt r;
     et_revokedAt := et_revokedAt r; et_familyId := et_familyId r;
     et_familyCreatedAt := et_familyCreatedAt r; et_clientKind := et_clientKind r;
     et_cnfJkt := et_cnfJkt r; et_lastUsed := u |}.
Definition use_bridge (now : Z) (c : bridge_code) : bridge_code :=
  {| bc_codeHash := bc_codeHash c; bc_userId := bc_userId c; bc_tenantId := bc_tenantId c;
     bc_scope := bc_scope c; bc_expiresAt := bc_expiresAt c; bc_usedAt := Some now;
     bc_createdAt := bc_createdAt c; bc_cnfJkt := bc_cnfJkt c |}.
Definition use_mobile (now : Z) (c : mobile_code) : mobile_code :=
  {| mb_codeHash := mb_codeHash c; mb_userId := mb_userId c; mb_tenantId := mb_tenantId c;
     mb_codeChallenge := mb_codeChallenge c; mb_deviceJkt := mb_deviceJkt c;
     mb_expiresAt := mb_expiresAt c; mb_usedAt := Some now |}.

Inductive ext_throw :=
| XTenantNotResolved | XMultiTenant   (* withUserTenantRls *)
| XRls                                (* a row outside the tenant of the transaction *)
| XUnique                             (* a unique index refused the insert *)
| XMissing                            (* a required row is absent *)
| XPasskey (e : passkey_throw) | XDpop (e : dpop_stop) | XHtu (e : htu_throw) | XRange.

Definition active_token (now : Z) (r : ext_token) : bool :=
  negb (is_set (et_revokedAt r)) && (now <? et_expiresAt r).

(** ** The tenant of a user *)

Definition resolveUserTenantId (userId : jsstr) (w : ext_world) : outcome ext_throw (option jsstr) :=
  match List.filter (fun m => (snd (fst m) =s userId) && negb (is_set (snd m)))
          (map_to_list (xw_members w)) with
  | [] => Ok None
  | [m] => Ok (Some (fst (fst m)))
  | _ => Throw XMultiTenant
  end.

(** [withUserTenantRls]: the tenant whose rows the transaction sees. *)
Definition withUserTenantRls {A} (userId : jsstr) (w : ext_world) (fn : jsstr -> outcome ext_throw A)
    : outcome ext_throw A :=
  t ← resolveUserTenantId userId w;
  match t with
  | Some ((_ :: _) as tenantId) => fn tenantId
  | _ => Throw XTenantNotResolved
  end.

(** Rows by age, for [orderBy: { createdAt: "asc" }]. *)
Section Oldest.
Context {row : Type} (created : row -> Z).
Definition created_le (a b : jsstr * row) : Prop := created (snd a) <= created (snd b).
#[export] Instance created_le_dec : RelDecision created_le.
Proof. intros a b. apply Z_le_dec. Defined.
Definition find_oldest_first (p : row -> bool) (t : gmap jsstr row) : list (jsstr * row) :=
  merge_sort created_le (List.filter (fun kr => p (snd kr)) (map_to_list t)).

(** [updateMany({ where: { id: { in: ids } }, data })] *)
Definition update_in (ids : list jsstr) (f : row -> row) (t : gmap jsstr row) : gmap jsstr row :=
  map_imap (fun k r => Some (if bool_decide (k ∈ ids) then f r else r)) t.

(** Make room for [n] more rows below the cap: the oldest of the rows [p] selects
    are updated by [f]. *)
Definition evict_for (cap n : nat) (p : row -> bool) (f : row -> row) (t : gmap jsstr row) : gmap jsstr row :=
  let active := find_oldest_first p t in
  update_in (map fst (take (length active + n - cap) active)) f t.
End Oldest.

(** An insert under the transaction's tenant and the unique indexes. *)
Definition create_token (ctx id : jsstr) (r : ext_token) (t : gmap jsstr ext_token)
    : outcome ext_throw (gmap jsstr ext_token) :=
  if negb (et_tenantId r =s ctx) then Throw XRls
  else match create et_tokenHash id r t with Ok t' => Ok t' | Throw _ => Throw XUnique end.

Definition new_token (userId tenantId tokenHash scope : jsstr) (expiresAt now : Z)
    (familyId : jsstr) (familyCreatedAt : Z) (kind : ExtensionTokenClientKind) (cnfJkt : jsstr)
    (u : last_used) : ext_token :=
  {| et_userId := userId; et_tenantId := tenantId; et_tokenHash := tokenHash; et_scope := scope;
     et_expiresAt := expiresAt; et_createdAt := now; et_revokedAt := None; et_familyId := familyId;
     et_familyCreatedAt := familyCreatedAt; et_clientKind := kind; et_cnfJkt := Some cnfJkt;
     et_lastUsed := u |}.
Definition never_used : last_used := {| lu_at := None; lu_ip := None; lu_userAgent := None |}.

(** The rows of the user that count against the cap, as the transaction sees them. *)
Definition counts_for (ctx userId : jsstr) (now : Z) (r : ext_token) : bool :=
  (et_tenantId r =s ctx) && (et_userId r =s userId) && active_token now r.

(** A transaction on the tokens: committed, or rolled back by a throw. *)
Definition commit {A} (w : ext_world) (m : outcome ext_throw (gmap jsstr ext_token * A))
    : ext_world * outcome ext_throw A :=
  match m with
  | Ok (t, a) => (set_tokens w t, Ok a)
  | Throw e => (w, Throw e)
  end.

(** ** Issuance *)

Section Tokens.
Context (hashToken : jsstr -> jsstr).

Record issued_token := { is_token : jsstr; is_expiresAt : Z; is_scope : jsstr; is_cnfJkt : jsstr }.

(** [w0] is the database of the tenant lookup, [w] that of the transaction. *)
Definition issueExtensionToken (userId tenantId scope cnfJkt : jsstr) (now : Z)
    (id familyId plaintext : jsstr) (w0 w : ext_world) : ext_world * outcome ext_throw issued_token :=
  match xw_tenants w0 !! tenantId with
  | None => (w, Throw XMissing)
  | Some tenant =>
      let idleMinutes := default EXTENSION_TOKEN_IDLE_TIMEOUT_DEFAULT (tn_idleMinutes tenant) in
      let expiresAt := now + idleMinutes * EXT_MS_PER_MINUTE in
      let '(w', r) := commit w (withUserTenantRls userId w (fun ctx =>
        let t := evict_for et_createdAt EXTENSION_TOKEN_MAX_ACTIVE 1 (counts_for ctx userId now)
                   (revoke_token now) (xw_tokens w) in
        t' ← create_token ctx id
               (new_token userId tenantId (hashToken plaintext) scope expiresAt now familyId now
                  BROWSER_EXTENSION cnfJkt never_used) t;
        Ok (t', {| is_token := plaintext; is_expiresAt := expiresAt; is_scope := scope;
                   is_cnfJkt := cnfJkt |}))) in
      (w', issued ← r; if blank (is_cnfJkt issued) then Throw XMissing else Ok issued)
  end.

Record IssuedIosToken := {
  ii_accessToken : jsstr; ii_refreshToken : jsstr; ii_expiresAt : Z; ii_familyId : jsstr;
  ii_familyCreatedAt : Z; ii_tokenId : jsstr }.

(** [family] is the family to continue, or the generated identifier of a new one
    that starts [now]. *)
Definition issueIosToken (userId tenantId cnfJkt : jsstr) (family : jsstr + jsstr * Z) (now : Z)
    (ip userAgent : option jsstr) (accessId refreshId accessPlain refreshPlain : jsstr) (w : ext_world)
    : ext_world * outcome ext_throw IssuedIosToken :=
  let '(familyId, familyCreatedAt) := match family with inl f => (f, now) | inr fc => fc end in
  let expiresAt := now + IOS_TOKEN_IDLE_TIMEOUT_MS in
  let familyAbsoluteExpiry := familyCreatedAt + IOS_TOKEN_ABSOLUTE_TIMEOUT_MS in
  let scopeCsv := js_join (js ",") IOS_TOKEN_DEFAULT_SCOPES in
  let used := {| lu_at := None; lu_ip := ip; lu_userAgent := userAgent |} in
  commit w (withUserTenantRls userId w (fun ctx =>
    let t := evict_for et_createdAt EXTENSION_TOKEN_MAX_ACTIVE 2 (counts_for ctx userId now)
               (revoke_token now) (xw_tokens w) in
    t1 ← create_token ctx accessId
           (new_token userId tenantId (hashToken accessPlain) scopeCsv expiresAt now familyId
              familyCreatedAt IOS_APP cnfJkt used) t;
    t2 ← create_token ctx refreshId
           (new_token userId tenantId (hashToken refreshPlain) scopeCsv familyAbsoluteExpiry now
              familyId familyCreatedAt IOS_APP cnfJkt used) t1;
    Ok (t2,
        {| ii_accessToken := accessPlain; ii_refreshToken := refreshPlain; ii_expiresAt := expiresAt;
           ii_familyId := familyId; ii_familyCreatedAt := familyCreatedAt; ii_tokenId := accessId |}))).

Definition issueAutofillToken (userId tenantId cnfJkt : jsstr) (now : Z) (id familyId plaintext : jsstr)
    (w : ext_world) : ext_world * outcome ext_throw issued_token :=
  let expiresAt := now + IOS_AUTOFILL_TOKEN_TTL_MS in
  commit w (withUserTenantRls userId w (fun ctx =>
    let t := fst (updateMany
      (fun r => (et_tenantId r =s ctx) && (et_userId r =s userId)
                && bool_decide (et_clientKind r = IOS_AUTOFILL) && negb (is_set (et_revokedAt r)))
      (revoke_token now) (xw_tokens w)) in
    t' ← create_token ctx id
           (new_token userId tenantId (hashToken plaintext) PASSWORDS_WRITE expiresAt now familyId now
              IOS_AUTOFILL cnfJkt never_used) t;
    Ok (t', {| is_token := plaintext; is_expiresAt := expiresAt; is_scope := PASSWORDS_WRITE;
               is_cnfJkt := cnfJkt |}))).

(** ** Revocation *)

Definition revokeExtensionTokenFamily (familyId : jsstr) (now : Z) (w : ext_world) : ext_world * nat :=
  let '(t, n) := updateMany (fun r => (et_familyId r =s familyId) && negb (is_set (et_revokedAt r)))
                   (revoke_token now) (xw_tokens w) in
  (set_tokens w t, n).

(** The families of the user's unrevoked rows, each once. *)
Definition active_families (userId : jsstr) (t : gmap jsstr ext_token) : list jsstr :=
  remove_dups (map (fun kr => et_familyId (snd kr))
    (List.filter (fun kr => (et_userId (snd kr) =s userId) && negb (is_set (et_revokedAt (snd kr))))
       (map_to_list t))).

Fixpoint revoke_families (fams : list jsstr) (now : Z) (w : ext_world) (total : nat) : ext_world * nat :=
  match fams with
  | [] => (w, total)
  | f :: fams' =>
      let '(w', n) := revokeExtensionTokenFamily f now w in revoke_families fams' now w' (total + n)
  end.

(** The rows revoked and the number of families. *)
Definition revokeAllExtensionTokensForUser (userId : jsstr) (now : Z) (w : ext_world)
    : ext_world * (nat * nat) :=
  let fams := active_families userId (xw_tokens w) in
  let '(w', n) := revoke_families fams now w 0 in (w', (n, length fams)).
End Tokens.

(** ** Requests and answers *)

Record ext_request := {
  rq_method : jsstr; rq_url : jsstr; rq_authorization : option jsstr; rq_dpop : option jsstr;
  rq_ip : option jsstr; rq_userAgent : option jsstr }.

Definition extractBearer (req : ext_request) : option jsstr := bearer_of (js "Bearer") (rq_authorization req).
Definition extractDpopBearer (req : ext_request) : option jsstr := bearer_of (js "DPoP") (rq_authorization req).

Record ValidatedExtensionToken := {
  vt_tokenId : jsstr; vt_userId : jsstr; vt_tenantId : jsstr; vt_scopes : list jsstr;
  vt_expiresAt : Z; vt_familyId : jsstr; vt_familyCreatedAt : Z; vt_cnfJkt : jsstr;
  vt_clientKind : ExtensionTokenClientKind }.

Inductive TokenValidationError :=
| EXTENSION_TOKEN_INVALID | EXTENSION_TOKEN_REVOKED | EXTENSION_TOKEN_EXPIRED
| EXTENSION_TOKEN_DPOP_INVALID (e : DpopVerifyError).

(** The answers of the routes. *)
Inductive ext_error :=
| ETokenError (e : TokenValidationError) | EDenied | EBlocked | EUnauthorized | EPasskeyRequired
| ESessionExpired | ETokenRevoked | EInternal | EInvalidBody | EBridgeCodeInvalid
| EBindingInvalid | ERefreshTokenRevoked | EReuseDetected.

(** The verdicts of enforceAccessRestriction and checkRateLimitOrFail. *)
Record ext_gates := { gt_denied : bool; gt_blocked : bool }.

Section Routes.
Context (hashToken : jsstr -> jsstr) (env : url_env) (URL : jsstr -> option url)
  (decode_json : jsstr -> option json) (decode_bytes : jsstr -> list Z)
  (verifyEs256 : DpopJwk -> jsstr -> list Z -> bool) (sha256_base64url : list Z -> jsstr)
  {C : Type} `{JtiCache C}.

Abbreviation verify := (verifyDpopProof URL decode_json decode_bytes verifyEs256 sha256_base64url).

(** ** Validation *)

(** A proof for a route: [canonicalHtu] may throw, and so may the verifier. *)
Definition check_dpop (req : ext_request) (method route : jsstr) (ath cnfJkt : option jsstr) (now : Z)
    (cache : C) : C * outcome ext_throw (DpopVerifyError + DpopProofClaims) :=
  match canonicalHtu URL env route with
  | Throw e => (cache, Throw (XHtu e))
  | Ok htu =>
      let o := {| expectedHtm := method; expectedHtu := htu; iatSkewSeconds := None;
                  expectedAth := ath; expectedCnfJkt := cnfJkt; expectedNonce := None |} in
      let '(cache', r) := verify o now cache (rq_dpop req) in
      (cache', match r with
               | Ok c => Ok (inr c)
               | Throw (DpopFail e _) => Ok (inl e)
               | Throw DpopRangeError => Throw XRange
               end)
  end.

(** The row that authenticated, as the routes see it. *)
Definition validated (id : jsstr) (r : ext_token) (cnfJkt : jsstr) : ValidatedExtensionToken :=
  {| vt_tokenId := id; vt_userId := et_userId r; vt_tenantId := et_tenantId r;
     vt_scopes := parseScopes (et_scope r); vt_expiresAt := et_expiresAt r;
     vt_familyId := et_familyId r; vt_familyCreatedAt := et_familyCreatedAt r; vt_cnfJkt := cnfJkt;
     vt_clientKind := et_clientKind r |}.

Definition validateExtensionTokenDpop (req : ext_request) (id : jsstr) (r : ext_token)
    (cnfJkt accessToken : jsstr) (now : Z) (cache : C)
    : C * outcome ext_throw (DpopVerifyError + ValidatedExtensionToken) :=
  match URL (rq_url req) with
  | None => (cache, Throw (XHtu HtuInvalidUrl))
  | Some u =>
      let '(cache', res) := check_dpop req (rq_method req) (pathname u)
        (Some (computeAth sha256_base64url accessToken)) (Some cnfJkt) now cache in
      (cache', match res with
               | Ok (inr _) => Ok (inr (validated id r cnfJkt))
               | Ok (inl e) => Ok (inl e)
               | Throw e => Throw e
               end)
  end.

(** The update that follows a successful validation without being awaited. *)
Definition touchLastUsed (req : ext_request) (id : jsstr) (now : Z) (w : ext_world) : ext_world :=
  set_tokens w (alter (fun r =>
    touch_token (if bool_decide (et_clientKind r = IOS_APP)
                 then {| lu_at := Some now; lu_ip := rq_ip req;
                         lu_userAgent := take 512 <$> rq_userAgent req |}
                 else {| lu_at := Some now; lu_ip := lu_ip (et_lastUsed r);
                         lu_userAgent := lu_userAgent (et_lastUsed r) |}) r) id (xw_tokens w)).

(** [w0] is the database of the token lookup, [w1] that of the membership lookup. *)
Definition validateExtensionToken (req : ext_request) (now : Z) (w0 w1 : ext_world) (cache : C)
    : C * outcome ext_throw (TokenValidationError + ValidatedExtensionToken) :=
  match extractBearer req with
  | None | Some [] => (cache, Ok (inl EXTENSION_TOKEN_INVALID))
  | Some plaintext =>
      match find_hash et_tokenHash (hashToken plaintext) (xw_tokens w0) with
      | None => (cache, Ok (inl EXTENSION_TOKEN_INVALID))
      | Some (id, r) =>
          if is_set (et_revokedAt r) then (cache, Ok (inl EXTENSION_TOKEN_REVOKED))
          else if et_expiresAt r <=? now then (cache, Ok (inl EXTENSION_TOKEN_EXPIRED))
          else
            match xw_members w1 !! (et_tenantId r, et_userId r) with
            | None | Some (Some _) => (cache, Ok (inl EXTENSION_TOKEN_INVALID))
            | Some None =>
                match et_cnfJkt r with
                | None | Some [] => (cache, Ok (inl EXTENSION_TOKEN_INVALID))
                | Some cnfJkt =>
                    let '(cache', res) :=
                      validateExtensionTokenDpop req id r cnfJkt plaintext now cache in
                    (cache', match res with
                             | Ok (inr v) => Ok (inr v)
                             | Ok (inl e) =>
                                 Ok (inl (if bool_decide (et_clientKind r = IOS_APP)
                                          then EXTENSION_TOKEN_INVALID
                                          else EXTENSION_TOKEN_DPOP_INVALID e))
                             | Throw e => Throw e
                             end)
                end
            end
      end
  end.

(** ** Routes of the browser extension *)

(** DELETE /api/extension/token: [update] throws when the row is not visible. *)
Definition delete_extension_token (req : ext_request) (gates : ext_gates) (now now' : Z)
    (w0 w1 w : ext_world) (cache : C) : C * (ext_world * outcome ext_throw (ext_error + unit)) :=
  let '(cache', v) := validateExtensionToken req now w0 w1 cache in
  (cache',
   match v with
   | Throw e => (w, Throw e)
   | Ok (inl e) => (w, Ok (inl (ETokenError e)))
   | Ok (inr d) =>
       if gt_denied gates then (w, Ok (inl EDenied))
       else commit w (withUserTenantRls (vt_userId d) w (fun ctx =>
         match xw_tokens w !! vt_tokenId d with
         | Some r =>
             if (et_tenantId r =s ctx) && (et_userId r =s vt_userId d)
             then Ok (<[vt_tokenId d := revoke_token now' r]> (xw_tokens w), inr tt)
             else Throw XMissing
         | None => Throw XMissing
         end))
   end).

(** The user's session that has not expired, as row-level security shows it. *)
Definition active_session (ctx userId : jsstr) (now : Z) (w : ext_world) : option session_row :=
  snd <$> find_by (fun s => (ss_tenantId s =s ctx) && (ss_userId s =s userId) && (now <? ss_expires s))
            (xw_sessions w).

(** The passkey gate of the mint points. *)
Definition ext_passkey_gate (userId tenantId : jsstr) (now : Z) (w : ext_world) : outcome ext_throw bool :=
  match derivePasskeyState (default 0%nat (xw_credentials w !! userId))
          (tn_passkey <$> xw_tenants w !! tenantId) with
  | Throw e => Throw (XPasskey e)
  | Ok pk => Ok (passkeyEnforcementBlocks now pk)
  end.

(** The compare-and-swap of the refresh: revoke the old row, create the new one. *)
Definition refresh_tx (d : ValidatedExtensionToken) (tenantId : jsstr) (expiresAt now : Z)
    (id plaintext : jsstr) (w : ext_world) : ext_world * outcome ext_throw (ext_error + issued_token) :=
  let scopeCsv := js_join (js ",") (vt_scopes d) in
  commit w (withUserTenantRls (vt_userId d) w (fun ctx =>
    match xw_tokens w !! vt_tokenId d with
    | Some r =>
        if (et_tenantId r =s ctx) && active_token now r then
          t ← create_token ctx id
                (new_token (vt_userId d) tenantId (hashToken plaintext) scopeCsv expiresAt now
                   (vt_familyId d) (vt_familyCreatedAt d) BROWSER_EXTENSION (vt_cnfJkt d) never_used)
                (<[vt_tokenId d := revoke_token now r]> (xw_tokens w));
          Ok (t, inr {| is_token := plaintext; is_expiresAt := expiresAt; is_scope := scopeCsv;
                        is_cnfJkt := vt_cnfJkt d |})
        else Ok (xw_tokens w, inl ETokenRevoked)
    | None => Ok (xw_tokens w, inl ETokenRevoked)
    end)).

(** What the refresh decides before its transaction, from the database [w1]. *)
Inductive refresh_verdict :=
| RefuseRefresh (e : ext_error) | RevokeFamily (familyId : jsstr)
| Rotate (tenantId : jsstr) (expiresAt : Z).

Definition check_ext_refresh (d : ValidatedExtensionToken) (now : Z) (w1 : ext_world)
    : outcome ext_throw refresh_verdict :=
  session ← withUserTenantRls (vt_userId d) w1 (fun ctx => Ok (active_session ctx (vt_userId d) now w1));
  match session with
  | None => Ok (RefuseRefresh EUnauthorized)
  | Some s =>
      match xw_tenants w1 !! ss_tenantId s with
      | None => Throw XMissing
      | Some tenant =>
          let idleMinutes := default EXTENSION_TOKEN_IDLE_TIMEOUT_DEFAULT (tn_idleMinutes tenant) in
          let absoluteMinutes :=
            default EXTENSION_TOKEN_ABSOLUTE_TIMEOUT_DEFAULT (tn_absoluteMinutes tenant) in
          if blank (vt_familyId d) then Ok (RefuseRefresh ESessionExpired)
          else if absoluteMinutes * EXT_MS_PER_MINUTE <? now - vt_familyCreatedAt d
          then Ok (RevokeFamily (vt_familyId d))
          else
            blocked ← ext_passkey_gate (vt_userId d) (ss_tenantId s) now w1;
            if blocked : bool then Ok (RefuseRefresh EPasskeyRequired)
            else Ok (Rotate (ss_tenantId s) (now + idleMinutes * EXT_MS_PER_MINUTE))
      end
  end.

(** POST /api/extension/token/refresh: [now] is the clock of the validation, [now']
    that of the rotation. *)
Definition post_extension_refresh (req : ext_request) (gates : ext_gates) (now now' : Z)
    (id plaintext : jsstr) (w0 w1 w : ext_world) (cache : C)
    : C * (ext_world * outcome ext_throw (ext_error + issued_token)) :=
  let '(cache', v) := validateExtensionToken req now w0 w1 cache in
  (cache',
   match v with
   | Throw e => (w, Throw e)
   | Ok (inl e) => (w, Ok (inl (ETokenError e)))
   | Ok (inr d) =>
       if gt_denied gates then (w, Ok (inl EDenied))
       else if gt_blocked gates then (w, Ok (inl EBlocked))
       else match check_ext_refresh d now' w1 with
            | Throw e => (w, Throw e)
            | Ok (RefuseRefresh e) => (w, Ok (inl e))
            | Ok (RevokeFamily f) =>
                (fst (revokeExtensionTokenFamily f now' w), Ok (inl ESessionExpired))
            | Ok (Rotate tenantId expiresAt) => refresh_tx d tenantId expiresAt now' id plaintext w
            end
   end).

(** ** Bridge codes *)

(** What POST /api/extension/bridge-code learns from the request and from other
    components: the limiter keyed by address, the allow-list of origins, the body
    schema, the signed-in user and the tenant of its row, the network restriction,
    the step-up check and the limiter keyed by user. *)
Record bridge_gates := {
  bg_ipBlocked : bool; bg_originAllowed : bool; bg_bodyOk : bool; bg_session : option jsstr;
  bg_userTenant : option jsstr; bg_denied : bool; bg_stepUp : bool; bg_userBlocked : bool }.

Definition counts_code (userId : jsstr) (now : Z) (c : bridge_code) : bool :=
  (bc_userId c =s userId) && negb (is_set (bc_usedAt c)) && (now <? bc_expiresAt c).

(** The transaction of the route, which bypasses row-level security. *)
Definition create_bridge_code (userId tenantId cnfJkt : jsstr) (now : Z) (id code : jsstr) (w : ext_world)
    : outcome ext_throw ext_world :=
  let t := evict_for bc_createdAt BRIDGE_CODE_MAX_ACTIVE 1 (counts_code userId now) (use_bridge now)
             (xw_codes w) in
  let row := {| bc_codeHash := hashToken code; bc_userId := userId; bc_tenantId := tenantId;
                bc_scope := js_join (js ",") EXTENSION_TOKEN_DEFAULT_SCOPES;
                bc_expiresAt := now + BRIDGE_CODE_TTL_MS; bc_usedAt := None; bc_createdAt := now;
                bc_cnfJkt := cnfJkt |} in
  match create bc_codeHash id row t with
  | Ok t' => Ok (set_bridge w t')
  | Throw _ => Throw XUnique
  end.

Definition post_bridge_code (req : ext_request) (g : bridge_gates) (now now' : Z) (id code : jsstr)
    (w1 w : ext_world) (cache : C) : C * (ext_world * outcome ext_throw (ext_error + jsstr)) :=
  let stop e := (cache, (w, Ok (inl e))) in
  if bg_ipBlocked g then stop EBlocked
  else if negb (bg_originAllowed g) then stop EDenied
  else if negb (bg_bodyOk g) then stop EInvalidBody
  else match bg_session g with
  | None | Some [] => stop EUnauthorized
  | Some userId =>
  match withUserTenantRls userId w1 (fun _ => Ok (bg_userTenant g)) with
  | Throw e => (cache, (w, Throw e))
  | Ok None => stop EUnauthorized
  | Ok (Some tenantId) =>
  if negb (blank tenantId) && bg_denied g then stop EDenied
  else if bg_stepUp g then stop EUnauthorized
  else match ext_passkey_gate userId tenantId now w1 with
  | Throw e => (cache, (w, Throw e))
  | Ok true => stop EPasskeyRequired
  | Ok false =>
  if bg_userBlocked g then stop EBlocked
  else
    let '(cache', res) := check_dpop req (js "POST") (js "/api/extension/bridge-code") None None now cache in
    (cache',
     match res with
     | Throw e => (w, Throw e)
     | Ok (inl _) => (w, Ok (inl EUnauthorized))
     | Ok (inr claims) =>
         match create_bridge_code userId tenantId (cl_jkt claims) now' id code w with
         | Ok w' => (w', Ok (inr code))
         | Throw _ => (w, Ok (inl EInternal))
         end
     end)
  end
  end
  end.

(** The compare-and-swap of the exchange, which bypasses row-level security. *)
Definition consume_bridge (id : jsstr) (cnfJkt : jsstr) (now : Z) (w : ext_world) : ext_world * bool :=
  match xw_codes w !! id with
  | Some c =>
      if negb (is_set (bc_usedAt c)) && (bc_cnfJkt c =s cnfJkt) && (now <? bc_expiresAt c)
      then (set_bridge w (<[id := use_bridge now c]> (xw_codes w)), true)
      else (w, false)
  | None => (w, false)
  end.

(** POST /api/extension/token/exchange: [w0] is the database of the lookup, [w] that
    of the compare-and-swap, and [others] what other requests do before the token is
    issued, in a transaction of its own. *)
Definition post_exchange (req : ext_request) (bodyOk : bool) (gates : ext_gates) (code : jsstr)
    (now now' : Z) (id familyId plaintext : jsstr) (w0 w : ext_world) (others : ext_world -> ext_world)
    (cache : C) : C * (ext_world * outcome ext_throw (ext_error + issued_token)) :=
  let stop e := (cache, (w, Ok (inl e))) in
  if negb bodyOk then stop EInvalidBody
  else if gt_blocked gates then stop EBlocked
  else match find_hash bc_codeHash (hashToken code) (xw_codes w0) with
  | None => stop EUnauthorized
  | Some (k, consumed) =>
  if gt_denied gates then stop EDenied
  else
    let '(cache', res) := check_dpop req (js "POST") (js "/api/extension/token/exchange") None
                            (Some (bc_cnfJkt consumed)) now cache in
    (cache',
     match res with
     | Throw e => (w, Throw e)
     | Ok (inl _) => (w, Ok (inl EUnauthorized))
     | Ok (inr _) =>
         let '(w1, won) := consume_bridge k (bc_cnfJkt consumed) now w in
         if negb won then (w1, Ok (inl EUnauthorized))
         else
           let w2 := others w1 in
           let '(w3, issued) := issueExtensionToken hashToken (bc_userId consumed)
             (bc_tenantId consumed) (bc_scope consumed) (bc_cnfJkt consumed) now' id familyId plaintext
             w2 w2 in
           (w3, match issued with Ok t => Ok (inr t) | Throw _ => Ok (inl EInternal) end)
     end)
  end.

(** ** Routes of the iOS application *)

(** The comparison of the mobile routes. *)
Definition mobile_safeStringEqual (a b : jsstr) : outcome ext_throw bool :=
  if blank a || blank b then Ok false
  else match safeEqual a b with Ok r => Ok r | Throw _ => Throw XRange end.

Definition consume_mobile (id : jsstr) (now : Z) (w : ext_world) : ext_world * bool :=
  match xw_mobile w !! id with
  | Some c =>
      if negb (is_set (mb_usedAt c)) && (now <? mb_expiresAt c)
      then (set_mobile w (<[id := use_mobile now c]> (xw_mobile w)), true)
      else (w, false)
  | None => (w, false)
  end.

(** POST /api/mobile/token *)
Definition post_mobile_token (req : ext_request) (bodyOk : bool) (gates : ext_gates)
    (code codeVerifier deviceJkt : jsstr) (now now' : Z)
    (familyId accessId refreshId accessPlain refreshPlain : jsstr) (w0 w : ext_world)
    (others : ext_world -> ext_world) (cache : C)
    : C * (ext_world * outcome ext_throw (ext_error + IssuedIosToken)) :=
  let stop e := (cache, (w, Ok (inl e))) in
  if gt_blocked gates then stop EBlocked
  else if negb bodyOk then stop EInvalidBody
  else match find_hash mb_codeHash (hashToken code) (xw_mobile w0) with
  | None => stop EBridgeCodeInvalid
  | Some (k, stored) =>
  if gt_denied gates then stop EDenied
  else match mobile_safeStringEqual (mb_deviceJkt stored) deviceJkt with
  | Throw e => (cache, (w, Throw e))
  | Ok false => stop EBridgeCodeInvalid
  | Ok true =>
  match verifyPkceS256 (fun v => sha256_base64url (js_utf8 v)) (mb_codeChallenge stored) codeVerifier with
  | Throw _ => (cache, (w, Throw XRange))
  | Ok false => stop EBridgeCodeInvalid
  | Ok true =>
    let '(cache', res) := check_dpop req (js "POST") (js "/api/mobile/token") None
                            (Some (mb_deviceJkt stored)) now cache in
    (cache',
     match res with
     | Throw e => (w, Throw e)
     | Ok (inl _) => (w, Ok (inl EBridgeCodeInvalid))
     | Ok (inr claims) =>
         let '(w1, won) := consume_mobile k now w in
         if negb won then (w1, Ok (inl EBridgeCodeInvalid))
         else
           let w2 := others w1 in
           let '(w3, issued) := issueIosToken hashToken (mb_userId stored) (mb_tenantId stored)
             (cl_jkt claims) (inl familyId) now' (rq_ip req) (rq_userAgent req)
             accessId refreshId accessPlain refreshPlain w2 in
           (w3, match issued with Ok t => Ok (inr t) | Throw _ => Ok (inl EInternal) end)
     end)
  end
  end
  end.

Record RotationRecord := { ro_bodyHash : jsstr; ro_issuedAt : Z; ro_token : IssuedIosToken }.
Definition rotation_cache := jsmap RotationRecord.
Definition rotationKey (oldRefreshTokenHash : jsstr) : jsstr := js "mobile:rot:" ++ oldRefreshTokenHash.

(** The insert into the cache and the sweep that bounds it. *)
Definition remember_rotation (key : jsstr) (rec : RotationRecord) (now : Z) (rot : rotation_cache)
    : rotation_cache :=
  let rot := List.filter (fun kv => negb (REFRESH_REPLAY_GRACE_MS <? now - ro_issuedAt (snd kv)))
               (map_set rot key rec) in
  if ROTATION_CACHE_MAX <? Z.of_nat (length rot) then [] else rot.

Inductive RefreshIosError := REFRESH_TOKEN_FAMILY_EXPIRED | REFRESH_REPLAY_DETECTED | PASSKEY_REQUIRED.

(** What other requests do between the transactions of the rotation. *)
Record ios_refresh_env := {
  ie_accessId : jsstr; ie_refreshId : jsstr; ie_accessPlain : jsstr; ie_refreshPlain : jsstr;
  ie_now' : Z;   (* the clock of the issuance *)
  ie_others : ext_world -> ext_world }.

(** Revoke the family's rows that the tenant's transaction sees. *)
Definition ios_revoke_family (r : ext_token) (now : Z) (w : ext_world) : ext_world * outcome ext_throw unit :=
  commit w (withUserTenantRls (et_userId r) w (fun ctx =>
    Ok (fst (updateMany
      (fun x => (et_tenantId x =s ctx) && (et_familyId x =s et_familyId r) && (et_userId x =s et_userId r)
                && negb (is_set (et_revokedAt x))) (revoke_token now) (xw_tokens w)), tt))).

(** [refreshIosToken]: [oldRow] is the row the route read and [w1] the database of
    the passkey lookup. *)
Definition refreshIosToken (req : ext_request) (bodyHash : jsstr) (oldRow : ext_token) (cnfJkt : jsstr)
    (now : Z) (e : ios_refresh_env) (w1 w : ext_world) (rot : rotation_cache)
    : rotation_cache * (ext_world * outcome ext_throw (RefreshIosError + IssuedIosToken)) :=
  let cacheKey := rotationKey (et_tokenHash oldRow) in
  if is_set (et_revokedAt oldRow) then
    let replay := (rot, (fst (revokeExtensionTokenFamily (et_familyId oldRow) now w),
                         Ok (inl REFRESH_REPLAY_DETECTED))) in
    match map_get rot cacheKey with
    | Some cached =>
        if (now - ro_issuedAt cached <=? REFRESH_REPLAY_GRACE_MS) && (ro_bodyHash cached =s bodyHash)
        then (rot, (w, Ok (inr (ro_token cached))))
        else replay
    | None => replay
    end
  else if IOS_TOKEN_ABSOLUTE_TIMEOUT_MS <? now - et_familyCreatedAt oldRow then
    (rot, (fst (revokeExtensionTokenFamily (et_familyId oldRow) now w),
           Ok (inl REFRESH_TOKEN_FAMILY_EXPIRED)))
  else match ext_passkey_gate (et_userId oldRow) (et_tenantId oldRow) now w1 with
  | Throw x => (rot, (w, Throw x))
  | Ok true => (rot, (w, Ok (inl PASSKEY_REQUIRED)))
  | Ok false =>
      let '(w2, revoked) := ios_revoke_family oldRow now w in
      match revoked with
      | Throw x => (rot, (w2, Throw x))
      | Ok _ =>
          let '(w3, issued) := issueIosToken hashToken (et_userId oldRow) (et_tenantId oldRow) cnfJkt
            (inr (et_familyId oldRow, et_familyCreatedAt oldRow)) (ie_now' e) (rq_ip req)
            (rq_userAgent req) (ie_accessId e) (ie_refreshId e) (ie_accessPlain e) (ie_refreshPlain e)
            (ie_others e w2) in
          match issued with
          | Throw x => (rot, (w3, Throw x))
          | Ok t => (remember_rotation cacheKey
                       {| ro_bodyHash := bodyHash; ro_issuedAt := now; ro_token := t |} now rot,
                     (w3, Ok (inr t)))
          end
      end
  end.

(** POST /api/mobile/token/refresh: [body] is the refresh token of the validated
    body and [bodyHash] the digest of its bytes. *)
Definition post_mobile_refresh (req : ext_request) (body : option jsstr) (bodyHash : jsstr)
    (gates : ext_gates) (now : Z) (e : ios_refresh_env) (w0 w1 w : ext_world)
    (rot : rotation_cache) (cache : C)
    : C * (rotation_cache * (ext_world * outcome ext_throw (ext_error + IssuedIosToken))) :=
  let stop e := (cache, (rot, (w, Ok (inl e)))) in
  let throw x := (cache, (rot, (w, Throw x))) in
  match body with
  | None => stop EInvalidBody
  | Some token =>
  match extractDpopBearer req with
  | None | Some [] => stop EUnauthorized
  | Some headerToken =>
  match mobile_safeStringEqual headerToken token with
  | Throw x => throw x
  | Ok false => stop EUnauthorized
  | Ok true =>
  match find_hash et_tokenHash (hashToken token) (xw_tokens w0) with
  | None => stop EUnauthorized
  | Some (_, oldRow) =>
  if negb (bool_decide (et_clientKind oldRow = IOS_APP)) then stop EUnauthorized
  else match xw_members w1 !! (et_tenantId oldRow, et_userId oldRow) with
  | None | Some (Some _) => stop EUnauthorized
  | Some None =>
  match et_cnfJkt oldRow with
  | None | Some [] => stop ERefreshTokenRevoked
  | Some cnfJkt =>
  if gt_denied gates then stop EDenied
  else if gt_blocked gates then stop EBlocked
  else
    let '(cache', res) := check_dpop req (js "POST") (js "/api/mobile/token/refresh")
      (Some (computeAth sha256_base64url token)) (Some cnfJkt) now cache in
    (cache',
     match res with
     | Throw x => (rot, (w, Throw x))
     | Ok (inl _) => (rot, (w, Ok (inl EBindingInvalid)))
     | Ok (inr _) =>
         let '(rot', (w', r)) := refreshIosToken req bodyHash oldRow cnfJkt now e w1 w rot in
         (rot', (w', match r with
                     | Throw x => Throw x
                     | Ok (inr t) => Ok (inr t)
                     | Ok (inl REFRESH_REPLAY_DETECTED) => Ok (inl EReuseDetected)
                     | Ok (inl REFRESH_TOKEN_FAMILY_EXPIRED) => Ok (inl ESessionExpired)
                     | Ok (inl PASSKEY_REQUIRED) => Ok (inl EPasskeyRequired)
                     end))
     end)
  end
  end
  end
  end
  end
  end.
End Routes.
