(* ===== verification/ExtTokenSafety.v ===== *)
(** * Safety of extension and mobile tokens

    What every run of the routes of [ExtToken] keeps: rows evolve only by
    revocation, families keep their owner, key and birth time, codes are used once.
    A run is the list of its states, newest first; each transaction may have read
    any earlier state, so that the theorems cover every interleaving.  The last part
    states how a rotation of an iOS pair and the refresh of an AutoFill token depart
    from what their documentation promises. *)

From S2P Require Import Prelude JsString JsNumber JsJson JsMap Table PasskeyPolicy McpOAuth Dpop ExtToken.
Local Open Scope Z_scope.
#[local] Set Warnings "-register-all".

(** ** How rows evolve *)

(** The columns no statement changes, and revocation, which is never undone. *)
Definition row_evolves (r r' : ext_token) : Prop :=
  et_userId r' = et_userId r /\ et_tenantId r' = et_tenantId r /\ et_tokenHash r' = et_tokenHash r /\
  et_scope r' = et_scope r /\ et_expiresAt r' = et_expiresAt r /\ et_createdAt r' = et_createdAt r /\
  et_familyId r' = et_familyId r /\ et_familyCreatedAt r' = et_familyCreatedAt r /\
  et_clientKind r' = et_clientKind r /\ et_cnfJkt r' = et_cnfJkt r /\
  (is_set (et_revokedAt r) = true -> is_set (et_revokedAt r') = true).

Definition tokens_evolve (t t' : gmap jsstr ext_token) : Prop :=
  forall k r, t !! k = Some r -> exists r', t' !! k = Some r' /\ row_evolves r r'.

#[export] Instance row_evolves_preorder : PreOrder row_evolves.
Proof.
  split; [by intros r; unfold row_evolves; split_and!|].
  unfold row_evolves. intros a b c Hab Hbc. destruct_and!. split_and!; try congruence. auto.
Qed.
#[export] Instance tokens_evolve_preorder : PreOrder tokens_evolve.
Proof.
  split; [intros t k r Hk; by exists r|].
  intros a b c Hab Hbc k r Hk. destruct (Hab k r Hk) as (r' & Hk' & H1).
  destruct (Hbc k r' Hk') as (r'' & Hk'' & H2). exists r''. split; [done|]. by transitivity r'.
Qed.

Lemma row_evolves_revoke now r : row_evolves r (revoke_token now r).
Proof. by unfold row_evolves; split_and!. Qed.
Lemma row_evolves_touch u r : row_evolves r (touch_token u r).
Proof. by unfold row_evolves; split_and!. Qed.
#[export] Hint Resolve row_evolves_revoke row_evolves_touch : psso.

Lemma evolve_updateMany p f t :
  (forall r, row_evolves r (f r)) -> tokens_evolve t (fst (updateMany p f t)).
Proof.
  intros Hf k r Hk. rewrite updateMany_lookup, Hk. simpl. eexists. split; [done|].
  by destruct (p r).
Qed.

Lemma update_in_lookup {row} (ids : list jsstr) (f : row -> row) (t : gmap jsstr row) (k : jsstr) :
  update_in ids f t !! k = (fun r => if bool_decide (k ∈ ids) then f r else r) <$> t !! k.
Proof. unfold update_in. rewrite map_lookup_imap. by destruct (t !! k). Qed.

Lemma evolve_evict cap n p f t :
  (forall r, row_evolves r (f r)) -> tokens_evolve t (evict_for et_createdAt cap n p f t).
Proof.
  intros Hf k r Hk. unfold evict_for. rewrite update_in_lookup, Hk. simpl. eexists. split; [done|].
  by case_bool_decide.
Qed.

Lemma ext_create_Ok {row} (hash : row -> jsstr) (id : jsstr) (r : row) (t t' : gmap jsstr row) :
  create hash id r t = Ok t' ->
  t !! id = None /\ (forall k x, t !! k = Some x -> hash x <> hash r) /\ t' = <[id := r]> t.
Proof.
  unfold create. destruct (t !! id) eqn:E; [done|].
  destruct (find_hash hash (hash r) t) eqn:Ef; intros; simplify_eq. split_and!; [done| |done].
  intros k x Hk Heq. pose proof (find_by_None _ _ _ _ Ef Hk) as Hn. simpl in Hn.
  rewrite Heq in Hn. by rewrite bool_decide_true in Hn.
Qed.

Lemma create_token_Ok ctx id r t t' :
  create_token ctx id r t = Ok t' ->
  et_tenantId r = ctx /\ t !! id = None /\
  (forall k x, t !! k = Some x -> et_tokenHash x <> et_tokenHash r) /\ t' = <[id := r]> t.
Proof.
  unfold create_token. case_bool_decide as Ht; simpl; [|done].
  destruct (create et_tokenHash id r t) as [t''|] eqn:E; intros; simplify_eq.
  by apply ext_create_Ok in E.
Qed.

Lemma evolve_create ctx id r t t' : create_token ctx id r t = Ok t' -> tokens_evolve t t'.
Proof.
  intros (_ & Hn & _ & ->)%create_token_Ok k x Hk. exists x. split; [|done].
  by rewrite lookup_insert_ne by congruence.
Qed.

Lemma withUserTenantRls_Ok {A} userId w (fn : jsstr -> outcome ext_throw A) a :
  withUserTenantRls userId w fn = Ok a ->
  exists ctx, resolveUserTenantId userId w = Ok (Some ctx) /\ fn ctx = Ok a.
Proof.
  unfold withUserTenantRls. intros (o & Ho & H)%bind_Ok_inv. destruct o as [[|c ctx]|]; try done.
  by exists (c :: ctx).
Qed.

(** The effect of a transaction on the tokens: none when it is rolled back. *)
Lemma commit_cases {A} (w : ext_world) m w' (r : outcome ext_throw A) :
  commit w m = (w', r) ->
  (exists e, m = Throw e /\ r = Throw e /\ w' = w) \/
  (exists t a, m = Ok (t, a) /\ r = Ok a /\ w' = set_tokens w t).
Proof.
  unfold commit. destruct m as [[t a]|e]; intros; simplify_eq; [right | left]; eauto.
Qed.

Lemma commit_user_tenant {A} (w : ext_world) userId fn w' (r : outcome ext_throw A) :
  commit w (withUserTenantRls userId w fn) = (w', r) ->
  (exists e, r = Throw e /\ w' = w) \/
  (exists ctx t a, resolveUserTenantId userId w = Ok (Some ctx) /\ fn ctx = Ok (t, a) /\ r = Ok a /\
     w' = set_tokens w t).
Proof.
  intros [(e & _ & -> & ->) | (t & a & (ctx & Hc & H)%withUserTenantRls_Ok & -> & ->)]%commit_cases;
    [left|right]; eauto 10.
Qed.

Lemma commit_user_cases {A} (w : ext_world) userId fn w' (r : outcome ext_throw A) :
  commit w (withUserTenantRls userId w fn) = (w', r) ->
  (exists e, r = Throw e /\ w' = w) \/
  (exists ctx t a, fn ctx = Ok (t, a) /\ r = Ok a /\ w' = set_tokens w t).
Proof. intros [?|(ctx & t & a & _ & ?)]%commit_user_tenant; eauto 10. Qed.

(** ** The invariant of the token table *)

(** The longest a refreshed browser token may outlive the birth of its family. *)
Definition FAMILY_LIFE_MS : Z :=
  (EXTENSION_TOKEN_ABSOLUTE_TIMEOUT_MAX + EXTENSION_TOKEN_IDLE_TIMEOUT_MAX) * EXT_MS_PER_MINUTE.

Definition ios_family (f : jsstr) (t : gmap jsstr ext_token) : Prop :=
  exists k r, t !! k = Some r /\ et_familyId r = f /\ et_clientKind r = IOS_APP.

Record tokens_ok (t : gmap jsstr ext_token) : Prop := {
  (** a bearer value names one row *)
  ok_hash : forall k k' r r', t !! k = Some r -> t !! k' = Some r' ->
    et_tokenHash r = et_tokenHash r' -> k = k';
  (** a family has one owner, one key and one birth time *)
  ok_family : forall k k' r r', t !! k = Some r -> t !! k' = Some r' ->
    et_familyId r = et_familyId r' ->
    et_userId r = et_userId r' /\ et_cnfJkt r = et_cnfJkt r' /\
    et_familyCreatedAt r = et_familyCreatedAt r';
  (** outside the iOS pairs a family has one unrevoked row *)
  ok_linear : forall k k' r r', t !! k = Some r -> t !! k' = Some r' ->
    et_familyId r = et_familyId r' -> et_revokedAt r = None -> et_revokedAt r' = None ->
    k = k' \/ ios_family (et_familyId r) t;
  ok_life : forall k r, t !! k = Some r -> et_clientKind r = BROWSER_EXTENSION ->
    et_expiresAt r <= et_familyCreatedAt r + FAMILY_LIFE_MS }.

(** An update in place. *)
Definition quiet (t t' : gmap jsstr ext_token) : Prop :=
  tokens_evolve t t' /\
  forall k r', t' !! k = Some r' -> exists r, t !! k = Some r /\ row_evolves r r'.

Lemma quiet_updateMany p f t :
  (forall r, row_evolves r (f r)) -> quiet t (fst (updateMany p f t)).
Proof.
  intros Hf. split; [by apply evolve_updateMany|]. intros k r'. rewrite updateMany_lookup.
  destruct (t !! k) as [r|]; simpl; intros; simplify_eq. exists r. split; [done|]. by destruct (p r).
Qed.

Lemma quiet_evict cap n p f t :
  (forall r, row_evolves r (f r)) -> quiet t (evict_for et_createdAt cap n p f t).
Proof.
  intros Hf. split; [by apply evolve_evict|]. intros k r'. unfold evict_for. rewrite update_in_lookup.
  destruct (t !! k) as [r|]; simpl; intros; simplify_eq. exists r. split; [done|]. by case_bool_decide.
Qed.

Lemma quiet_insert k r r' t : t !! k = Some r -> row_evolves r r' -> quiet t (<[k := r']> t).
Proof.
  intros Hk Hr. split; intros k0 x Hx.
  - destruct (decide (k0 = k)) as [->|Hne].
    + rewrite lookup_insert_eq. simplify_eq. by exists r'.
    + rewrite lookup_insert_ne by done. by exists x.
  - apply lookup_insert_Some in Hx as [[<- <-]|[_ Hx]]; [by exists r|by exists x].
Qed.

Lemma quiet_alter f k t : (forall r, row_evolves r (f r)) -> quiet t (alter f k t).
Proof.
  intros Hf. destruct (t !! k) as [r|] eqn:E.
  - replace (alter f k t) with (<[k := f r]> t); [by eapply quiet_insert|].
    apply map_eq. intros k'. destruct (decide (k' = k)) as [->|].
    + by rewrite lookup_insert_eq, lookup_alter_eq, E.
    + by rewrite lookup_insert_ne, lookup_alter_ne.
  - replace (alter f k t) with t; [split; [done|intros k0 x Hx; by exists x]|]. apply map_eq. intros k'.
    destruct (decide (k' = k)) as [->|]; [by rewrite lookup_alter_eq, E|by rewrite lookup_alter_ne].
Qed.

Lemma tokens_ok_quiet t t' : quiet t t' -> tokens_ok t -> tokens_ok t'.
Proof.
  intros [Hev Hback] [H1 H2 H3 H4].
  assert (Hios : forall f, ios_family f t -> ios_family f t').
  { intros f (k & r & Hk & Hf & Hi). destruct (Hev k r Hk) as (r' & Hk' & He).
    exists k, r'. unfold row_evolves in He. destruct_and!. split_and!; congruence. }
  assert (Hnone : forall r r' : ext_token, row_evolves r r' -> et_revokedAt r' = None -> et_revokedAt r = None).
  { intros r r' He Hn. unfold row_evolves in He. destruct_and!. rewrite Hn in *.
    destruct (et_revokedAt r); naive_solver. }
  split.
  - intros k k' r r' Hk Hk' Hh. destruct (Hback k r Hk) as (x & Hx & He), (Hback k' r' Hk') as (x' & Hx' & He').
    apply (H1 k k' x x' Hx Hx'). unfold row_evolves in *. destruct_and!. congruence.
  - intros k k' r r' Hk Hk' Hf. destruct (Hback k r Hk) as (x & Hx & He), (Hback k' r' Hk') as (x' & Hx' & He').
    unfold row_evolves in *. destruct_and!. destruct (H2 k k' x x' Hx Hx') as (? & ? & ?); [congruence|].
    split_and!; congruence.
  - intros k k' r r' Hk Hk' Hf Hr Hr'.
    destruct (Hback k r Hk) as (x & Hx & He), (Hback k' r' Hk') as (x' & Hx' & He').
    pose proof (Hnone _ _ He Hr). pose proof (Hnone _ _ He' Hr').
    unfold row_evolves in *. destruct_and!.
    destruct (H3 k k' x x' Hx Hx') as [?|Hi]; [congruence|done|done|by left|].
    right. apply Hios. congruence.
  - intros k r Hk Hb. destruct (Hback k r Hk) as (x & Hx & He). unfold row_evolves in He. destruct_and!.
    assert (Hlife : et_expiresAt x <= et_familyCreatedAt x + FAMILY_LIFE_MS) by (apply (H4 k x Hx); congruence).
    assert (et_expiresAt r = et_expiresAt x) by done.
    assert (et_familyCreatedAt r = et_familyCreatedAt x) by done. lia.
Qed.

Lemma tokens_ok_insert t id r :
  tokens_ok t -> t !! id = None -> (forall k x, t !! k = Some x -> et_tokenHash x <> et_tokenHash r) ->
  (forall k x, t !! k = Some x -> et_familyId x = et_familyId r ->
     et_userId x = et_userId r /\ et_cnfJkt x = et_cnfJkt r /\ et_familyCreatedAt x = et_familyCreatedAt r) ->
  (forall k x, t !! k = Some x -> et_familyId x = et_familyId r -> et_revokedAt x = None ->
     ios_family (et_familyId r) (<[id := r]> t)) ->
  (et_clientKind r = BROWSER_EXTENSION -> et_expiresAt r <= et_familyCreatedAt r + FAMILY_LIFE_MS) ->
  tokens_ok (<[id := r]> t).
Proof.
  intros [H1 H2 H3 H4] Hid Hh Hf Hl Hb.
  assert (Hios : forall f, ios_family f t -> ios_family f (<[id := r]> t)).
  { intros f (k & x & Hk & Hx). exists k, x. split; [|done]. by rewrite lookup_insert_ne by congruence. }
  split.
  - intros k k' a b Ha Hb' Heq.
    apply lookup_insert_Some in Ha as [[<- <-]|[? Ha]], Hb' as [[<- <-]|[? Hb']]; try done.
    + by destruct (Hh _ _ Hb').
    + by destruct (Hh _ _ Ha).
    + by eapply H1.
  - intros k k' a b Ha Hb' Heq.
    apply lookup_insert_Some in Ha as [[<- <-]|[? Ha]], Hb' as [[<- <-]|[? Hb']]; try done.
    + destruct (Hf _ _ Hb') as (? & ? & ?); [done|]. split_and!; congruence.
    + by eapply Hf.
    + by eapply H2.
  - intros k k' a b Ha Hb' Heq Hra Hrb.
    apply lookup_insert_Some in Ha as [[<- <-]|[? Ha]], Hb' as [[<- <-]|[? Hb']]; [by left|..].
    + right. by eapply (Hl _ _ Hb').
    + right. rewrite Heq. by eapply (Hl _ _ Ha).
    + destruct (H3 k k' a b) as [?|?]; [done..|by left|]. right. by apply Hios.
  - intros k a Ha Hk. apply lookup_insert_Some in Ha as [[<- <-]|[? Ha]]; [by apply Hb|by eapply H4].
Qed.

(** ** Runs *)

(** No row of the table belongs to the family: a generated identifier is new. *)
Definition fresh_family (f : jsstr) (t : gmap jsstr ext_token) : Prop :=
  forall k r, t !! k = Some r -> et_familyId r <> f.

(** The policy columns are within the bounds their validation enforces. *)
Definition policies_ok (w : ext_world) : Prop :=
  forall k tn, xw_tenants w !! k = Some tn ->
    default EXTENSION_TOKEN_IDLE_TIMEOUT_DEFAULT (tn_idleMinutes tn) <= EXTENSION_TOKEN_IDLE_TIMEOUT_MAX /\
    0 <= default EXTENSION_TOKEN_ABSOLUTE_TIMEOUT_DEFAULT (tn_absoluteMinutes tn)
      <= EXTENSION_TOKEN_ABSOLUTE_TIMEOUT_MAX.

Section Runs.
Context (hashToken : jsstr -> jsstr).

(** One transaction of a route on the current database [w].  What the route read
    before comes from any earlier state in the history [h]. *)
Inductive ext_step (h : list ext_world) (w : ext_world) : ext_world -> Prop :=
| step_issue userId tenantId scope cnfJkt now id familyId plain w0 :
    w0 ∈ h -> fresh_family familyId (xw_tokens w) ->
    ext_step h w (fst (issueExtensionToken hashToken userId tenantId scope cnfJkt now id familyId plain w0 w))
| step_issue_ios userId tenantId cnfJkt familyId now ip ua id1 id2 p1 p2 :
    fresh_family familyId (xw_tokens w) ->
    ext_step h w (fst (issueIosToken hashToken userId tenantId cnfJkt (inl familyId) now ip ua id1 id2 p1 p2 w))
| step_issue_autofill userId tenantId cnfJkt now id familyId plain :
    fresh_family familyId (xw_tokens w) ->
    ext_step h w (fst (issueAutofillToken hashToken userId tenantId cnfJkt now id familyId plain w))
| step_refresh w0 w1 k r cnfJkt tenantId expiresAt now id plain :
    w0 ∈ h -> w1 ∈ h -> xw_tokens w0 !! k = Some r -> et_cnfJkt r = Some cnfJkt ->
    check_ext_refresh (validated k r cnfJkt) now w1 = Ok (Rotate tenantId expiresAt) ->
    ext_step h w (fst (refresh_tx hashToken (validated k r cnfJkt) tenantId expiresAt now id plain w))
| step_ios_revoke w0 k r now :
    w0 ∈ h -> xw_tokens w0 !! k = Some r -> ext_step h w (fst (ios_revoke_family r now w))
| step_ios_rotate w0 k r cnfJkt now ip ua id1 id2 p1 p2 :
    w0 ∈ h -> xw_tokens w0 !! k = Some r -> et_clientKind r = IOS_APP -> et_cnfJkt r = Some cnfJkt ->
    ext_step h w (fst (issueIosToken hashToken (et_userId r) (et_tenantId r) cnfJkt
                         (inr (et_familyId r, et_familyCreatedAt r)) now ip ua id1 id2 p1 p2 w))
| step_revoke_family f now : ext_step h w (fst (revokeExtensionTokenFamily f now w))
| step_revoke k r now :
    xw_tokens w !! k = Some r -> ext_step h w (set_tokens w (<[k := revoke_token now r]> (xw_tokens w)))
| step_touch req k now : ext_step h w (touchLastUsed req k now w)
| step_code userId tenantId cnfJkt now id code w' :
    create_bridge_code hashToken userId tenantId cnfJkt now id code w = Ok w' -> ext_step h w w'
| step_consume k cnfJkt now : ext_step h w (fst (consume_bridge k cnfJkt now w))
| step_mobile_code id row t :
    create mb_codeHash id row (xw_mobile w) = Ok t -> ext_step h w (set_mobile w t)
| step_consume_mobile k now : ext_step h w (fst (consume_mobile k now w))
| step_other w' :   (* members, sessions, tenants and credentials *)
    xw_tokens w' = xw_tokens w -> xw_codes w' = xw_codes w -> xw_mobile w' = xw_mobile w ->
    ext_step h w w'.

(** The states of a run, newest first. *)
Inductive ext_run : list ext_world -> Prop :=
| run_start w : xw_tokens w = ∅ -> xw_codes w = ∅ -> xw_mobile w = ∅ -> ext_run [w]
| run_step w h w' : ext_run (w :: h) -> ext_step (w :: h) w w' -> ext_run (w' :: w :: h).

Lemma issueExtensionToken_tokens userId tenantId scope cnfJkt now id familyId plain w0 w :
  fst (issueExtensionToken hashToken userId tenantId scope cnfJkt now id familyId plain w0 w) = w \/
  exists tn ctx t,
    xw_tenants w0 !! tenantId = Some tn /\
    create_token ctx id (new_token userId tenantId (hashToken plain) scope
      (now + default EXTENSION_TOKEN_IDLE_TIMEOUT_DEFAULT (tn_idleMinutes tn) * EXT_MS_PER_MINUTE) now
      familyId now BROWSER_EXTENSION cnfJkt never_used)
      (evict_for et_createdAt EXTENSION_TOKEN_MAX_ACTIVE 1 (counts_for ctx userId now) (revoke_token now)
         (xw_tokens w)) = Ok t /\
    fst (issueExtensionToken hashToken userId tenantId scope cnfJkt now id familyId plain w0 w)
    = set_tokens w t.
Proof.
  unfold issueExtensionToken. destruct (xw_tenants w0 !! tenantId) as [tn|]; [|by left].
  destruct (commit _ _) as [w' r] eqn:E. simpl. apply commit_user_cases in E as [(e & _ & ->) | E]; [by left|].
  destruct E as (ctx & t & a & (t' & Hc & [= <- <-])%bind_Ok_inv & _ & ->). right. by exists tn, ctx, t'.
Qed.

Lemma issueIosToken_tokens userId tenantId cnfJkt family now ip ua id1 id2 p1 p2 w :
  let '(familyId, familyCreatedAt) := match family with inl f => (f, now) | inr fc => fc end in
  fst (issueIosToken hashToken userId tenantId cnfJkt family now ip ua id1 id2 p1 p2 w) = w \/
  exists ctx t1 t2 r1 r2,
    create_token ctx id1 r1
      (evict_for et_createdAt EXTENSION_TOKEN_MAX_ACTIVE 2 (counts_for ctx userId now) (revoke_token now)
         (xw_tokens w)) = Ok t1 /\
    create_token ctx id2 r2 t1 = Ok t2 /\
    fst (issueIosToken hashToken userId tenantId cnfJkt family now ip ua id1 id2 p1 p2 w) = set_tokens w t2 /\
    Forall (fun r => et_familyId r = familyId /\ et_userId r = userId /\ et_cnfJkt r = Some cnfJkt /\
              et_familyCreatedAt r = familyCreatedAt /\ et_clientKind r = IOS_APP /\
              et_revokedAt r = None) [r1; r2].
Proof.
  unfold issueIosToken. destruct (match family with inl f => (f, now) | inr fc => fc end) as [f c].
  destruct (commit _ _) as [w' r] eqn:E. simpl. apply commit_user_cases in E as [(e & _ & ->) | E]; [by left|].
  destruct E as (ctx & t & a & (t1 & H1 & (t2 & H2 & [= <- <-])%bind_Ok_inv)%bind_Ok_inv & _ & ->).
  right. eexists ctx, t1, t2, _, _. split_and!; [done..|]. by repeat constructor.
Qed.

(** Effects of the other transactions. *)
Lemma issueAutofillToken_tokens userId tenantId cnfJkt now id familyId plain w :
  fst (issueAutofillToken hashToken userId tenantId cnfJkt now id familyId plain w) = w \/
  exists ctx p t,
    create_token ctx id (new_token userId tenantId (hashToken plain) PASSWORDS_WRITE
      (now + IOS_AUTOFILL_TOKEN_TTL_MS) now familyId now IOS_AUTOFILL cnfJkt never_used)
      (fst (updateMany p (revoke_token now) (xw_tokens w))) = Ok t /\
    fst (issueAutofillToken hashToken userId tenantId cnfJkt now id familyId plain w) = set_tokens w t.
Proof.
  unfold issueAutofillToken. destruct (commit _ _) as [w' r] eqn:E. cbn [fst].
  apply commit_user_cases in E as [(e & _ & ->) | E]; [by left|].
  destruct E as (ctx & t & a & (t' & Hc & [= <- <-])%bind_Ok_inv & _ & ->). right. eexists ctx, _, t'. split; [exact Hc|done].
Qed.

Lemma refresh_tx_tokens d tenantId expiresAt now id plain w :
  (fst (refresh_tx hashToken d tenantId expiresAt now id plain w) = w /\
   forall x, snd (refresh_tx hashToken d tenantId expiresAt now id plain w) <> Ok (inr x)) \/
  exists ctx r t, xw_tokens w !! vt_tokenId d = Some r /\ active_token now r = true /\
    create_token ctx id (new_token (vt_userId d) tenantId (hashToken plain)
      (js_join (js ",") (vt_scopes d)) expiresAt now (vt_familyId d) (vt_familyCreatedAt d)
      BROWSER_EXTENSION (vt_cnfJkt d) never_used)
      (<[vt_tokenId d := revoke_token now r]> (xw_tokens w)) = Ok t /\
    fst (refresh_tx hashToken d tenantId expiresAt now id plain w) = set_tokens w t.
Proof.
  assert (Hset : forall t, t = xw_tokens w -> set_tokens w t = w) by (intros t ->; by destruct w).
  unfold refresh_tx. destruct (commit _ _) as [w' r] eqn:E. simpl.
  apply commit_user_cases in E as [(e & -> & ->) | (ctx & t & a & Hf & -> & ->)]; [left; by split|].
  destruct (xw_tokens w !! vt_tokenId d) as [r0|]; [|left; simplify_eq; split; [by apply Hset|done]].
  destruct ((et_tenantId r0 =s ctx) && active_token now r0) eqn:Ea;
    [|left; simplify_eq; split; [by apply Hset|done]].
  apply andb_true_iff in Ea as [_ Ea]. apply bind_Ok_inv in Hf as (t' & Hc & [= <- <-]).
  right. by exists ctx, r0, t'.
Qed.

Lemma ios_revoke_quiet r now w :
  quiet (xw_tokens w) (xw_tokens (fst (ios_revoke_family r now w))) /\
  xw_codes (fst (ios_revoke_family r now w)) = xw_codes w /\
  xw_mobile (fst (ios_revoke_family r now w)) = xw_mobile w.
Proof.
  unfold ios_revoke_family. destruct (commit _ _) as [w' x] eqn:E. simpl.
  apply commit_user_cases in E as [(e & _ & ->) | (ctx & t & a & [= <- <-] & _ & ->)].
  - split_and!; try done. split; [done|]. intros k y Hy. by exists y.
  - split_and!; try done. apply quiet_updateMany. apply row_evolves_revoke.
Qed.

(** *** Codes *)

Section Codes.
Context {row : Type} (hash : row -> jsstr) (used : row -> option Z).

Definition codes_evolve (t t' : gmap jsstr row) : Prop :=
  forall k c, t !! k = Some c ->
    exists c', t' !! k = Some c' /\ hash c' = hash c /\ (is_set (used c) = true -> is_set (used c') = true).
Definition codes_unique (t : gmap jsstr row) : Prop :=
  forall k k' c c', t !! k = Some c -> t !! k' = Some c' -> hash c = hash c' -> k = k'.

#[export] Instance codes_evolve_preorder : PreOrder codes_evolve.
Proof.
  split; [intros t k c Hk; by exists c|].
  intros a b c Hab Hbc k x Hk. destruct (Hab k x Hk) as (x' & Hk' & Hh & Hu).
  destruct (Hbc k x' Hk') as (x'' & Hk'' & Hh' & Hu'). exists x''. split_and!; [done|congruence|auto].
Qed.

Lemma codes_update (g : jsstr -> row -> row) (t t' : gmap jsstr row) :
  (forall k, t' !! k = g k <$> t !! k) ->
  (forall k c, hash (g k c) = hash c /\ (is_set (used c) = true -> is_set (used (g k c)) = true)) ->
  codes_evolve t t' /\ (codes_unique t -> codes_unique t').
Proof.
  intros Ht Hg. split.
  - intros k c Hk. exists (g k c). rewrite Ht, Hk. split; [done|apply Hg].
  - intros Hu k k' c c' Hk Hk' Hh. rewrite Ht in Hk, Hk'.
    destruct (t !! k) as [x|] eqn:Ex, (t !! k') as [x'|] eqn:Ex'; simplify_eq/=.
    apply (Hu k k' x x' Ex Ex'). rewrite !(proj1 (Hg _ _)) in Hh. done.
Qed.

Lemma codes_create (id : jsstr) (c : row) (t t' : gmap jsstr row) :
  create hash id c t = Ok t' -> codes_evolve t t' /\ (codes_unique t -> codes_unique t').
Proof.
  intros (Hn & Hh & ->)%ext_create_Ok. split.
  - intros k x Hk. exists x. by rewrite lookup_insert_ne by congruence.
  - intros Hu k k' x x' Hk Hk' Heq.
    apply lookup_insert_Some in Hk as [[<- <-]|[? Hk]], Hk' as [[<- <-]|[? Hk']]; try done.
    + by destruct (Hh _ _ Hk').
    + by destruct (Hh _ _ Hk).
    + by eapply Hu.
Qed.

Lemma codes_use (id : jsstr) (c c' : row) (t : gmap jsstr row) :
  t !! id = Some c -> hash c' = hash c -> is_set (used c') = true ->
  codes_evolve t (<[id := c']> t) /\ (codes_unique t -> codes_unique (<[id := c']> t)).
Proof.
  intros Hk Hh Hu. apply (codes_update (fun k x => if bool_decide (k = id) then
    (if bool_decide (hash x = hash c') then c' else x) else x)).
  - intros k. destruct (decide (k = id)) as [->|Hne].
    + rewrite lookup_insert_eq, Hk. simpl. by rewrite !bool_decide_true by done.
    + rewrite lookup_insert_ne, bool_decide_false by done. by destruct (t !! k).
  - intros k x. case_bool_decide; [|done]. case_bool_decide; [|done]. by split.
Qed.
End Codes.

Abbreviation bridge_evolve := (codes_evolve bc_codeHash bc_usedAt).
Abbreviation mobile_evolve := (codes_evolve mb_codeHash mb_usedAt).
Definition world_evolves (w w' : ext_world) : Prop :=
  tokens_evolve (xw_tokens w) (xw_tokens w') /\ bridge_evolve (xw_codes w) (xw_codes w') /\
  mobile_evolve (xw_mobile w) (xw_mobile w').
Definition world_codes_ok (w : ext_world) : Prop :=
  codes_unique bc_codeHash (xw_codes w) /\ codes_unique mb_codeHash (xw_mobile w).

#[export] Instance world_evolves_preorder : PreOrder world_evolves.
Proof.
  split; [by intros w; split_and!|]. intros a b c (H1 & H2 & H3) (H4 & H5 & H6).
  split_and!; by etransitivity.
Qed.

Lemma create_bridge_code_codes userId tenantId cnfJkt now id code w w' :
  create_bridge_code hashToken userId tenantId cnfJkt now id code w = Ok w' ->
  xw_tokens w' = xw_tokens w /\ xw_mobile w' = xw_mobile w /\
  bridge_evolve (xw_codes w) (xw_codes w') /\
  (codes_unique bc_codeHash (xw_codes w) -> codes_unique bc_codeHash (xw_codes w')).
Proof.
  unfold create_bridge_code. destruct (create _ _ _ _) as [t|] eqn:E; intros; simplify_eq. simpl.
  apply (codes_create bc_codeHash bc_usedAt) in E as [He Hu].
  set (t0 := evict_for _ _ _ _ _ _) in He, Hu.
  destruct (codes_update bc_codeHash bc_usedAt (fun k c => if bool_decide (k ∈ map fst (take
    (length (find_oldest_first bc_createdAt (counts_code userId now) (xw_codes w)) + 1
       - BRIDGE_CODE_MAX_ACTIVE)
    (find_oldest_first bc_createdAt (counts_code userId now) (xw_codes w)))) then use_bridge now c else c)
    (xw_codes w) t0) as [He' Hu'].
  - intros k. unfold t0, evict_for. apply update_in_lookup.
  - intros k c. case_bool_decide; done.
  - split_and!; [done|done|etransitivity; [exact He'|exact He]|]. intros Hx. exact (Hu (Hu' Hx)).
Qed.

Lemma consume_bridge_codes k cnfJkt now w :
  let w' := fst (consume_bridge k cnfJkt now w) in
  xw_tokens w' = xw_tokens w /\ xw_mobile w' = xw_mobile w /\
  bridge_evolve (xw_codes w) (xw_codes w') /\
  (codes_unique bc_codeHash (xw_codes w) -> codes_unique bc_codeHash (xw_codes w')).
Proof.
  unfold consume_bridge. destruct (xw_codes w !! k) as [c|] eqn:E; [|by split_and!].
  destruct (_ && _); [|by split_and!]. simpl.
  destruct (codes_use bc_codeHash bc_usedAt k c (use_bridge now c) (xw_codes w) E); [done..|by split_and!].
Qed.

Lemma consume_mobile_codes k now w :
  let w' := fst (consume_mobile k now w) in
  xw_tokens w' = xw_tokens w /\ xw_codes w' = xw_codes w /\
  mobile_evolve (xw_mobile w) (xw_mobile w') /\
  (codes_unique mb_codeHash (xw_mobile w) -> codes_unique mb_codeHash (xw_mobile w')).
Proof.
  unfold consume_mobile. destruct (xw_mobile w !! k) as [c|] eqn:E; [|by split_and!].
  destruct (_ && _); [|by split_and!]. simpl.
  destruct (codes_use mb_codeHash mb_usedAt k c (use_mobile now c) (xw_mobile w) E); [done..|by split_and!].
Qed.
End Runs.

(** ** Runs keep the invariants *)

Section Invariants.
Context (hashToken : jsstr -> jsstr).

Lemma evolve_tokens_only w t :
  tokens_evolve (xw_tokens w) t -> world_evolves w (set_tokens w t).
Proof. intros He. by split_and!. Qed.

Lemma evict_create_evolve cap n p now ctx id r t t' :
  create_token ctx id r (evict_for et_createdAt cap n p (revoke_token now) t) = Ok t' ->
  tokens_evolve t t'.
Proof.
  intros Hc. etransitivity; [|by eapply evolve_create]. apply evolve_evict, row_evolves_revoke.
Qed.

Lemma step_evolves h w w' : ext_step hashToken h w w' -> world_evolves w w'.
Proof.
  intros Hs. destruct Hs.
  - destruct (issueExtensionToken_tokens hashToken userId tenantId scope cnfJkt now id familyId plain w0 w)
      as [-> | (tn & ctx & t & _ & Hc & ->)]; [done|].
    apply evolve_tokens_only. by eapply evict_create_evolve.
  - destruct (issueIosToken_tokens hashToken userId tenantId cnfJkt (inl familyId) now ip ua id1 id2 p1 p2 w)
      as [-> | (ctx & t1 & t2 & r1 & r2 & H1 & H2 & -> & _)]; [done|].
    apply evolve_tokens_only. etransitivity; [by eapply evict_create_evolve|by eapply evolve_create].
  - destruct (issueAutofillToken_tokens hashToken userId tenantId cnfJkt now id familyId plain w)
      as [-> | (ctx & p & t & Hc & ->)]; [done|].
    apply evolve_tokens_only. etransitivity; [|by eapply evolve_create].
    apply evolve_updateMany, row_evolves_revoke.
  - destruct (refresh_tx_tokens hashToken (validated k r cnfJkt) tenantId expiresAt now id plain w)
      as [[-> _] | (ctx & r' & t & Hk & _ & Hc & ->)]; [done|].
    apply evolve_tokens_only. etransitivity; [|by eapply evolve_create].
    eapply quiet_insert; [done|apply row_evolves_revoke].
  - destruct (ios_revoke_quiet r now w) as (Hq & Hc & Hm). split_and!; [apply Hq|by rewrite Hc|by rewrite Hm].
  - destruct (issueIosToken_tokens hashToken (et_userId r) (et_tenantId r) cnfJkt
      (inr (et_familyId r, et_familyCreatedAt r)) now ip ua id1 id2 p1 p2 w)
      as [-> | (ctx & t1 & t2 & r1 & r2 & H1' & H2' & -> & _)]; [done|].
    apply evolve_tokens_only. etransitivity; [by eapply evict_create_evolve|by eapply evolve_create].
  - apply evolve_tokens_only, evolve_updateMany, row_evolves_revoke.
  - apply evolve_tokens_only. eapply quiet_insert; [done|apply row_evolves_revoke].
  - apply evolve_tokens_only, quiet_alter. intros r. apply row_evolves_touch.
  - destruct (create_bridge_code_codes hashToken userId tenantId cnfJkt now id code w w') as (Ht & Hm & He & _);
      [done|]. split_and!; [by rewrite Ht|done|by rewrite Hm].
  - destruct (consume_bridge_codes k cnfJkt now w) as (Ht & Hm & He & _).
    split_and!; [by rewrite Ht|done|by rewrite Hm].
  - split_and!; [done|done|]. by eapply codes_create.
  - destruct (consume_mobile_codes k now w) as (Ht & Hm & He & _).
    split_and!; [by rewrite Ht|by rewrite Hm|done].
  - split_and!; by rewrite ?H, ?H0, ?H1.
Qed.

Lemma run_evolves w h w0 : ext_run hashToken (w :: h) -> w0 ∈ w :: h -> world_evolves w0 w.
Proof.
  intros Hr. remember (w :: h) as l eqn:El. revert w h El w0.
  induction Hr as [w Ht Hc Hm|w h w' Hr IH Hs]; intros v l [= <- <-] w0 Hin.
  - apply list_elem_of_singleton in Hin as ->. done.
  - apply elem_of_cons in Hin as [->|Hin]; [done|].
    etransitivity; [by eapply IH|by eapply step_evolves].
Qed.

(** The history of a run is itself a run. *)
Lemma run_tail l w h : ext_run hashToken (l ++ w :: h) -> ext_run hashToken (w :: h).
Proof.
  induction l as [|x l IH]; [done|]. intros Hr. apply IH. inversion Hr; simplify_eq/=; [by destruct l|].
  congruence.
Qed.

Lemma step_codes_ok h w w' : ext_step hashToken h w w' -> world_codes_ok w -> world_codes_ok w'.
Proof.
  intros Hs [Hb Hm]. unfold world_codes_ok.
  assert (Hset : forall t, xw_codes (set_tokens w t) = xw_codes w /\ xw_mobile (set_tokens w t) = xw_mobile w)
    by done.
  destruct Hs.
  - destruct (issueExtensionToken_tokens hashToken userId tenantId scope cnfJkt now id familyId plain w0 w)
      as [-> | (tn & ctx & t & _ & Hc & ->)]; done.
  - destruct (issueIosToken_tokens hashToken userId tenantId cnfJkt (inl familyId) now ip ua id1 id2 p1 p2 w)
      as [-> | (ctx & t1 & t2 & r1 & r2 & H1 & H2 & -> & _)]; done.
  - destruct (issueAutofillToken_tokens hashToken userId tenantId cnfJkt now id familyId plain w)
      as [-> | (ctx & p & t & Hc & ->)]; done.
  - destruct (refresh_tx_tokens hashToken (validated k r cnfJkt) tenantId expiresAt now id plain w)
      as [[-> _] | (ctx & r' & t & Hk & _ & Hc & ->)]; done.
  - destruct (ios_revoke_quiet r now w) as (_ & -> & ->). done.
  - destruct (issueIosToken_tokens hashToken (et_userId r) (et_tenantId r) cnfJkt
      (inr (et_familyId r, et_familyCreatedAt r)) now ip ua id1 id2 p1 p2 w)
      as [-> | (ctx & t1 & t2 & r1 & r2 & H1' & H2' & -> & _)]; done.
  - done.
  - done.
  - done.
  - destruct (create_bridge_code_codes hashToken userId tenantId cnfJkt now id code w w') as (_ & -> & _ & ?); auto.
  - destruct (consume_bridge_codes k cnfJkt now w) as (_ & -> & _ & ?). auto.
  - split; [done|]. simpl. apply (codes_create mb_codeHash mb_usedAt) in H as [_ ?]. auto.
  - destruct (consume_mobile_codes k now w) as (_ & -> & _ & ?). auto.
  - by rewrite H0, H1.
Qed.

Lemma run_codes_ok w h : ext_run hashToken (w :: h) -> world_codes_ok w.
Proof.
  intros Hr. remember (w :: h) as l eqn:El. revert w h El.
  induction Hr as [w Ht Hc Hm|w h w' Hr IH Hs]; intros v l [= <- <-].
  - split; [rewrite Hc|rewrite Hm]; intros k k' c c' Hk; by rewrite lookup_empty in Hk.
  - eapply step_codes_ok; [done|by eapply IH].
Qed.

(** The rows of a family agree with an owner, a key and a birth time. *)
Definition family_is (f userId : jsstr) (cnfJkt : option jsstr) (born : Z) (t : gmap jsstr ext_token) : Prop :=
  forall k x, t !! k = Some x -> et_familyId x = f ->
    et_userId x = userId /\ et_cnfJkt x = cnfJkt /\ et_familyCreatedAt x = born.

Lemma family_is_quiet f u c b t t' : quiet t t' -> family_is f u c b t -> family_is f u c b t'.
Proof.
  intros [_ Hback] Hf k x Hk Hx. destruct (Hback k x Hk) as (y & Hy & He).
  unfold row_evolves in He. destruct_and!. destruct (Hf k y Hy) as (? & ? & ?); [congruence|].
  split_and!; congruence.
Qed.

Lemma family_is_fresh f u c b t : fresh_family f t -> family_is f u c b t.
Proof. intros Hf k x Hk Hx. by destruct (Hf k x Hk). Qed.

(** The family of a row that was read in an earlier state. *)
Lemma family_is_read t0 t k r :
  tokens_evolve t0 t -> tokens_ok t -> t0 !! k = Some r ->
  family_is (et_familyId r) (et_userId r) (et_cnfJkt r) (et_familyCreatedAt r) t.
Proof.
  intros He Hok Hk k' x Hx Hf. destruct (He k r Hk) as (r' & Hk' & Hev).
  unfold row_evolves in Hev. destruct_and!.
  destruct (ok_family t Hok k' k x r' Hx Hk') as (? & ? & ?); [congruence|]. split_and!; congruence.
Qed.

Lemma create_ios_ok ctx id r t t' :
  tokens_ok t -> create_token ctx id r t = Ok t' -> et_clientKind r = IOS_APP ->
  family_is (et_familyId r) (et_userId r) (et_cnfJkt r) (et_familyCreatedAt r) t -> tokens_ok t'.
Proof.
  intros Hok (_ & Hn & Hh & ->)%create_token_Ok Hk Hf. apply tokens_ok_insert; try done.
  - intros k x _ _ _. exists id, r. by rewrite lookup_insert_eq.
  - by rewrite Hk.
Qed.

Lemma create_new_family_ok ctx id r t t' :
  tokens_ok t -> create_token ctx id r t = Ok t' -> fresh_family (et_familyId r) t ->
  (et_clientKind r = BROWSER_EXTENSION -> et_expiresAt r <= et_familyCreatedAt r + FAMILY_LIFE_MS) ->
  tokens_ok t'.
Proof.
  intros Hok (_ & Hn & Hh & ->)%create_token_Ok Hf Hl. apply tokens_ok_insert; try done.
  - intros k x Hk Hx. by destruct (Hf k x Hk).
  - intros k x Hk Hx. by destruct (Hf k x Hk).
Qed.

Lemma fresh_quiet f t t' : quiet t t' -> fresh_family f t -> fresh_family f t'.
Proof.
  intros [_ Hback] Hf k x Hk Hx. destruct (Hback k x Hk) as (y & Hy & He).
  unfold row_evolves in He. destruct_and!. apply (Hf k y Hy). congruence.
Qed.

Lemma issue_ios_ok userId tenantId cnfJkt family now ip ua id1 id2 p1 p2 w :
  tokens_ok (xw_tokens w) ->
  (let '(f, b) := match family with inl f => (f, now) | inr fc => fc end in
   family_is f userId (Some cnfJkt) b (xw_tokens w)) ->
  tokens_ok (xw_tokens (fst (issueIosToken hashToken userId tenantId cnfJkt family now ip ua id1 id2 p1 p2 w))).
Proof.
  intros Hok Hf.
  pose proof (issueIosToken_tokens hashToken userId tenantId cnfJkt family now ip ua id1 id2 p1 p2 w) as H.
  destruct (match family with inl f => (f, now) | inr fc => fc end) as [f b].
  destruct H as [-> | (ctx & t1 & t2 & r1 & r2 & H1 & H2 & -> & Hr)]; [done|].
  rewrite !Forall_cons in Hr. destruct Hr as ((Ef1 & Eu1 & Ec1 & Eb1 & Ek1 & _) & (Ef2 & Eu2 & Ec2 & Eb2 & Ek2 & _) & _).
  pose proof (quiet_evict EXTENSION_TOKEN_MAX_ACTIVE 2 (counts_for ctx userId now) (revoke_token now)
    (xw_tokens w) (row_evolves_revoke now)) as Hq.
  assert (Hf1 := family_is_quiet f userId (Some cnfJkt) b _ _ Hq Hf).
  simpl. eapply create_ios_ok; [|exact H2|done|].
  - eapply create_ios_ok; [by eapply tokens_ok_quiet|exact H1|done|]. rewrite Ef1, Eu1, Ec1, Eb1. exact Hf1.
  - rewrite Ef2, Eu2, Ec2, Eb2. apply create_token_Ok in H1 as (_ & _ & _ & ->).
    intros k x Hk Hx. apply lookup_insert_Some in Hk as [[_ <-]|[_ Hk]]; [by split_and!|]. by eapply Hf1.
Qed.

Lemma check_ext_refresh_Rotate d now w1 tenantId expiresAt :
  check_ext_refresh d now w1 = Ok (Rotate tenantId expiresAt) ->
  exists tn, xw_tenants w1 !! tenantId = Some tn /\
    expiresAt = now + default EXTENSION_TOKEN_IDLE_TIMEOUT_DEFAULT (tn_idleMinutes tn) * EXT_MS_PER_MINUTE /\
    now - vt_familyCreatedAt d
    <= default EXTENSION_TOKEN_ABSOLUTE_TIMEOUT_DEFAULT (tn_absoluteMinutes tn) * EXT_MS_PER_MINUTE /\
    ext_passkey_gate (vt_userId d) tenantId now w1 = Ok false.
Proof.
  unfold check_ext_refresh. intros (s & _ & Hs)%bind_Ok_inv. destruct s as [s|]; [|done].
  destruct (xw_tenants w1 !! ss_tenantId s) as [tn|] eqn:Et; [|done].
  destruct (blank (vt_familyId d)); [done|]. destruct (_ <? _) eqn:Ea; [done|].
  apply bind_Ok_inv in Hs as (b & Hb & Hs). destruct b; simplify_eq/=. bools. by exists tn.
Qed.

Lemma refresh_tx_ok w0 w1 w k r cnfJkt tenantId expiresAt now id plain :
  tokens_evolve (xw_tokens w0) (xw_tokens w) -> policies_ok w1 -> tokens_ok (xw_tokens w) ->
  xw_tokens w0 !! k = Some r -> et_cnfJkt r = Some cnfJkt ->
  check_ext_refresh (validated k r cnfJkt) now w1 = Ok (Rotate tenantId expiresAt) ->
  tokens_ok (xw_tokens (fst (refresh_tx hashToken (validated k r cnfJkt) tenantId expiresAt now id plain w))).
Proof.
  intros He Hp Hok Hk Hc Hchk. apply check_ext_refresh_Rotate in Hchk as (tn & Htn & -> & Ha & _).
  destruct (refresh_tx_tokens hashToken (validated k r cnfJkt) tenantId
    (now + default EXTENSION_TOKEN_IDLE_TIMEOUT_DEFAULT (tn_idleMinutes tn) * EXT_MS_PER_MINUTE) now id plain w)
    as [[-> _] | (ctx & r' & t & Hk' & Hact & Hcr & ->)]; [done|].
  pose proof (family_is_read _ _ k r He Hok Hk) as Hf. simpl in *.
  assert (Hq : quiet (xw_tokens w) (<[k := revoke_token now r']> (xw_tokens w)))
    by (eapply quiet_insert; [done|apply row_evolves_revoke]).
  destruct (create_token_Ok _ _ _ _ _ Hcr) as (_ & Hn & Hh & ->).
  destruct (He k r Hk) as (r'' & Hk'' & Hev). rewrite Hk' in Hk''. injection Hk'' as <-.
  unfold row_evolves in Hev. destruct_and!.
  apply tokens_ok_insert; [by eapply tokens_ok_quiet|done|done| | |].
  - cbn [new_token et_familyId et_userId et_cnfJkt et_familyCreatedAt]. rewrite <- Hc.
    exact (family_is_quiet _ _ _ _ _ _ Hq Hf).
  - simpl. intros k' x Hx Hfx Hr. destruct (decide (k' = k)) as [->|Hne].
    { rewrite lookup_insert_eq in Hx. by simplify_eq. }
    rewrite lookup_insert_ne in Hx by done.
    assert (Hrn : et_revokedAt r' = None).
    { unfold active_token in Hact. apply andb_true_iff in Hact as [Hact _]. by destruct (et_revokedAt r'). }
    destruct (ok_linear _ Hok k' k x r' Hx Hk') as [?|(ki & y & Hy & Hyf & Hyk)]; [congruence|done|done|done|].
    destruct Hq as [Hq _]. destruct (Hq ki y Hy) as (y' & Hy' & Hyev).
    unfold row_evolves in Hyev. destruct_and!.
    exists ki, y'. split_and!; [|congruence|congruence]. by rewrite lookup_insert_ne by congruence.
  - intros _. simpl. destruct (Hp tenantId tn Htn) as [Hi [Habs Habs']].
    unfold FAMILY_LIFE_MS, EXT_MS_PER_MINUTE in *. lia.
Qed.

Lemma step_ok h w w' :
  ext_step hashToken (w :: h) w w' -> Forall policies_ok (w :: h) ->
  (forall w0, w0 ∈ w :: h -> tokens_evolve (xw_tokens w0) (xw_tokens w)) ->
  tokens_ok (xw_tokens w) -> tokens_ok (xw_tokens w').
Proof.
  intros Hs Hp He Hok. rewrite Forall_forall in Hp. destruct Hs.
  - destruct (issueExtensionToken_tokens hashToken userId tenantId scope cnfJkt now id familyId plain w0 w)
      as [-> | (tn & ctx & t & Htn & Hc & ->)]; [done|].
    assert (Hq := quiet_evict EXTENSION_TOKEN_MAX_ACTIVE 1 (counts_for ctx userId now) (revoke_token now)
      (xw_tokens w) (row_evolves_revoke now)).
    eapply create_new_family_ok; [by eapply tokens_ok_quiet|exact Hc|by eapply fresh_quiet|].
    intros _. simpl. destruct (Hp w0 H tenantId tn Htn) as [Hi _].
    unfold FAMILY_LIFE_MS, EXTENSION_TOKEN_ABSOLUTE_TIMEOUT_MAX, EXT_MS_PER_MINUTE in *. lia.
  - apply issue_ios_ok; [done|]. by apply family_is_fresh.
  - destruct (issueAutofillToken_tokens hashToken userId tenantId cnfJkt now id familyId plain w)
      as [-> | (ctx & p & t & Hc & ->)]; [done|].
    assert (Hq := quiet_updateMany p (revoke_token now) (xw_tokens w) (row_evolves_revoke now)).
    eapply create_new_family_ok; [by eapply tokens_ok_quiet|exact Hc|by eapply fresh_quiet|done].
  - eapply refresh_tx_ok; [apply He; exact H|apply Hp; exact H0|done|done|done|done].
  - eapply tokens_ok_quiet; [apply ios_revoke_quiet|done].
  - apply issue_ios_ok; [done|]. rewrite <- H2. by eapply family_is_read; [apply He|..].
  - eapply tokens_ok_quiet; [|done]. apply quiet_updateMany, row_evolves_revoke.
  - eapply tokens_ok_quiet; [|done]. eapply quiet_insert; [done|apply row_evolves_revoke].
  - eapply tokens_ok_quiet; [|done]. apply quiet_alter. intros r. apply row_evolves_touch.
  - by destruct (create_bridge_code_codes hashToken userId tenantId cnfJkt now id code w w') as (-> & _).
  - by destruct (consume_bridge_codes k cnfJkt now w) as (-> & _).
  - done.
  - by destruct (consume_mobile_codes k now w) as (-> & _).
  - by rewrite H.
Qed.

Lemma tokens_ok_empty : tokens_ok ∅.
Proof. split; intros *; rewrite !lookup_empty; naive_solver. Qed.

Lemma run_ok w h : ext_run hashToken (w :: h) -> Forall policies_ok (w :: h) -> tokens_ok (xw_tokens w).
Proof.
  intros Hr. remember (w :: h) as l eqn:El. revert w h El.
  induction Hr as [w Ht Hc Hm|w h w' Hr IH Hs]; intros v l [= <- <-] Hp.
  - rewrite Ht. apply tokens_ok_empty.
  - apply Forall_cons in Hp as [_ Hp]. eapply step_ok; [exact Hs|done| |by eapply IH].
    intros w0 Hin. by destruct (run_evolves w h w0 Hr Hin).
Qed.

(** States of a run at or after a given one. *)
Lemma run_later l w h w' :
  ext_run hashToken (l ++ w :: h) -> w' ∈ l ++ [w] ->
  world_evolves w w' /\ exists l1 l2, l ++ w :: h = l1 ++ w' :: l2 /\ ext_run hashToken (w' :: l2).
Proof.
  intros Hrun Hlater.
  assert (Hsplit : exists l1 l2, l ++ w :: h = l1 ++ w' :: l2 /\ w ∈ w' :: l2).
  { apply elem_of_app in Hlater as [Hin | ->%list_elem_of_singleton].
    - apply list_elem_of_split in Hin as (a & b & ->). exists a, (b ++ w :: h).
      rewrite <- app_assoc. split; [done|]. set_solver.
    - exists l, h. split; [done|]. set_solver. }
  destruct Hsplit as (l1 & l2 & Heq & Hin). rewrite Heq in Hrun. apply run_tail in Hrun.
  split; [by eapply run_evolves|]. by exists l1, l2.
Qed.

(** Two rows with one code are one row, whichever states of the run hold them. *)
Lemma run_codes_unique h w w' k k' c c' :
  ext_run hashToken h -> w ∈ h -> w' ∈ h ->
  xw_codes w !! k = Some c -> xw_codes w' !! k' = Some c' -> bc_codeHash c = bc_codeHash c' -> k = k'.
Proof.
  intros Hrun Hin Hin' Hk Hk' Hh. destruct h as [|w1 h]; [by apply not_elem_of_nil in Hin|].
  destruct (run_evolves _ _ _ Hrun Hin) as (_ & He & _), (run_evolves _ _ _ Hrun Hin') as (_ & He' & _).
  destruct (He k c Hk) as (d & Hd & Hdh & _), (He' k' c' Hk') as (d' & Hd' & Hdh' & _).
  destruct (run_codes_ok _ _ Hrun) as [Hu _]. apply (Hu k k' d d' Hd Hd'). congruence.
Qed.
End Invariants.

(** ** A small database *)

Module ExtDemo.
Definition demo_hash (s : jsstr) : jsstr := js "#" ++ s.
Definition demo_tenant : tenant_row :=
  {| tn_idleMinutes := None; tn_absoluteMinutes := None;
     tn_passkey := {| pt_requirePasskey := false; pt_enabledAt := None; pt_graceDays := None |} |}.
(** One user [u] of one tenant [t], signed in for a long time. *)
Definition demo_world : ext_world :=
  {| xw_tokens := ∅; xw_codes := ∅; xw_mobile := ∅; xw_members := {[ (js "t", js "u") := None ]};
     xw_sessions := {[ js "s" := {| ss_userId := js "u"; ss_tenantId := js "t"; ss_expires := 10 ^ 15 |} ]};
     xw_tenants := {[ js "t" := demo_tenant ]}; xw_credentials := ∅ |}.
Definition issue (now : Z) (id family plain : jsstr) (w : ext_world) : ext_world :=
  fst (issueExtensionToken demo_hash (js "u") (js "t") (js "passwords:read") (js "k") now id family plain w w).

Lemma demo_policies w : xw_tenants w = {[ js "t" := demo_tenant ]} -> policies_ok w.
Proof.
  intros Hw k tn. rewrite Hw, lookup_singleton_Some. intros [_ <-]. vm_compute. split; [|split]; discriminate.
Qed.

(** Two browser tokens, each in a family of its own. *)
Definition demo_run : list ext_world :=
  let w1 := issue 1000 (js "1") (js "f") (js "p") demo_world in
  [issue 2000 (js "2") (js "g") (js "q") w1; w1; demo_world].

Definition fresh_familyb (f : jsstr) (t : gmap jsstr ext_token) : bool :=
  forallb (fun kr => negb (et_familyId (snd kr) =s f)) (map_to_list t).
Lemma fresh_familyb_ok f t : fresh_familyb f t = true -> fresh_family f t.
Proof.
  unfold fresh_familyb. rewrite forallb_forall. intros Hf k r Hk.
  apply elem_of_map_to_list, list_elem_of_In in Hk. specialize (Hf _ Hk). simpl in Hf. by bools.
Qed.

Lemma demo_run_ok : ext_run demo_hash demo_run.
Proof.
  apply run_step; [apply run_step; [by apply run_start|]|];
    (apply step_issue; [apply elem_of_cons; by left | apply fresh_familyb_ok; vm_compute; reflexivity]).
Qed.

Lemma demo_run_policies : Forall policies_ok demo_run.
Proof.
  repeat (apply Forall_cons; split; [apply demo_policies; vm_compute; reflexivity|]). by apply Forall_nil.
Qed.
End ExtDemo.
Import ExtDemo.

(** ** Properties *)

(** C9: in every state of every run of the token routes, whatever earlier state each
    of them read, a bearer value names one row, the rows of a family have one owner,
    one DPoP key and one birth time, a family without iOS rows has at most one row
    that is not revoked, and no browser token outlives its family's birth by more
    than sixty days. *)
Theorem ext_tokens_invariant hashToken h w
    (Hrun : ext_run hashToken h) (Hpolicy : Forall policies_ok h) (Hin : w ∈ h) :
  tokens_ok (xw_tokens w).
Proof.
  apply list_elem_of_split in Hin as (l & l' & ->). apply run_tail in Hrun.
  apply Forall_app in Hpolicy as [_ Hpolicy]. by eapply run_ok.
Qed.

Lemma ext_tokens_invariant_witness :
  size (xw_tokens (default demo_world (head demo_run))) = 2%nat /\
  tokens_ok (xw_tokens (default demo_world (head demo_run))).
Proof.
  split; [vm_compute; reflexivity|].
  apply (ext_tokens_invariant demo_hash demo_run).
  - exact demo_run_ok.
  - exact demo_run_policies.
  - apply elem_of_cons. left. reflexivity.
Defined.

Section Validation.
Context (hashToken : jsstr -> jsstr) (env : url_env) (URL : jsstr -> option url)
  (decode_json : jsstr -> option json) (decode_bytes : jsstr -> list Z)
  (verifyEs256 : DpopJwk -> jsstr -> list Z -> bool) (sha256_base64url : list Z -> jsstr)
  {C : Type} `{JtiCache C}.
Abbreviation validate :=
  (validateExtensionToken hashToken env URL decode_json decode_bytes verifyEs256 sha256_base64url).

Lemma check_dpop_accepts req method route ath cnfJkt now (cache : C) c :
  snd (check_dpop env URL decode_json decode_bytes verifyEs256 sha256_base64url
         req method route ath cnfJkt now cache) = Ok (inr c) ->
  exists htu token, canonicalHtu URL env route = Ok htu /\ rq_dpop req = Some token /\
    dpop_valid URL decode_json decode_bytes verifyEs256 sha256_base64url
      {| expectedHtm := method; expectedHtu := htu; iatSkewSeconds := None; expectedAth := ath;
         expectedCnfJkt := cnfJkt; expectedNonce := None |} now token c /\
    snd (has_or_record cache now (cl_jkt c) (cl_jti c)) = false.
Proof.
  unfold check_dpop. destruct (canonicalHtu URL env route) as [htu|]; [|done]. intros Hv.
  destruct (verifyDpopProof _ _ _ _ _ _ _ _) as [cache' r] eqn:E. simpl in Hv.
  destruct r as [c'|[]]; simplify_eq. exists htu. apply (f_equal snd) in E. simpl in E.
  apply dpop_verify_accepts in E as [Hc Hj]. destruct (rq_dpop req) as [token|]; [|done].
  exists token. apply check_proof_iff in Hc. done.
Qed.

(** A row that the checks before the proof let through. *)
Lemma validate_row req now w0 w1 (cache : C) v :
  snd (validate req now w0 w1 cache) = Ok (inr v) ->
  exists plaintext id r cnfJkt, extractBearer req = Some plaintext /\
    xw_tokens w0 !! id = Some r /\ et_tokenHash r = hashToken plaintext /\
    et_revokedAt r = None /\ now < et_expiresAt r /\
    xw_members w1 !! (et_tenantId r, et_userId r) = Some None /\
    et_cnfJkt r = Some cnfJkt /\ v = validated id r cnfJkt /\
    snd (validateExtensionTokenDpop env URL decode_json decode_bytes verifyEs256 sha256_base64url
           req id r cnfJkt plaintext now cache) = Ok (inr v).
Proof.
  unfold validateExtensionToken. destruct (extractBearer req) as [[|c p]|] eqn:Eb; [done| |done].
  destruct (find_hash _ _ _) as [[id r]|] eqn:Ef; [|done].
  destruct (et_revokedAt r) eqn:Er; simpl; [done|]. destruct (et_expiresAt r <=? now) eqn:Ee; [done|].
  destruct (xw_members w1 !! _) as [[|]|] eqn:Em; [done| |done].
  destruct (et_cnfJkt r) as [[|c0 jkt]|] eqn:Ec; [done| |done].
  destruct (validateExtensionTokenDpop _ _ _ _ _ _ _ _ _ _ _ _ _) as [cache' res] eqn:Ev. simpl.
  intros Hres. destruct res as [[e|v']|]; [done| |done]. injection Hres as ->.
  apply find_by_Some in Ef as [Hk Hh]. simpl in Hh. bools.
  exists (c :: p), id, r, (c0 :: jkt). split_and!; try done; [|by rewrite Ev].
  unfold validateExtensionTokenDpop in Ev. destruct (URL (rq_url req)); [|done].
  destruct (check_dpop _ _ _ _ _ _ _ _ _ _ _ _ _) as [c1 [[]|]]; by simplify_eq.
Qed.

(** C19: a request is validated only for a stored, unrevoked and unexpired row of an
    active member of the row's tenant, with a proof that is valid for the request's
    method and path, the presented token and the row's key, and that was not used
    before; the answer carries the row's identity. *)
Theorem validate_extension_sound req now w0 w1 (cache : C) v :
  snd (validate req now w0 w1 cache) = Ok (inr v) ->
  exists plaintext r u htu proof claims,
    extractBearer req = Some plaintext /\
    xw_tokens w0 !! vt_tokenId v = Some r /\ et_tokenHash r = hashToken plaintext /\
    et_revokedAt r = None /\ now < et_expiresAt r /\
    xw_members w1 !! (et_tenantId r, et_userId r) = Some None /\
    et_cnfJkt r = Some (vt_cnfJkt v) /\ v = validated (vt_tokenId v) r (vt_cnfJkt v) /\
    URL (rq_url req) = Some u /\ canonicalHtu URL env (pathname u) = Ok htu /\
    rq_dpop req = Some proof /\
    dpop_valid URL decode_json decode_bytes verifyEs256 sha256_base64url
      {| expectedHtm := rq_method req; expectedHtu := htu; iatSkewSeconds := None;
         expectedAth := Some (computeAth sha256_base64url plaintext);
         expectedCnfJkt := Some (vt_cnfJkt v); expectedNonce := None |} now proof claims /\
    snd (has_or_record cache now (cl_jkt claims) (cl_jti claims)) = false.
Proof.
  intros Hv. apply validate_row in Hv as (p & id & r & jkt & Hb & Hk & Hh & Hr & He & Hm & Hc & -> & Hd).
  unfold validateExtensionTokenDpop in Hd. destruct (URL (rq_url req)) as [u|] eqn:Eu; [|done].
  destruct (check_dpop _ _ _ _ _ _ _ _ _ _ _ _ _) as [c1 res] eqn:E.
  apply (f_equal snd) in E. destruct res as [[|c]|]; try done. simpl in E.
  apply check_dpop_accepts in E as (htu & proof & Hu & Hp & Hval & Hrep).
  exists p, r, u, htu, proof, c. split_and!; done.
Qed.

(** Once a token is revoked in some state of a run, no request that presents it
    is validated against that state or a later one. *)
Theorem ext_revoked_never_accepted h l w w' k r plaintext req now w1 (cache : C)
    (Hrun : ext_run hashToken (l ++ w :: h)) (Hpolicy : Forall policies_ok (l ++ w :: h))
    (Hrow : xw_tokens w !! k = Some r) (Hrevoked : is_set (et_revokedAt r) = true)
    (Htoken : et_tokenHash r = hashToken plaintext) (Hreq : extractBearer req = Some plaintext)
    (Hlater : w' ∈ l ++ [w]) :
  forall v, snd (validate req now w' w1 cache) <> Ok (inr v).
Proof using Type.
  intros v Hv. apply validate_row in Hv as (p & id & x & jkt & Hb & Hk & Hh & Hr & _).
  rewrite Hreq in Hb. injection Hb as <-.
  apply (run_later _ _ _ _ _ Hrun) in Hlater as ((He & _) & l1 & l2 & Heq & Hrun').
  rewrite Heq in Hpolicy. apply Forall_app in Hpolicy as [_ Hpolicy]. destruct (He k r Hrow) as (r' & Hk' & Hev).
  unfold row_evolves in Hev. destruct_and!.
  assert (k = id) as -> by (eapply (ok_hash _ (run_ok _ _ _ Hrun' Hpolicy) k id r' x); [done|done|congruence]).
  rewrite Hk in Hk'. injection Hk' as <-. rewrite Hr in *. naive_solver.
Qed.
End Validation.

Module ExtDemo2.
(** A parser for addresses of the host [h], and a proof for its path [/r]. *)
Definition host_url (s : jsstr) : option url :=
  if js_starts_with (js "https://h") s then
    Some {| protocol := js "https:"; hostname := js "h"; port := []; pathname := drop 9 s;
            search := []; hash := []; origin := js "https://h" |}
  else None.
Definition host_env : url_env :=
  {| env_APP_URL := Some (js "https://h"); env_AUTH_URL := None; env_NEXT_PUBLIC_BASE_PATH := None |}.
Definition proof_payload (htu : jsstr) (jti : jsstr) : json :=
  JObj [(js "htm", JStr (js "POST")); (js "htu", JStr htu); (js "iat", JNum (Dbl 2 0));
        (js "jti", JStr jti); (js "ath", JStr (js "d"))].
(** The middle segment of a proof is its identifier and the path it is for. *)
Definition host_json (s : jsstr) : option json :=
  if s =s js "h" then Some Demo.demo_header
  else match s with
       | c :: path => Some (proof_payload (js "https://h" ++ path) [c])
       | [] => None
       end.
Definition request (bearer dpop path : jsstr) : ext_request :=
  {| rq_method := js "POST"; rq_url := js "https://h" ++ path; rq_authorization := Some bearer;
     rq_dpop := Some dpop; rq_ip := None; rq_userAgent := None |}.
Abbreviation host_validate :=
  (validateExtensionToken demo_hash host_env host_url host_json Demo.demo_bytes Demo.demo_es256 Demo.demo_sha).

(** A token bound to the key whose thumbprint is [d]. *)
Definition bound_world : ext_world :=
  fst (issueExtensionToken demo_hash (js "u") (js "t") (js "passwords:read") (js "d") 2000 (js "1")
         (js "f") (js "p") demo_world demo_world).
Definition bound_request : ext_request := request (js "bearer p") (js "h.j/r.s") (js "/r").
End ExtDemo2.
Import ExtDemo2.

Lemma validate_extension_sound_witness :
  exists v, snd (host_validate bound_request 2500 bound_world bound_world Demo.demo_cache) = Ok (inr v) /\
    exists r, xw_tokens bound_world !! vt_tokenId v = Some r /\ et_revokedAt r = None.
Proof.
  eexists. split; [vm_compute; reflexivity|].
  edestruct (validate_extension_sound demo_hash host_env host_url host_json Demo.demo_bytes
    Demo.demo_es256 Demo.demo_sha bound_request 2500 bound_world bound_world Demo.demo_cache)
    as (p & r & u & htu & proof & c & Hb & Hk & Hh & Hr & _); [vm_compute; reflexivity|].
  exists r. split; [exact Hk|exact Hr].
Defined.

Lemma ext_revoked_never_accepted_witness :
  let row := new_token (js "u") (js "t") (js "#p") (js "passwords:read") (2000 + 604800000) 2000 (js "f")
               2000 BROWSER_EXTENSION (js "d") never_used in
  let w := set_tokens bound_world (<[js "1" := revoke_token 3000 row]> (xw_tokens bound_world)) in
  snd (host_validate bound_request 2500 bound_world bound_world Demo.demo_cache)
  = Ok (inr (validated (js "1") row (js "d"))) /\
  snd (host_validate bound_request 2500 w w Demo.demo_cache) <> Ok (inr (validated (js "1") row (js "d"))).
Proof.
  intros row w. split; [vm_compute; reflexivity|].
  apply (ext_revoked_never_accepted demo_hash host_env host_url host_json Demo.demo_bytes
    Demo.demo_es256 Demo.demo_sha [bound_world; demo_world] [] w w (js "1") (revoke_token 3000 row) (js "p")
    bound_request 2500 w Demo.demo_cache).
  - apply run_step; [apply run_step; [apply run_start; reflexivity|]|].
    + apply step_issue; [apply elem_of_cons; left; reflexivity | apply fresh_familyb_ok; vm_compute; reflexivity].
    + apply step_revoke. vm_compute. reflexivity.
  - repeat (apply Forall_cons; split; [apply demo_policies; vm_compute; reflexivity|]).
    apply Forall_nil. exact I.
  - vm_compute. reflexivity.
  - reflexivity.
  - vm_compute. reflexivity.
  - vm_compute. reflexivity.
  - apply elem_of_cons. left. reflexivity.
Defined.

(** A refresh that rotated a token is the only one: no later rotation of that
    token, whatever it read when it validated the request, issues anything or changes
    the database. *)
Theorem ext_refresh_once hashToken h l w d tenantId expiresAt now id plain x w2
    d' tenantId' expiresAt' now' id' plain'
    (Hwon : snd (refresh_tx hashToken d tenantId expiresAt now id plain w) = Ok (inr x))
    (Hrun : ext_run hashToken (l ++ fst (refresh_tx hashToken d tenantId expiresAt now id plain w) :: h))
    (Hlater : w2 ∈ l ++ [fst (refresh_tx hashToken d tenantId expiresAt now id plain w)])
    (Hsame : vt_tokenId d' = vt_tokenId d) :
  fst (refresh_tx hashToken d' tenantId' expiresAt' now' id' plain' w2) = w2 /\
  forall y, snd (refresh_tx hashToken d' tenantId' expiresAt' now' id' plain' w2) <> Ok (inr y).
Proof.
  apply (run_later _ _ _ _ _ Hrun) in Hlater as [(He & _) _].
  destruct (refresh_tx_tokens hashToken d tenantId expiresAt now id plain w)
    as [[_ Hno] | (ctx & r & t & Hk & _ & Hc & Hw)]; [by destruct (Hno x)|]. rewrite Hw in He.
  apply create_token_Ok in Hc as (_ & Hn & _ & ->).
  destruct (He (vt_tokenId d) (revoke_token now r)) as (r2 & Hk2 & Hev).
  { simpl. destruct (decide (id = vt_tokenId d)) as [->|Hne].
    - rewrite lookup_insert_eq in Hn. done.
    - by rewrite lookup_insert_ne, lookup_insert_eq by done. }
  destruct (refresh_tx_tokens hashToken d' tenantId' expiresAt' now' id' plain' w2)
    as [?|(ctx' & r' & t' & Hk' & Hact & _)]; [done|]. exfalso.
  rewrite Hsame, Hk2 in Hk'. injection Hk' as <-. unfold row_evolves in Hev. destruct_and!.
  unfold active_token in Hact. apply andb_true_iff in Hact as [Hact _]. apply negb_true_iff in Hact.
  rewrite Hact in *. naive_solver.
Qed.

Lemma ext_refresh_once_witness :
  let d := validated (js "1") (new_token (js "u") (js "t") (js "#p") (js "passwords:read") (2000 + 604800000)
             2000 (js "f") 2000 BROWSER_EXTENSION (js "d") never_used) (js "d") in
  let tx := refresh_tx demo_hash d (js "t") (3000 + 604800000) 3000 in
  let w := fst (tx (js "2") (js "q") bound_world) in
  size (xw_tokens w) = 2%nat /\ fst (tx (js "3") (js "z") w) = w.
Proof.
  intros d tx w. split; [vm_compute; reflexivity|].
  refine (proj1 (ext_refresh_once demo_hash [bound_world; demo_world] [] bound_world d (js "t")
    (3000 + 604800000) 3000 (js "2") (js "q") _ w d (js "t") (3000 + 604800000) 3000 (js "3") (js "z")
    _ _ _ _)).
  - vm_compute. reflexivity.
  - apply run_step; [apply run_step; [apply run_start; reflexivity|]|].
    + apply step_issue; [apply elem_of_cons; left; reflexivity | apply fresh_familyb_ok; vm_compute; reflexivity].
    + apply (step_refresh demo_hash _ _ bound_world bound_world);
        [apply elem_of_cons; left; reflexivity|apply elem_of_cons; left; reflexivity|..];
        vm_compute; reflexivity.
  - apply elem_of_cons. left. reflexivity.
  - reflexivity.
Defined.

Section BridgeCodes.
Context (hashToken : jsstr -> jsstr) (env : url_env) (URL : jsstr -> option url)
  (decode_json : jsstr -> option json) (decode_bytes : jsstr -> list Z)
  (verifyEs256 : DpopJwk -> jsstr -> list Z -> bool) (sha256_base64url : list Z -> jsstr)
  {C : Type} `{JtiCache C}.
Abbreviation exchange :=
  (post_exchange hashToken env URL decode_json decode_bytes verifyEs256 sha256_base64url).

Lemma consume_bridge_true k cnfJkt now w w' :
  consume_bridge k cnfJkt now w = (w', true) ->
  exists c, xw_codes w !! k = Some c /\ bc_usedAt c = None /\ bc_cnfJkt c = cnfJkt /\ now < bc_expiresAt c /\
    w' = set_bridge w (<[k := use_bridge now c]> (xw_codes w)).
Proof.
  unfold consume_bridge. destruct (xw_codes w !! k) as [c|]; [|done].
  destruct (_ && _) eqn:E; [|done]. bools. intros; simplify_eq. exists c.
  destruct (bc_usedAt c); done.
Qed.

(** Once a bridge code has been consumed, no later exchange of it, whatever state
    its lookup saw, issues a token or changes the database. *)
Theorem bridge_code_single_use h l w k cnfJkt now w' c code
    (Hwon : consume_bridge k cnfJkt now w = (w', true))
    (Hcode : xw_codes w !! k = Some c) (Hhash : bc_codeHash c = hashToken code)
    (Hrun : ext_run hashToken (l ++ w' :: h))
    req bodyOk gates t0 t1 id familyId plain w0 w2 others (cache : C)
    (Hread : w0 ∈ l ++ w' :: h) (Hlater : w2 ∈ l ++ [w']) :
  let r := snd (exchange req bodyOk gates code t0 t1 id familyId plain w0 w2 others cache) in
  fst r = w2 /\ forall x, snd r <> Ok (inr x).
Proof using Type.
  intros r. apply consume_bridge_true in Hwon as (c' & Hk & _ & _ & _ & Hw').
  rewrite Hcode in Hk. injection Hk as <-.
  destruct (run_later _ _ _ _ _ Hrun Hlater) as [(_ & He & _) _].
  assert (Hk' : xw_codes w' !! k = Some (use_bridge now c)) by (rewrite Hw'; apply lookup_insert_eq).
  destruct (He k _ Hk') as (c2 & Hk2 & _ & Hused). specialize (Hused eq_refl).
  unfold r, post_exchange. destruct bodyOk; [|done]. simpl. destruct (gt_blocked gates); [done|].
  destruct (find_hash _ _ _) as [[k0 c0]|] eqn:Ef; [|done].
  apply find_by_Some in Ef as [Hk0 Hh0]. simpl in Hh0. bools.
  assert (k0 = k) as ->.
  { eapply (run_codes_unique _ _ w0 w'); [done|done| |done|done|].
    - apply elem_of_app. right. by left.
    - simpl. congruence. }
  destruct (gt_denied gates); [done|].
  destruct (check_dpop _ _ _ _ _ _ _ _ _ _ _ _ _) as [cache' [[|cl]|]]; try done.
  unfold consume_bridge. rewrite Hk2, Hused. done.
Qed.

(** An exchange that issues a token has consumed an unused and unexpired code with a
    proof by the key the code is bound to; the token carries that key and the code's
    scope. *)
Theorem exchange_sound req bodyOk gates code t0 t1 id familyId plain w0 w others (cache : C) x :
  snd (snd (exchange req bodyOk gates code t0 t1 id familyId plain w0 w others cache)) = Ok (inr x) ->
  exists k c proof claims htu,
    find_hash bc_codeHash (hashToken code) (xw_codes w0) = Some (k, c) /\
    (exists c', xw_codes w !! k = Some c' /\ bc_usedAt c' = None /\ bc_cnfJkt c' = bc_cnfJkt c /\
       t0 < bc_expiresAt c') /\
    rq_dpop req = Some proof /\ canonicalHtu URL env (js "/api/extension/token/exchange") = Ok htu /\
    dpop_valid URL decode_json decode_bytes verifyEs256 sha256_base64url
      {| expectedHtm := js "POST"; expectedHtu := htu; iatSkewSeconds := None; expectedAth := None;
         expectedCnfJkt := Some (bc_cnfJkt c); expectedNonce := None |} t0 proof claims /\
    is_cnfJkt x = bc_cnfJkt c /\ is_scope x = bc_scope c.
Proof.
  unfold post_exchange. destruct bodyOk; [|done]. simpl. destruct (gt_blocked gates); [done|].
  destruct (find_hash _ _ _) as [[k c]|] eqn:Ef; [|done]. destruct (gt_denied gates); [done|].
  destruct (check_dpop _ _ _ _ _ _ _ _ _ _ _ _ _) as [cache' res] eqn:Ed.
  destruct res as [[|cl]|]; try done. apply (f_equal snd) in Ed. simpl in Ed.
  apply check_dpop_accepts in Ed as (htu & proof & Hu & Hp & Hv & _).
  destruct (consume_bridge _ _ _ _) as [w1 []] eqn:Ec; [|done]. simpl.
  apply consume_bridge_true in Ec as (c' & Hk' & Hused & Hjkt & Hexp & ->).
  destruct (issueExtensionToken _ _ _ _ _ _ _ _ _ _ _) as [w3 issued] eqn:Ei. simpl. intros Hx.
  exists k, c, proof, cl, htu. split_and!; try done; [by exists c'|..];
  (unfold issueExtensionToken in Ei; destruct (xw_tenants _ !! _) as [tn|]; [|by simplify_eq];
   destruct (commit _ _) as [w4 r] eqn:E4; apply commit_user_cases in E4;
   destruct E4 as [(e & -> & ->)|(ctx & t & a & (t' & _ & [= <- <-])%bind_Ok_inv & -> & ->)]; simplify_eq/=; [];
   destruct (blank (bc_cnfJkt c)); by simplify_eq/=).
Qed.
End BridgeCodes.

Module ExtDemo3.
Definition code_world : ext_world :=
  match create_bridge_code demo_hash (js "u") (js "t") (js "d") 1000 (js "c1") (js "code") demo_world with
  | Ok w => w | Throw _ => demo_world
  end.
End ExtDemo3.
Import ExtDemo3.

Lemma bridge_code_single_use_witness :
  let w' := fst (consume_bridge (js "c1") (js "d") 2000 code_world) in
  let again := snd (post_exchange demo_hash host_env host_url host_json Demo.demo_bytes Demo.demo_es256
    Demo.demo_sha (request [] (js "h.j/api/extension/token/exchange.s") (js "/")) true
    {| gt_denied := false; gt_blocked := false |} (js "code") 2000 2000 (js "1") (js "f") (js "p")
    code_world w' (fun w => w) Demo.demo_cache) in
  fst again = w'.
Proof.
  intros w' again.
  refine (proj1 (bridge_code_single_use demo_hash host_env host_url host_json Demo.demo_bytes Demo.demo_es256
    Demo.demo_sha [code_world; demo_world] [] code_world (js "c1") (js "d") 2000 w' _ (js "code")
    _ _ _ _ _ _ _ _ _ _ _ _ code_world w' (fun w => w) Demo.demo_cache _ _)).
  - vm_compute. reflexivity.
  - vm_compute. reflexivity.
  - reflexivity.
  - apply run_step; [apply run_step; [apply run_start; reflexivity|]|].
    + apply (step_code demo_hash _ _ (js "u") (js "t") (js "d") 1000 (js "c1") (js "code")).
      vm_compute. reflexivity.
    + apply step_consume.
  - apply elem_of_cons. right. apply elem_of_cons. left. reflexivity.
  - apply elem_of_cons. left. reflexivity.
Defined.

(** ** The cap on active tokens *)

Section Cap.
Context {row : Type} (created : row -> Z).
Implicit Types (p : row -> bool) (f : row -> row) (t : gmap jsstr row).

Lemma find_oldest_first_perm p t : find_oldest_first created p t ≡ₚ map_to_list (select p t).
Proof.
  unfold find_oldest_first. rewrite merge_sort_Permutation. apply NoDup_Permutation.
  - apply NoDup_ListNoDup, List.NoDup_filter, NoDup_ListNoDup, NoDup_map_to_list.
  - apply NoDup_map_to_list.
  - intros [k r]. rewrite list_elem_of_In, filter_In, <- list_elem_of_In, !elem_of_map_to_list, select_lookup.
    done.
Qed.

Lemma find_oldest_first_length p t : length (find_oldest_first created p t) = size (select p t).
Proof. by rewrite find_oldest_first_perm, length_map_to_list. Qed.

(** The rows that stay counted are those that were not evicted. *)
Lemma evict_for_count cap n p f t :
  (forall r, p (f r) = false) -> (n <= cap)%nat ->
  (size (select p (evict_for created cap n p f t)) + n <= cap)%nat
  \/ evict_for created cap n p f t = t /\ (size (select p t) + n <= cap)%nat.
Proof.
  intros Hf Hn. unfold evict_for. set (active := find_oldest_first created p t).
  set (m := (length active + n - cap)%nat).
  assert (Hlen : length active = size (select p t)) by apply find_oldest_first_length.
  destruct (decide (m = 0%nat)) as [Hm|Hm].
  { right. rewrite Hm. simpl. split; [|lia]. apply map_eq. intros k. rewrite update_in_lookup.
    by destruct (t !! k). }
  left. set (ids := map fst (take m active)).
  assert (Hnd : NoDup ids).
  { unfold ids. assert (Hall : NoDup (map fst active)).
    { unfold active. rewrite (Permutation_map fst (find_oldest_first_perm p t)).
      apply NoDup_fst_map_to_list. }
    rewrite <- (take_drop m active), map_app in Hall. by apply NoDup_app in Hall as [? _]. }
  assert (Hin : forall k, k ∈ ids -> k ∈ dom (select p t)).
  { intros k ([k' r] & -> & Hk)%list_elem_of_fmap. apply elem_of_dom. exists r.
    apply elem_of_map_to_list. rewrite <- find_oldest_first_perm.
    by eapply elem_of_subseteq; [apply subseteq_take|]. }
  assert (Hdom : dom (select p (update_in ids f t)) = dom (select p t) ∖ list_to_set ids).
  { apply set_eq. intros k. rewrite elem_of_difference, elem_of_list_to_set, !elem_of_dom. unfold is_Some.
    setoid_rewrite select_lookup. setoid_rewrite update_in_lookup. split.
    - intros (r & Hk & Hp). destruct (t !! k) as [r0|] eqn:E; simplify_eq/=. case_bool_decide as Hd.
      + by rewrite Hf in Hp.
      + split; [by exists r0|done].
    - intros [(r & Hk & Hp) Hd]. exists r. rewrite Hk. simpl. by rewrite bool_decide_false. }
  rewrite <- size_dom, Hdom, size_difference, size_list_to_set, size_dom by
    (done || (intros k Hk; apply Hin; by apply elem_of_list_to_set in Hk)).
  unfold ids. rewrite length_map, length_take. lia.
Qed.

(** Whatever was evicted is no younger than what is still counted. *)
Lemma evict_for_oldest cap n p f t k k' r r' :
  (forall r, p (f r) = false) -> t !! k = Some r -> p r = true -> evict_for created cap n p f t !! k <> Some r ->
  evict_for created cap n p f t !! k' = Some r' -> p r' = true -> created r <= created r'.
Proof.
  intros Hf Hk Hp Hev Hk' Hp'. unfold evict_for in *. set (active := find_oldest_first created p t) in *.
  set (m := (length active + n - cap)%nat) in *. rewrite update_in_lookup in Hev, Hk'. rewrite Hk in Hev.
  simpl in Hev. destruct (bool_decide (k ∈ map fst (take m active))) eqn:Hd; [apply bool_decide_eq_true in Hd|by destruct Hev].
  destruct (t !! k') as [r0|] eqn:E'; [|done]. simpl in Hk'. injection Hk' as Hk'.
  case_bool_decide as Hd'; [subst r'; by rewrite Hf in Hp'|]. subst r0.
  assert (Hsort : StronglySorted (created_le created) active).
  { apply StronglySorted_merge_sort; intros ?; unfold created_le; [intros ? ?; lia|intros ?; lia]. }
  assert (Hin' : (k', r') ∈ drop m active).
  { assert (Hin : (k', r') ∈ active).
    { unfold active. rewrite find_oldest_first_perm. by apply elem_of_map_to_list, select_lookup. }
    rewrite <- (take_drop m active) in Hin. apply elem_of_app in Hin as [Hin|?]; [|done].
    destruct Hd'. by apply (list_elem_of_fmap_2 fst _ _ Hin). }
  apply list_elem_of_fmap in Hd as ([k0 r0] & Heq & Hin). simpl in Heq. subst k0.
  assert (r0 = r) as ->.
  { assert (Ha : (k, r0) ∈ active) by (by eapply elem_of_subseteq; [apply subseteq_take|]).
    unfold active in Ha. rewrite find_oldest_first_perm in Ha.
    apply elem_of_map_to_list, select_lookup in Ha as [Ha _]. congruence. }
  rewrite <- (take_drop m active) in Hsort.
  exact (StronglySorted_app_1_elem_of _ _ _ _ _ Hsort Hin Hin').
Qed.
End Cap.

Lemma counts_for_revoked ctx userId now now' r : counts_for ctx userId now (revoke_token now' r) = false.
Proof. unfold counts_for, active_token. simpl. by rewrite !andb_false_r. Qed.

Lemma select_insert_size {row} (p : row -> bool) (k : jsstr) (r : row) (t : gmap jsstr row) :
  t !! k = None -> (size (select p (<[k := r]> t)) <= size (select p t) + 1)%nat.
Proof.
  intros Hk. unfold select. destruct (p r) eqn:E.
  - rewrite map_filter_insert_True by done. rewrite map_size_insert. case_match; unfold id; lia.
  - rewrite map_filter_insert_False by (simpl; congruence). rewrite delete_id by done. lia.
Qed.

(** After a browser token is issued the user has at most three active tokens in
    the tenant, the new one among them; the tokens revoked to make room were active
    and no younger than those that stay. *)
Theorem issue_respects_cap hashToken userId tenantId scope cnfJkt now id familyId plain w0 w x
    (Hissued : snd (issueExtensionToken hashToken userId tenantId scope cnfJkt now id familyId plain w0 w)
               = Ok x) :
  let t := xw_tokens w in
  let t' := xw_tokens (fst (issueExtensionToken hashToken userId tenantId scope cnfJkt now id familyId
                              plain w0 w)) in
  (size (select (counts_for tenantId userId now) t') <= EXTENSION_TOKEN_MAX_ACTIVE)%nat /\
  (exists r, t' !! id = Some r /\ et_tokenHash r = hashToken plain /\ et_userId r = userId /\
     et_cnfJkt r = Some cnfJkt /\ et_scope r = scope /\ et_revokedAt r = None) /\
  forall k r, t !! k = Some r ->
    t' !! k = Some r \/
    (t' !! k = Some (revoke_token now r) /\ counts_for tenantId userId now r = true /\
     forall k' r', k' <> id -> t' !! k' = Some r' -> counts_for tenantId userId now r' = true ->
       et_createdAt r <= et_createdAt r').
Proof.
  unfold issueExtensionToken in *. destruct (xw_tenants w0 !! tenantId) as [tn|]; [|done].
  destruct (commit _ _) as [w' r] eqn:E. simpl in *.
  apply commit_user_cases in E as [(e & -> & ->)|(ctx & t0 & a & (t' & Hc & [= <- <-])%bind_Ok_inv & -> & ->)];
    [done|]. simpl.
  destruct (create_token_Ok _ _ _ _ _ Hc) as (Ht & Hn & _ & ->). simpl in Ht. subst ctx.
  set (p := counts_for tenantId userId now) in *. set (t := xw_tokens w) in *.
  set (ev := evict_for _ _ _ _ _ t) in *.
  assert (Hcount : (size (select p ev) + 1 <= EXTENSION_TOKEN_MAX_ACTIVE)%nat).
  { destruct (evict_for_count et_createdAt EXTENSION_TOKEN_MAX_ACTIVE 1 p (revoke_token now) t) as [?|[He ?]];
      [intros r; apply counts_for_revoked|unfold EXTENSION_TOKEN_MAX_ACTIVE; lia|done|]. unfold ev. by rewrite He. }
  split_and!.
  - etransitivity; [by apply select_insert_size|exact Hcount].
  - eexists. rewrite lookup_insert_eq. split; [done|]. by split_and!.
  - intros k r Hk. assert (k <> id).
    { intros ->. unfold ev, evict_for in Hn. rewrite update_in_lookup, Hk in Hn. done. }
    rewrite lookup_insert_ne by done.
    assert (Hev : ev !! k = Some r \/ ev !! k = Some (revoke_token now r) /\ p r = true).
    { unfold ev, evict_for. rewrite update_in_lookup, Hk. simpl. case_bool_decide as Hd; [|by left].
      right. split; [done|]. apply list_elem_of_fmap in Hd as ([k0 r0] & Heq & Hin). simpl in Heq. subst k0.
      assert (Ha : (k, r0) ∈ find_oldest_first et_createdAt p t)
        by (by eapply elem_of_subseteq; [apply subseteq_take|]).
      rewrite find_oldest_first_perm in Ha. apply elem_of_map_to_list, select_lookup in Ha as [Ha Hp].
      congruence. }
    destruct Hev as [?|[Hev Hp]]; [by left|]. right. split_and!; [done|done|].
    intros k' r' Hne Hk' Hp'. rewrite lookup_insert_ne in Hk' by done.
    eapply (evict_for_oldest et_createdAt _ _ p (revoke_token now)); [|exact Hk|done| |exact Hk'|done].
    + intros ?. apply counts_for_revoked.
    + fold ev. rewrite Hev. intros Heq. injection Heq as Heq. apply (f_equal et_revokedAt) in Heq. simpl in Heq.
      unfold p, counts_for, active_token in Hp. rewrite <- Heq in Hp. simpl in Hp. by rewrite andb_false_r in Hp.
Qed.

(** Three active tokens and a fourth: the oldest goes. *)
Lemma issue_respects_cap_witness :
  let w3 := issue 3000 (js "3") (js "i") (js "c") (issue 2000 (js "2") (js "g") (js "b")
              (issue 1000 (js "1") (js "f") (js "a") demo_world)) in
  (size (select (counts_for (js "t") (js "u") 4000)
          (xw_tokens (issue 4000 (js "4") (js "j") (js "d") w3))) <= EXTENSION_TOKEN_MAX_ACTIVE)%nat.
Proof.
  intros w3. eapply (proj1 (issue_respects_cap demo_hash (js "u") (js "t") (js "passwords:read") (js "k")
    4000 (js "4") (js "j") (js "d") w3 w3 _ _)).
  Unshelve.
  2: { vm_compute. reflexivity. }
Defined.

(** ** Rotation of the iOS pair *)

Section IosRotation.
Context (hashToken : jsstr -> jsstr).
Abbreviation refresh_ios := (refreshIosToken hashToken).

Lemma revoke_family_revoked f now w k x :
  xw_tokens (fst (revokeExtensionTokenFamily f now w)) !! k = Some x -> et_familyId x = f ->
  is_set (et_revokedAt x) = true.
Proof.
  unfold revokeExtensionTokenFamily. cbn [fst updateMany xw_tokens set_tokens]. rewrite lookup_fmap.
  destruct (xw_tokens w !! k) as [r|]; simpl; intros H; simplify_eq.
  destruct (et_familyId r =s f) eqn:Ef, (is_set (et_revokedAt r)) eqn:E; simpl; intros Hf; try done.
  bools. done.
Qed.

(** A refresh token that is presented after its revocation, other than in the
    byte-identical retry within five seconds of its rotation, is refused, changes no
    cached rotation, and leaves every token of its family revoked. *)
Theorem ios_reuse_revokes_family req bodyHash oldRow cnfJkt now e w1 w rot
    (Hrevoked : is_set (et_revokedAt oldRow) = true)
    (Hretry : forall c, map_get rot (rotationKey (et_tokenHash oldRow)) = Some c ->
       REFRESH_REPLAY_GRACE_MS < now - ro_issuedAt c \/ ro_bodyHash c <> bodyHash) :
  let r := refresh_ios req bodyHash oldRow cnfJkt now e w1 w rot in
  snd (snd r) = Ok (inl REFRESH_REPLAY_DETECTED) /\ fst r = rot /\
  forall k x, xw_tokens (fst (snd r)) !! k = Some x -> et_familyId x = et_familyId oldRow ->
    is_set (et_revokedAt x) = true.
Proof.
  intros r. unfold r, refreshIosToken. rewrite Hrevoked.
  assert (Hgoal : forall w', w' = fst (revokeExtensionTokenFamily (et_familyId oldRow) now w) ->
    forall k x, xw_tokens w' !! k = Some x -> et_familyId x = et_familyId oldRow ->
      is_set (et_revokedAt x) = true) by (intros w' -> k x; apply revoke_family_revoked).
  destruct (map_get rot _) as [c|] eqn:Ec; [|split_and!; [done|done|by apply Hgoal]].
  destruct ((now - ro_issuedAt c <=? REFRESH_REPLAY_GRACE_MS) && (ro_bodyHash c =s bodyHash)) eqn:Er;
    [|split_and!; [done|done|by apply Hgoal]].
  bools. destruct (Hretry c eq_refl); [lia|done].
Qed.

(** A rotation that no other request interleaves with leaves exactly the new pair
    unrevoked in the family; the pair keeps the owner, the key and the birth time. *)
Theorem ios_rotation_exact req bodyHash oldRow cnfJkt now e w1 w rot tok
    (Hlive : et_revokedAt oldRow = None)
    (Halone : forall v, ie_others e v = v)
    (Hfamily : forall k x, xw_tokens w !! k = Some x -> et_familyId x = et_familyId oldRow ->
       et_userId x = et_userId oldRow /\ et_tenantId x = et_tenantId oldRow)
    (Hrotated : snd (snd (refresh_ios req bodyHash oldRow cnfJkt now e w1 w rot)) = Ok (inr tok)) :
  let t := xw_tokens (fst (snd (refresh_ios req bodyHash oldRow cnfJkt now e w1 w rot))) in
  now - et_familyCreatedAt oldRow <= IOS_TOKEN_ABSOLUTE_TIMEOUT_MS /\
  (forall k x, t !! k = Some x -> et_familyId x = et_familyId oldRow ->
     et_revokedAt x = None <-> k = ie_accessId e \/ k = ie_refreshId e) /\
  forall k, k = ie_accessId e \/ k = ie_refreshId e ->
    exists x, t !! k = Some x /\ et_familyId x = et_familyId oldRow /\ et_userId x = et_userId oldRow /\
      et_cnfJkt x = Some cnfJkt /\ et_familyCreatedAt x = et_familyCreatedAt oldRow /\ et_revokedAt x = None.
Proof.
  unfold refreshIosToken in *. rewrite Hlive in *. simpl in *.
  destruct (IOS_TOKEN_ABSOLUTE_TIMEOUT_MS <? _) eqn:Ea; [done|].
  destruct (ext_passkey_gate _ _ _ _) as [[]|]; try done.
  destruct (ios_revoke_family oldRow now w) as [w2 [[]|]] eqn:Er; [|done].
  destruct (issueIosToken _ _ _ _ _ _ _ _ _ _ _ _ _) as [w3 issued] eqn:Ei.
  destruct issued as [tok'|]; [|done]. simpl in *. bools.
  unfold issueIosToken in Ei. rewrite Halone in Ei.
  apply commit_user_tenant in Ei as [(x & ? & _)|(ctx & t0 & a & Hres & Hf & _ & ->)]; [done|].
  apply bind_Ok_inv in Hf as (t1 & H1 & (t2 & H2 & [= <- <-])%bind_Ok_inv). simpl.
  unfold ios_revoke_family in Er.
  apply commit_user_tenant in Er as [(x & ? & _)|(ctx' & t' & u & Hres' & [= <- <-] & _ & ->)]; [done|].
  assert (ctx' = ctx) as -> by (unfold resolveUserTenantId in *; simpl in *; congruence).
  simpl in H1. set (tr := _ <$> xw_tokens w) in H1.
  set (tv := evict_for _ _ _ _ _ tr) in *.
  destruct (create_token_Ok _ _ _ _ _ H1) as (Hctx & Hn1 & _ & ->). simpl in Hctx.
  destruct (create_token_Ok _ _ _ _ _ H2) as (_ & Hn2 & _ & ->).
  assert (Hold : forall k x, tv !! k = Some x -> et_familyId x = et_familyId oldRow ->
            et_revokedAt x = None -> False).
  { assert (Hq : quiet tr tv) by (apply quiet_evict, row_evolves_revoke).
    intros k x Hk Hfx Hrx. destruct (proj2 Hq k x Hk) as (y & Hy & Hev).
    assert (Hyr : et_revokedAt y = None).
    { unfold row_evolves in Hev. destruct_and!. rewrite Hrx in *. destruct (et_revokedAt y); naive_solver. }
    unfold tr in Hy. rewrite lookup_fmap in Hy.
    destruct (xw_tokens w !! k) as [z|] eqn:Ez; [|done]. simpl in Hy. injection Hy as Hy.
    destruct (_ && _) eqn:Ew in Hy; subst y; [done|].
    assert (Hzf : et_familyId z = et_familyId oldRow) by (unfold row_evolves in Hev; destruct_and!; congruence).
    destruct (Hfamily k z Ez Hzf) as [Hzu Hzt].
    rewrite Hyr, Hzf, Hzu, Hzt, Hctx, !bool_decide_true in Ew by done. done. }
  split_and!; [done| |].
  - intros k x Hk Hfx. apply lookup_insert_Some in Hk as [[<- <-]|[Hne2 Hk]]; [naive_solver|].
    apply lookup_insert_Some in Hk as [[<- <-]|[Hne1 Hk]]; [naive_solver|].
    split; [|intros [->| ->]; done]. intros Hr. by destruct (Hold k x Hk Hfx Hr).
  - intros k Hk. destruct (decide (k = ie_refreshId e)) as [->|Hne].
    + rewrite lookup_insert_eq. by eexists.
    + destruct Hk as [->|]; [|done]. rewrite lookup_insert_ne, lookup_insert_eq by done. by eexists.
Qed.
End IosRotation.

Module ExtDemo4.
(** An iOS pair of user [u], family [f], in the demo tenant. *)
Definition ios_world : ext_world :=
  fst (issueIosToken demo_hash (js "u") (js "t") (js "d") (inl (js "f")) 1000 None None
         (js "a0") (js "r0") (js "pa") (js "pr") demo_world).
Definition ios_row : ext_token :=
  new_token (js "u") (js "t") (js "#pr") (js_join (js ",") IOS_TOKEN_DEFAULT_SCOPES)
    (1000 + IOS_TOKEN_ABSOLUTE_TIMEOUT_MS) 1000 (js "f") 1000 IOS_APP (js "d") never_used.
Definition ios_env (n : jsstr) (now : Z) (others : ext_world -> ext_world) : ios_refresh_env :=
  {| ie_accessId := js "a" ++ n; ie_refreshId := js "r" ++ n; ie_accessPlain := js "xa" ++ n;
     ie_refreshPlain := js "xr" ++ n; ie_now' := now; ie_others := others |}.
Definition ios_request : ext_request := request [] [] (js "/").
(** A refresh of the row as it was read in [ios_world]. *)
Definition ios_refresh (n bodyHash : jsstr) (now : Z) (others : ext_world -> ext_world) (w : ext_world) :=
  refreshIosToken demo_hash ios_request bodyHash ios_row (js "d") now (ios_env n now others) w w [].
Definition unrevoked (w : ext_world) (k : jsstr) : bool :=
  match xw_tokens w !! k with Some r => negb (is_set (et_revokedAt r)) | None => false end.
End ExtDemo4.
Import ExtDemo4.

Lemma ios_reuse_revokes_family_witness :
  let w := fst (snd (ios_refresh (js "1") (js "b") 2000 (fun v => v) ios_world)) in
  let r := refreshIosToken demo_hash ios_request (js "b") (revoke_token 2000 ios_row) (js "d") 9000
             (ios_env (js "2") 9000 (fun v => v)) w w
             (fst (ios_refresh (js "1") (js "b") 2000 (fun v => v) ios_world)) in
  snd (snd r) = Ok (inl REFRESH_REPLAY_DETECTED).
Proof.
  intros w r. refine (proj1 (ios_reuse_revokes_family demo_hash ios_request (js "b") (revoke_token 2000 ios_row)
    (js "d") 9000 (ios_env (js "2") 9000 (fun v => v)) w w _ _ _)).
  - reflexivity.
  - intros c Hc. left. vm_compute in Hc. injection Hc as Hc. subst c. vm_compute. reflexivity.
Defined.

Lemma ios_rotation_exact_witness :
  let r := ios_refresh (js "1") (js "b") 2000 (fun v => v) ios_world in
  exists x, xw_tokens (fst (snd r)) !! js "r1" = Some x /\ et_revokedAt x = None /\
    et_cnfJkt x = Some (js "d").
Proof.
  intros r.
  edestruct (ios_rotation_exact demo_hash ios_request (js "b") ios_row (js "d") 2000
    (ios_env (js "1") 2000 (fun v => v)) ios_world ios_world []) as (_ & _ & Hnew).
  - reflexivity.
  - reflexivity.
  - intros k x Hk _.
    assert (Hw : xw_tokens ios_world = {[ js "a0" := new_token (js "u") (js "t") (js "#pa")
        (js_join (js ",") IOS_TOKEN_DEFAULT_SCOPES) (1000 + IOS_TOKEN_IDLE_TIMEOUT_MS) 1000 (js "f") 1000
        IOS_APP (js "d") never_used; js "r0" := ios_row ]}) by (vm_compute; reflexivity).
    rewrite Hw in Hk. apply lookup_insert_Some in Hk as [[_ <-]|[_ Hk]]; [split; reflexivity|].
    apply lookup_singleton_Some in Hk as [_ <-]. split; reflexivity.
  - vm_compute. reflexivity.
  - destruct (Hnew (js "r1")) as (x & Hx & _ & _ & Hc & _ & Hr); [right; reflexivity|].
    exists x. split; [exact Hx|]. split; [exact Hr|exact Hc].
Defined.

(** The rotation of an iOS pair revokes and issues in two transactions and claims
    nothing: when a second refresh of the same token runs between them both succeed,
    and a token of the second pair stays valid beside the first pair; and a revocation
    of the family that runs between them is outlived by the new pair. *)
Theorem ios_rotation_race :
  let second v := fst (snd (ios_refresh (js "2") (js "b2") 2000 (fun v => v) v)) in
  let both := ios_refresh (js "1") (js "b1") 2000 second ios_world in
  let signout v := fst (revokeExtensionTokenFamily (js "f") 2000 v) in
  let out := ios_refresh (js "1") (js "b1") 2000 signout ios_world in
  (is_ok (snd (snd both)) = true /\ unrevoked (fst (snd both)) (js "a1") = true /\
   unrevoked (fst (snd both)) (js "r1") = true /\
   unrevoked (fst (snd both)) (js "a2") || unrevoked (fst (snd both)) (js "r2") = true) /\
  (is_ok (snd (snd out)) = true /\ unrevoked (fst (snd out)) (js "a1") = true /\
   unrevoked (fst (snd out)) (js "r1") = true).
Proof. vm_compute. split_and!; reflexivity. Qed.

(** The refresh route of the browser extension rotates a token of any client
    kind into a browser token with the tenant's idle time-out, so that a five-minute
    AutoFill token becomes a token of seven days. *)
Theorem refresh_forgets_client_kind hashToken env URL decode_json decode_bytes verifyEs256 sha256_base64url
    {C} `{JtiCache C} req gates now now' id plain w0 w1 w (cache : C) x
    (Hok : snd (snd (post_extension_refresh hashToken env URL decode_json decode_bytes verifyEs256
             sha256_base64url req gates now now' id plain w0 w1 w cache)) = Ok (inr x)) :
  exists k r r' tn, xw_tokens w0 !! k = Some r /\
    xw_tokens (fst (snd (post_extension_refresh hashToken env URL decode_json decode_bytes verifyEs256
             sha256_base64url req gates now now' id plain w0 w1 w cache))) !! id = Some r' /\
    xw_tenants w1 !! et_tenantId r' = Some tn /\ et_clientKind r' = BROWSER_EXTENSION /\
    et_expiresAt r' = now' + default EXTENSION_TOKEN_IDLE_TIMEOUT_DEFAULT (tn_idleMinutes tn) * EXT_MS_PER_MINUTE /\
    et_familyId r' = et_familyId r /\ et_familyCreatedAt r' = et_familyCreatedAt r /\
    et_cnfJkt r' = et_cnfJkt r.
Proof.
  unfold post_extension_refresh in *.
  destruct (validateExtensionToken _ _ _ _ _ _ _ _ _ _ _ _) as [cache' v] eqn:Ev. simpl in *.
  destruct v as [[e|d]|]; try done. destruct (gt_denied gates); [done|]. destruct (gt_blocked gates); [done|].
  destruct (check_ext_refresh d now' w1) as [[e|f|tenantId expiresAt]|] eqn:Ec; try done.
  apply (f_equal snd) in Ev. simpl in Ev.
  apply validate_row in Ev as (p & k & r & jkt & _ & Hk & _ & _ & _ & _ & Hjkt & -> & _).
  apply check_ext_refresh_Rotate in Ec as (tn & Htn & -> & _).
  destruct (refresh_tx_tokens hashToken (validated k r jkt) tenantId
    (now' + default EXTENSION_TOKEN_IDLE_TIMEOUT_DEFAULT (tn_idleMinutes tn) * EXT_MS_PER_MINUTE) now' id plain w)
    as [[_ Hno] | (ctx & r0 & t & _ & _ & Hcr & Hw)]; [by destruct (Hno x)|].
  apply create_token_Ok in Hcr as (_ & _ & _ & ->).
  exists k, r. eexists. exists tn. rewrite Hw. simpl. rewrite lookup_insert_eq. simpl. by split_and!.
Qed.

(** The AutoFill token of the schema's comment, refreshed. *)
Lemma refresh_forgets_client_kind_witness :
  let w := fst (issueAutofillToken demo_hash (js "u") (js "t") (js "d") 2000 (js "1") (js "f") (js "p")
                  demo_world) in
  let r := snd (post_extension_refresh demo_hash host_env host_url host_json Demo.demo_bytes Demo.demo_es256
    Demo.demo_sha bound_request {| gt_denied := false; gt_blocked := false |} 2500 2500 (js "2") (js "q")
    w w w Demo.demo_cache) in
  (et_clientKind <$> xw_tokens w !! js "1") = Some IOS_AUTOFILL /\
  (et_expiresAt <$> xw_tokens w !! js "1") = Some (2000 + 300000) /\
  exists r', xw_tokens (fst r) !! js "2" = Some r' /\ et_clientKind r' = BROWSER_EXTENSION /\
    (et_expiresAt <$> xw_tokens (fst r) !! js "2") = Some (2500 + 604800000).
Proof.
  intros w r. split; [vm_compute; reflexivity|]. split; [vm_compute; reflexivity|].
  edestruct (refresh_forgets_client_kind demo_hash host_env host_url host_json Demo.demo_bytes Demo.demo_es256
    Demo.demo_sha bound_request {| gt_denied := false; gt_blocked := false |} 2500 2500 (js "2") (js "q")
    w w w Demo.demo_cache) as (k & r0 & r' & tn & _ & Hr' & _ & Hkind & _).
  - vm_compute. reflexivity.
  - exists r'. split; [exact Hr'|]. split; [exact Hkind|vm_compute; reflexivity].
Defined.

(** ** Sign out everywhere *)

Lemma revoke_families_spec fams now : forall w total k,
  xw_tokens (fst (revoke_families fams now w total)) !! k =
  (fun r => if bool_decide (et_familyId r ∈ fams) && negb (is_set (et_revokedAt r))
            then revoke_token now r else r) <$> xw_tokens w !! k.
Proof.
  induction fams as [|f fams IH]; intros w total k; simpl; [by destruct (xw_tokens w !! k)|].
  rewrite IH. simpl. rewrite lookup_fmap. destruct (xw_tokens w !! k) as [r|]; [|done]. simpl. f_equal.
  destruct (is_set (et_revokedAt r)) eqn:Er; rewrite ?andb_false_r; simpl; rewrite ?Er; rewrite ?andb_false_r; [done|].
  rewrite !andb_true_r. destruct (et_familyId r =s f) eqn:Ef; simpl.
  - rewrite andb_false_r. apply bool_decide_eq_true in Ef. by rewrite bool_decide_true by set_solver.
  - rewrite Er, andb_true_r. apply bool_decide_eq_false in Ef.
    by rewrite (bool_decide_ext _ (et_familyId r ∈ f :: fams)) by set_solver.
Qed.

(** Signing out everywhere revokes every token of the user, together with the
    rest of the families they belong to, and nothing else. *)
Theorem revoke_all_exact userId now w k r (Hrow : xw_tokens w !! k = Some r) :
  exists r', xw_tokens (fst (revokeAllExtensionTokensForUser userId now w)) !! k = Some r' /\
  (et_userId r = userId -> is_set (et_revokedAt r') = true) /\
  (r' <> r -> r' = revoke_token now r /\
     exists k2 r2, xw_tokens w !! k2 = Some r2 /\ et_userId r2 = userId /\ et_revokedAt r2 = None /\
       et_familyId r2 = et_familyId r).
Proof.
  unfold revokeAllExtensionTokensForUser.
  destruct (revoke_families _ _ _ _) as [w' n] eqn:E. apply (f_equal fst) in E. simpl in E. subst w'. simpl.
  rewrite revoke_families_spec, Hrow. simpl. eexists. split; [done|].
  assert (Hin : forall f, f ∈ active_families userId (xw_tokens w) <->
    exists k2 r2, xw_tokens w !! k2 = Some r2 /\ et_userId r2 = userId /\ et_revokedAt r2 = None /\
      et_familyId r2 = f).
  { intros f. unfold active_families. rewrite elem_of_remove_dups, list_elem_of_fmap. split.
    - intros ([k2 r2] & -> & Hf). apply list_elem_of_In, filter_In in Hf as [Hf Hp]. simpl in Hp. bools.
      apply list_elem_of_In, elem_of_map_to_list in Hf. exists k2, r2. by destruct (et_revokedAt r2).
    - intros (k2 & r2 & Hk2 & Hu & Hr & <-). exists (k2, r2). split; [done|].
      apply list_elem_of_In, filter_In. split; [by apply list_elem_of_In, elem_of_map_to_list|].
      simpl. by rewrite Hu, Hr, bool_decide_true. }
  destruct (is_set (et_revokedAt r)) eqn:Er; rewrite ?andb_false_r, ?andb_true_r; simpl.
  - by split.
  - case_bool_decide as Hd.
    + split; [done|]. intros _. split; [done|]. by apply Hin.
    + split; [|done]. intros Hu. destruct Hd. apply Hin. exists k, r.
      by destruct (et_revokedAt r).
Qed.

Lemma revoke_all_exact_witness :
  exists r', xw_tokens (fst (revokeAllExtensionTokensForUser (js "u") 5000 bound_world)) !! js "1" = Some r' /\
    is_set (et_revokedAt r') = true.
Proof.
  edestruct (revoke_all_exact (js "u") 5000 bound_world (js "1")) as (r' & Hk & Hr & _);
    [vm_compute; reflexivity|].
  exists r'. split; [exact Hk|]. apply Hr. reflexivity.
Defined.
