(* ===== verification/DirectoryProviders.v ===== *)
(** * Directory providers

    The provider clients of src/src/lib/directory-sync/ (azure-ad.ts,
    google-workspace.ts, okta.ts), the error sanitiser (sanitize.ts) and
    fetchProviderUsers of engine.ts.  A client is a program over the requests it
    has sent: the network is a parameter that answers a request given the requests
    sent before it.  A response body has the type the source casts it to; the URL
    parser, the RSA signature and the base64url encoding are parameters. *)

From S2P Require Import Prelude JsString JsNumber JsJson Dpop.
Local Open Scope Z_scope.

(** ** Requests *)

Record http_request := {
  rq_url : jsstr; rq_authorization : option jsstr; rq_body : option jsstr }.

(** What [fetch] and the reading of the body give: a rejected promise, an error
    status with its text, or a body with the value of the Link header. *)
Inductive http_reply (B : Type) :=
| HttpReject (message : jsstr)
| HttpStatus (status : Z) (text : option jsstr)
| HttpJson (body : B) (link : option jsstr).
Arguments HttpReject {B}. Arguments HttpStatus {B}. Arguments HttpJson {B}.

Definition network (B : Type) : Type := list http_request -> http_request -> http_reply B.

(** A program that sends requests; a thrown Error is its message. *)
Definition io (A : Type) : Type := st (list http_request) jsstr A.

Definition DIRECTORY_SYNC_MAX_PAGES : nat := 1000.
Definition DIRECTORY_SYNC_ERROR_PREVIEW : nat := 200.

(** [fetch(...)], then the test of [res.ok] and [res.json()]. *)
Definition fetch_json {B} (net : network B) (what : jsstr) (rq : http_request) : io (B * option jsstr) :=
  fun log =>
    (log ++ [rq],
     match net log rq with
     | HttpReject message => Throw message
     | HttpStatus status text =>
         Throw (what ++ js " request failed (" ++ js_of_Z status ++ js "): "
                ++ take DIRECTORY_SYNC_ERROR_PREVIEW (default [] text))
     | HttpJson body link => Ok (body, link)
     end).

(** The loop of every listing.  [left] is the number of pages still allowed, so
    that [++pages > DIRECTORY_SYNC_MAX_PAGES] is [left = 0]; [next] reads the next
    cursor off a response and validates it, [None] ends the loop. *)
Fixpoint page_loop {B C A} (net : network B) (what : jsstr) (mk : C -> http_request)
    (items : B -> io (list A)) (next : B -> option jsstr -> outcome jsstr (option C))
    (left : nat) (cursor : C) (acc : list A) : io (list A) :=
  match left with
  | O => st_throw (what ++ js " pagination exceeded " ++ js_of_Z (Z.of_nat DIRECTORY_SYNC_MAX_PAGES)
                   ++ js " pages")
  | S left' =>
      let! page := fetch_json net what (mk cursor) in
      let! xs := items (fst page) in
      let! cursor' := st_lift (next (fst page) (snd page)) in
      match cursor' with
      | None => st_ret (acc ++ xs)
      | Some c => page_loop net what mk items next left' c (acc ++ xs)
      end
  end.

(** The properties of [URLSearchParams] and [encodeURIComponent]: the UTF-8 bytes
    outside a set of units are percent-encoded. *)
Definition is_alnum (c : Z) : bool :=
  is_digit c || ((65 <=? c) && (c <=? 90)) || ((97 <=? c) && (c <=? 122)).
Definition upper_hex (d : Z) : Z := if d <? 10 then 48 + d else 55 + d.
Definition percent (b : Z) : jsstr := [37; upper_hex (b / 16); upper_hex (b mod 16)].

(** One name or value of [URLSearchParams.toString]. *)
Definition form_encode (s : jsstr) : jsstr :=
  concat (map (fun b => if is_alnum b || js_has b (js "*-._") then [b]
                        else if b =? 32 then [43] else percent b) (js_utf8 s)).
Definition search_params (l : list (jsstr * jsstr)) : jsstr :=
  js_join (js "&") (map (fun kv => form_encode (fst kv) ++ js "=" ++ form_encode (snd kv)) l).

(** [encodeURIComponent] throws on a lone surrogate. *)
Definition encodeURIComponent (s : jsstr) : outcome jsstr jsstr :=
  if js_well_formed s
  then Ok (concat (map (fun b => if is_alnum b || js_has b (js "-_.!~*'()") then [b] else percent b)
                       (js_utf8 s)))
  else Throw (js "URI malformed").

(** ** Validation *)

Definition OKTA_ORG_RE (s : jsstr) : bool :=
  js_starts_with (js "https://") s &&
  match js_split (js ".") (drop 8 s) with
  | sub :: dom :: com :: [] =>
      negb (sub =s []) && forallb (fun c => is_alnum c || (c =? 45)) sub
      && ((dom =s js "okta") || (dom =s js "oktapreview")) && (com =s js "com/")
  | _ => false
  end.

Definition validateOrgUrl (orgUrl : jsstr) : outcome jsstr unit :=
  if OKTA_ORG_RE orgUrl then Ok tt
  else Throw (js "Invalid Okta org URL: expected " ++ [34] ++ js "https://<subdomain>.okta.com/"
              ++ [34] ++ js ", got " ++ [34] ++ take 80 orgUrl ++ [34]).

Definition AZURE_UUID_RE (s : jsstr) : bool :=
  (List.length s =? 36)%nat && forallb (fun c => is_hex_digit (lower_unit c) || (c =? 45)) s.

Definition validateTenantId (tenantId : jsstr) : outcome jsstr unit :=
  if AZURE_UUID_RE tenantId then Ok tt
  else Throw (js "Invalid Azure AD tenant ID: expected UUID, got " ++ [34] ++ take 40 tenantId ++ [34]).

(** A label of a domain: letters, digits and inner hyphens. *)
Definition domain_label (l : jsstr) : bool :=
  match l with
  | [] => false
  | c :: _ => is_alnum c && is_alnum (List.last l 0) && forallb (fun c => is_alnum c || (c =? 45)) l
  end.
Definition DOMAIN_RE (s : jsstr) : bool :=
  let labels := js_split (js ".") s in
  (2 <=? List.length labels)%nat && forallb domain_label labels.

Definition validateDomain (domain : jsstr) : outcome jsstr unit :=
  if DOMAIN_RE domain then Ok tt
  else Throw (js "Invalid Google Workspace domain: " ++ [34] ++ take 60 domain ++ [34]).

Definition GRAPH_ORIGIN : jsstr := js "https://graph.microsoft.com".

Definition origin_mismatch (expected got : jsstr) : jsstr :=
  js "Pagination URL origin mismatch: expected " ++ [34] ++ expected ++ [34] ++ js ", got "
  ++ [34] ++ got ++ [34].

(** The part of a Link header that [/<([^>]+)>;\s*rel="next"/] matches at the
    start of a string. *)
Fixpoint until_gt (s : jsstr) : option (jsstr * jsstr) :=
  match s with
  | [] => None
  | c :: s' => if c =? 62 then Some ([], s') else
               match until_gt s' with Some (u, r) => Some (c :: u, r) | None => None end
  end.
Definition next_link_at (s : jsstr) : option jsstr :=
  match s with
  | 60 :: s' =>
      match until_gt s' with
      | Some ((_ :: _) as u, 59 :: r) =>
          if js_starts_with (js "rel=" ++ [34] ++ js "next" ++ [34]) (drop_spaces r) then Some u else None
      | _ => None
      end
  | _ => None
  end.
Fixpoint next_link_in (s : jsstr) : option jsstr :=
  match next_link_at s with
  | Some u => Some u
  | None => match s with [] => None | _ :: s' => next_link_in s' end
  end.

Fixpoint first_some {A B} (f : A -> option B) (l : list A) : option B :=
  match l with [] => None | x :: l' => match f x with Some b => Some b | None => first_some f l' end end.

Definition parseNextLink (linkHeader : option jsstr) : option jsstr :=
  match linkHeader with
  | None | Some [] => None
  | Some h => first_some next_link_in (js_split (js ",") h)
  end.

(** ** Data of the providers *)

Record AzureAdUser := {
  az_id : jsstr; az_displayName : jsstr; az_mail : option jsstr; az_accountEnabled : bool }.
Record AzureAdGroup := { azg_id : jsstr; azg_displayName : jsstr; azg_members : list jsstr }.
Record GraphUserResponse := { gu_value : list AzureAdUser; gu_nextLink : option jsstr }.
Record GraphGroupResponse := { gg_value : list (jsstr * jsstr); gg_nextLink : option jsstr }.
Record GraphGroupMembersResponse := {
  gm_value : list (jsstr * jsstr); gm_nextLink : option jsstr }.

Record OktaUser := {
  ok_id : jsstr; ok_status : jsstr; ok_login : jsstr; ok_email : jsstr; ok_firstName : jsstr;
  ok_lastName : jsstr; ok_displayName : option jsstr }.
Record OktaGroup := { okg_id : jsstr; okg_name : jsstr; okg_description : option jsstr }.

Record GoogleUser := { go_id : jsstr; go_primaryEmail : jsstr; go_fullName : jsstr; go_suspended : bool }.
Record GoogleGroup := { gog_id : jsstr; gog_name : jsstr; gog_email : jsstr }.
(** [nextPageToken] is read with a test of its type. *)
Record GoogleUsersResponse := { gou_users : option (list GoogleUser); gou_nextPageToken : json }.
Record GoogleGroupsResponse := { goo_groups : option (list GoogleGroup); goo_nextPageToken : json }.

Record GoogleServiceAccount := { sa_client_email : jsstr; sa_private_key : jsstr }.

Record AzureAdCredentials := { azc_tenantId : jsstr; azc_clientId : jsstr; azc_clientSecret : jsstr }.
Record OktaCredentials := { okc_orgUrl : jsstr; okc_apiToken : jsstr }.
Record GoogleCredentials := {
  goc_serviceAccount : GoogleServiceAccount; goc_domain : jsstr; goc_adminEmail : jsstr }.

Record ProviderUser := {
  pu_externalId : jsstr; pu_email : jsstr; pu_displayName : jsstr; pu_active : bool }.

(** The network, one answer type per endpoint. *)
Record networks := {
  net_token : network (option jsstr);
  net_azure_users : network GraphUserResponse;
  net_azure_groups : network GraphGroupResponse;
  net_azure_members : network GraphGroupMembersResponse;
  net_okta_users : network (list OktaUser);
  net_okta_groups : network (list OktaGroup);
  net_google_users : network GoogleUsersResponse;
  net_google_groups : network GoogleGroupsResponse }.

Definition bearer (url token : jsstr) : http_request :=
  {| rq_url := url; rq_authorization := Some (js "Bearer " ++ token); rq_body := None |}.
Definition ssws (url apiToken : jsstr) : http_request :=
  {| rq_url := url; rq_authorization := Some (js "SSWS " ++ apiToken); rq_body := None |}.
Definition form_post (url : jsstr) (body : list (jsstr * jsstr)) : http_request :=
  {| rq_url := url; rq_authorization := None; rq_body := Some (search_params body) |}.

(** A response without [access_token], or with an empty one. *)
Definition access_token (missing : jsstr) (token : option jsstr) : outcome jsstr jsstr :=
  match token with Some ((_ :: _) as t) => Ok t | _ => Throw missing end.

Section Providers.
(** [new URL(s)]; [None] is its TypeError. *)
Variable URL : jsstr -> option url.
(** [createSign("RSA-SHA256")] over a string with a private key. *)
Variable rsa_sign : jsstr -> jsstr -> list Z.
Variable base64url : list Z -> jsstr.
Variable nets : networks.

(** *** azure-ad.ts *)

Definition azure_validatePaginationUrl (paginationUrl : jsstr) : outcome jsstr unit :=
  match URL paginationUrl with
  | None => Throw (js "Invalid URL")
  | Some parsed =>
      if origin parsed =s GRAPH_ORIGIN then Ok tt else Throw (origin_mismatch GRAPH_ORIGIN (origin parsed))
  end.

Definition getAzureAdToken (tenantId clientId clientSecret : jsstr) : io jsstr :=
  let! _ := st_lift (validateTenantId tenantId) in
  let! r := fetch_json (net_token nets) (js "Azure AD token")
          (form_post (js "https://login.microsoftonline.com/" ++ tenantId ++ js "/oauth2/v2.0/token")
             [(js "grant_type", js "client_credentials"); (js "client_id", clientId);
              (js "client_secret", clientSecret);
              (js "scope", js "https://graph.microsoft.com/.default")]) in
  st_lift (access_token (js "Azure AD token response missing access_token") (fst r)).

(** [if (nextLink) validatePaginationUrl(nextLink); url = nextLink] *)
Definition azure_next (nextLink : option jsstr) : outcome jsstr (option jsstr) :=
  match nextLink with
  | Some ((_ :: _) as l) => _ ← azure_validatePaginationUrl l; Ok (Some l)
  | _ => Ok None
  end.

Definition fetchAzureAdUsers (token : jsstr) : io (list AzureAdUser) :=
  page_loop (net_azure_users nets) (js "Azure AD users") (fun u => bearer u token)
    (fun b => st_ret (gu_value b)) (fun b _ => azure_next (gu_nextLink b)) DIRECTORY_SYNC_MAX_PAGES
    (js "https://graph.microsoft.com/v1.0/users?$select=id,displayName,mail,accountEnabled") [].

Definition fetchGroupMembers (token groupId : jsstr) : io (list jsstr) :=
  let! id := st_lift (encodeURIComponent groupId) in
  page_loop (net_azure_members nets) (js "Azure AD group members") (fun u => bearer u token)
    (fun b => st_ret (map snd (List.filter (fun m => fst m =s js "#microsoft.graph.user") (gm_value b))))
    (fun b _ => azure_next (gm_nextLink b)) DIRECTORY_SYNC_MAX_PAGES
    (js "https://graph.microsoft.com/v1.0/groups/" ++ id ++ js "/members?$select=id") [].

Fixpoint azure_group_items (token : jsstr) (groups : list (jsstr * jsstr)) : io (list AzureAdGroup) :=
  match groups with
  | [] => st_ret []
  | (id, name) :: gs =>
      let! members := fetchGroupMembers token id in
      let! rest := azure_group_items token gs in
      st_ret ({| azg_id := id; azg_displayName := name; azg_members := members |} :: rest)
  end.

Definition fetchAzureAdGroups (token : jsstr) : io (list AzureAdGroup) :=
  page_loop (net_azure_groups nets) (js "Azure AD groups") (fun u => bearer u token)
    (fun b => azure_group_items token (gg_value b)) (fun b _ => azure_next (gg_nextLink b))
    DIRECTORY_SYNC_MAX_PAGES (js "https://graph.microsoft.com/v1.0/groups?$select=id,displayName") [].

(** *** okta.ts *)

Definition okta_validatePaginationUrl (paginationUrl initialUrl : jsstr) : outcome jsstr unit :=
  match URL paginationUrl, URL initialUrl with
  | Some pagination, Some initial =>
      if origin pagination =s origin initial then Ok tt
      else Throw (origin_mismatch (origin initial) (origin pagination))
  | _, _ => Throw (js "Invalid URL")
  end.

Definition okta_next (initialUrl : jsstr) (link : option jsstr) : outcome jsstr (option jsstr) :=
  match parseNextLink link with
  | Some ((_ :: _) as l) => _ ← okta_validatePaginationUrl l initialUrl; Ok (Some l)
  | _ => Ok None
  end.

Definition fetchOktaUsers (orgUrl apiToken : jsstr) : io (list OktaUser) :=
  let! _ := st_lift (validateOrgUrl orgUrl) in
  let initialUrl := orgUrl ++ js "api/v1/users?"
    ++ search_params [(js "filter", js "status eq " ++ [34] ++ js "ACTIVE" ++ [34]); (js "limit", js "200")] in
  page_loop (net_okta_users nets) (js "Okta users") (fun u => ssws u apiToken) st_ret
    (fun _ link => okta_next initialUrl link) DIRECTORY_SYNC_MAX_PAGES initialUrl [].

Definition fetchOktaGroups (orgUrl apiToken : jsstr) : io (list OktaGroup) :=
  let! _ := st_lift (validateOrgUrl orgUrl) in
  let initialUrl := orgUrl ++ js "api/v1/groups?limit=200" in
  page_loop (net_okta_groups nets) (js "Okta groups") (fun u => ssws u apiToken) st_ret
    (fun _ link => okta_next initialUrl link) DIRECTORY_SYNC_MAX_PAGES initialUrl [].

(** *** google-workspace.ts *)

Definition DIRECTORY_SCOPES : list jsstr :=
  [js "https://www.googleapis.com/auth/admin.directory.user.readonly";
   js "https://www.googleapis.com/auth/admin.directory.group.readonly"].

(** [JSON.stringify] of an object of strings and integers. *)
Definition member (name value : jsstr) : jsstr := json_quote name ++ js ":" ++ value.

Definition createJwt (now : Z) (sa : GoogleServiceAccount) (scopes : list jsstr) (adminEmail : jsstr) : jsstr :=
  let now := now / 1000 in
  let header := js "{" ++ js_join (js ",") [member (js "alg") (json_quote (js "RS256"));
                                            member (js "typ") (json_quote (js "JWT"))] ++ js "}" in
  let payload := js "{" ++ js_join (js ",")
    [member (js "iss") (json_quote (sa_client_email sa)); member (js "sub") (json_quote adminEmail);
     member (js "scope") (json_quote (js_join (js " ") scopes));
     member (js "aud") (json_quote (js "https://oauth2.googleapis.com/token"));
     member (js "iat") (js_of_Z now); member (js "exp") (js_of_Z (now + 3600))] ++ js "}" in
  let signingInput := js_join (js ".") [base64url (js_utf8 header); base64url (js_utf8 payload)] in
  signingInput ++ js "." ++ base64url (rsa_sign (sa_private_key sa) signingInput).

Definition getGoogleAccessToken (now : Z) (sa : GoogleServiceAccount) (domain adminEmail : jsstr) : io jsstr :=
  let! _ := st_lift (validateDomain domain) in
  let! r := fetch_json (net_token nets) (js "Google token")
          (form_post (js "https://oauth2.googleapis.com/token")
             [(js "grant_type", js "urn:ietf:params:oauth:grant-type:jwt-bearer");
              (js "assertion", createJwt now sa DIRECTORY_SCOPES adminEmail)]) in
  st_lift (access_token (js "Google token response missing access_token") (fst r)).

(** [typeof t === "string" && t.length <= 2048 ? t : undefined], then [while (t)]. *)
Definition google_next (nextPageToken : json) : outcome jsstr (option (option jsstr)) :=
  Ok match nextPageToken with
     | JStr ((_ :: _) as t) => if (List.length t <=? 2048)%nat then Some (Some t) else None
     | _ => None
     end.

Definition google_request (listing token domain : jsstr) (pageToken : option jsstr) : http_request :=
  bearer (js "https://admin.googleapis.com/admin/directory/v1/" ++ listing ++ js "?"
          ++ search_params ((js "domain", domain)
               :: match pageToken with Some t => [(js "pageToken", t)] | None => [] end)) token.

Definition fetchGoogleUsers (token domain : jsstr) : io (list GoogleUser) :=
  let! _ := st_lift (validateDomain domain) in
  page_loop (net_google_users nets) (js "Google users") (google_request (js "users") token domain)
    (fun b => st_ret (default [] (gou_users b))) (fun b _ => google_next (gou_nextPageToken b))
    DIRECTORY_SYNC_MAX_PAGES None [].

Definition fetchGoogleGroups (token domain : jsstr) : io (list GoogleGroup) :=
  let! _ := st_lift (validateDomain domain) in
  page_loop (net_google_groups nets) (js "Google groups") (google_request (js "groups") token domain)
    (fun b => st_ret (default [] (goo_groups b))) (fun b _ => google_next (goo_nextPageToken b))
    DIRECTORY_SYNC_MAX_PAGES None [].

(** *** fetchProviderUsers *)

(** [JSON.parse(credentialsJson) as ...], one parser per cast. *)
Variable parse_azure : jsstr -> outcome jsstr AzureAdCredentials.
Variable parse_google : jsstr -> outcome jsstr GoogleCredentials.
Variable parse_okta : jsstr -> outcome jsstr OktaCredentials.

Definition of_azure (u : AzureAdUser) : ProviderUser :=
  {| pu_externalId := az_id u; pu_email := default [] (az_mail u); pu_displayName := az_displayName u;
     pu_active := az_accountEnabled u |}.
Definition of_google (u : GoogleUser) : ProviderUser :=
  {| pu_externalId := go_id u; pu_email := go_primaryEmail u; pu_displayName := go_fullName u;
     pu_active := negb (go_suspended u) |}.
Definition of_okta (u : OktaUser) : ProviderUser :=
  {| pu_externalId := ok_id u; pu_email := ok_email u;
     pu_displayName := default (ok_firstName u ++ js " " ++ ok_lastName u) (ok_displayName u);
     pu_active := ok_status u =s js "ACTIVE" |}.

Definition fetchProviderUsers (now : Z) (provider credentialsJson : jsstr) : io (list ProviderUser) :=
  if provider =s js "AZURE_AD" then
    let! creds := st_lift (parse_azure credentialsJson) in
    let! token := getAzureAdToken (azc_tenantId creds) (azc_clientId creds) (azc_clientSecret creds) in
    let! users := fetchAzureAdUsers token in
    st_ret (map of_azure users)
  else if provider =s js "GOOGLE_WORKSPACE" then
    let! creds := st_lift (parse_google credentialsJson) in
    let! token := getGoogleAccessToken now (goc_serviceAccount creds) (goc_domain creds) (goc_adminEmail creds) in
    let! users := fetchGoogleUsers token (goc_domain creds) in
    st_ret (map of_google users)
  else if provider =s js "OKTA" then
    let! creds := st_lift (parse_okta credentialsJson) in
    let! users := fetchOktaUsers (okc_orgUrl creds) (okc_apiToken creds) in
    st_ret (map of_okta users)
  else st_throw (js "Unsupported directory sync provider: " ++ provider).
End Providers.

(** ** Error messages *)

(** What a [catch] clause receives: an Error, a string, or any other value with its
    [JSON.stringify] or [String] form. *)
Inductive thrown := ThrownError (message : jsstr) | ThrownString (s : jsstr) | ThrownOther (printed : jsstr).

Definition DIRECTORY_SYNC_SANITIZE_MAX_LENGTH : nat := 1000.

(** [s.replace(/re/gi, f)]: [m] gives the length of the match at the start of a
    string; [skip] counts the units of the current match still to be dropped. *)
Fixpoint replace_all (m : jsstr -> option nat) (f : jsstr -> jsstr) (skip : nat) (s : jsstr) : jsstr :=
  match s with
  | [] => []
  | c :: s' =>
      match skip with
      | S k => replace_all m f k s'
      | O => match m s with
             | Some (S k) => f (take (S k) s) ++ replace_all m f k s'
             | _ => c :: replace_all m f 0 s'
             end
      end
  end.

(** Length of the longest prefix in a class of units. *)
Fixpoint run (p : Z -> bool) (s : jsstr) : nat :=
  match s with c :: s' => if p c then S (run p s') else O | [] => O end.
Definition starts_ci (p s : jsstr) : bool := js_starts_with (js_to_lower p) (js_to_lower s).
Definition not_space (c : Z) : bool := negb (js_is_space c).
(** The units of a URL end at white space, a quote or a closing parenthesis; those
    of a parameter also at an ampersand. *)
Definition url_unit (c : Z) : bool := not_space c && negb (js_has c ([34] ++ js "')")).
Definition param_unit (c : Z) : bool := url_unit c && negb (c =? 38).

(** [<word>\s+\S+] *)
Definition match_scheme (word s : jsstr) : option nat :=
  if starts_ci word s then
    let rest := drop (List.length word) s in
    let n := run js_is_space rest in
    let k := run not_space (drop n rest) in
    if (n =? 0)%nat || (k =? 0)%nat then None else Some (List.length word + n + k)%nat
  else None.

(** [<name>=] and at least one unit of a parameter. *)
Definition match_param (name s : jsstr) : option nat :=
  if starts_ci (name ++ js "=") s then
    let k := run param_unit (drop (S (List.length name)) s) in
    if (k =? 0)%nat then None else Some (S (List.length name) + k)%nat
  else None.

(** [https?://] and at least one unit of a URL. *)
Definition match_url (s : jsstr) : option nat :=
  let scheme := if starts_ci (js "https://") s then Some 8%nat
                else if starts_ci (js "http://") s then Some 7%nat else None in
  match scheme with
  | Some n => let k := run url_unit (drop n s) in if (k =? 0)%nat then None else Some (n + k)%nat
  | None => None
  end.

Definition SENSITIVE_PATTERNS : list ((jsstr -> option nat) * jsstr) :=
  [(match_scheme (js "Bearer"), js "Bearer [REDACTED]");
   (match_scheme (js "SSWS"), js "SSWS [REDACTED]");
   (match_param (js "token"), js "token=[REDACTED]");
   (match_param (js "api_token"), js "api_token=[REDACTED]");
   (match_param (js "client_secret"), js "client_secret=[REDACTED]")].

Section Sanitize.
Variable URL : jsstr -> option url.

Definition stripQueryParams (input : jsstr) : jsstr :=
  replace_all match_url
    (fun u => match URL u with
              | Some parsed => origin parsed ++ pathname parsed
              | None => take (run (fun c => negb (c =? 63)) u) u
              end) 0 input.

Definition sanitizeSyncError (error : thrown) : jsstr :=
  let message := match error with ThrownError m => m | ThrownString m => m | ThrownOther m => m end in
  let message := stripQueryParams message in
  let message := fold_left (fun m p => replace_all (fst p) (fun _ => snd p) 0 m) SENSITIVE_PATTERNS message in
  if (DIRECTORY_SYNC_SANITIZE_MAX_LENGTH <? List.length message)%nat
  then take (DIRECTORY_SYNC_SANITIZE_MAX_LENGTH - 3) message ++ js "..."
  else message.

(** The stored message fits its column. *)
Lemma sanitizeSyncError_bounded error :
  (List.length (sanitizeSyncError error) <= DIRECTORY_SYNC_SANITIZE_MAX_LENGTH)%nat.
Proof.
  unfold sanitizeSyncError. destruct (Nat.ltb_spec DIRECTORY_SYNC_SANITIZE_MAX_LENGTH
    (List.length (fold_left (fun m p => replace_all (fst p) (fun _ => snd p) 0 m) SENSITIVE_PATTERNS
      (stripQueryParams match error with ThrownError m | ThrownString m | ThrownOther m => m end))))
    as [H|H]; [|done].
  rewrite length_app, length_take. change (List.length (js "...")) with 3%nat.
  unfold DIRECTORY_SYNC_SANITIZE_MAX_LENGTH in *. lia.
Qed.

(** What the patterns catch and what they leave. *)
Lemma sanitize_examples :
  sanitizeSyncError (ThrownString (js "failed: Bearer eyJ0.x client_secret=s3cr&x=1 API_TOKEN=abc")) =
    js "failed: Bearer [REDACTED] client_secret=[REDACTED]&x=1 api_token=[REDACTED]" /\
  sanitizeSyncError (ThrownString (js "bearer Bearer secret")) = js "Bearer [REDACTED] secret".
Proof. split; vm_compute; reflexivity. Qed.
End Sanitize.

(** ** Where requests go *)

(** [m] sends at most [n] requests, all of them in [P]. *)
Definition sends {A} (P : http_request -> Prop) (n : nat) (m : io A) : Prop :=
  forall log, exists reqs, fst (m log) = log ++ reqs /\ (List.length reqs <= n)%nat /\ Forall P reqs.

Section Sends.
Context (P : http_request -> Prop).

Lemma sends_lift {A} n (r : outcome jsstr A) : sends P n (st_lift r).
Proof. intros log. exists []. rewrite app_nil_r. simpl. split_and!; [done|lia|done]. Qed.

Lemma sends_ret {A} n (a : A) : sends P n (st_ret a).
Proof. apply (sends_lift n (Ok a)). Qed.

Lemma sends_throw {A} n e : sends (A:=A) P n (st_throw e).
Proof. apply (sends_lift n (Throw e)). Qed.

Lemma sends_fetch {B} (net : network B) what rq : P rq -> sends P 1 (fetch_json net what rq).
Proof. intros H log. exists [rq]. simpl. split_and!; [done|lia|by apply Forall_singleton]. Qed.

Lemma sends_bind {A B} n k (m : io A) (f : A -> io B) :
  sends P n m -> (forall a, sends P k (f a)) -> sends P (n + k) (st_bind m f).
Proof.
  intros Hm Hf log. unfold st_bind. destruct (Hm log) as (r1 & E1 & L1 & F1).
  destruct (m log) as [log1 [a|e]]; simpl in E1; subst log1.
  - destruct (Hf a (log ++ r1)) as (r2 & E2 & L2 & F2). exists (r1 ++ r2).
    rewrite E2, app_assoc, length_app. split_and!; [done|lia|by apply Forall_app].
  - exists r1. split_and!; [done|lia|done].
Qed.

(** A check before any request. *)
Lemma sends_checked {A B} n (r : outcome jsstr A) (f : A -> io B) :
  (forall a, r = Ok a -> sends P n (f a)) -> sends P n (st_bind (st_lift r) f).
Proof.
  intros H log. unfold st_bind, st_lift. destruct r as [a|e] eqn:E; [by apply H|].
  apply (sends_lift (A:=B) n (Throw e)).
Qed.

Lemma sends_fmap {A B} n (m : io A) (f : A -> B) :
  sends P n m -> sends P n (st_bind m (fun a => st_ret (f a))).
Proof. intros H. rewrite <- (Nat.add_0_r n). apply sends_bind; [done|]. intros a. apply sends_ret. Qed.

(** A request whose answer is only inspected. *)
Lemma sends_fetch_then {B A} (net : network B) what rq (f : B * option jsstr -> outcome jsstr A) :
  P rq -> sends P 1 (st_bind (fetch_json net what rq) (fun r => st_lift (f r))).
Proof.
  intros H. apply (sends_bind 1 0); [by apply sends_fetch|]. intros a. apply sends_lift.
Qed.

(** A listing whose cursors keep a property sends one request a page. *)
Lemma sends_page_loop {B C A} (net : network B) what (mk : C -> http_request) (items : B -> list A) next
    (Q : C -> Prop) left cursor acc :
  Q cursor -> (forall c, Q c -> P (mk c)) -> (forall b l c, next b l = Ok (Some c) -> Q c) ->
  sends P left (page_loop net what mk (fun b => st_ret (items b)) next left cursor acc).
Proof.
  intros HQ HP Hn. revert cursor acc HQ. induction left as [|left IH]; intros cursor acc HQ; simpl.
  - apply sends_throw.
  - change (S left) with (1 + left)%nat. apply sends_bind; [by apply sends_fetch, HP|].
    intros [b l]. simpl. apply (sends_checked left (Ok (items b))). intros xs _.
    apply sends_checked. intros [c|] Hc; [|apply sends_ret]. by eapply IH, Hn.
Qed.

End Sends.

Lemma sends_mono {A} (P Q : http_request -> Prop) n (m : io A) :
  (forall rq, P rq -> Q rq) -> sends P n m -> sends Q n m.
Proof.
  intros HPQ H log. destruct (H log) as (reqs & E & L & F). exists reqs.
  split_and!; [done|done|by eapply Forall_impl].
Qed.
#[export] Hint Resolve sends_lift sends_ret sends_throw sends_fetch sends_fmap : psso.

(** The requests a synchronisation with the stored credentials may send. *)
Section Confined.
Context (URL : jsstr -> option url) (parse_azure : jsstr -> outcome jsstr AzureAdCredentials)
  (parse_google : jsstr -> outcome jsstr GoogleCredentials)
  (parse_okta : jsstr -> outcome jsstr OktaCredentials).

Definition same_origin (u initial : jsstr) : Prop :=
  u = initial \/ exists p i, URL u = Some p /\ URL initial = Some i /\ origin p = origin i.

Definition azure_request (c : AzureAdCredentials) (rq : http_request) : Prop :=
  AZURE_UUID_RE (azc_tenantId c) = true /\
  (rq_authorization rq = None /\
   rq_url rq = js "https://login.microsoftonline.com/" ++ azc_tenantId c ++ js "/oauth2/v2.0/token" \/
   rq_body rq = None /\
   (rq_url rq = js "https://graph.microsoft.com/v1.0/users?$select=id,displayName,mail,accountEnabled" \/
    exists p, URL (rq_url rq) = Some p /\ origin p = GRAPH_ORIGIN)).

Definition google_user_request (c : GoogleCredentials) (rq : http_request) : Prop :=
  DOMAIN_RE (goc_domain c) = true /\
  (rq_authorization rq = None /\ rq_url rq = js "https://oauth2.googleapis.com/token" \/
   rq_body rq = None /\
   js_starts_with (js "https://admin.googleapis.com/admin/directory/v1/users?") (rq_url rq) = true).

Definition okta_request (c : OktaCredentials) (rq : http_request) : Prop :=
  OKTA_ORG_RE (okc_orgUrl c) = true /\ rq_body rq = None /\
  rq_authorization rq = Some (js "SSWS " ++ okc_apiToken c) /\
  same_origin (rq_url rq) (okc_orgUrl c ++ js "api/v1/users?filter=status+eq+%22ACTIVE%22&limit=200").

Definition request_confined (provider credentialsJson : jsstr) (rq : http_request) : Prop :=
  if provider =s js "AZURE_AD" then exists c, parse_azure credentialsJson = Ok c /\ azure_request c rq
  else if provider =s js "GOOGLE_WORKSPACE"
  then exists c, parse_google credentialsJson = Ok c /\ google_user_request c rq
  else provider = js "OKTA" /\ exists c, parse_okta credentialsJson = Ok c /\ okta_request c rq.

Lemma azure_next_origin l c :
  azure_next URL l = Ok (Some c) -> exists p, URL c = Some p /\ origin p = GRAPH_ORIGIN.
Proof.
  unfold azure_next, azure_validatePaginationUrl. destruct l as [[|x l]|]; [done| |done].
  destruct (URL (x :: l)) as [p|] eqn:E; [|done]. case_bool_decide as Ho; [|done].
  intros [= <-]. eauto.
Qed.

Lemma okta_next_origin initial l c : okta_next URL initial l = Ok (Some c) -> same_origin c initial.
Proof.
  unfold okta_next, okta_validatePaginationUrl. destruct (parseNextLink l) as [[|x u]|]; [done| |done].
  destruct (URL (x :: u)) as [p|] eqn:E; [|done]. destruct (URL initial) as [i|] eqn:Ei; [|done].
  case_bool_decide as Ho; [|done]. intros [= <-]. right. eauto.
Qed.

Lemma azure_sends nets c :
  sends (azure_request c) (S DIRECTORY_SYNC_MAX_PAGES)
    (let! token := getAzureAdToken nets (azc_tenantId c) (azc_clientId c) (azc_clientSecret c) in
     let! users := fetchAzureAdUsers URL nets token in
     st_ret (map of_azure users)).
Proof.
  destruct (validateTenantId (azc_tenantId c)) as [[]|e] eqn:Ev.
  2:{ intros log. unfold getAzureAdToken. rewrite Ev. apply (@sends_throw _ (list ProviderUser)). }
  assert (Hid : AZURE_UUID_RE (azc_tenantId c) = true).
  { unfold validateTenantId in Ev. by destruct (AZURE_UUID_RE _). }
  apply (sends_bind _ 1); [unfold getAzureAdToken; rewrite Ev|intros token; apply sends_fmap].
  - apply sends_checked. intros [] _. apply sends_fetch_then. split; [done|]. by left.
  - eapply (sends_page_loop _ _ _ _ _ _ (fun u => u = _ \/ exists p, URL u = Some p /\ origin p = GRAPH_ORIGIN)).
    + by left.
    + intros u Hu. split; [done|]. right. done.
    + intros b l u Hu. right. by eapply azure_next_origin.
Qed.

Lemma google_sends rsa_sign base64url nets now c :
  sends (google_user_request c) (S DIRECTORY_SYNC_MAX_PAGES)
    (let! token := getGoogleAccessToken rsa_sign base64url nets now (goc_serviceAccount c) (goc_domain c)
                     (goc_adminEmail c) in
     let! users := fetchGoogleUsers nets token (goc_domain c) in
     st_ret (map of_google users)).
Proof.
  destruct (validateDomain (goc_domain c)) as [[]|e] eqn:Ev.
  2:{ intros log. unfold getGoogleAccessToken. rewrite Ev. apply (@sends_throw _ (list ProviderUser)). }
  assert (Hid : DOMAIN_RE (goc_domain c) = true).
  { unfold validateDomain in Ev. by destruct (DOMAIN_RE _). }
  apply (sends_bind _ 1); [unfold getGoogleAccessToken; rewrite Ev|intros token; apply sends_fmap].
  - apply sends_checked. intros [] _. apply sends_fetch_then. split; [done|]. by left.
  - apply sends_checked. intros _ _. eapply (sends_page_loop _ _ _ _ _ _ (fun _ => True)); [done| |done].
    intros t _. split; [done|]. right. split; [done|]. reflexivity.
Qed.

Lemma okta_sends nets c :
  sends (okta_request c) (S DIRECTORY_SYNC_MAX_PAGES)
    (let! users := fetchOktaUsers URL nets (okc_orgUrl c) (okc_apiToken c) in st_ret (map of_okta users)).
Proof.
  destruct (validateOrgUrl (okc_orgUrl c)) as [[]|e] eqn:Ev.
  2:{ intros log. unfold fetchOktaUsers. rewrite Ev. apply (@sends_throw _ (list ProviderUser)). }
  assert (Hid : OKTA_ORG_RE (okc_orgUrl c) = true).
  { unfold validateOrgUrl in Ev. by destruct (OKTA_ORG_RE _). }
  intros log. destruct (sends_fmap (okta_request c) DIRECTORY_SYNC_MAX_PAGES
    (fetchOktaUsers URL nets (okc_orgUrl c) (okc_apiToken c)) (map of_okta)) with log as (reqs & E & L & F).
  - unfold fetchOktaUsers. rewrite Ev. apply sends_checked. intros [] _.
    eapply (sends_page_loop _ _ _ _ _ _ (fun u => same_origin u _)); [by left| |].
    + intros u Hu. done.
    + intros b l u Hu. by eapply okta_next_origin.
  - exists reqs. split_and!; [done|lia|done].
Qed.

(** Reading the users of any provider sends at most 1001 requests, whatever the
    network answers, and every one goes to the provider: the token endpoint of a
    validated tenant, the literal listing URL, or a next link whose origin is the
    provider's.  An access token or API token is sent nowhere else. *)
Theorem provider_requests_confined rsa_sign base64url nets now provider credentialsJson :
  sends (request_confined provider credentialsJson) (S DIRECTORY_SYNC_MAX_PAGES)
    (fetchProviderUsers URL rsa_sign base64url nets parse_azure parse_google parse_okta now provider
       credentialsJson).
Proof.
  unfold fetchProviderUsers, request_confined. repeat case_bool_decide.
  - apply sends_checked. intros c Hc. eapply sends_mono, azure_sends. intros rq. by exists c.
  - apply sends_checked. intros c Hc. eapply sends_mono, google_sends. intros rq. by exists c.
  - apply sends_checked. intros c Hc. eapply sends_mono, okta_sends. intros rq. split; [done|]. by exists c.
  - apply sends_throw.
Qed.
End Confined.

(** ** Complete listings *)

(** The network answers the requests of a listing with these pages: each next
    cursor leads to the next page and the last has none. *)
Fixpoint serves {B C} (net : network B) (mk : C -> http_request)
    (next : B -> option jsstr -> outcome jsstr (option C)) (cursor : C) (pages : list B)
    (log : list http_request) : Prop :=
  match pages with
  | [] => False
  | b :: ps =>
      exists l, net log (mk cursor) = HttpJson b l /\
      match ps with
      | [] => next b l = Ok None
      | _ => exists c, next b l = Ok (Some c) /\ serves net mk next c ps (log ++ [mk cursor])
      end
  end.

Definition exceeded (what : jsstr) : jsstr := what ++ js " pagination exceeded 1000 pages".

(** A listing returns the items of every page, or fails when there are more pages
    than allowed. *)
Lemma page_loop_complete {B C A} (net : network B) what (mk : C -> http_request) (items : B -> list A) next
    left cursor acc pages log :
  serves net mk next cursor pages log ->
  snd (page_loop net what mk (fun b => st_ret (items b)) next left cursor acc log) =
  if (List.length pages <=? left)%nat then Ok (acc ++ concat (map items pages)) else Throw (exceeded what).
Proof.
  revert left cursor acc log. induction pages as [|b ps IH]; intros left cursor acc log; [done|].
  destruct left as [|left].
  { intros _. reflexivity. }
  intros (l & Hb & Hrest). cbn [page_loop]. unfold st_bind at 1, fetch_json. rewrite Hb. cbn [fst snd].
  unfold st_bind at 1, st_ret at 1. unfold st_bind, st_lift. destruct ps as [|b' ps].
  - rewrite Hrest. simpl. by rewrite app_nil_r.
  - destruct Hrest as (c & Hc & Hs). rewrite Hc. rewrite (IH left c _ _ Hs).
    cbn [map concat]. rewrite <- app_assoc. reflexivity.
Qed.

Section Listings.
Context (URL : jsstr -> option url) (nets : networks).

Definition azure_served (token : jsstr) (pages : list GraphUserResponse) (log : list http_request) : Prop :=
  serves (net_azure_users nets) (fun u => bearer u token) (fun b _ => azure_next URL (gu_nextLink b))
    (js "https://graph.microsoft.com/v1.0/users?$select=id,displayName,mail,accountEnabled") pages log.

Definition okta_served (orgUrl apiToken : jsstr) (pages : list (list OktaUser)) (log : list http_request) : Prop :=
  let initialUrl := orgUrl ++ js "api/v1/users?filter=status+eq+%22ACTIVE%22&limit=200" in
  serves (net_okta_users nets) (fun u => ssws u apiToken) (fun _ link => okta_next URL initialUrl link)
    initialUrl pages log.

(** The Azure AD and Okta listings never return a truncated directory: when the
    provider serves any number of pages, the client returns the users of all of
    them, or throws if there are more than 1000. *)
Theorem listings_never_truncated token azurePages orgUrl apiToken oktaPages log
    (Hazure : azure_served token azurePages log) (Horg : OKTA_ORG_RE orgUrl = true)
    (Hokta : okta_served orgUrl apiToken oktaPages log) :
  snd (fetchAzureAdUsers URL nets token log) =
    (if (List.length azurePages <=? 1000)%nat then Ok (concat (map gu_value azurePages))
     else Throw (exceeded (js "Azure AD users"))) /\
  snd (fetchOktaUsers URL nets orgUrl apiToken log) =
    (if (List.length oktaPages <=? 1000)%nat then Ok (concat oktaPages)
     else Throw (exceeded (js "Okta users"))).
Proof.
  split.
  - unfold fetchAzureAdUsers. by rewrite (page_loop_complete _ _ _ _ _ _ _ _ _ _ Hazure).
  - unfold fetchOktaUsers, validateOrgUrl. rewrite Horg. unfold st_bind at 1, st_lift.
    etransitivity; [apply (page_loop_complete _ _ _ (fun b => b) _ _ _ _ _ _ Hokta)|].
    by rewrite map_id.
Qed.
End Listings.

(** A directory of two Azure pages and one Okta page, and a Google directory whose
    second page has a long token. *)
Definition demo_origin (s : jsstr) : option url :=
  Some {| protocol := js "https:"; hostname := []; port := []; pathname := js "/"; search := []; hash := [];
          origin := take 27 s |}.
Definition demo_az (id : jsstr) : AzureAdUser :=
  {| az_id := id; az_displayName := id; az_mail := Some id; az_accountEnabled := true |}.
Definition demo_pages : list GraphUserResponse :=
  [{| gu_value := [demo_az (js "a")]; gu_nextLink := Some (js "https://graph.microsoft.com/v1.0/users?p=2") |};
   {| gu_value := [demo_az (js "b")]; gu_nextLink := None |}].
Definition demo_long_token : jsstr := repeat 65 2049.
Definition demo_google (id : jsstr) : GoogleUser :=
  {| go_id := id; go_primaryEmail := id; go_fullName := id; go_suspended := false |}.
Definition demo_nets : networks :=
  let none {B} : network B := fun _ _ => HttpStatus 404 None in
  {| net_token := fun _ _ => HttpJson (Some (js "t")) None;
     net_azure_users := fun log _ => match demo_pages !! List.length log with
                                     | Some b => HttpJson b None | None => HttpStatus 404 None end;
     net_azure_groups := none; net_azure_members := none;
     net_okta_users := fun _ _ => HttpJson [] None;
     net_okta_groups := none;
     net_google_users := fun log _ =>
       match log with
       | [] => HttpJson {| gou_users := Some [demo_google (js "a")]; gou_nextPageToken := JStr demo_long_token |} None
       | _ => HttpJson {| gou_users := Some [demo_google (js "b")]; gou_nextPageToken := JNull |} None
       end;
     net_google_groups := none |}.

Lemma listings_never_truncated_witness :
  snd (fetchAzureAdUsers demo_origin demo_nets (js "t") []) = Ok [demo_az (js "a"); demo_az (js "b")].
Proof.
  refine (proj1 (listings_never_truncated demo_origin demo_nets (js "t") demo_pages
    (js "https://dev-1.okta.com/") (js "k") [[]] [] _ _ _)).
  - eexists. split; [vm_compute; reflexivity|]. eexists. split; [vm_compute; reflexivity|].
    eexists. split; vm_compute; reflexivity.
  - vm_compute; reflexivity.
  - eexists. split; vm_compute; reflexivity.
Defined.

(** The Google listing does truncate: a page token of more than 2048 units is
    dropped and the users of the remaining pages are silently missing. *)
Theorem google_long_token_truncates :
  snd (fetchGoogleUsers demo_nets (js "t") (js "example.com") []) = Ok [demo_google (js "a")] /\
  net_google_users demo_nets [google_request (js "users") (js "t") (js "example.com") None]
    (google_request (js "users") (js "t") (js "example.com") (Some demo_long_token)) =
    HttpJson {| gou_users := Some [demo_google (js "b")]; gou_nextPageToken := JNull |} None.
Proof. split; vm_compute; reflexivity. Qed.
