(* ===== verification/DirectorySync.v ===== *)
(** * Directory synchronisation

    runDirectorySync of src/src/lib/directory-sync/engine.ts: the lock on the
    configuration, the diff of the provider's users against the external mappings
    and memberships of the tenant, the guard against mass deactivation, the apply
    transaction, and the log and error paths.  Each database transaction is one
    step on the state; between two of them other requests may change it, and any of
    them may fail.  The provider is [DirectoryProviders.fetchProviderUsers], here a
    parameter together with the decryption of the stored credentials. *)

From S2P Require Import Prelude JsString JsMap Table Dpop DirectoryProviders.
Local Open Scope Z_scope.

(** ** Tables *)

Inductive sync_status := S_IDLE | S_RUNNING | S_SUCCESS | S_ERROR.
#[export] Instance sync_status_eq_dec : EqDecision sync_status.
Proof. solve_decision. Defined.

Record sync_config := {
  c_tenantId : jsstr; c_provider : jsstr; c_credentials : jsstr; c_syncIntervalMinutes : Z;
  c_status : sync_status; c_lastSyncAt : option Z; c_lastSyncError : option jsstr;
  c_lastSyncStats : option (Z * Z * Z); c_nextSyncAt : option Z }.

Record sync_log := {
  l_configId : jsstr; l_tenantId : jsstr; l_status : sync_status; l_startedAt : Z; l_completedAt : Z;
  l_dryRun : bool; l_usersCreated : Z; l_usersUpdated : Z; l_usersDeactivated : Z;
  l_errorMessage : option jsstr }.

Inductive TENANT_ROLE := OWNER | ADMIN | MEMBER.
#[export] Instance TENANT_ROLE_eq_dec : EqDecision TENANT_ROLE.
Proof. solve_decision. Defined.

Record dir_user := { u_tenantId : jsstr; u_email : option jsstr; u_name : option jsstr }.
Record dir_member := {
  m_tenantId : jsstr; m_userId : jsstr; m_role : TENANT_ROLE; m_deactivatedAt : option Z;
  m_scimManaged : bool; m_provisioningSource : jsstr; m_lastScimSyncedAt : option Z }.

(** An external mapping is keyed by its unique index (tenant, external identifier,
    resource type); its value is the internal identifier, unique per tenant and
    resource type. *)
Abbreviation mapping_key := (jsstr * jsstr * jsstr)%type.

Record directory := {
  d_users : gmap jsstr dir_user; d_members : gmap jsstr dir_member;
  d_mappings : gmap mapping_key jsstr; d_configs : gmap jsstr sync_config;
  d_logs : gmap jsstr sync_log; d_staleResets : list (jsstr * jsstr * Z) }.

Definition with_users d u := {| d_users := u; d_members := d_members d; d_mappings := d_mappings d;
  d_configs := d_configs d; d_logs := d_logs d; d_staleResets := d_staleResets d |}.
Definition with_members d m := {| d_users := d_users d; d_members := m; d_mappings := d_mappings d;
  d_configs := d_configs d; d_logs := d_logs d; d_staleResets := d_staleResets d |}.
Definition with_mappings d x := {| d_users := d_users d; d_members := d_members d; d_mappings := x;
  d_configs := d_configs d; d_logs := d_logs d; d_staleResets := d_staleResets d |}.
Definition with_configs d c := {| d_users := d_users d; d_members := d_members d; d_mappings := d_mappings d;
  d_configs := c; d_logs := d_logs d; d_staleResets := d_staleResets d |}.
Definition with_logs d l := {| d_users := d_users d; d_members := d_members d; d_mappings := d_mappings d;
  d_configs := d_configs d; d_logs := l; d_staleResets := d_staleResets d |}.
Definition with_resets d r := {| d_users := d_users d; d_members := d_members d; d_mappings := d_mappings d;
  d_configs := d_configs d; d_logs := d_logs d; d_staleResets := r |}.

(** ** Options and results *)

Record SyncOptions := { o_configId : jsstr; o_tenantId : jsstr; o_dryRun : bool; o_force : bool }.

(** The counters of the run.  They are variables outside the apply transaction, so
    that a rollback does not reset them; [groupsUpdated] is constantly zero. *)
Record counters := { usersCreated : Z; usersUpdated : Z; usersDeactivated : Z }.
Definition zero_counters : counters := {| usersCreated := 0; usersUpdated := 0; usersDeactivated := 0 |}.

Record SyncResult := {
  r_success : bool; r_dryRun : bool; r_counters : counters; r_errorMessage : option jsstr;
  r_abortedSafety : bool; r_logId : option jsstr }.

Definition STALE_LOCK_MINUTES : Z := 30.
Definition MS_PER_MINUTE : Z := 60000.

(** The database calls of a run, in order. *)
Inductive phase :=
| PreCheck | Lock | LoadConfig | LoadData | GuardLog | GuardConfig | Apply | WriteLog | FinishConfig
| WriteError | ErrorLog.
#[export] Instance phase_eq_dec : EqDecision phase.
Proof. solve_decision. Defined.

(** What a run does not control: the changes other requests make before a call, the
    failures of calls, the clock, and the generated identifiers. *)
Record surroundings := {
  sr_others : phase -> directory -> directory;
  sr_fault : phase -> option jsstr;
  sr_now : phase -> Z;
  sr_startedAt : Z;
  sr_userId : nat -> jsstr;
  sr_memberId : nat -> jsstr;
  sr_logId : phase -> jsstr }.

Definition sync A : Type := st (directory * counters) jsstr A.

(** [withTenantRls(prisma, tenantId, tx => ...)]: all of it or nothing. *)
Definition transaction {A} (sr : surroundings) (ph : phase) (f : st (directory * counters) jsstr A) : sync A :=
  fun '(d, n) =>
    let d := sr_others sr ph d in
    match sr_fault sr ph with
    | Some e => ((d, n), Throw e)
    | None =>
        match f (d, n) with
        | (s, Ok a) => (s, Ok a)
        | ((_, n'), Throw e) => ((d, n'), Throw e)
        end
    end.

Definition on_directory {A} (f : directory -> directory * outcome jsstr A) : sync A :=
  fun '(d, n) => let '(d', r) := f d in ((d', n), r).

Definition record_not_found : jsstr := js "Record to update not found".
Definition unique_violation : jsstr := js "Unique constraint failed".
Definition foreign_key_violation : jsstr := js "Foreign key constraint violated".
Definition inconsistent_relation : jsstr := js "Field user is required to return data, got null instead".

(** [update({ where: { id, ... } })] on a row the tenant sees; it throws when there
    is none. *)
Definition update_config (tenantId configId : jsstr) (f : sync_config -> sync_config) (d : directory)
    : directory * outcome jsstr unit :=
  match d_configs d !! configId with
  | Some c => if c_tenantId c =s tenantId then (with_configs d (<[configId := f c]> (d_configs d)), Ok tt)
              else (d, Throw record_not_found)
  | None => (d, Throw record_not_found)
  end.

Definition create_log (id : jsstr) (l : sync_log) (d : directory) : directory * outcome jsstr jsstr :=
  match d_logs d !! id, d_configs d !! l_configId l with
  | Some _, _ => (d, Throw unique_violation)
  | None, None => (d, Throw foreign_key_violation)
  | None, Some _ => (with_logs d (<[id := l]> (d_logs d)), Ok id)
  end.

(** ** The lock *)

Definition lockable (staleThreshold : Z) (c : sync_config) : bool :=
  match c_status c with
  | S_IDLE | S_SUCCESS | S_ERROR => true
  | S_RUNNING => match c_lastSyncAt c with Some t => t <? staleThreshold | None => false end
  end.

Definition set_running (startedAt : Z) (c : sync_config) : sync_config :=
  {| c_tenantId := c_tenantId c; c_provider := c_provider c; c_credentials := c_credentials c;
     c_syncIntervalMinutes := c_syncIntervalMinutes c; c_status := S_RUNNING;
     c_lastSyncAt := Some startedAt; c_lastSyncError := c_lastSyncError c;
     c_lastSyncStats := c_lastSyncStats c; c_nextSyncAt := c_nextSyncAt c |}.

Definition find_config (tenantId configId : jsstr) (d : directory) : option sync_config :=
  match d_configs d !! configId with
  | Some c => if c_tenantId c =s tenantId then Some c else None
  | None => None
  end.

(** The raw UPDATE; its count is 1 or 0. *)
Definition claim_config (tenantId configId : jsstr) (startedAt staleThreshold : Z) (d : directory)
    : directory * bool :=
  match find_config tenantId configId d with
  | Some c => if lockable staleThreshold c
              then (with_configs d (<[configId := set_running startedAt c]> (d_configs d)), true)
              else (d, false)
  | None => (d, false)
  end.

Definition stale_since (staleThreshold : Z) (preCheck : option sync_config) : option Z :=
  match preCheck with
  | Some c => match c_status c, c_lastSyncAt c with
              | S_RUNNING, Some t => if t <? staleThreshold then Some t else None
              | _, _ => None
              end
  | None => None
  end.

Definition acquire_lock (sr : surroundings) (o : SyncOptions) : sync bool :=
  let staleThreshold := sr_now sr PreCheck - STALE_LOCK_MINUTES * MS_PER_MINUTE in
  let! preCheck := transaction sr PreCheck
    (on_directory (fun d => (d, Ok (find_config (o_tenantId o) (o_configId o) d)))) in
  transaction sr Lock (on_directory (fun d =>
    let '(d', acquired) := claim_config (o_tenantId o) (o_configId o) (sr_startedAt sr) staleThreshold d in
    match acquired, stale_since staleThreshold preCheck with
    | true, Some since =>
        (with_resets d' (d_staleResets d' ++ [(o_tenantId o, o_configId o, since)]), Ok true)
    | a, _ => (d', Ok a)
    end)).

(** ** Loading and diff *)

Record member_view := {
  mv_id : jsstr; mv_userId : jsstr; mv_deactivatedAt : option Z; mv_role : TENANT_ROLE;
  mv_name : option jsstr }.

Definition USER_RESOURCE : jsstr := js "User".

Definition load_mappings (tenantId : jsstr) (d : directory) : list (jsstr * jsstr) :=
  map (fun kv => (snd (fst (fst kv)), snd kv))
    (List.filter (fun kv => (fst (fst (fst kv)) =s tenantId) && (snd (fst kv) =s USER_RESOURCE))
       (map_to_list (d_mappings d))).

(** A member of the tenant with its user, which row-level security must show. *)
Definition view_member (tenantId : jsstr) (users : gmap jsstr dir_user) (id : jsstr) (m : dir_member)
    : outcome jsstr member_view :=
  match users !! m_userId m with
  | Some u => if u_tenantId u =s tenantId
              then Ok {| mv_id := id; mv_userId := m_userId m; mv_deactivatedAt := m_deactivatedAt m;
                         mv_role := m_role m; mv_name := u_name u |}
              else Throw inconsistent_relation
  | None => Throw inconsistent_relation
  end.

Fixpoint outcome_list {A B} (f : A -> outcome jsstr B) (l : list A) : outcome jsstr (list B) :=
  match l with
  | [] => Ok []
  | x :: l' => y ← f x; ys ← outcome_list f l'; Ok (y :: ys)
  end.

Definition load_members (tenantId : jsstr) (d : directory) : outcome jsstr (list member_view) :=
  outcome_list (fun kr => view_member tenantId (d_users d) (fst kr) (snd kr))
    (List.filter (fun kr => m_tenantId (snd kr) =s tenantId) (map_to_list (d_members d))).

(** [new Map(l.map(...))] *)
Definition map_of {V} (l : list (jsstr * V)) : jsmap V :=
  fold_left (fun m kv => map_set m (fst kv) (snd kv)) l [].

Record sync_plan := {
  p_toCreate : list ProviderUser;
  p_toUpdate : list (ProviderUser * jsstr);
  p_toDeactivate : list jsstr }.

Section Diff.
Context (extIdToInternal : jsmap jsstr) (memberByUserId : jsmap member_view).

Definition is_active (m : member_view) : bool := negb (bool_decide (is_Some (mv_deactivatedAt m))).

(** [!internalId]: no entry, or the empty string. *)
Definition internal_of (pu : ProviderUser) : option jsstr :=
  match map_get extIdToInternal (pu_externalId pu) with Some [] => None | r => r end.

Definition needs_update (m : member_view) (pu : ProviderUser) : bool :=
  negb (bool_decide (mv_name m = Some (pu_displayName pu))) || negb (eqb (is_active m) (pu_active pu)).

Fixpoint diff_users (validUsers : list ProviderUser) : list ProviderUser * list (ProviderUser * jsstr) :=
  match validUsers with
  | [] => ([], [])
  | pu :: rest =>
      let '(toCreate, toUpdate) := diff_users rest in
      match internal_of pu with
      | None => (pu :: toCreate, toUpdate)
      | Some internalId =>
          match map_get memberByUserId internalId with
          | Some m => if needs_update m pu then (toCreate, (pu, internalId) :: toUpdate)
                      else (toCreate, toUpdate)
          | None => (toCreate, toUpdate)
          end
      end
  end.

Definition deactivates (seenExternalIds : list jsstr) (e : jsstr * jsstr) : bool :=
  negb (bool_decide (fst e ∈ seenExternalIds)) &&
  match map_get memberByUserId (snd e) with
  | Some m => is_active m && negb (bool_decide (mv_role m = OWNER))
  | None => false
  end.

Definition diff (validUsers : list ProviderUser) : sync_plan :=
  let '(toCreate, toUpdate) := diff_users validUsers in
  {| p_toCreate := toCreate; p_toUpdate := toUpdate;
     p_toDeactivate := map snd (List.filter (deactivates (map pu_externalId validUsers)) extIdToInternal) |}.
End Diff.

(** The guard.  [toDeactivate.length / activeCount > 0.2] in doubles is this
    comparison of integers: the quotient of two counts below 2^49 is rounded to 0.2
    only when it is one fifth, and above it otherwise by more than a rounding. *)
Definition guard_trips (force : bool) (toDeactivate activeCount : nat) : bool :=
  negb force && (0 <? activeCount)%nat && (activeCount <? 5 * toDeactivate)%nat.

Definition guard_message (toDeactivate activeCount : nat) : jsstr :=
  js "Safety guard: " ++ js_of_Z (Z.of_nat toDeactivate) ++ js " deactivations would exceed 20% of "
  ++ js_of_Z (Z.of_nat activeCount) ++ js " active users. Use force=true to override.".

(** ** Apply *)

(** A user of the tenant whose lower-cased address is among the given ones. *)
Definition email_in (tenantId : jsstr) (emails : list jsstr) (u : dir_user) : bool :=
  (u_tenantId u =s tenantId) &&
  match u_email u with Some e => bool_decide (js_to_lower e ∈ emails) | None => false end.

Definition users_by_email (tenantId : jsstr) (emails : list jsstr) (d : directory) : jsmap jsstr :=
  map_of (map (fun kr => (js_to_lower (default [] (u_email (snd kr))), fst kr))
            (List.filter (fun kr => email_in tenantId emails (snd kr)) (map_to_list (d_users d)))).

(** [tx.user.create]: the address is unique over all tenants. *)
Definition create_user (tenantId id : jsstr) (pu : ProviderUser) (d : directory)
    : directory * outcome jsstr jsstr :=
  match d_users d !! id, find_by (fun u => bool_decide (u_email u = Some (pu_email pu))) (d_users d) with
  | None, None =>
      (with_users d (<[id := {| u_tenantId := tenantId; u_email := Some (pu_email pu);
                                u_name := Some (pu_displayName pu) |}]> (d_users d)), Ok id)
  | _, _ => (d, Throw unique_violation)
  end.

(** The first loop; [k] numbers the provider users. *)
Fixpoint create_missing (sr : surroundings) (tenantId : jsstr) (k : nat) (toCreate : list ProviderUser)
    (userByEmail : jsmap jsstr) : sync (jsmap jsstr) :=
  match toCreate with
  | [] => st_ret userByEmail
  | pu :: rest =>
      let emailKey := js_to_lower (pu_email pu) in
      if map_has userByEmail emailKey then create_missing sr tenantId (S k) rest userByEmail
      else let! id := on_directory (create_user tenantId (sr_userId sr k) pu) in
           create_missing sr tenantId (S k) rest (map_set userByEmail emailKey id)
  end.

Definition load_existing (tenantId : jsstr) (allUserIds : list jsstr) (d : directory)
    : jsmap (jsstr * option Z) :=
  map_of (map (fun kr => (m_userId (snd kr), (fst kr, m_deactivatedAt (snd kr))))
            (List.filter (fun kr => (m_tenantId (snd kr) =s tenantId)
                                    && bool_decide (m_userId (snd kr) ∈ allUserIds))
               (map_to_list (d_members d)))).

(** [tx.tenantMember.create]: the user exists, with one membership per tenant. *)
Definition create_member (id : jsstr) (m : dir_member) (d : directory) : directory * outcome jsstr unit :=
  match d_members d !! id,
        find_by (fun r => (m_tenantId r =s m_tenantId m) && (m_userId r =s m_userId m)) (d_members d),
        d_users d !! m_userId m with
  | None, None, Some _ => (with_members d (<[id := m]> (d_members d)), Ok tt)
  | None, None, None => (d, Throw foreign_key_violation)
  | _, _, _ => (d, Throw unique_violation)
  end.

Definition update_member (tenantId id : jsstr) (f : dir_member -> dir_member) (d : directory)
    : directory * outcome jsstr unit :=
  match d_members d !! id with
  | Some m => if m_tenantId m =s tenantId then (with_members d (<[id := f m]> (d_members d)), Ok tt)
              else (d, Throw record_not_found)
  | None => (d, Throw record_not_found)
  end.

Definition set_deactivated (deactivatedAt : option Z) (now : Z) (m : dir_member) : dir_member :=
  {| m_tenantId := m_tenantId m; m_userId := m_userId m; m_role := m_role m;
     m_deactivatedAt := deactivatedAt; m_scimManaged := m_scimManaged m;
     m_provisioningSource := m_provisioningSource m; m_lastScimSyncedAt := Some now |}.

Definition update_user_name (tenantId id : jsstr) (name : jsstr) (d : directory)
    : directory * outcome jsstr unit :=
  match d_users d !! id with
  | Some u => if u_tenantId u =s tenantId
              then (with_users d (<[id := {| u_tenantId := u_tenantId u; u_email := u_email u;
                                             u_name := Some name |}]> (d_users d)), Ok tt)
              else (d, Throw record_not_found)
  | None => (d, Throw record_not_found)
  end.

(** [tx.scimExternalMapping.upsert]: another external identifier of the tenant may
    not have the same internal identifier. *)
Definition internal_taken (k : mapping_key) (internalId : jsstr) (x : gmap mapping_key jsstr) : bool :=
  existsb (fun kv => (fst (fst (fst kv)) =s fst (fst k)) && (snd (fst kv) =s snd k)
                     && (snd kv =s internalId) && negb (snd (fst (fst kv)) =s snd (fst k)))
    (map_to_list x).
Definition upsert_mapping (tenantId externalId internalId : jsstr) (d : directory)
    : directory * outcome jsstr unit :=
  let k := (tenantId, externalId, USER_RESOURCE) in
  if internal_taken k internalId (d_mappings d) then (d, Throw unique_violation)
  else (with_mappings d (<[k := internalId]> (d_mappings d)), Ok tt).

Definition new_member (tenantId userId : jsstr) (active : bool) (now : Z) : dir_member :=
  {| m_tenantId := tenantId; m_userId := userId; m_role := MEMBER;
     m_deactivatedAt := if active then None else Some now; m_scimManaged := true;
     m_provisioningSource := js "SCIM"; m_lastScimSyncedAt := Some now |}.

Definition count_created : sync unit :=
  fun '(d, n) => ((d, {| usersCreated := usersCreated n + 1; usersUpdated := usersUpdated n;
                         usersDeactivated := usersDeactivated n |}), Ok tt).
Definition count_updated : sync unit :=
  fun '(d, n) => ((d, {| usersCreated := usersCreated n; usersUpdated := usersUpdated n + 1;
                         usersDeactivated := usersDeactivated n |}), Ok tt).
Definition count_deactivated (c : Z) : sync unit :=
  fun '(d, n) => ((d, {| usersCreated := usersCreated n; usersUpdated := usersUpdated n;
                         usersDeactivated := c |}), Ok tt).

(** [userByEmail.get(pu.email.toLowerCase())!.id] throws a TypeError on a missing
    entry. *)
Definition user_id_of (userByEmail : jsmap jsstr) (pu : ProviderUser) : outcome jsstr jsstr :=
  match map_get userByEmail (js_to_lower (pu_email pu)) with
  | Some id => Ok id
  | None => Throw (js "Cannot read properties of undefined")
  end.

(** One iteration of the second loop. *)
Definition provision (sr : surroundings) (tenantId : jsstr) (userByEmail : jsmap jsstr)
    (tmByUserId : jsmap (jsstr * option Z)) (e : nat * ProviderUser) : sync unit :=
  let '(k, pu) := e in
  let now := sr_now sr Apply in
  let! userId := st_lift (user_id_of userByEmail pu) in
  let! _ := match map_get tmByUserId userId with
            | None => on_directory (create_member (sr_memberId sr k)
                                      (new_member tenantId userId (pu_active pu) now))
            | Some (id, Some _) =>
                if pu_active pu then on_directory (update_member tenantId id (set_deactivated None now))
                else st_ret tt
            | Some (_, None) => st_ret tt
            end in
  let! _ := on_directory (upsert_mapping tenantId (pu_externalId pu) userId) in
  count_created.

(** One iteration of the third loop. *)
Definition apply_update (sr : surroundings) (tenantId : jsstr) (memberByUserId : jsmap member_view)
    (e : ProviderUser * jsstr) : sync unit :=
  let '(pu, internalId) := e in
  let now := sr_now sr Apply in
  match map_get memberByUserId internalId with
  | None => st_ret tt
  | Some m =>
      let! _ := on_directory (update_user_name tenantId internalId (pu_displayName pu)) in
      if bool_decide (mv_role m = OWNER) && negb (pu_active pu) then count_updated
      else
        let! _ := on_directory (update_member tenantId (mv_id m)
                    (set_deactivated (if pu_active pu then None else Some now) now)) in
        count_updated
  end.

(** [tx.tenantMember.updateMany] on the collected membership identifiers. *)
Definition deactivate_ids (tenantId : jsstr) (memberIds : list jsstr) (now : Z) (d : directory)
    : directory * nat :=
  let hit (id : jsstr) (m : dir_member) :=
    bool_decide (id ∈ memberIds) && (m_tenantId m =s tenantId) && negb (bool_decide (m_role m = OWNER)) in
  (with_members d (map_imap (fun id m => Some (if hit id m then set_deactivated (Some now) now m else m))
                     (d_members d)),
   size (filter (fun kr => hit (fst kr) (snd kr) = true) (d_members d))).

Definition member_ids (memberByUserId : jsmap member_view) (toDeactivate : list jsstr) : list jsstr :=
  omap (fun userId => mv_id <$> map_get memberByUserId userId) toDeactivate.

Definition apply_deactivations (sr : surroundings) (tenantId : jsstr) (memberIds : list jsstr) : sync unit :=
  match memberIds with
  | [] => st_ret tt
  | _ =>
      let! count := on_directory (fun d =>
        let r := deactivate_ids tenantId memberIds (sr_now sr Apply) d in (fst r, Ok (snd r))) in
      count_deactivated (Z.of_nat count)
  end.

(** The loops over the users to create and to update. *)
Definition apply_users (sr : surroundings) (tenantId : jsstr) (memberByUserId : jsmap member_view)
    (p : sync_plan) : sync unit :=
  let toCreate := p_toCreate p in
  let emails := map (fun pu => js_to_lower (pu_email pu)) toCreate in
  let! existingUsers := on_directory (fun d => (d, Ok (users_by_email tenantId emails d))) in
  let! userByEmail := create_missing sr tenantId 0 toCreate existingUsers in
  let! allUserIds := st_lift (outcome_list (user_id_of userByEmail) toCreate) in
  let! tmByUserId := on_directory (fun d => (d, Ok (load_existing tenantId allUserIds d))) in
  let! _ := st_for (provision sr tenantId userByEmail tmByUserId) (imap pair toCreate) in
  st_for (apply_update sr tenantId memberByUserId) (p_toUpdate p).

Definition apply_tx (sr : surroundings) (tenantId : jsstr) (memberByUserId : jsmap member_view)
    (p : sync_plan) : sync unit :=
  let! _ := apply_users sr tenantId memberByUserId p in
  apply_deactivations sr tenantId (member_ids memberByUserId (p_toDeactivate p)).

(** ** The run *)

Section Run.
Context (URL : jsstr -> option url).
(** [decryptCredentials], which authenticates the configuration and the tenant. *)
Context (decryptCredentials : jsstr -> jsstr -> jsstr -> outcome jsstr jsstr).
Context (fetchUsers : jsstr -> jsstr -> outcome jsstr (list ProviderUser)).

Definition sanitized (message : jsstr) : jsstr := sanitizeSyncError URL (ThrownError message).

Definition set_error (message : jsstr) (lastSyncAt : option Z) (c : sync_config) : sync_config :=
  {| c_tenantId := c_tenantId c; c_provider := c_provider c; c_credentials := c_credentials c;
     c_syncIntervalMinutes := c_syncIntervalMinutes c; c_status := S_ERROR;
     c_lastSyncAt := match lastSyncAt with Some t => Some t | None => c_lastSyncAt c end;
     c_lastSyncError := Some message; c_lastSyncStats := c_lastSyncStats c;
     c_nextSyncAt := c_nextSyncAt c |}.

Definition set_success (completedAt : Z) (stats : Z * Z * Z) (nextSyncAt : Z) (c : sync_config) : sync_config :=
  {| c_tenantId := c_tenantId c; c_provider := c_provider c; c_credentials := c_credentials c;
     c_syncIntervalMinutes := c_syncIntervalMinutes c; c_status := S_SUCCESS;
     c_lastSyncAt := Some completedAt; c_lastSyncError := None; c_lastSyncStats := Some stats;
     c_nextSyncAt := Some nextSyncAt |}.

Definition log_entry (sr : surroundings) (o : SyncOptions) (st : sync_status) (completedAt : Z)
    (n : counters) (message : option jsstr) : sync_log :=
  {| l_configId := o_configId o; l_tenantId := o_tenantId o; l_status := st;
     l_startedAt := sr_startedAt sr; l_completedAt := completedAt; l_dryRun := o_dryRun o;
     l_usersCreated := usersCreated n; l_usersUpdated := usersUpdated n;
     l_usersDeactivated := usersDeactivated n; l_errorMessage := message |}.

Definition get_counters : sync counters := fun '(d, n) => ((d, n), Ok n).
Definition set_counters (n : counters) : sync unit := fun '(d, _) => ((d, n), Ok tt).

(** The mappings and members the run works from. *)
Definition load_data (tenantId : jsstr) (d : directory)
    : outcome jsstr (jsmap jsstr * list member_view) :=
  members ← load_members tenantId d;
  Ok (map_of (load_mappings tenantId d), members).

Definition by_user (members : list member_view) : jsmap member_view :=
  map_of (map (fun m => (mv_userId m, m)) members).

Definition has_email (u : ProviderUser) : bool := negb (pu_email u =s []).

(** Steps 6: the guard's log entry, status and result. *)
Definition abort_safety (sr : surroundings) (o : SyncOptions) (message : jsstr) : sync SyncResult :=
  let stored := sanitizeSyncError URL (ThrownString message) in
  let! logId := transaction sr GuardLog (on_directory (create_log (sr_logId sr GuardLog)
    (log_entry sr o S_ERROR (sr_now sr GuardLog) zero_counters (Some stored)))) in
  let! _ := transaction sr GuardConfig
    (on_directory (update_config (o_tenantId o) (o_configId o) (set_error stored None))) in
  st_ret {| r_success := false; r_dryRun := o_dryRun o; r_counters := zero_counters;
            r_errorMessage := Some message; r_abortedSafety := true; r_logId := Some logId |}.

(** Step 7. *)
Definition apply_changes (sr : surroundings) (o : SyncOptions) (memberByUserId : jsmap member_view)
    (p : sync_plan) : sync unit :=
  if o_dryRun o
  then set_counters {| usersCreated := Z.of_nat (List.length (p_toCreate p));
                       usersUpdated := Z.of_nat (List.length (p_toUpdate p));
                       usersDeactivated := Z.of_nat (List.length (p_toDeactivate p)) |}
  else transaction sr Apply (apply_tx sr (o_tenantId o) memberByUserId p).

(** Steps 8 and 9. *)
Definition finish_run (sr : surroundings) (o : SyncOptions) (c : sync_config) : sync SyncResult :=
  let! n := get_counters in
  let completedAt := sr_now sr WriteLog in
  let! logId := transaction sr WriteLog
    (on_directory (create_log (sr_logId sr WriteLog) (log_entry sr o S_SUCCESS completedAt n None))) in
  let! _ := transaction sr FinishConfig (on_directory (update_config (o_tenantId o) (o_configId o)
    (set_success completedAt (usersCreated n, usersUpdated n, usersDeactivated n)
       (completedAt + c_syncIntervalMinutes c * MS_PER_MINUTE)))) in
  st_ret {| r_success := true; r_dryRun := o_dryRun o; r_counters := n; r_errorMessage := None;
            r_abortedSafety := false; r_logId := Some logId |}.

(** Steps 2 to 9. *)
Definition sync_body (sr : surroundings) (o : SyncOptions) : sync SyncResult :=
  let! config := transaction sr LoadConfig
    (on_directory (fun d => (d, Ok (find_config (o_tenantId o) (o_configId o) d)))) in
  match config with
  | None => st_throw (js "Directory sync config not found")
  | Some c =>
      let! credentialsJson := st_lift (decryptCredentials (c_credentials c) (o_configId o) (o_tenantId o)) in
      let! providerUsers := st_lift (fetchUsers (c_provider c) credentialsJson) in
      let validUsers := List.filter has_email providerUsers in
      let! loaded := transaction sr LoadData (on_directory (fun d => (d, load_data (o_tenantId o) d))) in
      let '(extIdToInternal, existingMembers) := loaded in
      let memberByUserId := by_user existingMembers in
      let p := diff extIdToInternal memberByUserId validUsers in
      let activeCount := List.length (List.filter is_active existingMembers) in
      let gone := List.length (p_toDeactivate p) in
      if guard_trips (o_force o) gone activeCount then abort_safety sr o (guard_message gone activeCount)
      else let! _ := apply_changes sr o memberByUserId p in finish_run sr o c
  end.

(** [writeSyncError] and the error log: a failure of either is swallowed. *)
Definition writeSyncError (sr : surroundings) (o : SyncOptions) (message : jsstr) : sync unit :=
  transaction sr WriteError (on_directory (update_config (o_tenantId o) (o_configId o)
    (set_error (sanitized message) (Some (sr_now sr WriteError))))).

Definition error_log (sr : surroundings) (o : SyncOptions) (message : jsstr) : sync jsstr :=
  fun '(d, n) =>
    transaction sr ErrorLog (on_directory (create_log (sr_logId sr ErrorLog)
      (log_entry sr o S_ERROR (sr_now sr ErrorLog) n (Some (sanitized message))))) (d, n).

Definition failure (o : SyncOptions) (n : counters) (message : jsstr) (logId : option jsstr) : SyncResult :=
  {| r_success := false; r_dryRun := o_dryRun o; r_counters := n; r_errorMessage := Some message;
     r_abortedSafety := false; r_logId := logId |}.

Definition runDirectorySync (sr : surroundings) (o : SyncOptions) (d : directory) : directory * SyncResult :=
  match acquire_lock sr o (d, zero_counters) with
  | ((d, _), Throw e) => (d, failure o zero_counters (sanitized e) None)
  | ((d, _), Ok false) => (d, failure o zero_counters (js "Sync already running (locked)") None)
  | ((d, _), Ok true) =>
      match sync_body sr o (d, zero_counters) with
      | ((d, _), Ok r) => (d, r)
      | (s, Throw e) =>
          let '(s, _) := writeSyncError sr o e s in
          let '((d, n), r) := error_log sr o e s in
          (d, failure o n (sanitized e) match r with Ok id => Some id | Throw _ => None end)
      end
  end.
End Run.

(** ** What a run keeps *)

(** The tables that describe people; the rest is the bookkeeping of the runs. *)
Definition same_people (d d' : directory) : Prop :=
  d_users d = d_users d' /\ d_members d = d_members d' /\ d_mappings d = d_mappings d'.

Definition keeps {A} (P : directory -> Prop) (m : sync A) : Prop :=
  forall d n, P d -> P (fst (fst (m (d, n)))).

Section Keeps.
Context (P : directory -> Prop).

Lemma keeps_lift {A} (r : outcome jsstr A) : keeps P (st_lift r).
Proof. intros d n H. exact H. Qed.

Lemma keeps_ret {A} (a : A) : keeps P (st_ret a).
Proof. intros d n H. exact H. Qed.

Lemma keeps_throw {A} e : keeps P (A:=A) (st_throw e).
Proof. intros d n H. exact H. Qed.

Lemma keeps_bind {A B} (m : sync A) (f : A -> sync B) :
  keeps P m -> (forall a, keeps P (f a)) -> keeps P (st_bind m f).
Proof.
  intros Hm Hf d n Hd. unfold st_bind. specialize (Hm d n Hd).
  destruct (m (d, n)) as [[d1 n1] [a|e]]; [|exact Hm]. by apply Hf.
Qed.

Lemma keeps_for {A} (f : A -> sync unit) l : (forall x, x ∈ l -> keeps P (f x)) -> keeps P (st_for f l).
Proof.
  intros Hf d n Hd. apply (st_for_invariant (fun s => P (fst s))); [|done].
  intros x [d1 n1] Hx H1. by apply Hf.
Qed.

Lemma keeps_directory {A} (f : directory -> directory * outcome jsstr A) :
  (forall d, P d -> P (fst (f d))) -> keeps P (on_directory f).
Proof. intros H d n Hd. specialize (H d Hd). unfold on_directory. by destruct (f d). Qed.

Lemma keeps_read {A} (f : directory -> outcome jsstr A) : keeps P (on_directory (fun d => (d, f d))).
Proof. apply keeps_directory. done. Qed.

Lemma keeps_transaction {A} sr ph (f : sync A) :
  (forall d, P d -> P (sr_others sr ph d)) -> keeps P f -> keeps P (transaction sr ph f).
Proof.
  intros Ho Hf d n Hd. unfold transaction. specialize (Ho d Hd). specialize (Hf (sr_others sr ph d) n Ho).
  destruct (sr_fault sr ph); [exact Ho|].
  destruct (f (sr_others sr ph d, n)) as [[d1 n1] [a|e]]; [exact Hf|exact Ho].
Qed.

Lemma keeps_count_created : keeps P count_created.
Proof. intros d n H. exact H. Qed.
Lemma keeps_count_updated : keeps P count_updated.
Proof. intros d n H. exact H. Qed.
Lemma keeps_count_deactivated c : keeps P (count_deactivated c).
Proof. intros d n H. exact H. Qed.
End Keeps.
#[export] Hint Resolve keeps_lift keeps_ret keeps_throw keeps_read keeps_count_created keeps_count_updated
  keeps_count_deactivated : psso.

(** What every statement of the apply transaction keeps, the transaction keeps. *)
Section ApplyKeeps.
Context (P : directory -> Prop) (sr : surroundings) (tenantId : jsstr).
Hypothesis Hcreate_user : forall k pu d, P d -> P (fst (create_user tenantId (sr_userId sr k) pu d)).
Hypothesis Hcreate_member : forall k userId active d, P d ->
  P (fst (create_member (sr_memberId sr k) (new_member tenantId userId active (sr_now sr Apply)) d)).
Hypothesis Hreactivate : forall id d, P d ->
  P (fst (update_member tenantId id (set_deactivated None (sr_now sr Apply)) d)).
Hypothesis Hname : forall id name d, P d -> P (fst (update_user_name tenantId id name d)).
Hypothesis Hmapping : forall ext id d, P d -> P (fst (upsert_mapping tenantId ext id d)).

Lemma keeps_create_missing k toCreate m : keeps P (create_missing sr tenantId k toCreate m).
Proof.
  revert k m. induction toCreate as [|pu l IH]; intros k m; simpl; [apply keeps_ret|].
  destruct (map_has m _); [apply IH|]. apply keeps_bind; [by apply keeps_directory; auto|]. intros id. apply IH.
Qed.

Lemma keeps_provision m tm e : keeps P (provision sr tenantId m tm e).
Proof.
  destruct e as [k pu]. unfold provision. apply keeps_bind; [apply keeps_lift|]. intros userId.
  apply keeps_bind.
  - destruct (map_get tm userId) as [[id [t|]]|]; [|apply keeps_ret|by apply keeps_directory; auto].
    destruct (pu_active pu); [by apply keeps_directory; auto|apply keeps_ret].
  - intros _. apply keeps_bind; [by apply keeps_directory; auto|]. intros _. apply keeps_count_created.
Qed.

(** The statement that may deactivate a member the provider reports as inactive. *)
Definition update_kept (memberByUserId : jsmap member_view) (p : sync_plan) : Prop :=
  forall pu internalId m d, (pu, internalId) ∈ p_toUpdate p -> map_get memberByUserId internalId = Some m ->
    (mv_role m = OWNER -> pu_active pu = true) -> P d ->
    P (fst (update_member tenantId (mv_id m)
         (set_deactivated (if pu_active pu then None else Some (sr_now sr Apply)) (sr_now sr Apply)) d)).

Lemma keeps_apply_users memberByUserId p :
  update_kept memberByUserId p -> keeps P (apply_users sr tenantId memberByUserId p).
Proof.
  intros Hupd. unfold apply_users.
  apply keeps_bind; [apply keeps_read|]. intros existing.
  apply keeps_bind; [apply keeps_create_missing|]. intros userByEmail.
  apply keeps_bind; [apply keeps_lift|]. intros ids.
  apply keeps_bind; [apply keeps_read|]. intros tm.
  apply keeps_bind; [apply keeps_for; intros e _; apply keeps_provision|]. intros _.
  apply keeps_for. intros [pu internalId] Hin. unfold apply_update.
  destruct (map_get memberByUserId internalId) as [m|] eqn:Em; [|apply keeps_ret].
  apply keeps_bind; [by apply keeps_directory; auto|]. intros _.
  destruct (bool_decide (mv_role m = OWNER) && negb (pu_active pu)) eqn:E; [apply keeps_count_updated|].
  apply keeps_bind; [|intros _; apply keeps_count_updated]. apply keeps_directory. intros d Hd.
  eapply Hupd; [done|done| |done]. intros Hr. rewrite Hr, bool_decide_true in E by done.
  by destruct (pu_active pu).
Qed.

Lemma keeps_apply memberByUserId p :
  update_kept memberByUserId p ->
  (forall d, P d ->
     P (fst (deactivate_ids tenantId (member_ids memberByUserId (p_toDeactivate p)) (sr_now sr Apply) d))) ->
  keeps P (apply_tx sr tenantId memberByUserId p).
Proof.
  intros Hupd Hdeact. apply keeps_bind; [by apply keeps_apply_users|].
  intros _. unfold apply_deactivations. destruct (member_ids _ _) as [|x ids'] eqn:E; [apply keeps_ret|].
  apply keeps_bind; [|intros c; apply keeps_count_deactivated].
  apply keeps_directory. intros d Hd. exact (Hdeact d Hd).
Qed.
End ApplyKeeps.

(** ** The run as its phases *)

Section RunKeeps.
Context (URL : jsstr -> option url) (decryptCredentials : jsstr -> jsstr -> jsstr -> outcome jsstr jsstr)
  (fetchUsers : jsstr -> jsstr -> outcome jsstr (list ProviderUser)) (sr : surroundings) (o : SyncOptions).
Abbreviation run := (runDirectorySync URL decryptCredentials fetchUsers sr o).

(** [P] until the apply transaction commits, [Q] from then on: both are about people
    only, other requests keep them, and applying a plan that was loaded under [P]
    leads from [P] to [Q]. *)
Context (P Q : directory -> Prop).
Hypothesis HP : forall d d', same_people d d' -> P d -> P d'.
Hypothesis HQ : forall d d', same_people d d' -> Q d -> Q d'.
Hypothesis HPQ : forall d, P d -> Q d.
Hypothesis Hothers_P : forall ph d, P d -> P (sr_others sr ph d).
Hypothesis Hothers_Q : forall ph d, Q d -> Q (sr_others sr ph d).
Hypothesis Happly : forall dl members validUsers d n, o_dryRun o = false -> P dl -> P d ->
  load_members (o_tenantId o) dl = Ok members ->
  Q (fst (fst (apply_tx sr (o_tenantId o) (by_user members)
      (diff (map_of (load_mappings (o_tenantId o) dl)) (by_user members) validUsers) (d, n)))).

Lemma people_config (R : directory -> Prop) (HR : forall d d', same_people d d' -> R d -> R d') f d :
  R d -> R (fst (update_config (o_tenantId o) (o_configId o) f d)).
Proof.
  unfold update_config. destruct (d_configs d !! _) as [c|]; [|done].
  destruct (c_tenantId c =s _); [|done]. by apply HR.
Qed.

Lemma people_log (R : directory -> Prop) (HR : forall d d', same_people d d' -> R d -> R d') id l d :
  R d -> R (fst (create_log id l d)).
Proof.
  unfold create_log. destruct (d_logs d !! id); [done|]. destruct (d_configs d !! _); [|done]. by apply HR.
Qed.

Lemma keeps_acquire : keeps P (acquire_lock sr o).
Proof.
  unfold acquire_lock. apply keeps_bind; [by apply keeps_transaction, keeps_read; auto|]. intros pre.
  apply keeps_transaction; [auto|]. apply keeps_directory. intros d Hd. unfold claim_config.
  destruct (find_config _ _ d) as [c|]; [destruct (lockable _ c)|]; [|done..].
  destruct (stale_since _ pre); by eapply HP; [|exact Hd].
Qed.

Lemma keeps_abort message : keeps P (abort_safety URL sr o message).
Proof.
  unfold abort_safety.
  apply keeps_bind; [apply keeps_transaction; [auto|]; apply keeps_directory; intros d; by apply people_log|].
  intros id.
  apply keeps_bind; [apply keeps_transaction; [auto|]; apply keeps_directory; intros d; by apply people_config|].
  intros _. apply keeps_ret.
Qed.

Lemma apply_changes_keeps dl members validUsers d n :
  P dl -> P d -> load_members (o_tenantId o) dl = Ok members ->
  Q (fst (fst (apply_changes sr o (by_user members)
      (diff (map_of (load_mappings (o_tenantId o) dl)) (by_user members) validUsers) (d, n)))).
Proof.
  intros Hl Hd Hm. unfold apply_changes. destruct (o_dryRun o) eqn:Edry; [by apply HPQ|].
  unfold transaction. pose proof (Hothers_P Apply d Hd) as Ho.
  destruct (sr_fault sr Apply); [by apply HPQ|].
  pose proof (Happly dl members validUsers (sr_others sr Apply d) n eq_refl Hl Ho Hm) as Ha.
  destruct (apply_tx _ _ _ _ _) as [[d1 n1] [a|e]]; [exact Ha|by apply HPQ].
Qed.

Lemma keeps_finish c : keeps Q (finish_run sr o c).
Proof.
  unfold finish_run. apply keeps_bind; [intros x y Hx; exact Hx|]. intros k.
  apply keeps_bind; [apply keeps_transaction; [auto|]; apply keeps_directory; intros x; by apply people_log|].
  intros id.
  apply keeps_bind; [apply keeps_transaction; [auto|]; apply keeps_directory; intros x; by apply people_config|].
  intros _. apply keeps_ret.
Qed.

Lemma body_keeps d n :
  P d -> Q (fst (fst (sync_body URL decryptCredentials fetchUsers sr o (d, n)))).
Proof.
  intros Hd. unfold sync_body. unfold st_bind at 1.
  pose proof (keeps_transaction P sr LoadConfig _ (Hothers_P LoadConfig)
    (keeps_read P (fun d => Ok (find_config (o_tenantId o) (o_configId o) d))) d n Hd) as H1.
  destruct (transaction sr LoadConfig _ (d, n)) as [[d1 n1] [[c|]|e]]; simpl in H1; [|by apply HPQ..].
  unfold st_bind at 1, st_lift at 1. destruct (decryptCredentials _ _ _) as [creds|e]; [|by apply HPQ].
  unfold st_bind at 1, st_lift at 1. destruct (fetchUsers _ _) as [pus|e]; [|by apply HPQ].
  unfold st_bind at 1. unfold transaction at 1. pose proof (Hothers_P LoadData _ H1) as H2.
  destruct (sr_fault sr LoadData); [by apply HPQ|]. simpl.
  unfold load_data. destruct (load_members (o_tenantId o) (sr_others sr LoadData d1)) as [ms|e] eqn:El;
    simpl; [|by apply HPQ].
  destruct (guard_trips _ _ _).
  - apply HPQ. by apply keeps_abort.
  - pose proof (apply_changes_keeps _ ms (List.filter has_email pus) _ n1 H2 H2 El) as H3.
    unfold st_bind at 1. destruct (apply_changes _ _ _ _ _) as [[d3 n3] [a|e]]; [|exact H3].
    by apply keeps_finish.
Qed.

Lemma run_keeps d : P d -> Q (fst (run d)).
Proof.
  intros Hd. unfold runDirectorySync.
  pose proof (keeps_acquire d zero_counters Hd) as H1.
  destruct (acquire_lock sr o (d, zero_counters)) as [[d1 n1] [[|]|e]]; simpl in H1; [|by apply HPQ..].
  pose proof (body_keeps d1 zero_counters H1) as H2.
  destruct (sync_body _ _ _ _ _ _) as [[d2 n2] [r|e]]; simpl in H2; [exact H2|].
  assert (H3 : Q (fst (fst (writeSyncError URL sr o e (d2, n2))))).
  { apply (keeps_transaction Q); [auto| |done]. apply keeps_directory. intros x. by apply people_config. }
  destruct (writeSyncError _ _ _ _ _) as [[d3 n3] r3]. simpl in H3.
  assert (H4 : Q (fst (fst (error_log URL sr o e (d3, n3))))).
  { apply (keeps_transaction Q); [auto| |done]. apply keeps_directory. intros x. by apply people_log. }
  by destruct (error_log _ _ _ _ _) as [[d4 n4] r4].
Qed.
End RunKeeps.

(** ** What the run loads *)

Lemma map_of_fold {V} (l : list (jsstr * V)) m k v :
  map_get (fold_left (fun m kv => map_set m (fst kv) (snd kv)) l m) k = Some v ->
  (k, v) ∈ l \/ map_get m k = Some v.
Proof.
  revert m. induction l as [|[k0 v0] l IH]; intros m H; simpl in H; [by right|].
  destruct (IH _ H) as [Hin|Hg]; [left; by apply list_elem_of_further|].
  rewrite map_get_set in Hg. case_bool_decide; [|by right]. simplify_eq. left. apply list_elem_of_here.
Qed.

Lemma map_of_in {V} (l : list (jsstr * V)) k v : map_get (map_of l) k = Some v -> (k, v) ∈ l.
Proof. intros [H|H]%map_of_fold; [done|]. simpl in H. congruence. Qed.

Lemma map_of_has {V} (l : list (jsstr * V)) m k :
  (exists v, (k, v) ∈ l) \/ is_Some (map_get m k) ->
  is_Some (map_get (fold_left (fun m kv => map_set m (fst kv) (snd kv)) l m) k).
Proof.
  revert m. induction l as [|[k0 v0] l IH]; intros m H; simpl.
  - destruct H as [[v Hv]|H]; [|done]. by apply not_elem_of_nil in Hv.
  - apply IH. rewrite map_get_set. case_bool_decide as Hk; [right; eauto|].
    destruct H as [[v Hv]|H]; [|by right]. left. exists v.
    apply elem_of_cons in Hv as [Hv|Hv]; [|done]. by simplify_eq.
Qed.

(** With distinct keys a Map holds every entry of the list it was built from. *)
Lemma map_of_get {V} (l : list (jsstr * V)) k v :
  (forall v', (k, v') ∈ l -> v' = v) -> (k, v) ∈ l -> map_get (map_of l) k = Some v.
Proof.
  intros Hu Hin. destruct (map_of_has l [] k) as [w Hw]; [by left; exists v|].
  pose proof (map_of_in _ _ _ Hw) as Hw'. apply Hu in Hw'. subst w. exact Hw.
Qed.

Lemma map_of_ok {V} (l : list (jsstr * V)) : map_ok (map_of l).
Proof.
  unfold map_of. assert (H : map_ok ([] : jsmap V)) by constructor. revert H. generalize ([] : jsmap V).
  induction l as [|kv l IH]; intros m H; simpl; [done|]. by apply IH, map_set_ok.
Qed.

Lemma outcome_list_in {A B} (f : A -> outcome jsstr B) l ys y :
  outcome_list f l = Ok ys -> (y ∈ ys <-> exists x, x ∈ l /\ f x = Ok y).
Proof.
  revert ys. induction l as [|x l IH]; intros ys H; simpl in H.
  - simplify_eq. split; [by intros ?%not_elem_of_nil|]. by intros (? & ?%not_elem_of_nil & _).
  - destruct (f x) as [y0|] eqn:E; [|done]. simpl in H. destruct (outcome_list f l) as [ys'|]; [|done].
    simpl in H. simplify_eq. rewrite elem_of_cons, (IH ys' eq_refl). split.
    + intros [->|(x' & Hx' & Hf)]; [exists x|exists x']; split; try done; [apply list_elem_of_here|].
      by apply list_elem_of_further.
    + intros (x' & [->|Hx']%elem_of_cons & Hf); [left; congruence|right; eauto].
Qed.

Lemma load_members_in tenantId d members v :
  load_members tenantId d = Ok members ->
  (v ∈ members <-> exists m u, d_members d !! mv_id v = Some m /\ m_tenantId m = tenantId /\
     mv_userId v = m_userId m /\ mv_deactivatedAt v = m_deactivatedAt m /\ mv_role v = m_role m /\
     d_users d !! m_userId m = Some u /\ u_tenantId u = tenantId /\ mv_name v = u_name u).
Proof.
  intros H. unfold load_members in H. rewrite (outcome_list_in _ _ _ _ H). split.
  - intros ([id m] & Hin & Hv). apply list_elem_of_In, filter_In in Hin as [Hin Ht].
    apply list_elem_of_In, elem_of_map_to_list in Hin. simpl in *. bools. unfold view_member in Hv.
    destruct (d_users d !! m_userId m) as [u|] eqn:Eu; [|done]. case_bool_decide; [|done].
    simplify_eq/=. eauto 12.
  - intros (m & u & Hm & Ht & H1 & H2 & H3 & Hu & Hut & H4). exists (mv_id v, m). split.
    + apply list_elem_of_In, filter_In. split; [by apply list_elem_of_In, elem_of_map_to_list|].
      simpl. by apply bool_decide_true.
    + unfold view_member. simpl. rewrite Hu, (bool_decide_true _ Hut). destruct v; simpl in *. by subst.
Qed.

Lemma by_user_in members u v :
  map_get (by_user members) u = Some v -> v ∈ members /\ mv_userId v = u.
Proof. intros (w & [= -> ->] & Hw)%map_of_in%list_elem_of_fmap. done. Qed.

Lemma load_mappings_in tenantId d ext int :
  (ext, int) ∈ load_mappings tenantId d <-> d_mappings d !! (tenantId, ext, USER_RESOURCE) = Some int.
Proof.
  unfold load_mappings. rewrite list_elem_of_fmap. split.
  - intros ([[[t e] r] i] & [= -> ->] & Hin). apply list_elem_of_In, filter_In in Hin as [Hin Hb].
    apply list_elem_of_In, elem_of_map_to_list in Hin. simpl in *. bools. by subst.
  - intros H. exists ((tenantId, ext, USER_RESOURCE), int). split; [done|].
    apply list_elem_of_In, filter_In. split; [by apply list_elem_of_In, elem_of_map_to_list|].
    simpl. by rewrite !bool_decide_true.
Qed.

Lemma diff_update_in exts members users pu internalId :
  (pu, internalId) ∈ p_toUpdate (diff exts members users) ->
  pu ∈ users /\ internal_of exts pu = Some internalId /\
  exists m, map_get members internalId = Some m /\ needs_update m pu = true.
Proof.
  unfold diff. destruct (diff_users exts members users) as [tc tu] eqn:E. simpl. revert tc tu E.
  induction users as [|q users IH]; intros tc tu E Hin; simpl in E; [simplify_eq; by apply not_elem_of_nil in Hin|].
  destruct (diff_users exts members users) as [tc' tu']. specialize (IH _ _ eq_refl).
  assert (Hrec : (pu, internalId) ∈ tu' -> pu ∈ q :: users /\ internal_of exts pu = Some internalId /\
    exists m, map_get members internalId = Some m /\ needs_update m pu = true).
  { intros H. destruct (IH H) as (H1 & H2 & H3). split_and!; [by apply list_elem_of_further|done..]. }
  destruct (internal_of exts q) as [i|] eqn:Ei; [|simplify_eq; auto].
  destruct (map_get members i) as [m|] eqn:Em; [|simplify_eq; auto].
  destruct (needs_update m q) eqn:En; simplify_eq; [|auto].
  apply elem_of_cons in Hin as [[= -> ->]|Hin]; [|auto].
  split_and!; [apply list_elem_of_here|done|eauto].
Qed.

(** ** Memberships *)

Lemma update_member_lookup tenantId id f d k :
  d_members (fst (update_member tenantId id f d)) !! k =
  match d_members d !! k with
  | Some m => Some (if bool_decide (k = id) && (m_tenantId m =s tenantId) then f m else m)
  | None => None
  end.
Proof.
  unfold update_member. destruct (d_members d !! id) as [m|] eqn:E.
  - destruct (m_tenantId m =s tenantId) eqn:Et; simpl.
    + destruct (decide (k = id)) as [->|Hne].
      * rewrite lookup_insert_eq, E, bool_decide_true by done. simpl. by rewrite Et.
      * rewrite lookup_insert_ne, bool_decide_false by congruence. by destruct (d_members d !! k).
    + destruct (d_members d !! k) as [m'|] eqn:Ek; [|done].
      destruct (decide (k = id)) as [->|Hne]; [|by rewrite bool_decide_false].
      rewrite E in Ek. simplify_eq. by rewrite Et, andb_false_r.
  - simpl. destruct (d_members d !! k) as [m'|] eqn:Ek; [|done].
    rewrite bool_decide_false; [done|congruence].
Qed.

Lemma create_member_lookup id m d k m0 :
  d_members d !! k = Some m0 -> d_members (fst (create_member id m d)) !! k = Some m0.
Proof.
  intros H. unfold create_member. destruct (d_members d !! id) eqn:E; [done|].
  destruct (find_by _ _); [done|]. destruct (d_users d !! _); [|done]. simpl.
  rewrite lookup_insert_ne; [done|congruence].
Qed.

Definition deactivated_by (tenantId : jsstr) (memberIds : list jsstr) (id : jsstr) (m : dir_member) : bool :=
  bool_decide (id ∈ memberIds) && (m_tenantId m =s tenantId) && negb (bool_decide (m_role m = OWNER)).

Lemma deactivate_ids_lookup tenantId memberIds now d (k : jsstr) :
  d_members (fst (deactivate_ids tenantId memberIds now d)) !! k =
  (fun m => if deactivated_by tenantId memberIds k m then set_deactivated (Some now) now m else m)
    <$> d_members d !! k.
Proof. unfold deactivate_ids. simpl. rewrite map_lookup_imap. by destruct (d_members d !! k). Qed.

Lemma members_with_users d u : d_members (with_users d u) = d_members d.
Proof. done. Qed.

Lemma create_user_members tenantId id pu d : d_members (fst (create_user tenantId id pu d)) = d_members d.
Proof. unfold create_user. destruct (d_users d !! id); [done|]. by destruct (find_by _ _). Qed.

Lemma update_user_name_members tenantId id name d :
  d_members (fst (update_user_name tenantId id name d)) = d_members d.
Proof. unfold update_user_name. destruct (d_users d !! id); [|done]. by destruct (_ =s _). Qed.

Lemma upsert_mapping_members tenantId ext id d : d_members (fst (upsert_mapping tenantId ext id d)) = d_members d.
Proof. unfold upsert_mapping. by destruct (internal_taken _ _ _). Qed.

(** ** Safety of a run *)

Section Safety.
Context (URL : jsstr -> option url) (decryptCredentials : jsstr -> jsstr -> jsstr -> outcome jsstr jsstr)
  (fetchUsers : jsstr -> jsstr -> outcome jsstr (list ProviderUser)).
Abbreviation run := (runDirectorySync URL decryptCredentials fetchUsers).

(** Other requests leave the memberships, or all people, alone during the run. *)
Definition members_quiet (sr : surroundings) : Prop :=
  forall ph d, d_members (sr_others sr ph d) = d_members d.
Definition people_quiet (sr : surroundings) : Prop := forall ph d, same_people d (sr_others sr ph d).

(** The owners of [M] keep their rows, and the active ones stay active. *)
Definition owners_kept (M : gmap jsstr dir_member) (d : directory) : Prop :=
  forall id m, M !! id = Some m -> m_role m = OWNER ->
  exists m', d_members d !! id = Some m' /\ m_role m' = OWNER /\ m_tenantId m' = m_tenantId m /\
    m_userId m' = m_userId m /\ (m_deactivatedAt m = None -> m_deactivatedAt m' = None).

Lemma owners_kept_members M d d' : d_members d' = d_members d -> owners_kept M d -> owners_kept M d'.
Proof. intros E H id m. rewrite E. apply H. Qed.

Lemma owners_kept_update M tenantId id t now d :
  (t = None \/ forall m, M !! id = Some m -> m_role m <> OWNER) ->
  owners_kept M d -> owners_kept M (fst (update_member tenantId id (set_deactivated t now) d)).
Proof.
  intros Ht H k m Hk Hr. destruct (H k m Hk Hr) as (m' & Hm' & H1 & H2 & H3 & H4).
  rewrite update_member_lookup, Hm'. destruct (bool_decide (k = id) && (m_tenantId m' =s tenantId)) eqn:E.
  - eexists. split; [done|]. simpl. split_and!; [done..|]. intros Hd. bools. subst id.
    destruct Ht as [->|Hn]; [done|]. by destruct (Hn m Hk).
  - exists m'. done.
Qed.

(** C36: No run ever deactivates an owner: while other requests leave the memberships
    alone, every owner keeps the role and the membership, and stays active,
    whatever the provider answers, with or without force, and wherever the run
    fails. *)
Theorem sync_never_deactivates_owner sr o d (Hquiet : members_quiet sr) :
  owners_kept (d_members d) (fst (run sr o d)).
Proof.
  eapply (run_keeps _ _ _ _ _ (fun x => d_members x = d_members d)).
  - intros x y (_ & <- & _). done.
  - intros x y (_ & E & _). by apply owners_kept_members.
  - intros x Hx id m Hid Hr. exists m. by rewrite Hx.
  - intros ph x Hx. by rewrite Hquiet.
  - intros ph x. apply owners_kept_members, Hquiet.
  - intros dl members users x n _ Hl Hx Hm. apply keeps_apply.
    + intros k pu y. apply owners_kept_members, create_user_members.
    + intros k u a y Hy id m Hid Hr. destruct (Hy id m Hid Hr) as (m' & Hm' & Hrest).
      exists m'. split; [|done]. by apply create_member_lookup.
    + intros id y. apply owners_kept_update. by left.
    + intros id name y. apply owners_kept_members, update_user_name_members.
    + intros ext id y. apply owners_kept_members, upsert_mapping_members.
    + intros pu i v y _ Hv Howner. apply owners_kept_update.
      destruct (pu_active pu) eqn:Ea; [by left|]. right. intros m Hid Hr.
      apply by_user_in in Hv as [Hv _].
      apply (load_members_in _ _ _ _ Hm) in Hv as (m0 & u & H1 & _ & _ & _ & H2 & _).
      rewrite Hl, Hid in H1. simplify_eq. by specialize (Howner (eq_trans H2 Hr)).
    + intros y Hy id m Hid Hr. destruct (Hy id m Hid Hr) as (m' & Hm' & H1 & H2 & H3 & H4).
      exists m'. rewrite deactivate_ids_lookup, Hm'. simpl. unfold deactivated_by.
      rewrite H1, (bool_decide_true (OWNER = OWNER)) by done. by rewrite andb_false_r.
    + intros id m Hid Hr. exists m. by rewrite Hx.
  - done.
Qed.

(** A dry run changes no user, membership or mapping. *)
Theorem dry_run_changes_nobody sr o d (Hdry : o_dryRun o = true) (Hquiet : people_quiet sr) :
  same_people d (fst (run sr o d)).
Proof.
  eapply (run_keeps _ _ _ _ _ (same_people d)).
  - intros x y Hxy Hx. unfold same_people in *. intuition congruence.
  - intros x y Hxy Hx. unfold same_people in *. intuition congruence.
  - done.
  - intros ph x Hx. pose proof (Hquiet ph x). unfold same_people in *. intuition congruence.
  - intros ph x Hx. pose proof (Hquiet ph x). unfold same_people in *. intuition congruence.
  - intros dl members users x n Hd. congruence.
  - done.
Qed.
End Safety.

(** ** Integrity of the tables *)

Record dir_ok (d : directory) : Prop := {
  ok_member_unique : forall (i j : jsstr) a b, d_members d !! i = Some a -> d_members d !! j = Some b ->
    m_tenantId a = m_tenantId b -> m_userId a = m_userId b -> i = j;
  ok_email_unique : forall (i j : jsstr) a b e, d_users d !! i = Some a -> d_users d !! j = Some b ->
    u_email a = Some e -> u_email b = Some e -> i = j;
  ok_mapping_unique : forall t e1 e2 r i, d_mappings d !! (t, e1, r) = Some i ->
    d_mappings d !! (t, e2, r) = Some i -> e1 = e2;
  ok_member_user : forall (i : jsstr) m, d_members d !! i = Some m -> is_Some (d_users d !! m_userId m) }.

Lemma dir_ok_people d d' : same_people d d' -> dir_ok d -> dir_ok d'.
Proof.
  intros (E1 & E2 & E3) [H1 H2 H3 H4].
  constructor; rewrite <- ?E1, <- ?E2, <- ?E3; [exact H1|exact H2|exact H3|exact H4].
Qed.

(** Rewriting a membership without changing whose it is. *)
Lemma dir_ok_members (d : directory) (M : gmap jsstr dir_member) :
  (forall (id : jsstr) m', M !! id = Some m' -> exists m, d_members d !! id = Some m /\ m_tenantId m' = m_tenantId m /\
     m_userId m' = m_userId m) ->
  dir_ok d -> dir_ok (with_members d M).
Proof.
  intros HM [H1 H2 H3 H4]. constructor; simpl; [|done..|].
  - intros i j a b Ha Hb Ht Hu. apply HM in Ha as (a0 & Ha & Eat & Eau).
    apply HM in Hb as (b0 & Hb & Ebt & Ebu). eapply H1; eauto; congruence.
  - intros i m Hm. apply HM in Hm as (m0 & Hm & _ & ->). eauto.
Qed.

Lemma dir_ok_update_member tenantId id t now d :
  dir_ok d -> dir_ok (fst (update_member tenantId id (set_deactivated t now) d)).
Proof.
  intros H. pose proof (update_member_lookup tenantId id (set_deactivated t now) d) as HL. revert HL.
  unfold update_member. destruct (d_members d !! id) as [m|]; [|done].
  destruct (m_tenantId m =s tenantId); [|done]. cbn [fst]. intros HL. apply dir_ok_members; [|done].
  intros k m' Hk. change (d_members (with_members d ?M) !! k) with (M !! k) in HL. rewrite HL in Hk.
  destruct (d_members d !! k) as [m0|]; [|done]. simplify_eq. exists m0. by destruct (_ && _).
Qed.

Lemma dir_ok_deactivate tenantId ids now d : dir_ok d -> dir_ok (fst (deactivate_ids tenantId ids now d)).
Proof.
  intros H. pose proof (deactivate_ids_lookup tenantId ids now d) as HL. unfold deactivate_ids in *. cbn [fst] in *.
  apply dir_ok_members; [|done]. intros k m' Hk.
  change (d_members (with_members d ?M) !! k) with (M !! k) in HL. rewrite HL in Hk.
  destruct (d_members d !! k) as [m0|]; simplify_eq/=. exists m0. by destruct (deactivated_by _ _ _ _).
Qed.

Lemma dir_ok_create_member id m d : dir_ok d -> dir_ok (fst (create_member id m d)).
Proof.
  intros H. unfold create_member. destruct (d_members d !! id) eqn:Ei; [done|].
  destruct (find_by _ _) as [[? ?]|] eqn:Ef; [done|].
  destruct (d_users d !! m_userId m) as [u|] eqn:Eu; [|done]. destruct H as [H1 H2 H3 H4].
  assert (Hn : forall k r, d_members d !! k = Some r -> m_tenantId r = m_tenantId m -> m_userId r = m_userId m -> False).
  { intros k r Hk Ht Hu. pose proof (find_by_None _ _ _ _ Ef Hk) as E. simpl in E.
    rewrite !bool_decide_true in E by done. done. }
  constructor; simpl; [|done..|].
  - intros i j a b Ha Hb Ht Hu. apply lookup_insert_Some in Ha as [[<- <-]|[Hi Ha]];
      apply lookup_insert_Some in Hb as [[<- <-]|[Hj Hb]]; [done| | |by eauto].
    + by destruct (Hn j b Hb).
    + by destruct (Hn i a Ha).
  - intros i m' [[<- <-]|[_ Hm]]%lookup_insert_Some; eauto.
Qed.

Lemma dir_ok_create_user tenantId id pu d : dir_ok d -> dir_ok (fst (create_user tenantId id pu d)).
Proof.
  intros H. unfold create_user. destruct (d_users d !! id) eqn:Ei; [done|].
  destruct (find_by _ _) as [[? ?]|] eqn:Ef; [done|]. destruct H as [H1 H2 H3 H4].
  assert (Hn : forall k r, d_users d !! k = Some r -> u_email r <> Some (pu_email pu)).
  { intros k r Hk He. pose proof (find_by_None _ _ _ _ Ef Hk) as E. simpl in E.
    by rewrite bool_decide_true in E. }
  constructor; simpl; [done| |done|].
  - intros i j a b e Ha Hb Hea Heb. apply lookup_insert_Some in Ha as [[<- <-]|[Hi Ha]];
      apply lookup_insert_Some in Hb as [[<- <-]|[Hj Hb]]; simpl in *; [done| | |by eauto].
    + simplify_eq. by destruct (Hn j b Hb).
    + simplify_eq. by destruct (Hn i a Ha).
  - intros i m Hm. destruct (H4 i m Hm) as [u Hu]. exists u. rewrite lookup_insert_ne; [done|congruence].
Qed.

Lemma dir_ok_name tenantId id name d : dir_ok d -> dir_ok (fst (update_user_name tenantId id name d)).
Proof.
  intros H. unfold update_user_name. destruct (d_users d !! id) as [u|] eqn:E; [|done].
  destruct (_ =s _); [|done]. destruct H as [H1 H2 H3 H4]. constructor; simpl; [done| |done|].
  - intros i j a b e Ha Hb Hea Heb. apply lookup_insert_Some in Ha as [[<- <-]|[Hi Ha]];
      apply lookup_insert_Some in Hb as [[<- <-]|[Hj Hb]]; simpl in *; eauto.
  - intros i m Hm. destruct (H4 i m Hm) as [w Hw]. destruct (decide (m_userId m = id)) as [->|Hne].
    + rewrite lookup_insert_eq. eauto.
    + rewrite lookup_insert_ne by done. eauto.
Qed.

Lemma internal_taken_false t e r i x :
  internal_taken (t, e, r) i x = false <->
  forall e', x !! (t, e', r) = Some i -> e' = e.
Proof.
  unfold internal_taken. simpl. split.
  - intros H e' Hx. apply elem_of_map_to_list, list_elem_of_In in Hx.
    destruct (decide (e' = e)) as [|Hne]; [done|]. exfalso. revert H. apply not_false_iff_true, existsb_exists.
    eexists. split; [exact Hx|]. simpl. rewrite (bool_decide_false (e' = e)) by done. by rewrite !bool_decide_true by done.
  - intros H. apply not_true_iff_false. intros (kv & Hin & Hb)%existsb_exists. destruct kv as [[[t' e'] r'] i'].
    simpl in Hb. bools. subst. apply list_elem_of_In, elem_of_map_to_list in Hin. by apply H in Hin.
Qed.

Lemma dir_ok_upsert tenantId ext id d : dir_ok d -> dir_ok (fst (upsert_mapping tenantId ext id d)).
Proof.
  intros H. unfold upsert_mapping. destruct (internal_taken _ _ _) eqn:E; [done|].
  rewrite internal_taken_false in E. destruct H as [H1 H2 H3 H4]. constructor; simpl; [done..| |done].
  intros t e1 e2 r i Ha Hb. apply lookup_insert_Some in Ha as [[Hka Hia]|[Hi Ha]];
    apply lookup_insert_Some in Hb as [[Hkb Hib]|[Hj Hb]]; [congruence| | |by eauto].
  - simplify_eq. symmetry. by apply E.
  - simplify_eq. by apply E.
Qed.
#[export] Hint Resolve dir_ok_update_member dir_ok_deactivate dir_ok_create_member dir_ok_create_user dir_ok_name
  dir_ok_upsert : psso.

Lemma apply_keeps_ok sr tenantId members p : keeps dir_ok (apply_tx sr tenantId members p).
Proof. apply keeps_apply; repeat intro; auto with psso. Qed.

(** ** The guard *)

(** The active members of a tenant. *)
Definition active_member (tenantId : jsstr) (m : dir_member) : bool :=
  (m_tenantId m =s tenantId) && bool_decide (m_deactivatedAt m = None).
Definition active_members (tenantId : jsstr) (d : directory) : nat :=
  List.length (List.filter (fun kr => active_member tenantId (snd kr)) (map_to_list (d_members d))).

Lemma load_members_active tenantId d members :
  load_members tenantId d = Ok members ->
  List.length (List.filter is_active members) = active_members tenantId d.
Proof.
  unfold load_members, active_members. generalize (map_to_list (d_members d)). intros l. revert members.
  induction l as [|[id m] l IH]; intros members H; simpl in *; [by simplify_eq|].
  unfold active_member at 1. destruct (m_tenantId m =s tenantId); simpl in *; [|by apply IH].
  unfold view_member in H. destruct (d_users d !! m_userId m) as [u|]; [|done].
  destruct (u_tenantId u =s tenantId); [|done]. simpl in H.
  destruct (outcome_list _ _) as [ms|]; [|done]. simpl in H. simplify_eq. simpl.
  unfold is_active at 1. simpl. specialize (IH _ eq_refl). destruct (m_deactivatedAt m); simpl; [done|].
  by rewrite IH.
Qed.

Lemma member_ids_length members ids : (List.length (member_ids members ids) <= List.length ids)%nat.
Proof.
  unfold member_ids. induction ids as [|x ids IH]; [done|]. cbn. destruct (map_get members x); cbn; lia.
Qed.

Lemma deactivate_count tenantId ids now d :
  (snd (deactivate_ids tenantId ids now d) <= List.length ids)%nat.
Proof.
  unfold deactivate_ids. cbn [snd]. rewrite <- length_map_to_list, <- (length_map fst).
  apply submseteq_length, NoDup_submseteq; [apply NoDup_fst_map_to_list|].
  intros id ([id' m] & -> & Hin)%list_elem_of_fmap. apply elem_of_map_to_list, map_lookup_filter_Some in Hin as [_ Hb].
  simpl in *. by bools.
Qed.

Lemma diff_deactivate_active exts members users :
  p_toDeactivate (diff exts members users) <> [] ->
  exists u m, map_get members u = Some m /\ is_active m = true.
Proof.
  unfold diff. destruct (diff_users exts members users). simpl. intros H.
  destruct (List.filter _ _) as [|[e u] tl] eqn:E; [done|].
  assert (Hin : In (e, u) (List.filter (deactivates members (map pu_externalId users)) exts)) by (rewrite E; by left).
  apply filter_In in Hin as [_ Hd]. unfold deactivates in Hd. simpl in Hd. bools.
  destruct (map_get members u) as [m|] eqn:Em; [|done]. bools. eauto.
Qed.

Section Guard.
Context (sr : surroundings) (o : SyncOptions).

(** The counter of deactivations at most [k]. *)
Definition deactivated_at_most (k : nat) (n : counters) : Prop :=
  0 <= usersDeactivated n <= Z.of_nat k.

Lemma triple_directory {A} (f : directory -> directory * outcome jsstr A) (N : counters -> Prop) :
  triple (fun s => N (snd s)) (on_directory f) (fun _ s => N (snd s)) (fun _ => True).
Proof. intros [d n] H. unfold on_directory. by destruct (f d) as [d' [a|e]]. Qed.

Lemma triple_transaction {A} ph (f : sync A) (N N' : counters -> Prop) :
  triple (fun s => N (snd s)) f (fun _ s => N' (snd s)) (fun _ => True) ->
  triple (fun s => N (snd s)) (transaction sr ph f) (fun _ s => N' (snd s)) (fun _ => True).
Proof.
  intros H [d n] Hn. unfold transaction. destruct (sr_fault sr ph); [done|].
  specialize (H (sr_others sr ph d, n) Hn). by destruct (f _) as [[d' n'] [a|e]].
Qed.

Lemma create_missing_counters k l m (N : counters -> Prop) :
  triple (fun s => N (snd s)) (create_missing sr (o_tenantId o) k l m) (fun _ s => N (snd s)) (fun _ => True).
Proof.
  revert k m. induction l as [|pu l IH]; intros k m; simpl; [apply (triple_ret m (fun _ s => N (snd s)))|].
  destruct (map_has m _); [apply IH|]. eapply triple_bind; [apply triple_directory|]. intros id. apply IH.
Qed.

Lemma apply_users_counters members p :
  triple (fun s => deactivated_at_most 0 (snd s)) (apply_users sr (o_tenantId o) members p)
    (fun _ s => deactivated_at_most 0 (snd s)) (fun _ => True).
Proof.
  set (N := deactivated_at_most 0). unfold apply_users.
  apply (triple_bind _ _ _ (fun _ s => N (snd s))); [apply (triple_directory _ N)|]. intros ex.
  eapply triple_bind; [apply (create_missing_counters _ _ _ N)|]. intros ube.
  eapply triple_bind; [by apply triple_lift|]. intros ids. cbv beta.
  apply (triple_bind _ _ _ (fun _ s => N (snd s))).
  { eapply triple_weaken; [apply (triple_directory _ N)|by intros s []|done|done]. }
  intros tm. apply (triple_bind _ _ _ (fun _ s => N (snd s))).
  - apply triple_for. intros [k pu] _. unfold provision.
    apply (triple_bind _ _ _ (fun _ s => N (snd s))).
    { eapply triple_weaken; [by apply (triple_lift _ (fun s => N (snd s)) (fun _ => True))|done|by intros a s []|done]. }
    intros u. apply (triple_bind _ _ _ (fun _ s => N (snd s))).
    { destruct (map_get tm u) as [[id [t|]]|]; [destruct (pu_active pu)| |];
        first [apply (triple_directory _ N)|apply (triple_ret tt (fun _ s => N (snd s)))]. }
    intros ?. eapply triple_bind; [apply (triple_directory _ N)|]. intros ? [d n] Hn. exact Hn.
  - intros ?. apply triple_for. intros [pu i] _. unfold apply_update.
    destruct (map_get members i) as [m|]; [|apply (triple_ret tt (fun _ s => N (snd s)))].
    eapply triple_bind; [apply (triple_directory _ N)|]. intros ?.
    destruct (_ && _); [intros [d n] Hn; exact Hn|].
    eapply triple_bind; [apply (triple_directory _ N)|]. intros ? [d n] Hn. exact Hn.
Qed.

Lemma apply_counters members p :
  triple (fun s => deactivated_at_most 0 (snd s)) (apply_tx sr (o_tenantId o) members p)
    (fun _ s => deactivated_at_most (List.length (p_toDeactivate p)) (snd s)) (fun _ => True).
Proof.
  eapply triple_bind; [apply apply_users_counters|].
  intros ? [d n] Hn. unfold apply_deactivations.
  pose proof (member_ids_length members (p_toDeactivate p)) as Hlen.
  destruct (member_ids members (p_toDeactivate p)) as [|x ids'] eqn:E.
  - unfold st_ret. unfold deactivated_at_most in *. simpl in *. lia.
  - pose proof (deactivate_count (o_tenantId o) (x :: ids') (sr_now sr Apply) d) as Hc.
    unfold st_bind, on_directory. cbn -[deactivate_ids]. unfold deactivated_at_most.
    cbn -[deactivate_ids]. lia.
Qed.
End Guard.

Section GuardBound.
Context (URL : jsstr -> option url) (decryptCredentials : jsstr -> jsstr -> jsstr -> outcome jsstr jsstr)
  (fetchUsers : jsstr -> jsstr -> outcome jsstr (list ProviderUser)) (sr : surroundings) (o : SyncOptions).

Lemma finish_counters c s s' r :
  finish_run sr o c s = (s', Ok r) -> r_counters r = snd s /\ r_success r = true.
Proof.
  unfold finish_run, st_bind, get_counters. destruct s as [d n]. intros H.
  destruct (transaction sr WriteLog _ _) as [s1 [id|e]]; [|done].
  destruct (transaction sr FinishConfig _ _) as [s2 [u|e]]; [|done]. unfold st_ret in H. by simplify_eq.
Qed.

(** What a successful body did: it loaded a plan that the guard let pass, applied
    it, and reports the counters the application left. *)
Lemma body_success d n s' r :
  sync_body URL decryptCredentials fetchUsers sr o (d, n) = (s', Ok r) -> r_success r = true ->
  exists c creds pus d1 members n1 s2,
    d1 = sr_others sr LoadData (sr_others sr LoadConfig d) /\
    find_config (o_tenantId o) (o_configId o) (sr_others sr LoadConfig d) = Some c /\
    decryptCredentials (c_credentials c) (o_configId o) (o_tenantId o) = Ok creds /\
    fetchUsers (c_provider c) creds = Ok pus /\
    load_members (o_tenantId o) d1 = Ok members /\
    let p := diff (map_of (load_mappings (o_tenantId o) d1)) (by_user members) (List.filter has_email pus) in
    guard_trips (o_force o) (List.length (p_toDeactivate p)) (List.length (List.filter is_active members)) = false /\
    n1 = n /\ apply_changes sr o (by_user members) p (d1, n1) = (s2, Ok tt) /\
    finish_run sr o c s2 = (s', Ok r).
Proof.
  intros H Hsucc. unfold sync_body in H. apply st_bind_Ok_inv in H as (s1 & cfg & H1 & H).
  unfold transaction, on_directory in H1. destruct (sr_fault sr LoadConfig); [done|].
  simplify_eq. destruct (find_config _ _ _) as [c|] eqn:Ec; [|done].
  apply st_bind_Ok_inv in H as (s2 & creds & H1 & H). unfold st_lift in H1. simplify_eq.
  apply st_bind_Ok_inv in H as (s3 & pus & H2 & H). unfold st_lift in H2. simplify_eq.
  apply st_bind_Ok_inv in H as (s4 & [exts members] & H3 & H).
  unfold transaction, on_directory in H3. destruct (sr_fault sr LoadData); [done|].
  unfold load_data in H3. destruct (load_members _ _) as [ms|e] eqn:Em; simpl in H3; [|done]. simplify_eq.
  destruct (guard_trips _ _ _) eqn:Eg.
  - exfalso. unfold abort_safety in H. apply st_bind_Ok_inv in H as (s5 & id & _ & H).
    apply st_bind_Ok_inv in H as (s6 & u & _ & H). unfold st_ret in H. by simplify_eq.
  - apply st_bind_Ok_inv in H as (s5 & [] & H5 & H). eexists _, _, _, _, _, _, _. split_and!; try done.
Qed.

Lemma run_success d r d' :
  runDirectorySync URL decryptCredentials fetchUsers sr o d = (d', r) -> r_success r = true ->
  exists d1 n1 n', acquire_lock sr o (d, zero_counters) = ((d1, n1), Ok true) /\
    sync_body URL decryptCredentials fetchUsers sr o (d1, zero_counters) = ((d', n'), Ok r).
Proof.
  unfold runDirectorySync. intros H Hs. destruct (acquire_lock _ _ _) as [[d1 n1] [[|]|e]] eqn:El;
    [|by simplify_eq..].
  destruct (sync_body _ _ _ _ _ _) as [[d2 n2] [r2|e]] eqn:Eb; [simplify_eq; by eexists _, _, _|].
  destruct (writeSyncError _ _ _ _ _). destruct (error_log _ _ _ _ _) as [[? ?] ?]. by simplify_eq.
Qed.

(** Without force a successful run deactivates, among the members whose user is
    missing from the provider's answer, at most a fifth of the members that were
    active when the run began. *)
Theorem absent_deactivations_bounded d r d'
    (Hrun : runDirectorySync URL decryptCredentials fetchUsers sr o d = (d', r))
    (Hsucc : r_success r = true) (Hforce : o_force o = false) (Hquiet : members_quiet sr) :
  5 * usersDeactivated (r_counters r) <= Z.of_nat (active_members (o_tenantId o) d).
Proof.
  destruct (run_success _ _ _ Hrun Hsucc) as (d1 & n1 & n' & Hl & Hb).
  destruct (body_success _ _ _ _ Hb Hsucc) as (c & creds & pus & dl & members & n2 & [d3 n3] & Hdl & _ & _ & _ & Hm & Hg & -> & Ha & Hf).
  destruct (finish_counters _ _ _ _ Hf) as [-> _]. set (p := diff _ _ _) in *.
  assert (Hmem : d_members d1 = d_members d).
  { pose proof (keeps_acquire sr o (fun x => d_members x = d_members d)) as Hk.
    assert (H : d_members (fst (fst (acquire_lock sr o (d, zero_counters)))) = d_members d); [|by rewrite Hl in H].
    apply Hk; [by intros x y (_ & <- & _)| |done]. intros ph x Hx. by rewrite Hquiet. }
  assert (Hact : active_members (o_tenantId o) dl = active_members (o_tenantId o) d).
  { unfold active_members. by rewrite Hdl, !Hquiet, Hmem. }
  rewrite (load_members_active _ _ _ Hm), Hact in Hg.
  assert (Hcount : usersDeactivated n3 <= Z.of_nat (List.length (p_toDeactivate p))).
  { unfold apply_changes in Ha. destruct (o_dryRun o).
    - unfold set_counters in Ha. simplify_eq. simpl. lia.
    - pose proof (triple_transaction sr Apply _ (deactivated_at_most 0) _
        (apply_counters sr o (by_user members) p) (dl, zero_counters)) as Ht.
      rewrite Ha in Ht. destruct Ht; [done|]. done. }
  unfold guard_trips in Hg. rewrite Hforce in Hg. simpl in Hg.
  destruct (Nat.ltb_spec 0 (active_members (o_tenantId o) d)) as [Hpos|Hzero]; simpl in Hg.
  - apply Nat.ltb_ge in Hg. simpl in *. lia.
  - assert (Hempty : p_toDeactivate p = []).
    { destruct (p_toDeactivate p) eqn:E; [done|]. exfalso.
      destruct (diff_deactivate_active (map_of (load_mappings (o_tenantId o) dl)) (by_user members)
        (List.filter has_email pus)) as (u & m & Hu & Ha'); [by fold p; rewrite E|].
      apply by_user_in in Hu as [Hu _].
      assert (Hin : In m (List.filter is_active members)) by (apply filter_In; split; [by apply list_elem_of_In|done]).
      pose proof (load_members_active _ _ _ Hm) as Hlen. rewrite Hact in Hlen.
      destruct (List.filter is_active members); simpl in *; [done|lia]. }
    rewrite Hempty in Hcount. simpl in *. lia.
Qed.
End GuardBound.

(** ** The lock *)

Section LockFacts.
Context (URL : jsstr -> option url) (decryptCredentials : jsstr -> jsstr -> jsstr -> outcome jsstr jsstr)
  (fetchUsers : jsstr -> jsstr -> outcome jsstr (list ProviderUser)) (sr : surroundings) (o : SyncOptions).
Abbreviation config := (find_config (o_tenantId o) (o_configId o)).
Abbreviation run := (runDirectorySync URL decryptCredentials fetchUsers sr o).

(** Other requests leave the configurations alone during the run. *)
Definition configs_quiet : Prop := forall ph d, d_configs (sr_others sr ph d) = d_configs d.

Lemma find_config_congr d d' : d_configs d' = d_configs d -> config d' = config d.
Proof. unfold find_config. by intros ->. Qed.

Lemma update_config_Ok f d d' :
  (forall c, c_tenantId (f c) = c_tenantId c) ->
  update_config (o_tenantId o) (o_configId o) f d = (d', Ok tt) -> exists c, config d = Some c /\ config d' = Some (f c).
Proof.
  intros Hf H. unfold update_config in H. unfold find_config.
  destruct (d_configs d !! o_configId o) as [c|]; [|done].
  destruct (c_tenantId c =s o_tenantId o) eqn:E; [|done]. simplify_eq. exists c. split; [done|]. simpl.
  by rewrite lookup_insert_eq, Hf, E.
Qed.

Lemma update_config_present f d :
  (forall c, c_tenantId (f c) = c_tenantId c) -> is_Some (config d) ->
  exists d', update_config (o_tenantId o) (o_configId o) f d = (d', Ok tt).
Proof.
  intros Hf [c Hc]. unfold find_config in Hc. unfold update_config.
  destruct (d_configs d !! o_configId o) as [c'|]; [|done]. destruct (c_tenantId c' =s o_tenantId o); [|done]. eauto.
Qed.

Lemma transaction_Ok {A} ph (f : sync A) d n s' a :
  transaction sr ph f (d, n) = (s', Ok a) -> f (sr_others sr ph d, n) = (s', Ok a).
Proof.
  unfold transaction. destruct (sr_fault sr ph); [done|]. by destruct (f _) as [[? ?] [?|?]]; intros; simplify_eq.
Qed.

(** A body that returns has released the lock with its own status. *)
Lemma body_status d n s' r :
  sync_body URL decryptCredentials fetchUsers sr o (d, n) = (s', Ok r) ->
  exists c, config (fst s') = Some c /\ c_status c = if r_success r then S_SUCCESS else S_ERROR.
Proof.
  intros H. unfold sync_body in H. apply st_bind_Ok_inv in H as (s1 & [c|] & _ & H); [|done].
  apply st_bind_Ok_inv in H as (s2 & creds & _ & H). apply st_bind_Ok_inv in H as (s3 & pus & _ & H).
  apply st_bind_Ok_inv in H as (s4 & [exts members] & _ & H). destruct (guard_trips _ _ _).
  - apply st_bind_Ok_inv in H as ([d5 n5] & id & _ & H). apply st_bind_Ok_inv in H as ([d6 n6] & u & H6 & H).
    unfold st_ret in H. simplify_eq. apply transaction_Ok in H6. unfold on_directory in H6.
    destruct (update_config _ _ _ _) as [d7 [[]|e]] eqn:E; simplify_eq.
    apply update_config_Ok in E as (c' & _ & E); [|done]. eauto.
  - apply st_bind_Ok_inv in H as ([d5 n5] & [] & _ & H). unfold finish_run in H.
    apply st_bind_Ok_inv in H as ([d6 n6] & k & _ & H). apply st_bind_Ok_inv in H as ([d7 n7] & id & _ & H).
    apply st_bind_Ok_inv in H as ([d8 n8] & u & H8 & H). unfold st_ret in H. simplify_eq.
    apply transaction_Ok in H8. unfold on_directory in H8.
    destruct (update_config _ _ _ _) as [d9 [[]|e]] eqn:E; simplify_eq.
    apply update_config_Ok in E as (c' & _ & E); [|done]. eauto.
Qed.

Lemma apply_keeps_configs C tenantId members p : keeps (fun d => d_configs d = C) (apply_tx sr tenantId members p).
Proof.
  apply keeps_apply; repeat intro; unfold create_user, create_member, update_member, update_user_name,
    upsert_mapping, deactivate_ids; repeat case_match; assumption.
Qed.

Lemma update_keeps_present f d :
  (forall c, c_tenantId (f c) = c_tenantId c) -> is_Some (config d) ->
  is_Some (config (fst (update_config (o_tenantId o) (o_configId o) f d))).
Proof.
  intros Hf H. destruct (update_config_present f d Hf H) as [d' E]. rewrite E.
  destruct (update_config_Ok f d d' Hf E) as (c & _ & Hc). simpl. eauto.
Qed.

Lemma log_keeps_configs id l d : d_configs (fst (create_log id l d)) = d_configs d.
Proof. unfold create_log. destruct (d_logs d !! id); [done|]. by destruct (d_configs d !! _). Qed.

Lemma body_keeps_config : configs_quiet ->
  keeps (fun d => is_Some (config d)) (sync_body URL decryptCredentials fetchUsers sr o).
Proof.
  intros Hq. set (R := fun d => is_Some (config d)).
  assert (Ho : forall ph d, R d -> R (sr_others sr ph d)).
  { intros ph d. unfold R. by rewrite (find_config_congr d _ (Hq ph d)). }
  assert (Hlog : forall ph id l, keeps R (transaction sr ph (on_directory (create_log id l)))).
  { intros ph id l. apply keeps_transaction; [auto|]. apply keeps_directory. intros d Hd. unfold R.
    by rewrite (find_config_congr d _ (log_keeps_configs id l d)). }
  assert (Hcfg : forall ph f, (forall c, c_tenantId (f c) = c_tenantId c) ->
    keeps R (transaction sr ph (on_directory (update_config (o_tenantId o) (o_configId o) f)))).
  { intros ph f Hf. apply keeps_transaction; [auto|]. apply keeps_directory. intros d Hd. by apply update_keeps_present. }
  unfold sync_body. apply keeps_bind; [by apply keeps_transaction, keeps_read; auto|].
  intros [c|]; [|apply keeps_throw]. apply keeps_bind; [apply keeps_lift|]. intros creds.
  apply keeps_bind; [apply keeps_lift|]. intros pus.
  apply keeps_bind; [by apply keeps_transaction, keeps_read; auto|]. intros [exts members].
  destruct (guard_trips _ _ _).
  - unfold abort_safety. apply keeps_bind; [apply Hlog|]. intros id.
    apply keeps_bind; [by apply Hcfg|]. intros _. apply keeps_ret.
  - apply keeps_bind.
    + unfold apply_changes. destruct (o_dryRun o); [intros d n Hd; exact Hd|].
      apply keeps_transaction; [auto|]. intros d n Hd. unfold R.
      rewrite (find_config_congr d _ (apply_keeps_configs (d_configs d) _ _ _ d n eq_refl)). exact Hd.
    + intros _. unfold finish_run. apply keeps_bind; [intros d n Hd; exact Hd|]. intros n.
      apply keeps_bind; [apply Hlog|]. intros id. apply keeps_bind; [by apply Hcfg|]. intros _. apply keeps_ret.
Qed.

(** A run that finds the configuration free or its lock stale never leaves it
    locked: wherever the run fails, the configuration ends with status SUCCESS
    exactly when the run reports success, and with status ERROR otherwise, as long
    as the lock and the error status could be written. *)
Theorem sync_releases_lock d c0 (Hconfig : config d = Some c0)
    (Hfree : lockable (sr_now sr PreCheck - STALE_LOCK_MINUTES * MS_PER_MINUTE) c0 = true)
    (Hquiet : configs_quiet) (Hpre : sr_fault sr PreCheck = None) (Hlock : sr_fault sr Lock = None)
    (Herr : sr_fault sr WriteError = None) :
  exists c, config (fst (run d)) = Some c /\
    c_status c = if r_success (snd (run d)) then S_SUCCESS else S_ERROR.
Proof.
  unfold runDirectorySync.
  assert (Hacq : exists d1, acquire_lock sr o (d, zero_counters) = ((d1, zero_counters), Ok true) /\ is_Some (config d1)).
  { unfold acquire_lock, transaction, st_bind, on_directory. rewrite Hpre, Hlock. unfold claim_config.
    rewrite !(find_config_congr _ _ (Hquiet _ _)), Hconfig, Hfree.
    assert (Hsome : forall R, is_Some (config (with_resets (with_configs (sr_others sr Lock (sr_others sr PreCheck d))
      (<[o_configId o := set_running (sr_startedAt sr) c0]> (d_configs (sr_others sr Lock (sr_others sr PreCheck d))))) R))).
    { intros R. unfold find_config in *. simpl. rewrite lookup_insert_eq. simpl.
      destruct (d_configs d !! o_configId o) as [c1|]; [|done].
      destruct (c_tenantId c1 =s o_tenantId o) eqn:E; [|done]. simplify_eq. rewrite E. eauto. }
    destruct (stale_since _ _); eexists; (split; [reflexivity|]); [apply Hsome|exact (Hsome [])]. }
  destruct Hacq as (d1 & -> & Hd1).
  pose proof (body_keeps_config Hquiet d1 zero_counters Hd1) as Hb.
  pose proof (body_status d1 zero_counters) as Hs.
  destruct (sync_body _ _ _ _ _ _) as [[d2 n2] [r|e]]; [by apply (Hs (d2, n2) r)|]. clear Hs. simpl in Hb.
  unfold writeSyncError, error_log, transaction. rewrite Herr. unfold on_directory.
  destruct (update_config_present (set_error (sanitized URL e) (Some (sr_now sr WriteError)))
    (sr_others sr WriteError d2)) as [d3 E]; [done|by rewrite (find_config_congr _ _ (Hquiet _ _))|].
  rewrite E. apply update_config_Ok in E as (c & _ & Hc); [|done].
  destruct (sr_fault sr ErrorLog).
  - cbn [fst]. rewrite (find_config_congr _ _ (Hquiet _ _)). eexists. split; [exact Hc|done].
  - match goal with |- context [create_log ?i ?l ?x] =>
      pose proof (find_config_congr _ _ (eq_trans (log_keeps_configs i l x) (Hquiet ErrorLog d3))) as Hx;
      destruct (create_log i l x) as [d4 [id|e4]] end; cbn [fst] in *.
    + rewrite Hx. eexists. split; [exact Hc|done].
    + rewrite (find_config_congr _ _ (Hquiet _ _)). eexists. split; [exact Hc|done].
Qed.

(** While a run holds the lock another run of the same configuration is refused
    and changes nothing, until thirty minutes have passed. *)
Theorem locked_sync_refused d c0 since (Hconfig : config d = Some c0) (Hrunning : c_status c0 = S_RUNNING)
    (Hsince : c_lastSyncAt c0 = Some since)
    (Hfresh : sr_now sr PreCheck <= since + STALE_LOCK_MINUTES * MS_PER_MINUTE)
    (Hquiet : forall ph x, sr_others sr ph x = x) :
  fst (run d) = d /\ r_success (snd (run d)) = false /\ r_counters (snd (run d)) = zero_counters.
Proof.
  unfold runDirectorySync, acquire_lock, transaction, st_bind, on_directory. rewrite !Hquiet.
  destruct (sr_fault sr PreCheck); [done|]. rewrite Hquiet. destruct (sr_fault sr Lock); [done|].
  unfold claim_config. rewrite Hconfig. unfold lockable, stale_since. rewrite Hrunning, Hsince.
  destruct (since <? _) eqn:E; [bools; lia|]. done.
Qed.

(** The status is written without a test that the lock is still the run's own: after
    a stale lock has been taken over, the first run's last statement frees the lock
    of the second while that one is at work. *)
Lemma finishing_run_frees_foreign_lock completedAt stats next t th d c d' :
  config d = Some c ->
  update_config (o_tenantId o) (o_configId o) (set_success completedAt stats next) d = (d', Ok tt) ->
  snd (claim_config (o_tenantId o) (o_configId o) t th d') = true.
Proof.
  intros Hc H. apply update_config_Ok in H as (c' & _ & H); [|done]. unfold claim_config. by rewrite H.
Qed.
End LockFacts.
