(* ===== verification/DirectorySyncSpec.v ===== *)
(** * Directory synchronisation: undisturbed runs

    What runDirectorySync ([DirectorySync]) achieves when no other request and no
    failure intervenes: a run that does not succeed changes nobody, a dry run
    predicts the counts of the real one, and a successful run leaves the tenant
    reconciled with the provider's answer, so that a second run on the same answer
    counts no creation and no deactivation of a missing user.  The last part holds the
    behaviours that the header comment of engine.ts does not announce. *)

From S2P Require Import Prelude JsString JsMap Table Dpop DirectoryProviders DirectorySync.
Local Open Scope Z_scope.

(** No other request and no failure. *)
Definition serial (sr : surroundings) : Prop :=
  (forall ph d, sr_others sr ph d = d) /\ (forall ph, sr_fault sr ph = None).

Section Serial.
Context (URL : jsstr -> option url) (decryptCredentials : jsstr -> jsstr -> jsstr -> outcome jsstr jsstr)
  (fetchUsers : jsstr -> jsstr -> outcome jsstr (list ProviderUser)) (sr : surroundings) (o : SyncOptions).
Context (Hserial : serial sr).
Abbreviation run := (runDirectorySync URL decryptCredentials fetchUsers sr o).
Abbreviation config := (find_config (o_tenantId o) (o_configId o)).

Lemma serial_transaction {A} ph (f : sync A) s :
  transaction sr ph f s =
  match f s with (s', Ok a) => (s', Ok a) | ((_, n'), Throw e) => ((fst s, n'), Throw e) end.
Proof.
  destruct Hserial as [Ho Hf], s as [d n]. unfold transaction. by rewrite Ho, Hf.
Qed.

Lemma triple_serial {A} ph (f : sync A) (P X : directory * counters -> Prop) (Q : A -> directory * counters -> Prop) :
  triple P f Q (fun _ => True) -> (forall d n n', P (d, n) -> X (d, n')) ->
  triple P (transaction sr ph f) Q X.
Proof.
  intros Hf HX [d n] Hs. rewrite serial_transaction. specialize (Hf (d, n) Hs).
  destruct (f (d, n)) as [[d' n'] [a|e]]; [exact Hf|]. simpl. by eapply HX.
Qed.

(** A read of the directory. *)
Lemma triple_read {A} ph (f : directory -> outcome jsstr A) (P X : directory * counters -> Prop) :
  (forall d n n', P (d, n) -> X (d, n')) ->
  triple P (transaction sr ph (on_directory (fun d => (d, f d)))) (fun a s => P s /\ f (fst s) = Ok a) X.
Proof.
  intros HX. apply triple_serial; [|done]. intros [d n] H. unfold on_directory. by destruct (f d) eqn:E.
Qed.

(** The status of the run can be written. *)
Definition can_finish (d : directory) : Prop :=
  is_Some (config d) /\ d_logs d !! sr_logId sr WriteLog = None.

Lemma can_finish_congr d d' : d_configs d' = d_configs d -> d_logs d' = d_logs d -> can_finish d -> can_finish d'.
Proof. unfold can_finish, find_config. by intros -> ->. Qed.

Lemma find_config_Some d c : config d = Some c -> d_configs d !! o_configId o = Some c.
Proof. unfold find_config. destruct (d_configs d !! _) as [c'|]; [|done]. by destruct (_ =s _); intros; simplify_eq. Qed.

Lemma finish_succeeds c d n : can_finish d -> exists s' r, finish_run sr o c (d, n) = (s', Ok r).
Proof.
  intros [[c' Hc] Hl]. unfold finish_run, st_bind, get_counters. rewrite serial_transaction.
  unfold on_directory, create_log. cbn [l_configId log_entry]. rewrite Hl, (find_config_Some _ _ Hc).
  rewrite serial_transaction. unfold update_config at 1, with_logs. cbn [d_configs].
  rewrite (find_config_Some _ _ Hc). unfold find_config in Hc. rewrite (find_config_Some _ _ Hc) in Hc.
  destruct (c_tenantId c' =s o_tenantId o); [|done]. eexists _, _. reflexivity.
Qed.

Lemma apply_keeps_logs L tenantId members p : keeps (fun d => d_logs d = L) (apply_tx sr tenantId members p).
Proof.
  apply keeps_apply; repeat intro; unfold create_user, create_member, update_member, update_user_name,
    upsert_mapping, deactivate_ids; repeat case_match; assumption.
Qed.

Lemma people_refl d : same_people d d.
Proof. done. Qed.

Lemma finish_people c s s' r : finish_run sr o c s = (s', Ok r) -> same_people (fst s) (fst s').
Proof.
  intros H. pose proof (keeps_finish sr o (same_people (fst s))) as Hk. destruct s as [d n].
  specialize (Hk ltac:(intros x y; unfold same_people; intuition congruence)
    ltac:(intros ph x Hx; by rewrite (proj1 Hserial)) c d n (people_refl d)). by rewrite H in Hk.
Qed.

(** The body: it throws or aborts without touching anybody, or it succeeds. *)
Lemma body_atomic d0 :
  triple (fun s => same_people d0 (fst s) /\ can_finish (fst s))
    (sync_body URL decryptCredentials fetchUsers sr o)
    (fun r s => r_success r = true \/ same_people d0 (fst s)) (fun s => same_people d0 (fst s)).
Proof.
  set (P := fun s : directory * counters => same_people d0 (fst s) /\ can_finish (fst s)).
  unfold sync_body. eapply triple_bind; [apply triple_read; by intros d n n' []|].
  intros [c|]; [|intros s [[Hp _] _]; exact Hp].
  eapply triple_bind; [apply triple_lift; by intros s [[]]|]. intros creds.
  eapply triple_bind; [apply triple_lift; by intros s [[[]]]|]. intros pus.
  eapply triple_bind; [apply triple_read; by intros d n n' [[[[]]]]|]. intros [exts members].
  destruct (guard_trips _ _ _).
  - intros [d n] H. assert (Hp : same_people d0 d) by (destruct H as [[[[[Hp _] _] _] _] _]; exact Hp).
    pose proof (keeps_abort URL sr o (same_people d0)) as Hk.
    specialize (Hk ltac:(intros x y; unfold same_people; intuition congruence)
      ltac:(intros ph x Hx; by rewrite (proj1 Hserial)) (guard_message
        (List.length (p_toDeactivate (diff exts (by_user members) (List.filter has_email pus))))
        (List.length (List.filter is_active members))) d n Hp).
    destruct (abort_safety _ _ _ _ _) as [[d' n'] [r|e]]; [by right|done].
  - intros [d n] H.
    assert (Hp : same_people d0 d /\ can_finish d) by (destruct H as [[[[Hp _] _] _] _]; exact Hp).
    clear H. destruct Hp as [Hp Hf]. unfold st_bind, apply_changes.
    set (p := diff _ _ _). destruct (o_dryRun o).
    { unfold set_counters. destruct (finish_succeeds c d {| usersCreated := Z.of_nat (List.length (p_toCreate p));
        usersUpdated := Z.of_nat (List.length (p_toUpdate p));
        usersDeactivated := Z.of_nat (List.length (p_toDeactivate p)) |} Hf) as (s' & r & E).
      rewrite E. destruct s' as [d' n']. left. by apply finish_counters in E as [_ E]. }
    rewrite serial_transaction.
    pose proof (apply_keeps_configs sr (d_configs d) (o_tenantId o) (by_user members) p d n eq_refl) as Hc.
    pose proof (apply_keeps_logs (d_logs d) (o_tenantId o) (by_user members) p d n eq_refl) as Hl.
    destruct (apply_tx _ _ _ _ _) as [[d' n'] [[]|e]]; [|done]. simpl in Hc, Hl.
    destruct (finish_succeeds c d' n' (can_finish_congr _ _ Hc Hl Hf)) as (s' & r & E).
    rewrite E. left. by apply finish_counters in E as [_ E].
Qed.

Lemma serial_lock d :
  acquire_lock sr o (d, zero_counters) =
  let th := sr_now sr PreCheck - STALE_LOCK_MINUTES * MS_PER_MINUTE in
  let '(d', acquired) := claim_config (o_tenantId o) (o_configId o) (sr_startedAt sr) th d in
  ((match acquired, stale_since th (config d) with
    | true, Some since => with_resets d' (d_staleResets d' ++ [(o_tenantId o, o_configId o, since)])
    | _, _ => d'
    end, zero_counters), Ok acquired).
Proof.
  unfold acquire_lock, st_bind. rewrite serial_transaction. unfold on_directory at 1.
  rewrite serial_transaction. unfold on_directory. cbv zeta.
  destruct (claim_config _ _ _ _ d) as [d' [|]]; [|done]. by destruct (stale_since _ _).
Qed.

(** The state after the lock has the people, logs and credentials of the one before. *)
Lemma serial_lock_state d d1 n1 :
  acquire_lock sr o (d, zero_counters) = ((d1, n1), Ok true) ->
  same_people d d1 /\ d_logs d1 = d_logs d /\
  exists c, config d = Some c /\ config d1 = Some (set_running (sr_startedAt sr) c).
Proof.
  rewrite serial_lock. cbv zeta. unfold claim_config.
  destruct (config d) as [c|] eqn:Ec; [|done]. destruct (lockable _ c); [|done]. intros H.
  assert (Hc1 : config (with_configs d (<[o_configId o := set_running (sr_startedAt sr) c]> (d_configs d)))
                = Some (set_running (sr_startedAt sr) c)).
  { unfold find_config in *. simpl. rewrite lookup_insert_eq. simpl.
    destruct (d_configs d !! o_configId o) as [c1|]; [|done].
    destruct (c_tenantId c1 =s o_tenantId o) eqn:E; [|done]. simplify_eq. by rewrite E. }
  destruct (stale_since _ _); simplify_eq; split_and!; try done; by exists c.
Qed.

(** An undisturbed run that does not succeed has changed no user, membership or
    mapping: an error anywhere in the apply transaction undoes all of it. *)
Theorem failed_sync_changes_nobody d (Hlog : d_logs d !! sr_logId sr WriteLog = None)
    (Hfail : r_success (snd (run d)) = false) :
  same_people d (fst (run d)).
Proof.
  unfold runDirectorySync in *. pose proof (serial_lock_state d) as Hlock.
  pose proof (keeps_acquire sr o (same_people d)) as Hk.
  specialize (Hk ltac:(intros x y; unfold same_people; intuition congruence)
    ltac:(intros ph x Hx; by rewrite (proj1 Hserial)) d zero_counters (people_refl d)).
  destruct (acquire_lock _ _ _) as [[d1 n1] [[|]|e]]; simpl in Hk; [|done..].
  destruct (Hlock d1 n1 eq_refl) as (Hp & Hl & c & _ & Hc).
  assert (Hfin : can_finish d1) by (split; [eauto|by rewrite Hl]).
  pose proof (body_atomic d (d1, zero_counters) (conj Hk Hfin)) as Hb.
  destruct (sync_body _ _ _ _ _ _) as [[d2 n2] [r|e]].
  { destruct Hb as [Hb|Hb]; [|done]. simpl in Hfail. congruence. }
  assert (H3 : same_people d (fst (fst (writeSyncError URL sr o e (d2, n2))))).
  { apply (keeps_transaction (same_people d)); [intros x; by rewrite (proj1 Hserial)| |done].
    apply keeps_directory. intros x. apply people_config. unfold same_people. intuition congruence. }
  destruct (writeSyncError _ _ _ _ _) as [[d3 n3] r3]. simpl in H3.
  assert (H4 : same_people d (fst (fst (error_log URL sr o e (d3, n3))))).
  { apply (keeps_transaction (same_people d)); [intros x; by rewrite (proj1 Hserial)| |done].
    apply keeps_directory. intros x. apply people_log. unfold same_people. intuition congruence. }
  by destruct (error_log _ _ _ _ _) as [[d4 n4] r4].
Qed.
End Serial.

(** ** Counting what a run applies *)

Definition add_counters (a b c : Z) (n : counters) : counters :=
  {| usersCreated := usersCreated n + a; usersUpdated := usersUpdated n + b;
     usersDeactivated := usersDeactivated n + c |}.

Lemma for_counts {A} (f : A -> sync unit) (l : list A) (a b : Z) s s' :
  (forall x s s', x ∈ l -> f x s = (s', Ok tt) -> snd s' = add_counters a b 0 (snd s)) ->
  st_for f l s = (s', Ok tt) ->
  snd s' = add_counters (a * Z.of_nat (List.length l)) (b * Z.of_nat (List.length l)) 0 (snd s).
Proof.
  revert s. induction l as [|x l IH]; intros s Hf H; simpl in H.
  - unfold st_ret in H. simplify_eq. destruct s' as [d [n1 n2 n3]]. unfold add_counters. simpl. f_equal; lia.
  - apply st_bind_Ok_inv in H as (s1 & [] & H1 & H). apply Hf in H1; [|apply list_elem_of_here].
    rewrite (IH s1), H1; [|intros y t t' Hy; apply Hf; by apply list_elem_of_further|done].
    unfold add_counters. cbn [usersCreated usersUpdated usersDeactivated List.length]. f_equal; lia.
Qed.

Lemma directory_counts {A} (f : directory -> directory * outcome jsstr A) s s' a :
  on_directory f s = (s', Ok a) -> snd s' = snd s.
Proof. unfold on_directory. destruct s as [d n]. destruct (f d). intros. by simplify_eq. Qed.

Section Counts.
Context (sr : surroundings) (tenantId : jsstr).

Lemma create_missing_counts k l m s s' m' :
  create_missing sr tenantId k l m s = (s', Ok m') -> snd s' = snd s.
Proof.
  revert k m s. induction l as [|pu l IH]; intros k m s H; simpl in H; [unfold st_ret in H; by simplify_eq|].
  destruct (map_has m _); [by eapply IH|]. apply st_bind_Ok_inv in H as (s1 & id & H1 & H).
  apply directory_counts in H1. apply IH in H. congruence.
Qed.

Lemma provision_counts ube tm e s s' :
  provision sr tenantId ube tm e s = (s', Ok tt) -> snd s' = add_counters 1 0 0 (snd s).
Proof.
  destruct e as [k pu]. unfold provision. intros H. apply st_bind_Ok_inv in H as (s1 & u & H1 & H).
  unfold st_lift in H1. simplify_eq. apply st_bind_Ok_inv in H as (s2 & [] & H2 & H).
  apply st_bind_Ok_inv in H as (s3 & [] & H3 & H). apply directory_counts in H3.
  assert (Hs : snd s2 = snd s1).
  { destruct (map_get tm u) as [[id [t|]]|]; [destruct (pu_active pu)| |];
      first [by apply directory_counts in H2|unfold st_ret in H2; by simplify_eq]. }
  unfold count_created in H. destruct s3 as [d3 n3]. simplify_eq. simpl in *. rewrite H3, Hs.
  unfold add_counters. destruct s1 as [d1 [n1 n2 n3']]. simpl. f_equal; lia.
Qed.

Lemma update_counts members pu i m s s' :
  map_get members i = Some m ->
  apply_update sr tenantId members (pu, i) s = (s', Ok tt) -> snd s' = add_counters 0 1 0 (snd s).
Proof.
  intros Hm H. unfold apply_update in H. rewrite Hm in H. apply st_bind_Ok_inv in H as (s1 & [] & H1 & H).
  apply directory_counts in H1.
  assert (Hc : forall t t', count_updated t = (t', Ok tt) -> snd t' = add_counters 0 1 0 (snd t)).
  { intros [d [n1 n2 n3]] t' Ht. unfold count_updated in Ht. simplify_eq. unfold add_counters. simpl. f_equal; lia. }
  destruct (_ && _); [apply Hc in H; congruence|].
  apply st_bind_Ok_inv in H as (s2 & [] & H2 & H). apply directory_counts in H2. apply Hc in H. congruence.
Qed.

Lemma apply_users_counts exts members users s s' :
  let p := diff exts members users in
  apply_users sr tenantId members p s = (s', Ok tt) ->
  snd s' = add_counters (Z.of_nat (List.length (p_toCreate p))) (Z.of_nat (List.length (p_toUpdate p))) 0 (snd s).
Proof.
  intros p H. unfold apply_users in H. apply st_bind_Ok_inv in H as (s1 & ex & H1 & H).
  apply directory_counts in H1. apply st_bind_Ok_inv in H as (s2 & ube & H2 & H). apply create_missing_counts in H2.
  apply st_bind_Ok_inv in H as (s3 & ids & H3 & H). unfold st_lift in H3. simplify_eq.
  apply st_bind_Ok_inv in H as (s4 & tm & H4 & H). apply directory_counts in H4.
  apply st_bind_Ok_inv in H as (s5 & [] & H5 & H).
  apply (for_counts _ _ 1 0) in H5; [|intros x t t' _; apply provision_counts].
  apply (for_counts _ _ 0 1) in H.
  - rewrite H, H5, H4, H2, H1, length_imap. unfold add_counters. simpl. f_equal; lia.
  - intros [pu i] t t' Hin Ht. apply diff_update_in in Hin as (_ & _ & m & Hm & _).
    by eapply update_counts.
Qed.

(** Every row of [M] is still there, with its tenant, user and role. *)
Definition rows_kept (M : gmap jsstr dir_member) (d : directory) : Prop :=
  forall id m, M !! id = Some m -> exists m', d_members d !! id = Some m' /\
    m_tenantId m' = m_tenantId m /\ m_userId m' = m_userId m /\ m_role m' = m_role m.

Lemma rows_kept_members M d d' : d_members d' = d_members d -> rows_kept M d -> rows_kept M d'.
Proof. intros E H id m. rewrite E. apply H. Qed.

Lemma rows_kept_update M id t now d :
  rows_kept M d -> rows_kept M (fst (update_member tenantId id (set_deactivated t now) d)).
Proof.
  intros H k m Hk. destruct (H k m Hk) as (m' & Hm' & Hrest). rewrite update_member_lookup, Hm'.
  destruct (_ && _); eexists; (split; [reflexivity|exact Hrest]).
Qed.

Lemma apply_users_rows M members p : keeps (rows_kept M) (apply_users sr tenantId members p).
Proof.
  apply keeps_apply_users.
  - intros k pu d. apply rows_kept_members, create_user_members.
  - intros k u a d H id m Hid. destruct (H id m Hid) as (m' & Hm' & Hrest). exists m'.
    split; [by apply create_member_lookup|done].
  - intros id d. apply rows_kept_update.
  - intros id name d. apply rows_kept_members, update_user_name_members.
  - intros ext id d. apply rows_kept_members, upsert_mapping_members.
  - intros pu i m d _ _ _. apply rows_kept_update.
Qed.

Lemma deactivate_count_exact (ids : list jsstr) now d :
  NoDup ids ->
  (forall id, id ∈ ids -> exists m, d_members d !! id = Some m /\ deactivated_by tenantId ids id m = true) ->
  snd (deactivate_ids tenantId ids now d) = List.length ids.
Proof.
  intros Hnd Hall. unfold deactivate_ids. cbn [snd]. rewrite <- length_map_to_list, <- (length_map fst).
  apply Permutation_length, NoDup_Permutation; [apply NoDup_fst_map_to_list|done|].
  intros id. rewrite list_elem_of_fmap. split.
  - intros ([id' m] & -> & Hin). apply elem_of_map_to_list, map_lookup_filter_Some in Hin as [_ Hb].
    simpl in *. by bools.
  - intros Hid. destruct (Hall id Hid) as (m & Hm & Hb). exists (id, m). split; [done|].
    apply elem_of_map_to_list, map_lookup_filter_Some. done.
Qed.
End Counts.

(** ** The plan of an intact directory *)

Section Plan.
Context (tenantId : jsstr) (d : directory) (members : list member_view) (users : list ProviderUser).
Context (Hok : dir_ok d) (Hmembers : load_members tenantId d = Ok members).
Abbreviation exts := (map_of (load_mappings tenantId d)).
Abbreviation plan := (diff exts (by_user members) users).

Lemma exts_get ext int :
  map_get exts ext = Some int <-> d_mappings d !! (tenantId, ext, USER_RESOURCE) = Some int.
Proof using d.
  split.
  - intros H. by apply load_mappings_in, map_of_in.
  - intros H. apply map_of_get; [|by apply load_mappings_in]. intros v Hv%load_mappings_in. congruence.
Qed.

Lemma exts_in ext int :
  (ext, int) ∈ exts <-> d_mappings d !! (tenantId, ext, USER_RESOURCE) = Some int.
Proof using d.
  rewrite <- exts_get. pose proof (map_of_ok (load_mappings tenantId d)) as Hmok. split; [|apply map_get_in].
  unfold map_ok in Hmok. revert Hmok. generalize exts. intros m Hmok Hin.
  induction m as [|[k v] m IH]; [by apply not_elem_of_nil in Hin|]. simpl in *.
  apply NoDup_cons in Hmok as [Hn Hd]. apply elem_of_cons in Hin as [[= -> ->]|Hin].
  - by rewrite bool_decide_true.
  - rewrite bool_decide_false; [by apply IH|]. intros ->. apply Hn. apply list_elem_of_fmap. by exists (ext, int).
Qed.

(** The membership of a user is the one the run finds. *)
Lemma by_user_row u id m :
  d_members d !! id = Some m -> m_tenantId m = tenantId -> m_userId m = u ->
  exists v, map_get (by_user members) u = Some v /\ mv_id v = id /\ mv_role v = m_role m /\
    mv_deactivatedAt v = m_deactivatedAt m.
Proof using Hok Hmembers.
  intros Hm Ht Hu.
  assert (Hsome : is_Some (map_get (by_user members) u)).
  { apply map_of_has. left. unfold load_members in Hmembers.
    assert (Hin : (id, m) ∈ List.filter (fun kr => m_tenantId (snd kr) =s tenantId) (map_to_list (d_members d))).
    { apply list_elem_of_In, filter_In. split; [by apply list_elem_of_In, elem_of_map_to_list|].
      by apply bool_decide_true. }
    revert Hin Hmembers. generalize (List.filter (fun kr : jsstr * dir_member => m_tenantId (snd kr) =s tenantId)
      (map_to_list (d_members d))). intros l Hin. clear Hok. revert members.
    induction l as [|x l IH]; intros ms H; [by apply not_elem_of_nil in Hin|]. simpl in H.
    destruct (view_member _ _ (fst x) (snd x)) as [v|] eqn:Ev; [|done]. simpl in H.
    destruct (outcome_list _ l) as [vs|]; [|done]. simpl in H. simplify_eq. simpl.
    apply elem_of_cons in Hin as [<-|Hin].
    - exists v. unfold view_member in Ev. simpl in Ev. destruct (d_users d !! _); [|done].
      destruct (_ =s _); [|done]. simplify_eq. simpl. apply list_elem_of_here.
    - destruct (IH Hin vs eq_refl) as [w Hw]. exists w. by apply list_elem_of_further. }
  destruct Hsome as [v Hv]. pose proof (by_user_in _ _ _ Hv) as [Hin Hvu].
  apply (load_members_in _ _ _ _ Hmembers) in Hin as (m0 & w & H1 & H2 & H3 & H4 & H5 & _).
  assert (mv_id v = id) as Hid.
  { eapply (ok_member_unique _ Hok); [exact H1|exact Hm|congruence|congruence]. }
  exists v. rewrite Hid in H1. simplify_eq. split_and!; congruence.
Qed.

Lemma plan_deactivate u :
  u ∈ p_toDeactivate plan <->
  exists ext, d_mappings d !! (tenantId, ext, USER_RESOURCE) = Some u /\ ~ (ext ∈ map pu_externalId users) /\
    exists v, map_get (by_user members) u = Some v /\ is_active v = true /\ mv_role v <> OWNER.
Proof using d.
  unfold diff. destruct (diff_users _ _ _) as [tc tu]. cbn [p_toDeactivate]. rewrite list_elem_of_fmap. split.
  - intros ([ext u'] & -> & Hin). apply list_elem_of_In, filter_In in Hin as [Hin Hd].
    apply list_elem_of_In, exts_in in Hin. unfold deactivates in Hd. cbn [fst snd] in *. bools.
    exists ext. split_and!; [done..|]. destruct (map_get (by_user members) u') as [v|] eqn:E; [|done]. bools. eauto.
  - intros (ext & Hx & Hn & v & Hv & Ha & Hr). exists (ext, u). split; [done|].
    apply list_elem_of_In, filter_In. split; [by apply list_elem_of_In, exts_in|].
    unfold deactivates. cbn [fst snd]. by rewrite Hv, Ha, !bool_decide_false.
Qed.

Lemma plan_deactivate_NoDup : NoDup (p_toDeactivate plan).
Proof using Hok.
  unfold diff. destruct (diff_users _ _ _) as [tc tu]. cbn [p_toDeactivate].
  apply NoDup_fmap_2_strong.
  - intros [e1 u1] [e2 u2] H1 H2. simpl. intros ->. apply list_elem_of_In, filter_In in H1 as [H1 _].
    apply list_elem_of_In, filter_In in H2 as [H2 _]. apply list_elem_of_In, exts_in in H1.
    apply list_elem_of_In, exts_in in H2. f_equal. by eapply (ok_mapping_unique _ Hok).
  - apply NoDup_ListNoDup, List.NoDup_filter, NoDup_ListNoDup. eapply (NoDup_fmap_1 fst), map_of_ok.
Qed.

Lemma member_ids_in id :
  id ∈ member_ids (by_user members) (p_toDeactivate plan) <->
  exists u v, u ∈ p_toDeactivate plan /\ map_get (by_user members) u = Some v /\ mv_id v = id.
Proof.
  unfold member_ids. rewrite list_elem_of_omap. split.
  - intros (u & Hu & He). destruct (map_get (by_user members) u) as [v|] eqn:E; [|done]. simpl in He.
    simplify_eq. eauto.
  - intros (u & v & Hu & Hv & <-). exists u. split; [done|]. by rewrite Hv.
Qed.

Lemma member_ids_NoDup :
  NoDup (member_ids (by_user members) (p_toDeactivate plan)) /\
  List.length (member_ids (by_user members) (p_toDeactivate plan)) = List.length (p_toDeactivate plan).
Proof using Hok Hmembers.
  pose proof plan_deactivate_NoDup as Hnd.
  assert (Hall : forall u, u ∈ p_toDeactivate plan -> is_Some (map_get (by_user members) u)).
  { intros u Hu. apply plan_deactivate in Hu as (_ & _ & _ & v & Hv & _). eauto. }
  revert Hnd Hall. generalize (p_toDeactivate plan). intros l. unfold member_ids.
  induction l as [|u l IH]; intros Hnd Hall; [split; [constructor|done]|]. apply NoDup_cons in Hnd as [Hn Hnd].
  destruct IH as [IH1 IH2]; [done|intros w Hw; apply Hall; by apply list_elem_of_further|].
  destruct (Hall u) as [v Hv]; [apply list_elem_of_here|]. cbn. rewrite Hv. cbn. split; [|cbn in *; lia].
  apply NoDup_cons. split; [|done]. intros Hin. apply list_elem_of_omap in Hin as (w & Hw & He).
  destruct (map_get (by_user members) w) as [v'|] eqn:Ev; [|done]. simpl in He.
  apply by_user_in in Hv as [Hv Hvu]. apply by_user_in in Ev as [Hv' Hvu'].
  apply (load_members_in _ _ _ _ Hmembers) in Hv as (m1 & ? & A1 & _ & A3 & _).
  apply (load_members_in _ _ _ _ Hmembers) in Hv' as (m2 & ? & B1 & _ & B3 & _).
  simplify_eq. apply Hn. congruence.
Qed.

Lemma apply_counts sr d' n' :
  apply_tx sr tenantId (by_user members) plan (d, zero_counters) = ((d', n'), Ok tt) ->
  n' = {| usersCreated := Z.of_nat (List.length (p_toCreate plan));
          usersUpdated := Z.of_nat (List.length (p_toUpdate plan));
          usersDeactivated := Z.of_nat (List.length (p_toDeactivate plan)) |}.
Proof using Hok Hmembers.
  intros H. unfold apply_tx in H. apply st_bind_Ok_inv in H as ([d1 n1] & [] & H1 & H).
  pose proof (apply_users_rows sr tenantId (d_members d) (by_user members) plan d zero_counters) as Hrows.
  rewrite H1 in Hrows. cbn [fst] in Hrows.
  apply apply_users_counts in H1. cbn [snd] in H1.
  destruct member_ids_NoDup as [Hnd Hlen]. unfold apply_deactivations in H.
  destruct (member_ids (by_user members) (p_toDeactivate plan)) as [|x ids] eqn:Eids.
  - unfold st_ret in H. simplify_eq. simpl in Hlen. unfold add_counters. simpl. f_equal; lia.
  - assert (Hcount : snd (deactivate_ids tenantId (x :: ids) (sr_now sr Apply) d1) = List.length (p_toDeactivate plan)).
    { rewrite <- Hlen. apply deactivate_count_exact; [done|].
      rewrite <- Eids. intros id Hid. pose proof Hid as Hid'. apply member_ids_in in Hid' as (u & v & Hu & Hv & <-).
      apply plan_deactivate in Hu as (_ & _ & _ & v' & Hv' & _ & Hr). rewrite Hv in Hv'. injection Hv' as <-.
      apply by_user_in in Hv as [Hv _].
      apply (load_members_in _ _ _ _ Hmembers) in Hv as (m & ? & A1 & A2 & A3 & A4 & A5 & _).
      destruct (Hrows ltac:(by intros k m0 Hk; exists m0) _ _ A1) as (m' & Hm' & B1 & B2 & B3).
      exists m'. split; [done|]. unfold deactivated_by.
      rewrite (bool_decide_false (m_role m' = OWNER)) by congruence. by rewrite !bool_decide_true by congruence. }
    apply st_bind_Ok_inv in H as ([d2 n2] & count & H2 & H). unfold on_directory in H2.
    injection H2 as <- <- <-. unfold count_deactivated in H. injection H as _ <-.
    subst n1. cbn [add_counters usersCreated usersUpdated zero_counters Z.add].
    f_equal. exact (f_equal Z.of_nat Hcount).
Qed.
End Plan.

(** ** Dry runs *)

Definition dry (o : SyncOptions) : SyncOptions :=
  {| o_configId := o_configId o; o_tenantId := o_tenantId o; o_dryRun := true; o_force := o_force o |}.

Definition plan_counters (p : sync_plan) : counters :=
  {| usersCreated := Z.of_nat (List.length (p_toCreate p)); usersUpdated := Z.of_nat (List.length (p_toUpdate p));
     usersDeactivated := Z.of_nat (List.length (p_toDeactivate p)) |}.

Section DryRuns.
Context (URL : jsstr -> option url) (decryptCredentials : jsstr -> jsstr -> jsstr -> outcome jsstr jsstr)
  (fetchUsers : jsstr -> jsstr -> outcome jsstr (list ProviderUser)).
Abbreviation run := (runDirectorySync URL decryptCredentials fetchUsers).

(** What an undisturbed successful run did. *)
Record applied (o : SyncOptions) (d d1 : directory) (c : sync_config) (pus : list ProviderUser)
    (members : list member_view) : Prop := {
  ap_people : same_people d d1;
  ap_logs : d_logs d1 = d_logs d;
  ap_config : find_config (o_tenantId o) (o_configId o) d1 = Some c;
  ap_fetched : exists creds, decryptCredentials (c_credentials c) (o_configId o) (o_tenantId o) = Ok creds /\
    fetchUsers (c_provider c) creds = Ok pus;
  ap_members : load_members (o_tenantId o) d1 = Ok members;
  ap_guard : guard_trips (o_force o) (List.length (p_toDeactivate (diff (map_of (load_mappings (o_tenantId o) d1))
      (by_user members) (List.filter has_email pus)))) (List.length (List.filter is_active members)) = false }.
Abbreviation plan_of o d1 members pus :=
  (diff (map_of (load_mappings (o_tenantId o) d1)) (by_user members) (List.filter has_email pus)).

Lemma serial_success sr o d d' r :
  serial sr -> run sr o d = (d', r) -> r_success r = true ->
  exists d1 c pus members n1 d2 n2, applied o d d1 c pus members /\
    acquire_lock sr o (d, zero_counters) = ((d1, n1), Ok true) /\
    apply_changes sr o (by_user members) (plan_of o d1 members pus) (d1, zero_counters) = ((d2, n2), Ok tt) /\
    r_counters r = n2 /\ same_people d2 d' /\ exists s, finish_run sr o c (d2, n2) = ((d', s), Ok r).
Proof.
  intros Hser Hrun Hs. destruct (run_success _ _ _ _ _ _ _ _ Hrun Hs) as (d1 & n1 & n' & Hl & Hb).
  destruct (serial_lock_state sr o Hser d d1 n1 Hl) as (Hp & Hlogs & _).
  destruct (body_success _ _ _ _ _ _ _ _ _ Hb Hs)
    as (c & creds & pus & dl & members & n2 & [d2 n3] & Hdl & Hc & Hd & Hf & Hm & Hg & -> & Ha & Hfin).
  rewrite !(proj1 Hser) in *. subst dl. destruct (finish_counters _ _ _ _ _ _ Hfin) as [Hr _].
  pose proof (finish_people sr o Hser _ _ _ _ Hfin) as Hp'.
  exists d1, c, pus, members, n1, d2, n3. split_and!; try done; [|by exists n']. constructor; try done. by exists creds.
Qed.

Lemma dry_body sr o d c pus members n :
  serial sr -> o_dryRun o = true -> can_finish sr o d -> applied o d d c pus members ->
  exists s' r, sync_body URL decryptCredentials fetchUsers sr o (d, n) = (s', Ok r) /\ r_success r = true /\
    r_counters r = plan_counters (plan_of o d members pus).
Proof.
  intros Hser Hdry Hfin [_ _ Hc (creds & Hd & Hf) Hm Hg].
  unfold sync_body, st_bind. rewrite (serial_transaction sr Hser). unfold on_directory at 1. rewrite Hc.
  unfold st_lift. rewrite Hd, Hf, (serial_transaction sr Hser). unfold on_directory at 1, load_data. rewrite Hm.
  cbn [mbind outcome_bind]. rewrite Hg. unfold apply_changes. rewrite Hdry. unfold set_counters.
  destruct (finish_succeeds sr o Hser c d (plan_counters (plan_of o d members pus)) Hfin) as (s' & r & E).
  unfold plan_counters in E. rewrite E. exists s', r. by destruct (finish_counters _ _ _ _ _ _ E) as [-> ->].
Qed.

(** C37: a dry run predicts the real one.  While nothing else changes the database and
    the provider answers both alike ([serial], one [fetchUsers]), on tables that keep
    their integrity: if the real run, with a log row of a new identifier, would
    succeed, then a dry run on the same directory succeeds and reports exactly the
    counts of created, updated and deactivated users that the real run reaches by
    applying its changes one by one. *)
Theorem dry_run_predicts sr o d d' r (Hserial : serial sr) (Hok : dir_ok d) (Hreal : o_dryRun o = false)
    (Hlog : d_logs d !! sr_logId sr WriteLog = None) (Hrun : run sr o d = (d', r)) (Hsucc : r_success r = true) :
  r_success (snd (run sr (dry o) d)) = true /\ r_counters (snd (run sr (dry o) d)) = r_counters r.
Proof.
  destruct (serial_success _ _ _ _ _ Hserial Hrun Hsucc)
    as (d1 & c & pus & members & n1 & d2 & n2 & Hap & Hl & Ha & -> & _).
  unfold apply_changes in Ha. rewrite Hreal in Ha. apply transaction_Ok in Ha. rewrite (proj1 Hserial) in Ha.
  apply apply_counts in Ha; [|by eapply dir_ok_people; [apply Hap|]|apply Hap]. subst n2.
  assert (Hap' : applied (dry o) d1 d1 c pus members).
  { destruct Hap as [H1 H2 H3 H4 H5 H6]. by constructor. }
  destruct (dry_body sr (dry o) d1 c pus members zero_counters Hserial eq_refl) as (s' & r' & E & H1 & H2); [|done|].
  { destruct Hap as [_ H2 H3 _ _ _]. split; [by exists c|by rewrite H2]. }
  unfold runDirectorySync. change (acquire_lock sr (dry o)) with (acquire_lock sr o). rewrite Hl, E.
  destruct s' as [d3 n3]. by split.
Qed.
End DryRuns.

(** ** Convergence *)

(** After a loop that does not throw, what each iteration establishes and every
    iteration keeps holds for all of them. *)
Lemma for_all {S E A} (G : A -> S -> Prop) (I : S -> Prop) (f : A -> st S E unit) (l : list A) s s' :
  (forall x, x ∈ l -> triple I (f x) (fun _ s => I s /\ G x s) (fun _ => True)) ->
  (forall x y, x ∈ l -> triple (fun s => I s /\ G y s) (f x) (fun _ s => G y s) (fun _ => True)) ->
  I s -> st_for f l s = (s', Ok tt) -> I s' /\ forall x, x ∈ l -> G x s'.
Proof.
  revert s. induction l as [|x l IH]; intros s H1 H2 Hs H.
  { unfold st_for, st_ret in H. simplify_eq. split; [done|]. by intros x Hx%not_elem_of_nil. }
  simpl in H. apply st_bind_Ok_inv in H as (s1 & [] & Hx & H).
  pose proof (H1 x (list_elem_of_here _ _) s Hs) as Ht. rewrite Hx in Ht. destruct Ht as [Hi Hg].
  assert (Hin : forall y, y ∈ l -> y ∈ x :: l) by (intros y; apply list_elem_of_further).
  destruct (IH s1) as [Hi' Hall]; [auto|auto|done|done|]. split; [done|].
  intros y [->|Hy]%elem_of_cons; [|auto].
  assert (Hkeep : triple (fun s => I s /\ G x s) (st_for f l) (fun _ s => I s /\ G x s) (fun _ => True)).
  { apply triple_for. intros z Hz t Ht. pose proof (H1 z (Hin z Hz) t (proj1 Ht)) as K1.
    pose proof (H2 z x (Hin z Hz) t Ht) as K2. destruct (f z t) as [t' [a|e]]; [|done]. tauto. }
  specialize (Hkeep s1 (conj Hi Hg)). rewrite H in Hkeep. tauto.
Qed.

Section Mapped.
Context (sr : surroundings) (tenantId : jsstr).

Definition ext_mapping (d : directory) (ext : jsstr) : option jsstr := d_mappings d !! (tenantId, ext, USER_RESOURCE).
Definition ext_mapped (d : directory) (ext : jsstr) : Prop := exists int, ext_mapping d ext = Some int /\ int <> [].
Definition ids_nonempty (m : jsmap jsstr) : Prop := forall k v, map_get m k = Some v -> v <> [].

Lemma users_by_email_nonempty emails d : d_users d !! [] = None -> ids_nonempty (users_by_email tenantId emails d).
Proof.
  intros Hd k v Hv. apply map_of_in, list_elem_of_fmap in Hv as ([id u] & [= -> ->] & Hin).
  apply list_elem_of_In, filter_In in Hin as [Hin _]. apply list_elem_of_In, elem_of_map_to_list in Hin.
  simpl in Hin. intros ->. congruence.
Qed.

Lemma create_missing_nonempty k l m s s' m' :
  (forall k, sr_userId sr k <> []) -> ids_nonempty m -> create_missing sr tenantId k l m s = (s', Ok m') ->
  ids_nonempty m'.
Proof.
  intros Hsr. revert k m s. induction l as [|pu l IH]; intros k m s Hm H; simpl in H.
  { unfold st_ret in H. by simplify_eq. }
  destruct (map_has m _); [by eapply IH|]. apply st_bind_Ok_inv in H as (s1 & id & H1 & H).
  eapply IH; [|exact H]. intros k' v. rewrite map_get_set. case_bool_decide; [|apply Hm]. intros [= <-].
  unfold on_directory, create_user in H1. destruct s as [d n].
  destruct (d_users d !! sr_userId sr k); [done|]. destruct (find_by _ _); [done|]. simplify_eq. apply Hsr.
Qed.

Lemma upsert_mapping_spec ext int d :
  match upsert_mapping tenantId ext int d with
  | (d', Ok _) => d_mappings d' = <[(tenantId, ext, USER_RESOURCE) := int]> (d_mappings d) /\
                  d_members d' = d_members d /\ (forall e, ext_mapping d e = Some int -> e = ext)
  | (d', Throw _) => d' = d
  end.
Proof.
  unfold upsert_mapping. destruct (internal_taken _ _ _) eqn:E; [done|].
  rewrite internal_taken_false in E. done.
Qed.

(** The membership step of an iteration leaves the mappings alone. *)
Lemma member_step_mappings (tm : jsmap (jsstr * option Z)) k pu userId s s' r :
  match map_get tm userId with
  | None => on_directory (create_member (sr_memberId sr k) (new_member tenantId userId (pu_active pu) (sr_now sr Apply)))
  | Some (id, Some _) => if pu_active pu then on_directory (update_member tenantId id (set_deactivated None (sr_now sr Apply)))
                         else st_ret tt
  | Some (_, None) => st_ret tt
  end s = (s', r) -> d_mappings (fst s') = d_mappings (fst s).
Proof.
  destruct s as [d n]. unfold on_directory, create_member, update_member, st_ret.
  intros H. repeat case_match; by simplify_eq.
Qed.

(** What a successful iteration did. *)
Lemma provision_Ok ube tm k pu s s' :
  provision sr tenantId ube tm (k, pu) s = (s', Ok tt) ->
  exists u d1, map_get ube (js_to_lower (pu_email pu)) = Some u /\
    d_mappings d1 = d_mappings (fst s) /\ d_members (fst s') = d_members d1 /\
    d_mappings (fst s') = <[(tenantId, pu_externalId pu, USER_RESOURCE) := u]> (d_mappings d1) /\
    (forall e, ext_mapping d1 e = Some u -> e = pu_externalId pu) /\
    (map_get tm u = None /\
       fst (create_member (sr_memberId sr k) (new_member tenantId u (pu_active pu) (sr_now sr Apply)) (fst s)) = d1 \/
     exists id, fst <$> map_get tm u = Some id /\
       (d1 = fst s \/ d1 = fst (update_member tenantId id (set_deactivated None (sr_now sr Apply)) (fst s)))).
Proof.
  unfold provision. intros H. apply st_bind_Ok_inv in H as (s1 & u & H1 & H). unfold st_lift, user_id_of in H1.
  destruct (map_get ube _) as [u'|]; [|done]. simplify_eq.
  apply st_bind_Ok_inv in H as ([d2 n2] & [] & H2 & H). pose proof (member_step_mappings _ _ _ _ _ _ _ H2) as Hm.
  apply st_bind_Ok_inv in H as ([d3 n3] & [] & H3 & H). unfold count_created in H. simplify_eq.
  unfold on_directory in H3. pose proof (upsert_mapping_spec (pu_externalId pu) u d2) as Hu.
  destruct (upsert_mapping _ _ _ _) as [d4 [[]|e]]; [|done]. simplify_eq. destruct Hu as (Hx & Hmem & Hun).
  exists u, d2. split_and!; try done. destruct s1 as [d1 n1]. cbn [fst] in *.
  destruct (map_get tm u) as [[id [t|]]|]; cbn [fmap option_fmap option_map fst].
  - right. exists id. split; [done|]. destruct (pu_active pu); unfold on_directory, st_ret in H2.
    + right. by destruct (update_member _ _ _ _) as [? [?|?]]; simplify_eq.
    + left. by simplify_eq.
  - right. exists id. split; [done|]. left. unfold st_ret in H2. by simplify_eq.
  - left. split; [done|]. unfold on_directory in H2. by destruct (create_member _ _ _) as [? [?|?]]; simplify_eq.
Qed.

Lemma apply_update_mappings members e s s' :
  apply_update sr tenantId members e s = (s', Ok tt) -> d_mappings (fst s') = d_mappings (fst s).
Proof.
  destruct e as [pu i], s as [d n]. unfold apply_update, st_bind, on_directory, update_user_name, update_member,
    count_updated, st_ret. intros H. repeat case_match; by simplify_eq.
Qed.

Lemma create_missing_mappings k l m s s' m' :
  create_missing sr tenantId k l m s = (s', Ok m') ->
  d_mappings (fst s') = d_mappings (fst s) /\ d_members (fst s') = d_members (fst s).
Proof.
  revert k m s. induction l as [|pu l IH]; intros k m s H; simpl in H.
  { unfold st_ret in H. by simplify_eq. }
  destruct (map_has m _); [by eapply IH|]. apply st_bind_Ok_inv in H as (s1 & id & H1 & H).
  apply IH in H as [-> ->]. destruct s as [d n]. unfold on_directory, create_user in H1.
  by repeat case_match; simplify_eq.
Qed.
End Mapped.

Lemma internal_of_Some exts pu i : internal_of exts pu = Some i <-> map_get exts (pu_externalId pu) = Some i /\ i <> [].
Proof. unfold internal_of. destruct (map_get exts _) as [[|c w]|]; naive_solver. Qed.

Lemma diff_create_in exts members users pu :
  pu ∈ p_toCreate (diff exts members users) <-> pu ∈ users /\ internal_of exts pu = None.
Proof.
  unfold diff. destruct (diff_users exts members users) as [tc tu] eqn:E. cbn [p_toCreate]. revert tc tu E.
  induction users as [|q users IH]; intros tc tu E; simpl in E.
  { simplify_eq. split; [by intros ?%not_elem_of_nil|]. by intros [?%not_elem_of_nil _]. }
  destruct (diff_users exts members users) as [tc' tu']. specialize (IH _ _ eq_refl). rewrite elem_of_cons.
  destruct (internal_of exts q) as [i|] eqn:Ei.
  - assert (tc = tc') as -> by (repeat case_match; by simplify_eq). rewrite IH.
    split; [tauto|]. intros [[->|Hin] Hn]; [congruence|done].
  - simplify_eq. rewrite elem_of_cons, IH. naive_solver.
Qed.

Section Converge.
Context (sr : surroundings) (tenantId : jsstr) (d : directory) (members : list member_view)
  (users : list ProviderUser).
Context (Hok : dir_ok d) (Hmembers : load_members tenantId d = Ok members).
Context (Hempty : d_users d !! [] = None) (Hids : forall k, sr_userId sr k <> []).
Abbreviation exts := (map_of (load_mappings tenantId d)).
Abbreviation plan := (diff exts (by_user members) users).
Abbreviation seen := (map pu_externalId users).
Abbreviation mapping := (ext_mapping tenantId).
Abbreviation mapped := (ext_mapped tenantId).

(** The memberships of a user mapped by an external identifier the provider did not
    report are as they were. *)
Definition absent_untouched (d' : directory) : Prop :=
  forall ext int, mapping d ext = Some int -> ~ (ext ∈ seen) ->
  forall id m, d_members d' !! id = Some m -> m_tenantId m = tenantId -> m_userId m = int ->
  d_members d !! id = Some m.

Definition applying (s : directory * counters) : Prop :=
  (forall ext, mapped d ext -> mapped (fst s) ext) /\
  (forall ext, ~ (ext ∈ seen) -> mapping (fst s) ext = mapping d ext) /\
  rows_kept (d_members d) (fst s) /\ absent_untouched (fst s).

(** Rewriting the membership of another user. *)
Lemma absent_update id u m0 t now d' :
  d_members d !! id = Some m0 -> m_userId m0 = u -> rows_kept (d_members d) d' ->
  (forall ext int, mapping d ext = Some int -> ~ (ext ∈ seen) -> u <> int) ->
  absent_untouched d' -> absent_untouched (fst (update_member tenantId id (set_deactivated t now) d')).
Proof.
  intros Hid Hu Hrows Hne H ext int Hx Hs k m Hk Ht Hm. rewrite update_member_lookup in Hk.
  destruct (d_members d' !! k) as [m'|] eqn:Ek; [|done].
  destruct (bool_decide (k = id) && (m_tenantId m' =s tenantId)) eqn:E; simplify_eq; [|by eapply H].
  exfalso. bools. subst k. destruct (Hrows _ _ Hid) as (m1 & Hr1 & _ & Hr2 & _). simplify_eq.
  apply (Hne ext (m_userId (set_deactivated t now m')) Hx Hs). simpl. congruence.
Qed.

Lemma provision_applying ube tm k pu :
  ids_nonempty ube -> pu ∈ users ->
  (forall u id, fst <$> map_get tm u = Some id -> exists m, d_members d !! id = Some m /\ m_userId m = u) ->
  triple applying (provision sr tenantId ube tm (k, pu))
    (fun _ s => applying s /\ mapped (fst s) (pu_externalId pu)) (fun _ => True).
Proof using Hok.
  intros Hube Hin Htm s (W1 & W2 & W3 & W4).
  destruct (provision _ _ _ _ _ s) as [s' [[]|e]] eqn:E; [|done].
  apply provision_Ok in E as (u & d1 & Hu & Hm1 & Hmem & Hmap & Hun & Hstep).
  assert (Hseen : pu_externalId pu ∈ seen) by (by apply list_elem_of_fmap_2).
  assert (Hlook : forall ext, mapping (fst s') ext = if bool_decide (ext = pu_externalId pu) then Some u else mapping (fst s) ext).
  { intros ext. unfold ext_mapping. rewrite Hmap, Hm1. case_bool_decide as Hc.
    - subst ext. apply lookup_insert_eq.
    - rewrite lookup_insert_ne; [done|]. congruence. }
  assert (Hother : forall ext int, mapping d ext = Some int -> ~ (ext ∈ seen) -> u <> int).
  { intros ext int Hx Hs Heq. subst int. assert (ext = pu_externalId pu) as ->; [|done]. apply Hun.
    pose proof (W2 ext Hs) as Hw. unfold ext_mapping in *. by rewrite Hm1, Hw. }
  assert (Hone : mapped (fst s') (pu_externalId pu)).
  { exists u. rewrite Hlook, bool_decide_true by done. eauto. }
  split; [|done]. split_and!.
  - intros ext Hx. destruct (decide (ext = pu_externalId pu)) as [->|Hne]; [done|].
    destruct (W1 ext Hx) as (int & Hi & Hi'). exists int. by rewrite Hlook, bool_decide_false.
  - intros ext Hs. rewrite Hlook, bool_decide_false; [auto|]. intros ->. done.
  - apply (rows_kept_members _ d1); [done|]. destruct Hstep as [[_ <-]|(id & _ & [->| ->])]; [|done|by apply rows_kept_update].
    intros j m Hj. destruct (W3 j m Hj) as (m' & Hm' & Hrest). exists m'. split; [by apply create_member_lookup|done].
  - intros ext int Hx Hs j m. rewrite Hmem. revert j m.
    assert (Habs : absent_untouched d1); [|intros j m Hj Ht Hmu; by eapply Habs].
    destruct Hstep as [[_ <-]|(id & Hid & [->| ->])]; [|done|].
    + clear ext int Hx Hs. intros ext int Hx Hs j m Hj Ht Hmu. unfold create_member in Hj.
      destruct (d_members (fst s) !! sr_memberId sr k); [by eapply W4|].
      destruct (find_by _ _); [by eapply W4|]. destruct (d_users (fst s) !! _); [|by eapply W4].
      simpl in Hj. apply lookup_insert_Some in Hj as [[<- <-]|[_ Hj]]; [|by eapply W4].
      simpl in Hmu. by destruct (Hother ext int Hx Hs).
    + destruct (Htm u id Hid) as (m0 & H0 & Hu0). by eapply absent_update.
Qed.

Lemma update_applying pu i :
  (pu, i) ∈ p_toUpdate plan ->
  triple applying (apply_update sr tenantId (by_user members) (pu, i)) (fun _ => applying) (fun _ => True).
Proof using Hok Hmembers.
  intros Hin s (W1 & W2 & W3 & W4). destruct (apply_update _ _ _ _ s) as [s' [[]|e]] eqn:E; [|done].
  apply diff_update_in in Hin as (Hpu & Hint & v & Hv & _). apply internal_of_Some in Hint as [Hint _].
  apply exts_get in Hint. pose proof (by_user_in _ _ _ Hv) as [Hvin Hvu].
  apply (load_members_in _ _ _ _ Hmembers) in Hvin as (m0 & w & A1 & A2 & A3 & _).
  pose proof (apply_update_mappings _ _ _ _ _ _ E) as Hmap.
  assert (Hother : forall ext int, mapping d ext = Some int -> ~ (ext ∈ seen) -> i <> int).
  { intros ext int Hx Hs ->. apply Hs. assert (ext = pu_externalId pu) as ->; [|by apply list_elem_of_fmap_2].
    by eapply (ok_mapping_unique _ Hok). }
  assert (Hmem : d_members (fst s') = d_members (fst s) \/
    exists t, d_members (fst s') = d_members (fst (update_member tenantId (mv_id v) (set_deactivated t (sr_now sr Apply))
      (fst (update_user_name tenantId i (pu_displayName pu) (fst s)))))).
  { unfold apply_update in E. rewrite Hv in E. apply st_bind_Ok_inv in E as ([d1 n1] & [] & E1 & E).
    destruct s as [d0 n0]. unfold on_directory in E1. cbn [fst]. pose proof (update_user_name_members tenantId i (pu_displayName pu) d0) as Hn.
    destruct (update_user_name _ _ _ d0) as [d1' [[]|e1]]; [|done]. simplify_eq. cbn [fst] in *.
    destruct (_ && _); [unfold count_updated in E; simplify_eq; by left|].
    apply st_bind_Ok_inv in E as ([d2 n2] & [] & E2 & E). unfold count_updated in E. simplify_eq.
    unfold on_directory in E2. right. exists (if pu_active pu then None else Some (sr_now sr Apply)).
    by destruct (update_member _ _ _ _) as [? [?|?]]; simplify_eq. }
  assert (Hlook : forall ext, mapping (fst s') ext = mapping (fst s) ext).
  { intros ext. unfold ext_mapping. by rewrite Hmap. }
  split_and!.
  - intros ext Hx. unfold ext_mapped. rewrite Hlook. by apply W1.
  - intros ext Hs. rewrite Hlook. by apply W2.
  - destruct Hmem as [Hmem|[t Hmem]]; [by apply (rows_kept_members _ _ _ Hmem)|].
    apply (rows_kept_members _ _ _ Hmem), rows_kept_update, (rows_kept_members _ (fst s)), W3.
    apply update_user_name_members.
  - intros ext int Hx Hs j m. destruct Hmem as [Hmem|[t Hmem]]; rewrite Hmem; [by eapply W4|].
    eapply absent_update; [exact A1|by rewrite <- A3| | | |exact Hx|exact Hs].
    + apply (rows_kept_members _ (fst s)); [apply update_user_name_members|done].
    + exact Hother.
    + intros e' i' He' Hs' j' m'. rewrite update_user_name_members. by eapply W4.
Qed.

Lemma load_existing_rows (ids : list jsstr) d0 u id :
  fst <$> map_get (load_existing tenantId ids d0) u = Some id -> exists m, d_members d0 !! id = Some m /\ m_userId m = u.
Proof.
  destruct (map_get _ u) as [[id' x]|] eqn:E; [|done]. intros [= ->].
  apply map_of_in, list_elem_of_fmap in E as ([id0 m] & [= -> -> _] & Hin).
  apply list_elem_of_In, filter_In in Hin as [Hin _]. apply list_elem_of_In, elem_of_map_to_list in Hin. eauto.
Qed.

Lemma apply_users_applying n s' :
  apply_users sr tenantId (by_user members) plan (d, n) = (s', Ok tt) ->
  applying s' /\ forall pu, pu ∈ users -> mapped (fst s') (pu_externalId pu).
Proof using Hok Hmembers Hempty Hids.
  intros H. unfold apply_users in H. apply st_bind_Ok_inv in H as (s1 & ex & H1 & H).
  unfold on_directory in H1. injection H1 as <- <-.
  apply st_bind_Ok_inv in H as (s2 & ube & H2 & H).
  pose proof (create_missing_nonempty _ _ _ _ _ _ _ _ Hids (users_by_email_nonempty tenantId _ d Hempty) H2) as Hube.
  apply create_missing_mappings in H2 as [Hmap2 Hmem2]. cbn [fst] in *.
  apply st_bind_Ok_inv in H as (s3 & ids & H3 & H). unfold st_lift in H3. injection H3 as <- _.
  apply st_bind_Ok_inv in H as (s4 & tm & H4 & H). unfold on_directory in H4. destruct s2 as [d2 n2].
  injection H4 as <- <-. cbn [fst] in *.
  apply st_bind_Ok_inv in H as (s5 & [] & H5 & H).
  assert (W0 : applying (d2, n2)).
  { unfold applying, ext_mapped, ext_mapping. cbn [fst]. rewrite Hmap2.
    split_and!; [done|done| |]; [|intros ext int _ _ j m]; [intros j m Hj; exists m|]; by rewrite Hmem2. }
  destruct (for_all (fun e s => mapped (fst s) (pu_externalId (snd e))) applying
    (provision sr tenantId ube (load_existing tenantId ids d2)) (imap pair (p_toCreate plan)) (d2, n2) s5)
    as [W5 Hcreated]; [| |done|done|].
  - intros [k pu] Hin. apply elem_of_lookup_imap in Hin as (j & q & [= -> ->] & Hj).
    apply list_elem_of_lookup_2, diff_create_in in Hj as [Hj _]. apply provision_applying; [done|done|].
    intros u id Hid. destruct (load_existing_rows _ _ _ _ Hid) as (m & Hm & Hu). exists m. by rewrite <- Hmem2.
  - intros [k pu] [k' pu'] Hin s [_ (int & Hi & Hi')].
    destruct (provision _ _ _ _ _ s) as [s6 [[]|e]] eqn:E; [|done].
    apply provision_Ok in E as (u & d1 & Hu & Hm1 & _ & Hmap & _ & _). cbn [snd] in *.
    unfold ext_mapped, ext_mapping. rewrite Hmap, Hm1.
    destruct (decide (pu_externalId pu' = pu_externalId pu)) as [->|Hne].
    + exists u. rewrite lookup_insert_eq. eauto.
    + exists int. rewrite lookup_insert_ne; [done|congruence].
  - assert (Hfin : triple (fun s => applying s /\ forall pu, pu ∈ users -> mapped (fst s) (pu_externalId pu))
      (st_for (apply_update sr tenantId (by_user members)) (p_toUpdate plan))
      (fun _ s => applying s /\ forall pu, pu ∈ users -> mapped (fst s) (pu_externalId pu)) (fun _ => True)).
    { apply triple_for. intros [pu i] Hin s [Hs Hall]. pose proof (update_applying pu i Hin s Hs) as Ht.
      pose proof (apply_update_mappings sr tenantId (by_user members) (pu, i) s) as Hm.
      destruct (apply_update _ _ _ _ s) as [s6 [[]|e]]; [|done]. split; [done|].
      specialize (Hm _ eq_refl). unfold ext_mapped, ext_mapping in *. by rewrite Hm. }
    assert (Hs5 : forall pu, pu ∈ users -> mapped (fst s5) (pu_externalId pu)).
    { intros pu Hpu. destruct (internal_of exts pu) as [i|] eqn:Ei.
      - apply (proj1 W5). apply internal_of_Some in Ei as [Ei Hne]. exists i. split; [|done]. by apply exts_get in Ei.
      - assert (Hc : pu ∈ p_toCreate plan) by (by apply diff_create_in).
        apply list_elem_of_lookup_1 in Hc as [j Hj]. apply (Hcreated (j, pu)).
        apply elem_of_lookup_imap. by exists j, pu. }
    specialize (Hfin s5 (conj W5 Hs5)). by rewrite H in Hfin.
Qed.
End Converge.

(** The directory after an applied plan. *)
Lemma applied_plan_converged sr tenantId d members users n d' n' members' :
  dir_ok d -> load_members tenantId d = Ok members -> d_users d !! [] = None ->
  (forall k, sr_userId sr k <> []) ->
  let p := diff (map_of (load_mappings tenantId d)) (by_user members) users in
  apply_tx sr tenantId (by_user members) p (d, n) = ((d', n'), Ok tt) ->
  load_members tenantId d' = Ok members' ->
  let p' := diff (map_of (load_mappings tenantId d')) (by_user members') users in
  p_toCreate p' = [] /\ p_toDeactivate p' = [].
Proof.
  intros Hok Hm Hempty Hids p Happ Hm' p'. unfold apply_tx in Happ.
  apply st_bind_Ok_inv in Happ as ([d1 n1] & [] & H1 & H2).
  destruct (apply_users_applying sr tenantId d members users Hok Hm Hempty Hids n _ H1) as [(_ & W2 & _ & W4) Hall].
  cbn [fst] in *.
  assert (Hd' : d_mappings d' = d_mappings d1 /\
    forall k, d_members d' !! k = (fun m => if deactivated_by tenantId (member_ids (by_user members) (p_toDeactivate p)) k m
      then set_deactivated (Some (sr_now sr Apply)) (sr_now sr Apply) m else m) <$> d_members d1 !! k).
  { unfold apply_deactivations in H2. destruct (member_ids (by_user members) (p_toDeactivate p)) as [|x ids].
    - unfold st_ret in H2. simplify_eq. split; [done|]. intros k. destruct (d_members d' !! k) as [m|]; [|done].
      unfold deactivated_by. by rewrite (bool_decide_false (k ∈ [])) by (apply not_elem_of_nil).
    - apply st_bind_Ok_inv in H2 as ([d2 n2] & c & H2 & H3). unfold on_directory in H2. injection H2 as <- <- _.
      unfold count_deactivated in H3. injection H3 as <- _. split; [done|]. intros k. apply deactivate_ids_lookup. }
  destruct Hd' as [Hmap Hrow]. split.
  - destruct (p_toCreate p') as [|pu l] eqn:E; [done|]. exfalso.
    assert (Hin : pu ∈ p_toCreate p') by (rewrite E; apply list_elem_of_here).
    apply diff_create_in in Hin as [Hin Hn]. destruct (Hall pu Hin) as (int & Hi & Hne).
    assert (Hs : internal_of (map_of (load_mappings tenantId d')) pu = Some int).
    { apply internal_of_Some. split; [|done]. apply exts_get. unfold ext_mapping in Hi. by rewrite Hmap. }
    congruence.
  - destruct (p_toDeactivate p') as [|u l] eqn:E; [done|]. exfalso.
    assert (Hin : u ∈ p_toDeactivate p') by (rewrite E; apply list_elem_of_here).
    apply plan_deactivate in Hin as (ext & Hx & Hs & v & Hv & Ha & Hr). rewrite Hmap in Hx.
    change (ext_mapping tenantId d1 ext = Some u) in Hx. rewrite W2 in Hx by done.
    apply by_user_in in Hv as [Hv Hu]. apply (load_members_in _ _ _ _ Hm') in Hv as (m & w & A1 & A2 & A3 & A4 & A5 & _).
    rewrite Hrow in A1. destruct (d_members d1 !! mv_id v) as [m1|] eqn:Em1; [|done]. simpl in A1.
    destruct (deactivated_by _ _ _ m1) eqn:Ed.
    { injection A1 as <-. simpl in A4. unfold is_active in Ha. by rewrite A4 in Ha. }
    injection A1 as ->.
    pose proof (W4 ext u Hx Hs _ _ Em1 A2 ltac:(congruence)) as H0.
    destruct (by_user_row tenantId d members Hok Hm u _ _ H0 A2 ltac:(congruence)) as (v0 & B1 & B2 & B3 & B4).
    assert (Hin : mv_id v ∈ member_ids (by_user members) (p_toDeactivate p)).
    { apply member_ids_in. exists u, v0. split_and!; [|done|done]. apply plan_deactivate. exists ext.
      split_and!; [done|done|]. exists v0. split_and!; [done| |congruence].
      unfold is_active in *. by rewrite B4, <- A4. }
    revert Ed. unfold deactivated_by. rewrite (bool_decide_false (m_role m = OWNER)) by congruence.
    by rewrite !bool_decide_true by done.
Qed.

(** Every reported user is mapped to somebody, and among the members mapped to users that
    were not reported only owners are active. *)
Definition reconciled (tenantId : jsstr) (users : list ProviderUser) (d : directory) : Prop :=
  (forall pu, pu ∈ users -> exists u, d_mappings d !! (tenantId, pu_externalId pu, USER_RESOURCE) = Some u /\ u <> []) /\
  (forall ext u id m, d_mappings d !! (tenantId, ext, USER_RESOURCE) = Some u -> ext ∉ map pu_externalId users ->
     d_members d !! id = Some m -> m_tenantId m = tenantId -> m_userId m = u -> m_deactivatedAt m = None ->
     m_role m = OWNER).

Lemma plan_reconciled tenantId d members users :
  dir_ok d -> load_members tenantId d = Ok members ->
  p_toCreate (diff (map_of (load_mappings tenantId d)) (by_user members) users) = [] ->
  p_toDeactivate (diff (map_of (load_mappings tenantId d)) (by_user members) users) = [] ->
  reconciled tenantId users d.
Proof.
  intros Hok Hm Hc Hd. split.
  - intros pu Hpu. destruct (internal_of (map_of (load_mappings tenantId d)) pu) as [u|] eqn:E.
    + apply internal_of_Some in E as [E Hne]. exists u. split; [by apply exts_get|done].
    + exfalso. assert (Hin : pu ∈ p_toCreate (diff (map_of (load_mappings tenantId d)) (by_user members) users))
        by by apply diff_create_in.
      rewrite Hc in Hin. by apply not_elem_of_nil in Hin.
  - intros ext u id m Hx Hn Hi Ht Hu Ha. destruct (decide (m_role m = OWNER)) as [|Hr]; [done|exfalso].
    destruct (by_user_row tenantId d members Hok Hm u id m Hi Ht Hu) as (v & Hv & _ & Hvr & Hva).
    assert (Hin : u ∈ p_toDeactivate (diff (map_of (load_mappings tenantId d)) (by_user members) users)).
    { apply plan_deactivate. exists ext. split_and!; [done..|]. exists v. split_and!; [done| |congruence].
      unfold is_active. by rewrite Hva, Ha, bool_decide_false by (by intros []). }
    rewrite Hd in Hin. by apply not_elem_of_nil in Hin.
Qed.

Lemma reconciled_people tenantId users d d' : same_people d d' -> reconciled tenantId users d -> reconciled tenantId users d'.
Proof. unfold reconciled. intros (_ & -> & ->). done. Qed.

Section Converges.
Context (URL : jsstr -> option url) (decryptCredentials : jsstr -> jsstr -> jsstr -> outcome jsstr jsstr)
  (fetchUsers : jsstr -> jsstr -> outcome jsstr (list ProviderUser)).
Abbreviation run := (runDirectorySync URL decryptCredentials fetchUsers).

(** The configuration keeps its credentials through a successful run. *)
Lemma finish_config sr o c s s' r c0 :
  serial sr -> find_config (o_tenantId o) (o_configId o) (fst s) = Some c0 -> finish_run sr o c s = (s', Ok r) ->
  exists c', find_config (o_tenantId o) (o_configId o) (fst s') = Some c' /\
    c_provider c' = c_provider c0 /\ c_credentials c' = c_credentials c0.
Proof.
  intros Hser Hc H. unfold finish_run in H. apply st_bind_Ok_inv in H as (s1 & n & H1 & H).
  unfold get_counters in H1. destruct s as [d0 n0]. injection H1 as <- <-.
  apply st_bind_Ok_inv in H as ([d2 n2] & id & H2 & H). apply transaction_Ok in H2. rewrite (proj1 Hser) in H2.
  unfold on_directory in H2. pose proof (log_keeps_configs (sr_logId sr WriteLog)
    (log_entry sr o S_SUCCESS (sr_now sr WriteLog) n0 None) d0) as Hlog.
  destruct (create_log _ _ d0) as [d2' [id'|e]]; [|done]. simplify_eq. cbn [fst] in *.
  apply st_bind_Ok_inv in H as ([d3 n3] & [] & H3 & H). apply transaction_Ok in H3. rewrite (proj1 Hser) in H3.
  unfold on_directory in H3. unfold st_ret in H. simplify_eq.
  destruct (update_config _ _ _ d2) as [d3' [[]|e]] eqn:E; [|done]. simplify_eq.
  apply update_config_Ok in E as (c2 & E2 & E3); [|done]. rewrite (find_config_congr _ _ _ Hlog), Hc in E2.
  simplify_eq. eexists. split; [exact E3|done].
Qed.

(** C10: A successful real run, with no other request and no failure in it, leaves the
    tenant reconciled with the answer of the provider: every reported user with an address
    is mapped to a user, and no member mapped to an unreported user is active, owners
    apart.  A second such run, dry or forced, that gets the same answer and succeeds
    therefore counts no creation and no deactivation of a missing user, identifiers being
    non-empty.  (It may still
    update members, and by that deactivate one that the first run only mapped:
    [newly_mapped_stays_active].) *)
Theorem sync_converges sr sr2 o o2 d d' r d'' r2 (Hserial : serial sr) (Hserial2 : serial sr2) (Hok : dir_ok d)
    (Hempty : d_users d !! [] = None) (Hids : forall k, sr_userId sr k <> []) (Hreal : o_dryRun o = false)
    (Hsame : o_configId o2 = o_configId o /\ o_tenantId o2 = o_tenantId o)
    (Hrun : run sr o d = (d', r)) (Hsucc : r_success r = true)
    (Hrun2 : run sr2 o2 d' = (d'', r2)) (Hsucc2 : r_success r2 = true) :
  (exists c creds pus, find_config (o_tenantId o) (o_configId o) d' = Some c /\
     decryptCredentials (c_credentials c) (o_configId o) (o_tenantId o) = Ok creds /\
     fetchUsers (c_provider c) creds = Ok pus /\ reconciled (o_tenantId o) (List.filter has_email pus) d') /\
  usersCreated (r_counters r2) = 0 /\ usersDeactivated (r_counters r2) = 0.
Proof.
  destruct Hsame as [Hcid Htid].
  destruct (serial_success _ _ _ _ _ _ _ _ Hserial Hrun Hsucc)
    as (d1 & c & pus & members & n1 & d2 & n2 & Hap & Hl & Ha & _ & Hp2 & sfin & Hfin).
  destruct (serial_success _ _ _ _ _ _ _ _ Hserial2 Hrun2 Hsucc2)
    as (e1 & c' & pus' & members' & k1 & e2 & k2 & Hap' & Hl' & Ha' & -> & _ & _).
  unfold apply_changes in Ha. rewrite Hreal in Ha. apply transaction_Ok in Ha. rewrite (proj1 Hserial) in Ha.
  destruct Hap as [A1 A2 A3 (creds & A4 & A5) A6 A7], Hap' as [B1 B2 B3 (creds' & B4 & B5) B6 B7].
  rewrite Hcid, Htid in *.
  assert (Hok1 : dir_ok d1) by (by eapply dir_ok_people).
  assert (Hc2 : find_config (o_tenantId o) (o_configId o) d2 = Some c).
  { pose proof (apply_keeps_configs sr (d_configs d1) (o_tenantId o) (by_user members)
      (diff (map_of (load_mappings (o_tenantId o) d1)) (by_user members) (List.filter has_email pus)) d1 zero_counters eq_refl) as Hk.
    rewrite Ha in Hk. by rewrite (find_config_congr _ _ _ Hk). }
  destruct (finish_config sr o c (d2, n2) _ _ c Hserial Hc2 Hfin) as (c1 & C1 & C2 & C3).
  destruct (serial_lock_state sr2 o2 Hserial2 _ _ _ Hl') as (_ & _ & c0 & D1 & D2). rewrite Hcid, Htid in *.
  cbn [fst] in C1. rewrite B3 in D2. simplify_eq. cbn [c_credentials c_provider set_running] in B4, B5.
  rewrite C3, A4 in B4. simplify_eq. rewrite C2, A5 in B5. simplify_eq.
  assert (Hpe : same_people d2 e1) by (unfold same_people in *; intuition congruence).
  assert (Hload : load_members (o_tenantId o) d2 = Ok members').
  { unfold load_members in *. destruct Hpe as (-> & -> & _). exact B6. }
  assert (Hemp1 : d_users d1 !! [] = None) by (destruct A1 as (<- & _ & _); exact Hempty).
  destruct (applied_plan_converged sr (o_tenantId o) d1 members (List.filter has_email pus') zero_counters d2 n2 members'
    Hok1 A6 Hemp1 Hids Ha Hload) as [P1 P2].
  assert (Hok2 : dir_ok d2).
  { pose proof (apply_keeps_ok sr (o_tenantId o) (by_user members) (diff (map_of (load_mappings (o_tenantId o) d1))
      (by_user members) (List.filter has_email pus')) d1 zero_counters Hok1) as Hk. by rewrite Ha in Hk. }
  split.
  { exists c1, creds', pus'. split; [exact C1|]. rewrite C3, C2. split_and!; [done..|].
    eapply reconciled_people; [exact Hp2|]. by eapply plan_reconciled. }
  assert (Hplan : map_of (load_mappings (o_tenantId o) e1) = map_of (load_mappings (o_tenantId o) d2)).
  { unfold load_mappings. by destruct Hpe as (_ & _ & ->). }
  unfold apply_changes in Ha'. rewrite Htid, Hplan in Ha'. destruct (o_dryRun o2).
  - unfold set_counters in Ha'. injection Ha' as _ <-. simpl. by rewrite P1, P2.
  - apply transaction_Ok in Ha'. rewrite (proj1 Hserial2), <- Hplan in Ha'. rewrite <- Hplan in P1, P2.
    apply apply_counts in Ha'; [| |exact B6].
    + subst k2. simpl. by rewrite P1, P2.
    + by eapply dir_ok_people.
Qed.
End Converges.

(** ** Runs on a small tenant *)

Definition demo_user (email name : jsstr) : dir_user :=
  {| u_tenantId := js "t"; u_email := Some email; u_name := Some name |}.
Definition demo_row (user : jsstr) (role : TENANT_ROLE) : dir_member :=
  {| m_tenantId := js "t"; m_userId := user; m_role := role; m_deactivatedAt := None; m_scimManaged := true;
     m_provisioningSource := js "SCIM"; m_lastScimSyncedAt := None |}.
Definition demo_config : sync_config :=
  {| c_tenantId := js "t"; c_provider := js "OKTA"; c_credentials := []; c_syncIntervalMinutes := 60;
     c_status := S_IDLE; c_lastSyncAt := None; c_lastSyncError := None; c_lastSyncStats := None;
     c_nextSyncAt := None |}.

(** Five users: an owner and four members, all mapped. *)
Definition demo_names : list jsstr := [js "a"; js "b"; js "c"; js "d"; js "e"].
Definition demo_directory : directory :=
  {| d_users := list_to_map (map (fun n => (n, demo_user n n)) demo_names);
     d_members := list_to_map (imap (fun i n => (js "m" ++ n, demo_row n (if (i =? 0)%nat then OWNER else MEMBER))) demo_names);
     d_mappings := list_to_map (map (fun n => ((js "t", js "x" ++ n, USER_RESOURCE), n)) demo_names);
     d_configs := {[js "cfg" := demo_config]}; d_logs := ∅; d_staleResets := [] |}.

Definition demo_sr : surroundings :=
  {| sr_others := fun _ d => d; sr_fault := fun _ => None; sr_now := fun _ => 10000000; sr_startedAt := 10000000;
     sr_userId := fun k => js "u" ++ repeat 48 k; sr_memberId := fun k => js "n" ++ repeat 48 k;
     sr_logId := fun ph => js "l" |}.
Definition demo_sr2 : surroundings :=
  {| sr_others := fun _ d => d; sr_fault := fun _ => None; sr_now := fun _ => 20000000; sr_startedAt := 20000000;
     sr_userId := fun k => js "v" ++ repeat 48 k; sr_memberId := fun k => js "o" ++ repeat 48 k;
     sr_logId := fun ph => js "l2" |}.
Definition demo_o (force : bool) : SyncOptions :=
  {| o_configId := js "cfg"; o_tenantId := js "t"; o_dryRun := false; o_force := force |}.
Definition demo_pu (ext email : jsstr) (active : bool) : ProviderUser :=
  {| pu_externalId := ext; pu_email := email; pu_displayName := email; pu_active := active |}.
Definition demo_decrypt (_ _ _ : jsstr) : outcome jsstr jsstr := Ok [].
Definition demo_fetch (l : list ProviderUser) (_ _ : jsstr) : outcome jsstr (list ProviderUser) := Ok l.
Definition demo_run (l : list ProviderUser) : surroundings -> SyncOptions -> directory -> directory * SyncResult :=
  runDirectorySync (fun _ => None) demo_decrypt (demo_fetch l).

(** The provider reports everybody but the last user, one under a new name, and a
    newcomer. *)
Definition demo_answer : list ProviderUser :=
  [demo_pu (js "xa") (js "a") false; demo_pu (js "xb") (js "b") true; demo_pu (js "xc") (js "C") true;
   demo_pu (js "xd") (js "d") true; demo_pu (js "xn") (js "n") true].


(** A check over all pairs of rows. *)
Lemma pairs_checked {K V} `{Countable K} (m : gmap K V) (R : K * V -> K * V -> bool) i j x y :
  forallb (fun a => forallb (R a) (map_to_list m)) (map_to_list m) = true ->
  m !! i = Some x -> m !! j = Some y -> R (i, x) (j, y) = true.
Proof.
  intros Hb Hi Hj. apply elem_of_map_to_list, list_elem_of_In in Hi. apply elem_of_map_to_list, list_elem_of_In in Hj.
  rewrite forallb_forall in Hb. specialize (Hb _ Hi). rewrite forallb_forall in Hb. by apply Hb.
Qed.

Lemma demo_directory_ok : dir_ok demo_directory.
Proof.
  constructor.
  - intros i j a b Ha Hb Ht Hu.
    pose (R := fun x y : jsstr * dir_member => negb (m_userId (snd x) =s m_userId (snd y)) || (fst x =s fst y)).
    assert (H : R (i, a) (j, b) = true) by (eapply (pairs_checked (d_members demo_directory)); [vm_compute; reflexivity|done|done]).
    unfold R in H. cbn [fst snd] in H. rewrite (bool_decide_true _ Hu) in H. bools. by destruct H as [|?%bool_decide_eq_true].
  - intros i j a b e Ha Hb Hea Heb.
    pose (R := fun x y : jsstr * dir_user => negb (bool_decide (u_email (snd x) = u_email (snd y))) || (fst x =s fst y)).
    assert (H : R (i, a) (j, b) = true) by (eapply (pairs_checked (d_users demo_directory)); [vm_compute; reflexivity|done|done]).
    unfold R in H. cbn [fst snd] in H. rewrite (bool_decide_true (u_email a = u_email b)) in H by congruence.
    bools. by destruct H as [|?%bool_decide_eq_true].
  - intros t e1 e2 r i H1 H2.
    pose (R := fun x y : mapping_key * jsstr => negb (snd x =s snd y) || (snd (fst (fst x)) =s snd (fst (fst y)))).
    assert (H : R ((t, e1, r), i) ((t, e2, r), i) = true)
      by (eapply (pairs_checked (d_mappings demo_directory)); [vm_compute; reflexivity|done|done]).
    unfold R in H. cbn [fst snd] in H. rewrite (bool_decide_true (i = i)) in H by done.
    bools. by destruct H as [|?%bool_decide_eq_true].
  - intros i m Hm.
    pose (R := fun x y : jsstr * dir_member => bool_decide (is_Some (d_users demo_directory !! m_userId (snd x)))).
    assert (H : R (i, m) (i, m) = true) by (eapply (pairs_checked (d_members demo_directory)); [vm_compute; reflexivity|done|done]).
    unfold R in H. by bools.
Qed.

Lemma demo_serial : serial demo_sr.
Proof. done. Qed.
Lemma demo_serial2 : serial demo_sr2.
Proof. done. Qed.
Lemma demo_answer_succeeds : r_success (snd (demo_run demo_answer demo_sr (demo_o false) demo_directory)) = true.
Proof. vm_compute. reflexivity. Qed.

Lemma sync_never_deactivates_owner_witness :
  owners_kept (d_members demo_directory) (fst (demo_run demo_answer demo_sr (demo_o true) demo_directory)).
Proof. apply sync_never_deactivates_owner. intros ph d. reflexivity. Defined.

Lemma dry_run_changes_nobody_witness :
  same_people demo_directory (fst (demo_run demo_answer demo_sr (dry (demo_o false)) demo_directory)).
Proof. apply dry_run_changes_nobody; [reflexivity|]. intros ph d. repeat split. Defined.

Lemma absent_deactivations_bounded_witness :
  5 * usersDeactivated (r_counters (snd (demo_run demo_answer demo_sr (demo_o false) demo_directory)))
    <= Z.of_nat (active_members (js "t") demo_directory).
Proof.
  refine (absent_deactivations_bounded _ _ _ demo_sr (demo_o false) demo_directory _ _ (surjective_pairing _) _ _ _).
  - exact demo_answer_succeeds.
  - reflexivity.
  - intros ph d. reflexivity.
Defined.

Lemma sync_releases_lock_witness :
  exists c, find_config (js "t") (js "cfg") (fst (demo_run demo_answer demo_sr (demo_o false) demo_directory)) = Some c /\
    c_status c = if r_success (snd (demo_run demo_answer demo_sr (demo_o false) demo_directory)) then S_SUCCESS else S_ERROR.
Proof.
  refine (sync_releases_lock _ _ _ demo_sr (demo_o false) demo_directory demo_config _ _ _ _ _ _);
    [vm_compute; reflexivity|vm_compute; reflexivity| |reflexivity|reflexivity|reflexivity]. intros ph d. reflexivity.
Defined.

(** The same tenant while a run that began at 9000000 holds the lock. *)
Definition demo_locked : directory :=
  with_configs demo_directory {[js "cfg" := set_running 9000000 demo_config]}.

Lemma locked_sync_refused_witness :
  fst (demo_run demo_answer demo_sr (demo_o false) demo_locked) = demo_locked /\
  r_success (snd (demo_run demo_answer demo_sr (demo_o false) demo_locked)) = false /\
  r_counters (snd (demo_run demo_answer demo_sr (demo_o false) demo_locked)) = zero_counters.
Proof.
  refine (locked_sync_refused _ _ _ demo_sr (demo_o false) demo_locked (set_running 9000000 demo_config) 9000000 _ _ _ _ _).
  - vm_compute. reflexivity.
  - reflexivity.
  - reflexivity.
  - vm_compute. discriminate.
  - intros ph x. reflexivity.
Defined.

Lemma dry_run_predicts_witness :
  r_success (snd (demo_run demo_answer demo_sr (dry (demo_o false)) demo_directory)) = true /\
  r_counters (snd (demo_run demo_answer demo_sr (dry (demo_o false)) demo_directory)) =
  r_counters (snd (demo_run demo_answer demo_sr (demo_o false) demo_directory)).
Proof.
  refine (dry_run_predicts _ _ _ demo_sr (demo_o false) demo_directory _ _ demo_serial demo_directory_ok _ _
    (surjective_pairing _) demo_answer_succeeds); vm_compute; reflexivity.
Defined.

Lemma sync_converges_witness :
  let d' := fst (demo_run demo_answer demo_sr (demo_o false) demo_directory) in
  let r2 := snd (demo_run demo_answer demo_sr2 (demo_o false) d') in
  (exists c creds pus, find_config (js "t") (js "cfg") d' = Some c /\
     demo_decrypt (c_credentials c) (js "cfg") (js "t") = Ok creds /\ demo_fetch demo_answer (c_provider c) creds = Ok pus /\
     reconciled (js "t") (List.filter has_email pus) d') /\
  usersCreated (r_counters r2) = 0 /\ usersDeactivated (r_counters r2) = 0.
Proof.
  refine (sync_converges _ _ _ demo_sr demo_sr2 (demo_o false) (demo_o false) demo_directory _ _ _ _ demo_serial
    demo_serial2 demo_directory_ok _ _ _ _ (surjective_pairing _) demo_answer_succeeds (surjective_pairing _) _).
  - vm_compute. reflexivity.
  - intros k. discriminate.
  - reflexivity.
  - split; reflexivity.
  - vm_compute. reflexivity.
Defined.

(** ** What the guard and the unique indexes do not prevent *)

(** The provider reports every user, all but the owner's as inactive. *)
Definition demo_inactive : list ProviderUser :=
  map (fun n => demo_pu (js "x" ++ n) n false) demo_names.

(** The guard counts only users missing from the provider's answer: an answer
    that reports them as inactive deactivates every member but the owner in a
    successful run without force. *)
Theorem inactive_users_bypass_guard :
  let '(d', r) := demo_run demo_inactive demo_sr (demo_o false) demo_directory in
  r_success r = true /\ usersDeactivated (r_counters r) = 0 /\
  active_members (js "t") demo_directory = 5%nat /\ active_members (js "t") d' = 1%nat.
Proof. vm_compute. repeat split. Qed.

(** A newcomer, and the user b deleted and created again by the provider under a new
    external identifier. *)
Definition demo_rehired : list ProviderUser :=
  demo_pu (js "xn") (js "n") true :: demo_pu (js "xb2") (js "b") true ::
  map (fun n => demo_pu (js "x" ++ n) n true) [js "a"; js "c"; js "d"; js "e"].

Lemma demo_rehired_fails : r_success (snd (demo_run demo_rehired demo_sr (demo_o false) demo_directory)) = false.
Proof. vm_compute. reflexivity. Qed.

Lemma failed_sync_changes_nobody_witness :
  same_people demo_directory (fst (demo_run demo_rehired demo_sr (demo_o false) demo_directory)).
Proof.
  refine (failed_sync_changes_nobody _ _ _ demo_sr (demo_o false) demo_serial demo_directory _ demo_rehired_fails).
  vm_compute. reflexivity.
Defined.

(** A user whom the provider re-creates under a new identifier, or an address that
    two provider users share up to case, makes every run fail on a unique index,
    and the failed run still reports and logs the users it created before the
    transaction was undone. *)
Theorem duplicate_identity_blocks_sync :
  let '(d1, r1) := demo_run demo_rehired demo_sr (demo_o true) demo_directory in
  let '(d2, r2) := demo_run demo_rehired demo_sr2 (demo_o true) d1 in
  let twins := [demo_pu (js "xn") (js "n") true; demo_pu (js "xm") (js "N") true] in
  r_success r1 = false /\ r_success r2 = false /\
  r_errorMessage r1 = Some unique_violation /\ r_errorMessage r2 = Some unique_violation /\
  usersCreated (r_counters r1) = 1 /\ d_users d1 = d_users demo_directory /\
  l_usersCreated <$> d_logs d1 !! js "l" = Some 1 /\
  r_errorMessage (snd (demo_run twins demo_sr (demo_o true) demo_directory)) = Some unique_violation.
Proof. vm_compute. repeat split. Qed.

(** A member who was active before the mapping existed and whom the provider reports
    as inactive is mapped but stays active until the next run. *)
Lemma newly_mapped_stays_active :
  let d := with_mappings demo_directory ∅ in
  let answer := [demo_pu (js "xb") (js "b") false] in
  let '(d1, r1) := demo_run answer demo_sr (demo_o false) d in
  let '(d2, r2) := demo_run answer demo_sr2 (demo_o false) d1 in
  r_success r1 = true /\ active_members (js "t") d1 = 5%nat /\
  r_success r2 = true /\ active_members (js "t") d2 = 4%nat.
Proof. vm_compute. repeat split. Qed.
