(* ===== verification/SessionCache.v ===== *)
(** * Session cache and session invalidation

    src/src/lib/auth/session/session-cache.ts (the Redis cache of validated sessions
    with tombstones), session-cache-helpers.ts and user-session-invalidation.ts,
    getSessionInfo and extractSessionToken of src/src/lib/proxy/auth-gate.ts, and
    resolveUserTenantIdFromClient of src/src/lib/tenant-context.ts.  The cache is a
    map from key to text and expiry; a text is the JSON value it parses to.  The
    HMAC of a token and the session endpoint are parameters.  Concurrent requests
    are sequences of cache operations with their times. *)

From S2P Require Import Prelude JsString JsNumber JsJson Table.
Local Open Scope Z_scope.

(** ** The Redis commands used *)

(** [None] is a text that is not JSON. *)
Abbreviation cache_text := (option json).
Abbreviation store := (gmap jsstr (cache_text * Z)).

(** Redis is not configured, fails, or answers. *)
Inductive redis_mode := NotConfigured | Failing | Up.

Definition redis_get (now : Z) (s : store) (key : jsstr) : option cache_text :=
  match s !! key with Some (v, exp) => if now <? exp then Some v else None | None => None end.
(** [SET key v PX ttl] and [SET key v PX ttl NX] *)
Definition redis_set (now : Z) (s : store) (key : jsstr) (v : json) (ttl : Z) : store :=
  <[key := (Some v, now + ttl)]> s.
Definition redis_set_nx (now : Z) (s : store) (key : jsstr) (v : json) (ttl : Z) : store :=
  match redis_get now s key with Some _ => s | None => redis_set now s key v ttl end.

(** ** Values *)

Record SessionInfo := {
  si_valid : bool; si_userId : option jsstr; si_tenantId : option jsstr; si_hasPasskey : option bool;
  si_requirePasskey : option bool; si_requirePasskeyEnabledAt : option (option jsstr);
  si_passkeyGracePeriodDays : option (option jsnum) }.

Definition invalid_session : SessionInfo :=
  {| si_valid := false; si_userId := None; si_tenantId := None; si_hasPasskey := None;
     si_requirePasskey := None; si_requirePasskeyEnabledAt := None; si_passkeyGracePeriodDays := None |}.

(** [JSON.stringify(info)]: properties that are undefined are left out. *)
Definition prop {A} (name : jsstr) (f : A -> json) (v : option A) : list (jsstr * json) :=
  match v with Some a => [(name, f a)] | None => [] end.
Definition nullable {A} (f : A -> json) (v : option A) : json :=
  match v with Some a => f a | None => JNull end.
Definition info_json (i : SessionInfo) : json :=
  JObj ([(js "valid", JBool (si_valid i))] ++ prop (js "userId") JStr (si_userId i)
        ++ prop (js "tenantId") JStr (si_tenantId i) ++ prop (js "hasPasskey") JBool (si_hasPasskey i)
        ++ prop (js "requirePasskey") JBool (si_requirePasskey i)
        ++ prop (js "requirePasskeyEnabledAt") (nullable JStr) (si_requirePasskeyEnabledAt i)
        ++ prop (js "passkeyGracePeriodDays") (nullable JNum) (si_passkeyGracePeriodDays i)).

Definition negative_json : json := JObj [(js "valid", JBool false)].
Definition tombstone_json : json := JObj [(js "tombstone", JBool true)].

Definition TombstoneSchema (v : json) : bool :=
  match json_get v (js "tombstone") with JBool true => true | _ => false end.
Definition NegativeCacheSchema (v : json) : bool :=
  match json_get v (js "valid") with JBool false => true | _ => false end.

(** The optional string, and the strings and numbers that may be null but not
    undefined. *)
Definition optional_string (v : json) (key : jsstr) : option (option jsstr) :=
  if json_has v key then match json_get v key with JStr s => Some (Some s) | _ => None end else Some None.
Definition nullable_string (v : json) (key : jsstr) : option (option jsstr) :=
  if json_has v key
  then match json_get v key with JStr s => Some (Some s) | JNull => Some None | _ => None end else None.
Definition nullable_number (v : json) (key : jsstr) : option (option jsnum) :=
  if json_has v key
  then match json_get v key with JNum x => Some (Some x) | JNull => Some None | _ => None end else None.

Definition SessionInfoSchema (v : json) : option SessionInfo :=
  match json_get v (js "valid"), json_get v (js "userId"), optional_string v (js "tenantId"),
        json_get v (js "hasPasskey"), json_get v (js "requirePasskey"),
        nullable_string v (js "requirePasskeyEnabledAt"), nullable_number v (js "passkeyGracePeriodDays") with
  | JBool true, JStr userId, Some tenantId, JBool hasPasskey, JBool requirePasskey, Some enabledAt, Some days =>
      Some {| si_valid := true; si_userId := Some userId; si_tenantId := tenantId;
              si_hasPasskey := Some hasPasskey; si_requirePasskey := Some requirePasskey;
              si_requirePasskeyEnabledAt := Some enabledAt; si_passkeyGracePeriodDays := Some days |}
  | _, _, _, _, _, _, _ => None
  end.

Definition SESSION_CACHE_TTL_MS : Z := 30000.
Definition NEGATIVE_CACHE_TTL_MS : Z := 5000.
Definition TOMBSTONE_TTL_MS : Z := 30000.
Definition SESSION_CACHE_KEY_PREFIX : jsstr := js "sess:cache:".

(** ** Cache operations *)

Definition cacheKeyFromDigest (digest : jsstr) : jsstr := SESSION_CACHE_KEY_PREFIX ++ digest.

Section Cache.
(** [hashSessionToken]; [None] when no key is available and it throws. *)
Variable hashSessionToken : jsstr -> option jsstr.

Definition cacheKey (token : jsstr) : option jsstr := cacheKeyFromDigest <$> hashSessionToken token.

(** The decision on a cached text: what is answered, and whether it is evicted. *)
Definition read_cached (raw : cache_text) : option SessionInfo * bool :=
  match raw with
  | None => (None, true)
  | Some v =>
      if TombstoneSchema v then (None, false)
      else if NegativeCacheSchema v then (Some invalid_session, false)
      else match SessionInfoSchema v with Some i => (Some i, false) | None => (None, true) end
  end.

Definition getCachedSession (mode : redis_mode) (now : Z) (s : store) (token : jsstr)
    : store * option SessionInfo :=
  match mode, cacheKey token with
  | Up, Some key =>
      match redis_get now s key with
      | None => (s, None)
      | Some raw => let '(r, evict) := read_cached raw in ((if evict then delete key s else s), r)
      end
  | _, _ => (s, None)
  end.

Definition is_set {A} (v : option A) : bool := match v with Some _ => true | None => false end.
(** [info.userId] is a non-empty string. *)
Definition truthy (v : option jsstr) : bool := match v with Some (_ :: _) => true | _ => false end.

Definition setCachedSession (mode : redis_mode) (now : Z) (s : store) (token : jsstr) (info : SessionInfo)
    (ttlMs : Z) : store :=
  match mode with
  | NotConfigured => s
  | Failing => s
  | Up =>
      if si_valid info && truthy (si_userId info) && (ttlMs <? 1000) then s
      else match cacheKey token with
           | None => s
           | Some key =>
               if negb (si_valid info) || negb (truthy (si_userId info))
               then redis_set_nx now s key negative_json NEGATIVE_CACHE_TTL_MS
               else redis_set_nx now s key (info_json info) (Z.min ttlMs SESSION_CACHE_TTL_MS)
           end
  end.

Definition tombstoneByKey (mode : redis_mode) (now : Z) (s : store) (key : option jsstr) : store * bool :=
  match mode, key with
  | NotConfigured, _ => (s, true)
  | Up, Some k => (redis_set now s k tombstone_json TOMBSTONE_TTL_MS, true)
  | _, _ => (s, false)
  end.

Definition invalidateCachedSession (mode : redis_mode) (now : Z) (s : store) (token : jsstr) : store * bool :=
  tombstoneByKey mode now s (cacheKey token).
Definition invalidateCachedSessionByDigest (mode : redis_mode) (now : Z) (s : store) (digest : jsstr) : store * bool :=
  tombstoneByKey mode now s (Some (cacheKeyFromDigest digest)).

(** [pipeline.exec()] resolves with one result per command; [rejected] are the
    commands the server refused. *)
Definition tombstoneBulkByKeys (mode : redis_mode) (now : Z) (rejected : list jsstr) (s : store) (keys : list jsstr)
    : store * (Z * Z) :=
  let total := Z.of_nat (List.length keys) in
  match keys, mode with
  | [], _ => (s, (0, 0))
  | _, NotConfigured => (s, (total, 0))
  | _, Failing => (s, (total, total))
  | _, Up =>
      (fold_left (fun s k => if bool_decide (k ∈ rejected) then s
                             else redis_set now s k tombstone_json TOMBSTONE_TTL_MS) keys s,
       (total, 0))
  end.
Definition invalidateCachedSessionsBulkByDigest (mode : redis_mode) (now : Z) (rejected : list jsstr) (s : store)
    (digests : list jsstr) : store * (Z * Z) :=
  tombstoneBulkByKeys mode now rejected s (map cacheKeyFromDigest digests).

(** Hashing all tokens comes first and may throw. *)
Definition invalidateCachedSessionsBulk (mode : redis_mode) (now : Z) (rejected : list jsstr) (s : store)
    (tokens : list jsstr) : outcome unit (store * (Z * Z)) :=
  match mapM cacheKey tokens with
  | Some keys => Ok (tombstoneBulkByKeys mode now rejected s keys)
  | None => Throw tt
  end.

(** session-cache-helpers.ts; each digest has its own outcome of the Redis call. *)
Fixpoint invalidateCachedSessions (now : Z) (s : store) (digests : list (jsstr * redis_mode)) : store * (Z * Z) :=
  match digests with
  | [] => (s, (0, 0))
  | (digest, mode) :: rest =>
      let '(s1, ok) := invalidateCachedSessionByDigest mode now s digest in
      let '(s2, (total, failed)) := invalidateCachedSessions now s1 rest in
      (s2, (total + 1, failed + if ok then 0 else 1))
  end.

(** ** The session of a request *)

Definition ALL_KNOWN_SESSION_COOKIE_NAMES : list jsstr :=
  [js "__Host-authjs.session-token"; js "__Secure-authjs.session-token"; js "authjs.session-token";
   js "__Secure-next-auth.session-token"; js "next-auth.session-token"].

(** [s.indexOf("=")] splits the segment. *)
Fixpoint split_eq (s : jsstr) : option (jsstr * jsstr) :=
  match s with
  | [] => None
  | c :: s' => if c =? 61 then Some ([], s')
               else match split_eq s' with Some (n, v) => Some (c :: n, v) | None => None end
  end.

Definition dequote (raw : jsstr) : jsstr :=
  if js_starts_with [34] raw && js_ends_with [34] raw && (2 <=? List.length raw)%nat
  then take (List.length raw - 2) (drop 1 raw) else raw.

Definition segment_value (name segment : jsstr) : option jsstr :=
  match split_eq (js_trim segment) with
  | Some (n, v) => if n =s name then Some (dequote v) else None
  | None => None
  end.
Fixpoint first_value {A} (f : A -> option jsstr) (l : list A) : option jsstr :=
  match l with [] => None | x :: l' => match f x with Some v => Some v | None => first_value f l' end end.

Definition extractSessionToken (cookie : jsstr) : jsstr :=
  let segments := js_split (js ";") cookie in
  default [] (first_value (fun name => first_value (segment_value name) segments) ALL_KNOWN_SESSION_COOKIE_NAMES).

Definition hasSessionCookie (cookieHeader : jsstr) : bool := negb (extractSessionToken cookieHeader =s []).

(** The answer of the session endpoint. *)
Record session_user := {
  su_id : option jsstr; su_hasPasskey : option bool; su_requirePasskey : option bool;
  su_requirePasskeyEnabledAt : option (option jsstr); su_passkeyGracePeriodDays : option (option jsnum) }.
Record session_data := { sd_user : option session_user; sd_expires : option Z }.

(** tenant-context.ts, over the user's active memberships by creation. *)
Definition resolveUserTenantIdFromClient (memberships : list jsstr) : outcome unit (option jsstr) :=
  match take 2 memberships with
  | [] => Ok None
  | [tenantId] => Ok (Some tenantId)
  | _ => Throw tt
  end.

Definition passkey_fields (valid : bool) (u : option session_user) : SessionInfo -> SessionInfo :=
  fun i =>
  let '(h, r, e, g) :=
    match u with
    | Some u =>
        if valid then
          match su_hasPasskey u, su_requirePasskey u, su_requirePasskeyEnabledAt u, su_passkeyGracePeriodDays u with
          | Some h, Some r, Some e, Some g => (h, r, e, g)
          | _, _, _, _ => (false, true, None, None)
          end
        else (default false (su_hasPasskey u), default false (su_requirePasskey u),
              default None (su_requirePasskeyEnabledAt u), default None (su_passkeyGracePeriodDays u))
    | None => (false, false, None, None)
    end in
  {| si_valid := si_valid i; si_userId := si_userId i; si_tenantId := si_tenantId i;
     si_hasPasskey := Some h; si_requirePasskey := Some r; si_requirePasskeyEnabledAt := Some e;
     si_passkeyGracePeriodDays := Some g |}.

(** The session computed on a cache miss; [None] is a fail-closed answer that is not
    cached. *)
Definition session_info_of (response : option session_data) (memberships : jsstr -> outcome unit (list jsstr))
    : option SessionInfo :=
  match response with
  | None => None
  | Some data =>
      let valid := is_set (sd_user data) in
      let userId := sd_user data ≫= su_id in
      let base tenantId := passkey_fields valid (sd_user data)
        {| si_valid := valid; si_userId := userId; si_tenantId := tenantId; si_hasPasskey := None;
           si_requirePasskey := None; si_requirePasskeyEnabledAt := None; si_passkeyGracePeriodDays := None |} in
      match userId with
      | Some (c :: w) =>
          match memberships (c :: w) ≫= resolveUserTenantIdFromClient with
          | Ok (Some tenantId) => Some (base (Some tenantId))
          | Ok None | Throw _ => None
          end
      | _ => Some (base None)
      end
  end.

Definition ttl_of (now : Z) (data : session_data) : Z :=
  match sd_expires data with Some e => e - now | None => SESSION_CACHE_TTL_MS end.

(** [others] are the cache operations of other requests between the lookup at [t0]
    and the write at [t1]. *)
Definition getSessionInfo (mode : redis_mode) (t0 t1 : Z) (others : store -> store) (s : store)
    (cookie : option jsstr) (fetch_session : jsstr -> option session_data)
    (memberships : jsstr -> outcome unit (list jsstr)) : store * SessionInfo :=
  match cookie with
  | None | Some [] => (s, invalid_session)
  | Some c =>
      match extractSessionToken c with
      | [] => (s, invalid_session)
      | token =>
          let '(s1, cached) := getCachedSession mode t0 s token in
          match cached with
          | Some i => (s1, i)
          | None =>
              let s2 := others s1 in
              match fetch_session c with
              | None => (s2, invalid_session)
              | Some data =>
                  match session_info_of (Some data) memberships with
                  | None => (s2, invalid_session)
                  | Some info => (setCachedSession mode t1 s2 token info (ttl_of t1 data), info)
                  end
              end
          end
      end
  end.
End Cache.

(** ** Invalidation of a user's credentials *)

Record session_row := { s_sessionToken : jsstr; s_userId : jsstr; s_tenantId : jsstr; s_expires : Z }.
(** A row of any of the token tables; [t_userId] is the user it authenticates as. *)
Record token_row := { t_userId : option jsstr; t_tenantId : jsstr; t_revokedAt : option Z }.
Abbreviation token_table := (gmap jsstr token_row).

Record auth_tables := {
  session : gmap jsstr session_row; extensionToken : token_table; apiKey : token_table;
  mcpAccessToken : token_table; mcpRefreshToken : token_table; delegationSession : token_table;
  operatorToken : token_table }.

(** [tenantId] or [allTenants: true] *)
Inductive tenant_scope := OneTenant (tenantId : jsstr) | AllTenants.
Definition in_scope (sc : tenant_scope) (tenantId : jsstr) : bool :=
  match sc with OneTenant t => tenantId =s t | AllTenants => true end.

Definition target_session (userId : jsstr) (sc : tenant_scope) (excluded : option jsstr) (r : session_row) : bool :=
  (s_userId r =s userId) && in_scope sc (s_tenantId r) && negb (bool_decide (excluded = Some (s_sessionToken r))).
Definition target_token (userId : jsstr) (sc : tenant_scope) (r : token_row) : bool :=
  bool_decide (t_userId r = Some userId) && negb (is_set (t_revokedAt r)) && in_scope sc (t_tenantId r).
Definition revoke (now : Z) (r : token_row) : token_row :=
  {| t_userId := t_userId r; t_tenantId := t_tenantId r; t_revokedAt := Some now |}.

Record InvalidateUserSessionsResult := {
  iv_sessions : nat; iv_extensionTokens : nat; iv_apiKeys : nat; iv_mcpAccessTokens : nat;
  iv_mcpRefreshTokens : nat; iv_delegationSessions : nat; iv_operatorTokens : nat; iv_cacheTombstoneFailures : Z }.

Section Invalidate.
Variable hashSessionToken : jsstr -> option jsstr.

(** [excludeSessionDigest ? ... : {}]: an empty digest excludes nothing. *)
Definition or_some (h : jsstr) : option jsstr := match h with [] => None | _ => Some h end.

(** The transaction callback.  It writes the tombstones before the transaction
    commits; [modes] gives the outcome of the Redis call of each digest. *)
Definition invalidateUserSessions (now : Z) (userId : jsstr) (sc : tenant_scope) (excludeSessionToken : option jsstr)
    (modes : jsstr -> redis_mode) (db : auth_tables) (s : store)
    : outcome unit (auth_tables * store * InvalidateUserSessionsResult) :=
  match match excludeSessionToken with
        | None => Ok None
        | Some t => match hashSessionToken t with Some h => Ok (Some h) | None => Throw tt end
        end with
  | Throw e => Throw e
  | Ok digest =>
      let excluded := digest ≫= or_some in
      let targets := map (fun kr => s_sessionToken (snd kr))
                       (List.filter (fun kr => target_session userId sc excluded (snd kr)) (map_to_list (session db))) in
      let sessions := deleteMany (target_session userId sc excluded) (session db) in
      let upd t := updateMany (target_token userId sc) (revoke now) t in
      let '(s', (_, failed)) := match targets with
                                | [] => (s, (0, 0))
                                | _ => invalidateCachedSessions now s (map (fun d => (d, modes d)) targets)
                                end in
      Ok ({| session := sessions; extensionToken := fst (upd (extensionToken db)); apiKey := fst (upd (apiKey db));
             mcpAccessToken := fst (upd (mcpAccessToken db)); mcpRefreshToken := fst (upd (mcpRefreshToken db));
             delegationSession := fst (upd (delegationSession db)); operatorToken := fst (upd (operatorToken db)) |},
          s',
          {| iv_sessions := List.length targets; iv_extensionTokens := snd (upd (extensionToken db));
             iv_apiKeys := snd (upd (apiKey db)); iv_mcpAccessTokens := snd (upd (mcpAccessToken db));
             iv_mcpRefreshTokens := snd (upd (mcpRefreshToken db));
             iv_delegationSessions := snd (upd (delegationSession db));
             iv_operatorTokens := snd (upd (operatorToken db)); iv_cacheTombstoneFailures := failed |})
  end.
End Invalidate.

(** invalidateTenantSessionsCache: the unexpired sessions of a tenant. *)
Definition invalidateTenantSessionsCache (mode : redis_mode) (now : Z) (rejected : list jsstr) (tenantId : jsstr)
    (sessions : gmap jsstr session_row) (s : store) : store * (Z * Z) :=
  invalidateCachedSessionsBulkByDigest mode now rejected s
    (map (fun kr => s_sessionToken (snd kr))
       (List.filter (fun kr => (s_tenantId (snd kr) =s tenantId) && (now <? s_expires (snd kr)))
          (map_to_list sessions))).

(** ** Sequences of cache operations *)

Inductive cache_op :=
| OpGet (token : jsstr)
| OpSet (token : jsstr) (info : SessionInfo) (ttlMs : Z)
| OpTombstone (digest : jsstr)
| OpBulk (rejected digests : list jsstr).

Section Revocation.
Context (hashSessionToken : jsstr -> option jsstr).

Definition cache_step (s : store) (e : Z * redis_mode * cache_op) : store :=
  let '(now, mode, op) := e in
  match op with
  | OpGet token => fst (getCachedSession hashSessionToken mode now s token)
  | OpSet token info ttl => setCachedSession hashSessionToken mode now s token info ttl
  | OpTombstone digest => fst (invalidateCachedSessionByDigest mode now s digest)
  | OpBulk rejected digests => fst (invalidateCachedSessionsBulkByDigest mode now rejected s digests)
  end.
Definition cache_run (s : store) (es : list (Z * redis_mode * cache_op)) : store := fold_left cache_step es s.

(** The times of the operations do not decrease from [t] and end by [t']. *)
Fixpoint in_order (t : Z) (es : list (Z * redis_mode * cache_op)) (t' : Z) : Prop :=
  match es with
  | [] => t <= t'
  | (now, _, _) :: rest => t <= now /\ in_order now rest t'
  end.

(** A session with this digest is cached as valid only within the lifetime of the
    tombstone written at [tr]: the delay between the endpoint's answer and its write
    to the cache is shorter than the time from the deletion to that lifetime's end. *)
Definition timely (digest : jsstr) (tr : Z) (e : Z * redis_mode * cache_op) : Prop :=
  match e with
  | (now, _, OpSet token info _) =>
      hashSessionToken token = Some digest -> si_valid info = true -> now < tr + TOMBSTONE_TTL_MS
  | _ => True
  end.

(** The text stored under a key says that the session is valid. *)
Definition stored_valid (s : store) (key : jsstr) : Prop :=
  exists raw exp i b, s !! key = Some (raw, exp) /\ read_cached raw = (Some i, b) /\ si_valid i = true.

(** The tombstone is still there, or its time is over and nothing valid is stored. *)
Definition suppressed (key : jsstr) (tr now : Z) (s : store) : Prop :=
  (exists exp, s !! key = Some (Some tombstone_json, exp) /\ tr + TOMBSTONE_TTL_MS <= exp) \/
  (tr + TOMBSTONE_TTL_MS <= now /\ ~ stored_valid s key).

Lemma suppressed_later key tr t t' s : t <= t' -> suppressed key tr t s -> suppressed key tr t' s.
Proof. intros Ht [H|[H1 H2]]; [by left|right; split; [lia|done]]. Qed.

Lemma suppressed_congr key tr t s s' : s' !! key = s !! key -> suppressed key tr t s -> suppressed key tr t s'.
Proof. unfold suppressed, stored_valid. by intros ->. Qed.

Lemma suppressed_delete key k tr t s :
  (forall exp, s !! k <> Some (Some tombstone_json, exp)) -> suppressed key tr t s -> suppressed key tr t (delete k s).
Proof.
  intros Hk H. destruct (decide (k = key)) as [->|Hne].
  - destruct H as [(exp & He & _)|[H1 H2]]; [by destruct (Hk exp)|]. right. split; [done|].
    intros (raw & exp & i & b & Hl & _). by rewrite lookup_delete_eq in Hl.
  - eapply suppressed_congr; [by apply lookup_delete_ne|done].
Qed.

Lemma suppressed_tombstone key k tr t s :
  tr <= t -> suppressed key tr t s -> suppressed key tr t (redis_set t s k tombstone_json TOMBSTONE_TTL_MS).
Proof.
  intros Ht H. unfold redis_set. destruct (decide (k = key)) as [->|Hne].
  - left. exists (t + TOMBSTONE_TTL_MS). rewrite lookup_insert_eq. split; [done|lia].
  - eapply suppressed_congr; [by apply lookup_insert_ne|done].
Qed.

(** An [NX] write under the key takes effect only after the tombstone's time. *)
Lemma suppressed_nx key k tr t s v ttl :
  (k = key -> t < tr + TOMBSTONE_TTL_MS \/ forall i b, read_cached (Some v) = (Some i, b) -> si_valid i = false) ->
  suppressed key tr t s -> suppressed key tr t (redis_set_nx t s k v ttl).
Proof.
  intros Hv H. unfold redis_set_nx. destruct (redis_get t s k) eqn:Eg; [done|]. unfold redis_set.
  destruct (decide (k = key)) as [->|Hne]; [|by eapply suppressed_congr; [apply lookup_insert_ne|done]].
  assert (Hlate : tr + TOMBSTONE_TTL_MS <= t).
  { destruct H as [(exp & He & Hexp)|[H1 _]]; [|done]. unfold redis_get in Eg. rewrite He in Eg.
    destruct (t <? exp) eqn:El; [done|]. bools. lia. }
  destruct (Hv eq_refl) as [Hlt|Hneg]; [lia|]. right. split; [done|].
  intros (raw & exp & i & b & Hl & Hr & Hval). rewrite lookup_insert_eq in Hl. simplify_eq.
  specialize (Hneg _ _ Hr). congruence.
Qed.

Lemma negative_not_valid i b : read_cached (Some negative_json) = (Some i, b) -> si_valid i = false.
Proof. vm_compute. intros H. by simplify_eq. Qed.

Lemma key_injective d d' : cacheKeyFromDigest d = cacheKeyFromDigest d' -> d = d'.
Proof. unfold cacheKeyFromDigest. apply app_inv_head. Qed.

Lemma suppressed_bulk key tr t (rejected keys : list jsstr) : forall s : store,
  tr <= t -> suppressed key tr t s ->
  suppressed key tr t (fold_left (fun s k => if bool_decide (k ∈ rejected) then s
     else redis_set t s k tombstone_json TOMBSTONE_TTL_MS) keys s).
Proof.
  induction keys as [|k keys IH]; intros s Ht H; simpl; [done|]. apply IH; [done|].
  case_bool_decide; [done|]. by apply suppressed_tombstone.
Qed.

Lemma suppressed_step digest tr t s e :
  tr <= t -> timely digest tr e -> fst (fst e) = t ->
  suppressed (cacheKeyFromDigest digest) tr t s -> suppressed (cacheKeyFromDigest digest) tr t (cache_step s e).
Proof.
  intros Htr Htime <- H. destruct e as [[now mode] op]. cbn [fst] in *.
  destruct op as [token|token info ttl|d|rejected ds]; cbn [cache_step].
  - unfold getCachedSession. destruct mode; [done..|]. destruct (cacheKey _ token) as [k|]; [|done].
    destruct (redis_get now s k) as [raw|] eqn:Eg; [|done].
    destruct (read_cached raw) as [r [|]] eqn:Er; [|done]. cbn [fst]. apply suppressed_delete; [|done].
    intros exp He. unfold redis_get in Eg. rewrite He in Eg. destruct (now <? exp); [|done]. simplify_eq.
  - unfold setCachedSession. destruct mode; [done..|].
    destruct (si_valid info && truthy (si_userId info) && (ttl <? 1000)); [done|].
    unfold cacheKey. destruct (hashSessionToken token) as [h|] eqn:Eh; [|done]. cbn [fmap option_fmap option_map].
    destruct (negb (si_valid info) || negb (truthy (si_userId info))) eqn:Ev.
    + apply suppressed_nx; [|done]. intros _. right. apply negative_not_valid.
    + apply suppressed_nx; [|done]. intros Hk%key_injective. left. subst h. bools.
      by apply Htime.
  - unfold invalidateCachedSessionByDigest, tombstoneByKey. destruct mode; [done..|]. by apply suppressed_tombstone.
  - unfold invalidateCachedSessionsBulkByDigest, tombstoneBulkByKeys.
    destruct (map cacheKeyFromDigest ds) as [|k ks]; [done|]. destruct mode; [done..|]. cbn [fst]. by apply (suppressed_bulk _ tr now rejected (k :: ks) s).
Qed.

Lemma suppressed_run digest tr es : forall t t' s,
  tr <= t -> in_order t es t' -> Forall (timely digest tr) es ->
  suppressed (cacheKeyFromDigest digest) tr t s -> suppressed (cacheKeyFromDigest digest) tr t' (cache_run s es).
Proof.
  induction es as [|[[now mode] op] es IH]; intros t t' s Htr Ho Hall H; simpl in *.
  - by eapply suppressed_later.
  - destruct Ho as [H1 H2]. apply Forall_cons in Hall as [Ha Hall].
    apply (IH now); [lia|done|done|]. apply (suppressed_step digest tr now s (now, mode, op)); [lia|done|done|].
    by eapply suppressed_later.
Qed.

(** Nothing valid is read from a suppressed key. *)
Lemma suppressed_read token digest tr t s i mode :
  hashSessionToken token = Some digest -> suppressed (cacheKeyFromDigest digest) tr t s ->
  snd (getCachedSession hashSessionToken mode t s token) = Some i -> si_valid i = false.
Proof.
  intros Hh H Hg. unfold getCachedSession, cacheKey in Hg. rewrite Hh in Hg. cbn [fmap option_fmap option_map] in Hg.
  destruct mode; [done..|]. destruct (redis_get t s _) as [raw|] eqn:Eg; [|done].
  unfold redis_get in Eg. destruct (s !! _) as [[v exp]|] eqn:El; [|done]. destruct (t <? exp) eqn:Et; [|done].
  simplify_eq. destruct (read_cached raw) as [r b] eqn:Er. cbn [snd] in Hg. subst r.
  destruct H as [(exp' & He & _)|[_ Hn]].
  - rewrite El in He. by simplify_eq.
  - destruct (si_valid i) eqn:Ev; [|done]. destruct Hn. by exists raw, exp, i, b.
Qed.

(** C35: no cache entry keeps a deleted session alive.  Once the tombstone of a session
    has been written and the session endpoint no longer reports a user for its
    cookie ([Hgone]), the proxy does not accept the session, whatever cache operations
    any requests performed since the tombstone, in the order of their times, with
    Redis up or down at each of them, provided that a request that had read the endpoint before the deletion
    wrote its answer within the tombstone's lifetime, or not at all ([Htimely]).  A
    session whose user the endpoint still reports is not meant. *)
Theorem revoked_session_rejected token digest tr s0 es t mode t1 others cookie fetch_session memberships
    (Hdigest : hashSessionToken token = Some digest)
    (Horder : in_order tr es t) (Htimely : Forall (timely digest tr) es)
    (Hcookie : extractSessionToken cookie = token)
    (Hgone : forall data, fetch_session cookie = Some data -> sd_user data = None) :
  let s := cache_run (fst (invalidateCachedSessionByDigest Up tr s0 digest)) es in
  si_valid (snd (getSessionInfo hashSessionToken mode t t1 others s (Some cookie) fetch_session memberships)) = false.
Proof.
  intros s. assert (Hs : suppressed (cacheKeyFromDigest digest) tr t s).
  { apply (suppressed_run digest tr es tr t); [lia|done|done|]. left. exists (tr + TOMBSTONE_TTL_MS).
    cbn. unfold redis_set. rewrite lookup_insert_eq. split; [done|lia]. }
  clearbody s. unfold getSessionInfo. destruct cookie as [|c w]; [done|]. rewrite Hcookie.
  destruct token as [|x tok]; [done|].
  pose proof (fun i => suppressed_read _ _ _ _ _ i mode Hdigest Hs) as Hread.
  destruct (getCachedSession _ mode t s _) as [s1 [i|]]; [by apply Hread|].
  destruct (fetch_session (c :: w)) as [data|] eqn:Ef; [|done].
  destruct data as [u e]. specialize (Hgone _ eq_refl). simpl in Hgone. subst u. done.
Qed.
End Revocation.

(** ** What is cached is what is read *)

(** A valid session with every field the cache requires. *)
Definition complete (i : SessionInfo) : Prop :=
  si_valid i = true /\ truthy (si_userId i) = true /\ is_Some (si_hasPasskey i) /\ is_Some (si_requirePasskey i) /\
  is_Some (si_requirePasskeyEnabledAt i) /\ is_Some (si_passkeyGracePeriodDays i).

Lemma read_info_json i : complete i -> read_cached (Some (info_json i)) = (Some i, false).
Proof.
  destruct i as [v u t h r e g]. intros (Hv & Hu & [h' Hh] & [r' Hr] & [e' He] & [g' Hg]). simpl in *. subst.
  destruct u as [[|c w]|]; [done| |done]. destruct t; destruct e'; destruct g'; vm_compute; reflexivity.
Qed.

(** What is cached is what is read back: a complete session written to a key that
    holds no live entry is returned unchanged for the smaller of its remaining
    lifetime and thirty seconds, and is a miss from then on. *)
Theorem cached_session_roundtrip hashSessionToken s token digest info ttl now t
    (Hdigest : hashSessionToken token = Some digest) (Hinfo : complete info) (Httl : 1000 <= ttl)
    (Hfree : redis_get now s (cacheKeyFromDigest digest) = None) :
  let s' := setCachedSession hashSessionToken Up now s token info ttl in
  snd (getCachedSession hashSessionToken Up t s' token) =
  if t <? now + Z.min ttl SESSION_CACHE_TTL_MS then Some info else None.
Proof.
  intros s'. pose proof Hinfo as (Hv & Hu & _).
  assert (E : s' = redis_set now s (cacheKeyFromDigest digest) (info_json info) (Z.min ttl SESSION_CACHE_TTL_MS)).
  { subst s'. unfold setCachedSession, cacheKey. rewrite Hv, Hu, Hdigest. cbn [andb negb orb fmap option_fmap option_map].
    destruct (ttl <? 1000) eqn:Et; [bools; lia|]. unfold redis_set_nx. by rewrite Hfree. }
  rewrite E. unfold getCachedSession, cacheKey. rewrite Hdigest. cbn [fmap option_fmap option_map].
  unfold redis_get, redis_set. rewrite lookup_insert_eq. destruct (t <? _); [|done].
  by rewrite read_info_json.
Qed.

(** The session gate fails closed.  A session that getSessionInfo reports as valid
    carries all four passkey fields, and if it was not cached, the session endpoint
    reported its user, whose one active membership is the tenant of the answer; a
    missing passkey field has become the answer of a tenant that requires a passkey
    the user does not have. *)
Theorem session_gate_fails_closed hashSessionToken mode t0 t1 others s cookie fetch_session memberships info
    (Hinfo : snd (getSessionInfo hashSessionToken mode t0 t1 others s cookie fetch_session memberships) = info)
    (Hvalid : si_valid info = true) :
  exists c, cookie = Some c /\ extractSessionToken c <> [] /\
  (is_Some (si_hasPasskey info) /\ is_Some (si_requirePasskey info) /\
   is_Some (si_requirePasskeyEnabledAt info) /\ is_Some (si_passkeyGracePeriodDays info)) /\
  (snd (getCachedSession hashSessionToken mode t0 s (extractSessionToken c)) = Some info \/
   exists data u, fetch_session c = Some data /\ sd_user data = Some u /\ si_userId info = su_id u /\
     (forall id, su_id u = Some id -> id <> [] ->
        exists tenantId, memberships id = Ok [tenantId] /\ si_tenantId info = Some tenantId) /\
     (su_requirePasskey u = None -> si_requirePasskey info = Some true /\ si_hasPasskey info = Some false)).
Proof.
  subst info. unfold getSessionInfo in *. destruct cookie as [[|c0 w]|]; [done| |done]. set (c := c0 :: w) in *.
  exists c. split; [done|]. destruct (extractSessionToken c) as [|x tok] eqn:Etok; [done|]. split; [done|].
  destruct (getCachedSession _ mode t0 s _) as [s1 [i|]] eqn:Ec.
  - cbn [snd] in *. split; [|by left].
    unfold getCachedSession in Ec. destruct mode; [done..|]. destruct (cacheKey _ _) as [k|]; [|done].
    destruct (redis_get t0 s k) as [raw|]; [|done]. unfold read_cached in Ec. destruct raw as [v|]; [|done].
    destruct (TombstoneSchema v); [done|]. destruct (NegativeCacheSchema v); [by simplify_eq|].
    destruct (SessionInfoSchema v) as [i'|] eqn:Es; [|done]. simplify_eq. unfold SessionInfoSchema in Es.
    repeat case_match; simplify_eq. eauto.
  - destruct (fetch_session c) as [data|] eqn:Ef; [|done].
    destruct (session_info_of (Some data) memberships) as [info|] eqn:Ei; [|done]. cbn [snd] in *.
    unfold session_info_of in Ei. destruct data as [[u|] ex]; cbn [sd_user mbind option_bind is_set] in Ei.
    2:{ by simplify_eq. }
    destruct u as [id h r e g]. cbn [su_id su_hasPasskey su_requirePasskey su_requirePasskeyEnabledAt
      su_passkeyGracePeriodDays passkey_fields] in *.
    assert (Hfields : exists tn, info = {| si_valid := true; si_userId := id; si_tenantId := tn;
       si_hasPasskey := Some (match h, r, e, g with Some h, Some _, Some _, Some _ => h | _, _, _, _ => false end);
       si_requirePasskey := Some (match h, r, e, g with Some _, Some r, Some _, Some _ => r | _, _, _, _ => true end);
       si_requirePasskeyEnabledAt := Some (match h, r, e, g with Some _, Some _, Some e, Some _ => e | _, _, _, _ => None end);
       si_passkeyGracePeriodDays := Some (match h, r, e, g with Some _, Some _, Some _, Some g => g | _, _, _, _ => None end) |} /\
       (forall i, id = Some i -> i <> [] -> exists t, memberships i = Ok [t] /\ tn = Some t)).
    { destruct id as [[|d id]|].
      - simplify_eq. exists None. split; [by destruct h, r, e, g|]. naive_solver.
      - destruct (memberships (d :: id)) as [ms|] eqn:Em; [|done]. cbn [mbind outcome_bind] in Ei.
        destruct ms as [|t [|t2 ms]]; [done| |done]. cbn in Ei. simplify_eq. exists (Some t).
        split; [by destruct h, r, e, g|]. intros i [= <-] _. eauto.
      - simplify_eq. exists None. split; [by destruct h, r, e, g|]. naive_solver. }
    destruct Hfields as (tn & -> & Htn). cbn. split; [eauto|]. right. eexists _, _. split_and!; [done|done|done| |].
    + intros i Hi Hne. by apply Htn.
    + cbn. intros ->. by destruct h.
Qed.

(** ** Invalidation *)

(** The modes of the digests decide the tombstones and the number of failures. *)
Lemma invalidate_sessions_spec now l : forall s,
  let '(s', (total, failed)) := invalidateCachedSessions now s l in
  total = Z.of_nat (List.length l) /\
  failed = Z.of_nat (List.length (List.filter (fun dm => match snd dm with Failing => true | _ => false end) l)) /\
  (forall d, (d, Up) ∈ l -> s' !! cacheKeyFromDigest d = Some (Some tombstone_json, now + TOMBSTONE_TTL_MS)) /\
  (forall k, s !! k = Some (Some tombstone_json, now + TOMBSTONE_TTL_MS) ->
     s' !! k = Some (Some tombstone_json, now + TOMBSTONE_TTL_MS)).
Proof.
  induction l as [|[d m] l IH]; intros s; cbn [invalidateCachedSessions].
  { split_and!; [done|done| |done]. by intros d Hd%not_elem_of_nil. }
  destruct (invalidateCachedSessionByDigest m now s d) as [s1 ok] eqn:E1. specialize (IH s1).
  destruct (invalidateCachedSessions now s1 l) as [s2 [total failed]]. destruct IH as (-> & -> & H3 & H4).
  unfold invalidateCachedSessionByDigest, tombstoneByKey in E1.
  assert (Hkeep : forall k, s !! k = Some (Some tombstone_json, now + TOMBSTONE_TTL_MS) ->
    s2 !! k = Some (Some tombstone_json, now + TOMBSTONE_TTL_MS)).
  { intros k Hk. apply H4. destruct m; simplify_eq; [done|done|]. unfold redis_set.
    apply lookup_insert_Some. destruct (decide (cacheKeyFromDigest d = k)); [by left|by right]. }
  split_and!; [cbn; lia| | |done].
  - destruct m; simplify_eq; cbn; lia.
  - intros d' [[= -> <-]|Hin]%elem_of_cons; [|auto]. simplify_eq. apply H4. apply lookup_insert_eq.
Qed.

(** The rows of a token table after the invalidation: the user's unrevoked rows in
    scope are revoked, every other row is as it was. *)
Definition table_revoked (now : Z) (userId : jsstr) (sc : tenant_scope) (t t' : token_table) : Prop :=
  forall (k : jsstr) r, t !! k = Some r ->
  exists r', t' !! k = Some r' /\
    (t_userId r = Some userId -> in_scope sc (t_tenantId r) = true -> is_Some (t_revokedAt r')) /\
    (target_token userId sc r = false -> r' = r).

Lemma updateMany_revoked now userId sc t :
  table_revoked now userId sc t (fst (updateMany (target_token userId sc) (revoke now) t)).
Proof.
  intros k r Hk. rewrite updateMany_lookup, Hk. eexists. split; [reflexivity|].
  split; [|by intros ->]. intros Hu Hs. unfold target_token. rewrite Hu, Hs, bool_decide_true by done. cbn [andb].
  destruct (t_revokedAt r) eqn:E; cbn; [rewrite E; eauto|eauto].
Qed.

(** After the sessions of a user are invalidated, none of the user's sessions in
    scope is left but the excluded one, every extension token, API key, MCP access
    and refresh token, delegation and operator token that authenticates as the user
    in scope is revoked and every other row is untouched; a tombstone stands for
    every deleted session whose Redis write did not fail, and the reported number of
    failures is exact. *)
Theorem invalidateUserSessions_exact hashSessionToken now userId sc exclude modes db s db' s' r excluded
    (Hrun : invalidateUserSessions hashSessionToken now userId sc exclude modes db s = Ok (db', s', r))
    (Hexcl : excluded = (exclude ≫= hashSessionToken) ≫= or_some) :
  (forall (k : jsstr) row, session db !! k = Some row ->
     session db' !! k = if target_session userId sc excluded row then None else Some row) /\
  table_revoked now userId sc (extensionToken db) (extensionToken db') /\
  table_revoked now userId sc (apiKey db) (apiKey db') /\
  table_revoked now userId sc (mcpAccessToken db) (mcpAccessToken db') /\
  table_revoked now userId sc (mcpRefreshToken db) (mcpRefreshToken db') /\
  table_revoked now userId sc (delegationSession db) (delegationSession db') /\
  table_revoked now userId sc (operatorToken db) (operatorToken db') /\
  (forall (k : jsstr) row, session db !! k = Some row -> target_session userId sc excluded row = true ->
     modes (s_sessionToken row) = Up ->
     s' !! cacheKeyFromDigest (s_sessionToken row) = Some (Some tombstone_json, now + TOMBSTONE_TTL_MS)) /\
  (iv_cacheTombstoneFailures r = 0 <-> forall (k : jsstr) row, session db !! k = Some row ->
     target_session userId sc excluded row = true -> modes (s_sessionToken row) <> Failing).
Proof.
  unfold invalidateUserSessions in Hrun.
  assert (Hd : exists digest, match exclude with None => Ok None
      | Some t => match hashSessionToken t with Some h => Ok (Some h) | None => Throw tt end end = Ok (E:=unit) digest /\
      excluded = digest ≫= or_some).
  { destruct exclude as [t|]; [|by exists None]. destruct (hashSessionToken t) as [h|] eqn:Eh; [|done].
    exists (Some h). split; [done|]. rewrite Hexcl. simpl. by rewrite Eh. }
  destruct Hd as (digest & Ed & Hexcl'). rewrite Ed in Hrun. cbv zeta in Hrun. rewrite <- Hexcl' in Hrun. clear Ed Hexcl Hexcl'.
  set (targets := map _ (List.filter _ _)) in *.
  assert (Hin : forall d, d ∈ targets <-> exists k row, session db !! k = Some row /\
    target_session userId sc excluded row = true /\ s_sessionToken row = d).
  { intros d. unfold targets. rewrite list_elem_of_fmap. split.
    - intros ([k row] & -> & Hr). apply list_elem_of_In, filter_In in Hr as [Hr Ht].
      apply list_elem_of_In, elem_of_map_to_list in Hr. eauto.
    - intros (k & row & Hr & Ht & <-). exists (k, row). split; [done|]. apply list_elem_of_In, filter_In.
      split; [by apply list_elem_of_In, elem_of_map_to_list|done]. }
  pose proof (invalidate_sessions_spec now (map (fun d => (d, modes d)) targets) s) as Hspec.
  assert (Hcache : exists s1 total failed, (match targets with [] => (s, (0, 0))
      | _ => invalidateCachedSessions now s (map (fun d => (d, modes d)) targets) end) = (s1, (total, failed)) /\
      invalidateCachedSessions now s (map (fun d => (d, modes d)) targets) = (s1, (total, failed))).
  { destruct (invalidateCachedSessions now s _) as [s1 [total failed]] eqn:E. exists s1, total, failed.
    destruct targets; [|done]. cbn in E. by simplify_eq. }
  destruct Hcache as (s1 & total & failed & E1 & E2). rewrite E1 in Hrun. rewrite E2 in Hspec.
  injection Hrun as <- <- <-. destruct Hspec as (_ & -> & Htomb & _). cbn.
  split_and!; try apply updateMany_revoked.
  - intros k row Hk. unfold deleteMany. destruct (target_session userId sc excluded row) eqn:Et.
    + apply map_lookup_filter_None. right. intros row' Hrow'. simplify_eq. cbn. by rewrite Et.
    + by apply map_lookup_filter_Some.
  - intros k row Hk Ht Hup. apply Htomb. apply list_elem_of_fmap. exists (s_sessionToken row).
    rewrite Hup. split; [done|]. apply Hin. eauto.
  - rewrite (Nat2Z.inj_iff _ 0), length_zero_iff_nil. split.
    + intros Hnil k row Hk Ht Hf. assert (Hx : In (s_sessionToken row, modes (s_sessionToken row))
        (List.filter (fun dm => match snd dm with Failing => true | _ => false end) (map (fun d => (d, modes d)) targets))).
      { apply filter_In. rewrite Hf. split; [|done]. rewrite <- Hf. apply in_map_iff. exists (s_sessionToken row).
        split; [done|]. apply list_elem_of_In, Hin. eauto. }
      by rewrite Hnil in Hx.
    + clearbody targets. intros Hall. destruct (List.filter _ _) as [|[d m] l] eqn:E; [done|]. exfalso.
      assert (Hx : In (d, m) (List.filter (fun dm => match snd dm with Failing => true | _ => false end)
        (map (fun d => (d, modes d)) targets))) by (rewrite E; by left).
      apply filter_In in Hx as [Hx Hm]. apply in_map_iff in Hx as (d' & [= <- <-] & Hd').
      apply list_elem_of_In, Hin in Hd' as (k & row & Hk & Ht & Hd'). cbn in Hm.
      destruct (modes d') eqn:Em; [done| |done]. apply (Hall k row Hk Ht). congruence.
Qed.

(** ** What the cache and the gates leave open *)

(** A command of the pipeline that the server refuses is not counted as a failure:
    the session stays cached as valid and the policy change reports no failure. *)
Lemma bulk_misses_refused_commands hashSessionToken s token digest info ttl now :
  hashSessionToken token = Some digest -> complete info -> 1000 <= ttl ->
  redis_get now s (cacheKeyFromDigest digest) = None ->
  let s1 := setCachedSession hashSessionToken Up now s token info ttl in
  invalidateCachedSessionsBulkByDigest Up now [cacheKeyFromDigest digest] s1 [digest] = (s1, (1, 0)).
Proof.
  intros _ _ _ _ s1. unfold invalidateCachedSessionsBulkByDigest, tombstoneBulkByKeys. cbn [map fold_left].
  by rewrite bool_decide_true by (apply list_elem_of_here).
Qed.

(** An empty cookie of an earlier name hides a session cookie of a later one from the
    gates that ask for its presence. *)
Lemma empty_cookie_hides_session :
  hasSessionCookie (js "authjs.session-token=secret") = true /\
  hasSessionCookie (js "__Secure-authjs.session-token=; authjs.session-token=secret") = false.
Proof. split; vm_compute; reflexivity. Qed.

Definition demo_hash (token : jsstr) : option jsstr := Some (js "h" ++ token).
Definition demo_info : SessionInfo :=
  {| si_valid := true; si_userId := Some (js "u"); si_tenantId := Some (js "t"); si_hasPasskey := Some true;
     si_requirePasskey := Some false; si_requirePasskeyEnabledAt := Some None; si_passkeyGracePeriodDays := Some None |}.
Definition demo_cookie : jsstr := js "a=b; authjs.session-token=tok".
Definition demo_user_data : session_data :=
  {| sd_user := Some {| su_id := Some (js "u"); su_hasPasskey := None; su_requirePasskey := None;
                        su_requirePasskeyEnabledAt := None; su_passkeyGracePeriodDays := None |};
     sd_expires := Some 100000 |}.

(** A stale populate at 20 s, after the tombstone of 0 s, and a read at 40 s. *)
Definition demo_ops : list (Z * redis_mode * cache_op) :=
  [(20000, Up, OpSet (js "tok") demo_info 60000); (25000, Up, OpGet (js "tok"));
   (31000, Up, OpSet (js "tok") invalid_session 60000)].

Lemma revoked_session_rejected_witness :
  si_valid (snd (getSessionInfo demo_hash Up 40000 40001 (fun s => s)
    (cache_run demo_hash (fst (invalidateCachedSessionByDigest Up 0 ∅ (js "htok"))) demo_ops)
    (Some demo_cookie) (fun _ => Some {| sd_user := None; sd_expires := None |}) (fun _ => Ok []))) = false.
Proof.
  refine (revoked_session_rejected demo_hash (js "tok") (js "htok") 0 ∅ demo_ops 40000 Up 40001 (fun s => s)
    demo_cookie (fun _ => Some {| sd_user := None; sd_expires := None |}) (fun _ => Ok []) _ _ _ _ _).
  - reflexivity.
  - cbn. lia.
  - constructor; [intros _ _; unfold TOMBSTONE_TTL_MS; lia|]. constructor; [exact I|].
    constructor; [discriminate|constructor].
  - vm_compute. reflexivity.
  - intros data [= <-]. reflexivity.
Defined.

Lemma cached_session_roundtrip_witness :
  snd (getCachedSession demo_hash Up 20000 (setCachedSession demo_hash Up 1000 ∅ (js "tok") demo_info 60000) (js "tok"))
    = Some demo_info.
Proof.
  refine (cached_session_roundtrip demo_hash ∅ (js "tok") (js "htok") demo_info 60000 1000 20000 _ _ _ _).
  - reflexivity.
  - repeat split; eexists; reflexivity.
  - lia.
  - reflexivity.
Defined.

Lemma session_gate_fails_closed_witness :
  let info := snd (getSessionInfo demo_hash Up 0 1 (fun s => s) ∅ (Some demo_cookie) (fun _ => Some demo_user_data)
                     (fun _ => Ok [js "t"])) in
  si_valid info = true /\ is_Some (si_requirePasskey info).
Proof.
  intros info. assert (Hv : si_valid info = true) by (vm_compute; reflexivity). split; [exact Hv|].
  destruct (session_gate_fails_closed demo_hash Up 0 1 (fun s => s) ∅ (Some demo_cookie) (fun _ => Some demo_user_data)
    (fun _ => Ok [js "t"]) info eq_refl Hv) as (c & _ & _ & (_ & H & _) & _). exact H.
Defined.

(** Two sessions of a user in one tenant, one of them excluded, and an API key. *)
Definition demo_db : auth_tables :=
  {| session := {[js "1" := {| s_sessionToken := js "hkeep"; s_userId := js "u"; s_tenantId := js "t"; s_expires := 9 |};
                  js "2" := {| s_sessionToken := js "htok"; s_userId := js "u"; s_tenantId := js "t"; s_expires := 9 |}]};
     extensionToken := ∅; apiKey := {[js "k" := {| t_userId := Some (js "u"); t_tenantId := js "t"; t_revokedAt := None |}]};
     mcpAccessToken := ∅; mcpRefreshToken := ∅; delegationSession := ∅; operatorToken := ∅ |}.

Lemma invalidateUserSessions_exact_witness :
  exists db' s' r, invalidateUserSessions demo_hash 5 (js "u") (OneTenant (js "t")) (Some (js "keep")) (fun _ => Up)
      demo_db ∅ = Ok (db', s', r) /\
    table_revoked 5 (js "u") (OneTenant (js "t")) (apiKey demo_db) (apiKey db') /\
    session db' !! js "2" = None.
Proof.
  eexists _, _, _. split; [reflexivity|].
  pose proof (invalidateUserSessions_exact demo_hash 5 (js "u") (OneTenant (js "t")) (Some (js "keep")) (fun _ => Up)
    demo_db ∅ _ _ _ _ eq_refl eq_refl) as (H1 & _ & H3 & _). split; [exact H3|].
  exact (H1 (js "2") _ eq_refl).
Defined.
