(* ===== verification/AccessRestriction.v ===== *)
(** * Tenant network access restriction

    src/src/lib/auth/policy/access-restriction.ts (the policy cache, the decision, the
    audited check, the self-lockout preview and the guard of the token routes) and
    src/src/lib/services/tailscale-client.ts (the WhoIs cache and the verification of a
    peer's tailnet).  Both caches are JavaScript maps in insertion order.  The tenant
    query, the membership query and tailscaled's answer are parameters.  The part of a
    cached lookup before its [await] and the part after it are separate definitions, so
    that interleaved requests are sequences of them. *)

From S2P Require Import Prelude JsString JsNumber JsJson JsMap Table IpAccess SessionCache.
Local Open Scope Z_scope.

Record TenantAccessPolicy := {
  allowedCidrs : list jsstr; tailscaleEnabled : bool; tailscaleTailnet : option jsstr }.
Record PolicyCacheEntry := { policy : TenantAccessPolicy; pc_expiresAt : Z }.
(** [tailnet = None]: not a valid peer. *)
Record WhoIsEntry := { tailnet : option jsstr; wc_expiresAt : Z }.

Record denial := {
  ad_userId : jsstr; ad_actorType : option jsstr; ad_tenantId : jsstr; ad_ip : option jsstr;
  ad_userAgent : option jsstr; ad_reason : jsstr }.

(** The module state of both files, the trusted-proxy cache and the audit log. *)
Record net_state := {
  policyCache : jsmap PolicyCacheEntry; whoIsCache : jsmap WhoIsEntry;
  proxyCache : option (list ParsedCidr); auditLog : list denial }.
Definition set_policyCache (c : jsmap PolicyCacheEntry) (s : net_state) : net_state :=
  {| policyCache := c; whoIsCache := whoIsCache s; proxyCache := proxyCache s; auditLog := auditLog s |}.
Definition set_whoIsCache (c : jsmap WhoIsEntry) (s : net_state) : net_state :=
  {| policyCache := policyCache s; whoIsCache := c; proxyCache := proxyCache s; auditLog := auditLog s |}.
Definition set_proxyCache (c : option (list ParsedCidr)) (s : net_state) : net_state :=
  {| policyCache := policyCache s; whoIsCache := whoIsCache s; proxyCache := c; auditLog := auditLog s |}.
Definition log_denial (d : denial) (s : net_state) : net_state :=
  {| policyCache := policyCache s; whoIsCache := whoIsCache s; proxyCache := proxyCache s;
     auditLog := auditLog s ++ [d] |}.

(** ** Tenant policy cache *)

Definition POLICY_CACHE_TTL_MS : Z := 60000.
Definition POLICY_CACHE_MAX_SIZE : Z := 1000.

Definition sweep_policies (now : Z) (c : jsmap PolicyCacheEntry) : jsmap PolicyCacheEntry :=
  List.filter (fun kv => negb (pc_expiresAt (snd kv) <=? now)) c.

Definition drop_oldest {V} (c : jsmap V) : jsmap V :=
  match c with [] => [] | (oldest, _) :: _ => map_delete c oldest end.

(** The sweep of a full cache, which drops the oldest entry when all are fresh. *)
Definition evict_policies (now : Z) (c : jsmap PolicyCacheEntry) : jsmap PolicyCacheEntry :=
  if POLICY_CACHE_MAX_SIZE <=? Z.of_nat (List.length c)
  then let c1 := sweep_policies now c in
       if POLICY_CACHE_MAX_SIZE <=? Z.of_nat (List.length c1) then drop_oldest c1 else c1
  else c.

(** getTenantAccessPolicy up to the query *)
Definition policy_lookup (now : Z) (tenantId : jsstr) (c : jsmap PolicyCacheEntry)
    : jsmap PolicyCacheEntry * option TenantAccessPolicy :=
  match map_get c tenantId with
  | Some e => if now <? pc_expiresAt e then (c, Some (policy e)) else (evict_policies now (map_delete c tenantId), None)
  | None => (evict_policies now c, None)
  end.

(** getTenantAccessPolicy after the query *)
Definition policy_store (now : Z) (tenantId : jsstr) (p : TenantAccessPolicy) (c : jsmap PolicyCacheEntry)
    : jsmap PolicyCacheEntry :=
  map_set c tenantId {| policy := p; pc_expiresAt := now + POLICY_CACHE_TTL_MS |}.

Definition invalidateTenantPolicyCache (tenantId : jsstr) (s : net_state) : net_state :=
  set_policyCache (map_delete (policyCache s) tenantId) s.

(** ** WhoIs *)

Definition CACHE_TTL_MS : Z := 30000.
Definition CACHE_MAX_SIZE : Z := 500.

Definition getCached (now : Z) (addr : jsstr) (c : jsmap WhoIsEntry) : jsmap WhoIsEntry * option WhoIsEntry :=
  match map_get c addr with
  | None => (c, None)
  | Some e => if wc_expiresAt e <? now then (map_delete c addr, None) else (c, Some e)
  end.

Definition setCache (now : Z) (addr : jsstr) (t : option jsstr) (c : jsmap WhoIsEntry) : jsmap WhoIsEntry :=
  map_set (if CACHE_MAX_SIZE <=? Z.of_nat (List.length c) then drop_oldest c else c) addr
    {| tailnet := t; wc_expiresAt := now + CACHE_TTL_MS |}.

(** [fqdn.replace(/\.$/, "").toLowerCase()] *)
Definition normalize_fqdn (fqdn : jsstr) : jsstr :=
  js_to_lower (if js_ends_with (js ".") fqdn then removelast fqdn else fqdn).

Definition extractTailnetFromFqdn (fqdn : jsstr) : option jsstr :=
  let parts := js_split (js ".") (normalize_fqdn fqdn) in
  let n := List.length parts in
  if (n <? 4)%nat then None
  else if negb (bool_decide (parts !! (n - 1)%nat = Some (js "net")))
          || negb (bool_decide (parts !! (n - 2)%nat = Some (js "ts"))) then None
  else Some (js_join (js ".") (take (n - 3) (drop 1 parts))).

(** The [addr] parameter of the WhoIs request. *)
Definition whois_addr (s : jsstr) : jsstr :=
  if js_has 58 s then js "[" ++ s ++ js "]:0" else s ++ js ":0".

(** ** Decisions *)

Inductive AccessCheckResult := Allowed | Denied (reason : jsstr).
Definition allowed (r : AccessCheckResult) : bool := match r with Allowed => true | Denied _ => false end.

Definition REASON_TAILNET_MISMATCH : jsstr := js "Tailscale tailnet mismatch".
Definition REASON_TAILSCALE_VERIFICATION_FAILED : jsstr := js "Tailscale verification failed".
Definition REASON_IP_UNKNOWN : jsstr := js "Client IP unknown; access restricted".
Definition REASON_NOT_IN_CIDRS : jsstr := js "IP not in allowed CIDRs".

Inductive access_throw := TenantMissing (tenantId : jsstr) | QueryFailed.

(** [Date.now()] when the policy cache is read and written, and when the WhoIs cache is
    read and written. *)
Record times := { t_lookup : Z; t_store : Z; t_whois : Z; t_whois_store : Z }.

Definition ANONYMOUS_ACTOR_ID : jsstr := js "00000000-0000-4000-8000-000000000000".
Definition SYSTEM_ACTOR_ID : jsstr := js "00000000-0000-4000-8000-000000000001".
Definition SENTINEL_ACTOR_IDS : list jsstr := [ANONYMOUS_ACTOR_ID; SYSTEM_ACTOR_ID].

Inductive audit_fallback := FallbackAnonymous | FallbackSystem.
Definition resolveAuditUserId (userId : option jsstr) (fallback : audit_fallback) : jsstr :=
  match userId with
  | Some (c :: r) => c :: r
  | _ => match fallback with FallbackAnonymous => ANONYMOUS_ACTOR_ID | FallbackSystem => SYSTEM_ACTOR_ID end
  end.

(** The request as these checks read it. *)
Record net_request := { rq_headers : ip_headers; rq_ip : option jsstr; rq_userAgent : option jsstr }.

Section Restriction.
(** [tx.tenant.findUnique], which may throw. *)
Variable find_tenant : jsstr -> outcome unit (option TenantAccessPolicy).
(** tailscaled's answer for an address: [Node.Name], or a throw. *)
Variable whois : jsstr -> outcome unit (option jsstr).
(** The active memberships of a user. *)
Variable memberships : jsstr -> outcome unit (list jsstr).
Variable env : ip_env.

Abbreviation prog := (st net_state access_throw).

Definition getTenantAccessPolicy (clk : times) (tenantId : jsstr) : prog TenantAccessPolicy :=
  fun s =>
    let '(c, hit) := policy_lookup (t_lookup clk) tenantId (policyCache s) in
    let s1 := set_policyCache c s in
    match hit with
    | Some p => (s1, Ok p)
    | None =>
        match find_tenant tenantId with
        | Throw _ => (s1, Throw QueryFailed)
        | Ok None => (s1, Throw (TenantMissing tenantId))
        | Ok (Some p) => (set_policyCache (policy_store (t_store clk) tenantId p (policyCache s1)) s1, Ok p)
        end
    end.

(** [callWhoIs] and the name it leads to: a throw, a missing and an empty name are alike. *)
Definition whois_tailnet (s : jsstr) : option jsstr :=
  match whois (whois_addr s) with
  | Ok (Some (c :: r)) => extractTailnetFromFqdn (c :: r)
  | _ => None
  end.

Definition tailnet_is (expected : jsstr) (t : option jsstr) : bool :=
  match t with Some (c :: r) => (c :: r) =s js_to_lower expected | _ => false end.

Definition verifyTailscalePeer (clk : times) (addr expectedTailnet : jsstr) : prog bool :=
  fun s =>
    if negb (isTailscaleIp addr) then (s, Ok false)
    else if negb (isValidIpAddress addr) then (s, Ok false)
    else
      let '(c, cached) := getCached (t_whois clk) addr (whoIsCache s) in
      let s1 := set_whoIsCache c s in
      match cached with
      | Some e => (s1, Ok (tailnet_is expectedTailnet (tailnet e)))
      | None =>
          let t := whois_tailnet addr in
          (set_whoIsCache (setCache (t_whois_store clk) addr t (whoIsCache s1)) s1, Ok (tailnet_is expectedTailnet t))
      end.

Definition denied_reasons (p : TenantAccessPolicy) : jsstr :=
  js_join (js "; ")
    ((if negb (List.length (allowedCidrs p) =? 0)%nat then [REASON_NOT_IN_CIDRS] else [])
     ++ (if tailscaleEnabled p then [REASON_TAILSCALE_VERIFICATION_FAILED] else [])).

Definition evaluateAccessPolicy (clk : times) (p : TenantAccessPolicy) (clientIp : option jsstr)
    : prog AccessCheckResult :=
  if (List.length (allowedCidrs p) =? 0)%nat && negb (tailscaleEnabled p) then st_ret Allowed
  else match present clientIp with
       | None => st_ret (Denied REASON_IP_UNKNOWN)
       | Some addr =>
           if negb (List.length (allowedCidrs p) =? 0)%nat && isIpAllowed addr (allowedCidrs p) then st_ret Allowed
           else if tailscaleEnabled p && isTailscaleIp addr then
             match present (tailscaleTailnet p) with
             | Some expected =>
                 let! verified := verifyTailscalePeer clk addr expected in
                 st_ret (if verified : bool then Allowed else Denied REASON_TAILNET_MISMATCH)
             | None => st_ret Allowed
             end
           else st_ret (Denied (denied_reasons p))
       end.

Definition checkAccessRestriction (clk : times) (tenantId : jsstr) (clientIp : option jsstr)
    : prog AccessCheckResult :=
  let! p := getTenantAccessPolicy clk tenantId in
  evaluateAccessPolicy clk p clientIp.

Definition checkAccessRestrictionWithAudit (clk : times) (tenantId : jsstr) (clientIp userId userAgent : option jsstr)
    : prog AccessCheckResult :=
  let! result := checkAccessRestriction clk tenantId clientIp in
  match result with
  | Allowed => st_ret Allowed
  | Denied reason =>
      fun s => (log_denial {| ad_userId := resolveAuditUserId userId FallbackAnonymous;
                              ad_actorType := Some (match present userId with Some _ => js "HUMAN" | None => js "ANONYMOUS" end);
                              ad_tenantId := tenantId; ad_ip := clientIp; ad_userAgent := userAgent;
                              ad_reason := reason |} s, Ok (Denied reason))
  end.

Definition wouldIpBeAllowed (clk : times) (clientIp : jsstr) (p : TenantAccessPolicy) : prog bool :=
  let! result := evaluateAccessPolicy clk p (Some clientIp) in
  st_ret (allowed result).

Definition resolveUserTenantId (userId : jsstr) : prog (option jsstr) :=
  fun s => (s, match memberships userId ≫= resolveUserTenantIdFromClient with
               | Ok t => Ok t | Throw _ => Throw QueryFailed end).

Definition extractClientIp (req : net_request) : prog (option jsstr) :=
  fun s => let '(a, c) := extractClientIpFromHeaders env (rq_headers req) (rq_ip req) (proxyCache s) in
           (set_proxyCache c s, Ok a).

(** [true]: the 403 answer; [false]: [null], the handler goes on. *)
Definition enforceAccessRestriction (clk : times) (req : net_request) (userId : jsstr)
    (tenantIdOverride actorType : option jsstr) : prog bool :=
  if bool_decide (userId ∈ SENTINEL_ACTOR_IDS) && negb (is_set (present tenantIdOverride)) then st_ret true
  else
    let! tenantId := match tenantIdOverride with
                     | Some t => st_ret (Some t) | None => resolveUserTenantId userId end in
    match present tenantId with
    | None => st_ret false
    | Some t =>
        let! clientIp := extractClientIp req in
        let! result := checkAccessRestriction clk t clientIp in
        match result with
        | Allowed => st_ret false
        | Denied reason =>
            fun s => (log_denial {| ad_userId := userId; ad_actorType := present actorType; ad_tenantId := t;
                                    ad_ip := clientIp; ad_userAgent := rq_userAgent req; ad_reason := reason |} s, Ok true)
        end
    end.
End Restriction.

(** ** Entries of the caches *)

Lemma map_set_Forall {V} (P : jsstr * V -> Prop) (m : jsmap V) k v :
  Forall P m -> P (k, v) -> Forall P (map_set m k v).
Proof.
  intros Hm Hv. induction Hm as [|[k' v'] m Hk Hm IH]; simpl; [by constructor|].
  case_bool_decide; subst; by constructor.
Qed.

Lemma filter_Forall {A} (P : A -> Prop) f (l : list A) : Forall P l -> Forall P (List.filter f l).
Proof. induction 1 as [|x l Hx Hl IH]; simpl; [done|]. destruct (f x); [by constructor|done]. Qed.

Lemma map_delete_Forall {V} (P : jsstr * V -> Prop) (m : jsmap V) k : Forall P m -> Forall P (map_delete m k).
Proof. apply filter_Forall. Qed.

Lemma drop_oldest_Forall {V} (P : jsstr * V -> Prop) (m : jsmap V) : Forall P m -> Forall P (drop_oldest m).
Proof. intros H. unfold drop_oldest. destruct m as [|[k v] m']; [done|]. by apply map_delete_Forall. Qed.

Lemma evict_policies_Forall P now c : Forall P c -> Forall P (evict_policies now c).
Proof.
  intros Hc. unfold evict_policies, sweep_policies. cbv zeta. repeat destruct (POLICY_CACHE_MAX_SIZE <=? _);
    auto using drop_oldest_Forall, filter_Forall.
Qed.

Lemma policy_lookup_Forall P now tid c : Forall P c -> Forall P (fst (policy_lookup now tid c)).
Proof.
  intros H. unfold policy_lookup.
  destruct (map_get c tid) as [e|]; [destruct (now <? pc_expiresAt e)|]; cbn [fst];
    auto using map_delete_Forall, evict_policies_Forall.
Qed.

Lemma policy_lookup_hit now tid c p :
  snd (policy_lookup now tid c) = Some p -> exists e, (tid, e) ∈ c /\ policy e = p /\ now < pc_expiresAt e.
Proof.
  unfold policy_lookup. destruct (map_get c tid) as [e|] eqn:E; [|done].
  destruct (now <? pc_expiresAt e) eqn:El; [|done]. bools. intros [= <-]. eauto using map_get_in.
Qed.

Lemma setCache_Forall P now a t c :
  Forall P c -> P (a, {| tailnet := t; wc_expiresAt := now + CACHE_TTL_MS |}) -> Forall P (setCache now a t c).
Proof. intros Hc Hp. apply map_set_Forall; [|done]. destruct (_ <=? _); auto using drop_oldest_Forall. Qed.

Lemma getCached_Forall P now a c : Forall P c -> Forall P (fst (getCached now a c)).
Proof. intros H. unfold getCached. destruct (map_get c a) as [e|]; [|done].
  destruct (_ <? _); cbn [fst]; auto using map_delete_Forall. Qed.

Lemma getCached_hit now a c e : snd (getCached now a c) = Some e -> (a, e) ∈ c /\ now <= wc_expiresAt e.
Proof.
  unfold getCached. destruct (map_get c a) as [e'|] eqn:E; [|done].
  destruct (wc_expiresAt e' <? now) eqn:El; [done|]. bools. intros [= <-]. eauto using map_get_in.
Qed.

Lemma drop_oldest_size {V} (c : jsmap V) : c <> [] -> (List.length (drop_oldest c) < List.length c)%nat.
Proof.
  destruct c as [|[k v] c]; [done|]. intros _. unfold drop_oldest, map_delete. cbn [List.filter fst].
  rewrite bool_decide_true by done. cbn [negb List.length].
  pose proof (List.filter_length_le (fun kv : jsstr * V => negb (fst kv =s k)) c). lia.
Qed.

Lemma evict_policies_size now c :
  Z.of_nat (List.length c) <= POLICY_CACHE_MAX_SIZE ->
  Z.of_nat (List.length (evict_policies now c)) < POLICY_CACHE_MAX_SIZE.
Proof.
  intros Hc. unfold evict_policies. destruct (_ <=? _) eqn:E; bools; [|done]. cbv zeta.
  assert (Hf : (List.length (sweep_policies now c) <= List.length c)%nat) by apply List.filter_length_le.
  destruct (POLICY_CACHE_MAX_SIZE <=? Z.of_nat (List.length (sweep_policies _ c))) eqn:E2; bools; [|done].
  assert (Hne : sweep_policies now c <> []) by (intros Hn; rewrite Hn in E2; done).
  pose proof (drop_oldest_size _ Hne). lia.
Qed.

(** One lookup after the other keeps the policy cache within its bound. *)
Lemma policy_cache_bounded find_tenant clk tid s :
  Z.of_nat (List.length (policyCache s)) <= POLICY_CACHE_MAX_SIZE ->
  Z.of_nat (List.length (policyCache (fst (getTenantAccessPolicy find_tenant clk tid s)))) <= POLICY_CACHE_MAX_SIZE.
Proof.
  intros Hs. unfold getTenantAccessPolicy.
  assert (H : Z.of_nat (List.length (fst (policy_lookup (t_lookup clk) tid (policyCache s)))) <= POLICY_CACHE_MAX_SIZE /\
    (snd (policy_lookup (t_lookup clk) tid (policyCache s)) = None ->
     Z.of_nat (List.length (fst (policy_lookup (t_lookup clk) tid (policyCache s)))) < POLICY_CACHE_MAX_SIZE)).
  { unfold policy_lookup. pose proof (evict_policies_size (t_lookup clk)) as He.
    destruct (map_get (policyCache s) tid) as [e|]; [destruct (t_lookup clk <? pc_expiresAt e)|]; cbn [fst snd].
    - by split.
    - pose proof (map_delete_size (policyCache s) tid). specialize (He (map_delete (policyCache s) tid)). split; [|intros _]; lia.
    - specialize (He (policyCache s) Hs). split; [|intros _]; lia. }
  destruct (policy_lookup _ tid _) as [c [p|]]; cbn [fst snd] in *; [naive_solver|]. destruct H as [H1 H2].
  specialize (H2 eq_refl). destruct (find_tenant tid) as [[p|]|]; cbn; [|done..].
  unfold policy_store. rewrite map_set_size. destruct (map_has c tid); lia.
Qed.

(** ** Decisions and the policies they rest on *)

(** What a policy permits, given which peers are in which tailnet. *)
Definition permits (verified : jsstr -> jsstr -> bool) (p : TenantAccessPolicy) (clientIp : option jsstr) : Prop :=
  (allowedCidrs p = [] /\ tailscaleEnabled p = false) \/
  exists a, clientIp = Some a /\ a <> [] /\
    (isIpAllowed a (allowedCidrs p) = true \/
     (tailscaleEnabled p = true /\ isTailscaleIp a = true /\
      forall expected, tailscaleTailnet p = Some expected -> expected <> [] -> verified a expected = true)).

Lemma present_Some (v : option jsstr) a : present v = Some a <-> v = Some a /\ a <> [].
Proof. destruct v as [[|c r]|]; simpl; naive_solver. Qed.
Lemma present_None (v : option jsstr) : present v = None <-> v = None \/ v = Some [].
Proof. destruct v as [[|c r]|]; simpl; naive_solver. Qed.

Definition answers_true (o : outcome access_throw bool) : bool := match o with Ok b => b | Throw _ => false end.

Lemma verifyTailscalePeer_ok whois clk a expected s :
  exists s' v, verifyTailscalePeer whois clk a expected s = (s', Ok v).
Proof. unfold verifyTailscalePeer. repeat case_match; eauto. Qed.

#[local] Opaque isIpAllowed isTailscaleIp isValidIpAddress.

(** The decision never throws, changes nothing but the WhoIs cache, and allows exactly
    what the policy permits with the verdict that [verifyTailscalePeer] gives. *)
Lemma evaluateAccessPolicy_spec whois clk p clientIp s :
  exists s' r, evaluateAccessPolicy whois clk p clientIp s = (s', Ok r) /\
    (s' = s \/ exists a expected, clientIp = Some a /\ s' = fst (verifyTailscalePeer whois clk a expected s)) /\
    (allowed r = true <-> permits (fun a expected =>
       answers_true (snd (verifyTailscalePeer whois clk a expected s))) p clientIp).
Proof.
  unfold evaluateAccessPolicy. destruct (allowedCidrs p) as [|c0 cs] eqn:Ec, (tailscaleEnabled p) eqn:Et; cbn [List.length Nat.eqb negb andb].
  2: { eexists _, _. split; [reflexivity|]. split; [by left|]. split; [|done]. intros _. by left. }
  all: destruct (present clientIp) as [a|] eqn:Ea;
    [apply present_Some in Ea as [-> Ha]
    |eexists _, _; split; [reflexivity|]; split; [by left|]; split; [done|];
     apply present_None in Ea; intros [[? ?]|(a & ? & ? & _)]; [congruence|naive_solver]].
  1: assert (Hnot : isIpAllowed a (allowedCidrs p) = false) by (rewrite Ec; reflexivity).
  2,3: destruct (isIpAllowed a (c0 :: cs)) eqn:Ei; cbn [andb];
    [eexists _, _; split; [reflexivity|]; split; [by left|]; split; [|done]; intros _; right;
     exists a; split_and!; [done..|left; by rewrite Ec]|];
    assert (Hnot : isIpAllowed a (allowedCidrs p) = false) by by rewrite Ec.
  3: { eexists _, _. split; [reflexivity|]. split; [by left|]. split; [done|].
       intros [[? ?]|(a' & [= <-] & _ & [?|(? & _)])]; congruence. }
  all: destruct (isTailscaleIp a) eqn:Ets; cbn [andb];
    [|eexists _, _; split; [reflexivity|]; split; [by left|]; split; [done|];
      intros [[? ?]|(a' & [= <-] & _ & [?|(? & ? & _)])]; congruence].
  all: destruct (present (tailscaleTailnet p)) as [expected|] eqn:Ee.
  2,4: eexists _, _; split; [reflexivity|]; split; [by left|]; split; [|done]; intros _; right;
    exists a; split_and!; [done..|right; split_and!; [done..|]]; intros e He Hne;
    apply present_None in Ee as [Ee|Ee]; congruence.
  all: apply present_Some in Ee as [Ee Hne]; unfold st_bind;
    destruct (verifyTailscalePeer_ok whois clk a expected s) as (s1 & v & Ev); rewrite Ev.
  all: eexists _, _; split; [reflexivity|]; split; [right; exists a, expected; rewrite Ev; by split|].
  all: split; [intros Hv; right; exists a; split_and!; [done..|right; split_and!; [done..|]];
      intros e He _; rewrite Ee in He; injection He as <-; rewrite Ev; by destruct v
    |intros [[? ?]|(a' & [= <-] & _ & [?|(_ & _ & Hv)])]; [congruence..|]].
  all: specialize (Hv expected Ee Hne); rewrite Ev in Hv; by destruct v.
Qed.

(** ** Interleaved requests *)

Section Runs.
(** The tenant rows and tailscaled's answers over time, and the longest time a query or
    a WhoIs call takes. *)
Context (db : Z -> jsstr -> option TenantAccessPolicy) (names : Z -> jsstr -> option jsstr) (latency : Z).

(** One uninterrupted part of a request: a lookup, the write that follows a query made
    at [tq], an invalidation, or the bookkeeping of other checks. *)
Inductive net_step : Z * net_state -> Z * net_state -> Prop :=
| step_lookup t t' tid s : t <= t' ->
    net_step (t, s) (t', set_policyCache (fst (policy_lookup t' tid (policyCache s))) s)
| step_store t t' tid tq p s : t <= t' -> t' - latency <= tq <= t' -> db tq tid = Some p ->
    net_step (t, s) (t', set_policyCache (policy_store t' tid p (policyCache s)) s)
| step_invalidate t tid s : net_step (t, s) (t, invalidateTenantPolicyCache tid s)
| step_whois t t' a s : t <= t' ->
    net_step (t, s) (t', set_whoIsCache (fst (getCached t' a (whoIsCache s))) s)
| step_whois_store t t' a tq s : t <= t' -> t' - latency <= tq <= t' ->
    net_step (t, s) (t', set_whoIsCache (setCache t' a (names tq a) (whoIsCache s)) s)
| step_proxies t c s : net_step (t, s) (t, set_proxyCache c s)
| step_denial t d s : net_step (t, s) (t, log_denial d s).

Definition initial_state : net_state :=
  {| policyCache := []; whoIsCache := []; proxyCache := None; auditLog := [] |}.
Definition reachable (t : Z) (s : net_state) : Prop := exists t0, rtc net_step (t0, initial_state) (t, s).

(** Every cached value was the true one not long before it was stored. *)
Definition policy_fresh (t : Z) (kv : jsstr * PolicyCacheEntry) : Prop :=
  exists tq, pc_expiresAt (snd kv) - POLICY_CACHE_TTL_MS - latency <= tq <= t /\
    db tq (fst kv) = Some (policy (snd kv)).
Definition whois_fresh (t : Z) (kv : jsstr * WhoIsEntry) : Prop :=
  exists tq, wc_expiresAt (snd kv) - CACHE_TTL_MS - latency <= tq <= t /\ names tq (fst kv) = tailnet (snd kv).
Definition caches_fresh (ts : Z * net_state) : Prop :=
  Forall (policy_fresh (fst ts)) (policyCache (snd ts)) /\ Forall (whois_fresh (fst ts)) (whoIsCache (snd ts)).

Lemma policy_fresh_later t t' c : t <= t' -> Forall (policy_fresh t) c -> Forall (policy_fresh t') c.
Proof. intros Ht Hc. apply (Forall_impl _ _ _ Hc). intros kv (tq & H & Hdb). exists tq. split; [lia|done]. Qed.
Lemma whois_fresh_later t t' c : t <= t' -> Forall (whois_fresh t) c -> Forall (whois_fresh t') c.
Proof. intros Ht Hc. apply (Forall_impl _ _ _ Hc). intros kv (tq & H & Hdb). exists tq. split; [lia|done]. Qed.

Lemma net_step_fresh x y : net_step x y -> caches_fresh x -> caches_fresh y.
Proof.
  intros Hs [Hp Hw]. inversion Hs; subst; cbn in *; split; cbn;
    eauto using policy_fresh_later, whois_fresh_later, policy_lookup_Forall, getCached_Forall, map_delete_Forall.
  - apply map_set_Forall; [by eapply policy_fresh_later|]. exists tq. cbn. split; [lia|done].
  - apply setCache_Forall; [by eapply whois_fresh_later|]. exists tq. cbn. split; [lia|done].
Qed.

Lemma reachable_fresh t s : reachable t s -> caches_fresh (t, s).
Proof.
  intros [t0 Hr]. assert (Hinv : forall x y, rtc net_step x y -> caches_fresh x -> caches_fresh y).
  { intros x y. induction 1 as [|x y z Hs _ IH]; [done|]. intros Hx. eauto using net_step_fresh. }
  apply (Hinv _ _ Hr). by split.
Qed.
End Runs.

(** The times of one check: it looks the policy up at or after [t], queries the
    database at [tq] and stores the answer within [latency], then asks tailscaled the
    same way at [tw]. *)
Definition timely (latency t : Z) (clk : times) (tq tw : Z) : Prop :=
  t <= t_lookup clk <= tq /\ tq <= t_store clk <= tq + latency /\
  t_store clk <= t_whois clk <= tw /\ tw <= t_whois_store clk <= tw + latency.

(** [b] is the verdict, on an address, of a policy that the tenant had in the database at
    most a minute and one query before the lookup, with the tailnet reported at most half
    a minute and one call before. *)
Definition fresh_verdict (db : Z -> jsstr -> option TenantAccessPolicy) (names : Z -> jsstr -> option jsstr)
    (latency : Z) (clk : times) (tenantId : jsstr) (clientIp : option jsstr) (b : bool) : Prop :=
  exists p tp, t_lookup clk - POLICY_CACHE_TTL_MS - latency <= tp <= t_store clk /\ db tp tenantId = Some p /\
  exists verified, (b = true <-> permits verified p clientIp) /\
    forall a expected, exists tn, t_whois clk - CACHE_TTL_MS - latency <= tn <= t_whois_store clk /\
      verified a expected = isTailscaleIp a && isValidIpAddress a && tailnet_is expected (names tn a).

Lemma check_fresh db names latency t s find_tenant whois clk tenantId clientIp tq tw s' r
    (Hreach : reachable db names latency t s) (Hclk : timely latency t clk tq tw)
    (Hdb : find_tenant tenantId = Ok (db tq tenantId))
    (Hnames : forall a, whois_tailnet whois a = names tw a)
    (Hrun : checkAccessRestriction find_tenant whois clk tenantId clientIp s = (s', Ok r)) :
  fresh_verdict db names latency clk tenantId clientIp (allowed r).
Proof.
  unfold timely in Hclk.
  apply reachable_fresh in Hreach as [Hp Hw]. cbn in Hp, Hw.
  apply st_bind_Ok_inv in Hrun as (s1 & p & Hget & Hrun).
  assert (H1 : whoIsCache s1 = whoIsCache s /\ exists tp,
    t_lookup clk - POLICY_CACHE_TTL_MS - latency <= tp <= t_store clk /\ db tp tenantId = Some p).
  { unfold getTenantAccessPolicy in Hget. destruct (policy_lookup _ _ _) as [c [p'|]] eqn:El.
    - injection Hget as <- <-. split; [done|]. assert (Hhit : snd (policy_lookup (t_lookup clk) tenantId (policyCache s)) = Some p')
        by by rewrite El. apply policy_lookup_hit in Hhit as (e & He & <- & Hexp).
      rewrite Forall_forall in Hp. destruct (Hp _ He) as (tp & Htp & Hdbp). cbn in *. exists tp. split; [lia|done].
    - rewrite Hdb in Hget. destruct (db tq tenantId) as [p'|] eqn:Edb; [|done]. injection Hget as <- <-.
      split; [done|]. exists tq. unfold POLICY_CACHE_TTL_MS. split; [lia|done]. }
  destruct H1 as (Hwc & tp & Htp & Hdbp). exists p, tp. split; [done|]. split; [done|].
  destruct (evaluateAccessPolicy_spec whois clk p clientIp s1) as (s2 & r' & He & _ & Hiff).
  rewrite He in Hrun. injection Hrun as <- <-. eexists. split; [exact Hiff|]. intros a expected. cbn beta.
  unfold verifyTailscalePeer. rewrite Hwc.
  destruct (getCached (t_whois clk) a (whoIsCache s)) as [c [e|]] eqn:Eg.
  - assert (Hhit : snd (getCached (t_whois clk) a (whoIsCache s)) = Some e) by by rewrite Eg.
    apply getCached_hit in Hhit as [He' Hexp]. rewrite Forall_forall in Hw. destruct (Hw _ He') as (tn & Htn & Hn).
    cbn in *. exists tn. rewrite Hn. split; [lia|]. by destruct (isTailscaleIp a), (isValidIpAddress a).
  - exists tw. rewrite <- Hnames. unfold CACHE_TTL_MS. split; [lia|]. by destruct (isTailscaleIp a), (isValidIpAddress a).
Qed.

Lemma reachable_proxies db names latency t c s :
  reachable db names latency t s -> reachable db names latency t (set_proxyCache c s).
Proof. intros [t0 H]. exists t0. eapply rtc_r; [exact H|constructor]. Qed.

(** C33: Whatever the interleaving of earlier requests, policy changes and
    invalidations, a decision is the one of a policy that the tenant had in the
    database at most a minute and one query before the lookup, with the tailnet that
    tailscaled reported at most half a minute and one call before: access is allowed
    exactly when that policy permits it. *)
Theorem access_decision_fresh db names latency t s find_tenant whois clk tenantId clientIp tq tw s' r
    (Hreach : reachable db names latency t s)
    (Hclk : t <= t_lookup clk <= tq /\ tq <= t_store clk <= tq + latency /\
            t_store clk <= t_whois clk <= tw /\ tw <= t_whois_store clk <= tw + latency)
    (Hdb : find_tenant tenantId = Ok (db tq tenantId))
    (Hnames : forall a, whois_tailnet whois a = names tw a)
    (Hrun : checkAccessRestriction find_tenant whois clk tenantId clientIp s = (s', Ok r)) :
  exists p tp, t_lookup clk - POLICY_CACHE_TTL_MS - latency <= tp <= t_store clk /\ db tp tenantId = Some p /\
  exists verified, (allowed r = true <-> permits verified p clientIp) /\
    forall a expected, exists tn, t_whois clk - CACHE_TTL_MS - latency <= tn <= t_whois_store clk /\
      verified a expected = isTailscaleIp a && isValidIpAddress a && tailnet_is expected (names tn a).
Proof. exact (check_fresh _ _ _ _ _ _ _ _ _ _ _ _ _ _ Hreach Hclk Hdb Hnames Hrun). Qed.

(** ** The self-lockout preview *)

(** The WhoIs verdict of an address whose cached entry, if any, is still true. *)
Lemma verify_consistent whois clk a expected s :
  (forall e, map_get (whoIsCache s) a = Some e -> tailnet e = whois_tailnet whois a) ->
  exists s', verifyTailscalePeer whois clk a expected s =
    (s', Ok (isTailscaleIp a && isValidIpAddress a && tailnet_is expected (whois_tailnet whois a))) /\
    (forall e, map_get (whoIsCache s') a = Some e -> tailnet e = whois_tailnet whois a).
Proof.
  intros Hc. unfold verifyTailscalePeer. destruct (isTailscaleIp a), (isValidIpAddress a); [|by exists s..].
  cbn [negb andb]. unfold getCached. destruct (map_get (whoIsCache s) a) as [e|] eqn:E.
  - destruct (wc_expiresAt e <? t_whois clk).
    + eexists. split; [reflexivity|]. cbn. unfold setCache. intros e'. rewrite map_get_set, bool_decide_true by done. by intros [= <-].
    + eexists. rewrite (Hc e eq_refl). split; [reflexivity|]. cbn. by rewrite E.
  - eexists. split; [reflexivity|]. cbn. unfold setCache. intros e'. rewrite map_get_set, bool_decide_true by done. by intros [= <-].
Qed.

Lemma permits_ext v1 v2 p a :
  (forall expected, v1 a expected = v2 a expected) -> permits v1 p (Some a) <-> permits v2 p (Some a).
Proof.
  intros Hv. unfold permits. apply or_iff_compat_l. split; intros (a' & [= <-] & Ha & H); exists a; (split; [reflexivity|]);
    (split; [exact Ha|]); (destruct H as [H|(H1 & H2 & H3)]; [left; exact H|right]); (split; [exact H1|]); (split; [exact H2|]);
    intros expected Hx Hne; specialize (H3 expected Hx Hne); rewrite Hv in *; exact H3.
Qed.

Lemma evaluate_consistent whois clk p a s :
  (forall e, map_get (whoIsCache s) a = Some e -> tailnet e = whois_tailnet whois a) ->
  exists s' r, evaluateAccessPolicy whois clk p (Some a) s = (s', Ok r) /\
    (allowed r = true <-> permits (fun a expected =>
       isTailscaleIp a && isValidIpAddress a && tailnet_is expected (whois_tailnet whois a)) p (Some a)) /\
    (forall e, map_get (whoIsCache s') a = Some e -> tailnet e = whois_tailnet whois a).
Proof.
  intros Hc. destruct (evaluateAccessPolicy_spec whois clk p (Some a) s) as (s' & r & He & Hs & Hiff).
  exists s', r. split; [done|]. split.
  - rewrite Hiff. apply permits_ext. intros expected.
    destruct (verify_consistent whois clk a expected s Hc) as (s1 & Hv & _). by rewrite Hv.
  - destruct Hs as [->|(a' & expected & [= <-] & ->)]; [exact Hc|].
    destruct (verify_consistent whois clk a expected s Hc) as (s1 & Hv & Hk). by rewrite Hv.
Qed.

(** C34: The preview that guards an administrator against locking themselves out is
    exact: after the previewed policy is saved and the cache invalidated, the check of
    a request from the previewed address gives the previewed answer, as long as the
    WhoIs answer for the address has not changed. *)
Theorem lockout_preview_exact find_tenant whois clk clk' tenantId a p s
    (Hwhois : forall e, map_get (whoIsCache s) a = Some e -> tailnet e = whois_tailnet whois a)
    (Hsaved : find_tenant tenantId = Ok (Some p)) :
  exists b s1 r s2, wouldIpBeAllowed whois clk a p s = (s1, Ok b) /\
    checkAccessRestriction find_tenant whois clk' tenantId (Some a) (invalidateTenantPolicyCache tenantId s1) = (s2, Ok r) /\
    allowed r = b.
Proof.
  destruct (evaluate_consistent whois clk p a s Hwhois) as (s1 & r & He & Hiff & Hc).
  exists (allowed r), s1. unfold wouldIpBeAllowed, st_bind. rewrite He.
  unfold checkAccessRestriction, st_bind, getTenantAccessPolicy, policy_lookup, invalidateTenantPolicyCache.
  cbn [policyCache set_policyCache]. rewrite map_get_delete, bool_decide_true by done. rewrite Hsaved.
  set (s2 := set_policyCache (policy_store _ _ _ _) _).
  destruct (evaluate_consistent whois clk' p a s2 Hc) as (s3 & r' & He' & Hiff' & _).
  exists r', s3. split; [reflexivity|]. split; [exact He'|].
  destruct (allowed r), (allowed r'); naive_solver.
Qed.

(** ** The guard of the token routes *)

(** A denial other than that of a sentinel without a tenant is recorded for the tenant;
    nothing else is ever recorded. *)
Lemma enforce_records find_tenant whois memberships env clk req userId override actor s s' b :
  enforceAccessRestriction find_tenant whois memberships env clk req userId override actor s = (s', Ok b) ->
  auditLog s' = auditLog s \/
  b = true /\ exists d, auditLog s' = auditLog s ++ [d] /\ ad_userId d = userId.
Proof.
  assert (Hget : forall t s s1 p, getTenantAccessPolicy find_tenant clk t s = (s1, Ok p) -> auditLog s1 = auditLog s).
  { intros t s0 s1 p. unfold getTenantAccessPolicy. destruct (policy_lookup _ _ _) as [c [q|]]; [|destruct (find_tenant t) as [[q|]|]]; intros; simplify_eq; reflexivity. }
  assert (Hchk : forall t ip s s1 r, checkAccessRestriction find_tenant whois clk t ip s = (s1, Ok r) -> auditLog s1 = auditLog s).
  { intros t ip s0 s1 r (s2 & p & Hg & He)%st_bind_Ok_inv. apply Hget in Hg. rewrite <- Hg.
    destruct (evaluateAccessPolicy_spec whois clk p ip s2) as (s3 & r' & He' & Hs & _). rewrite He' in He.
    injection He as <- <-. destruct Hs as [->|(a & e & _ & ->)]; [done|]. unfold verifyTailscalePeer.
    destruct (negb _); [reflexivity|]. destruct (negb _); [reflexivity|]. destruct (getCached _ _ _) as [c [w|]]; reflexivity. }
  unfold enforceAccessRestriction. destruct (_ && _); [intros [= <- <-]; by left|].
  intros (s1 & tid & Ht & H)%st_bind_Ok_inv.
  assert (Hs1 : s1 = s) by (destruct override; injection Ht; congruence).
  subst s1. destruct (present tid) as [t|]; [|injection H as <- <-; by left].
  apply st_bind_Ok_inv in H as (s1 & ip & Hip & H). apply st_bind_Ok_inv in H as (s2 & r & Hc & H).
  apply Hchk in Hc. assert (Hs1 : auditLog s1 = auditLog s).
  { unfold extractClientIp in Hip. destruct (extractClientIpFromHeaders _ _ _ _) as [x y]. by injection Hip as <- <-. }
  destruct r; injection H as <- <-; [left; congruence|right]. split; [done|]. eexists. cbn. split; [by rewrite Hc, Hs1|done].
Qed.

(** The restriction of the token routes is skipped for a user without an active
    membership: no tenant is resolved and the request is let through. *)
Lemma enforce_skips_tenantless find_tenant whois memberships env clk req userId actor s :
  userId ∉ SENTINEL_ACTOR_IDS -> memberships userId = Ok [] ->
  enforceAccessRestriction find_tenant whois memberships env clk req userId None actor s = (s, Ok false).
Proof.
  intros Hs Hm. unfold enforceAccessRestriction. rewrite bool_decide_false by done. cbn [andb].
  unfold st_bind, resolveUserTenantId. by rewrite Hm.
Qed.

(** The request names each address in its own way, so that the answer describes the peer. *)
Lemma whois_addr_inj a b : whois_addr a = whois_addr b -> a = b.
Proof.
  unfold whois_addr. destruct (js_has 58 a) eqn:Ea, (js_has 58 b) eqn:Eb; intros H.
  - change (js "[") with [91] in H. injection H as H. by apply app_inv_tail in H.
  - exfalso. apply js_has_false in Eb. change (js "[" ++ a ++ js "]:0") with (js "[" ++ a ++ (js "]" ++ js ":0")) in H.
    rewrite !app_assoc in H. apply app_inv_tail in H. apply Eb. rewrite <- H. apply js_has_spec in Ea. set_solver.
  - exfalso. apply js_has_false in Ea. change (js "[" ++ b ++ js "]:0") with (js "[" ++ b ++ (js "]" ++ js ":0")) in H.
    rewrite !app_assoc in H. apply app_inv_tail in H. apply Ea. rewrite H. apply js_has_spec in Eb. set_solver.
  - by apply app_inv_tail in H.
Qed.

(** ** Instances *)

Definition demo_open : TenantAccessPolicy :=
  {| allowedCidrs := []; tailscaleEnabled := false; tailscaleTailnet := None |}.
Definition demo_closed : TenantAccessPolicy :=
  {| allowedCidrs := [js "10.0.0.0/8"]; tailscaleEnabled := true; tailscaleTailnet := Some (js "Corp.example") |}.
(** A tenant that is closed at 10 ms. *)
Definition demo_policies (t : Z) (tid : jsstr) : option TenantAccessPolicy :=
  if tid =s js "t" then Some (if t <? 10 then demo_open else demo_closed) else None.
Definition demo_whois (a : jsstr) : outcome unit (option jsstr) :=
  if a =s js "100.64.0.7:0" then Ok (Some (js "host.corp.example.ts.net.")) else Throw tt.
Definition demo_names (t : Z) (a : jsstr) : option jsstr := whois_tailnet demo_whois a.
Definition demo_times (t : Z) : times := {| t_lookup := t; t_store := t; t_whois := t; t_whois_store := t |}.

(** A query of 5 ms whose result is stored after the policy was closed at 10 ms and the
    cache invalidated puts the open policy back: nearly a minute later any address is
    still let in. *)
Lemma stale_policy_after_invalidation :
  exists s, rtc (net_step demo_policies demo_names 10)
      (10, invalidateTenantPolicyCache (js "t") initial_state) (15, s) /\
    snd (checkAccessRestriction (fun tid => Ok (demo_policies 60000 tid)) demo_whois (demo_times 60000) (js "t")
           (Some (js "8.8.8.8")) s) = Ok Allowed /\
    snd (checkAccessRestriction (fun tid => Ok (demo_policies 60015 tid)) demo_whois (demo_times 60015) (js "t")
           (Some (js "8.8.8.8")) s) = Ok (Denied (js "IP not in allowed CIDRs; Tailscale verification failed")).
Proof.
  eexists. split.
  - apply rtc_once. apply (step_store _ _ _ 10 15 (js "t") 5 demo_open); [lia|lia|reflexivity].
  - split; vm_compute; reflexivity.
Qed.

(** A peer of the pinned tailnet, and the same request after its entry is cached. *)
Definition demo_net_state : net_state :=
  set_whoIsCache (setCache 20 (js "100.64.0.7") (demo_names 20 (js "100.64.0.7")) []) initial_state.

Lemma demo_reachable : reachable demo_policies demo_names 10 20 demo_net_state.
Proof. exists 0. apply rtc_once. apply (step_whois_store _ _ _ 0 20 (js "100.64.0.7") 20); lia. Qed.

Lemma access_decision_fresh_witness :
  exists s' p tp, checkAccessRestriction (fun tid => Ok (demo_policies 30 tid)) demo_whois (demo_times 30) (js "t")
      (Some (js "100.64.0.7")) demo_net_state = (s', Ok Allowed) /\
    30 - 60000 - 10 <= tp <= 30 /\ demo_policies tp (js "t") = Some p /\
    exists verified, permits verified p (Some (js "100.64.0.7")).
Proof.
  destruct (checkAccessRestriction (fun tid => Ok (demo_policies 30 tid)) demo_whois (demo_times 30) (js "t")
    (Some (js "100.64.0.7")) demo_net_state) as [s' r] eqn:E.
  assert (Hr : r = Ok Allowed) by (apply (f_equal snd) in E; vm_compute in E; symmetry; exact E). subst r.
  destruct (access_decision_fresh demo_policies demo_names 10 20 demo_net_state (fun tid => Ok (demo_policies 30 tid))
    demo_whois (demo_times 30) (js "t") (Some (js "100.64.0.7")) 30 30 s' Allowed demo_reachable
    ltac:(cbn; lia) eq_refl (fun a => eq_refl) E) as (p & tp & Htp & Hp & v & Hv & _).
  exists s', p, tp. split; [reflexivity|]. split; [exact Htp|]. split; [exact Hp|]. exists v. apply Hv. reflexivity.
Defined.

Lemma lockout_preview_exact_witness :
  exists b s1 r s2, wouldIpBeAllowed demo_whois (demo_times 25) (js "100.64.0.7") demo_closed demo_net_state = (s1, Ok b) /\
    checkAccessRestriction (fun _ => Ok (Some demo_closed)) demo_whois (demo_times 30) (js "t") (Some (js "100.64.0.7"))
      (invalidateTenantPolicyCache (js "t") s1) = (s2, Ok r) /\ allowed r = b.
Proof.
  apply (lockout_preview_exact (fun _ => Ok (Some demo_closed)) demo_whois (demo_times 25) (demo_times 30) (js "t")
    (js "100.64.0.7") demo_closed demo_net_state).
  - intros e He. vm_compute in He. injection He as <-. reflexivity.
  - reflexivity.
Defined.
