(* ===== verification/Proxy.v ===== *)
(** * The request proxy

    src/proxy.ts, src/src/proxy.ts and src/src/lib/proxy: the matcher of the edge, the
    forwarded-header normalisation, the route classifier, the Bearer allowlist, the CSRF
    and CORS gates, the API and page gates; assertOrigin of auth/session/csrf.ts, the
    CORS headers of http/cors.ts and the locale helpers of i18n/locale-utils.ts.  The
    gates call getSessionInfo and checkAccessRestrictionWithAudit of the components
    before.  The URL parser, the i18n middleware, the session endpoint, the databases
    and the reading of an ISO date are parameters, gathered in [proxy_env]. *)

From S2P Require Import Prelude JsString JsNumber JsJson JsMap Table IpAccess Dpop PasskeyPolicy SessionCache AccessRestriction.
Local Open Scope Z_scope.

(** ** Paths *)

(** A path pattern, one item per segment: a literal, or [[^/]+] with its capture. *)
Inductive segment := Lit (s : jsstr) | Any | Cap.

Fixpoint match_segments (pat : list segment) (segs : list jsstr) : option (list jsstr) :=
  match pat, segs with
  | [], [] => Some []
  | Lit s :: pat', x :: segs' => if x =s s then match_segments pat' segs' else None
  | Any :: pat', (_ :: _) :: segs' => match_segments pat' segs'
  | Cap :: pat', ((_ :: _) as x) :: segs' => match match_segments pat' segs' with Some cs => Some (x :: cs) | None => None end
  | _, _ => None
  end.
(** The anchored regular expressions of the sources, as segments after the leading slash. *)
Definition match_path (pat : list segment) (pathname : jsstr) : option (list jsstr) :=
  match_segments (Lit [] :: pat) (js_split (js "/") pathname).

Module API_PATH.
Definition API_ROOT := js "/api".
Definition EXTENSION := js "/api/extension".
Definition EXTENSION_TOKEN := js "/api/extension/token".
Definition EXTENSION_TOKEN_REFRESH := js "/api/extension/token/refresh".
Definition EXTENSION_TOKEN_EXCHANGE := js "/api/extension/token/exchange".
Definition EXTENSION_BRIDGE_CODE := js "/api/extension/bridge-code".
Definition EXTENSION_KEY_RESET := js "/api/extension/key/reset".
Definition PASSWORDS := js "/api/passwords".
Definition FOLDERS := js "/api/folders".
Definition TAGS := js "/api/tags".
Definition TEAMS := js "/api/teams".
Definition AUDIT_LOGS := js "/api/audit-logs".
Definition SHARE_LINKS := js "/api/share-links".
Definition SENDS := js "/api/sends".
Definition VAULT := js "/api/vault".
Definition VAULT_STATUS := js "/api/vault/status".
Definition VAULT_UNLOCK_DATA := js "/api/vault/unlock/data".
Definition VAULT_SSH_SIGN_AUTHORIZE := js "/api/vault/ssh/sign-authorize".
Definition VAULT_DELEGATION := js "/api/vault/delegation".
Definition EMERGENCY_ACCESS := js "/api/emergency-access".
Definition WATCHTOWER := js "/api/watchtower".
Definition CSP_REPORT := js "/api/csp-report".
Definition SESSIONS := js "/api/sessions".
Definition USER := js "/api/user".
Definition NOTIFICATIONS := js "/api/notifications".
Definition TENANT := js "/api/tenant".
Definition TENANT_ACCESS_REQUESTS := js "/api/tenant/access-requests".
Definition API_KEYS := js "/api/api-keys".
Definition DIRECTORY_SYNC := js "/api/directory-sync".
Definition TRAVEL_MODE := js "/api/travel-mode".
Definition WEBAUTHN := js "/api/webauthn".
Definition MCP_AUTHORIZE := js "/api/mcp/authorize".
Definition MCP_AUTHORIZE_CONSENT := js "/api/mcp/authorize/consent".
Definition INTERNAL_AUDIT_EMIT := js "/api/internal/audit-emit".
End API_PATH.

(** ** Route policy *)

(** The kinds the classifier returns; [preflight] is never one of them. *)
Inductive RoutePolicyKind :=
  PUBLIC_SHARE | PUBLIC_RECEIVER | API_V1 | API_EXTENSION_EXCHANGE | API_EXTENSION_BRIDGE_CODE
| API_SESSION_REQUIRED | API_DEFAULT | PAGE.
#[export] Instance RoutePolicyKind_eq_dec : EqDecision RoutePolicyKind.
Proof. solve_decision. Defined.

Definition SESSION_REQUIRED_PREFIXES : list jsstr :=
  [API_PATH.PASSWORDS; API_PATH.TAGS; API_PATH.WATCHTOWER; API_PATH.TEAMS; API_PATH.AUDIT_LOGS;
   API_PATH.SHARE_LINKS; API_PATH.SENDS; API_PATH.EMERGENCY_ACCESS; API_PATH.SESSIONS; API_PATH.NOTIFICATIONS;
   API_PATH.USER; API_PATH.EXTENSION; API_PATH.TENANT; API_PATH.API_KEYS; API_PATH.TRAVEL_MODE;
   API_PATH.DIRECTORY_SYNC; API_PATH.VAULT; API_PATH.FOLDERS; API_PATH.WEBAUTHN].
Definition SESSION_REQUIRED_EXACT_PATHS : list jsstr := [API_PATH.MCP_AUTHORIZE; API_PATH.MCP_AUTHORIZE_CONSENT].

Definition pathMatchesPrefix (pathname prefix : jsstr) : bool :=
  (pathname =s prefix) || js_starts_with (prefix ++ js "/") pathname.

Definition isApiRoute (pathname : jsstr) : bool := js_starts_with (API_PATH.API_ROOT ++ js "/") pathname.

Definition is_share_content (pathname : jsstr) : bool :=
  is_set (match_path [Lit (js "api"); Lit (js "share-links"); Any; Lit (js "content")] pathname).

Definition classifyRoute (pathname : jsstr) : RoutePolicyKind :=
  if negb (js_starts_with (API_PATH.API_ROOT ++ js "/") pathname) then PAGE
  else if (pathname =s API_PATH.SHARE_LINKS ++ js "/verify-access") || is_share_content pathname then PUBLIC_SHARE
  else if pathname =s API_PATH.CSP_REPORT then PUBLIC_RECEIVER
  else if js_starts_with (API_PATH.API_ROOT ++ js "/v1/") pathname then API_V1
  else if pathname =s API_PATH.EXTENSION_TOKEN_EXCHANGE then API_EXTENSION_EXCHANGE
  else if pathname =s API_PATH.EXTENSION_BRIDGE_CODE then API_EXTENSION_BRIDGE_CODE
  else if existsb (fun p => pathname =s p) SESSION_REQUIRED_EXACT_PATHS
          || existsb (pathMatchesPrefix pathname) SESSION_REQUIRED_PREFIXES then API_SESSION_REQUIRED
  else API_DEFAULT.

(** ** The Bearer allowlist *)

Inductive matcher := exact (route : jsstr) | re (pat : list segment) | entryMatch (pat : list segment).
Record BearerRule := { methods : list jsstr; rule_match : matcher }.

Definition PASSWORD_SUBROUTES : list jsstr :=
  [js "bulk-archive"; js "bulk-import"; js "bulk-purge"; js "bulk-restore"; js "bulk-trash"; js "empty-trash";
   js "generate"].

Definition matches (m : matcher) (pathname : jsstr) : bool :=
  match m with
  | exact route => pathname =s route
  | re pat => is_set (match_path pat pathname)
  | entryMatch pat =>
      match match_path pat pathname with
      | Some (c :: _) => negb (existsb (fun x => c =s x) PASSWORD_SUBROUTES)
      | _ => false
      end
  end.

Definition BEARER_RULES : list BearerRule :=
  [ {| methods := [js "GET"; js "POST"]; rule_match := exact API_PATH.PASSWORDS |};
    {| methods := [js "GET"; js "PUT"; js "DELETE"]; rule_match := entryMatch [Lit (js "api"); Lit (js "passwords"); Cap] |};
    {| methods := [js "GET"]; rule_match := exact API_PATH.TEAMS |};
    {| methods := [js "GET"]; rule_match := re [Lit (js "api"); Lit (js "teams"); Any; Lit (js "member-key")] |};
    {| methods := [js "GET"]; rule_match := re [Lit (js "api"); Lit (js "teams"); Any; Lit (js "passwords")] |};
    {| methods := [js "GET"];
       rule_match := entryMatch [Lit (js "api"); Lit (js "teams"); Any; Lit (js "passwords"); Cap] |};
    {| methods := [js "GET"]; rule_match := exact API_PATH.VAULT_STATUS |};
    {| methods := [js "GET"]; rule_match := exact API_PATH.VAULT_UNLOCK_DATA |};
    {| methods := [js "GET"]; rule_match := exact (API_PATH.VAULT_DELEGATION ++ js "/check") |};
    {| methods := [js "POST"]; rule_match := exact API_PATH.VAULT_SSH_SIGN_AUTHORIZE |};
    {| methods := [js "DELETE"]; rule_match := exact API_PATH.EXTENSION_TOKEN |};
    {| methods := [js "POST"]; rule_match := exact API_PATH.EXTENSION_TOKEN_REFRESH |};
    {| methods := [js "POST"]; rule_match := exact API_PATH.EXTENSION_KEY_RESET |};
    {| methods := [js "POST"]; rule_match := exact API_PATH.TENANT_ACCESS_REQUESTS |} ].

Definition has_method (r : BearerRule) (method : jsstr) : bool := existsb (fun m => method =s m) (methods r).
Definition isBearerBypassRoute (pathname method : jsstr) : bool :=
  existsb (fun r => has_method r method && matches (rule_match r) pathname) BEARER_RULES.
Definition isBearerBypassPath (pathname : jsstr) : bool :=
  existsb (fun r => matches (rule_match r) pathname) BEARER_RULES.

(** ** Requests and responses *)

(** Header names are in lower case, as [Headers] compares them. *)
Record request := {
  px_pathname : jsstr; px_search : jsstr; px_basePath : jsstr; px_url : jsstr; px_method : jsstr;
  px_headers : jsmap jsstr; px_ip : option jsstr }.
Definition header (req : request) (name : jsstr) : option jsstr := map_get (px_headers req) name.

Definition net_of (req : request) : net_request :=
  {| rq_headers := {| x_forwarded_for := header req (js "x-forwarded-for"); x_real_ip := header req (js "x-real-ip") |};
     rq_ip := px_ip req; rq_userAgent := header req (js "user-agent") |}.

(** What a response does: go on to the handler or page, the i18n answer, a redirect, an
    error code, or an empty answer. *)
Inductive res_body := NextHandler | IntlPage | Redirect (path callbackUrl : jsstr) | ErrorCode (code : jsstr) | Text (s : jsstr) | NoBody.
Record response := {
  rs_status : Z; rs_body : res_body; rs_headers : jsmap jsstr; rs_cookies : list (jsstr * option jsstr) }.
Definition plain (status : Z) (b : res_body) : response :=
  {| rs_status := status; rs_body := b; rs_headers := []; rs_cookies := [] |}.
Definition set_header (name value : jsstr) (r : response) : response :=
  {| rs_status := rs_status r; rs_body := rs_body r; rs_headers := map_set (rs_headers r) (js_to_lower name) value;
     rs_cookies := rs_cookies r |}.

(** [response.cookies.set] and [.delete] ([None]) *)
Definition set_cookie (name : jsstr) (v : option jsstr) (r : response) : response :=
  {| rs_status := rs_status r; rs_body := rs_body r; rs_headers := rs_headers r; rs_cookies := rs_cookies r ++ [(name, v)] |}.

(** [NextResponse.next()] *)
Definition next : response := plain 200 NextHandler.
Definition errorResponse (code : jsstr) (status : Z) : response := plain status (ErrorCode code).

(** ** CORS *)

Definition bridge_unit (c : Z) : bool := (97 <=? c) && (c <=? 112).
Definition lower_hex (c : Z) : bool := is_digit c || ((97 <=? c) && (c <=? 102)).
Definition uuid_shape (s : jsstr) : bool :=
  bool_decide (map (@List.length Z) (js_split (js "-") s) = [8; 4; 4; 4; 12]%nat)
  && forallb (fun c => lower_hex c || (c =? 45)) s.
Definition after (prefix s : jsstr) : option jsstr :=
  if js_starts_with prefix s then Some (drop (List.length prefix) s) else None.

Definition isExtensionOrigin (o : jsstr) : bool :=
  match after (js "chrome-extension://") o with
  | Some id => (List.length id =? 32)%nat && forallb bridge_unit id
  | None => false
  end
  || match after (js "moz-extension://") o with Some id => uuid_shape id | None => false end
  || match after (js "safari-web-extension://") (map lower_unit o) with Some id => uuid_shape id | None => false end.

(** What the gates read of the environment and of the world. *)
Record proxy_env := {
  pe_url : url_env; pe_ip : ip_env; pe_bridgeOrigins : option jsstr; pe_isHttps : bool;
  pe_trustTailscaleServe : option jsstr; pe_csp : jsstr; pe_nonce : jsstr; pe_URL : jsstr -> option url;
  pe_hash : jsstr -> option jsstr; pe_mode : redis_mode; pe_t0 : Z; pe_t1 : Z; pe_others : store -> store;
  pe_fetch : jsstr -> option session_data; pe_memberships : jsstr -> outcome unit (list jsstr);
  pe_find_tenant : jsstr -> outcome unit (option TenantAccessPolicy);
  pe_whois : jsstr -> outcome unit (option jsstr); pe_clk : times; pe_date : jsstr -> option Z;
  pe_intl : request -> response }.

Section Gates.
Variable env : proxy_env.

Definition getBridgeCodeAllowlist : list jsstr :=
  match pe_bridgeOrigins env with Some (c :: r) => js_split (js ",") (c :: r) | _ => [] end.
Definition isBridgeCodeOriginAllowed (o : option jsstr) : bool :=
  match o with Some (c :: r) => existsb (fun x => (c :: r) =s x) getBridgeCodeAllowlist | _ => false end.

Definition resolveOrigin : option jsstr :=
  match getAppOrigin (pe_url env) with Some u => origin <$> pe_URL env u | None => None end.

Record cors_opts := { allowExtension : bool; allowExtensionCredentials : bool }.
Definition no_opts : cors_opts := {| allowExtension := false; allowExtensionCredentials := false |}.

Definition corsHeaders (req : request) (opts : cors_opts) : list (jsstr * jsstr) :=
  match present (header req (js "origin")) with
  | None => []
  | Some o =>
      let same_app := bool_decide (resolveOrigin = Some o) in
      let bridgeCodeAllowed :=
        allowExtensionCredentials opts && isExtensionOrigin o && isBridgeCodeOriginAllowed (Some o) in
      if same_app || (allowExtension opts && isExtensionOrigin o) || bridgeCodeAllowed then
        [(js "Access-Control-Allow-Origin", o);
         (js "Access-Control-Allow-Methods", js "GET, POST, PUT, PATCH, DELETE, OPTIONS");
         (js "Access-Control-Allow-Headers", js "Content-Type, Authorization, DPoP")]
        ++ (if same_app || bridgeCodeAllowed then [(js "Access-Control-Allow-Credentials", js "true")] else [])
        ++ [(js "Access-Control-Max-Age", js "86400"); (js "Vary", js "Origin")]
      else []
  end.

Definition handlePreflight (req : request) (opts : cors_opts) : response :=
  fold_left (fun r kv => set_header (fst kv) (snd kv) r) (corsHeaders req opts) (plain 204 NoBody).

(** The [Vary] tokens of a response, by lower-case name. *)
Definition vary_tokens (existing : jsstr) : jsmap jsstr :=
  fold_left (fun m t => map_set m (js_to_lower t) t)
    (List.filter (fun t => negb (t =s [])) (map js_trim (js_split (js ",") existing))) [].

Definition apply_cors_header (r : response) (kv : jsstr * jsstr) : response :=
  let '(key, value) := kv in
  if key =s js "Vary" then
    let tokens := vary_tokens (default [] (map_get (rs_headers r) (js "vary"))) in
    let tokens := if map_has tokens (js_to_lower value) then tokens else map_set tokens (js_to_lower value) value in
    set_header (js "Vary") (js_join (js ", ") (map snd tokens)) r
  else set_header key value r.

Definition applyCorsHeaders (req : request) (r : response) (opts : cors_opts) : response :=
  fold_left apply_cors_header (corsHeaders req opts) r.

Definition handleApiPreflight (req : request) (isBearerRoute isExchangeRoute isBridgeCodeRoute : bool) : response :=
  handlePreflight req {| allowExtension := isBearerRoute || isExchangeRoute;
                         allowExtensionCredentials := isBridgeCodeRoute |}.

(** ** CSRF *)

Definition MUTATING_METHODS : list jsstr := [js "POST"; js "PUT"; js "DELETE"; js "PATCH"].
Definition shouldEnforceCsrf (req : request) (hasCookie : bool) : bool :=
  hasCookie && existsb (fun m => px_method req =s m) MUTATING_METHODS.

Definition forbidden : response := errorResponse (js "INVALID_ORIGIN") 403.
Definition assertOrigin (req : request) : option response :=
  match present (header req (js "origin")) with
  | None => Some forbidden
  | Some o =>
      match getAppOrigin (pe_url env) with
      | None => Some forbidden
      | Some appUrl =>
          match pe_URL env o, pe_URL env appUrl with
          | Some u, Some v => if origin u =s origin v then None else Some forbidden
          | _, _ => Some forbidden
          end
      end
  end.
Definition assertSessionCsrf (req : request) : option response := assertOrigin req.

(** ** The API gate *)

Record proxy_state := { px_store : store; px_net : net_state; px_passkey : jsmap Z; px_emitted : list request }.
Abbreviation pprog := (st proxy_state access_throw).

Definition session_of (req : request) : pprog SessionInfo :=
  fun s =>
    let '(c, i) := getSessionInfo (pe_hash env) (pe_mode env) (pe_t0 env) (pe_t1 env) (pe_others env) (px_store s)
                     (header req (js "cookie")) (pe_fetch env) (pe_memberships env) in
    ({| px_store := c; px_net := px_net s; px_passkey := px_passkey s; px_emitted := px_emitted s |}, Ok i).

Definition on_net {A} (m : st net_state access_throw A) : pprog A :=
  fun s => let '(n, r) := m (px_net s) in
           ({| px_store := px_store s; px_net := n; px_passkey := px_passkey s; px_emitted := px_emitted s |}, r).

(** The tenant's access restriction on the request of a session. *)
Definition restrict (req : request) (session : SessionInfo) : pprog AccessCheckResult :=
  match present (si_tenantId session) with
  | None => st_ret Allowed
  | Some tenantId =>
      let! clientIp := on_net (extractClientIp (pe_ip env) (net_of req)) in
      on_net (checkAccessRestrictionWithAudit (pe_find_tenant env) (pe_whois env) (pe_clk env) tenantId clientIp
                (si_userId session) (header req (js "user-agent")))
  end.

Definition private_no_store (r : response) : response := set_header (js "Cache-Control") (js "private, no-store") r.
Definition no_store (r : response) : response := set_header (js "Cache-Control") (js "no-store") r.

Definition has_bearer (req : request) : bool :=
  match header req (js "authorization") with Some a => js_starts_with (js "Bearer ") a | None => false end.
Definition cookie_present (req : request) : bool := hasSessionCookie (default [] (header req (js "cookie"))).

Definition handleApiAuth (req : request) : pprog response :=
  let pathname := px_pathname req in
  let kind := classifyRoute pathname in
  let isBearerRoute := isBearerBypassRoute pathname (px_method req) in
  let isExchangeRoute := bool_decide (kind = API_EXTENSION_EXCHANGE) in
  let isBridgeCodeRoute := bool_decide (kind = API_EXTENSION_BRIDGE_CODE) in
  if px_method req =s js "OPTIONS" then
    st_ret (handleApiPreflight req (isBearerBypassPath pathname) isExchangeRoute isBridgeCodeRoute)
  else if bool_decide (kind = PUBLIC_SHARE) then st_ret (no_store next)
  else if bool_decide (kind = PUBLIC_RECEIVER) then st_ret next
  else if bool_decide (kind = API_V1) then st_ret (private_no_store next)
  else if isBridgeCodeRoute then
    st_ret (applyCorsHeaders req (private_no_store next)
              {| allowExtension := false; allowExtensionCredentials := true |})
  else
    match (if shouldEnforceCsrf req (cookie_present req) then assertSessionCsrf req else None) with
    | Some csrfError => st_ret (applyCorsHeaders req csrfError no_opts)
    | None =>
        let extension_cors := {| allowExtension := true; allowExtensionCredentials := false |} in
        if has_bearer req && isBearerRoute && negb (cookie_present req) then
          st_ret (applyCorsHeaders req (private_no_store next) extension_cors)
        else if isExchangeRoute then
          st_ret (applyCorsHeaders req (private_no_store next) extension_cors)
        else
          let go_on := applyCorsHeaders req (private_no_store next) no_opts in
          if bool_decide (kind = API_SESSION_REQUIRED) then
            let! session := session_of req in
            if negb (si_valid session) then
              st_ret (applyCorsHeaders req (no_store (errorResponse (js "UNAUTHORIZED") 401)) no_opts)
            else
              let! access := restrict req session in
              match access with
              | Denied _ => st_ret (applyCorsHeaders req (no_store (errorResponse (js "ACCESS_DENIED") 403)) no_opts)
              | Allowed => st_ret go_on
              end
          else st_ret go_on
    end.

(** ** Security headers *)

Definition PERMISSIONS_POLICY : jsstr :=
  js "camera=(), microphone=(), geolocation=(), payment=(), browsing-topics=()".

Definition applyBaselineSecurityHeaders (r : response) : response :=
  let r := set_header (js "Referrer-Policy") (js "strict-origin-when-cross-origin") r in
  let r := set_header (js "X-Content-Type-Options") (js "nosniff") r in
  if pe_isHttps env
  then set_header (js "Strict-Transport-Security") (js "max-age=63072000; includeSubDomains; preload") r else r.

Definition quoted (s : jsstr) : jsstr := [34] ++ s ++ [34].
Definition report_to (cspReportUrl : jsstr) : jsstr :=
  js "{" ++ quoted (js "group") ++ js ":" ++ quoted (js "csp-endpoint") ++ js "," ++ quoted (js "max_age")
  ++ js ":10886400," ++ quoted (js "endpoints") ++ js ":[{" ++ quoted (js "url") ++ js ":" ++ quoted cspReportUrl
  ++ js "}]}".

Definition applySecurityHeaders (basePath : jsstr) (r : response) : response :=
  let cspReportUrl := basePath ++ API_PATH.CSP_REPORT in
  let r := set_header (js "Content-Security-Policy") (pe_csp env) r in
  let r := set_header (js "Report-To") (report_to cspReportUrl) r in
  let r := set_header (js "Reporting-Endpoints") (js "csp-endpoint=" ++ quoted cspReportUrl) r in
  let r := applyBaselineSecurityHeaders r in
  let r := set_header (js "X-Frame-Options") (js "DENY") r in
  let r := set_header (js "Permissions-Policy") PERMISSIONS_POLICY r in
  set_cookie (js "csp-nonce") (Some (pe_nonce env)) r.

(** ** Locales *)

Definition LOCALES : list jsstr := [js "ja"; js "en"].
Definition DEFAULT_LOCALE : jsstr := js "ja".
Definition isAppLocale (v : jsstr) : bool := existsb (fun l => v =s l) LOCALES.

Definition getLocaleFromPathname (pathname : jsstr) : jsstr :=
  match js_split (js "/") pathname with
  | _ :: first :: _ => if negb (first =s []) && isAppLocale first then first else DEFAULT_LOCALE
  | _ => DEFAULT_LOCALE
  end.

Definition stripLocalePrefix (pathname : jsstr) : jsstr :=
  match js_split (js "/") pathname with
  | _ :: first :: rest =>
      if negb (first =s []) && isAppLocale first
      then match js_join (js "/") rest with [] => js "/" | r => js "/" ++ r end
      else pathname
  | _ => pathname
  end.

(** ** The page gate *)

Definition PASSKEY_EXEMPT_PATHS : list jsstr := [js "/dashboard/settings/auth/passkey"].
Definition isPasskeyExemptPath (pathWithoutLocale : jsstr) : bool :=
  existsb (fun p => pathWithoutLocale =s p) PASSKEY_EXEMPT_PATHS.

Definition clearAuthSessionCookies (r : response) : response :=
  fold_left (fun r name => set_cookie name None r) ALL_KNOWN_SESSION_COOKIE_NAMES r.

(** isPasskeyGracePeriodExpired on the values of a session; an unreadable date compares
    false, and the days need not be whole. *)
Definition grace_expired (now : Z) (enabledAt : option (option jsstr)) (days : option (option jsnum)) : bool :=
  match default None enabledAt with
  | None | Some [] => true
  | Some d =>
      match default None days with
      | None => true
      | Some NaN => false
      | Some (Inf neg) => neg
      | Some (Dbl m e) =>
          if m <=? 0 then true
          else match pe_date env d with
               | None => false
               | Some enabledAt => enabledAt * dbl_den e + dbl_num m e * PASSKEY_MS_PER_DAY <? now * dbl_den e
               end
      end
  end.

(** The internal request that reports a block. *)
Definition audit_emit (req : request) (selfOrigin : jsstr) : request :=
  {| px_pathname := API_PATH.INTERNAL_AUDIT_EMIT; px_search := []; px_basePath := px_basePath req;
     px_url := selfOrigin ++ px_basePath req ++ API_PATH.INTERNAL_AUDIT_EMIT; px_method := js "POST";
     px_headers := [(js "content-type", js "application/json"); (js "origin", selfOrigin);
                    (js "cookie", default [] (header req (js "cookie")))];
     px_ip := None |}.

(** [new URL(request.url)]: the URL of a request always parses. *)
Definition self_origin (req : request) : jsstr :=
  match pe_URL env (px_url req) with Some u => origin u | None => [] end.

Definition record_block (req : request) (session : SessionInfo) (pathWithoutLocale : jsstr) : pprog unit :=
  fun s =>
    let '(m, emit) := recordPasskeyAuditEmit (default [] (si_userId session)) pathWithoutLocale (pe_t1 env)
                        (px_passkey s) in
    ({| px_store := px_store s; px_net := px_net s; px_passkey := m;
        px_emitted := px_emitted s ++ (if emit then [audit_emit req (self_origin req)] else []) |}, Ok tt).

Definition is_true (v : option bool) : bool := default false v.

Definition handlePageRoute (req : request) : pprog response :=
  let secure := applySecurityHeaders (px_basePath req) in
  let pathname := px_pathname req in
  if js_starts_with (js "/s/") pathname then st_ret (secure next)
  else
    let intlResponse := pe_intl env req in
    if negb (rs_status intlResponse =? 200) then st_ret (secure intlResponse)
    else
      let locale := getLocaleFromPathname pathname in
      let pathWithoutLocale := stripLocalePrefix pathname in
      if js_starts_with (js "/dashboard") pathWithoutLocale || js_starts_with (js "/admin") pathWithoutLocale then
        let! session := session_of req in
        if negb (si_valid session) then
          st_ret (secure (clearAuthSessionCookies
            (plain 307 (Redirect (js "/" ++ locale ++ js "/auth/signin") (px_basePath req ++ pathname ++ px_search req)))))
        else
          let! access := restrict req session in
          match access with
          | Denied _ => st_ret (secure (plain 403 (Text (js "Forbidden"))))
          | Allowed =>
              if is_true (si_requirePasskey session) && negb (is_true (si_hasPasskey session))
                 && negb (isPasskeyExemptPath pathWithoutLocale)
                 && grace_expired (pe_t1 env) (si_requirePasskeyEnabledAt session) (si_passkeyGracePeriodDays session)
              then
                let! _ := record_block req session pathWithoutLocale in
                st_ret (secure (plain 307 (Redirect (js "/" ++ locale ++ js "/dashboard/settings/auth/passkey") [])))
              else st_ret (secure intlResponse)
          end
      else st_ret (secure intlResponse).

(** ** Forwarded headers and dispatch *)

Definition TAILSCALE_DETECTION_HEADERS : list jsstr := [js "tailscale-headers-info"; js "tailscale-user-login"].
Definition isViaTailscaleServe (req : request) : bool :=
  bool_decide (pe_trustTailscaleServe env = Some (js "true"))
  && existsb (fun h => map_has (px_headers req) h) TAILSCALE_DETECTION_HEADERS.

(** [url.host] *)
Definition url_host (u : url) : jsstr :=
  match port u with [] => hostname u | p => hostname u ++ js ":" ++ p end.

(** [new NextRequest(request.url, init)]: the peer address of the request is not carried over. *)
Definition with_headers (h : jsmap jsstr) (req : request) : request :=
  {| px_pathname := px_pathname req; px_search := px_search req; px_basePath := px_basePath req; px_url := px_url req;
     px_method := px_method req; px_headers := h; px_ip := None |}.

(** [protocol.replace(/:$/, [])] *)
Definition strip_colon (s : jsstr) : jsstr := if js_ends_with (js ":") s then removelast s else s.

Definition normalizeForwardedHeaders (req : request) : request :=
  if negb (isViaTailscaleServe req) then req
  else
    match getAppOrigin (pe_url env) ≫= pe_URL env with
    | None => req
    | Some canonical =>
        let externalHostRaw := match header req (js "x-forwarded-host") with Some h => Some h | None => header req (js "host") end in
        match present externalHostRaw with
        | None => req
        | Some h =>
            match pe_URL env (js "http://" ++ h) with
            | None => req
            | Some u =>
                if negb (hostname u =s hostname canonical) then req
                else
                  let proto := strip_colon (protocol canonical) in
                  let host := url_host canonical in
                  if bool_decide (header req (js "x-forwarded-host") = Some host)
                     && (default [] (header req (js "x-forwarded-port")) =s port canonical)
                     && bool_decide (header req (js "x-forwarded-proto") = Some proto)
                     && bool_decide (header req (js "host") = Some host) then req
                  else
                    let hs := map_set (map_set (px_headers req) (js "x-forwarded-host") host) (js "x-forwarded-proto") proto in
                    let hs := match port canonical with
                              | [] => map_delete hs (js "x-forwarded-port")
                              | p => map_set hs (js "x-forwarded-port") p end in
                    with_headers (map_set hs (js "host") host) req
            end
        end
    end.

(** src/src/proxy.ts *)
Definition handleProxy (req : request) : pprog response :=
  let normalized := normalizeForwardedHeaders req in
  if js_starts_with (API_PATH.API_ROOT ++ js "/") (px_pathname normalized)
  then let! apiResponse := handleApiAuth normalized in st_ret (applyBaselineSecurityHeaders apiResponse)
  else handlePageRoute normalized.

(** The [matcher] of src/proxy.ts: Next.js runs the proxy only on the paths it
    accepts: a slash not followed by [_next], [_vercel] or a text with a dot. *)
Definition matcher_accepts (pathname : jsstr) : bool :=
  match pathname with
  | 47 :: rest => negb (js_starts_with (js "_next") rest) && negb (js_starts_with (js "_vercel") rest)
                  && negb (js_has 46 rest)
  | _ => false
  end.

Definition STATIC_EXTENSIONS : list jsstr :=
  map js ["ico"; "png"; "svg"; "jpg"; "jpeg"; "gif"; "webp"; "css"; "js"; "woff"; "woff2"; "ttf"; "map"; "txt"; "webmanifest"]%string.

(** src/proxy.ts *)
Definition proxy (req : request) : pprog response :=
  let pathname := px_pathname req in
  if js_starts_with (js "/_next") pathname || js_starts_with (js "/_vercel") pathname
     || (negb (js_starts_with (js "/api/") pathname)
         && existsb (fun e => js_ends_with (js "." ++ e) pathname) STATIC_EXTENSIONS)
  then st_ret next
  else handleProxy req.

(** What Next.js does with a request. *)
Definition edge (req : request) : pprog response :=
  if matcher_accepts (px_pathname req) then proxy req else st_ret next.
End Gates.
