(* ===== verification/ProxySafety.v ===== *)
(** * Guarantees of the request proxy

    What reaches a route handler or a page through the gates of Proxy.v, on the paths
    that the matcher of src/proxy.ts accepts: the Bearer
    allowlist lies within the session-required routes, session routes are reached with
    a valid session from an allowed address or with a Bearer token and no cookie,
    mutating requests with a session cookie come from the application's origin,
    credentialed CORS is confined, and protected pages need session, address and passkey. *)

From S2P Require Import Prelude JsString JsNumber JsJson JsMap Table IpAccess Dpop PasskeyPolicy SessionCache AccessRestriction Proxy.
Local Open Scope Z_scope.

(** Close a goal about concrete strings by evaluating its decision. *)
Ltac decided := apply (bool_decide_unpack _); vm_compute; exact I.

(** ** Paths *)

Lemma match_path_split pat p cs :
  match_path pat p = Some cs -> exists segs, js_split (js "/") p = [] :: segs /\ match_segments pat segs = Some cs.
Proof.
  unfold match_path. destruct (js_split (js "/") p) as [|x segs]; [done|]. cbn. case_bool_decide; [subst; eauto|done].
Qed.

Lemma split_path p segs : js_split (js "/") p = segs -> p = js_join (js "/") segs.
Proof. intros <-. symmetry. by apply js_join_split. Qed.

Lemma starts_with_neq (pre p q : jsstr) :
  js_starts_with pre p = true -> js_starts_with pre q = false -> bool_decide (p = q) = false.
Proof. intros Hp Hq. apply bool_decide_eq_false. congruence. Qed.

Lemma starts_with_clash (pre q p : jsstr) :
  js_starts_with pre p = true -> js_starts_with pre q = false -> js_starts_with q pre = false ->
  js_starts_with q p = false.
Proof.
  revert q p. induction pre as [|c pre IH]; intros q p; [by destruct q|].
  destruct p as [|d p]; [done|]. cbn. intros H Hq Hqp. apply andb_true_iff in H as [Hcd H].
  destruct q as [|e q]; [done|]. cbn in *. apply Z.eqb_eq in Hcd as ->.
  destruct (Z.eqb_spec e d) as [->|]; [|done]. rewrite Z.eqb_refl in Hq. cbn in *. eauto.
Qed.

Lemma starts_with_app_l (a b p : jsstr) : js_starts_with (a ++ b) p = true -> js_starts_with a p = true.
Proof. rewrite !js_starts_with_spec. intros [r ->]. exists (b ++ r). by rewrite app_assoc. Qed.

Lemma share_content_prefix p : is_share_content p = true -> js_starts_with (js "/api/share-links/") p = true.
Proof.
  unfold is_share_content. destruct (match_path _ p) as [cs|] eqn:E; [|done]. intros _.
  apply match_path_split in E as (segs & Hs & E).
  destruct segs as [|a segs]; [done|]. cbn in E. case_bool_decide; [subst a|done].
  destruct segs as [|a segs]; [done|]. cbn in E. case_bool_decide; [subst a|done].
  destruct segs as [|a segs]; [done|]. apply split_path in Hs. rewrite Hs. apply js_starts_with_spec.
  eexists. reflexivity.
Qed.

(** Every path below these prefixes needs a session. *)
Lemma classify_under prefix p :
  prefix ∈ [API_PATH.PASSWORDS; API_PATH.TEAMS] -> js_starts_with (prefix ++ js "/") p = true ->
  classifyRoute p = API_SESSION_REQUIRED.
Proof.
  intros Hin Hp.
  assert (Hside : Forall (fun q => js_starts_with (prefix ++ js "/") q = false)
      [API_PATH.SHARE_LINKS ++ js "/verify-access"; API_PATH.CSP_REPORT; API_PATH.EXTENSION_TOKEN_EXCHANGE;
       API_PATH.EXTENSION_BRIDGE_CODE; js "/api/share-links/"; js "/api/v1/"] /\
    js_starts_with (js "/api/share-links/") (prefix ++ js "/") = false /\
    js_starts_with (js "/api/v1/") (prefix ++ js "/") = false /\
    (exists r, prefix = js "/api/" ++ r) /\ prefix ∈ SESSION_REQUIRED_PREFIXES).
  { apply elem_of_cons in Hin as [->|Hin]; [|apply list_elem_of_singleton in Hin as ->].
    all: split; [decided|].
    all: split; [reflexivity|split; [reflexivity|split]]; [eexists; reflexivity|].
    all: decided. }
  destruct Hside as (Hq & Hs1 & Hs2 & [r Hr] & Hpre). rewrite !Forall_cons in Hq. destruct Hq as (H1 & H2 & H3 & H4 & H5 & H6 & _).
  unfold classifyRoute. change (API_PATH.API_ROOT ++ js "/") with (js "/api/").
  assert (Hroot : js_starts_with (js "/api/") p = true).
  { rewrite Hr in Hp. rewrite <- app_assoc in Hp. by apply starts_with_app_l in Hp. }
  rewrite Hroot. cbn [negb]. rewrite (starts_with_neq _ p _ Hp H1).
  destruct (is_share_content p) eqn:Es.
  { apply share_content_prefix in Es. rewrite (starts_with_clash _ _ _ Hp H5 Hs1) in Es. done. }
  cbn [orb]. rewrite (starts_with_neq _ p _ Hp H2). change (API_PATH.API_ROOT ++ js "/v1/") with (js "/api/v1/").
  rewrite (starts_with_clash _ _ _ Hp H6 Hs2). rewrite (starts_with_neq _ p _ Hp H3), (starts_with_neq _ p _ Hp H4).
  replace (existsb (pathMatchesPrefix p) SESSION_REQUIRED_PREFIXES) with true; [by rewrite orb_true_r|].
  symmetry. apply existsb_exists. exists prefix. split; [by apply list_elem_of_In|].
  unfold pathMatchesPrefix. rewrite Hp. apply orb_true_r.
Qed.

Lemma match_under prefix a pat p cs :
  match_path (Lit (js "api") :: Lit a :: pat) p = Some cs -> pat <> [] -> prefix = js "/api/" ++ a ->
  js_starts_with (prefix ++ js "/") p = true.
Proof.
  intros (segs & Hs & E)%match_path_split Hne ->.
  destruct segs as [|x segs]; [done|]. cbn in E. case_bool_decide; [subst x|done].
  destruct segs as [|x segs]; [done|]. cbn in E. case_bool_decide; [subst x|done].
  destruct segs as [|x segs]; [destruct pat; [done|destruct s; done]|].
  apply split_path in Hs. rewrite Hs. apply js_starts_with_spec. exists (js_join (js "/") (x :: segs)).
  rewrite !js_join_cons by done. cbn [js_join app]. by rewrite <- !app_assoc.
Qed.

(** Every path on the Bearer allowlist is classified as needing a session, for all
    paths and not only those of existing routes: a request that cannot take the Bearer
    branch falls back to the session gate and never to an open route. *)
Theorem bearer_paths_need_session p (Hp : isBearerBypassPath p = true) : classifyRoute p = API_SESSION_REQUIRED.
Proof.
  unfold isBearerBypassPath in Hp. apply existsb_exists in Hp as (r & Hin & Hm).
  assert (Hexact : forall route, (p =s route) = true -> classifyRoute route = API_SESSION_REQUIRED ->
    classifyRoute p = API_SESSION_REQUIRED) by (intros route ->%bool_decide_eq_true; done).
  repeat (destruct Hin as [<-|Hin]; [cbn [matches rule_match] in Hm|]); [..|done];
    try (by apply (Hexact _ Hm); vm_compute).
  all: first
    [ destruct (match_path (Lit _ :: Lit (js "passwords") :: _) p) as [cs|] eqn:E; [|done];
      apply (classify_under API_PATH.PASSWORDS); [set_solver|by apply (match_under _ _ _ _ _ E)]
    | destruct (match_path (Lit _ :: Lit (js "teams") :: _) p) as [cs|] eqn:E; [|done];
      apply (classify_under API_PATH.TEAMS); [set_solver|by apply (match_under _ _ _ _ _ E)] ].
Qed.

(** ** Forwarded headers do not reach the gates *)

Definition FORWARDED_HEADERS : list jsstr :=
  [js "x-forwarded-host"; js "x-forwarded-proto"; js "x-forwarded-port"; js "host"].

Lemma normalize_fields env req :
  px_pathname (normalizeForwardedHeaders env req) = px_pathname req /\
  px_method (normalizeForwardedHeaders env req) = px_method req /\
  (px_ip (normalizeForwardedHeaders env req) = px_ip req \/ px_ip (normalizeForwardedHeaders env req) = None) /\
  px_basePath (normalizeForwardedHeaders env req) = px_basePath req /\
  px_search (normalizeForwardedHeaders env req) = px_search req /\
  px_url (normalizeForwardedHeaders env req) = px_url req.
Proof.
  unfold normalizeForwardedHeaders. destruct (negb _); [by eauto 10|]. destruct (_ ≫= _) as [c|]; [|by eauto 10]. cbv zeta.
  destruct (present _) as [h|]; [|by eauto 10]. destruct (pe_URL env _) as [u|]; [|by eauto 10].
  destruct (negb _); [by eauto 10|]. destruct (_ && _); [by eauto 10|]. cbn. eauto 10.
Qed.

Lemma normalize_header env req name :
  name ∉ FORWARDED_HEADERS -> header (normalizeForwardedHeaders env req) name = header req name.
Proof.
  unfold FORWARDED_HEADERS. rewrite !not_elem_of_cons. intros (H1 & H2 & H3 & H4 & _). unfold normalizeForwardedHeaders.
  destruct (negb _); [done|]. destruct (_ ≫= _) as [canonical|]; [|done]. cbv zeta.
  destruct (present _) as [h|]; [|done]. destruct (pe_URL env _) as [u|]; [|done]. destruct (negb _); [done|].
  destruct (_ && _); [done|]. unfold header. cbn [px_headers with_headers].
  rewrite map_get_set, bool_decide_false by congruence. destruct (port canonical).
  - rewrite map_get_delete, bool_decide_false by congruence. by rewrite !map_get_set, !bool_decide_false by congruence.
  - by rewrite !map_get_set, !bool_decide_false by congruence.
Qed.

(** Where no peer address is known the rewriting of forwarded headers changes nothing that
    the API gate decides on. *)
Lemma normalisation_keeps_gate env req :
  px_ip req = None -> handleApiAuth env (normalizeForwardedHeaders env req) = handleApiAuth env req.
Proof.
  intros Hnone. destruct (normalize_fields env req) as (Hpath & Hmethod & Hip' & _).
  assert (Hip : px_ip (normalizeForwardedHeaders env req) = px_ip req) by (destruct Hip'; congruence). clear Hip'.
  assert (Hh : forall name, bool_decide (name ∈ FORWARDED_HEADERS) = false ->
    header (normalizeForwardedHeaders env req) name = header req name)
    by (intros name H%bool_decide_eq_false; by apply normalize_header).
  pose proof (Hh (js "origin") eq_refl) as Ho. pose proof (Hh (js "cookie") eq_refl) as Hc.
  pose proof (Hh (js "authorization") eq_refl) as Ha. pose proof (Hh (js "user-agent") eq_refl) as Hu.
  pose proof (Hh (js "x-forwarded-for") eq_refl) as Hx. pose proof (Hh (js "x-real-ip") eq_refl) as Hr.
  set (n := normalizeForwardedHeaders env req) in *. clearbody n.
  assert (Hnet : net_of n = net_of req) by (unfold net_of; by rewrite Hx, Hr, Hu, Hip).
  assert (Hcors : forall o, corsHeaders env n o = corsHeaders env req o) by (intros o; unfold corsHeaders; by rewrite Ho).
  assert (Happly : forall r o, applyCorsHeaders env n r o = applyCorsHeaders env req r o)
    by (intros r o; unfold applyCorsHeaders; by rewrite Hcors).
  assert (Hpre : forall a b c, handleApiPreflight env n a b c = handleApiPreflight env req a b c)
    by (intros a b c; unfold handleApiPreflight, handlePreflight; by rewrite Hcors).
  assert (Hcookie : cookie_present n = cookie_present req) by (unfold cookie_present; by rewrite Hc).
  assert (Hbearer : has_bearer n = has_bearer req) by (unfold has_bearer; by rewrite Ha).
  assert (Hcsrf : assertSessionCsrf env n = assertSessionCsrf env req)
    by (unfold assertSessionCsrf, assertOrigin; by rewrite Ho).
  assert (Hshould : shouldEnforceCsrf n (cookie_present req) = shouldEnforceCsrf req (cookie_present req))
    by (unfold shouldEnforceCsrf; by rewrite Hmethod).
  assert (Hsession : session_of env n = session_of env req) by (unfold session_of; by rewrite Hc).
  assert (Hrestrict : restrict env n = restrict env req) by (unfold restrict; by rewrite Hnet, Hu).
  unfold handleApiAuth. rewrite Hpath, Hmethod, Hcookie, Hshould, Hcsrf, Hbearer, Hsession, Hrestrict, !Happly, Hpre.
  destruct (if shouldEnforceCsrf _ _ then _ else _) as [e|]; by rewrite ?Happly.
Qed.

(** ** What reaches a handler *)

Lemma set_header_body n v r : rs_body (set_header n v r) = rs_body r.
Proof. reflexivity. Qed.

Lemma applyCors_body env req r o : rs_body (applyCorsHeaders env req r o) = rs_body r.
Proof.
  unfold applyCorsHeaders. revert r. induction (corsHeaders env req o) as [|[k v] l IH]; intros r; [done|].
  cbn [fold_left]. rewrite IH. unfold apply_cors_header. by destruct (k =s js "Vary").
Qed.

Lemma preflight_body env req o : rs_body (handlePreflight env req o) = NoBody.
Proof.
  unfold handlePreflight. assert (H : forall l r, rs_body (fold_left (fun r kv => set_header (fst kv) (snd kv) r) l r) = rs_body r).
  { induction l as [|kv l IH]; intros r; [done|]. cbn [fold_left]. by rewrite IH. }
  by rewrite H.
Qed.

Definition SHORT_CIRCUITED : list RoutePolicyKind := [PUBLIC_SHARE; PUBLIC_RECEIVER; API_V1; API_EXTENSION_BRIDGE_CODE].

(** A request takes the Bearer branch. *)
Definition bearer_admitted (req : request) : Prop :=
  has_bearer req = true /\ isBearerBypassRoute (px_pathname req) (px_method req) = true /\ cookie_present req = false.
(** A request has a valid session, and its address passes the tenant's restriction. *)
Definition session_admitted (env : proxy_env) (req : request) (s : proxy_state) : Prop :=
  exists s1 info s2, session_of env req s = (s1, Ok info) /\ si_valid info = true /\
    restrict env req info s1 = (s2, Ok Allowed).

Lemma api_reaches env req s s' res :
  handleApiAuth env req s = (s', Ok res) -> rs_body res = NextHandler ->
  px_method req <> js "OPTIONS" /\
  (classifyRoute (px_pathname req) ∈ SHORT_CIRCUITED \/
   (shouldEnforceCsrf req (cookie_present req) = true -> assertOrigin env req = None) /\
   (bearer_admitted req \/ classifyRoute (px_pathname req) <> API_SESSION_REQUIRED \/ session_admitted env req s)).
Proof.
  unfold handleApiAuth. cbv zeta. destruct (px_method req =s js "OPTIONS") eqn:Eo.
  { unfold st_ret. intros [= <- <-]. unfold handleApiPreflight. by rewrite preflight_body. }
  intros Hrun Hb. split; [by bools|]. destruct (decide (classifyRoute (px_pathname req) ∈ SHORT_CIRCUITED)) as [|Hk]; [by left|right].
  unfold SHORT_CIRCUITED in Hk. rewrite !not_elem_of_cons in Hk. destruct Hk as (K1 & K2 & K3 & K4 & _).
  rewrite !(bool_decide_false (_ = PUBLIC_SHARE)), !(bool_decide_false (_ = PUBLIC_RECEIVER)),
    !(bool_decide_false (_ = API_V1)), !(bool_decide_false (_ = API_EXTENSION_BRIDGE_CODE)) in Hrun by done.
  destruct (if shouldEnforceCsrf _ _ then _ else _) as [e|] eqn:Ecsrf.
  { exfalso. injection Hrun as <- <-. rewrite applyCors_body in Hb. destruct (shouldEnforceCsrf _ _); [|done].
    unfold assertSessionCsrf, assertOrigin in Ecsrf. repeat case_match; simplify_eq; done. }
  split; [intros Hs; by rewrite Hs in Ecsrf|]. destruct (_ && negb (cookie_present req)) eqn:Ebear.
  { left. bools. by split_and!. }
  right. destruct (decide (classifyRoute (px_pathname req) = API_SESSION_REQUIRED)) as [Ks|]; [right|by left].
  rewrite Ks in Hrun. rewrite (bool_decide_false (API_SESSION_REQUIRED = API_EXTENSION_EXCHANGE)), bool_decide_true in Hrun by done.
  apply st_bind_Ok_inv in Hrun as (s1 & info & Hsess & Hrun). destruct (si_valid info) eqn:Ev; cbn [negb] in Hrun.
  - apply st_bind_Ok_inv in Hrun as (s2 & access & Hr & Hrun). destruct access as [|reason].
    + exists s1, info, s2. by split_and!.
    + injection Hrun as <- <-. by rewrite applyCors_body in Hb.
  - injection Hrun as <- <-. by rewrite applyCors_body in Hb.
Qed.

(** ** From the edge *)

Definition is_api (req : request) : Prop := js_starts_with (js "/api/") (px_pathname req) = true.

(** An API request that the matcher accepts is answered by the API gate. *)
Lemma edge_api env req s s' res :
  matcher_accepts (px_pathname req) = true -> is_api req -> edge env req s = (s', Ok res) ->
  exists res0, handleApiAuth env (normalizeForwardedHeaders env req) s = (s', Ok res0) /\
    res = applyBaselineSecurityHeaders env res0.
Proof.
  unfold is_api. intros Hm Hapi. unfold edge, proxy, handleProxy. rewrite Hm.
  rewrite (starts_with_clash _ _ _ Hapi), (starts_with_clash _ _ _ Hapi) by reflexivity. rewrite Hapi. cbn [orb negb andb].
  cbv zeta. destruct (normalize_fields env req) as (-> & _). change (API_PATH.API_ROOT ++ js "/") with (js "/api/"). rewrite Hapi.
  intros (s1 & res0 & Hr & Hres)%st_bind_Ok_inv. injection Hres as <- <-. eauto.
Qed.

(** The gate sees the cookie, the origin and the token of the request. *)
Lemma normalize_seen env req :
  header (normalizeForwardedHeaders env req) (js "cookie") = header req (js "cookie") /\
  header (normalizeForwardedHeaders env req) (js "origin") = header req (js "origin") /\
  header (normalizeForwardedHeaders env req) (js "authorization") = header req (js "authorization") /\
  rq_headers (net_of (normalizeForwardedHeaders env req)) = rq_headers (net_of req).
Proof. unfold net_of. cbn [rq_headers]. rewrite !normalize_header by decided. by split_and!. Qed.

Lemma baseline_body env r : rs_body (applyBaselineSecurityHeaders env r) = rs_body r.
Proof. unfold applyBaselineSecurityHeaders. by destruct (pe_isHttps env). Qed.

Lemma classify_api p : classifyRoute p <> PAGE -> js_starts_with (js "/api/") p = true.
Proof.
  unfold classifyRoute. change (API_PATH.API_ROOT ++ js "/") with (js "/api/").
  by destruct (js_starts_with (js "/api/") p).
Qed.

(** ** What the session and the address are *)

(** The session that the gates see of a request. *)
Definition session_info (env : proxy_env) (req : request) (s : proxy_state) : SessionInfo :=
  snd (getSessionInfo (pe_hash env) (pe_mode env) (pe_t0 env) (pe_t1 env) (pe_others env) (px_store s)
         (header req (js "cookie")) (pe_fetch env) (pe_memberships env)).
(** The client address, of the normalised request. *)
Definition client_ip (env : proxy_env) (req : request) (s : proxy_state) : option jsstr :=
  fst (extractClientIpFromHeaders (pe_ip env) (rq_headers (net_of req))
         (px_ip (normalizeForwardedHeaders env req)) (proxyCache (px_net s))).

(** The tenants' policies and tailscaled's answers over time, and the longest time a query
    or a WhoIs call takes; the process's caches are those some run has left. *)
Section Admission.
Context (db : Z -> jsstr -> option TenantAccessPolicy) (names : Z -> jsstr -> option jsstr) (latency t tq tw : Z).

Record net_history (env : proxy_env) (s : proxy_state) : Prop := {
  nh_caches : reachable db names latency t (px_net s);
  nh_clock : timely latency t (pe_clk env) tq tw;
  nh_policies : forall tenantId, pe_find_tenant env tenantId = Ok (db tq tenantId);
  nh_names : forall a, whois_tailnet (pe_whois env) a = names tw a }.

(** The session is valid, and a recent policy of its tenant, if it has one, permits the
    client address. *)
Definition admitted (env : proxy_env) (req : request) (s : proxy_state) : Prop :=
  si_valid (session_info env req s) = true /\
  forall tenantId, si_tenantId (session_info env req s) = Some tenantId -> tenantId <> [] ->
    fresh_verdict db names latency (pe_clk env) tenantId (client_ip env req s) true.

Lemma session_of_info env req s s1 info :
  session_of env req s = (s1, Ok info) -> info = session_info env req s /\ px_net s1 = px_net s.
Proof.
  unfold session_of, session_info. destruct (getSessionInfo _ _ _ _ _ _ _ _ _) as [c i]. by intros [= <- <-].
Qed.

Lemma restrict_fresh env req s s1 info s2 tenantId :
  net_history env s -> px_net s1 = px_net s -> restrict env req info s1 = (s2, Ok Allowed) ->
  si_tenantId info = Some tenantId -> tenantId <> [] ->
  fresh_verdict db names latency (pe_clk env) tenantId
    (fst (extractClientIpFromHeaders (pe_ip env) (rq_headers (net_of req)) (px_ip req) (proxyCache (px_net s)))) true.
Proof.
  intros [Hca Hclk Hdb Hn] Hnet Hr Ht Hne. unfold restrict in Hr. rewrite (proj2 (present_Some _ _) (conj Ht Hne)) in Hr.
  apply st_bind_Ok_inv in Hr as (s3 & ip & Hip & Hr). unfold on_net, extractClientIp in Hip. rewrite Hnet in Hip.
  change (rq_ip (net_of req)) with (px_ip req) in Hip. destruct (extractClientIpFromHeaders _ _ _ _) as [a ca]. injection Hip as <- <-.
  unfold on_net in Hr. cbn [px_net] in Hr. destruct (checkAccessRestrictionWithAudit _ _ _ _ _ _ _ _) as [n' r'] eqn:Ec.
  injection Hr as <- ->. unfold checkAccessRestrictionWithAudit in Ec. apply st_bind_Ok_inv in Ec as (n1 & r & Hc & Ec).
  destruct r as [|reason]; [|done]. apply (reachable_proxies _ _ _ _ ca) in Hca.
  exact (check_fresh _ _ _ _ _ _ _ _ _ _ _ _ _ _ Hca Hclk (Hdb tenantId) Hn Hc).
Qed.

(** The gates decide on the normalised request what [admitted] says of the request. *)
Lemma gates_admit env req s s1 info s2 :
  net_history env s -> session_of env (normalizeForwardedHeaders env req) s = (s1, Ok info) -> si_valid info = true ->
  restrict env (normalizeForwardedHeaders env req) info s1 = (s2, Ok Allowed) ->
  info = session_info env req s /\ admitted env req s.
Proof.
  intros Hh Hs Hv Hr. destruct (normalize_seen env req) as (Hc & _ & _ & Hn).
  apply session_of_info in Hs as [Hi Hnet]. assert (Ei : info = session_info env req s).
  { rewrite Hi. unfold session_info. by rewrite Hc. }
  split; [done|]. split; [by rewrite <- Ei|]. intros tid Ht Hne. rewrite <- Ei in Ht.
  pose proof (restrict_fresh _ _ _ _ _ _ _ Hh Hnet Hr Ht Hne) as H. by rewrite Hn in H.
Qed.

(** C6: A request to a route that needs a session, on a path that the proxy's matcher
    accepts, reaches its handler, through the edge, the header normalisation and the gates,
    only with a Bearer token on an allowlisted method and path and without a session cookie,
    or with a valid session; when that session has a tenant, a policy that the tenant had in
    the database at most a minute and one query before permits the client address, with
    tailscaled's answer of at most half a minute and one call before. *)
Theorem session_routes_guarded env req s s' res
    (Hrun : edge env req s = (s', Ok res)) (Hmatch : matcher_accepts (px_pathname req) = true)
    (Hkind : classifyRoute (px_pathname req) = API_SESSION_REQUIRED) (Hreach : rs_body res = NextHandler)
    (Hnet : net_history env s) :
  bearer_admitted req \/ admitted env req s.
Proof.
  assert (Hapi : is_api req) by (apply classify_api; by rewrite Hkind).
  destruct (edge_api _ _ _ _ _ Hmatch Hapi Hrun) as (res0 & Hr & ->). rewrite baseline_body in Hreach.
  destruct (normalize_fields env req) as (Hp & Hm & _). destruct (normalize_seen env req) as (Hc & _ & Ha & Hn).
  destruct (api_reaches _ _ _ _ _ Hr Hreach) as (_ & [Hk|(_ & [Hb|[Hk|(s1 & info & s2 & Hs & Hv & Hac)]])]).
  2: { left. unfold bearer_admitted, has_bearer, cookie_present in *. by rewrite Hp, Hm, Hc, Ha in Hb. }
  2: { by rewrite Hp, Hkind in Hk. }
  2: { right. eapply gates_admit; eassumption. }
  rewrite Hp, Hkind in Hk. exfalso. revert Hk. apply (bool_decide_unpack _). vm_compute. exact I.
Qed.
End Admission.

(** C30: A mutating API request, on a path that the proxy's matcher accepts and outside the
    short-circuited kinds of route, in whose Cookie header the proxy finds a session cookie
    (the first cookie of the first known name that is there, if its value is not empty)
    reaches a handler only with an Origin header of the application's origin. *)
Theorem cookie_mutations_same_origin env req s s' res
    (Hrun : edge env req s = (s', Ok res)) (Hmatch : matcher_accepts (px_pathname req) = true) (Hapi : is_api req)
    (Hkind : classifyRoute (px_pathname req) ∉ SHORT_CIRCUITED) (Hcookie : cookie_present req = true)
    (Hmut : px_method req ∈ [js "POST"; js "PUT"; js "PATCH"; js "DELETE"]) (Hreach : rs_body res = NextHandler) :
  exists o u appUrl v, header req (js "origin") = Some o /\ pe_URL env o = Some u /\
    getAppOrigin (pe_url env) = Some appUrl /\ pe_URL env appUrl = Some v /\ origin u = origin v.
Proof.
  destruct (edge_api _ _ _ _ _ Hmatch Hapi Hrun) as (res0 & Hr & ->). rewrite baseline_body in Hreach.
  destruct (normalize_fields env req) as (Hp & Hm & _). destruct (normalize_seen env req) as (Hc & Ho & _).
  destruct (api_reaches _ _ _ _ _ Hr Hreach) as (_ & [Hk|(Hcsrf & _)]); [by rewrite Hp in Hk|].
  unfold shouldEnforceCsrf, cookie_present, assertOrigin in Hcsrf. rewrite Hm, Hc, Ho in Hcsrf.
  assert (Hs : shouldEnforceCsrf req (cookie_present req) = true).
  { unfold shouldEnforceCsrf. rewrite Hcookie. cbn [andb]. apply existsb_exists. exists (px_method req).
    split; [|by apply bool_decide_eq_true]. apply list_elem_of_In. rewrite !elem_of_cons in Hmut.
    destruct Hmut as [->|[->|[->|[->|H]]]]; [decided..|by apply not_elem_of_nil in H]. }
  specialize (Hcsrf Hs).
  destruct (present _) as [o|] eqn:Eo; [|done]. apply present_Some in Eo as [Eo _].
  destruct (getAppOrigin _) as [appUrl|] eqn:Ea; [|done]. destruct (pe_URL env o) as [u|] eqn:Eu; [|done].
  destruct (pe_URL env appUrl) as [v|] eqn:Ev; [|done]. destruct (origin u =s origin v) eqn:E; [|done]. bools.
  exists o, u, appUrl, v. by split_and!.
Qed.

(** ** Credentialed CORS *)

(** A header of a response to which CORS headers were applied was there before or is one
    of them; [Vary] apart. *)
Lemma cors_fold_get (l : list (jsstr * jsstr)) r name v :
  name <> js "vary" -> map_get (rs_headers (fold_left apply_cors_header l r)) name = Some v ->
  map_get (rs_headers r) name = Some v \/ exists k, (k, v) ∈ l /\ js_to_lower k = name.
Proof.
  intros Hn. revert r. induction l as [|[k w] l IH]; intros r; [by left|]. cbn [fold_left]. intros H.
  destruct (IH _ H) as [H1|(k' & Hin & Hk)]; [|right; exists k'; split; [by apply list_elem_of_further|done]].
  unfold apply_cors_header in H1. destruct (k =s js "Vary"); cbv zeta in H1; cbn [rs_headers set_header] in H1;
    rewrite map_get_set in H1; case_bool_decide as Hd; [by destruct Hn|by left| |by left].
  injection H1 as ->. right. exists k. split; [apply list_elem_of_here|done].
Qed.

Lemma preflight_fold_get (l : list (jsstr * jsstr)) r name v :
  map_get (rs_headers (fold_left (fun r kv => set_header (fst kv) (snd kv) r) l r)) name = Some v ->
  map_get (rs_headers r) name = Some v \/ exists k, (k, v) ∈ l /\ js_to_lower k = name.
Proof.
  revert r. induction l as [|[k w] l IH]; intros r; [by left|]. cbn [fold_left]. intros H.
  destruct (IH _ H) as [H1|(k' & Hin & Hk)]; [|right; exists k'; split; [by apply list_elem_of_further|done]].
  cbn [rs_headers set_header fst snd] in H1. rewrite map_get_set in H1. case_bool_decide; [|by left].
  injection H1 as ->. right. exists k. split; [apply list_elem_of_here|done].
Qed.

(** The options a route may be given. *)
Definition opts_within (p : jsstr) (o : cors_opts) : Prop :=
  (allowExtensionCredentials o = true -> classifyRoute p = API_EXTENSION_BRIDGE_CODE) /\
  (allowExtension o = true -> isBearerBypassPath p = true \/ classifyRoute p = API_EXTENSION_EXCHANGE).

Lemma bearer_route_path p m : isBearerBypassRoute p m = true -> isBearerBypassPath p = true.
Proof.
  unfold isBearerBypassRoute, isBearerBypassPath. rewrite !existsb_exists. intros (r & Hin & H). bools. eauto.
Qed.

Lemma api_cors_header env req s s' res name v :
  handleApiAuth env req s = (s', Ok res) -> name <> js "vary" -> name <> js "cache-control" ->
  map_get (rs_headers res) name = Some v ->
  exists o k, opts_within (px_pathname req) o /\ (k, v) ∈ corsHeaders env req o /\ js_to_lower k = name.
Proof.
  intros Hrun Hn1 Hn2 Hv.
  assert (Hno : forall w : jsstr, map_get [(js "cache-control", w)] name = None).
  { intros w. cbn [map_get]. by rewrite bool_decide_false by congruence. }
  assert (Happly : forall r o, (rs_headers r = [] \/ exists w, rs_headers r = [(js "cache-control", w)]) ->
    opts_within (px_pathname req) o -> res = applyCorsHeaders env req r o ->
    exists o k, opts_within (px_pathname req) o /\ (k, v) ∈ corsHeaders env req o /\ js_to_lower k = name).
  { intros r o Hr Ho ->. unfold applyCorsHeaders in Hv. destruct (cors_fold_get _ _ _ _ Hn1 Hv) as [H|(k & Hin & Hk)].
    - exfalso. destruct Hr as [Hr|[w Hr]]; rewrite Hr in H; [done|by rewrite Hno in H].
    - exists o, k. by split_and!. }
  assert (Hnone : opts_within (px_pathname req) no_opts) by (by split).
  unfold handleApiAuth in Hrun. cbv zeta in Hrun. destruct (px_method req =s js "OPTIONS").
  { injection Hrun as <- <-. unfold handleApiPreflight, handlePreflight in Hv.
    apply preflight_fold_get in Hv as [H|(k & Hin & Hk)]; [discriminate H|]. eexists _, k. split; [|by split; [exact Hin|]].
    split; cbn; intros H; [by apply bool_decide_eq_true in H|]. apply orb_true_iff in H as [H|H]; [by left|right].
    by apply bool_decide_eq_true in H. }
  destruct (bool_decide (_ = PUBLIC_SHARE)); [injection Hrun as <- <-; cbn [next no_store plain set_header rs_headers] in Hv|].
  { exfalso. change (map_set [] _ _) with [(js "cache-control", js "no-store")] in Hv. by rewrite Hno in Hv. }
  destruct (bool_decide (_ = PUBLIC_RECEIVER)); [by injection Hrun as <- <-|].
  destruct (bool_decide (_ = API_V1)); [injection Hrun as <- <-|].
  { exfalso. change (rs_headers _) with [(js "cache-control", js "private, no-store")] in Hv. by rewrite Hno in Hv. }
  destruct (bool_decide (_ = API_EXTENSION_BRIDGE_CODE)) eqn:Ebr; [injection Hrun as <- <-|].
  { bools. refine (Happly _ _ _ _ eq_refl); [right; eexists; reflexivity|]. by split. }
  destruct (if shouldEnforceCsrf _ _ then _ else _) as [e|] eqn:Ecsrf; [injection Hrun as <- <-|].
  { apply (Happly e no_opts); [left|done|reflexivity]. destruct (shouldEnforceCsrf _ _); [|done].
    unfold assertSessionCsrf, assertOrigin in Ecsrf. repeat case_match; simplify_eq; done. }
  destruct (_ && negb _) eqn:Ebear; [injection Hrun as <- <-|].
  { refine (Happly _ _ _ _ eq_refl); [right; eexists; reflexivity|]. bools. split; [done|]. intros _. left. by eapply bearer_route_path. }
  destruct (bool_decide (_ = API_EXTENSION_EXCHANGE)) eqn:Eex; [injection Hrun as <- <-|].
  { refine (Happly _ _ _ _ eq_refl); [right; eexists; reflexivity|]. bools. split; [done|]. by right. }
  destruct (bool_decide (_ = API_SESSION_REQUIRED)).
  - apply st_bind_Ok_inv in Hrun as (s1 & info & _ & Hrun). destruct (negb (si_valid info)).
    { injection Hrun as <- <-. refine (Happly _ _ _ _ eq_refl); [right; eexists; reflexivity|exact Hnone]. }
    apply st_bind_Ok_inv in Hrun as (s2 & [|reason] & _ & Hrun); injection Hrun as <- <-;
      (refine (Happly _ _ _ _ eq_refl); [right; eexists; reflexivity|exact Hnone]).
  - injection Hrun as <- <-. refine (Happly _ _ _ _ eq_refl); [right; eexists; reflexivity|exact Hnone].
Qed.

(** Which member of a list of concrete headers a header with a concrete name is. *)
Ltac pick_header H :=
  rewrite ?elem_of_app in H;
  repeat (first [ by apply not_elem_of_nil in H | apply elem_of_cons in H as [H|H] | destruct H as [H|H] ]);
  first [ by (apply (f_equal fst) in H; vm_compute in H; discriminate H) | apply (f_equal snd) in H; cbn [snd] in H; exact H ].

(** What the CORS headers say of the request, under the options of its route. *)
Lemma cors_headers_spec env req o k v :
  (k, v) ∈ corsHeaders env req o ->
  exists w, header req (js "origin") = Some w /\
    (resolveOrigin env = Some w \/ isExtensionOrigin w = true /\
       (allowExtension o = true \/ allowExtensionCredentials o = true /\ w ∈ getBridgeCodeAllowlist env)) /\
    (k = js "Access-Control-Allow-Origin" -> v = w) /\
    (k = js "Access-Control-Allow-Credentials" ->
       resolveOrigin env = Some w \/
       isExtensionOrigin w = true /\ allowExtensionCredentials o = true /\ w ∈ getBridgeCodeAllowlist env).
Proof.
  unfold corsHeaders. destruct (present _) as [w|] eqn:Ew; [|by intros ?%not_elem_of_nil].
  apply present_Some in Ew as [Ew Hne]. cbv zeta.
  assert (Hb : allowExtensionCredentials o && isExtensionOrigin w && isBridgeCodeOriginAllowed env (Some w) = true ->
    isExtensionOrigin w = true /\ allowExtensionCredentials o = true /\ w ∈ getBridgeCodeAllowlist env).
  { intros H. bools. split_and!; [done..|]. unfold isBridgeCodeOriginAllowed in *. destruct w as [|c r]; [done|].
    match goal with H : existsb _ _ = true |- _ => apply existsb_exists in H as (x & Hx & ->%bool_decide_eq_true) end.
    by apply list_elem_of_In. }
  destruct (bool_decide (resolveOrigin env = Some w)) eqn:Es; bools; cbn [orb].
  - intros Hin. exists w. split; [done|]. split; [by left|]. split; [|intros _; by left]. intros ->.
    pick_header Hin.
  - destruct (allowExtension o && isExtensionOrigin w) eqn:Ee; cbn [orb].
    + bools. intros Hin. exists w. split; [done|]. split; [right; split; [done|by left]|].
      destruct (_ && isBridgeCodeOriginAllowed env _) eqn:Eb.
      * split; [intros ->; pick_header Hin|]. intros _. right. by apply Hb.
      * split; intros ->; [pick_header Hin|exfalso; pick_header Hin].
    + destruct (_ && isBridgeCodeOriginAllowed env _) eqn:Eb; [|by intros ?%not_elem_of_nil].
      destruct (Hb eq_refl) as (H1 & H2 & H3). intros Hin. exists w. split; [done|]. split; [right; split; [done|by right]|].
      split; [intros ->; pick_header Hin|]. intros _. by right.
Qed.

Lemma lower_header_inj k name :
  (exists o env req v, (k, v) ∈ corsHeaders env req o) -> js_to_lower k = js_to_lower name ->
  name ∈ [js "Access-Control-Allow-Origin"; js "Access-Control-Allow-Credentials"] -> k = name.
Proof.
  intros (o & env & req & v & Hin) Hk Hn.
  assert (Hkeys : k ∈ [js "Access-Control-Allow-Origin"; js "Access-Control-Allow-Methods"; js "Access-Control-Allow-Headers";
    js "Access-Control-Allow-Credentials"; js "Access-Control-Max-Age"; js "Vary"]).
  { unfold corsHeaders in Hin. destruct (present _); [|by apply not_elem_of_nil in Hin]. cbv zeta in Hin.
    destruct (_ || _ || _); [|by apply not_elem_of_nil in Hin]. 
    apply (list_elem_of_fmap_2 fst) in Hin. destruct (_ || _); cbn [fmap list_fmap app fst] in Hin; [exact Hin|].
    rewrite !elem_of_cons in *. tauto. }
  revert Hk. rewrite !elem_of_cons in Hkeys. rewrite !elem_of_cons in Hn.
  destruct Hn as [->|[->|Hn]]; [..|by apply not_elem_of_nil in Hn];
    repeat destruct Hkeys as [->|Hkeys]; try (by apply not_elem_of_nil in Hkeys); try done; vm_compute; discriminate.
Qed.

Lemma baseline_header env r name :
  name ∉ [js "referrer-policy"; js "x-content-type-options"; js "strict-transport-security"] ->
  map_get (rs_headers (applyBaselineSecurityHeaders env r)) name = map_get (rs_headers r) name.
Proof.
  rewrite !not_elem_of_cons. intros (H1 & H2 & H3 & _). unfold applyBaselineSecurityHeaders.
  destruct (pe_isHttps env); cbn [rs_headers set_header]; rewrite !map_get_set.
  - rewrite (bool_decide_false (_ = name)) by (intros <-; by apply H3).
    rewrite (bool_decide_false (_ = name)) by (intros <-; by apply H2).
    by rewrite (bool_decide_false (_ = name)) by (intros <-; by apply H1).
  - rewrite (bool_decide_false (_ = name)) by (intros <-; by apply H2).
    by rewrite (bool_decide_false (_ = name)) by (intros <-; by apply H1).
Qed.

Ltac next_test := match goal with |- (if ?b then _ else _) = _ -> _ => destruct b eqn:? end; [try discriminate|].

Lemma classify_exchange p : classifyRoute p = API_EXTENSION_EXCHANGE -> p = API_PATH.EXTENSION_TOKEN_EXCHANGE.
Proof. unfold classifyRoute. do 5 next_test; [by bools|]. do 2 next_test. discriminate. Qed.
Lemma classify_bridge p : classifyRoute p = API_EXTENSION_BRIDGE_CODE -> p = API_PATH.EXTENSION_BRIDGE_CODE.
Proof. unfold classifyRoute. do 6 next_test; [by bools|]. next_test. discriminate. Qed.

(** C31: The answer to an API request allows an origin only when it is the request's own,
    and this is the application's origin or an extension's on a Bearer, exchange or (if
    allowlisted) bridge-code path; it allows credentials only for the application's
    origin or for an allowlisted extension on the bridge-code path. *)
Theorem cors_confined env req s s' res
    (Hrun : edge env req s = (s', Ok res)) (Hmatch : matcher_accepts (px_pathname req) = true) (Hapi : is_api req) :
  (forall v, map_get (rs_headers res) (js "access-control-allow-origin") = Some v ->
     header req (js "origin") = Some v /\
     (resolveOrigin env = Some v \/ isExtensionOrigin v = true /\
        (isBearerBypassPath (px_pathname req) = true \/ px_pathname req = API_PATH.EXTENSION_TOKEN_EXCHANGE \/
         px_pathname req = API_PATH.EXTENSION_BRIDGE_CODE /\ v ∈ getBridgeCodeAllowlist env))) /\
  (forall v, map_get (rs_headers res) (js "access-control-allow-credentials") = Some v ->
     exists w, header req (js "origin") = Some w /\
       (resolveOrigin env = Some w \/ isExtensionOrigin w = true /\
          px_pathname req = API_PATH.EXTENSION_BRIDGE_CODE /\ w ∈ getBridgeCodeAllowlist env)).
Proof.
  destruct (edge_api _ _ _ _ _ Hmatch Hapi Hrun) as (res0 & Hr & ->).
  destruct (normalize_fields env req) as (Hp & _). destruct (normalize_seen env req) as (_ & Ho & _).
  split; intros v Hv; (rewrite baseline_header in Hv; [|apply (bool_decide_unpack _); vm_compute; exact I]).
  - destruct (api_cors_header _ _ _ _ _ (js "access-control-allow-origin") _ Hr ltac:(by decided) ltac:(by decided) Hv) as (o & k & [Hc Hx] & Hin & Hk);
    rewrite Hp in Hc, Hx.
    apply (lower_header_inj k (js "Access-Control-Allow-Origin")) in Hk; [|by eauto 6|set_solver].
    destruct (cors_headers_spec _ _ _ _ _ Hin) as (w & Hw & Hor & Hval & _). rewrite Ho in Hw. rewrite (Hval Hk). split; [done|].
    destruct Hor as [?|(Hext & [H|[H Hal]])]; [by left|right; split; [done|]..].
    + destruct (Hx H) as [?|?%classify_exchange]; [by left|by right; left].
    + right; right. split; [|done]. by apply classify_bridge, Hc.
  - destruct (api_cors_header _ _ _ _ _ (js "access-control-allow-credentials") _ Hr ltac:(by decided) ltac:(by decided) Hv) as (o & k & [Hc Hx] & Hin & Hk);
    rewrite Hp in Hc, Hx.
    apply (lower_header_inj k (js "Access-Control-Allow-Credentials")) in Hk; [|by eauto 6|set_solver].
    destruct (cors_headers_spec _ _ _ _ _ Hin) as (w & Hw & _ & _ & Hcred). rewrite Ho in Hw. exists w. split; [done|].
    destruct (Hcred Hk) as [?|(Hext & H & Hal)]; [by left|right]. split_and!; [done| |done]. by apply classify_bridge, Hc.
Qed.

(** ** Pages *)

Lemma strip_locale l rest :
  l ∈ LOCALES -> stripLocalePrefix (js "/" ++ l ++ js "/" ++ rest) = js "/" ++ rest.
Proof.
  intros Hl. unfold stripLocalePrefix.
  assert (Hs : js_split (js "/") (js "/" ++ l ++ js "/" ++ rest) = [] :: l :: js_split (js "/") rest /\
    negb (l =s []) && isAppLocale l = true).
  { unfold LOCALES in Hl. apply elem_of_cons in Hl as [->|Hl]; [|apply list_elem_of_singleton in Hl as ->]; split; [|done| |done].
    - change (js "/" ++ js "ja" ++ js "/" ++ rest) with ((js "/ja") ++ 47 :: rest). by rewrite (js_split_app_any 47).
    - change (js "/" ++ js "en" ++ js "/" ++ rest) with ((js "/en") ++ 47 :: rest). by rewrite (js_split_app_any 47). }
  destruct Hs as [-> ->]. rewrite js_join_split by done. by destruct rest.
Qed.

Lemma set_cookie_body n v r : rs_body (set_cookie n v r) = rs_body r.
Proof. reflexivity. Qed.

Lemma secure_body env b r : rs_body (applySecurityHeaders env b r) = rs_body r.
Proof. unfold applySecurityHeaders. cbv zeta. rewrite set_cookie_body, !set_header_body, baseline_body. reflexivity. Qed.

Lemma clear_cookies_body r : rs_body (clearAuthSessionCookies r) = rs_body r.
Proof. reflexivity. Qed.

(** The passkey requirement of a session is met, or its grace period runs. *)
Definition passkey_satisfied (env : proxy_env) (info : SessionInfo) : Prop :=
  si_requirePasskey info = Some true -> si_hasPasskey info <> Some true ->
  grace_expired env (pe_t1 env) (si_requirePasskeyEnabledAt info) (si_passkeyGracePeriodDays info) = false.

(** What the page gate shows. *)
Lemma page_shown env req s s' res l section_ rest
    (Hl : l ∈ LOCALES) (Hsec : section_ ∈ [js "dashboard"; js "admin"])
    (Hpath : px_pathname req = js "/" ++ l ++ js "/" ++ section_ ++ rest)
    (Hrun : handlePageRoute env req s = (s', Ok res))
    (Hintl : forall r, rs_body (pe_intl env r) = IntlPage -> rs_status (pe_intl env r) = 200)
    (Hshown : rs_body res = IntlPage) :
  exists s1 info s2, session_of env req s = (s1, Ok info) /\ si_valid info = true /\
    restrict env req info s1 = (s2, Ok Allowed) /\
    (section_ ++ rest <> js "dashboard/settings/auth/passkey" -> passkey_satisfied env info).
Proof.
  assert (Hstrip : stripLocalePrefix (px_pathname req) = js "/" ++ section_ ++ rest) by (rewrite Hpath; by apply strip_locale).
  assert (Hprot : js_starts_with (js "/dashboard") (js "/" ++ section_ ++ rest)
                  || js_starts_with (js "/admin") (js "/" ++ section_ ++ rest) = true).
  { apply elem_of_cons in Hsec as [->|Hsec]; [|apply list_elem_of_singleton in Hsec as ->]; reflexivity. }
  assert (Hshare : js_starts_with (js "/s/") (px_pathname req) = false).
  { rewrite Hpath. unfold LOCALES in Hl. apply elem_of_cons in Hl as [->|Hl]; [|apply list_elem_of_singleton in Hl as ->]; reflexivity. }
  unfold handlePageRoute in Hrun. cbv zeta in Hrun. rewrite Hshare, Hstrip, Hprot in Hrun.
  destruct (negb (rs_status (pe_intl env req) =? 200)) eqn:Est.
  { injection Hrun as <- <-. rewrite secure_body in Hshown. by rewrite (Hintl _ Hshown) in Est. }
  apply st_bind_Ok_inv in Hrun as (s1 & info & Hs & Hrun). destruct (si_valid info) eqn:Ev; cbn [negb] in Hrun.
  2: { injection Hrun as <- <-. by rewrite secure_body, clear_cookies_body in Hshown. }
  apply st_bind_Ok_inv in Hrun as (s2 & [|reason] & Hr & Hrun).
  2: { injection Hrun as <- <-. by rewrite secure_body in Hshown. }
  exists s1, info, s2. split_and!; [done..|]. intros Hex Hreq Hhas.
  assert (Hexempt : isPasskeyExemptPath (js "/" ++ section_ ++ rest) = false).
  { unfold isPasskeyExemptPath, PASSKEY_EXEMPT_PATHS. cbn [existsb]. rewrite orb_false_r. apply bool_decide_eq_false.
    intros H. apply Hex. change (js "/dashboard/settings/auth/passkey") with (js "/" ++ js "dashboard/settings/auth/passkey") in H.
    by apply app_inv_head in H. }
  rewrite Hexempt, Hreq in Hrun. assert (Hhas' : is_true (si_hasPasskey info) = false) by (destruct (si_hasPasskey info) as [[]|]; done).
  rewrite Hhas' in Hrun. cbn [is_true default negb andb] in Hrun. change (is_true (Some true)) with true in Hrun. cbn [andb] in Hrun.
  destruct (grace_expired _ _ _ _) eqn:Eg; [|done]. exfalso. apply st_bind_Ok_inv in Hrun as (s3 & [] & _ & Hrun).
  injection Hrun as <- <-. by rewrite secure_body in Hshown.
Qed.

(** A page path that the matcher accepts is answered by the page gate. *)
Lemma no_dot_ends (e p : jsstr) : js_has 46 p = false -> js_ends_with (js "." ++ e) p = false.
Proof.
  intros H%js_has_false. destruct (js_ends_with _ p) eqn:E; [|done]. exfalso. unfold js_ends_with in E. apply js_starts_with_spec in E as [r Hr].
  apply H. rewrite <- (rev_involutive p), Hr, rev_app_distr, rev_involutive, !elem_of_app. right. left. apply list_elem_of_here.
Qed.

Lemma edge_page env req s l section_ rest :
  l ∈ LOCALES -> px_pathname req = js "/" ++ l ++ js "/" ++ section_ ++ rest ->
  matcher_accepts (px_pathname req) = true ->
  edge env req s = handlePageRoute env (normalizeForwardedHeaders env req) s.
Proof.
  intros Hl Hpath Hm. assert (Hdot : js_has 46 (px_pathname req) = false).
  { unfold matcher_accepts in Hm. rewrite Hpath in Hm |- *. change (js "/") with [47] in Hm. cbn [app] in Hm.
    apply andb_true_iff in Hm as [_ Hm]. by apply negb_true_iff in Hm. }
  unfold edge, proxy, handleProxy. rewrite Hm. destruct (normalize_fields env req) as (Hp & _). rewrite Hp.
  assert (Hs : Forall (fun q => js_starts_with q (px_pathname req) = false) [js "/_next"; js "/_vercel"; API_PATH.API_ROOT ++ js "/"]).
  { rewrite Hpath. unfold LOCALES in Hl.
    apply elem_of_cons in Hl as [->|Hl]; [|apply list_elem_of_singleton in Hl as ->];
      repeat apply Forall_cons_2; reflexivity || apply Forall_nil_2. }
  rewrite !Forall_cons in Hs. destruct Hs as (-> & -> & -> & _). cbn [orb].
  replace (existsb _ STATIC_EXTENSIONS) with false; [by rewrite andb_false_r|].
  symmetry. apply not_true_is_false. intros (e & _ & He)%existsb_exists. by rewrite no_dot_ends in He.
Qed.

(** C32: A dashboard or administration page, in any locale and at any depth, on a path that
    the proxy's matcher accepts (a path without a dot), is shown by the edge only to a valid
    session whose tenant, if it has one, permits the client address by a policy of the last
    minute and query, and whose passkey requirement is met or in its grace period, the
    passkey registration page excepted.  (The localisation middleware answers a page with
    status 200.) *)
Theorem protected_pages_guarded db names latency t tq tw env req s s' res l section_ rest
    (Hl : l ∈ LOCALES) (Hsec : section_ ∈ [js "dashboard"; js "admin"])
    (Hpath : px_pathname req = js "/" ++ l ++ js "/" ++ section_ ++ rest)
    (Hmatch : matcher_accepts (px_pathname req) = true) (Hrun : edge env req s = (s', Ok res))
    (Hintl : forall r, rs_body (pe_intl env r) = IntlPage -> rs_status (pe_intl env r) = 200)
    (Hshown : rs_body res = IntlPage) (Hnet : net_history db names latency t tq tw env s) :
  admitted db names latency env req s /\
  (section_ ++ rest <> js "dashboard/settings/auth/passkey" -> passkey_satisfied env (session_info env req s)).
Proof.
  rewrite (edge_page _ _ _ _ _ _ Hl Hpath Hmatch) in Hrun.
  pose proof (proj1 (normalize_fields env req)) as Hp. rewrite Hpath in Hp.
  destruct (page_shown env (normalizeForwardedHeaders env req) s s' res l section_ rest Hl Hsec Hp Hrun Hintl Hshown)
    as (s1 & info & s2 & Hs & Hv & Hr & Hk).
  destruct (gates_admit _ _ _ _ _ _ _ _ _ _ _ _ Hnet Hs Hv Hr) as [-> Ha]. by split.
Qed.

(** On whole days the page gate decides as the token routes do. *)
Lemma grace_expired_integer env now d enabledAt days :
  pe_date env d = Some enabledAt -> d <> [] ->
  grace_expired env now (Some (Some d)) (Some (Some (Dbl days 0))) =
  isPasskeyGracePeriodExpired now (Some enabledAt) (Some days).
Proof.
  intros Hd Hne. unfold grace_expired, isPasskeyGracePeriodExpired. cbn [default from_option id].
  destruct d; [done|]. cbv zeta iota beta. rewrite Hd. unfold dbl_den, dbl_num. change (2 ^ Z.max 0 0) with 1. change (2 ^ Z.max 0 (- 0)) with 1. by rewrite !Z.mul_1_r.
Qed.

(** ** What the gates leave open *)

(** The matcher rejects every path with a dot, the API's included: such a request goes to
    its handler past all gates. *)
Lemma dotted_paths_unguarded env req s p :
  px_pathname req = 47 :: p -> js_has 46 p = true -> edge env req s = (s, Ok next).
Proof. intros Hp Hd. unfold edge, matcher_accepts. rewrite Hp, Hd. by rewrite andb_false_r. Qed.

(** The block report of the page gate is itself refused as cross-origin when the address
    the server sees is not the configured one. *)
Lemma block_report_refused env req s u appUrl v :
  cookie_present (audit_emit req (self_origin env req)) = true -> self_origin env req <> [] ->
  getAppOrigin (pe_url env) = Some appUrl -> pe_URL env appUrl = Some v ->
  pe_URL env (self_origin env req) = Some u -> origin u <> origin v ->
  exists res, handleApiAuth env (audit_emit req (self_origin env req)) s = (s, Ok res) /\
    rs_body res = ErrorCode (js "INVALID_ORIGIN").
Proof.
  intros Hc Hne Happ Hv Hu Hd. unfold handleApiAuth. cbv zeta. rewrite Hc.
  change (px_method _ =s js "OPTIONS") with false. change (classifyRoute (px_pathname (audit_emit _ _))) with API_DEFAULT.
  rewrite !(bool_decide_false (API_DEFAULT = _)) by done.
  change (shouldEnforceCsrf _ true) with true. cbv iota. unfold assertSessionCsrf, assertOrigin.
  change (header (audit_emit req (self_origin env req)) (js "origin")) with (Some (self_origin env req)).
  rewrite (proj2 (present_Some (Some (self_origin env req)) _) (conj eq_refl Hne)), Happ, Hu, Hv, bool_decide_false by done.
  eexists. split; [reflexivity|]. by rewrite applyCors_body.
Qed.

(** ** Instances *)

(** A URL parser that knows the two origins used below. *)
Definition demo_URL (s : jsstr) : option url :=
  if (s =s js "https://app.example") || (s =s js "https://evil.example")
  then Some {| protocol := js "https:"; hostname := drop 8 s; port := []; pathname := js "/"; search := []; hash := [];
               origin := s |}
  else None.

Definition demo_env : proxy_env :=
  {| pe_url := {| env_APP_URL := Some (js "https://app.example"); env_AUTH_URL := None; env_NEXT_PUBLIC_BASE_PATH := None |};
     pe_ip := {| TRUSTED_PROXIES := None; TRUST_PROXY_HEADERS := None |};
     pe_bridgeOrigins := Some (js "chrome-extension://abcdefghijklmnopabcdefghijklmnop");
     pe_isHttps := true; pe_trustTailscaleServe := None; pe_csp := js "default-src 'self'"; pe_nonce := js "n";
     pe_URL := demo_URL; pe_hash := demo_hash; pe_mode := Up; pe_t0 := 30; pe_t1 := 31; pe_others := fun s => s;
     pe_fetch := fun _ => Some demo_user_data; pe_memberships := fun _ => Ok [js "t"];
     pe_find_tenant := fun tid => Ok (demo_policies 30 tid); pe_whois := demo_whois; pe_clk := demo_times 30;
     pe_date := fun _ => None; pe_intl := fun _ => plain 200 IntlPage |}.

Definition demo_state : proxy_state :=
  {| px_store := ∅; px_net := demo_net_state; px_passkey := []; px_emitted := [] |}.

(** A request with the session cookie, from a peer of the pinned tailnet. *)
Definition demo_request (method path orig : jsstr) : request :=
  {| px_pathname := path; px_search := []; px_basePath := []; px_url := js "https://app.example" ++ path; px_method := method;
     px_headers := [(js "cookie", demo_cookie); (js "origin", orig)]; px_ip := Some (js "100.64.0.7") |}.
Definition demo_post : request := demo_request (js "POST") (js "/api/passwords") (js "https://app.example").
Definition demo_bridge : request :=
  demo_request (js "POST") API_PATH.EXTENSION_BRIDGE_CODE (js "chrome-extension://abcdefghijklmnopabcdefghijklmnop").
Definition demo_page : request := demo_request (js "GET") (js "/en/dashboard/settings/auth/passkey") (js "https://app.example").

(** The same request from the other origin is refused. *)
Example cross_origin_refused :
  match snd (edge demo_env (demo_request (js "POST") (js "/api/passwords") (js "https://evil.example")) demo_state) with
  | Ok r => rs_body r | Throw _ => NoBody end = ErrorCode (js "INVALID_ORIGIN").
Proof. vm_compute. reflexivity. Qed.

Lemma bearer_paths_need_session_witness :
  isBearerBypassPath (js "/api/teams/x/passwords/y") = true /\ classifyRoute (js "/api/teams/x/passwords/y") = API_SESSION_REQUIRED.
Proof.
  split; [vm_compute; reflexivity|]. apply (bearer_paths_need_session (js "/api/teams/x/passwords/y")). vm_compute. reflexivity.
Defined.

Lemma demo_history : net_history demo_policies demo_names 10 20 30 30 demo_env demo_state.
Proof.
  split; [exact demo_reachable|unfold timely; cbn; lia|done|done].
Qed.

Lemma session_routes_guarded_witness :
  exists s' res, edge demo_env demo_post demo_state = (s', Ok res) /\ rs_body res = NextHandler /\
    (bearer_admitted demo_post \/ admitted demo_policies demo_names 10 demo_env demo_post demo_state).
Proof.
  destruct (edge demo_env demo_post demo_state) as [s' [res|e]] eqn:E.
  - assert (Hb : rs_body res = NextHandler).
    { apply (f_equal (fun x => match snd x with Ok r => rs_body r | Throw _ => NoBody end)) in E. vm_compute in E.
      symmetry. exact E. }
    exists s', res. split; [reflexivity|]. split; [exact Hb|].
    exact (session_routes_guarded demo_policies demo_names 10 20 30 30 demo_env demo_post demo_state s' res E
      ltac:(vm_compute; reflexivity) ltac:(vm_compute; reflexivity) Hb demo_history).
  - exfalso. apply (f_equal (fun x => match snd x with Ok _ => true | Throw _ => false end)) in E. vm_compute in E. discriminate E.
Defined.

Lemma cookie_mutations_same_origin_witness :
  exists s' res, edge demo_env demo_post demo_state = (s', Ok res) /\ rs_body res = NextHandler /\
    exists o u, header demo_post (js "origin") = Some o /\ demo_URL o = Some u.
Proof.
  destruct (edge demo_env demo_post demo_state) as [s' [res|e]] eqn:E.
  - assert (Hb : rs_body res = NextHandler).
    { apply (f_equal (fun x => match snd x with Ok r => rs_body r | Throw _ => NoBody end)) in E. vm_compute in E.
      symmetry. exact E. }
    exists s', res. split; [reflexivity|]. split; [exact Hb|].
    destruct (cookie_mutations_same_origin demo_env demo_post demo_state s' res E ltac:(vm_compute; reflexivity)
      ltac:(vm_compute; reflexivity) ltac:(decided) ltac:(vm_compute; reflexivity) ltac:(decided) Hb)
      as (o & u & _ & _ & H1 & H2 & _). exists o, u. split; [exact H1|exact H2].
  - exfalso. apply (f_equal (fun x => match snd x with Ok _ => true | Throw _ => false end)) in E. vm_compute in E. discriminate E.
Defined.

Lemma cors_confined_witness :
  exists s' res v, edge demo_env demo_bridge demo_state = (s', Ok res) /\
    map_get (rs_headers res) (js "access-control-allow-credentials") = Some v /\
    exists w, header demo_bridge (js "origin") = Some w.
Proof.
  destruct (edge demo_env demo_bridge demo_state) as [s' [res|e]] eqn:E.
  - assert (Hb : map_get (rs_headers res) (js "access-control-allow-credentials") = Some (js "true")).
    { apply (f_equal (fun x => match snd x with Ok r => map_get (rs_headers r) (js "access-control-allow-credentials")
        | Throw _ => None end)) in E. vm_compute in E. symmetry. exact E. }
    exists s', res, (js "true"). split; [reflexivity|]. split; [exact Hb|].
    destruct (cors_confined demo_env demo_bridge demo_state s' res E ltac:(vm_compute; reflexivity)
      ltac:(vm_compute; reflexivity)) as [_ H]. destruct (H _ Hb) as (w & Hw & _). exists w. exact Hw.
  - exfalso. apply (f_equal (fun x => match snd x with Ok _ => true | Throw _ => false end)) in E. vm_compute in E. discriminate E.
Defined.

(** The session endpoint reports no passkey fields, so that the session falls under the
    requirement: the registration page is shown, the others redirect to it. *)
Lemma protected_pages_guarded_witness :
  exists s' res, edge demo_env demo_page demo_state = (s', Ok res) /\ rs_body res = IntlPage /\
    admitted demo_policies demo_names 10 demo_env demo_page demo_state.
Proof.
  destruct (edge demo_env demo_page demo_state) as [s' [res|e]] eqn:E.
  - assert (Hb : rs_body res = IntlPage).
    { apply (f_equal (fun x => match snd x with Ok r => rs_body r | Throw _ => NoBody end)) in E. vm_compute in E.
      symmetry. exact E. }
    exists s', res. split; [reflexivity|]. split; [exact Hb|].
    destruct (protected_pages_guarded demo_policies demo_names 10 20 30 30 demo_env demo_page demo_state s' res
      (js "en") (js "dashboard") (js "/settings/auth/passkey") ltac:(decided) ltac:(decided) eq_refl
      ltac:(vm_compute; reflexivity) E (fun _ _ => eq_refl) Hb demo_history) as [H _]. exact H.
  - exfalso. apply (f_equal (fun x => match snd x with Ok _ => true | Throw _ => false end)) in E. vm_compute in E. discriminate E.
Defined.
