(* ===== verification/Vault.v ===== *)
(** * The personal vault: entries, history and attachments under one key

    The tables of a personal vault and the routes that write them one at a time:
    creating, importing, editing, restoring, trashing and purging entries
    (src/src/app/api/passwords, src/src/app/api/v1/passwords,
    src/src/lib/services/personal-password-service.ts), the version guard those
    routes share (src/src/lib/vault/key-version-guard.ts) and the attachment
    routes.  The server stores ciphertext only; what it is responsible for is
    that every row says which version of the owner's secret key it is encrypted
    under, and that no row falls behind when the key is rotated.

    A handler reads some rows before it opens its transaction.  Those reads see
    the database [w0], the transaction the possibly later database [w]; a
    transaction that throws leaves [w] as it was.  Inside a transaction the row
    locks the code takes ([FOR SHARE] / [FOR UPDATE] on the users row, the
    advisory lock of the user) keep a rotation and the writes below apart, so a
    transaction is one step. *)

From S2P Require Import Prelude JsString Table StatusMachine EmergencyAccess.
From stdpp Require Import fin_maps sorting.
Local Open Scope Z_scope.
Local Open Scope js_scope.

(** ** Rows *)

Record EncryptedField := { ciphertext : jsstr; fiv : jsstr; fauthTag : jsstr }.
#[export] Instance EncryptedField_eq_dec : EqDecision EncryptedField.
Proof. solve_decision. Defined.

Record recovery := {
  rk_secretKey : option EncryptedField; rk_hkdfSalt : option jsstr; rk_verifierHmac : option jsstr;
  rk_verifierVersion : Z; rk_setAt : option Z; rk_invalidatedAt : option Z }.

(** [failedUnlockAttempts], [lastFailedUnlockAt], [accountLockedUntil] *)
Record lockout_columns := { lc_attempts : Z; lc_last : option Z; lc_until : option Z }.

(** The vault columns of a row of [users]. *)
Record vault_user := {
  vu_tenantId : jsstr; vu_vaultSetupAt : option Z; vu_accountSalt : option jsstr;
  vu_secretKey : option EncryptedField; vu_serverHash : option jsstr; vu_serverSalt : option jsstr;
  vu_keyVersion : Z; vu_kdf : Z * Z; vu_verifierHmac : option jsstr; vu_verifierVersion : Z;
  vu_ecdhPublicKey : option jsstr; vu_ecdhPrivateKey : option EncryptedField;
  vu_recovery : recovery; vu_lockout : lockout_columns }.

(** The plaintext columns of an entry. *)
Record entry_meta := {
  em_entryType : jsstr; em_isFavorite : bool; em_isArchived : bool; em_requireReprompt : bool;
  em_expiresAt : option Z; em_deletedAt : option Z; em_folderId : option jsstr;
  em_tags : list jsstr }.

Record entry := {
  en_userId : jsstr; en_tenantId : jsstr; en_blob : EncryptedField; en_overview : EncryptedField;
  en_keyVersion : Z; en_aadVersion : Z; en_meta : entry_meta }.

Record history_row := {
  hi_entryId : jsstr; hi_tenantId : jsstr; hi_blob : EncryptedField; hi_keyVersion : Z;
  hi_aadVersion : Z; hi_changedAt : Z }.

(** The [cek_*] columns: nullable, one by one. *)
Record cek := {
  ck_encrypted : option jsstr; ck_iv : option jsstr; ck_authTag : option jsstr;
  ck_keyVersion : option Z; ck_wrapAadVersion : option Z }.

Record attachment := {
  at_filename : jsstr; at_contentType : jsstr; at_sizeBytes : Z; at_data : jsstr; at_iv : jsstr;
  at_authTag : jsstr; at_keyVersion : option Z; at_aadVersion : Z; at_mode : Z; at_cek : cek;
  at_tenantId : jsstr; at_entryId : option jsstr; at_teamEntryId : option jsstr;
  at_createdById : jsstr }.

(** A row of [vault_keys], unique by user and version. *)
Record vault_key := { vk_tenantId : jsstr; vk_artifact : EncryptedField }.

Record credential := { cr_userId : jsstr; cr_tenantId : jsstr; cr_prf : option EncryptedField }.

(** Folders, tags and share links: who owns the row, in which tenant. *)
Record owned := { ow_userId : jsstr; ow_tenantId : jsstr }.

Record team_member := { tm_userId : jsstr; tm_tenantId : jsstr; tm_keyDistributed : bool }.

(** Audit rows written inside a transaction. *)
Inductive vault_audit :=
| VAULT_RESET_EXECUTED (userId tenantId : jsstr) (deletedEntries deletedAttachments : nat)
| ADMIN_VAULT_RESET_EXECUTE (userId tenantId : jsstr) (teamId : option jsstr) (initiatedById : jsstr)
    (approvedById : option jsstr) (deletedEntries deletedAttachments : nat)
| RECOVERY_PASSPHRASE_RESET (userId tenantId : jsstr) (keyVersion : Z).

Record vault_world := {
  vw_members : gmap (jsstr * jsstr) (option Z);
  vw_users : gmap jsstr vault_user;
  vw_entries : gmap jsstr entry;
  vw_history : gmap jsstr history_row;
  vw_attachments : gmap jsstr attachment;
  vw_vaultKeys : gmap (jsstr * Z) vault_key;
  vw_credentials : gmap jsstr credential;
  vw_grants : gmap jsstr grant;
  vw_folders : gmap jsstr owned;
  vw_tags : gmap jsstr owned;
  vw_shares : gmap jsstr owned;
  vw_teamKeys : gmap jsstr owned;
  vw_teamMembers : gmap jsstr team_member;
  vw_audit : list vault_audit }.

Definition set_users (t : gmap jsstr vault_user) (w : vault_world) : vault_world :=
  {| vw_members := vw_members w; vw_users := t; vw_entries := vw_entries w; vw_history := vw_history w;
     vw_attachments := vw_attachments w; vw_vaultKeys := vw_vaultKeys w;
     vw_credentials := vw_credentials w; vw_grants := vw_grants w; vw_folders := vw_folders w;
     vw_tags := vw_tags w; vw_shares := vw_shares w; vw_teamKeys := vw_teamKeys w;
     vw_teamMembers := vw_teamMembers w; vw_audit := vw_audit w |}.
(** The three tables of ciphertext. *)
Definition set_rows (e : gmap jsstr entry) (h : gmap jsstr history_row) (a : gmap jsstr attachment)
    (w : vault_world) : vault_world :=
  {| vw_members := vw_members w; vw_users := vw_users w; vw_entries := e; vw_history := h;
     vw_attachments := a; vw_vaultKeys := vw_vaultKeys w;
     vw_credentials := vw_credentials w; vw_grants := vw_grants w; vw_folders := vw_folders w;
     vw_tags := vw_tags w; vw_shares := vw_shares w; vw_teamKeys := vw_teamKeys w;
     vw_teamMembers := vw_teamMembers w; vw_audit := vw_audit w |}.
Definition set_entries (t : gmap jsstr entry) (w : vault_world) : vault_world :=
  set_rows t (vw_history w) (vw_attachments w) w.
Definition set_history (t : gmap jsstr history_row) (w : vault_world) : vault_world :=
  set_rows (vw_entries w) t (vw_attachments w) w.
Definition set_attachments (t : gmap jsstr attachment) (w : vault_world) : vault_world :=
  set_rows (vw_entries w) (vw_history w) t w.
Definition set_vaultKeys (t : gmap (jsstr * Z) vault_key) (w : vault_world) : vault_world :=
  {| vw_members := vw_members w; vw_users := vw_users w; vw_entries := vw_entries w;
     vw_history := vw_history w; vw_attachments := vw_attachments w; vw_vaultKeys := t;
     vw_credentials := vw_credentials w; vw_grants := vw_grants w; vw_folders := vw_folders w;
     vw_tags := vw_tags w; vw_shares := vw_shares w; vw_teamKeys := vw_teamKeys w;
     vw_teamMembers := vw_teamMembers w; vw_audit := vw_audit w |}.
Definition set_wrappings (c : gmap jsstr credential) (g : gmap jsstr grant) (w : vault_world) : vault_world :=
  {| vw_members := vw_members w; vw_users := vw_users w; vw_entries := vw_entries w;
     vw_history := vw_history w; vw_attachments := vw_attachments w; vw_vaultKeys := vw_vaultKeys w;
     vw_credentials := c; vw_grants := g; vw_folders := vw_folders w;
     vw_tags := vw_tags w; vw_shares := vw_shares w; vw_teamKeys := vw_teamKeys w;
     vw_teamMembers := vw_teamMembers w; vw_audit := vw_audit w |}.
Definition set_side (s fo ta : gmap jsstr owned) (tk : gmap jsstr owned) (tm : gmap jsstr team_member)
    (w : vault_world) : vault_world :=
  {| vw_members := vw_members w; vw_users := vw_users w; vw_entries := vw_entries w;
     vw_history := vw_history w; vw_attachments := vw_attachments w; vw_vaultKeys := vw_vaultKeys w;
     vw_credentials := vw_credentials w; vw_grants := vw_grants w; vw_folders := fo;
     vw_tags := ta; vw_shares := s; vw_teamKeys := tk;
     vw_teamMembers := tm; vw_audit := vw_audit w |}.
Definition logAuditInTx (a : vault_audit) (w : vault_world) : vault_world :=
  {| vw_members := vw_members w; vw_users := vw_users w; vw_entries := vw_entries w;
     vw_history := vw_history w; vw_attachments := vw_attachments w; vw_vaultKeys := vw_vaultKeys w;
     vw_credentials := vw_credentials w; vw_grants := vw_grants w; vw_folders := vw_folders w;
     vw_tags := vw_tags w; vw_shares := vw_shares w; vw_teamKeys := vw_teamKeys w;
     vw_teamMembers := vw_teamMembers w; vw_audit := vw_audit w ++ [a] |}.

(** ** Answers and errors *)

Inductive vault_error :=
| UNAUTHORIZED | RATE_LIMIT_EXCEEDED | SESSION_STEP_UP_REQUIRED | FORBIDDEN | VALIDATION_ERROR
| NOT_FOUND | HISTORY_NOT_FOUND | ATTACHMENT_NOT_FOUND | NOT_IN_TRASH | QUOTA_EXCEEDED
| KEY_VERSION_MISMATCH | KEY_VERSION_WITHOUT_REENCRYPT
| VAULT_NOT_SETUP | VAULT_ALREADY_SETUP | VERIFIER_NOT_SET | INVALID_PASSPHRASE
| RECOVERY_KEY_NOT_SET | INVALID_RECOVERY_KEY | SESSION_INVALIDATE_FAILED
| ATTACHMENT_MIGRATION_INCOMPLETE | ATTACHMENT_KEY_MANIFEST_MISMATCH | ATTACHMENT_INCONSISTENT_VERSION
| ENTRY_COUNT_MISMATCH | LEGACY_MIGRATION_NOT_APPLICABLE | LEGACY_INTEGRITY_MISMATCH
| ATTACHMENT_LIMIT_EXCEEDED | VAULT_RESET_CONFIRMATION_MISMATCH | INTERNAL_ERROR.

Inductive vault_response := VOk | VError (e : vault_error).

#[export] Instance vault_error_eq_dec : EqDecision vault_error.
Proof. solve_decision. Defined.
#[export] Instance vault_response_eq_dec : EqDecision vault_response.
Proof. solve_decision. Defined.

(** What a transaction throws: a class of the source, or a refusal of the
    database. *)
Inductive vault_throw :=
| TenantNotResolved | MultiTenantMembership
| KeyVersionMismatch (expected : option Z) (received : Z)
| UniqueViolation | RecordNotFound | RlsRefused | ForeignKeyRefused
| AttachmentLimit | UserNotFound
| LegacyAttachmentsResidual | AttachmentCekManifestMismatch | LegacyAttachmentInconsistentVersion
| AttachmentCekWrapAadVersionMismatch | RotationPostCondition | RotationCasConflict
| Mode2InvariantViolation | EntryCountMismatch | HistoryCountMismatch
| GrantTransition (e : transition_error)
| LegacyMigrationNotApplicable | LegacyBodyHashMismatch | MigrationNotFound
| VerifierFormat | InvalidationFailed.

#[export] Instance vault_throw_eq_dec : EqDecision vault_throw.
Proof. solve_decision. Defined.

(** ** Transactions *)

Definition tx (A : Type) : Type := st vault_world vault_throw A.
Definition get : tx vault_world := fun w => (w, Ok w).
Definition modify (f : vault_world -> vault_world) : tx unit := fun w => (f w, Ok tt).
(** [if (b) throw e] *)
Definition throw_if (b : bool) (e : vault_throw) : tx unit := if b then st_throw e else st_ret tt.

(** [prisma.$transaction]: committed, or rolled back by a throw. *)
Definition transaction {A} (m : tx A) : tx A :=
  fun w => match m w with (w', Ok a) => (w', Ok a) | (_, Throw e) => (w, Throw e) end.

Definition resolveUserTenantId (userId : jsstr) (w : vault_world) : outcome vault_throw (option jsstr) :=
  match List.filter (fun m => (snd (fst m) =s userId) && match snd m with Some _ => false | None => true end)
          (map_to_list (vw_members w)) with
  | [] => Ok None
  | [m] => Ok (Some (fst (fst m)))
  | _ => Throw MultiTenantMembership
  end.

(** The tenant [withUserTenantRls] opens its transaction in. *)
Definition user_tenant (userId : jsstr) (w : vault_world) : outcome vault_throw jsstr :=
  t ← resolveUserTenantId userId w;
  match t with Some ((_ :: _) as tenantId) => Ok tenantId | _ => Throw TenantNotResolved end.

Definition withTenantRls {A} (tenantId : jsstr) (fn : jsstr -> tx A) : tx A := transaction (fn tenantId).

Definition withUserTenantRls {A} (userId : jsstr) (fn : jsstr -> tx A) : tx A :=
  fun w => match user_tenant userId w with
           | Ok tenantId => withTenantRls tenantId fn w
           | Throw e => (w, Throw e)
           end.

(** Rows the tenant of the transaction can see. *)
Definition find_user (ctx userId : jsstr) (w : vault_world) : option vault_user :=
  u ← vw_users w !! userId; if vu_tenantId u =s ctx then Some u else None.
Definition find_entry (ctx id : jsstr) (w : vault_world) : option entry :=
  e ← vw_entries w !! id; if en_tenantId e =s ctx then Some e else None.
Definition find_history (ctx id : jsstr) (w : vault_world) : option history_row :=
  h ← vw_history w !! id; if hi_tenantId h =s ctx then Some h else None.

(** [where: { userId }] on entries *)
Definition entry_of (ctx userId : jsstr) (e : entry) : bool := (en_tenantId e =s ctx) && (en_userId e =s userId).

(** [where: { entry: { userId } }]: the row's entry is visible and the user's. *)
Definition under_entry_of (ctx userId : jsstr) (w : vault_world) (entryId : jsstr) : bool :=
  match find_entry ctx entryId w with Some e => en_userId e =s userId | None => false end.

Definition history_of (ctx userId : jsstr) (w : vault_world) (h : history_row) : bool :=
  (hi_tenantId h =s ctx) && under_entry_of ctx userId w (hi_entryId h).

Definition attachment_of (ctx userId : jsstr) (w : vault_world) (a : attachment) : bool :=
  (at_tenantId a =s ctx)
  && match at_entryId a with Some i => under_entry_of ctx userId w i | None => false end.

Definition owned_rows (ctx userId : jsstr) (o : owned) : bool := (ow_tenantId o =s ctx) && (ow_userId o =s userId).

(** ** The version guard *)

Definition assertCurrentKeyVersion (ctx userId : jsstr) (keyVersion : Z) : tx unit := fun w =>
  match find_user ctx userId w with
  | None => (w, Throw (KeyVersionMismatch None keyVersion))
  | Some current =>
      if vu_keyVersion current =? keyVersion then (w, Ok tt)
      else (w, Throw (KeyVersionMismatch (Some (vu_keyVersion current)) keyVersion))
  end.

(** ** Creating entries *)

Definition TEAM_KEY_VERSION_MAX : Z := 10000.
Definition AAD_VERSION_CURRENT : Z := 1.

Record create_input := {
  ci_id : option jsstr; ci_blob : EncryptedField; ci_overview : EncryptedField; ci_keyVersion : Z;
  ci_aadVersion : option Z; ci_tagIds : option (list jsstr); ci_folderId : option jsstr;
  ci_isFavorite : option bool; ci_entryType : option jsstr; ci_requireReprompt : option bool;
  ci_expiresAt : option (option Z) }.

Definition in_range (lo hi n : Z) : bool := (lo <=? n) && (n <=? hi).

(** The checks of the schema on a body of the right shape; [aadVersion] defaults
    to 1. *)
Definition createE2EPasswordSchema (b : create_input) : bool :=
  in_range 1 TEAM_KEY_VERSION_MAX (ci_keyVersion b)
  && match ci_aadVersion b with Some v => in_range 1 AAD_VERSION_CURRENT v | None => true end
  && ((default 1 (ci_aadVersion b) <? 1) || match ci_id b with Some _ => true | None => false end).

Inductive create_result := Created (id : jsstr) | FOLDER_NOT_FOUND | TAGS_NOT_OWNED.

Definition owns_all (ctx userId : jsstr) (t : gmap jsstr owned) (ids : list jsstr) : bool :=
  forallb (fun i => match t !! i with Some o => owned_rows ctx userId o | None => false end) ids.

(** [dedupeTagIds] *)
Definition dedupeTagIds (ids : list jsstr) : list jsstr := remove_dups ids.

Definition new_entry (userId tenantId : jsstr) (b : create_input) (tags : list jsstr) : entry :=
  {| en_userId := userId; en_tenantId := tenantId; en_blob := ci_blob b; en_overview := ci_overview b;
     en_keyVersion := ci_keyVersion b; en_aadVersion := default 1 (ci_aadVersion b);
     en_meta := {| em_entryType := default (js "LOGIN") (ci_entryType b);
                   em_isFavorite := default false (ci_isFavorite b); em_isArchived := false;
                   em_requireReprompt := default false (ci_requireReprompt b);
                   em_expiresAt := default None (ci_expiresAt b); em_deletedAt := None;
                   em_folderId := ci_folderId b; em_tags := tags |} |}.

(** [passwordEntry.create]: the primary key is unique across tenants, and the
    row must belong to the tenant of the transaction. *)
Definition create_entry (ctx id : jsstr) (e : entry) : tx unit :=
  let! w := get in
  let! _ := throw_if (negb (en_tenantId e =s ctx)) RlsRefused in
  let! _ := throw_if (match vw_entries w !! id with Some _ => true | None => false end) UniqueViolation in
  modify (fun w => set_entries (<[id := e]> (vw_entries w)) w).

Definition createPersonalPasswordEntry (ctx userId tenantId : jsstr) (input : create_input) (newId : jsstr)
    : tx create_result :=
  let! _ := assertCurrentKeyVersion ctx userId (ci_keyVersion input) in
  let! w := get in
  if match ci_folderId input with
     | Some f => negb (owns_all ctx userId (vw_folders w) [f]) | None => false end
  then st_ret FOLDER_NOT_FOUND
  else
    let uniqueTagIds := dedupeTagIds (default [] (ci_tagIds input)) in
    if negb (owns_all ctx userId (vw_tags w) uniqueTagIds) then st_ret TAGS_NOT_OWNED
    else
      let id := default newId (ci_id input) in
      let! _ := create_entry ctx id (new_entry userId tenantId input uniqueTagIds) in
      st_ret (Created id).

(** Turn a transaction's outcome into the route's answer. *)
Definition answer {A} (ok : A -> vault_response) (catch_ : vault_throw -> option vault_error) (m : tx A)
    : tx vault_response := fun w =>
  match m w with
  | (w', Ok a) => (w', Ok (ok a))
  | (w', Throw e) => match catch_ e with Some err => (w', Ok (VError err)) | None => (w', Throw e) end
  end.
Definition refuse (e : vault_error) : tx vault_response := st_ret (VError e).

Definition catch_version (e : vault_throw) : option vault_error :=
  match e with KeyVersionMismatch _ _ => Some KEY_VERSION_MISMATCH | _ => None end.
Definition created (r : create_result) : vault_response :=
  match r with Created _ => VOk | _ => VError VALIDATION_ERROR end.

(** [assertQuotaAvailable] for entries: the count across tenants, plus the new
    ones, against the configured maximum. *)
Definition quota_exceeded (max : Z) (userId : jsstr) (n : nat) (w : vault_world) : bool :=
  max <? Z.of_nat (size (select (fun e => en_userId e =s userId) (vw_entries w)) + n).

(** POST /api/passwords *)
Definition post_passwords (w0 : vault_world) (authed : option jsstr) (rlAllowed : bool) (max : Z)
    (body : option create_input) (newId : jsstr) : tx vault_response :=
  match authed with
  | None => refuse UNAUTHORIZED
  | Some userId =>
      if negb rlAllowed then refuse RATE_LIMIT_EXCEEDED
      else if quota_exceeded max userId 1 w0 then refuse QUOTA_EXCEEDED
      else match body with
      | Some input =>
          if negb (createE2EPasswordSchema input) then refuse VALIDATION_ERROR
          else answer created catch_version
                 (withUserTenantRls userId (fun ctx =>
                    createPersonalPasswordEntry ctx userId ctx input newId))
      | None => refuse VALIDATION_ERROR
      end
  end.

(** POST /api/v1/passwords: the tenant comes from the API key. *)
Definition post_v1_passwords (authed : option (jsstr * jsstr)) (denied blocked : bool)
    (body : option create_input) (newId : jsstr) : tx vault_response :=
  match authed with
  | None => refuse UNAUTHORIZED
  | Some (userId, tenantId) =>
      if denied then refuse FORBIDDEN
      else if blocked then refuse RATE_LIMIT_EXCEEDED
      else match body with
      | Some input =>
          if negb (createE2EPasswordSchema input) then refuse VALIDATION_ERROR
          else answer created catch_version
                 (withTenantRls tenantId (fun ctx =>
                    createPersonalPasswordEntry ctx userId tenantId input newId))
      | None => refuse VALIDATION_ERROR
      end
  end.

(** *** Bulk import

    All entries in one transaction, a failed one counted and skipped.  A
    statement the database refuses aborts the transaction: every later statement
    fails, and the final commit rolls everything back. *)
Record import_state := {
  im_world : vault_world; im_aborted : bool; im_created : list jsstr; im_failed : nat }.

Definition import_fail (aborted : bool) (s : import_state) : import_state :=
  {| im_world := im_world s; im_aborted := aborted; im_created := im_created s;
     im_failed := S (im_failed s) |}.

Definition import_one (ctx userId : jsstr) (input : create_input) (newId : jsstr) (s : import_state)
    : outcome vault_throw import_state :=
  if im_aborted s then Ok (import_fail true s)
  else match createPersonalPasswordEntry ctx userId ctx input newId (im_world s) with
       | (w', Ok (Created id)) =>
           Ok {| im_world := w'; im_aborted := false; im_created := im_created s ++ [id];
                 im_failed := im_failed s |}
       | (_, Ok _) => Ok (import_fail false s)
       | (_, Throw (KeyVersionMismatch e r)) => Throw (KeyVersionMismatch e r)
       | (_, Throw _) => Ok (import_fail true s)
       end.

Fixpoint import_all (ctx userId : jsstr) (es : list (create_input * jsstr)) (s : import_state)
    : outcome vault_throw import_state :=
  match es with
  | [] => Ok s
  | (input, newId) :: es' => s' ← import_one ctx userId input newId s; import_all ctx userId es' s'
  end.

(** The transaction of the import: the ids it reports and the failures. *)
Definition import_tx (userId : jsstr) (es : list (create_input * jsstr)) : tx (list jsstr * nat) := fun w =>
  match user_tenant userId w with
  | Throw e => (w, Throw e)
  | Ok ctx =>
      match import_all ctx userId es {| im_world := w; im_aborted := false; im_created := []; im_failed := 0 |} with
      | Throw e => (w, Throw e)
      | Ok s => (if im_aborted s then w else im_world s, Ok (im_created s, im_failed s))
      end
  end.

Definition BULK_IMPORT_MAX_ENTRIES : nat := 50.

(** POST /api/passwords/bulk-import *)
Definition post_bulk_import (authed : option jsstr) (rlAllowed : bool)
    (body : option (list (create_input * jsstr))) : tx vault_response :=
  match authed with
  | None => refuse UNAUTHORIZED
  | Some userId =>
      if negb rlAllowed then refuse RATE_LIMIT_EXCEEDED
      else match body with
      | Some ((_ :: _) as es) =>
          if negb (Nat.leb (length es) BULK_IMPORT_MAX_ENTRIES)
             || negb (forallb (fun e => createE2EPasswordSchema (fst e)) es)
          then refuse VALIDATION_ERROR
          else answer (fun _ => VOk) catch_version (import_tx userId es)
      | _ => refuse VALIDATION_ERROR
      end
  end.

(** ** Editing an entry *)

Record update_input := {
  ui_blob : option EncryptedField; ui_overview : option EncryptedField; ui_keyVersion : option Z;
  ui_aadVersion : option Z; ui_tagIds : option (list jsstr); ui_folderId : option (option jsstr);
  ui_isFavorite : option bool; ui_isArchived : option bool; ui_entryType : option jsstr;
  ui_requireReprompt : option bool; ui_expiresAt : option (option Z) }.

(** The schema refuses an overview without a blob. *)
Definition updateE2EPasswordSchema (b : update_input) : bool :=
  match ui_keyVersion b with Some v => in_range 1 TEAM_KEY_VERSION_MAX v | None => true end
  && match ui_aadVersion b with Some v => in_range 1 AAD_VERSION_CURRENT v | None => true end
  && (negb (has (ui_overview b)) || has (ui_blob b)).

(** [updateData]: the versions are written on the re-encrypt path only. *)
Definition apply_update (b : update_input) (e : entry) : entry :=
  let m := en_meta e in
  {| en_userId := en_userId e; en_tenantId := en_tenantId e;
     en_blob := default (en_blob e) (ui_blob b);
     en_overview := default (en_overview e) (ui_overview b);
     en_keyVersion := if has (ui_blob b) then default (en_keyVersion e) (ui_keyVersion b) else en_keyVersion e;
     en_aadVersion := if has (ui_blob b) then default (en_aadVersion e) (ui_aadVersion b) else en_aadVersion e;
     en_meta := {| em_entryType := default (em_entryType m) (ui_entryType b);
                   em_isFavorite := default (em_isFavorite m) (ui_isFavorite b);
                   em_isArchived := default (em_isArchived m) (ui_isArchived b);
                   em_requireReprompt := default (em_requireReprompt m) (ui_requireReprompt b);
                   em_expiresAt := default (em_expiresAt m) (ui_expiresAt b);
                   em_deletedAt := em_deletedAt m;
                   em_folderId := default (em_folderId m) (ui_folderId b);
                   em_tags := default (em_tags m) (dedupeTagIds <$> ui_tagIds b) |} |}.

(** [passwordEntry.update({ where: { id, userId }, data })] *)
Definition update_entry (ctx userId id : jsstr) (f : entry -> entry) : tx unit := fun w =>
  match find_entry ctx id w with
  | Some e => if en_userId e =s userId then (set_entries (<[id := f e]> (vw_entries w)) w, Ok tt)
              else (w, Throw RecordNotFound)
  | None => (w, Throw RecordNotFound)
  end.

(** [tags: { set: [...] }]: every tag connected must still exist. *)
Definition connect_tags (ctx : jsstr) (ids : list jsstr) : tx unit :=
  let! w := get in
  throw_if (negb (forallb (fun i => match vw_tags w !! i with Some o => ow_tenantId o =s ctx | None => false end) ids))
    RecordNotFound.

(** The update both PUT handlers send. *)
Definition write_update (ctx userId id : jsstr) (b : update_input) : tx unit :=
  let! _ := connect_tags ctx (dedupeTagIds (default [] (ui_tagIds b))) in
  update_entry ctx userId id (apply_update b).

(** Rows in the order of [changedAt], then [id], ascending. *)
Fixpoint js_leb (a b : jsstr) : bool :=
  match a, b with
  | [], _ => true
  | _ :: _, [] => false
  | x :: a', y :: b' => (x <? y) || ((x =? y) && js_leb a' b')
  end.
Definition older (a b : jsstr * history_row) : Prop :=
  ((hi_changedAt (snd a) <? hi_changedAt (snd b))
   || ((hi_changedAt (snd a) =? hi_changedAt (snd b)) && js_leb (fst a) (fst b))) = true.
#[export] Instance older_dec : RelDecision older.
Proof. intros a b. unfold older. apply _. Defined.

Definition entry_history (ctx entryId : jsstr) (t : gmap jsstr history_row) : list (jsstr * history_row) :=
  merge_sort older (List.filter (fun kr => (hi_tenantId (snd kr) =s ctx) && (hi_entryId (snd kr) =s entryId))
                      (map_to_list t)).

Definition HISTORY_MAX : nat := 20.

(** Keep the newest twenty rows of the entry. *)
Definition trim_history (ctx entryId : jsstr) (t : gmap jsstr history_row) : gmap jsstr history_row :=
  let all := entry_history ctx entryId t in
  let old := map fst (take (length all - HISTORY_MAX) all) in
  if Nat.ltb HISTORY_MAX (length all) then filter (fun kr => fst kr ∉ old) t else t.

(** Copy the locked blob into the history and trim it. *)
Definition snapshot_history (ctx entryId tenantId : jsstr) (cur : entry) (now : Z) (hid : jsstr) : tx unit :=
  let! w := get in
  let! _ := throw_if (negb (tenantId =s ctx)) RlsRefused in
  let! _ := throw_if (has (vw_history w !! hid)) UniqueViolation in
  let row := {| hi_entryId := entryId; hi_tenantId := tenantId; hi_blob := en_blob cur;
                hi_keyVersion := en_keyVersion cur; hi_aadVersion := en_aadVersion cur;
                hi_changedAt := now |} in
  modify (fun w => set_history (trim_history ctx entryId (<[hid := row]> (vw_history w))) w).

(** The write of PUT, both APIs; [None] when the entry is gone. *)
Definition put_tx (ctx userId id : jsstr) (b : update_input) (existing : entry) (now : Z) (hid : jsstr)
    : tx (option unit) :=
  if has (ui_blob b) then
    let! _ := match ui_keyVersion b with
              | Some v => assertCurrentKeyVersion ctx userId v | None => st_ret tt end in
    let! w := get in
    match find_entry ctx id w with
    | None => st_ret None
    | Some cur =>
        let! _ := snapshot_history ctx id (en_tenantId existing) cur now hid in
        let! _ := write_update ctx userId id b in
        st_ret (Some tt)
    end
  else
    let! _ := write_update ctx userId id b in
    st_ret (Some tt).

(** What both PUT handlers check before they write: the entry is the caller's,
    the body is valid, folder and tags are the caller's, and the versions change
    only together with the ciphertext. *)
Definition check_update (ctx userId id : jsstr) (body : option update_input) (w0 : vault_world)
    : vault_error + (entry * update_input) :=
  match find_entry ctx id w0 with
  | None => inl NOT_FOUND
  | Some existing =>
      if negb (en_userId existing =s userId) then inl NOT_FOUND
      else match body with
      | None => inl VALIDATION_ERROR
      | Some b =>
          if negb (updateE2EPasswordSchema b) then inl VALIDATION_ERROR
          else if match ui_folderId b with
                  | Some (Some f) => negb (owns_all ctx userId (vw_folders w0) [f]) | _ => false end
          then inl VALIDATION_ERROR
          else if negb (owns_all ctx userId (vw_tags w0) (dedupeTagIds (default [] (ui_tagIds b))))
          then inl VALIDATION_ERROR
          else
            let keyVersionChanged :=
              match ui_keyVersion b with Some v => negb (v =? en_keyVersion existing) | None => false end in
            let aadVersionChanged :=
              match ui_aadVersion b with Some v => negb (v =? en_aadVersion existing) | None => false end in
            if (keyVersionChanged || aadVersionChanged) && negb (has (ui_blob b))
            then inl KEY_VERSION_WITHOUT_REENCRYPT
            else if has (ui_blob b) && negb (has (ui_keyVersion b)) then inl KEY_VERSION_WITHOUT_REENCRYPT
            else inr (existing, b)
      end
  end.

Definition updated (r : option unit) : vault_response :=
  match r with Some _ => VOk | None => VError NOT_FOUND end.

(** PUT /api/passwords/[id] *)
Definition put_passwords (w0 : vault_world) (authed : option jsstr) (rlAllowed : bool) (id : jsstr)
    (body : option update_input) (now : Z) (hid : jsstr) : tx vault_response :=
  match authed with
  | None => refuse UNAUTHORIZED
  | Some userId =>
      if negb rlAllowed then refuse RATE_LIMIT_EXCEEDED
      else match user_tenant userId w0 with
      | Throw e => st_throw e
      | Ok ctx0 =>
          match check_update ctx0 userId id body w0 with
          | inl e => refuse e
          | inr (existing, b) =>
              answer updated catch_version
                (withUserTenantRls userId (fun ctx => put_tx ctx userId id b existing now hid))
          end
      end
  end.

(** PUT /api/v1/passwords/[id] *)
Definition put_v1_passwords (w0 : vault_world) (authed : option (jsstr * jsstr)) (denied : bool) (id : jsstr)
    (body : option update_input) (now : Z) (hid : jsstr) : tx vault_response :=
  match authed with
  | None => refuse UNAUTHORIZED
  | Some (userId, tenantId) =>
      if denied then refuse FORBIDDEN
      else match check_update tenantId userId id body w0 with
           | inl e => refuse e
           | inr (existing, b) =>
               answer updated catch_version
                 (withTenantRls tenantId (fun ctx => put_tx ctx userId id b existing now hid))
           end
  end.

(** ** Restoring a version *)

Definition restore_blob (h : history_row) (e : entry) : entry :=
  {| en_userId := en_userId e; en_tenantId := en_tenantId e; en_blob := hi_blob h;
     en_overview := en_overview e; en_keyVersion := hi_keyVersion h; en_aadVersion := hi_aadVersion h;
     en_meta := en_meta e |}.

Definition restore_tx (ctx userId id tenantId : jsstr) (h : history_row) (now : Z) (hid : jsstr)
    : tx (option unit) :=
  let! _ := assertCurrentKeyVersion ctx userId (hi_keyVersion h) in
  let! w := get in
  match find_entry ctx id w with
  | None => st_ret None
  | Some cur =>
      let! _ := snapshot_history ctx id tenantId cur now hid in
      let! _ := update_entry ctx userId id (restore_blob h) in
      st_ret (Some tt)
  end.

(** POST /api/passwords/[id]/history/[historyId]/restore *)
Definition post_history_restore (w0 : vault_world) (session : option jsstr) (id historyId : jsstr) (now : Z)
    (hid : jsstr) : tx vault_response :=
  match session with
  | None => refuse UNAUTHORIZED
  | Some userId =>
      match user_tenant userId w0 with
      | Throw e => st_throw e
      | Ok ctx0 =>
          match find_entry ctx0 id w0 with
          | None => refuse NOT_FOUND
          | Some e =>
              if negb (en_userId e =s userId) then refuse NOT_FOUND
              else match find_history ctx0 historyId w0 with
              | None => refuse HISTORY_NOT_FOUND
              | Some h =>
                  if negb (hi_entryId h =s id) then refuse HISTORY_NOT_FOUND
                  else answer updated catch_version
                         (withUserTenantRls userId (fun ctx => restore_tx ctx userId id (en_tenantId e) h now hid))
              end
          end
      end
  end.

(** ** Trash, archive, purge *)

Definition set_meta (m : entry_meta) (e : entry) : entry :=
  {| en_userId := en_userId e; en_tenantId := en_tenantId e; en_blob := en_blob e;
     en_overview := en_overview e; en_keyVersion := en_keyVersion e; en_aadVersion := en_aadVersion e;
     en_meta := m |}.
Definition set_deletedAt (d : option Z) (e : entry) : entry :=
  let m := en_meta e in
  set_meta {| em_entryType := em_entryType m; em_isFavorite := em_isFavorite m; em_isArchived := em_isArchived m;
              em_requireReprompt := em_requireReprompt m; em_expiresAt := em_expiresAt m; em_deletedAt := d;
              em_folderId := em_folderId m; em_tags := em_tags m |} e.
Definition set_archived (b : bool) (e : entry) : entry :=
  let m := en_meta e in
  set_meta {| em_entryType := em_entryType m; em_isFavorite := em_isFavorite m; em_isArchived := b;
              em_requireReprompt := em_requireReprompt m; em_expiresAt := em_expiresAt m;
              em_deletedAt := em_deletedAt m; em_folderId := em_folderId m; em_tags := em_tags m |} e.

(** Deleting entries cascades to their history and attachments. *)
Definition delete_entries (p : jsstr -> entry -> bool) (w : vault_world) : vault_world :=
  let gone (i : jsstr) := match vw_entries w !! i with Some e => p i e | None => false end in
  set_rows (filter (fun kr => p (fst kr) (snd kr) = false) (vw_entries w))
           (filter (fun kr => gone (hi_entryId (snd kr)) = false) (vw_history w))
           (filter (fun kr => match at_entryId (snd kr) with Some i => gone i | None => false end = false)
              (vw_attachments w)) w.

(** [updateMany] on the caller's entries among [ids] *)
Definition update_among (ctx userId : jsstr) (ids : list jsstr) (p : entry -> bool) (f : entry -> entry)
    (w : vault_world) : vault_world :=
  set_entries (map_imap (fun k e => Some (if entry_of ctx userId e && bool_decide (k ∈ ids) && p e then f e else e))
                 (vw_entries w)) w.

Inductive bulk_operation := BulkTrash | BulkRestore | BulkArchive | BulkUnarchive.

(** Which of the caller's entries the operation moves, and how. *)
Definition bulk_where (op : bulk_operation) (e : entry) : bool :=
  match op with
  | BulkTrash => negb (has (em_deletedAt (en_meta e)))
  | BulkRestore => has (em_deletedAt (en_meta e))
  | BulkArchive => negb (has (em_deletedAt (en_meta e))) && negb (em_isArchived (en_meta e))
  | BulkUnarchive => negb (has (em_deletedAt (en_meta e))) && em_isArchived (en_meta e)
  end.
Definition bulk_set (op : bulk_operation) (now : Z) (e : entry) : entry :=
  match op with
  | BulkTrash => set_deletedAt (Some now) e
  | BulkRestore => set_deletedAt None e
  | BulkArchive => set_archived true e
  | BulkUnarchive => set_archived false e
  end.

Definition MAX_BULK_IDS : nat := 100.
(** [bulkIdsSchema]: the ids without duplicates, one to a hundred of them. *)
Definition bulkIdsSchema (ids : list jsstr) : option (list jsstr) :=
  let u := remove_dups ids in
  if Nat.leb 1 (length u) && Nat.leb (length u) MAX_BULK_IDS then Some u else None.

(** The found ids of the transaction are the ones it then updates. *)
Definition found_ids (ctx userId : jsstr) (ids : list jsstr) (p : entry -> bool) (w : vault_world) : list jsstr :=
  map fst (List.filter (fun kr => entry_of ctx userId (snd kr) && bool_decide (fst kr ∈ ids) && p (snd kr))
             (map_to_list (vw_entries w))).

(** POST /api/passwords/bulk-trash, bulk-restore, bulk-archive *)
Definition post_bulk (op : bulk_operation) (session : option jsstr) (body : option (list jsstr)) (now : Z)
    : tx vault_response :=
  match session with
  | None => refuse UNAUTHORIZED
  | Some userId =>
      match body ≫= bulkIdsSchema with
      | None => refuse VALIDATION_ERROR
      | Some ids =>
          answer (fun _ => VOk) (fun _ => None)
            (withUserTenantRls userId (fun ctx =>
               let! w := get in
               let entryIds := found_ids ctx userId ids (bulk_where op) w in
               modify (update_among ctx userId entryIds (bulk_where op) (bulk_set op now))))
      end
  end.

Definition in_trash (e : entry) : bool := has (em_deletedAt (en_meta e)).

(** POST /api/passwords/bulk-purge, and empty-trash, which takes every id. *)
Definition purge_trash (userId : jsstr) (ids : option (list jsstr)) : tx vault_response :=
  answer (fun _ => VOk) (fun _ => None)
    (withUserTenantRls userId (fun ctx =>
       let! w := get in
       let all := match ids with Some l => l | None => map fst (map_to_list (vw_entries w)) end in
       let foundIds := found_ids ctx userId all in_trash w in
       modify (delete_entries (fun k e => entry_of ctx userId e && bool_decide (k ∈ foundIds) && in_trash e)))).

Definition post_bulk_purge (session : option jsstr) (stepUp : bool) (body : option (list jsstr))
    : tx vault_response :=
  match session with
  | None => refuse UNAUTHORIZED
  | Some userId =>
      if stepUp then refuse SESSION_STEP_UP_REQUIRED
      else match body ≫= bulkIdsSchema with
           | None => refuse VALIDATION_ERROR
           | Some ids => purge_trash userId (Some ids)
           end
  end.

Definition post_empty_trash (session : option jsstr) (stepUp : bool) : tx vault_response :=
  match session with
  | None => refuse UNAUTHORIZED
  | Some userId => if stepUp then refuse SESSION_STEP_UP_REQUIRED else purge_trash userId None
  end.

(** DELETE /api/passwords/[id]: a token cannot purge, a session must be recent. *)
Definition delete_passwords (w0 : vault_world) (authed : option (jsstr * bool)) (permanent stepUp : bool)
    (id : jsstr) (now : Z) : tx vault_response :=
  match authed with
  | None => refuse UNAUTHORIZED
  | Some (userId, isSession) =>
      if permanent && negb isSession then refuse FORBIDDEN
      else if permanent && stepUp then refuse SESSION_STEP_UP_REQUIRED
      else match user_tenant userId w0 with
      | Throw e => st_throw e
      | Ok ctx0 =>
          match find_entry ctx0 id w0 with
          | None => refuse NOT_FOUND
          | Some e =>
              if negb (en_userId e =s userId) then refuse NOT_FOUND
              else answer (fun _ => VOk) (fun _ => None)
                (withUserTenantRls userId (fun ctx =>
                   if permanent then
                     let! w := get in
                     let! _ := throw_if (negb (match find_entry ctx id w with
                                               | Some e => en_userId e =s userId | None => false end))
                                 RecordNotFound in
                     modify (delete_entries (fun k _ => k =s id))
                   else update_entry ctx userId id (set_deletedAt (Some now))))
          end
      end
  end.

(** DELETE /api/v1/passwords/[id]: only the trash. *)
Definition delete_v1_passwords (w0 : vault_world) (authed : option (jsstr * jsstr)) (denied permanent : bool)
    (id : jsstr) (now : Z) : tx vault_response :=
  match authed with
  | None => refuse UNAUTHORIZED
  | Some (userId, tenantId) =>
      if denied then refuse FORBIDDEN
      else if permanent then refuse FORBIDDEN
      else match find_entry tenantId id w0 with
           | None => refuse NOT_FOUND
           | Some e =>
               if negb (en_userId e =s userId) then refuse NOT_FOUND
               else answer (fun _ => VOk) (fun _ => None)
                      (withTenantRls tenantId (fun ctx => update_entry ctx userId id (set_deletedAt (Some now))))
           end
  end.

(** POST /api/passwords/[id]/restore *)
Definition post_restore (w0 : vault_world) (session : option jsstr) (id : jsstr) : tx vault_response :=
  match session with
  | None => refuse UNAUTHORIZED
  | Some userId =>
      match user_tenant userId w0 with
      | Throw e => st_throw e
      | Ok ctx0 =>
          match find_entry ctx0 id w0 with
          | None => refuse NOT_FOUND
          | Some e =>
              if negb (en_userId e =s userId) then refuse NOT_FOUND
              else if negb (in_trash e) then refuse NOT_IN_TRASH
              else answer (fun _ => VOk) (fun _ => None)
                     (withUserTenantRls userId (fun ctx => update_entry ctx userId id (set_deletedAt None)))
          end
      end
  end.

(** The deletion of POST /api/maintenance/purge-history. *)
Definition purge_history (tenantId : jsstr) (cutoff : Z) : tx unit :=
  modify (fun w => set_history
    (deleteMany (fun h => (hi_tenantId h =s tenantId) && (hi_changedAt h <? cutoff)) (vw_history w)) w).
