(* ===== verification/VaultRotation.v ===== *)
(** * The secret key of a vault: setup, rewrapping, rotation and reset

    src/src/lib/vault/rotate-key-server.ts, src/src/lib/vault/vault-reset.ts and
    the routes under src/src/app/api/vault that create, rewrap, rotate and destroy
    a vault's secret key, with the two attachment routes that write wrapped
    content keys.  The operations run on the tables of [Vault]; the grants they
    invalidate are those of [EmergencyAccess].

    SHA-256, the keyed verifier and the base64 decoder are arguments, as are the
    salts and identifiers the server draws; the client's ciphertexts are opaque.
    Rate limits, step-up and the revocation of sessions after the commit (modelled
    in [SessionCache]) enter by their verdicts. *)

From S2P Require Import Prelude JsString Table StatusMachine EmergencyAccess Vault.
From stdpp Require Import fin_maps.
Local Open Scope Z_scope.
Local Open Scope js_scope.

Definition VERIFIER_VERSION : Z := 1.
Definition CURRENT_CEK_WRAP_AAD_VERSION : Z := 1.
Definition PBKDF2_ITERATIONS : Z := 600000.
Definition MAX_ATTACHMENTS_PER_ENTRY : nat := 20.
Definition VAULT_ROTATE_ENTRIES_MAX : Z := 5000.
Definition VAULT_ROTATE_HISTORY_MAX : Z := 10000.
Definition VAULT_ROTATE_ATTACHMENT_CEK_MAX : Z := 5000.

(** ** Columns of the users row *)

Definition set_wrap (salt : option jsstr) (key : option EncryptedField) (hmac : option jsstr) (u : vault_user)
    : vault_user :=
  {| vu_tenantId := vu_tenantId u; vu_vaultSetupAt := vu_vaultSetupAt u; vu_accountSalt := salt;
     vu_secretKey := key; vu_serverHash := vu_serverHash u; vu_serverSalt := vu_serverSalt u;
     vu_keyVersion := vu_keyVersion u; vu_kdf := vu_kdf u; vu_verifierHmac := hmac;
     vu_verifierVersion := VERIFIER_VERSION; vu_ecdhPublicKey := vu_ecdhPublicKey u;
     vu_ecdhPrivateKey := vu_ecdhPrivateKey u; vu_recovery := vu_recovery u; vu_lockout := vu_lockout u |}.
Definition set_recovery (r : recovery) (u : vault_user) : vault_user :=
  {| vu_tenantId := vu_tenantId u; vu_vaultSetupAt := vu_vaultSetupAt u; vu_accountSalt := vu_accountSalt u;
     vu_secretKey := vu_secretKey u; vu_serverHash := vu_serverHash u; vu_serverSalt := vu_serverSalt u;
     vu_keyVersion := vu_keyVersion u; vu_kdf := vu_kdf u; vu_verifierHmac := vu_verifierHmac u;
     vu_verifierVersion := vu_verifierVersion u; vu_ecdhPublicKey := vu_ecdhPublicKey u;
     vu_ecdhPrivateKey := vu_ecdhPrivateKey u; vu_recovery := r; vu_lockout := vu_lockout u |}.
Definition clear_lockout (u : vault_user) : vault_user :=
  {| vu_tenantId := vu_tenantId u; vu_vaultSetupAt := vu_vaultSetupAt u; vu_accountSalt := vu_accountSalt u;
     vu_secretKey := vu_secretKey u; vu_serverHash := vu_serverHash u; vu_serverSalt := vu_serverSalt u;
     vu_keyVersion := vu_keyVersion u; vu_kdf := vu_kdf u; vu_verifierHmac := vu_verifierHmac u;
     vu_verifierVersion := vu_verifierVersion u; vu_ecdhPublicKey := vu_ecdhPublicKey u;
     vu_ecdhPrivateKey := vu_ecdhPrivateKey u; vu_recovery := vu_recovery u;
     vu_lockout := {| lc_attempts := 0; lc_last := None; lc_until := None |} |}.

(** [user.update({ where: { id } })] *)
Definition update_user (ctx : option jsstr) (userId : jsstr) (f : vault_user -> vault_user) : tx unit := fun w =>
  match vw_users w !! userId with
  | Some u => if match ctx with Some t => vu_tenantId u =s t | None => true end
              then (set_users (<[userId := f u]> (vw_users w)) w, Ok tt)
              else (w, Throw RecordNotFound)
  | None => (w, Throw RecordNotFound)
  end.

(** [vaultKey.create], unique by user and version *)
Definition create_vaultKey (ctx userId : jsstr) (version : Z) (k : vault_key) (conflict : vault_throw) : tx unit :=
  let! w := get in
  let! _ := throw_if (negb (vk_tenantId k =s ctx)) RlsRefused in
  let! _ := throw_if (has (vw_vaultKeys w !! (userId, version))) conflict in
  modify (fun w => set_vaultKeys (<[(userId, version) := k]> (vw_vaultKeys w)) w).

Section Keys.
Context (sha256_hex : jsstr -> jsstr)
        (** the keyed digest under the pepper of a version, if that pepper is configured *)
        (hmac : jsstr -> Z -> option jsstr)
        (base64_decode : jsstr -> jsstr).

(** [VERIFIER_HEX_RE] *)
Definition is_hex64 (s : jsstr) : bool :=
  Nat.eqb (length s) 64 && forallb (fun c => is_digit c || ((97 <=? c) && (c <=? 102))) s.

Definition hmacVerifier (verifierHash : jsstr) : tx jsstr :=
  let normalized := js_to_lower verifierHash in
  if negb (is_hex64 normalized) then st_throw VerifierFormat
  else match hmac normalized VERIFIER_VERSION with Some h => st_ret h | None => st_throw VerifierFormat end.

(** [verifyPassphraseVerifier(...).ok] *)
Definition verifyPassphraseVerifier (client stored : jsstr) (version : Z) : bool :=
  let normalized := js_to_lower client in
  let storedNormalized := js_to_lower stored in
  is_hex64 normalized && is_hex64 storedNormalized
  && match hmac normalized version with Some computed => computed =s storedNormalized | None => false end.

(** ** Setup *)

Record setup_body := {
  sb_secretKey : EncryptedField; sb_accountSalt : jsstr; sb_authHash : jsstr; sb_verifierHash : jsstr;
  sb_artifact : EncryptedField; sb_ecdhPublicKey : jsstr; sb_ecdhPrivateKey : EncryptedField;
  sb_kdf : option (Z * Z) }.

Definition setup_user (b : setup_body) (kdf : Z * Z) (serverHash serverSalt hmac : jsstr) (now : Z) (u : vault_user)
    : vault_user :=
  {| vu_tenantId := vu_tenantId u; vu_vaultSetupAt := Some now; vu_accountSalt := Some (sb_accountSalt b);
     vu_secretKey := Some (sb_secretKey b); vu_serverHash := Some serverHash;
     vu_serverSalt := Some serverSalt; vu_keyVersion := 1; vu_kdf := kdf; vu_verifierHmac := Some hmac;
     vu_verifierVersion := VERIFIER_VERSION; vu_ecdhPublicKey := Some (sb_ecdhPublicKey b);
     vu_ecdhPrivateKey := Some (sb_ecdhPrivateKey b); vu_recovery := vu_recovery u;
     vu_lockout := vu_lockout u |}.

(** POST /api/vault/setup *)
Definition post_setup (w0 : vault_world) (session : option jsstr) (blocked : bool) (body : option setup_body)
    (now : Z) (serverSalt : jsstr) : tx vault_response :=
  match session with
  | None => refuse UNAUTHORIZED
  | Some userId =>
      if blocked then refuse RATE_LIMIT_EXCEEDED
      else match user_tenant userId w0 with
      | Throw e => st_throw e
      | Ok ctx0 =>
          match find_user ctx0 userId w0 with
          | None => refuse UNAUTHORIZED
          | Some existing =>
              if has (vu_vaultSetupAt existing) then refuse VAULT_ALREADY_SETUP
              else match body with
              | None => refuse VALIDATION_ERROR
              | Some b =>
                  if match sb_kdf b with Some (kdfType, _) => negb (kdfType =? 0) | None => false end
                  then refuse VALIDATION_ERROR
                  else
                    let kdf := default (0, PBKDF2_ITERATIONS) (sb_kdf b) in
                    let serverHash := sha256_hex (sb_authHash b ++ serverSalt) in
                    answer (fun _ => VOk) (fun _ => None)
                      (withUserTenantRls userId (fun ctx =>
                         let! h := hmacVerifier (sb_verifierHash b) in
                         let! _ := update_user (Some ctx) userId (setup_user b kdf serverHash serverSalt h now) in
                         create_vaultKey ctx userId 1
                           {| vk_tenantId := vu_tenantId existing; vk_artifact := sb_artifact b |} UniqueViolation))
              end
          end
      end
  end.

(** ** Rewrapping: passphrase change and recovery *)

Record change_body := {
  cb_currentVerifierHash : jsstr; cb_secretKey : EncryptedField; cb_accountSalt : jsstr;
  cb_newVerifierHash : jsstr }.

(** The checks before a rewrap: the vault is set up, the verifier stored, the
    passphrase right. *)
Definition check_passphrase (w0 : vault_world) (userId client : jsstr)
    : outcome vault_throw (vault_error + vault_user) :=
  ctx0 ← user_tenant userId w0;
  match find_user ctx0 userId w0 with
  | None => Ok (inl VAULT_NOT_SETUP)
  | Some u =>
      if negb (has (vu_vaultSetupAt u)) then Ok (inl VAULT_NOT_SETUP)
      else match vu_verifierHmac u with
           | Some ((_ :: _) as stored) =>
               if verifyPassphraseVerifier client stored (vu_verifierVersion u) then Ok (inr u)
               else Ok (inl INVALID_PASSPHRASE)
           | _ => Ok (inl VERIFIER_NOT_SET)
           end
  end.

(** POST /api/vault/change-passphrase; the verdict of the session invalidation
    decides between the two answers after the commit. *)
Definition post_change_passphrase (w0 : vault_world) (session : option jsstr) (blocked : bool)
    (body : option change_body) (invalidated : bool) : tx vault_response :=
  match session with
  | None => refuse UNAUTHORIZED
  | Some userId =>
      if blocked then refuse RATE_LIMIT_EXCEEDED
      else match body with
      | None => refuse VALIDATION_ERROR
      | Some b =>
          match check_passphrase w0 userId (cb_currentVerifierHash b) with
          | Throw e => st_throw e
          | Ok (inl e) => refuse e
          | Ok (inr _) =>
              answer (fun _ => if invalidated then VOk else VError SESSION_INVALIDATE_FAILED) (fun _ => None)
                (withUserTenantRls userId (fun ctx =>
                   let! h := hmacVerifier (cb_newVerifierHash b) in
                   update_user (Some ctx) userId
                     (set_wrap (Some (cb_accountSalt b)) (Some (cb_secretKey b)) (Some h))))
          end
      end
  end.

Record generate_body := {
  gb_currentVerifierHash : jsstr; gb_secretKey : EncryptedField; gb_hkdfSalt : jsstr; gb_verifierHash : jsstr }.

(** POST /api/vault/recovery-key/generate *)
Definition post_recovery_generate (w0 : vault_world) (session : option jsstr) (blocked : bool)
    (body : option generate_body) (now : Z) : tx vault_response :=
  match session with
  | None => refuse UNAUTHORIZED
  | Some userId =>
      if blocked then refuse RATE_LIMIT_EXCEEDED
      else match body with
      | None => refuse VALIDATION_ERROR
      | Some b =>
          match check_passphrase w0 userId (gb_currentVerifierHash b) with
          | Throw e => st_throw e
          | Ok (inl e) => refuse e
          | Ok (inr _) =>
              answer (fun _ => VOk) (fun _ => None)
                (withUserTenantRls userId (fun ctx =>
                   let! h := hmacVerifier (gb_verifierHash b) in
                   update_user (Some ctx) userId
                     (set_recovery
                        {| rk_secretKey := Some (gb_secretKey b); rk_hkdfSalt := Some (gb_hkdfSalt b);
                           rk_verifierHmac := Some h; rk_verifierVersion := VERIFIER_VERSION;
                           rk_setAt := Some now; rk_invalidatedAt := None |})))
          end
      end
  end.

Record recover_body := {
  rb_verifierHash : jsstr; rb_secretKey : EncryptedField; rb_accountSalt : jsstr; rb_newVerifierHash : jsstr;
  rb_recoveryKey : EncryptedField; rb_recoveryHkdfSalt : jsstr; rb_recoveryVerifierHash : jsstr }.

(** The recovery key of the snapshot matches the client's. *)
Definition check_recovery (w0 : vault_world) (userId client : jsstr)
    : outcome vault_throw (vault_error + vault_user) :=
  ctx0 ← user_tenant userId w0;
  match find_user ctx0 userId w0 with
  | None => Ok (inl RECOVERY_KEY_NOT_SET)
  | Some u =>
      match rk_verifierHmac (vu_recovery u) with
      | Some ((_ :: _) as stored) =>
          if verifyPassphraseVerifier client stored (rk_verifierVersion (vu_recovery u)) then Ok (inr u)
          else Ok (inl INVALID_RECOVERY_KEY)
      | _ => Ok (inl RECOVERY_KEY_NOT_SET)
      end
  end.

(** The verify step hands out the wrapped key, the reset step rewraps it. *)
Definition handle_verify (w0 : vault_world) (userId client : jsstr)
    : outcome vault_throw (vault_error + (option EncryptedField * Z)) :=
  r ← check_recovery w0 userId client;
  match r with
  | inl e => Ok (inl e)
  | inr u => Ok (inr (rk_secretKey (vu_recovery u), vu_keyVersion u))
  end.

Definition recover_user (b : recover_body) (hmac rhmac : jsstr) (now : Z) (u : vault_user) : vault_user :=
  clear_lockout (set_recovery
    {| rk_secretKey := Some (rb_recoveryKey b); rk_hkdfSalt := Some (rb_recoveryHkdfSalt b);
       rk_verifierHmac := Some rhmac; rk_verifierVersion := VERIFIER_VERSION; rk_setAt := Some now;
       rk_invalidatedAt := rk_invalidatedAt (vu_recovery u) |}
    (set_wrap (Some (rb_accountSalt b)) (Some (rb_secretKey b)) (Some hmac) u)).

Definition handle_reset (w0 : vault_world) (userId : jsstr) (b : recover_body) (now : Z) (invalidated : bool)
    : tx vault_response :=
  match check_recovery w0 userId (rb_verifierHash b) with
  | Throw e => st_throw e
  | Ok (inl e) => refuse e
  | Ok (inr u) =>
      answer (fun _ => if invalidated then VOk else VError SESSION_INVALIDATE_FAILED) (fun _ => None)
        (withTenantRls (vu_tenantId u) (fun ctx =>
           let! h := hmacVerifier (rb_newVerifierHash b) in
           let! rh := hmacVerifier (rb_recoveryVerifierHash b) in
           let! _ := update_user (Some ctx) userId (recover_user b h rh now) in
           modify (logAuditInTx (RECOVERY_PASSPHRASE_RESET userId (vu_tenantId u) (vu_keyVersion u)))))
  end.

(** POST /api/vault/recovery-key/recover, its reset step *)
Definition post_recover_reset (w0 : vault_world) (session : option jsstr) (blocked : bool)
    (body : option recover_body) (now : Z) (invalidated : bool) : tx vault_response :=
  match session with
  | None => refuse UNAUTHORIZED
  | Some userId =>
      match body with
      | None => refuse VALIDATION_ERROR
      | Some b => if blocked then refuse RATE_LIMIT_EXCEEDED else handle_reset w0 userId b now invalidated
      end
  end.

(** ** Attachments *)

Definition set_cek (c : cek) (a : attachment) : attachment :=
  {| at_filename := at_filename a; at_contentType := at_contentType a; at_sizeBytes := at_sizeBytes a;
     at_data := at_data a; at_iv := at_iv a; at_authTag := at_authTag a; at_keyVersion := at_keyVersion a;
     at_aadVersion := at_aadVersion a; at_mode := at_mode a; at_cek := c; at_tenantId := at_tenantId a;
     at_entryId := at_entryId a; at_teamEntryId := at_teamEntryId a; at_createdById := at_createdById a |}.

Record upload_form := {
  uf_filename : jsstr; uf_contentType : jsstr; uf_sizeBytes : Z; uf_iv : jsstr; uf_authTag : jsstr;
  uf_aadVersion : Z; uf_cekEncrypted : jsstr; uf_cekIv : jsstr; uf_cekAuthTag : jsstr;
  uf_cekKeyVersion : Z; uf_cekWrapAadVersion : Z }.

(** The wrapped-key checks of the upload: a positive version, exactly the
    current wrap format. *)
Definition valid_cek (keyVersion wrapAadVersion : Z) : bool :=
  (1 <=? keyVersion) && (wrapAadVersion =? CURRENT_CEK_WRAP_AAD_VERSION).

(** The transaction of the upload, under the user's advisory lock. *)
Definition upload_tx (ctx userId entryId entryTenant : jsstr) (f : upload_form) (stored attachmentId : jsstr)
    : tx unit :=
  let! w := get in
  let! _ := throw_if (Nat.leb MAX_ATTACHMENTS_PER_ENTRY
              (size (select (fun a => (at_tenantId a =s ctx) && bool_decide (at_entryId a = Some entryId))
                       (vw_attachments w)))) AttachmentLimit in
  match find_user ctx userId w with
  | None => st_throw UserNotFound
  | Some currentUser =>
      let! _ := throw_if (negb (uf_cekKeyVersion f =? vu_keyVersion currentUser))
                  LegacyAttachmentInconsistentVersion in
      let! _ := throw_if (negb (entryTenant =s ctx)) RlsRefused in
      let! _ := throw_if (has (vw_attachments w !! attachmentId)) UniqueViolation in
      let! _ := throw_if (negb (has (vw_entries w !! entryId))) ForeignKeyRefused in
      modify (fun w => set_attachments
        (<[attachmentId :=
          {| at_filename := uf_filename f; at_contentType := uf_contentType f; at_sizeBytes := uf_sizeBytes f;
             at_data := stored; at_iv := uf_iv f; at_authTag := uf_authTag f; at_keyVersion := None;
             at_aadVersion := uf_aadVersion f; at_mode := 2;
             at_cek := {| ck_encrypted := Some (base64_decode (uf_cekEncrypted f)); ck_iv := Some (uf_cekIv f);
                          ck_authTag := Some (uf_cekAuthTag f); ck_keyVersion := Some (uf_cekKeyVersion f);
                          ck_wrapAadVersion := Some (uf_cekWrapAadVersion f) |};
             at_tenantId := entryTenant; at_entryId := Some entryId; at_teamEntryId := None;
             at_createdById := userId |}]> (vw_attachments w)) w)
  end.

Definition catch_upload (e : vault_throw) : option vault_error :=
  match e with
  | AttachmentLimit => Some ATTACHMENT_LIMIT_EXCEEDED
  | LegacyAttachmentInconsistentVersion => Some ATTACHMENT_INCONSISTENT_VERSION
  | UserNotFound => Some NOT_FOUND
  | _ => None
  end.

(** POST /api/passwords/[id]/attachments; the checks on the file itself enter by
    their verdict [formOk]. *)
Definition post_attachments (w0 : vault_world) (session : option jsstr) (id : jsstr) (rlAllowed formOk : bool)
    (f : upload_form) (stored attachmentId : jsstr) : tx vault_response :=
  match session with
  | None => refuse UNAUTHORIZED
  | Some userId =>
      match user_tenant userId w0 with
      | Throw e => st_throw e
      | Ok ctx0 =>
          match find_entry ctx0 id w0 with
          | None => refuse NOT_FOUND
          | Some e =>
              if negb (en_userId e =s userId) then refuse NOT_FOUND
              else if negb rlAllowed then refuse RATE_LIMIT_EXCEEDED
              else if negb formOk || negb (valid_cek (uf_cekKeyVersion f) (uf_cekWrapAadVersion f))
              then refuse VALIDATION_ERROR
              else answer (fun _ => VOk) catch_upload
                     (withUserTenantRls userId (fun ctx =>
                        upload_tx ctx userId id (en_tenantId e) f stored attachmentId))
          end
      end
  end.

(** DELETE /api/passwords/[id]/attachments/[attachmentId] *)
Definition delete_attachment (w0 : vault_world) (session : option jsstr) (id attachmentId : jsstr)
    : tx vault_response :=
  match session with
  | None => refuse UNAUTHORIZED
  | Some userId =>
      match user_tenant userId w0 with
      | Throw e => st_throw e
      | Ok ctx0 =>
          let mine (ctx : jsstr) (w : vault_world) :=
            match vw_attachments w !! attachmentId with
            | Some a => (at_tenantId a =s ctx) && bool_decide (at_entryId a = Some id) | None => false end in
          match find_entry ctx0 id w0 with
          | None => refuse NOT_FOUND
          | Some e =>
              if negb (en_userId e =s userId) then refuse NOT_FOUND
              else if negb (mine ctx0 w0) then refuse ATTACHMENT_NOT_FOUND
              else answer (fun _ => VOk) (fun _ => None)
                     (withUserTenantRls userId (fun ctx =>
                        let! w := get in
                        let! _ := throw_if (negb (mine ctx w)) RecordNotFound in
                        modify (fun w => set_attachments (delete attachmentId (vw_attachments w)) w)))
          end
      end
  end.

Record migrate_body := {
  mg_oldHash : jsstr; mg_data : jsstr; mg_iv : jsstr; mg_authTag : jsstr; mg_cekEncrypted : jsstr;
  mg_cekIv : jsstr; mg_cekAuthTag : jsstr; mg_cekKeyVersion : Z; mg_cekWrapAadVersion : Z }.

Definition migrate_row (p : migrate_body) (a : attachment) : attachment :=
  {| at_filename := at_filename a; at_contentType := at_contentType a; at_sizeBytes := at_sizeBytes a;
     at_data := base64_decode (mg_data p); at_iv := mg_iv p; at_authTag := mg_authTag p;
     at_keyVersion := at_keyVersion a; at_aadVersion := at_aadVersion a; at_mode := 2;
     at_cek := {| ck_encrypted := Some (base64_decode (mg_cekEncrypted p)); ck_iv := Some (mg_cekIv p);
                  ck_authTag := Some (mg_cekAuthTag p); ck_keyVersion := Some (mg_cekKeyVersion p);
                  ck_wrapAadVersion := Some (mg_cekWrapAadVersion p) |};
     at_tenantId := at_tenantId a; at_entryId := at_entryId a; at_teamEntryId := at_teamEntryId a;
     at_createdById := at_createdById a |}.

(** [passwordEntry: { userId, tenantId }] *)
Definition attachment_in (ctx userId tenantId : jsstr) (w : vault_world) (a : attachment) : bool :=
  attachment_of ctx userId w a && (ctx =s tenantId).

Definition applyAttachmentMigration (ctx userId tenantId attachmentId : jsstr) (p : migrate_body) : tx unit :=
  let! w := get in
  match vw_attachments w !! attachmentId with
  | None => st_throw MigrationNotFound
  | Some row =>
      if negb (attachment_in ctx userId tenantId w row && negb (has (at_teamEntryId row)))
      then st_throw MigrationNotFound
      else
        let! _ := throw_if (negb (at_mode row =? 0)) LegacyMigrationNotApplicable in
        let! _ := throw_if (negb (sha256_hex (at_data row) =s mg_oldHash p)) LegacyBodyHashMismatch in
        modify (fun w => set_attachments (<[attachmentId := migrate_row p row]> (vw_attachments w)) w)
  end.

Definition catch_migrate (e : vault_throw) : option vault_error :=
  match e with
  | LegacyAttachmentInconsistentVersion => Some ATTACHMENT_INCONSISTENT_VERSION
  | LegacyMigrationNotApplicable => Some LEGACY_MIGRATION_NOT_APPLICABLE
  | LegacyBodyHashMismatch => Some LEGACY_INTEGRITY_MISMATCH
  | MigrationNotFound | UserNotFound => Some NOT_FOUND
  | _ => None
  end.

(** PUT /api/passwords/[id]/attachments/[attachmentId]/migrate *)
Definition put_migrate (session : option jsstr) (rlAllowed formOk : bool) (attachmentId : jsstr)
    (p : migrate_body) : tx vault_response :=
  match session with
  | None => refuse UNAUTHORIZED
  | Some userId =>
      if negb rlAllowed then refuse RATE_LIMIT_EXCEEDED
      else if negb formOk || negb (valid_cek (mg_cekKeyVersion p) (mg_cekWrapAadVersion p))
      then refuse VALIDATION_ERROR
      else answer (fun _ => VOk) catch_migrate
        (withUserTenantRls userId (fun ctx =>
           let! w := get in
           match find_user ctx userId w with
           | None => st_throw UserNotFound
           | Some u =>
               if vu_tenantId u =s [] then st_throw UserNotFound
               else
                 let! _ := throw_if (negb (mg_cekKeyVersion p =? vu_keyVersion u))
                             LegacyAttachmentInconsistentVersion in
                 applyAttachmentMigration ctx userId (vu_tenantId u) attachmentId p
           end))
  end.

(** ** Rotation *)

Record entry_rewrite := {
  er_id : jsstr; er_blob : EncryptedField; er_overview : EncryptedField; er_aadVersion : Z }.
Record history_rewrite := { hr_id : jsstr; hr_blob : EncryptedField; hr_aadVersion : Z }.
Record AttachmentCekRewrap := {
  cr_id : jsstr; cr_cekEncrypted : jsstr; cr_cekIv : jsstr; cr_cekAuthTag : jsstr;
  cr_cekKeyVersion : Z; cr_cekWrapAadVersion : Z }.

Record RotationPayload := {
  rp_currentAuthHash : jsstr; rp_secretKey : EncryptedField; rp_accountSalt : jsstr; rp_newAuthHash : jsstr;
  rp_newVerifierHash : option jsstr; rp_artifact : EncryptedField; rp_entries : list entry_rewrite;
  rp_history : list history_rewrite; rp_ecdhPrivateKey : EncryptedField;
  rp_cekRewraps : list AttachmentCekRewrap; rp_legacyMigrated : option Z }.

(** The array bounds and minima of the schema. *)
Definition rotateKeySchema (p : RotationPayload) : bool :=
  (Z.of_nat (length (rp_entries p)) <=? VAULT_ROTATE_ENTRIES_MAX)
  && (Z.of_nat (length (rp_history p)) <=? VAULT_ROTATE_HISTORY_MAX)
  && (Z.of_nat (length (rp_cekRewraps p)) <=? VAULT_ROTATE_ATTACHMENT_CEK_MAX)
  && forallb (fun e => 1 <=? er_aadVersion e) (rp_entries p)
  && forallb (fun h => 1 <=? hr_aadVersion h) (rp_history p)
  && forallb (fun c => (1 <=? cr_cekKeyVersion c) && (1 <=? cr_cekWrapAadVersion c)) (rp_cekRewraps p).

Record RotationEffects := {
  re_recoveryKeyInvalidated : bool; re_emergencyGrantsCleared : nat; re_prfCredentialsCleared : nat;
  re_cekRewraps : nat; re_legacyMigrated : Z }.

(** The compare-and-swap on the users row. *)
Definition rotation_cas (ctx userId : jsstr) (oldKeyVersion : Z) (oldVaultSetupAt : option Z) (oldAccountSalt : jsstr)
    : tx unit :=
  let! w := get in
  match find_user ctx userId w with
  | None => st_throw RotationCasConflict
  | Some casRow =>
      throw_if (negb (has (vu_vaultSetupAt casRow))
                || negb (vu_keyVersion casRow =? oldKeyVersion)
                || negb (bool_decide (vu_vaultSetupAt casRow = oldVaultSetupAt))
                || negb (bool_decide (vu_accountSalt casRow = Some oldAccountSalt))) RotationCasConflict
  end.

(** The user's attachments of a mode. *)
Definition mode_of (ctx userId : jsstr) (w : vault_world) (mode : Z) (a : attachment) : bool :=
  attachment_of ctx userId w a && (at_mode a =? mode).
Definition cek_incomplete (c : cek) : bool :=
  negb (has (ck_encrypted c)) || negb (has (ck_iv c)) || negb (has (ck_authTag c))
  || negb (has (ck_keyVersion c)) || negb (has (ck_wrapAadVersion c)).
Definition any_row {A} (p : A -> bool) (t : gmap jsstr A) : bool := existsb (fun kr => p (snd kr)) (map_to_list t).

(** The guards on attachments: no legacy row, complete wrapped keys, a manifest
    of the user's own rows at the old version. *)
Definition attachment_guards (ctx userId : jsstr) (oldKeyVersion : Z) (rewraps : list AttachmentCekRewrap)
    : tx unit :=
  let! w := get in
  let! _ := throw_if (any_row (mode_of ctx userId w 0) (vw_attachments w)) LegacyAttachmentsResidual in
  let! _ := throw_if (any_row (fun a => mode_of ctx userId w 2 a && cek_incomplete (at_cek a)) (vw_attachments w))
              Mode2InvariantViolation in
  let mode2 (id : jsstr) :=
    a ← vw_attachments w !! id; if mode_of ctx userId w 2 a then Some a else None in
  let! _ := st_for (fun r => throw_if (negb (has (mode2 (cr_id r)))) AttachmentCekManifestMismatch) rewraps in
  st_for (fun r => throw_if (negb (bool_decide ((ck_keyVersion ∘ at_cek) <$> mode2 (cr_id r) = Some (Some oldKeyVersion))))
                     LegacyAttachmentInconsistentVersion) rewraps.

(** The submitted ids are exactly the stored ones, each once. *)
Definition exact_ids (submitted : list jsstr) (stored : gset jsstr) (e : vault_throw) : tx unit :=
  let! _ := throw_if (negb (Nat.eqb (length submitted) (size stored))) e in
  let submittedSet : gset jsstr := list_to_set submitted in
  let! _ := throw_if (negb (Nat.eqb (size submittedSet) (length submitted))
                      || negb (Nat.eqb (size submittedSet) (size stored))) e in
  st_for (fun i => throw_if (negb (bool_decide (i ∈ stored))) e) (elements submittedSet).

Definition entry_ids (ctx userId : jsstr) (w : vault_world) : gset jsstr :=
  dom (select (entry_of ctx userId) (vw_entries w)).
Definition history_ids (ctx userId : jsstr) (w : vault_world) : gset jsstr :=
  dom (select (history_of ctx userId w) (vw_history w)).

Definition rewrite_row (newKeyVersion : Z) (r : entry_rewrite) (e : entry) : entry :=
  {| en_userId := en_userId e; en_tenantId := en_tenantId e; en_blob := er_blob r; en_overview := er_overview r;
     en_keyVersion := newKeyVersion; en_aadVersion := er_aadVersion r; en_meta := en_meta e |}.
Definition rewrite_history (newKeyVersion : Z) (r : history_rewrite) (h : history_row) : history_row :=
  {| hi_entryId := hi_entryId h; hi_tenantId := hi_tenantId h; hi_blob := hr_blob r;
     hi_keyVersion := newKeyVersion; hi_aadVersion := hr_aadVersion r; hi_changedAt := hi_changedAt h |}.

(** [updateMany] by primary key and owner, required to match one row. *)
Definition reencrypt_entry (ctx userId : jsstr) (newKeyVersion : Z) (r : entry_rewrite) : tx unit := fun w =>
  match vw_entries w !! er_id r with
  | Some e => if entry_of ctx userId e
              then (set_entries (<[er_id r := rewrite_row newKeyVersion r e]> (vw_entries w)) w, Ok tt)
              else (w, Throw EntryCountMismatch)
  | None => (w, Throw EntryCountMismatch)
  end.
Definition reencrypt_history (ctx userId : jsstr) (newKeyVersion : Z) (r : history_rewrite) : tx unit := fun w =>
  match vw_history w !! hr_id r with
  | Some h => if history_of ctx userId w h
              then (set_history (<[hr_id r := rewrite_history newKeyVersion r h]> (vw_history w)) w, Ok tt)
              else (w, Throw HistoryCountMismatch)
  | None => (w, Throw HistoryCountMismatch)
  end.
Definition rewrapped_cek (newKeyVersion : Z) (r : AttachmentCekRewrap) : cek :=
  {| ck_encrypted := Some (base64_decode (cr_cekEncrypted r)); ck_iv := Some (cr_cekIv r);
     ck_authTag := Some (cr_cekAuthTag r); ck_keyVersion := Some newKeyVersion;
     ck_wrapAadVersion := Some (cr_cekWrapAadVersion r) |}.
Definition rewrap_cek (ctx userId tenantId : jsstr) (newKeyVersion : Z) (r : AttachmentCekRewrap) : tx unit := fun w =>
  if negb (cr_cekWrapAadVersion r =? CURRENT_CEK_WRAP_AAD_VERSION)
  then (w, Throw AttachmentCekWrapAadVersionMismatch)
  else match vw_attachments w !! cr_id r with
  | Some a =>
      if attachment_in ctx userId tenantId w a && (at_mode a =? 2)
      then (set_attachments (<[cr_id r := set_cek (rewrapped_cek newKeyVersion r) a]> (vw_attachments w)) w, Ok tt)
      else (w, Throw AttachmentCekManifestMismatch)
  | None => (w, Throw AttachmentCekManifestMismatch)
  end.

(** The users row after the rotation; the recovery wrapping is cleared. *)
Definition rotated_user (p : RotationPayload) (newKeyVersion : Z) (newServerHash newServerSalt : jsstr)
    (verifier : option jsstr) (now : Z) (u : vault_user) : vault_user :=
  {| vu_tenantId := vu_tenantId u; vu_vaultSetupAt := vu_vaultSetupAt u;
     vu_accountSalt := Some (rp_accountSalt p); vu_secretKey := Some (rp_secretKey p);
     vu_serverHash := Some newServerHash; vu_serverSalt := Some newServerSalt;
     vu_keyVersion := newKeyVersion; vu_kdf := vu_kdf u;
     vu_verifierHmac := match verifier with Some h => Some h | None => vu_verifierHmac u end;
     vu_verifierVersion := match verifier with Some _ => VERIFIER_VERSION | None => vu_verifierVersion u end;
     vu_ecdhPublicKey := vu_ecdhPublicKey u; vu_ecdhPrivateKey := Some (rp_ecdhPrivateKey p);
     vu_recovery := {| rk_secretKey := None; rk_hkdfSalt := None; rk_verifierHmac := None;
                       rk_verifierVersion := 1; rk_setAt := None; rk_invalidatedAt := Some now |};
     vu_lockout := vu_lockout u |}.

Definition clear_prf (c : credential) : credential :=
  {| cr_userId := cr_userId c; cr_tenantId := cr_tenantId c; cr_prf := None |}.
Definition has_prf_of (ctx userId : jsstr) (c : credential) : bool :=
  (cr_tenantId c =s ctx) && (cr_userId c =s userId) && has (cr_prf c).

Definition stale_grants (ctx userId : jsstr) (newKeyVersion : Z) : tx nat := fun w =>
  match markGrantsStaleForOwner (RlsTenant ctx) userId newKeyVersion (vw_grants w) with
  | (t, Ok n) => (set_wrappings (vw_credentials w) t w, Ok n)
  | (_, Throw e) => (w, Throw (GrantTransition e))
  end.

(** The writes of the rotation, in the order of the source. *)
Definition rotation_writes (ctx userId tenantId : jsstr) (newKeyVersion : Z) (newServerHash newServerSalt : jsstr)
    (p : RotationPayload) (now : Z) : tx RotationEffects :=
  let! _ := st_for (reencrypt_entry ctx userId newKeyVersion) (rp_entries p) in
  let! _ := st_for (reencrypt_history ctx userId newKeyVersion) (rp_history p) in
  let! _ := st_for (rewrap_cek ctx userId tenantId newKeyVersion) (rp_cekRewraps p) in
  let! w := get in
  let recoveryWasSet := match find_user ctx userId w with
                        | Some u => has (rk_secretKey (vu_recovery u)) | None => false end in
  let! verifier := match rp_newVerifierHash p with
                   | Some v => let! h := hmacVerifier v in st_ret (Some h) | None => st_ret None end in
  let! _ := update_user (Some ctx) userId (rotated_user p newKeyVersion newServerHash newServerSalt verifier now) in
  let! _ := create_vaultKey ctx userId newKeyVersion
              {| vk_tenantId := tenantId; vk_artifact := rp_artifact p |} RotationCasConflict in
  let! w := get in
  let '(creds, prfCleared) := updateMany (has_prf_of ctx userId) clear_prf (vw_credentials w) in
  let! _ := modify (fun w => set_wrappings creds (vw_grants w) w) in
  let! staled := stale_grants ctx userId newKeyVersion in
  let! w := get in
  let! _ := throw_if (any_row (fun a => mode_of ctx userId w 2 a
                                        && bool_decide (is_Some (ck_keyVersion (at_cek a)))
                                        && negb (bool_decide (ck_keyVersion (at_cek a) = Some newKeyVersion)))
                        (vw_attachments w)) RotationPostCondition in
  st_ret {| re_recoveryKeyInvalidated := recoveryWasSet; re_emergencyGrantsCleared := staled;
            re_prfCredentialsCleared := prfCleared; re_cekRewraps := length (rp_cekRewraps p);
            re_legacyMigrated := default 0 (rp_legacyMigrated p) |}.

Definition applyVaultRotation (ctx userId tenantId : jsstr) (oldKeyVersion newKeyVersion : Z)
    (newServerHash newServerSalt : jsstr) (p : RotationPayload) (oldVaultSetupAt : option Z)
    (oldAccountSalt : jsstr) (now : Z) : tx RotationEffects :=
  let! _ := rotation_cas ctx userId oldKeyVersion oldVaultSetupAt oldAccountSalt in
  let! _ := attachment_guards ctx userId oldKeyVersion (rp_cekRewraps p) in
  let! w := get in
  let! _ := exact_ids (map er_id (rp_entries p)) (entry_ids ctx userId w) EntryCountMismatch in
  let! _ := exact_ids (map hr_id (rp_history p)) (history_ids ctx userId w) HistoryCountMismatch in
  rotation_writes ctx userId tenantId newKeyVersion newServerHash newServerSalt p now.

Definition catch_rotation (e : vault_throw) : option vault_error :=
  match e with
  | LegacyAttachmentsResidual => Some ATTACHMENT_MIGRATION_INCOMPLETE
  | AttachmentCekManifestMismatch => Some ATTACHMENT_KEY_MANIFEST_MISMATCH
  | LegacyAttachmentInconsistentVersion | AttachmentCekWrapAadVersionMismatch => Some ATTACHMENT_INCONSISTENT_VERSION
  | Mode2InvariantViolation | RotationPostCondition => Some INTERNAL_ERROR
  | RotationCasConflict => Some KEY_VERSION_MISMATCH
  | EntryCountMismatch | HistoryCountMismatch => Some ENTRY_COUNT_MISMATCH
  | _ => None
  end.

(** What the rotation reads before its transaction. *)
Record rotation_snapshot := {
  rs_tenantId : jsstr; rs_vaultSetupAt : Z; rs_accountSalt : jsstr; rs_keyVersion : Z }.

Definition rotation_read (w0 : vault_world) (userId currentAuthHash : jsstr)
    : outcome vault_throw (vault_error + rotation_snapshot) :=
  ctx0 ← user_tenant userId w0;
  match find_user ctx0 userId w0 with
  | None => Ok (inl VAULT_NOT_SETUP)
  | Some u =>
      match vu_vaultSetupAt u, nonempty (vu_serverHash u), nonempty (vu_serverSalt u), nonempty (vu_accountSalt u) with
      | Some at_, Some hash, Some salt, Some accountSalt =>
          if negb (sha256_hex (currentAuthHash ++ salt) =s hash) then Ok (inl INVALID_PASSPHRASE)
          else Ok (inr {| rs_tenantId := vu_tenantId u; rs_vaultSetupAt := at_; rs_accountSalt := accountSalt;
                          rs_keyVersion := vu_keyVersion u |})
      | _, _, _, _ => Ok (inl VAULT_NOT_SETUP)
      end
  end.

(** POST /api/vault/rotate-key *)
Definition post_rotate_key (w0 : vault_world) (session : option jsstr) (blocked : bool)
    (body : option RotationPayload) (newServerSalt : jsstr) (now : Z) : tx vault_response :=
  match session with
  | None => refuse UNAUTHORIZED
  | Some userId =>
      if blocked then refuse RATE_LIMIT_EXCEEDED
      else match body with
      | None => refuse VALIDATION_ERROR
      | Some p =>
          if negb (rotateKeySchema p) then refuse VALIDATION_ERROR
          else match rotation_read w0 userId (rp_currentAuthHash p) with
          | Throw e => st_throw e
          | Ok (inl e) => refuse e
          | Ok (inr s) =>
              answer (fun _ => VOk) catch_rotation
                (withUserTenantRls userId (fun ctx =>
                   applyVaultRotation ctx userId (rs_tenantId s) (rs_keyVersion s) (rs_keyVersion s + 1)
                     (sha256_hex (rp_newAuthHash p ++ newServerSalt)) newServerSalt p
                     (Some (rs_vaultSetupAt s)) (rs_accountSalt s) now))
          end
      end
  end.

(** GET /api/vault/rotate-key/data: the rows the client re-encrypts. *)
Definition rotate_key_data (ctx userId : jsstr) (w : vault_world) : gmap jsstr entry * gmap jsstr history_row :=
  (select (entry_of ctx userId) (vw_entries w), select (history_of ctx userId w) (vw_history w)).

(** ** Reset *)

Definition wiped_user (u : vault_user) : vault_user :=
  {| vu_tenantId := vu_tenantId u; vu_vaultSetupAt := None; vu_accountSalt := None; vu_secretKey := None;
     vu_serverHash := None; vu_serverSalt := None; vu_keyVersion := 0; vu_kdf := vu_kdf u;
     vu_verifierHmac := None; vu_verifierVersion := VERIFIER_VERSION; vu_ecdhPublicKey := None;
     vu_ecdhPrivateKey := None;
     vu_recovery := {| rk_secretKey := None; rk_hkdfSalt := None; rk_verifierHmac := None;
                       rk_verifierVersion := VERIFIER_VERSION; rk_setAt := None;
                       rk_invalidatedAt := rk_invalidatedAt (vu_recovery u) |};
     vu_lockout := {| lc_attempts := 0; lc_last := None; lc_until := None |} |}.

Definition revoke_grants (target : jsstr) (now : Z) : tx unit := fun w =>
  match revokeGrantsOnVaultReset RlsBypass target now (vw_grants w) with
  | (t, Ok _) => (set_wrappings (vw_credentials w) t w, Ok tt)
  | (_, Throw e) => (w, Throw (GrantTransition e))
  end.

(** The counts of the audit row, read before the transaction. *)
Definition reset_counts (w0 : vault_world) (target : jsstr) : nat * nat :=
  (size (select (fun e => en_userId e =s target) (vw_entries w0)),
   size (select (fun a => at_createdById a =s target) (vw_attachments w0))).

(** [executeVaultReset]: the transaction of the wipe, outside row-level security. *)
Definition executeVaultReset (w0 : vault_world) (target : jsstr)
    (atomicAudit : option (nat -> nat -> vault_audit)) (now : Z) : tx (nat * nat) :=
  let counts := reset_counts w0 target in
  transaction (
    let! _ := modify (fun w => set_attachments (deleteMany (fun a => at_createdById a =s target) (vw_attachments w)) w) in
    let! _ := modify (fun w => set_side (deleteMany (fun s => ow_userId s =s target) (vw_shares w))
                                 (vw_folders w) (vw_tags w) (vw_teamKeys w) (vw_teamMembers w) w) in
    let! _ := modify (delete_entries (fun _ e => en_userId e =s target)) in
    let! _ := modify (fun w => set_vaultKeys (filter (fun kr => fst (fst kr) <> target) (vw_vaultKeys w)) w) in
    let! _ := modify (fun w => set_side (vw_shares w)
                                 (deleteMany (fun f => ow_userId f =s target) (vw_folders w))
                                 (deleteMany (fun t => ow_userId t =s target) (vw_tags w))
                                 (vw_teamKeys w) (vw_teamMembers w) w) in
    let! _ := revoke_grants target now in
    let! _ := modify (fun w => set_side (vw_shares w) (vw_folders w) (vw_tags w)
                                 (deleteMany (fun k => ow_userId k =s target) (vw_teamKeys w))
                                 (fst (updateMany (fun m => tm_userId m =s target)
                                         (fun m => {| tm_userId := tm_userId m; tm_tenantId := tm_tenantId m;
                                                      tm_keyDistributed := false |}) (vw_teamMembers w))) w) in
    let! _ := update_user None target wiped_user in
    let! _ := match atomicAudit with
              | Some audit => modify (logAuditInTx (audit (fst counts) (snd counts)))
              | None => st_ret tt
              end in
    st_ret counts).

(** POST /api/vault/reset; a failed invalidation of the sessions throws after
    the commit. *)
Definition post_vault_reset (w0 : vault_world) (session : option jsstr) (blocked stepUp : bool)
    (body : option jsstr) (invalidated : bool) (now : Z) : tx vault_response :=
  match session with
  | None => refuse UNAUTHORIZED
  | Some userId =>
      if blocked then refuse RATE_LIMIT_EXCEEDED
      else if stepUp then refuse SESSION_STEP_UP_REQUIRED
      else match body with
      | None => refuse VALIDATION_ERROR
      | Some confirmation =>
          if negb (confirmation =s js "DELETE MY VAULT") then refuse VAULT_RESET_CONFIRMATION_MISMATCH
          else match resolveUserTenantId userId w0 with
          | Throw e => st_throw e
          | Ok (Some ((_ :: _) as tenantId)) =>
              let! _ := executeVaultReset w0 userId (Some (VAULT_RESET_EXECUTED userId tenantId)) now in
              if invalidated then st_ret VOk else st_throw InvalidationFailed
          | Ok _ => refuse INTERNAL_ERROR
          end
      end
  end.

End Keys.
