(* ===== verification/VaultSafety.v ===== *)
(** * One key version per vault

    The invariant of a personal vault: every entry, every history row and every
    wrapped attachment key of a user carries the version of the user's secret key,
    in the user's tenant, and each version has its verification artifact.  Every
    route of [Vault] and [VaultRotation] keeps it, whatever the other requests did
    between the reads it starts with and its transaction. *)

From S2P Require Import Prelude JsString Table StatusMachine EmergencyAccess Vault VaultRotation.
From stdpp Require Import fin_maps sorting.
Local Open Scope Z_scope.
Local Open Scope js_scope.

(** ** Reading a transaction backwards *)

Lemma get_Ok w w' x : get w = (w', Ok x) -> w' = w /\ x = w.
Proof. unfold get. intros [= <- <-]. done. Qed.
Lemma throw_if_Ok b e w w' x : throw_if b e w = (w', Ok x) -> b = false /\ w' = w.
Proof. destruct b; cbv; [done|]. by intros [= <- <-]. Qed.
Lemma modify_Ok f w w' x : modify f w = (w', Ok x) -> w' = f w.
Proof. unfold modify. by intros [= <- <-]. Qed.
Lemma st_ret_Ok {A} (a x : A) (w w' : vault_world) : (st_ret a : tx A) w = (w', Ok x) -> w' = w /\ x = a.
Proof. unfold st_ret. by intros [= <- <-]. Qed.
Lemma vault_transaction_Ok {A} (m : tx A) w w' a : transaction m w = (w', Ok a) <-> m w = (w', Ok a).
Proof. unfold transaction. destruct (m w) as [? [?|?]]; split; congruence. Qed.

(** Decompose [H : m w = (w', Ok a)] for [m] built from the primitives above. *)
Ltac tx_inv H :=
  lazymatch type of H with
  | st_bind _ _ _ = (_, Ok _) =>
      let s := fresh "s" in let a := fresh "a" in let H1 := fresh H in let H2 := fresh H in
      apply st_bind_Ok_inv in H; destruct H as (s & a & H1 & H2); tx_inv H1; tx_inv H2
  | get _ = _ => apply get_Ok in H; destruct H as [-> ->]
  | throw_if _ _ _ = _ =>
      let E := fresh "E" in apply throw_if_Ok in H; destruct H as [E ->]; bools
  | modify _ _ = _ => apply modify_Ok in H
  | st_ret _ _ = _ => apply st_ret_Ok in H; destruct H as [? ?]
  | st_throw _ _ = _ => discriminate H
  | transaction _ _ = _ => apply vault_transaction_Ok in H; tx_inv H
  | _ => idtac
  end.

(** ** The invariant *)

Definition same_key (u u' : vault_user) : Prop :=
  vu_tenantId u' = vu_tenantId u /\ vu_keyVersion u' = vu_keyVersion u /\ vu_vaultSetupAt u' = vu_vaultSetupAt u.

Definition cek_at (v : Z) (c : cek) : Prop :=
  cek_incomplete c = false /\ ck_keyVersion c = Some v.

Record coherent (w : vault_world) : Prop := {
  co_user : forall u U, vw_users w !! u = Some U ->
    0 <= vu_keyVersion U /\ (vu_vaultSetupAt U = None <-> vu_keyVersion U = 0);
  co_entry : forall i e, vw_entries w !! i = Some e ->
    exists U, vw_users w !! en_userId e = Some U /\ en_tenantId e = vu_tenantId U
      /\ en_keyVersion e = vu_keyVersion U /\ 1 <= vu_keyVersion U;
  co_history : forall k h, vw_history w !! k = Some h ->
    exists e, vw_entries w !! hi_entryId h = Some e /\ hi_tenantId h = en_tenantId e
      /\ hi_keyVersion h = en_keyVersion e;
  co_attachment : forall k a i, vw_attachments w !! k = Some a -> at_entryId a = Some i ->
    exists e, vw_entries w !! i = Some e /\ at_tenantId a = en_tenantId e
      /\ (at_mode a = 2 -> cek_at (en_keyVersion e) (at_cek a));
  co_key : forall u v k, vw_vaultKeys w !! (u, v) = Some k ->
    exists U, vw_users w !! u = Some U /\ 1 <= v <= vu_keyVersion U;
  co_artifact : forall u U v, vw_users w !! u = Some U -> 1 <= v <= vu_keyVersion U ->
    is_Some (vw_vaultKeys w !! (u, v)) }.

(** The tables the invariant reads. *)
Definition same_rows (w w' : vault_world) : Prop :=
  vw_entries w' = vw_entries w /\ vw_history w' = vw_history w /\ vw_attachments w' = vw_attachments w
  /\ vw_vaultKeys w' = vw_vaultKeys w.

Lemma coherent_frame w w' : same_rows w w' -> vw_users w' = vw_users w -> coherent w -> coherent w'.
Proof.
  intros (He & Hh & Ha & Hk) Hu [C1 C2 C3 C4 C5 C6].
  split; rewrite ?He, ?Hh, ?Ha, ?Hk, ?Hu; assumption.
Qed.

(** A write of the users row that leaves tenant, version and setup alone. *)
Lemma coherent_user w u U U' :
  coherent w -> vw_users w !! u = Some U -> same_key U U' -> coherent (set_users (<[u := U']> (vw_users w)) w).
Proof.
  intros [C1 C2 C3 C4 C5 C6] HU (Et & Ev & Es).
  assert (Hl : forall v V, vw_users w !! v = Some V ->
            exists V', <[u := U']> (vw_users w) !! v = Some V' /\ same_key V V').
  { intros v V HV. destruct (decide (u = v)) as [<-|Hne].
    - exists U'. rewrite lookup_insert_eq. split; [done|]. assert (V = U) as -> by congruence. done.
    - exists V. rewrite lookup_insert_ne by done. done. }
  assert (Hb : forall v V', <[u := U']> (vw_users w) !! v = Some V' ->
            exists V, vw_users w !! v = Some V /\ same_key V V').
  { intros v V' HV. destruct (decide (u = v)) as [<-|Hne].
    - rewrite lookup_insert_eq in HV. simplify_eq. exists U. done.
    - rewrite lookup_insert_ne in HV by done. exists V'. done. }
  split; cbn.
  - intros v V' HV. destruct (Hb _ _ HV) as (V & HV0 & ? & -> & ->). eauto.
  - intros i e Hi. destruct (C2 i e Hi) as (V & HV & ? & ? & ?).
    destruct (Hl _ _ HV) as (V' & HV' & Ea & Eb & _). exists V'. rewrite Ea, Eb. done.
  - done.
  - done.
  - intros v n k Hk. destruct (C5 _ _ _ Hk) as (V & HV & ?).
    destruct (Hl _ _ HV) as (V' & HV' & _ & Eb & _). exists V'. rewrite Eb. done.
  - intros v V' n HV Hn. destruct (Hb _ _ HV) as (V & HV0 & _ & Eb & _). rewrite Eb in Hn. eauto.
Qed.

(** What an entry row owes the invariant. *)
Definition same_entry_key (e e' : entry) : Prop :=
  en_userId e' = en_userId e /\ en_tenantId e' = en_tenantId e /\ en_keyVersion e' = en_keyVersion e.

(** Entries rewritten in place, keeping owner, tenant and version. *)
Lemma coherent_entries w t :
  coherent w ->
  (forall i e', t !! i = Some e' -> exists e, vw_entries w !! i = Some e /\ same_entry_key e e') ->
  (forall i e, vw_entries w !! i = Some e -> exists e', t !! i = Some e' /\ same_entry_key e e') ->
  coherent (set_entries t w).
Proof.
  intros [C1 C2 C3 C4 C5 C6] Hb Hl. split; cbn; [done| | | |done|done].
  - intros i e' Hi. destruct (Hb _ _ Hi) as (e & He & -> & -> & ->). eauto.
  - intros k h Hk. destruct (C3 _ _ Hk) as (e & He & ? & ?).
    destruct (Hl _ _ He) as (e' & He' & _ & Ea & Eb). exists e'. rewrite Ea, Eb. done.
  - intros k a i Hk Hi. destruct (C4 _ _ _ Hk Hi) as (e & He & ? & ?).
    destruct (Hl _ _ He) as (e' & He' & _ & Ea & Eb). exists e'. rewrite Ea, Eb. done.
Qed.

Lemma coherent_entry_set w i e e' :
  coherent w -> vw_entries w !! i = Some e -> same_entry_key e e' ->
  coherent (set_entries (<[i := e']> (vw_entries w)) w).
Proof.
  intros C He Hs. apply coherent_entries; [done| |]; intros j x Hj.
  - destruct (decide (i = j)) as [<-|Hne].
    + rewrite lookup_insert_eq in Hj. simplify_eq. eauto.
    + rewrite lookup_insert_ne in Hj by done. exists x. done.
  - destruct (decide (i = j)) as [<-|Hne].
    + exists e'. rewrite lookup_insert_eq. simplify_eq. done.
    + exists x. rewrite lookup_insert_ne by done. done.
Qed.

(** New rows. *)
Lemma coherent_entry_new w i e U :
  coherent w -> vw_entries w !! i = None -> vw_users w !! en_userId e = Some U ->
  en_tenantId e = vu_tenantId U -> en_keyVersion e = vu_keyVersion U -> 1 <= vu_keyVersion U ->
  coherent (set_entries (<[i := e]> (vw_entries w)) w).
Proof.
  intros [C1 C2 C3 C4 C5 C6] Hi HU Ht Hv H1.
  assert (Hl : forall j x, vw_entries w !! j = Some x -> <[i := e]> (vw_entries w) !! j = Some x)
    by (intros j x Hj; rewrite lookup_insert_ne; congruence).
  split; cbn; [done| | | |done|done].
  - intros j x Hj. destruct (decide (i = j)) as [<-|Hne].
    + rewrite lookup_insert_eq in Hj. simplify_eq. eauto.
    + rewrite lookup_insert_ne in Hj by done. eauto.
  - intros k h Hk. destruct (C3 _ _ Hk) as (x & Hx & ?). eauto.
  - intros k a j Hk Hj. destruct (C4 _ _ _ Hk Hj) as (x & Hx & ?). eauto.
Qed.

Lemma coherent_history w t :
  coherent w ->
  (forall k h, t !! k = Some h -> vw_history w !! k = Some h
     \/ exists e, vw_entries w !! hi_entryId h = Some e /\ hi_tenantId h = en_tenantId e
                  /\ hi_keyVersion h = en_keyVersion e) ->
  coherent (set_history t w).
Proof.
  intros [C1 C2 C3 C4 C5 C6] Ht. split; cbn; [done|done| |done|done|done].
  intros k h Hk. destruct (Ht _ _ Hk) as [H|H]; eauto.
Qed.

Lemma coherent_attachments w t :
  coherent w ->
  (forall k a i, t !! k = Some a -> at_entryId a = Some i -> vw_attachments w !! k = Some a
     \/ exists e, vw_entries w !! i = Some e /\ at_tenantId a = en_tenantId e
                  /\ (at_mode a = 2 -> cek_at (en_keyVersion e) (at_cek a))) ->
  coherent (set_attachments t w).
Proof.
  intros [C1 C2 C3 C4 C5 C6] Ht. split; cbn; [done|done|done| |done|done].
  intros k a i Hk Hi. destruct (Ht _ _ _ Hk Hi) as [H|H]; eauto.
Qed.

Lemma coherent_delete_entries w p : coherent w -> coherent (delete_entries p w).
Proof.
  intros [C1 C2 C3 C4 C5 C6].
  assert (Hl : forall i e, vw_entries w !! i = Some e ->
            match vw_entries w !! i with Some e => p i e | None => false end = false ->
            filter (fun kr => p (fst kr) (snd kr) = false) (vw_entries w) !! i = Some e).
  { intros i e Hi Hp. rewrite Hi in Hp. by apply map_lookup_filter_Some. }
  split; cbn; [done| | | |done|done].
  - intros i e Hi. apply map_lookup_filter_Some in Hi as [Hi _]. eauto.
  - intros k h Hk. apply map_lookup_filter_Some in Hk as [Hk Hg]. cbn in Hg.
    destruct (C3 _ _ Hk) as (e & He & ?). eauto.
  - intros k a i Hk Hi. apply map_lookup_filter_Some in Hk as [Hk Hg]. cbn in Hg. rewrite Hi in Hg.
    destruct (C4 _ _ _ Hk Hi) as (e & He & ?). eauto.
Qed.

(** ** The statements of the routes *)

Lemma find_user_Some ctx u w U :
  find_user ctx u w = Some U <-> vw_users w !! u = Some U /\ vu_tenantId U = ctx.
Proof.
  unfold find_user. destruct (vw_users w !! u) as [V|]; cbn; [|naive_solver].
  destruct (bool_decide _) eqn:E; bools; naive_solver.
Qed.

Lemma find_entry_Some ctx i w e :
  find_entry ctx i w = Some e <-> vw_entries w !! i = Some e /\ en_tenantId e = ctx.
Proof.
  unfold find_entry. destruct (vw_entries w !! i) as [x|]; cbn; [|naive_solver].
  destruct (bool_decide _) eqn:E; bools; naive_solver.
Qed.

Lemma find_history_Some ctx i w h :
  find_history ctx i w = Some h <-> vw_history w !! i = Some h /\ hi_tenantId h = ctx.
Proof.
  unfold find_history. destruct (vw_history w !! i) as [x|]; cbn; [|naive_solver].
  destruct (bool_decide _) eqn:E; bools; naive_solver.
Qed.

Lemma assertCurrentKeyVersion_Ok ctx u v w w' x :
  assertCurrentKeyVersion ctx u v w = (w', Ok x) ->
  w' = w /\ exists U, vw_users w !! u = Some U /\ vu_tenantId U = ctx /\ vu_keyVersion U = v.
Proof.
  unfold assertCurrentKeyVersion. destruct (find_user ctx u w) as [U|] eqn:E; [|done].
  apply find_user_Some in E as [? ?]. destruct (_ =? _) eqn:Ev; [|done]. bools.
  intros [= <- <-]. eauto.
Qed.

Lemma update_entry_Ok ctx u i f w w' x :
  update_entry ctx u i f w = (w', Ok x) ->
  exists e, vw_entries w !! i = Some e /\ en_tenantId e = ctx /\ en_userId e = u
    /\ w' = set_entries (<[i := f e]> (vw_entries w)) w.
Proof.
  unfold update_entry. destruct (find_entry ctx i w) as [e|] eqn:E; [|done].
  apply find_entry_Some in E as [? ?]. destruct (bool_decide _) eqn:Ev; [|done]. bools.
  intros [= <- <-]. eauto.
Qed.

Lemma write_update_Ok ctx u i b w w' x :
  write_update ctx u i b w = (w', Ok x) ->
  exists e, vw_entries w !! i = Some e /\ en_tenantId e = ctx /\ en_userId e = u
    /\ w' = set_entries (<[i := apply_update b e]> (vw_entries w)) w.
Proof. unfold write_update, connect_tags. intros H. tx_inv H. by apply update_entry_Ok in H1. Qed.

Lemma trim_history_sub ctx i t k h : trim_history ctx i t !! k = Some h -> t !! k = Some h.
Proof.
  unfold trim_history. destruct (Nat.ltb _ _); [|done]. intros H.
  by apply map_lookup_filter_Some in H as [H _].
Qed.

Lemma snapshot_history_Ok ctx i tenant cur now hid w w' x :
  snapshot_history ctx i tenant cur now hid w = (w', Ok x) ->
  tenant = ctx /\ vw_history w !! hid = None /\
  w' = set_history (trim_history ctx i (<[hid :=
         {| hi_entryId := i; hi_tenantId := tenant; hi_blob := en_blob cur; hi_keyVersion := en_keyVersion cur;
            hi_aadVersion := en_aadVersion cur; hi_changedAt := now |}]> (vw_history w))) w.
Proof.
  unfold snapshot_history. intros H. tx_inv H. subst. split; [done|]. split; [|done].
  by destruct (vw_history w !! hid).
Qed.

(** A snapshot followed by an in-place write of the same entry at its own version. *)
Lemma snapshot_coherent ctx i cur now hid w w' x :
  coherent w -> vw_entries w !! i = Some cur -> en_tenantId cur = ctx ->
  snapshot_history ctx i ctx cur now hid w = (w', Ok x) -> coherent w' /\ vw_entries w' = vw_entries w
    /\ vw_users w' = vw_users w.
Proof.
  intros C Hi Ht H. apply snapshot_history_Ok in H as (_ & Hn & ->). split; [|done].
  apply coherent_history; [done|]. intros k h Hk. apply trim_history_sub in Hk.
  destruct (decide (hid = k)) as [<-|Hne].
  - rewrite lookup_insert_eq in Hk. right. exists cur. simplify_eq. done.
  - rewrite lookup_insert_ne in Hk by done. by left.
Qed.

Lemma create_coherent ctx u tenant input newId w w' r :
  coherent w -> createE2EPasswordSchema input = true ->
  createPersonalPasswordEntry ctx u tenant input newId w = (w', Ok r) -> coherent w'.
Proof.
  intros C Hs H. unfold createPersonalPasswordEntry in H. apply st_bind_Ok_inv in H as (s & ? & Ha & H).
  apply assertCurrentKeyVersion_Ok in Ha as [-> (U & HU & Ht & Hv)].
  apply st_bind_Ok_inv in H as (s & w1 & Hg & H). apply get_Ok in Hg as [-> ->].
  destruct (match ci_folderId input with Some _ => _ | None => _ end);
    [apply st_ret_Ok in H as [-> _]; done|].
  destruct (negb _); [apply st_ret_Ok in H as [-> _]; done|].
  apply st_bind_Ok_inv in H as (s & [] & H & Hr). apply st_ret_Ok in Hr as [-> _].
  unfold create_entry in H. tx_inv H. subst s.
  unfold createE2EPasswordSchema, in_range in Hs. bools.
  apply coherent_entry_new with (U := U); cbn in *; try done; try lia; try congruence.
  by destruct (vw_entries w !! _).
Qed.

Lemma put_tx_coherent ctx u i b existing now hid w w' r :
  coherent w -> (has (ui_blob b) = true -> has (ui_keyVersion b) = true) ->
  put_tx ctx u i b existing now hid w = (w', Ok r) -> coherent w'.
Proof.
  intros C Hb H. unfold put_tx in H. destruct (has (ui_blob b)) eqn:Eb.
  - destruct (ui_keyVersion b) as [v|] eqn:Ev; [|by specialize (Hb eq_refl)].
    apply st_bind_Ok_inv in H as (s & ? & Ha & H).
    apply assertCurrentKeyVersion_Ok in Ha as [-> (U & HU & Ht & Hv)].
    apply st_bind_Ok_inv in H as (s & w1 & Hg & H). apply get_Ok in Hg as [-> ->].
    destruct (find_entry ctx i w) as [cur|] eqn:Ef; [|apply st_ret_Ok in H as [-> _]; done].
    apply find_entry_Some in Ef as [Hi Hct].
    apply st_bind_Ok_inv in H as (s & ? & Hs & H). apply st_bind_Ok_inv in H as (s2 & ? & Hw & Hr).
    apply st_ret_Ok in Hr as [-> _].
    assert (en_tenantId existing = ctx) as Hex by (by apply snapshot_history_Ok in Hs as (-> & _)).
    rewrite Hex in Hs. destruct (snapshot_coherent _ _ _ _ _ _ _ _ C Hi Hct Hs) as (C' & He & Hu).
    apply write_update_Ok in Hw as (e & Hie & Het & Heu & ->). rewrite He in Hie. simplify_eq.
    eapply coherent_entry_set; [done|by rewrite He|]. repeat split; cbn. rewrite Eb, Ev. cbn.
    destruct (co_entry _ C _ _ Hi) as (V & HV & _ & -> & _). congruence.
  - apply st_bind_Ok_inv in H as (s & ? & Hw & Hr). apply st_ret_Ok in Hr as [-> _].
    apply write_update_Ok in Hw as (e & Hie & Het & Heu & ->).
    eapply coherent_entry_set; [done..|]. repeat split; cbn. by rewrite Eb.
Qed.

Lemma restore_tx_coherent ctx u i tenant h now hid w w' r :
  coherent w -> restore_tx ctx u i tenant h now hid w = (w', Ok r) -> coherent w'.
Proof.
  intros C H. unfold restore_tx in H. apply st_bind_Ok_inv in H as (s & ? & Ha & H).
  apply assertCurrentKeyVersion_Ok in Ha as [-> (U & HU & Ht & Hv)].
  apply st_bind_Ok_inv in H as (s & w1 & Hg & H). apply get_Ok in Hg as [-> ->].
  destruct (find_entry ctx i w) as [cur|] eqn:Ef; [|apply st_ret_Ok in H as [-> _]; done].
  apply find_entry_Some in Ef as [Hi Hct].
  apply st_bind_Ok_inv in H as (s & ? & Hs & H). apply st_bind_Ok_inv in H as (s2 & ? & Hw & Hr).
  apply st_ret_Ok in Hr as [-> _].
  assert (tenant = ctx) as -> by (by apply snapshot_history_Ok in Hs as (-> & _)).
  destruct (snapshot_coherent _ _ _ _ _ _ _ _ C Hi Hct Hs) as (C' & He & Hu).
  apply update_entry_Ok in Hw as (e & Hie & Het & Heu & ->). rewrite He in Hie. simplify_eq.
  eapply coherent_entry_set; [done|by rewrite He|]. repeat split; cbn.
  destruct (co_entry _ C _ _ Hi) as (V & HV & _ & -> & _). congruence.
Qed.

(** ** From transactions to requests *)

(** A predicate every successful run keeps. *)
Definition preserves {A} (P : vault_world -> Prop) (m : tx A) : Prop :=
  forall w w' a, P w -> m w = (w', Ok a) -> P w'.

(** A program that leaves the database alone whenever it throws. *)
Definition atomic {A} (m : tx A) : Prop := forall w w' e, m w = (w', Throw e) -> w' = w.

Lemma atomic_transaction {A} (m : tx A) : atomic (transaction m).
Proof. intros w w' e. unfold transaction. destruct (m w) as [? [?|?]]; congruence. Qed.

Lemma withUserTenantRls_run {A} u (fn : jsstr -> tx A) P w :
  (forall ctx, user_tenant u w = Ok ctx -> preserves P (fn ctx)) -> P w ->
  P (fst (withUserTenantRls u fn w)).
Proof.
  unfold withUserTenantRls, withTenantRls, transaction. intros Hf Hw.
  destruct (user_tenant u w) as [ctx|e]; cbn; [|done].
  specialize (Hf ctx eq_refl). destruct (fn ctx w) as [w' [a|e]] eqn:E; cbn; [|done]. by eapply Hf.
Qed.

Lemma withTenantRls_run {A} t (fn : jsstr -> tx A) P w :
  preserves P (fn t) -> P w -> P (fst (withTenantRls t fn w)).
Proof.
  unfold withTenantRls, transaction. intros Hf Hw.
  destruct (fn t w) as [w' [a|e]] eqn:E; cbn; [|done]. by eapply Hf.
Qed.

Lemma answer_fst {A} ok c (m : tx A) w : fst (answer ok c m w) = fst (m w).
Proof. unfold answer. destruct (m w) as [w' [a|e]]; cbn; [done|]. by destruct (c e). Qed.

(** A request either answers without writing or runs its transaction. *)
Ltac request :=
  repeat match goal with
  | H : ?P ?w |- ?P (fst (refuse _ ?w)) => exact H
  | H : ?P ?w |- ?P (fst (st_throw _ ?w)) => exact H
  | |- _ (fst (answer _ _ _ _)) => rewrite answer_fst
  | |- context [match ?x with _ => _ end] =>
      lazymatch x with context [match _ with _ => _ end] => fail | _ => destruct x eqn:? end
  end.

Lemma post_passwords_coherent w0 authed rl max body newId w :
  coherent w -> coherent (fst (post_passwords w0 authed rl max body newId w)).
Proof.
  intros C. unfold post_passwords. request. bools.
  apply withUserTenantRls_run; [|done]. intros ctx _ s s' r Hs H. by eapply create_coherent.
Qed.

Lemma post_v1_passwords_coherent authed denied blocked body newId w :
  coherent w -> coherent (fst (post_v1_passwords authed denied blocked body newId w)).
Proof.
  intros C. unfold post_v1_passwords. request. bools.
  apply withTenantRls_run; [|done]. intros s s' r Hs H. by eapply create_coherent.
Qed.

Lemma import_all_coherent ctx u es s s' :
  forallb (fun e => createE2EPasswordSchema (fst e)) es = true -> coherent (im_world s) ->
  import_all ctx u es s = Ok s' -> coherent (im_world s').
Proof.
  revert s. induction es as [|[input newId] es IH]; intros s Hs C; cbn; [by intros [= <-]|].
  cbn in Hs. bools. intros Hb. apply bind_Ok_inv in Hb as (s1 & H1 & H2).
  eapply IH; [done| |exact H2]. unfold import_one in H1.
  destruct (im_aborted s); [by simplify_eq|].
  destruct (createPersonalPasswordEntry _ _ _ _ _ _) as [w' [[]|[]]] eqn:E; simplify_eq; cbn; try done.
  by eapply create_coherent.
Qed.

Lemma post_bulk_import_coherent authed rl body w :
  coherent w -> coherent (fst (post_bulk_import authed rl body w)).
Proof.
  intros C. unfold post_bulk_import. destruct authed; [|done]. destruct (negb rl); [done|].
  destruct body as [[|e es]|]; [done| |done].
  destruct (_ || _) eqn:E; [done|]. apply orb_false_iff in E as [_ E]. apply negb_false_iff in E.
  rewrite answer_fst. unfold import_tx. destruct (user_tenant _ w); [|done].
  destruct (import_all _ _ _ _) as [s|] eqn:Ei; [|done]. cbn. destruct (im_aborted s); [done|].
  eapply import_all_coherent; [exact E| |exact Ei]. exact C.
Qed.

Lemma check_update_inv ctx u i body w0 existing b :
  check_update ctx u i body w0 = inr (existing, b) ->
  find_entry ctx i w0 = Some existing /\ en_userId existing = u /\ updateE2EPasswordSchema b = true
  /\ (has (ui_blob b) = true -> has (ui_keyVersion b) = true).
Proof.
  unfold check_update. destruct (find_entry _ _ _) as [e|]; [|done].
  destruct (bool_decide (en_userId e = u)) eqn:Eu; [|done]. destruct body as [b'|]; [|done]. cbn.
  destruct (updateE2EPasswordSchema b') eqn:Es; [|done]. cbn.
  destruct (match ui_folderId b' with Some _ => _ | None => _ end); [done|].
  destruct (negb _); [done|]. destruct (_ && negb (has (ui_blob b'))); [done|].
  destruct (has (ui_blob b') && negb (has (ui_keyVersion b'))) eqn:Eb; [done|].
  intros [= <- <-]. bools. repeat split; [done..|]. destruct Eb as [->|H]; [done|]. by bools.
Qed.

Lemma put_passwords_coherent w0 authed rl i body now hid w :
  coherent w -> coherent (fst (put_passwords w0 authed rl i body now hid w)).
Proof.
  intros C. unfold put_passwords. request. apply check_update_inv in Heqs as (_ & _ & _ & Hb).
  apply withUserTenantRls_run; [|done]. intros ctx _ s s' r Hs H. by eapply put_tx_coherent.
Qed.

Lemma put_v1_passwords_coherent w0 authed denied i body now hid w :
  coherent w -> coherent (fst (put_v1_passwords w0 authed denied i body now hid w)).
Proof.
  intros C. unfold put_v1_passwords. request. apply check_update_inv in Heqs as (_ & _ & _ & Hb).
  apply withTenantRls_run; [|done]. intros s s' r Hs H. by eapply put_tx_coherent.
Qed.

Lemma post_history_restore_coherent w0 session i k now hid w :
  coherent w -> coherent (fst (post_history_restore w0 session i k now hid w)).
Proof.
  intros C. unfold post_history_restore. request.
  apply withUserTenantRls_run; [|done]. intros ctx _ s s' r Hs H. by eapply restore_tx_coherent.
Qed.

(** Rewriting plaintext columns, and deleting. *)
Lemma update_meta_coherent ctx u i f w w' x :
  (forall e, same_entry_key e (f e)) -> coherent w -> update_entry ctx u i f w = (w', Ok x) -> coherent w'.
Proof.
  intros Hf C H. apply update_entry_Ok in H as (e & Hi & _ & _ & ->).
  eapply coherent_entry_set; [done..|]. apply Hf.
Qed.

Lemma update_among_coherent ctx u ids p f w :
  (forall e, same_entry_key e (f e)) -> coherent w -> coherent (update_among ctx u ids p f w).
Proof.
  intros Hf C. apply coherent_entries; [done| |]; intros i e; rewrite map_lookup_imap.
  - destruct (vw_entries w !! i) as [x|]; cbn; [|done]. intros [= <-]. exists x.
    split; [done|]. destruct (_ && _ && _); [apply Hf|done].
  - intros ->. cbn. eexists. split; [done|]. destruct (_ && _ && _); [apply Hf|done].
Qed.

Lemma set_deletedAt_key d e : same_entry_key e (set_deletedAt d e).
Proof. done. Qed.
Lemma bulk_set_key op now e : same_entry_key e (bulk_set op now e).
Proof. by destruct op. Qed.

Lemma post_bulk_coherent op session body now w :
  coherent w -> coherent (fst (post_bulk op session body now w)).
Proof.
  intros C. unfold post_bulk. request. apply withUserTenantRls_run; [|done].
  intros ctx _ s s' r Hs H. tx_inv H. subst s'. apply update_among_coherent; [|done].
  intros e. apply bulk_set_key.
Qed.

Lemma purge_trash_coherent u ids w : coherent w -> coherent (fst (purge_trash u ids w)).
Proof.
  intros C. unfold purge_trash. rewrite answer_fst. apply withUserTenantRls_run; [|done].
  intros ctx _ s s' r Hs H. tx_inv H. subst s'. by apply coherent_delete_entries.
Qed.

Lemma post_bulk_purge_coherent session stepUp body w :
  coherent w -> coherent (fst (post_bulk_purge session stepUp body w)).
Proof. intros C. unfold post_bulk_purge. request. by apply purge_trash_coherent. Qed.

Lemma post_empty_trash_coherent session stepUp w :
  coherent w -> coherent (fst (post_empty_trash session stepUp w)).
Proof. intros C. unfold post_empty_trash. request. by apply purge_trash_coherent. Qed.

Lemma delete_passwords_coherent w0 authed permanent stepUp i now w :
  coherent w -> coherent (fst (delete_passwords w0 authed permanent stepUp i now w)).
Proof.
  intros C. unfold delete_passwords.
  destruct authed as [[u is_]|]; [|done]. destruct (permanent && _); [done|]. destruct (permanent && _); [done|].
  destruct (user_tenant u w0); [|done]. destruct (find_entry _ _ _); [|done]. destruct (negb _); [done|].
  rewrite answer_fst. apply withUserTenantRls_run; [|done].
  intros ctx _ s s' r Hs H. destruct permanent.
  - tx_inv H. subst s'. by apply coherent_delete_entries.
  - eapply update_meta_coherent; [apply set_deletedAt_key|done|exact H].
Qed.

Lemma delete_v1_passwords_coherent w0 authed denied permanent i now w :
  coherent w -> coherent (fst (delete_v1_passwords w0 authed denied permanent i now w)).
Proof.
  intros C. unfold delete_v1_passwords. request. apply withTenantRls_run; [|done].
  intros s s' r Hs H. eapply update_meta_coherent; [apply set_deletedAt_key|done|exact H].
Qed.

Lemma post_restore_coherent w0 session i w : coherent w -> coherent (fst (post_restore w0 session i w)).
Proof.
  intros C. unfold post_restore. request. apply withUserTenantRls_run; [|done].
  intros ctx _ s s' r Hs H. eapply update_meta_coherent; [apply set_deletedAt_key|done|exact H].
Qed.

Lemma purge_history_coherent t cutoff w : coherent w -> coherent (fst (purge_history t cutoff w)).
Proof.
  intros C. cbn. apply coherent_history; [done|]. intros k h Hk. left.
  by apply map_lookup_filter_Some in Hk as [Hk _].
Qed.

(** ** Wrappings and attachments *)

Lemma update_user_Ok ctx u f w w' x :
  update_user ctx u f w = (w', Ok x) ->
  exists U, vw_users w !! u = Some U /\ match ctx with Some t => vu_tenantId U = t | None => True end
    /\ w' = set_users (<[u := f U]> (vw_users w)) w.
Proof.
  unfold update_user. destruct (vw_users w !! u) as [U|]; [|done].
  destruct ctx as [t|]; [destruct (bool_decide _) eqn:E; [|done]; bools|];
    intros [= <- <-]; eauto.
Qed.

Lemma update_user_coherent ctx u f w w' x :
  (forall U, same_key U (f U)) -> coherent w -> update_user ctx u f w = (w', Ok x) -> coherent w'.
Proof.
  intros Hf C H. apply update_user_Ok in H as (U & HU & _ & ->). by apply coherent_user with (U := U).
Qed.

Section Routes.
Context (sha256_hex : jsstr -> jsstr) (hmac : jsstr -> Z -> option jsstr) (base64_decode : jsstr -> jsstr).

Lemma hmacVerifier_Ok v w w' h : hmacVerifier hmac v w = (w', Ok h) -> w' = w.
Proof. unfold hmacVerifier. destruct (negb _); [done|]. destruct (hmac _ _); [|done]. by intros [= <- <-]. Qed.

Lemma post_change_passphrase_coherent w0 session blocked body inval w :
  coherent w -> coherent (fst (post_change_passphrase hmac w0 session blocked body inval w)).
Proof.
  intros C. unfold post_change_passphrase. request. all: apply withUserTenantRls_run; [|done].
  all: intros ctx _ s s' r Hs H; apply st_bind_Ok_inv in H as (s1 & h & Hh & H); apply hmacVerifier_Ok in Hh as ->.
  all: eapply update_user_coherent; [|done|exact H]; by intros [].
Qed.

Lemma post_recovery_generate_coherent w0 session blocked body now w :
  coherent w -> coherent (fst (post_recovery_generate hmac w0 session blocked body now w)).
Proof.
  intros C. unfold post_recovery_generate. request. apply withUserTenantRls_run; [|done].
  intros ctx _ s s' r Hs H. apply st_bind_Ok_inv in H as (s1 & h & Hh & H). apply hmacVerifier_Ok in Hh as ->.
  eapply update_user_coherent; [|done|exact H]. by intros [].
Qed.

Lemma post_recover_reset_coherent w0 session blocked body now inval w :
  coherent w -> coherent (fst (post_recover_reset hmac w0 session blocked body now inval w)).
Proof.
  intros C. unfold post_recover_reset, handle_reset. request. all: apply withTenantRls_run; [|done].
  all: intros s s' res Hs H; apply st_bind_Ok_inv in H as (s1 & h & Hh & H); apply hmacVerifier_Ok in Hh as ->;
    apply st_bind_Ok_inv in H as (s1 & rh & Hh & H); apply hmacVerifier_Ok in Hh as ->;
    apply st_bind_Ok_inv in H as (s1 & x & Hu & H); apply modify_Ok in H as ->.
  all: eapply coherent_frame; [| |eapply (update_user_coherent _ _ _ _ _ _ _ Hs Hu)]; done.
  Unshelve. all: by intros [].
Qed.

(** *** Setup *)

Lemma create_vaultKey_Ok ctx u v k e w w' x :
  create_vaultKey ctx u v k e w = (w', Ok x) ->
  vk_tenantId k = ctx /\ vw_vaultKeys w !! (u, v) = None
  /\ w' = set_vaultKeys (<[(u, v) := k]> (vw_vaultKeys w)) w.
Proof.
  unfold create_vaultKey. intros H. tx_inv H. subst. split; [done|]. split; [|done].
  by destruct (vw_vaultKeys w !! (u, v)).
Qed.

(** The users row at version [n + 1], with its artifact, once every row of the user
    is at that version. *)
Lemma coherent_bump w w' u U U' k :
  coherent w -> vw_users w !! u = Some U -> vu_tenantId U' = vu_tenantId U ->
  vu_keyVersion U' = vu_keyVersion U + 1 -> vu_vaultSetupAt U' <> None ->
  vw_users w' = <[u := U']> (vw_users w) ->
  vw_vaultKeys w' = <[(u, vu_keyVersion U') := k]> (vw_vaultKeys w) ->
  (forall i e', vw_entries w' !! i = Some e' -> exists e, vw_entries w !! i = Some e
     /\ en_userId e' = en_userId e /\ en_tenantId e' = en_tenantId e
     /\ en_keyVersion e' = if en_userId e =s u then vu_keyVersion U' else en_keyVersion e) ->
  (forall j h', vw_history w' !! j = Some h' -> exists e', vw_entries w' !! hi_entryId h' = Some e'
     /\ hi_tenantId h' = en_tenantId e' /\ hi_keyVersion h' = en_keyVersion e') ->
  (forall j a' i, vw_attachments w' !! j = Some a' -> at_entryId a' = Some i -> exists e',
     vw_entries w' !! i = Some e' /\ at_tenantId a' = en_tenantId e'
     /\ (at_mode a' = 2 -> cek_at (en_keyVersion e') (at_cek a'))) ->
  coherent w'.
Proof.
  intros [C1 C2 C3 C4 C5 C6] HU Ht Hv Hs Hus Hks He Hh Ha.
  assert (Hn : 0 <= vu_keyVersion U) by (by eapply C1).
  split.
  - intros v V. rewrite Hus. destruct (decide (u = v)) as [<-|Hne].
    + rewrite lookup_insert_eq. intros [= <-]. split; [lia|]. split; [done|]. lia.
    + rewrite lookup_insert_ne by done. apply C1.
  - intros i e' Hi. destruct (He _ _ Hi) as (e & Hie & Eu & Et & Ev). rewrite Hus, Eu, Et, Ev.
    destruct (C2 _ _ Hie) as (V & HV & ? & ? & ?). case_bool_decide as Hq.
    + rewrite Hq in *. exists U'. rewrite lookup_insert_eq. split; [done|]. simplify_eq. split; [congruence|].
      split; [done|]. lia.
    + exists V. rewrite lookup_insert_ne by done. done.
  - exact Hh.
  - exact Ha.
  - intros v n x. rewrite Hus, Hks. destruct (decide ((u, vu_keyVersion U') = (v, n))) as [[= -> <-]|Hne].
    + intros _. exists U'. rewrite lookup_insert_eq. split; [done|]. lia.
    + rewrite lookup_insert_ne by done. intros Hx. destruct (C5 _ _ _ Hx) as (V & HV & ?).
      destruct (decide (u = v)) as [<-|Hne']; [|exists V; by rewrite lookup_insert_ne].
      exists U'. rewrite lookup_insert_eq. split; [done|]. simplify_eq. lia.
  - intros v V n. rewrite Hus, Hks. destruct (decide ((u, vu_keyVersion U') = (v, n))) as [[= -> <-]|Hne].
    + intros _ _. rewrite lookup_insert_eq. by eexists.
    + rewrite (lookup_insert_ne (vw_vaultKeys w)) by done. destruct (decide (u = v)) as [<-|Hne'].
      * rewrite lookup_insert_eq. intros [= <-] Hr. eapply C6; [done|].
        assert (n <> vu_keyVersion U') by congruence. lia.
      * rewrite lookup_insert_ne by done. apply C6.
Qed.

Lemma post_setup_coherent w0 session blocked body now salt w :
  coherent w -> coherent (fst (post_setup sha256_hex hmac w0 session blocked body now salt w)).
Proof.
  intros C. unfold post_setup. destruct session as [u|]; [|done]. destruct blocked; [done|].
  destruct (user_tenant u w0); [|done]. destruct (find_user _ u w0) as [ex|]; [|done].
  destruct (has _); [done|]. destruct body as [b|]; [|done].
  destruct (match sb_kdf b with Some _ => _ | None => _ end); [done|].
  rewrite answer_fst. apply withUserTenantRls_run; [|done]. intros ctx _ s s' r Hs H.
  apply st_bind_Ok_inv in H as (s1 & h & Hh & H). apply hmacVerifier_Ok in Hh as ->.
  apply st_bind_Ok_inv in H as (s1 & x & Hu & H). apply update_user_Ok in Hu as (U & HU & Ht & ->).
  apply create_vaultKey_Ok in H as (_ & Hk & ->). cbn in Hk.
  assert (Hv : vu_keyVersion U = 0).
  { destruct (co_user _ Hs _ _ HU) as [? _]. destruct (decide (vu_keyVersion U = 0)) as [|Hne]; [done|].
    destruct (co_artifact _ Hs _ _ 1 HU) as [y Hy]; [lia|]. congruence. }
  assert (Hno : forall i e, vw_entries s !! i = Some e -> en_userId e <> u).
  { intros i e Hi <-. destruct (co_entry _ Hs _ _ Hi) as (V & HV & _ & _ & ?). simplify_eq. lia. }
  match goal with |- coherent (set_vaultKeys (<[_ := ?kk]> _) _) =>
    eapply coherent_bump with (w := s) (u := u) (U := U) (k := kk)
      (U' := setup_user b (default (0, PBKDF2_ITERATIONS) (sb_kdf b)) (sha256_hex (sb_authHash b ++ salt)) salt h now U)
  end; cbn; try done; try (by rewrite Hv).
  - intros i e Hi. exists e. rewrite bool_decide_false by (by eapply Hno). done.
  - intros j h' Hj. apply (co_history _ Hs _ _ Hj).
  - intros j at_ i Hj Hi. exact (co_attachment _ Hs _ _ _ Hj Hi).
Qed.

(** *** Attachments *)

(** The reads at [w0] and the transaction at [w]: an entry id that both know
    belongs to one user. *)
Definition earlier (w0 w : vault_world) : Prop :=
  forall i e0 e, vw_entries w0 !! i = Some e0 -> vw_entries w !! i = Some e -> en_userId e = en_userId e0.

Lemma post_attachments_coherent w0 session i rl ok f stored aid w :
  earlier w0 w -> coherent w ->
  coherent (fst (post_attachments base64_decode w0 session i rl ok f stored aid w)).
Proof.
  intros He C. unfold post_attachments.
  destruct session as [u|]; [|done]. destruct (user_tenant u w0) as [ctx0|]; [|done].
  destruct (find_entry ctx0 i w0) as [e0|] eqn:E0; [|done]. apply find_entry_Some in E0 as [E0 _].
  destruct (bool_decide (en_userId e0 = u)) eqn:Eu; [|done]. bools. destruct rl; [|done].
  destruct (_ || _) eqn:Ev; [done|]. cbn. rewrite answer_fst.
  refine (proj2 (_ : earlier w0 (fst (withUserTenantRls _ _ w)) /\ _)).
  apply (withUserTenantRls_run _ _ (fun w => earlier w0 w /\ coherent w)); [|done].
  intros ctx _ z z' res [He' C'] H. unfold upload_tx in H.
  apply st_bind_Ok_inv in H as (s & w1 & Hg & H). apply get_Ok in Hg as [-> ->].
  apply st_bind_Ok_inv in H as (s & x & Hl & H). apply throw_if_Ok in Hl as [_ ->].
  destruct (find_user ctx u z) as [U|] eqn:EU; [|done]. apply find_user_Some in EU as [HU Ht].
  tx_inv H. subst z'. split; [done|].
  destruct (vw_entries z !! i) as [e|] eqn:Ei; [|done].
  assert (Ho : en_userId e = u) by (rewrite (He' _ _ _ E0 Ei); done).
  destruct (co_entry _ C' _ _ Ei) as (V & HV & Et & Ek & _). rewrite Ho in HV. simplify_eq.
  apply coherent_attachments; [done|]. intros k at_ j Hk Hj. destruct (decide (aid = k)) as [<-|Hne].
  - rewrite lookup_insert_eq in Hk. simplify_eq. cbn in Hj. simplify_eq. right. exists e. cbn.
    split; [done|]. split; [congruence|]. intros _. split; cbn; [done|]. congruence.
  - rewrite lookup_insert_ne in Hk by done. by left.
Qed.

Lemma delete_attachment_coherent w0 session i aid w :
  coherent w -> coherent (fst (delete_attachment w0 session i aid w)).
Proof.
  intros C. unfold delete_attachment. destruct session as [u|]; [|done].
  destruct (user_tenant u w0); [|done]. destruct (find_entry _ _ _); [|done].
  destruct (negb _); [done|]. destruct (negb _); [done|]. rewrite answer_fst.
  apply withUserTenantRls_run; [|done]. intros ctx _ s s' res Hs H.
  tx_inv H. subst s'. apply coherent_attachments; [done|]. intros k at_ j' Hk _. left.
  by apply lookup_delete_Some in Hk as [_ ?].
Qed.

Lemma attachment_of_inv ctx u w a :
  attachment_of ctx u w a = true ->
  at_tenantId a = ctx /\ exists i e, at_entryId a = Some i /\ vw_entries w !! i = Some e
    /\ en_tenantId e = ctx /\ en_userId e = u.
Proof.
  unfold attachment_of, under_entry_of. intros H. bools. split; [done|].
  destruct (at_entryId a) as [i|]; [|done]. destruct (find_entry ctx i w) as [e|] eqn:E; [|done].
  apply find_entry_Some in E as [? ?]. bools. eauto 10.
Qed.

Lemma put_migrate_coherent session rl ok aid p w :
  coherent w -> coherent (fst (put_migrate sha256_hex base64_decode session rl ok aid p w)).
Proof.
  intros C. unfold put_migrate. destruct session as [u|]; [|done]. destruct rl; [|done].
  destruct (_ || _) eqn:Ev; [done|]. cbn. rewrite answer_fst. apply withUserTenantRls_run; [|done].
  intros ctx _ s s' res Hs H. apply st_bind_Ok_inv in H as (s1 & w1 & Hg & H). apply get_Ok in Hg as [-> ->].
  destruct (find_user ctx u s) as [U|] eqn:EU; [|done]. apply find_user_Some in EU as [HU Ht].
  destruct (bool_decide (vu_tenantId U = [])); [done|].
  apply st_bind_Ok_inv in H as (s1 & x & Hc & H). apply throw_if_Ok in Hc as [Hc ->].
  unfold applyAttachmentMigration in H. apply st_bind_Ok_inv in H as (s1 & w1 & Hg & H).
  apply get_Ok in Hg as [-> ->]. destruct (vw_attachments s !! aid) as [row|] eqn:Er; [|done].
  destruct (attachment_in ctx u (vu_tenantId U) s row && negb (has (at_teamEntryId row))) eqn:En; [|done].
  apply andb_true_iff in En as [En _]. apply andb_true_iff in En as [En _].
  apply attachment_of_inv in En as (Hat & i & e & Hi & He & Het & Heu).
  cbn in H. tx_inv H. subst s'.
  destruct (co_entry _ Hs _ _ He) as (V & HV & _ & Ek & _). rewrite Heu in HV. simplify_eq.
  apply coherent_attachments; [done|]. intros k at_ j Hk Hj. destruct (decide (aid = k)) as [<-|Hne].
  - rewrite lookup_insert_eq in Hk. simplify_eq. cbn in Hj. simplify_eq. right. exists e. cbn.
    split; [done|]. split; [congruence|]. intros _. split; cbn; [done|]. congruence.
  - rewrite lookup_insert_ne in Hk by done. by left.
Qed.
End Routes.

(** ** Rotation: rewriting by primary key *)

Section Rewrite.
Context {R row : Type} (key : R -> jsstr) (f : R -> row -> row).
Implicit Types (t : gmap jsstr row) (l : list R).

Definition rewrite_all l t : gmap jsstr row := foldl (fun t r => alter (f r) (key r) t) t l.

Lemma rewrite_all_cons r l t : rewrite_all (r :: l) t = rewrite_all l (alter (f r) (key r) t).
Proof. done. Qed.

Lemma rewrite_all_out l t k : k ∉ map key l -> rewrite_all l t !! k = t !! k.
Proof.
  revert t. induction l as [|r l IH]; intros t Hk; [done|]. apply not_elem_of_cons in Hk as [Hk Hl].
  rewrite rewrite_all_cons, IH by done. by rewrite lookup_alter_ne.
Qed.

Lemma rewrite_all_in l t r :
  NoDup (map key l) -> r ∈ l -> rewrite_all l t !! key r = f r <$> t !! key r.
Proof.
  revert t. induction l as [|r' l IH]; intros t Hd Hr; [by apply not_elem_of_nil in Hr|].
  apply NoDup_cons in Hd as [Hn Hd]. rewrite rewrite_all_cons. apply elem_of_cons in Hr as [->|Hr].
  - rewrite rewrite_all_out by done. by rewrite lookup_alter_eq.
  - rewrite IH by done. rewrite lookup_alter_ne; [done|].
    intros E. apply Hn. rewrite E. apply list_elem_of_In, in_map, list_elem_of_In, Hr.
Qed.

(** A loop of updates by primary key, each required to match a row [ok] selects. *)
Context (proj : vault_world -> gmap jsstr row) (upd : gmap jsstr row -> vault_world -> vault_world)
        (ok : row -> Prop) (step : R -> tx unit) (inv : vault_world -> Prop).
Hypothesis upd_proj : forall t w, proj (upd t w) = t.
Hypothesis upd_upd : forall t t' w, upd t (upd t' w) = upd t w.
Hypothesis upd_id : forall w, upd (proj w) w = w.
Hypothesis inv_upd : forall t w, inv w -> inv (upd t w).
Hypothesis f_ok : forall r x, ok x -> ok (f r x).
Hypothesis step_Ok : forall r w w' x, inv w -> step r w = (w', Ok x) ->
  exists y, proj w !! key r = Some y /\ ok y /\ w' = upd (<[key r := f r y]> (proj w)) w.

Lemma rewrite_loop l w w' x :
  inv w -> st_for step l w = (w', Ok x) ->
  w' = upd (rewrite_all l (proj w)) w
  /\ forall r, r ∈ l -> exists y, rewrite_all l (proj w) !! key r = Some y /\ ok y.
Proof.
  revert w. induction l as [|r l IH]; intros w Hw H; cbn in H; [|rewrite rewrite_all_cons].
  - apply st_ret_Ok in H as [-> _]. split; [symmetry; apply upd_id|]. intros r Hr. by apply not_elem_of_nil in Hr.
  - apply st_bind_Ok_inv in H as (s & a & Hs & H). destruct (step_Ok _ _ _ _ Hw Hs) as (y & Hy & Hok & ->).
    assert (Ea : <[key r := f r y]> (proj w) = alter (f r) (key r) (proj w)).
    { apply map_eq. intros k. destruct (decide (key r = k)) as [<-|Hne].
      - rewrite lookup_insert_eq, lookup_alter_eq, Hy. done.
      - by rewrite lookup_insert_ne, lookup_alter_ne. }
    rewrite Ea in H. destruct (IH _ (inv_upd _ _ Hw) H) as [E Hl]. rewrite upd_upd, upd_proj in E.
    rewrite upd_proj in Hl. split; [exact E|].
    intros r' Hr'. apply elem_of_cons in Hr' as [->|Hr']; [|by apply Hl].
    destruct (decide (key r ∈ map key l)) as [Hin|Hout].
    + apply list_elem_of_In, in_map_iff in Hin as (q & Eq & Hq). destruct (Hl q) as (z & Hz & ?); [by apply list_elem_of_In|]. rewrite Eq in Hz. eauto.
    + exists (f r y). rewrite rewrite_all_out by done. rewrite lookup_alter_eq, Hy. split; [done|]. by apply f_ok.
Qed.
End Rewrite.

(** Every row a rewrite leaves is the row it found, or that row rewritten. *)
Lemma rewrite_all_lookup {R row} (key : R -> jsstr) (f : R -> row -> row) l t k y
    (keep : row -> row -> Prop) (done_ : row -> Prop) :
  (forall x, keep x x) -> (forall x y z, keep x y -> keep y z -> keep x z) ->
  (forall r x, keep x (f r x)) -> (forall r x, r ∈ l -> done_ (f r x)) ->
  rewrite_all key f l t !! k = Some y ->
  exists x, t !! k = Some x /\ keep x y /\ (y = x \/ done_ y).
Proof.
  intros Hr Ht Hf. revert t. induction l as [|r l IH]; intros t Hd H; [eauto|]. rewrite rewrite_all_cons in H.
  destruct (IH _ (fun r' x Hr' => Hd r' x (list_elem_of_further _ _ _ Hr')) H) as (x & Hx & Hk & Hy).
  destruct (decide (key r = k)) as [<-|Hne].
  - rewrite lookup_alter_eq in Hx. destruct (t !! key r) as [x0|]; [|done]. cbn in Hx. simplify_eq.
    exists x0. split; [done|]. split; [eapply Ht; eauto|]. right. destruct Hy as [->|Hy]; [|done].
    apply Hd. apply list_elem_of_here.
  - rewrite lookup_alter_ne in Hx by done. eauto.
Qed.

(** The id check of the rotation. *)
Lemma size_list_to_set_le (l : list jsstr) : (size (list_to_set l : gset jsstr) <= length l)%nat.
Proof.
  induction l as [|x l IH]; cbn; [rewrite size_empty; lia|].
  pose proof (size_union_alt (C := gset jsstr) {[x]} (list_to_set l)) as H. rewrite size_singleton in H.
  pose proof (subseteq_size (C := gset jsstr) (list_to_set l ∖ {[x]}) (list_to_set l)). 
  assert (size (list_to_set l ∖ {[x]} : gset jsstr) <= size (list_to_set l : gset jsstr))%nat
    by (apply subseteq_size; set_solver). lia.
Qed.

Lemma size_list_to_set_NoDup (l : list jsstr) :
  size (list_to_set l : gset jsstr) = length l -> NoDup l.
Proof.
  induction l as [|x l IH]; cbn; intros H; [constructor|].
  pose proof (size_list_to_set_le l) as Hle.
  destruct (decide (x ∈ l)) as [Hin|Hout].
  - assert ({[x]} ∪ list_to_set l = (list_to_set l : gset jsstr)) as E by set_solver. rewrite E in H. lia.
  - rewrite size_union in H by set_solver. rewrite size_singleton in H. constructor; [done|]. apply IH. lia.
Qed.

Lemma exact_ids_Ok l S e w w' x :
  exact_ids l S e w = (w', Ok x) -> w' = w /\ NoDup l /\ forall i, i ∈ l <-> i ∈ S.
Proof.
  unfold exact_ids. intros H. apply st_bind_Ok_inv in H as (s & ? & H1 & H). apply throw_if_Ok in H1 as [E1 ->].
  apply st_bind_Ok_inv in H as (s & ? & H1 & H). apply throw_if_Ok in H1 as [E2 ->].
  apply negb_false_iff, Nat.eqb_eq in E1. apply orb_false_iff in E2 as [E2 E3].
  apply negb_false_iff, Nat.eqb_eq in E2, E3.
  assert (Hs : w' = w /\ (list_to_set l : gset jsstr) ⊆ S).
  { assert (Hg : forall q, st_for (fun i => throw_if (negb (bool_decide (i ∈ S))) e) q w = (w', Ok x) ->
              w' = w /\ Forall (fun i => i ∈ S) q).
    { induction q as [|y q IH]; cbn; intros Hq; [apply st_ret_Ok in Hq as [-> _]; done|].
      apply st_bind_Ok_inv in Hq as (s & ? & Hy & Hq). apply throw_if_Ok in Hy as [Hy ->]. bools.
      destruct (IH Hq) as [-> ?]. split; [done|]. by constructor. }
    destruct (Hg _ H) as [-> Hf]. split; [done|]. intros y Hy. rewrite Forall_forall in Hf. apply Hf.
    by apply elem_of_elements. }
  destruct Hs as [-> Hsub]. split; [done|]. split; [by apply size_list_to_set_NoDup|].
  intros i. assert (Heq : (list_to_set l : gset jsstr) ≡ S).
  { apply set_subseteq_size_equiv; [done|]. lia. }
  rewrite <- Heq. by rewrite elem_of_list_to_set.
Qed.

(** ** What a rotation leaves behind *)

Lemma any_row_false {A} (p : A -> bool) (t : gmap jsstr A) :
  any_row p t = false <-> forall k a, t !! k = Some a -> p a = false.
Proof.
  unfold any_row. rewrite <- not_true_iff_false, existsb_exists. split.
  - intros H k a Hk. apply not_true_iff_false. intros Hp. apply H. exists (k, a). split; [|done].
    by apply list_elem_of_In, elem_of_map_to_list.
  - intros H ([k a] & Hin & Hp). apply list_elem_of_In, elem_of_map_to_list in Hin.
    cbn in Hp. rewrite (H _ _ Hin) in Hp. done.
Qed.

Section Rotation.
Context (hmac : jsstr -> Z -> option jsstr) (base64_decode : jsstr -> jsstr).

(** The tables a rotation does not write. *)
Definition other_tables (w w' : vault_world) : Prop :=
  vw_members w' = vw_members w /\ vw_folders w' = vw_folders w /\ vw_tags w' = vw_tags w
  /\ vw_shares w' = vw_shares w /\ vw_teamKeys w' = vw_teamKeys w /\ vw_teamMembers w' = vw_teamMembers w
  /\ vw_audit w' = vw_audit w.

Record rotation_result (ctx u tenant : jsstr) (old new : Z) (hash salt : jsstr) (p : RotationPayload)
    (setup : option Z) (accountSalt : jsstr) (now : Z) (U : vault_user) (w w' : vault_world) : Prop := {
  rr_user : vw_users w !! u = Some U;
  rr_cas : vu_tenantId U = ctx /\ vu_keyVersion U = old /\ vu_vaultSetupAt U = setup /\ setup <> None
    /\ vu_accountSalt U = Some accountSalt;
  rr_mode0 : forall k a, vw_attachments w !! k = Some a -> mode_of ctx u w 0 a = false;
  rr_complete : forall k a, vw_attachments w !! k = Some a -> mode_of ctx u w 2 a = true ->
    cek_incomplete (at_cek a) = false;
  rr_manifest : forall r, r ∈ rp_cekRewraps p -> exists a, vw_attachments w !! cr_id r = Some a
    /\ mode_of ctx u w 2 a = true /\ ck_keyVersion (at_cek a) = Some old;
  rr_entry_ids : NoDup (map er_id (rp_entries p)) /\ forall i, i ∈ map er_id (rp_entries p) <-> i ∈ entry_ids ctx u w;
  rr_history_ids : NoDup (map hr_id (rp_history p)) /\ forall i, i ∈ map hr_id (rp_history p) <-> i ∈ history_ids ctx u w;
  rr_entries : vw_entries w' = rewrite_all er_id (rewrite_row new) (rp_entries p) (vw_entries w);
  rr_history : vw_history w' = rewrite_all hr_id (rewrite_history new) (rp_history p) (vw_history w);
  rr_attachments : vw_attachments w' =
    rewrite_all cr_id (fun r => set_cek (rewrapped_cek base64_decode new r)) (rp_cekRewraps p) (vw_attachments w);
  rr_wrap_format : Forall (fun r => cr_cekWrapAadVersion r = CURRENT_CEK_WRAP_AAD_VERSION) (rp_cekRewraps p);
  rr_users : exists verifier, vw_users w' = <[u := rotated_user p new hash salt verifier now U]> (vw_users w);
  rr_keys : vw_vaultKeys w !! (u, new) = None /\
    vw_vaultKeys w' = <[(u, new) := {| vk_tenantId := tenant; vk_artifact := rp_artifact p |}]> (vw_vaultKeys w);
  rr_credentials : vw_credentials w' = fst (updateMany (has_prf_of ctx u) clear_prf (vw_credentials w));
  rr_grants : exists n, markGrantsStaleForOwner (RlsTenant ctx) u new (vw_grants w) = (vw_grants w', Ok n);
  rr_post : forall k a, vw_attachments w' !! k = Some a -> mode_of ctx u w' 2 a = true ->
    ck_keyVersion (at_cek a) = None \/ ck_keyVersion (at_cek a) = Some new;
  rr_rest : other_tables w w' }.

Lemma reencrypt_entries_Ok ctx u v l w w' x :
  st_for (reencrypt_entry ctx u v) l w = (w', Ok x) ->
  w' = set_entries (rewrite_all er_id (rewrite_row v) l (vw_entries w)) w.
Proof.
  intros H.
  eapply (rewrite_loop er_id (rewrite_row v) vw_entries set_entries (fun _ => True) _ (fun _ => True));
    [..|exact I|exact H]; try done; try (by intros []).
  intros r s s' y _ Hs. unfold reencrypt_entry in Hs. destruct (vw_entries s !! er_id r) as [e|] eqn:E; [|done].
  destruct (entry_of ctx u e); [|done]. simplify_eq. eauto.
Qed.

Lemma reencrypt_history_Ok ctx u v l w w' x :
  st_for (reencrypt_history ctx u v) l w = (w', Ok x) ->
  w' = set_history (rewrite_all hr_id (rewrite_history v) l (vw_history w)) w.
Proof.
  intros H.
  eapply (rewrite_loop hr_id (rewrite_history v) vw_history set_history (fun _ => True) _ (fun _ => True));
    [..|exact I|exact H]; try done; try (by intros []).
  intros r s s' y _ Hs. unfold reencrypt_history in Hs. destruct (vw_history s !! hr_id r) as [e|] eqn:E; [|done].
  destruct (history_of ctx u s e); [|done]. simplify_eq. eauto.
Qed.

Lemma rewrap_ceks_Ok ctx u t v l w w' x :
  st_for (rewrap_cek base64_decode ctx u t v) l w = (w', Ok x) ->
  w' = set_attachments (rewrite_all cr_id (fun r => set_cek (rewrapped_cek base64_decode v r)) l (vw_attachments w)) w
  /\ Forall (fun r => cr_cekWrapAadVersion r = CURRENT_CEK_WRAP_AAD_VERSION) l.
Proof.
  intros H. split.
  - eapply (rewrite_loop cr_id (fun r => set_cek (rewrapped_cek base64_decode v r)) vw_attachments set_attachments
              (fun _ => True) _ (fun _ => True));
      [..|exact I|exact H]; try done; try (by intros []).
    intros r s s' y _ Hs. unfold rewrap_cek in Hs. destruct (negb _); [done|].
    destruct (vw_attachments s !! cr_id r) as [e|] eqn:E; [|done]. destruct (_ && _); [|done]. simplify_eq. eauto.
  - revert w H. induction l as [|r l IH]; intros w H; [constructor|].
    apply st_bind_Ok_inv in H as (s & y & Hs & H). constructor; [|by eapply IH].
    unfold rewrap_cek in Hs. destruct (negb _) eqn:E; [done|]. by bools.
Qed.

Lemma for_throw_Ok {A} (g : A -> bool) e l w w' x :
  st_for (fun r => throw_if (g r) e) l w = (w', Ok x) -> w' = w /\ Forall (fun r => g r = false) l.
Proof.
  revert w. induction l as [|r l IH]; intros w H; cbn in H; [apply st_ret_Ok in H as [-> _]; done|].
  apply st_bind_Ok_inv in H as (s & y & Hs & H). apply throw_if_Ok in Hs as [Hs ->].
  destruct (IH _ H) as [-> Hf]. split; [done|]. by constructor.
Qed.

Lemma attachment_guards_Ok ctx u old l w w' x :
  attachment_guards ctx u old l w = (w', Ok x) ->
  w' = w /\ (forall k a, vw_attachments w !! k = Some a -> mode_of ctx u w 0 a = false)
  /\ (forall k a, vw_attachments w !! k = Some a -> mode_of ctx u w 2 a = true -> cek_incomplete (at_cek a) = false)
  /\ (forall r, r ∈ l -> exists a, vw_attachments w !! cr_id r = Some a
        /\ mode_of ctx u w 2 a = true /\ ck_keyVersion (at_cek a) = Some old).
Proof.
  unfold attachment_guards. intros H. apply st_bind_Ok_inv in H as (s & w1 & Hg & H). apply get_Ok in Hg as [-> ->].
  apply st_bind_Ok_inv in H as (s & y & H0 & H). apply throw_if_Ok in H0 as [H0 ->].
  apply st_bind_Ok_inv in H as (s & y0 & H2 & H). apply throw_if_Ok in H2 as [H2 ->].
  apply st_bind_Ok_inv in H as (s & y1 & H3 & H). apply for_throw_Ok in H3 as [-> _]. apply for_throw_Ok in H as [-> H4].
  rewrite any_row_false in H0, H2. split; [done|]. split; [done|]. split.
  - intros k a Hk Hm. specialize (H2 _ _ Hk). cbn in H2. rewrite Hm in H2. done.
  - intros r Hr. rewrite Forall_forall in H4. specialize (H4 _ Hr). cbn in H4. bools.
    destruct (vw_attachments w !! cr_id r) as [a|]; [|done]. cbn in H4.
    destruct (mode_of ctx u w 2 a) eqn:Em; [|done]. injection H4 as H4. eauto.
Qed.

Lemma rotation_cas_Ok ctx u old setup accountSalt w w' x :
  rotation_cas ctx u old setup accountSalt w = (w', Ok x) ->
  w' = w /\ exists U, vw_users w !! u = Some U /\ vu_tenantId U = ctx /\ vu_keyVersion U = old
    /\ vu_vaultSetupAt U = setup /\ setup <> None /\ vu_accountSalt U = Some accountSalt.
Proof.
  unfold rotation_cas. intros H. apply st_bind_Ok_inv in H as (s & w1 & Hg & H). apply get_Ok in Hg as [-> ->].
  destruct (find_user ctx u w) as [U|] eqn:E; [|done]. apply find_user_Some in E as [HU Ht].
  apply throw_if_Ok in H as [H ->]. bools. split; [done|]. exists U. repeat split; try done.
  intros ->. by destruct (vu_vaultSetupAt U).
Qed.

Lemma stale_grants_Ok ctx u v w w' n :
  stale_grants ctx u v w = (w', Ok n) ->
  exists t, markGrantsStaleForOwner (RlsTenant ctx) u v (vw_grants w) = (t, Ok n)
    /\ w' = set_wrappings (vw_credentials w) t w.
Proof.
  unfold stale_grants. destruct (markGrantsStaleForOwner _ _ _ _) as [t [m|e]] eqn:E; [|done].
  intros [= <- <-]. eauto.
Qed.

Theorem applyVaultRotation_spec ctx u tenant old new hash salt p setup accountSalt now w w' eff :
  applyVaultRotation hmac base64_decode ctx u tenant old new hash salt p setup accountSalt now w = (w', Ok eff) ->
  exists U, rotation_result ctx u tenant old new hash salt p setup accountSalt now U w w'
    /\ re_recoveryKeyInvalidated eff = has (rk_secretKey (vu_recovery U)).
Proof.
  unfold applyVaultRotation. intros H. apply st_bind_Ok_inv in H as (s & y & Hc & H).
  apply rotation_cas_Ok in Hc as [-> (U & HU & Hcas)].
  apply st_bind_Ok_inv in H as (s & y0 & Hg & H). apply attachment_guards_Ok in Hg as (-> & Hm0 & Hm2 & Hmf).
  apply st_bind_Ok_inv in H as (s & w1 & Hg & H). apply get_Ok in Hg as [-> ->].
  apply st_bind_Ok_inv in H as (s & y1 & He & H). apply exact_ids_Ok in He as (-> & Hide).
  apply st_bind_Ok_inv in H as (s & y2 & Hh & H). apply exact_ids_Ok in Hh as (-> & Hidh).
  unfold rotation_writes in H.
  apply st_bind_Ok_inv in H as (s1 & y3 & He & H). apply reencrypt_entries_Ok in He.
  apply st_bind_Ok_inv in H as (s2 & y4 & Hh & H). apply reencrypt_history_Ok in Hh.
  apply st_bind_Ok_inv in H as (s3 & y5 & Ha & H). apply rewrap_ceks_Ok in Ha as [Ha Hf].
  apply st_bind_Ok_inv in H as (s & w1 & Hg & H). apply get_Ok in Hg as [-> ->].
  apply st_bind_Ok_inv in H as (s & verifier & Hv & H).
  assert (s = s3) as ->.
  { destruct (rp_newVerifierHash p); [|by apply st_ret_Ok in Hv as [-> _]].
    apply st_bind_Ok_inv in Hv as (s4 & h & Hx & Hv). apply hmacVerifier_Ok in Hx as ->.
    by apply st_ret_Ok in Hv as [-> _]. }
  apply st_bind_Ok_inv in H as (s4 & y6 & Hu & H). apply update_user_Ok in Hu as (U' & HU' & Ht & Hu).
  apply st_bind_Ok_inv in H as (s5 & y7 & Hk & H). apply create_vaultKey_Ok in Hk as (_ & Hkn & Hk).
  apply st_bind_Ok_inv in H as (s & w1 & Hg & H). apply get_Ok in Hg as [-> ->].
  destruct (updateMany (has_prf_of ctx u) clear_prf (vw_credentials s5)) as [creds n] eqn:Eu.
  apply st_bind_Ok_inv in H as (s6 & y8 & Hm & H). apply modify_Ok in Hm.
  apply st_bind_Ok_inv in H as (s7 & staled & Hs & H). apply stale_grants_Ok in Hs as (t & Hs & Hs7).
  apply st_bind_Ok_inv in H as (s & w1 & Hg & H). apply get_Ok in Hg as [-> ->].
  apply st_bind_Ok_inv in H as (s & y9 & Hp & H). apply throw_if_Ok in Hp as [Hp ->].
  apply st_ret_Ok in H as [-> ->].
  assert (EU : vw_users s3 = vw_users w) by (rewrite Ha, Hh, He; done).
  assert (U' = U) as -> by (rewrite EU in HU'; congruence).
  exists U. split; [split|].
  - done.
  - done.
  - done.
  - done.
  - done.
  - done.
  - done.
  - rewrite Hs7, Hm, Hk, Hu, Ha, Hh, He. done.
  - rewrite Hs7, Hm, Hk, Hu, Ha, Hh, He. done.
  - rewrite Hs7, Hm, Hk, Hu, Ha, Hh, He. done.
  - done.
  - exists verifier. rewrite Hs7, Hm, Hk, Hu, Ha, Hh, He. done.
  - rewrite Hu, Ha, Hh, He in Hkn. split; [done|]. rewrite Hs7, Hm, Hk, Hu, Ha, Hh, He. done.
  - assert (Ecr : vw_credentials s5 = vw_credentials w) by (rewrite Hk, Hu, Ha, Hh, He; done).
    rewrite <- Ecr, Eu, Hs7, Hm. done.
  - exists staled. assert (Eg : vw_grants s6 = vw_grants w) by (rewrite Hm, Hk, Hu, Ha, Hh, He; done).
    rewrite <- Eg, Hs, Hs7. done.
  - rewrite any_row_false in Hp. intros k a Hka Hmo. specialize (Hp _ _ Hka). cbn in Hp. rewrite Hmo in Hp.
    destruct (ck_keyVersion (at_cek a)) as [v|]; [right|by left].
    rewrite bool_decide_true in Hp by (by eexists). cbn in Hp. by bools.
  - rewrite Hs7, Hm, Hk, Hu, Ha, Hh, He. by split_and!.
  - cbn. unfold find_user. rewrite HU'. cbn. destruct Hcas as (Hct & _).
    by rewrite bool_decide_true.
Qed.

Lemma entry_ids_spec ctx u w i :
  i ∈ entry_ids ctx u w <-> exists e, vw_entries w !! i = Some e /\ en_tenantId e = ctx /\ en_userId e = u.
Proof.
  unfold entry_ids. rewrite elem_of_dom. split.
  - intros [e He]. apply select_lookup in He as [He Ho]. unfold entry_of in Ho. bools. eauto.
  - intros (e & He & <- & <-). exists e. apply select_lookup. split; [done|]. unfold entry_of.
    rewrite !bool_decide_true by done. done.
Qed.

Lemma history_ids_spec ctx u w k :
  k ∈ history_ids ctx u w <-> exists h e, vw_history w !! k = Some h /\ hi_tenantId h = ctx
    /\ vw_entries w !! hi_entryId h = Some e /\ en_tenantId e = ctx /\ en_userId e = u.
Proof.
  unfold history_ids. rewrite elem_of_dom. split.
  - intros [h Hh]. apply select_lookup in Hh as [Hh Ho]. unfold history_of, under_entry_of in Ho. bools.
    destruct (find_entry ctx (hi_entryId h) w) as [e|] eqn:E; [|done]. apply find_entry_Some in E as [? ?]. bools.
    eauto 10.
  - intros (h & e & Hh & Ht & He & Het & Heu). exists h. apply select_lookup. split; [done|].
    unfold history_of, under_entry_of, find_entry. rewrite He. cbn. rewrite !bool_decide_true by done. done.
Qed.

Section Result.
Context (ctx u tenant : jsstr) (old new : Z) (hash salt : jsstr) (p : RotationPayload)
        (setup : option Z) (accountSalt : jsstr) (now : Z) (U : vault_user) (w w' : vault_world).
Context (Hrr : rotation_result ctx u tenant old new hash salt p setup accountSalt now U w w') (C : coherent w).

(** In a coherent vault the submitted rows are the user's rows. *)
Lemma rr_entry_submitted i e : vw_entries w !! i = Some e -> en_userId e = u <-> i ∈ map er_id (rp_entries p).
Proof.
  intros Hi. rewrite (proj2 (rr_entry_ids _ _ _ _ _ _ _ _ _ _ _ _ _ _ Hrr)), entry_ids_spec. split.
  - intros Hu. exists e. destruct (co_entry _ C _ _ Hi) as (V & HV & Ht & _).
    rewrite Hu, (rr_user _ _ _ _ _ _ _ _ _ _ _ _ _ _ Hrr) in HV. simplify_eq.
    destruct (rr_cas _ _ _ _ _ _ _ _ _ _ _ _ _ _ Hrr) as (<- & _). done.
  - intros (e' & He' & _ & Hu). congruence.
Qed.

Lemma rr_entry_lookup i : vw_entries w' !! i = match vw_entries w !! i with
    | None => None
    | Some e => if en_userId e =s u
                then match List.find (fun r => er_id r =s i) (rp_entries p) with
                     | Some r => Some (rewrite_row new r e) | None => None end
                else Some e
    end.
Proof.
  rewrite (rr_entries _ _ _ _ _ _ _ _ _ _ _ _ _ _ Hrr).
  destruct (rr_entry_ids _ _ _ _ _ _ _ _ _ _ _ _ _ _ Hrr) as [Hd Hin].
  destruct (decide (i ∈ map er_id (rp_entries p))) as [Hi|Hi].
  - apply list_elem_of_In, in_map_iff in Hi as (r & <- & Hr). apply list_elem_of_In in Hr.
    rewrite (rewrite_all_in er_id (rewrite_row new)) by done.
    destruct (vw_entries w !! er_id r) as [e|] eqn:E; [|done].
    rewrite bool_decide_true.
    2: { apply (rr_entry_submitted (er_id r) e E). apply list_elem_of_In, in_map, list_elem_of_In, Hr. }
    assert (Hf : List.find (fun r' => er_id r' =s er_id r) (rp_entries p) = Some r).
    { clear -Hd Hr. induction (rp_entries p) as [|q l IH]; [by apply not_elem_of_nil in Hr|].
      cbn in Hd |- *. apply NoDup_cons in Hd as [Hn Hd]. apply elem_of_cons in Hr as [->|Hr].
      - by rewrite bool_decide_true.
      - case_bool_decide as Hq; [|by apply IH]. destruct Hn. rewrite Hq.
        apply list_elem_of_In, in_map, list_elem_of_In, Hr. }
    rewrite Hf. done.
  - rewrite rewrite_all_out by done. destruct (vw_entries w !! i) as [e|] eqn:E; [|done].
    rewrite bool_decide_false; [done|]. intros Hu. apply Hi. by apply (rr_entry_submitted i e E).
Qed.

Lemma rr_entry_key i e' : vw_entries w' !! i = Some e' -> exists e, vw_entries w !! i = Some e
  /\ en_userId e' = en_userId e /\ en_tenantId e' = en_tenantId e
  /\ en_keyVersion e' = if en_userId e =s u then new else en_keyVersion e.
Proof.
  rewrite rr_entry_lookup. destruct (vw_entries w !! i) as [e|]; [|done].
  case_bool_decide as Hq; [destruct (List.find _ _) as [r|]; [|done]|];
    intros [= <-]; exists e; by rewrite ?bool_decide_true, ?bool_decide_false by done.
Qed.

Lemma rr_entry_kept i e : vw_entries w !! i = Some e -> exists e', vw_entries w' !! i = Some e'.
Proof.
  intros Hi. rewrite (rr_entries _ _ _ _ _ _ _ _ _ _ _ _ _ _ Hrr).
  generalize (rp_entries p), (vw_entries w), Hi. clear. intros l t Hi. revert t e Hi.
  induction l as [|r l IH]; intros t e Hi; [eauto|]. rewrite rewrite_all_cons.
  destruct (decide (er_id r = i)) as [<-|Hne].
  - eapply IH. rewrite lookup_alter_eq, Hi. done.
  - eapply IH. by rewrite lookup_alter_ne.
Qed.

Lemma rr_history_key k h' : vw_history w' !! k = Some h' -> exists e', vw_entries w' !! hi_entryId h' = Some e'
  /\ hi_tenantId h' = en_tenantId e' /\ hi_keyVersion h' = en_keyVersion e'.
Proof.
  rewrite (rr_history _ _ _ _ _ _ _ _ _ _ _ _ _ _ Hrr).
  destruct (rr_history_ids _ _ _ _ _ _ _ _ _ _ _ _ _ _ Hrr) as [Hd Hin].
  intros Hk. destruct (decide (k ∈ map hr_id (rp_history p))) as [Hi|Hi].
  - pose proof Hi as Hi'. apply Hin in Hi'. apply history_ids_spec in Hi' as (h & e & Hh & Ht & He & Het & Heu).
    apply list_elem_of_In, in_map_iff in Hi as (r & <- & Hr). apply list_elem_of_In in Hr.
    rewrite (rewrite_all_in hr_id (rewrite_history new)) in Hk by done. rewrite Hh in Hk. injection Hk as <-. cbn.
    destruct (rr_entry_kept _ _ He) as [e' He']. exists e'. split; [done|].
    destruct (rr_entry_key _ _ He') as (e0 & He0 & Eu & Et & Ev). assert (e0 = e) as -> by congruence.
    rewrite bool_decide_true in Ev by done. split; congruence.
  - rewrite rewrite_all_out in Hk by done. destruct (co_history _ C _ _ Hk) as (e & He & Ht & Hv).
    destruct (rr_entry_kept _ _ He) as [e' He']. exists e'. split; [done|].
    destruct (rr_entry_key _ _ He') as (e0 & He0 & Eu & Et & Ev). assert (e0 = e) as -> by congruence.
    split; [congruence|]. rewrite Ev. case_bool_decide as Hq; [|done]. destruct Hi. apply Hin.
    apply history_ids_spec. exists h', e. destruct (co_entry _ C _ _ He) as (V & HV & Hvt & _).
    rewrite Hq, (rr_user _ _ _ _ _ _ _ _ _ _ _ _ _ _ Hrr) in HV. injection HV as <-.
    destruct (rr_cas _ _ _ _ _ _ _ _ _ _ _ _ _ _ Hrr) as (Hct & _). repeat split; congruence.
Qed.

(** Rewrapping leaves an attachment where it was. *)
Definition same_place (a a' : attachment) : Prop :=
  at_entryId a' = at_entryId a /\ at_tenantId a' = at_tenantId a /\ at_mode a' = at_mode a.

Lemma same_place_trans a b c : same_place a b -> same_place b c -> same_place a c.
Proof. intros (E1 & E2 & E3) (F1 & F2 & F3). repeat split; congruence. Qed.

Lemma rr_attachment_lookup k a' : vw_attachments w' !! k = Some a' ->
  exists a, vw_attachments w !! k = Some a /\ same_place a a'
    /\ (a' = a \/ cek_at new (at_cek a') /\ attachment_of ctx u w a = true).
Proof.
  rewrite (rr_attachments _ _ _ _ _ _ _ _ _ _ _ _ _ _ Hrr). intros Hk.
  destruct (decide (k ∈ map cr_id (rp_cekRewraps p))) as [Hi|Hi].
  - destruct (rewrite_all_lookup cr_id (fun r => set_cek (rewrapped_cek base64_decode new r)) (rp_cekRewraps p)
      (vw_attachments w) k a' same_place (fun a => cek_at new (at_cek a))) as (a & Ha & Hs & Hor);
      [done|exact same_place_trans|done|done|exact Hk|].
    exists a. split; [done|]. split; [done|]. destruct Hor as [?|Hd]; [by left|right]. split; [done|].
    apply list_elem_of_In, in_map_iff in Hi as (r & <- & Hr). apply list_elem_of_In in Hr.
    destruct (rr_manifest _ _ _ _ _ _ _ _ _ _ _ _ _ _ Hrr _ Hr) as (a0 & Ha0 & Hm & _).
    assert (a0 = a) as -> by congruence. by apply andb_true_iff in Hm as [Hm _].
  - rewrite rewrite_all_out in Hk by done. exists a'. split; [done|]. split; [done|]. by left.
Qed.

(** Where a user's attachment belongs. *)
Lemma attachment_of_entry v i a e : at_entryId a = Some i -> vw_entries v !! i = Some e ->
  at_tenantId a = ctx -> en_tenantId e = ctx -> en_userId e = u -> attachment_of ctx u v a = true.
Proof.
  intros Hi He Ha Ht Hu. unfold attachment_of, under_entry_of, find_entry. rewrite Hi, He. cbn.
  rewrite !bool_decide_true by done. done.
Qed.

Lemma rr_attachment_key k a' i : vw_attachments w' !! k = Some a' -> at_entryId a' = Some i ->
  exists e', vw_entries w' !! i = Some e' /\ at_tenantId a' = en_tenantId e'
    /\ (at_mode a' = 2 -> cek_at (en_keyVersion e') (at_cek a')).
Proof.
  intros Hk Hi. destruct (rr_attachment_lookup _ _ Hk) as (a & Ha & (Ei & Et & Em) & Hor).
  rewrite Ei in Hi. destruct (co_attachment _ C _ _ _ Ha Hi) as (e & He & Hat & Hck).
  destruct (rr_entry_kept _ _ He) as [e' He']. exists e'. split; [done|].
  destruct (rr_entry_key _ _ He') as (e0 & He0 & Eu & Eet & Ev). assert (e0 = e) as -> by congruence.
  split; [congruence|]. intros Hm. rewrite Ev. case_bool_decide as Hq.
  - destruct Hor as [->|[Hd _]]; [|done].
    destruct (co_entry _ C _ _ He) as (V & HV & Hvt & _).
    rewrite Hq, (rr_user _ _ _ _ _ _ _ _ _ _ _ _ _ _ Hrr) in HV. injection HV as <-.
    destruct (rr_cas _ _ _ _ _ _ _ _ _ _ _ _ _ _ Hrr) as (Hct & _).
    assert (Hcomp : cek_incomplete (at_cek a) = false).
    { apply (rr_complete _ _ _ _ _ _ _ _ _ _ _ _ _ _ Hrr _ _ Ha). unfold mode_of.
      rewrite (attachment_of_entry _ _ _ _ Hi He), Hm by congruence. done. }
    split; [done|].
    destruct (rr_post _ _ _ _ _ _ _ _ _ _ _ _ _ _ Hrr _ _ Hk) as [Hn|Hn]; [|exfalso|done].
    { unfold mode_of. rewrite (attachment_of_entry _ _ _ _ Hi He'), Hm by congruence. done. }
    unfold cek_incomplete in Hcomp. rewrite Hn in Hcomp. apply orb_false_iff in Hcomp as [Hcomp _].
    apply orb_false_iff in Hcomp as [_ Hcomp]. done.
  - destruct Hor as [->|[_ Hof]]; [by apply Hck|]. exfalso.
    apply attachment_of_inv in Hof as (_ & i0 & e0 & Hi0 & He00 & _ & Hu0). congruence.
Qed.

Lemma rr_coherent : new = old + 1 -> coherent w'.
Proof.
  intros Hnew. destruct (rr_cas _ _ _ _ _ _ _ _ _ _ _ _ _ _ Hrr) as (Hct & Hov & Hset & Hne & _).
  destruct (rr_users _ _ _ _ _ _ _ _ _ _ _ _ _ _ Hrr) as [verifier Hu].
  eapply (coherent_bump w w' u U); [done| | | | |exact Hu|..].
  - exact (rr_user _ _ _ _ _ _ _ _ _ _ _ _ _ _ Hrr).
  - done.
  - cbn. congruence.
  - cbn. congruence.
  - exact (proj2 (rr_keys _ _ _ _ _ _ _ _ _ _ _ _ _ _ Hrr)).
  - exact rr_entry_key.
  - exact rr_history_key.
  - exact rr_attachment_key.
Qed.
End Result.
End Rotation.

Section Requests.
Context (sha256_hex : jsstr -> jsstr) (hmac : jsstr -> Z -> option jsstr) (base64_decode : jsstr -> jsstr).

Lemma post_rotate_key_coherent w0 session blocked body salt now w :
  coherent w -> coherent (fst (post_rotate_key sha256_hex hmac base64_decode w0 session blocked body salt now w)).
Proof.
  intros C. unfold post_rotate_key. request. apply withUserTenantRls_run; [|done].
  intros ctx _ s s' res Hs H. apply applyVaultRotation_spec in H as (U & Hrr & _).
  by eapply rr_coherent.
Qed.
End Requests.

(** ** Reset *)

Lemma revoke_grants_Ok target now w w' x :
  revoke_grants target now w = (w', Ok x) -> exists t, w' = set_wrappings (vw_credentials w) t w.
Proof.
  unfold revoke_grants. destruct (revokeGrantsOnVaultReset _ _ _ _) as [t [n|e]]; [|done].
  intros [= <- <-]. eauto.
Qed.

Record reset_result (target : jsstr) (U : vault_user) (w w' : vault_world) : Prop := {
  rs_user : vw_users w !! target = Some U;
  rs_users : vw_users w' = <[target := wiped_user U]> (vw_users w);
  rs_entries : forall i e, vw_entries w' !! i = Some e <-> vw_entries w !! i = Some e /\ en_userId e <> target;
  rs_history : forall k h, vw_history w' !! k = Some h <-> vw_history w !! k = Some h
    /\ forall e, vw_entries w !! hi_entryId h = Some e -> en_userId e <> target;
  rs_attachments : forall k a, vw_attachments w' !! k = Some a <-> vw_attachments w !! k = Some a
    /\ at_createdById a <> target
    /\ forall i e, at_entryId a = Some i -> vw_entries w !! i = Some e -> en_userId e <> target;
  rs_keys : forall q v k, vw_vaultKeys w' !! (q, v) = Some k <-> vw_vaultKeys w !! (q, v) = Some k /\ q <> target;
  rs_credentials : vw_credentials w' = vw_credentials w }.

Lemma executeVaultReset_spec w0 target t now w w' r :
  executeVaultReset w0 target t now w = (w', Ok r) ->
  r = reset_counts w0 target /\ exists U, reset_result target U w w'.
Proof.
  unfold executeVaultReset. cbv zeta. intros H. apply (proj1 (vault_transaction_Ok _ _ _ _)) in H.
  apply st_bind_Ok_inv in H as (s1 & y1 & H1 & H). apply modify_Ok in H1.
  apply st_bind_Ok_inv in H as (s2 & y2 & H2 & H). apply modify_Ok in H2.
  apply st_bind_Ok_inv in H as (s3 & y3 & H3 & H). apply modify_Ok in H3.
  apply st_bind_Ok_inv in H as (s4 & y4 & H4 & H). apply modify_Ok in H4.
  apply st_bind_Ok_inv in H as (s5 & y5 & H5 & H). apply modify_Ok in H5.
  apply st_bind_Ok_inv in H as (s6 & y6 & H6 & H). apply revoke_grants_Ok in H6 as [g H6].
  apply st_bind_Ok_inv in H as (s7 & y7 & H7 & H). apply modify_Ok in H7.
  apply st_bind_Ok_inv in H as (s8 & y8 & H8 & H). apply update_user_Ok in H8 as (U & HU & _ & H8).
  apply st_bind_Ok_inv in H as (s9 & y9 & H9 & H). apply st_ret_Ok in H as [-> ->]. split; [done|].
  assert (E9 : same_rows s8 s9 /\ vw_users s9 = vw_users s8 /\ vw_credentials s9 = vw_credentials s8).
  { destruct t; [apply modify_Ok in H9; rewrite H9 | apply st_ret_Ok in H9 as [-> _]]; done. }
  assert (E8 : same_rows s4 s8 /\ vw_users s7 = vw_users s4 /\ vw_credentials s8 = vw_credentials s4).
  { rewrite H8, H7, H6, H5. done. }
  assert (E4 : vw_entries s4 = vw_entries s3 /\ vw_history s4 = vw_history s3
    /\ vw_attachments s4 = vw_attachments s3 /\ vw_users s4 = vw_users w /\ vw_credentials s4 = vw_credentials w).
  { rewrite H4, H3, H2, H1. done. }
  destruct E9 as ((Qe & Qh & Qa & Qk) & Qu & Qc), E8 as ((Re & Rh & Ra & Rk) & Ru & Rc), E4 as (Te & Th & Ta & Tu & Tc).
  assert (He : vw_entries s9 = vw_entries s3) by congruence.
  assert (Hh : vw_history s9 = vw_history s3) by congruence.
  assert (Ha : vw_attachments s9 = vw_attachments s3) by congruence.
  assert (Hk : vw_vaultKeys s9 = vw_vaultKeys s4) by congruence.
  assert (EU : vw_users s7 = vw_users w) by congruence. rewrite EU in HU. exists U. split.
  - done.
  - rewrite Qu, H8. cbn. by rewrite EU.
  - intros i e. rewrite He, H3, H2, H1. cbn. rewrite map_lookup_filter_Some. cbn.
    rewrite bool_decide_eq_false. done.
  - intros k h. rewrite Hh, H3, H2, H1. cbn. rewrite map_lookup_filter_Some. cbn.
    destruct (vw_entries w !! hi_entryId h) as [e|]; [rewrite bool_decide_eq_false|]; naive_solver.
  - intros k a. rewrite Ha, H3, H2, H1. cbn. unfold deleteMany. rewrite !map_lookup_filter_Some. cbn.
    rewrite bool_decide_eq_false. split.
    + intros [[Hk' Hcr] Hg]. split; [done|]. split; [done|]. intros i e Hi Hie. rewrite Hi, Hie in Hg.
      by apply bool_decide_eq_false in Hg.
    + intros (Hk' & Hcr & Hg). split; [done|]. destruct (at_entryId a) as [i|]; [|done].
      destruct (vw_entries w !! i) as [e|] eqn:E; [|done]. apply bool_decide_eq_false. eauto.
  - intros q v k. rewrite Hk, H4, H3, H2, H1. cbn. rewrite map_lookup_filter_Some. done.
  - congruence.
Qed.

Lemma reset_coherent target U w w' : reset_result target U w w' -> coherent w -> coherent w'.
Proof.
  intros [HU Hus He Hh Ha Hk _] [C1 C2 C3 C4 C5 C6]. split.
  - intros v V. rewrite Hus. destruct (decide (target = v)) as [<-|Hne].
    + rewrite lookup_insert_eq. intros [= <-]. cbn. done.
    + rewrite lookup_insert_ne by done. apply C1.
  - intros i e Hi. apply He in Hi as [Hi Hne]. rewrite Hus, lookup_insert_ne by done. by eapply C2.
  - intros k h Hk'. apply Hh in Hk' as [Hk' Hg]. destruct (C3 _ _ Hk') as (e & Hie & ?). exists e.
    split; [|done]. apply He. eauto.
  - intros k a i Hk' Hi. apply Ha in Hk' as (Hk' & _ & Hg). destruct (C4 _ _ _ Hk' Hi) as (e & Hie & ?).
    exists e. split; [|done]. apply He. eauto.
  - intros v n k Hk'. apply Hk in Hk' as [Hk' Hne]. rewrite Hus, lookup_insert_ne by done. eauto.
  - intros v V n. rewrite Hus. destruct (decide (target = v)) as [<-|Hne].
    + rewrite lookup_insert_eq. intros [= <-]. cbn. lia.
    + rewrite lookup_insert_ne by done. intros HV Hn. destruct (C6 _ _ _ HV Hn) as [k Hk']. exists k.
      by apply Hk.
Qed.

Lemma executeVaultReset_atomic w0 target t now : atomic (executeVaultReset w0 target t now).
Proof. unfold executeVaultReset. cbv zeta. apply atomic_transaction. Qed.

Lemma executeVaultReset_coherent w0 target t now w :
  coherent w -> coherent (fst (executeVaultReset w0 target t now w)).
Proof.
  intros C. destruct (executeVaultReset w0 target t now w) as [w' [r|e]] eqn:E; cbn.
  - apply executeVaultReset_spec in E as (_ & U & Hr). by eapply reset_coherent.
  - rewrite (executeVaultReset_atomic w0 target t now w w' e E). done.
Qed.

Lemma post_vault_reset_coherent w0 session blocked stepUp body inval now w :
  coherent w -> coherent (fst (post_vault_reset w0 session blocked stepUp body inval now w)).
Proof.
  intros C. unfold post_vault_reset. destruct session as [u|]; [|done]. destruct blocked; [done|].
  destruct stepUp; [done|]. destruct body as [c|]; [|done]. destruct (negb _); [done|].
  destruct (resolveUserTenantId u w0) as [[[|x t]|]|]; try done.
  unfold st_bind. pose proof (executeVaultReset_coherent w0 u (Some (VAULT_RESET_EXECUTED u (x :: t))) now w C) as H.
  destruct (executeVaultReset _ _ _ _ _) as [w' [r|e]]; cbn in *; [|done]. by destruct inval.
Qed.
