(* ===== verification/VaultSpec.v ===== *)
(** * The guarantees of the personal vault

    The routes of [Vault] and [VaultRotation] as one transition system, and what
    holds along its runs: one key version per vault, rotations that re-encrypt
    everything or nothing, no lost update between the client's download and its
    rotation, a bounded history. *)

From S2P Require Import Prelude JsString Table StatusMachine EmergencyAccess Vault VaultRotation VaultSafety.
From stdpp Require Import fin_maps sorting.
Local Open Scope Z_scope.
Local Open Scope js_scope.

(** ** Requests *)

Inductive vault_request :=
| QCreate (authed : option jsstr) (rl : bool) (max : Z) (body : option create_input) (newId : jsstr)
| QCreateV1 (authed : option (jsstr * jsstr)) (denied blocked : bool) (body : option create_input) (newId : jsstr)
| QImport (authed : option jsstr) (rl : bool) (body : option (list (create_input * jsstr)))
| QPut (authed : option jsstr) (rl : bool) (id : jsstr) (body : option update_input) (now : Z) (hid : jsstr)
| QPutV1 (authed : option (jsstr * jsstr)) (denied : bool) (id : jsstr) (body : option update_input) (now : Z) (hid : jsstr)
| QHistoryRestore (session : option jsstr) (id historyId : jsstr) (now : Z) (hid : jsstr)
| QBulk (op : bulk_operation) (session : option jsstr) (body : option (list jsstr)) (now : Z)
| QBulkPurge (session : option jsstr) (stepUp : bool) (body : option (list jsstr))
| QEmptyTrash (session : option jsstr) (stepUp : bool)
| QDelete (authed : option (jsstr * bool)) (permanent stepUp : bool) (id : jsstr) (now : Z)
| QDeleteV1 (authed : option (jsstr * jsstr)) (denied permanent : bool) (id : jsstr) (now : Z)
| QRestore (session : option jsstr) (id : jsstr)
| QPurgeHistory (tenantId : jsstr) (cutoff : Z)
| QUpload (session : option jsstr) (id : jsstr) (rl formOk : bool) (f : upload_form) (stored attachmentId : jsstr)
| QDeleteAttachment (session : option jsstr) (id attachmentId : jsstr)
| QMigrate (session : option jsstr) (rl formOk : bool) (attachmentId : jsstr) (p : migrate_body)
| QSetup (session : option jsstr) (blocked : bool) (body : option setup_body) (now : Z) (salt : jsstr)
| QChangePassphrase (session : option jsstr) (blocked : bool) (body : option change_body) (invalidated : bool)
| QRecoveryGenerate (session : option jsstr) (blocked : bool) (body : option generate_body) (now : Z)
| QRecover (session : option jsstr) (blocked : bool) (body : option recover_body) (now : Z) (invalidated : bool)
| QRotate (session : option jsstr) (blocked : bool) (body : option RotationPayload) (salt : jsstr) (now : Z)
| QReset (session : option jsstr) (blocked stepUp : bool) (body : option jsstr) (invalidated : bool) (now : Z).

Section System.
Context (sha256_hex : jsstr -> jsstr) (hmac : jsstr -> Z -> option jsstr) (base64_decode : jsstr -> jsstr).

Definition handle (q : vault_request) (w0 : vault_world) : tx vault_response :=
  match q with
  | QCreate a rl max b id => post_passwords w0 a rl max b id
  | QCreateV1 a d bl b id => post_v1_passwords a d bl b id
  | QImport a rl b => post_bulk_import a rl b
  | QPut a rl id b now hid => put_passwords w0 a rl id b now hid
  | QPutV1 a d id b now hid => put_v1_passwords w0 a d id b now hid
  | QHistoryRestore s id k now hid => post_history_restore w0 s id k now hid
  | QBulk op s b now => post_bulk op s b now
  | QBulkPurge s st b => post_bulk_purge s st b
  | QEmptyTrash s st => post_empty_trash s st
  | QDelete a p st id now => delete_passwords w0 a p st id now
  | QDeleteV1 a d p id now => delete_v1_passwords w0 a d p id now
  | QRestore s id => post_restore w0 s id
  | QPurgeHistory t c => answer (fun _ => VOk) (fun _ => None) (purge_history t c)
  | QUpload s id rl ok f st aid => post_attachments base64_decode w0 s id rl ok f st aid
  | QDeleteAttachment s id aid => delete_attachment w0 s id aid
  | QMigrate s rl ok aid p => put_migrate sha256_hex base64_decode s rl ok aid p
  | QSetup s bl b now salt => post_setup sha256_hex hmac w0 s bl b now salt
  | QChangePassphrase s bl b inv => post_change_passphrase hmac w0 s bl b inv
  | QRecoveryGenerate s bl b now => post_recovery_generate hmac w0 s bl b now
  | QRecover s bl b now inv => post_recover_reset hmac w0 s bl b now inv
  | QRotate s bl b salt now => post_rotate_key sha256_hex hmac base64_decode w0 s bl b salt now
  | QReset s bl st b inv now => post_vault_reset w0 s bl st b inv now
  end.

(** One request: its reads at an earlier database, its transaction at the present one. *)
Inductive vault_step (w : vault_world) (q : vault_request) : vault_world -> Prop :=
| VStep w0 : earlier w0 w -> vault_step w q (fst (handle q w0 w)).

Inductive vault_run (w : vault_world) : list vault_request -> vault_world -> Prop :=
| VNil : vault_run w [] w
| VCons q qs w1 w2 : vault_run w qs w1 -> vault_step w1 q w2 -> vault_run w (qs ++ [q]) w2.

Lemma handle_coherent q w0 w : earlier w0 w -> coherent w -> coherent (fst (handle q w0 w)).
Proof.
  intros He C. destruct q; cbn [handle].
  - by apply post_passwords_coherent.
  - by apply post_v1_passwords_coherent.
  - by apply post_bulk_import_coherent.
  - by apply put_passwords_coherent.
  - by apply put_v1_passwords_coherent.
  - by apply post_history_restore_coherent.
  - by apply post_bulk_coherent.
  - by apply post_bulk_purge_coherent.
  - by apply post_empty_trash_coherent.
  - by apply delete_passwords_coherent.
  - by apply delete_v1_passwords_coherent.
  - by apply post_restore_coherent.
  - rewrite answer_fst. by apply purge_history_coherent.
  - by apply post_attachments_coherent.
  - by apply delete_attachment_coherent.
  - by apply put_migrate_coherent.
  - by apply post_setup_coherent.
  - by apply post_change_passphrase_coherent.
  - by apply post_recovery_generate_coherent.
  - by apply post_recover_reset_coherent.
  - by apply post_rotate_key_coherent.
  - by apply post_vault_reset_coherent.
Qed.

(** C2: Every personal vault is under one version of its key: along every run of
    the vault's routes, whatever was committed between the reads of a request and
    its transaction, each entry, each history row and each wrapped attachment key
    carries the key version and the tenant of its owner, and each version of a key
    has its verification artifact. *)
Theorem vault_keys_coherent w qs w' : coherent w -> vault_run w qs w' -> coherent w'.
Proof.
  intros C H. induction H as [|q qs w1 w2 Hr IH [w0 He]]; [done|]. by apply handle_coherent.
Qed.

(** ** Rotation *)

Lemma answer_VOk {A} (ok : A -> vault_response) c (m : tx A) w w' :
  answer ok c m w = (w', Ok VOk) -> exists a, m w = (w', Ok a) /\ ok a = VOk.
Proof.
  unfold answer. destruct (m w) as [s [a|e]]; [intros [= <- ?]; eauto|]. by destruct (c e).
Qed.

Lemma vault_tenant_Ok {A} u (fn : jsstr -> tx A) w w' a :
  withUserTenantRls u fn w = (w', Ok a) -> exists ctx, user_tenant u w = Ok ctx /\ fn ctx w = (w', Ok a).
Proof.
  unfold withUserTenantRls, withTenantRls. destruct (user_tenant u w) as [ctx|]; [|done].
  intros H. exists ctx. split; [done|]. exact (proj1 (vault_transaction_Ok _ _ _ _) H).
Qed.

Lemma post_rotate_key_VOk w0 session blocked body salt now w w' :
  post_rotate_key sha256_hex hmac base64_decode w0 session blocked body salt now w = (w', Ok VOk) ->
  exists u p s U ctx, session = Some u /\ body = Some p /\ rotateKeySchema p = true
    /\ rotation_read sha256_hex w0 u (rp_currentAuthHash p) = Ok (inr s)
    /\ rotation_result base64_decode ctx u (rs_tenantId s) (rs_keyVersion s) (rs_keyVersion s + 1)
         (sha256_hex (rp_newAuthHash p ++ salt)) salt p (Some (rs_vaultSetupAt s)) (rs_accountSalt s) now U w w'.
Proof.
  unfold post_rotate_key. destruct session as [u|]; [|done]. destruct blocked; [done|].
  destruct body as [p|]; [|done]. destruct (rotateKeySchema p) eqn:Es; [|done]. cbn.
  destruct (rotation_read _ _ _ _) as [[e|s]|] eqn:Er; [done| |done].
  intros H. apply answer_VOk in H as (eff & H & _). apply vault_tenant_Ok in H as (ctx & _ & H).
  apply applyVaultRotation_spec in H as (U & Hr & _). exists u, p, s, U, ctx. done.
Qed.

(** The rows of one user after a rotation to version [n] by the payload [p], and
    everybody else's. *)
Definition entries_rotated (u : jsstr) (p : RotationPayload) (n : Z) (w w' : vault_world) : Prop :=
  forall i, match vw_entries w !! i with
            | None => vw_entries w' !! i = None
            | Some e => if decide (en_userId e = u)
                        then exists r, r ∈ rp_entries p /\ er_id r = i /\ vw_entries w' !! i = Some (rewrite_row n r e)
                        else vw_entries w' !! i = Some e
            end.
Definition history_rotated (u : jsstr) (p : RotationPayload) (n : Z) (w w' : vault_world) : Prop :=
  forall k, match vw_history w !! k with
            | None => vw_history w' !! k = None
            | Some h => if decide (en_userId <$> vw_entries w !! hi_entryId h = Some u)
                        then exists r, r ∈ rp_history p /\ hr_id r = k /\ vw_history w' !! k = Some (rewrite_history n r h)
                        else vw_history w' !! k = Some h
            end.


Section Result.
Context (ctx u tenant : jsstr) (old new : Z) (hash salt : jsstr) (p : RotationPayload)
        (setup : option Z) (accountSalt : jsstr) (now : Z) (U : vault_user) (w w' : vault_world).
Context (Hrr : rotation_result base64_decode ctx u tenant old new hash salt p setup accountSalt now U w w')
        (C : coherent w).

Lemma rr_entries_rotated : entries_rotated u p new w w'.
Proof.
  intros i. destruct (rr_entry_ids _ _ _ _ _ _ _ _ _ _ _ _ _ _ _ Hrr) as [Hd _].
  rewrite (rr_entry_lookup _ _ _ _ _ _ _ _ _ _ _ _ _ _ _ Hrr C i).
  destruct (vw_entries w !! i) as [e|] eqn:E; [|done].
  destruct (decide (en_userId e = u)) as [Hu|Hu]; [rewrite bool_decide_true by done|by rewrite bool_decide_false].
  pose proof Hu as Hi. apply (rr_entry_submitted _ _ _ _ _ _ _ _ _ _ _ _ _ _ _ Hrr C i e E) in Hi.
  apply list_elem_of_In, in_map_iff in Hi as (r & Hri & Hr).
  destruct (List.find (fun r => er_id r =s i) (rp_entries p)) as [r'|] eqn:Ef.
  - apply find_some in Ef as [Hin Hq]. bools. exists r'. split; [by apply list_elem_of_In|]. done.
  - apply (find_none _ _ Ef) in Hr. bools. done.
Qed.

Lemma rr_history_rotated : history_rotated u p new w w'.
Proof.
  intros k. destruct (rr_history_ids _ _ _ _ _ _ _ _ _ _ _ _ _ _ _ Hrr) as [Hd Hin].
  rewrite (rr_history _ _ _ _ _ _ _ _ _ _ _ _ _ _ _ Hrr).
  destruct (vw_history w !! k) as [h|] eqn:E.
  2: { rewrite rewrite_all_out; [done|]. rewrite Hin, history_ids_spec. intros (h & e & Hh & _). congruence. }
  destruct (co_history _ C _ _ E) as (e & He & Ht & Hv). rewrite He. cbn.
  destruct (decide (Some (en_userId e) = Some u)) as [[= Hu]|Hu].
  - assert (Hk : k ∈ map hr_id (rp_history p)).
    { apply Hin, history_ids_spec. exists h, e. destruct (co_entry _ C _ _ He) as (V & HV & Hvt & _).
      rewrite Hu, (rr_user _ _ _ _ _ _ _ _ _ _ _ _ _ _ _ Hrr) in HV. injection HV as <-.
      destruct (rr_cas _ _ _ _ _ _ _ _ _ _ _ _ _ _ _ Hrr) as (Hct & _). repeat split; congruence. }
    apply list_elem_of_In, in_map_iff in Hk as (r & <- & Hr). apply list_elem_of_In in Hr.
    exists r. split; [done|]. split; [done|]. rewrite (rewrite_all_in hr_id (rewrite_history new)) by done.
    by rewrite E.
  - rewrite rewrite_all_out; [done|]. rewrite Hin, history_ids_spec. intros (h' & e' & Hh & _ & He' & _ & Hu').
    rewrite E in Hh. injection Hh as <-. congruence.
Qed.



End Result.


Lemma rotation_read_inv w0 u h s :
  rotation_read sha256_hex w0 u h = Ok (inr s) ->
  exists U0, vw_users w0 !! u = Some U0 /\ vu_tenantId U0 = rs_tenantId s /\ vu_keyVersion U0 = rs_keyVersion s
    /\ vu_vaultSetupAt U0 = Some (rs_vaultSetupAt s) /\ vu_accountSalt U0 = Some (rs_accountSalt s)
    /\ exists hash salt, vu_serverHash U0 = Some hash /\ vu_serverSalt U0 = Some salt /\ sha256_hex (h ++ salt) = hash.
Proof.
  assert (Hne : forall x y, nonempty x = Some y -> x = Some y) by (intros [[|? ?]|] y; cbn; congruence).
  unfold rotation_read. intros H. apply bind_Ok_inv in H as (ctx & _ & H).
  destruct (find_user ctx u w0) as [U|] eqn:E; [|done]. apply find_user_Some in E as [HU _].
  destruct (vu_vaultSetupAt U) as [at_|] eqn:E1; [|done]. destruct (nonempty (vu_serverHash U)) as [hs|] eqn:E2; [|done].
  destruct (nonempty (vu_serverSalt U)) as [ss|] eqn:E3; [|done].
  destruct (nonempty (vu_accountSalt U)) as [sa|] eqn:E4; [|done].
  destruct (bool_decide (sha256_hex (h ++ ss) = hs)) eqn:E5; [|done]. cbn in H. injection H as <-. bools.
  exists U. repeat split; auto. exists hs, ss. auto.
Qed.

Lemma post_rotate_key_atomic w0 session blocked body salt now w w' r :
  post_rotate_key sha256_hex hmac base64_decode w0 session blocked body salt now w = (w', r) -> r <> Ok VOk -> w' = w.
Proof.
  unfold post_rotate_key. destruct session as [u|]; [|by intros [= <- <-]]. destruct blocked; [by intros [= <- <-]|].
  destruct body as [p|]; [|by intros [= <- <-]]. destruct (negb _); [by intros [= <- <-]|].
  destruct (rotation_read _ _ _ _) as [[e|s]|]; [by intros [= <- <-]| |by intros [= <- <-]].
  unfold answer, withUserTenantRls, withTenantRls, transaction.
  destruct (user_tenant u w) as [ctx|e]; [|cbn; destruct (catch_rotation e); by intros [= <- <-]].
  destruct (applyVaultRotation _ _ _ _ _ _ _ _ _ _ _ _ _ _) as [s' [a|e]]; [by intros [= <- <-]|].
  destruct (catch_rotation e); by intros [= <- <-].
Qed.

(** C21: A rotation is all or nothing and never built on a stale key: unless it
    answers success the database is left as it was, whatever check or statement
    failed; and it answers success only to a caller that proved the current secret
    key, when the key version, the setup time and the account salt it read before
    the transaction are still those of the users row. *)
Theorem rotation_all_or_nothing w0 session blocked body salt now w :
  let r := post_rotate_key sha256_hex hmac base64_decode w0 session blocked body salt now w in
  (snd r <> Ok VOk -> fst r = w) /\
  (snd r = Ok VOk -> exists u p U0 U hash ssalt,
     session = Some u /\ body = Some p /\ vw_users w0 !! u = Some U0 /\ vw_users w !! u = Some U
     /\ vu_keyVersion U = vu_keyVersion U0 /\ vu_vaultSetupAt U = vu_vaultSetupAt U0
     /\ vu_accountSalt U = vu_accountSalt U0 /\ vu_vaultSetupAt U <> None
     /\ vu_serverHash U0 = Some hash /\ vu_serverSalt U0 = Some ssalt
     /\ sha256_hex (rp_currentAuthHash p ++ ssalt) = hash).
Proof.
  cbv zeta. destruct (post_rotate_key _ _ _ _ _ _ _ _ _ _) as [w' r] eqn:E. cbn. split.
  - intros Hr. by eapply post_rotate_key_atomic.
  - intros ->. apply post_rotate_key_VOk in E as (u & p & s & U & ctx & -> & -> & _ & Hread & Hrr).
    apply rotation_read_inv in Hread as (U0 & HU0 & _ & Hk & Hs & Ha & hash & ss & Hh & Hss & Hq).
    destruct (rr_cas _ _ _ _ _ _ _ _ _ _ _ _ _ _ _ Hrr) as (_ & Hov & Hset & Hne & Hsalt).
    exists u, p, U0, U, hash, ss. split_and!; try done; try congruence.
    exact (rr_user _ _ _ _ _ _ _ _ _ _ _ _ _ _ _ Hrr).
Qed.

(** Of the rotations that started from one state of a user's vault at most one
    commits: once a rotation has answered success, every other rotation of the user
    whose reads came before that commit is refused and changes nothing. *)
Theorem rotation_exclusive w0 u blocked p salt now w w1 w0' blocked' body' salt' now' :
  post_rotate_key sha256_hex hmac base64_decode w0 (Some u) blocked (Some p) salt now w = (w1, Ok VOk) ->
  vw_users w0' !! u = vw_users w !! u ->
  exists r, post_rotate_key sha256_hex hmac base64_decode w0' (Some u) blocked' body' salt' now' w1 = (w1, r)
    /\ r <> Ok VOk.
Proof.
  intros H Hsnap. apply post_rotate_key_VOk in H as (u' & p' & s & U & ctx & [= <-] & [= <-] & _ & _ & Hrr).
  destruct (post_rotate_key _ _ _ w0' _ _ _ _ _ w1) as [w2 r] eqn:E. exists r.
  assert (Hr : r <> Ok VOk).
  { intros ->. apply post_rotate_key_VOk in E as (u' & p' & s' & U' & ctx' & [= <-] & -> & _ & Hread & Hrr').
    apply rotation_read_inv in Hread as (U0 & HU0 & _ & Hk & _).
    rewrite Hsnap, (rr_user _ _ _ _ _ _ _ _ _ _ _ _ _ _ _ Hrr) in HU0. injection HU0 as <-.
    destruct (rr_cas _ _ _ _ _ _ _ _ _ _ _ _ _ _ _ Hrr) as (_ & Hov & _).
    destruct (rr_cas _ _ _ _ _ _ _ _ _ _ _ _ _ _ _ Hrr') as (_ & Hov' & _).
    pose proof (rr_user _ _ _ _ _ _ _ _ _ _ _ _ _ _ _ Hrr') as HU'.
    destruct (rr_users _ _ _ _ _ _ _ _ _ _ _ _ _ _ _ Hrr) as [v Hus]. rewrite Hus, lookup_insert_eq in HU'.
    injection HU' as <-. cbn in Hov'. lia. }
  split; [|done]. f_equal. by eapply post_rotate_key_atomic.
Qed.

End System.

(** ** The history of an entry *)

Lemma js_leb_total a b : js_leb a b = true \/ js_leb b a = true.
Proof.
  revert b. induction a as [|x a IH]; intros [|y b]; cbn; auto.
  destruct (Z.ltb_spec x y), (Z.ltb_spec y x), (Z.eqb_spec x y), (Z.eqb_spec y x); cbn; auto; lia.
Qed.
Lemma js_leb_trans a b c : js_leb a b = true -> js_leb b c = true -> js_leb a c = true.
Proof.
  revert b c. induction a as [|x a IH]; intros [|y b] [|z c]; cbn; try done.
  intros H1 H2. apply orb_true_iff in H1, H2. apply orb_true_iff.
  destruct H1 as [H1|H1], H2 as [H2|H2]; bools; try (left; apply Z.ltb_lt; lia).
  subst. right. rewrite Z.eqb_refl. eauto.
Qed.

#[export] Instance older_total : Total older.
Proof.
  intros [k h] [k' h']. unfold older. cbn.
  destruct (Z.ltb_spec (hi_changedAt h) (hi_changedAt h')); [by left|].
  destruct (Z.ltb_spec (hi_changedAt h') (hi_changedAt h)); [by right|].
  assert (hi_changedAt h = hi_changedAt h') as -> by lia. rewrite Z.eqb_refl. cbn. apply js_leb_total.
Qed.
#[export] Instance older_trans : Transitive older.
Proof.
  intros [k h] [k' h'] [k'' h'']. unfold older. cbn. intros H1 H2. apply orb_true_iff in H1, H2. apply orb_true_iff.
  destruct H1 as [H1|H1], H2 as [H2|H2]; bools; try (left; apply Z.ltb_lt; lia).
  right. rewrite (proj2 (Z.eqb_eq _ _)) by lia. cbn. by eapply js_leb_trans.
Qed.

Lemma entry_history_spec ctx i t k h :
  (k, h) ∈ entry_history ctx i t <-> t !! k = Some h /\ hi_tenantId h = ctx /\ hi_entryId h = i.
Proof.
  unfold entry_history. rewrite merge_sort_Permutation, list_elem_of_In, filter_In, <- list_elem_of_In, elem_of_map_to_list.
  cbn. rewrite andb_true_iff, !bool_decide_eq_true. done.
Qed.

Lemma entry_history_NoDup ctx i t : NoDup (map fst (entry_history ctx i t)).
Proof.
  unfold entry_history. rewrite merge_sort_Permutation.
  pose proof (NoDup_fst_map_to_list t) as H. revert H. induction (map_to_list t) as [|kr l IH]; [done|]. cbn.
  intros Hd. apply NoDup_cons in Hd as [Hn Hd]. destruct (_ && _); [|by apply IH]. cbn. constructor; [|by apply IH].
  intros Hin. apply Hn. apply list_elem_of_In, in_map_iff in Hin as (q & <- & Hq).
  apply filter_In in Hq as [Hq _]. by apply list_elem_of_In, in_map.
Qed.

(** A row newer than all others of its entry survives the trim. *)
Lemma trim_keeps_newest ctx i t k h :
  t !! k = Some h -> hi_tenantId h = ctx -> hi_entryId h = i ->
  (forall k' h', t !! k' = Some h' -> hi_entryId h' = i -> k' <> k -> hi_changedAt h' < hi_changedAt h) ->
  trim_history ctx i t !! k = Some h.
Proof.
  intros Hk Ht Hi Hnew. unfold trim_history. destruct (Nat.ltb_spec HISTORY_MAX (length (entry_history ctx i t))) as [Hl|]; [|done].
  apply map_lookup_filter_Some. split; [done|]. cbn. intros Hin.
  set (l := entry_history ctx i t) in *. set (n := (length l - HISTORY_MAX)%nat) in *.
  pose proof (entry_history_NoDup ctx i t : NoDup (map fst l)) as Hd.
  assert (Hs : StronglySorted older (take n l ++ drop n l)).
  { rewrite take_drop. apply Sorted_StronglySorted; [exact older_trans|]. apply Sorted_merge_sort. apply _. }
  apply list_elem_of_In, in_map_iff in Hin as ([k' h'] & E & Hin). cbn in E. subst k'.
  destruct (drop n l) as [|[k2 h2] l2] eqn:Ed.
  { assert (length (drop n l) = 0%nat) as H0 by (by rewrite Ed). rewrite length_drop in H0. unfold HISTORY_MAX in *. lia. }
  assert (Hl2 : (k2, h2) ∈ l) by (rewrite <- (take_drop n l), Ed; apply elem_of_app; right; apply list_elem_of_here).
  assert (Hk' : (k, h') ∈ l) by (rewrite <- (take_drop n l); apply elem_of_app; left; by apply list_elem_of_In).
  apply entry_history_spec in Hk' as (Hkh & _). rewrite Hk in Hkh. injection Hkh as <-.
  assert (Hne : k2 <> k).
  { intros ->. rewrite <- (take_drop n l), Ed, map_app in Hd. apply NoDup_app in Hd as (_ & Hx & _).
    apply (Hx k); [apply list_elem_of_In, in_map_iff; by exists (k, h)|]. apply list_elem_of_here. }
  apply entry_history_spec in Hl2 as (Hk2 & _ & Hi2). specialize (Hnew _ _ Hk2 Hi2 Hne).
  assert (Ho : older (k, h) (k2, h2)).
  { eapply (StronglySorted_app_1_elem_of older); [exact Hs|by apply list_elem_of_In|apply list_elem_of_here]. }
  unfold older in Ho. cbn in Ho. apply orb_true_iff in Ho as [Ho|Ho]; bools; lia.
Qed.

Lemma trim_history_other ctx i t k h : t !! k = Some h -> hi_entryId h <> i -> trim_history ctx i t !! k = Some h.
Proof.
  intros Hk Hi. unfold trim_history. destruct (Nat.ltb _ _); [|done]. apply map_lookup_filter_Some. split; [done|].
  cbn. intros Hin. apply list_elem_of_In, in_map_iff in Hin as ([k' h'] & E & Hin). cbn in E. subst k'.
  assert (Hl : (k, h') ∈ entry_history ctx i t)
    by (rewrite <- (take_drop (length (entry_history ctx i t) - HISTORY_MAX)); apply elem_of_app; left;
        by apply list_elem_of_In).
  apply entry_history_spec in Hl as (Hkh & _ & Hi'). congruence.
Qed.

(** ** No lost update

    A client downloads the vault of [u] from [w0], re-encrypts it and posts the
    rotation; other requests run in between.  [traced]: since [w0] an entry of [u]
    kept its ciphertext, or its history has a row that [w0] did not have. *)

Definition same_cipher (e e' : entry) : Prop := en_blob e' = en_blob e /\ en_overview e' = en_overview e.

Section Trace.
Context (u : jsstr) (w0 : vault_world).

Definition known (k : jsstr) : Prop := is_Some (vw_history w0 !! k).
Definition mine (w : vault_world) (i : jsstr) : Prop := exists e, vw_entries w !! i = Some e /\ en_userId e = u.
Definition new_version (w : vault_world) (i : jsstr) : Prop :=
  exists k h, vw_history w !! k = Some h /\ hi_entryId h = i /\ ~ known k.

Record tstep (w1 w2 : vault_world) : Prop := {
  ts_entry : forall i e2, vw_entries w2 !! i = Some e2 -> en_userId e2 = u -> is_Some (vw_entries w0 !! i) ->
    exists e1, vw_entries w1 !! i = Some e1 /\ en_userId e1 = u /\
      ((same_cipher e1 e2 /\ forall k h, vw_history w1 !! k = Some h -> hi_entryId h = i ->
          vw_history w2 !! k = Some h)
       \/ new_version w2 i);
  ts_history : forall k h, vw_history w2 !! k = Some h -> known k -> mine w2 (hi_entryId h) ->
    vw_history w1 !! k = Some h /\ mine w1 (hi_entryId h) }.

Record traced (w : vault_world) : Prop := {
  tr_entry : forall i e0 e, vw_entries w0 !! i = Some e0 -> vw_entries w !! i = Some e -> en_userId e = u ->
    same_cipher e0 e \/ new_version w i;
  tr_history : forall k h, vw_history w !! k = Some h -> known k -> mine w (hi_entryId h) ->
    vw_history w0 !! k = Some h }.

Lemma traced_start : traced w0.
Proof. split; [|done]. intros i e0 e H0 H _. left. by simplify_eq. Qed.

Lemma traced_step w1 w2 : traced w1 -> tstep w1 w2 -> traced w2.
Proof.
  intros [T1 T2] [S1 S2]. split.
  - intros i e0 e Hi0 Hi Hu. destruct (S1 _ _ Hi Hu) as (e1 & Hi1 & Hu1 & Hor); [by eexists|].
    destruct Hor as [[[Eb Eo] Hk]|?]; [|by right].
    destruct (T1 _ _ _ Hi0 Hi1 Hu1) as [[Eb' Eo']|(k & h & Hkh & Hie & Hn)].
    + left. split; congruence.
    + right. exists k, h. auto.
  - intros k h Hk Hkn Hm. destruct (S2 _ _ Hk Hkn Hm). auto.
Qed.

Lemma tstep_trans w1 w2 w3 : tstep w1 w2 -> tstep w2 w3 -> tstep w1 w3.
Proof.
  intros [S1 S2] [R1 R2]. split.
  - intros i e3 Hi Hu H0. destruct (R1 _ _ Hi Hu H0) as (e2 & Hi2 & Hu2 & Hor2).
    destruct (S1 _ _ Hi2 Hu2 H0) as (e1 & Hi1 & Hu1 & Hor1). exists e1. split; [done|]. split; [done|].
    destruct Hor2 as [[[Eb Eo] Hk]|?]; [|by right].
    destruct Hor1 as [[[Eb' Eo'] Hk']|(k & h & Hkh & Hie & Hn)].
    + left. split; [split; congruence|]. auto.
    + right. exists k, h. auto.
  - intros k h Hk Hkn Hm. destruct (R2 _ _ Hk Hkn Hm). auto.
Qed.

(** Steps that only remove entries with their history, and steps that rewrite plaintext columns. *)
Lemma tstep_shrink w1 w2 :
  (forall i e2, vw_entries w2 !! i = Some e2 -> exists e1, vw_entries w1 !! i = Some e1
     /\ en_userId e1 = en_userId e2 /\ same_cipher e1 e2) ->
  (forall k h, vw_history w2 !! k = Some h -> vw_history w1 !! k = Some h) ->
  (forall i e2 k h, vw_entries w2 !! i = Some e2 -> vw_history w1 !! k = Some h -> hi_entryId h = i ->
     vw_history w2 !! k = Some h) ->
  tstep w1 w2.
Proof.
  intros He Hh Hk. split.
  - intros i e2 Hi Hu _. destruct (He _ _ Hi) as (e1 & Hi1 & Eu & Hs). exists e1. split; [done|].
    split; [congruence|]. left. split; [done|]. intros k h Hkh Hie. by eapply Hk.
  - intros k h Hkh _ (e & Hi & Hu). split; [auto|]. destruct (He _ _ Hi) as (e1 & Hi1 & Eu & _).
    exists e1. split; [done|]. congruence.
Qed.

Lemma tstep_same w1 w2 : vw_entries w2 = vw_entries w1 -> vw_history w2 = vw_history w1 -> tstep w1 w2.
Proof.
  intros He Hh. apply tstep_shrink; rewrite ?He, ?Hh; [|done|done].
  intros i e Hi. exists e. done.
Qed.
Lemma tstep_refl w : tstep w w.
Proof. by apply tstep_same. Qed.

Lemma tstep_meta w i e e' : vw_entries w !! i = Some e -> en_userId e' = en_userId e -> same_cipher e e' ->
  tstep w (set_entries (<[i := e']> (vw_entries w)) w).
Proof.
  intros Hi Hu Hs. apply tstep_shrink; cbn; [|done|done].
  intros j x Hj. destruct (decide (i = j)) as [<-|Hne].
  - rewrite lookup_insert_eq in Hj. simplify_eq. eauto.
  - rewrite lookup_insert_ne in Hj by done. exists x. done.
Qed.

Lemma tstep_delete w p : tstep w (delete_entries p w).
Proof.
  apply tstep_shrink; cbn.
  - intros i e Hi. apply map_lookup_filter_Some in Hi as [Hi _]. exists e. done.
  - intros k h Hk. by apply map_lookup_filter_Some in Hk as [Hk _].
  - intros i e k h Hi Hk He. apply map_lookup_filter_Some in Hi as [Hi Hp]. apply map_lookup_filter_Some.
    split; [done|]. cbn in Hp |- *. by rewrite He, Hi.
Qed.

(** A new entry, under an id [w0] did not have. *)
Lemma tstep_create w j e : coherent w -> vw_entries w !! j = None -> vw_entries w0 !! j = None ->
  tstep w (set_entries (<[j := e]> (vw_entries w)) w).
Proof.
  intros C Hj H0. split; cbn.
  - intros i e2 Hi Hu [x Hx]. rewrite lookup_insert_ne in Hi by congruence. exists e2. split; [done|]. split; [done|].
    by left.
  - intros k h Hk _ (x & Hx & Hu). cbn in Hx. split; [done|]. destruct (co_history _ C _ _ Hk) as (y & Hy & _).
    rewrite lookup_insert_ne in Hx by congruence. by exists x.
Qed.

(** A new version of an entry leaves a trace in its history. *)
Lemma tstep_version ctx i cur now hid w w' x e f :
  snapshot_history ctx i ctx cur now hid w = (w', Ok x) -> ~ known hid ->
  (forall k h, vw_history w !! k = Some h -> hi_entryId h = i -> hi_changedAt h < now) ->
  vw_entries w !! i = Some e -> en_userId (f e) = en_userId e ->
  tstep w (set_entries (<[i := f e]> (vw_entries w)) w').
Proof.
  intros Hs Hk Hnow Hi Hu. apply snapshot_history_Ok in Hs as (_ & Hn & ->). cbn.
  set (row := {| hi_entryId := i; hi_tenantId := ctx; hi_blob := en_blob cur; hi_keyVersion := en_keyVersion cur;
                 hi_aadVersion := en_aadVersion cur; hi_changedAt := now |}).
  split; cbn.
  - intros j e2 Hj Heu _. destruct (decide (i = j)) as [<-|Hne].
    + rewrite lookup_insert_eq in Hj. injection Hj as <-. exists e. split; [done|]. split; [congruence|]. right.
      exists hid, row. split; [|done]. cbn. apply trim_keeps_newest; [by rewrite lookup_insert_eq|done|done|].
      intros k' h' Hk' Hie Hne'. rewrite lookup_insert_ne in Hk' by done. cbn. eauto.
    + rewrite lookup_insert_ne in Hj by done. exists e2. split; [done|]. split; [done|]. left. split; [done|].
      intros k h Hkh Hie. apply trim_history_other; [|congruence]. rewrite lookup_insert_ne; [done|congruence].
  - intros k h Hkh Hkn (y & Hy & Hyu). apply trim_history_sub in Hkh.
    assert (hid <> k) by (intros ->; done). rewrite lookup_insert_ne in Hkh by done. split; [done|].
    cbn in Hy. destruct (decide (hi_entryId h = i)) as [Eq|Hne].
    + rewrite Eq, lookup_insert_eq in Hy. injection Hy as <-. rewrite Eq. exists e. split; [done|]. congruence.
    + rewrite lookup_insert_ne in Hy by done. by exists y.
Qed.

(** A relation that holds for a committed transaction holds for the request. *)
Lemma rel_user {A} (R : vault_world -> vault_world -> Prop) uid (fn : jsstr -> tx A) w :
  R w w -> (forall ctx w' a, fn ctx w = (w', Ok a) -> R w w') -> R w (fst (withUserTenantRls uid fn w)).
Proof.
  intros Hr Hf. unfold withUserTenantRls, withTenantRls, transaction.
  destruct (user_tenant uid w) as [ctx|]; [|done]. destruct (fn ctx w) as [w' [a|e]] eqn:E; [|done]. by eapply Hf.
Qed.
Lemma rel_tenant {A} (R : vault_world -> vault_world -> Prop) t (fn : jsstr -> tx A) w :
  R w w -> (forall w' a, fn t w = (w', Ok a) -> R w w') -> R w (fst (withTenantRls t fn w)).
Proof.
  intros Hr Hf. unfold withTenantRls, transaction. destruct (fn t w) as [w' [a|e]] eqn:E; [|done]. by eapply Hf.
Qed.

Lemma tstep_createPersonal ctx uid tenant input newId w w' r :
  coherent w -> vw_entries w0 !! default newId (ci_id input) = None ->
  createPersonalPasswordEntry ctx uid tenant input newId w = (w', Ok r) -> tstep w w'.
Proof.
  intros C H0 H. unfold createPersonalPasswordEntry in H. apply st_bind_Ok_inv in H as (s & ? & Ha & H).
  apply assertCurrentKeyVersion_Ok in Ha as [-> _].
  apply st_bind_Ok_inv in H as (s & w1 & Hg & H). apply get_Ok in Hg as [-> ->].
  destruct (match ci_folderId input with Some _ => _ | None => _ end);
    [apply st_ret_Ok in H as [-> _]; apply tstep_refl|].
  destruct (negb _); [apply st_ret_Ok in H as [-> _]; apply tstep_refl|].
  apply st_bind_Ok_inv in H as (s & [] & H & Hr). apply st_ret_Ok in Hr as [-> _].
  unfold create_entry in H. tx_inv H. subst s. apply tstep_create; [done| |done].
  by destruct (vw_entries w !! _).
Qed.

Lemma tstep_put ctx uid i b existing now hid w w' r :
  ~ known hid -> (forall k h, vw_history w !! k = Some h -> hi_entryId h = i -> hi_changedAt h < now) ->
  updateE2EPasswordSchema b = true ->
  put_tx ctx uid i b existing now hid w = (w', Ok r) -> tstep w w'.
Proof.
  intros Hk Hnow Hsch H. unfold put_tx in H. destruct (has (ui_blob b)) eqn:Eb.
  - apply st_bind_Ok_inv in H as (s & ? & Ha & H).
    assert (s = w) as ->.
    { destruct (ui_keyVersion b); [by apply assertCurrentKeyVersion_Ok in Ha as [-> _]|by apply st_ret_Ok in Ha as [-> _]]. }
    apply st_bind_Ok_inv in H as (s & w1 & Hg & H). apply get_Ok in Hg as [-> ->].
    destruct (find_entry ctx i w) as [cur|]; [|apply st_ret_Ok in H as [-> _]; apply tstep_refl].
    apply st_bind_Ok_inv in H as (s & ? & Hs & H). apply st_bind_Ok_inv in H as (s2 & ? & Hw & Hr).
    apply st_ret_Ok in Hr as [-> _]. pose proof Hs as Hs'. apply snapshot_history_Ok in Hs' as (Hct & _ & Es).
    rewrite Hct in Hs. apply write_update_Ok in Hw as (e & Hie & _ & _ & ->).
    assert (Ee : vw_entries s = vw_entries w) by (rewrite Es; done). rewrite Ee in Hie |- *.
    eapply tstep_version; done.
  - apply st_bind_Ok_inv in H as (s & ? & Hw & Hr). apply st_ret_Ok in Hr as [-> _].
    apply write_update_Ok in Hw as (e & Hie & _ & _ & ->). eapply tstep_meta; [done|done|].
    unfold updateE2EPasswordSchema in Hsch. rewrite Eb in Hsch. bools. split; cbn.
    + by destruct (ui_blob b).
    + destruct H0 as [H0|H0]; [|done]. bools. by destruct (ui_overview b).
Qed.

Lemma tstep_restore ctx uid i tenant hr now hid w w' r :
  ~ known hid -> (forall k h, vw_history w !! k = Some h -> hi_entryId h = i -> hi_changedAt h < now) ->
  restore_tx ctx uid i tenant hr now hid w = (w', Ok r) -> tstep w w'.
Proof.
  intros Hk Hnow H. unfold restore_tx in H. apply st_bind_Ok_inv in H as (s & ? & Ha & H).
  apply assertCurrentKeyVersion_Ok in Ha as [-> _].
  apply st_bind_Ok_inv in H as (s & w1 & Hg & H). apply get_Ok in Hg as [-> ->].
  destruct (find_entry ctx i w) as [cur|]; [|apply st_ret_Ok in H as [-> _]; apply tstep_refl].
  apply st_bind_Ok_inv in H as (s & ? & Hs & H). apply st_bind_Ok_inv in H as (s2 & ? & Hw & Hr).
  apply st_ret_Ok in Hr as [-> _]. pose proof Hs as Hs'. apply snapshot_history_Ok in Hs' as (Hct & _ & Es).
  rewrite Hct in Hs. apply update_entry_Ok in Hw as (e & Hie & _ & _ & ->).
  assert (Ee : vw_entries s = vw_entries w) by (rewrite Es; done). rewrite Ee in Hie |- *.
  eapply tstep_version; done.
Qed.

Lemma tstep_import ctx uid es st_ st' :
  forallb (fun e => createE2EPasswordSchema (fst e)) es = true ->
  Forall (fun e => vw_entries w0 !! default (snd e) (ci_id (fst e)) = None) es ->
  coherent (im_world st_) -> import_all ctx uid es st_ = Ok st' -> tstep (im_world st_) (im_world st').
Proof.
  revert st_. induction es as [|[input newId] es IH]; intros s Hsch H0 C; cbn; [intros [= <-]; apply tstep_refl|].
  cbn in Hsch. apply andb_true_iff in Hsch as [Hs1 Hsch].
  apply Forall_cons in H0 as [H0 H0']. intros Hb. apply bind_Ok_inv in Hb as (s1 & H1 & H2).
  assert (Hstep : tstep (im_world s) (im_world s1) /\ coherent (im_world s1)).
  { unfold import_one in H1. destruct (im_aborted s); [injection H1 as <-; split; [apply tstep_refl|done]|].
    destruct (createPersonalPasswordEntry _ _ _ _ _ _) as [w' [[]|[]]] eqn:E; simplify_eq; cbn;
      try (split; [apply tstep_refl|done]).
    split; [by eapply tstep_createPersonal|by eapply create_coherent]. }
  destruct Hstep. eapply tstep_trans; [done|]. by eapply IH.
Qed.

(** What the other requests may be: identifiers drawn or chosen for new rows are
    new, clocks advance, and neither a rotation of [u] nor a purge of old history
    is among them. *)
Definition newer_than_history (w : vault_world) (i : jsstr) (now : Z) : Prop :=
  forall k h, vw_history w !! k = Some h -> hi_entryId h = i -> hi_changedAt h < now.
Definition unused_id (b : option create_input) (newId : jsstr) : Prop :=
  forall input, b = Some input -> vw_entries w0 !! default newId (ci_id input) = None.

Definition admissible (w : vault_world) (q : vault_request) : Prop :=
  match q with
  | QCreate _ _ _ b newId | QCreateV1 _ _ _ b newId => unused_id b newId
  | QImport _ _ b => forall es, b = Some es -> Forall (fun e => unused_id (Some (fst e)) (snd e)) es
  | QPut _ _ i _ now hid | QPutV1 _ _ i _ now hid | QHistoryRestore _ i _ now hid =>
      ~ known hid /\ newer_than_history w i now
  | QPurgeHistory _ _ => False
  | QRotate s _ _ _ _ => s <> Some u
  | _ => True
  end.

Lemma tstep_rotation base64_decode ctx v tenant old new hash salt p setup accountSalt now U w w' :
  rotation_result base64_decode ctx v tenant old new hash salt p setup accountSalt now U w w' ->
  coherent w -> v <> u -> tstep w w'.
Proof.
  intros Hrr C Hv. pose proof (rr_entries_rotated _ _ _ _ _ _ _ _ _ _ _ _ _ _ _ Hrr C) as He.
  pose proof (rr_history_rotated _ _ _ _ _ _ _ _ _ _ _ _ _ _ _ Hrr C) as Hh.
  assert (Hback : forall i e2, vw_entries w' !! i = Some e2 -> en_userId e2 = u -> vw_entries w !! i = Some e2).
  { intros i e2 Hi Hu. specialize (He i). destruct (vw_entries w !! i) as [e|]; [|congruence].
    destruct (decide (en_userId e = v)) as [Hq|Hq]; [|congruence].
    destruct He as (r & _ & _ & Hr). rewrite Hi in Hr. injection Hr as ->. cbn in Hu. congruence. }
  split.
  - intros i e2 Hi Hu _. pose proof (Hback _ _ Hi Hu) as Hi1. exists e2. split; [done|]. split; [done|]. left.
    split; [done|]. intros k h Hk Hie. specialize (Hh k). rewrite Hk in Hh. subst i. rewrite Hi1 in Hh. cbn in Hh.
    destruct (decide _) as [Hq|]; [|done]. congruence.
  - intros k h Hk _ (e & Hi & Hu). specialize (Hh k). pose proof (Hback _ _ Hi Hu) as Hi1.
    destruct (vw_history w !! k) as [h1|] eqn:E1; [|congruence].
    destruct (decide _) as [Hq|Hq].
    + destruct Hh as (r & _ & _ & Hr). rewrite Hk in Hr. injection Hr as ->. cbn in Hi1. rewrite Hi1 in Hq. cbn in Hq.
      congruence.
    + rewrite Hk in Hh. injection Hh as <-. split; [done|]. by exists e.
Qed.

Lemma tstep_reset target U w w' : reset_result target U w w' -> tstep w w'.
Proof.
  intros [_ _ He Hh _ _ _]. apply tstep_shrink.
  - intros i e Hi. apply He in Hi as [Hi _]. exists e. done.
  - intros k h Hk. by apply Hh in Hk as [Hk _].
  - intros i e k h Hi Hk Hie. apply He in Hi as [Hi Hne]. apply Hh. split; [done|]. subst i.
    intros e' He'. congruence.
Qed.

Lemma tstep_update ctx uid i f w w' x :
  (forall e, en_userId (f e) = en_userId e /\ same_cipher e (f e)) ->
  update_entry ctx uid i f w = (w', Ok x) -> tstep w w'.
Proof.
  intros Hf H. apply update_entry_Ok in H as (e & Hi & _ & _ & ->). destruct (Hf e).
  eapply tstep_meta; done.
Qed.
Lemma set_deletedAt_cipher d e : en_userId (set_deletedAt d e) = en_userId e /\ same_cipher e (set_deletedAt d e).
Proof. done. Qed.

(** Transactions that leave entries and history alone. *)
Definition quiet (w w' : vault_world) : Prop := vw_entries w' = vw_entries w /\ vw_history w' = vw_history w.
Lemma quiet_tstep w w' : quiet w w' -> tstep w w'.
Proof. intros [? ?]. by apply tstep_same. Qed.
Lemma update_user_quiet ctx v f w w' x : update_user ctx v f w = (w', Ok x) -> quiet w w'.
Proof. intros H. by apply update_user_Ok in H as (U & _ & _ & ->). Qed.

Section Handlers.
Context (sha256_hex : jsstr -> jsstr) (hmac : jsstr -> Z -> option jsstr) (base64_decode : jsstr -> jsstr).

Lemma wrapping_quiet w1 q w : coherent w ->
  match q with
  | QSetup _ _ _ _ _ | QChangePassphrase _ _ _ _ | QRecoveryGenerate _ _ _ _ | QRecover _ _ _ _ _ => True
  | _ => False
  end -> tstep w (fst (handle sha256_hex hmac base64_decode q w1 w)).
Proof.
  intros C Hq. pose proof (tstep_refl w) as Hr. destruct q; try done; cbn [handle].
  - unfold post_setup. request; apply rel_user; try done; intros ctx w' x H;
      apply st_bind_Ok_inv in H as (s1 & h & Hh & H); apply hmacVerifier_Ok in Hh as ->;
      apply st_bind_Ok_inv in H as (s1 & y & Hu & H); apply update_user_quiet in Hu as [Hu1 Hu2];
      apply create_vaultKey_Ok in H as (_ & _ & ->); by apply quiet_tstep.
  - unfold post_change_passphrase. request; apply rel_user; try done; intros ctx w' x H;
      apply st_bind_Ok_inv in H as (s1 & h & Hh & H); apply hmacVerifier_Ok in Hh as ->;
      apply update_user_quiet in H; by apply quiet_tstep.
  - unfold post_recovery_generate. request; apply rel_user; try done; intros ctx w' x H;
      apply st_bind_Ok_inv in H as (s1 & h & Hh & H); apply hmacVerifier_Ok in Hh as ->;
      apply update_user_quiet in H; by apply quiet_tstep.
  - unfold post_recover_reset, handle_reset. request; apply rel_tenant; try done; intros w' x H;
      apply st_bind_Ok_inv in H as (s1 & h & Hh & H); apply hmacVerifier_Ok in Hh as ->;
      apply st_bind_Ok_inv in H as (s1 & h' & Hh & H); apply hmacVerifier_Ok in Hh as ->;
      apply st_bind_Ok_inv in H as (s1 & y & Hu & H); apply update_user_quiet in Hu as [Hu1 Hu2];
      apply modify_Ok in H as ->; by apply quiet_tstep.
Qed.

Lemma attachment_quiet w1 q w :
  match q with QUpload _ _ _ _ _ _ _ | QDeleteAttachment _ _ _ | QMigrate _ _ _ _ _ => True | _ => False end ->
  tstep w (fst (handle sha256_hex hmac base64_decode q w1 w)).
Proof.
  intros Hq. pose proof (tstep_refl w) as Hr. destruct q; try done; cbn [handle].
  - unfold post_attachments. request; apply rel_user; try done. intros ctx w' x H. apply quiet_tstep.
    unfold upload_tx in H. apply st_bind_Ok_inv in H as (s & y & Hg & H). apply get_Ok in Hg as [-> ->].
    apply st_bind_Ok_inv in H as (s & y & Hg & H). apply throw_if_Ok in Hg as [_ ->].
    destruct (find_user _ _ _); [|done]. tx_inv H. by subst.
  - unfold delete_attachment. destruct session; [|done]. destruct (user_tenant _ w1); [|done].
    destruct (find_entry _ _ _); [|done]. destruct (negb _); [done|]. destruct (negb _); [done|].
    rewrite answer_fst. apply rel_user; [done|]. intros ctx w' x H. apply quiet_tstep. tx_inv H. by subst.
  - unfold put_migrate. request; apply rel_user; try done. intros ctx w' x H. apply quiet_tstep.
    apply st_bind_Ok_inv in H as (s & y & Hg & H). apply get_Ok in Hg as [-> ->].
    destruct (find_user _ _ _); [|done]. destruct (bool_decide _); [done|].
    apply st_bind_Ok_inv in H as (s & y & Hg & H). apply throw_if_Ok in Hg as [_ ->].
    unfold applyAttachmentMigration in H. apply st_bind_Ok_inv in H as (s & y1 & Hg & H). apply get_Ok in Hg as [-> ->].
    destruct (vw_attachments w !! attachmentId) as [row|]; [|done].
    destruct (attachment_in _ _ _ _ row && negb (has (at_teamEntryId row))); [|done]. cbn in H. tx_inv H. by subst.
Qed.

Lemma handle_tstep q w1 w : coherent w -> admissible w q ->
  tstep w (fst (handle sha256_hex hmac base64_decode q w1 w)).
Proof.
  intros C Ha. pose proof (tstep_refl w) as Hr. destruct q; try (by apply wrapping_quiet); try (by apply attachment_quiet);
    cbn [handle admissible] in *.
  - unfold post_passwords. request. apply rel_user; [done|]. intros ctx w' x H.
    eapply tstep_createPersonal; [done|by apply Ha|exact H].
  - unfold post_v1_passwords. request. apply rel_tenant; [done|]. intros w' x H.
    eapply tstep_createPersonal; [done|by apply Ha|exact H].
  - unfold post_bulk_import. destruct authed; [|done]. destruct (negb rl); [done|].
    destruct body as [[|e es]|]; [done| |done]. specialize (Ha _ eq_refl).
    destruct (_ || _) eqn:E; [done|]. apply orb_false_iff in E as [_ E]. apply negb_false_iff in E.
    rewrite answer_fst. unfold import_tx. destruct (user_tenant _ w); [|done].
    destruct (import_all _ _ _ _) as [s|] eqn:Ei; [|done]. cbn. destruct (im_aborted s); [done|].
    eapply (tstep_import _ _ _ _ _ E) in Ei; [done| |exact C].
    eapply Forall_impl; [exact Ha|]. intros q Hq. by apply Hq.
  - destruct Ha as [Hk Hn]. unfold put_passwords. request. apply check_update_inv in Heqs as (_ & _ & Hsch & _).
    apply rel_user; [done|]. intros ctx w' x H. by eapply tstep_put.
  - destruct Ha as [Hk Hn]. unfold put_v1_passwords. request. apply check_update_inv in Heqs as (_ & _ & Hsch & _).
    apply rel_tenant; [done|]. intros w' x H. by eapply tstep_put.
  - destruct Ha as [Hk Hn]. unfold post_history_restore. request.
    apply rel_user; [done|]. intros ctx w' x H. by eapply tstep_restore.
  - unfold post_bulk. request. apply rel_user; [done|]. intros ctx w' x H. tx_inv H. subst w'.
    apply tstep_shrink; cbn; [|done|done]. intros i e2. rewrite map_lookup_imap.
    destruct (vw_entries w !! i) as [e|]; [|done]. cbn. intros [= <-]. exists e. split; [done|].
    destruct (_ && _ && _); [|done]. by destruct op.
  - unfold post_bulk_purge, purge_trash. request. apply rel_user; [done|]. intros ctx w' x H. tx_inv H. subst w'.
    apply tstep_delete.
  - unfold post_empty_trash, purge_trash. request. apply rel_user; [done|]. intros ctx w' x H. tx_inv H. subst w'.
    apply tstep_delete.
  - unfold delete_passwords.
    destruct authed as [[v is_]|]; [|done]. destruct (permanent && _); [done|]. destruct (permanent && _); [done|].
    destruct (user_tenant v w1); [|done]. destruct (find_entry _ _ _); [|done]. destruct (negb _); [done|].
    rewrite answer_fst. apply rel_user; [done|]. intros ctx w' x H. destruct permanent.
    + tx_inv H. subst w'. apply tstep_delete.
    + eapply tstep_update; [apply set_deletedAt_cipher|exact H].
  - unfold delete_v1_passwords. request. apply rel_tenant; [done|]. intros w' x H.
    eapply tstep_update; [apply set_deletedAt_cipher|exact H].
  - unfold post_restore. request. apply rel_user; [done|]. intros ctx w' x H.
    eapply tstep_update; [apply set_deletedAt_cipher|exact H].
  - destruct (post_rotate_key _ _ _ _ _ _ _ _ _ _) as [w' r] eqn:E. cbn.
    destruct (decide (r = Ok VOk)) as [->|Hne].
    + apply post_rotate_key_VOk in E as (v & p & s & U & ctx & -> & _ & _ & _ & Hrr).
      eapply tstep_rotation; [exact Hrr|done|congruence].
    + apply post_rotate_key_atomic in E; [|done]. by subst.
  - unfold post_vault_reset. destruct session as [v|]; [|done]. destruct blocked; [done|].
    destruct stepUp; [done|]. destruct body as [c|]; [|done]. destruct (negb _); [done|].
    destruct (resolveUserTenantId v w1) as [[[|y t]|]|]; try done.
    unfold st_bind. destruct (executeVaultReset w1 v (Some (VAULT_RESET_EXECUTED v (y :: t))) now w) as [w' [r|e]] eqn:E.
    + apply executeVaultReset_spec in E as (_ & U & Hres). pose proof (tstep_reset _ _ _ _ Hres) as Ht. destruct invalidated; exact Ht.
    + apply executeVaultReset_atomic in E. by subst.
Qed.

(** The requests between the download at [w0] and the rotation. *)
Inductive edits : vault_world -> Prop :=
| edits_start : edits w0
| edits_step w w1 q : edits w -> earlier w1 w -> admissible w q ->
    edits (fst (handle sha256_hex hmac base64_decode q w1 w)).

Lemma edits_traced w : coherent w0 -> edits w -> coherent w /\ traced w.
Proof.
  intros C0 H. induction H as [|w w1 q _ [C T] He Ha]; [split; [done|apply traced_start]|].
  split; [by apply handle_coherent|]. eapply traced_step; [exact T|]. by apply handle_tstep.
Qed.
End Handlers.
End Trace.

Section LostUpdate.
Context (sha256_hex : jsstr -> jsstr) (hmac : jsstr -> Z -> option jsstr) (base64_decode : jsstr -> jsstr).

(** C11: No edit is lost to a rotation, as long as history rows are new and kept.  A
    client downloads its vault, re-encrypts what it downloaded and posts the rotation,
    while other requests (of any user, in any order, this user's edits, restores,
    imports, deletions and a reset among them) are committed in between, with these
    limits, [admissible]: no purge of old history and no other rotation of this user is
    among them, no entry is created under an identifier the download already had, and a
    new history row has a new identifier and a later time than the entry's other history
    rows.  If the rotation is accepted, then every entry and every history row it
    replaces is, ciphertext for ciphertext, the one the client downloaded: the id sets of
    entries and history betray every such edit. *)
Theorem rotation_loses_no_update u w0 w ws blocked p salt now w' :
  coherent w0 ->
  edits u w0 sha256_hex hmac base64_decode w ->
  (forall r, r ∈ rp_entries p -> is_Some (vw_entries w0 !! er_id r)) ->
  (forall r, r ∈ rp_history p -> is_Some (vw_history w0 !! hr_id r)) ->
  post_rotate_key sha256_hex hmac base64_decode ws (Some u) blocked (Some p) salt now w = (w', Ok VOk) ->
  (forall i e, vw_entries w !! i = Some e -> en_userId e = u ->
     exists e0, vw_entries w0 !! i = Some e0 /\ same_cipher e0 e) /\
  (forall k h e, vw_history w !! k = Some h -> vw_entries w !! hi_entryId h = Some e -> en_userId e = u ->
     vw_history w0 !! k = Some h).
Proof.
  intros C0 He Hpe Hph H. destruct (edits_traced _ _ _ _ _ _ C0 He) as [C [T1 T2]].
  apply post_rotate_key_VOk in H as (u' & p' & s & U & ctx & [= <-] & [= <-] & _ & _ & Hrr).
  assert (Hk : forall k h e, vw_history w !! k = Some h -> vw_entries w !! hi_entryId h = Some e ->
            en_userId e = u -> known w0 k).
  { intros k h e Hkh Hie Hu. pose proof (rr_history_rotated _ _ _ _ _ _ _ _ _ _ _ _ _ _ _ Hrr C k) as Hr.
    rewrite Hkh, Hie in Hr. cbn in Hr. rewrite decide_True in Hr by congruence.
    destruct Hr as (r & Hr & <- & _). by apply Hph. }
  split.
  - intros i e Hi Hu. pose proof (rr_entries_rotated _ _ _ _ _ _ _ _ _ _ _ _ _ _ _ Hrr C i) as Hr.
    rewrite Hi, decide_True in Hr by done. destruct Hr as (r & Hr & <- & _). destruct (Hpe _ Hr) as [e0 He0].
    exists e0. split; [done|]. destruct (T1 _ _ _ He0 Hi Hu) as [?|(k & h & Hkh & Hie & Hn)]; [done|].
    destruct Hn. eapply Hk; [exact Hkh|by rewrite Hie|done].
  - intros k h e Hkh Hie Hu. apply T2; [done|by eapply Hk|by exists e].
Qed.
End LostUpdate.

(** ** Undoing an edit *)

(** What a committed PUT with a new blob leaves. *)
Lemma put_passwords_VOk w0 u i b now hid w w1 :
  put_passwords w0 (Some u) true i (Some b) now hid w = (w1, Ok VOk) -> has (ui_blob b) = true ->
  exists ctx e U, user_tenant u w = Ok ctx /\ vw_entries w !! i = Some e /\ en_tenantId e = ctx /\ en_userId e = u
    /\ vw_users w !! u = Some U /\ vu_tenantId U = ctx /\ ui_keyVersion b = Some (vu_keyVersion U)
    /\ vw_history w !! hid = None
    /\ w1 = set_entries (<[i := apply_update b e]> (vw_entries w))
              (set_history (trim_history ctx i (<[hid :=
                 {| hi_entryId := i; hi_tenantId := ctx; hi_blob := en_blob e; hi_keyVersion := en_keyVersion e;
                    hi_aadVersion := en_aadVersion e; hi_changedAt := now |}]> (vw_history w))) w).
Proof.
  intros H Hb. unfold put_passwords in H. cbn in H. destruct (user_tenant u w0) as [ctx0|]; [|done].
  destruct (check_update ctx0 u i (Some b) w0) as [e|[existing b']] eqn:Ec; [done|].
  assert (b' = b) as ->.
  { unfold check_update in Ec. repeat (step_case; try done). }
  apply check_update_inv in Ec as (_ & _ & _ & Hkv). specialize (Hkv Hb).
  apply answer_VOk in H as (r & H & Hr). destruct r as [[]|]; [|done].
  apply vault_tenant_Ok in H as (ctx & Hctx & H). exists ctx.
  unfold put_tx in H. rewrite Hb in H. destruct (ui_keyVersion b) as [v|]; [|done].
  apply st_bind_Ok_inv in H as (s & ? & Ha & H). apply assertCurrentKeyVersion_Ok in Ha as [-> (U & HU & Ht & Hv)].
  apply st_bind_Ok_inv in H as (s & w2 & Hg & H). apply get_Ok in Hg as [-> ->].
  destruct (find_entry ctx i w) as [cur|] eqn:Ef; [|by apply st_ret_Ok in H as [_ ?]].
  apply find_entry_Some in Ef as [Hi Hct].
  apply st_bind_Ok_inv in H as (s & ? & Hs & H). apply st_bind_Ok_inv in H as (s2 & ? & Hw & Hr').
  apply st_ret_Ok in Hr' as [-> _]. apply snapshot_history_Ok in Hs as (Hex & Hn & ->).
  rewrite Hex in Hw. apply write_update_Ok in Hw as (e & Hie & Het & Heu & ->). cbn in Hie.
  assert (e = cur) as -> by congruence.
  exists cur, U. repeat split; try done. by rewrite Hv.
Qed.

(** C22: An edit can be undone: after a PUT that replaced an entry's blob, restoring
    the version the PUT put into the history succeeds and gives the entry back its
    ciphertext, key version and format version; the version that was replaced is
    itself kept in the history. *)
Theorem edit_restore_roundtrip w0 u i b now hid w w1 e now' hid' :
  coherent w -> vw_entries w !! i = Some e ->
  put_passwords w0 (Some u) true i (Some b) now hid w = (w1, Ok VOk) -> has (ui_blob b) = true ->
  newer_than_history w i now -> newer_than_history w1 i now' -> vw_history w1 !! hid' = None ->
  exists w2 e2, post_history_restore w1 (Some u) i hid now' hid' w1 = (w2, Ok VOk)
    /\ vw_entries w2 !! i = Some e2
    /\ en_blob e2 = en_blob e /\ en_keyVersion e2 = en_keyVersion e /\ en_aadVersion e2 = en_aadVersion e
    /\ exists h, vw_history w2 !! hid' = Some h /\ hi_entryId h = i /\ Some (hi_blob h) = ui_blob b.
Proof.
  intros C Hie H Hb Hnew Hnew' Hh'.
  destruct (put_passwords_VOk _ _ _ _ _ _ _ _ H Hb) as (ctx & e' & U & Hctx & Hi & Het & Heu & HU & Ht & Hv & Hhn & Hw1).
  assert (e' = e) as -> by congruence. clear Hi H.
  set (row := {| hi_entryId := i; hi_tenantId := ctx; hi_blob := en_blob e; hi_keyVersion := en_keyVersion e;
                 hi_aadVersion := en_aadVersion e; hi_changedAt := now |}) in *.
  assert (Hrow : vw_history w1 !! hid = Some row).
  { rewrite Hw1. cbn. apply trim_keeps_newest; [by rewrite lookup_insert_eq|done|done|].
    intros k' h' Hk' Hi' Hne. rewrite lookup_insert_ne in Hk' by done. cbn. by eapply Hnew. }
  assert (Hi1 : vw_entries w1 !! i = Some (apply_update b e)) by (rewrite Hw1; cbn; by rewrite lookup_insert_eq).
  assert (Hu1 : vw_users w1 = vw_users w) by (by rewrite Hw1).
  assert (Ht1 : user_tenant u w1 = Ok ctx) by (rewrite Hw1; exact Hctx).
  assert (Hf1 : find_entry ctx i w1 = Some (apply_update b e)) by (by apply find_entry_Some).
  destruct (co_entry _ C _ _ Hie) as (V & HV & _ & Hkv & _). rewrite Heu, HU in HV. injection HV as <-.
  unfold post_history_restore. rewrite Ht1, Hf1. cbn [en_userId apply_update]. rewrite bool_decide_true by done. cbn [negb].
  assert (find_history ctx hid w1 = Some row) as -> by (by apply find_history_Some).
  cbn [hi_entryId row]. rewrite bool_decide_true by done. cbn [negb].
  unfold answer, withUserTenantRls. rewrite Ht1. unfold withTenantRls, transaction, restore_tx, st_bind, assertCurrentKeyVersion.
  assert (find_user ctx u w1 = Some U) as -> by (apply find_user_Some; by rewrite Hu1).
  rewrite (proj2 (Z.eqb_eq _ _)) by (cbn; congruence). unfold get. rewrite Hf1.
  unfold snapshot_history, st_bind, get, throw_if, modify. cbn [en_tenantId apply_update].
  rewrite Het, bool_decide_true by done. cbn [negb st_ret]. rewrite Hh'. cbn.
  unfold update_entry, find_entry. cbn. rewrite Hi1. cbn. rewrite !bool_decide_true by done. cbn.
  eexists _, _. split; [reflexivity|]. cbn. rewrite lookup_insert_eq. split; [done|]. split_and!; try done.
  eexists. split; [apply trim_keeps_newest; [by rewrite lookup_insert_eq|done|done|]|].
  - intros k' h' Hk' Hi' Hne. rewrite lookup_insert_ne in Hk' by done. cbn. by eapply Hnew'.
  - cbn. split; [done|]. destruct (ui_blob b); done.
Qed.
