(* ===== verification/VaultExamples.v ===== *)
(** * Runs of the personal vault

    A small vault that the theorems of [VaultSpec] apply to, the round trip of an
    edit, and the behaviours of the vault routes that differ from what their
    comments promise. *)

From S2P Require Import Prelude JsString Table StatusMachine EmergencyAccess Vault VaultRotation VaultSafety VaultSpec.
From stdpp Require Import fin_maps sorting.
Local Open Scope Z_scope.
Local Open Scope js_scope.

(** ** A vault *)

Definition d_sha (s : jsstr) : jsstr := s.
Definition d_hmac (s : jsstr) (_ : Z) : option jsstr := Some s.
Definition d_b64 (s : jsstr) : jsstr := s.
Definition d_hex (c : Z) : jsstr := repeat c 64.
Definition d_field (s : jsstr) : EncryptedField := {| ciphertext := s; fiv := []; fauthTag := [] |}.

Definition d_recovery : recovery :=
  {| rk_secretKey := None; rk_hkdfSalt := None; rk_verifierHmac := None; rk_verifierVersion := 1;
     rk_setAt := None; rk_invalidatedAt := None |}.
Definition d_user (tenant : jsstr) : vault_user :=
  {| vu_tenantId := tenant; vu_vaultSetupAt := None; vu_accountSalt := None; vu_secretKey := None;
     vu_serverHash := None; vu_serverSalt := None; vu_keyVersion := 0; vu_kdf := (0, PBKDF2_ITERATIONS);
     vu_verifierHmac := None; vu_verifierVersion := 1; vu_ecdhPublicKey := None; vu_ecdhPrivateKey := None;
     vu_recovery := d_recovery; vu_lockout := {| lc_attempts := 0; lc_last := None; lc_until := None |} |}.

(** Two members of one tenant, no vault yet, one passkey. *)
Definition d_start : vault_world :=
  {| vw_members := {[ (js "t", js "u") := None; (js "t", js "v") := None ]};
     vw_users := {[ js "u" := d_user (js "t"); js "v" := d_user (js "t") ]};
     vw_entries := ∅; vw_history := ∅; vw_attachments := ∅; vw_vaultKeys := ∅;
     vw_credentials := {[ js "c" := {| cr_userId := js "u"; cr_tenantId := js "t"; cr_prf := Some (d_field (js "prf1")) |} ]};
     vw_grants := ∅; vw_folders := ∅; vw_tags := ∅; vw_shares := ∅; vw_teamKeys := ∅; vw_teamMembers := ∅;
     vw_audit := [] |}.

Lemma d_start_coherent : coherent d_start.
Proof.
  split; cbn; try (intros; simplify_map_eq; done).
  - intros q U HU. apply lookup_insert_Some in HU as [[_ <-]|[_ HU]]; [done|].
    by apply lookup_singleton_Some in HU as [_ <-].
  - intros q U n HU Hn. apply lookup_insert_Some in HU as [[_ <-]|[_ HU]]; [cbn in Hn; lia|].
    apply lookup_singleton_Some in HU as [_ <-]. cbn in Hn. lia.
Qed.

Definition d_setup (n : Z) : setup_body :=
  {| sb_secretKey := d_field (js "key1"); sb_accountSalt := js "salt"; sb_authHash := js "auth1"; sb_verifierHash := d_hex 97;
     sb_artifact := d_field (js "art1"); sb_ecdhPublicKey := js "pub"; sb_ecdhPrivateKey := d_field (js "ecdh1");
     sb_kdf := Some (0, n) |}.
Definition d_create (id blob : jsstr) : create_input :=
  {| ci_id := Some id; ci_blob := d_field blob; ci_overview := d_field (js "o"); ci_keyVersion := 1;
     ci_aadVersion := None; ci_tagIds := None; ci_folderId := None; ci_isFavorite := None; ci_entryType := None;
     ci_requireReprompt := None; ci_expiresAt := None |}.
Definition d_update (blob : jsstr) : update_input :=
  {| ui_blob := Some (d_field blob); ui_overview := None; ui_keyVersion := Some 1; ui_aadVersion := None;
     ui_tagIds := None; ui_folderId := None; ui_isFavorite := None; ui_isArchived := None; ui_entryType := None;
     ui_requireReprompt := None; ui_expiresAt := None |}.

Definition d_handle := handle d_sha d_hmac d_b64.
Definition d_do (w : vault_world) (q : vault_request) : vault_world := fst (d_handle q w w).

Definition q_setup : vault_request := QSetup (Some (js "u")) false (Some (d_setup 600000)) 10 (js "s1").
Definition q_create : vault_request := QCreate (Some (js "u")) true 10000 (Some (d_create (js "e1") (js "blob1"))) (js "x").
Definition q_put : vault_request := QPut (Some (js "u")) true (js "e1") (Some (d_update (js "blob2"))) 20 (js "h1").

Definition w_setup : vault_world := d_do d_start q_setup.
Definition w_entry : vault_world := d_do w_setup q_create.
Definition w_edited : vault_world := d_do w_entry q_put.

(** The client's rotation of the vault [w_edited]. *)
Definition d_payload : RotationPayload :=
  {| rp_currentAuthHash := js "auth1"; rp_secretKey := d_field (js "key2"); rp_accountSalt := js "salt2";
     rp_newAuthHash := js "auth2"; rp_newVerifierHash := None; rp_artifact := d_field (js "art2");
     rp_entries := [{| er_id := js "e1"; er_blob := d_field (js "blob2v2"); er_overview := d_field (js "ov2"); er_aadVersion := 1 |}];
     rp_history := [{| hr_id := js "h1"; hr_blob := d_field (js "blob1v2"); hr_aadVersion := 1 |}];
     rp_ecdhPrivateKey := d_field (js "ecdh2"); rp_cekRewraps := []; rp_legacyMigrated := None |}.
Definition q_rotate : vault_request := QRotate (Some (js "u")) false (Some d_payload) (js "s2") 30.
Definition w_rotated : vault_world := d_do w_edited q_rotate.

Example d_answers :
  snd (d_handle q_setup d_start d_start) = Ok VOk /\ snd (d_handle q_create w_setup w_setup) = Ok VOk
  /\ snd (d_handle q_put w_entry w_entry) = Ok VOk /\ snd (d_handle q_rotate w_edited w_edited) = Ok VOk.
Proof. vm_compute. repeat split. Qed.

Lemma vault_earlier_refl w : earlier w w.
Proof. intros i e0 e H0 H. congruence. Qed.

Lemma d_run q w : vault_step d_sha d_hmac d_b64 w q (d_do w q).
Proof. exact (VStep _ _ _ w q w (vault_earlier_refl w)). Qed.

(** The theorem on a run of four requests, whose last one rotates the key. *)
Lemma vault_keys_coherent_witness :
  coherent w_rotated /\ (en_keyVersion <$> vw_entries w_rotated !! js "e1") = Some 2.
Proof.
  split; [|vm_compute; reflexivity].
  apply (vault_keys_coherent d_sha d_hmac d_b64 d_start ((([] ++ [q_setup]) ++ [q_create]) ++ [q_put] ++ [q_rotate])).
  - exact d_start_coherent.
  - change ((([] ++ [q_setup]) ++ [q_create]) ++ [q_put] ++ [q_rotate])
      with (((([] ++ [q_setup]) ++ [q_create]) ++ [q_put]) ++ [q_rotate]).
    eapply VCons; [eapply VCons; [eapply VCons; [eapply VCons; [apply VNil|]|]|]|]; apply d_run.
Defined.

Lemma w_edited_coherent : coherent w_edited.
Proof.
  apply handle_coherent; [apply vault_earlier_refl|]. apply handle_coherent; [apply vault_earlier_refl|].
  apply handle_coherent; [apply vault_earlier_refl|]. exact d_start_coherent.
Qed.

Lemma d_rotation : post_rotate_key d_sha d_hmac d_b64 w_edited (Some (js "u")) false (Some d_payload) (js "s2") 30 w_edited
  = (w_rotated, Ok VOk).
Proof.
  unfold w_rotated, d_do, d_handle, q_rotate. cbn [handle].
  assert (E : snd (post_rotate_key d_sha d_hmac d_b64 w_edited (Some (js "u")) false (Some d_payload) (js "s2") 30 w_edited)
              = Ok VOk) by (vm_compute; reflexivity).
  revert E. destruct (post_rotate_key _ _ _ _ _ _ _ _ _ _) as [w r]. cbn. by intros ->.
Qed.


(** A second device posts the same rotation, read before the first commit. *)
Lemma rotation_exclusive_witness :
  exists r, post_rotate_key d_sha d_hmac d_b64 w_edited (Some (js "u")) false (Some d_payload) (js "s3") 31 w_rotated
    = (w_rotated, r) /\ r <> Ok VOk.
Proof.
  exact (rotation_exclusive d_sha d_hmac d_b64 w_edited (js "u") false d_payload (js "s2") 30 w_edited w_rotated
           w_edited false (Some d_payload) (js "s3") 31 d_rotation eq_refl).
Defined.

(** Another device trashes the entry between the download and the rotation. *)
Definition q_trash : vault_request := QDelete (Some (js "u", false)) false false (js "e1") 25.
Definition w_trashed : vault_world := d_do w_edited q_trash.

Lemma d_rotation_trashed :
  exists w', post_rotate_key d_sha d_hmac d_b64 w_trashed (Some (js "u")) false (Some d_payload) (js "s2") 30 w_trashed
    = (w', Ok VOk).
Proof.
  assert (E : snd (post_rotate_key d_sha d_hmac d_b64 w_trashed (Some (js "u")) false (Some d_payload) (js "s2") 30 w_trashed)
              = Ok VOk) by (vm_compute; reflexivity).
  revert E. destruct (post_rotate_key _ _ _ _ _ _ _ _ _ _) as [w r]. cbn. intros ->. by exists w.
Qed.

Lemma rotation_loses_no_update_witness :
  (forall i e, vw_entries w_trashed !! i = Some e -> en_userId e = js "u" ->
     exists e0, vw_entries w_edited !! i = Some e0 /\ same_cipher e0 e) /\
  (forall k h e, vw_history w_trashed !! k = Some h -> vw_entries w_trashed !! hi_entryId h = Some e ->
     en_userId e = js "u" -> vw_history w_edited !! k = Some h).
Proof.
  destruct d_rotation_trashed as [w' Hw'].
  apply (rotation_loses_no_update d_sha d_hmac d_b64 (js "u") w_edited w_trashed w_trashed false d_payload (js "s2") 30 w').
  - exact w_edited_coherent.
  - exact (edits_step _ _ _ _ _ w_edited w_edited q_trash (edits_start _ _ _ _ _) (vault_earlier_refl _) I).
  - intros r Hr. apply list_elem_of_singleton in Hr as ->. vm_compute. by eexists.
  - intros r Hr. apply list_elem_of_singleton in Hr as ->. vm_compute. by eexists.
  - exact Hw'.
Defined.

Lemma w_entry_coherent : coherent w_entry.
Proof.
  apply handle_coherent; [apply vault_earlier_refl|]. apply handle_coherent; [apply vault_earlier_refl|]. exact d_start_coherent.
Qed.

Lemma d_edit : put_passwords w_entry (Some (js "u")) true (js "e1") (Some (d_update (js "blob2"))) 20 (js "h1") w_entry
  = (w_edited, Ok VOk).
Proof.
  unfold w_edited, d_do, d_handle, q_put. cbn [handle].
  assert (E : snd (put_passwords w_entry (Some (js "u")) true (js "e1") (Some (d_update (js "blob2"))) 20 (js "h1") w_entry)
              = Ok VOk) by (vm_compute; reflexivity).
  revert E. destruct (put_passwords _ _ _ _ _ _ _ _) as [w r]. cbn. by intros ->.
Qed.

Lemma edit_restore_roundtrip_witness :
  exists w2 e2, post_history_restore w_edited (Some (js "u")) (js "e1") (js "h1") 40 (js "h2") w_edited = (w2, Ok VOk)
    /\ vw_entries w2 !! js "e1" = Some e2 /\ en_blob e2 = d_field (js "blob1") /\ en_keyVersion e2 = 1
    /\ en_aadVersion e2 = 1
    /\ exists h, vw_history w2 !! js "h2" = Some h /\ hi_entryId h = js "e1" /\ Some (hi_blob h) = Some (d_field (js "blob2")).
Proof.
  apply (edit_restore_roundtrip w_entry (js "u") (js "e1") (d_update (js "blob2")) 20 (js "h1") w_entry w_edited
           (new_entry (js "u") (js "t") (d_create (js "e1") (js "blob1")) []) 40 (js "h2") w_entry_coherent).
  - vm_compute. reflexivity.
  - exact d_edit.
  - reflexivity.
  - intros k h Hk. assert (E : map_Forall (fun _ _ => False) (vw_history w_entry)).
    { apply map_Forall_to_list. vm_compute. constructor. }
    destruct (E _ _ Hk).
  - intros k h Hk _. assert (E : map_Forall (fun _ h => hi_changedAt h < 40) (vw_history w_edited)).
    { apply map_Forall_to_list. vm_compute. repeat constructor. }
    exact (E _ _ Hk).
  - vm_compute. reflexivity.
Defined.

(** ** Where the code and its comments differ *)

(** The passphrase change checks the passphrase before its write and stores the
    client's wrapping unconditionally.  When a rotation commits in between, the vault
    is at version 2, every entry re-encrypted under the new key, and the stored
    wrapping is the one of the old key. *)
Definition d_change : change_body :=
  {| cb_currentVerifierHash := d_hex 97; cb_secretKey := d_field (js "key1rewrapped"); cb_accountSalt := js "salt3";
     cb_newVerifierHash := d_hex 98 |}.

Theorem change_passphrase_overwrites_rotation :
  let r := post_change_passphrase d_hmac w_edited (Some (js "u")) false (Some d_change) true w_rotated in
  snd r = Ok VOk /\
  ((fun U => (vu_keyVersion U, vu_secretKey U)) <$> vw_users (fst r) !! js "u") = Some (2, Some (d_field (js "key1rewrapped"))) /\
  (en_keyVersion <$> vw_entries (fst r) !! js "e1") = Some 2.
Proof. vm_compute. repeat split. Qed.

(** The recovery key likewise: a wrapping of the old key is stored for version 2,
    and the mark that the rotation invalidated the recovery key is cleared. *)
Definition d_generate : generate_body :=
  {| gb_currentVerifierHash := d_hex 97; gb_secretKey := d_field (js "key1recovery"); gb_hkdfSalt := js "hs";
     gb_verifierHash := d_hex 99 |}.

Theorem recovery_generate_after_rotation :
  let r := post_recovery_generate d_hmac w_edited (Some (js "u")) false (Some d_generate) 35 w_rotated in
  snd r = Ok VOk /\
  ((fun U => (vu_keyVersion U, rk_secretKey (vu_recovery U), rk_invalidatedAt (vu_recovery U))) <$> vw_users (fst r) !! js "u")
  = Some (2, Some (d_field (js "key1recovery")), None).
Proof. vm_compute. repeat split. Qed.

(** A reset keeps every passkey wrapping of the destroyed key. *)
Theorem reset_keeps_prf_wrappings w0 target t now w w' r :
  executeVaultReset w0 target t now w = (w', Ok r) -> vw_credentials w' = vw_credentials w.
Proof. intros H. apply executeVaultReset_spec in H as (_ & U & Hr). exact (rs_credentials _ _ _ _ Hr). Qed.

(** A reset of a personal vault deletes the attachments the user uploaded to the
    entries of a team. *)
Definition d_team_attachment : attachment :=
  {| at_filename := js "plan.pdf"; at_contentType := js "application/pdf"; at_sizeBytes := 5; at_data := js "team";
     at_iv := []; at_authTag := []; at_keyVersion := None; at_aadVersion := 1; at_mode := 1;
     at_cek := {| ck_encrypted := None; ck_iv := None; ck_authTag := None; ck_keyVersion := None; ck_wrapAadVersion := Some 1 |};
     at_tenantId := js "t"; at_entryId := None; at_teamEntryId := Some (js "team-entry"); at_createdById := js "u" |}.

Theorem reset_deletes_team_attachments :
  let w := set_attachments {[ js "a" := d_team_attachment ]} w_edited in
  vw_attachments (fst (post_vault_reset w (Some (js "u")) false false (Some (js "DELETE MY VAULT")) true 50 w)) = ∅.
Proof. vm_compute. reflexivity. Qed.

(** A bulk import in which one statement fails (here a repeated id) answers
    success, reports the entries before it as created, and stores none of them. *)
Theorem import_reports_lost_entries :
  let es := [(d_create (js "n1") (js "b1"), []); (d_create (js "e1") (js "b2"), [])] in
  post_bulk_import (Some (js "u")) true (Some es) w_entry = (w_entry, Ok VOk) /\
  snd (import_tx (js "u") es w_entry) = Ok ([js "n1"], 1%nat) /\ vw_entries w_entry !! js "n1" = None.
Proof. vm_compute. repeat split. Qed.

(** The rotation marks the recovery key as invalidated even when the vault never
    had one. *)
Theorem rotation_marks_absent_recovery :
  ((fun U => (rk_setAt (vu_recovery U), rk_invalidatedAt (vu_recovery U))) <$> vw_users w_edited !! js "u")
  = Some (None, None) /\
  ((fun U => (rk_setAt (vu_recovery U), rk_invalidatedAt (vu_recovery U))) <$> vw_users w_rotated !! js "u")
  = Some (None, Some 30).
Proof. vm_compute. repeat split. Qed.

(** A vault of more than 5,000 entries (the quota allows 10,000) cannot be rotated. *)
Theorem rotation_size_limit sha hm b64 w0 u blocked body salt now w w' :
  coherent w -> post_rotate_key sha hm b64 w0 (Some u) blocked body salt now w = (w', Ok VOk) ->
  Z.of_nat (size (select (fun e => en_userId e =s u) (vw_entries w))) <= VAULT_ROTATE_ENTRIES_MAX.
Proof.
  intros C H. apply post_rotate_key_VOk in H as (u' & p & s & U & ctx & [= <-] & -> & Hsch & _ & Hrr).
  unfold rotateKeySchema in Hsch. apply andb_true_iff in Hsch as [Hsch _]. apply andb_true_iff in Hsch as [Hsch _].
  apply andb_true_iff in Hsch as [Hsch _]. apply andb_true_iff in Hsch as [Hsch _].
  apply andb_true_iff in Hsch as [Hsch _]. bools.
  etransitivity; [|exact Hsch]. apply inj_le.
  rewrite <- (size_dom (D := gset jsstr)), <- (length_map er_id).
  etransitivity; [|apply size_list_to_set_le]. apply subseteq_size. intros i Hi.
  apply elem_of_dom in Hi as [e Hi]. apply select_lookup in Hi as [Hi Hu]. bools.
  apply elem_of_list_to_set. by apply (rr_entry_submitted _ _ _ _ _ _ _ _ _ _ _ _ _ _ _ Hrr C i e Hi).
Qed.
