(* ===== verification/TenantAuth.v ===== *)
(** * Roles and permissions of a tenant

    src/src/lib/auth/access/tenant-auth.ts, tenant-role-hierarchy.ts and
    maintenance-auth.ts: what a role may do and who is above whom.  A membership is
    active while it is not deactivated; its role is looked up in the table of roles
    (the role column of the memberships, [MEMBER] by default). *)

From S2P Require Import Prelude JsString.
From stdpp Require Import fin_maps.
Local Open Scope Z_scope.
Local Open Scope js_scope.

Inductive TenantRole := OWNER | ADMIN | MEMBER.
#[export] Instance TenantRole_eq_dec : EqDecision TenantRole.
Proof. solve_decision. Defined.

Definition ROLE_LEVEL (r : TenantRole) : Z :=
  match r with OWNER => 30 | ADMIN => 20 | MEMBER => 10 end.

(** strictly above *)
Definition isTenantRoleAbove (actorRole targetRole : TenantRole) : bool :=
  ROLE_LEVEL targetRole <? ROLE_LEVEL actorRole.

Inductive TenantPermission :=
| MEMBER_MANAGE | MEMBER_VAULT_RESET | TEAM_CREATE | SCIM_MANAGE | AUDIT_LOG_VIEW | BREAKGLASS_REQUEST
| WEBHOOK_MANAGE | SERVICE_ACCOUNT_MANAGE | AUDIT_DELIVERY_MANAGE | OPERATOR_TOKEN_MANAGE.
#[export] Instance TenantPermission_eq_dec : EqDecision TenantPermission.
Proof. solve_decision. Defined.

Definition ROLE_PERMISSIONS (r : TenantRole) : list TenantPermission :=
  match r with
  | OWNER | ADMIN =>
      [MEMBER_MANAGE; MEMBER_VAULT_RESET; TEAM_CREATE; SCIM_MANAGE; AUDIT_LOG_VIEW; BREAKGLASS_REQUEST;
       WEBHOOK_MANAGE; SERVICE_ACCOUNT_MANAGE; AUDIT_DELIVERY_MANAGE; OPERATOR_TOKEN_MANAGE]
  | MEMBER => []
  end.

Definition hasTenantPermission (r : TenantRole) (p : TenantPermission) : bool :=
  bool_decide (p ∈ ROLE_PERMISSIONS r).

(** Memberships by tenant and user: the date of deactivation, and the role. *)
Record member_tables := {
  mt_deactivatedAt : gmap (jsstr * jsstr) (option Z);
  mt_roles : gmap (jsstr * jsstr) TenantRole }.

Definition is_active (d : option Z) : bool := match d with None => true | Some _ => false end.

Definition role_of (m : member_tables) (tenantId userId : jsstr) : TenantRole :=
  default MEMBER (mt_roles m !! (tenantId, userId)).

(** [tenantMember.findFirst({ where: { tenantId, userId, deactivatedAt: null } })] *)
Definition find_member (m : member_tables) (tenantId userId : jsstr) : option TenantRole :=
  match mt_deactivatedAt m !! (tenantId, userId) with
  | Some d => if is_active d then Some (role_of m tenantId userId) else None
  | None => None
  end.

(** [getTenantMembership]: an active membership of the user, its tenant and role. *)
Definition getTenantMembership (m : member_tables) (userId : jsstr) : option (jsstr * TenantRole) :=
  match List.find (fun r => (snd (fst r) =s userId) && is_active (snd r)) (map_to_list (mt_deactivatedAt m)) with
  | Some (tenantId, _, _) => Some (tenantId, role_of m tenantId userId)
  | None => None
  end.

(** [requireTenantMember]; [None] is the error FORBIDDEN *)
Definition requireTenantMember (m : member_tables) (userId : jsstr) : option (jsstr * TenantRole) :=
  getTenantMembership m userId.

Definition requireTenantPermission (m : member_tables) (userId : jsstr) (p : TenantPermission)
    : option (jsstr * TenantRole) :=
  match requireTenantMember m userId with
  | Some (tenantId, role) => if hasTenantPermission role p then Some (tenantId, role) else None
  | None => None
  end.

(** [requireMaintenanceOperator] with the tenant every caller passes: an active
    owner or administrator of that tenant. *)
Definition requireMaintenanceOperator (m : member_tables) (operatorId tenantId : jsstr) : option TenantRole :=
  match find_member m tenantId operatorId with
  | Some OWNER => Some OWNER
  | Some ADMIN => Some ADMIN
  | _ => None
  end.

(** ** Lemmas *)

Lemma getTenantMembership_Some m u t r :
  getTenantMembership m u = Some (t, r) -> find_member m t u = Some r.
Proof.
  unfold getTenantMembership. destruct (List.find _ _) as [[[t' u'] d]|] eqn:E; [|done]. intros [= -> <-].
  apply find_some in E as [Hin Hp]. apply list_elem_of_In, elem_of_map_to_list in Hin. cbn in Hp.
  apply andb_true_iff in Hp as [Hu Hd]. apply bool_decide_eq_true in Hu as ->.
  unfold find_member. by rewrite Hin, Hd.
Qed.

Lemma requireTenantPermission_Some m u p t r :
  requireTenantPermission m u p = Some (t, r) -> find_member m t u = Some r /\ hasTenantPermission r p = true.
Proof.
  unfold requireTenantPermission, requireTenantMember.
  destruct (getTenantMembership m u) as [[t' r']|] eqn:E; [|done].
  destruct (hasTenantPermission r' p) eqn:Hp; [|done]. intros [= -> ->]. split; [|done].
  by apply getTenantMembership_Some.
Qed.

Lemma requireMaintenanceOperator_Some m u t r :
  requireMaintenanceOperator m u t = Some r -> find_member m t u = Some r /\ r <> MEMBER.
Proof.
  unfold requireMaintenanceOperator. destruct (find_member m t u) as [[]|]; intros [= <-]; done.
Qed.

(** Every permission of a tenant is held by its owners and administrators alone,
    and being above is a strict order. *)
Lemma permission_admin r p : hasTenantPermission r p = true <-> r <> MEMBER.
Proof. unfold hasTenantPermission. rewrite bool_decide_eq_true. split; destruct r, p; set_solver. Qed.

Lemma above_irreflexive r : isTenantRoleAbove r r = false.
Proof. by destruct r. Qed.
Lemma above_transitive a b c :
  isTenantRoleAbove a b = true -> isTenantRoleAbove b c = true -> isTenantRoleAbove a c = true.
Proof. by destruct a, b, c. Qed.
