(* ===== verification/DualControl.v ===== *)
(** * Dual control: the ceremony of two administrators

    The abstract machine behind the destructive administrative actions.  One
    administrator initiates, another one approves within the life of the request,
    and only then can it be executed, once, within the window of the approval,
    unless it is revoked first.  [Ceremony] is what a row of such a table shows;
    the tables of vault resets and of master-key rotations are its instances, and
    their routes are shown to take only steps of this machine.  What the machine
    promises is stated on the log of its steps: every execution in a [lawful] log
    was initiated and approved by two different people. *)

From S2P Require Import Prelude JsString.
Local Open Scope Z_scope.

(** What the ceremony needs to see of a row: the columns [subject] that never
    change, the initiator (null once the account is deleted), the dates. *)
Class Ceremony (R K : Type) := {
  ce_subject : R -> K;
  ce_initiator : R -> option jsstr;
  ce_approvedAt : R -> option Z;
  ce_executedAt : R -> option Z;
  ce_revokedAt : R -> option Z;
  ce_expiresAt : R -> Z }.

Inductive ceremony_event (K : Type) :=
| Initiate (who : jsstr) (k : K) (at_ expires : Z)
| Approve (who : jsstr) (at_ expires : Z)
| Execute (who : jsstr) (at_ : Z)
| Revoke (who : jsstr) (at_ : Z).
Arguments Initiate {K}. Arguments Approve {K}. Arguments Execute {K}. Arguments Revoke {K}.

Section Machine.
Context {R K : Type} {C : Ceremony R K} (executeTtl : Z).
Implicit Types (r : R) (k : K) (tbl : gmap jsstr R) (log : list (jsstr * ceremony_event K)).

Definition unsettled r : Prop := ce_executedAt r = None /\ ce_revokedAt r = None.

(** One step of the row of a ceremony; [None] when the row is created. *)
Inductive ceremony_step : option R -> ceremony_event K -> R -> Prop :=
| step_initiate r who at_ :
    ce_initiator r = Some who -> ce_approvedAt r = None -> unsettled r ->
    ceremony_step None (Initiate who (ce_subject r) at_ (ce_expiresAt r)) r
| step_approve r r' i who at_ :
    ce_initiator r = Some i -> i <> who -> ce_approvedAt r = None -> unsettled r ->
    at_ < ce_expiresAt r -> ce_expiresAt r' <= at_ + executeTtl ->
    ce_subject r' = ce_subject r -> ce_initiator r' = ce_initiator r ->
    ce_approvedAt r' = Some at_ -> unsettled r' ->
    ceremony_step (Some r) (Approve who at_ (ce_expiresAt r')) r'
| step_execute r r' who at_ :
    ce_approvedAt r <> None -> unsettled r -> at_ < ce_expiresAt r ->
    ce_subject r' = ce_subject r -> ce_initiator r' = ce_initiator r ->
    ce_approvedAt r' = ce_approvedAt r -> ce_expiresAt r' = ce_expiresAt r ->
    ce_executedAt r' = Some at_ -> ce_revokedAt r' = None ->
    ceremony_step (Some r) (Execute who at_) r'
| step_revoke r r' who at_ :
    unsettled r ->
    ce_subject r' = ce_subject r -> ce_initiator r' = ce_initiator r ->
    ce_approvedAt r' = ce_approvedAt r -> ce_expiresAt r' = ce_expiresAt r ->
    ce_executedAt r' = None -> ce_revokedAt r' = Some at_ ->
    ceremony_step (Some r) (Revoke who at_) r'.

(** What happens to a row from outside: accounts are deleted, and other columns
    written. *)
Definition ceremony_forgets r r' : Prop :=
  ce_subject r' = ce_subject r /\ (ce_initiator r' = ce_initiator r \/ ce_initiator r' = None)
  /\ ce_approvedAt r' = ce_approvedAt r /\ ce_executedAt r' = ce_executedAt r
  /\ ce_revokedAt r' = ce_revokedAt r /\ ce_expiresAt r' = ce_expiresAt r.

(** Only columns outside the ceremony differ. *)
Definition ceremony_same r r' : Prop := ceremony_forgets r r' /\ ce_initiator r' = ce_initiator r.

(** ** The log, newest first *)

Definition initiated log id i k t0 x0 : Prop := (id, Initiate i k t0 x0) ∈ log.
Definition approved log id b t1 x1 : Prop := (id, Approve b t1 x1) ∈ log.
Definition executed log id : Prop := exists who t, (id, Execute who t) ∈ log.
Definition revoked log id : Prop := exists who t, (id, Revoke who t) ∈ log.

(** Why an event was allowed to follow a log. *)
Definition justified log (id : jsstr) (e : ceremony_event K) : Prop :=
  match e with
  | Initiate _ _ _ _ => forall e', (id, e') ∉ log
  | Approve b t1 x1 =>
      exists i k t0 x0, initiated log id i k t0 x0 /\ i <> b /\ t1 < x0 /\ x1 <= t1 + executeTtl
        /\ (forall b' t' x', ~ approved log id b' t' x') /\ ~ executed log id /\ ~ revoked log id
  | Execute _ t =>
      exists i k t0 x0 b t1 x1, initiated log id i k t0 x0 /\ approved log id b t1 x1
        /\ i <> b /\ t1 < x0 /\ t < x1 /\ x1 <= t1 + executeTtl /\ ~ executed log id /\ ~ revoked log id
  | Revoke _ _ =>
      (exists i k t0 x0, initiated log id i k t0 x0) /\ ~ executed log id /\ ~ revoked log id
  end.

Fixpoint lawful log : Prop :=
  match log with [] => True | (id, e) :: log' => justified log' id e /\ lawful log' end.

(** The row of a ceremony says what the log says. *)
Record row_recorded log (id : jsstr) r : Prop := {
  rr_initiated : exists i t0 x0, initiated log id i (ce_subject r) t0 x0
    /\ (ce_initiator r = Some i \/ ce_initiator r = None)
    /\ match ce_approvedAt r with
       | None => (forall b t1 x1, ~ approved log id b t1 x1) /\ ce_expiresAt r = x0
       | Some t1 => exists b, approved log id b t1 (ce_expiresAt r) /\ i <> b /\ t1 < x0
                              /\ ce_expiresAt r <= t1 + executeTtl
       end;
  rr_executed : ce_executedAt r = None <-> ~ executed log id;
  rr_revoked : ce_revokedAt r = None <-> ~ revoked log id }.

Definition recorded log tbl : Prop := forall id r, tbl !! id = Some r -> row_recorded log id r.

(** Only the beginning of a ceremony: kept by every later log. *)
Definition originated log tbl : Prop :=
  forall id r, tbl !! id = Some r -> exists i t0 x0, initiated log id i (ce_subject r) t0 x0.

(** ** Lemmas *)

(** The steps with the columns an event repeats given as equations. *)
Lemma initiate_step r who k at_ x :
  ce_subject r = k -> ce_expiresAt r = x -> ce_initiator r = Some who -> ce_approvedAt r = None -> unsettled r ->
  ceremony_step None (Initiate who k at_ x) r.
Proof. intros <- <- ? ? ?. by constructor. Qed.

Lemma approve_step r r' i who at_ x :
  ce_expiresAt r' = x ->
  ce_initiator r = Some i -> i <> who -> ce_approvedAt r = None -> unsettled r ->
  at_ < ce_expiresAt r -> x <= at_ + executeTtl ->
  ce_subject r' = ce_subject r -> ce_initiator r' = ce_initiator r ->
  ce_approvedAt r' = Some at_ -> unsettled r' ->
  ceremony_step (Some r) (Approve who at_ x) r'.
Proof. intros <- *. intros. by eapply step_approve. Qed.

Lemma recorded_originated log tbl : recorded log tbl -> originated log tbl.
Proof. intros H id r Hr. destruct (rr_initiated _ _ _ (H _ _ Hr)) as (i & t0 & x0 & ? & _). eauto. Qed.

Lemma originated_mono log e tbl : originated log tbl -> originated (e :: log) tbl.
Proof.
  intros H id r Hr. destruct (H _ _ Hr) as (i & t0 & x0 & Hi). exists i, t0, x0. unfold initiated in *. set_solver.
Qed.

(** An identifier is initiated once. *)
Lemma initiated_unique log id i k t0 x0 i' k' t0' x0' :
  lawful log -> initiated log id i k t0 x0 -> initiated log id i' k' t0' x0' ->
  i = i' /\ k = k' /\ t0 = t0' /\ x0 = x0'.
Proof.
  unfold initiated. induction log as [|[j e] log IH]; intros L H H'; [by apply elem_of_nil in H|].
  destruct L as [J L]. apply elem_of_cons in H as [[= -> <-]|H]; apply elem_of_cons in H' as [E|H'].
  - by injection E as -> -> -> ->.
  - cbn in J. by apply J in H'.
  - injection E as <- <-. cbn in J. by apply J in H.
  - by apply IH.
Qed.

Lemma row_recorded_forgets log id r r' :
  ceremony_forgets r r' -> row_recorded log id r -> row_recorded log id r'.
Proof.
  intros (Hs & Hi & Ha & He & Hr & Hx) [(i & t0 & x0 & Hin & Hio & Hap) Hex Hrv].
  split; [|by rewrite He|by rewrite Hr].
  exists i, t0, x0. rewrite Hs, Ha, Hx. split_and!; [done| |done].
  destruct Hi as [->| ->]; [done|by right].
Qed.

Lemma row_recorded_other log id id' e r :
  id' <> id -> row_recorded log id r -> row_recorded ((id', e) :: log) id r.
Proof.
  intros Hne [(i & t0 & x0 & Hi & Hin & Ha) He Hr].
  assert (X : forall e', (id, e') ∈ (id', e) :: log <-> (id, e') ∈ log).
  { intros e'. rewrite elem_of_cons. split; [intros [[= -> _]|?]; done|by right]. }
  split.
  - exists i, t0, x0. unfold initiated, approved in *. rewrite X. split_and!; [done..|].
    destruct (ce_approvedAt r); setoid_rewrite X; exact Ha.
  - unfold executed. setoid_rewrite X. exact He.
  - unfold revoked. setoid_rewrite X. exact Hr.
Qed.

(** A step of the machine is justified, and its row recorded. *)
Lemma ceremony_step_justified log id o e r' :
  ceremony_step o e r' ->
  match o with None => forall e', (id, e') ∉ log | Some r => row_recorded log id r end ->
  justified log id e.
Proof.
  intros S. destruct S as [r who at_ Hi Ha Hu | r r' i who at_ Hi Hne Ha [He Hr] Hx Hx' Hs Hi' Ha' Hu'
    | r r' who at_ Ha [He Hr] Hx Hs Hi' Ha' Hx' He' Hr' | r r' who at_ [He Hr] Hs Hi' Ha' Hx' He' Hr'];
    intros H; cbn; [exact H|..].
  all: destruct H as [(i0 & t0 & x0 & Hin & Hio & Hap) Hex Hrv]; apply Hex in He; apply Hrv in Hr.
  - rewrite Ha in Hap. destruct Hap as [Hap Hx0]. exists i0, (ce_subject r), t0, x0.
    assert (i0 = i) as -> by (destruct Hio; congruence). rewrite Hx0 in Hx. by split_and!.
  - destruct (ce_approvedAt r) as [t1|]; [|done]. destruct Hap as (b & Hb & Hib & Ht & Hw).
    exists i0, (ce_subject r), t0, x0, b, t1, (ce_expiresAt r). by split_and!.
  - split_and!; [by exists i0, (ce_subject r), t0, x0|done..].
Qed.

Lemma ceremony_step_recorded log id o e r' :
  ceremony_step o e r' ->
  match o with None => forall e', (id, e') ∉ log | Some r => row_recorded log id r end ->
  row_recorded ((id, e) :: log) id r'.
Proof.
  intros S. destruct S as [r who at_ Hi Ha [He Hr] | r r' i who at_ Hi Hne Ha [He Hr] Hx Hx' Hs Hi' Ha' [He' Hr']
    | r r' who at_ Ha [He Hr] Hx Hs Hi' Ha' Hx' He' Hr' | r r' who at_ [He Hr] Hs Hi' Ha' Hx' He' Hr']; intros H.
  - split; unfold initiated, approved, executed, revoked.
    + exists who, at_, (ce_expiresAt r). rewrite Ha. split_and!; [set_solver|by left| |done]. set_solver.
    + rewrite He. set_solver.
    + rewrite Hr. set_solver.
  - destruct H as [(i0 & t0 & x0 & Hin & Hio & Hap) Hex Hrv]. rewrite Ha in Hap. destruct Hap as [Hap Hx0].
    assert (i0 = i) as -> by (destruct Hio; congruence). apply Hex in He. apply Hrv in Hr.
    split; unfold initiated, approved, executed, revoked in *.
    + exists i, t0, x0. rewrite Hs, Hi', Ha'. split_and!; [set_solver|done|].
      exists who. split_and!; [set_solver|done|congruence|done].
    + rewrite He'. set_solver.
    + rewrite Hr'. set_solver.
  - destruct H as [(i0 & t0 & x0 & Hin & Hio & Hap) Hex Hrv]. apply Hrv in Hr.
    split; unfold initiated, approved, executed, revoked in *.
    + exists i0, t0, x0. rewrite Hs, Hi', Ha', Hx'. split_and!; [set_solver|done|].
      destruct (ce_approvedAt r) as [t1|]; [|done]. destruct Hap as (b & ? & ?). exists b. set_solver.
    + rewrite He'. set_solver.
    + rewrite Hr'. set_solver.
  - destruct H as [(i0 & t0 & x0 & Hin & Hio & Hap) Hex Hrv]. apply Hex in He.
    split; unfold initiated, approved, executed, revoked in *.
    + exists i0, t0, x0. rewrite Hs, Hi', Ha', Hx'. split_and!; [set_solver|done|].
      destruct (ce_approvedAt r) as [t1|].
      * destruct Hap as (b & ? & ?). exists b. set_solver.
      * set_solver.
    + rewrite He'. set_solver.
    + rewrite Hr'. set_solver.
Qed.

(** The table and the log advance together. *)
Lemma ceremony_step_log log tbl id e r' :
  lawful log -> recorded log tbl ->
  (tbl !! id = None -> forall e', (id, e') ∉ log) ->
  ceremony_step (tbl !! id) e r' ->
  lawful ((id, e) :: log) /\ recorded ((id, e) :: log) (<[id := r']> tbl).
Proof.
  intros L Rec Fr S.
  assert (H : match tbl !! id with None => forall e', (id, e') ∉ log | Some r => row_recorded log id r end).
  { destruct (tbl !! id) eqn:E; [by apply Rec|by apply Fr]. }
  split; [split; [by eapply ceremony_step_justified|done]|].
  intros j r Hj. destruct (decide (j = id)) as [->|Hne].
  - rewrite lookup_insert_eq in Hj. injection Hj as <-. by eapply ceremony_step_recorded.
  - rewrite lookup_insert_ne in Hj by done. apply row_recorded_other; [done|by apply Rec].
Qed.

(** In a lawful log every execution was decided by two people. *)
Lemma lawful_execution log later id who t before :
  lawful log -> log = later ++ (id, Execute who t) :: before ->
  exists i k t0 x0 b t1 x1, initiated before id i k t0 x0 /\ approved before id b t1 x1
    /\ i <> b /\ t1 < x0 /\ t < x1 /\ x1 <= t1 + executeTtl
    /\ ~ executed before id /\ ~ revoked before id /\ ~ executed later id.
Proof.
  intros L ->. induction later as [|[j e] later IH]; cbn in L.
  - destruct L as [(i & k & t0 & x0 & b & t1 & x1 & H) _]. exists i, k, t0, x0, b, t1, x1.
    destruct H as (?&?&?&?&?&?&?&?). split_and!; try done. unfold executed. set_solver.
  - destruct L as [J L]. destruct (IH L) as (i & k & t0 & x0 & b & t1 & x1 & H). exists i, k, t0, x0, b, t1, x1.
    destruct H as (?&?&?&?&?&?&?&?&HL). split_and!; try done.
    intros (w' & t' & Hin). apply elem_of_cons in Hin as [[= <- <-]|Hin]; [|apply HL; by exists w', t'].
    destruct J as (?&?&?&?&?&?&?&_&_&_&_&_&_&Hne&_). apply Hne. exists who, t. set_solver.
Qed.
End Machine.
