(* ===== verification/AdminControl.v ===== *)
(** * Administrative actions under dual control

    The routes by which administrators wipe a member's vault
    (src/src/app/api/tenant/members/[userId]/reset-vault, executed by the member at
    src/src/app/api/vault/admin-reset), the rotation of the server's master key
    (src/src/app/api/admin/rotate-master-key) and the operator tokens that
    authenticate it (src/src/lib/auth/tokens/operator-token.ts, admin-token.ts).

    A route's reads come from databases [w_...] that may be older than the one its
    transactions write; every write is a compare-and-swap on the row.  The members
    and the vault are those of [Vault]: its memberships say who is active, [aw_roles]
    adds their role. *)

From S2P Require Import Prelude JsString Table CryptoAad TenantAuth.
From S2P Require Import Vault VaultRotation.
From stdpp Require Import fin_maps.
Local Open Scope Z_scope.
Local Open Scope js_scope.

(** ** Rows *)

Record AdminVaultReset := {
  av_tenantId : jsstr; av_teamId : option jsstr; av_targetUserId : jsstr; av_initiatedById : jsstr;
  av_tokenHash : jsstr; av_encryptedToken : option jsstr; av_targetEmailAtInitiate : option jsstr;
  av_expiresAt : Z; av_approvedAt : option Z; av_approvedById : option jsstr; av_executedAt : option Z;
  av_revokedAt : option Z; av_createdAt : Z }.

Record MasterKeyRotation := {
  mr_tenantId : jsstr; mr_initiatedById : option jsstr; mr_initiatedAt : Z; mr_targetVersion : Z;
  mr_revokeShares : bool; mr_approvedById : option jsstr; mr_approvedAt : option Z;
  mr_executedAt : option Z; mr_executedById : option jsstr; mr_expiresAt : Z; mr_revokedAt : option Z;
  mr_revokedById : option jsstr; mr_reason : option jsstr; mr_revokedShares : option nat }.

(** The columns of a share link the rotation looks at. *)
Record share := { sh_masterKeyVersion : Z; sh_expiresAt : Z; sh_revokedAt : option Z }.

Record OperatorToken := {
  ot_tokenHash : jsstr; ot_prefix : jsstr; ot_name : jsstr; ot_tenantId : jsstr; ot_subjectUserId : jsstr;
  ot_createdByUserId : jsstr; ot_scope : jsstr; ot_expiresAt : Z; ot_revokedAt : option Z;
  ot_lastUsedAt : option Z }.

(** Audit rows the rotation writes in the transaction of the change itself. *)
Inductive rotation_audit :=
| ROTATION_INITIATE (actor tenantId rotationId : jsstr) (targetVersion : Z) (revokeShares : bool)
| ROTATION_APPROVE (actor tenantId rotationId : jsstr) (targetVersion : Z) (initiatedById : option jsstr)
    (newExpiresAt : Z) (reason : option jsstr)
| ROTATION_EXECUTE (actor tenantId rotationId : jsstr) (targetVersion : Z)
| ROTATION_REVOKE (actor tenantId rotationId : jsstr) (targetVersion : Z) (self : bool) (reason : option jsstr).

Record admin_world := {
  aw_vault : vault_world;
  aw_roles : gmap (jsstr * jsstr) TenantRole;
  aw_emails : gmap jsstr jsstr;
  aw_resets : gmap jsstr AdminVaultReset;
  aw_rotations : gmap jsstr MasterKeyRotation;
  aw_shares : gmap jsstr share;
  aw_tokens : gmap jsstr OperatorToken;
  aw_audit : list rotation_audit;
  (** reset links mailed: the address and the token *)
  aw_mail : list (jsstr * jsstr) }.

Definition members (w : admin_world) : member_tables :=
  {| mt_deactivatedAt := vw_members (aw_vault w); mt_roles := aw_roles w |}.

Definition set_vault (v : vault_world) (shares : gmap jsstr share) (w : admin_world) : admin_world :=
  {| aw_vault := v; aw_roles := aw_roles w; aw_emails := aw_emails w; aw_resets := aw_resets w;
     aw_rotations := aw_rotations w; aw_shares := shares; aw_tokens := aw_tokens w; aw_audit := aw_audit w;
     aw_mail := aw_mail w |}.
Definition set_resets (t : gmap jsstr AdminVaultReset) (w : admin_world) : admin_world :=
  {| aw_vault := aw_vault w; aw_roles := aw_roles w; aw_emails := aw_emails w; aw_resets := t;
     aw_rotations := aw_rotations w; aw_shares := aw_shares w; aw_tokens := aw_tokens w; aw_audit := aw_audit w;
     aw_mail := aw_mail w |}.
Definition set_rotations (t : gmap jsstr MasterKeyRotation) (a : list rotation_audit) (w : admin_world) : admin_world :=
  {| aw_vault := aw_vault w; aw_roles := aw_roles w; aw_emails := aw_emails w; aw_resets := aw_resets w;
     aw_rotations := t; aw_shares := aw_shares w; aw_tokens := aw_tokens w; aw_audit := a; aw_mail := aw_mail w |}.
Definition set_tokens (t : gmap jsstr OperatorToken) (w : admin_world) : admin_world :=
  {| aw_vault := aw_vault w; aw_roles := aw_roles w; aw_emails := aw_emails w; aw_resets := aw_resets w;
     aw_rotations := aw_rotations w; aw_shares := aw_shares w; aw_tokens := t; aw_audit := aw_audit w;
     aw_mail := aw_mail w |}.
Definition set_mail (m : list (jsstr * jsstr)) (w : admin_world) : admin_world :=
  {| aw_vault := aw_vault w; aw_roles := aw_roles w; aw_emails := aw_emails w; aw_resets := aw_resets w;
     aw_rotations := aw_rotations w; aw_shares := aw_shares w; aw_tokens := aw_tokens w; aw_audit := aw_audit w;
     aw_mail := m |}.

(** ** Answers *)

Inductive admin_error :=
| Refused (e : vault_error)
| SERVICE_UNAVAILABLE | CONFLICT | INVALID_ORIGIN
| FORBIDDEN_INSUFFICIENT_ROLE | RESET_TARGET_EMAIL_CHANGED | RESET_NOT_APPROVABLE
| VAULT_RESET_TOKEN_EXPIRED | VAULT_RESET_TOKEN_USED | VAULT_RESET_NOT_APPROVED
| FORBIDDEN_SELF_APPROVAL | FORBIDDEN_CROSS_TENANT | ROTATION_NOT_EXECUTABLE | ROTATION_TARGET_VERSION_MISMATCH
| OPERATOR_TOKEN_LIMIT_EXCEEDED | OPERATOR_TOKEN_NOT_FOUND | ALREADY_REVOKED | OPERATOR_TOKEN_STALE_SESSION.

Inductive admin_response := AOk | AError (e : admin_error).
Inductive admin_throw := Wipe (e : vault_throw) | Invalidation | DuplicateKey.

Definition atx (A : Type) : Type := st admin_world admin_throw A.
Definition deny (e : admin_error) : atx admin_response := st_ret (AError e).
Definition deny_ (e : vault_error) : atx admin_response := deny (Refused e).

(** ** Times *)

Definition MS_PER_MINUTE : Z := 60000.
Definition MS_PER_DAY : Z := 86400000.
Definition EXECUTE_TTL_MS : Z := 60 * MS_PER_MINUTE.
Definition RESET_TOTAL_TTL_MS : Z := MS_PER_DAY.
Definition ROTATION_TOTAL_TTL_MS : Z := MS_PER_DAY.

(** [updateMany] on the row of one identifier: the row after it, if it matched. *)
Definition cas {R} (p : R -> bool) (f : R -> R) (id : jsstr) (t : gmap jsstr R) : option (gmap jsstr R) :=
  match t !! id with
  | Some r => if p r then Some (<[id := f r]> t) else None
  | None => None
  end.

Definition is_null {A} (o : option A) : bool := match o with None => true | Some _ => false end.

Section Routes.
(** SHA-256 in hexadecimal, and the sealing of a reset token under the additional
    data of its row ([None]: the ciphertext does not open). *)
Context (sha256_hex : jsstr -> jsstr)
        (encryptResetToken : jsstr -> AdminResetAad -> jsstr)
        (decryptResetToken : jsstr -> AdminResetAad -> option jsstr).

(** ** Vault reset by administrators *)

Definition MAX_PENDING_RESETS : nat := 3.

Definition reset_pending (tenantId target : jsstr) (now : Z) (r : AdminVaultReset) : bool :=
  (av_tenantId r =s tenantId) && (av_targetUserId r =s target) && is_null (av_executedAt r)
  && is_null (av_revokedAt r) && (now <? av_expiresAt r).

Definition new_reset (tenantId target actor tokenHash sealed email : jsstr) (expiresAt createdAt : Z) : AdminVaultReset :=
  {| av_tenantId := tenantId; av_teamId := None; av_targetUserId := target; av_initiatedById := actor;
     av_tokenHash := tokenHash; av_encryptedToken := Some sealed; av_targetEmailAtInitiate := Some email;
     av_expiresAt := expiresAt; av_approvedAt := None; av_approvedById := None; av_executedAt := None;
     av_revokedAt := None; av_createdAt := createdAt |}.

(** The transaction under the tenant's advisory lock: count, then create. *)
Definition create_reset (tenantId target : jsstr) (now : Z) (id : jsstr) (r : AdminVaultReset)
    : atx admin_response := fun w =>
  if Nat.leb MAX_PENDING_RESETS (size (select (reset_pending tenantId target now) (aw_resets w)))
  then (w, Ok (AError (Refused RATE_LIMIT_EXCEEDED)))
  else if has (aw_resets w !! id)
          || has (find_by (fun x => av_tokenHash x =s av_tokenHash r) (aw_resets w))
  then (w, Throw DuplicateKey)
  else (set_resets (<[id := r]> (aw_resets w)) w, Ok AOk).

(** POST /api/tenant/members/[userId]/reset-vault; [w_a] is read for the actor's
    membership, [w_m] for the target's. *)
Definition post_reset_vault (w_a w_m : admin_world) (session : option jsstr) (target : jsstr)
    (stepUp redisErrored allowed : bool) (id token : jsstr) (now now' created : Z) : atx admin_response :=
  match session with
  | None => deny_ UNAUTHORIZED
  | Some actor =>
      match requireTenantPermission (members w_a) actor MEMBER_VAULT_RESET with
      | None => deny_ FORBIDDEN
      | Some (tenantId, role) =>
          if target =s actor then deny_ FORBIDDEN
          else match find_member (members w_m) tenantId target with
          | None => deny_ NOT_FOUND
          | Some targetRole =>
              if negb (isTenantRoleAbove role targetRole) then deny_ FORBIDDEN
              else match nonempty (aw_emails w_m !! target) with
              | None => deny_ NOT_FOUND
              | Some email =>
                  if stepUp then deny_ SESSION_STEP_UP_REQUIRED
                  else if redisErrored then deny SERVICE_UNAVAILABLE
                  else if negb allowed then deny_ RATE_LIMIT_EXCEEDED
                  else
                    let sealed := encryptResetToken token
                      {| ar_tenantId := tenantId; ar_resetId := id; ar_targetEmailAtInitiate := email |} in
                    create_reset tenantId target now' id
                      (new_reset tenantId target actor (sha256_hex token) sealed email
                         (now + RESET_TOTAL_TTL_MS) created)
              end
          end
      end
  end.

Inductive ApproveEligibility := ELIGIBLE | INITIATOR | INSUFFICIENT_ROLE.
Definition computeApproveEligibility (actorId : jsstr) (actorRole targetRole : TenantRole) (initiatedById : jsstr)
    : ApproveEligibility :=
  if actorId =s initiatedById then INITIATOR
  else if negb (isTenantRoleAbove actorRole targetRole) then INSUFFICIENT_ROLE
  else ELIGIBLE.

Definition find_reset (tenantId target id : jsstr) (w : admin_world) : option AdminVaultReset :=
  r ← aw_resets w !! id;
  if (av_tenantId r =s tenantId) && (av_targetUserId r =s target) then Some r else None.

Definition approve_where (tenantId target actor : jsstr) (now : Z) (r : AdminVaultReset) : bool :=
  (av_tenantId r =s tenantId) && (av_targetUserId r =s target) && is_null (av_approvedAt r)
  && is_null (av_executedAt r) && is_null (av_revokedAt r) && (now <? av_expiresAt r)
  && negb (av_initiatedById r =s actor).

Definition approve_reset (actor : jsstr) (now newExpiresAt : Z) (r : AdminVaultReset) : AdminVaultReset :=
  {| av_tenantId := av_tenantId r; av_teamId := av_teamId r; av_targetUserId := av_targetUserId r;
     av_initiatedById := av_initiatedById r; av_tokenHash := av_tokenHash r;
     av_encryptedToken := av_encryptedToken r; av_targetEmailAtInitiate := av_targetEmailAtInitiate r;
     av_expiresAt := newExpiresAt; av_approvedAt := Some now; av_approvedById := Some actor;
     av_executedAt := av_executedAt r; av_revokedAt := av_revokedAt r; av_createdAt := av_createdAt r |}.

(** The decryption, before the row is touched: the sealed token opens for the
    row, the tenant and the address of the initiation. *)
Definition open_token (id : jsstr) (r : AdminVaultReset) : option jsstr :=
  match nonempty (av_encryptedToken r), nonempty (av_targetEmailAtInitiate r) with
  | Some sealed, Some email =>
      decryptResetToken sealed
        {| ar_tenantId := av_tenantId r; ar_resetId := id; ar_targetEmailAtInitiate := email |}
  | _, _ => None
  end.

(** POST .../reset-vault/[resetId]/approve; [w_r] is read for the reset. *)
Definition post_reset_approve (w_a w_r w_m : admin_world) (session : option jsstr) (target resetId : jsstr)
    (stepUp blocked : bool) (now : Z) : atx admin_response :=
  match session with
  | None => deny_ UNAUTHORIZED
  | Some actor =>
      match requireTenantPermission (members w_a) actor MEMBER_VAULT_RESET with
      | None => deny_ FORBIDDEN
      | Some (tenantId, role) =>
          match find_reset tenantId target resetId w_r, find_member (members w_m) tenantId target with
          | None, _ | _, None => deny_ NOT_FOUND
          | Some record, Some targetRole =>
              match computeApproveEligibility actor role targetRole (av_initiatedById record) with
              | INITIATOR => deny_ FORBIDDEN
              | INSUFFICIENT_ROLE => deny FORBIDDEN_INSUFFICIENT_ROLE
              | ELIGIBLE =>
                  if match nonempty (av_targetEmailAtInitiate record) with
                     | Some e => negb (bool_decide (aw_emails w_m !! target = Some e)) | None => false end
                  then deny RESET_TARGET_EMAIL_CHANGED
                  else if stepUp then deny_ SESSION_STEP_UP_REQUIRED
                  else if blocked then deny_ RATE_LIMIT_EXCEEDED
                  else match open_token resetId record with
                  | None => deny RESET_NOT_APPROVABLE
                  | Some plaintext => fun w =>
                      let newExpiresAt := Z.min (av_createdAt record + RESET_TOTAL_TTL_MS) (now + EXECUTE_TTL_MS) in
                      match cas (approve_where tenantId target actor now) (approve_reset actor now newExpiresAt)
                              resetId (aw_resets w) with
                      | None => (w, Ok (AError RESET_NOT_APPROVABLE))
                      | Some t =>
                          let w1 := set_resets t w in
                          (match nonempty (aw_emails w_m !! target) with
                           | Some email => set_mail (aw_mail w1 ++ [(email, plaintext)]) w1
                           | None => w1
                           end, Ok AOk)
                      end
                  end
              end
          end
      end
  end.

Definition revoke_where (tenantId target : jsstr) (now : Z) (r : AdminVaultReset) : bool :=
  (av_tenantId r =s tenantId) && (av_targetUserId r =s target) && is_null (av_executedAt r)
  && is_null (av_revokedAt r) && (now <? av_expiresAt r).

Definition close_reset (executedAt revokedAt : option Z) (r : AdminVaultReset) : AdminVaultReset :=
  {| av_tenantId := av_tenantId r; av_teamId := av_teamId r; av_targetUserId := av_targetUserId r;
     av_initiatedById := av_initiatedById r; av_tokenHash := av_tokenHash r; av_encryptedToken := None;
     av_targetEmailAtInitiate := av_targetEmailAtInitiate r; av_expiresAt := av_expiresAt r;
     av_approvedAt := av_approvedAt r; av_approvedById := av_approvedById r; av_executedAt := executedAt;
     av_revokedAt := revokedAt; av_createdAt := av_createdAt r |}.

(** POST .../reset-vault/[resetId]/revoke *)
Definition post_reset_revoke (w_a w_r : admin_world) (session : option jsstr) (target resetId : jsstr) (now : Z)
    : atx admin_response :=
  match session with
  | None => deny_ UNAUTHORIZED
  | Some actor =>
      match requireTenantPermission (members w_a) actor MEMBER_VAULT_RESET with
      | None => deny_ FORBIDDEN
      | Some (tenantId, _) =>
          match find_reset tenantId target resetId w_r with
          | None => deny CONFLICT
          | Some _ => fun w =>
              match cas (revoke_where tenantId target now) (fun r => close_reset (av_executedAt r) (Some now) r)
                      resetId (aw_resets w) with
              | None => (w, Ok (AError CONFLICT))
              | Some t => (set_resets t w, Ok AOk)
              end
          end
      end
  end.

Definition execute_where (now : Z) (r : AdminVaultReset) : bool :=
  negb (is_null (av_approvedAt r)) && is_null (av_executedAt r) && is_null (av_revokedAt r)
  && (now <? av_expiresAt r).

(** The share links that go with the vault. *)
Definition shares_of (target : jsstr) (w : admin_world) : gset jsstr :=
  dom (select (fun s => ow_userId s =s target) (vw_shares (aw_vault w))).

Definition revoke_token (now : Z) (t : OperatorToken) : OperatorToken :=
  {| ot_tokenHash := ot_tokenHash t; ot_prefix := ot_prefix t; ot_name := ot_name t; ot_tenantId := ot_tenantId t;
     ot_subjectUserId := ot_subjectUserId t; ot_createdByUserId := ot_createdByUserId t; ot_scope := ot_scope t;
     ot_expiresAt := ot_expiresAt t; ot_revokedAt := Some now; ot_lastUsedAt := ot_lastUsedAt t |}.

(** The wipe, once the reset is marked as executed; [w_c] is read for the
    counts of the audit row.  [invalidateUserSessions] comes after it, in a
    transaction of its own that may fail ([invalidated] is then false); of the
    tables it writes the operator tokens are here, the others in [SessionCache]. *)
Definition wipe (w_c : admin_world) (target : jsstr) (record : AdminVaultReset) (invalidated : bool) (now now' : Z)
    : atx admin_response := fun w =>
  let audit := ADMIN_VAULT_RESET_EXECUTE target (av_tenantId record) (av_teamId record)
                 (av_initiatedById record) (av_approvedById record) in
  match executeVaultReset (aw_vault w_c) target (Some audit) now (aw_vault w) with
  | (v, Ok _) =>
      let w1 := set_vault v (filter (fun kr => fst kr ∉ shares_of target w) (aw_shares w)) w in
      if invalidated
      then (set_tokens (fst (updateMany (fun t => (ot_subjectUserId t =s target) && is_null (ot_revokedAt t))
                               (revoke_token now') (aw_tokens w1))) w1, Ok AOk)
      else (w1, Throw Invalidation)
  | (_, Throw e) => (w, Throw (Wipe e))
  end.

(** POST /api/vault/admin-reset, by the member whose vault it is *)
Definition post_admin_reset (w_r w_c : admin_world) (appUrl : bool) (session : option jsstr) (blocked : bool)
    (body : option (jsstr * jsstr)) (invalidated : bool) (now now' now'' : Z) : atx admin_response :=
  if negb appUrl then deny INVALID_ORIGIN
  else match session with
  | None => deny_ UNAUTHORIZED
  | Some userId =>
      if blocked then deny_ RATE_LIMIT_EXCEEDED
      else match body with
      | None => deny_ VALIDATION_ERROR
      | Some (token, confirmation) =>
          if negb (confirmation =s js "DELETE MY VAULT") then deny_ VAULT_RESET_CONFIRMATION_MISMATCH
          else match find_by (fun r => av_tokenHash r =s sha256_hex token) (aw_resets w_r) with
          | None => deny_ NOT_FOUND
          | Some (id, record) =>
              if negb (av_targetUserId record =s userId) then deny_ FORBIDDEN
              else if av_expiresAt record <? now then deny VAULT_RESET_TOKEN_EXPIRED
              else if has (av_executedAt record) || has (av_revokedAt record) then deny VAULT_RESET_TOKEN_USED
              else if is_null (av_approvedAt record) then deny VAULT_RESET_NOT_APPROVED
              else fun w =>
                match cas (execute_where now') (fun r => close_reset (Some now') (av_revokedAt r) r) id (aw_resets w) with
                | None => (w, Ok (AError VAULT_RESET_TOKEN_USED))
                | Some t => wipe w_c userId record invalidated now' now'' (set_resets t w)
                end
          end
      end
  end.

(** The status shown for a reset. *)
Inductive ResetStatus := PENDING_APPROVAL | APPROVED | EXECUTED | REVOKED | EXPIRED.
Definition deriveResetStatus (r : AdminVaultReset) (now : Z) : ResetStatus :=
  if negb (is_null (av_executedAt r)) then EXECUTED
  else if negb (is_null (av_revokedAt r)) then REVOKED
  else if av_expiresAt r <=? now then EXPIRED
  else if negb (is_null (av_approvedAt r)) then APPROVED
  else PENDING_APPROVAL.

(** ** Operator tokens *)

Definition OPERATOR_TOKEN_PREFIX : jsstr := js "op_".
Definition OPERATOR_TOKEN_SCOPE_MAINTENANCE : jsstr := js "maintenance".
Definition OPERATOR_TOKEN_LAST_USED_THROTTLE_MS : Z := 5 * MS_PER_MINUTE.
Definition TOKEN_LIMIT_PER_TENANT : nat := 50.

(** [/^op_[A-Za-z0-9_-]{43}$/] *)
Definition is_token_char (c : Z) : bool :=
  is_digit c || ((65 <=? c) && (c <=? 90)) || ((97 <=? c) && (c <=? 122)) || (c =? 95) || (c =? 45).
Definition OPERATOR_TOKEN_PLAINTEXT_RE (s : jsstr) : bool :=
  js_starts_with OPERATOR_TOKEN_PREFIX s && Nat.eqb (length s) 46 && forallb is_token_char (drop 3 s).

Definition parseOperatorTokenScopes (csv : jsstr) : list jsstr :=
  List.filter (fun s => s =s OPERATOR_TOKEN_SCOPE_MAINTENANCE) (map js_trim (js_split (js ",") csv)).

Record AdminAuth := { aa_subjectUserId : jsstr; aa_tenantId : jsstr; aa_tokenId : jsstr; aa_scopes : list jsstr }.

Inductive OperatorTokenValidationError :=
| INVALID_TOKEN_TYPE | OPERATOR_TOKEN_INVALID | OPERATOR_TOKEN_REVOKED | OPERATOR_TOKEN_EXPIRED.

Definition validateOperatorToken (authorization : option jsstr) (now : Z) (w : admin_world)
    : OperatorTokenValidationError + AdminAuth :=
  match bearer_of (js "Bearer") authorization with
  | Some plaintext =>
      if negb (js_starts_with OPERATOR_TOKEN_PREFIX plaintext) then inl INVALID_TOKEN_TYPE
      else if negb (OPERATOR_TOKEN_PLAINTEXT_RE plaintext) then inl OPERATOR_TOKEN_INVALID
      else match find_by (fun t => ot_tokenHash t =s sha256_hex plaintext) (aw_tokens w) with
           | None => inl OPERATOR_TOKEN_INVALID
           | Some (id, t) =>
               if has (ot_revokedAt t) then inl OPERATOR_TOKEN_REVOKED
               else if ot_expiresAt t <=? now then inl OPERATOR_TOKEN_EXPIRED
               else inr {| aa_subjectUserId := ot_subjectUserId t; aa_tenantId := ot_tenantId t;
                           aa_tokenId := id; aa_scopes := parseOperatorTokenScopes (ot_scope t) |}
           end
  | None => inl INVALID_TOKEN_TYPE
  end.

(** [verifyAdminToken] *)
Definition verifyAdminToken (authorization : option jsstr) (now : Z) (w : admin_world) : option AdminAuth :=
  match authorization with
  | Some h =>
      if js_starts_with (js "Bearer ") h && js_starts_with OPERATOR_TOKEN_PREFIX (js_trim (drop 7 h))
      then match validateOperatorToken authorization now w with inr a => Some a | inl _ => None end
      else None
  | None => None
  end.

(** The throttled update of [lastUsedAt], sent without waiting for it. *)
Definition touch_token (id : jsstr) (now : Z) : atx unit := fun w =>
  match aw_tokens w !! id with
  | Some t =>
      if match ot_lastUsedAt t with None => true | Some l => OPERATOR_TOKEN_LAST_USED_THROTTLE_MS <? now - l end
      then (set_tokens (<[id := {| ot_tokenHash := ot_tokenHash t; ot_prefix := ot_prefix t; ot_name := ot_name t;
                                   ot_tenantId := ot_tenantId t; ot_subjectUserId := ot_subjectUserId t;
                                   ot_createdByUserId := ot_createdByUserId t; ot_scope := ot_scope t;
                                   ot_expiresAt := ot_expiresAt t; ot_revokedAt := ot_revokedAt t;
                                   ot_lastUsedAt := Some now |}]> (aw_tokens w)) w, Ok tt)
      else (w, Ok tt)
  | None => (w, Ok tt)
  end.

Definition token_live (tenantId : jsstr) (now : Z) (t : OperatorToken) : bool :=
  (ot_tenantId t =s tenantId) && is_null (ot_revokedAt t) && (now <? ot_expiresAt t).

(** POST /api/tenant/operator-tokens; the body is the name and the days to
    expiry, 30 by default *)
Definition post_operator_tokens (w_a : admin_world) (session : option jsstr) (stepUp blocked : bool)
    (body : option (jsstr * option Z)) (id plaintext : jsstr) (now now' : Z) : atx admin_response :=
  match session with
  | None => deny_ UNAUTHORIZED
  | Some userId =>
      match requireTenantPermission (members w_a) userId OPERATOR_TOKEN_MANAGE with
      | None => deny_ FORBIDDEN
      | Some (tenantId, _) =>
          if stepUp then deny OPERATOR_TOKEN_STALE_SESSION
          else if blocked then deny_ RATE_LIMIT_EXCEEDED
          else match body with
          | None => deny_ VALIDATION_ERROR
          | Some (name, days) =>
              let expiresInDays := default 30 days in
              if negb ((1 <=? Z.of_nat (length name)) && (Z.of_nat (length name) <=? 128)
                       && (1 <=? expiresInDays) && (expiresInDays <=? 90))
              then deny_ VALIDATION_ERROR
              else fun w =>
                if Nat.leb TOKEN_LIMIT_PER_TENANT (size (select (token_live tenantId now') (aw_tokens w)))
                then (w, Ok (AError OPERATOR_TOKEN_LIMIT_EXCEEDED))
                else if has (aw_tokens w !! id)
                        || has (find_by (fun t => ot_tokenHash t =s sha256_hex plaintext) (aw_tokens w))
                then (w, Throw DuplicateKey)
                else (set_tokens (<[id :=
                        {| ot_tokenHash := sha256_hex plaintext; ot_prefix := take 8 plaintext; ot_name := name;
                           ot_tenantId := tenantId; ot_subjectUserId := userId; ot_createdByUserId := userId;
                           ot_scope := OPERATOR_TOKEN_SCOPE_MAINTENANCE;
                           ot_expiresAt := now + expiresInDays * MS_PER_DAY; ot_revokedAt := None;
                           ot_lastUsedAt := None |}]> (aw_tokens w)) w, Ok AOk)
          end
      end
  end.

(** DELETE /api/tenant/operator-tokens/[id] *)
Definition delete_operator_token (w_a w_r : admin_world) (session : option jsstr) (rlAllowed : bool) (id : jsstr)
    (now : Z) : atx admin_response :=
  match session with
  | None => deny_ UNAUTHORIZED
  | Some userId =>
      match requireTenantPermission (members w_a) userId OPERATOR_TOKEN_MANAGE with
      | None => deny_ FORBIDDEN
      | Some (tenantId, _) =>
          if negb rlAllowed then deny_ RATE_LIMIT_EXCEEDED
          else match aw_tokens w_r !! id with
          | None => deny OPERATOR_TOKEN_NOT_FOUND
          | Some token =>
              if negb (ot_tenantId token =s tenantId) then deny OPERATOR_TOKEN_NOT_FOUND
              else if has (ot_revokedAt token) then deny ALREADY_REVOKED
              else fun w =>
                match cas (fun t => ot_tenantId t =s tenantId) (revoke_token now) id (aw_tokens w) with
                | None => (w, Throw (Wipe RecordNotFound))
                | Some t => (set_tokens t w, Ok AOk)
                end
          end
      end
  end.

(** ** Rotation of the master key *)

Definition MASTER_KEY_VERSION_MIN : Z := 1.
Definition MASTER_KEY_VERSION_MAX : Z := 100.

(** The configuration of the process: the current version, and the versions
    whose key is set. *)
Record key_config := { kc_current : Z; kc_configured : Z -> bool }.

Record rotate_body := { ro_targetVersion : Z; ro_revokeShares : option bool; ro_reason : option jsstr }.

(** [reason]: trimmed, at most 500 units *)
Definition reason_ok (r : option jsstr) : bool :=
  match r with Some s => Z.of_nat (length (js_trim s)) <=? 500 | None => true end.

(** POST /api/admin/rotate-master-key/initiate *)
Definition post_rotate_initiate (w_t w_m : admin_world) (authorization : option jsstr) (blocked : bool)
    (body : option rotate_body) (cfg : key_config) (id : jsstr) (now now' : Z) : atx admin_response :=
  match verifyAdminToken authorization now w_t with
  | None => deny_ UNAUTHORIZED
  | Some auth =>
      if blocked then deny_ RATE_LIMIT_EXCEEDED
      else match body with
      | None => deny_ VALIDATION_ERROR
      | Some b =>
          if negb (in_range MASTER_KEY_VERSION_MIN MASTER_KEY_VERSION_MAX (ro_targetVersion b) && reason_ok (ro_reason b))
          then deny_ VALIDATION_ERROR
          else if negb (ro_targetVersion b =? kc_current cfg) || negb (kc_configured cfg (ro_targetVersion b))
          then deny ROTATION_TARGET_VERSION_MISMATCH
          else match requireMaintenanceOperator (members w_m) (aa_subjectUserId auth) (aa_tenantId auth) with
          | None => deny_ VALIDATION_ERROR
          | Some _ => fun w =>
              let revokeShares := default true (ro_revokeShares b) in
              let row := {| mr_tenantId := aa_tenantId auth; mr_initiatedById := Some (aa_subjectUserId auth);
                            mr_initiatedAt := now'; mr_targetVersion := ro_targetVersion b;
                            mr_revokeShares := revokeShares; mr_approvedById := None; mr_approvedAt := None;
                            mr_executedAt := None; mr_executedById := None;
                            mr_expiresAt := now' + ROTATION_TOTAL_TTL_MS; mr_revokedAt := None;
                            mr_revokedById := None; mr_reason := js_trim <$> ro_reason b; mr_revokedShares := None |} in
              if has (aw_rotations w !! id) then (w, Throw DuplicateKey)
              else (set_rotations (<[id := row]> (aw_rotations w))
                      (aw_audit w ++ [ROTATION_INITIATE (aa_subjectUserId auth) (aa_tenantId auth) id
                                        (ro_targetVersion b) revokeShares]) w, Ok AOk)
          end
      end
  end.

Inductive RotationEligibility := R_ELIGIBLE | R_INITIATOR | R_CROSS_TENANT | R_NOT_APPROVED | R_ALREADY_TERMINAL.

Definition computeRotationApproveEligibility (actor actorTenant : jsstr) (r : MasterKeyRotation) (now : Z)
    : RotationEligibility :=
  if negb (actorTenant =s mr_tenantId r) then R_CROSS_TENANT
  else if bool_decide (mr_initiatedById r = Some actor) then R_INITIATOR
  else if negb (is_null (mr_approvedAt r)) || negb (is_null (mr_executedAt r)) || negb (is_null (mr_revokedAt r))
          || (mr_expiresAt r <=? now) then R_ALREADY_TERMINAL
  else R_ELIGIBLE.

Definition computeRotationExecuteEligibility (actorTenant : jsstr) (r : MasterKeyRotation) (now : Z)
    : RotationEligibility :=
  if negb (actorTenant =s mr_tenantId r) then R_CROSS_TENANT
  else if is_null (mr_approvedAt r) then R_NOT_APPROVED
  else if negb (is_null (mr_executedAt r)) || negb (is_null (mr_revokedAt r)) || (mr_expiresAt r <=? now)
  then R_ALREADY_TERMINAL
  else R_ELIGIBLE.

Definition computeRotationRevokeEligibility (actorTenant : jsstr) (r : MasterKeyRotation) : RotationEligibility :=
  if negb (actorTenant =s mr_tenantId r) then R_CROSS_TENANT
  else if negb (is_null (mr_executedAt r)) || negb (is_null (mr_revokedAt r)) then R_ALREADY_TERMINAL
  else R_ELIGIBLE.

(** Writes of the columns of one phase. *)
Definition rotation_set (approved : option (jsstr * Z * Z)) (executed revoked : option (jsstr * Z)) (r : MasterKeyRotation)
    : MasterKeyRotation :=
  {| mr_tenantId := mr_tenantId r; mr_initiatedById := mr_initiatedById r; mr_initiatedAt := mr_initiatedAt r;
     mr_targetVersion := mr_targetVersion r; mr_revokeShares := mr_revokeShares r;
     mr_approvedById := match approved with Some (b, _, _) => Some b | None => mr_approvedById r end;
     mr_approvedAt := match approved with Some (_, t, _) => Some t | None => mr_approvedAt r end;
     mr_executedAt := match executed with Some (_, t) => Some t | None => mr_executedAt r end;
     mr_executedById := match executed with Some (b, _) => Some b | None => mr_executedById r end;
     mr_expiresAt := match approved with Some (_, _, x) => x | None => mr_expiresAt r end;
     mr_revokedAt := match revoked with Some (_, t) => Some t | None => mr_revokedAt r end;
     mr_revokedById := match revoked with Some (b, _) => Some b | None => mr_revokedById r end;
     mr_reason := mr_reason r; mr_revokedShares := mr_revokedShares r |}.

(** [initiatedById: { not: actor }] leaves out a row whose initiator is null. *)
Definition rotation_approve_where (tenantId actor : jsstr) (now : Z) (r : MasterKeyRotation) : bool :=
  (mr_tenantId r =s tenantId) && is_null (mr_approvedAt r) && is_null (mr_executedAt r) && is_null (mr_revokedAt r)
  && (now <? mr_expiresAt r) && match mr_initiatedById r with Some i => negb (i =s actor) | None => false end.

Definition find_rotation (tenantId id : jsstr) (w : admin_world) : option MasterKeyRotation :=
  r ← aw_rotations w !! id; if mr_tenantId r =s tenantId then Some r else None.

(** What the three later phases check alike: token, limit, the optional body
    ([None]: none sent), the operator's role, the row. *)
Definition rotation_phase (w_t w_m w_r : admin_world) (authorization : option jsstr) (blocked : bool)
    (body : option (option (option jsstr))) (id : jsstr) (now : Z)
    (next : AdminAuth -> option jsstr -> MasterKeyRotation -> atx admin_response) : atx admin_response :=
  match verifyAdminToken authorization now w_t with
  | None => deny_ UNAUTHORIZED
  | Some auth =>
      if blocked then deny_ RATE_LIMIT_EXCEEDED
      else match body with
      | Some None => deny_ VALIDATION_ERROR
      | _ =>
          let reason := match body with Some (Some r) => js_trim <$> r | _ => None end in
          if negb (reason_ok reason) then deny_ VALIDATION_ERROR
          else match requireMaintenanceOperator (members w_m) (aa_subjectUserId auth) (aa_tenantId auth) with
          | None => deny_ VALIDATION_ERROR
          | Some _ =>
              match find_rotation (aa_tenantId auth) id w_r with
              | None => deny_ NOT_FOUND
              | Some row => next auth reason row
              end
          end
      end
  end.

(** POST .../[rotationId]/approve *)
Definition post_rotate_approve (w_t w_m w_r : admin_world) (authorization : option jsstr) (blocked : bool)
    (body : option (option (option jsstr))) (id : jsstr) (now now' : Z) : atx admin_response :=
  rotation_phase w_t w_m w_r authorization blocked body id now (fun auth reason row =>
    let actor := aa_subjectUserId auth in
    match computeRotationApproveEligibility actor (aa_tenantId auth) row now' with
    | R_INITIATOR => deny FORBIDDEN_SELF_APPROVAL
    | R_CROSS_TENANT => deny FORBIDDEN_CROSS_TENANT
    | R_ALREADY_TERMINAL | R_NOT_APPROVED => deny ROTATION_NOT_EXECUTABLE
    | R_ELIGIBLE => fun w =>
        let newExpiresAt := Z.min (mr_expiresAt row) (now' + EXECUTE_TTL_MS) in
        match cas (rotation_approve_where (aa_tenantId auth) actor now')
                (rotation_set (Some (actor, now', newExpiresAt)) None None) id (aw_rotations w) with
        | None => (w, Ok (AError ROTATION_NOT_EXECUTABLE))
        | Some t => (set_rotations t (aw_audit w ++ [ROTATION_APPROVE actor (aa_tenantId auth) id (mr_targetVersion row)
                                                      (mr_initiatedById row) newExpiresAt reason]) w, Ok AOk)
        end
    end).

Definition rotation_execute_where (tenantId : jsstr) (now : Z) (r : MasterKeyRotation) : bool :=
  (mr_tenantId r =s tenantId) && negb (is_null (mr_approvedAt r)) && is_null (mr_executedAt r)
  && is_null (mr_revokedAt r) && (now <? mr_expiresAt r).

(** The share links under an older version of the key, in every tenant. *)
Definition outdated (version now : Z) (s : share) : bool :=
  (sh_masterKeyVersion s <? version) && is_null (sh_revokedAt s) && (now <? sh_expiresAt s).

Definition revoke_share (now : Z) (s : share) : share :=
  {| sh_masterKeyVersion := sh_masterKeyVersion s; sh_expiresAt := sh_expiresAt s; sh_revokedAt := Some now |}.

Definition record_revoked (n : nat) (r : MasterKeyRotation) : MasterKeyRotation :=
  {| mr_tenantId := mr_tenantId r; mr_initiatedById := mr_initiatedById r; mr_initiatedAt := mr_initiatedAt r;
     mr_targetVersion := mr_targetVersion r; mr_revokeShares := mr_revokeShares r;
     mr_approvedById := mr_approvedById r; mr_approvedAt := mr_approvedAt r; mr_executedAt := mr_executedAt r;
     mr_executedById := mr_executedById r; mr_expiresAt := mr_expiresAt r; mr_revokedAt := mr_revokedAt r;
     mr_revokedById := mr_revokedById r; mr_reason := mr_reason r; mr_revokedShares := Some n |}.

(** After the row is marked as executed: revoke the shares and note their number;
    [fails] and [noteFails] say whether the database refuses either statement. *)
Definition revoke_outdated (row : MasterKeyRotation) (id : jsstr) (fails noteFails : bool) (now : Z)
    : atx admin_response := fun w =>
  let revokes := mr_revokeShares row && negb fails in
  let '(shares, n) := updateMany (fun s => revokes && outdated (mr_targetVersion row) now s) (revoke_share now) (aw_shares w) in
  let w1 := set_vault (aw_vault w) shares w in
  let w2 := if noteFails then w1
            else match cas (fun r => mr_tenantId r =s mr_tenantId row) (record_revoked n) id (aw_rotations w1) with
                 | Some t => set_rotations t (aw_audit w1) w1 | None => w1 end in
  (w2, Ok (if mr_revokeShares row && fails then AError (Refused INTERNAL_ERROR) else AOk)).

(** POST .../[rotationId]/execute *)
Definition post_rotate_execute (w_t w_m w_r : admin_world) (authorization : option jsstr) (blocked : bool)
    (cfg : key_config) (id : jsstr) (fails noteFails : bool) (now now' now'' : Z) : atx admin_response :=
  rotation_phase w_t w_m w_r authorization blocked None id now (fun auth _ row =>
    let actor := aa_subjectUserId auth in
    match computeRotationExecuteEligibility (aa_tenantId auth) row now' with
    | R_CROSS_TENANT => deny FORBIDDEN_CROSS_TENANT
    | R_NOT_APPROVED | R_ALREADY_TERMINAL | R_INITIATOR => deny ROTATION_NOT_EXECUTABLE
    | R_ELIGIBLE =>
        if negb (mr_targetVersion row =? kc_current cfg) || negb (kc_configured cfg (mr_targetVersion row))
        then deny ROTATION_TARGET_VERSION_MISMATCH
        else fun w =>
          match cas (rotation_execute_where (aa_tenantId auth) now') (rotation_set None (Some (actor, now')) None)
                  id (aw_rotations w) with
          | None => (w, Ok (AError ROTATION_NOT_EXECUTABLE))
          | Some t => revoke_outdated row id fails noteFails now''
                        (set_rotations t (aw_audit w ++ [ROTATION_EXECUTE actor (aa_tenantId auth) id (mr_targetVersion row)]) w)
          end
    end).

Definition rotation_revoke_where (tenantId : jsstr) (r : MasterKeyRotation) : bool :=
  (mr_tenantId r =s tenantId) && is_null (mr_executedAt r) && is_null (mr_revokedAt r).

(** POST .../[rotationId]/revoke *)
Definition post_rotate_revoke (w_t w_m w_r : admin_world) (authorization : option jsstr) (blocked : bool)
    (body : option (option (option jsstr))) (id : jsstr) (now now' : Z) : atx admin_response :=
  rotation_phase w_t w_m w_r authorization blocked body id now (fun auth reason row =>
    let actor := aa_subjectUserId auth in
    match computeRotationRevokeEligibility (aa_tenantId auth) row with
    | R_CROSS_TENANT => deny FORBIDDEN_CROSS_TENANT
    | R_ALREADY_TERMINAL | R_NOT_APPROVED | R_INITIATOR => deny ROTATION_NOT_EXECUTABLE
    | R_ELIGIBLE => fun w =>
        match cas (rotation_revoke_where (aa_tenantId auth)) (rotation_set None None (Some (actor, now')))
                id (aw_rotations w) with
        | None => (w, Ok (AError ROTATION_NOT_EXECUTABLE))
        | Some t => (set_rotations t (aw_audit w ++ [ROTATION_REVOKE actor (aa_tenantId auth) id (mr_targetVersion row)
                                                      (bool_decide (mr_initiatedById row = Some actor)) reason]) w, Ok AOk)
        end
    end).
End Routes.
