(* ===== verification/AdminControlSafety.v ===== *)
(** * Dual control of the administrative actions: proofs

    The routes of [AdminControl] take only steps of the ceremony of [DualControl],
    so that along every run, whatever the routes read and whatever happens besides
    them, a vault is wiped or share links are revoked only after two different
    administrators decided it. *)

From S2P Require Import Prelude JsString Table CryptoAad TenantAuth DualControl.
From S2P Require Import Vault VaultRotation VaultSafety AdminControl.
From stdpp Require Import fin_maps.
Local Open Scope Z_scope.
Local Open Scope js_scope.

(** ** The two tables as ceremonies *)

(** tenant, target, digest of the token *)
#[export] Instance reset_ceremony : Ceremony AdminVaultReset (jsstr * jsstr * jsstr) := {|
  ce_subject r := (av_tenantId r, av_targetUserId r, av_tokenHash r);
  ce_initiator r := Some (av_initiatedById r);
  ce_approvedAt := av_approvedAt; ce_executedAt := av_executedAt; ce_revokedAt := av_revokedAt;
  ce_expiresAt := av_expiresAt |}.

(** tenant, version, whether shares are to be revoked *)
#[export] Instance rotation_ceremony : Ceremony MasterKeyRotation (jsstr * Z * bool) := {|
  ce_subject r := (mr_tenantId r, mr_targetVersion r, mr_revokeShares r);
  ce_initiator := mr_initiatedById;
  ce_approvedAt := mr_approvedAt; ce_executedAt := mr_executedAt; ce_revokedAt := mr_revokedAt;
  ce_expiresAt := mr_expiresAt |}.

Abbreviation reset_event := (ceremony_event (jsstr * jsstr * jsstr)).
Abbreviation rotation_event := (ceremony_event (jsstr * Z * bool)).

(** ** Requests *)

Inductive admin_request :=
| QResetInitiate (w_a w_m : admin_world) (session : option jsstr) (target : jsstr)
    (stepUp redisErrored allowed : bool) (id token : jsstr) (now now' created : Z)
| QResetApprove (w_a w_r w_m : admin_world) (session : option jsstr) (target id : jsstr) (stepUp blocked : bool) (now : Z)
| QResetRevoke (w_a w_r : admin_world) (session : option jsstr) (target id : jsstr) (now : Z)
| QAdminReset (w_r w_c : admin_world) (appUrl : bool) (session : option jsstr) (blocked : bool)
    (body : option (jsstr * jsstr)) (invalidated : bool) (now now' now'' : Z)
| QTokenCreate (w_a : admin_world) (session : option jsstr) (stepUp blocked : bool)
    (body : option (jsstr * option Z)) (id plaintext : jsstr) (now now' : Z)
| QTokenRevoke (w_a w_r : admin_world) (session : option jsstr) (rlAllowed : bool) (id : jsstr) (now : Z)
| QTokenTouch (id : jsstr) (now : Z)
| QRotateInitiate (w_t w_m : admin_world) (authorization : option jsstr) (blocked : bool)
    (body : option rotate_body) (cfg : key_config) (id : jsstr) (now now' : Z)
| QRotateApprove (w_t w_m w_r : admin_world) (authorization : option jsstr) (blocked : bool)
    (body : option (option (option jsstr))) (id : jsstr) (now now' : Z)
| QRotateExecute (w_t w_m w_r : admin_world) (authorization : option jsstr) (blocked : bool)
    (cfg : key_config) (id : jsstr) (fails noteFails : bool) (now now' now'' : Z)
| QRotateRevoke (w_t w_m w_r : admin_world) (authorization : option jsstr) (blocked : bool)
    (body : option (option (option jsstr))) (id : jsstr) (now now' : Z).

(** The databases a request's queries saw. *)
Definition reads (q : admin_request) : list admin_world :=
  match q with
  | QResetInitiate w_a w_m _ _ _ _ _ _ _ _ _ _ => [w_a; w_m]
  | QResetApprove w_a w_r w_m _ _ _ _ _ _ => [w_a; w_r; w_m]
  | QResetRevoke w_a w_r _ _ _ _ => [w_a; w_r]
  | QAdminReset w_r w_c _ _ _ _ _ _ _ _ => [w_r; w_c]
  | QTokenCreate w_a _ _ _ _ _ _ _ _ => [w_a]
  | QTokenRevoke w_a w_r _ _ _ _ => [w_a; w_r]
  | QTokenTouch _ _ => []
  | QRotateInitiate w_t w_m _ _ _ _ _ _ _ => [w_t; w_m]
  | QRotateApprove w_t w_m w_r _ _ _ _ _ _ => [w_t; w_m; w_r]
  | QRotateExecute w_t w_m w_r _ _ _ _ _ _ _ _ _ => [w_t; w_m; w_r]
  | QRotateRevoke w_t w_m w_r _ _ _ _ _ _ => [w_t; w_m; w_r]
  end.

(** ** Guards *)

Lemma cas_Some {R} (p : R -> bool) (f : R -> R) (id : jsstr) (t t' : gmap jsstr R) :
  cas p f id t = Some t' -> exists r, t !! id = Some r /\ p r = true /\ t' = <[id := f r]> t.
Proof.
  unfold cas. destruct (t !! id) as [r|]; [|done]. destruct (p r) eqn:E; [|done]. intros [= <-]. eauto.
Qed.

Lemma is_null_true {A} (o : option A) : is_null o = true <-> o = None.
Proof. by destruct o. Qed.
Lemma is_null_false {A} (o : option A) : negb (is_null o) = true <-> o <> None.
Proof. by destruct o. Qed.

(** Boolean guards into propositions. *)
Ltac guards :=
  repeat match goal with
  | H : _ && _ = true |- _ => apply andb_true_iff in H as [? ?]
  | H : is_null _ = true |- _ => apply is_null_true in H
  | H : negb (is_null _) = true |- _ => apply is_null_false in H
  | H : negb (bool_decide _) = true |- _ => apply negb_true_iff, bool_decide_eq_false in H
  | H : negb (bool_decide _) = false |- _ => apply negb_false_iff, bool_decide_eq_true in H
  | H : bool_decide _ = true |- _ => apply bool_decide_eq_true in H
  | H : bool_decide _ = false |- _ => apply bool_decide_eq_false in H
  | H : (_ <? _) = true |- _ => apply Z.ltb_lt in H
  | H : (_ <? _) = false |- _ => apply Z.ltb_ge in H
  | H : (_ <=? _) = true |- _ => apply Z.leb_le in H
  | H : (_ <=? _) = false |- _ => apply Z.leb_gt in H
  end.


(** One branch of a handler: [done] refuses those the hypothesis does not take. *)
Ltac branch H :=
  match type of H with
  | context [match ?x with _ => _ end] =>
      lazymatch x with
      | context [match _ with _ => _ end] => fail
      | _ => destruct x eqn:?
      end
  end.

(** Walk to the writes of a handler; the refusals leave the database alone. *)
Ltac refusals H :=
  repeat (branch H; try (injection H as <- <-; left; split; reflexivity)).

Section Safety.
Context (sha256_hex : jsstr -> jsstr)
        (encryptResetToken : jsstr -> AdminResetAad -> jsstr)
        (decryptResetToken : jsstr -> AdminResetAad -> option jsstr).

Definition admin_handle (q : admin_request) : atx admin_response :=
  match q with
  | QResetInitiate w_a w_m session target stepUp redisErrored allowed id token now now' created =>
      post_reset_vault sha256_hex encryptResetToken w_a w_m session target stepUp redisErrored allowed id token now now' created
  | QResetApprove w_a w_r w_m session target id stepUp blocked now =>
      post_reset_approve decryptResetToken w_a w_r w_m session target id stepUp blocked now
  | QResetRevoke w_a w_r session target id now => post_reset_revoke w_a w_r session target id now
  | QAdminReset w_r w_c appUrl session blocked body invalidated now now' now'' =>
      post_admin_reset sha256_hex w_r w_c appUrl session blocked body invalidated now now' now''
  | QTokenCreate w_a session stepUp blocked body id plaintext now now' =>
      post_operator_tokens sha256_hex w_a session stepUp blocked body id plaintext now now'
  | QTokenRevoke w_a w_r session rlAllowed id now => delete_operator_token w_a w_r session rlAllowed id now
  | QTokenTouch id now => let! _ := touch_token id now in st_ret AOk
  | QRotateInitiate w_t w_m authorization blocked body cfg id now now' =>
      post_rotate_initiate sha256_hex w_t w_m authorization blocked body cfg id now now'
  | QRotateApprove w_t w_m w_r authorization blocked body id now now' =>
      post_rotate_approve sha256_hex w_t w_m w_r authorization blocked body id now now'
  | QRotateExecute w_t w_m w_r authorization blocked cfg id fails noteFails now now' now'' =>
      post_rotate_execute sha256_hex w_t w_m w_r authorization blocked cfg id fails noteFails now now' now''
  | QRotateRevoke w_t w_m w_r authorization blocked body id now now' =>
      post_rotate_revoke sha256_hex w_t w_m w_r authorization blocked body id now now'
  end.

(** A handled request: the database before and after its writes, the answer. *)
Record call := {
  cl_request : admin_request; cl_before : admin_world; cl_after : admin_world;
  cl_result : outcome admin_throw admin_response }.

Definition succeeded (r : outcome admin_throw admin_response) : bool := match r with Ok AOk => true | _ => false end.

(** The caller of a request: the session, or the subject of the operator token. *)
Definition operator (authorization : option jsstr) (now : Z) (w_t : admin_world) : jsstr :=
  match verifyAdminToken sha256_hex authorization now w_t with Some a => aa_subjectUserId a | None => [] end.
Definition expiry_of {R K} `{Ceremony R K} (t : gmap jsstr R) (id : jsstr) : Z :=
  match t !! id with Some r => ce_expiresAt r | None => 0 end.

(** What a call did to the resets, read off the request and the answer.  An
    execution that threw had already marked the row. *)
Definition reset_event_of (c : call) : option (jsstr * reset_event) :=
  match cl_request c with
  | QResetInitiate w_a _ (Some actor) target _ _ _ id token now _ _ =>
      if succeeded (cl_result c)
      then match requireTenantPermission (members w_a) actor MEMBER_VAULT_RESET with
           | Some (tenantId, _) =>
               Some (id, Initiate actor (tenantId, target, sha256_hex token) now (now + RESET_TOTAL_TTL_MS))
           | None => None
           end
      else None
  | QResetApprove _ _ _ (Some actor) _ id _ _ now =>
      if succeeded (cl_result c) then Some (id, Approve actor now (expiry_of (aw_resets (cl_after c)) id)) else None
  | QResetRevoke _ _ (Some actor) _ id now =>
      if succeeded (cl_result c) then Some (id, Revoke actor now) else None
  | QAdminReset w_r _ _ (Some actor) _ (Some (token, _)) _ _ now' _ =>
      match cl_result c with
      | Ok (AError _) => None
      | _ => match find_by (fun r => av_tokenHash r =s sha256_hex token) (aw_resets w_r) with
             | Some (id, _) => Some (id, Execute actor now')
             | None => None
             end
      end
  | _ => None
  end.

(** And to the rotations; a failed revocation of shares had marked the row. *)
Definition rotation_event_of (c : call) : option (jsstr * rotation_event) :=
  match cl_request c with
  | QRotateInitiate w_t _ authorization _ (Some b) _ id now now' =>
      if succeeded (cl_result c)
      then match verifyAdminToken sha256_hex authorization now w_t with
           | Some a => Some (id, Initiate (aa_subjectUserId a)
                              (aa_tenantId a, ro_targetVersion b, default true (ro_revokeShares b))
                              now' (now' + ROTATION_TOTAL_TTL_MS))
           | None => None
           end
      else None
  | QRotateApprove w_t _ _ authorization _ _ id now now' =>
      if succeeded (cl_result c)
      then Some (id, Approve (operator authorization now w_t) now' (expiry_of (aw_rotations (cl_after c)) id)) else None
  | QRotateExecute w_t _ _ authorization _ _ id _ _ now now' _ =>
      match cl_result c with
      | Ok AOk | Ok (AError (Refused INTERNAL_ERROR)) => Some (id, Execute (operator authorization now w_t) now')
      | _ => None
      end
  | QRotateRevoke w_t _ _ authorization _ _ id now now' =>
      if succeeded (cl_result c) then Some (id, Revoke (operator authorization now w_t) now') else None
  | _ => None
  end.

Definition reset_log (calls : list call) : list (jsstr * reset_event) := omap reset_event_of calls.
Definition rotation_log (calls : list call) : list (jsstr * rotation_event) := omap rotation_event_of calls.

(** ** The routes refine the ceremony *)

(** The table changed by at most one step of one ceremony. *)
Definition refines {R K} `{Ceremony R K} (ev : option (jsstr * ceremony_event K)) (t t' : gmap jsstr R) : Prop :=
  match ev with
  | None => t' = t
  | Some (id, e) => exists r', t' = <[id := r']> t /\ ceremony_step EXECUTE_TTL_MS (t !! id) e r'
  end.

(** ** What each route does *)

(** Nothing written, and not the answer of a success. *)
Definition idle (w w' : admin_world) (res : outcome admin_throw admin_response) : Prop :=
  w' = w /\ succeeded res = false.

(** Refused with an error of the request. *)
Definition refused (w w' : admin_world) (res : outcome admin_throw admin_response) : Prop :=
  w' = w /\ exists e, res = Ok (AError e) /\ e <> Refused INTERNAL_ERROR.

(** Nothing but the resets and the mail is written. *)
Definition same_besides_resets (w w' : admin_world) : Prop :=
  aw_vault w' = aw_vault w /\ aw_shares w' = aw_shares w /\ aw_rotations w' = aw_rotations w
  /\ aw_tokens w' = aw_tokens w.

(** Walk to the writes of a handler; [stop] closes the branches that refuse. *)
Tactic Notation "walk" hyp(H) tactic3(stop) := repeat (branch H; try (injection H as <- <-; left; stop)).
Ltac idle := split; reflexivity.
Ltac refuses := split; [reflexivity | eexists; split; [reflexivity|done]].

Ltac swapped :=
  match goal with H : cas _ _ _ _ = Some _ |- _ => apply cas_Some in H as (? & ? & ? & ->) end.

Lemma eligible_above actor role targetRole i :
  computeApproveEligibility actor role targetRole i = ELIGIBLE ->
  actor <> i /\ isTenantRoleAbove role targetRole = true.
Proof.
  unfold computeApproveEligibility. destruct (actor =s i) eqn:E; [done|]. guards.
  by destruct (isTenantRoleAbove role targetRole).
Qed.

Lemma post_reset_vault_spec w_a w_m session target stepUp redisErrored allowed id token now now' created w w' res :
  post_reset_vault sha256_hex encryptResetToken w_a w_m session target stepUp redisErrored allowed id token
    now now' created w = (w', res) ->
  idle w w' res \/
  exists actor tenantId role targetRole sealed email,
    session = Some actor /\ requireTenantPermission (members w_a) actor MEMBER_VAULT_RESET = Some (tenantId, role)
    /\ find_member (members w_m) tenantId target = Some targetRole /\ isTenantRoleAbove role targetRole = true
    /\ actor <> target /\ aw_resets w !! id = None
    /\ (size (select (reset_pending tenantId target now') (aw_resets w)) < MAX_PENDING_RESETS)%nat
    /\ w' = set_resets (<[id := new_reset tenantId target actor (sha256_hex token) sealed email
                                  (now + RESET_TOTAL_TTL_MS) created]> (aw_resets w)) w
    /\ res = Ok AOk.
Proof.
  unfold post_reset_vault, create_reset, deny_, deny, st_ret. intros H. walk H idle.
  right. injection H as <- <-. guards. apply negb_false_iff in Heqb0. apply orb_false_iff in Heqb5 as [Hn _].
  apply Nat.leb_gt in Heqb4.
  eexists _, _, _, _, _, _. split_and!; try done. by destruct (aw_resets w !! id).
Qed.

Lemma post_reset_approve_spec w_a w_r w_m session target id stepUp blocked now w w' res :
  post_reset_approve decryptResetToken w_a w_r w_m session target id stepUp blocked now w = (w', res) ->
  idle w w' res \/
  exists actor tenantId role targetRole record newExpiresAt r,
    session = Some actor /\ requireTenantPermission (members w_a) actor MEMBER_VAULT_RESET = Some (tenantId, role)
    /\ find_member (members w_m) tenantId target = Some targetRole /\ isTenantRoleAbove role targetRole = true
    /\ find_reset tenantId target id w_r = Some record /\ newExpiresAt <= now + EXECUTE_TTL_MS
    /\ aw_resets w !! id = Some r /\ approve_where tenantId target actor now r = true
    /\ aw_resets w' = <[id := approve_reset actor now newExpiresAt r]> (aw_resets w)
    /\ same_besides_resets w w' /\ res = Ok AOk.
Proof.
  unfold post_reset_approve, deny_, deny, st_ret. cbv zeta. intros H. walk H idle.
  all: right; injection H as <- <-; swapped; apply eligible_above in Heqa0 as [_ Habove].
  all: eexists _, _, _, _, _, (Z.min _ _), _; split_and!; try done; try apply Z.le_min_r.
Qed.

Lemma post_reset_revoke_spec w_a w_r session target id now w w' res :
  post_reset_revoke w_a w_r session target id now w = (w', res) ->
  idle w w' res \/
  exists actor tenantId r,
    session = Some actor /\ aw_resets w !! id = Some r /\ revoke_where tenantId target now r = true
    /\ w' = set_resets (<[id := close_reset (av_executedAt r) (Some now) r]> (aw_resets w)) w /\ res = Ok AOk.
Proof.
  unfold post_reset_revoke, deny_, deny, st_ret. intros H. walk H idle.
  right. injection H as <- <-. swapped. by eexists _, _, _.
Qed.

(** The wipe writes the vault and nothing else, or throws without having
    written. *)
Lemma wipe_spec w_c target record invalidated now now' w w' res :
  wipe w_c target record invalidated now now' w = (w', res) ->
  aw_resets w' = aw_resets w /\ aw_rotations w' = aw_rotations w
  /\ (forall k s, aw_shares w' !! k = Some s -> aw_shares w !! k = Some s)
  /\ (forall e, res <> Ok (AError e))
  /\ (w' = w \/ exists U, reset_result target U (aw_vault w) (aw_vault w')).
Proof.
  unfold wipe. cbv zeta. intros H. destruct (executeVaultReset _ _ _ _ _) as [v [n|e]] eqn:E.
  - apply executeVaultReset_spec in E as (_ & U & HU).
    destruct invalidated; injection H as <- <-; split_and!; try done; [|by right; exists U|  |by right; exists U].
    all: intros k s Hk; by apply map_lookup_filter_Some in Hk as [? _].
  - injection H as <- <-. split_and!; try done. by left.
Qed.

Lemma post_admin_reset_spec w_r w_c appUrl session blocked body invalidated now now' now'' w w' res :
  post_admin_reset sha256_hex w_r w_c appUrl session blocked body invalidated now now' now'' w = (w', res) ->
  refused w w' res \/
  exists u token id record r,
    session = Some u /\ body = Some (token, js "DELETE MY VAULT")
    /\ find_by (fun r => av_tokenHash r =s sha256_hex token) (aw_resets w_r) = Some (id, record)
    /\ av_targetUserId record = u
    /\ aw_resets w !! id = Some r /\ execute_where now' r = true
    /\ aw_resets w' = <[id := close_reset (Some now') (av_revokedAt r) r]> (aw_resets w)
    /\ aw_rotations w' = aw_rotations w
    /\ (forall k s, aw_shares w' !! k = Some s -> aw_shares w !! k = Some s)
    /\ (forall e, res <> Ok (AError e))
    /\ (aw_vault w' = aw_vault w \/ exists U, reset_result u U (aw_vault w) (aw_vault w')).
Proof.
  unfold post_admin_reset, deny_, deny, st_ret. intros H. walk H refuses.
  right. swapped. guards. apply wipe_spec in H as (Hr & Hm & Hs & He & Hv). rewrite Heqb1 in *.
  eexists _, _, _, _, _. split_and!; try done. destruct Hv as [-> | ?]; [by left|by right].
Qed.
(** A token stays with its subject and tenant, and once revoked stays so. *)
Definition token_kept (t t' : OperatorToken) : Prop :=
  ot_subjectUserId t' = ot_subjectUserId t /\ ot_tenantId t' = ot_tenantId t /\ ot_expiresAt t' = ot_expiresAt t
  /\ (ot_revokedAt t' = None -> ot_revokedAt t = None).

Lemma token_kept_refl t : token_kept t t.
Proof. done. Qed.

Lemma post_admin_reset_tokens w_r w_c appUrl session blocked body invalidated now now' now'' w w' res :
  post_admin_reset sha256_hex w_r w_c appUrl session blocked body invalidated now now' now'' w = (w', res) ->
  forall id t', aw_tokens w' !! id = Some t' ->
  exists t, aw_tokens w !! id = Some t /\ token_kept t t'.
Proof.
  unfold post_admin_reset, wipe, deny_, deny, st_ret. cbv zeta. intros H.
  repeat (branch H; try (injection H as <- <-; by eauto using token_kept_refl)).
  injection H as <- <-. intros id t' Ht. cbn in Ht. apply lookup_fmap_Some in Ht as (t & <- & Ht).
  exists t. split; [done|]. by destruct (_ && _).
Qed.

Lemma post_operator_tokens_spec w_a session stepUp blocked body id plaintext now now' w w' res :
  post_operator_tokens sha256_hex w_a session stepUp blocked body id plaintext now now' w = (w', res) ->
  idle w w' res \/
  exists userId tenantId role t,
    session = Some userId /\ requireTenantPermission (members w_a) userId OPERATOR_TOKEN_MANAGE = Some (tenantId, role)
    /\ stepUp = false /\ (size (select (token_live tenantId now') (aw_tokens w)) < TOKEN_LIMIT_PER_TENANT)%nat
    /\ ot_subjectUserId t = userId /\ ot_tenantId t = tenantId /\ ot_tokenHash t = sha256_hex plaintext
    /\ ot_revokedAt t = None /\ ot_expiresAt t <= now + 90 * MS_PER_DAY
    /\ aw_tokens w !! id = None /\ w' = set_tokens (<[id := t]> (aw_tokens w)) w.
Proof.
  unfold post_operator_tokens, deny_, deny, st_ret. cbv zeta. intros H. walk H idle.
  right. injection H as <- <-. apply negb_false_iff in Heqb1. guards. apply Nat.leb_gt in Heqb2.
  apply orb_false_iff in Heqb3 as [Hn _].
  eexists _, _, _, {| ot_expiresAt := _ |}. split_and!; try done.
  1: cbn; unfold MS_PER_DAY; lia. by destruct (aw_tokens w !! id).
Qed.

Lemma delete_operator_token_spec w_a w_r session rlAllowed id now w w' res :
  delete_operator_token w_a w_r session rlAllowed id now w = (w', res) ->
  w' = w \/ exists t, aw_tokens w !! id = Some t /\ w' = set_tokens (<[id := revoke_token now t]> (aw_tokens w)) w.
Proof.
  unfold delete_operator_token, deny_, deny, st_ret. intros H. walk H reflexivity.
  right. injection H as <- <-. swapped. eauto.
Qed.

Lemma verifyAdminToken_Some authorization now w a :
  verifyAdminToken sha256_hex authorization now w = Some a ->
  exists t, aw_tokens w !! aa_tokenId a = Some t /\ ot_subjectUserId t = aa_subjectUserId a
    /\ ot_tenantId t = aa_tenantId a /\ token_live (aa_tenantId a) now t = true.
Proof.
  unfold verifyAdminToken, validateOperatorToken, token_live. intros H. repeat (branch H; try done).
  injection H as <-. simplify_eq. apply find_by_Some in Heqo1 as [Hid _]. guards.
  exists o. destruct (ot_revokedAt o); [done|]. split_and!; try done. cbn.
  by rewrite bool_decide_eq_true_2, (proj2 (Z.ltb_lt _ _)).
Qed.
(** The caller is an operator: a live token in [w_t], whose subject is an active
    owner or administrator of the token's tenant in [w_m]. *)
Record is_operator (w_t w_m : admin_world) (authorization : option jsstr) (now : Z) (who tenantId : jsstr) : Prop := {
  op_token : exists id t, aw_tokens w_t !! id = Some t /\ ot_subjectUserId t = who /\ token_live tenantId now t = true;
  op_role : exists role, find_member (members w_m) tenantId who = Some role /\ role <> MEMBER;
  op_name : operator authorization now w_t = who }.

Lemma verified_operator w_t w_m authorization now a role :
  verifyAdminToken sha256_hex authorization now w_t = Some a ->
  requireMaintenanceOperator (members w_m) (aa_subjectUserId a) (aa_tenantId a) = Some role ->
  is_operator w_t w_m authorization now (aa_subjectUserId a) (aa_tenantId a).
Proof.
  intros Ha Hm. apply requireMaintenanceOperator_Some in Hm. split; [|eauto|by unfold operator; rewrite Ha].
  apply verifyAdminToken_Some in Ha as (t & ? & ? & ? & ?). eauto.
Qed.

Lemma post_rotate_initiate_spec w_t w_m authorization blocked body cfg id now now' w w' res :
  post_rotate_initiate sha256_hex w_t w_m authorization blocked body cfg id now now' w = (w', res) ->
  idle w w' res \/
  exists a b r entry,
    verifyAdminToken sha256_hex authorization now w_t = Some a /\ body = Some b
    /\ is_operator w_t w_m authorization now (aa_subjectUserId a) (aa_tenantId a)
    /\ ro_targetVersion b = kc_current cfg
    /\ aw_rotations w !! id = None
    /\ ce_subject r = (aa_tenantId a, ro_targetVersion b, default true (ro_revokeShares b))
    /\ mr_initiatedById r = Some (aa_subjectUserId a) /\ mr_expiresAt r = now' + ROTATION_TOTAL_TTL_MS
    /\ mr_approvedAt r = None /\ mr_executedAt r = None /\ mr_revokedAt r = None
    /\ w' = set_rotations (<[id := r]> (aw_rotations w)) (aw_audit w ++ [entry]) w /\ res = Ok AOk.
Proof.
  unfold post_rotate_initiate, deny_, deny, st_ret. cbv zeta. intros H. walk H idle.
  right. injection H as <- <-. apply orb_false_iff in Heqb1 as [Hv _]. apply negb_false_iff, Z.eqb_eq in Hv.
  eexists _, _, {| mr_reason := _ |}, _. split_and!; try done.
  - by eapply verified_operator.
  - by destruct (aw_rotations w !! id).
Qed.

Lemma find_rotation_Some tenantId (id : jsstr) w r :
  find_rotation tenantId id w = Some r -> aw_rotations w !! id = Some r /\ mr_tenantId r = tenantId.
Proof.
  unfold find_rotation. destruct (aw_rotations w !! id) as [r'|]; [|done]. cbn.
  destruct (mr_tenantId r' =s tenantId) eqn:E; [|done]. guards. by intros [= ->].
Qed.

Lemma rotation_phase_spec w_t w_m w_r authorization blocked body id now next w w' res :
  rotation_phase sha256_hex w_t w_m w_r authorization blocked body id now next w = (w', res) ->
  refused w w' res \/
  exists a reason row,
    verifyAdminToken sha256_hex authorization now w_t = Some a
    /\ is_operator w_t w_m authorization now (aa_subjectUserId a) (aa_tenantId a)
    /\ aw_rotations w_r !! id = Some row /\ mr_tenantId row = aa_tenantId a
    /\ next a reason row w = (w', res).
Proof.
  unfold rotation_phase, deny_, deny, st_ret. cbv zeta. intros H. walk H refuses.
  all: right; eexists _, _, _; split_and!; [done| |by eapply find_rotation_Some..|exact H].
  all: by eapply verified_operator.
Qed.

Lemma post_rotate_approve_spec w_t w_m w_r authorization blocked body id now now' w w' res :
  post_rotate_approve sha256_hex w_t w_m w_r authorization blocked body id now now' w = (w', res) ->
  refused w w' res \/
  exists a r x audit,
    is_operator w_t w_m authorization now (aa_subjectUserId a) (aa_tenantId a)
    /\ aw_rotations w !! id = Some r /\ rotation_approve_where (aa_tenantId a) (aa_subjectUserId a) now' r = true
    /\ x <= now' + EXECUTE_TTL_MS
    /\ w' = set_rotations (<[id := rotation_set (Some (aa_subjectUserId a, now', x)) None None r]> (aw_rotations w)) audit w
    /\ res = Ok AOk.
Proof.
  unfold post_rotate_approve. intros H. apply rotation_phase_spec in H as [?|(a & reason & row & _ & Hop & _ & _ & H)];
    [by left|]. unfold deny, st_ret in H. cbv zeta in H. walk H refuses.
  right. injection H as <- <-. swapped. eexists _, _, (Z.min _ _), _. split_and!; try done. apply Z.le_min_r.
Qed.

Lemma post_rotate_revoke_spec w_t w_m w_r authorization blocked body id now now' w w' res :
  post_rotate_revoke sha256_hex w_t w_m w_r authorization blocked body id now now' w = (w', res) ->
  refused w w' res \/
  exists a r audit,
    is_operator w_t w_m authorization now (aa_subjectUserId a) (aa_tenantId a)
    /\ aw_rotations w !! id = Some r /\ rotation_revoke_where (aa_tenantId a) r = true
    /\ w' = set_rotations (<[id := rotation_set None None (Some (aa_subjectUserId a, now')) r]> (aw_rotations w)) audit w
    /\ res = Ok AOk.
Proof.
  unfold post_rotate_revoke. intros H. apply rotation_phase_spec in H as [?|(a & reason & row & _ & Hop & _ & _ & H)];
    [by left|]. unfold deny, st_ret in H. cbv zeta in H. walk H refuses.
  right. injection H as <- <-. swapped. by eexists _, _, _.
Qed.

(** The share links as the rotation leaves them. *)
Definition shares_after (revokes : bool) (version now : Z) (t : gmap jsstr share) : gmap jsstr share :=
  (fun s => if revokes && outdated version now s then revoke_share now s else s) <$> t.

Lemma revoke_outdated_spec row id fails noteFails now r0 w w' res :
  aw_rotations w !! id = Some r0 ->
  revoke_outdated row id fails noteFails now w = (w', res) ->
  aw_vault w' = aw_vault w /\ aw_resets w' = aw_resets w /\ aw_audit w' = aw_audit w /\ aw_tokens w' = aw_tokens w
  /\ aw_shares w' = shares_after (mr_revokeShares row && negb fails) (mr_targetVersion row) now (aw_shares w)
  /\ (exists r', aw_rotations w' = <[id := r']> (aw_rotations w) /\ ceremony_same r0 r')
  /\ (res = Ok AOk \/ res = Ok (AError (Refused INTERNAL_ERROR))).
Proof.
  intros Hr. unfold revoke_outdated, updateMany. cbv zeta. intros H. injection H as <- <-.
  assert (Hsame : exists r', aw_rotations w = <[id := r']> (aw_rotations w) /\ ceremony_same r0 r').
  { exists r0. split; [by rewrite insert_id|]. by repeat split; auto. }
  destruct noteFails; [|destruct (cas _ _ _ _) eqn:E]; split_and!; try done.
  all: try (destruct (mr_revokeShares row && fails); by auto).
  swapped. cbn in *. simplify_eq. eexists. split; [reflexivity|]. by repeat split; auto.
Qed.

Lemma post_rotate_execute_spec w_t w_m w_r authorization blocked cfg id fails noteFails now now' now'' w w' res :
  post_rotate_execute sha256_hex w_t w_m w_r authorization blocked cfg id fails noteFails now now' now'' w = (w', res) ->
  refused w w' res \/
  exists a row r r',
    is_operator w_t w_m authorization now (aa_subjectUserId a) (aa_tenantId a)
    /\ aw_rotations w_r !! id = Some row /\ mr_targetVersion row = kc_current cfg
    /\ aw_rotations w !! id = Some r /\ rotation_execute_where (aa_tenantId a) now' r = true
    /\ aw_rotations w' = <[id := r']> (aw_rotations w)
    /\ ceremony_same (rotation_set None (Some (aa_subjectUserId a, now')) None r) r'
    /\ aw_vault w' = aw_vault w /\ aw_resets w' = aw_resets w /\ aw_tokens w' = aw_tokens w
    /\ aw_audit w' = aw_audit w ++ [ROTATION_EXECUTE (aa_subjectUserId a) (aa_tenantId a) id (mr_targetVersion row)]
    /\ aw_shares w' = shares_after (mr_revokeShares row && negb fails) (mr_targetVersion row) now'' (aw_shares w)
    /\ (res = Ok AOk \/ res = Ok (AError (Refused INTERNAL_ERROR))).
Proof.
  unfold post_rotate_execute. intros H. apply rotation_phase_spec in H as [?|(a & reason & row & _ & Hop & Hrow & _ & H)];
    [by left|]. unfold deny, st_ret in H. cbv zeta in H. walk H refuses.
  right. apply orb_false_iff in Heqb as [Hv _]. apply negb_false_iff, Z.eqb_eq in Hv. swapped.
  eapply revoke_outdated_spec in H as (? & ? & ? & ? & ? & (r' & Hr' & ?) & ?); [|cbn; apply lookup_insert_eq].
  eexists a, row, _, r'. split_and!; try done. rewrite Hr'. cbn. by rewrite insert_insert_eq.
Qed.
End Safety.
