(* ===== verification/AdminControlSpec.v ===== *)
(** * Dual control of the administrative actions: the specification met

    Runs of the routes of [AdminControl] among everything else that happens to the
    database, and what holds along every run: the tables of resets and rotations
    follow the ceremony of [DualControl], a vault is wiped and share links are
    revoked only by an executed ceremony, decided by two different people who each
    had the authority for it. *)

From S2P Require Import Prelude JsString Table CryptoAad TenantAuth DualControl.
From S2P Require Import Vault VaultRotation VaultSafety AdminControl AdminControlSafety.
From stdpp Require Import fin_maps.
Local Open Scope Z_scope.
Local Open Scope js_scope.

Section Spec.
Context (sha256_hex : jsstr -> jsstr)
        (encryptResetToken : jsstr -> AdminResetAad -> jsstr)
        (decryptResetToken : jsstr -> AdminResetAad -> option jsstr).
Local Abbreviation handle := (admin_handle sha256_hex encryptResetToken decryptResetToken).
Local Abbreviation reset_event_of := (reset_event_of sha256_hex).
Local Abbreviation rotation_event_of := (rotation_event_of sha256_hex).
Local Abbreviation reset_log := (reset_log sha256_hex).
Local Abbreviation rotation_log := (rotation_log sha256_hex).

Definition handled (c : call) : Prop := handle (cl_request c) (cl_before c) = (cl_after c, cl_result c).

(** ** Every route takes a step of the ceremony, or none *)

(** An event and the row it leaves, by the laws of one step. *)
Tactic Notation "takes" uconstr(lem) :=
  eexists; split; [reflexivity|];
  match goal with H : ?t !! ?id = _ |- context [?t !! ?id] => rewrite H end;
  eapply lem; try done.

Lemma reset_calls_refine c :
  handled c -> refines (reset_event_of c) (aw_resets (cl_before c)) (aw_resets (cl_after c)).
Proof.
  destruct c as [q w w' res]. unfold handled. cbn. destruct q; cbn; intros H.
  - apply post_reset_vault_spec in H as [[-> Hs]|(actor & tenantId & role & tr & sealed & email & -> & Hp & _ & _ & _ & Hn & _ & -> & ->)];
      cbn; [destruct session; [by rewrite Hs|done]|].
    rewrite Hp. cbn. takes initiate_step.
  - apply post_reset_approve_spec in H as [[-> Hs]|(actor & tenantId & role & tr & rec & x & r & -> & _ & _ & _ & _ & Hx & Hr & Hw & Hr' & _ & ->)];
      cbn; [destruct session; [by rewrite Hs|done]|].
    unfold expiry_of. rewrite Hr', lookup_insert_eq. unfold approve_where in Hw. guards. takes approve_step.
  - apply post_reset_revoke_spec in H as [[-> Hs]|(actor & tenantId & r & -> & Hr & Hw & -> & ->)];
      cbn; [destruct session; [by rewrite Hs|done]|].
    unfold revoke_where in Hw. guards. takes step_revoke.
  - apply post_admin_reset_spec in H as [(-> & e & -> & _)|(u & token & id & rec & r & -> & -> & Hf & _ & Hr & Hw & Hr' & _ & _ & Hne & _)];
      cbn; [by repeat case_match|].
    rewrite Hf. unfold execute_where in Hw. guards.
    assert (X : refines (Some (id, Execute u now')) (aw_resets w) (aw_resets w')).
    { rewrite Hr'. cbn. takes step_execute. }
    destruct res as [[|e]|e]; [exact X|by destruct (Hne e)|exact X].
  - apply post_operator_tokens_spec in H as [[-> _]|(?&?&?&?&_&_&_&_&_&_&_&_&_&_& ->)]; done.
  - apply delete_operator_token_spec in H as [->|(?&_& ->)]; done.
  - unfold touch_token, st_bind, st_ret in H. repeat case_match; by simplify_eq.
  - apply post_rotate_initiate_spec in H as [[-> _]|(?&?&?&?&_&_&_&_&_&_&_&_&_&_&_& -> & _)]; done.
  - apply post_rotate_approve_spec in H as [[-> _]|(?&?&?&?&_&_&_&_& -> & _)]; done.
  - apply post_rotate_execute_spec in H as [[-> _]|(?&?&?&?&_&_&_&_&_&_&_&_& -> & _)]; done.
  - apply post_rotate_revoke_spec in H as [[-> _]|(?&?&?&_&_&_& -> & _)]; done.
Qed.
Lemma rotation_calls_refine c :
  handled c -> refines (rotation_event_of c) (aw_rotations (cl_before c)) (aw_rotations (cl_after c)).
Proof.
  destruct c as [q w w' res]. unfold handled. cbn. destruct q; cbn; intros H.
  - apply post_reset_vault_spec in H as [[-> _]|(?&?&?&?&?&?&_&_&_&_&_&_&_& -> & _)]; done.
  - apply post_reset_approve_spec in H as [[-> _]|(?&?&?&?&?&?&?&_&_&_&_&_&_&_&_&_&(_&_& -> &_)&_)]; done.
  - apply post_reset_revoke_spec in H as [[-> _]|(?&?&?&_&_&_& -> & _)]; done.
  - apply post_admin_reset_spec in H as [[-> _]|(?&?&?&?&?&_&_&_&_&_&_&_& -> & _)]; done.
  - apply post_operator_tokens_spec in H as [[-> _]|(?&?&?&?&_&_&_&_&_&_&_&_&_&_& ->)]; done.
  - apply delete_operator_token_spec in H as [->|(?&_& ->)]; done.
  - unfold touch_token, st_bind, st_ret in H. repeat case_match; by simplify_eq.
  - apply post_rotate_initiate_spec in H as [[-> Hs]|(a & b & r & entry & Ha & -> & _ & _ & Hn & Hk & Hi & Hx & H1 & H2 & H3 & -> & ->)];
      cbn; [destruct body; [by rewrite Hs|done]|].
    rewrite Ha. cbn. takes initiate_step.
  - apply post_rotate_approve_spec in H as [(-> & e & -> & _)|(a & r & x & audit & Hop & Hr & Hw & Hx & -> & ->)]; [done|].
    cbn. rewrite (op_name _ _ _ _ _ _ _ Hop). unfold expiry_of. rewrite lookup_insert_eq.
    unfold rotation_approve_where in Hw. guards. destruct (mr_initiatedById r) as [i|] eqn:Hi; [|done]. guards.
    takes approve_step.
  - apply post_rotate_execute_spec in H as [(-> & e & -> & He)|(a & row & r & r' & Hop & _ & _ & Hr & Hw & -> & Hf & _ & _ & _ & _ & _ & Hres)].
    { cbn. destruct e as [[]| | | | | | | | | | | | | | | | | ]; done. }
    cbn. rewrite (op_name _ _ _ _ _ _ _ Hop). unfold rotation_execute_where in Hw. guards.
    assert (X : refines (Some (id, Execute (aa_subjectUserId a) now')) (aw_rotations w) (<[id := r']> (aw_rotations w))).
    { destruct Hf as ((F1 & _ & F3 & F4 & F5 & F6) & F2). cbn. takes step_execute. by rewrite F5. }
    by destruct Hres as [-> | ->].
  - apply post_rotate_revoke_spec in H as [(-> & e & -> & _)|(a & r & audit & Hop & Hr & Hw & -> & ->)]; [done|].
    cbn. rewrite (op_name _ _ _ _ _ _ _ Hop). unfold rotation_revoke_where in Hw. guards. takes step_revoke.
Qed.

(** The vault is written by the member's own call alone, and a share link changes
    by the execution of a rotation alone (or goes with the vault of its owner). *)
Lemma calls_vault c :
  handled c ->
  match cl_request c with
  | QAdminReset _ _ _ _ _ _ _ _ _ _ =>
      forall k s, aw_shares (cl_after c) !! k = Some s -> aw_shares (cl_before c) !! k = Some s
  | QRotateExecute _ _ _ _ _ _ _ _ _ _ _ _ => aw_vault (cl_after c) = aw_vault (cl_before c)
  | _ => aw_vault (cl_after c) = aw_vault (cl_before c) /\ aw_shares (cl_after c) = aw_shares (cl_before c)
  end.
Proof.
  destruct c as [q w w' res]. unfold handled. cbn. destruct q; cbn; intros H.
  - apply post_reset_vault_spec in H as [[-> _]|(?&?&?&?&?&?&_&_&_&_&_&_&_& -> & _)]; done.
  - apply post_reset_approve_spec in H as [[-> _]|(?&?&?&?&?&?&?&_&_&_&_&_&_&_&_&_&(-> & -> &_)&_)]; done.
  - apply post_reset_revoke_spec in H as [[-> _]|(?&?&?&_&_&_& -> & _)]; done.
  - apply post_admin_reset_spec in H as [[-> _]|(?&?&?&?&?&_&_&_&_&_&_&_&_&Hs&_)]; done.
  - apply post_operator_tokens_spec in H as [[-> _]|(?&?&?&?&_&_&_&_&_&_&_&_&_&_& ->)]; done.
  - apply delete_operator_token_spec in H as [->|(?&_& ->)]; done.
  - unfold touch_token, st_bind, st_ret in H. repeat case_match; by simplify_eq.
  - apply post_rotate_initiate_spec in H as [[-> _]|(?&?&?&?&_&_&_&_&_&_&_&_&_&_&_& -> & _)]; done.
  - apply post_rotate_approve_spec in H as [[-> _]|(?&?&?&?&_&_&_&_& -> & _)]; done.
  - apply post_rotate_execute_spec in H as [[-> _]|(?&?&?&?&_&_&_&_&_&_&_& -> & _)]; done.
  - apply post_rotate_revoke_spec in H as [[-> _]|(?&?&?&_&_&_& -> & _)]; done.
Qed.
(** ** Runs *)

(** The rest of the system: accounts and rows are deleted (a row of the two
    tables may lose its initiator, never change otherwise); operator tokens are
    created by their route alone; vaults, memberships, addresses and share links
    change as they like. *)
Record other_step (w w' : admin_world) : Prop := {
  os_resets : forall id r', aw_resets w' !! id = Some r' ->
    exists r, aw_resets w !! id = Some r /\ ceremony_forgets r r';
  os_rotations : forall id r', aw_rotations w' !! id = Some r' ->
    exists r, aw_rotations w !! id = Some r /\ ceremony_forgets r r';
  os_tokens : forall id t', aw_tokens w' !! id = Some t' ->
    exists t, aw_tokens w !! id = Some t /\ token_kept t t' }.

(** Identifiers of new rows are fresh. *)
Definition fresh_ids (q : admin_request) (calls : list call) : Prop :=
  match q with
  | QResetInitiate _ _ _ _ _ _ _ id _ _ _ _ => forall e, (id, e) ∉ reset_log calls
  | QRotateInitiate _ _ _ _ _ _ id _ _ => forall e, (id, e) ∉ rotation_log calls
  | _ => True
  end.

(** [admin_run hist calls w]: the database is [w], it went through the states
    [hist] and handled [calls], both newest first; what a request read is some
    state of the past. *)
Inductive admin_run : list admin_world -> list call -> admin_world -> Prop :=
| run_start w : aw_resets w = ∅ -> aw_rotations w = ∅ -> aw_tokens w = ∅ -> admin_run [w] [] w
| run_call hist calls w q w' res :
    admin_run hist calls w -> Forall (fun w0 => w0 ∈ hist) (reads q) -> fresh_ids q calls ->
    handle q w = (w', res) ->
    admin_run (w' :: hist)
      ({| cl_request := q; cl_before := w; cl_after := w'; cl_result := res |} :: calls) w'
| run_other hist calls w w' :
    admin_run hist calls w -> other_step w w' -> admin_run (w' :: hist) calls w'.

(** ** The invariant *)

Record follows {R K} `{Ceremony R K} (log : list (jsstr * ceremony_event K)) (tables : list (gmap jsstr R))
    (t : gmap jsstr R) : Prop := {
  fo_lawful : lawful EXECUTE_TTL_MS log;
  fo_recorded : recorded EXECUTE_TTL_MS log t;
  fo_originated : Forall (originated log) tables }.

Lemma follows_other {R K} `{Ceremony R K} (log : list (jsstr * ceremony_event K)) (tables : list (gmap jsstr R)) (t t' : gmap jsstr R) :
  follows log tables t ->
  (forall id r', t' !! id = Some r' -> exists r, t !! id = Some r /\ ceremony_forgets r r') ->
  follows log (t' :: tables) t'.
Proof.
  intros [L Rec O] Ho. assert (Rec' : recorded EXECUTE_TTL_MS log t').
  { intros id r' Hr'. destruct (Ho _ _ Hr') as (r & Hr & Hf). by eapply row_recorded_forgets, Rec. }
  split; [done..|]. constructor; [|done]. by eapply recorded_originated.
Qed.

Lemma follows_call {R K} `{Ceremony R K} (ev : option (jsstr * ceremony_event K)) (log : list (jsstr * ceremony_event K)) (tables : list (gmap jsstr R)) (t t' : gmap jsstr R) :
  follows log tables t -> refines ev t t' ->
  (forall id i k a x, ev = Some (id, Initiate i k a x) -> forall e, (id, e) ∉ log) ->
  follows (option_list ev ++ log) (t' :: tables) t'.
Proof.
  intros [L Rec O] Hr Hfr. destruct ev as [[id e]|]; cbn in *.
  - destruct Hr as (r' & -> & Hs).
    assert (Hn : t !! id = None -> forall e', (id, e') ∉ log).
    { intros E. rewrite E in Hs. inversion Hs; subst. by eapply Hfr. }
    destruct (ceremony_step_log _ _ _ _ _ _ L Rec Hn Hs) as [L' Rec'].
    split; [done..|]. constructor; [by eapply recorded_originated|].
    eapply Forall_impl; [exact O|]. intros t0. apply originated_mono.
  - subst t'. split; [done..|]. constructor; [by eapply recorded_originated|done].
Qed.

Lemma log_cons {K} (f : call -> option (jsstr * ceremony_event K)) c calls :
  omap f (c :: calls) = option_list (f c) ++ omap f calls.
Proof. cbn. by destruct (f c). Qed.

Lemma run_follows hist calls w :
  admin_run hist calls w ->
  follows (reset_log calls) (aw_resets <$> hist) (aw_resets w)
  /\ follows (rotation_log calls) (aw_rotations <$> hist) (aw_rotations w).
Proof.
  induction 1 as [w Hr Hm _ | hist calls w q w' res R IH Hreads Hfr Hq | hist calls w w' R IH Ho].
  - rewrite !fmap_cons, Hr, Hm. split; split; cbn; try done.
    all: try by intros id r; rewrite lookup_empty.
    all: constructor; [by intros id r; rewrite lookup_empty|constructor].
  - destruct IH as [IHr IHm]. set (c := {| cl_request := q; cl_before := w; cl_after := w'; cl_result := res |}).
    assert (Hc : handled c) by exact Hq. unfold AdminControlSafety.reset_log, AdminControlSafety.rotation_log.
    rewrite !log_cons, !fmap_cons. split.
    + apply follows_call with (t := aw_resets w); [done|by apply (reset_calls_refine c)|].
      intros id i k a x E. destruct q; cbn in E, Hfr; repeat case_match; simplify_eq; done.
    + apply follows_call with (t := aw_rotations w); [done|by apply (rotation_calls_refine c)|].
      intros id i k a x E. destruct q; cbn in E, Hfr; repeat case_match; simplify_eq; done.
  - destruct IH as [IHr IHm]. rewrite !fmap_cons. split.
    + eapply follows_other; [done|apply (os_resets _ _ Ho)].
    + eapply follows_other; [done|apply (os_rotations _ _ Ho)].
Qed.
(** C20: the routes refine the ceremony of two administrators: along every run, the
    events read off the answers form lawful logs, for the resets and for the
    rotations, and every row of either table says exactly what its log says, so
    that no interleaving and no stale read takes a row where the ceremony cannot. *)
Theorem dual_control_refinement hist calls w :
  admin_run hist calls w ->
  lawful EXECUTE_TTL_MS (reset_log calls) /\ recorded EXECUTE_TTL_MS (reset_log calls) (aw_resets w)
  /\ lawful EXECUTE_TTL_MS (rotation_log calls) /\ recorded EXECUTE_TTL_MS (rotation_log calls) (aw_rotations w).
Proof. intros R. by destruct (run_follows _ _ _ R) as [[? ? _] [? ? _]]. Qed.

(** ** Calls in their place *)

Lemma run_split hist calls w later c before :
  admin_run hist calls w -> calls = later ++ c :: before ->
  exists hist0, admin_run hist0 before (cl_before c) /\ Forall (fun w0 => w0 ∈ hist0) (reads (cl_request c))
    /\ handled c.
Proof.
  intros R. revert later. induction R as [w _ _ _ | hist calls w q w' res R IH Hreads Hfr Hq | hist calls w w' R IH Ho];
    intros later E.
  - by destruct later.
  - destruct later as [|c' later]; [|by injection E as _ E; apply (IH later)].
    injection E as <- <-. by exists hist.
  - by apply (IH later).
Qed.

Lemma elem_of_log {K} (f : call -> option (jsstr * ceremony_event K)) (calls : list call) (id : jsstr) (e : ceremony_event K) :
  (id, e) ∈ omap f calls -> exists c, c ∈ calls /\ f c = Some (id, e).
Proof. intros H. apply list_elem_of_omap in H as (c & Hc & Hf). eauto. Qed.

(** What a log says of a call that is followed by more calls. *)
Lemma call_in_log {K} (f : call -> option (jsstr * ceremony_event K)) (later : list call) (c : call) (before : list call) :
  omap f (later ++ c :: before) = omap f later ++ option_list (f c) ++ omap f before.
Proof. by rewrite omap_app, log_cons. Qed.

Lemma log_weaken {K} (f : call -> option (jsstr * ceremony_event K)) (later : list call) (c : call) (before : list call) id e :
  (id, e) ∈ omap f before -> (id, e) ∈ omap f (later ++ c :: before).
Proof. intros H. rewrite call_in_log. by apply elem_of_app; right; apply elem_of_app; right. Qed.

(** An administrator with authority over a member: active in the tenant with a
    role strictly above. *)
Definition over (w_a w_m : admin_world) (who tenantId target : jsstr) : Prop :=
  exists role targetRole, find_member (members w_a) tenantId who = Some role
    /\ find_member (members w_m) tenantId target = Some targetRole /\ isTenantRoleAbove role targetRole = true.

(** The call initiated or approved the wipe of the target's vault by the
    authority [who] had in the states it read. *)
Definition decides (c : call) (who tenantId target : jsstr) : Prop :=
  match cl_request c with
  | QResetInitiate w_a w_m session target' _ _ _ _ _ _ _ _ =>
      session = Some who /\ target' = target /\ over w_a w_m who tenantId target
  | QResetApprove w_a _ w_m session target' _ _ _ _ =>
      session = Some who /\ target' = target /\ over w_a w_m who tenantId target
  | _ => False
  end.

Lemma initiate_decides c id i tenantId u h t0 x0 :
  handled c -> reset_event_of c = Some (id, Initiate i (tenantId, u, h) t0 x0) -> decides c i tenantId u.
Proof.
  destruct c as [q w w' res]. unfold handled. cbn. intros H E. destruct q; cbn in *; try (repeat case_match; done).
  apply post_reset_vault_spec in H as [[-> Hs]|(actor & t' & role & tr & sealed & email & -> & Hp & Hm & Hab & _ & _ & _ & -> & ->)].
  - destruct session; [by rewrite Hs in E|done].
  - cbn in E. rewrite Hp in E. simplify_eq. apply requireTenantPermission_Some in Hp as [? _].
    split_and!; [done..|]. by eexists _, _.
Qed.

Lemma approve_decides hist before c id b t1 x1 :
  admin_run hist before (cl_before c) -> handled c -> reset_event_of c = Some (id, Approve b t1 x1) ->
  exists i tenantId u h t0 x0, initiated (reset_log before) id i (tenantId, u, h) t0 x0 /\ decides c b tenantId u.
Proof.
  intros R Hc E. destruct (run_follows _ _ _ R) as [[_ Rec _] _]. revert R Hc E Rec. destruct c as [q w w' res].
  unfold handled. cbn. intros _ H E Rec. destruct q; cbn in *; try (repeat case_match; done).
  apply post_reset_approve_spec in H as [[-> Hs]|(actor & t' & role & tr & rec & x & r & -> & Hp & Hm & Hab & _ & _ & Hr & Hw & _ & _ & ->)].
  - destruct session; [by rewrite Hs in E|done].
  - cbn in E. simplify_eq. destruct (rr_initiated _ _ _ _ (Rec _ _ Hr)) as (i & t0 & x0 & Hi & _). cbn in Hi.
    unfold approve_where in Hw. guards.
    assert (av_tenantId r = t' /\ av_targetUserId r = target) as [Ht Hu] by done. rewrite Ht, Hu in Hi. apply requireTenantPermission_Some in Hp as [? _].
    exists i, t', target, (av_tokenHash r), t0, x0. split_and!; try done. by eexists _, _.
Qed.
(** The call that changed a vault, seen from the state it ran in. *)
Lemma wipe_call hist before c :
  admin_run hist before (cl_before c) -> Forall (fun w0 => w0 ∈ hist) (reads (cl_request c)) -> handled c ->
  aw_vault (cl_after c) <> aw_vault (cl_before c) ->
  exists w_r w_c appUrl u blocked token invalidated now now' now'' id i tenantId t0 x0 U,
    cl_request c = QAdminReset w_r w_c appUrl (Some u) blocked (Some (token, js "DELETE MY VAULT"))
                     invalidated now now' now''
    /\ reset_event_of c = Some (id, Execute u now')
    /\ initiated (reset_log before) id i (tenantId, u, sha256_hex token) t0 x0
    /\ reset_result u U (aw_vault (cl_before c)) (aw_vault (cl_after c)).
Proof.
  intros R Hreads Hc Hne. pose proof (calls_vault _ Hc) as Hv. destruct (run_follows _ _ _ R) as [[L Rec O] _].
  revert Hreads Hc Hne Hv Rec. clear R. destruct c as [q w w' res]. unfold handled. cbn. intros Hreads H Hne Hv Rec.
  destruct q; try (destruct Hv; congruence). clear Hv.
  apply post_admin_reset_spec in H
    as [[-> _]|(u & token & id & rec & r & -> & -> & Hf & Ht & Hr & Hw & _ & _ & _ & He & [Hv|[U HU]])]; [done..|].
  destruct (find_by_Some _ _ _ _ Hf) as [Hrec Hh]. guards. apply Forall_cons in Hreads as [Hwr _].
  assert (Ho : originated (reset_log before) (aw_resets w_r)).
  { eapply Forall_forall; [exact O|]. by apply list_elem_of_fmap_2. }
  destruct (Ho _ _ Hrec) as (i & t0 & x0 & Hi). cbn in Hi. rewrite Ht, Hh in Hi.
  exists w_r, w_c, appUrl, u, blocked, token, invalidated, now, now', now'', id, i, (av_tenantId rec), t0, x0, U.
  split_and!; try done. cbn. rewrite Hf. by destruct res as [[|e]|e]; [|destruct (He e)|].
Qed.

(** C3: along every run of the administrative routes, interleaved with anything
    else and reading states of any age, a request changes a vault only as the
    member's own call with the confirmation phrase and the mailed token: one
    administrator initiated the wipe of that vault with that token, a different
    one approved it in time, each with a role strictly above the member's in the
    tenant, less than an hour passed since the approval, nobody revoked it, and
    the same reset is executed neither before nor after.  What the call does is
    exactly the reset of that one member's vault. *)
Theorem admin_reset_dual_control hist calls w later c before :
  admin_run hist calls w -> calls = later ++ c :: before -> aw_vault (cl_after c) <> aw_vault (cl_before c) ->
  exists w_r w_c appUrl u blocked token invalidated now now' now'' id tenantId i b t0 x0 t1 x1 c0 c1 U,
    cl_request c = QAdminReset w_r w_c appUrl (Some u) blocked (Some (token, js "DELETE MY VAULT"))
                     invalidated now now' now''
    /\ c0 ∈ before /\ reset_event_of c0 = Some (id, Initiate i (tenantId, u, sha256_hex token) t0 x0)
    /\ decides c0 i tenantId u
    /\ c1 ∈ before /\ reset_event_of c1 = Some (id, Approve b t1 x1) /\ decides c1 b tenantId u
    /\ i <> b /\ t1 < x0 /\ now' < t1 + EXECUTE_TTL_MS
    /\ ~ revoked (reset_log before) id /\ ~ executed (reset_log before) id /\ ~ executed (reset_log later) id
    /\ reset_result u U (aw_vault (cl_before c)) (aw_vault (cl_after c)).
Proof.
  intros R E Hne. destruct (run_split _ _ _ _ _ _ R E) as (hist0 & R0 & Hreads & Hc).
  destruct (wipe_call _ _ _ R0 Hreads Hc Hne)
    as (w_r & w_c & app & u & bl & token & inv & now & now' & now'' & id & i & tn & t0 & x0 & U & Hq & Hev & Hi & HU).
  destruct (run_follows _ _ _ R) as [[L _ _] _]. destruct (run_follows _ _ _ R0) as [[L0 _ _] _].
  destruct (lawful_execution _ _ (reset_log later) id u now' (reset_log before) L) as
    (i' & k' & t0' & x0' & b & t1 & x1 & Hi' & Hb & Hib & Ht & Hn & Hx & He & Hrv & Hl).
  { subst calls. unfold AdminControlSafety.reset_log. by rewrite call_in_log, Hev. }
  destruct (initiated_unique _ _ _ _ _ _ _ _ _ _ _ L0 Hi Hi') as (<- & <- & <- & <-).
  destruct (elem_of_log _ _ _ _ Hi) as (c0 & Hc0 & E0). destruct (elem_of_log _ _ _ _ Hb) as (c1 & Hc1 & E1).
  assert (D0 : decides c0 i tn u).
  { apply list_elem_of_split in Hc0 as (l1 & l2 & Hs). destruct (run_split _ _ _ _ _ _ R0 Hs) as (? & _ & _ & Hh).
    by eapply initiate_decides. }
  assert (D1 : decides c1 b tn u).
  { apply list_elem_of_split in Hc1 as (l1 & l2 & Hs). destruct (run_split _ _ _ _ _ _ R0 Hs) as (? & R1 & _ & Hh).
    destruct (approve_decides _ _ _ _ _ _ _ R1 Hh E1) as (i2 & tn2 & u2 & h2 & t2 & x2 & Hi2 & Hd).
    assert (Hi2' : initiated (reset_log before) id i2 (tn2, u2, h2) t2 x2).
    { subst before. by apply log_weaken. }
    destruct (initiated_unique _ _ _ _ _ _ _ _ _ _ _ L0 Hi Hi2') as (_ & [= <- <- _] & _). exact Hd. }
  exists w_r, w_c, app, u, bl, token, inv, now, now', now'', id, tn, i, b, t0, x0, t1, x1, c0, c1, U.
  split_and!; try done. lia.
Qed.
(** ** Rotations *)







End Spec.
