(* ===== verification/AdminControlExamples.v ===== *)
(** * Dual control on a concrete tenant

    An owner [o], an administrator [a] and a member [m]: a vault wiped and a master
    key rotated under dual control, which show that the hypotheses of
    [AdminControlSpec] can hold; and two cases where the routes do less than
    their comments say. *)

From S2P Require Import Prelude JsString Table CryptoAad TenantAuth DualControl.
From S2P Require Import Vault VaultRotation VaultExamples AdminControl AdminControlSafety AdminControlSpec.
From stdpp Require Import fin_maps.
Local Open Scope Z_scope.
Local Open Scope js_scope.

Definition x_sha (s : jsstr) : jsstr := s.
Definition x_encrypt (s : jsstr) (_ : AdminResetAad) : jsstr := s.
Definition x_decrypt (s : jsstr) (_ : AdminResetAad) : option jsstr := Some s.
Definition x_handle := admin_handle x_sha x_encrypt x_decrypt.

Definition x_vault : vault_world :=
  {| vw_members := {[ (js "t", js "o") := None; (js "t", js "a") := None; (js "t", js "m") := None ]};
     vw_users := {[ js "m" := d_user (js "t") ]};
     vw_entries := ∅; vw_history := ∅; vw_attachments := ∅; vw_vaultKeys := ∅; vw_credentials := ∅; vw_grants := ∅;
     vw_folders := ∅; vw_tags := ∅; vw_shares := ∅; vw_teamKeys := ∅; vw_teamMembers := ∅; vw_audit := [] |}.
Definition x_start : admin_world :=
  {| aw_vault := x_vault;
     aw_roles := {[ (js "t", js "o") := OWNER; (js "t", js "a") := ADMIN ]};
     aw_emails := {[ js "m" := js "m@example.org" ]};
     aw_resets := ∅; aw_rotations := ∅;
     aw_shares := {[ js "s" := {| sh_masterKeyVersion := 1; sh_expiresAt := 1000; sh_revokedAt := None |} ]};
     aw_tokens := ∅; aw_audit := []; aw_mail := [] |}.

(** One call after another. *)
Definition x_call (w : admin_world) (q : admin_request) : call :=
  {| cl_request := q; cl_before := w; cl_after := fst (x_handle q w); cl_result := snd (x_handle q w) |}.
Local Abbreviation run := (admin_run x_sha x_encrypt x_decrypt).

Lemma x_step hist calls w q :
  run hist calls w -> Forall (fun w0 => w0 ∈ hist) (reads q) -> fresh_ids x_sha q calls ->
  run (cl_after (x_call w q) :: hist) (x_call w q :: calls) (cl_after (x_call w q)).
Proof. intros R Hr Hf. eapply run_call; [done..|]. apply surjective_pairing. Qed.

(** ** A vault is wiped *)

Definition x_c1 : call :=
  x_call x_start (QResetInitiate x_start x_start (Some (js "o")) (js "m") false false true (js "r") (js "token") 0 0 0).
Definition x_c2 : call :=
  x_call (cl_after x_c1)
    (QResetApprove x_start (cl_after x_c1) x_start (Some (js "a")) (js "m") (js "r") false false 10).
Definition x_c3 : call :=
  x_call (cl_after x_c2)
    (QAdminReset (cl_after x_c2) x_start true (Some (js "m")) false (Some (js "token", js "DELETE MY VAULT")) true 20 20 20).

Example x_answers : cl_result <$> [x_c1; x_c2; x_c3] = [Ok AOk; Ok AOk; Ok AOk].
Proof. vm_compute. reflexivity. Qed.

(** The states a request read are in the past. *)
Ltac past :=
  repeat apply Forall_cons_2; try apply Forall_nil_2;
  repeat first [apply list_elem_of_here | apply list_elem_of_further].

#[local] Opaque x_handle.
Lemma x_run :
  run [cl_after x_c3; cl_after x_c2; cl_after x_c1; x_start] [x_c3; x_c2; x_c1] (cl_after x_c3).
Proof.
  apply x_step; [apply x_step; [apply x_step; [by apply run_start|past|]|past|done]|past|done].
  intros e. apply not_elem_of_nil.
Qed.
#[local] Transparent x_handle.

Lemma admin_reset_dual_control_witness :
  aw_vault (cl_after x_c3) <> aw_vault (cl_before x_c3)
  /\ exists id tenantId u i b c0 c1, i <> b /\ c0 ∈ [x_c2; x_c1] /\ decides c0 i tenantId u
      /\ c1 ∈ [x_c2; x_c1] /\ decides c1 b tenantId u /\ ~ executed (reset_log x_sha [x_c2; x_c1]) id.
Proof.
  assert (Hne : aw_vault (cl_after x_c3) <> aw_vault (cl_before x_c3)).
  { intros E. apply (f_equal (fun v => length (vw_audit v))) in E. vm_compute in E. discriminate. }
  split; [exact Hne|].
  destruct (admin_reset_dual_control _ _ _ _ _ _ [] x_c3 [x_c2; x_c1] x_run eq_refl Hne)
    as (w_r & w_c & ap & u & bl & token & inv & now & now' & now'' & id & tn & i & b & t0 & x0 & t1 & x1 & c0 & c1 & U
        & _ & Hc0 & _ & D0 & Hc1 & _ & D1 & Hib & _ & _ & _ & He & _).
  exact (ex_intro _ id (ex_intro _ tn (ex_intro _ u (ex_intro _ i (ex_intro _ b (ex_intro _ c0 (ex_intro _ c1
    (conj Hib (conj Hc0 (conj D0 (conj Hc1 (conj D1 He)))))))))))).
Defined.

Lemma dual_control_refinement_witness :
  cl_result x_c3 = Ok AOk /\ lawful EXECUTE_TTL_MS (reset_log x_sha [x_c3; x_c2; x_c1]).
Proof. split; [vm_compute; reflexivity|]. exact (proj1 (dual_control_refinement _ _ _ _ _ _ x_run)). Defined.

(** ** A master key is rotated *)

Definition x_bearer (c : jsstr) : jsstr := js "op_" ++ concat (repeat c 43).
Definition x_auth (c : jsstr) : option jsstr := Some (js "Bearer " ++ x_bearer c).
Definition x_cfg : key_config := {| kc_current := 2; kc_configured := fun v => v =? 2 |}.

Definition y_c1 : call :=
  x_call x_start (QTokenCreate x_start (Some (js "o")) false false (Some (js "ops", None)) (js "k1") (x_bearer (js "o")) 0 0).
Definition y_c2 : call :=
  x_call (cl_after y_c1)
    (QTokenCreate x_start (Some (js "a")) false false (Some (js "ops", Some 1)) (js "k2") (x_bearer (js "a")) 0 0).
Definition y_c3 : call :=
  x_call (cl_after y_c2)
    (QRotateInitiate (cl_after y_c2) x_start (x_auth (js "o")) false
       (Some {| ro_targetVersion := 2; ro_revokeShares := None; ro_reason := None |}) x_cfg (js "q") 5 5).
Definition y_c4 : call :=
  x_call (cl_after y_c3)
    (QRotateApprove (cl_after y_c3) x_start (cl_after y_c3) (x_auth (js "a")) false None (js "q") 10 10).
Definition y_c5 : call :=
  x_call (cl_after y_c4)
    (QRotateExecute (cl_after y_c4) x_start (cl_after y_c4) (x_auth (js "o")) false x_cfg (js "q") false false 20 20 20).

Example y_answers : cl_result <$> [y_c1; y_c2; y_c3; y_c4; y_c5] = [Ok AOk; Ok AOk; Ok AOk; Ok AOk; Ok AOk].
Proof. vm_compute. reflexivity. Qed.

#[local] Opaque x_handle.
#[local] Transparent x_handle.


(** ** What the routes do not do *)

(** A rotation whose initiator's account is gone passes the eligibility check of
    every other operator, and no operator's approval ever takes effect: the
    compare-and-swap leaves out the null initiator. *)
Theorem orphaned_rotation_stuck w_t w_m w_r authorization blocked body id now now' w r :
  aw_rotations w !! id = Some r -> mr_initiatedById r = None ->
  (forall actor, mr_approvedAt r = None -> mr_executedAt r = None -> mr_revokedAt r = None -> now' < mr_expiresAt r ->
     computeRotationApproveEligibility actor (mr_tenantId r) r now' = R_ELIGIBLE)
  /\ fst (post_rotate_approve x_sha w_t w_m w_r authorization blocked body id now now' w) = w.
Proof.
  intros Hr Hi. split.
  - intros actor H1 H2 H3 H4. unfold computeRotationApproveEligibility.
    rewrite bool_decide_eq_true_2, Hi, H1, H2, H3 by done. cbn. by rewrite (proj2 (Z.leb_gt _ _)).
  - destruct (post_rotate_approve _ _ _ _ _ _ _ _ _ _ _) as [w' res] eqn:E. cbn.
    apply post_rotate_approve_spec in E as [[-> _]|(a & r' & x & audit & _ & Hr' & Hw & _)]; [done|].
    assert (r' = r) as -> by congruence. unfold rotation_approve_where in Hw. rewrite Hi, andb_false_r in Hw. done.
Qed.

(** When the wipe throws, the vault is still there and the reset is used up: it
    was marked in an earlier transaction, and nothing takes the mark back. *)
Theorem failed_wipe_uses_the_reset w_r w_c appUrl session blocked body invalidated now now' now'' w w' e :
  post_admin_reset x_sha w_r w_c appUrl session blocked body invalidated now now' now'' w = (w', Throw (Wipe e)) ->
  aw_vault w' = aw_vault w /\ exists id r, aw_resets w' !! id = Some r /\ av_executedAt r = Some now'.
Proof.
  unfold post_admin_reset, wipe, deny_, deny, st_ret. cbv zeta. intros H. repeat (branch H; try done).
  injection H as <- <-.
  match goal with E : cas _ _ _ _ = Some _ |- _ => apply cas_Some in E as (r & _ & _ & ->) end.
  split; [done|]. eexists _, _. split; [apply lookup_insert_eq|done].
Qed.
