(* ===== verification/ScimPatch.v ===== *)
(** * SCIM patch operations

    src/src/lib/scim/patch-parser.ts: the operations of a PATCH request on a user
    and on a group, read from parsed JSON. *)

From S2P Require Import Prelude JsString JsNumber JsJson.
Local Open Scope Z_scope.
Local Open Scope js_scope.

Inductive PatchOp := op_add | op_replace | op_remove.
#[export] Instance PatchOp_eq_dec : EqDecision PatchOp.
Proof. solve_decision. Defined.

Record ScimPatchOperation := { po_op : PatchOp; po_path : option jsstr; po_value : option json }.

Record UserPatchResult := { up_active : option bool; up_name : option jsstr }.
Inductive GroupMemberAction := MemberAdd (userId : jsstr) | MemberRemove (userId : jsstr).

Inductive PatchParseError :=
| UnsupportedOp | ActiveNotBoolean | NameNotString | UnsupportedUserPath
| InvalidMembersFilter | UnsupportedGroupPath
| MembersNotArray | MembersTooMany | MemberNotObject | MemberLength.

(** ** Users *)

Definition set_active (b : bool) (r : UserPatchResult) : UserPatchResult := {| up_active := Some b; up_name := up_name r |}.
Definition set_name (s : jsstr) (r : UserPatchResult) : UserPatchResult := {| up_active := up_active r; up_name := Some s |}.

(** [typeof value === "object" && value !== null] *)
Definition is_object (v : option json) : bool :=
  match v with Some (JObj _) | Some (JArr _) => true | _ => false end.

(** The object form: [active] must be a boolean when it is there, a name that is
    not of the expected shape is passed over. *)
Definition user_object (obj : json) (r : UserPatchResult) : outcome PatchParseError UserPatchResult :=
  r1 ← (if json_has obj (js "active")
        then match json_get obj (js "active") with JBool b => Ok (set_active b r) | _ => Throw ActiveNotBoolean end
        else Ok r);
  let nameObj := json_get obj (js "name") in
  if json_has obj (js "name") && is_object (Some nameObj) && json_has nameObj (js "formatted")
  then match json_get nameObj (js "formatted") with JStr s => Ok (set_name s r1) | _ => Ok r1 end
  else Ok r1.

Definition user_operation (o : ScimPatchOperation) (r : UserPatchResult) : outcome PatchParseError UserPatchResult :=
  if negb (bool_decide (po_op o = op_add) || bool_decide (po_op o = op_replace)) then Throw UnsupportedOp
  else if bool_decide (po_path o = Some (js "active"))
  then match po_value o with Some (JBool b) => Ok (set_active b r) | _ => Throw ActiveNotBoolean end
  else if bool_decide (po_path o = Some (js "name.formatted"))
  then match po_value o with Some (JStr s) => Ok (set_name s r) | _ => Throw NameNotString end
  else match nonempty (po_path o), po_value o with
       | None, Some v => if is_object (Some v) then user_object v r else Throw UnsupportedUserPath
       | _, _ => Throw UnsupportedUserPath
       end.

Fixpoint user_operations (l : list ScimPatchOperation) (r : UserPatchResult) : outcome PatchParseError UserPatchResult :=
  match l with
  | [] => Ok r
  | o :: l' => r1 ← user_operation o r; user_operations l' r1
  end.

Definition parseUserPatchOps (operations : list ScimPatchOperation) : outcome PatchParseError UserPatchResult :=
  user_operations operations {| up_active := None; up_name := None |}.

(** ** Groups *)

(** [/^members\[value\s+eq\s+Q([^Q]+)Q\]$/] with Q the quotation mark; the captured
    identifier. *)
Definition spaces1 (s : jsstr) : option jsstr :=
  match s with c :: s' => if js_is_space c then Some (drop_spaces s') else None | [] => None end.
Definition strip (p s : jsstr) : option jsstr :=
  if js_starts_with p s then Some (drop (length p) s) else None.
Definition members_filter (path : jsstr) : option jsstr :=
  s1 ← strip (js "members[value") path;
  s2 ← spaces1 s1;
  s3 ← strip (js "eq") s2;
  s4 ← spaces1 s3;
  s5 ← strip [34] s4;
  let n := (length s5 - 2)%nat in
  let userId := take n s5 in
  if (drop n s5 =s [34; 93]) && negb (js_has 34 userId) && Nat.ltb 0 (length userId) then Some userId else None.

Definition parseMemberValue (item : json) : outcome PatchParseError jsstr :=
  match json_has item (js "value"), json_get item (js "value") with
  | true, JStr v =>
      if Nat.eqb (length v) 0 || Nat.ltb 255 (length v) then Throw MemberLength else Ok v
  | _, _ => Throw MemberNotObject
  end.

Fixpoint parse_members (l : list json) : outcome PatchParseError (list jsstr) :=
  match l with
  | [] => Ok []
  | item :: l' => v ← parseMemberValue item; vs ← parse_members l'; Ok (v :: vs)
  end.

Definition parseMemberValues (value : option json) : outcome PatchParseError (list jsstr) :=
  match value with
  | Some (JArr l) => if Nat.ltb 1000 (length l) then Throw MembersTooMany else parse_members l
  | _ => Throw MembersNotArray
  end.

Definition group_operation (o : ScimPatchOperation) : outcome PatchParseError (list GroupMemberAction) :=
  if bool_decide (po_op o = op_add) && bool_decide (po_path o = Some (js "members"))
  then vs ← parseMemberValues (po_value o); Ok (map MemberAdd vs)
  else if bool_decide (po_op o = op_remove) && bool_decide (po_path o = Some (js "members"))
  then vs ← parseMemberValues (po_value o); Ok (map MemberRemove vs)
  else match po_path o with
       | Some path =>
           if bool_decide (po_op o = op_remove) && js_starts_with (js "members[") path
           then match members_filter path with
                | Some userId => Ok [MemberRemove userId]
                | None => Throw InvalidMembersFilter
                end
           else Throw UnsupportedGroupPath
       | None => Throw UnsupportedGroupPath
       end.

Fixpoint parseGroupPatchOps (operations : list ScimPatchOperation) : outcome PatchParseError (list GroupMemberAction) :=
  match operations with
  | [] => Ok []
  | o :: l => a ← group_operation o; b ← parseGroupPatchOps l; Ok (a ++ b)
  end.

(** ** Proofs *)

Lemma strip_app p s : strip p (p ++ s) = Some s.
Proof. unfold strip. rewrite (proj2 (js_starts_with_spec p (p ++ s))) by eauto. by rewrite drop_app_length. Qed.

Lemma spaces1_app s : drop_spaces s = s -> spaces1 ([32] ++ s) = Some s.
Proof. intros H. cbn. by rewrite H. Qed.

(** The filter of a removal names the identifier it was written with. *)
Lemma members_filter_roundtrip userId :
  userId <> [] -> js_has 34 userId = false ->
  members_filter (js "members[value eq " ++ [34] ++ userId ++ [34; 93]) = Some userId.
Proof.
  intros Hne Hq. change (js "members[value eq ") with (js "members[value" ++ [32] ++ js "eq" ++ [32]).
  unfold members_filter. rewrite <- !app_assoc, strip_app. cbn [mbind option_bind]. rewrite spaces1_app by reflexivity.
  cbn [mbind option_bind]. rewrite strip_app. cbn [mbind option_bind]. rewrite spaces1_app by reflexivity.
  cbn [mbind option_bind]. rewrite strip_app. cbn [mbind option_bind].
  assert (length (userId ++ [34%Z; 93%Z]) - 2 = length userId)%nat as -> by (rewrite length_app; cbn; lia).
  rewrite drop_app_length, take_app_length, Hq, bool_decide_eq_true_2 by done. by destruct userId.
Qed.

(** A group operation names at most a thousand users, none by an empty identifier;
    only the filter may name one of more than 255 units. *)
Lemma parse_members_bounds l vs : parse_members l = Ok vs -> length vs = length l /\ Forall (fun v => (0 < length v <= 255)%nat) vs.
Proof.
  revert vs. induction l as [|x l IH]; intros vs; cbn; [by intros [= <-]|].
  unfold parseMemberValue. destruct (json_has x (js "value")); [|done]. destruct (json_get x (js "value")) as [| | |v| |]; try done.
  destruct (Nat.eqb (length v) 0 || Nat.ltb 255 (length v)) eqn:E; [done|]. cbn.
  destruct (parse_members l) as [ws|]; [|done]. cbn. intros [= <-]. destruct (IH ws eq_refl) as [Hl HF].
  apply orb_false_iff in E as [E1%Nat.eqb_neq E2%Nat.ltb_ge]. split; [cbn; lia|]. constructor; [lia|done].
Qed.

Lemma parseMemberValues_bounds v vs :
  parseMemberValues v = Ok vs -> (length vs <= 1000)%nat /\ Forall (fun u => (0 < length u <= 255)%nat) vs.
Proof.
  unfold parseMemberValues. destruct v as [[| | | |l|]|]; try done. destruct (Nat.ltb 1000 (length l)) eqn:E; [done|].
  intros [Hl HF]%parse_members_bounds. apply Nat.ltb_ge in E. split; [lia|done].
Qed.
