(* ===== verification/ScimProvisioning.v ===== *)
(** * SCIM provisioning

    src/src/app/api/scim/v2 (users and groups), src/src/lib/services/
    scim-user-service.ts and scim-group-service.ts, src/src/lib/auth/tokens/
    scim-token.ts and src/src/lib/scim/with-scim-auth.ts.

    Every handler is one database transaction in the context of the token's tenant:
    the client of src/src/lib/prisma.ts folds the transactions the services open into
    the one of [withTenantRls], and row-level security shows it the rows of that
    tenant alone.  [w_r] is what the queries before the first write see; a throw
    rolls the transaction back.  Rows are keyed by their unique indexes, a member
    also has the identifier by which updates name it.  The uuid columns take a
    string that denotes no uuid as an error of the database. *)

From S2P Require Import Prelude JsString JsJson Table TenantAuth ScimPatch.
From stdpp Require Import fin_maps.
Local Open Scope Z_scope.
Local Open Scope js_scope.

(** ** Tables *)

Inductive TeamRole := TEAM_OWNER | TEAM_ADMIN | TEAM_MEMBER | TEAM_VIEWER.
#[export] Instance TeamRole_eq_dec : EqDecision TeamRole.
Proof. solve_decision. Defined.

Record scim_user := { su_tenantId : jsstr; su_email : option jsstr; su_name : option jsstr }.

(** A membership of a tenant, under (tenant, user). *)
Record tenant_member := {
  sm_id : jsstr; sm_role : TenantRole; sm_deactivatedAt : option Z; sm_scimManaged : bool;
  sm_provisioningSource : jsstr; sm_lastScimSyncedAt : option Z }.

(** A membership of a team, under (team, user). *)
Record team_row := {
  tr_id : jsstr; tr_tenantId : jsstr; tr_role : TeamRole; tr_deactivatedAt : option Z; tr_scimManaged : bool }.

Record team := { te_tenantId : jsstr; te_slug : jsstr }.
(** A group of the identity provider, under (tenant, external identifier). *)
Record group_mapping := { gm_teamId : jsstr; gm_role : TeamRole }.
Record member_key := { mk_tenantId : jsstr; mk_userId : jsstr }.
Record scim_token := {
  sk_tokenHash : jsstr; sk_tenantId : jsstr; sk_createdById : option jsstr; sk_revokedAt : option Z;
  sk_expiresAt : option Z; sk_lastUsedAt : option Z }.

(** [sw_mappings]: the internal identifier under (tenant, external identifier), for
    the resource type User.  [sw_invalidated]: the (tenant, user) whose sessions and
    tokens [invalidateUserSessions] ended, newest first. *)
Record scim_world := {
  sw_users : gmap jsstr scim_user;
  sw_members : gmap (jsstr * jsstr) tenant_member;
  sw_mappings : gmap (jsstr * jsstr) jsstr;
  sw_groups : gmap (jsstr * jsstr) group_mapping;
  sw_teams : gmap jsstr team;
  sw_teamMembers : gmap (jsstr * jsstr) team_row;
  sw_teamMemberKeys : gmap jsstr member_key;
  sw_tokens : gmap jsstr scim_token;
  sw_invalidated : list (jsstr * jsstr) }.

Definition with_users (t : gmap jsstr scim_user) (w : scim_world) : scim_world :=
  {| sw_users := t; sw_members := sw_members w; sw_mappings := sw_mappings w; sw_groups := sw_groups w;
     sw_teams := sw_teams w; sw_teamMembers := sw_teamMembers w; sw_teamMemberKeys := sw_teamMemberKeys w;
     sw_tokens := sw_tokens w; sw_invalidated := sw_invalidated w |}.
Definition with_members (t : gmap (jsstr * jsstr) tenant_member) (w : scim_world) : scim_world :=
  {| sw_users := sw_users w; sw_members := t; sw_mappings := sw_mappings w; sw_groups := sw_groups w;
     sw_teams := sw_teams w; sw_teamMembers := sw_teamMembers w; sw_teamMemberKeys := sw_teamMemberKeys w;
     sw_tokens := sw_tokens w; sw_invalidated := sw_invalidated w |}.
Definition with_mappings (t : gmap (jsstr * jsstr) jsstr) (w : scim_world) : scim_world :=
  {| sw_users := sw_users w; sw_members := sw_members w; sw_mappings := t; sw_groups := sw_groups w;
     sw_teams := sw_teams w; sw_teamMembers := sw_teamMembers w; sw_teamMemberKeys := sw_teamMemberKeys w;
     sw_tokens := sw_tokens w; sw_invalidated := sw_invalidated w |}.
Definition with_groups (t : gmap (jsstr * jsstr) group_mapping) (w : scim_world) : scim_world :=
  {| sw_users := sw_users w; sw_members := sw_members w; sw_mappings := sw_mappings w; sw_groups := t;
     sw_teams := sw_teams w; sw_teamMembers := sw_teamMembers w; sw_teamMemberKeys := sw_teamMemberKeys w;
     sw_tokens := sw_tokens w; sw_invalidated := sw_invalidated w |}.
Definition with_teamMembers (t : gmap (jsstr * jsstr) team_row) (w : scim_world) : scim_world :=
  {| sw_users := sw_users w; sw_members := sw_members w; sw_mappings := sw_mappings w; sw_groups := sw_groups w;
     sw_teams := sw_teams w; sw_teamMembers := t; sw_teamMemberKeys := sw_teamMemberKeys w;
     sw_tokens := sw_tokens w; sw_invalidated := sw_invalidated w |}.
Definition with_teamMemberKeys (t : gmap jsstr member_key) (w : scim_world) : scim_world :=
  {| sw_users := sw_users w; sw_members := sw_members w; sw_mappings := sw_mappings w; sw_groups := sw_groups w;
     sw_teams := sw_teams w; sw_teamMembers := sw_teamMembers w; sw_teamMemberKeys := t;
     sw_tokens := sw_tokens w; sw_invalidated := sw_invalidated w |}.
Definition with_tokens (t : gmap jsstr scim_token) (w : scim_world) : scim_world :=
  {| sw_users := sw_users w; sw_members := sw_members w; sw_mappings := sw_mappings w; sw_groups := sw_groups w;
     sw_teams := sw_teams w; sw_teamMembers := sw_teamMembers w; sw_teamMemberKeys := sw_teamMemberKeys w;
     sw_tokens := t; sw_invalidated := sw_invalidated w |}.
Definition with_invalidated (l : list (jsstr * jsstr)) (w : scim_world) : scim_world :=
  {| sw_users := sw_users w; sw_members := sw_members w; sw_mappings := sw_mappings w; sw_groups := sw_groups w;
     sw_teams := sw_teams w; sw_teamMembers := sw_teamMembers w; sw_teamMemberKeys := sw_teamMemberKeys w;
     sw_tokens := sw_tokens w; sw_invalidated := l |}.

(** ** Answers and errors *)

(** A user as the protocol shows it; [externalId] is left out when empty. *)
Record ScimUserResource := {
  ur_id : jsstr; ur_externalId : option jsstr; ur_userName : jsstr; ur_formatted : jsstr; ur_active : bool;
  ur_location : jsstr }.
Record ScimGroupResource := {
  gr_id : jsstr; gr_displayName : jsstr; gr_members : list (jsstr * jsstr); gr_location : jsstr }.

Inductive scim_error :=
| E401 | EAccessDenied | E503 | E429 | E400_body | E400_patch (e : PatchParseError)
| E400_externalId | E400_displayName | E400_team | E400_no_member | E400_mismatch (expected : jsstr)
| E403_owner | E404 | E409_exists | E409_other_tenant | E409_externalId | E409_email | E409_delete | E409_group | E405.

Inductive scim_response :=
| RUser (r : option ScimUserResource) | RCreated (r : ScimUserResource) | RNoContent
| RGroup (created : bool) (r : ScimGroupResource) | RError (e : scim_error).

(** What the services throw, and what the database refuses. *)
Inductive scim_throw :=
| ScimUserNotFound | ScimOwnerProtected | ScimExternalIdConflict | ScimDeleteConflict
| ScimUserBelongsToOtherTenant | ScimResourceExists
| ScimGroupNotFound | ScimNoSuchMember (userId : jsstr) | ScimDisplayNameMismatch (expected : jsstr)
| EmailTaken | UniqueRefused | RowGone | BadUuid.

Definition stx (A : Type) : Type := st scim_world scim_throw A.
Definition sget : stx scim_world := fun w => (w, Ok w).
Definition sput (f : scim_world -> scim_world) : stx unit := fun w => (f w, Ok tt).
Definition sguard (b : bool) (e : scim_throw) : stx unit := if b then st_throw e else st_ret tt.

(** [withTenantRls]: committed, or rolled back by a throw. *)
Definition scim_transaction {A} (m : stx A) : stx A :=
  fun w => match m w with (w', Ok a) => (w', Ok a) | (_, Throw e) => (w, Throw e) end.

(** ** Tokens *)

Inductive ScimTokenValidationError := SCIM_TOKEN_INVALID | SCIM_TOKEN_REVOKED | SCIM_TOKEN_EXPIRED.
Record ValidatedScimToken := { vs_tokenId : jsstr; vs_tenantId : jsstr; vs_auditUserId : jsstr; vs_human : bool }.

Definition SCIM_TOKEN_PREFIX : jsstr := js "scim_".
Definition SYSTEM_ACTOR_ID : jsstr := js "00000000-0000-4000-8000-000000000001".
Definition LAST_USED_AT_THROTTLE_MS : Z := 5 * 60000.

Section Handlers.
(** SHA-256 in hexadecimal; the text the database gives back for the uuid that a
    string denotes, [None] when it denotes none; the base URL of the API. *)
Context (hashToken : jsstr -> jsstr) (dbUuid : jsstr -> option jsstr) (baseUrl : jsstr).

Definition validateScimToken (authorization : option jsstr) (now : Z) (w : scim_world)
    : ScimTokenValidationError + ValidatedScimToken :=
  match nonempty (bearer_of (js "Bearer") authorization) with
  | None => inl SCIM_TOKEN_INVALID
  | Some plaintext =>
      if negb (js_starts_with SCIM_TOKEN_PREFIX plaintext) then inl SCIM_TOKEN_INVALID
      else match find_by (fun t => sk_tokenHash t =s hashToken plaintext) (sw_tokens w) with
      | None => inl SCIM_TOKEN_INVALID
      | Some (id, t) =>
          if has (sk_revokedAt t) then inl SCIM_TOKEN_REVOKED
          else if match sk_expiresAt t with Some e => e <=? now | None => false end then inl SCIM_TOKEN_EXPIRED
          else match nonempty (Some (sk_tenantId t)) with
          | None => inl SCIM_TOKEN_INVALID
          | Some tenantId =>
              inr {| vs_tokenId := id; vs_tenantId := tenantId;
                     vs_auditUserId := default SYSTEM_ACTOR_ID (sk_createdById t);
                     vs_human := has (nonempty (sk_createdById t)) |}
          end
      end
  end.

(** The throttled update of [lastUsedAt], sent without waiting for it. *)
Definition touch_scim_token (id : jsstr) (now : Z) : stx unit := fun w =>
  match sw_tokens w !! id with
  | Some t =>
      if LAST_USED_AT_THROTTLE_MS <=? now - default 0 (sk_lastUsedAt t)
      then (with_tokens (<[id := {| sk_tokenHash := sk_tokenHash t; sk_tenantId := sk_tenantId t;
              sk_createdById := sk_createdById t; sk_revokedAt := sk_revokedAt t; sk_expiresAt := sk_expiresAt t;
              sk_lastUsedAt := Some now |}]> (sw_tokens w)) w, Ok tt)
      else (w, Ok tt)
  | None => (w, Ok tt)
  end.

(** [authorizeScim]; the network restriction and the rate limit enter by their
    verdict *)
Definition authorizeScim (authorization : option jsstr) (denied redisErrored allowed : bool) (now : Z) (w_t : scim_world)
    : scim_error + ValidatedScimToken :=
  match validateScimToken authorization now w_t with
  | inl _ => inl E401
  | inr data =>
      if denied then inl EAccessDenied
      else if redisErrored then inl E503
      else if negb allowed then inl E429
      else inr data
  end.

(** ** Users *)

Definition userToScimUser (userId email : jsstr) (name : option jsstr) (deactivatedAt : option Z)
    (externalId : option jsstr) : ScimUserResource :=
  {| ur_id := userId; ur_externalId := nonempty externalId; ur_userName := email; ur_formatted := default [] name;
     ur_active := negb (has deactivatedAt); ur_location := baseUrl ++ js "/Users/" ++ userId |}.

(** The user a row of the tenant includes: visible in the tenant's context only. *)
Definition visible_user (tenantId userId : jsstr) (w : scim_world) : option scim_user :=
  u ← sw_users w !! userId; if su_tenantId u =s tenantId then Some u else None.

(** [scimExternalMapping.findFirst] by internal identifier *)
Definition external_id (tenantId userId : jsstr) (w : scim_world) : option jsstr :=
  match List.find (fun m => (fst (fst m) =s tenantId) && (snd m =s userId)) (map_to_list (sw_mappings w)) with
  | Some m => Some (snd (fst m))
  | None => None
  end.

Definition resolveUserId (tenantId scimId : jsstr) (w : scim_world) : outcome scim_throw (option jsstr) :=
  if Nat.ltb 255 (length scimId) then Ok None
  else match dbUuid scimId with
       | None => Throw BadUuid
       | Some u =>
           match sw_members w !! (tenantId, u) with
           | Some _ => Ok (Some u)
           | None => Ok (sw_mappings w !! (tenantId, scimId))
           end
       end.

Definition fetchScimUser (tenantId userId : jsstr) (w : scim_world) : option ScimUserResource :=
  match sw_members w !! (tenantId, userId) with
  | None => None
  | Some member =>
      match visible_user tenantId userId w with
      | None => None
      | Some u =>
          match nonempty (su_email u) with
          | None => None
          | Some email => Some (userToScimUser userId email (su_name u) (sm_deactivatedAt member) (external_id tenantId userId w))
          end
      end
  end.

Inductive user_audit := SCIM_USER_UPDATE | SCIM_USER_DEACTIVATE | SCIM_USER_REACTIVATE.
#[export] Instance user_audit_eq_dec : EqDecision user_audit.
Proof. solve_decision. Defined.

(** [tenantMember.update({ where: { id } })]; [deactivatedAt]: [None] leaves the
    column alone *)
Definition update_member (tenantId userId id : jsstr) (deactivatedAt : option (option Z)) (now : Z) : stx unit := fun w =>
  match sw_members w !! (tenantId, userId) with
  | Some m =>
      if sm_id m =s id
      then (with_members (<[(tenantId, userId) :=
              {| sm_id := sm_id m; sm_role := sm_role m;
                 sm_deactivatedAt := match deactivatedAt with Some d => d | None => sm_deactivatedAt m end;
                 sm_scimManaged := true; sm_provisioningSource := js "SCIM"; sm_lastScimSyncedAt := Some now |}]>
              (sw_members w)) w, Ok tt)
      else (w, Throw RowGone)
  | None => (w, Throw RowGone)
  end.

(** [deleteMany({ where: { tenantId, internalId } })] *)
Definition delete_mappings (tenantId userId : jsstr) (w : scim_world) : scim_world :=
  with_mappings (filter (fun kv => ~ (fst (fst kv) = tenantId /\ snd kv = userId)) (sw_mappings w)) w.

(** The external identifier of a user; [lost] when another transaction takes it
    between the query and the insertion, which the unique index then refuses. *)
Definition set_mapping (tenantId userId externalId : jsstr) (lost : bool) : stx unit := fun w =>
  match sw_mappings w !! (tenantId, externalId) with
  | Some internalId => if internalId =s userId then (w, Ok tt) else (w, Throw ScimExternalIdConflict)
  | None =>
      if lost then (w, Throw ScimExternalIdConflict)
      else let w1 := delete_mappings tenantId userId w in
           (with_mappings (<[(tenantId, externalId) := userId]> (sw_mappings w1)) w1, Ok tt)
  end.

Record ServiceResult := { sr_resource : option ScimUserResource; sr_audit : user_audit; sr_invalidate : bool }.

Definition replaceScimUser (w_r : scim_world) (tenantId userId : jsstr) (active : bool) (externalId : option jsstr)
    (lost : bool) (now : Z) : stx ServiceResult :=
  match sw_members w_r !! (tenantId, userId) with
  | None => st_throw ScimUserNotFound
  | Some member =>
      if bool_decide (sm_role member = OWNER) && negb active then st_throw ScimOwnerProtected
      else
        let auditAction := if negb active && negb (has (sm_deactivatedAt member)) then SCIM_USER_DEACTIVATE
                           else if active && has (sm_deactivatedAt member) then SCIM_USER_REACTIVATE
                           else SCIM_USER_UPDATE in
        let! _ := update_member tenantId userId (sm_id member)
                    (Some (if negb active then Some (default now (sm_deactivatedAt member)) else None)) now in
        let! _ := match nonempty externalId with
                  | Some e => set_mapping tenantId userId e lost
                  | None => sput (delete_mappings tenantId userId)
                  end in
        let! w := sget in
        st_ret {| sr_resource := fetchScimUser tenantId userId w; sr_audit := auditAction;
                  sr_invalidate := bool_decide (auditAction = SCIM_USER_DEACTIVATE) |}
  end.

Definition patchScimUser (w_r : scim_world) (tenantId userId : jsstr) (operations : UserPatchResult) (now : Z)
    : stx ServiceResult :=
  match sw_members w_r !! (tenantId, userId) with
  | None => st_throw ScimUserNotFound
  | Some member =>
      if bool_decide (sm_role member = OWNER) && bool_decide (up_active operations = Some false)
      then st_throw ScimOwnerProtected
      else
        let auditAction := match up_active operations with
                           | Some true => if has (sm_deactivatedAt member) then SCIM_USER_REACTIVATE else SCIM_USER_UPDATE
                           | Some false => if has (sm_deactivatedAt member) then SCIM_USER_UPDATE else SCIM_USER_DEACTIVATE
                           | None => SCIM_USER_UPDATE
                           end in
        let! _ := update_member tenantId userId (sm_id member)
                    match up_active operations with
                    | Some true => Some None
                    | Some false => Some (Some (default now (sm_deactivatedAt member)))
                    | None => None
                    end now in
        let! w := sget in
        st_ret {| sr_resource := fetchScimUser tenantId userId w; sr_audit := auditAction;
                  sr_invalidate := bool_decide (auditAction = SCIM_USER_DEACTIVATE) |}
  end.

(** [refused]: a foreign key keeps the row *)
Definition deactivateScimUser (w_r : scim_world) (tenantId userId : jsstr) (refused : bool) : stx unit :=
  match sw_members w_r !! (tenantId, userId) with
  | None => st_throw ScimUserNotFound
  | Some member =>
      if bool_decide (sm_role member = OWNER) then st_throw ScimOwnerProtected
      else
        let! _ := sput (fun w => with_teamMemberKeys
                    (filter (fun kv => ~ (mk_tenantId (snd kv) = tenantId /\ mk_userId (snd kv) = userId)) (sw_teamMemberKeys w)) w) in
        let! _ := sput (delete_mappings tenantId userId) in
        let! _ := sput (fun w => with_teamMembers
                    (filter (fun kv => ~ (tr_tenantId (snd kv) = tenantId /\ snd (fst kv) = userId)) (sw_teamMembers w)) w) in
        let! w := sget in
        match sw_members w !! (tenantId, userId) with
        | None => st_throw RowGone
        | Some _ =>
            let! _ := sguard refused ScimDeleteConflict in
            sput (fun w => with_members (delete (tenantId, userId) (sw_members w)) w)
        end
  end.
(** A user's body as the schema returns it: the name in lower case, [active] true by
    default. *)
Record scim_user_body := {
  ub_userName : jsstr; ub_externalId : option jsstr; ub_formatted : option jsstr; ub_active : bool }.

(** The transaction of POST /Users; [userId] and [memberId] are the generated
    identifiers. *)
Definition create_tx (w_r : scim_world) (tenantId : jsstr) (b : scim_user_body) (userId memberId : jsstr)
    (lost : bool) (now : Z) : stx ScimUserResource :=
  let! found := match List.find (fun kv => (su_tenantId (snd kv) =s tenantId) && bool_decide (su_email (snd kv) = Some (ub_userName b)))
                       (map_to_list (sw_users w_r)) with
    | Some (id, u) => st_ret (id, u)
    | None => fun w =>
        if existsb (fun kv => bool_decide (su_email (snd kv) = Some (ub_userName b))) (map_to_list (sw_users w))
           || has (sw_users w !! userId)
        then (w, Throw EmailTaken)
        else let u := {| su_tenantId := tenantId; su_email := Some (ub_userName b); su_name := ub_formatted b |} in
             (with_users (<[userId := u]> (sw_users w)) w, Ok (userId, u))
    end in
  let '(id, u) := found in
  let! _ := sguard (negb (su_tenantId u =s tenantId)
                    && existsb (fun kv => (snd (fst kv) =s id) && negb (fst (fst kv) =s tenantId)
                                          && negb (has (sm_deactivatedAt (snd kv)))) (map_to_list (sw_members w_r)))
                   ScimUserBelongsToOtherTenant in
  let! _ := sguard (has (sw_members w_r !! (tenantId, id))) ScimResourceExists in
  let deactivatedAt := if ub_active b then None else Some now in
  let! _ := fun w =>
    if has (sw_members w !! (tenantId, id)) then (w, Throw UniqueRefused)
    else if negb (has (sw_users w !! id)) then (w, Throw RowGone)
    else (with_members (<[(tenantId, id) :=
            {| sm_id := memberId; sm_role := MEMBER; sm_deactivatedAt := deactivatedAt; sm_scimManaged := true;
               sm_provisioningSource := js "SCIM"; sm_lastScimSyncedAt := Some now |}]> (sw_members w)) w, Ok tt) in
  let! _ := match nonempty (ub_externalId b) with
            | Some e => set_mapping tenantId id e lost
            | None => st_ret tt
            end in
  st_ret (userToScimUser id (ub_userName b) (su_name u) deactivatedAt (ub_externalId b)).

(** POST /api/scim/v2/Users *)
Definition post_users (auth : scim_error + ValidatedScimToken) (w_r : scim_world) (body : option scim_user_body)
    (userId memberId : jsstr) (lost : bool) (now : Z) : stx scim_response :=
  match auth, body with
  | inl e, _ => st_ret (RError e)
  | inr _, None => st_ret (RError E400_body)
  | inr t, Some b => fun w =>
      match scim_transaction (create_tx w_r (vs_tenantId t) b userId memberId lost now) w with
      | (w', Ok r) => (w', Ok (RCreated r))
      | (w', Throw ScimUserBelongsToOtherTenant) => (w', Ok (RError E409_other_tenant))
      | (w', Throw ScimResourceExists) => (w', Ok (RError E409_exists))
      | (w', Throw ScimExternalIdConflict) => (w', Ok (RError E409_externalId))
      | (w', Throw EmailTaken) | (w', Throw UniqueRefused) => (w', Ok (RError E409_email))
      | (w', Throw e) => (w', Throw e)
      end
  end.

(** The identifier of the path, then the service, in one transaction. *)
Definition on_user {A} (w_r : scim_world) (tenantId scimId : jsstr) (service : jsstr -> stx A) : stx (jsstr * A) :=
  scim_transaction (
    let! found := st_lift (resolveUserId tenantId scimId w_r) in
    match nonempty found with
    | None => st_throw ScimUserNotFound
    | Some userId => let! a := service userId in st_ret (userId, a)
    end).

(** [invalidateUserSessions] after the commit; its failure is only logged. *)
Definition invalidate (tenantId userId : jsstr) (needed succeeds : bool) (w : scim_world) : scim_world :=
  if needed && succeeds then with_invalidated ((tenantId, userId) :: sw_invalidated w) w else w.

Definition user_throw (e : scim_throw) : outcome scim_throw scim_response :=
  match e with
  | ScimUserNotFound => Ok (RError E404)
  | ScimOwnerProtected => Ok (RError E403_owner)
  | ScimExternalIdConflict => Ok (RError E409_externalId)
  | ScimDeleteConflict => Ok (RError E409_delete)
  | _ => Throw e
  end.

(** GET /api/scim/v2/Users/[id] *)
Definition get_user (auth : scim_error + ValidatedScimToken) (id : jsstr) (w : scim_world)
    : outcome scim_throw scim_response :=
  match auth with
  | inl e => Ok (RError e)
  | inr t =>
      match resolveUserId (vs_tenantId t) id w with
      | Throw e => Throw e
      | Ok found =>
          match nonempty found with
          | None => Ok (RError E404)
          | Some userId =>
              match fetchScimUser (vs_tenantId t) userId w with
              | None => Ok (RError E404)
              | Some r => Ok (RUser (Some r))
              end
          end
      end
  end.

(** PUT /api/scim/v2/Users/[id] *)
Definition put_user (auth : scim_error + ValidatedScimToken) (w_r : scim_world) (body : option scim_user_body) (id : jsstr)
    (lost invalidates : bool) (now : Z) : stx scim_response :=
  match auth, body with
  | inl e, _ => st_ret (RError e)
  | inr _, None => st_ret (RError E400_body)
  | inr t, Some b => fun w =>
      match on_user w_r (vs_tenantId t) id
              (fun userId => replaceScimUser w_r (vs_tenantId t) userId (ub_active b) (ub_externalId b) lost now) w with
      | (w', Throw e) => (w', user_throw e)
      | (w', Ok (userId, r)) =>
          (invalidate (vs_tenantId t) userId (sr_invalidate r) invalidates w', Ok (RUser (sr_resource r)))
      end
  end.

(** PATCH /api/scim/v2/Users/[id]; the schema takes one to a hundred operations *)
Definition SCIM_PATCH_OPERATIONS_MAX : nat := 100.
Definition patch_user (auth : scim_error + ValidatedScimToken) (w_r : scim_world) (body : option (list ScimPatchOperation))
    (id : jsstr) (invalidates : bool) (now : Z) : stx scim_response :=
  match auth, body with
  | inl e, _ => st_ret (RError e)
  | inr _, None => st_ret (RError E400_body)
  | inr t, Some operations =>
      if Nat.eqb (length operations) 0 || Nat.ltb SCIM_PATCH_OPERATIONS_MAX (length operations)
      then st_ret (RError E400_body)
      else match parseUserPatchOps operations with
      | Throw e => st_ret (RError (E400_patch e))
      | Ok patchOps => fun w =>
          match on_user w_r (vs_tenantId t) id (fun userId => patchScimUser w_r (vs_tenantId t) userId patchOps now) w with
          | (w', Throw e) => (w', user_throw e)
          | (w', Ok (userId, r)) =>
              (invalidate (vs_tenantId t) userId (sr_invalidate r) invalidates w', Ok (RUser (sr_resource r)))
          end
      end
  end.

(** DELETE /api/scim/v2/Users/[id] *)
Definition delete_user (auth : scim_error + ValidatedScimToken) (w_r : scim_world) (id : jsstr)
    (refused invalidates : bool) : stx scim_response :=
  match auth with
  | inl e => st_ret (RError e)
  | inr t => fun w =>
      match on_user w_r (vs_tenantId t) id (fun userId => deactivateScimUser w_r (vs_tenantId t) userId refused) w with
      | (w', Throw e) => (w', user_throw e)
      | (w', Ok (userId, _)) => (invalidate (vs_tenantId t) userId true invalidates w', Ok RNoContent)
      end
  end.

(** ** Groups *)

Definition role_name (r : TeamRole) : jsstr :=
  match r with TEAM_OWNER => js "OWNER" | TEAM_ADMIN => js "ADMIN" | TEAM_MEMBER => js "MEMBER" | TEAM_VIEWER => js "VIEWER" end.

Definition toDisplayName (teamSlug : option jsstr) (role : TeamRole) : jsstr :=
  match nonempty teamSlug with Some slug => slug ++ js ":" ++ role_name role | None => role_name role end.

Definition buildGroupResource (externalGroupId displayName : jsstr) (members : list (jsstr * jsstr)) : ScimGroupResource :=
  {| gr_id := externalGroupId; gr_displayName := displayName; gr_members := members;
     gr_location := baseUrl ++ js "/Groups/" ++ externalGroupId |}.

(** The active members of a team with a role, as rows of the tenant. *)
Definition in_role (tenantId teamId : jsstr) (role : TeamRole) (kr : jsstr * jsstr * team_row) : bool :=
  (fst (fst kr) =s teamId) && (tr_tenantId (snd kr) =s tenantId) && bool_decide (tr_role (snd kr) = role)
  && negb (has (tr_deactivatedAt (snd kr))).

Definition loadGroupMembers (tenantId teamId : jsstr) (role : TeamRole) (w : scim_world) : list (jsstr * jsstr) :=
  omap (fun kr => u ← visible_user tenantId (snd (fst kr)) w; e ← su_email u; Some (snd (fst kr), e))
    (List.filter (in_role tenantId teamId role) (map_to_list (sw_teamMembers w))).

(** [updateMany({ where: { id: { in } } })] on rows read before, each by its key and
    its identifier, among the rows of the tenant *)
Definition update_rows (tenantId : jsstr) (rows : list (jsstr * jsstr * jsstr)) (f : team_row -> team_row) (w : scim_world)
    : scim_world :=
  with_teamMembers
    (map_imap (fun k r => Some (if bool_decide ((k, tr_id r) ∈ rows) && (tr_tenantId r =s tenantId) then f r else r))
       (sw_teamMembers w)) w.

Definition set_role (role : TeamRole) (r : team_row) : team_row :=
  {| tr_id := tr_id r; tr_tenantId := tr_tenantId r; tr_role := role; tr_deactivatedAt := tr_deactivatedAt r;
     tr_scimManaged := tr_scimManaged r |}.

Definition deactivate_row (now : Z) (r : team_row) : team_row :=
  {| tr_id := tr_id r; tr_tenantId := tr_tenantId r; tr_role := tr_role r; tr_deactivatedAt := Some now;
     tr_scimManaged := tr_scimManaged r |}.

(** One row of [createMany]: the unique index on (team, user) covers rows of any
    state; [newId] generates the identifiers. *)
Definition create_row (newId : jsstr -> jsstr) (tenantId teamId : jsstr) (role : TeamRole) (userId : jsstr) : stx unit := fun w =>
  if has (sw_teamMembers w !! (teamId, userId)) then (w, Throw UniqueRefused)
  else (with_teamMembers (<[(teamId, userId) :=
          {| tr_id := newId userId; tr_tenantId := tenantId; tr_role := role; tr_deactivatedAt := None;
             tr_scimManaged := true |}]> (sw_teamMembers w)) w, Ok tt).

(** [where: { teamId, userId: { in }, deactivatedAt: null }] *)
Definition existing_members (tenantId teamId : jsstr) (userIds : list jsstr) (w : scim_world) : list (jsstr * jsstr * team_row) :=
  List.filter (fun kr => (fst (fst kr) =s teamId) && (tr_tenantId (snd kr) =s tenantId)
                         && negb (has (tr_deactivatedAt (snd kr))) && bool_decide (Some (snd (fst kr)) ∈ dbUuid <$> userIds))
    (map_to_list (sw_teamMembers w)).

Definition active_member (tenantId userId : jsstr) (w : scim_world) : bool :=
  match sw_members w !! (tenantId, userId) with Some m => negb (has (sm_deactivatedAt m)) | None => false end.

Definition applyAddOperations (w_r : scim_world) (newId : jsstr -> jsstr) (tenantId teamId : jsstr) (role : TeamRole)
    (userIds : list jsstr) : stx unit :=
  match userIds with
  | [] => st_ret tt
  | _ =>
      let! _ := sguard (existsb (fun u => negb (has (dbUuid u))) userIds) BadUuid in
      let existing := existing_members tenantId teamId userIds w_r in
      let! _ := sguard (existsb (fun kr => bool_decide (tr_role (snd kr) = TEAM_OWNER)) existing) ScimOwnerProtected in
      let toUpdateRole := List.filter (fun kr => negb (bool_decide (tr_role (snd kr) = role))) existing in
      let toCreate := List.filter (fun u => negb (existsb (fun kr => snd (fst kr) =s u) existing)) userIds in
      let! _ := st_for (fun u => sguard (negb (active_member tenantId u w_r)) (ScimNoSuchMember u)) toCreate in
      let! _ := st_for (create_row newId tenantId teamId role) toCreate in
      sput (update_rows tenantId (map (fun kr => (fst kr, tr_id (snd kr))) toUpdateRole) (set_role role))
  end.

(** The rows are read again, after the additions. *)
Definition applyRemoveOperations (tenantId teamId : jsstr) (role : TeamRole) (rows : list (jsstr * jsstr * jsstr)) (now : Z) : stx unit :=
  match rows with
  | [] => st_ret tt
  | _ =>
      let! w := sget in
      let fresh := List.filter (fun kr => bool_decide ((fst kr, tr_id (snd kr)) ∈ rows) && (fst (fst kr) =s teamId)
                                          && (tr_tenantId (snd kr) =s tenantId))
                     (map_to_list (sw_teamMembers w)) in
      let! _ := sguard (existsb (fun kr => bool_decide (tr_role (snd kr) = TEAM_OWNER)) fresh) ScimOwnerProtected in
      let toRemove := List.filter (fun kr => bool_decide (tr_role (snd kr) = role)) fresh in
      sput (update_rows tenantId (map (fun kr => (fst kr, tr_id (snd kr))) toRemove) (deactivate_row now))
  end.

(** The mapping of a group and the slug of its team, visible in the tenant. *)
Definition find_group (tenantId scimId : jsstr) (w : scim_world) : option (group_mapping * option jsstr) :=
  g ← sw_groups w !! (tenantId, scimId);
  Some (g, t ← sw_teams w !! gm_teamId g; Some (te_slug t)).

Definition fetchScimGroup (tenantId scimId : jsstr) (w : scim_world) : option ScimGroupResource :=
  '(g, slug) ← find_group tenantId scimId w;
  Some (buildGroupResource scimId (toDisplayName slug (gm_role g)) (loadGroupMembers tenantId (gm_teamId g) (gm_role g) w)).

Definition runReplace (w_r : scim_world) (newId : jsstr -> jsstr) (tenantId : jsstr) (g : group_mapping)
    (memberUserIds : list jsstr) (now : Z) : stx (nat * nat) :=
  let current := List.filter (in_role tenantId (gm_teamId g) (gm_role g)) (map_to_list (sw_teamMembers w_r)) in
  let toAdd := List.filter (fun u => negb (existsb (fun kr => snd (fst kr) =s u) current)) (remove_dups memberUserIds) in
  let toRemove := List.filter (fun kr => negb (bool_decide (snd (fst kr) ∈ memberUserIds))) current in
  let! _ := applyAddOperations w_r newId tenantId (gm_teamId g) (gm_role g) toAdd in
  let! _ := applyRemoveOperations tenantId (gm_teamId g) (gm_role g) (map (fun kr => (fst kr, tr_id (snd kr))) toRemove) now in
  st_ret (length toAdd, length toRemove).

Definition replaceScimGroup (w_r : scim_world) (newId : jsstr -> jsstr) (tenantId scimId displayName : jsstr)
    (memberUserIds : list jsstr) (now : Z) : stx (ScimGroupResource * (nat * nat)) :=
  match find_group tenantId scimId w_r with
  | None => st_throw ScimGroupNotFound
  | Some (g, slug) =>
      let expected := toDisplayName slug (gm_role g) in
      if negb (js_to_lower displayName =s js_to_lower expected) then st_throw (ScimDisplayNameMismatch expected)
      else if bool_decide (gm_role g = TEAM_OWNER) then st_throw ScimOwnerProtected
      else
        let! counts := runReplace w_r newId tenantId g memberUserIds now in
        let! w := sget in
        st_ret (buildGroupResource scimId expected (loadGroupMembers tenantId (gm_teamId g) (gm_role g) w), counts)
  end.

Definition add_ids (l : list GroupMemberAction) : list jsstr := omap (fun a => match a with MemberAdd u => Some u | _ => None end) l.
Definition remove_ids (l : list GroupMemberAction) : list jsstr := omap (fun a => match a with MemberRemove u => Some u | _ => None end) l.

Definition runPatch (w_r : scim_world) (newId : jsstr -> jsstr) (tenantId : jsstr) (g : group_mapping)
    (operations : list GroupMemberAction) (now : Z) : stx unit :=
  let! _ := applyAddOperations w_r newId tenantId (gm_teamId g) (gm_role g) (add_ids operations) in
  match remove_ids operations with
  | [] => st_ret tt
  | removeUserIds =>
      let! _ := sguard (existsb (fun u => negb (has (dbUuid u))) removeUserIds) BadUuid in
      let! w := sget in
      let members := List.filter (fun kr => (fst (fst kr) =s gm_teamId g) && (tr_tenantId (snd kr) =s tenantId)
                                            && bool_decide (Some (snd (fst kr)) ∈ dbUuid <$> removeUserIds))
                       (map_to_list (sw_teamMembers w)) in
      let! _ := st_for (fun u => sguard (negb (existsb (fun kr => snd (fst kr) =s u) members)) (ScimNoSuchMember u)) removeUserIds in
      applyRemoveOperations tenantId (gm_teamId g) (gm_role g) (map (fun kr => (fst kr, tr_id (snd kr))) members) now
  end.

Definition patchScimGroup (w_r : scim_world) (newId : jsstr -> jsstr) (tenantId scimId : jsstr)
    (operations : list GroupMemberAction) (now : Z) : stx ScimGroupResource :=
  match find_group tenantId scimId w_r with
  | None => st_throw ScimGroupNotFound
  | Some (g, slug) =>
      let! _ := runPatch w_r newId tenantId g operations now in
      let! w := sget in
      st_ret (buildGroupResource scimId (toDisplayName slug (gm_role g)) (loadGroupMembers tenantId (gm_teamId g) (gm_role g) w))
  end.

Definition group_throw (e : scim_throw) : outcome scim_throw scim_response :=
  match e with
  | ScimGroupNotFound => Ok (RError E404)
  | ScimDisplayNameMismatch x => Ok (RError (E400_mismatch x))
  | ScimOwnerProtected => Ok (RError E403_owner)
  | ScimNoSuchMember _ => Ok (RError E400_no_member)
  | _ => Throw e
  end.

(** GET, PUT, PATCH and DELETE /api/scim/v2/Groups/[id] *)
Definition get_group (auth : scim_error + ValidatedScimToken) (id : jsstr) (w : scim_world) : scim_response :=
  match auth with
  | inl e => RError e
  | inr t => match fetchScimGroup (vs_tenantId t) id w with Some r => RGroup false r | None => RError E404 end
  end.

Record scim_group_body := { gb_displayName : jsstr; gb_externalId : option jsstr; gb_members : list jsstr }.

Definition put_group (auth : scim_error + ValidatedScimToken) (w_r : scim_world) (body : option scim_group_body) (id : jsstr)
    (newId : jsstr -> jsstr) (now : Z) : stx scim_response :=
  match auth, body with
  | inl e, _ => st_ret (RError e)
  | inr _, None => st_ret (RError E400_body)
  | inr t, Some b => fun w =>
      match scim_transaction (replaceScimGroup w_r newId (vs_tenantId t) id (gb_displayName b) (gb_members b) now) w with
      | (w', Ok (r, _)) => (w', Ok (RGroup false r))
      | (w', Throw e) => (w', group_throw e)
      end
  end.

Definition patch_group (auth : scim_error + ValidatedScimToken) (w_r : scim_world) (body : option (list ScimPatchOperation))
    (id : jsstr) (newId : jsstr -> jsstr) (now : Z) : stx scim_response :=
  match auth, body with
  | inl e, _ => st_ret (RError e)
  | inr _, None => st_ret (RError E400_body)
  | inr t, Some operations =>
      if Nat.eqb (length operations) 0 || Nat.ltb SCIM_PATCH_OPERATIONS_MAX (length operations)
      then st_ret (RError E400_body)
      else match parseGroupPatchOps operations with
      | Throw e => st_ret (RError (E400_patch e))
      | Ok actions => fun w =>
          match scim_transaction (patchScimGroup w_r newId (vs_tenantId t) id actions now) w with
          | (w', Ok r) => (w', Ok (RGroup false r))
          | (w', Throw e) => (w', group_throw e)
          end
      end
  end.

Definition delete_group (auth : scim_error + ValidatedScimToken) : scim_response :=
  match auth with inl e => RError e | inr _ => RError E405 end.

(** POST /api/scim/v2/Groups *)
Definition SCIM_GROUP_ROLES : list TeamRole := [TEAM_ADMIN; TEAM_MEMBER; TEAM_VIEWER].

(** The part before the first colon, which is not the first unit, and the part
    after it. *)
Fixpoint split_colon (s : jsstr) : option (jsstr * jsstr) :=
  match s with
  | [] => None
  | c :: s' => if c =? 58 then Some ([], s') else '(a, b) ← split_colon s'; Some (c :: a, b)
  end.
Definition display_parts (displayName : jsstr) : option (jsstr * jsstr) :=
  match split_colon displayName with Some ((_ :: _) as a, b) => Some (js_trim a, js_trim b) | _ => None end.

Definition parseRoleFromDisplayName (displayName expectedTeamSlug : jsstr) : option TeamRole :=
  match nonempty (Some expectedTeamSlug), display_parts displayName with
  | Some slug, Some (slugPart, rolePart) =>
      if slugPart =s slug
      then List.find (fun r => js_to_lower (role_name r) =s js_to_lower rolePart) SCIM_GROUP_ROLES
      else None
  | _, _ => None
  end.

Definition post_groups (auth : scim_error + ValidatedScimToken) (w_r : scim_world) (body : option scim_group_body)
    : stx scim_response :=
  match auth, body with
  | inl e, _ => st_ret (RError e)
  | inr _, None => st_ret (RError E400_body)
  | inr t, Some b =>
      let tenantId := vs_tenantId t in
      match nonempty (gb_externalId b) with
      | None => st_ret (RError E400_externalId)
      | Some externalId =>
          if Nat.eqb (length (js_trim externalId)) 0 then st_ret (RError E400_externalId)
          else match display_parts (gb_displayName b) with
          | None => st_ret (RError E400_displayName)
          | Some (slugPart, _) =>
              match find_by (fun x => (te_slug x =s slugPart) && (te_tenantId x =s tenantId)) (sw_teams w_r) with
              | None => st_ret (RError E400_team)
              | Some (teamId, team) =>
                  match parseRoleFromDisplayName (gb_displayName b) (te_slug team) with
                  | None => st_ret (RError E400_displayName)
                  | Some role => scim_transaction (
                      let existing := sw_groups w_r !! (tenantId, externalId) in
                      let answer created := fun w => (w, Ok (RGroup created
                        (buildGroupResource externalId (toDisplayName (Some (te_slug team)) role)
                           (loadGroupMembers tenantId teamId role w)))) in
                      match existing with
                      | Some g =>
                          if negb (gm_teamId g =s teamId) || negb (bool_decide (gm_role g = role))
                          then st_ret (RError E409_group) else answer false
                      | None => fun w =>
                          if has (sw_groups w !! (tenantId, externalId)) then (w, Throw UniqueRefused)
                          else answer true (with_groups (<[(tenantId, externalId) := {| gm_teamId := teamId; gm_role := role |}]>
                                                           (sw_groups w)) w)
                      end)
                  end
              end
          end
      end
  end.
End Handlers.
