(* ===== verification/ScimSafety.v ===== *)
(** * SCIM provisioning: proofs

    What each service writes, the integrity of the tables along every run, the
    confinement of a token to its tenant, and the exact effect of a full
    replacement of a user and of a group. *)

From S2P Require Import Prelude JsString JsJson Table TenantAuth ScimPatch ScimProvisioning.
From stdpp Require Import fin_maps.
Local Open Scope Z_scope.
Local Open Scope js_scope.

(** ** Transactions *)

Lemma scim_transaction_Ok {A} (m : stx A) w w' a : scim_transaction m w = (w', Ok a) <-> m w = (w', Ok a).
Proof. unfold scim_transaction. destruct (m w) as [w1 [b|e]]; split; intros H; by simplify_eq. Qed.

Lemma scim_transaction_Throw {A} (m : stx A) w w' e : scim_transaction m w = (w', Throw e) -> w' = w.
Proof. unfold scim_transaction. destruct (m w) as [w1 [b|e']]; intros H; by simplify_eq. Qed.

Lemma sguard_Ok b e w w' a : sguard b e w = (w', Ok a) -> b = false /\ w' = w.
Proof. unfold sguard, st_throw, st_ret. destruct b; intros H; by simplify_eq. Qed.

Lemma sput_Ok f w w' a : sput f w = (w', Ok a) -> w' = f w.
Proof. unfold sput. intros H. by simplify_eq. Qed.

Lemma sget_Ok w w' a : sget w = (w', Ok a) -> w' = w /\ a = w.
Proof. unfold sget. intros H. by simplify_eq. Qed.

Lemma st_ret_Ok' {A} (a b : A) (w w' : scim_world) : st_ret (E := scim_throw) a w = (w', Ok b) -> w' = w /\ b = a.
Proof. unfold st_ret. intros H. by simplify_eq. Qed.

(** Guards over a list change nothing and all pass. *)
Lemma st_for_sguard {A} (p : A -> bool) (e : A -> scim_throw) l w w' a :
  st_for (fun x => sguard (p x) (e x)) l w = (w', Ok a) -> w' = w /\ Forall (fun x => p x = false) l.
Proof.
  induction l as [|x l IH]; cbn; intros H; [by apply st_ret_Ok' in H as [-> _]|].
  apply st_bind_Ok_inv in H as (w1 & b & H1 & H). apply sguard_Ok in H1 as [Hp ->].
  apply IH in H as [-> Hl]. by split; [|constructor].
Qed.

(** Step into a transaction that succeeded. *)
Ltac steps H :=
  repeat match type of H with
  | st_bind _ _ _ = (_, Ok _) =>
      let w1 := fresh "w1" in let a := fresh "a" in let H1 := fresh "H1" in
      apply st_bind_Ok_inv in H as (w1 & a & H1 & H);
      first [ apply sguard_Ok in H1 as [? ->] | apply sput_Ok in H1 as -> | apply sget_Ok in H1 as [-> ->]
            | apply st_for_sguard in H1 as [-> ?] | idtac ]
  end.

(** ** Rows of a team *)

Lemma update_rows_lookup tenantId rows f w k :
  sw_teamMembers (update_rows tenantId rows f w) !! k =
    (fun r => if bool_decide ((k, tr_id r) ∈ rows) && (tr_tenantId r =s tenantId) then f r else r)
    <$> sw_teamMembers w !! k.
Proof. cbn. rewrite map_lookup_imap. by destruct (sw_teamMembers w !! k). Qed.

Lemma create_row_Ok newId tenantId teamId role u w w' a :
  create_row newId tenantId teamId role u w = (w', Ok a) ->
  sw_teamMembers w !! (teamId, u) = None
  /\ w' = with_teamMembers (<[(teamId, u) := {| tr_id := newId u; tr_tenantId := tenantId; tr_role := role;
                                               tr_deactivatedAt := None; tr_scimManaged := true |}]> (sw_teamMembers w)) w.
Proof. unfold create_row. destruct (sw_teamMembers w !! (teamId, u)); cbn; intros H; by simplify_eq. Qed.

(** [createMany]: the new rows, none of which was there. *)
Definition new_row (newId : jsstr -> jsstr) (tenantId : jsstr) (role : TeamRole) (u : jsstr) : team_row :=
  {| tr_id := newId u; tr_tenantId := tenantId; tr_role := role; tr_deactivatedAt := None; tr_scimManaged := true |}.

Lemma create_rows_Ok newId tenantId teamId role l w w' a :
  st_for (create_row newId tenantId teamId role) l w = (w', Ok a) ->
  exists t, w' = with_teamMembers t w
    /\ (forall k, t !! k = if bool_decide (k.1 = teamId /\ k.2 ∈ l) then Some (new_row newId tenantId role k.2) else sw_teamMembers w !! k)
    /\ (forall u, u ∈ l -> sw_teamMembers w !! (teamId, u) = None).
Proof.
  revert w. induction l as [|x l IH]; cbn; intros w H.
  - apply st_ret_Ok' in H as [-> _]. exists (sw_teamMembers w). split; [by destruct w|].
    split; [|by intros u ?%elem_of_nil]. intros k. rewrite bool_decide_eq_false_2; [done|]. set_solver.
  - apply st_bind_Ok_inv in H as (w1 & b & H1 & H). apply create_row_Ok in H1 as [Hx ->].
    apply IH in H as (t & -> & Ht & Hl). exists t. split; [done|]. split.
    + intros [g u]. rewrite Ht. cbn. destruct (decide (g = teamId /\ u ∈ l)) as [[-> Hu]|Hn].
      * rewrite !bool_decide_eq_true_2 by set_solver. done.
      * rewrite bool_decide_eq_false_2 by done. destruct (decide (g = teamId /\ u = x)) as [[-> ->]|Hx'].
        -- rewrite bool_decide_eq_true_2 by set_solver. by rewrite lookup_insert_eq.
        -- rewrite bool_decide_eq_false_2 by set_solver. rewrite lookup_insert_ne; [done|]. set_solver.
    + intros u [->|Hu]%elem_of_cons; [done|]. specialize (Hl _ Hu). cbn in Hl.
      destruct (decide (u = x)) as [->|Hne]; [done|]. by rewrite lookup_insert_ne in Hl by congruence.
Qed.

(** ** Integrity *)

Section Safety.
Context (dbUuid : jsstr -> option jsstr).

(** Identifiers of users are stored as the uuid column gives them back; a user has
    at most one external identifier in a tenant; no group stands for the owners of
    a team. *)
Record scim_ok (w : scim_world) : Prop := {
  ok_users : forall u r, sw_users w !! u = Some r -> dbUuid u = Some u;
  ok_members : forall t u m, sw_members w !! (t, u) = Some m -> dbUuid u = Some u;
  ok_teamMembers : forall g u r, sw_teamMembers w !! (g, u) = Some r -> dbUuid u = Some u;
  ok_mappings : forall t e e' u, sw_mappings w !! (t, e) = Some u -> sw_mappings w !! (t, e') = Some u -> e = e';
  ok_groups : forall k g, sw_groups w !! k = Some g -> gm_role g <> TEAM_OWNER }.

(** The active row of a team the queries of a tenant see. *)
Definition seen (tenantId teamId u : jsstr) (w : scim_world) : option team_row :=
  r ← sw_teamMembers w !! (teamId, u);
  if (tr_tenantId r =s tenantId) && negb (has (tr_deactivatedAt r)) then Some r else None.

Lemma seen_Some tenantId teamId u w r :
  seen tenantId teamId u w = Some r <->
  sw_teamMembers w !! (teamId, u) = Some r /\ tr_tenantId r = tenantId /\ tr_deactivatedAt r = None.
Proof.
  unfold seen. destruct (sw_teamMembers w !! (teamId, u)) as [r'|]; cbn; [|naive_solver].
  destruct (tr_tenantId r' =s tenantId) eqn:E; [apply bool_decide_eq_true in E|apply bool_decide_eq_false in E]; cbn.
  - destruct (tr_deactivatedAt r') eqn:D; cbn; naive_solver.
  - naive_solver.
Qed.

Lemma existing_members_spec tenantId teamId userIds w k r :
  (k, r) ∈ existing_members dbUuid tenantId teamId userIds w <->
  k.1 = teamId /\ seen tenantId teamId k.2 w = Some r /\ Some k.2 ∈ dbUuid <$> userIds.
Proof.
  unfold existing_members. rewrite list_elem_of_In, List.filter_In, <- list_elem_of_In, elem_of_map_to_list.
  destruct k as [g u]. cbn. rewrite !andb_true_iff, !bool_decide_eq_true, seen_Some, negb_true_iff.
  split.
  - intros (H & ((-> & ?) & Hd) & ?). split_and!; try done. by destruct (tr_deactivatedAt r).
  - intros (-> & (H & ? & Hd) & ?). rewrite Hd. done.
Qed.

Lemma in_role_spec tenantId teamId role w k r :
  (k, r) ∈ List.filter (in_role tenantId teamId role) (map_to_list (sw_teamMembers w)) <->
  k.1 = teamId /\ seen tenantId teamId k.2 w = Some r /\ tr_role r = role.
Proof.
  rewrite list_elem_of_In, List.filter_In, <- list_elem_of_In, elem_of_map_to_list. unfold in_role.
  destruct k as [g u]. cbn. rewrite !andb_true_iff, !bool_decide_eq_true, seen_Some, negb_true_iff. split.
  - intros (H & ((-> & ?) & ?) & Hd). split_and!; try done. by destruct (tr_deactivatedAt r).
  - intros (-> & (H & ? & Hd) & ?). rewrite Hd. done.
Qed.

(** What a success of the additions says of the identifiers, and the rows after it. *)
Definition added_row newId tenantId role (u : jsstr) (o : option team_row) (now : option team_row) : option team_row :=
  match o with
  | None => Some (new_row newId tenantId role u)
  | Some r0 => (fun r => if (tr_id r =s tr_id r0) && (tr_tenantId r =s tenantId) && negb (bool_decide (tr_role r0 = role))
                         then set_role role r else r) <$> now
  end.

Lemma existsb_false {A} (f : A -> bool) l : existsb f l = false -> forall x, x ∈ l -> f x = false.
Proof. intros H x Hx. destruct (f x) eqn:E; [|done]. exfalso. apply not_true_iff_false in H. apply H, existsb_exists. exists x. by rewrite <- list_elem_of_In. Qed.

(** The identifiers of additions that pass the checks are canonical, so that the
    rows found and the users to create are told apart by [seen]. *)
Lemma additions_split w_r tenantId teamId userIds :
  scim_ok w_r ->
  let ex := existing_members dbUuid tenantId teamId userIds w_r in
  let tc := List.filter (fun u => negb (existsb (fun kr => snd (fst kr) =s u) ex)) userIds in
  Forall (fun u => negb (active_member tenantId u w_r) = false) tc ->
  (forall u, u ∈ userIds -> dbUuid u = Some u)
  /\ (forall g u r, ((g, u), r) ∈ ex <-> g = teamId /\ u ∈ userIds /\ seen tenantId teamId u w_r = Some r)
  /\ (forall u, u ∈ tc <-> u ∈ userIds /\ seen tenantId teamId u w_r = None).
Proof.
  intros K ex tc Hact.
  assert (Htc : forall u, u ∈ tc <-> u ∈ userIds /\ forall k r, (k, r) ∈ ex -> k.2 <> u).
  { intros u. unfold tc. rewrite list_elem_of_In, List.filter_In, <- list_elem_of_In, negb_true_iff. split.
    - intros [Hu He]. split; [done|]. intros k r Hkr. pose proof (existsb_false _ _ He _ Hkr) as Hb.
      by apply bool_decide_eq_false in Hb.
    - intros [Hu Hn]. split; [done|]. apply not_true_iff_false. intros (kr & Hin & Hb)%existsb_exists.
      apply list_elem_of_In in Hin. destruct kr as [k r]. apply bool_decide_eq_true in Hb. by apply (Hn k r). }
  assert (Hcan : forall u, u ∈ userIds -> dbUuid u = Some u).
  { intros u Hu. destruct (decide (u ∈ tc)) as [Hin|Hn].
    - rewrite Forall_forall in Hact. apply Hact in Hin. apply negb_false_iff in Hin. unfold active_member in Hin.
      destruct (sw_members w_r !! (tenantId, u)) eqn:E; [|done]. by apply (ok_members _ K) in E.
    - destruct (existsb (fun kr => snd (fst kr) =s u) ex) eqn:E.
      + apply existsb_exists in E as (kr & Hin & Hb). apply list_elem_of_In in Hin. destruct kr as [k r].
        apply bool_decide_eq_true in Hb. cbn in Hb. subst u.
        apply existing_members_spec in Hin as (_ & Hs & _). apply seen_Some in Hs as (Hr & _).
        by apply (ok_teamMembers _ K) in Hr.
      + destruct Hn. unfold tc. apply list_elem_of_In, List.filter_In. rewrite E. split; [by apply list_elem_of_In|done]. }
  assert (Hin : forall u, Some u ∈ dbUuid <$> userIds <-> u ∈ userIds).
  { intros u. rewrite list_elem_of_fmap. split.
    - intros (v & Hv & Hin). rewrite (Hcan _ Hin) in Hv. by simplify_eq.
    - intros Hu. exists u. by rewrite Hcan. }
  assert (Hex : forall g u r, ((g, u), r) ∈ ex <-> g = teamId /\ u ∈ userIds /\ seen tenantId teamId u w_r = Some r).
  { intros g u r. unfold ex. rewrite existing_members_spec. cbn. rewrite Hin. naive_solver. }
  split_and!; [done|done|]. intros u. rewrite Htc. split.
  - intros [Hu Hn]. split; [done|]. destruct (seen tenantId teamId u w_r) as [r|] eqn:E; [|done].
    by destruct (Hn (teamId, u) r); [apply Hex|].
  - intros [Hu Hn]. split; [done|]. intros [g v] r Hkr Hv. cbn in Hv. subst v. apply Hex in Hkr as (_ & _ & Hs). congruence.
Qed.

Lemma applyAdd_spec w_r newId tenantId teamId role userIds w w' a :
  scim_ok w_r -> applyAddOperations dbUuid w_r newId tenantId teamId role userIds w = (w', Ok a) ->
  exists t, w' = with_teamMembers t w
    /\ (forall g u, t !! (g, u) = if decide (g = teamId /\ u ∈ userIds)
                                  then added_row newId tenantId role u (seen tenantId teamId u w_r) (sw_teamMembers w !! (g, u))
                                  else sw_teamMembers w !! (g, u))
    /\ (forall u, u ∈ userIds -> dbUuid u = Some u
          /\ match seen tenantId teamId u w_r with
             | Some r0 => tr_role r0 <> TEAM_OWNER
             | None => sw_teamMembers w !! (teamId, u) = None /\ active_member tenantId u w_r = true
             end).
Proof.
  intros K. unfold applyAddOperations. destruct userIds as [|u0 us] eqn:Eu.
  { intros H. apply st_ret_Ok' in H as [-> _]. exists (sw_teamMembers w). split; [by destruct w|].
    split; [|by intros u ?%elem_of_nil]. intros g u. rewrite decide_False; [done|]. set_solver. }
  rewrite <- Eu. clear Eu u0 us. cbv zeta. intros H. steps H. apply sput_Ok in H as ->.
  destruct (additions_split w_r tenantId teamId userIds K H2) as (Hcan & Hex & Htc).
  apply create_rows_Ok in H3 as (t & -> & Ht & Hnone).
  set (rows := map _ _) in *.
  assert (Hrows : forall g u i, ((g, u), i) ∈ rows <-> g = teamId /\ u ∈ userIds
            /\ exists r0, seen tenantId teamId u w_r = Some r0 /\ tr_role r0 <> role /\ tr_id r0 = i).
  { intros g u i. unfold rows. rewrite list_elem_of_In, in_map_iff. split.
    - intros ([[g' u'] r] & Hkr & Hin). cbn in Hkr. injection Hkr as -> -> <-.
      apply List.filter_In in Hin as [Hin Hr]. apply list_elem_of_In, Hex in Hin as (-> & Hu & Hs).
      apply negb_true_iff, bool_decide_eq_false in Hr. eauto 10.
    - intros (-> & Hu & r0 & Hs & Hr & <-). exists ((teamId, u), r0). split; [done|]. apply List.filter_In. split.
      + by apply list_elem_of_In, Hex.
      + by apply negb_true_iff, bool_decide_eq_false. }
  eexists. split; [reflexivity|]. split.
  - intros g u. rewrite (update_rows_lookup tenantId rows (set_role role) (with_teamMembers t w)). cbn. rewrite Ht. cbn.
    rewrite (bool_decide_ext _ _ (and_iff_compat_l (g = teamId) (Htc u))).
    destruct (decide (g = teamId /\ u ∈ userIds)) as [[-> Hu]|Hn].
    + unfold added_row. destruct (seen tenantId teamId u w_r) as [r0|] eqn:Es.
      * rewrite (bool_decide_eq_false_2 (_ /\ _ /\ _)) by naive_solver. apply option_fmap_ext. intros r.
        rewrite (bool_decide_ext _ (tr_id r = tr_id r0 /\ tr_role r0 <> role)) by (rewrite Hrows; naive_solver).
        rewrite bool_decide_and, bool_decide_not. by destruct (bool_decide (tr_role r0 = role)), (_ =s _), (_ =s _).
      * rewrite bool_decide_eq_true_2 by done. cbn.
        rewrite bool_decide_eq_false_2; [done|]. rewrite Hrows. naive_solver.
    + rewrite bool_decide_eq_false_2 by naive_solver.
      destruct (sw_teamMembers w !! (g, u)) as [r|]; [|done]. cbn.
      rewrite bool_decide_eq_false_2; [done|]. rewrite Hrows. naive_solver.
  - intros u Hu. split; [by apply Hcan|]. destruct (seen tenantId teamId u w_r) as [r0|] eqn:Es.
    + assert (Hin : ((teamId, u), r0) ∈ existing_members dbUuid tenantId teamId userIds w_r) by (by apply Hex).
      pose proof (existsb_false _ _ H1 _ Hin) as Hb. by apply bool_decide_eq_false in Hb.
    + assert (Hin : u ∈ List.filter (fun u => negb (existsb (fun kr => snd (fst kr) =s u)
        (existing_members dbUuid tenantId teamId userIds w_r))) userIds) by (by apply Htc).
      split; [by apply Hnone|]. rewrite Forall_forall in H2. by apply H2, negb_false_iff in Hin.
Qed.

(** The rows after the removals. *)
Definition removed_row tenantId teamId role (rows : list (jsstr * jsstr * jsstr)) now (g u : jsstr) (r : team_row) : team_row :=
  if decide (((g, u), tr_id r) ∈ rows /\ g = teamId /\ tr_tenantId r = tenantId /\ tr_role r = role)
  then deactivate_row now r else r.

Lemma applyRemove_spec tenantId teamId role rows now w w' a :
  applyRemoveOperations tenantId teamId role rows now w = (w', Ok a) ->
  exists t, w' = with_teamMembers t w
    /\ (forall g u, t !! (g, u) = removed_row tenantId teamId role rows now g u <$> sw_teamMembers w !! (g, u))
    /\ (forall u r, sw_teamMembers w !! (teamId, u) = Some r -> ((teamId, u), tr_id r) ∈ rows -> tr_tenantId r = tenantId ->
          tr_role r <> TEAM_OWNER).
Proof.
  unfold applyRemoveOperations. destruct rows as [|x0 xs] eqn:Er.
  { intros H. apply st_ret_Ok' in H as [-> _]. exists (sw_teamMembers w). split; [by destruct w|]. split.
    - intros g u. destruct (sw_teamMembers w !! (g, u)) as [r|]; [|done]. cbn. unfold removed_row.
      rewrite decide_False; [done|]. set_solver.
    - by intros ? ? _ ?%elem_of_nil. }
  rewrite <- Er. clear Er x0 xs. cbv zeta. intros H. steps H. apply sput_Ok in H as ->. rename H0 into Hown.
  assert (Hf : forall k r, (k, r) ∈ List.filter (fun kr => bool_decide ((fst kr, tr_id (snd kr)) ∈ rows) && (fst (fst kr) =s teamId)
                  && (tr_tenantId (snd kr) =s tenantId)) (map_to_list (sw_teamMembers w)) <->
               sw_teamMembers w !! k = Some r /\ (k, tr_id r) ∈ rows /\ k.1 = teamId /\ tr_tenantId r = tenantId).
  { intros k r. rewrite list_elem_of_In, List.filter_In, <- list_elem_of_In, elem_of_map_to_list. cbn.
    rewrite !andb_true_iff, !bool_decide_eq_true. naive_solver. }
  eexists (sw_teamMembers (update_rows tenantId _ (deactivate_row now) w)). split; [reflexivity|]. split.
  - intros g u. rewrite (update_rows_lookup tenantId _ (deactivate_row now) w).
    destruct (sw_teamMembers w !! (g, u)) as [r|] eqn:E; [|done]. cbn. f_equal. unfold removed_row.
    assert (Hin : ((g, u), tr_id r) ∈ map (fun kr => (fst kr, tr_id (snd kr)))
              (List.filter (fun kr => bool_decide (tr_role (snd kr) = role))
                 (List.filter (fun kr => bool_decide ((fst kr, tr_id (snd kr)) ∈ rows) && (fst (fst kr) =s teamId)
                  && (tr_tenantId (snd kr) =s tenantId)) (map_to_list (sw_teamMembers w))))
            <-> ((g, u), tr_id r) ∈ rows /\ g = teamId /\ tr_tenantId r = tenantId /\ tr_role r = role).
    { rewrite list_elem_of_In, in_map_iff. split.
      - intros ([k r'] & Hk & Hi). apply List.filter_In in Hi as [Hi Hr]. apply list_elem_of_In, Hf in Hi as (Hk' & ? & ? & ?).
        apply bool_decide_eq_true in Hr. cbn in Hk, Hr. simplify_eq. done.
      - intros (? & ? & ? & ?). exists ((g, u), r). split; [done|]. apply List.filter_In.
        split; [by apply list_elem_of_In, Hf|by apply bool_decide_eq_true]. }
    rewrite (bool_decide_ext _ _ Hin).
    destruct (decide (((g, u), tr_id r) ∈ rows /\ g = teamId /\ tr_tenantId r = tenantId /\ tr_role r = role)) as [Hd|Hd].
    + rewrite bool_decide_eq_true_2 by done. by rewrite bool_decide_eq_true_2 by naive_solver.
    + by rewrite bool_decide_eq_false_2.
  - intros u r Hr Hin Ht. pose proof (existsb_false _ _ Hown ((teamId, u), r)) as Hb.
    specialize (Hb (proj2 (Hf (teamId, u) r) (conj Hr (conj Hin (conj eq_refl Ht))))). by apply bool_decide_eq_false in Hb.
Qed.

(** ** Groups *)

(** The users who hold a role in a team, as the tenant sees it. *)
Definition roster (tenantId teamId : jsstr) (role : TeamRole) (w : scim_world) : gset jsstr :=
  list_to_set (map (fun kr => snd (fst kr)) (List.filter (in_role tenantId teamId role) (map_to_list (sw_teamMembers w)))).

Lemma elem_of_roster tenantId teamId role w u :
  u ∈ roster tenantId teamId role w <-> exists r, seen tenantId teamId u w = Some r /\ tr_role r = role.
Proof.
  unfold roster. rewrite elem_of_list_to_set, list_elem_of_In, in_map_iff. split.
  - intros ([[g v] r] & <- & Hin). apply list_elem_of_In, in_role_spec in Hin as (_ & Hs & Hr). eauto.
  - intros (r & Hs & Hr). exists ((teamId, u), r). split; [done|]. by apply list_elem_of_In, in_role_spec.
Qed.

(** What a replacement reads: whom to add and which rows to remove. *)
Lemma replace_plan tenantId teamId role memberUserIds w :
  let current := List.filter (in_role tenantId teamId role) (map_to_list (sw_teamMembers w)) in
  (forall u, u ∈ List.filter (fun u => negb (existsb (fun kr => snd (fst kr) =s u) current)) (remove_dups memberUserIds)
     <-> (u ∈ memberUserIds /\ u ∉ roster tenantId teamId role w))
  /\ (forall g u i, ((g, u), i) ∈ map (fun kr => (fst kr, tr_id (snd kr)))
        (List.filter (fun kr => negb (bool_decide (snd (fst kr) ∈ memberUserIds))) current)
     <-> g = teamId /\ (u ∉ memberUserIds) /\ exists r, seen tenantId teamId u w = Some r /\ tr_role r = role /\ tr_id r = i).
Proof.
  intros current. split.
  - intros u. rewrite list_elem_of_In, List.filter_In, <- list_elem_of_In, elem_of_remove_dups, negb_true_iff.
    apply and_iff_compat_l. rewrite elem_of_roster. split.
    + intros He (r & Hs & Hr). pose proof (existsb_false _ _ He ((teamId, u), r)) as Hb.
      specialize (Hb (proj2 (in_role_spec _ _ _ _ (teamId, u) r) (conj eq_refl (conj Hs Hr)))).
      by apply bool_decide_eq_false in Hb.
    + intros Hn. apply not_true_iff_false. intros ([[g v] r] & Hin & Hb)%existsb_exists.
      apply bool_decide_eq_true in Hb. cbn in Hb. subst v. apply Hn.
      apply list_elem_of_In, in_role_spec in Hin as (_ & Hs & Hr). eauto.
  - intros g u i. rewrite list_elem_of_In, in_map_iff. split.
    + intros ([[g' v] r] & Hk & Hin). apply List.filter_In in Hin as [Hin Hn]. cbn in Hk, Hn. simplify_eq.
      apply list_elem_of_In, in_role_spec in Hin as (Hg & Hs & Hr). cbn in Hg, Hs. subst g.
      apply negb_true_iff, bool_decide_eq_false in Hn. eauto 10.
    + intros (-> & Hu & r & Hs & Hr & <-). exists ((teamId, u), r). split; [done|]. apply List.filter_In.
      split; [by apply list_elem_of_In, in_role_spec|by apply negb_true_iff, bool_decide_eq_false].
Qed.

(** The row of a user after a replacement made of one state. *)
Definition replaced_row (newId : jsstr -> jsstr) (tenantId teamId : jsstr) (role : TeamRole) (memberUserIds : list jsstr)
    (now : Z) (g u : jsstr) (w : scim_world) : option team_row :=
  if decide (g = teamId /\ u ∈ memberUserIds)
  then Some match seen tenantId teamId u w with Some r => set_role role r | None => new_row newId tenantId role u end
  else if decide (g = teamId /\ u ∈ roster tenantId teamId role w)
  then deactivate_row now <$> sw_teamMembers w !! (g, u)
  else sw_teamMembers w !! (g, u).

Lemma runReplace_spec newId tenantId g memberUserIds now w w' n :
  scim_ok w -> runReplace dbUuid w newId tenantId g memberUserIds now w = (w', Ok n) ->
  exists t, w' = with_teamMembers t w
    /\ (forall h u, t !! (h, u) = replaced_row newId tenantId (gm_teamId g) (gm_role g) memberUserIds now h u w)
    /\ (forall u, u ∈ memberUserIds ->
          match seen tenantId (gm_teamId g) u w with
          | Some r => tr_role r = gm_role g \/ tr_role r <> TEAM_OWNER
          | None => sw_teamMembers w !! (gm_teamId g, u) = None /\ active_member tenantId u w = true
          end).
Proof.
  intros K. unfold runReplace. cbv zeta.
  destruct (replace_plan tenantId (gm_teamId g) (gm_role g) memberUserIds w) as [Hadd Hrem].
  set (toAdd := List.filter _ (remove_dups memberUserIds)) in *. set (rows := map _ _) in *. intros H.
  apply st_bind_Ok_inv in H as (w1 & a1 & H1 & H). apply st_bind_Ok_inv in H as (w2 & a2 & H2 & H).
  apply st_ret_Ok' in H as [-> _].
  apply applyAdd_spec in H1 as (t1 & -> & Ht1 & Hu); [|done]. apply applyRemove_spec in H2 as (t2 & -> & Ht2 & _).
  exists t2. split; [done|]. cbn in Ht2. split.
  - intros h u. rewrite Ht2, Ht1. unfold replaced_row.
    destruct (decide (h = gm_teamId g)) as [->|Hh].
    2: { rewrite !decide_False by naive_solver. destruct (sw_teamMembers w !! (h, u)) as [r|]; [|done]. cbn.
         unfold removed_row. rewrite decide_False by naive_solver. done. }
    destruct (decide (u ∈ memberUserIds)) as [Hm|Hm].
    + rewrite (decide_True (P := gm_teamId g = gm_teamId g /\ u ∈ memberUserIds)) by done.
      assert (Hk : forall r, removed_row tenantId (gm_teamId g) (gm_role g) rows now (gm_teamId g) u r = r).
      { intros r. unfold removed_row. rewrite decide_False; [done|]. rewrite Hrem. naive_solver. }
      rewrite (option_fmap_ext _ (fun r => r)), option_fmap_id by done.
      destruct (decide (u ∈ roster tenantId (gm_teamId g) (gm_role g) w)) as [Hr|Hr].
      * rewrite decide_False by naive_solver. apply elem_of_roster in Hr as (r & Hs & Hrole). rewrite Hs.
        apply seen_Some in Hs as (-> & _). destruct r; cbn in *. by subst.
      * rewrite decide_True by naive_solver. unfold added_row.
        destruct (seen tenantId (gm_teamId g) u w) as [r|] eqn:Hs; [|done].
        assert (Hne : tr_role r <> gm_role g) by (intros E; apply Hr, elem_of_roster; eauto).
        apply seen_Some in Hs as (-> & Ht & _). cbn.
        rewrite (bool_decide_eq_false_2 (tr_role r = gm_role g)) by done. by rewrite !bool_decide_eq_true_2 by done.
    + rewrite (decide_False (P := gm_teamId g = gm_teamId g /\ u ∈ memberUserIds)) by naive_solver.
      rewrite (decide_False (P := gm_teamId g = gm_teamId g /\ u ∈ toAdd)) by naive_solver.
      destruct (sw_teamMembers w !! (gm_teamId g, u)) as [r|] eqn:E; [|by case_decide]. cbn. unfold removed_row.
      destruct (decide (u ∈ roster tenantId (gm_teamId g) (gm_role g) w)) as [Hr|Hr].
      * rewrite (decide_True (P := gm_teamId g = gm_teamId g /\ u ∈ roster _ _ _ _)) by done.
        apply elem_of_roster in Hr as (r' & Hs & Hrole). pose proof (proj1 (seen_Some _ _ _ _ _) Hs) as (E' & Ht & _).
        assert (r' = r) as -> by congruence. rewrite decide_True; [done|]. rewrite Hrem. eauto 10.
      * rewrite (decide_False (P := gm_teamId g = gm_teamId g /\ u ∈ roster _ _ _ _)) by naive_solver.
        rewrite decide_False; [done|]. rewrite Hrem. intros ((_ & _ & r' & Hs & Hrole & _) & _). apply Hr, elem_of_roster. eauto.
  - intros u Hm. destruct (decide (u ∈ roster tenantId (gm_teamId g) (gm_role g) w)) as [Hr|Hr].
    + apply elem_of_roster in Hr as (r & -> & Hrole). by left.
    + destruct (Hu u) as [_ Hs]; [by apply Hadd|]. destruct (seen tenantId (gm_teamId g) u w); [by right|done].
Qed.

Lemma replaced_seen newId tenantId teamId role memberUserIds now w t u :
  (forall h u, t !! (h, u) = replaced_row newId tenantId teamId role memberUserIds now h u w) ->
  seen tenantId teamId u (with_teamMembers t w) =
    if decide (u ∈ memberUserIds)
    then Some match seen tenantId teamId u w with Some r => set_role role r | None => new_row newId tenantId role u end
    else if decide (u ∈ roster tenantId teamId role w) then None else seen tenantId teamId u w.
Proof.
  intros Ht. unfold seen at 1. cbn. rewrite Ht. unfold replaced_row.
  destruct (decide (u ∈ memberUserIds)) as [Hm|Hm].
  - rewrite decide_True by done. cbn. destruct (seen tenantId teamId u w) as [r|] eqn:Hs; cbn.
    + apply seen_Some in Hs as (_ & -> & ->). by rewrite bool_decide_eq_true_2.
    + by rewrite bool_decide_eq_true_2.
  - rewrite decide_False by naive_solver. destruct (decide (u ∈ roster tenantId teamId role w)) as [Hr|Hr].
    + rewrite decide_True by done. destruct (sw_teamMembers w !! (teamId, u)); [|done]. cbn. by rewrite andb_false_r.
    + by rewrite decide_False by naive_solver.
Qed.

Lemma replaced_roster newId tenantId teamId role memberUserIds now w t :
  (forall h u, t !! (h, u) = replaced_row newId tenantId teamId role memberUserIds now h u w) ->
  roster tenantId teamId role (with_teamMembers t w) = list_to_set memberUserIds.
Proof.
  intros Ht. apply set_eq. intros u. rewrite elem_of_roster, elem_of_list_to_set. setoid_rewrite (replaced_seen _ _ _ _ _ _ _ _ _ Ht).
  destruct (decide (u ∈ memberUserIds)) as [Hm|Hm].
  - split; [done|]. intros _. eexists. split; [done|]. by destruct (seen tenantId teamId u w).
  - split; [|done]. destruct (decide (u ∈ roster tenantId teamId role w)) as [Hr|Hr]; [by intros (? & ? & _)|].
    intros Hx. destruct Hr. by apply elem_of_roster.
Qed.

Lemma elem_of_loadGroupMembers tenantId teamId role w u e :
  (u, e) ∈ loadGroupMembers tenantId teamId role w <->
  u ∈ roster tenantId teamId role w /\ exists x, visible_user tenantId u w = Some x /\ su_email x = Some e.
Proof.
  unfold loadGroupMembers. rewrite list_elem_of_omap. split.
  - intros ([[g v] r] & Hin & Hx). cbn in Hx. destruct (visible_user tenantId v w) as [x|] eqn:Hv; [|done]. cbn in Hx.
    destruct (su_email x) eqn:He; [|done]. cbn in Hx. simplify_eq. apply in_role_spec in Hin as (_ & Hs & Hr).
    split; [apply elem_of_roster; eauto|eauto].
  - intros [(r & Hs & Hr)%elem_of_roster (x & Hv & He)]. exists ((teamId, u), r). split; [by apply in_role_spec|].
    cbn. by rewrite Hv; cbn; rewrite He.
Qed.

(** A replacement by the roster itself writes nothing. *)
Lemma runReplace_idle newId tenantId g memberUserIds now w :
  roster tenantId (gm_teamId g) (gm_role g) w = list_to_set memberUserIds ->
  runReplace dbUuid w newId tenantId g memberUserIds now w = (w, Ok (0%nat, 0%nat)).
Proof.
  intros Hr. unfold runReplace. cbv zeta.
  destruct (replace_plan tenantId (gm_teamId g) (gm_role g) memberUserIds w) as [Hadd Hrem].
  assert (Hin : forall u, u ∈ roster tenantId (gm_teamId g) (gm_role g) w <-> u ∈ memberUserIds) by (intros u; rewrite Hr; set_solver).
  match goal with |- context [List.filter ?p (remove_dups memberUserIds)] => set (toAdd := List.filter p (remove_dups memberUserIds)) in * end.
  match goal with |- context [map ?f (List.filter ?p ?l)] => set (toRemove := List.filter p l) in * end.
  assert (Ha : toAdd = []) by (apply elem_of_nil_inv; intros u [Hu Hn]%Hadd; by apply Hn, Hin).
  assert (Hb : toRemove = []).
  { apply elem_of_nil_inv. intros [[h u] r] Hx.
    assert (Hy : ((h, u), tr_id r) ∈ map (fun kr => (fst kr, tr_id (snd kr))) toRemove) by (by apply (list_elem_of_fmap_2 (fun kr => (fst kr, tr_id (snd kr))) toRemove ((h, u), r))).
    apply Hrem in Hy as (_ & Hn & r' & Hs & Hrole & _). apply Hn, Hin, elem_of_roster. eauto. }
  by rewrite Ha, Hb.
Qed.

(** C24: a full replacement of a group that answers success leaves exactly the
    requested users in the role: those who were missing are added, as active members
    of the tenant only, or moved from another role but never from the owners, the
    others are deactivated, and every other row is as it was.  The answer lists the
    new members with an e-mail address, reading the group gives the same answer, and
    the same request again changes nothing and answers the same. *)
Theorem group_put_exact baseUrl tk b id newId now w w' r :
  scim_ok w ->
  put_group dbUuid baseUrl (inr tk) w (Some b) id newId now w = (w', Ok (RGroup false r)) ->
  exists g t, sw_groups w !! (vs_tenantId tk, id) = Some g /\ w' = with_teamMembers t w
    /\ roster (vs_tenantId tk) (gm_teamId g) (gm_role g) w' = list_to_set (gb_members b)
    /\ (forall h u, t !! (h, u) = replaced_row newId (vs_tenantId tk) (gm_teamId g) (gm_role g) (gb_members b) now h u w)
    /\ (forall u, u ∈ gb_members b ->
          match seen (vs_tenantId tk) (gm_teamId g) u w with
          | Some x => tr_role x <> TEAM_OWNER
          | None => sw_teamMembers w !! (gm_teamId g, u) = None /\ active_member (vs_tenantId tk) u w = true
          end)
    /\ (forall u e, (u, e) ∈ gr_members r <->
          u ∈ gb_members b /\ exists x, visible_user (vs_tenantId tk) u w = Some x /\ su_email x = Some e)
    /\ get_group baseUrl (inr tk) id w' = RGroup false r
    /\ (forall newId' now', put_group dbUuid baseUrl (inr tk) w' (Some b) id newId' now' w' = (w', Ok (RGroup false r))).
Proof.
  intros K H. unfold put_group in H.
  destruct (scim_transaction _ w) as [w1 [[r1 n]|e]] eqn:E; [|by destruct e; simplify_eq].
  simplify_eq. apply (proj1 (scim_transaction_Ok _ _ _ _)) in E. unfold replaceScimGroup in E. unfold find_group in E.
  destruct (sw_groups w !! (vs_tenantId tk, id)) as [g|] eqn:Hg; [|done]. cbn in E.
  destruct (negb _) eqn:Hd; [done|]. destruct (bool_decide (gm_role g = TEAM_OWNER)) eqn:Ho; [done|].
  apply st_bind_Ok_inv in E as (w1 & n1 & H1 & E). apply st_bind_Ok_inv in E as (w2 & w3 & H2 & E).
  apply sget_Ok in H2 as [-> ->]. apply st_ret_Ok' in E as [-> E]. injection E as -> ->.
  apply runReplace_spec in H1 as (t & -> & Ht & Hu); [|done]. apply bool_decide_eq_false in Ho.
  assert (Hros := replaced_roster _ _ _ _ _ _ _ _ Ht).
  exists g, t. split_and!; try done.
  - intros u Hm. specialize (Hu u Hm). destruct (seen (vs_tenantId tk) (gm_teamId g) u w); [|done]. destruct Hu; congruence.
  - intros u e. cbn. rewrite elem_of_loadGroupMembers, Hros. rewrite elem_of_list_to_set. done.
  - unfold get_group, fetchScimGroup, find_group. cbn. rewrite Hg. done.
  - intros newId' now'. unfold put_group, replaceScimGroup, find_group. cbn. rewrite Hg. cbn. rewrite Hd.
    rewrite bool_decide_eq_false_2 by done. unfold scim_transaction, st_bind at 1. by rewrite runReplace_idle by done.
Qed.

(** ** Users *)

Lemma external_id_Some w tenantId u e :
  scim_ok w -> external_id tenantId u w = Some e <-> sw_mappings w !! (tenantId, e) = Some u.
Proof.
  intros K. unfold external_id. destruct (List.find _ _) as [[[t e'] v]|] eqn:E.
  - apply find_some in E as [Hin Hb]. apply list_elem_of_In, elem_of_map_to_list in Hin. cbn in *.
    apply andb_true_iff in Hb as [->%bool_decide_eq_true ->%bool_decide_eq_true]. split; [by intros [= ->]|].
    intros He. f_equal. by eapply (ok_mappings _ K).
  - split; [done|]. intros He. exfalso.
    assert (Hin : ((tenantId, e), u) ∈ map_to_list (sw_mappings w)) by (by apply elem_of_map_to_list).
    apply list_elem_of_In, (find_none _ _ E) in Hin. cbn in Hin. by rewrite !bool_decide_eq_true_2 in Hin.
Qed.

Lemma on_user_Ok {A} w_r tenantId scimId (service : jsstr -> stx A) w w' u a :
  on_user dbUuid w_r tenantId scimId service w = (w', Ok (u, a)) ->
  service u w = (w', Ok a) /\ (u <> [])
  /\ ((dbUuid scimId = Some u /\ is_Some (sw_members w_r !! (tenantId, u))) \/ sw_mappings w_r !! (tenantId, scimId) = Some u).
Proof.
  unfold on_user. rewrite scim_transaction_Ok. intros (w1 & found & H1 & H)%st_bind_Ok_inv. injection H1 as <- Hf.
  destruct (nonempty found) as [v|] eqn:E; [|done]. apply st_bind_Ok_inv in H as (w2 & b & Hs & H).
  apply st_ret_Ok' in H as [-> [= -> ->]]. apply nonempty_Some in E as [-> Hv]. split_and!; [done..|].
  unfold resolveUserId in Hf. destruct (Nat.ltb _ _); [done|]. destruct (dbUuid scimId) as [x|]; [|done].
  destruct (sw_members w_r !! (tenantId, x)) eqn:Em; injection Hf as Hf; [left; by simplify_eq|by right].
Qed.

(** The external identifiers after a replacement: those of the user become
    [externalId], if any, the others are as they were. *)
Definition remapped (tenantId u : jsstr) (externalId : option jsstr) (w w' : scim_world) : Prop :=
  exists t, w' = with_mappings t w /\ (forall e, t !! (tenantId, e) = Some u <-> externalId = Some e)
    /\ (forall k v, v <> u \/ k.1 <> tenantId -> (t !! k = Some v <-> sw_mappings w !! k = Some v)).

Lemma delete_mappings_spec tenantId u w : remapped tenantId u None w (delete_mappings tenantId u w).
Proof.
  eexists. split; [reflexivity|]. split.
  - intros e. rewrite map_lookup_filter_Some. cbn. naive_solver.
  - intros k v H. rewrite map_lookup_filter_Some. cbn. naive_solver.
Qed.

Lemma set_mapping_spec tenantId u e lost w w' a :
  scim_ok w -> set_mapping tenantId u e lost w = (w', Ok a) -> remapped tenantId u (Some e) w w'.
Proof.
  intros K. unfold set_mapping. destruct (sw_mappings w !! (tenantId, e)) as [i|] eqn:E.
  - destruct (i =s u) eqn:Ei; [|done]. apply bool_decide_eq_true in Ei as ->. intros [= <- _].
    exists (sw_mappings w). split; [by destruct w|]. split; [|done]. intros e'. split; [|by intros [= <-]].
    intros He. f_equal. by eapply (ok_mappings _ K).
  - destruct lost; [done|]. intros [= <- _].
    destruct (delete_mappings_spec tenantId u w) as (t & Ht & Hu & Hv). apply (f_equal sw_mappings) in Ht. cbn in Ht. subst t.
    eexists. split; [reflexivity|]. split.
    + intros e'. rewrite lookup_insert_Some, Hu. naive_solver.
    + intros k v H. rewrite lookup_insert_Some, (Hv k v H). split; [|intros Hk; right; split; [congruence|done]].
      intros [[<- <-]|[_ ?]]; [|done]. by destruct H.
Qed.

(** ** The whole of a user's replacement *)

Definition replaced_member (active : bool) (now : Z) (m : tenant_member) : tenant_member :=
  {| sm_id := sm_id m; sm_role := sm_role m;
     sm_deactivatedAt := if active then None else Some (default now (sm_deactivatedAt m));
     sm_scimManaged := true; sm_provisioningSource := js "SCIM"; sm_lastScimSyncedAt := Some now |}.

Lemma replaceScimUser_spec baseUrl tenantId u active externalId lost now w w' r :
  scim_ok w -> replaceScimUser baseUrl w tenantId u active externalId lost now w = (w', Ok r) ->
  exists m, sw_members w !! (tenantId, u) = Some m /\ (sm_role m = OWNER -> active = true)
    /\ remapped tenantId u (nonempty externalId) (with_members (<[(tenantId, u) := replaced_member active now m]> (sw_members w)) w) w'
    /\ sr_resource r = fetchScimUser baseUrl tenantId u w'
    /\ sr_invalidate r = negb active && negb (has (sm_deactivatedAt m)).
Proof.
  intros K. unfold replaceScimUser. destruct (sw_members w !! (tenantId, u)) as [m|] eqn:Em; [|done].
  destruct (bool_decide _ && negb active) eqn:Eo; [done|]. cbv zeta.
  intros (w1 & a1 & H1 & H)%st_bind_Ok_inv. apply st_bind_Ok_inv in H as (w2 & a2 & H2 & H).
  apply st_bind_Ok_inv in H as (w3 & a3 & H3 & H). apply sget_Ok in H3 as [-> ->]. apply st_ret_Ok' in H as [-> ->]. exists m. split_and!; [done|..].
  - intros Ho. rewrite bool_decide_eq_true_2 in Eo by done. by destruct active.
  - assert (w1 = with_members (<[(tenantId, u) := replaced_member active now m]> (sw_members w)) w) as ->.
    { unfold update_member in H1. rewrite Em, bool_decide_eq_true_2 in H1 by done. injection H1 as <- _. by destruct active. }
    destruct (nonempty externalId) as [e|] eqn:Ee.
    + eapply set_mapping_spec; [|exact H2]. destruct K as [K1 K2 K3 K4 K5]. split; cbn; try done.
      intros t v m' [[[= <- <-] _]|[_ ?]]%lookup_insert_Some; eauto.
    + apply sput_Ok in H2 as ->. apply delete_mappings_spec.
  - done.
  - cbn. destruct active, (sm_deactivatedAt m); reflexivity.
Qed.

Lemma fetchScimUser_fields baseUrl tenantId u w r :
  fetchScimUser baseUrl tenantId u w = Some r ->
  exists m, sw_members w !! (tenantId, u) = Some m /\ ur_id r = u /\ ur_active r = negb (has (sm_deactivatedAt m))
    /\ ur_externalId r = nonempty (external_id tenantId u w).
Proof.
  unfold fetchScimUser. destruct (sw_members w !! (tenantId, u)) as [m|]; [|done].
  destruct (visible_user tenantId u w) as [x|]; [|done]. destruct (nonempty (su_email x)) as [e|]; [|done].
  intros [= <-]. by exists m.
Qed.

Lemma remapped_external_id tenantId u externalId w w' :
  scim_ok w -> remapped tenantId u externalId w w' -> external_id tenantId u w' = externalId.
Proof.
  intros K (t & -> & Hu & Hv). assert (K' : scim_ok (with_mappings t w)).
  { destruct K as [K1 K2 K3 K4 K5]. split; cbn; try done. intros t' e e' v.
    destruct (decide (v = u /\ t' = tenantId)) as [[-> ->]|Hn]; [rewrite !Hu; congruence|].
    rewrite !Hv by (cbn; destruct (decide (v = u)); [right; naive_solver|by left]). apply K4. }
  apply option_eq. intros e. rewrite external_id_Some by done. cbn. rewrite Hu. done.
Qed.

(** Another spelling of a member's identifier. *)
Lemma resolve_own tenantId e v w m :
  (length e <= 255)%nat -> dbUuid e = Some v -> sw_members w !! (tenantId, v) = Some m ->
  resolveUserId dbUuid tenantId e w = Ok (Some v).
Proof.
  intros Hl Hv Hm. unfold resolveUserId. assert (Nat.ltb 255 (length e) = false) as -> by (apply Nat.ltb_ge; lia).
  by rewrite Hv, Hm.
Qed.

Lemma get_user_not_uuid baseUrl tk e w :
  (length e <= 255)%nat -> dbUuid e = None -> get_user dbUuid baseUrl (inr tk) e w = Throw BadUuid.
Proof.
  intros Hl Hd. unfold get_user, resolveUserId.
  assert (Nat.ltb 255 (length e) = false) as -> by (apply Nat.ltb_ge; lia). by rewrite Hd.
Qed.

Lemma resolve_mapping tenantId e v u w :
  (length e <= 255)%nat -> dbUuid e = Some v -> sw_members w !! (tenantId, v) = None ->
  sw_mappings w !! (tenantId, e) = Some u -> resolveUserId dbUuid tenantId e w = Ok (Some u).
Proof.
  intros Hl Hv Hm Hu. unfold resolveUserId. assert (Nat.ltb 255 (length e) = false) as -> by (apply Nat.ltb_ge; lia).
  by rewrite Hv, Hm, Hu.
Qed.

Lemma get_user_invalidate baseUrl tk j u needed succeeds w :
  get_user dbUuid baseUrl (inr tk) j (invalidate (vs_tenantId tk) u needed succeeds w) = get_user dbUuid baseUrl (inr tk) j w.
Proof. unfold invalidate. by destruct (needed && succeeds). Qed.

(** C25: on tables that keep their integrity, a full replacement of a user that answers
    the user, with nothing committed between its reads and writes, is read back: the answer
    has the requested state and external identifier, and reading the user by its own
    identifier gives the same answer.  Reading by the requested external identifier
    (of at most 255 characters, as the request's schema has it) gives it too when that
    is written as a uuid which is not another member's identifier; when it is not
    written as a uuid, it is an error of the database.  The owner of the
    tenant stays active, no other member and no other user's external identifier
    changes, and the sessions of the user end exactly when the request turns an
    active member inactive and ending them succeeds ([inv]); nobody else's end. *)
Theorem scim_user_put_roundtrip baseUrl tk b i lost inv now w w' r :
  scim_ok w -> (forall s u, dbUuid s = Some u -> length u = 36%nat) ->
  put_user dbUuid baseUrl (inr tk) w (Some b) i lost inv now w = (w', Ok (RUser (Some r))) ->
  exists m, sw_members w !! (vs_tenantId tk, ur_id r) = Some m /\ (sm_role m = OWNER -> ub_active b = true)
    /\ ur_active r = ub_active b /\ ur_externalId r = nonempty (ub_externalId b)
    /\ get_user dbUuid baseUrl (inr tk) (ur_id r) w' = Ok (RUser (Some r))
    /\ (forall e, nonempty (ub_externalId b) = Some e -> (length e <= 255)%nat ->
          (dbUuid e = None -> get_user dbUuid baseUrl (inr tk) e w' = Throw BadUuid) /\
          (forall v, dbUuid e = Some v -> v = ur_id r \/ sw_members w !! (vs_tenantId tk, v) = None ->
             get_user dbUuid baseUrl (inr tk) e w' = Ok (RUser (Some r))))
    /\ sw_members w' = <[(vs_tenantId tk, ur_id r) := replaced_member (ub_active b) now m]> (sw_members w)
    /\ (forall k v, v <> ur_id r \/ k.1 <> vs_tenantId tk -> (sw_mappings w' !! k = Some v <-> sw_mappings w !! k = Some v))
    /\ sw_invalidated w' = (if negb (ub_active b) && negb (has (sm_deactivatedAt m)) && inv then [(vs_tenantId tk, ur_id r)] else [])
                           ++ sw_invalidated w.
Proof.
  intros K H36 H. unfold put_user in H. destruct (on_user _ _ _ _ _ w) as [w1 [[u s]|e]] eqn:E; [|by destruct e].
  injection H as <- Hr. apply on_user_Ok in E as (E & Hne & _).
  apply replaceScimUser_spec in E as (m & Hm & Ho & Hmap & Hres & Hinv); [|done].
  assert (Hu : dbUuid u = Some u) by (by eapply (ok_members _ K)).
  assert (Hx : external_id (vs_tenantId tk) u w1 = nonempty (ub_externalId b)).
  { eapply remapped_external_id; [|exact Hmap]. destruct K as [K1 K2 K3 K4 K5]. split; cbn; try done.
    intros t v m' [[[= <- <-] _]|[_ ?]]%lookup_insert_Some; eauto. }
  rewrite Hres in Hr. assert (Hf := fetchScimUser_fields _ _ _ _ _ Hr). destruct Hf as (m' & Hm' & Hid & Ha & He).
  destruct Hmap as (t & -> & Ht & Hv). cbn in Hm'. rewrite lookup_insert_eq in Hm'. injection Hm' as <-.
  set (w1 := with_mappings t _) in *. subst u.
  assert (Hget : forall j, resolveUserId dbUuid (vs_tenantId tk) j w1 = Ok (Some (ur_id r)) ->
    get_user dbUuid baseUrl (inr tk) j (invalidate (vs_tenantId tk) (ur_id r) (sr_invalidate s) inv w1) = Ok (RUser (Some r))).
  { intros j Hj. rewrite get_user_invalidate. unfold get_user. rewrite Hj.
    rewrite (proj2 (nonempty_Some (Some (ur_id r)) (ur_id r))) by done. by rewrite Hr. }
  exists m. split_and!; [done|done|by rewrite Ha; destruct (ub_active b)|..].
  - rewrite He, Hx. by destruct (ub_externalId b) as [[]|].
  - apply Hget. eapply resolve_own; [by rewrite (H36 _ _ Hu); lia|done|by cbn; rewrite lookup_insert_eq].
  - intros e Hn Hl. split; [intros Hd; by apply get_user_not_uuid|].
    intros v Hd Hv'. apply Hget. destruct (decide (v = ur_id r)) as [->|Hother].
    + eapply resolve_own; [done|exact Hd|by cbn; rewrite lookup_insert_eq].
    + destruct Hv' as [?|Hnone]; [done|]. eapply resolve_mapping; [done|exact Hd| |by cbn; apply Ht].
      cbn. rewrite lookup_insert_ne; [done|]. intros [= Hv']. congruence.
  - unfold invalidate. by destruct (sr_invalidate s && inv).
  - intros k v Hk. rewrite <- (Hv k v Hk). unfold invalidate. by destruct (sr_invalidate s && inv).
  - unfold invalidate. rewrite Hinv. by destruct (_ && inv).
Qed.
End Safety.
