(* ===== verification/ScimConfinement.v ===== *)
(** * SCIM provisioning: what any request may touch

    A relation between the tables before and after, kept by every write of the
    services, hence by every request: the rows of other tenants are as they were, no
    owner is made, and a member read as an owner keeps an active membership.  Then
    the integrity of the tables along every sequence of requests, each of which may
    have read older tables than those it writes to. *)

From S2P Require Import Prelude JsString JsJson Table TenantAuth ScimPatch ScimProvisioning ScimSafety.
From stdpp Require Import fin_maps.
Local Open Scope Z_scope.
Local Open Scope js_scope.

(** ** Computations within a relation *)

Section Within.
Context (R : relation scim_world) `{!PreOrder R}.

Definition within {A} (m : stx A) : Prop := forall w, R w (fst (m w)).

Lemma within_ret {A} (a : A) : within (st_ret a).
Proof. intros w. reflexivity. Qed.
Lemma within_throw {A} e : within (A := A) (st_throw e).
Proof. intros w. reflexivity. Qed.
Lemma within_lift {A} (r : outcome scim_throw A) : within (st_lift r).
Proof. intros w. reflexivity. Qed.
Lemma within_sget : within sget.
Proof. intros w. reflexivity. Qed.
Lemma within_sguard b e : within (sguard b e).
Proof. intros w. by destruct b. Qed.
Lemma within_sput f : (forall w, R w (f w)) -> within (sput f).
Proof. intros H w. apply H. Qed.

(** The continuation may rely on the first computation having returned. *)
Lemma within_bind_Ok {A B} (m : stx A) (f : A -> stx B) :
  within m -> (forall a, (exists w w', m w = (w', Ok a)) -> within (f a)) -> within (st_bind m f).
Proof.
  intros Hm Hf w. unfold st_bind. specialize (Hm w). destruct (m w) as [w1 [a|e]] eqn:E; [|done].
  etrans; [exact Hm|]. apply Hf. eauto.
Qed.

Lemma within_bind {A B} (m : stx A) (f : A -> stx B) : within m -> (forall a, within (f a)) -> within (st_bind m f).
Proof. intros Hm Hf. apply within_bind_Ok; auto. Qed.

Lemma within_for {A} (f : A -> stx unit) l : (forall x, x ∈ l -> within (f x)) -> within (st_for f l).
Proof.
  induction l as [|x l IH]; intros H; cbn; [apply within_ret|].
  apply within_bind; [apply H; set_solver|]. intros _. apply IH. set_solver.
Qed.

Lemma within_transaction {A} (m : stx A) : within m -> within (scim_transaction m).
Proof. intros H w. specialize (H w). unfold scim_transaction. by destruct (m w) as [w1 [a|e]]. Qed.
End Within.

(** Through the structure of a computation, down to its writes. *)
Ltac within_steps :=
  cbv zeta;
  repeat match goal with
  | |- within _ (st_ret _) => apply within_ret; apply _
  | |- within _ (st_throw _) => apply within_throw; apply _
  | |- within _ (st_lift _) => apply within_lift; apply _
  | |- within _ sget => apply within_sget; apply _
  | |- within _ (sguard _ _) => apply within_sguard; apply _
  | |- within _ (scim_transaction _) => apply within_transaction; [apply _|]
  | |- within _ (st_bind _ _) => apply within_bind; [apply _| |intros ?; cbv zeta]
  | |- within _ (st_for _ _) => apply within_for; [apply _|intros ? ?]
  | |- within _ (sput _) => apply within_sput; intros ?
  end.

(** ** The relation *)

(** [w_r]: the tables the request read. *)
Record confined (tenantId : jsstr) (w_r w w' : scim_world) : Prop := {
  cf_members : forall t u, t <> tenantId -> sw_members w' !! (t, u) = sw_members w !! (t, u);
  cf_mappings : forall t e, t <> tenantId -> sw_mappings w' !! (t, e) = sw_mappings w !! (t, e);
  cf_groups : forall t e, t <> tenantId -> sw_groups w' !! (t, e) = sw_groups w !! (t, e);
  cf_rows : forall k r, tr_tenantId r <> tenantId -> (sw_teamMembers w' !! k = Some r <-> sw_teamMembers w !! k = Some r);
  cf_users : forall u x, su_tenantId x <> tenantId -> (sw_users w' !! u = Some x <-> sw_users w !! u = Some x);
  cf_keys : forall k x, mk_tenantId x <> tenantId -> (sw_teamMemberKeys w' !! k = Some x <-> sw_teamMemberKeys w !! k = Some x);
  cf_teams : sw_teams w' = sw_teams w;
  cf_tokens : sw_tokens w' = sw_tokens w;
  cf_invalidated : exists l, sw_invalidated w' = l ++ sw_invalidated w /\ Forall (fun p => p.1 = tenantId) l;
  cf_owner : forall u m', sw_members w' !! (tenantId, u) = Some m' -> sm_role m' = OWNER ->
    exists m, sw_members w !! (tenantId, u) = Some m /\ sm_role m = OWNER;
  cf_row_owner : forall k r', sw_teamMembers w' !! k = Some r' -> tr_role r' = TEAM_OWNER ->
    exists r, sw_teamMembers w !! k = Some r /\ tr_role r = TEAM_OWNER;
  cf_protected : forall u m0 m, sw_members w_r !! (tenantId, u) = Some m0 -> sm_role m0 = OWNER ->
    sw_members w !! (tenantId, u) = Some m -> sm_deactivatedAt m = None ->
    exists m', sw_members w' !! (tenantId, u) = Some m' /\ sm_deactivatedAt m' = None /\ sm_role m' = sm_role m }.

Section Confined.
Context (tenantId : jsstr) (w_r : scim_world).
Local Abbreviation C := (confined tenantId w_r).

#[export] Instance confined_PreOrder : PreOrder C.
Proof.
  split.
  - intros w. split; first [done | by exists [] | by eauto].
  - intros w1 w2 w3 H H'. split.
    + intros. by rewrite (cf_members _ _ _ _ H'), (cf_members _ _ _ _ H).
    + intros. by rewrite (cf_mappings _ _ _ _ H'), (cf_mappings _ _ _ _ H).
    + intros. by rewrite (cf_groups _ _ _ _ H'), (cf_groups _ _ _ _ H).
    + intros. by rewrite (cf_rows _ _ _ _ H'), (cf_rows _ _ _ _ H).
    + intros. by rewrite (cf_users _ _ _ _ H'), (cf_users _ _ _ _ H).
    + intros. by rewrite (cf_keys _ _ _ _ H'), (cf_keys _ _ _ _ H).
    + by rewrite (cf_teams _ _ _ _ H'), (cf_teams _ _ _ _ H).
    + by rewrite (cf_tokens _ _ _ _ H'), (cf_tokens _ _ _ _ H).
    + destruct (cf_invalidated _ _ _ _ H) as (l & E & Hl), (cf_invalidated _ _ _ _ H') as (l' & E' & Hl').
      exists (l' ++ l). by rewrite E', E, app_assoc, Forall_app.
    + intros u m' Hm Ho. destruct (cf_owner _ _ _ _ H' u m' Hm Ho) as (m & Hm2 & Ho2). by eapply (cf_owner _ _ _ _ H).
    + intros k r' Hr Ho. destruct (cf_row_owner _ _ _ _ H' k r' Hr Ho) as (r & Hr2 & Ho2). by eapply (cf_row_owner _ _ _ _ H).
    + intros u m0 m H0 Ho Hm Ha. destruct (cf_protected _ _ _ _ H u m0 m H0 Ho Hm Ha) as (m2 & Hm2 & Ha2 & E2).
      destruct (cf_protected _ _ _ _ H' u m0 m2 H0 Ho Hm2 Ha2) as (m3 & ? & ? & ?). exists m3. split_and!; congruence.
Qed.

Ltac frame := split; cbn; first [done | by exists [] | by eauto | idtac].

(** A write of one table. *)
Lemma confined_mappings t w : (forall t' e, t' <> tenantId -> t !! (t', e) = sw_mappings w !! (t', e)) -> C w (with_mappings t w).
Proof. intros H. frame. Qed.

Lemma confined_groups t w : (forall t' e, t' <> tenantId -> t !! (t', e) = sw_groups w !! (t', e)) -> C w (with_groups t w).
Proof. intros H. frame. Qed.

Lemma confined_users t w : (forall u x, su_tenantId x <> tenantId -> (t !! u = Some x <-> sw_users w !! u = Some x)) -> C w (with_users t w).
Proof. intros H. frame. Qed.

Lemma confined_keys t w :
  (forall k x, mk_tenantId x <> tenantId -> (t !! k = Some x <-> sw_teamMemberKeys w !! k = Some x)) -> C w (with_teamMemberKeys t w).
Proof. intros H. frame. Qed.

Lemma confined_rows t w :
  (forall k r, tr_tenantId r <> tenantId -> (t !! k = Some r <-> sw_teamMembers w !! k = Some r)) ->
  (forall k r', t !! k = Some r' -> tr_role r' = TEAM_OWNER -> exists r, sw_teamMembers w !! k = Some r /\ tr_role r = TEAM_OWNER) ->
  C w (with_teamMembers t w).
Proof. intros H H'. frame. Qed.

Lemma confined_insert_member u m w :
  (sm_role m = OWNER -> exists m0, sw_members w !! (tenantId, u) = Some m0 /\ sm_role m0 = OWNER) ->
  (forall m0 m1, sw_members w_r !! (tenantId, u) = Some m0 -> sm_role m0 = OWNER ->
     sw_members w !! (tenantId, u) = Some m1 -> sm_deactivatedAt m1 = None -> sm_deactivatedAt m = None /\ sm_role m = sm_role m1) ->
  C w (with_members (<[(tenantId, u) := m]> (sw_members w)) w).
Proof.
  intros Ho Hp. frame.
  - intros t v Ht. rewrite lookup_insert_ne; [done|congruence].
  - intros v m' Hm Hr. destruct (decide (v = u)) as [->|Hne].
    + rewrite lookup_insert_eq in Hm. injection Hm as <-. auto.
    + rewrite lookup_insert_ne in Hm by congruence. eauto.
  - intros v m0 m1 H0 Hr H1 Ha. destruct (decide (v = u)) as [->|Hne].
    + exists m. rewrite lookup_insert_eq. split; [done|]. eauto.
    + exists m1. by rewrite lookup_insert_ne by congruence.
Qed.

Lemma confined_delete_member u w :
  (forall m0, sw_members w_r !! (tenantId, u) = Some m0 -> sm_role m0 <> OWNER) ->
  C w (with_members (delete (tenantId, u) (sw_members w)) w).
Proof.
  intros Hp. frame.
  - intros t v Ht. rewrite lookup_delete_ne; [done|congruence].
  - intros v m' [Hn Hm]%lookup_delete_Some Hr. eauto.
  - intros v m0 m1 H0 Hr H1 Ha. exists m1. rewrite lookup_delete_ne; [done|]. intros [= ->]. by apply (Hp m0).
Qed.

Lemma confined_invalidate u needed succeeds w : C w (invalidate tenantId u needed succeeds w).
Proof.
  unfold invalidate. destruct (needed && succeeds); [|reflexivity].
  frame. exists [(tenantId, u)]. split; [done|by constructor].
Qed.

(** ** The writes of the services *)

(** A deactivation is only asked of a member not read as an owner. *)
Lemma within_update_member u i d now :
  (forall m0 x, sw_members w_r !! (tenantId, u) = Some m0 -> sm_role m0 = OWNER -> d <> Some (Some x)) ->
  within C (update_member tenantId u i d now).
Proof.
  intros Hd w. unfold update_member. destruct (sw_members w !! (tenantId, u)) as [m|] eqn:E; [|reflexivity].
  destruct (sm_id m =s i); [|reflexivity]. apply confined_insert_member; cbn; [eauto|].
  intros m0 m1 H0 Ho H1 Ha. assert (m1 = m) as -> by congruence. split; [|done].
  destruct d as [[x|]|]; [by destruct (Hd m0 x)|done..].
Qed.

Lemma confined_delete_mappings u w : C w (delete_mappings tenantId u w).
Proof.
  apply confined_mappings. intros t e Ht. apply option_eq. intros v. rewrite map_lookup_filter_Some. cbn. naive_solver.
Qed.

Lemma within_set_mapping u e lost : within C (set_mapping tenantId u e lost).
Proof.
  intros w. unfold set_mapping. destruct (sw_mappings w !! (tenantId, e)) as [i|]; [destruct (i =s u); reflexivity|].
  destruct lost; [reflexivity|]. cbn [fst].
  etrans; [apply (confined_delete_mappings u)|]. apply confined_mappings. intros t e' Ht.
  rewrite lookup_insert_ne; [done|congruence].
Qed.

Lemma within_create_row newId teamId role u : role <> TEAM_OWNER -> within C (create_row newId tenantId teamId role u).
Proof.
  intros Hr w. unfold create_row. destruct (sw_teamMembers w !! (teamId, u)) eqn:E; [reflexivity|]. cbn.
  apply confined_rows.
  - intros k r Ht. rewrite lookup_insert_Some. split; [intros [[<- <-]|[_ ?]]|intros Hk; right]; [done..|].
    split; [congruence|done].
  - intros k r [[<- <-]|[_ ?]]%lookup_insert_Some Ho; [done|eauto].
Qed.

Lemma confined_update_rows rows f w :
  (forall r, tr_tenantId (f r) = tr_tenantId r) -> (forall r, tr_role (f r) = TEAM_OWNER -> tr_role r = TEAM_OWNER) ->
  C w (update_rows tenantId rows f w).
Proof.
  intros Ht Hr. assert (Hk := update_rows_lookup tenantId rows f w). unfold update_rows in *. cbn in Hk. apply confined_rows; intros k r.
  - intros Hne. rewrite Hk. destruct (sw_teamMembers w !! k) as [r0|]; cbn; [|done].
    destruct (tr_tenantId r0 =s tenantId) eqn:E; rewrite ?andb_false_r; [|done]. apply bool_decide_eq_true in E.
    split; [|congruence]. rewrite andb_true_r. case_bool_decide; intros [= <-]; [|done]. by rewrite Ht in Hne.
  - rewrite Hk. destruct (sw_teamMembers w !! k) as [r0|]; cbn; [|done]. destruct (_ && _); intros [= <-]; eauto.
Qed.

(** ** Groups *)

Section Groups.
Context (dbUuid : jsstr -> option jsstr) (baseUrl : jsstr).

Lemma within_applyAdd newId teamId role userIds :
  role <> TEAM_OWNER -> within C (applyAddOperations dbUuid w_r newId tenantId teamId role userIds).
Proof.
  intros Hr. unfold applyAddOperations. destruct userIds as [|u us]; within_steps.
  - by apply within_create_row.
  - apply confined_update_rows; [done|]. by cbn.
Qed.

Lemma within_applyRemove teamId role rows now : within C (applyRemoveOperations tenantId teamId role rows now).
Proof. unfold applyRemoveOperations. destruct rows; within_steps. by apply confined_update_rows. Qed.

Lemma within_replaceScimGroup newId scimId displayName ids now :
  within C (replaceScimGroup dbUuid baseUrl w_r newId tenantId scimId displayName ids now).
Proof.
  unfold replaceScimGroup, runReplace. destruct (find_group tenantId scimId w_r) as [[g slug]|]; within_steps.
  destruct (negb _); within_steps. case_bool_decide; within_steps; [by apply within_applyAdd|apply within_applyRemove].
Qed.

Lemma within_patchScimGroup newId scimId ops now :
  (forall k g, sw_groups w_r !! k = Some g -> gm_role g <> TEAM_OWNER) ->
  within C (patchScimGroup dbUuid baseUrl w_r newId tenantId scimId ops now).
Proof.
  intros Hr. unfold patchScimGroup, runPatch, find_group.
  destruct (sw_groups w_r !! (tenantId, scimId)) as [g|] eqn:E; cbn; within_steps; [by apply within_applyAdd; eauto|].
  destruct (remove_ids ops); within_steps. apply within_applyRemove.
Qed.

End Groups.

(** ** Users *)

Section Users.
Context (baseUrl : jsstr).

Lemma within_replaceScimUser u active e lost now : within C (replaceScimUser baseUrl w_r tenantId u active e lost now).
Proof.
  unfold replaceScimUser. destruct (sw_members w_r !! (tenantId, u)) as [m|] eqn:E; within_steps.
  destruct (bool_decide (sm_role m = OWNER) && negb active) eqn:Eo; within_steps.
  - apply within_update_member. intros m0 x H0 Ho. assert (m0 = m) as -> by congruence.
    rewrite bool_decide_eq_true_2 in Eo by done. by destruct active.
  - destruct (nonempty e); [apply within_set_mapping|within_steps; apply confined_delete_mappings].
Qed.

Lemma within_patchScimUser u ops now : within C (patchScimUser baseUrl w_r tenantId u ops now).
Proof.
  unfold patchScimUser. destruct (sw_members w_r !! (tenantId, u)) as [m|] eqn:E; within_steps.
  destruct (bool_decide (sm_role m = OWNER) && _) eqn:Eo; within_steps.
  apply within_update_member. intros m0 x H0 Ho. assert (m0 = m) as -> by congruence.
  rewrite bool_decide_eq_true_2 in Eo by done. by destruct (up_active ops) as [[]|].
Qed.

Lemma within_deactivateScimUser u refused : within C (deactivateScimUser w_r tenantId u refused).
Proof.
  unfold deactivateScimUser. destruct (sw_members w_r !! (tenantId, u)) as [m|] eqn:E; within_steps.
  case_bool_decide as Ho; within_steps.
  - apply confined_keys. intros k x Hx. rewrite map_lookup_filter_Some. cbn. naive_solver.
  - apply confined_delete_mappings.
  - apply confined_rows; [intros k r Hr; rewrite map_lookup_filter_Some; cbn; naive_solver|].
    intros k r [Hk _]%map_lookup_filter_Some Hr. eauto.
  - match goal with |- context [sw_members ?w !! _] => destruct (sw_members w !! (tenantId, u)) end; within_steps.
    apply confined_delete_member. intros m0 H0. congruence.
Qed.

Lemma within_create_tx b userId memberId lost now : within C (create_tx baseUrl w_r tenantId b userId memberId lost now).
Proof.
  unfold create_tx. within_steps.
  - destruct (List.find _ _) as [[i u]|]; within_steps. intros w. destruct (_ || _) eqn:E; [reflexivity|].
    apply orb_false_iff in E as [_ E]. cbn. apply confined_users. intros v x Hx.
    destruct (sw_users w !! userId) eqn:Eu; [done|]. rewrite lookup_insert_Some. naive_solver.
  - destruct a as [i u]. within_steps.
    + intros w. destruct (sw_members w !! (tenantId, i)) eqn:E; [reflexivity|]. cbn.
      destruct (negb _); [reflexivity|]. apply confined_insert_member; cbn; [done|]. intros. congruence.
    + destruct (nonempty (ub_externalId b)); [apply within_set_mapping|within_steps].
Qed.

End Users.
End Confined.

(** ** Requests *)

(** The requests that may write; [userId], [memberId] and [newId] are generated
    identifiers, the flags the outcomes of races and of other components. *)
Inductive scim_request :=
| PostUser (b : option scim_user_body) (userId memberId : jsstr) (lost : bool)
| PutUser (b : option scim_user_body) (id : jsstr) (lost invalidates : bool)
| PatchUser (ops : option (list ScimPatchOperation)) (id : jsstr) (invalidates : bool)
| DeleteUser (id : jsstr) (refused invalidates : bool)
| PostGroup (b : option scim_group_body)
| PutGroup (b : option scim_group_body) (id : jsstr) (newId : jsstr -> jsstr)
| PatchGroup (ops : option (list ScimPatchOperation)) (id : jsstr) (newId : jsstr -> jsstr)
| DeleteGroup (id : jsstr).

Section Requests.
Context (dbUuid : jsstr -> option jsstr) (baseUrl : jsstr).

Definition scim_handle (auth : scim_error + ValidatedScimToken) (w_r : scim_world) (rq : scim_request) (now : Z) : stx scim_response :=
  match rq with
  | PostUser b userId memberId lost => post_users baseUrl auth w_r b userId memberId lost now
  | PutUser b id lost invalidates => put_user dbUuid baseUrl auth w_r b id lost invalidates now
  | PatchUser ops id invalidates => patch_user dbUuid baseUrl auth w_r ops id invalidates now
  | DeleteUser id refused invalidates => delete_user dbUuid auth w_r id refused invalidates
  | PostGroup b => post_groups baseUrl auth w_r b
  | PutGroup b id newId => put_group dbUuid baseUrl auth w_r b id newId now
  | PatchGroup ops id newId => patch_group dbUuid baseUrl auth w_r ops id newId now
  | DeleteGroup _ => st_ret (delete_group auth)
  end.

Definition refusal (x : outcome scim_throw scim_response) : bool :=
  match x with Throw _ | Ok (RError _) => true | _ => false end.

Lemma parsed_role_not_owner d slug role : parseRoleFromDisplayName d slug = Some role -> role <> TEAM_OWNER.
Proof.
  unfold parseRoleFromDisplayName. destruct (nonempty _); [|done]. destruct (display_parts d) as [[a b]|]; [|done].
  destruct (_ =s _); [|done]. intros [Hin _]%find_some. unfold SCIM_GROUP_ROLES in Hin. cbn in Hin. naive_solver.
Qed.

Lemma within_post_groups (R : relation scim_world) `{!PreOrder R} tk w_r b :
  (forall e g w, sw_groups w !! (vs_tenantId tk, e) = None -> gm_role g <> TEAM_OWNER ->
     R w (with_groups (<[(vs_tenantId tk, e) := g]> (sw_groups w)) w)) ->
  within R (post_groups baseUrl (inr tk) w_r b).
Proof.
  intros Hg. unfold post_groups. destruct b as [b|]; within_steps. destruct (nonempty _) as [e|]; within_steps.
  destruct (Nat.eqb _ 0); within_steps. destruct (display_parts _) as [[sl ro]|]; within_steps.
  destruct (find_by _ _) as [[teamId tm]|]; within_steps.
  destruct (parseRoleFromDisplayName _ _) as [role|] eqn:Er; within_steps. apply parsed_role_not_owner in Er.
  destruct (sw_groups w_r !! _) as [g|].
  - destruct (_ || _); within_steps. intros w. reflexivity.
  - intros w. destruct (sw_groups w !! _) eqn:E; [reflexivity|]. cbn. by apply Hg.
Qed.

(** A relation that the transactions and the invalidation keep is kept by every
    request. *)
Lemma handle_within (R : relation scim_world) `{!PreOrder R} tk w_r rq now :
  (forall b userId memberId lost, rq = PostUser b userId memberId lost -> forall b', 
     within R (create_tx baseUrl w_r (vs_tenantId tk) b' userId memberId lost now)) ->
  (forall u active e lost, within R (replaceScimUser baseUrl w_r (vs_tenantId tk) u active e lost now)) ->
  (forall u ops, within R (patchScimUser baseUrl w_r (vs_tenantId tk) u ops now)) ->
  (forall u refused, within R (deactivateScimUser w_r (vs_tenantId tk) u refused)) ->
  (forall e g w, sw_groups w !! (vs_tenantId tk, e) = None -> gm_role g <> TEAM_OWNER ->
     R w (with_groups (<[(vs_tenantId tk, e) := g]> (sw_groups w)) w)) ->
  (forall newId scimId d ids, within R (replaceScimGroup dbUuid baseUrl w_r newId (vs_tenantId tk) scimId d ids now)) ->
  (forall newId scimId ops, within R (patchScimGroup dbUuid baseUrl w_r newId (vs_tenantId tk) scimId ops now)) ->
  (forall u needed succeeds w, R w (invalidate (vs_tenantId tk) u needed succeeds w)) ->
  within R (scim_handle (inr tk) w_r rq now).
Proof.
  intros Hc Hr Hp Hd Hg Hgr Hgp Hi.
  assert (Hon : forall A scimId (service : jsstr -> stx A), (forall u, within R (service u)) ->
                within R (on_user dbUuid w_r (vs_tenantId tk) scimId service)).
  { intros A scimId service H. unfold on_user. within_steps. destruct (nonempty a); within_steps. apply H. }
  destruct rq as [b userId memberId lost|b i lost inv|ops i inv|i refused inv|b|b i newId|ops i newId|i]; cbn; within_steps.
  - destruct b as [b|]; [|apply within_ret, _]. intros w. pose proof (within_transaction R _ (Hc _ _ _ _ eq_refl b) w) as H. cbn.
    by destruct (scim_transaction _ w) as [w' [r|[]]].
  - destruct b as [b|]; [|apply within_ret, _]. intros w. cbn.
    match goal with |- context [on_user _ _ _ _ ?s w] => pose proof (Hon _ i s (fun u => Hr u _ _ _) w) as H end.
    destruct (on_user _ _ _ _ _ w) as [w' [[u r]|e]]; [etrans; [exact H|apply Hi]|exact H].
  - destruct ops as [ops|]; [|apply within_ret, _]. unfold patch_user. destruct (_ || _); [apply within_ret, _|].
    destruct (parseUserPatchOps ops) as [p|]; [|apply within_ret, _]. intros w.
    match goal with |- context [on_user _ _ _ _ ?s w] => pose proof (Hon _ i s (fun u => Hp u _) w) as H end.
    destruct (on_user _ _ _ _ _ w) as [w' [[u r]|e]]; [etrans; [exact H|apply Hi]|exact H].
  - intros w. match goal with |- context [on_user _ _ _ _ ?s w] => pose proof (Hon _ i s (fun u => Hd u _) w) as H end.
    destruct (on_user _ _ _ _ _ w) as [w' [[u r]|e]]; [etrans; [exact H|apply Hi]|exact H].
  - by apply within_post_groups.
  - destruct b as [b|]; [|apply within_ret, _]. intros w. cbn.
    match goal with |- context [scim_transaction ?s w] => assert (H : within R (scim_transaction s)) by (apply within_transaction; [apply _|apply Hgr]) end.
    specialize (H w). by destruct (scim_transaction _ w) as [w' [[r n]|e]].
  - destruct ops as [ops|]; [|apply within_ret, _]. unfold patch_group. destruct (_ || _); [apply within_ret, _|].
    destruct (parseGroupPatchOps ops) as [p|]; [|apply within_ret, _]. intros w. cbn.
    match goal with |- context [scim_transaction ?s w] => assert (H : within R (scim_transaction s)) by (apply within_transaction; [apply _|apply Hgp]) end.
    specialize (H w). by destruct (scim_transaction _ w) as [w' [r|e]].
Qed.

(** A request that is refused or fails leaves the tables as they were. *)
Ltac refused_done H :=
  first [ by injection H as <- _
        | match type of H with context [scim_transaction ?m ?w] =>
            let E := fresh "E" in let e := fresh "e" in let a := fresh "a" in
            destruct (scim_transaction m w) as [? [a|e]] eqn:E;
            [by first [injection H as <- <- | destruct a; injection H as <- <-]
            |apply scim_transaction_Throw in E as ->; by first [injection H as <- _ | destruct e; injection H as <- _]] end ].

Lemma user_refused auth w_r rq now w w' x :
  match rq with PostUser _ _ _ _ | PutUser _ _ _ _ | PatchUser _ _ _ | DeleteUser _ _ _ => True | _ => False end ->
  scim_handle auth w_r rq now w = (w', x) -> refusal x = true -> w' = w.
Proof.
  intros Hk H Hx. destruct rq as [b u m l|b i l v|ops i v|i f v|b|b i n|ops i n|i]; try done; cbn in H;
    unfold post_users, put_user, patch_user, delete_user, on_user in H; destruct auth as [e|tk]; try refused_done H.
  - destruct b as [b|]; refused_done H.
  - destruct b as [b|]; refused_done H.
  - destruct ops as [ops|]; [|refused_done H]. destruct (_ || _); [refused_done H|].
    destruct (parseUserPatchOps ops); refused_done H.
Qed.

Lemma handle_refused auth w_r rq now w w' x : scim_handle auth w_r rq now w = (w', x) -> refusal x = true -> w' = w.
Proof.
  intros H Hx. destruct rq as [b u m l|b i l v|ops i v|i f v|b|b i n|ops i n|i]; try (by eapply (user_refused auth w_r _ now); [|exact H|]); cbn in H;
    unfold post_groups, put_group, patch_group in H; destruct auth as [e|tk]; try refused_done H.
  - destruct b as [b|]; [|refused_done H]. destruct (nonempty _) as [e|]; [|refused_done H].
    destruct (Nat.eqb _ 0); [refused_done H|]. destruct (display_parts _) as [[sl ro]|]; [|refused_done H].
    destruct (find_by _ _) as [[teamId tm]|]; [|refused_done H].
    destruct (parseRoleFromDisplayName _ _) as [role|]; [|refused_done H]. unfold scim_transaction in H. cbv zeta in H.
    destruct (sw_groups w_r !! _) as [g|]; [destruct (_ || _); by injection H as <- _|].
    destruct (has _); injection H as <- <-; done.
  - destruct b as [b|]; refused_done H.
  - destruct ops as [ops|]; [|refused_done H]. destruct (_ || _); [refused_done H|].
    destruct (parseGroupPatchOps ops); refused_done H.
Qed.

Lemma handle_confined tk w_r rq now w :
  scim_ok dbUuid w_r -> confined (vs_tenantId tk) w_r w (fst (scim_handle (inr tk) w_r rq now w)).
Proof.
  intros K. apply (handle_within (confined (vs_tenantId tk) w_r)); intros.
  - apply within_create_tx.
  - apply within_replaceScimUser.
  - apply within_patchScimUser.
  - apply within_deactivateScimUser.
  - apply confined_groups. intros t e' Ht. rewrite lookup_insert_ne; [done|congruence].
  - apply within_replaceScimGroup.
  - apply within_patchScimGroup. apply (ok_groups _ _ K).
  - apply confined_invalidate.
Qed.

(** ** Integrity along every run *)

Definition keeps_ok (w w' : scim_world) : Prop := scim_ok dbUuid w -> scim_ok dbUuid w'.

#[local] Instance keeps_ok_PreOrder : PreOrder keeps_ok.
Proof. split; [by intros w K|]. intros w1 w2 w3 H H' K. by apply H', H. Qed.

Lemma ok_with_members t w :
  (forall t' u m, t !! (t', u) = Some m -> is_Some (sw_members w !! (t', u)) \/ dbUuid u = Some u) -> keeps_ok w (with_members t w).
Proof. intros H [Hu Hm Ht Hp Hg]. split; cbn; try done. intros t' u m [[m' E]|E]%H; eauto. Qed.

Lemma ok_with_teamMembers t w :
  (forall g u r, t !! (g, u) = Some r -> is_Some (sw_teamMembers w !! (g, u)) \/ dbUuid u = Some u) -> keeps_ok w (with_teamMembers t w).
Proof. intros H [Hu Hm Ht Hp Hg]. split; cbn; try done. intros g u r [[r' E]|E]%H; eauto. Qed.

Lemma ok_with_mappings t w :
  (scim_ok dbUuid w -> forall t' e e' u, t !! (t', e) = Some u -> t !! (t', e') = Some u -> e = e') -> keeps_ok w (with_mappings t w).
Proof. intros H K. specialize (H K). destruct K as [Hu Hm Ht Hp Hg]. by split. Qed.

Lemma ok_delete_mappings tenantId u w : keeps_ok w (delete_mappings tenantId u w).
Proof.
  apply ok_with_mappings. intros K t e e' v [H1 _]%map_lookup_filter_Some [H2 _]%map_lookup_filter_Some.
  by eapply (ok_mappings _ _ K).
Qed.

Lemma ok_set_mapping tenantId u e lost : within keeps_ok (set_mapping tenantId u e lost).
Proof.
  intros w. unfold set_mapping. destruct (sw_mappings w !! (tenantId, e)) as [i|]; [destruct (i =s u); reflexivity|].
  destruct lost; [reflexivity|]. cbn [fst]. etrans; [apply (ok_delete_mappings tenantId u)|].
  set (w1 := delete_mappings _ _ _). apply ok_with_mappings. intros K t a b v Ha Hb.
  assert (Hn : forall c, sw_mappings w1 !! (tenantId, c) <> Some u).
  { intros c [_ H]%map_lookup_filter_Some. by apply H. }
  apply lookup_insert_Some in Ha as [[Ea Ev]|[_ Ha]], Hb as [[Eb Ev']|[_ Hb]].
  - congruence.
  - injection Ea as <- <-. subst v. by apply Hn in Hb.
  - injection Eb as <- <-. subst v. by apply Hn in Ha.
  - by eapply (ok_mappings _ _ K).
Qed.

Lemma ok_update_member tenantId u i d now : within keeps_ok (update_member tenantId u i d now).
Proof.
  intros w. unfold update_member. destruct (sw_members w !! (tenantId, u)) as [m|] eqn:E; [|reflexivity].
  destruct (sm_id m =s i); [|reflexivity]. apply ok_with_members. intros t v m' [[[= <- <-] _]|[_ ?]]%lookup_insert_Some; eauto.
Qed.

Lemma ok_update_rows tenantId rows f w : keeps_ok w (update_rows tenantId rows f w).
Proof.
  assert (Hk := update_rows_lookup tenantId rows f w). unfold update_rows in *. cbn in Hk.
  apply ok_with_teamMembers. intros g u r H. rewrite Hk in H. apply fmap_Some in H as (r0 & -> & _). eauto.
Qed.

Lemma ok_create_row newId tenantId teamId role u : dbUuid u = Some u -> within keeps_ok (create_row newId tenantId teamId role u).
Proof.
  intros Hu w. unfold create_row. destruct (has _); [reflexivity|].
  apply ok_with_teamMembers. intros g v r [[[= <- <-] _]|[_ ?]]%lookup_insert_Some; eauto.
Qed.

Section Reads.
Context (w_r : scim_world) (K : scim_ok dbUuid w_r) (tenantId : jsstr) (now : Z).

Lemma ok_applyAdd newId teamId role userIds : within keeps_ok (applyAddOperations dbUuid w_r newId tenantId teamId role userIds).
Proof.
  unfold applyAddOperations. destruct userIds as [|u0 us] eqn:Eu; [within_steps|]. rewrite <- Eu. clear Eu u0 us. cbv zeta.
  do 2 (apply within_bind; [apply _|within_steps|intros _]). apply within_bind_Ok; [apply _|within_steps|].
  intros ? (w0 & w1 & (_ & Hact)%st_for_sguard). within_steps.
  - apply ok_create_row. destruct (additions_split _ w_r tenantId teamId userIds K Hact) as (Hcan & _).
    apply Hcan. by apply list_elem_of_In, List.filter_In, proj1, list_elem_of_In in H.
  - apply ok_update_rows.
Qed.

Lemma ok_applyRemove teamId role rows : within keeps_ok (applyRemoveOperations tenantId teamId role rows now).
Proof. unfold applyRemoveOperations. destruct rows; within_steps. apply ok_update_rows. Qed.

Lemma ok_replaceScimGroup newId scimId d ids : within keeps_ok (replaceScimGroup dbUuid baseUrl w_r newId tenantId scimId d ids now).
Proof.
  unfold replaceScimGroup, runReplace. destruct (find_group tenantId scimId w_r) as [[g slug]|]; within_steps.
  destruct (negb _); within_steps. case_bool_decide; within_steps; [apply ok_applyAdd|apply ok_applyRemove].
Qed.

Lemma ok_patchScimGroup newId scimId ops : within keeps_ok (patchScimGroup dbUuid baseUrl w_r newId tenantId scimId ops now).
Proof.
  unfold patchScimGroup, runPatch. destruct (find_group tenantId scimId w_r) as [[g slug]|]; within_steps; [apply ok_applyAdd|].
  destruct (remove_ids ops); within_steps. apply ok_applyRemove.
Qed.

Lemma ok_replaceScimUser u active e lost : within keeps_ok (replaceScimUser baseUrl w_r tenantId u active e lost now).
Proof.
  unfold replaceScimUser. destruct (sw_members w_r !! _); within_steps. destruct (_ && _); within_steps; [apply ok_update_member|].
  destruct (nonempty e); [apply ok_set_mapping|within_steps; apply ok_delete_mappings].
Qed.

Lemma ok_patchScimUser u ops : within keeps_ok (patchScimUser baseUrl w_r tenantId u ops now).
Proof.
  unfold patchScimUser. destruct (sw_members w_r !! _); within_steps. destruct (_ && _); within_steps. apply ok_update_member.
Qed.

Lemma ok_deactivateScimUser u refused : within keeps_ok (deactivateScimUser w_r tenantId u refused).
Proof.
  unfold deactivateScimUser. destruct (sw_members w_r !! _); within_steps. case_bool_decide; within_steps.
  - intros []. by split.
  - apply ok_delete_mappings.
  - apply ok_with_teamMembers. intros g v r [Hr _]%map_lookup_filter_Some. eauto.
  - match goal with |- context [sw_members ?w !! _] => destruct (sw_members w !! (tenantId, u)) end; within_steps.
    apply ok_with_members. intros t' v m [_ Hm]%lookup_delete_Some. eauto.
Qed.

Lemma ok_create_tx b userId memberId lost :
  dbUuid userId = Some userId -> within keeps_ok (create_tx baseUrl w_r tenantId b userId memberId lost now).
Proof.
  intros Hid. unfold create_tx. apply within_bind_Ok; [apply _|..].
  - destruct (List.find _ _) as [[i u]|]; within_steps. intros w. destruct (_ || _); [reflexivity|]. intros [Hu Hm Ht Hp Hg].
    split; cbn; try done. intros v x [[<- _]|[_ ?]]%lookup_insert_Some; eauto.
  - intros [i u] (w0 & w1 & H).
    assert (Hi : dbUuid i = Some i).
    { destruct (List.find _ _) as [[j v]|] eqn:E.
      - apply st_ret_Ok' in H as [_ [= -> ->]]. apply find_some in E as [E _]. apply list_elem_of_In, elem_of_map_to_list in E.
        by eapply (ok_users _ _ K).
      - destruct (_ || _) in H; by simplify_eq. }
    within_steps; [|destruct (nonempty _); [apply ok_set_mapping|within_steps]].
    intros w. destruct (has _); [reflexivity|]. destruct (negb _); [reflexivity|].
    apply ok_with_members. intros t v m [[[= <- <-] _]|[_ ?]]%lookup_insert_Some; eauto.
Qed.
End Reads.

(** The generated identifiers are uuids as the column gives them back. *)
Definition generated (rq : scim_request) : Prop :=
  match rq with PostUser _ userId _ _ => dbUuid userId = Some userId | _ => True end.

Lemma handle_keeps_ok auth w_r rq now w : scim_ok dbUuid w_r -> generated rq -> keeps_ok w (fst (scim_handle auth w_r rq now w)).
Proof.
  intros K Hq. destruct auth as [e|tk]; [by destruct rq|].
  apply (handle_within keeps_ok); intros.
  - subst rq. by apply ok_create_tx.
  - by apply ok_replaceScimUser.
  - by apply ok_patchScimUser.
  - by apply ok_deactivateScimUser.
  - intros [Hu Hm Ht Hp Hg]. split; cbn; try done. intros k g' [[_ <-]|[_ ?]]%lookup_insert_Some; eauto.
  - by apply ok_replaceScimGroup.
  - by apply ok_patchScimGroup.
  - unfold invalidate. destruct (_ && _); [|reflexivity]. intros []. by split.
Qed.

(** The tables over time, newest first: each request works on the newest and may
    have read any; other transactions keep the integrity. *)
Inductive scim_run : list scim_world -> Prop :=
| run_start w : scim_ok dbUuid w -> scim_run [w]
| run_other w w' h : scim_run (w :: h) -> keeps_ok w w' -> scim_run (w' :: w :: h)
| run_request auth w_r rq now w w' x h :
    scim_run (w :: h) -> w_r ∈ w :: h -> generated rq -> scim_handle auth w_r rq now w = (w', x) -> scim_run (w' :: w :: h).

Lemma scim_run_ok h : scim_run h -> Forall (scim_ok dbUuid) h.
Proof.
  induction 1 as [w K|w w' h H IH Hk|auth w_r rq now w w' x h H IH Hr Hq E].
  - by apply Forall_singleton.
  - apply Forall_cons. split; [|done]. apply Hk. by apply Forall_cons in IH as [? _].
  - apply Forall_cons. split; [|done]. assert (K := IH). apply Forall_cons in K as [K _]. rewrite Forall_forall in IH.
    pose proof (handle_keeps_ok auth w_r rq now w (IH _ Hr) Hq K) as K'. by rewrite E in K'.
Qed.

(** C23: in every run, whatever tables a request read before it writes, the request
    keeps the integrity of the tables (one external identifier per user and tenant,
    no group that stands for the owners of a team), changes no row of another
    tenant, neither makes an owner of the tenant or of a team nor takes the active
    membership of a member it read as an owner, ends sessions of its tenant alone,
    and leaves every table as it was when it is refused or fails. *)
Theorem scim_confined h w tk w_r rq now w' x :
  scim_run (w :: h) -> w_r ∈ w :: h -> generated rq -> scim_handle (inr tk) w_r rq now w = (w', x) ->
  scim_ok dbUuid w' /\ confined (vs_tenantId tk) w_r w w' /\ (refusal x = true -> w' = w).
Proof.
  intros Hrun Hr Hq E. assert (Hok := scim_run_ok _ Hrun). rewrite Forall_forall in Hok.
  assert (K := handle_keeps_ok (inr tk) w_r rq now w (Hok _ Hr) Hq (Hok w ltac:(set_solver))).
  assert (C := handle_confined tk w_r rq now w (Hok _ Hr)). rewrite E in K, C.
  split_and!; [done..|]. by eapply handle_refused.
Qed.
End Requests.
