(* ===== verification/ScimExamples.v ===== *)
(** * SCIM provisioning on concrete tables

    A tenant with an owner and three members, one group of one team: the witnesses of
    the properties, and what the handlers do where the code and its documentation
    part. *)

From S2P Require Import Prelude JsString JsJson Table TenantAuth ScimPatch ScimProvisioning ScimSafety ScimConfinement.
From stdpp Require Import fin_maps.
Local Open Scope Z_scope.
Local Open Scope js_scope.

(** A uuid column that takes strings of thirty-six units as they are. *)
Definition uuid_column (s : jsstr) : option jsstr := if Nat.eqb (length s) 36 then Some s else None.

Definition scim_alice : jsstr := js "00000000-0000-4000-8000-00000000000a".
Definition scim_bob : jsstr := js "00000000-0000-4000-8000-00000000000b".
Definition scim_carol : jsstr := js "00000000-0000-4000-8000-00000000000c".
Definition scim_dave : jsstr := js "00000000-0000-4000-8000-00000000000d".

Definition ex_member (r : TenantRole) : tenant_member :=
  {| sm_id := js "m"; sm_role := r; sm_deactivatedAt := None; sm_scimManaged := false;
     sm_provisioningSource := js "MANUAL"; sm_lastScimSyncedAt := None |}.
Definition ex_user (e : jsstr) : scim_user := {| su_tenantId := js "t"; su_email := Some e; su_name := None |}.

Definition scim_tables : scim_world := {|
  sw_users := {[ scim_alice := ex_user (js "alice"); scim_bob := ex_user (js "bob");
                 scim_carol := ex_user (js "carol"); scim_dave := ex_user (js "dave") ]};
  sw_members := {[ (js "t", scim_alice) := ex_member OWNER; (js "t", scim_bob) := ex_member MEMBER;
                   (js "t", scim_carol) := ex_member MEMBER; (js "t", scim_dave) := ex_member MEMBER ]};
  sw_mappings := {[ (js "t", js "ext-bob") := scim_bob ]};
  sw_groups := {[ (js "t", js "grp") := {| gm_teamId := js "g"; gm_role := TEAM_MEMBER |} ]};
  sw_teams := {[ js "g" := {| te_tenantId := js "t"; te_slug := js "eng" |} ]};
  sw_teamMembers := {[ (js "g", scim_bob) := {| tr_id := js "r1"; tr_tenantId := js "t"; tr_role := TEAM_MEMBER;
                                                tr_deactivatedAt := None; tr_scimManaged := true |} ]};
  sw_teamMemberKeys := ∅; sw_tokens := ∅; sw_invalidated := [] |}.

Definition scim_auth : ValidatedScimToken :=
  {| vs_tokenId := js "k"; vs_tenantId := js "t"; vs_auditUserId := js "a"; vs_human := true |}.

Lemma scim_ok_maps dbUuid w :
  map_Forall (fun u _ => dbUuid u = Some u) (sw_users w) -> map_Forall (fun k _ => dbUuid k.2 = Some k.2) (sw_members w) ->
  map_Forall (fun k _ => dbUuid k.2 = Some k.2) (sw_teamMembers w) ->
  map_Forall (fun k u => map_Forall (fun k' u' => k.1 = k'.1 -> u = u' -> k.2 = k'.2) (sw_mappings w)) (sw_mappings w) ->
  map_Forall (fun _ g => gm_role g <> TEAM_OWNER) (sw_groups w) -> scim_ok dbUuid w.
Proof.
  intros H1 H2 H3 H4 H5. split.
  - exact H1.
  - intros t u m H. exact (H2 _ _ H).
  - intros g u r H. exact (H3 _ _ H).
  - intros t e e' u H H'. exact (H4 _ _ H _ _ H' eq_refl eq_refl).
  - exact H5.
Qed.

Lemma scim_tables_ok : scim_ok uuid_column scim_tables.
Proof. apply scim_ok_maps; apply (bool_decide_unpack _); vm_compute; exact I. Qed.

(** ** Witnesses *)

Definition ex_base : jsstr := js "b".
Definition ex_new (u : jsstr) : jsstr := js "new".
Definition put_carol : scim_group_body := {| gb_displayName := js "ENG:member"; gb_externalId := None; gb_members := [scim_carol] |}.

(** The tables after the group has been replaced by one member. *)
Definition scim_after_put : scim_world :=
  fst (put_group uuid_column ex_base (inr scim_auth) scim_tables (Some put_carol) (js "grp") ex_new 5 scim_tables).

Definition put_resource : ScimGroupResource :=
  {| gr_id := js "grp"; gr_displayName := js "eng:MEMBER"; gr_members := [(scim_carol, js "carol")]; gr_location := js "b/Groups/grp" |}.

Lemma put_carol_answers :
  put_group uuid_column ex_base (inr scim_auth) scim_tables (Some put_carol) (js "grp") ex_new 5 scim_tables
    = (scim_after_put, Ok (RGroup false put_resource)).
Proof. vm_compute. reflexivity. Qed.

Lemma group_put_exact_witness :
  roster (js "t") (js "g") TEAM_MEMBER scim_after_put = list_to_set [scim_carol]
  /\ get_group ex_base (inr scim_auth) (js "grp") scim_after_put = RGroup false put_resource.
Proof.
  destruct (group_put_exact uuid_column ex_base scim_auth put_carol (js "grp") ex_new 5 scim_tables scim_after_put put_resource
              scim_tables_ok put_carol_answers) as (g & t & Hg & Hw & Hr & _ & _ & _ & Hget & _).
  assert (g = {| gm_teamId := js "g"; gm_role := TEAM_MEMBER |}) as -> by (vm_compute in Hg; vm_compute; congruence).
  exact (conj Hr Hget).
Defined.

Definition put_bob : scim_user_body :=
  {| ub_userName := js "bob"; ub_externalId := Some (js "00000000-0000-4000-8000-0000000000ee"); ub_formatted := None; ub_active := false |}.
Definition bob_resource : ScimUserResource :=
  {| ur_id := scim_bob; ur_externalId := ub_externalId put_bob; ur_userName := js "bob"; ur_formatted := [];
     ur_active := false; ur_location := js "b/Users/" ++ scim_bob |}.
Definition scim_after_bob : scim_world :=
  fst (put_user uuid_column ex_base (inr scim_auth) scim_tables (Some put_bob) scim_bob false true 5 scim_tables).

Lemma put_bob_answers :
  put_user uuid_column ex_base (inr scim_auth) scim_tables (Some put_bob) scim_bob false true 5 scim_tables
    = (scim_after_bob, Ok (RUser (Some bob_resource))).
Proof. vm_compute. reflexivity. Qed.

Lemma uuid_column_length s u : uuid_column s = Some u -> length u = 36%nat.
Proof. unfold uuid_column. destruct (Nat.eqb (length s) 36) eqn:E; [|done]. intros [= <-]. by apply Nat.eqb_eq. Qed.

Lemma scim_user_put_roundtrip_witness :
  get_user uuid_column ex_base (inr scim_auth) scim_bob scim_after_bob = Ok (RUser (Some bob_resource)) /\
  get_user uuid_column ex_base (inr scim_auth) (js "00000000-0000-4000-8000-0000000000ee") scim_after_bob
    = Ok (RUser (Some bob_resource)).
Proof.
  destruct (scim_user_put_roundtrip uuid_column ex_base scim_auth put_bob scim_bob false true 5 scim_tables scim_after_bob bob_resource
              scim_tables_ok uuid_column_length put_bob_answers) as (m & _ & _ & _ & _ & Hget & Hext & _).
  split; [exact Hget|].
  destruct (Hext (js "00000000-0000-4000-8000-0000000000ee")) as [_ H]; [reflexivity|vm_compute; lia|].
  eapply H; [vm_compute; reflexivity|right; vm_compute; reflexivity].
Defined.

Lemma scim_confined_witness :
  confined (js "t") scim_tables scim_tables scim_after_put.
Proof.
  assert (Hin : scim_tables ∈ [scim_tables]) by (apply list_elem_of_singleton; reflexivity).
  exact (proj1 (proj2 (scim_confined uuid_column ex_base [] scim_tables scim_auth scim_tables
           (PutGroup (Some put_carol) (js "grp") ex_new) 5 scim_after_put (Ok (RGroup false put_resource))
           (run_start uuid_column ex_base scim_tables scim_tables_ok) Hin I put_carol_answers))).
Defined.

(** ** Where the code and its documentation part *)

(** A user removed from a group cannot be put back: the deactivated row is not seen,
    and the unique index on (team, user) refuses a second one. *)
Lemma removed_member_cannot_return :
  snd (put_group uuid_column ex_base (inr scim_auth) scim_after_put
         (Some {| gb_displayName := js "eng:MEMBER"; gb_externalId := None; gb_members := [scim_bob; scim_carol] |})
         (js "grp") ex_new 9 scim_after_put) = Throw UniqueRefused.
Proof. vm_compute. reflexivity. Qed.

Definition patch_add (u : jsstr) : ScimPatchOperation :=
  {| po_op := op_add; po_path := Some (js "members"); po_value := Some (JArr [JObj [(js "value", JStr u)]]) |}.
Definition patch_remove (u : jsstr) : ScimPatchOperation :=
  {| po_op := op_remove; po_path := Some (js "members"); po_value := Some (JArr [JObj [(js "value", JStr u)]]) |}.
Definition patch_grp (ops : list ScimPatchOperation) : scim_world * outcome scim_throw scim_response :=
  patch_group uuid_column ex_base (inr scim_auth) scim_tables (Some ops) (js "grp") ex_new 5 scim_tables.

(** The same new user twice among the additions of a request is refused by the
    unique index. *)
Lemma repeated_addition_refused : snd (patch_grp [patch_add scim_carol; patch_add scim_carol]) = Throw UniqueRefused.
Proof. vm_compute. reflexivity. Qed.

(** The additions of a PATCH go first whatever the order of its operations: a member
    removed and then added again ends up removed. *)
Lemma removed_then_added_is_removed :
  match patch_grp [patch_remove scim_bob; patch_add scim_bob] with
  | (w, Ok (RGroup false r)) => gr_members r = [] /\ seen (js "t") (js "g") scim_bob w = None
  | _ => False
  end.
Proof. vm_compute. split; reflexivity. Qed.

(** A name in a PATCH is read and then dropped. *)
Lemma patched_name_ignored baseUrl w_r tenantId u p q now :
  up_active p = up_active q -> patchScimUser baseUrl w_r tenantId u p now = patchScimUser baseUrl w_r tenantId u q now.
Proof. intros E. unfold patchScimUser. by rewrite E. Qed.

(** A failed end of sessions is not made up for by the same request again. *)
Definition put_bob_off : scim_user_body :=
  {| ub_userName := js "bob"; ub_externalId := None; ub_formatted := None; ub_active := false |}.
Lemma failed_invalidation_not_retried :
  let first := put_user uuid_column ex_base (inr scim_auth) scim_tables (Some put_bob_off) scim_bob false false 5 scim_tables in
  let again := put_user uuid_column ex_base (inr scim_auth) (fst first) (Some put_bob_off) scim_bob false true 9 (fst first) in
  match snd first, snd again with
  | Ok (RUser (Some r)), Ok (RUser (Some r')) => ur_active r = false /\ ur_active r' = false /\ sw_invalidated (fst again) = []
  | _, _ => False
  end.
Proof. vm_compute. split_and!; reflexivity. Qed.

(** An external identifier that is not a uuid is an error of the database, although
    a user is mapped to it. *)
Lemma external_id_lookup_throws :
  sw_mappings scim_tables !! (js "t", js "ext-bob") = Some scim_bob
  /\ get_user uuid_column ex_base (inr scim_auth) (js "ext-bob") scim_tables = Throw BadUuid.
Proof. vm_compute. split; reflexivity. Qed.

(** The owner's protection reads the role before it writes: an ownership that
    passes in between is deleted. *)
Definition scim_promoted : scim_world :=
  with_members (<[(js "t", scim_bob) := ex_member OWNER]> (sw_members scim_tables)) scim_tables.
Lemma promoted_owner_deleted :
  let out := delete_user uuid_column (inr scim_auth) scim_tables scim_bob false true scim_promoted in
  snd out = Ok RNoContent /\ sw_members (fst out) !! (js "t", scim_bob) = None.
Proof. vm_compute. split; reflexivity. Qed.
