(* ===== verification/Delegation.v ===== *)
(** * Delegation sessions

    src/src/lib/auth/access/delegation.ts, the routes below
    src/src/app/api/vault/delegation, the revocation of MCP connections of
    src/src/app/api/user/mcp-tokens, and src/src/lib/auth/session/auth-or-token.ts.
    A user lets the agent behind an MCP token read chosen entries: a row records the
    session, Redis the sealed metadata of its entries under a time-out.

    The handlers commit several times.  Each commit is an operation of its own here,
    with the state its queries read as a separate argument, and the handler is their
    composition with whatever other requests do in between.  A text in Redis is the
    value it parses to; AES-256-GCM, the master keys and the syntax of a uuid are
    parameters. *)

From S2P Require Import Prelude JsString JsNumber JsJson Table McpOAuth SessionCache.
From stdpp Require Import fin_maps.
Local Open Scope Z_scope.
Local Open Scope js_scope.

(** ** Constants and keys *)

Definition DELEGATION_DEFAULT_TTL_SEC : Z := 900.
Definition DELEGATION_MAX_TTL_SEC : Z := 3600.
Definition DELEGATION_MAX_ENTRIES : nat := 20.
Definition DELEGATION_MIN_TTL_SEC : Z := 300.

Definition delegationEntryKey (userId sessionId entryId : jsstr) : jsstr :=
  js "delegation:" ++ userId ++ js ":" ++ sessionId ++ js ":entry:" ++ entryId.
Definition delegationIndexKey (userId sessionId : jsstr) : jsstr :=
  js "delegation:" ++ userId ++ js ":" ++ sessionId ++ js ":entries_index".

(** ** Metadata *)

(** A nullish field is absent, null or a value. *)
Record DelegationMetadata := {
  dm_id : jsstr; dm_title : jsstr; dm_username : option (option jsstr); dm_urlHost : option (option jsstr);
  dm_tags : option (option (list jsstr)) }.

Definition metadata_json (m : DelegationMetadata) : json :=
  JObj ([(js "id", JStr (dm_id m)); (js "title", JStr (dm_title m))]
        ++ prop (js "username") (nullable JStr) (dm_username m)
        ++ prop (js "urlHost") (nullable JStr) (dm_urlHost m)
        ++ prop (js "tags") (nullable (fun l => JArr (map JStr l))) (dm_tags m)).

(** The fields of a parsed text, of the types the store writes. *)
Definition nullish {A} (f : json -> option A) (v : json) (key : jsstr) : option (option A) :=
  if json_has v key then Some (f (json_get v key)) else None.
Definition as_string (v : json) : option jsstr := match v with JStr s => Some s | _ => None end.
Definition as_strings (v : json) : option (list jsstr) :=
  match v with JArr l => Some (omap as_string l) | _ => None end.
Definition metadata_of (v : json) : DelegationMetadata :=
  {| dm_id := default [] (get_string v (js "id")); dm_title := default [] (get_string v (js "title"));
     dm_username := nullish as_string v (js "username"); dm_urlHost := nullish as_string v (js "urlHost");
     dm_tags := nullish as_strings v (js "tags") |}.

(** What an agent sees; the provenance mark is the same for all. *)
Record AgentFacingDelegationEntry := {
  af_id : jsstr; af_title : jsstr; af_username : option jsstr; af_urlHost : option jsstr }.
Definition toAgentFacing (m : DelegationMetadata) : AgentFacingDelegationEntry :=
  {| af_id := dm_id m; af_title := dm_title m; af_username := default None (dm_username m);
     af_urlHost := default None (dm_urlHost m) |}.

Definition UNSAFE_DISPLAY_CHAR_RANGES : list (Z * Z) :=
  [(0, 31); (127, 159); (173, 173); (1564, 1564); (6158, 6158); (8203, 8207); (8232, 8233); (8234, 8238);
   (8288, 8288); (8294, 8297); (65279, 65279)].
Definition unsafe_unit (c : Z) : bool :=
  existsb (fun r => (fst r <=? c) && (c <=? snd r)) UNSAFE_DISPLAY_CHAR_RANGES.
Definition isSafeMetadataString (s : option jsstr) : bool :=
  match s with Some s => negb (existsb unsafe_unit s) | None => true end.

(** ** Redis *)

Record DelegationEncryptedPayload := { dp_encrypted : jsstr; dp_masterKeyVersion : Z }.
Inductive redis_value := RPayload (p : DelegationEncryptedPayload) | RIds (ids : gset jsstr).
(** [None]: no time-out *)
Abbreviation dstore := (gmap jsstr (redis_value * option Z)).

Definition live_value (now : Z) (r : dstore) (key : jsstr) : option (redis_value * option Z) :=
  match r !! key with
  | Some (v, Some exp) => if now <? exp then Some (v, Some exp) else None
  | x => x
  end.

Inductive redis_cmd :=
| CSet (key : jsstr) (p : DelegationEncryptedPayload) (ttlMs : Z)
| CSadd (key : jsstr) (ids : list jsstr)
| CPexpire (key : jsstr) (ttlMs : Z)
| CDel (key : jsstr).

Definition exec_cmd (now : Z) (r : dstore) (c : redis_cmd) : dstore :=
  match c with
  | CSet key p ttlMs => <[key := (RPayload p, Some (now + ttlMs))]> r
  | CSadd key ids =>
      match live_value now r key with
      | Some (RIds s, exp) => <[key := (RIds (s ∪ list_to_set ids), exp)]> r
      | Some (RPayload _, _) => r
      | None => <[key := (RIds (list_to_set ids), None)]> r
      end
  | CPexpire key ttlMs =>
      match live_value now r key with Some (v, _) => <[key := (v, Some (now + ttlMs))]> r | None => r end
  | CDel key => delete key r
  end.

(** A pipeline: which of its commands took effect, and whether the connection was
    lost before the results came. *)
Record pipeline_fate := { fa_done : nat -> bool; fa_lost : bool }.

Fixpoint exec_from (now : Z) (fate : pipeline_fate) (n : nat) (cmds : list redis_cmd) (r : dstore) : dstore :=
  match cmds with
  | [] => r
  | c :: cmds' => exec_from now fate (S n) cmds' (if fa_done fate n then exec_cmd now r c else r)
  end.
Definition exec_pipeline (now : Z) (fate : pipeline_fate) (cmds : list redis_cmd) (r : dstore) : dstore :=
  exec_from now fate 0 cmds r.
Definition pipeline_failed (fate : pipeline_fate) (cmds : list redis_cmd) : bool :=
  fa_lost fate || existsb (fun n => negb (fa_done fate n)) (seq 0 (length cmds)).

(** ** Tables *)

Record delegation_session := {
  ds_tenantId : jsstr; ds_userId : jsstr; ds_mcpTokenId : jsstr; ds_entryIds : list jsstr; ds_note : option jsstr;
  ds_expiresAt : Z; ds_revokedAt : option Z; ds_createdAt : Z }.

(** The columns of an entry that the ownership check reads. *)
Record entry_owner := { eo_userId : jsstr; eo_tenantId : jsstr; eo_deletedAt : option Z }.
Record delegation_policy := { dl_defaultTtlSec : option Z; dl_maxTtlSec : option Z }.

Record dworld := {
  dw_mcp : mcp_world; dw_entries : gmap jsstr entry_owner; dw_policy : gmap jsstr delegation_policy;
  dw_sessions : gmap jsstr delegation_session; dw_redis : dstore }.
Definition with_sessions (t : gmap jsstr delegation_session) (w : dworld) : dworld :=
  {| dw_mcp := dw_mcp w; dw_entries := dw_entries w; dw_policy := dw_policy w; dw_sessions := t; dw_redis := dw_redis w |}.
Definition with_redis (r : dstore) (w : dworld) : dworld :=
  {| dw_mcp := dw_mcp w; dw_entries := dw_entries w; dw_policy := dw_policy w; dw_sessions := dw_sessions w; dw_redis := r |}.
Definition with_mcp (m : mcp_world) (w : dworld) : dworld :=
  {| dw_mcp := m; dw_entries := dw_entries w; dw_policy := dw_policy w; dw_sessions := dw_sessions w; dw_redis := dw_redis w |}.

Inductive delegation_throw := RedisUnavailable | RedisDown | PipelineFailed | NoMasterKey | AuthTagMismatch | WrongType.

Definition revoke_session (now : Z) (s : delegation_session) : delegation_session :=
  {| ds_tenantId := ds_tenantId s; ds_userId := ds_userId s; ds_mcpTokenId := ds_mcpTokenId s; ds_entryIds := ds_entryIds s;
     ds_note := ds_note s; ds_expiresAt := ds_expiresAt s; ds_revokedAt := Some now; ds_createdAt := ds_createdAt s |}.

(** [updateMany] with a predicate that may name identifiers *)
Definition revoke_where (p : jsstr -> delegation_session -> bool) (now : Z) (w : dworld) : dworld :=
  with_sessions (map_imap (fun k s => Some (if p k s then revoke_session now s else s)) (dw_sessions w)) w.
Definition count_where (p : jsstr -> delegation_session -> bool) (w : dworld) : nat :=
  size (filter (fun ks => p (fst ks) (snd ks) = true) (dw_sessions w)).

Definition session_active (now : Z) (s : delegation_session) : bool :=
  negb (has (ds_revokedAt s)) && (now <? ds_expiresAt s).

(** [findFirst] with [orderBy: { createdAt: "desc" }] *)
Definition newer (a b : jsstr * delegation_session) : jsstr * delegation_session :=
  if ds_createdAt (snd a) <? ds_createdAt (snd b) then b else a.
Definition newest (p : jsstr -> delegation_session -> bool) (w : dworld) : option (jsstr * delegation_session) :=
  match List.filter (fun ks => p (fst ks) (snd ks)) (map_to_list (dw_sessions w)) with
  | [] => None
  | x :: l => Some (fold_left newer l x)
  end.

(** The scopes an MCP token needs. *)
Definition CREDENTIALS_LIST : jsstr := js "credentials:list".
Definition CREDENTIALS_USE : jsstr := js "credentials:use".
Definition DELEGATION_CHECK : jsstr := js "delegation:check".
Definition MCP_CLIENT_ID_PREFIX : jsstr := js "mcpc_".

Definition scope_in (s : jsstr) (l : list jsstr) : bool := existsb (fun x => x =s s) l.
Definition canDelegate (scope : jsstr) : bool := scope_in CREDENTIALS_USE (map js_trim (js_split [44] scope)).

Section Delegation.
(** AES-256-GCM under a key, associated data and a nonce, with the encodings around
    it; [open] fails unless the tag verifies.  The configured master keys.  Whether a
    string is a uuid, and how a uuid column writes it. *)
Context (seal : jsstr -> jsstr -> jsstr -> json -> jsstr) (open : jsstr -> jsstr -> jsstr -> option json)
  (getMasterKeyByVersion : Z -> option jsstr) (is_uuid : jsstr -> bool) (uuid_text : jsstr -> jsstr).

Definition encryptDelegationEntry (version : Z) (nonce : jsstr) (plaintext : json) (aadKey : jsstr)
    : outcome delegation_throw DelegationEncryptedPayload :=
  match getMasterKeyByVersion version with
  | None => Throw NoMasterKey
  | Some masterKey => Ok {| dp_encrypted := seal masterKey aadKey nonce plaintext; dp_masterKeyVersion := version |}
  end.

Definition decryptDelegationEntry (payload : DelegationEncryptedPayload) (aadKey : jsstr) : outcome delegation_throw json :=
  match getMasterKeyByVersion (dp_masterKeyVersion payload) with
  | None => Throw NoMasterKey
  | Some masterKey =>
      match open masterKey aadKey (dp_encrypted payload) with Some v => Ok v | None => Throw AuthTagMismatch end
  end.

(** ** The store *)

Fixpoint entry_cmds (version : Z) (nonces : nat -> jsstr) (userId sessionId : jsstr) (ttlMs : Z)
    (entries : list DelegationMetadata) : outcome delegation_throw (list redis_cmd) :=
  match entries with
  | [] => Ok []
  | e :: l =>
      let key := delegationEntryKey userId sessionId (dm_id e) in
      payload ← encryptDelegationEntry version (nonces (length l)) (metadata_json e) key;
      cmds ← entry_cmds version nonces userId sessionId ttlMs l;
      Ok (CSet key payload ttlMs :: cmds)
  end.

Definition store_cmds (version : Z) (nonces : nat -> jsstr) (userId sessionId : jsstr) (entries : list DelegationMetadata)
    (ttlMs : Z) : outcome delegation_throw (list redis_cmd) :=
  cmds ← entry_cmds version nonces userId sessionId ttlMs entries;
  let entryIds := map dm_id entries in
  let indexKey := delegationIndexKey userId sessionId in
  Ok (cmds ++ match entryIds with [] => [] | _ => [CSadd indexKey entryIds; CPexpire indexKey ttlMs] end).

Definition storeDelegationEntries (configured : bool) (fate : pipeline_fate) (now version : Z) (nonces : nat -> jsstr)
    (userId sessionId : jsstr) (entries : list DelegationMetadata) (ttlMs : Z) : st dworld delegation_throw unit := fun w =>
  if negb configured then (w, Throw RedisUnavailable)
  else match store_cmds version nonces userId sessionId entries ttlMs with
  | Throw e => (w, Throw e)
  | Ok cmds =>
      (with_redis (exec_pipeline now fate cmds (dw_redis w)) w,
       if pipeline_failed fate cmds then Throw PipelineFailed else Ok tt)
  end.

Definition fetchDelegationEntry (mode : redis_mode) (now : Z) (userId sessionId entryId : jsstr) (w : dworld)
    : outcome delegation_throw (option DelegationMetadata) :=
  match mode with
  | NotConfigured => Ok None
  | Failing => Throw RedisDown
  | Up =>
      let key := delegationEntryKey userId sessionId entryId in
      match live_value now (dw_redis w) key with
      | None => Ok None
      | Some (RIds _, _) => Throw WrongType
      | Some (RPayload payload, _) => v ← decryptDelegationEntry payload key; Ok (Some (metadata_of v))
      end
  end.

(** The members of the index, read in [w_r]; the deletions act on the later state. *)
Definition evictDelegationRedisKeys (mode : redis_mode) (fate : pipeline_fate) (now : Z) (userId sessionId : jsstr)
    (w_r : dworld) : st dworld delegation_throw unit := fun w =>
  match mode with
  | NotConfigured => (w, Ok tt)
  | Failing => (w, Throw RedisDown)
  | Up =>
      let indexKey := delegationIndexKey userId sessionId in
      let evict cmds := (with_redis (exec_pipeline now fate cmds (dw_redis w)) w,
                         if fa_lost fate then Throw PipelineFailed else Ok tt) in
      match live_value now (dw_redis w_r) indexKey with
      | None => evict [CDel indexKey]
      | Some (RPayload _, _) => (w, Throw WrongType)
      | Some (RIds ids, _) =>
          evict (map (fun i => CDel (delegationEntryKey userId sessionId i)) (elements ids) ++ [CDel indexKey])
      end
  end.

Definition getDelegatedEntryIdsForSession (mode : redis_mode) (now : Z) (userId sessionId : jsstr) (w : dworld)
    : outcome delegation_throw (gset jsstr) :=
  match mode with
  | NotConfigured => Ok ∅
  | Failing => Throw RedisDown
  | Up =>
      match live_value now (dw_redis w) (delegationIndexKey userId sessionId) with
      | None => Ok ∅
      | Some (RPayload _, _) => Throw WrongType
      | Some (RIds ids, _) => Ok ids
      end
  end.

Definition findActiveDelegationSession (userId mcpTokenId : jsstr) (now : Z) (w : dworld) : option (jsstr * delegation_session) :=
  newest (fun _ s => (ds_userId s =s userId) && (ds_mcpTokenId s =s mcpTokenId) && session_active now s) w.

Definition getDelegatedEntryIds (mode : redis_mode) (now : Z) (userId mcpTokenId : jsstr) (w_s w : dworld)
    : outcome delegation_throw (gset jsstr) :=
  match findActiveDelegationSession userId mcpTokenId now w_s with
  | None => Ok ∅
  | Some (sid, _) => getDelegatedEntryIdsForSession mode now userId sid w
  end.

(** ** Revocation *)

(** The sessions found in [w_r]; their keys are evicted one after the other, then
    the rows are updated. *)
Definition revokeAllDelegationSessions (mode : redis_mode) (fate : jsstr -> pipeline_fate) (now : Z) (userId : jsstr)
    (w_r : dworld) (w : dworld) : dworld * nat :=
  let sessionIds := map fst (List.filter (fun ks => (ds_userId (snd ks) =s userId) && session_active now (snd ks))
                               (map_to_list (dw_sessions w_r))) in
  let w1 := fold_left (fun x sid => fst (evictDelegationRedisKeys mode (fate sid) now userId sid x x)) sessionIds w in
  let where_ k s := bool_decide (k ∈ sessionIds) && (ds_userId s =s userId) && negb (has (ds_revokedAt s)) in
  match sessionIds with
  | [] => (w, 0%nat)
  | _ => (revoke_where where_ now w1, count_where where_ w1)
  end.

Definition revokeDelegationSession (mode : redis_mode) (fate : pipeline_fate) (now : Z) (userId sessionId : jsstr)
    (w : dworld) : dworld * bool :=
  let where_ k s := (k =s uuid_text sessionId) && (ds_userId s =s userId) && negb (has (ds_revokedAt s)) in
  let w1 := revoke_where where_ now w in
  (fst (evictDelegationRedisKeys mode fate now userId sessionId w1 w1), negb (Nat.eqb (count_where where_ w) 0)).

(** ** POST /api/vault/delegation *)

Record delegation_body := {
  db_mcpTokenId : jsstr; db_ttlSeconds : option Z; db_note : option jsstr; db_entries : list DelegationMetadata }.

Definition safeStringMax200 (s : jsstr) : bool := Nat.leb (length s) 200 && isSafeMetadataString (Some s).
Definition nullish_ok (p : jsstr -> bool) (v : option (option jsstr)) : bool :=
  match v with Some (Some s) => p s | _ => true end.
(** [/^[A-Za-z0-9_\-]{1,40}$/], and with {1,100} *)
Definition word_unit (c : Z) : bool :=
  ((65 <=? c) && (c <=? 90)) || ((97 <=? c) && (c <=? 122)) || ((48 <=? c) && (c <=? 57)) || (c =? 95) || (c =? 45).
Definition word (max : nat) (s : jsstr) : bool :=
  Nat.leb 1 (length s) && Nat.leb (length s) max && forallb word_unit s.

Definition createDelegationSchema (b : delegation_body) : bool :=
  is_uuid (db_mcpTokenId b)
  && match db_ttlSeconds b with Some t => (DELEGATION_MIN_TTL_SEC <=? t) && (t <=? DELEGATION_MAX_TTL_SEC) | None => true end
  && match db_note b with Some n => Nat.leb (length n) 255 | None => true end
  && Nat.leb 1 (length (db_entries b)) && Nat.leb (length (db_entries b)) DELEGATION_MAX_ENTRIES
  && forallb (fun e => is_uuid (dm_id e) && safeStringMax200 (dm_title e) && nullish_ok safeStringMax200 (dm_username e)
                       && nullish_ok safeStringMax200 (dm_urlHost e)
                       && match dm_tags e with Some (Some l) => Nat.leb (length l) 20 && forallb (word 40) l | _ => true end)
       (db_entries b).

Inductive delegation_error :=
| D_unauthorized | D_no_tenant | D_blocked | D_bad_body | MCP_TOKEN_NOT_FOUND | MCP_TOKEN_SCOPE_INSUFFICIENT
| DELEGATION_ENTRIES_NOT_FOUND | DELEGATION_STORE_FAILED | INVALID_SESSION | SESSION_NOT_FOUND.

(** A creation whose row is committed and whose handler goes on. *)
Record pending := {
  pd_sessionId : jsstr; pd_userId : jsstr; pd_tenantId : jsstr; pd_mcpTokenId : jsstr; pd_entries : list DelegationMetadata;
  pd_ttlMs : Z; pd_old : option jsstr; pd_expiresAt : Z }.

(** The checks, each on the state its query read ([w_t] the token, [w_p] the tenant,
    [w_e] the entries, [w_s] the session to replace), and the new row; [sessionId] is
    generated. *)
Definition token_usable (userId tenantId : jsstr) (now : Z) (a : access_token) : bool :=
  (gr_tenantId (at_grant a) =s tenantId) && bool_decide (gr_userId (at_grant a) = Some userId)
  && negb (has (at_revokedAt a)) && (now <? at_expiresAt a).

Definition effective_ttl (b : delegation_body) (policy : option delegation_policy) : Z :=
  let maxTtl := default DELEGATION_MAX_TTL_SEC (p ← policy; dl_maxTtlSec p) in
  let defaultTtl := default DELEGATION_DEFAULT_TTL_SEC (p ← policy; dl_defaultTtlSec p) in
  Z.min (default defaultTtl (db_ttlSeconds b)) maxTtl.

Definition entry_owned (userId tenantId : jsstr) (w_e : dworld) (id : jsstr) : bool :=
  match dw_entries w_e !! id with
  | Some o => (eo_userId o =s userId) && (eo_tenantId o =s tenantId) && negb (has (eo_deletedAt o))
  | None => false
  end.

Definition create_delegation (w_t w_p w_e w_s : dworld) (userId tenantId : jsstr) (b : delegation_body) (sessionId : jsstr)
    (now_t now_s now : Z) (w : dworld) : dworld * (delegation_error + pending) :=
  let mcpTokenId := uuid_text (db_mcpTokenId b) in
  match mw_access (dw_mcp w_t) !! mcpTokenId with
  | None => (w, inl MCP_TOKEN_NOT_FOUND)
  | Some a =>
      if negb (token_usable userId tenantId now_t a) then (w, inl MCP_TOKEN_NOT_FOUND)
      else if negb (canDelegate (gr_scope (at_grant a))) then (w, inl MCP_TOKEN_SCOPE_INSUFFICIENT)
      else
        let effectiveTtl := effective_ttl b (dw_policy w_p !! tenantId) in
        let entryIds := map dm_id (db_entries b) in
        if existsb (fun i => negb (entry_owned userId tenantId w_e i)) entryIds
        then (w, inl DELEGATION_ENTRIES_NOT_FOUND)
        else
          let existing := List.find (fun ks => (ds_userId (snd ks) =s userId) && (ds_mcpTokenId (snd ks) =s mcpTokenId)
                                               && session_active now_s (snd ks)) (map_to_list (dw_sessions w_s)) in
          let expiresAt := now + effectiveTtl * 1000 in
          (with_sessions (<[sessionId := {| ds_tenantId := tenantId; ds_userId := userId; ds_mcpTokenId := mcpTokenId;
              ds_entryIds := entryIds; ds_note := db_note b; ds_expiresAt := expiresAt; ds_revokedAt := None;
              ds_createdAt := now |}]> (dw_sessions w)) w,
           inr {| pd_sessionId := sessionId; pd_userId := userId; pd_tenantId := tenantId; pd_mcpTokenId := mcpTokenId;
                  pd_entries := db_entries b; pd_ttlMs := effectiveTtl * 1000; pd_old := fst <$> existing;
                  pd_expiresAt := expiresAt |})
  end.

(** The store, and the row's deletion when it fails. *)
Definition store_pending (configured : bool) (fate : pipeline_fate) (now version : Z) (nonces : nat -> jsstr) (p : pending)
    : st dworld delegation_throw unit :=
  storeDelegationEntries configured fate now version nonces (pd_userId p) (pd_sessionId p) (pd_entries p) (pd_ttlMs p).

Definition rollback_session (fails : bool) (p : pending) (w : dworld) : dworld :=
  if fails then w
  else with_sessions (filter (fun ks => ~ (fst ks = pd_sessionId p /\ ds_revokedAt (snd ks) = None)) (dw_sessions w)) w.

(** The best-effort end of the session that is replaced. *)
Definition evict_old (mode : redis_mode) (fate : pipeline_fate) (now : Z) (p : pending) (w_r w : dworld) : dworld :=
  match pd_old p with Some old => fst (evictDelegationRedisKeys mode fate now (pd_userId p) old w_r w) | None => w end.
Definition revoke_old (fails : bool) (now : Z) (p : pending) (w : dworld) : dworld :=
  match pd_old p with
  | Some old => if fails then w else revoke_where (fun k s => (k =s old) && negb (has (ds_revokedAt s))) now w
  | None => w
  end.

Record delegation_env := {
  ev_sessionId : jsstr; ev_now : Z; ev_configured : bool; ev_store : pipeline_fate; ev_version : Z; ev_nonces : nat -> jsstr;
  ev_rollback_fails : bool; ev_mode : redis_mode; ev_evict : pipeline_fate; ev_revoke_fails : bool;
  (* what other requests do between the commits *)
  ev_others : nat -> dworld -> dworld }.

(** The whole handler; [tenantId] is the tenant of the user, [blocked] the verdict
    of the rate limit. *)
Definition post_delegation (session : option jsstr) (tenantId : option jsstr) (blocked : bool) (body : option delegation_body)
    (ev : delegation_env) (w_t w_p w_e w_s : dworld) : dworld -> dworld * (delegation_error + (jsstr * Z * nat)) := fun w =>
  match nonempty session with
  | None => (w, inl D_unauthorized)
  | Some userId =>
  match nonempty tenantId with
  | None => (w, inl D_no_tenant)
  | Some tenantId =>
  if blocked then (w, inl D_blocked)
  else match body with
  | None => (w, inl D_bad_body)
  | Some b =>
  if negb (createDelegationSchema b) then (w, inl D_bad_body)
  else match create_delegation w_t w_p w_e w_s userId tenantId b (ev_sessionId ev) (ev_now ev) (ev_now ev) (ev_now ev) w with
  | (w1, inl e) => (w1, inl e)
  | (w1, inr p) =>
      match store_pending (ev_configured ev) (ev_store ev) (ev_now ev) (ev_version ev) (ev_nonces ev) p (ev_others ev 0 w1) with
      | (w2, Throw _) => (rollback_session (ev_rollback_fails ev) p (ev_others ev 1 w2), inl DELEGATION_STORE_FAILED)
      | (w2, Ok _) =>
          let w3 := ev_others ev 1 w2 in
          let w4 := evict_old (ev_mode ev) (ev_evict ev) (ev_now ev) p w3 w3 in
          let w5 := revoke_old (ev_revoke_fails ev) (ev_now ev) p (ev_others ev 2 w4) in
          (w5, inr (pd_sessionId p, pd_expiresAt p, length (db_entries b)))
      end
  end
  end
  end
  end.

(** DELETE /api/vault/delegation and /api/vault/delegation/[id] *)
Definition delete_delegations (session tenantId : option jsstr) (mode : redis_mode) (fate : jsstr -> pipeline_fate) (now : Z)
    (w_r w : dworld) : dworld * (delegation_error + nat) :=
  match nonempty session, nonempty tenantId with
  | None, _ => (w, inl D_unauthorized)
  | _, None => (w, inl D_no_tenant)
  | Some userId, Some _ => let '(w', n) := revokeAllDelegationSessions mode fate now userId w_r w in (w', inr n)
  end.

Definition delete_delegation (session tenantId : option jsstr) (sessionId : jsstr) (mode : redis_mode) (fate : pipeline_fate)
    (now : Z) (w : dworld) : dworld * (delegation_error + unit) :=
  match nonempty session, nonempty tenantId with
  | None, _ => (w, inl D_unauthorized)
  | _, None => (w, inl D_no_tenant)
  | Some userId, Some _ =>
      if negb (is_uuid sessionId) then (w, inl INVALID_SESSION)
      else match revokeDelegationSession mode fate now userId sessionId w with
           | (w', true) => (w', inr tt)
           | (w', false) => (w', inl SESSION_NOT_FOUND)
           end
  end.

(** The active sessions of the list, newest first in the answer. *)
Definition get_delegations (session tenantId : option jsstr) (now : Z) (w : dworld)
    : delegation_error + gmap jsstr delegation_session :=
  match nonempty session, nonempty tenantId with
  | None, _ => inl D_unauthorized
  | _, None => inl D_no_tenant
  | Some userId, Some t =>
      inr (filter (fun ks => ds_userId (snd ks) = userId /\ ds_tenantId (snd ks) = t /\ session_active now (snd ks) = true)
             (dw_sessions w))
  end.
End Delegation.
