(* ===== verification/DelegationRoutes.v ===== *)
(** * Who may use a delegation, and how it ends with its token

    src/src/lib/auth/session/auth-or-token.ts, src/src/app/api/vault/delegation/check
    and the revocation of connections of src/src/app/api/user/mcp-tokens. *)

From S2P Require Import Prelude JsString JsNumber JsJson Table McpOAuth SessionCache Delegation.
From stdpp Require Import fin_maps.
Local Open Scope Z_scope.
Local Open Scope js_scope.

(** ** Authentication by session or bearer token *)

Definition API_KEY_PREFIX : jsstr := js "api_".
Definition SA_TOKEN_PREFIX : jsstr := js "sa_".
Definition KNOWN_PREFIXES : list jsstr := [API_KEY_PREFIX; SA_TOKEN_PREFIX; MCP_TOKEN_PREFIX; js "scim_"].

Inductive AuthResult :=
| AuthSession (userId : jsstr)
| AuthToken (userId tenantId : jsstr) (scopes : list jsstr)
| AuthApiKey (userId tenantId apiKeyId : jsstr) (scopes : list jsstr)
| AuthServiceAccount (serviceAccountId tenantId tokenId : jsstr) (scopes : list jsstr)
| AuthMcpToken (data : McpTokenData).

Inductive AuthOrTokenResult := Authenticated (a : AuthResult) | ScopeInsufficient | NotAuthenticated.

Definition with_scope (required : option jsstr) (scopes : list jsstr) (a : AuthResult) : AuthOrTokenResult :=
  match required with
  | Some s => if scope_in s scopes then Authenticated a else ScopeInsufficient
  | None => Authenticated a
  end.

(** The verdicts of the validators of the other kinds of token. *)
Record token_verdicts := {
  tv_apiKey : option (jsstr * jsstr * jsstr * list jsstr);
  tv_serviceAccount : option (jsstr * jsstr * jsstr * list jsstr);
  tv_extension : option (jsstr * jsstr * list jsstr) }.

(** [mcp]: what [validateMcpToken] answers for the bearer value *)
Definition authOrToken (session authorization : option jsstr) (required : option jsstr) (tv : token_verdicts)
    (mcp : jsstr -> outcome mcp_throw (validation_error + McpTokenData)) : outcome mcp_throw AuthOrTokenResult :=
  match nonempty session with
  | Some userId => Ok (Authenticated (AuthSession userId))
  | None =>
  match nonempty (bearer_of (js "Bearer") authorization) with
  | None => Ok NotAuthenticated
  | Some bearer =>
      if js_starts_with API_KEY_PREFIX bearer then
        match tv_apiKey tv with
        | None => Ok NotAuthenticated
        | Some (u, t, k, scopes) => Ok (with_scope required scopes (AuthApiKey u t k scopes))
        end
      else if js_starts_with SA_TOKEN_PREFIX bearer then
        match tv_serviceAccount tv with
        | None => Ok NotAuthenticated
        | Some (sa, t, k, scopes) => Ok (with_scope required scopes (AuthServiceAccount sa t k scopes))
        end
      else if js_starts_with MCP_TOKEN_PREFIX bearer then
        match mcp bearer with
        | Throw e => Throw e
        | Ok (inl _) => Ok NotAuthenticated
        | Ok (inr data) => Ok (with_scope required (td_scopes data) (AuthMcpToken data))
        end
      else if existsb (fun p => js_starts_with p bearer) KNOWN_PREFIXES then Ok NotAuthenticated
      else match tv_extension tv with
      | None => Ok NotAuthenticated
      | Some (u, t, scopes) => Ok (with_scope required scopes (AuthToken u t scopes))
      end
  end
  end.

(** [hasUserId] and the user it lets through *)
Definition auth_userId (a : AuthResult) : option jsstr :=
  match a with
  | AuthSession u | AuthToken u _ _ | AuthApiKey u _ _ _ => Some u
  | AuthServiceAccount _ _ _ _ => None
  | AuthMcpToken d => gr_userId (td_grant d)
  end.
Definition hasUserId (a : AuthResult) : bool := has (auth_userId a).

(** ** GET /api/vault/delegation/check *)

Inductive check_refusal := Ck_unauthorized (status : Z) | Ck_blocked | Ck_invalid_params | Ck_no_session | Ck_entry_not_delegated.
Inductive check_response := CkAuthorized (sessionId : jsstr) (expiresAt : Z) | CkRefused (r : check_refusal).

Definition checkParamsSchema (clientId entryId : option jsstr) : option (jsstr * jsstr) :=
  match clientId, entryId with
  | Some c, Some e =>
      if js_starts_with MCP_CLIENT_ID_PREFIX c && Nat.leb (length c) 100 && word 100 e then Some (c, e) else None
  | _, _ => None
  end.

(** The token of a session is one of the client's, and the caller's own when an MCP
    token calls. *)
Definition session_of_client (clientId : jsstr) (binding : option jsstr) (w : dworld) (s : delegation_session) : bool :=
  match mw_access (dw_mcp w) !! ds_mcpTokenId s with
  | Some a =>
      match mw_clients (dw_mcp w) !! gr_clientId (at_grant a) with
      | Some cl => (mc_clientId cl =s clientId)
                   && match binding with Some tokenId => ds_mcpTokenId s =s tokenId | None => true end
      | None => false
      end
  | None => false
  end.

Definition mcp_binding (a : AuthResult) : option McpTokenData := match a with AuthMcpToken d => Some d | _ => None end.

(** [denied]: the network restriction, for callers without a session; [blocked]: the
    rate limit *)
Definition get_delegation_check (auth : AuthOrTokenResult) (denied blocked : bool) (clientId entryId : option jsstr) (now : Z)
    (w : dworld) : check_response :=
  match auth with
  | NotAuthenticated => CkRefused (Ck_unauthorized 401)
  | ScopeInsufficient => CkRefused (Ck_unauthorized 403)
  | Authenticated a =>
  match auth_userId a with
  | None => CkRefused (Ck_unauthorized 403)
  | Some userId =>
      if match a with AuthSession _ => false | _ => denied end then CkRefused Ck_blocked
      else if blocked then CkRefused Ck_blocked
      else match checkParamsSchema clientId entryId with
      | None => CkRefused Ck_invalid_params
      | Some (c, e) =>
          if match mcp_binding a with Some d => negb (td_mcpClientId d =s c) | None => false end
          then CkRefused (Ck_unauthorized 403)
          else
            match newest (fun _ s => (ds_userId s =s userId)
                            && session_of_client c (td_tokenId <$> mcp_binding a) w s && session_active now s) w with
            | None => CkRefused Ck_no_session
            | Some (sid, s) =>
                if bool_decide (e ∈ ds_entryIds s) then CkAuthorized sid (ds_expiresAt s) else CkRefused Ck_entry_not_delegated
            end
      end
  end
  end.

(** ** Revocation of connections *)

Definition revoke_tokens (p : jsstr -> access_token -> bool) (now : Z) (w : dworld) : dworld :=
  with_mcp (set_access (dw_mcp w)
    (map_imap (fun k a => Some (if p k a then revoke_access now a else a)) (mw_access (dw_mcp w)))) w.
Definition revoke_refreshes (p : refresh_token -> bool) (now : Z) (w : dworld) : dworld :=
  with_mcp (set_refresh (dw_mcp w) (fst (updateMany p (revoke_refresh now) (mw_refresh (dw_mcp w))))) w.

Definition owned_grant (userId tenantId : jsstr) (g : mcp_grant) : bool :=
  bool_decide (gr_userId g = Some userId) && (gr_tenantId g =s tenantId).
Definition token_families (tokenIds : list jsstr) (m : mcp_world) : list jsstr :=
  map (fun kr => rt_familyId (snd kr))
    (List.filter (fun kr => bool_decide (rt_accessTokenId (snd kr) ∈ tokenIds)) (map_to_list (mw_refresh m))).
Definition family_tokens (p : refresh_token -> bool) (m : mcp_world) : list jsstr :=
  map (fun kr => rt_accessTokenId (snd kr)) (List.filter (fun kr => p (snd kr)) (map_to_list (mw_refresh m))).
Definition session_ids (p : delegation_session -> bool) (w : dworld) : list jsstr :=
  map fst (List.filter (fun ks => p (snd ks)) (map_to_list (dw_sessions w))).

(** One connection: its token, the families that hold it, the tokens of those
    families, and the delegation sessions of all of them. *)
Definition delete_mcp_token (userId tenantId id : jsstr) (now : Z) (w : dworld) : option (dworld * list jsstr) :=
  match mw_access (dw_mcp w) !! id with
  | None => None
  | Some a =>
      if negb (owned_grant userId tenantId (at_grant a)) || has (at_revokedAt a) then None
      else
        let w1 := revoke_tokens (fun k _ => k =s id) now w in
        let familyIds := token_families [id] (dw_mcp w1) in
        let in_family r := bool_decide (rt_familyId r ∈ familyIds) && owned_grant userId tenantId (rt_grant r) in
        let w2 := revoke_refreshes (fun r => in_family r && negb (has (rt_revokedAt r))) now w1 in
        let relatedIds := family_tokens in_family (dw_mcp w2) in
        let w3 := revoke_tokens (fun k a => bool_decide (k ∈ relatedIds) && owned_grant userId tenantId (at_grant a)
                                            && negb (has (at_revokedAt a))) now w2 in
        let bound s := bool_decide (ds_mcpTokenId s ∈ id :: relatedIds) && (ds_userId s =s userId)
                       && (ds_tenantId s =s tenantId) && negb (has (ds_revokedAt s)) in
        Some (revoke_where (fun _ s => bound s) now w3, session_ids bound w3)
  end.

(** Every connection: the live tokens, their families and the tokens of those, and
    the delegation sessions of the live tokens. *)
Definition delete_mcp_tokens (userId tenantId : jsstr) (now : Z) (w : dworld) : dworld * nat * list jsstr :=
  let tokenIds := map fst (List.filter (fun ka => owned_grant userId tenantId (at_grant (snd ka))
                     && negb (has (at_revokedAt (snd ka))) && (now <? at_expiresAt (snd ka))) (map_to_list (mw_access (dw_mcp w)))) in
  match tokenIds with
  | [] => (w, 0%nat, [])
  | _ =>
      let w1 := revoke_tokens (fun k a => bool_decide (k ∈ tokenIds) && negb (has (at_revokedAt a))) now w in
      let familyIds := token_families tokenIds (dw_mcp w1) in
      let in_family r := bool_decide (rt_familyId r ∈ familyIds) in
      let w2 := revoke_refreshes (fun r => in_family r && negb (has (rt_revokedAt r))) now w1 in
      let relatedIds := family_tokens in_family (dw_mcp w2) in
      let w3 := revoke_tokens (fun k a => bool_decide (k ∈ relatedIds) && owned_grant userId tenantId (at_grant a)
                                          && negb (has (at_revokedAt a))) now w2 in
      let bound s := bool_decide (ds_mcpTokenId s ∈ tokenIds) && (ds_userId s =s userId) && negb (has (ds_revokedAt s)) in
      (revoke_where (fun _ s => bound s) now w3, length tokenIds, session_ids bound w3)
  end.
