(* ===== verification/McpServer.v ===== *)
(** * The MCP server and its tools

    src/src/lib/mcp/server.ts (JSON-RPC dispatch), src/src/lib/mcp/tools.ts and the
    POST handler of src/src/app/api/mcp/route.ts, over the tokens of [McpOAuth] and
    the sessions of [Delegation].  Texts of messages are left out, but for the
    conversions that build them, which may throw. *)

From S2P Require Import Prelude JsString JsNumber JsJson Table McpOAuth SessionCache Delegation.
From stdpp Require Import fin_maps.
Local Open Scope Z_scope.
Local Open Scope js_scope.

(** ** Conversions *)

(** [String(v)] of a parsed value: an object with a [toString] of its own, which is
    never callable, has no primitive value. *)
Fixpoint js_to_text (v : json) : option jsstr :=
  match v with
  | JNull => Some (js "null")
  | JBool b => Some (if b then js "true" else js "false")
  | JNum x => Some (js_num_to_string x)
  | JStr s => Some s
  | JArr l =>
      parts ← (fix go (l : list json) : option (list jsstr) :=
                 match l with
                 | [] => Some []
                 | JNull :: l' => r ← go l'; Some ([] :: r)
                 | x :: l' => t ← js_to_text x; r ← go l'; Some (t :: r)
                 end) l;
      Some (js_join (js ",") parts)
  | JObj _ => if json_has v (js "toString") then None else Some (js "[object Object]")
  end.

Definition falsy (v : json) : bool :=
  match v with
  | JNull | JBool false | JStr [] => true
  | JNum x => match x with NaN => true | Dbl m _ => m =? 0 | Inf _ => false end
  | _ => false
  end.

(** ** Tool inputs *)

Record page := { pg_limit : Z; pg_offset : Z }.

(** [z.number().int().min(lo).max(hi).default(d)]; an integer is a safe one *)
Definition MAX_SAFE_INTEGER : Z := 9007199254740991.
Definition int_field (v : json) (key : jsstr) (lo hi d : Z) : option Z :=
  if json_has v key then
    match json_get v key with
    | JNum x => n ← js_integer x; if (lo <=? n) && (n <=? hi) then Some n else None
    | _ => None
    end
  else Some d.

Definition page_of (v : json) : option page :=
  match v with
  | JObj _ =>
      limit ← int_field v (js "limit") 1 200 50;
      offset ← int_field v (js "offset") 0 MAX_SAFE_INTEGER 0;
      Some {| pg_limit := limit; pg_offset := offset |}
  | _ => None
  end.
(** [rawInput ?? {}] *)
Definition input_or_empty (v : option json) : json :=
  match v with None | Some JNull => JObj [] | Some x => x end.
Definition listCredentialsSchema (rawInput : option json) : option page := page_of (input_or_empty rawInput).
Definition searchCredentialsSchema (rawInput : option json) : option (option jsstr * page) :=
  let v := input_or_empty rawInput in
  p ← page_of v;
  if json_has v (js "query") then
    match json_get v (js "query") with
    | JStr s => if Nat.leb 1 (length s) && Nat.leb (length s) 200 then Some (Some s, p) else None
    | _ => None
    end
  else Some (None, p).

(** ** Tools *)

Inductive tool_result :=
| TrEntries (entries : list AgentFacingDelegationEntry) (total : nat)
| TrWhoami (mcpClientId : jsstr) (scopes : list jsstr)
| TrError (code : Z).

Section Server.
Context (open : jsstr -> jsstr -> jsstr -> option json) (getMasterKeyByVersion : Z -> option jsstr).

Fixpoint fetch_all (mode : redis_mode) (now : Z) (userId sessionId : jsstr) (ids : list jsstr) (w : dworld)
    : outcome delegation_throw (list (option DelegationMetadata)) :=
  match ids with
  | [] => Ok []
  | i :: l =>
      m ← fetchDelegationEntry open getMasterKeyByVersion mode now userId sessionId i w;
      r ← fetch_all mode now userId sessionId l w;
      Ok (m :: r)
  end.
Definition fetchAgentFacingEntries (mode : redis_mode) (now : Z) (userId sessionId : jsstr) (ids : list jsstr) (w : dworld)
    : outcome delegation_throw (list AgentFacingDelegationEntry) :=
  raw ← fetch_all mode now userId sessionId ids w;
  Ok (map toAgentFacing (omap (fun m => m) raw)).

(** [entries.slice(offset, offset + limit)] *)
Definition paginate {A} (p : page) (l : list A) : list A := take (Z.to_nat (pg_limit p)) (drop (Z.to_nat (pg_offset p)) l).

(** The session is looked up in [w_s], the index in [w_x] (an error of Redis there
    counts as no entries), the entries in [w_f], each with the state of the
    connection at the time. *)
Record tool_reads := { tr_s : dworld; tr_x : dworld; tr_f : dworld; tr_xmode : redis_mode; tr_fmode : redis_mode; tr_now : Z }.

Definition delegated_entries (userId sessionId : jsstr) (rd : tool_reads) : outcome delegation_throw (list AgentFacingDelegationEntry) :=
  let ids := match getDelegatedEntryIdsForSession (tr_xmode rd) (tr_now rd) userId sessionId (tr_x rd) with
             | Ok ids => ids | Throw _ => ∅ end in
  fetchAgentFacingEntries (tr_fmode rd) (tr_now rd) userId sessionId (elements ids) (tr_f rd).

Definition toolListCredentials (token : McpTokenData) (rawInput : option json) (rd : tool_reads)
    : outcome delegation_throw tool_result :=
  match listCredentialsSchema rawInput with
  | None => Ok (TrError (-32602))
  | Some p =>
  match nonempty (gr_userId (td_grant token)) with
  | None => Ok (TrError (-32603))
  | Some userId =>
  match findActiveDelegationSession userId (td_tokenId token) (tr_now rd) (tr_s rd) with
  | None => Ok (TrError (-32603))
  | Some (sid, _) =>
      entries ← delegated_entries userId sid rd;
      Ok (TrEntries (paginate p entries) (length entries))
  end
  end
  end.

Definition matches_query (query : jsstr) (e : AgentFacingDelegationEntry) : bool :=
  let q := js_to_lower query in
  js_includes q (js_to_lower (af_title e))
  || match af_username e with Some u => js_includes q (js_to_lower u) | None => false end.

Definition toolSearchCredentials (token : McpTokenData) (rawInput : option json) (rd : tool_reads)
    : outcome delegation_throw tool_result :=
  match searchCredentialsSchema rawInput with
  | None => Ok (TrError (-32602))
  | Some (rawQuery, p) =>
  match nonempty (gr_userId (td_grant token)) with
  | None => Ok (TrError (-32603))
  | Some userId =>
  match findActiveDelegationSession userId (td_tokenId token) (tr_now rd) (tr_s rd) with
  | None => Ok (TrError (-32603))
  | Some (sid, _) =>
      entries ← delegated_entries userId sid rd;
      let filtered := match nonempty (js_trim <$> rawQuery) with
                      | Some q => List.filter (matches_query q) entries
                      | None => entries
                      end in
      Ok (TrEntries (paginate p filtered) (length filtered))
  end
  end
  end.

Definition toolWhoami (token : McpTokenData) : tool_result := TrWhoami (td_mcpClientId token) (td_scopes token).

(** ** Dispatch *)

Inductive rpc_answer := RInitialize | REmpty | RTools | RText (r : tool_result).
Inductive rpc_response := RpcSuccess (id : json) (a : rpc_answer) | RpcError (id : json) (code : Z).

Inductive rpc_throw := RpcTypeError | RpcDelegation (e : delegation_throw).
Definition lift_tool {A} (r : outcome delegation_throw A) : outcome rpc_throw A :=
  match r with Ok a => Ok a | Throw e => Throw (RpcDelegation e) end.

(** [TOOL_SCOPE_MAP[name]]: an entry of its own, or what an object inherits, which is
    no scope of any token. *)
Definition inherited_names : list jsstr :=
  map js ["constructor"; "__defineGetter__"; "__defineSetter__"; "hasOwnProperty"; "__lookupGetter__"; "__lookupSetter__";
          "isPrototypeOf"; "propertyIsEnumerable"; "toString"; "valueOf"; "__proto__"; "toLocaleString"]%string.
Inductive tool_scope := NoScope | Scope (s : jsstr) | NotAScope.
Definition TOOL_SCOPE_MAP (key : jsstr) : tool_scope :=
  if (key =s js "list_credentials") || (key =s js "search_credentials") then Scope CREDENTIALS_LIST
  else if bool_decide (key ∈ inherited_names) then NotAScope else NoScope.
Definition hasRequiredScope (tokenScopes : list jsstr) (r : tool_scope) : bool :=
  match r with NoScope => true | Scope s => scope_in s tokenScopes | NotAScope => false end.

Definition handleToolsCall (id : json) (params : option json) (token : McpTokenData) (rd : tool_reads)
    : outcome rpc_throw rpc_response :=
  let p := default JNull params in
  let name := json_get p (js "name") in
  let arguments := if json_has p (js "arguments") then Some (json_get p (js "arguments")) else None in
  if falsy name then Ok (RpcError id (-32602))
  else match js_to_text name with
  | None => Throw RpcTypeError
  | Some key =>
      if negb (hasRequiredScope (td_scopes token) (TOOL_SCOPE_MAP key)) then Ok (RpcError id (-32003))
      else
        let answer r := Ok (match r with TrError code => RpcError id code | _ => RpcSuccess id (RText r) end) in
        match name with
        | JStr n =>
            if n =s js "list_credentials" then r ← lift_tool (toolListCredentials token arguments rd); answer r
            else if n =s js "search_credentials" then r ← lift_tool (toolSearchCredentials token arguments rd); answer r
            else if n =s js "whoami" then answer (toolWhoami token)
            else Ok (RpcError id (-32601))
        | _ => Ok (RpcError id (-32601))
        end
  end.

(** [allowed]: the rate limit of the client *)
Definition handleMcpRequest (allowed : bool) (body : json) (token : McpTokenData) (rd : tool_reads)
    : outcome rpc_throw rpc_response :=
  if negb allowed then Ok (RpcError JNull (-32029))
  else match body with
  | JNull => Throw RpcTypeError
  | _ =>
      let id := json_get body (js "id") in
      let method := json_get body (js "method") in
      if negb (bool_decide (get_string body (js "jsonrpc") = Some (js "2.0"))) || falsy method then Ok (RpcError id (-32600))
      else match method with
      | JStr m =>
          if m =s js "initialize" then Ok (RpcSuccess id RInitialize)
          else if (m =s js "ping") || (m =s js "notifications/initialized") then Ok (RpcSuccess id REmpty)
          else if m =s js "tools/list" then Ok (RpcSuccess id RTools)
          else if m =s js "tools/call"
          then handleToolsCall id (if json_has body (js "params") then Some (json_get body (js "params")) else None) token rd
          else Ok (RpcError id (-32601))
      | _ => if has (js_to_text method) then Ok (RpcError id (-32601)) else Throw RpcTypeError
      end
  end.

(** POST /api/mcp: [denied] the network restriction, [None] a body that is not JSON
    or too large. *)
Inductive mcp_http := Http401 | HttpDenied | Http400 | HttpOk (r : rpc_response).
Definition post_mcp (authorization : option jsstr) (validated : jsstr -> outcome mcp_throw (validation_error + McpTokenData))
    (denied allowed : bool) (body : option json) (rd : tool_reads) : outcome (mcp_throw + rpc_throw) mcp_http :=
  match nonempty (bearer_of (js "Bearer") authorization) with
  | None => Ok Http401
  | Some bearer =>
      match validated bearer with
      | Throw e => Throw (inl e)
      | Ok (inl _) => Ok Http401
      | Ok (inr data) =>
          if denied then Ok HttpDenied
          else match body with
          | None => Ok Http400
          | Some v => match handleMcpRequest allowed v data rd with Ok r => Ok (HttpOk r) | Throw e => Throw (inr e) end
          end
      end
  end.
End Server.
