(* ===== verification/DelegationSafety.v ===== *)
(** * Delegation sessions: proofs

    Runs of the delegation handlers, commit by commit, among anything else that may
    happen to the tables and to Redis: who is authorised to decrypt, what an agent is
    shown, and what the creation and the revocation of a session do. *)

From S2P Require Import Prelude JsString JsNumber JsJson Table McpOAuth SessionCache Delegation DelegationRoutes McpServer.
From stdpp Require Import fin_maps.
Local Open Scope Z_scope.
Local Open Scope js_scope.

(** ** Keys and metadata *)

Definition no_colon (s : jsstr) : Prop := 58 ∉ s.

Lemma split_at_colon (a b x y : jsstr) : no_colon a -> no_colon b -> a ++ 58 :: x = b ++ 58 :: y -> a = b /\ x = y.
Proof.
  revert b. induction a as [|c a IH]; intros [|d b] Ha Hb H; cbn in H.
  - by injection H.
  - injection H as <- _. exfalso. apply Hb. by left.
  - injection H as -> _. exfalso. apply Ha. by left.
  - injection H as <- H. apply IH in H as [-> ->]; [done| |]; intros Hin; [apply Ha|apply Hb]; by right.
Qed.

Lemma delegationEntryKey_inj u s e u' s' e' :
  no_colon u -> no_colon s -> no_colon u' -> no_colon s' ->
  delegationEntryKey u s e = delegationEntryKey u' s' e' -> u = u' /\ s = s' /\ e = e'.
Proof.
  intros Hu Hs Hu' Hs' H. unfold delegationEntryKey in H. apply app_inv_head in H.
  change (u ++ 58 :: (s ++ 58 :: (js "entry:" ++ e)) = u' ++ 58 :: (s' ++ 58 :: (js "entry:" ++ e'))) in H.
  apply split_at_colon in H as [-> H]; [|done|done]. apply split_at_colon in H as [-> H]; [|done|done].
  by apply app_inv_head in H as ->.
Qed.

Lemma as_strings_map l : as_strings (JArr (map JStr l)) = Some l.
Proof. cbn. f_equal. induction l as [|x l IH]; [done|]. cbn. by rewrite IH. Qed.

(** What the store writes is read back. *)
Lemma metadata_roundtrip m : metadata_of (metadata_json m) = m.
Proof.
  destruct m as [i t u h g]. unfold metadata_json.
  destruct g as [[g|]|]; cbn [dm_tags nullable prop].
  1: { assert (E := as_strings_map g). set (v := JArr (map JStr g)) in *. clearbody v.
       destruct u as [[u|]|], h as [[h|]|]; lazy -[as_strings]; by rewrite E. }
  all: destruct u as [[u|]|], h as [[h|]|]; reflexivity.
Qed.

(** ** The newest session *)

Lemma fold_newer l x :
  (fold_left newer l x ∈ x :: l) /\ forall y, y ∈ x :: l -> ds_createdAt y.2 <= ds_createdAt (fold_left newer l x).2.
Proof.
  revert x. induction l as [|y l IH]; intros x; cbn.
  - split; [by left|]. intros z ->%list_elem_of_singleton. lia.
  - destruct (IH (newer x y)) as [Hin Hmax]. split.
    + apply elem_of_cons in Hin as [E|Hin]; [rewrite E|by right; right]. unfold newer.
      destruct (_ <? _); [by right; left|by left].
    + assert (Hn := Hmax _ (list_elem_of_here _ _)). unfold newer in Hn at 1.
      intros z [->|[->|Hz]%elem_of_cons]%elem_of_cons; [..|apply Hmax; by right];
        (etrans; [|exact Hn]); destruct (_ <? _) eqn:E; lia.
Qed.

Lemma newest_Some p w k s :
  newest p w = Some (k, s) ->
  dw_sessions w !! k = Some s /\ p k s = true
  /\ forall k' s', dw_sessions w !! k' = Some s' -> p k' s' = true -> ds_createdAt s' <= ds_createdAt s.
Proof.
  unfold newest. assert (Hin : forall x, x ∈ List.filter (fun ks => p ks.1 ks.2) (map_to_list (dw_sessions w)) <->
    dw_sessions w !! x.1 = Some x.2 /\ p x.1 x.2 = true).
  { intros [k' s']. by rewrite list_elem_of_In, List.filter_In, <- list_elem_of_In, elem_of_map_to_list. }
  destruct (List.filter _ _) as [|x l]; [done|]. destruct (fold_newer l x) as [Hf Hmax]. intros [= E].
  rewrite E in Hf, Hmax. apply Hin in Hf as [Hk Hp]. split_and!; [done|done|].
  intros k' s' Hk' Hp'. apply (Hmax (k', s')). by apply Hin.
Qed.

Lemma newest_None p w k s : newest p w = None -> dw_sessions w !! k = Some s -> p k s = false.
Proof.
  unfold newest. destruct (List.filter _ _) as [|x l] eqn:E; [|done]. intros _ Hk.
  destruct (p k s) eqn:Hp; [|done]. exfalso.
  assert (Hin : (k, s) ∈ List.filter (fun ks => p ks.1 ks.2) (map_to_list (dw_sessions w))).
  { by rewrite list_elem_of_In, List.filter_In, <- list_elem_of_In, elem_of_map_to_list. }
  rewrite E in Hin. by apply elem_of_nil in Hin.
Qed.

(** ** Steps that only take away *)

(** Sessions may be revoked or deleted, values of Redis may disappear; the rest is
    free. *)
Record shrink (w w' : dworld) : Prop := {
  sh_sessions : forall k s', dw_sessions w' !! k = Some s' ->
    exists s, dw_sessions w !! k = Some s /\ (s' = s \/ exists now, s' = revoke_session now s);
  sh_redis : forall key v, dw_redis w' !! key = Some v -> dw_redis w !! key = Some v }.

#[export] Instance shrink_PreOrder : PreOrder shrink.
Proof.
  split.
  - intros w. split; eauto.
  - intros w1 w2 w3 H H'. split.
    + intros k s3 (s2 & H2 & E2)%(sh_sessions _ _ H'). apply (sh_sessions _ _ H) in H2 as (s1 & H1 & E1).
      exists s1. split; [done|]. destruct E2 as [->|[n ->]]; [done|]. right. exists n. by destruct E1 as [->|[n' ->]].
    + intros key v Hv. by apply (sh_redis _ _ H), (sh_redis _ _ H').
Qed.

Lemma shrink_sessions t w :
  (forall k s', t !! k = Some s' -> exists s, dw_sessions w !! k = Some s /\ (s' = s \/ exists now, s' = revoke_session now s)) ->
  shrink w (with_sessions t w).
Proof. intros H. by split. Qed.

Lemma shrink_mcp m w : shrink w (with_mcp m w).
Proof. split; eauto. Qed.

Lemma revoke_where_lookup p now w k :
  dw_sessions (revoke_where p now w) !! k = (fun s => if p k s then revoke_session now s else s) <$> dw_sessions w !! k.
Proof. cbn. rewrite map_lookup_imap. by destruct (dw_sessions w !! k). Qed.

Lemma revoke_where_shrink p now w : shrink w (revoke_where p now w).
Proof.
  apply shrink_sessions. intros k s' H. rewrite map_lookup_imap in H. destruct (dw_sessions w !! k) as [s|]; [|done].
  injection H as <-. exists s. split; [done|]. destruct (p k s); eauto.
Qed.

Lemma exec_dels now fate keys n r key v :
  exec_from now fate n (map CDel keys) r !! key = Some v -> r !! key = Some v.
Proof.
  revert n r. induction keys as [|x keys IH]; intros n r H; cbn in H; [done|].
  apply IH in H. destruct (fa_done fate n); [|done]. by apply lookup_delete_Some in H as [_ H].
Qed.

Lemma evict_shrink mode fate now u s w_r w : shrink w (fst (evictDelegationRedisKeys mode fate now u s w_r w)).
Proof.
  unfold evictDelegationRedisKeys. destruct mode; [reflexivity..|].
  assert (H : forall keys, shrink w (with_redis (exec_pipeline now fate (map CDel keys) (dw_redis w)) w)).
  { intros keys. split; [eauto|]. intros key v. apply exec_dels. }
  destruct (live_value now (dw_redis w_r) _) as [[[p|ids] exp]|]; [reflexivity| |apply (H [_])].
  cbn [fst]. rewrite <- (map_map (delegationEntryKey u s) CDel).
  change [CDel (delegationIndexKey u s)] with (map CDel [delegationIndexKey u s]). rewrite <- map_app. apply H.
Qed.

Section Handlers.
Context (uuid_text : jsstr -> jsstr) (is_uuid : jsstr -> bool).

Lemma fold_evict_shrink mode (fate : jsstr -> pipeline_fate) now u l w :
  shrink w (fold_left (fun x sid => fst (evictDelegationRedisKeys mode (fate sid) now u sid x x)) l w).
Proof.
  revert w. induction l as [|x l IH]; intros w; cbn; [reflexivity|]. etrans; [|apply IH]. apply evict_shrink.
Qed.

Lemma revokeAll_shrink mode fate now u w_r w : shrink w (fst (revokeAllDelegationSessions mode fate now u w_r w)).
Proof.
  unfold revokeAllDelegationSessions. cbv zeta. destruct (map fst _) as [|k l]; [reflexivity|].
  etrans; [apply (fold_evict_shrink mode fate now u (k :: l))|]. apply revoke_where_shrink.
Qed.

Lemma delete_delegations_shrink session tenantId mode fate now w_r w :
  shrink w (fst (delete_delegations session tenantId mode fate now w_r w)).
Proof.
  unfold delete_delegations. destruct (nonempty session) as [u|]; [|reflexivity]. destruct (nonempty tenantId); [|reflexivity].
  assert (H := revokeAll_shrink mode fate now u w_r w). by destruct (revokeAllDelegationSessions _ _ _ _ _ _).
Qed.

Lemma delete_delegation_shrink session tenantId sid mode fate now w :
  shrink w (fst (delete_delegation is_uuid uuid_text session tenantId sid mode fate now w)).
Proof.
  unfold delete_delegation. destruct (nonempty session) as [u|]; [|reflexivity]. destruct (nonempty tenantId); [|reflexivity].
  destruct (negb (is_uuid sid)); [reflexivity|]. unfold revokeDelegationSession. cbv zeta.
  set (w1 := revoke_where _ now w). assert (shrink w (fst (evictDelegationRedisKeys mode fate now u sid w1 w1))).
  { etrans; [apply revoke_where_shrink|apply evict_shrink]. }
  by destruct (negb _).
Qed.

Lemma rollback_shrink fails p w : shrink w (rollback_session fails p w).
Proof.
  unfold rollback_session. destruct fails; [reflexivity|]. apply shrink_sessions.
  intros k s [H _]%map_lookup_filter_Some. eauto.
Qed.

Lemma evict_old_shrink mode fate now p w_r w : shrink w (evict_old mode fate now p w_r w).
Proof. unfold evict_old. destruct (pd_old p); [apply evict_shrink|reflexivity]. Qed.

Lemma revoke_old_shrink fails now p w : shrink w (revoke_old fails now p w).
Proof. unfold revoke_old. destruct (pd_old p); [|reflexivity]. destruct fails; [reflexivity|apply revoke_where_shrink]. Qed.

Lemma delete_mcp_token_shrink u t i now w w' l : delete_mcp_token u t i now w = Some (w', l) -> shrink w w'.
Proof.
  unfold delete_mcp_token. destruct (mw_access _ !! i) as [a|]; [|done]. destruct (_ || _); [done|]. cbv zeta. intros [= <- _].
  etrans; [|apply revoke_where_shrink]. split; cbn; eauto.
Qed.

Lemma delete_mcp_tokens_shrink u t now w : shrink w (fst (fst (delete_mcp_tokens u t now w))).
Proof.
  unfold delete_mcp_tokens. cbv zeta. destruct (map fst _); [reflexivity|]. cbn [fst].
  etrans; [|apply revoke_where_shrink]. split; cbn; eauto.
Qed.
End Handlers.

(** ** What a pipeline writes *)

Lemma exec_cmd_payload now c r key pl exp :
  exec_cmd now r c !! key = Some (RPayload pl, exp) ->
  (exists ttl, c = CSet key pl ttl) \/ exists exp', r !! key = Some (RPayload pl, exp').
Proof.
  assert (Hl : forall k v e, live_value now r k = Some (v, e) -> r !! k = Some (v, e)).
  { intros k v e. unfold live_value. destruct (r !! k) as [[v' [e'|]]|]; [|done..]. by destruct (now <? e'). }
  destruct c as [k p ttl|k ids|k ttl|k]; cbn.
  - intros [[-> E]|[_ H]]%lookup_insert_Some; [left; simplify_eq; eauto|right; eauto].
  - destruct (live_value now r k) as [[[p|s] e]|]; [eauto|..]; intros [[_ E]|[_ H]]%lookup_insert_Some; eauto; done.
  - destruct (live_value now r k) as [[v e]|] eqn:E; [|eauto]. apply Hl in E.
    intros [[<- Ev]|[_ H]]%lookup_insert_Some; [|eauto]. injection Ev as -> <-. right. eauto.
  - intros [_ H]%lookup_delete_Some. eauto.
Qed.

Lemma exec_payload now fate n cmds r key pl exp :
  exec_from now fate n cmds r !! key = Some (RPayload pl, exp) ->
  (exists ttl, CSet key pl ttl ∈ cmds) \/ exists exp', r !! key = Some (RPayload pl, exp').
Proof.
  revert n r. induction cmds as [|c cmds IH]; intros n r H; cbn in H; [eauto|].
  apply IH in H as [[ttl H]|[e H]]; [left; exists ttl; by right|]. destruct (fa_done fate n); [|eauto].
  apply exec_cmd_payload in H as [[ttl ->]|H]; [left; exists ttl; by left|by right].
Qed.

(** ** Runs *)

Section Run.
Context (seal : jsstr -> jsstr -> jsstr -> json -> jsstr) (open : jsstr -> jsstr -> jsstr -> option json)
  (getMasterKeyByVersion : Z -> option jsstr) (is_uuid : jsstr -> bool) (uuid_text : jsstr -> jsstr).

(** A sealed text that a creation produced, or one that never opens. *)
Definition sealed_by (p : pending) (enc : jsstr) : Prop :=
  exists m k n, m ∈ pd_entries p
    /\ enc = seal k (delegationEntryKey (pd_userId p) (pd_sessionId p) (dm_id m)) n (metadata_json m).
Definition accounted (made : list pending) (enc : jsstr) : Prop :=
  (exists p, p ∈ made /\ sealed_by p enc) \/ forall k a, open k a enc = None.

(** Anything else: sessions are at most revoked or deleted, and whoever writes to
    Redis may move sealed texts of any time to any key, or invent texts that do not
    open. *)
Definition elsewhere (h : list dworld) (w w' : dworld) : Prop :=
  (forall k s', dw_sessions w' !! k = Some s' ->
     exists s, dw_sessions w !! k = Some s /\ (s' = s \/ exists now, s' = revoke_session now s))
  /\ (forall key pl exp, dw_redis w' !! key = Some (RPayload pl, exp) ->
        (exists w0 key0 exp0, w0 ∈ h /\ dw_redis w0 !! key0 = Some (RPayload pl, exp0)) \/ forall k a, open k a (dp_encrypted pl) = None).

Lemma shrink_elsewhere w w' h : shrink w w' -> elsewhere (w :: h) w w'.
Proof.
  intros H. split; [apply (sh_sessions _ _ H)|]. intros key pl exp Hv%(sh_redis _ _ H). left.
  exists w, key, exp. split; [by left|done].
Qed.

(** The states of a run, newest first, and the creations it made. *)
Inductive drun : list dworld -> list pending -> Prop :=
| drun_start w : dw_sessions w = ∅ -> dw_redis w = ∅ -> drun [w] []
| drun_create w_t w_p w_e w_s userId tenantId b sid now_t now_s now w w' h made p :
    drun (w :: h) made -> w_t ∈ w :: h -> w_p ∈ w :: h -> w_e ∈ w :: h -> w_s ∈ w :: h ->
    createDelegationSchema is_uuid b = true -> no_colon userId -> no_colon sid -> sid ∉ pd_sessionId <$> made ->
    create_delegation uuid_text w_t w_p w_e w_s userId tenantId b sid now_t now_s now w = (w', inr p) ->
    drun (w' :: w :: h) (p :: made)
| drun_store configured fate now version nonces p w w' x h made :
    drun (w :: h) made -> p ∈ made ->
    store_pending seal getMasterKeyByVersion configured fate now version nonces p w = (w', x) -> drun (w' :: w :: h) made
| drun_elsewhere w w' h made : drun (w :: h) made -> elsewhere (w :: h) w w' -> drun (w' :: w :: h) made.

(** What a creation checked. *)
Record approved (h : list dworld) (p : pending) : Prop := {
  ap_token : exists w_t now tok, w_t ∈ h /\ mw_access (dw_mcp w_t) !! pd_mcpTokenId p = Some tok
    /\ token_usable (pd_userId p) (pd_tenantId p) now tok = true /\ canDelegate (gr_scope (at_grant tok)) = true;
  ap_entries : exists w_e, w_e ∈ h
    /\ forall m, m ∈ pd_entries p -> entry_owned (pd_userId p) (pd_tenantId p) w_e (dm_id m) = true;
  ap_safe : forall m, m ∈ pd_entries p -> isSafeMetadataString (Some (dm_title m)) = true
    /\ isSafeMetadataString (default None (dm_username m)) = true /\ isSafeMetadataString (default None (dm_urlHost m)) = true;
  ap_length : (length (pd_entries p) <= DELEGATION_MAX_ENTRIES)%nat;
  ap_user : no_colon (pd_userId p);
  ap_session : no_colon (pd_sessionId p) }.

Lemma approved_mono h w p : approved h p -> approved (w :: h) p.
Proof.
  intros [(w_t & n & tok & Ht & H) (w_e & He & H') ? ? ? ?]. split; try done.
  - exists w_t, n, tok. split; [by right|done].
  - exists w_e. split; [by right|done].
Qed.

Definition row_of (p : pending) (s : delegation_session) : Prop :=
  ds_tenantId s = pd_tenantId p /\ ds_userId s = pd_userId p /\ ds_mcpTokenId s = pd_mcpTokenId p
  /\ ds_entryIds s = map dm_id (pd_entries p) /\ ds_expiresAt s = pd_expiresAt p.

Record dinv (h : list dworld) (made : list pending) : Prop := {
  di_sessions : forall w k s, w ∈ h -> dw_sessions w !! k = Some s -> exists p, p ∈ made /\ pd_sessionId p = k /\ row_of p s;
  di_redis : forall w key pl exp, w ∈ h -> dw_redis w !! key = Some (RPayload pl, exp) -> accounted made (dp_encrypted pl);
  di_approved : forall p, p ∈ made -> approved h p;
  di_unique : NoDup (pd_sessionId <$> made) }.

Lemma create_delegation_Ok w_t w_p w_e w_s userId tenantId b sid now_t now_s now w w' p h :
  createDelegationSchema is_uuid b = true -> no_colon userId -> no_colon sid -> w_t ∈ h -> w_e ∈ h ->
  create_delegation uuid_text w_t w_p w_e w_s userId tenantId b sid now_t now_s now w = (w', inr p) ->
  approved h p /\ pd_sessionId p = sid /\ dw_redis w' = dw_redis w
  /\ exists s, row_of p s /\ dw_sessions w' = <[sid := s]> (dw_sessions w).
Proof.
  intros Hb Hu Hs Ht He. unfold create_delegation. cbv zeta.
  destruct (mw_access (dw_mcp w_t) !! uuid_text (db_mcpTokenId b)) as [tok|] eqn:Ea; [|done].
  destruct (token_usable userId tenantId now_t tok) eqn:Eu; [|done]. destruct (canDelegate _) eqn:Ec; [|done]. cbn [negb].
  destruct (existsb _ (map dm_id (db_entries b))) eqn:Ee; [done|]. intros [= <- <-].
  split; [|by split_and!; [..|eexists; split; [|reflexivity]]].
  unfold createDelegationSchema in Hb. rewrite !andb_true_iff in Hb. destruct Hb as [[[[_ _] Hlen] Hlen'] Hall].
  rewrite forallb_forall in Hall. split; cbn; [by eauto 10| | |by apply Nat.leb_le|done|done].
  - exists w_e. split; [done|]. intros m Hm. destruct (entry_owned _ _ _ _) eqn:Eo; [done|]. exfalso.
    apply not_true_iff_false in Ee. apply Ee, existsb_exists. exists (dm_id m). rewrite Eo. split; [|done].
    apply in_map. by apply list_elem_of_In.
  - intros m Hm%list_elem_of_In%Hall. rewrite !andb_true_iff in Hm. destruct Hm as [[[[_ Ht1] Hu1] Hh1] _].
    unfold safeStringMax200, nullish_ok in *. rewrite andb_true_iff in Ht1. split_and!; [by apply Ht1|..].
    + destruct (dm_username m) as [[x|]|]; cbn; [by apply andb_true_iff in Hu1 as [_ ?]|done..].
    + destruct (dm_urlHost m) as [[x|]|]; cbn; [by apply andb_true_iff in Hh1 as [_ ?]|done..].
Qed.

Lemma entry_cmds_sealed version nonces p ttl l cmds key pl ttl' :
  (forall m, m ∈ l -> m ∈ pd_entries p) ->
  entry_cmds seal getMasterKeyByVersion version nonces (pd_userId p) (pd_sessionId p) ttl l = Ok cmds ->
  CSet key pl ttl' ∈ cmds -> sealed_by p (dp_encrypted pl).
Proof.
  revert cmds. induction l as [|m l IH]; intros cmds Hl; cbn; [by intros [= <-] ?%elem_of_nil|].
  unfold encryptDelegationEntry. destruct (getMasterKeyByVersion version) as [k|]; [|done]. cbn.
  destruct (entry_cmds _ _ _ _ _ _ _ l) as [cs|]; [|done]. cbn. intros [= <-] [E|Hin]%elem_of_cons.
  - injection E as -> -> ->. cbn. exists m, k, (nonces (length l)). split; [apply Hl; by left|done].
  - eapply IH; [|done|exact Hin]. intros m' Hm'. apply Hl. by right.
Qed.

Lemma store_pending_spec configured fate now version nonces p w w' x :
  store_pending seal getMasterKeyByVersion configured fate now version nonces p w = (w', x) ->
  dw_sessions w' = dw_sessions w
  /\ forall key pl exp, dw_redis w' !! key = Some (RPayload pl, exp) ->
       sealed_by p (dp_encrypted pl) \/ exists exp', dw_redis w !! key = Some (RPayload pl, exp').
Proof.
  unfold store_pending, storeDelegationEntries. destruct (negb configured); [intros [= <- _]; split; eauto|].
  unfold store_cmds. destruct (entry_cmds _ _ _ _ _ _ _ _) as [cmds|e] eqn:E; [|intros [= <- _]; split; eauto].
  cbn -[exec_pipeline]. intros [= <- _]. split; [done|]. intros key pl exp. cbn -[exec_pipeline]. unfold exec_pipeline.
  intros [[ttl Hin]|H]%exec_payload; [left|by right]. apply elem_of_app in Hin as [Hin|Hin].
  - by eapply entry_cmds_sealed; [|exact E|exact Hin].
  - destruct (map dm_id _); [by apply elem_of_nil in Hin|].
    by apply elem_of_cons in Hin as [?|[?|?%elem_of_nil]%elem_of_cons].
Qed.

Lemma drun_dinv h made : drun h made -> dinv h made.
Proof.
  induction 1 as [w Hs Hr|w_t w_p w_e w_s u t b sid nt ns now w w' h made p H IH Ht _ He _ Hb Hu Hid Hfresh E
    |cf fate now v nn p w w' x h made H IH Hp E|w w' h made H IH [Hes Her]].
  - split; [intros w0 k s ->%list_elem_of_singleton; by rewrite Hs
           |intros w0 key pl e ->%list_elem_of_singleton; by rewrite Hr|by intros p ?%elem_of_nil|constructor].
  - destruct (create_delegation_Ok _ _ _ _ _ _ _ _ _ _ _ _ _ _ (w :: h) Hb Hu Hid Ht He E) as (Hap & Hp & Hred & s & Hrow & Hses).
    destruct IH as [I1 I2 I3 I4]. split.
    + intros w0 k s0 [->|Hin]%elem_of_cons Hk.
      * rewrite Hses in Hk. apply lookup_insert_Some in Hk as [[<- <-]|[_ Hk]]; [exists p; split; [by left|done]|].
        destruct (I1 w k s0) as (q & ? & ?); [by left|done|]. exists q. split; [by right|done].
      * destruct (I1 w0 k s0 Hin Hk) as (q & ? & ?). exists q. split; [by right|done].
    + intros w0 key pl e Hin Hk. assert (Ha : accounted made (dp_encrypted pl)).
      { apply elem_of_cons in Hin as [->|Hin]; [rewrite Hred in Hk; by eapply I2; [by left|]|by eapply I2]. }
      destruct Ha as [(q & ? & ?)|?]; [left; exists q; split; [by right|done]|by right].
    + intros q [->|Hin]%elem_of_cons; apply approved_mono; [done|by apply I3].
    + cbn. constructor; [by rewrite Hp|done].
  - apply store_pending_spec in E as [Hses Hred]. destruct IH as [I1 I2 I3 I4]. split; [..|done].
    + intros w0 k s [->|Hin]%elem_of_cons Hk; [rewrite Hses in Hk; by eapply I1; [by left|]|by eapply I1].
    + intros w0 key pl e [->|Hin]%elem_of_cons Hk; [|by eapply I2].
      apply Hred in Hk as [Hk|[e' Hk]]; [left; by exists p|by eapply I2; [by left|]].
    + intros q Hq. by apply approved_mono, I3.
  - destruct IH as [I1 I2 I3 I4]. split; [..|done].
    + intros w0 k s [->|Hin]%elem_of_cons Hk; [|by eapply I1].
      apply Hes in Hk as (s0 & Hk & Hs). destruct (I1 w k s0) as (p & Hp & Hid & Hrow); [by left|done|].
      exists p. split_and!; [done..|]. by destruct Hs as [->|[n ->]].
    + intros w0 key pl e [->|Hin]%elem_of_cons Hk; [|by eapply I2].
      apply Her in Hk as [(w1 & k1 & e1 & Hin & Hk)|Hn]; [by eapply I2|by right].
    + intros q Hq. by apply approved_mono, I3.
Qed.

(** ** Who is authorised *)

Lemma dinv_session h made w k s :
  dinv h made -> w ∈ h -> dw_sessions w !! k = Some s ->
  exists p, p ∈ made /\ pd_sessionId p = k /\ row_of p s /\ approved h p.
Proof. intros I Hw Hk. destruct (di_sessions _ _ I w k s Hw Hk) as (p & Hp & Hid & Hr). exists p. by split_and!; [..|apply (di_approved _ _ I)]. Qed.

(** C27: in every run, whatever else happens to the tables and to Redis, a check
    answers authorized only to a user, or to an agent with a token of that user and
    of the client asked about, for an unrevoked and unexpired session, the newest the
    user has for that client (and token), whose creation named the entry, when the
    entry was the user's own and not in the trash and the session's token was live
    and allowed to use credentials. *)
Theorem delegation_check_sound h made w auth denied blocked clientId entryId now sid exp :
  drun h made -> w ∈ h -> get_delegation_check auth denied blocked clientId entryId now w = CkAuthorized sid exp ->
  exists a u c e s p,
    auth = Authenticated a /\ auth_userId a = Some u /\ clientId = Some c /\ entryId = Some e
    /\ (forall d, mcp_binding a = Some d -> td_mcpClientId d = c /\ ds_mcpTokenId s = td_tokenId d)
    /\ dw_sessions w !! sid = Some s /\ ds_userId s = u /\ ds_revokedAt s = None /\ now < exp /\ exp = ds_expiresAt s
    /\ session_of_client c (td_tokenId <$> mcp_binding a) w s = true
    /\ (forall k' s', dw_sessions w !! k' = Some s' -> ds_userId s' = u ->
          session_of_client c (td_tokenId <$> mcp_binding a) w s' = true -> session_active now s' = true ->
          ds_createdAt s' <= ds_createdAt s)
    /\ p ∈ made /\ pd_sessionId p = sid /\ row_of p s /\ e ∈ map dm_id (pd_entries p)
    /\ (exists w_t t tok, w_t ∈ h /\ mw_access (dw_mcp w_t) !! ds_mcpTokenId s = Some tok
          /\ token_usable u (ds_tenantId s) t tok = true /\ canDelegate (gr_scope (at_grant tok)) = true)
    /\ (exists w_e, w_e ∈ h /\ entry_owned u (ds_tenantId s) w_e e = true).
Proof.
  intros Hrun Hw. unfold get_delegation_check. destruct auth as [a| |]; [|done..].
  destruct (auth_userId a) as [u|] eqn:Eu; [|done]. destruct (match a with AuthSession _ => false | _ => denied end); [done|].
  destruct blocked; [done|]. destruct (checkParamsSchema clientId entryId) as [[c e]|] eqn:Ep; [|done].
  destruct (match mcp_binding a with Some d => _ | None => false end) eqn:Eb; [done|].
  destruct (newest _ w) as [[k s]|] eqn:En; [|done]. case_bool_decide as He; [|done]. intros [= <- <-].
  apply newest_Some in En as (Hk & Hp & Hmax). apply andb_true_iff in Hp as [Hp Hact]. apply andb_true_iff in Hp as [Hu Hc].
  apply bool_decide_eq_true in Hu. destruct (dinv_session h made w k s (drun_dinv _ _ Hrun) Hw Hk) as (p & Hin & Hid & Hrow & Hap).
  pose proof Hact as Hact'. apply andb_true_iff in Hact' as [Hrev Hexp]. apply negb_true_iff in Hrev. apply Z.ltb_lt in Hexp.
  destruct Hrow as (R1 & R2 & R3 & R4 & R5). rewrite R4 in He.
  exists a, u, c, e, s, p. split_and!; try done.
  - unfold checkParamsSchema in Ep. destruct clientId, entryId; try done. destruct (_ && _); by simplify_eq.
  - unfold checkParamsSchema in Ep. destruct clientId, entryId; try done. destruct (_ && _); by simplify_eq.
  - intros d Hd. rewrite Hd in Eb, Hc. apply negb_false_iff, bool_decide_eq_true in Eb. split; [done|].
    unfold session_of_client in Hc. destruct (mw_access _ !! _); [|done]. destruct (mw_clients _ !! _); [|done].
    apply andb_true_iff in Hc as [_ Hc]. by apply bool_decide_eq_true in Hc.
  - by destruct (ds_revokedAt s).
  - intros k' s' Hk' Hu' Hc' Ha'. apply (Hmax k' s' Hk'). by rewrite Hu', bool_decide_eq_true_2, Hc', Ha'.
  - destruct (ap_token _ _ Hap) as (w_t & t & tok & ? & ? & ? & ?). exists w_t, t, tok. rewrite R1, R3. split_and!; congruence.
  - destruct (ap_entries _ _ Hap) as (w_e & ? & Hown). exists w_e. split; [done|].
    apply list_elem_of_In, in_map_iff in He as (m & <- & Hm). rewrite R1, <- Hu, R2. apply Hown. by apply list_elem_of_In.
Qed.

(** ** What an agent is shown *)

Lemma fetch_all_spec mode now u sid ids w raw :
  fetch_all open getMasterKeyByVersion mode now u sid ids w = Ok raw ->
  Forall2 (fun i o => fetchDelegationEntry open getMasterKeyByVersion mode now u sid i w = Ok o) ids raw.
Proof.
  revert raw. induction ids as [|i ids IH]; intros raw; cbn; [intros [= <-]; constructor|].
  destruct (fetchDelegationEntry _ _ _ _ _ _ i w) as [o|] eqn:E; [|done]. cbn.
  destruct (fetch_all _ _ _ _ _ _ _ _) as [r|]; [|done]. cbn. intros [= <-]. constructor; [done|]. by apply IH.
Qed.

Lemma live_value_Some now r key v exp : live_value now r key = Some (v, exp) -> r !! key = Some (v, exp).
Proof. unfold live_value. destruct (r !! key) as [[v' [e'|]]|]; [|done..]. by destruct (now <? e'). Qed.

(** Sealing binds the associated data. *)
Definition sealing_binds : Prop :=
  forall k a k' a' n v v', open k a (seal k' a' n v) = Some v' -> a' = a /\ v' = v.

Lemma fetched_entry h made w p mode now i m :
  sealing_binds -> dinv h made -> w ∈ h -> p ∈ made ->
  fetchDelegationEntry open getMasterKeyByVersion mode now (pd_userId p) (pd_sessionId p) i w = Ok (Some m) ->
  m ∈ pd_entries p /\ dm_id m = i.
Proof.
  intros Hopen I Hw Hp. unfold fetchDelegationEntry. destruct mode; [done..|].
  destruct (live_value _ _ _) as [[[pl|ids] exp]|] eqn:El; [|done..]. apply live_value_Some in El.
  unfold decryptDelegationEntry. destruct (getMasterKeyByVersion _) as [k|]; [|done].
  destruct (open k _ (dp_encrypted pl)) as [v|] eqn:Eo; [|done]. cbn. intros [= <-].
  destruct (di_redis _ _ I w _ _ _ Hw El) as [(q & Hq & m & k' & n & Hm & Henc)|Hnone]; [|by rewrite Hnone in Eo].
  rewrite Henc in Eo. apply Hopen in Eo as [Ekey ->]. rewrite metadata_roundtrip.
  pose proof (di_approved _ _ I q Hq) as Aq. pose proof (di_approved _ _ I p Hp) as Ap.
  apply delegationEntryKey_inj in Ekey as (_ & Es & <-); [|apply Aq|apply Aq|apply Ap|apply Ap].
  split; [|done]. assert (q = p) as ->; [|done].
  pose proof (di_unique _ _ I) as Hn. clear -Hn Hp Hq Es. induction made as [|x l IH]; [by apply elem_of_nil in Hp|].
  cbn in Hn. apply NoDup_cons in Hn as [Hx Hn].
  apply elem_of_cons in Hp as [->|Hp], Hq as [->|Hq]; [done|..|by apply IH].
  - exfalso. apply Hx. rewrite <- Es. by apply list_elem_of_fmap_2.
  - exfalso. apply Hx. rewrite Es. by apply list_elem_of_fmap_2.
Qed.

Lemma omap_ids_sublist ids (raw : list (option DelegationMetadata)) :
  Forall2 (fun i o => forall m, o = Some m -> dm_id m = i) ids raw -> map dm_id (omap (fun o => o) raw) `sublist_of` ids.
Proof.
  induction 1 as [|i o ids raw H _ IH]; [constructor|]. cbn. destruct o as [m|]; cbn.
  - rewrite (H m eq_refl). by apply sublist_skip.
  - by apply sublist_cons.
Qed.

Lemma delegated_entries_spec h made p rd l :
  sealing_binds -> dinv h made -> tr_f rd ∈ h -> p ∈ made ->
  delegated_entries open getMasterKeyByVersion (pd_userId p) (pd_sessionId p) rd = Ok l ->
  (forall a, a ∈ l -> exists m, m ∈ pd_entries p /\ a = toAgentFacing m) /\ (length l <= length (pd_entries p))%nat.
Proof.
  intros Hopen I Hf Hp. unfold delegated_entries, fetchAgentFacingEntries. set (ids := match _ with Ok _ => _ | Throw _ => _ end).
  destruct (fetch_all _ _ _ _ _ _ _ _) as [raw|] eqn:E; [|done]. cbn. intros [= <-]. apply fetch_all_spec in E.
  assert (Hm : Forall2 (fun i o => forall m, o = Some m -> dm_id m = i) (elements ids) raw).
  { eapply Forall2_impl; [exact E|]. cbn. intros i o Ho m ->. by eapply fetched_entry. }
  assert (Hin : forall m, m ∈ omap (fun o => o) raw -> m ∈ pd_entries p).
  { intros m (o & Ho & ->)%list_elem_of_omap. apply list_elem_of_lookup in Ho as [j Hj].
    destruct (Forall2_lookup_r _ _ _ _ _ E Hj) as (i & _ & Hi). by eapply fetched_entry in Hi as [? _]. }
  apply omap_ids_sublist in Hm. split.
  - intros a (m & -> & Hma)%list_elem_of_fmap. exists m. split; [by apply Hin|done].
  - rewrite length_map, <- (length_map dm_id), <- (length_map dm_id (pd_entries p)). apply NoDup_incl_length.
    + apply NoDup_ListNoDup. exact (sublist_NoDup _ _ (NoDup_elements ids) Hm).
    + intros x (m & <- & Hx)%in_map_iff. apply in_map. by apply list_elem_of_In, Hin, list_elem_of_In.
Qed.

(** The two tools that show entries show some of the session's. *)
Lemma tool_entries (tool : outcome delegation_throw tool_result) token rawInput rd entries total :
  tool = toolListCredentials open getMasterKeyByVersion token rawInput rd
  \/ tool = toolSearchCredentials open getMasterKeyByVersion token rawInput rd ->
  tool = Ok (TrEntries entries total) ->
  exists u sid s l, gr_userId (td_grant token) = Some u
    /\ findActiveDelegationSession u (td_tokenId token) (tr_now rd) (tr_s rd) = Some (sid, s)
    /\ delegated_entries open getMasterKeyByVersion u sid rd = Ok l
    /\ (forall a, a ∈ entries -> a ∈ l) /\ (length entries <= total)%nat /\ (total <= length l)%nat.
Proof.
  assert (Hpage : forall pg (l0 l : list AgentFacingDelegationEntry), (forall a, a ∈ l0 -> a ∈ l) ->
    (forall a, a ∈ paginate pg l0 -> a ∈ l) /\ (length (paginate pg l0) <= length l0)%nat).
  { intros pg l0 l Hl. unfold paginate. split; [|rewrite length_take, length_drop; lia]. intros a Ha. apply Hl.
    apply (elem_of_take _ _) in Ha as (i & Ha & _). rewrite lookup_drop in Ha. by eapply list_elem_of_lookup_2. }
  intros [->| ->]; unfold toolListCredentials, toolSearchCredentials.
  - destruct (listCredentialsSchema rawInput) as [pg|]; [|done].
    destruct (nonempty (gr_userId _)) as [u|] eqn:Eu; [|done]. apply nonempty_Some in Eu as [Eu _].
    destruct (findActiveDelegationSession _ _ _ _) as [[sid s]|] eqn:Es; [|done].
    destruct (delegated_entries _ _ _ _ _) as [l|] eqn:El; [|done]. cbn. intros [= <- <-].
    exists u, sid, s, l. destruct (Hpage pg l l) as [? ?]; [done|]. by split_and!.
  - destruct (searchCredentialsSchema rawInput) as [[q pg]|]; [|done].
    destruct (nonempty (gr_userId _)) as [u|] eqn:Eu; [|done]. apply nonempty_Some in Eu as [Eu _].
    destruct (findActiveDelegationSession _ _ _ _) as [[sid s]|] eqn:Es; [|done].
    destruct (delegated_entries _ _ _ _ _) as [l|] eqn:El; [|done]. cbn. intros [= <- <-].
    set (l0 := match nonempty _ with Some _ => _ | None => _ end).
    assert (Hl0 : (forall a, a ∈ l0 -> a ∈ l) /\ (length l0 <= length l)%nat).
    { unfold l0. destruct (nonempty _); [|done]. split; [|apply List.filter_length_le].
      intros a Ha. by apply list_elem_of_In, List.filter_In, proj1, list_elem_of_In in Ha. }
    destruct Hl0 as [Hl0 Hlen]. exists u, sid, s, l. destruct (Hpage pg l0 l Hl0) as [? ?]. by split_and!.
Qed.

Lemma tools_call_entries id params token rd id' entries total :
  handleToolsCall open getMasterKeyByVersion id params token rd = Ok (RpcSuccess id' (RText (TrEntries entries total))) ->
  CREDENTIALS_LIST ∈ td_scopes token
  /\ exists tool rawInput, (tool = toolListCredentials open getMasterKeyByVersion token rawInput rd
        \/ tool = toolSearchCredentials open getMasterKeyByVersion token rawInput rd) /\ tool = Ok (TrEntries entries total).
Proof.
  unfold handleToolsCall. cbv zeta. set (name := json_get _ (js "name")). set (args := if json_has _ _ then _ else _).
  destruct (falsy name); [done|]. destruct (js_to_text name) as [key|] eqn:Ek; [|done].
  destruct (hasRequiredScope _ _) eqn:Es; [|done]. cbn [negb].
  assert (Hsc : forall n, name = JStr n -> (n = js "list_credentials" \/ n = js "search_credentials") -> CREDENTIALS_LIST ∈ td_scopes token).
  { intros n En Hn. rewrite En in Ek. injection Ek as <-.
    assert (Hm : TOOL_SCOPE_MAP n = Scope CREDENTIALS_LIST) by (destruct Hn as [->| ->]; reflexivity).
    rewrite Hm in Es. cbn in Es. apply existsb_exists in Es as (x & Hx & Ex). apply bool_decide_eq_true in Ex as ->.
    by apply list_elem_of_In. }
  destruct name as [| | |n| |]; try done. specialize (Hsc n eq_refl).
  destruct (n =s js "list_credentials") eqn:E1; [apply bool_decide_eq_true in E1|].
  - destruct (toolListCredentials _ _ token args rd) as [r|] eqn:Et; [|done]. cbn. destruct r; intros [= ? ?]; try done.
    split; [by apply Hsc; left|]. exists (Ok (TrEntries entries0 total0)), args. subst. split; [by left|done].
  - destruct (n =s js "search_credentials") eqn:E2; [apply bool_decide_eq_true in E2|by destruct (n =s js "whoami")].
    destruct (toolSearchCredentials _ _ token args rd) as [r|] eqn:Et; [|done]. cbn. destruct r; intros [= ? ?]; try done.
    split; [by apply Hsc; right|]. exists (Ok (TrEntries entries0 total0)), args. subst. split; [by right|done].
Qed.

Lemma dispatch_entries allowed body token rd id r :
  handleMcpRequest open getMasterKeyByVersion allowed body token rd = Ok (RpcSuccess id (RText r)) ->
  exists id0 ps, handleToolsCall open getMasterKeyByVersion id0 ps token rd = Ok (RpcSuccess id (RText r)).
Proof.
  unfold handleMcpRequest. destruct (negb allowed); [done|]. cbv zeta.
  assert (Hne : body = JNull \/ body <> JNull) by (destruct body; by (left + right)).
  destruct Hne as [->|Hne]; [done|]. intros H.
  assert (H' : (if negb (bool_decide (get_string body (js "jsonrpc") = Some (js "2.0"))) || falsy (json_get body (js "method"))
                then Ok (RpcError (json_get body (js "id")) (-32600)) else _) = Ok (RpcSuccess id (RText r)))
    by (destruct body; [done|exact H..]). clear H.
  destruct (_ || falsy _); [done|]. destruct (json_get body (js "method")) as [| | |m| |]; try (by destruct (has _)).
  destruct (m =s js "initialize"); [done|]. destruct (_ || _); [done|]. destruct (m =s js "tools/list"); [done|].
  destruct (m =s js "tools/call"); [eauto|done].
Qed.

(** C26: in every run, even when someone else writes to Redis, an agent is only ever
    shown entries that its user approved for an unexpired and unrevoked session of
    this very token, as they were approved: title, user name and host without unsafe
    characters, never the tags, at most twenty in all, and only to a token with the
    scope to list credentials. *)
Theorem mcp_tools_confined h made rd allowed body token id entries total :
  sealing_binds -> drun h made -> tr_s rd ∈ h -> tr_f rd ∈ h ->
  handleMcpRequest open getMasterKeyByVersion allowed body token rd = Ok (RpcSuccess id (RText (TrEntries entries total))) ->
  CREDENTIALS_LIST ∈ td_scopes token
  /\ exists u sid s p, gr_userId (td_grant token) = Some u
    /\ dw_sessions (tr_s rd) !! sid = Some s /\ ds_userId s = u /\ ds_mcpTokenId s = td_tokenId token
    /\ session_active (tr_now rd) s = true
    /\ p ∈ made /\ pd_sessionId p = sid /\ row_of p s /\ approved h p
    /\ (forall a, a ∈ entries -> exists m, m ∈ pd_entries p /\ a = toAgentFacing m
          /\ isSafeMetadataString (Some (af_title a)) = true /\ isSafeMetadataString (af_username a) = true
          /\ isSafeMetadataString (af_urlHost a) = true)
    /\ (length entries <= total <= DELEGATION_MAX_ENTRIES)%nat.
Proof.
  intros Hopen Hrun Hs Hf H.
  apply dispatch_entries in H as (id0 & ps & Hcall).
  apply tools_call_entries in Hcall as (Hscope & tool & raw & Htool & Hok).
  split; [done|]. destruct (tool_entries tool token raw rd entries total Htool Hok) as (u & sid & s & l & Hu & Hses & Hl & Hin & Hlen & Htot).
  apply newest_Some in Hses as (Hk & Hp & _). apply andb_true_iff in Hp as [Hp Hact]. apply andb_true_iff in Hp as [Eu Et].
  apply bool_decide_eq_true in Eu, Et. assert (I := drun_dinv _ _ Hrun).
  destruct (dinv_session h made (tr_s rd) sid s I Hs Hk) as (p & Hpin & Hid & Hrow & Hap).
  assert (Eup : pd_userId p = u) by (destruct Hrow as (_ & ? & _); congruence).
  rewrite <- Hid, <- Eup in Hl. destruct (delegated_entries_spec h made p rd l Hopen I Hf Hpin Hl) as [Hent Hle].
  exists u, sid, s, p. split_and!; try done.
  - intros a Ha. destruct (Hent a (Hin a Ha)) as (m & Hm & ->). exists m. split_and!; [done|done|..]; by apply (ap_safe _ _ Hap).
  - pose proof (ap_length _ _ Hap). lia.
Qed.
End Run.
