(* ===== verification/DelegationLifecycle.v ===== *)
(** * The life of a delegation

    What a creation and a revocation do when nothing else happens and Redis answers:
    the check and the tools follow the approval until it expires or is revoked. *)

From S2P Require Import Prelude JsString JsNumber JsJson Table McpOAuth SessionCache Delegation DelegationRoutes McpServer DelegationSafety.
From stdpp Require Import fin_maps.
Local Open Scope Z_scope.
Local Open Scope js_scope.

(** ** A store that answers *)

Definition all_done : pipeline_fate := {| fa_done := fun _ => true; fa_lost := false |}.

Lemma exec_all now n cmds r : exec_from now all_done n cmds r = fold_left (exec_cmd now) cmds r.
Proof. revert n r. induction cmds as [|c l IH]; intros n r; [done|]. apply IH. Qed.

Lemma pipeline_all_done cmds : pipeline_failed all_done cmds = false.
Proof. unfold pipeline_failed. cbn. induction (seq 0 (length cmds)); [done|]. cbn. done. Qed.

Lemma entryKey_index u s e : delegationEntryKey u s e <> delegationIndexKey u s.
Proof.
  unfold delegationEntryKey, delegationIndexKey. intros H. do 4 apply app_inv_head in H. discriminate H.
Qed.

Lemma entryKey_session u s e s' e' :
  no_colon s -> no_colon s' -> s <> s' -> delegationEntryKey u s e <> delegationEntryKey u s' e'
  /\ delegationEntryKey u s e <> delegationIndexKey u s' /\ delegationIndexKey u s <> delegationEntryKey u s' e'
  /\ delegationIndexKey u s <> delegationIndexKey u s'.
Proof.
  intros Hs Hs' Hne. unfold delegationEntryKey, delegationIndexKey.
  assert (H : forall x y : jsstr, js "delegation:" ++ u ++ js ":" ++ s ++ 58 :: x <> js "delegation:" ++ u ++ js ":" ++ s' ++ 58 :: y).
  { intros x y E. do 3 apply app_inv_head in E. by apply split_at_colon in E as [E _]. }
  split_and!; apply H.
Qed.

Lemma index_exec (r : dstore) (now : Z) (key : jsstr) (ids : list jsstr) (ttl : Z) :
  r !! key = None ->
  exec_cmd now (exec_cmd now r (CSadd key ids)) (CPexpire key ttl) = <[key := (RIds (list_to_set ids), Some (now + ttl))]> r.
Proof.
  intros H. assert (E : live_value now r key = None) by (unfold live_value; by rewrite H).
  cbn [exec_cmd]. rewrite E. unfold live_value. rewrite lookup_insert_eq. apply insert_insert_eq.
Qed.

Section Sealed.
Context (seal : jsstr -> jsstr -> jsstr -> json -> jsstr)
  (getMasterKeyByVersion : Z -> option jsstr).

(** The value of one entry in Redis. *)
Definition stored_entry (version : Z) (k u s : jsstr) (m : DelegationMetadata) (expiry : Z) (v : option (redis_value * option Z)) : Prop :=
  exists nn, v = Some (RPayload {| dp_encrypted := seal k (delegationEntryKey u s (dm_id m)) nn (metadata_json m);
                                   dp_masterKeyVersion := version |}, Some expiry).

Lemma entry_cmds_exec version k nonces u s ttl now l cmds r :
  getMasterKeyByVersion version = Some k -> NoDup (map dm_id l) ->
  entry_cmds seal getMasterKeyByVersion version nonces u s ttl l = Ok cmds ->
  (forall m, m ∈ l -> stored_entry version k u s m (now + ttl) (fold_left (exec_cmd now) cmds r !! delegationEntryKey u s (dm_id m)))
  /\ (forall key, (forall m, m ∈ l -> key <> delegationEntryKey u s (dm_id m)) -> fold_left (exec_cmd now) cmds r !! key = r !! key).
Proof.
  intros Hk. revert r cmds. induction l as [|m l IH]; intros r cmds Hnd; cbn.
  { intros [= <-]. split; [by intros m ?%elem_of_nil|done]. }
  unfold encryptDelegationEntry. rewrite Hk. cbn. destruct (entry_cmds _ _ _ _ _ _ _ l) as [cs|] eqn:E; [|done].
  cbn. intros [= <-]. cbn in Hnd. apply NoDup_cons in Hnd as [Hm Hnd]. cbn.
  set (r1 := <[_ := _]> r). destruct (IH r1 cs Hnd eq_refl) as [H1 H2]. split.
  - intros m' [->|Hin]%elem_of_cons; [|by apply H1]. exists (nonces (length l)). rewrite H2.
    + unfold r1. by rewrite lookup_insert_eq.
    + intros m2 Hm2 Ekey. apply Hm. unfold delegationEntryKey in Ekey. do 5 apply app_inv_head in Ekey. rewrite Ekey.
      apply list_elem_of_In, in_map. by apply list_elem_of_In.
  - intros key Hkey. rewrite H2; [|intros m' Hm'; apply Hkey; by right]. unfold r1. rewrite lookup_insert_ne; [done|].
    intros E'. apply (Hkey m); [by left|done].
Qed.

(** What an undisturbed store leaves. *)
Record stored (version : Z) (k u s : jsstr) (entries : list DelegationMetadata) (expiry : Z) (r : dstore) : Prop := {
  st_entries : forall m, m ∈ entries -> stored_entry version k u s m expiry (r !! delegationEntryKey u s (dm_id m));
  st_index : r !! delegationIndexKey u s = Some (RIds (list_to_set (map dm_id entries)), Some expiry) }.

Lemma store_exec version k nonces u s ttl now entries cmds r :
  getMasterKeyByVersion version = Some k -> NoDup (map dm_id entries) -> entries <> [] ->
  r !! delegationIndexKey u s = None ->
  store_cmds seal getMasterKeyByVersion version nonces u s entries ttl = Ok cmds ->
  stored version k u s entries (now + ttl) (exec_pipeline now all_done cmds r).
Proof.
  intros Hk Hnd Hne Hidx H. unfold store_cmds in H. destruct (entry_cmds _ _ _ _ _ _ _ entries) as [cs|] eqn:E; [|done].
  cbn -[delegationIndexKey] in H. injection H as <-. unfold exec_pipeline. rewrite exec_all, fold_left_app.
  destruct (entry_cmds_exec version k nonces u s ttl now entries cs r Hk Hnd E) as [H1 H2].
  set (r1 := fold_left (exec_cmd now) cs r) in *.
  assert (Hi : r1 !! delegationIndexKey u s = None).
  { unfold r1. rewrite H2; [done|]. intros m _ Ek. symmetry in Ek. by apply entryKey_index in Ek. }
  assert (Ei : map dm_id entries <> []) by (by destruct entries).
  destruct (map dm_id entries) as [|i ids] eqn:Eids; [done|]. rewrite <- Eids. cbn [fold_left]. rewrite index_exec by done.
  split; [|by rewrite lookup_insert_eq].
  intros m Hm. rewrite lookup_insert_ne by (intros Ek; symmetry in Ek; by apply entryKey_index in Ek). by apply H1.
Qed.

Lemma stored_delete now version k u s entries expiry r keys :
  stored version k u s entries expiry r ->
  (delegationIndexKey u s ∉ keys) -> (forall m, m ∈ entries -> delegationEntryKey u s (dm_id m) ∉ keys) ->
  stored version k u s entries expiry (fold_left (exec_cmd now) (map CDel keys) r).
Proof.
  intros [H1 H2] Hi He.
  assert (Hk : forall key, key ∉ keys -> fold_left (exec_cmd now) (map CDel keys) r !! key = r !! key).
  { intros key. clear. revert r. induction keys as [|x l IH]; intros r Hn; [done|]. cbn. rewrite IH by set_solver.
    apply lookup_delete_ne. set_solver. }
  split; [intros m Hm; rewrite Hk by auto; auto|by rewrite Hk].
Qed.
End Sealed.

(** ** What is stored is shown *)

Lemma omap_map_Some {A} (l : list A) : omap (fun o => o) (map Some l) = l.
Proof. induction l as [|x l IH]; [done|]. cbn. by rewrite IH. Qed.

Lemma live_value_before now r key v exp :
  r !! key = Some (v, Some exp) -> now < exp -> live_value now r key = Some (v, Some exp).
Proof. intros H Hn. unfold live_value. rewrite H. by apply Z.ltb_lt in Hn as ->. Qed.

Section Shown.
Context (seal : jsstr -> jsstr -> jsstr -> json -> jsstr) (open : jsstr -> jsstr -> jsstr -> option json)
  (getMasterKeyByVersion : Z -> option jsstr)
  (open_seal : forall k a n v, open k a (seal k a n v) = Some v)
  (version : Z) (k u sid : jsstr) (Hk : getMasterKeyByVersion version = Some k).

Lemma fetch_stored now exp m v w :
  dw_redis w !! delegationEntryKey u sid (dm_id m) = v -> stored_entry seal version k u sid m exp v -> now < exp ->
  fetchDelegationEntry open getMasterKeyByVersion Up now u sid (dm_id m) w = Ok (Some m).
Proof.
  intros Hv [nn ->] Hn. unfold fetchDelegationEntry. rewrite (live_value_before _ _ _ _ _ Hv Hn).
  unfold decryptDelegationEntry. cbn [dp_masterKeyVersion dp_encrypted]. rewrite Hk, open_seal. cbn [outcome_bind mbind].
  by rewrite metadata_roundtrip.
Qed.

Lemma fetch_all_stored now exp l w :
  (forall m, m ∈ l -> stored_entry seal version k u sid m exp (dw_redis w !! delegationEntryKey u sid (dm_id m))) -> now < exp ->
  fetch_all open getMasterKeyByVersion Up now u sid (map dm_id l) w = Ok (map Some l).
Proof.
  intros H Hn. induction l as [|m l IH]; [done|]. cbn [map fetch_all].
  rewrite (fetch_stored now exp m _ w eq_refl (H m (list_elem_of_here _ _)) Hn). cbn.
  rewrite IH; [done|]. intros m' Hm'. apply H. by right.
Qed.

Lemma delegated_entries_stored now exp entries w :
  stored seal version k u sid entries exp (dw_redis w) -> NoDup (map dm_id entries) -> now < exp ->
  exists l, l ≡ₚ map toAgentFacing entries
    /\ delegated_entries open getMasterKeyByVersion u sid
         {| tr_s := w; tr_x := w; tr_f := w; tr_xmode := Up; tr_fmode := Up; tr_now := now |} = Ok l.
Proof.
  intros [He Hi] Hnd Hn. unfold delegated_entries, fetchAgentFacingEntries, getDelegatedEntryIdsForSession. cbn [tr_xmode tr_now tr_x tr_fmode tr_f].
  rewrite (live_value_before _ _ _ _ _ Hi Hn).
  assert (Hp : elements (list_to_set (C := gset jsstr) (map dm_id entries)) ≡ₚ map dm_id entries) by by apply elements_list_to_set.
  apply Permutation_map_inv in Hp as (l & El & Hl).
  rewrite El, (fetch_all_stored now exp); [|intros m Hm; apply He; by rewrite Hl|done].
  exists (map toAgentFacing l). split; [by rewrite Hl|]. cbn. by rewrite omap_map_Some.
Qed.
End Shown.

(** ** The creation *)

(** Nobody else acts, Redis and the database answer. *)
Record undisturbed (ev : delegation_env) : Prop := {
  un_configured : ev_configured ev = true;
  un_store : ev_store ev = all_done;
  un_mode : ev_mode ev = Up;
  un_evict : ev_evict ev = all_done;
  un_revoke : ev_revoke_fails ev = false;
  un_others : forall n w, ev_others ev n w = w }.

Lemma evict_keys mode fate now u s w_r w :
  exists keys, (forall key, key ∈ keys -> key = delegationIndexKey u s \/ exists i, key = delegationEntryKey u s i)
    /\ fst (evictDelegationRedisKeys mode fate now u s w_r w)
       = with_redis (exec_pipeline now fate (map CDel keys) (dw_redis w)) w.
Proof.
  unfold evictDelegationRedisKeys.
  assert (Hn : exists keys : list jsstr, (forall key, key ∈ keys -> key = delegationIndexKey u s \/ exists i, key = delegationEntryKey u s i)
    /\ w = with_redis (exec_pipeline now fate (map CDel keys) (dw_redis w)) w).
  { exists []. split; [by intros key ?%elem_of_nil|by destruct w]. }
  destruct mode; [exact Hn..|]. destruct (live_value now (dw_redis w_r) _) as [[[p|ids] exp]|]; [exact Hn|..]; cbn [fst].
  - exists (map (delegationEntryKey u s) (elements ids) ++ [delegationIndexKey u s]). split.
    + intros key [H|H%list_elem_of_singleton]%elem_of_app; [|by left]. right. apply list_elem_of_fmap in H as (i & -> & _). by exists i.
    + by rewrite map_app, map_map.
  - exists [delegationIndexKey u s]. split; [|done]. intros key H%list_elem_of_singleton. by left.
Qed.

Lemma newest_is p w k s :
  dw_sessions w !! k = Some s -> p k s = true ->
  (forall k' s', dw_sessions w !! k' = Some s' -> p k' s' = true -> k' <> k -> ds_createdAt s' < ds_createdAt s) ->
  newest p w = Some (k, s).
Proof.
  intros Hk Hp Hmax. destruct (newest p w) as [[k' s']|] eqn:E; [|by rewrite (newest_None _ _ _ _ E Hk) in Hp].
  apply newest_Some in E as (Hk' & Hp' & Hm). destruct (decide (k' = k)) as [->|Hne]; [by simplify_eq|].
  specialize (Hmax k' s' Hk' Hp' Hne). specialize (Hm k s Hk Hp). lia.
Qed.

Lemma find_session_Some p w k s :
  List.find (fun ks => p (snd ks)) (map_to_list (dw_sessions w)) = Some (k, s) -> dw_sessions w !! k = Some s /\ p s = true.
Proof. intros [H Hp]%find_some. split; [by apply elem_of_map_to_list, list_elem_of_In|done]. Qed.

Lemma find_session_None p w k s :
  List.find (fun ks => p (snd ks)) (map_to_list (dw_sessions w)) = None -> dw_sessions w !! k = Some s -> p s = false.
Proof.
  intros H Hk. apply (find_none _ _ H (k, s)). by apply list_elem_of_In, elem_of_map_to_list.
Qed.

Section Creation.
Context (seal : jsstr -> jsstr -> jsstr -> json -> jsstr) (open : jsstr -> jsstr -> jsstr -> option json)
  (getMasterKeyByVersion : Z -> option jsstr) (is_uuid : jsstr -> bool) (uuid_text : jsstr -> jsstr).

(** An active session of a user for a token. *)
Definition agent_session (u tok : jsstr) (now : Z) (s : delegation_session) : bool :=
  (ds_userId s =s u) && (ds_mcpTokenId s =s tok) && session_active now s.

Definition created_row (t u tok : jsstr) (b : delegation_body) (now exp : Z) : delegation_session :=
  {| ds_tenantId := t; ds_userId := u; ds_mcpTokenId := tok; ds_entryIds := map dm_id (db_entries b); ds_note := db_note b;
     ds_expiresAt := exp; ds_revokedAt := None; ds_createdAt := now |}.

(** What the creation leaves: its row, at most one older session revoked, its entries
    in Redis. *)
Record created (t u tok sid : jsstr) (b : delegation_body) (version now exp : Z) (k : jsstr) (w w' : dworld) : Prop := {
  cr_mcp : dw_mcp w' = dw_mcp w;
  cr_row : dw_sessions w' !! sid = Some (created_row t u tok b now exp);
  cr_others : forall k0 s0, k0 <> sid -> dw_sessions w' !! k0 = Some s0 ->
    exists s1, dw_sessions w !! k0 = Some s1
      /\ (s0 = s1 \/ (s0 = revoke_session now s1 /\ agent_session u tok now s1 = true));
  cr_replaced : (forall k1 k2 s1 s2, dw_sessions w !! k1 = Some s1 -> dw_sessions w !! k2 = Some s2 ->
      agent_session u tok now s1 = true -> agent_session u tok now s2 = true -> k1 = k2) ->
    forall k0 s0, dw_sessions w' !! k0 = Some s0 -> agent_session u tok now s0 = true -> k0 = sid;
  cr_stored : stored seal version k u sid (db_entries b) exp (dw_redis w') }.

Lemma create_row w u t b sid now w1 p :
  create_delegation uuid_text w w w w u t b sid now now now w = (w1, inr p) ->
  let tok := uuid_text (db_mcpTokenId b) in
  let exp := now + effective_ttl b (dw_policy w !! t) * 1000 in
  w1 = with_sessions (<[sid := created_row t u tok b now exp]> (dw_sessions w)) w
  /\ p = {| pd_sessionId := sid; pd_userId := u; pd_tenantId := t; pd_mcpTokenId := tok; pd_entries := db_entries b;
            pd_ttlMs := effective_ttl b (dw_policy w !! t) * 1000; pd_old := pd_old p; pd_expiresAt := exp |}
  /\ match pd_old p with
     | Some old => exists s, dw_sessions w !! old = Some s /\ agent_session u tok now s = true
     | None => forall k s, dw_sessions w !! k = Some s -> agent_session u tok now s = false
     end.
Proof.
  unfold create_delegation. cbv zeta. destruct (mw_access _ !! _) as [a|]; [|done].
  destruct (negb (token_usable _ _ _ _)); [done|]. destruct (negb (canDelegate _)); [done|]. destruct (existsb _ _); [done|].
  intros [= <- <-]. split_and!; [done..|]. cbn [pd_old].
  destruct (List.find _ _) as [[old s]|] eqn:E; cbn [fmap option_fmap option_map fst].
  - apply (find_session_Some (agent_session u (uuid_text (db_mcpTokenId b)) now)) in E. by exists s.
  - intros k s. by apply (find_session_None (agent_session u (uuid_text (db_mcpTokenId b)) now)).
Qed.

Lemma evict_stored version k u s entries exp mode fate now old w :
  old <> s -> no_colon old -> no_colon s -> stored seal version k u s entries exp (dw_redis w) ->
  let w' := fst (evictDelegationRedisKeys mode fate now u old w w) in
  stored seal version k u s entries exp (dw_redis w') /\ dw_mcp w' = dw_mcp w /\ dw_sessions w' = dw_sessions w.
Proof.
  intros Hne Ho Hs Hst. cbv zeta. destruct (evict_keys mode fate now u old w w) as (keys & Hkeys & ->).
  split_and!; [|done..]. cbn [dw_redis with_redis]. destruct Hst as [H1 H2].
  assert (Hk : forall key n r, key ∉ keys -> exec_from now fate n (map CDel keys) r !! key = r !! key).
  { intros key. clear. induction keys as [|x l IH]; intros n r Hn; [done|]. cbn. rewrite IH by set_solver.
    destruct (fa_done fate n); [|done]. apply lookup_delete_ne. set_solver. }
  split.
  - intros m Hm. unfold exec_pipeline. rewrite Hk; [by apply H1|]. intros [E|[i E]]%Hkeys.
    + by destruct (entryKey_session u s (dm_id m) old [] Hs Ho) as (_ & ? & _); [congruence|].
    + by destruct (entryKey_session u s (dm_id m) old i Hs Ho) as (? & _); [congruence|].
  - unfold exec_pipeline. rewrite Hk; [done|]. intros [E|[i E]]%Hkeys.
    + by destruct (entryKey_session u s [] old [] Hs Ho) as (_ & _ & _ & ?); [congruence|].
    + by destruct (entryKey_session u s [] old i Hs Ho) as (_ & _ & ? & _); [congruence|].
Qed.

Lemma store_pending_Ok version k nonces now p w w' x :
  getMasterKeyByVersion version = Some k -> NoDup (map dm_id (pd_entries p)) -> pd_entries p <> [] ->
  dw_redis w !! delegationIndexKey (pd_userId p) (pd_sessionId p) = None ->
  store_pending seal getMasterKeyByVersion true all_done now version nonces p w = (w', Ok x) ->
  dw_mcp w' = dw_mcp w /\ dw_sessions w' = dw_sessions w
  /\ stored seal version k (pd_userId p) (pd_sessionId p) (pd_entries p) (now + pd_ttlMs p) (dw_redis w').
Proof.
  intros Hk Hnd Hne Hi. unfold store_pending, storeDelegationEntries. cbn [negb].
  destruct (store_cmds _ _ _ _ _ _ _ _) as [cmds|] eqn:E; [|done]. destruct (pipeline_failed _ _); [done|].
  intros [= <- _]. split_and!; [done..|]. by eapply store_exec.
Qed.

Lemma revoke_where_old now old w k0 s0 :
  dw_sessions (revoke_where (fun k s => (k =s old) && negb (has (ds_revokedAt s))) now w) !! k0 = Some s0 ->
  (k0 <> old /\ dw_sessions w !! k0 = Some s0)
  \/ (k0 = old /\ exists s1, dw_sessions w !! k0 = Some s1 /\ s0 = if has (ds_revokedAt s1) then s1 else revoke_session now s1).
Proof.
  rewrite revoke_where_lookup. destruct (dw_sessions w !! k0) as [s1|] eqn:E; [|done]. cbn. intros [= <-].
  case_bool_decide as Ek; [right|left; done]. split; [done|]. exists s1. split; [done|]. by destruct (has _).
Qed.

Lemma revoked_inactive now t s : session_active t (revoke_session now s) = false.
Proof. done. Qed.

Lemma replace_created version k t u tok sid b now exp p w w2 fate :
  (forall k0 s0, dw_sessions w !! k0 = Some s0 -> no_colon k0) -> no_colon sid -> dw_sessions w !! sid = None ->
  pd_sessionId p = sid -> pd_userId p = u ->
  match pd_old p with
  | Some old => exists s, dw_sessions w !! old = Some s /\ agent_session u tok now s = true
  | None => forall k0 s, dw_sessions w !! k0 = Some s -> agent_session u tok now s = false
  end ->
  dw_mcp w2 = dw_mcp w -> dw_sessions w2 = <[sid := created_row t u tok b now exp]> (dw_sessions w) ->
  stored seal version k u sid (db_entries b) exp (dw_redis w2) ->
  created t u tok sid b version now exp k w (revoke_old false now p (evict_old Up fate now p w2 w2)).
Proof.
  intros Hcol Hsid Hnone Eps Epu Hold Hm Hs Hst. unfold revoke_old, evict_old. destruct (pd_old p) as [old|].
  - destruct Hold as (s & Hs0 & Ha). assert (Hne : old <> sid) by congruence. rewrite Epu.
    destruct (evict_stored version k u sid (db_entries b) exp Up fate now old w2 Hne (Hcol _ _ Hs0) Hsid Hst) as (Hst' & Hm' & Hs').
    set (w4 := fst _) in *. clearbody w4. cbv beta iota.
    assert (Hl : forall k0 s0, dw_sessions (revoke_where (fun k s => (k =s old) && negb (has (ds_revokedAt s))) now w4) !! k0 = Some s0 ->
      k0 <> sid -> (k0 <> old /\ dw_sessions w !! k0 = Some s0) \/ (k0 = old /\ s0 = revoke_session now s)).
    { intros k0 s0 H Hk. apply revoke_where_old in H as [[Ho H]|[-> (s1 & H & ->)]]; rewrite Hs', Hs, lookup_insert_ne in H by done; [by left|right].
      split; [done|]. rewrite Hs0 in H. injection H as <-. unfold agent_session, session_active in Ha.
      apply andb_true_iff in Ha as [_ Ha]. apply andb_true_iff in Ha as [Ha _]. by destruct (has _). }
    split.
    + cbn. congruence.
    + rewrite revoke_where_lookup, Hs', Hs, lookup_insert_eq. cbn. by rewrite bool_decide_eq_false_2.
    + intros k0 s0 Hk H. destruct (Hl k0 s0 H Hk) as [[_ ?]|[-> ->]]; [eauto|]. exists s. split; [done|]. by right.
    + intros Huniq k0 s0 H Ha0. destruct (decide (k0 = sid)) as [?|Hk]; [done|]. exfalso.
      destruct (Hl k0 s0 H Hk) as [[Ho H']|[-> ->]]; [by apply Ho, (Huniq k0 old s0 s)|].
      unfold agent_session in Ha0. by rewrite revoked_inactive, andb_false_r in Ha0.
    + done.
  - split; [done|by rewrite Hs, lookup_insert_eq|..|done].
    + intros k0 s0 Hk H. rewrite Hs, lookup_insert_ne in H by done. eauto.
    + intros _ k0 s0 H Ha. destruct (decide (k0 = sid)) as [?|Hk]; [done|].
      rewrite Hs, lookup_insert_ne in H by done. by rewrite (Hold _ _ H) in Ha.
Qed.

Lemma post_created ev u t b w w' sid exp n k :
  undisturbed ev -> getMasterKeyByVersion (ev_version ev) = Some k ->
  (forall k0 s0, dw_sessions w !! k0 = Some s0 -> no_colon k0) -> no_colon (ev_sessionId ev) ->
  dw_sessions w !! ev_sessionId ev = None -> dw_redis w !! delegationIndexKey u (ev_sessionId ev) = None ->
  NoDup (map dm_id (db_entries b)) ->
  post_delegation seal getMasterKeyByVersion is_uuid uuid_text (Some u) (Some t) false (Some b) ev w w w w w = (w', inr (sid, exp, n)) ->
  u <> [] /\ createDelegationSchema is_uuid b = true /\ sid = ev_sessionId ev /\ n = length (db_entries b) /\ exp = ev_now ev + effective_ttl b (dw_policy w !! t) * 1000
  /\ created t u (uuid_text (db_mcpTokenId b)) sid b (ev_version ev) (ev_now ev) exp k w w'.
Proof.
  intros Hun Hk Hcol Hsid Hnone Hidx Hnd. unfold post_delegation.
  destruct (nonempty (Some u)) as [u'|] eqn:Eu; [apply nonempty_Some in Eu as [[= <-] Hu]|done].
  destruct (nonempty (Some t)) as [t'|] eqn:Et; [apply nonempty_Some in Et as [[= <-] _]|done].
  destruct (createDelegationSchema is_uuid b) eqn:Eb; [|done]. cbn [negb].
  assert (Hne : db_entries b <> []).
  { intros E. unfold createDelegationSchema in Eb. rewrite E in Eb. cbn in Eb. by rewrite !andb_false_r in Eb. }
  destruct (create_delegation _ _ _ _ _ _ _ _ _ _ _ _ w) as [w1 [e|p]] eqn:Ec; [done|].
  apply create_row in Ec as (-> & Ep & Hold). rewrite (un_configured _ Hun), (un_store _ Hun), !(un_others _ Hun).
  destruct (store_pending _ _ _ _ _ _ _ _ _) as [w2 [x|x]] eqn:Es; [|done].
  rewrite !(un_others _ Hun), (un_mode _ Hun), (un_revoke _ Hun). intros [= <- <- <- <-]. rewrite Ep.
  cbn [pd_sessionId pd_expiresAt]. split_and!; [done..|]. rewrite <- Ep.
  assert (E1 : pd_entries p = db_entries b) by (by rewrite Ep).
  assert (E2 : pd_sessionId p = ev_sessionId ev) by (by rewrite Ep). assert (E3 : pd_userId p = u) by (by rewrite Ep).
  apply (store_pending_Ok _ k) in Es as (Hm & Hs & Hst); [|done|by rewrite E1|by rewrite E1|by rewrite E2, E3].
  eapply replace_created; try done. rewrite E1, E2, E3 in Hst. by rewrite Ep in Hst.
Qed.
End Creation.

(** ** The revocation of all sessions *)

Lemma evict_sessions mode fate now u s w_r w :
  dw_sessions (fst (evictDelegationRedisKeys mode fate now u s w_r w)) = dw_sessions w.
Proof. by destruct (evict_keys mode fate now u s w_r w) as (keys & _ & ->). Qed.

Lemma fold_evict_sessions mode (fate : jsstr -> pipeline_fate) now u l w :
  dw_sessions (fold_left (fun x sid => fst (evictDelegationRedisKeys mode (fate sid) now u sid x x)) l w) = dw_sessions w.
Proof. revert w. induction l as [|x l IH]; intros w; [done|]. cbn [fold_left]. by rewrite IH, evict_sessions. Qed.

Lemma active_ids w u now k :
  k ∈ map fst (List.filter (fun ks => (ds_userId (snd ks) =s u) && session_active now (snd ks)) (map_to_list (dw_sessions w)))
  <-> exists s, dw_sessions w !! k = Some s /\ ds_userId s = u /\ session_active now s = true.
Proof.
  rewrite list_elem_of_In, in_map_iff. split.
  - intros ([k' s] & <- & [Hin Hp]%List.filter_In). apply andb_true_iff in Hp as [Hu Ha]. apply bool_decide_eq_true in Hu.
    exists s. split_and!; [by apply elem_of_map_to_list, list_elem_of_In|done..].
  - intros (s & Hk & Hu & Ha). exists (k, s). split; [done|]. apply List.filter_In. split.
    + by apply list_elem_of_In, elem_of_map_to_list.
    + cbn. by rewrite Hu, Ha, bool_decide_eq_true_2.
Qed.

Lemma active_later now t s : now <= t -> session_active t s = true -> session_active now s = true.
Proof. unfold session_active. intros Hn [H1 H2]%andb_true_iff. rewrite H1. cbn. apply Z.ltb_lt in H2. apply Z.ltb_lt. lia. Qed.

(** Even when Redis does not answer. *)
Lemma revoke_all_ends session tenantId mode fate now u w w' n :
  session = Some u -> delete_delegations session tenantId mode fate now w w = (w', inr n) ->
  (forall k s t, dw_sessions w' !! k = Some s -> ds_userId s = u -> now <= t -> session_active t s = false)
  /\ (forall k s, dw_sessions w !! k = Some s -> ds_userId s <> u -> dw_sessions w' !! k = Some s)
  /\ n = size (filter (fun ks => ds_userId (snd ks) = u /\ session_active now (snd ks) = true) (dw_sessions w)).
Proof.
  intros ->. unfold delete_delegations. destruct (nonempty (Some u)) as [u'|] eqn:Eu; [apply nonempty_Some in Eu as [[= <-] _]|done].
  destruct (nonempty tenantId); [|done]. unfold revokeAllDelegationSessions. cbv zeta.
  assert (Hids := active_ids w u now). set (ids := map fst _) in *. clearbody ids.
  destruct ids as [|i is_].
  - intros [= <- <-].
    assert (Hno : forall k s, dw_sessions w !! k = Some s -> ds_userId s = u -> session_active now s = false).
    { intros k s Hk Hu. destruct (session_active now s) eqn:Ea; [|done]. assert (H : k ∈ []) by (apply Hids; eauto). by apply elem_of_nil in H. }
    split_and!; [|done|].
    + intros k s t Hk Hu Ht. destruct (session_active t s) eqn:Ea; [|done]. apply (active_later _ _ _ Ht) in Ea. by rewrite (Hno k s) in Ea.
    + symmetry. apply map_size_empty_iff, map_empty_filter_2. intros k s Hk. cbn [fst snd]. intros [Hu Ha]. by rewrite (Hno k s) in Ha.
  - set (w1 := fold_left _ _ w). assert (Hw1 : dw_sessions w1 = dw_sessions w) by apply fold_evict_sessions. clearbody w1.
    intros [= <- <-]. split_and!.
    + intros k s t Hk Hu Ht. rewrite revoke_where_lookup, Hw1 in Hk. destruct (dw_sessions w !! k) as [s0|] eqn:E; [|done].
      cbn in Hk. injection Hk as Hk. destruct (_ && negb _) eqn:Ep; [by rewrite <- Hk|subst s0].
      destruct (session_active t s) eqn:Ea; [|done]. apply (active_later _ _ _ Ht) in Ea. exfalso.
      rewrite !bool_decide_eq_true_2 in Ep by (done || (apply Hids; eauto)).
      unfold session_active in Ea. apply andb_true_iff in Ea as [Ea _]. by rewrite Ea in Ep.
    + intros k s Hk Hu. rewrite revoke_where_lookup, Hw1, Hk. cbn. rewrite (bool_decide_eq_false_2 (ds_userId s = u)) by done.
      by rewrite andb_false_r.
    + unfold count_where. rewrite Hw1. f_equal. apply map_filter_ext. intros k s Hk. cbn [fst snd]. split.
      * intros H. apply andb_true_iff in H as [H _]. apply andb_true_iff in H as [H _]. apply bool_decide_eq_true in H.
        apply Hids in H as (s' & Hk' & ? & ?). rewrite Hk in Hk'. injection Hk' as <-. done.
      * intros [Hu Ha]. rewrite !bool_decide_eq_true_2 by (done || (apply Hids; eauto)).
        unfold session_active in Ha. by apply andb_true_iff in Ha as [-> _].
Qed.

(** ** The whole life *)

Definition list_params : json := JObj [(js "name", JStr (js "list_credentials"))].
Definition reads_of (w : dworld) (now : Z) : tool_reads :=
  {| tr_s := w; tr_x := w; tr_f := w; tr_xmode := Up; tr_fmode := Up; tr_now := now |}.

Section Life.
Context (seal : jsstr -> jsstr -> jsstr -> json -> jsstr) (open : jsstr -> jsstr -> jsstr -> option json)
  (getMasterKeyByVersion : Z -> option jsstr) (is_uuid : jsstr -> bool) (uuid_text : jsstr -> jsstr)
  (open_seal : forall k a n v, open k a (seal k a n v) = Some v).

(** The answer of the list tool, and of a check by a caller of the user. *)
Definition lists (token : McpTokenData) (w : dworld) (now : Z) : outcome rpc_throw rpc_response :=
  handleToolsCall open getMasterKeyByVersion JNull (Some list_params) token (reads_of w now).

Lemma lists_eq token w now u :
  gr_userId (td_grant token) = Some u -> u <> [] -> scope_in CREDENTIALS_LIST (td_scopes token) = true ->
  lists token w now =
    match findActiveDelegationSession u (td_tokenId token) now w with
    | None => Ok (RpcError JNull (-32603))
    | Some (sid, _) =>
        match delegated_entries open getMasterKeyByVersion u sid (reads_of w now) with
        | Ok l => Ok (RpcSuccess JNull (RText (TrEntries (take 50 l) (length l))))
        | Throw e => Throw (RpcDelegation e)
        end
    end.
Proof.
  intros Hu Hne Hs. unfold lists, handleToolsCall. cbv zeta.
  change (json_get (default JNull (Some list_params)) (js "name")) with (JStr (js "list_credentials")).
  change (json_has (default JNull (Some list_params)) (js "arguments")) with false.
  change (js_to_text (JStr (js "list_credentials"))) with (Some (js "list_credentials")).
  change (falsy (JStr (js "list_credentials"))) with false. cbv iota.
  assert (E : hasRequiredScope (td_scopes token) (TOOL_SCOPE_MAP (js "list_credentials")) = true) by exact Hs. rewrite E.
  rewrite (bool_decide_eq_true_2 (js "list_credentials" = js "list_credentials")) by done.
  unfold toolListCredentials. change (listCredentialsSchema None) with (Some {| pg_limit := 50; pg_offset := 0 |}).
  assert (En : nonempty (gr_userId (td_grant token)) = Some u) by by apply nonempty_Some. rewrite En.
  change (tr_now (reads_of w now)) with now. change (tr_s (reads_of w now)) with w. cbv iota beta. cbn [negb].
  destruct (findActiveDelegationSession _ _ _ _) as [[sid s]|]; [|done].
  by destruct (delegated_entries _ _ _ _ _).
Qed.

(** A caller who may ask about a token's client. *)
Record may_ask (a : AuthResult) (u c e tok : jsstr) (w : dworld) : Prop := {
  ma_user : auth_userId a = Some u;
  ma_params : checkParamsSchema (Some c) (Some e) = Some (c, e);
  ma_binding : forall d, mcp_binding a = Some d -> td_mcpClientId d = c /\ td_tokenId d = tok;
  ma_client : exists at_ cl, mw_access (dw_mcp w) !! tok = Some at_
    /\ mw_clients (dw_mcp w) !! gr_clientId (at_grant at_) = Some cl /\ mc_clientId cl = c }.

Lemma created_newest p t u tok sid b version now exp k w w' later :
  created seal t u tok sid b version now exp k w w' ->
  (forall k0 s0, dw_sessions w !! k0 = Some s0 -> ds_createdAt s0 < now) -> later < exp ->
  p (created_row t u tok b now exp) = true ->
  newest (fun _ s => p s && session_active later s) w' = Some (sid, created_row t u tok b now exp).
Proof.
  intros Hc Hold Hl Hp. apply newest_is; [apply Hc|..].
  - rewrite Hp. unfold session_active. cbn. by apply Z.ltb_lt.
  - intros k' s' Hk' _ Hne. destruct (cr_others _ _ _ _ _ _ _ _ _ _ _ _ Hc k' s' Hne Hk') as (s1 & H1 & [->|[-> _]]);
      exact (Hold k' s1 H1).
Qed.

Lemma check_created a t u c e tok sid b version now exp k w w' later :
  created seal t u tok sid b version now exp k w w' -> may_ask a u c e tok w ->
  (forall k0 s0, dw_sessions w !! k0 = Some s0 -> ds_createdAt s0 < now) -> later < exp ->
  get_delegation_check (Authenticated a) false false (Some c) (Some e) later w'
  = if bool_decide (e ∈ map dm_id (db_entries b)) then CkAuthorized sid exp else CkRefused Ck_entry_not_delegated.
Proof.
  intros Hc [Hu Hp Hb (at_ & cl & Ha & Hcl & Hc')] Hold Hl. unfold get_delegation_check. rewrite Hu, Hp.
  assert (Eb : match mcp_binding a with Some d => negb (td_mcpClientId d =s c) | None => false end = false).
  { destruct (mcp_binding a) as [d|]; [|done]. destruct (Hb d eq_refl) as [E _]. apply negb_false_iff. by apply bool_decide_eq_true_2. }
  assert (Ed : match a with AuthSession _ => false | _ => false end = false) by by destruct a.
  rewrite Eb, Ed. set (p := fun s => (ds_userId s =s u) && session_of_client c (td_tokenId <$> mcp_binding a) w' s).
  change (newest _ w') with (newest (fun _ s => p s && session_active later s) w').
  rewrite (created_newest p t u tok sid b version now exp k w w' later Hc Hold Hl); [done|].
  unfold p, session_of_client. cbn [ds_userId ds_mcpTokenId created_row]. rewrite (cr_mcp _ _ _ _ _ _ _ _ _ _ _ _ Hc), Ha, Hcl.
  rewrite !bool_decide_eq_true_2 by done. cbn. destruct (mcp_binding a) as [d|]; [|done]. cbn.
  destruct (Hb d eq_refl) as [_ ->]. by apply bool_decide_eq_true_2.
Qed.

(** Nothing of a user's is active. *)
Definition all_ended (u : jsstr) (w : dworld) (later : Z) : Prop :=
  forall k s, dw_sessions w !! k = Some s -> ds_userId s = u -> session_active later s = false.

Lemma newest_ended p u w later :
  all_ended u w later -> (forall s, p s = true -> ds_userId s = u) -> newest (fun _ s => p s && session_active later s) w = None.
Proof.
  intros He Hp. destruct (newest _ w) as [[k s]|] eqn:E; [|done]. apply newest_Some in E as (Hk & H & _).
  apply andb_true_iff in H as [H Ha]. by rewrite (He k s Hk (Hp s H)) in Ha.
Qed.

Lemma check_ended a u denied blocked c e later w sid exp :
  all_ended u w later -> auth_userId a = Some u ->
  get_delegation_check (Authenticated a) denied blocked c e later w <> CkAuthorized sid exp.
Proof.
  intros He Hu. unfold get_delegation_check. rewrite Hu. destruct (match a with AuthSession _ => false | _ => denied end); [done|].
  destruct blocked; [done|]. destruct (checkParamsSchema c e) as [[c' e']|]; [|done].
  destruct (match mcp_binding a with Some _ => _ | None => _ end); [done|].
  set (p := fun s => (ds_userId s =s u) && session_of_client c' (td_tokenId <$> mcp_binding a) w s).
  change (newest _ w) with (newest (fun _ s => p s && session_active later s) w). rewrite (newest_ended p u); [done..|].
  intros s Hs. apply andb_true_iff in Hs as [Hs _]. by apply bool_decide_eq_true in Hs.
Qed.

Lemma find_is_newest u tok later w :
  findActiveDelegationSession u tok later w
  = newest (fun _ s => ((ds_userId s =s u) && (ds_mcpTokenId s =s tok)) && session_active later s) w.
Proof. done. Qed.

(** C28: with nobody else acting and Redis answering, a creation that succeeds is in
    effect until it expires: a check of any caller of the user authorises exactly the
    approved entries, the agent lists exactly them, and if the user had at most one
    active session for the token, the new one is now the only one.  Ending all
    sessions, even when Redis is down, counts the active ones, leaves those of other
    users alone, and from then on no check authorises a caller of the user and no
    agent of the user lists anything. *)
Theorem delegation_lifecycle ev u t b w w' sid exp n k :
  let tok := uuid_text (db_mcpTokenId b) in
  undisturbed ev -> getMasterKeyByVersion (ev_version ev) = Some k ->
  (forall k0 s0, dw_sessions w !! k0 = Some s0 -> no_colon k0 /\ ds_createdAt s0 < ev_now ev) ->
  no_colon (ev_sessionId ev) -> dw_sessions w !! ev_sessionId ev = None ->
  dw_redis w !! delegationIndexKey u (ev_sessionId ev) = None -> NoDup (map dm_id (db_entries b)) ->
  post_delegation seal getMasterKeyByVersion is_uuid uuid_text (Some u) (Some t) false (Some b) ev w w w w w = (w', inr (sid, exp, n)) ->
  n = length (db_entries b) /\ exp = ev_now ev + effective_ttl b (dw_policy w !! t) * 1000
  /\ ((forall k1 k2 s1 s2, dw_sessions w !! k1 = Some s1 -> dw_sessions w !! k2 = Some s2 ->
         agent_session u tok (ev_now ev) s1 = true -> agent_session u tok (ev_now ev) s2 = true -> k1 = k2) ->
      forall k0 s0, dw_sessions w' !! k0 = Some s0 -> agent_session u tok (ev_now ev) s0 = true -> k0 = sid)
  /\ (forall now, ev_now ev <= now < exp ->
        (forall a c e, may_ask a u c e tok w ->
           get_delegation_check (Authenticated a) false false (Some c) (Some e) now w'
           = if bool_decide (e ∈ map dm_id (db_entries b)) then CkAuthorized sid exp else CkRefused Ck_entry_not_delegated)
        /\ (forall token, gr_userId (td_grant token) = Some u -> td_tokenId token = tok ->
              scope_in CREDENTIALS_LIST (td_scopes token) = true ->
              exists l, l ≡ₚ map toAgentFacing (db_entries b) /\ lists token w' now = Ok (RpcSuccess JNull (RText (TrEntries l n)))))
  /\ (forall tenantId mode fate now w'' m, delete_delegations (Some u) tenantId mode fate now w' w' = (w'', inr m) ->
        m = size (filter (fun ks => ds_userId (snd ks) = u /\ session_active now (snd ks) = true) (dw_sessions w'))
        /\ (forall k0 s0, dw_sessions w' !! k0 = Some s0 -> ds_userId s0 <> u -> dw_sessions w'' !! k0 = Some s0)
        /\ forall later, now <= later ->
             (forall a denied blocked c e sid' exp', auth_userId a = Some u ->
                get_delegation_check (Authenticated a) denied blocked c e later w'' <> CkAuthorized sid' exp')
             /\ (forall token, gr_userId (td_grant token) = Some u -> scope_in CREDENTIALS_LIST (td_scopes token) = true ->
                   lists token w'' later = Ok (RpcError JNull (-32603)))).
Proof.
  intros tok Hun Hk Hold Hsid Hnone Hidx Hnd Hpost.
  assert (Hcol : forall k0 s0, dw_sessions w !! k0 = Some s0 -> no_colon k0) by (intros k0 s0 H; by destruct (Hold k0 s0 H)).
  assert (Hlt : forall k0 s0, dw_sessions w !! k0 = Some s0 -> ds_createdAt s0 < ev_now ev) by (intros k0 s0 H; by destruct (Hold k0 s0 H)).
  destruct (post_created _ _ _ _ _ _ _ _ _ _ _ _ _ _ Hun Hk Hcol Hsid Hnone Hidx Hnd Hpost) as (Hu & Hb & -> & -> & Hexp & Hc).
  split_and!; [done|done|by apply (cr_replaced _ _ _ _ _ _ _ _ _ _ _ _ Hc)|..].
  - intros now [_ Hn]. split; [intros a c e Ha; by eapply check_created|].
    intros token Hgu Htok Hsc. rewrite (lists_eq token w' now u Hgu Hu Hsc), find_is_newest.
    rewrite (created_newest _ _ _ _ _ _ _ _ _ _ _ _ _ Hc Hlt Hn) by (cbn; rewrite !bool_decide_eq_true_2; done). cbv iota beta.
    destruct (delegated_entries_stored seal open getMasterKeyByVersion open_seal _ k u (ev_sessionId ev) Hk now exp (db_entries b) w'
      (cr_stored _ _ _ _ _ _ _ _ _ _ _ _ Hc) Hnd Hn) as (l & Hl & El). exists l. split; [done|]. unfold reads_of. rewrite El.
    assert (Hlen : length l = length (db_entries b)) by (by rewrite Hl, length_map). rewrite <- Hlen.
    rewrite take_ge; [done|]. unfold createDelegationSchema in Hb. apply andb_true_iff in Hb as [Hb _].
    apply andb_true_iff in Hb as [_ Hb]. apply Nat.leb_le in Hb. unfold DELEGATION_MAX_ENTRIES in Hb. lia.
  - intros tenantId mode fate now w'' m Hdel. destruct (revoke_all_ends _ _ _ _ _ _ _ _ _ eq_refl Hdel) as (Hend & Hoth & Hm).
    split_and!; [done|done|]. intros later Hn. assert (He : all_ended u w'' later) by (intros k0 s0 ? ?; by eapply Hend).
    split; [intros; by apply (check_ended _ u)|]. intros token Hgu Hsc. rewrite (lists_eq token w'' later u Hgu Hu Hsc), find_is_newest.
    rewrite (newest_ended _ u); [done|done|]. intros s Hs. apply andb_true_iff in Hs as [Hs _]. by apply bool_decide_eq_true in Hs.
Qed.
End Life.
