(* ===== verification/DelegationExamples.v ===== *)
(** * Delegation sessions on concrete tables

    A user, two entries, an agent's token with its refresh family: the witnesses of
    the properties, and what the handlers do where the code and its documentation
    part.  Sealing is an injective encoding that opens under its own key and
    associated data only. *)

From S2P Require Import Prelude JsString JsNumber JsJson Table McpOAuth SessionCache Delegation DelegationRoutes McpServer DelegationSafety DelegationLifecycle.
From stdpp Require Import fin_maps countable.
Local Open Scope Z_scope.
Local Open Scope js_scope.

(** ** A sealing *)

Fixpoint json_tree (v : json) : gen_tree jsstr :=
  match v with
  | JNull => GenNode 0 []
  | JBool b => GenNode (if b then 1 else 2) []
  | JNum NaN => GenNode 3 []
  | JNum (Inf b) => GenNode (if b then 4 else 5) []
  | JNum (Dbl m e) => GenNode 6 [GenLeaf [m; e]]
  | JStr s => GenLeaf s
  | JArr l => GenNode 7 (map json_tree l)
  | JObj l => GenNode 8 (map (fun kv => GenNode 0 [GenLeaf (fst kv); json_tree (snd kv)]) l)
  end.

Fixpoint tree_json (t : gen_tree jsstr) : json :=
  match t with
  | GenNode 1 _ => JBool true
  | GenNode 2 _ => JBool false
  | GenNode 3 _ => JNum NaN
  | GenNode 4 _ => JNum (Inf true)
  | GenNode 5 _ => JNum (Inf false)
  | GenNode 6 [GenLeaf [m; e]] => JNum (Dbl m e)
  | GenLeaf s => JStr s
  | GenNode 7 l => JArr (map tree_json l)
  | GenNode 8 l => JObj (map (fun t => match t with GenNode _ [GenLeaf k; v] => (k, tree_json v) | _ => ([], JNull) end) l)
  | _ => JNull
  end.

Lemma tree_json_tree v : tree_json (json_tree v) = v.
Proof.
  induction v as [|b|x|s|l IH|l IH] using json_ind'; cbn.
  - done.
  - by destruct b.
  - by destruct x as [|[]|].
  - done.
  - f_equal. induction IH as [|v l Hv _ IHl]; [done|]. cbn. by rewrite Hv, IHl.
  - f_equal. induction IH as [|[k v] l Hv _ IHl]; [done|]. cbn in *. by rewrite Hv, IHl.
Qed.

#[export] Instance json_eq_dec : EqDecision json.
Proof.
  intros v w. destruct (decide (json_tree v = json_tree w)) as [H|H]; [left|right; congruence].
  rewrite <- (tree_json_tree v), <- (tree_json_tree w). by f_equal.
Defined.
#[export] Instance json_countable : Countable json := inj_countable' json_tree tree_json tree_json_tree.

Definition ex_seal (k a n : jsstr) (v : json) : jsstr := [Z.pos (encode (k, a, n, v))].
Definition ex_open (k a c : jsstr) : option json :=
  match c with
  | [Z.pos p] =>
      match decode (A := jsstr * jsstr * jsstr * json) p with
      | Some (k', a', _, v) => if (k' =s k) && (a' =s a) then Some v else None
      | None => None
      end
  | _ => None
  end.

Lemma ex_open_seal k a n v : ex_open k a (ex_seal k a n v) = Some v.
Proof. unfold ex_open, ex_seal. rewrite decode_encode. by rewrite !bool_decide_eq_true_2. Qed.

Lemma ex_sealing_binds : sealing_binds ex_seal ex_open.
Proof.
  intros k a k' a' n v v'. unfold ex_open, ex_seal. rewrite decode_encode.
  do 2 case_bool_decide; cbn; try done. by intros [= ->].
Qed.

(** ** Tables *)

Definition ex_is_uuid (s : jsstr) : bool := Nat.eqb (length s) 36 && word 36 s.
Definition ex_keys (v : Z) : option jsstr := if v =? 1 then Some (js "master") else None.

Definition dg_id (s : String.string) : jsstr := js "00000000-0000-4000-8000-0000000000" ++ js s.
Definition dg_e1 : jsstr := dg_id "e1".
Definition dg_e2 : jsstr := dg_id "e2".
Definition dg_token : jsstr := dg_id "f1".
Definition dg_rotated : jsstr := dg_id "f0".
Definition dg_session : jsstr := dg_id "d1".

Definition dg_grant : mcp_grant :=
  {| gr_clientId := js "c"; gr_tenantId := js "t"; gr_userId := Some (js "u"); gr_serviceAccountId := None;
     gr_scope := js "credentials:list,credentials:use" |}.
Definition dg_access (h : jsstr) (revoked : option Z) : access_token :=
  {| at_tokenHash := h; at_grant := dg_grant; at_expiresAt := 9000000; at_revokedAt := revoked; at_lastUsedAt := None |}.
Definition dg_refresh (h tok : jsstr) (rotated : option Z) : refresh_token :=
  {| rt_tokenHash := h; rt_familyId := js "fam"; rt_familyCreatedAt := 0; rt_accessTokenId := tok; rt_grant := dg_grant;
     rt_expiresAt := 9000000; rt_rotatedAt := rotated; rt_revokedAt := None; rt_replacedByHash := None |}.
Definition dg_mcp (access : gmap jsstr access_token) (refresh : gmap jsstr refresh_token) : mcp_world :=
  {| mw_codes := ∅; mw_access := access; mw_refresh := refresh;
     mw_clients := {[ js "c" := {| mc_clientId := js "mcpc_agent"; mc_clientSecretHash := []; mc_isActive := true; mc_tenantId := Some (js "t") |} ]};
     mw_members := ∅; mw_tenants := ∅; mw_credentials := ∅ |}.
Definition dg_entry : entry_owner := {| eo_userId := js "u"; eo_tenantId := js "t"; eo_deletedAt := None |}.
Definition dg_world : dworld :=
  {| dw_mcp := dg_mcp {[ dg_token := dg_access (js "h1") None ]} {[ js "r1" := dg_refresh (js "k1") dg_token None ]};
     dw_entries := {[ dg_e1 := dg_entry; dg_e2 := dg_entry ]}; dw_policy := ∅; dw_sessions := ∅; dw_redis := ∅ |}.

Definition dg_m1 : DelegationMetadata :=
  {| dm_id := dg_e1; dm_title := js "Bank"; dm_username := Some (Some (js "ann")); dm_urlHost := None; dm_tags := Some (Some [js "money"]) |}.
Definition dg_m2 : DelegationMetadata :=
  {| dm_id := dg_e2; dm_title := js "Mail"; dm_username := None; dm_urlHost := Some None; dm_tags := None |}.
Definition dg_body : delegation_body :=
  {| db_mcpTokenId := dg_token; db_ttlSeconds := None; db_note := None; db_entries := [dg_m1; dg_m2] |}.
Definition dg_env (sid : jsstr) (now : Z) (others : nat -> dworld -> dworld) : delegation_env :=
  {| ev_sessionId := sid; ev_now := now; ev_configured := true; ev_store := all_done; ev_version := 1; ev_nonces := fun n => [Z.of_nat n];
     ev_rollback_fails := false; ev_mode := Up; ev_evict := all_done; ev_revoke_fails := false; ev_others := others |}.
Definition dg_post (ev : delegation_env) (w : dworld) : dworld * (delegation_error + (jsstr * Z * nat)) :=
  post_delegation ex_seal ex_keys ex_is_uuid js_to_lower (Some (js "u")) (Some (js "t")) false (Some dg_body) ev w w w w w.
Definition alone (_ : nat) (w : dworld) : dworld := w.

(** The tables once the user has approved the two entries. *)
Definition dg_done : dworld := fst (dg_post (dg_env dg_session 1000 alone) dg_world).

Definition dg_tokenData : McpTokenData :=
  {| td_tokenId := dg_token; td_grant := dg_grant; td_mcpClientId := js "mcpc_agent"; td_scopes := [CREDENTIALS_LIST; CREDENTIALS_USE] |}.
Definition dg_cookie : AuthOrTokenResult := Authenticated (AuthSession (js "u")).
Definition dg_check (now : Z) (w : dworld) : check_response :=
  get_delegation_check dg_cookie false false (Some (js "mcpc_agent")) (Some dg_e1) now w.

(** ** Witnesses *)

Definition dg_created : dworld := fst (create_delegation js_to_lower dg_world dg_world dg_world dg_world (js "u") (js "t") dg_body dg_session 1000 1000 1000 dg_world).
Definition dg_pending : pending :=
  {| pd_sessionId := dg_session; pd_userId := js "u"; pd_tenantId := js "t"; pd_mcpTokenId := dg_token; pd_entries := [dg_m1; dg_m2];
     pd_ttlMs := 900000; pd_old := None; pd_expiresAt := 901000 |}.

Lemma dg_create : create_delegation js_to_lower dg_world dg_world dg_world dg_world (js "u") (js "t") dg_body dg_session 1000 1000 1000 dg_world
  = (dg_created, inr dg_pending).
Proof. vm_compute. reflexivity. Qed.

Lemma dg_store : store_pending ex_seal ex_keys true all_done 1000 1 (fun n => [Z.of_nat n]) dg_pending dg_created = (dg_done, Ok tt).
Proof. vm_compute. reflexivity. Qed.

Lemma no_colon_dec (s : jsstr) : bool_decide (58 ∈ s) = false -> no_colon s.
Proof. by intros ?%bool_decide_eq_false. Qed.

(** The tables, the approval committed, its entries stored. *)
Lemma dg_run : drun ex_seal ex_open ex_keys ex_is_uuid js_to_lower [dg_done; dg_created; dg_world] [dg_pending].
Proof.
  assert (Hin : dg_world ∈ [dg_world]) by by left.
  eapply drun_store; [|by left|exact dg_store].
  eapply drun_create; [by apply drun_start|exact Hin..| | | | |exact dg_create].
  - vm_compute. reflexivity.
  - by apply no_colon_dec.
  - by apply no_colon_dec.
  - by intros ?%elem_of_nil.
Qed.

Lemma dg_checked : dg_check 2000 dg_done = CkAuthorized dg_session 901000.
Proof. vm_compute. reflexivity. Qed.

Lemma delegation_check_sound_witness :
  exists s, dw_sessions dg_done !! dg_session = Some s /\ ds_userId s = js "u" /\ 2000 < 901000
    /\ exists tok, mw_access (dw_mcp dg_world) !! ds_mcpTokenId s = Some tok /\ canDelegate (gr_scope (at_grant tok)) = true.
Proof.
  destruct (delegation_check_sound ex_seal ex_open ex_keys ex_is_uuid js_to_lower _ _ dg_done dg_cookie false false (Some (js "mcpc_agent"))
              (Some dg_e1) 2000 dg_session 901000 dg_run (list_elem_of_here _ _) dg_checked)
    as (a & u & c & e & s & p & Ha & Hu & _ & _ & _ & Hs & Hsu & _ & Hn & _).
  exists s. injection Ha as <-. injection Hu as <-. split_and!; [exact Hs|exact Hsu|exact Hn|].
  assert (E : ds_mcpTokenId s = dg_token) by (vm_compute in Hs; injection Hs as <-; reflexivity). rewrite E.
  exists (dg_access (js "h1") None). split; vm_compute; reflexivity.
Defined.

Definition dg_request : json :=
  JObj [(js "jsonrpc", JStr (js "2.0")); (js "id", JNum (Dbl 1 0)); (js "method", JStr (js "tools/call")); (js "params", list_params)].
Definition dg_shown : list AgentFacingDelegationEntry := [toAgentFacing dg_m2; toAgentFacing dg_m1].

Lemma dg_answer :
  handleMcpRequest ex_open ex_keys true dg_request dg_tokenData (reads_of dg_done 2000)
  = Ok (RpcSuccess (JNum (Dbl 1 0)) (RText (TrEntries dg_shown 2))).
Proof. vm_compute. reflexivity. Qed.

Lemma mcp_tools_confined_witness :
  Forall (fun a => exists p m, p ∈ [dg_pending] /\ m ∈ pd_entries p /\ a = toAgentFacing m) dg_shown.
Proof.
  destruct (mcp_tools_confined ex_seal ex_open ex_keys ex_is_uuid js_to_lower _ _ (reads_of dg_done 2000) true dg_request dg_tokenData
              _ _ _ ex_sealing_binds dg_run (list_elem_of_here _ _) (list_elem_of_here _ _) dg_answer)
    as (_ & u & sid & s & p & _ & _ & _ & _ & _ & Hp & _ & _ & _ & Hall & _).
  apply list.Forall_forall. intros a Ha. destruct (Hall a Ha) as (m & Hm & E & _). exists p, m. exact (conj Hp (conj Hm E)).
Defined.

Lemma dg_posted : dg_post (dg_env dg_session 1000 alone) dg_world = (dg_done, inr (dg_session, 901000, 2%nat)).
Proof. vm_compute. reflexivity. Qed.

Lemma dg_undisturbed : undisturbed (dg_env dg_session 1000 alone).
Proof. by split. Qed.

Lemma dg_ids_distinct : NoDup (map dm_id (db_entries dg_body)).
Proof. apply (bool_decide_unpack _). vm_compute. exact I. Qed.

(** The tables once the user has locked the vault while Redis was down. *)
Definition dg_locked : dworld := fst (delete_delegations (Some (js "u")) (Some (js "t")) Failing (fun _ => all_done) 5000 dg_done dg_done).

Lemma delegation_lifecycle_witness :
  (exists l, l ≡ₚ dg_shown /\ lists ex_open ex_keys dg_tokenData dg_done 2000 = Ok (RpcSuccess JNull (RText (TrEntries l 2))))
  /\ lists ex_open ex_keys dg_tokenData dg_locked 5000 = Ok (RpcError JNull (-32603)).
Proof.
  assert (Hdel : delete_delegations (Some (js "u")) (Some (js "t")) Failing (fun _ => all_done) 5000 dg_done dg_done = (dg_locked, inr 1%nat))
    by (vm_compute; reflexivity).
  destruct (delegation_lifecycle ex_seal ex_open ex_keys ex_is_uuid js_to_lower ex_open_seal (dg_env dg_session 1000 alone) (js "u") (js "t")
              dg_body dg_world dg_done dg_session 901000 2%nat (js "master") dg_undisturbed eq_refl
              (fun k s H => ltac:(discriminate H)) (no_colon_dec dg_session eq_refl) eq_refl eq_refl dg_ids_distinct dg_posted)
    as (_ & _ & _ & Hlive & Hend).
  split.
  - destruct (Hlive 2000 ltac:(vm_compute; split; congruence)) as [_ Hl].
    destruct (Hl dg_tokenData eq_refl eq_refl eq_refl) as (l & Hp & E). exists l. split; [|exact E].
    rewrite Hp. apply perm_swap.
  - destruct (Hend _ _ _ _ _ _ Hdel) as (_ & _ & H). apply (proj2 (H 5000 (Z.le_refl 5000)) dg_tokenData eq_refl eq_refl).
Defined.

(** ** Where the code and its documentation part *)

Definition dg_rebound (tok : jsstr) (w : dworld) : dworld :=
  with_sessions ((fun s => {| ds_tenantId := ds_tenantId s; ds_userId := ds_userId s; ds_mcpTokenId := tok; ds_entryIds := ds_entryIds s;
    ds_note := ds_note s; ds_expiresAt := ds_expiresAt s; ds_revokedAt := ds_revokedAt s; ds_createdAt := ds_createdAt s |})
    <$> dw_sessions w) w.

(** A session approved for a token that has since been rotated: the token's
    successor is the live one. *)
Definition dg_after_rotation : dworld :=
  with_mcp (dg_mcp {[ dg_rotated := dg_access (js "h0") (Some 1500); dg_token := dg_access (js "h1") None ]}
              {[ js "r0" := dg_refresh (js "k0") dg_rotated (Some 1500); js "r1" := dg_refresh (js "k1") dg_token None ]})
    (dg_rebound dg_rotated dg_done).

(** Ending one connection ends it; ending all of them does not. *)
Lemma revoke_all_misses_rotated :
  dg_check 3000 (fst (fst (delete_mcp_tokens (js "u") (js "t") 3000 dg_after_rotation))) = CkAuthorized dg_session 901000
  /\ option_map (fun r => dg_check 3000 (fst r)) (delete_mcp_token (js "u") (js "t") dg_token 3000 dg_after_rotation)
     = Some (CkRefused Ck_no_session).
Proof. split; vm_compute; reflexivity. Qed.

(** The check by a session cookie does not look at the token: it may be revoked. *)
Lemma check_ignores_revoked_token :
  dg_check 2000 (with_mcp (dg_mcp {[ dg_token := dg_access (js "h1") (Some 1500) ]} ∅) dg_done) = CkAuthorized dg_session 901000.
Proof. vm_compute. reflexivity. Qed.

Definition dg_session2 : jsstr := dg_id "d2".
Definition dg_active (now : Z) (w : dworld) : nat := count_where (fun _ s => (ds_userId s =s js "u") && session_active now s) w.

(** Two creations for one token, the second before the first has stored its entries:
    each read the tables before the other committed, and both sessions are active. *)
Definition dg_second (w : dworld) : dworld :=
  fst (create_delegation js_to_lower dg_world dg_world dg_world dg_world (js "u") (js "t") dg_body dg_session2 1000 1000 1000 w).
Lemma two_active_sessions :
  dg_active 2000 (fst (dg_post (dg_env dg_session 1000 (fun n w => if Nat.eqb n 0 then dg_second w else w)) dg_world)) = 2%nat.
Proof. vm_compute. reflexivity. Qed.

(** When the update that ends the replaced session fails, that session is in force
    again as soon as the user revokes the new one. *)
Definition dg_env_fails (sid : jsstr) (now : Z) : delegation_env :=
  {| ev_sessionId := sid; ev_now := now; ev_configured := true; ev_store := all_done; ev_version := 1; ev_nonces := fun n => [Z.of_nat n];
     ev_rollback_fails := false; ev_mode := Up; ev_evict := all_done; ev_revoke_fails := true; ev_others := alone |}.
Lemma older_session_returns :
  let w := fst (dg_post (dg_env_fails dg_session2 2000) dg_done) in
  dg_check 3000 w = CkAuthorized dg_session2 902000
  /\ dg_check 3000 (fst (delete_delegation ex_is_uuid js_to_lower (Some (js "u")) (Some (js "t")) dg_session2 Up all_done 3000 w))
     = CkAuthorized dg_session 901000.
Proof. split; vm_compute; reflexivity. Qed.

(** A creation under way survives the lock of the vault. *)
Lemma creation_survives_lock :
  let lock w := fst (delete_delegations (Some (js "u")) (Some (js "t")) Up (fun _ => all_done) 1000 dg_world w) in
  dg_check 2000 (fst (dg_post (dg_env dg_session 1000 (fun n w => if Nat.eqb n 0 then lock w else w)) dg_world))
  = CkAuthorized dg_session 901000.
Proof. vm_compute. reflexivity. Qed.

(** A session revoked under a name in capitals leaves its entries in Redis: the
    database takes any case, the keys do not. *)
Lemma capitals_leave_entries :
  let w := fst (delete_delegation ex_is_uuid js_to_lower (Some (js "u")) (Some (js "t"))
                  (js "00000000-0000-4000-8000-0000000000D1") Up all_done 3000 dg_done) in
  dg_check 3000 w = CkRefused Ck_no_session
  /\ fetchDelegationEntry ex_open ex_keys Up 3000 (js "u") dg_session dg_e1 w = Ok (Some dg_m1).
Proof. split; vm_compute; reflexivity. Qed.

(** A body that is the JSON value null throws. *)
Lemma null_body_throws rd : handleMcpRequest ex_open ex_keys true JNull dg_tokenData rd = Throw RpcTypeError.
Proof. done. Qed.

(** A tool named as a property that every object inherits is refused for its scope,
    and one that nobody knows is unknown. *)
Lemma inherited_tool_name rd :
  handleToolsCall ex_open ex_keys JNull (Some (JObj [(js "name", JStr (js "constructor"))])) dg_tokenData rd = Ok (RpcError JNull (-32003))
  /\ handleToolsCall ex_open ex_keys JNull (Some (JObj [(js "name", JStr (js "nothing"))])) dg_tokenData rd = Ok (RpcError JNull (-32601)).
Proof. split; vm_compute; reflexivity. Qed.
